(* ===== verification/_CoqProject ===== *)
-Q . S2P
Prelude.v
GoIO.v
Ja3.v
Quic.v
QuicTheorems.v
MatchState.v
DnsMsg.v
Sniff.v
SniffTheorems.v
Metadata.v
RuleItem.v
DemoEnv.v
RuleEngine.v
RuleTheorems.v
DnsRule.v
HeadlessRule.v
RuleBlind.v
Srs.v
SrsTheorems.v
SavedBinary.v
RuleSet.v
RuleSetTheorems.v
RuleObject.v
DnsClient.v
DnsClientTheorems.v
DnsOptions.v
DnsMode.v
DnsRuleBuild.v
DnsRouter.v
DnsBuildTheorems.v
DnsRouterTheorems.v
FakeIPStorage.v
FakeIP.v
OutboundManager.v
OutboundTheorems.v
DnsTransport.v
RouteMatch.v
RouteSniff.v
RouteDispatch.v
RouteOptions.v
RouteRule.v
RouteRuleTheorems.v
RouteRouter.v
RouteRouterTheorems.v
RouteDispatchTheorems.v
InboundManager.v
PanelRules.v
PanelUsers.v
PanelTracker.v
PanelTrackerTheorems.v
PanelAccounting.v
PanelLimits.v
PanelController.v
PanelControllerTheorems.v
PanelMsgpack.v
TlsFragment.v
OutboundGroup.v
Geosite.v
GoStrings.v
BadVersion.v
ConnPool.v
ConnPoolTheorems.v
AdGuard.v
SingBuf.v
Trojan.v
Framing.v
Sip003.v
