(* ===== verification/Prelude.v ===== *)
(** * singlink: a verification library

    singlink (src/) is a universal proxy.  A connection enters through an
    inbound, is described by an [InboundContext], is matched against the route
    rules, and leaves through an outbound; names are resolved by a DNS router
    with rules of its own, through servers that may hand out fake addresses;
    rules may refer to rule-sets, loaded from JSON or binary (.srs) files or
    downloaded, and cached in a database file.  A server can be managed by a
    panel, which sends nodes and users and receives traffic reports.  This
    library models the part of the program that takes these decisions and keeps
    their state, and proves what makes it correct.  The sources are Go; file
    names below are relative to src/.

    ** Conventions

    A Go function that can fail returns a [result]: a value, an error or a
    panic, kept apart.  Machine integers are [Z] with their wrap-around
    written out.  Maps are [gmap]s, slices are lists, nil slices that the
    code tells apart from empty ones are options ([Listable]).  A method that
    changes its receiver takes the state and returns the new one; where the
    code writes through a shared pointer (the metadata of a connection, the
    counters of a tracker) the written fields or a heap are threaded through
    the steps.  Where goroutines interleave (remote rule-sets, the pool of DNS
    connections, traffic accounting, the controller of a panel node) the
    component is a transition system and the theorems are about all its runs.

    ** Fuel

    Loops that are not structural carry a fuel argument, and the theorems show
    that the fuel given by the entry point is never exhausted: the length of
    the input for the readers of rule-sets ([srs_read_terminates]), for the QUIC
    frames and the search of the next fragment ([quic_sniffer_returns]), for the
    plugin options ([ParsePluginOptions_ends]), for the pieces of a rate limiter
    ([waitRate_total]) and of an obfuscated write ([obfs_writes_carried]); the
    number of elements plus one for the start loops ([start_terminates],
    [transports_start_in_order]), the size of the tag map plus one for the
    search of a dependency cycle, the number of rules plus one for the retries
    of a DNS query ([legacy_queries_end]).  The MessagePack decoder refuses a
    nesting deeper than 64; its fuel is 66 ([msgpack_decode_exact]).  The loop
    over the extensions of a hello in common/tlsfragment does end only for
    inputs below 64 KiB; the theorems about it say so, and
    [long_extension_loops] shows why.

    ** Parameters

    Code that is not under src/ is a parameter: the domain matchers, regular
    expressions, address parsing and address sets ([GoEnv] in Metadata, which
    returns: [GoEnvReturns] in DnsBuildTheorems), the matcher codecs and zlib
    ([SrsEnv] in Srs, with [SrsLaws] in SrsTheorems), [varbin.WriteUvarint]
    ([UvarintWriter] in GoIO), the DNS library, the LRU cache and bbolt (DnsMsg,
    DnsClient, FakeIPStorage, with their laws), [ParseSocksaddrHostPort]
    (RouteRule), the cryptography of QUIC ([QuicCrypto]), the TLS, HTTP and DNS
    parsers the sniffers call ([SniffEnv]), name and address checks
    ([AdGuardEnv]), buffers ([BufEnv] in SingBuf), SHA-224 and the addresses of
    the SOCKS encoding ([TrojanEnv]), SHA-256, [time.Parse] and the order of a
    range over a map ([GoRange]) in the panel files.  The outcome of I/O is an
    argument of the functions that do it: the HTTP exchange, the JSON decoder,
    the clock and the database writes (RuleSet, SavedBinary), the exchange with
    a DNS server and the clock at each step (DnsClient, DnsRouter), the services
    of the router (RouteMatch, [StartEnv] in RouteRouter), what a connection
    does when it is read (Sniff, RouteSniff, Trojan, Framing), the protocol code
    behind Start and Close (OutboundManager, DnsTransport, InboundManager), the
    answers of a panel and the translation of a node to an inbound
    (PanelController), dials and their ends (ConnPool, OutboundGroup).  DemoEnv
    and the ends of the files instantiate them with concrete functions, on
    which the witnesses of the theorems are evaluated.

    ** Files

    - Prelude: results, integers, bytes, shared lemmas, tactics and the hint
      databases [go] and [go_simpl].
    - GoIO: readers and writers of encoding/binary, varints, and the laws
      [decodes], [shrinks].  GoStrings: functions of strings and bufio.
      SingBuf: buffers.
    - DnsMsg: the messages and records of the DNS library.

    Rules.
    - MatchState (route/rule/match_state.go): sets of group states as 16-bit
      masks, with their algebra.
    - Metadata (adapter/inbound.go, network.go): connection metadata,
      addresses of a DNS response.
    - RuleItem (route/rule/rule_item_*.go): the rule items, their
      constructors and [Match].
    - DemoEnv: a concrete environment.
    - RuleEngine, RuleTheorems (route/rule/rule_abstract.go,
      rule_item_rule_set.go): evaluation of default and logical rules and of
      nested rule-sets.
    - RuleBlind: changes of the metadata that no item of a rule sees.
    - RuleObject (rule_abstract.go): rules as the routers hold them, their
      Start and Close, and the references they take on rule-sets.

    Rule-sets.
    - HeadlessRule (option/rule_set.go, route/rule/rule_headless.go,
      rule_set.go): options, constructors and metadata of the rules of a
      rule-set.
    - Srs, SrsTheorems (common/srs): the binary rule-set format.
    - SavedBinary (adapter/experimental.go, experimental/cachefile/cache.go):
      what the cache file keeps of a downloaded rule-set.
    - RuleSet, RuleSetTheorems (route/rule/rule_set_local.go,
      rule_set_remote.go, rule_item_rule_set.go): local and remote rule-sets,
      the remote one also as a system of concurrent steps.
    - Geosite (common/geosite): the database of domain lists.
    - AdGuard (common/convertor/adguard): filters translated to rules.

    DNS.
    - DnsRule (route/rule/rule_dns.go): the three evaluations of a DNS rule.
    - DnsClient, DnsClientTheorems (dns/client.go,
      dns/extension_edns0_subnet.go): exchanges, and the cache of responses.
    - DnsOptions (option/rule_dns.go, rule_action.go): options of DNS rules,
      nested actions, deprecation notes.
    - DnsMode (dns/router.go): which of the two modes the rules need.
    - DnsRuleBuild (rule_dns.go, rule_action.go): constructors of DNS rules
      and actions.
    - DnsRouter (dns/router.go): start, updates, queries in both modes.
    - DnsBuildTheorems, DnsRouterTheorems: theorems on the construction, the
      mode and the references; theorems on queries.
    - FakeIPStorage, FakeIP (adapter/fakeip*.go, dns/transport/fakeip,
      experimental/cachefile/fakeip.go): storage and allocation of fake
      addresses.
    - DnsTransport (dns/transport_manager.go): the registry of DNS servers.
    - ConnPool, ConnPoolTheorems (dns/transport/conn_pool.go): the pool of
      connections to a DNS server.

    Routing.
    - OutboundManager, OutboundTheorems (adapter/outbound/manager.go,
      adapter/lifecycle.go): the registry of outbounds.
    - InboundManager (adapter/inbound/manager.go): the registry of inbounds.
    - OutboundGroup (protocol/group, common/interrupt, common/urltest): the
      selector and URL test groups.
    - Ja3, Quic, QuicTheorems (common/ja3, common/sniff/quic.go): client hellos,
      and those inside QUIC packets.
    - Sniff, SniffTheorems (common/sniff): the sniffers, [PeekStream],
      [PeekPacket].
    - RouteMatch, RouteSniff (route/route.go, [Router.matchRule]): the
      completion of the metadata of a connection, the selection of its rule,
      the sniff and resolve actions.
    - RouteDispatch, RouteDispatchTheorems (route/route.go): what becomes of a
      routed connection.
    - RouteOptions (option/rule.go, rule_action.go, route/rule_conds.go):
      options of route rules and what they ask about a connection.
    - RouteRule, RouteRuleTheorems (route/rule/rule_default.go,
      rule_action.go): constructors of route rules and actions, and their
      meaning.
    - RouteRouter, RouteRouterTheorems (route/router.go): the life cycle of
      the router.

    Panel (service/v2board).
    - PanelRules, PanelUsers (tracker.go, types.go, models.go): the routes that
      block connections; the users and their digest.
    - PanelTracker, PanelTrackerTheorems, PanelAccounting, PanelLimits
      (tracker.go, rate_limit.go): traffic counters, reports, device and speed
      limits.
    - PanelController, PanelControllerTheorems (controller.go, service.go):
      synchronisation with the panel, and reports.
    - PanelMsgpack (msgpack.go): the decoder of the user list.

    Protocols and transports.
    - TlsFragment (common/tlsfragment): hellos sent in pieces.
    - Trojan (transport/trojan, protocol/trojan/inbound.go): the trojan client,
      service and inbound.
    - Framing (transport/v2raygrpclite/conn.go, transport/simple-obfs): streams
      in frames.
    - Sip003 (transport/sip003): the options of shadowsocks plugins.
    - BadVersion (common/badversion): version numbers.

    ** What is proved

    - What a rule means.  A default rule is the conjunction of its groups and
      a logical rule that of its sub-rules, up to inversion
      ([default_rule_semantics], [logical_rule_semantics]); the states the
      engine computes only grow from the inherited ones, so that a rule-set
      item amounts to merging its rules into the referring one
      ([states_extend_base], [rule_set_merges]); the constructors implement
      the meaning of the options ([headless_rule_semantics],
      [route_rule_semantics]); [dns_logical_semantics] and
      [legacy_prematch_complete] for DNS rules; [adguard_semantics] for
      filters and [panel_routes_semantics] for the routes of a panel.
    - Formats: round trips, preservation of meaning by compilation, termination
      on every input, the version gate ([srs_roundtrip],
      [compiled_rule_set_equivalent], [srs_read_terminates],
      [srs_version_gate], [geosite_roundtrip], [version_roundtrip],
      [plugin_options_read_back]); [msgpack_decode_exact] against the grammar
      of the MessagePack specification.
    - Rule-sets: atomic reloads, the invariants under every interleaving of
      downloads, cleanups and Close, restoration after a restart
      ([reload_all_or_nothing], [metadata_describes_rules],
      [closed_rule_set_stays_empty], [restart_restores_download]).
    - Selection: the first matching rule wins; the process of a connection is
      looked up unless no rule can ask for it; the references on rule-sets are
      given back ([route_first_match_wins], [process_search_unneeded],
      [route_rules_refs_balanced]).
    - Dispatch: the bytes and packets read for sniffing are not lost, the
      outbound exists, no input makes routing panic ([routed_stream_intact],
      [routed_packets_kept], [routing_safe]); when the answer of the sniffers
      is given and when it is final ([peek_stream_verdict]); a hello spread
      over QUIC packets is found ([quic_hello_sniffed]).
    - DNS: the mode a router runs in fits its rules and keeps fitting them
      ([dns_rules_fit_mode], [accepted_updates_keep_mode],
      [response_rules_follow_evaluate]); starting and closing never panic and
      balance the references ([dns_router_refs_balanced]); lookups never use
      fake addresses, queries end, the first matching rule answers
      ([lookup_never_asks_fakeip], [legacy_queries_end],
      [legacy_first_rule]); cached answers are answers that were accepted for
      the same question, with bounded lifetimes ([cached_answers_sound],
      [cached_ttl_bounds], [exchange_answer]).
    - Fake addresses: domains and addresses correspond one to one, stay in
      the range and survive a restart ([fakeip_mappings_inverse],
      [fakeip_address_in_range], [fakeip_address_stable], [fakeip_restart]).
    - Connection pool: no connection is leaked or used twice, no caller waits
      for ever ([pool_connections_accounted], [pool_exclusive],
      [pool_waiters_woken], [pool_created_once]).
    - Registries and groups: consistency, removal, soundness, completeness and
      termination of the dependency-ordered start ([manager_consistent],
      [remove_respects_dependents], [start_order_sound],
      [start_order_complete], [start_terminates],
      [transport_registry_consistent]); the choice of an URL test group and
      the connections a change interrupts ([urltest_choice],
      [urltest_switch_interrupts], [selection_survives_restart]).
    - Panel: every byte is accounted for, the users served are those tracked,
      synchronisation converges, the device limit holds, the digest sees every
      change ([traffic_conserved], [push_accounts], [served_users_tracked],
      [sync_converges], [device_limit_enforced], [users_digest_exact]).
    - Transports: what is written arrives ([fragments_carry_hello],
      [gun_stream_intact], [obfs_writes_carried], [obfs_responses_intact],
      [http_responses_intact], [trojan_request_understood],
      [trojan_packets_arrive]); nobody is served by a trojan inbound without
      the key of a user ([trojan_fallback_intact]).

    Many of these theorems have conditions, which the comment before each of
    them names; where the code does something else without a condition a lemma
    shows it: [concurrent_updates_break_mode], [remove_default_transport],
    [remove_depended_transport], [srs_read_panics_on_count],
    [network_rule_without_manager_matches_all], [replaced_default_is_stale],
    [remove_after_close_panics], [duplicate_dependency_loses_users],
    [old_range_survives_restart], [cached_answer_unchecked],
    [address_filter_satisfied_by_domain], [snapshot_threshold_loses],
    [late_track_loses], [node_change_lost], [marshalJA3_ignores_values],
    [quic_retransmission_blocks], [two_sniffs_reorder_stream],
    [two_sniffs_duplicate_packet], [long_extension_loops],
    [only_first_label_cut], [tolerance_wraps], [zero_delay_replaced],
    [second_close_panics], [nested_history_kept], [geosite_panics_on_count],
    [commit_breaks_order], [exceptions_become_important],
    [only_important_matches_all], [key_in_two_pieces],
    [failed_request_not_repeated], [truncated_length_no_error],
    [header_in_pieces_fails].

    ** Not modelled

    Socket and operating system code (most protocols and transports, dialers,
    TLS, interface monitoring, hijacked DNS connections), the JSON decoding of
    options, logging, generated and vendored code.  Timers: the updater of
    rule-sets, the loops of the controller and of the URL test group; the
    operations they call are modelled.  The HTTP client of the panel, the
    translation of its nodes to inbounds (mapper.go), and the deletion of a
    node in the accounting.  The registries of endpoints, services and
    certificate providers, which repeat the one of inbounds without new
    behaviour; the statistics of common/trafficcontrol and service/ssmapi; the
    buckets of the cache file for modes, selections and rejected domains, apart
    from their use.  Locks are not modelled as such: the operations of the
    registries are taken as atomic, and the steps of a transition system are
    the locked regions of its component; in PanelAccounting looking a user up
    and registering the connection are one step, although they are two in the
    code ([late_track_loses]). *)
From Stdlib Require Import ZArith Lia Bool.
From Stdlib Require Export Init.Byte.
From stdpp Require Export base gmap strings list list_numbers pretty.

#[global] Open Scope Z_scope.

(** ** Errors and outcomes

    Go functions of this program end in one of three ways: they return a
    value with a nil error, they return a non-nil error, or they panic.
    [result] keeps the three apart, so that a theorem about "returns an
    error" never silently covers a crash. *)

Inductive go_error :=
| EOF                                        (* io.EOF *)
| ErrUnexpectedEOF                           (* io.ErrUnexpectedEOF *)
| ErrOverflow                                (* encoding/binary: varint overflows a 64-bit integer *)
| ErrInvalid                                 (* os.ErrInvalid *)
| ErrClosed                                  (* os.ErrClosed *)
| ErrNeedMoreData                            (* sniff.ErrNeedMoreData *)
| ENew (message : string)                    (* E.New / fmt.Errorf *)
| ECause (cause : go_error) (message : string) (* E.Cause / E.Extend *)
| EErrors (first second : go_error)          (* E.Errors of two errors *)
| RcodeError (rcode : Z)                     (* dns.RcodeError *)
| RejectedError (cause : go_error)           (* rule.RejectedError *)
| OutOfFuel.                                 (* no Go error: the model's recursion bound, proved unreachable *)

Inductive result (A : Type) :=
| Ok (value : A)
| Err (err : go_error)
| Panic (message : string).
Arguments Ok {A} value.
Arguments Err {A} err.
Arguments Panic {A} message.

#[export] Instance go_error_eq_dec : EqDecision go_error.
Proof. solve_decision. Defined.

#[export] Instance result_eq_dec `{EqDecision A} : EqDecision (result A).
Proof. solve_decision. Defined.

(** [errors.Is(err, target)] *)
Fixpoint errors_Is (e target : go_error) : bool :=
  bool_decide (e = target)
  || match e with
     | ECause cause _ => errors_Is cause target
     | RejectedError cause => errors_Is cause target
     | EErrors e1 e2 => errors_Is e1 target || errors_Is e2 target
     | _ => false
     end.

Definition bind_result {A B} (m : result A) (k : A -> result B) : result B :=
  match m with
  | Ok a => k a
  | Err e => Err e
  | Panic s => Panic s
  end.

(** [x, err := m; if err != nil { return E.Cause(err, msg) }] *)
Definition with_cause {A} (msg : string) (m : result A) : result A :=
  match m with
  | Ok a => Ok a
  | Err e => Err (ECause e msg)
  | Panic s => Panic s
  end.

Declare Scope go_scope.
Delimit Scope go_scope with go.
Notation "'let*' x := m 'in' k" := (bind_result m (fun x => k))
  (at level 10, x pattern, m at level 100, k at level 200) : go_scope.
#[global] Open Scope go_scope.

Definition is_ok {A} (m : result A) : bool :=
  match m with Ok _ => true | _ => false end.

Definition is_panic {A} (m : result A) : bool :=
  match m with Panic _ => true | _ => false end.

(** The loop [for _, x := range xs { y, err := f(x); if err != nil { return err }; ys = append(ys, y) }]. *)
Fixpoint map_result {A B} (f : A -> result B) (xs : list A) : result (list B) :=
  match xs with
  | [] => Ok []
  | x :: xs' => let* y := f x in let* ys := map_result f xs' in Ok (y :: ys)
  end.

(** ** Machine integers (64-bit platform)

    A w-bit unsigned integer is a [Z] in [0, 2^w); conversions truncate. *)

Definition wrap (w z : Z) : Z := z mod 2 ^ w.
Definition uint8 (z : Z) : Z := wrap 8 z.
Definition uint16 (z : Z) : Z := wrap 16 z.
Definition uint32 (z : Z) : Z := wrap 32 z.
Definition uint64 (z : Z) : Z := wrap 64 z.

(** Conversion to a signed w-bit integer (two's complement). *)
Definition swrap (w z : Z) : Z := (z + 2 ^ (w - 1)) mod 2 ^ w - 2 ^ (w - 1).
Definition int8 (z : Z) : Z := swrap 8 z.
Definition int16 (z : Z) : Z := swrap 16 z.
Definition int32 (z : Z) : Z := swrap 32 z.
Definition int64 (z : Z) : Z := swrap 64 z.

Definition is_uint (w z : Z) : Prop := 0 <= z < 2 ^ w.
Definition is_sint (w z : Z) : Prop := - 2 ^ (w - 1) <= z < 2 ^ (w - 1).

#[export] Instance is_uint_dec w z : Decision (is_uint w z).
Proof. unfold is_uint. apply _. Defined.

(** ** Bytes *)

Definition Z_of_byte (b : byte) : Z := Z.of_N (Byte.to_N b).

(** [byte(z)]: keeps the low eight bits. *)
Definition byte_of_Z (z : Z) : byte :=
  match Byte.of_N (Z.to_N (z mod 256)) with Some b => b | None => x00 end.

#[export] Instance byte_eq_dec : EqDecision byte := Byte.byte_eq_dec.

#[export] Instance byte_countable : Countable byte.
Proof. refine (inj_countable Byte.to_N Byte.of_N _). by intros []. Defined.

(** [string(bs)] and [[]byte(s)]. *)
Definition string_of_bytes (bs : list byte) : string := String.string_of_list_byte bs.
Definition bytes_of_string (s : string) : list byte := String.list_byte_of_string s.

Definition zlen {A} (l : list A) : Z := Z.of_nat (length l).

(** ** Tactics *)

(** Split every conjunction and existential of the context, substitute. *)
Ltac crush_hyps :=
  repeat match goal with
  | H : _ /\ _ |- _ => destruct H
  | H : exists _, _ |- _ => destruct H
  | _ => progress simplify_eq/=
  end.

(** Case analysis on the outcome of the first sub-computation of a bind. *)
Ltac bind_case H :=
  match type of H with
  | context [bind_result ?m _] =>
      let E := fresh "E" in destruct m eqn:E; cbn [bind_result] in H
  end.

(** Evaluate a closed goal. *)
Ltac by_compute := vm_compute; reflexivity.

(** ** Generic lemmas *)

Lemma Z_of_byte_range b : 0 <= Z_of_byte b < 256.
Proof. destruct b; vm_compute; split; congruence. Qed.

Lemma byte_of_Z_of_byte b : byte_of_Z (Z_of_byte b) = b.
Proof. destruct b; reflexivity. Qed.

Lemma Z_of_byte_of_Z z : Z_of_byte (byte_of_Z z) = z mod 256.
Proof.
  pose proof (Z.mod_pos_bound z 256 ltac:(lia)) as Hb.
  unfold Z_of_byte, byte_of_Z.
  destruct (Byte.of_N (Z.to_N (z mod 256))) as [b|] eqn:E.
  - apply Byte.to_of_N in E. rewrite E. lia.
  - apply Byte.of_N_None_iff in E. lia.
Qed.

Lemma Z_of_byte_small z : 0 <= z < 256 -> Z_of_byte (byte_of_Z z) = z.
Proof. intros H. rewrite Z_of_byte_of_Z. by rewrite Z.mod_small. Qed.

Lemma Z_of_byte_inj b1 b2 : Z_of_byte b1 = Z_of_byte b2 -> b1 = b2.
Proof. intros H. by rewrite <- (byte_of_Z_of_byte b1), H, byte_of_Z_of_byte. Qed.

Lemma string_of_bytes_of_string s : string_of_bytes (bytes_of_string s) = s.
Proof. apply String.string_of_list_byte_of_string. Qed.

Lemma bytes_of_string_of_bytes bs : bytes_of_string (string_of_bytes bs) = bs.
Proof. apply String.list_byte_of_string_of_list_byte. Qed.

Lemma zlen_nil {A} : zlen (@nil A) = 0.
Proof. reflexivity. Qed.

Lemma zlen_cons {A} (x : A) l : zlen (x :: l) = 1 + zlen l.
Proof. unfold zlen. cbn [length]. lia. Qed.

Lemma zlen_app {A} (l1 l2 : list A) : zlen (l1 ++ l2) = zlen l1 + zlen l2.
Proof. unfold zlen. rewrite length_app. lia. Qed.

Lemma zlen_nonneg {A} (l : list A) : 0 <= zlen l.
Proof. unfold zlen. lia. Qed.

Lemma to_nat_zlen {A} (l : list A) : Z.to_nat (zlen l) = length l.
Proof. unfold zlen. lia. Qed.

Lemma zlen_map {A B} (f : A -> B) l : zlen (map f l) = zlen l.
Proof. unfold zlen. by rewrite length_map. Qed.

Lemma wrap_small w z : 0 <= z < 2 ^ w -> wrap w z = z.
Proof. apply Z.mod_small. Qed.

Lemma wrap_range w z : 0 <= w -> 0 <= wrap w z < 2 ^ w.
Proof. intros H. apply Z.mod_pos_bound. by apply Z.pow_pos_nonneg. Qed.

Lemma pow2_half w : 1 <= w -> 2 ^ w = 2 * 2 ^ (w - 1).
Proof. intros H. rewrite <- Z.pow_succ_r by lia. f_equal. lia. Qed.

Lemma swrap_range w z : 1 <= w -> is_sint w (swrap w z).
Proof.
  intros Hw. unfold is_sint, swrap.
  assert (0 < 2 ^ w) as Hp by (apply Z.pow_pos_nonneg; lia).
  pose proof (Z.mod_pos_bound (z + 2 ^ (w - 1)) (2 ^ w) Hp) as Hm.
  rewrite (pow2_half w Hw) in Hm at 3. lia.
Qed.

Lemma swrap_small w z : 1 <= w -> is_sint w z -> swrap w z = z.
Proof.
  intros Hw [H1 H2]. unfold swrap.
  pose proof (pow2_half w Hw). rewrite Z.mod_small by lia. lia.
Qed.

Lemma int64_id z : - 2 ^ 63 <= z < 2 ^ 63 -> int64 z = z.
Proof. intros H. by apply swrap_small. Qed.

Lemma int32_id z : - 2 ^ 31 <= z < 2 ^ 31 -> int32 z = z.
Proof. intros H. by apply swrap_small. Qed.

Lemma bind_Ok {A B} (a : A) (k : A -> result B) : bind_result (Ok a) k = k a.
Proof. reflexivity. Qed.

Lemma bind_is_Ok {A B} (m : result A) (k : A -> result B) (b : B) :
  bind_result m k = Ok b <-> exists a, m = Ok a /\ k a = Ok b.
Proof.
  destruct m; cbn; split; intros H; crush_hyps; eauto.
Qed.

Lemma with_cause_is_Ok {A} msg (m : result A) a : with_cause msg m = Ok a <-> m = Ok a.
Proof. destruct m; cbn; split; intros H; by simplify_eq. Qed.

Lemma map_result_length {A B} (f : A -> result B) xs ys :
  map_result f xs = Ok ys -> length ys = length xs.
Proof.
  revert ys. induction xs as [|x xs IH]; intros ys H; cbn in H; [by crush_hyps|].
  apply bind_is_Ok in H as (y & _ & H). apply bind_is_Ok in H as (ys' & H & ?).
  crush_hyps. f_equal. by apply IH.
Qed.

Create HintDb go discriminated.
Create Rewrite HintDb go_simpl.
#[export] Hint Resolve Z_of_byte_range zlen_nonneg : go.
#[export] Hint Rewrite @zlen_nil @zlen_cons @zlen_app @zlen_map @to_nat_zlen
  byte_of_Z_of_byte string_of_bytes_of_string bytes_of_string_of_bytes : go_simpl.
