(* ===== verification/GoIO.v ===== *)
(** * Readers, writers and integer codecs of the Go standard library

    The decoders of this program (common/srs, common/geosite,
    service/v2board) read from an [io.Reader]; the model is a function from
    the unread input to an outcome and the input left.  This file models
    what they use of [io], [encoding/binary] and the runtime: [ReadByte],
    [io.ReadFull], [binary.Read] at the widths used, [binary.ReadUvarint],
    the big-endian encodings, and the length check of [make].  It ends with
    the laws the component proofs use: [decodes] (a reader inverts a
    written prefix whatever follows) and [shrinks] (a reader only consumes
    input), with their closure lemmas. *)
From Stdlib Require Import ZArith Lia Bool.
From S2P Require Import Prelude.

Definition Reader (A : Type) : Type := list byte -> result (A * list byte).

Definition rret {A} (a : A) : Reader A := fun i => Ok (a, i).

Definition rbind {A B} (r : Reader A) (k : A -> Reader B) : Reader B :=
  fun i => match r i with
           | Ok (a, i') => k a i'
           | Err e => Err e
           | Panic s => Panic s
           end.

(** A step that reads nothing and may fail. *)
Definition rlift {A} (m : result A) : Reader A :=
  fun i => match m with Ok a => Ok (a, i) | Err e => Err e | Panic s => Panic s end.

Definition rcause {A} (msg : string) (r : Reader A) : Reader A :=
  fun i => with_cause msg (r i).

Notation "'let!' x := r 'in' k" := (rbind r (fun x => k))
  (at level 10, x pattern, r at level 100, k at level 200) : go_scope.

(** ** The runtime: [make([]T, n)]

    On the 64-bit platforms [runtime.makeslice] panics when
    [n * sizeof(T)] exceeds [maxAlloc] (2^48); below that it allocates.
    Exhausting physical memory is not modelled. *)
Definition maxAlloc : Z := 2 ^ 48.

Definition make_slice (sizeof n : Z) : result unit :=
  if maxAlloc <? sizeof * n then Panic "runtime error: makeslice: len out of range" else Ok tt.

(** ** [io] and [bufio] *)

Definition ReadByte : Reader byte :=
  fun i => match i with [] => Err EOF | b :: i' => Ok (b, i') end.

(** [io.ReadFull(r, make([]byte, n))]: EOF when nothing was read,
    ErrUnexpectedEOF when the input ends inside the buffer. *)
Definition ReadFull (n : Z) : Reader (list byte) :=
  fun i =>
    if n <=? zlen i then Ok (take (Z.to_nat n) i, drop (Z.to_nat n) i)
    else match i with [] => Err EOF | _ => Err ErrUnexpectedEOF end.

(** [n] consecutive uses of a reader. *)
Fixpoint read_n {A} (n : nat) (r : Reader A) : Reader (list A) :=
  match n with
  | O => rret []
  | S n' => let! x := r in let! xs := read_n n' r in rret (x :: xs)
  end.

(** ** Big-endian integers *)

Fixpoint be_decode_acc (acc : Z) (bs : list byte) : Z :=
  match bs with
  | [] => acc
  | b :: bs' => be_decode_acc (Z.lor (Z.shiftl acc 8) (Z_of_byte b)) bs'
  end.

(** [binary.BigEndian.Uint16/32/64]. *)
Definition be_decode (bs : list byte) : Z := be_decode_acc 0 bs.

(** [binary.BigEndian.PutUint16/32/64], [n] the width in bytes. *)
Fixpoint be_encode (n : nat) (v : Z) : list byte :=
  match n with
  | O => []
  | S n' => byte_of_Z (Z.shiftr v (8 * Z.of_nat n')) :: be_encode n' v
  end.

(** ** Indexing and slicing a []byte *)

(** [bs[i]]. *)
Definition index (bs : list byte) (i : Z) : result Z :=
  if i <? 0 then Panic "runtime error: index out of range"
  else match bs !! Z.to_nat i with
       | Some b => Ok (Z_of_byte b)
       | None => Panic "runtime error: index out of range"
       end.

(** [bs[lo:hi]] (up to the length; no modelled code relies on spare capacity). *)
Definition slice (bs : list byte) (lo hi : Z) : result (list byte) :=
  if (0 <=? lo) && (lo <=? hi) && (hi <=? zlen bs) then Ok (take (Z.to_nat (hi - lo)) (drop (Z.to_nat lo) bs))
  else Panic "runtime error: slice bounds out of range".

(** [bs[lo:]]. *)
Definition slice_from (bs : list byte) (lo : Z) : result (list byte) := slice bs lo (zlen bs).

(** [uint16(bs[i])<<8 | uint16(bs[i+1])]. *)
Definition be16 (bs : list byte) (i : Z) : result Z :=
  let* hi := index bs i in let* lo := index bs (i + 1) in Ok (Z.lor (Z.shiftl hi 8) lo).

(** ** [binary.Read(reader, binary.BigEndian, ...)] *)

Definition ReadUint8 : Reader Z :=
  let! bs := ReadFull 1 in rret (be_decode bs).

Definition ReadUint64 : Reader Z :=
  let! bs := ReadFull 8 in rret (be_decode bs).

Definition ReadBool : Reader bool :=
  let! bs := ReadFull 1 in rret (negb (be_decode bs =? 0)).

Fixpoint be_decode_16s (bs : list byte) : list Z :=
  match bs with
  | b1 :: b2 :: bs' => be_decode [b1; b2] :: be_decode_16s bs'
  | _ => []
  end.

(** [binary.Read] into a []uint16 of length [n]: one ReadFull of 2n bytes. *)
Definition ReadUint16s (n : Z) : Reader (list Z) :=
  let! bs := ReadFull (2 * n) in rret (be_decode_16s bs).

Definition WriteBool (b : bool) : list byte := [if b then x01 else x00].

Definition WriteUint16s (vs : list Z) : list byte := concat (map (be_encode 2) vs).

(** ** Unsigned varints ([encoding/binary]) *)

(** The loop of [binary.ReadUvarint]; [i] counts the bytes read, [s] the
    shift, [x] the value so far.  [n] is MaxVarintLen64 - i. *)
Fixpoint ReadUvarint_loop (n : nat) (i s x : Z) (inp : list byte) : result (Z * list byte) :=
  match n with
  | O => Err ErrOverflow
  | S n' =>
      match inp with
      | [] => Err (if 0 <? i then ErrUnexpectedEOF else EOF)
      | b :: inp' =>
          let v := Z_of_byte b in
          if v <? 128 then
            if (i =? 9) && (1 <? v) then Err ErrOverflow
            else Ok (Z.lor x (uint64 (Z.shiftl v s)), inp')
          else ReadUvarint_loop n' (i + 1) (s + 7) (Z.lor x (uint64 (Z.shiftl (Z.land v 127) s))) inp'
      end
  end.

Definition ReadUvarint : Reader Z := ReadUvarint_loop 10 0 0 0.

(** [binary.AppendUvarint(nil, v)]; ten rounds suffice for a uint64. *)
Fixpoint AppendUvarint_loop (n : nat) (v : Z) : list byte :=
  match n with
  | O => []
  | S n' =>
      if v <? 128 then [byte_of_Z v]
      else byte_of_Z (Z.lor (Z.land v 127) 128) :: AppendUvarint_loop n' (Z.shiftr v 7)
  end.

Definition AppendUvarint (v : Z) : list byte := AppendUvarint_loop 10 v.

(** ** Laws *)

(** [decodes r w a]: reader [r] turns the written bytes [w] into [a] and
    leaves whatever follows them unread. *)
Definition decodes {A} (r : Reader A) (w : list byte) (a : A) : Prop :=
  forall rest, r (w ++ rest) = Ok (a, rest).

(** [shrinks r]: a successful read leaves a suffix of the input. *)
Definition shrinks {A} (r : Reader A) : Prop :=
  forall i a o, r i = Ok (a, o) -> exists w, i = w ++ o.

(** [shrinks1 r]: a successful read consumes at least one byte. *)
Definition shrinks1 {A} (r : Reader A) : Prop :=
  forall i a o, r i = Ok (a, o) -> (length o < length i)%nat.

(** The third-party writer [varbin.WriteUvarint] of the encoders: what they
    rely on is that [binary.ReadUvarint] reads back what it wrote. *)
Class UvarintWriter := {
  WriteUvarint : Z -> list byte;
  WriteUvarint_decodes : forall v, is_uint 64 v -> decodes ReadUvarint (WriteUvarint v) v;
}.

(** ** Closure lemmas *)

Lemma decodes_ret {A} (a : A) : decodes (rret a) [] a.
Proof. by intros rest. Qed.

Lemma decodes_bind {A B} (r : Reader A) (k : A -> Reader B) w1 w2 a b :
  decodes r w1 a -> decodes (k a) w2 b -> decodes (rbind r k) (w1 ++ w2) b.
Proof. intros H1 H2 rest. unfold rbind. rewrite <- app_assoc, H1. apply H2. Qed.

(** A last step that writes nothing. *)
Lemma decodes_map {A B} (r : Reader A) (f : A -> B) w a :
  decodes r w a -> decodes (rbind r (fun x => rret (f x))) w (f a).
Proof. intros H. rewrite <- (app_nil_r w). by eapply decodes_bind. Qed.

Lemma decodes_lift {A B} (m : result A) (k : A -> Reader B) w a b :
  m = Ok a -> decodes (k a) w b -> decodes (rbind (rlift m) k) w b.
Proof. intros -> H rest. apply H. Qed.

Lemma decodes_cause {A} msg (r : Reader A) w a : decodes r w a -> decodes (rcause msg r) w a.
Proof. intros Hr rest. unfold rcause. by rewrite Hr. Qed.

Lemma decodes_read_n {A B} (r : Reader B) (wr : A -> list byte) (f : A -> B) xs :
  (forall x, x ∈ xs -> decodes r (wr x) (f x)) ->
  decodes (read_n (length xs) r) (concat (map wr xs)) (map f xs).
Proof.
  induction xs as [|x xs IH]; intros H; cbn; [apply decodes_ret|].
  eapply decodes_bind; [apply H; left|].
  apply (decodes_map (read_n (length xs) r) (cons (f x))).
  apply IH. intros y Hy. apply H. by right.
Qed.

Lemma decodes_ReadByte b : decodes ReadByte [b] b.
Proof. by intros rest. Qed.

Lemma decodes_ReadFull bs : decodes (ReadFull (zlen bs)) bs bs.
Proof.
  intros rest. unfold ReadFull. rewrite zlen_app, to_nat_zlen.
  pose proof (zlen_nonneg rest).
  rewrite (proj2 (Z.leb_le (zlen bs) (zlen bs + zlen rest))) by lia.
  by rewrite take_app_length, drop_app_length.
Qed.

Lemma decodes_ReadFull_n n bs : n = zlen bs -> decodes (ReadFull n) bs bs.
Proof. intros ->. apply decodes_ReadFull. Qed.

Lemma shrinks1_shrinks {A} (r : Reader A) : shrinks r -> forall i a o, r i = Ok (a, o) -> (length o <= length i)%nat.
Proof. intros H i a o Hr. destruct (H _ _ _ Hr) as [w ->]. rewrite length_app. lia. Qed.

Lemma shrinks_ret {A} (a : A) : shrinks (rret a).
Proof. intros i x o H. unfold rret in H. crush_hyps. by exists []. Qed.

Lemma shrinks_lift {A} (m : result A) : shrinks (rlift m).
Proof. intros i x o H. unfold rlift in H. destruct m; crush_hyps. by exists []. Qed.

Lemma shrinks_bind {A B} (r : Reader A) (k : A -> Reader B) :
  shrinks r -> (forall a, shrinks (k a)) -> shrinks (rbind r k).
Proof.
  intros Hr Hk i b o H. unfold rbind in H.
  destruct (r i) as [[a i']|e|s] eqn:E; try done.
  destruct (Hr _ _ _ E) as [w1 ->]. destruct (Hk _ _ _ _ H) as [w2 ->].
  exists (w1 ++ w2). by rewrite app_assoc.
Qed.

Lemma shrinks_cause {A} msg (r : Reader A) : shrinks r -> shrinks (rcause msg r).
Proof. intros Hr i a o H. unfold rcause in H. apply with_cause_is_Ok in H. eauto. Qed.

Lemma shrinks_ReadByte : shrinks ReadByte.
Proof. intros [|b i] a o H; cbn in H; crush_hyps. by exists [a]. Qed.

Lemma shrinks_ReadFull n : shrinks (ReadFull n).
Proof.
  intros i a o H. unfold ReadFull in H.
  destruct (n <=? zlen i); [|by destruct i]. crush_hyps.
  exists (take (Z.to_nat n) i). by rewrite take_drop.
Qed.

Lemma shrinks_read_n {A} n (r : Reader A) : shrinks r -> shrinks (read_n n r).
Proof.
  intros Hr. induction n as [|n IH]; cbn; [apply shrinks_ret|].
  repeat (apply shrinks_bind; [done|intros]). apply shrinks_ret.
Qed.

Lemma shrinks_ReadUvarint : shrinks ReadUvarint.
Proof.
  assert (forall n i s x inp v o, ReadUvarint_loop n i s x inp = Ok (v, o) -> exists w, inp = w ++ o) as Hl.
  { induction n as [|n IH]; intros i s x inp v o H; cbn in H; [done|].
    destruct inp as [|b inp]; [done|].
    destruct (Z_of_byte b <? 128).
    - destruct ((i =? 9) && (1 <? Z_of_byte b)); [done|]. crush_hyps. by exists [b].
    - apply IH in H as [w ->]. by exists (b :: w). }
  intros i a o H. by eapply Hl.
Qed.

#[export] Hint Resolve shrinks_ret shrinks_lift shrinks_ReadByte shrinks_ReadFull
  shrinks_ReadUvarint shrinks_read_n shrinks_cause : go.

(** Decompose a [shrinks] goal along the monadic structure of the reader. *)
Ltac solve_shrinks :=
  repeat match goal with
  | |- shrinks (rbind _ _) => apply shrinks_bind; [|intros]
  | |- shrinks (if ?b then _ else _) => destruct b
  | |- shrinks (match ?x with _ => _ end) => destruct x
  | |- shrinks (let '_ := ?x in _) => destruct x
  end; eauto with go.

Lemma shrinks_ReadUint8 : shrinks ReadUint8.
Proof. unfold ReadUint8. solve_shrinks. Qed.

Lemma shrinks_ReadUint64 : shrinks ReadUint64.
Proof. unfold ReadUint64. solve_shrinks. Qed.

Lemma shrinks_ReadBool : shrinks ReadBool.
Proof. unfold ReadBool. solve_shrinks. Qed.

Lemma shrinks_ReadUint16s n : shrinks (ReadUint16s n).
Proof. unfold ReadUint16s. solve_shrinks. Qed.

#[export] Hint Resolve shrinks_ReadUint8 shrinks_ReadUint64 shrinks_ReadBool shrinks_ReadUint16s : go.

(** ** Big-endian round trips *)

Lemma length_be_encode n v : length (be_encode n v) = n.
Proof. induction n; cbn; auto. Qed.

Lemma lor_shiftl_small a b k : 0 <= k -> 0 <= b < 2 ^ k -> Z.lor (Z.shiftl a k) b = a * 2 ^ k + b.
Proof.
  intros Hk Hb. rewrite Z.shiftl_mul_pow2 by done.
  rewrite <- Z.add_lor_land, (Z.land_comm (a * 2 ^ k)).
  enough (Z.land b (a * 2 ^ k) = 0) by lia.
  apply Z.bits_inj'. intros n Hn. rewrite Z.land_spec, Z.bits_0.
  destruct (decide (n < k)).
  - rewrite Z.mul_pow2_bits_low by lia. apply andb_false_r.
  - rewrite <- (Z.mod_small b (2 ^ k)) by done.
    by rewrite Z.mod_pow2_bits_high by lia.
Qed.

Lemma be_decode_acc_encode n acc v :
  0 <= v < 2 ^ (8 * Z.of_nat n) ->
  be_decode_acc acc (be_encode n v) = acc * 2 ^ (8 * Z.of_nat n) + v.
Proof.
  revert acc v. induction n as [|n IH]; intros acc v Hv; cbn [be_encode be_decode_acc].
  - cbn in *. lia.
  - rewrite Z_of_byte_of_Z, Z.shiftr_div_pow2 by lia.
    set (k := 8 * Z.of_nat n) in *.
    assert (0 < 2 ^ k) as Hpk by (apply Z.pow_pos_nonneg; lia).
    replace (8 * Z.of_nat (S n)) with (8 + k) in * by lia.
    rewrite Z.pow_add_r in * by lia.
    pose proof (Z.div_mod v (2 ^ k) ltac:(lia)) as Hdm.
    pose proof (Z.mod_pos_bound v (2 ^ k) Hpk) as Hm.
    assert (0 <= v / 2 ^ k < 256) as Hq.
    { split; [by apply Z.div_pos; lia|]. apply Z.div_lt_upper_bound; lia. }
    rewrite (Z.mod_small (v / 2 ^ k)) by done.
    rewrite lor_shiftl_small by lia.
    enough (be_encode n v = be_encode n (v mod 2 ^ k)) as ->.
    { rewrite IH by lia. lia. }
    clear IH Hdm Hm Hq Hv acc. subst k.
    assert (forall m, (m <= n)%nat -> be_encode m v = be_encode m (v mod 2 ^ (8 * Z.of_nat n))) as He;
      [|by apply He].
    induction m as [|m IHm]; intros Hm; cbn [be_encode]; [done|].
    f_equal; [|apply IHm; lia].
    apply Z_of_byte_inj. rewrite !Z_of_byte_of_Z.
    change 256 with (2 ^ 8). rewrite <- !Z.land_ones by lia.
    apply Z.bits_inj'. intros j Hj. rewrite !Z.land_spec, !Z.shiftr_spec, Z.land_spec by lia.
    destruct (decide (j < 8)).
    + rewrite (Z.ones_spec_low (8 * Z.of_nat n)) by lia. by rewrite andb_true_r.
    + rewrite (Z.ones_spec_high 8) by lia. by rewrite !andb_false_r.
Qed.

Lemma be_decode_encode n v :
  0 <= v < 2 ^ (8 * Z.of_nat n) -> be_decode (be_encode n v) = v.
Proof. intros H. unfold be_decode. by rewrite be_decode_acc_encode. Qed.

Lemma decodes_ReadUint8 v : is_uint 8 v -> decodes ReadUint8 [byte_of_Z v] v.
Proof.
  intros H. replace v with (be_decode (be_encode 1 v)) at 2 by (apply be_decode_encode, H).
  cbn [be_encode]. rewrite Z.shiftr_0_r.
  apply (decodes_map _ be_decode), decodes_ReadFull_n. reflexivity.
Qed.

Lemma decodes_ReadUint64 v : is_uint 64 v -> decodes ReadUint64 (be_encode 8 v) v.
Proof.
  intros H. replace v with (be_decode (be_encode 8 v)) at 2 by (apply be_decode_encode, H).
  apply (decodes_map _ be_decode), decodes_ReadFull_n. reflexivity.
Qed.

Lemma decodes_ReadBool b : decodes ReadBool (WriteBool b) b.
Proof.
  destruct b.
  - apply (decodes_map (ReadFull 1) (fun bs => negb (be_decode bs =? 0)) [x01] [x01]).
    by apply decodes_ReadFull_n.
  - apply (decodes_map (ReadFull 1) (fun bs => negb (be_decode bs =? 0)) [x00] [x00]).
    by apply decodes_ReadFull_n.
Qed.

Lemma zlen_WriteUint16s vs : zlen (WriteUint16s vs) = 2 * zlen vs.
Proof.
  unfold WriteUint16s. induction vs as [|v vs IH]; [done|].
  cbn [map concat]. rewrite zlen_app, IH, zlen_cons. unfold zlen at 1. rewrite length_be_encode. lia.
Qed.

Lemma be_decode_16s_WriteUint16s vs :
  Forall (is_uint 16) vs -> be_decode_16s (WriteUint16s vs) = vs.
Proof.
  intros H. unfold WriteUint16s. induction H as [|v vs Hv _ IH]; [done|].
  cbn [map concat].
  transitivity (be_decode (be_encode 2 v) :: be_decode_16s (concat (map (be_encode 2) vs))); [done|].
  rewrite IH. f_equal. apply (be_decode_encode 2), Hv.
Qed.

Lemma decodes_ReadUint16s vs :
  Forall (is_uint 16) vs -> decodes (ReadUint16s (zlen vs)) (WriteUint16s vs) vs.
Proof.
  intros H. rewrite <- (be_decode_16s_WriteUint16s vs H) at 3.
  apply (decodes_map _ be_decode_16s), decodes_ReadFull_n. by rewrite zlen_WriteUint16s.
Qed.

(** ** Uvarint round trip

    The loop invariant: after [i] bytes the accumulator holds the value's low
    [7 i] bits and the bytes still to be read encode the rest. *)

Lemma Z_of_byte_continuation v :
  Z_of_byte (byte_of_Z (Z.lor (Z.land v 127) 128)) = v mod 128 + 128.
Proof.
  change 127 with (Z.ones 7). rewrite Z.land_ones by lia. change (2 ^ 7) with 128.
  pose proof (Z.mod_pos_bound v 128 ltac:(lia)) as Hm.
  rewrite Z.lor_comm.
  pose proof (lor_shiftl_small 1 (v mod 128) 7 ltac:(lia) Hm) as He.
  change (Z.shiftl 1 7) with 128 in He.
  rewrite He, Z_of_byte_small by lia. lia.
Qed.

Lemma land_continuation v : 0 <= v < 128 -> Z.land (v + 128) 127 = v.
Proof.
  intros H. change 127 with (Z.ones 7). rewrite Z.land_ones by lia.
  change (2 ^ 7) with 128. rewrite <- (Z.mul_1_l 128) at 1.
  rewrite Z.mod_add by lia. by apply Z.mod_small.
Qed.

Lemma lor_low_high x v s : 0 <= s -> 0 <= x < 2 ^ s -> 0 <= v -> Z.lor x (Z.shiftl v s) = x + v * 2 ^ s.
Proof. intros Hs Hx Hv. rewrite Z.lor_comm, lor_shiftl_small by lia. lia. Qed.

Lemma ReadUvarint_loop_Append n : forall i x v rest,
  i = 10 - Z.of_nat n -> 0 <= i ->
  0 <= x < 2 ^ (7 * i) -> 0 <= v -> x + v * 2 ^ (7 * i) < 2 ^ 64 -> (0 < n)%nat ->
  ReadUvarint_loop n i (7 * i) x (AppendUvarint_loop n v ++ rest) = Ok (x + v * 2 ^ (7 * i), rest).
Proof.
  induction n as [|n IH]; intros i x v rest Hi Hi0 Hx Hv Hb Hn; [lia|].
  assert (0 < 2 ^ (7 * i)) as Hp by (apply Z.pow_pos_nonneg; lia).
  cbn [AppendUvarint_loop]. destruct (Z.ltb_spec v 128) as [Hlt|Hge].
  - cbn [ReadUvarint_loop app]. rewrite Z_of_byte_small by lia.
    rewrite (proj2 (Z.ltb_lt v 128)) by done.
    assert (((i =? 9) && (1 <? v)) = false) as ->.
    { apply andb_false_iff. destruct (Z.eqb_spec i 9) as [->|]; [right|by left].
      apply Z.ltb_ge. change (2 ^ (7 * 9)) with (2 ^ 63) in *. nia. }
    unfold uint64. rewrite wrap_small.
    + by rewrite lor_low_high by lia.
    + rewrite Z.shiftl_mul_pow2 by lia. nia.
  - cbn [ReadUvarint_loop app]. rewrite Z_of_byte_continuation.
    pose proof (Z.mod_pos_bound v 128 ltac:(lia)) as Hm.
    rewrite (proj2 (Z.ltb_ge (v mod 128 + 128) 128)) by lia.
    rewrite land_continuation by done.
    pose proof (Z.div_mod v 128 ltac:(lia)) as Hdm.
    assert (1 <= v / 128) as Hq by (apply Z.div_le_lower_bound; lia).
    unfold uint64. rewrite wrap_small by (rewrite Z.shiftl_mul_pow2 by lia; nia).
    rewrite lor_low_high by lia.
    assert (2 ^ (7 * (i + 1)) = 128 * 2 ^ (7 * i)) as Hp7.
    { replace (7 * (i + 1)) with (7 + 7 * i) by lia. by rewrite Z.pow_add_r by lia. }
    replace (7 * i + 7) with (7 * (i + 1)) by lia.
    rewrite (Z.shiftr_div_pow2 v 7) by lia. change (2 ^ 7) with 128.
    assert (i < 9) as Hi9.
    { assert (~ 9 <= i); [|lia]. intros Hc. assert (i = 9) as -> by lia.
      change (2 ^ (7 * 9)) with (2 ^ 63) in *. nia. }
    rewrite IH; [f_equal; f_equal; rewrite Hp7; nia|lia|lia|rewrite Hp7; nia|lia|rewrite Hp7; nia|lia].
Qed.

Lemma AppendUvarint_decodes v : is_uint 64 v -> decodes ReadUvarint (AppendUvarint v) v.
Proof.
  intros [H1 H2] rest. unfold ReadUvarint, AppendUvarint.
  pose proof (ReadUvarint_loop_Append 10 0 0 v rest) as He.
  change (2 ^ (7 * 0)) with 1 in He. change (7 * 0) with 0 in He.
  rewrite He by lia. f_equal. f_equal. lia.
Qed.

(** The encoding of the standard library is an [UvarintWriter]. *)
#[export] Instance encoding_binary_uvarint : UvarintWriter :=
  {| WriteUvarint := AppendUvarint; WriteUvarint_decodes := AppendUvarint_decodes |}.

(** ** Indexing and slicing: when they succeed, and what they return on a concatenation *)

Lemma index_ok bs i : 0 <= i < zlen bs -> exists v, index bs i = Ok v /\ 0 <= v < 256.
Proof.
  intros [H1 H2]. unfold index. rewrite (proj2 (Z.ltb_ge i 0)) by done.
  destruct (bs !! Z.to_nat i) as [b|] eqn:E; [exists (Z_of_byte b); auto with go|].
  apply lookup_ge_None in E. unfold zlen in H2. lia.
Qed.

Lemma be16_ok bs i : 0 <= i -> i + 1 < zlen bs -> exists v, be16 bs i = Ok v /\ 0 <= v < 65536.
Proof.
  intros H1 H2. unfold be16.
  destruct (index_ok bs i ltac:(lia)) as (hi & -> & Hhi), (index_ok bs (i + 1) ltac:(lia)) as (lo & -> & Hlo).
  exists (Z.lor (Z.shiftl hi 8) lo). split; [done|]. rewrite lor_shiftl_small by lia. lia.
Qed.

Lemma slice_ok bs lo hi : 0 <= lo -> lo <= hi <= zlen bs -> exists s, slice bs lo hi = Ok s /\ zlen s = hi - lo.
Proof.
  intros H1 [H2 H3]. unfold slice. rewrite (proj2 (Z.leb_le 0 lo)), (proj2 (Z.leb_le lo hi)), (proj2 (Z.leb_le hi (zlen bs))) by done.
  eexists. split; [done|]. unfold zlen in *. rewrite length_take, length_drop. lia.
Qed.

Lemma slice_from_ok bs lo : 0 <= lo <= zlen bs -> exists s, slice_from bs lo = Ok s /\ zlen s = zlen bs - lo.
Proof. intros H. apply slice_ok; lia. Qed.

Lemma index_app p b r i : i = zlen p -> index (p ++ b :: r) i = Ok (Z_of_byte b).
Proof.
  intros ->. unfold index. pose proof (zlen_nonneg p). rewrite (proj2 (Z.ltb_ge (zlen p) 0)) by done.
  by rewrite to_nat_zlen, list_lookup_middle.
Qed.

Lemma slice_app p s r lo hi : lo = zlen p -> hi = zlen p + zlen s -> slice (p ++ s ++ r) lo hi = Ok s.
Proof.
  intros -> ->. unfold slice. pose proof (zlen_nonneg p). pose proof (zlen_nonneg s). pose proof (zlen_nonneg r).
  rewrite !zlen_app. rewrite !(proj2 (Z.leb_le _ _)) by lia. cbn [andb].
  rewrite to_nat_zlen, drop_app_length. replace (Z.to_nat _) with (length s) by (unfold zlen; lia). by rewrite take_app_length.
Qed.

Lemma slice_end p s lo hi : lo = zlen p -> hi = zlen p + zlen s -> slice (p ++ s) lo hi = Ok s.
Proof. intros H1 H2. rewrite <- (app_nil_r s) at 1. by apply slice_app. Qed.

Lemma slice_from_app p s lo : lo = zlen p -> slice_from (p ++ s) lo = Ok s.
Proof.
  intros H. apply slice_end; [done|]. apply zlen_app.
Qed.

Lemma index_head b r : index (b :: r) 0 = Ok (Z_of_byte b).
Proof. reflexivity. Qed.

Lemma slice_from_tail b r : slice_from (b :: r) 1 = Ok r.
Proof. by apply (slice_from_app [b]). Qed.

Lemma be16_app p v r i : i = zlen p -> is_uint 16 v -> be16 (p ++ be_encode 2 v ++ r) i = Ok v.
Proof.
  intros -> Hv. unfold be16. cbn [be_encode]. rewrite <- app_comm_cons, (index_app p) by done. cbn [bind_result app].
  change (p ++ ?a :: ?b :: r) with (p ++ [a] ++ b :: r). rewrite app_assoc, index_app by (by rewrite zlen_app). cbn [bind_result].
  f_equal. transitivity (be_decode (be_encode 2 v)); [|by apply be_decode_encode].
  unfold be_decode. cbn [be_encode be_decode_acc]. by rewrite Z.lor_0_l.
Qed.

Lemma be16_head v r : is_uint 16 v -> be16 (be_encode 2 v ++ r) 0 = Ok v.
Proof. by apply (be16_app []). Qed.

(** ** Functions that always return *)

(** The outcome is a value or an error: no panic, and the model's recursion bound is not reached. *)
Definition returns {A} (m : result A) : Prop :=
  match m with Ok _ => True | Err e => e <> OutOfFuel | Panic _ => False end.

Lemma returns_bind {A B} (m : result A) (k : A -> result B) :
  returns m -> (forall a, m = Ok a -> returns (k a)) -> returns (bind_result m k).
Proof. intros Hm Hk. destruct m; [by apply Hk|done..]. Qed.

(** One step through a parser: a length check, or an access that the checks passed so far allow. *)
Ltac returns_step :=
  match goal with
  | |- returns (Err _) => intros ?; discriminate
  | |- returns (Ok _) => exact I
  | |- returns (if ?a <? ?b then _ else _) => destruct (Z.ltb_spec a b)
  | |- returns (if ?a =? ?b then _ else _) => destruct (Z.eqb_spec a b)
  | |- returns (if negb (?a =? ?b) then _ else _) => destruct (Z.eqb_spec a b); cbn [negb]
  | |- returns (if (?a || ?b) then _ else _) => let E := fresh "E" in destruct (a || b) eqn:E
  | |- returns (if negb ?b then _ else _) => destruct b; cbn [negb]
  | |- returns (bind_result (index ?bs ?i) _) =>
      let v := fresh "v" in let H := fresh "Hv" in destruct (index_ok bs i ltac:(lia)) as (v & -> & H); cbn [bind_result]
  | |- returns (bind_result (be16 ?bs ?i) _) =>
      let v := fresh "v" in let H := fresh "Hv" in destruct (be16_ok bs i ltac:(lia) ltac:(lia)) as (v & -> & H); cbn [bind_result]
  | |- returns (bind_result (slice_from ?bs ?i) _) =>
      let v := fresh "s" in let H := fresh "Hs" in destruct (slice_from_ok bs i ltac:(lia)) as (v & -> & H); cbn [bind_result]
  | |- returns (bind_result (slice ?bs ?i ?j) _) =>
      let v := fresh "s" in let H := fresh "Hs" in destruct (slice_ok bs i j ltac:(lia) ltac:(lia)) as (v & -> & H); cbn [bind_result]
  end.
