(* ===== verification/Ja3.v ===== *)
(** * TLS client hellos (common/ja3)

    The QUIC sniffer hands the reassembled handshake to [ja3.Compute], which
    reads the version, the cipher suites and the extensions of a client hello.
    The parser indexes and slices its input; [index], [slice] and [be16] are
    those operations with their run-time checks, so that "never panics" is a
    theorem here and not a property of the model.

    [Compute] returns a partly filled value beside an error; its only caller
    drops it, and so does the model.  [String] is modelled for the text it
    builds; the MD5 of [Hash] is not. *)
From Stdlib Require Import ZArith Lia Bool.
From stdpp Require Import sorting.
From S2P Require Import Prelude GoIO.

Definition recordLayerHeaderLen : Z := 5.
Definition handshakeHeaderLen : Z := 6.
Definition randomDataLen : Z := 32.
Definition sessionIDHeaderLen : Z := 1.
Definition cipherSuiteHeaderLen : Z := 2.
Definition compressMethodHeaderLen : Z := 1.
Definition extensionsHeaderLen : Z := 2.
Definition extensionHeaderLen : Z := 4.
Definition sniExtensionHeaderLen : Z := 5.
Definition ecExtensionHeaderLen : Z := 2.
Definition ecpfExtensionHeaderLen : Z := 1.
Definition versionExtensionHeaderLen : Z := 1.
Definition signatureAlgorithmsExtensionHeaderLen : Z := 2.
Definition contentType : Z := 22.
Definition handshakeType : Z := 1.
Definition sniExtensionType : Z := 0.
Definition sniNameDNSHostnameType : Z := 0.
Definition ecExtensionType : Z := 10.
Definition ecpfExtensionType : Z := 11.
Definition versionExtensionType : Z := 43.
Definition signatureAlgorithmsExtensionType : Z := 13.
Definition tlsVersionBitmask : Z := 0xFFFC.
Definition tls13 : Z := 0x0304.
Definition GreaseBitmask : Z := 0x0F0F.

(** [ParseError.Error]. *)
Definition LengthErr (check : Z) : go_error := ENew ("length check " +:+ pretty check +:+ " failed").
Definition VersionErr (check : Z) : go_error := ENew ("version check " +:+ pretty check +:+ " failed").
Definition ContentTypeErr : go_error := ENew "content type not matching".
Definition HandshakeTypeErr : go_error := ENew "handshake type not matching".
Definition SNITypeErr : go_error := ENew "SNI type not supported".

Record ClientHello := mkClientHello {
  Version : Z;
  CipherSuites : list Z;
  Extensions : list Z;
  EllipticCurves : list Z;
  EllipticCurvePF : list Z;
  Versions : list Z;
  SignatureAlgorithms : list Z;
  ServerName : list byte;
}.

Definition zeroHello : ClientHello := mkClientHello 0 [] [] [] [] [] [] [].

Definition set_handshake (version : Z) (suites : list Z) (j : ClientHello) : ClientHello :=
  mkClientHello version suites (Extensions j) (EllipticCurves j) (EllipticCurvePF j) (Versions j) (SignatureAlgorithms j) (ServerName j).

(** The variables of the loop over the extensions. *)
Record ExtVars := mkExtVars {
  v_sni : list byte;
  v_extensions : list Z;
  v_ellipticCurves : list Z;
  v_ellipticCurvePF : list Z;
  v_versions : list Z;
  v_signatureAlgorithms : list Z;
}.

Definition noExtVars : ExtVars := mkExtVars [] [] [] [] [] [].

Definition set_extensions (v : ExtVars) (j : ClientHello) : ClientHello :=
  mkClientHello (Version j) (CipherSuites j) (v_extensions v) (v_ellipticCurves v) (v_ellipticCurvePF v) (v_versions v)
    (v_signatureAlgorithms v) (v_sni v).

(** [n] consecutive 16-bit integers of [bs] from [i] on. *)
Fixpoint read_16s (n : nat) (bs : list byte) (i : Z) : result (list Z) :=
  match n with
  | O => Ok []
  | S n' => let* v := be16 bs i in let* vs := read_16s n' bs (i + 2) in Ok (v :: vs)
  end.

(** The body of the switch on the extension type. *)
Definition parseExtension (exType : Z) (sex : list byte) (v : ExtVars) : result ExtVars :=
  let '(mkExtVars sni exts ecs ecpfs versions ssas) := v in
  if exType =? sniExtensionType then
    if zlen sex <? sniExtensionHeaderLen then Err (LengthErr 13)
    else
      let* sniType := index sex 2 in
      let* sniLen := be16 sex 3 in
      let* sex := slice_from sex sniExtensionHeaderLen in
      if negb (zlen sex =? sniLen) then Err (LengthErr 14)
      else if sniType =? sniNameDNSHostnameType then Ok (mkExtVars sex exts ecs ecpfs versions ssas)
      else Err SNITypeErr
  else if exType =? ecExtensionType then
    if zlen sex <? ecExtensionHeaderLen then Err (LengthErr 15)
    else
      let* ecsLen := be16 sex 0 in
      let* sex := slice_from sex ecExtensionHeaderLen in
      if negb (zlen sex =? ecsLen) then Err (LengthErr 16)
      else let* ecs := read_16s (Z.to_nat (ecsLen / 2)) sex 0 in Ok (mkExtVars sni exts ecs ecpfs versions ssas)
  else if exType =? ecpfExtensionType then
    if zlen sex <? ecpfExtensionHeaderLen then Err (LengthErr 17)
    else
      let* numPF := index sex 0 in
      let* sex := slice_from sex ecpfExtensionHeaderLen in
      if negb (zlen sex =? numPF) then Err (LengthErr 18)
      else Ok (mkExtVars sni exts ecs (map Z_of_byte sex) versions ssas)
  else if exType =? versionExtensionType then
    if zlen sex <? versionExtensionHeaderLen then Err (LengthErr 19)
    else
      let* versionsLen := index sex 0 in
      let* sex := slice_from sex versionExtensionHeaderLen in
      if negb (versionsLen mod 2 =? 0) || (zlen sex <? versionsLen) then Err (LengthErr 21)
      else let* vs := read_16s (Z.to_nat (versionsLen / 2)) sex 0 in Ok (mkExtVars sni exts ecs ecpfs (versions ++ vs) ssas)
  else if exType =? signatureAlgorithmsExtensionType then
    if zlen sex <? signatureAlgorithmsExtensionHeaderLen then Err (LengthErr 20)
    else
      let* ssaLen := be16 sex 0 in
      let* sex := slice_from sex signatureAlgorithmsExtensionHeaderLen in
      if negb (ssaLen mod 2 =? 0) || (zlen sex <? ssaLen) then Err (LengthErr 22)
      else let* vs := read_16s (Z.to_nat (ssaLen / 2)) sex 0 in Ok (mkExtVars sni exts ecs ecpfs versions (ssas ++ vs))
  else Ok v.

Definition append_extension (exType : Z) (v : ExtVars) : ExtVars :=
  mkExtVars (v_sni v) (v_extensions v ++ [exType]) (v_ellipticCurves v) (v_ellipticCurvePF v) (v_versions v) (v_signatureAlgorithms v).

(** The loop; the last slice adds in uint16, as the code does. *)
Fixpoint parseExtensions_loop (fuel : nat) (exs : list byte) (v : ExtVars) : result ExtVars :=
  if zlen exs =? 0 then Ok v
  else match fuel with
  | O => Err OutOfFuel
  | S fuel' =>
      if zlen exs <? extensionHeaderLen then Err (LengthErr 11)
      else
        let* exType := be16 exs 0 in
        let* exLen := be16 exs 2 in
        let v := append_extension exType v in
        if zlen exs <? extensionHeaderLen + exLen then Err (LengthErr 12)
        else
          let* sex := slice exs extensionHeaderLen (extensionHeaderLen + exLen) in
          let* v := parseExtension exType sex v in
          let* exs := slice_from exs (uint16 (4 + exLen)) in
          parseExtensions_loop fuel' exs v
  end.

Definition parseExtensions (exs : list byte) (j : ClientHello) : result ClientHello :=
  if zlen exs =? 0 then Ok j
  else if zlen exs <? extensionsHeaderLen then Err (LengthErr 9)
  else
    let* exsLen := be16 exs 0 in
    let* exs := slice_from exs extensionsHeaderLen in
    if zlen exs <? exsLen then Err (LengthErr 10)
    else let* v := parseExtensions_loop (length exs) exs noExtVars in Ok (set_extensions v j).

Definition supportedVersion (version : Z) : bool :=
  (Z.land version tlsVersionBitmask =? 0x0300) || (version =? tls13).

Definition parseHandshake (hs : list byte) (j : ClientHello) : result ClientHello :=
  if zlen hs <? handshakeHeaderLen + randomDataLen + sessionIDHeaderLen then Err (LengthErr 3)
  else
    let* handshType := index hs 0 in
    if negb (handshType =? handshakeType) then Err HandshakeTypeErr
    else
      let* b1 := index hs 1 in let* b2 := index hs 2 in let* b3 := index hs 3 in
      let handshakeLen := Z.lor (Z.lor (Z.shiftl b1 16) (Z.shiftl b2 8)) b3 in
      let* body := slice_from hs 4 in
      if negb (zlen body =? handshakeLen) then Err (LengthErr 4)
      else
        let* tlsVersion := be16 hs 4 in
        if negb (supportedVersion tlsVersion) then Err (VersionErr 2)
        else
          let* sessionIDLen := index hs 38 in
          if zlen hs <? handshakeHeaderLen + randomDataLen + sessionIDHeaderLen + sessionIDLen then Err (LengthErr 5)
          else
            let* cs := slice_from hs (handshakeHeaderLen + randomDataLen + sessionIDHeaderLen + sessionIDLen) in
            if zlen cs <? cipherSuiteHeaderLen then Err (LengthErr 6)
            else
              let* csLen := be16 cs 0 in
              if zlen cs <? cipherSuiteHeaderLen + csLen + compressMethodHeaderLen then Err (LengthErr 7)
              else
                let* cipherSuites := read_16s (Z.to_nat (csLen / 2)) cs 2 in
                let j := set_handshake tlsVersion cipherSuites j in
                let* compressMethodLen := index cs (cipherSuiteHeaderLen + csLen) in
                if zlen cs <? cipherSuiteHeaderLen + csLen + compressMethodHeaderLen + compressMethodLen then Err (LengthErr 8)
                else
                  let* exs := slice_from cs (cipherSuiteHeaderLen + csLen + compressMethodHeaderLen + compressMethodLen) in
                  parseExtensions exs j.

Definition parseSegment (segment : list byte) (j : ClientHello) : result ClientHello :=
  if zlen segment <? recordLayerHeaderLen then Err (LengthErr 1)
  else
    let* contType := index segment 0 in
    if negb (contType =? contentType) then Err ContentTypeErr
    else
      let* tlsRecordVersion := be16 segment 1 in
      if negb (supportedVersion tlsRecordVersion) then Err (VersionErr 1)
      else
        let* segmentLen := be16 segment 3 in
        let* rest := slice_from segment recordLayerHeaderLen in
        if zlen rest <? segmentLen then Err (LengthErr 2)
        else
          let* hs := slice segment recordLayerHeaderLen (recordLayerHeaderLen + segmentLen) in
          parseHandshake hs j.

Definition Compute (payload : list byte) : result ClientHello := parseSegment payload zeroHello.

(** ** The fingerprint text and the comparison of two hellos *)

Definition dashByte : byte := x2d.
Definition commaByte : byte := x2c.

Definition AppendUint (bs : list byte) (v : Z) : list byte := bs ++ bytes_of_string (pretty v).

(** [bs[len(bs)-1] = b]. *)
Definition set_last (b : byte) (bs : list byte) : list byte := removelast bs ++ [b].

(** One of the three lists of 16-bit values. *)
Definition marshalValues (vals : list Z) (bs : list byte) : list byte :=
  match vals with
  | [] => bs ++ [commaByte]
  | _ =>
      set_last commaByte
        (fold_left (fun bs val => if negb (Z.land val GreaseBitmask =? 0x0A0A) then bs else AppendUint bs val ++ [dashByte]) vals bs)
  end.

Definition marshalJA3 (j : ClientHello) : list byte :=
  let bs := AppendUint [] (Version j) ++ [commaByte] in
  let bs := marshalValues (CipherSuites j) bs in
  let bs := marshalValues (Extensions j) bs in
  let bs := marshalValues (EllipticCurves j) bs in
  match EllipticCurvePF j with
  | [] => bs
  | pfs => removelast (fold_left (fun bs val => AppendUint bs val ++ [dashByte]) pfs bs)
  end.

Definition sortedExtensions (j : ClientHello) : list Z := merge_sort Z.le (Extensions j).

Definition Equals (j another : ClientHello) (ignoreExtensionsSequence : bool) : bool :=
  (Version j =? Version another)
  && bool_decide (CipherSuites j = CipherSuites another)
  && (ignoreExtensionsSequence || bool_decide (Extensions j = Extensions another))
  && (negb ignoreExtensionsSequence || bool_decide (Extensions j = sortedExtensions another))
  && bool_decide (EllipticCurves j = EllipticCurves another)
  && bool_decide (EllipticCurvePF j = EllipticCurvePF another)
  && bool_decide (SignatureAlgorithms j = SignatureAlgorithms another).

(** ** The parser always returns *)

Ltac unfold_lengths :=
  unfold recordLayerHeaderLen, handshakeHeaderLen, randomDataLen, sessionIDHeaderLen, cipherSuiteHeaderLen,
    compressMethodHeaderLen, extensionsHeaderLen, extensionHeaderLen, sniExtensionHeaderLen, ecExtensionHeaderLen,
    ecpfExtensionHeaderLen, versionExtensionHeaderLen, signatureAlgorithmsExtensionHeaderLen in *.

Lemma read_16s_ok n : forall bs i, 0 <= i -> i + 2 * Z.of_nat n <= zlen bs -> exists vs, read_16s n bs i = Ok vs.
Proof.
  induction n as [|n IH]; intros bs i Hi Hn; cbn [read_16s]; [by eexists|].
  destruct (be16_ok bs i ltac:(lia) ltac:(lia)) as (v & -> & _). destruct (IH bs (i + 2) ltac:(lia) ltac:(lia)) as [vs ->]. by eexists.
Qed.

Lemma returns_read_16s {B} n bs i (k : list Z -> result B) :
  0 <= n -> 0 <= i -> i + 2 * (n / 2) <= zlen bs -> (forall vs, returns (k vs)) -> returns (bind_result (read_16s (Z.to_nat (n / 2)) bs i) k).
Proof.
  intros H0 Hi Hn Hk. assert (0 <= n / 2) by (apply Z.div_pos; lia).
  destruct (read_16s_ok (Z.to_nat (n / 2)) bs i Hi ltac:(lia)) as [vs ->]. apply Hk.
Qed.

Lemma half_le n : 2 * (n / 2) <= n.
Proof. apply Z.mul_div_le. lia. Qed.

Lemma parseExtension_returns exType sex v : returns (parseExtension exType sex v).
Proof.
  destruct v as [sni exts ecs ecpfs versions ssas]. unfold parseExtension. unfold_lengths. pose proof half_le as Hh.
  repeat returns_step; apply returns_read_16s; try lia; try (intros; exact I).
  - specialize (Hh v). lia.
  - apply orb_false_iff in E as [_ E%Z.ltb_ge]. specialize (Hh v). lia.
  - apply orb_false_iff in E as [_ E%Z.ltb_ge]. specialize (Hh v). lia.
Qed.

(** The input of the loop is shorter than 2^16 bytes, so that the uint16 sum does not wrap and every round consumes its extension. *)
Lemma parseExtensions_loop_returns fuel : forall exs v,
  (length exs <= fuel)%nat -> zlen exs < 65536 -> returns (parseExtensions_loop fuel exs v).
Proof.
  induction fuel as [|fuel IH]; intros exs v Hf Hl.
  - destruct exs; [exact I|cbn in Hf; lia].
  - cbn [parseExtensions_loop]. unfold_lengths. do 5 returns_step. { returns_step. } returns_step.
    apply returns_bind; [apply parseExtension_returns|]. intros v' _.
    assert (uint16 (4 + v1) = 4 + v1) as -> by (apply wrap_small; lia). returns_step.
    apply IH; unfold zlen in *; lia.
Qed.

Lemma parseExtensions_returns exs j : zlen exs < 65536 -> returns (parseExtensions exs j).
Proof.
  intros Hl. unfold parseExtensions. unfold_lengths. repeat returns_step.
  apply returns_bind; [|intros; exact I]. apply parseExtensions_loop_returns; lia.
Qed.

Lemma parseHandshake_returns hs j : zlen hs < 65536 -> returns (parseHandshake hs j).
Proof.
  intros Hl. unfold parseHandshake. unfold_lengths. repeat returns_step.
  apply returns_read_16s; try lia; [pose proof (half_le v5); lia|]. intros vs. repeat returns_step.
  apply parseExtensions_returns. lia.
Qed.

(** The parser returns a client hello or an error on every input: it never
    indexes outside its input and its loop ends. *)
Theorem Compute_returns payload : returns (Compute payload).
Proof.
  unfold Compute, parseSegment. unfold_lengths. repeat returns_step. apply parseHandshake_returns. lia.
Qed.

(** ** Client hellos on the wire (RFC 8446, 4.1.2) *)

Inductive Ext :=
| E_ServerName (name : list byte)
| E_Groups (curves : list Z)
| E_PointFormats (formats : list byte)
| E_Versions (versions : list Z)
| E_SignatureAlgorithms (algorithms : list Z)
| E_Other (type : Z) (data : list byte).

Definition ext_type (e : Ext) : Z :=
  match e with
  | E_ServerName _ => 0 | E_Groups _ => 10 | E_PointFormats _ => 11 | E_Versions _ => 43 | E_SignatureAlgorithms _ => 13
  | E_Other type _ => type
  end.

Definition ext_body (e : Ext) : list byte :=
  match e with
  | E_ServerName name => be_encode 2 (zlen name + 3) ++ x00 :: be_encode 2 (zlen name) ++ name
  | E_Groups l | E_SignatureAlgorithms l => be_encode 2 (2 * zlen l) ++ WriteUint16s l
  | E_PointFormats l => byte_of_Z (zlen l) :: l
  | E_Versions l => byte_of_Z (2 * zlen l) :: WriteUint16s l
  | E_Other _ data => data
  end.

Definition encode_ext (e : Ext) : list byte :=
  be_encode 2 (ext_type e) ++ be_encode 2 (zlen (ext_body e)) ++ ext_body e.

Definition ext_ok (e : Ext) : Prop :=
  match e with
  | E_ServerName _ => True
  | E_Groups l | E_SignatureAlgorithms l => Forall (is_uint 16) l
  | E_PointFormats l => zlen l < 256
  | E_Versions l => Forall (is_uint 16) l /\ 2 * zlen l < 256
  | E_Other type _ => is_uint 16 type /\ type ∉ [0; 10; 11; 43; 13]
  end.

(** What an extension says: the last server name, groups and point formats; all versions and algorithms. *)
Definition apply_ext (v : ExtVars) (e : Ext) : ExtVars :=
  let '(mkExtVars sni exts ecs ecpfs versions ssas) := append_extension (ext_type e) v in
  match e with
  | E_ServerName name => mkExtVars name exts ecs ecpfs versions ssas
  | E_Groups l => mkExtVars sni exts l ecpfs versions ssas
  | E_PointFormats l => mkExtVars sni exts ecs (map Z_of_byte l) versions ssas
  | E_Versions l => mkExtVars sni exts ecs ecpfs (versions ++ l) ssas
  | E_SignatureAlgorithms l => mkExtVars sni exts ecs ecpfs versions (ssas ++ l)
  | E_Other _ _ => mkExtVars sni exts ecs ecpfs versions ssas
  end.

Record Hello := mkHello {
  h_version : Z;
  h_random : list byte;
  h_session : list byte;
  h_suites : list Z;
  h_compression : list byte;
  h_exts : list Ext;
}.

Definition encode_exts (exts : list Ext) : list byte := concat (map encode_ext exts).

(** From the length of the cipher suites on. *)
Definition encode_suites (h : Hello) : list byte :=
  be_encode 2 (2 * zlen (h_suites h)) ++ WriteUint16s (h_suites h)
  ++ byte_of_Z (zlen (h_compression h)) :: h_compression h
  ++ be_encode 2 (zlen (encode_exts (h_exts h))) ++ encode_exts (h_exts h).

Definition encode_body (h : Hello) : list byte :=
  be_encode 2 (h_version h) ++ h_random h ++ byte_of_Z (zlen (h_session h)) :: h_session h ++ encode_suites h.

Definition encode_handshake (h : Hello) : list byte := x01 :: be_encode 3 (zlen (encode_body h)) ++ encode_body h.

(** The record the QUIC sniffer wraps around a handshake. *)
Definition encode_record (hs : list byte) : list byte := x16 :: x03 :: x03 :: be_encode 2 (zlen hs) ++ hs.

Record hello_ok (h : Hello) : Prop := {
  ok_version : is_uint 16 (h_version h) /\ supportedVersion (h_version h) = true;
  ok_random : zlen (h_random h) = 32;
  ok_session : zlen (h_session h) < 256;
  ok_suites : Forall (is_uint 16) (h_suites h);
  ok_compression : zlen (h_compression h) < 256;
  ok_exts : Forall ext_ok (h_exts h);
  ok_length : zlen (encode_handshake h) < 65536;
}.

Definition hello_of (h : Hello) : ClientHello :=
  set_extensions (fold_left apply_ext (h_exts h) noExtVars) (set_handshake (h_version h) (h_suites h) zeroHello).

Lemma zlen_be_encode n v : zlen (be_encode n v) = Z.of_nat n.
Proof. unfold zlen. by rewrite length_be_encode. Qed.

Lemma read_16s_app vs : forall p r i, i = zlen p -> Forall (is_uint 16) vs -> read_16s (length vs) (p ++ WriteUint16s vs ++ r) i = Ok vs.
Proof.
  induction vs as [|v vs IH]; intros p r i -> Hvs; cbn [length read_16s]; [done|].
  apply Forall_cons in Hvs as [Hv Hvs]. unfold WriteUint16s. cbn [map concat]. rewrite <- app_assoc.
  rewrite be16_app by done. cbn [bind_result].
  change (concat _) with (WriteUint16s vs). rewrite app_assoc, IH; [done| |done]. by rewrite zlen_app, zlen_be_encode.
Qed.

Lemma read_16s_end vs n r : n = 2 * zlen vs -> Forall (is_uint 16) vs -> read_16s (Z.to_nat (n / 2)) (WriteUint16s vs ++ r) 0 = Ok vs.
Proof.
  intros -> H. rewrite Z.mul_comm, Z.div_mul, to_nat_zlen by lia. by apply (read_16s_app vs []).
Qed.

Lemma even_double n : (2 * n) mod 2 = 0.
Proof. rewrite Z.mul_comm. by apply Z.mod_mul. Qed.

Ltac wire_lengths := repeat first [rewrite zlen_app | rewrite zlen_cons | rewrite zlen_be_encode | rewrite zlen_WriteUint16s | rewrite zlen_nil].

Ltac wire_lengths_in H := repeat first [rewrite zlen_app in H | rewrite zlen_cons in H | rewrite zlen_be_encode in H | rewrite zlen_WriteUint16s in H | rewrite zlen_nil in H].

Section Bodies.
Context (sni : list byte) (exts ecs ecpfs versions ssas : list Z).
Abbreviation vars := (mkExtVars sni exts ecs ecpfs versions ssas).

Lemma parse_server_name name : zlen name + 5 < 65536 ->
  parseExtension 0 (ext_body (E_ServerName name)) vars = Ok (mkExtVars name exts ecs ecpfs versions ssas).
Proof.
  intros Hl. pose proof (zlen_nonneg name). unfold parseExtension. unfold_lengths. cbn [Z.eqb sniExtensionType ext_body].
  rewrite (proj2 (Z.ltb_ge _ _)) by (wire_lengths; lia).
  rewrite index_app by (by wire_lengths). cbn [bind_result]. rewrite cons_middle, app_assoc.
  rewrite be16_app by (wire_lengths; done || (unfold is_uint; lia)). cbn [bind_result].
  rewrite app_assoc, slice_from_app by (by wire_lengths). cbn [bind_result]. by rewrite Z.eqb_refl.
Qed.

Lemma parse_groups l : Forall (is_uint 16) l -> 2 * zlen l < 65536 ->
  parseExtension 10 (ext_body (E_Groups l)) vars = Ok (mkExtVars sni exts l ecpfs versions ssas).
Proof.
  intros Hv Hl. pose proof (zlen_nonneg l). unfold parseExtension. unfold_lengths.
  cbn [Z.eqb sniExtensionType ecExtensionType Pos.eqb ext_body].
  rewrite (proj2 (Z.ltb_ge _ _)) by (wire_lengths; lia).
  rewrite be16_head by (unfold is_uint; lia). cbn [bind_result].
  rewrite slice_from_app by (by wire_lengths). cbn [bind_result]. rewrite zlen_WriteUint16s, Z.eqb_refl. cbn [negb].
  rewrite <- (app_nil_r (WriteUint16s l)). by rewrite read_16s_end.
Qed.

Lemma parse_point_formats l : zlen l < 256 ->
  parseExtension 11 (ext_body (E_PointFormats l)) vars = Ok (mkExtVars sni exts ecs (map Z_of_byte l) versions ssas).
Proof.
  intros Hl. pose proof (zlen_nonneg l). unfold parseExtension. unfold_lengths.
  cbn [Z.eqb sniExtensionType ecExtensionType ecpfExtensionType Pos.eqb ext_body].
  rewrite (proj2 (Z.ltb_ge _ _)) by (wire_lengths; lia). rewrite index_head. cbn [bind_result].
  rewrite slice_from_tail. cbn [bind_result]. rewrite Z_of_byte_small by lia. by rewrite Z.eqb_refl.
Qed.

Lemma parse_versions l : Forall (is_uint 16) l -> 2 * zlen l < 256 ->
  parseExtension 43 (ext_body (E_Versions l)) vars = Ok (mkExtVars sni exts ecs ecpfs (versions ++ l) ssas).
Proof.
  intros Hv Hl. pose proof (zlen_nonneg l). unfold parseExtension. unfold_lengths.
  cbn [Z.eqb sniExtensionType ecExtensionType ecpfExtensionType versionExtensionType Pos.eqb ext_body].
  rewrite (proj2 (Z.ltb_ge _ _)) by (wire_lengths; lia). rewrite index_head. cbn [bind_result].
  rewrite slice_from_tail. cbn [bind_result]. rewrite Z_of_byte_small, even_double, zlen_WriteUint16s, Z.ltb_irrefl by lia.
  cbn [negb orb Z.eqb]. rewrite <- (app_nil_r (WriteUint16s l)). by rewrite read_16s_end.
Qed.

Lemma parse_signature_algorithms l : Forall (is_uint 16) l -> 2 * zlen l < 65536 ->
  parseExtension 13 (ext_body (E_SignatureAlgorithms l)) vars = Ok (mkExtVars sni exts ecs ecpfs versions (ssas ++ l)).
Proof.
  intros Hv Hl. pose proof (zlen_nonneg l). unfold parseExtension. unfold_lengths.
  cbn [Z.eqb sniExtensionType ecExtensionType ecpfExtensionType versionExtensionType signatureAlgorithmsExtensionType Pos.eqb ext_body].
  rewrite (proj2 (Z.ltb_ge _ _)) by (wire_lengths; lia).
  rewrite be16_head by (unfold is_uint; lia). cbn [bind_result].
  rewrite slice_from_app by (by wire_lengths). cbn [bind_result]. rewrite even_double, zlen_WriteUint16s, Z.ltb_irrefl.
  cbn [negb orb Z.eqb]. rewrite <- (app_nil_r (WriteUint16s l)). by rewrite read_16s_end.
Qed.

Lemma parse_other type data : type ∉ [0; 10; 11; 43; 13] -> parseExtension type data vars = Ok vars.
Proof.
  intros Hne. rewrite !not_elem_of_cons in Hne. destruct Hne as (?&?&?&?&?&_). unfold parseExtension.
  unfold sniExtensionType, ecExtensionType, ecpfExtensionType, versionExtensionType, signatureAlgorithmsExtensionType.
  by rewrite !(proj2 (Z.eqb_neq type _)).
Qed.

End Bodies.

Lemma parseExtension_body e v : ext_ok e -> zlen (ext_body e) < 65536 ->
  parseExtension (ext_type e) (ext_body e) (append_extension (ext_type e) v) = Ok (apply_ext v e).
Proof.
  intros Hok Hl. destruct e as [name|l|l|l|l|type data]; cbn [ext_ok] in Hok; cbn [ext_body] in Hl; wire_lengths_in Hl.
  - apply parse_server_name. lia.
  - apply parse_groups; [done|lia].
  - by apply parse_point_formats.
  - destruct Hok. by apply parse_versions.
  - apply parse_signature_algorithms; [done|lia].
  - destruct Hok. by apply parse_other.
Qed.

Lemma ext_type_ok e : ext_ok e -> is_uint 16 (ext_type e).
Proof. destruct e; cbn; intros Hok; try destruct Hok; unfold is_uint in *; lia. Qed.

Lemma parseExtensions_loop_encode exts : forall fuel v,
  Forall ext_ok exts -> zlen (encode_exts exts) < 65536 -> (length (encode_exts exts) <= fuel)%nat ->
  parseExtensions_loop fuel (encode_exts exts) v = Ok (fold_left apply_ext exts v).
Proof.
  induction exts as [|e exts IH]; intros fuel v Hok Hl Hf; [by destruct fuel|].
  apply Forall_cons in Hok as [He Hok]. unfold encode_exts in *. cbn [map concat] in *.
  remember (concat (map encode_ext exts)) as rest eqn:Er. pose proof (zlen_nonneg rest). pose proof (zlen_nonneg (ext_body e)) as Hb.
  unfold encode_ext in Hl, Hf |- *. wire_lengths_in Hl. rewrite <- !app_assoc in *.
  destruct fuel as [|fuel]; [rewrite !length_app, !length_be_encode in Hf; lia|].
  cbn [parseExtensions_loop fold_left]. unfold_lengths.
  rewrite (proj2 (Z.eqb_neq _ _)) by (wire_lengths; lia). rewrite (proj2 (Z.ltb_ge _ 4)) by (wire_lengths; lia).
  rewrite be16_head by (by apply ext_type_ok). cbn [bind_result].
  rewrite be16_app by (by wire_lengths || (unfold is_uint; lia)). cbn [bind_result].
  rewrite (proj2 (Z.ltb_ge _ (4 + _))) by (wire_lengths; lia).
  rewrite app_assoc, slice_app by (wire_lengths; lia). cbn [bind_result].
  rewrite parseExtension_body by (done || lia). cbn [bind_result].
  assert (uint16 (4 + zlen (ext_body e)) = 4 + zlen (ext_body e)) as -> by (apply wrap_small; lia).
  rewrite app_assoc, slice_from_app by (by wire_lengths). cbn [bind_result].
  apply IH; [done|lia|]. rewrite !length_app, !length_be_encode in Hf. lia.
Qed.

Lemma parseExtensions_encode exts j : Forall ext_ok exts -> zlen (encode_exts exts) + 2 < 65536 ->
  parseExtensions (be_encode 2 (zlen (encode_exts exts)) ++ encode_exts exts) j = Ok (set_extensions (fold_left apply_ext exts noExtVars) j).
Proof.
  intros Hok Hl. pose proof (zlen_nonneg (encode_exts exts)). unfold parseExtensions. unfold_lengths.
  rewrite (proj2 (Z.eqb_neq _ _)) by (wire_lengths; lia). rewrite (proj2 (Z.ltb_ge _ 2)) by (wire_lengths; lia).
  rewrite be16_head by (unfold is_uint; lia). cbn [bind_result].
  rewrite slice_from_app by (by wire_lengths). cbn [bind_result]. rewrite Z.ltb_irrefl, parseExtensions_loop_encode by (done || lia). done.
Qed.

Lemma be24_encode v b1 b2 b3 : 0 <= v < 2 ^ 24 -> be_encode 3 v = [b1; b2; b3] ->
  Z.lor (Z.lor (Z.shiftl (Z_of_byte b1) 16) (Z.shiftl (Z_of_byte b2) 8)) (Z_of_byte b3) = v.
Proof.
  intros Hv He. rewrite <- (be_decode_encode 3 v Hv), He. unfold be_decode. cbn [be_decode_acc].
  by rewrite Z.shiftl_0_l, Z.lor_0_l, Z.shiftl_lor, Z.shiftl_shiftl by lia.
Qed.

(** The cipher suites, the compression methods and the extensions. *)
Lemma parse_suites (h : Hello) (j : ClientHello) version : hello_ok h -> zlen (encode_suites h) < 65536 ->
  (let* csLen := be16 (encode_suites h) 0 in
   if zlen (encode_suites h) <? cipherSuiteHeaderLen + csLen + compressMethodHeaderLen then Err (LengthErr 7)
   else
     let* cipherSuites := read_16s (Z.to_nat (csLen / 2)) (encode_suites h) 2 in
     let j := set_handshake version cipherSuites j in
     let* compressMethodLen := index (encode_suites h) (cipherSuiteHeaderLen + csLen) in
     if zlen (encode_suites h) <? cipherSuiteHeaderLen + csLen + compressMethodHeaderLen + compressMethodLen then Err (LengthErr 8)
     else
       let* exs := slice_from (encode_suites h) (cipherSuiteHeaderLen + csLen + compressMethodHeaderLen + compressMethodLen) in
       parseExtensions exs j) =
  Ok (set_extensions (fold_left apply_ext (h_exts h) noExtVars) (set_handshake version (h_suites h) j)).
Proof.
  intros Hok. pose proof (ok_suites h Hok) as Hs. pose proof (ok_compression h Hok) as Hc. pose proof (ok_exts h Hok) as He.
  unfold_lengths. unfold encode_suites. revert Hs Hc He. clear Hok.
  generalize (h_suites h) as suites, (h_compression h) as comp, (h_exts h) as exts. intros suites comp exts Hs Hc He.
  pose proof (zlen_nonneg suites). pose proof (zlen_nonneg comp). pose proof (zlen_nonneg (encode_exts exts)).
  wire_lengths. intros Hl. rewrite be16_head by (unfold is_uint; lia). cbn [bind_result].
  rewrite (proj2 (Z.ltb_ge _ _)) by lia.
  assert (Z.to_nat (2 * zlen suites / 2) = length suites) as ->. { rewrite Z.mul_comm, Z.div_mul by lia. apply to_nat_zlen. }
  rewrite read_16s_app by (by wire_lengths). cbn [bind_result].
  rewrite (app_assoc (be_encode 2 _)), index_app by (wire_lengths; lia). cbn [bind_result]. rewrite Z_of_byte_small by lia.
  rewrite (proj2 (Z.ltb_ge _ _)) by lia.
  rewrite app_comm_cons, app_assoc, slice_from_app by (wire_lengths; lia). cbn [bind_result].
  apply parseExtensions_encode; [done|lia].
Qed.

Lemma parseHandshake_encode h : hello_ok h -> parseHandshake (encode_handshake h) zeroHello = Ok (hello_of h).
Proof.
  intros Hok. destruct (ok_version h Hok) as [Hv Hsv]. pose proof (ok_random h Hok) as Hr. pose proof (ok_session h Hok) as Hs.
  pose proof (ok_length h Hok) as Hl. pose proof (zlen_nonneg (h_session h)). pose proof (zlen_nonneg (encode_suites h)).
  assert (zlen (encode_body h) = 35 + zlen (h_session h) + zlen (encode_suites h)) as Hb
    by (unfold encode_body; wire_lengths; lia).
  assert (2 <= zlen (encode_suites h)) as Hcs by (unfold encode_suites; wire_lengths; pose proof (zlen_nonneg (h_suites h));
    pose proof (zlen_nonneg (h_compression h)); pose proof (zlen_nonneg (encode_exts (h_exts h))); lia).
  unfold encode_handshake in *. wire_lengths_in Hl.
  destruct (be_encode 3 (zlen (encode_body h))) as [|b1 [|b2 [|b3 [|]]]] eqn:E; [by apply (f_equal length) in E; rewrite length_be_encode in E..| |by apply (f_equal length) in E; rewrite length_be_encode in E].
  pose proof (be24_encode (zlen (encode_body h)) b1 b2 b3 ltac:(lia) E) as H24.
  unfold parseHandshake. unfold_lengths. cbn [app]. rewrite (proj2 (Z.ltb_ge _ _)) by (wire_lengths; lia).
  change (index _ 0) with (Ok 1). change (index _ 1) with (Ok (Z_of_byte b1)). change (index _ 2) with (Ok (Z_of_byte b2)).
  change (index _ 3) with (Ok (Z_of_byte b3)). cbn [bind_result]. change (negb (1 =? handshakeType)) with false. cbv iota.
  rewrite H24. change (x01 :: b1 :: b2 :: b3 :: encode_body h) with ([x01; b1; b2; b3] ++ encode_body h).
  rewrite slice_from_app by done. cbn [bind_result]. rewrite Z.eqb_refl. cbn [negb]. unfold encode_body at 1.
  rewrite be16_app by done. cbn [bind_result]. rewrite Hsv. cbn [negb].
  unfold encode_body at 1. rewrite !app_assoc, index_app by (wire_lengths; lia). cbn [bind_result]. rewrite Z_of_byte_small by lia.
  rewrite (proj2 (Z.ltb_ge _ _)) by (wire_lengths; lia).
  unfold encode_body at 1. rewrite app_comm_cons, !app_assoc, slice_from_app by (wire_lengths; lia). cbn [bind_result].
  rewrite (proj2 (Z.ltb_ge _ 2)) by lia. apply parse_suites; [done|lia].
Qed.

(** A handshake record: the length is checked, and the parser goes on with as many bytes. *)
Lemma Compute_record n hs : 0 <= n < 65536 ->
  Compute (x16 :: x03 :: x03 :: be_encode 2 n ++ hs) =
  if zlen hs <? n then Err (LengthErr 2) else parseHandshake (take (Z.to_nat n) hs) zeroHello.
Proof.
  intros Hn. pose proof (zlen_nonneg hs). unfold Compute, parseSegment. unfold_lengths.
  rewrite (proj2 (Z.ltb_ge _ 5)) by (wire_lengths; lia). rewrite index_head. cbn [bind_result].
  change (be16 _ 1) with (Ok 0x0303). cbn [bind_result]. change (negb (supportedVersion 0x0303)) with false.
  change (negb (Z_of_byte x16 =? contentType)) with false. cbv iota.
  change (x16 :: x03 :: x03 :: ?l) with ([x16; x03; x03] ++ l). rewrite be16_app by (done || (unfold is_uint; lia)). cbn [bind_result].
  rewrite app_assoc, slice_from_app by (by wire_lengths). cbn [bind_result].
  destruct (Z.ltb_spec (zlen hs) n) as [|Hle]; [done|].
  rewrite <- (take_drop (Z.to_nat n) hs) at 1. rewrite slice_app; [done|by wire_lengths|].
  wire_lengths. unfold zlen at 1. rewrite length_take. unfold zlen in Hle. lia.
Qed.

(** A well-formed client hello is read back, field by field, from the record
    that carries it. *)
Theorem Compute_encode h : hello_ok h -> Compute (encode_record (encode_handshake h)) = Ok (hello_of h).
Proof.
  intros Hok. pose proof (ok_length h Hok) as Hl. pose proof (zlen_nonneg (encode_handshake h)). unfold encode_record.
  rewrite Compute_record by lia. rewrite Z.ltb_irrefl, to_nat_zlen, firstn_all. by apply parseHandshake_encode.
Qed.

(** ** Where the fingerprint departs from its purpose *)

Lemma fold_no_grease vals : forall bs, Forall (fun v => Z.land v GreaseBitmask <> 0x0A0A) vals ->
  fold_left (fun bs val => if negb (Z.land val GreaseBitmask =? 0x0A0A) then bs else AppendUint bs val ++ [dashByte]) vals bs = bs.
Proof.
  induction vals as [|v vals IH]; intros bs Hv; [done|]. apply Forall_cons in Hv as [Hv Hvs]. cbn [fold_left].
  rewrite (proj2 (Z.eqb_neq _ _)) by done. by apply IH.
Qed.

Lemma marshalValues_no_grease vals bs : vals <> [] -> Forall (fun v => Z.land v GreaseBitmask <> 0x0A0A) vals ->
  marshalValues vals (bs ++ [commaByte]) = bs ++ [commaByte].
Proof.
  intros Hn Hv. unfold marshalValues. destruct vals as [|v vals]; [done|]. rewrite fold_no_grease by done.
  unfold set_last. by rewrite removelast_last.
Qed.

(** The text is meant to leave the GREASE values out; the test is the other
    way round and leaves out everything else, so that all hellos without GREASE
    values have the same text, up to the version and the point formats. *)
Theorem marshalJA3_ignores_values j :
  Forall (fun vals => vals <> [] /\ Forall (fun v => Z.land v GreaseBitmask <> 0x0A0A) vals)
    [CipherSuites j; Extensions j; EllipticCurves j] ->
  EllipticCurvePF j = [] ->
  marshalJA3 j = AppendUint [] (Version j) ++ [commaByte].
Proof.
  rewrite !Forall_cons. intros ([Hs Hs'] & [He He'] & [Hc Hc'] & _) Hp. unfold marshalJA3. rewrite Hp. by rewrite !marshalValues_no_grease.
Qed.

(** Compared without regard to the order of the extensions, a hello whose
    extensions are not in increasing order is not equal to itself. *)
Lemma Equals_unsorted_irreflexive :
  let j := mkClientHello 771 [4865] [43; 0] [29] [0] [772] [1027] [] in Equals j j true = false /\ Equals j j false = true.
Proof. split; by_compute. Qed.
