(* ===== verification/Quic.v ===== *)
(** * The QUIC sniffer (common/sniff/quic.go, quic_blacklist.go, internal/qtls)

    [QUICClientHello] removes the protection of an Initial packet, collects
    the CRYPTO frames it carries with those of earlier packets (kept in
    [metadata.SniffContext]), puts them in order behind a TLS record header
    and reads the client hello; while it is incomplete the answer is "need
    more data".

    The cryptography is a parameter ([QuicCrypto]: HKDF-Extract, HKDF-Expand,
    one AES block, AES-GCM), with what the code relies on as [QuicCryptoLaws].
    Everything else, from the header to the guess of the client, is modelled.
    Variable-length integers are below 2^62 ([varint_bound]), so that the sums
    of lengths and offsets stay far from the 64-bit limit. *)
From Stdlib Require Import ZArith Lia Bool.
From S2P Require Import Prelude GoIO Ja3.

(** ** internal/qtls *)

Module Qtls.

Definition VersionDraft29 : Z := 0xff00001d.
Definition Version1 : Z := 1.
Definition Version2 : Z := 0x6b3343cf.

Definition SaltOld : list byte := map byte_of_Z
  [0xaf; 0xbf; 0xec; 0x28; 0x99; 0x93; 0xd2; 0x4c; 0x9e; 0x97; 0x86; 0xf1; 0x9c; 0x61; 0x11; 0xe0; 0x43; 0x90; 0xa8; 0x99].
Definition SaltV1 : list byte := map byte_of_Z
  [0x38; 0x76; 0x2c; 0xf7; 0xf5; 0x59; 0x34; 0xb3; 0x4d; 0x17; 0x9a; 0xe6; 0xa4; 0xc8; 0x0c; 0xad; 0xcc; 0xbb; 0x7f; 0x0a].
Definition SaltV2 : list byte := map byte_of_Z
  [0x0d; 0xed; 0xe3; 0xde; 0xf7; 0x00; 0xa6; 0xdb; 0x81; 0x93; 0x81; 0xbe; 0x6e; 0x26; 0x9d; 0xcb; 0xf9; 0xbd; 0x2e; 0xd9].

Definition HKDFLabelKeyV1 : string := "quic key".
Definition HKDFLabelKeyV2 : string := "quicv2 key".
Definition HKDFLabelIVV1 : string := "quic iv".
Definition HKDFLabelIVV2 : string := "quicv2 iv".
Definition HKDFLabelHeaderProtectionV1 : string := "quic hp".
Definition HKDFLabelHeaderProtectionV2 : string := "quicv2 hp".

Definition ReadOctet : Reader Z := let! b := ReadByte in rret (Z_of_byte b).

Definition ReadUvarint : Reader Z :=
  let! firstByte := ReadOctet in
  let len := Z.shiftl 1 (Z.shiftr (Z.land firstByte 0xc0) 6) in
  let b1 := Z.land firstByte (0xff - 0xc0) in
  if len =? 1 then rret b1
  else
    let! b2 := ReadOctet in
    if len =? 2 then rret (b2 + Z.shiftl b1 8)
    else
      let! b3 := ReadOctet in
      let! b4 := ReadOctet in
      if len =? 4 then rret (b4 + Z.shiftl b3 8 + Z.shiftl b2 16 + Z.shiftl b1 24)
      else
        let! b5 := ReadOctet in
        let! b6 := ReadOctet in
        let! b7 := ReadOctet in
        let! b8 := ReadOctet in
        rret (b8 + Z.shiftl b7 8 + Z.shiftl b6 16 + Z.shiftl b5 24 + Z.shiftl b4 32 + Z.shiftl b3 40 + Z.shiftl b2 48 + Z.shiftl b1 56).

End Qtls.

(** ** Cryptography *)

Class QuicCrypto := {
  hkdf_Extract : list byte -> list byte -> list byte;                (* SHA-256; secret, salt *)
  hkdf_Expand : list byte -> list byte -> Z -> result (list byte);   (* the first bytes of Expand(secret, info) *)
  aes_Encrypt : list byte -> list byte -> list byte;                 (* key, one block *)
  gcm_Open : list byte -> list byte -> list byte -> list byte -> option (list byte); (* key, nonce, ciphertext, additional data *)
}.

Class QuicCryptoLaws `{QuicCrypto} := {
  hkdf_Expand_length secret info n : 0 <= n <= 255 * 32 -> exists out, hkdf_Expand secret info n = Ok out /\ zlen out = n;
  aes_Encrypt_length key block : zlen block = 16 -> zlen (aes_Encrypt key block) = 16;
}.

(** ** Frames *)

Definition frameTypePadding : Z := 0x00.
Definition frameTypePing : Z := 0x01.
Definition frameTypeAck : Z := 0x02.
Definition frameTypeAck2 : Z := 0x03.
Definition frameTypeCrypto : Z := 0x06.
Definition frameTypeConnectionClose : Z := 0x1c.

Record qCryptoFragment := mkFragment { f_offset : Z; f_length : Z; f_payload : list byte }.

(** The gap and the length of each further ACK range. *)
Fixpoint readRanges (fuel : nat) (ackRangeCount : Z) : Reader unit :=
  if ackRangeCount <=? 0 then rret tt
  else match fuel with
  | O => rlift (Err OutOfFuel)
  | S fuel' =>
      let! _ := Qtls.ReadUvarint in
      let! _ := Qtls.ReadUvarint in
      readRanges fuel' (ackRangeCount - 1)
  end.

Definition readAck (frameType : Z) : Reader unit :=
  let! _ := Qtls.ReadUvarint in
  let! _ := Qtls.ReadUvarint in
  let! ackRangeCount := Qtls.ReadUvarint in
  let! _ := Qtls.ReadUvarint in
  let! _ := (fun i => readRanges (S (length i)) ackRangeCount i) in
  if frameType =? frameTypeAck2 then
    let! _ := Qtls.ReadUvarint in
    let! _ := Qtls.ReadUvarint in
    let! _ := Qtls.ReadUvarint in
    rret tt
  else rret tt.

(** [if length > uint64(reader.Len()) { return io.ErrUnexpectedEOF }] and the bytes skipped by [Seek]. *)
Definition takeBytes (length : Z) : Reader (list byte) := fun i =>
  if zlen i <? length then Err ErrUnexpectedEOF else Ok (take (Z.to_nat length) i, drop (Z.to_nat length) i).

Definition readCrypto : Reader (list qCryptoFragment) :=
  let! offset := Qtls.ReadUvarint in
  let! length := Qtls.ReadUvarint in
  let! payload := takeBytes length in
  rret (if length =? 0 then [] else [mkFragment offset length payload]).

Definition readClose : Reader unit :=
  let! _ := Qtls.ReadUvarint in
  let! _ := Qtls.ReadUvarint in
  let! length := Qtls.ReadUvarint in
  let! _ := takeBytes length in
  rret tt.

(** One frame: the fragments it adds. *)
Definition readFrame (frameType : Z) : Reader (list qCryptoFragment) :=
  if frameType =? frameTypePadding then rret []
  else if frameType =? frameTypePing then rret []
  else if (frameType =? frameTypeAck) || (frameType =? frameTypeAck2) then let! _ := readAck frameType in rret []
  else if frameType =? frameTypeCrypto then readCrypto
  else if frameType =? frameTypeConnectionClose then let! _ := readClose in rret []
  else rlift (Err ErrInvalid).

Fixpoint parseFrames_loop (fuel : nat) (i : list byte) (fragments : list qCryptoFragment) (frameTypeList : list Z)
    : result (list qCryptoFragment * list Z) :=
  match i with
  | [] => Ok (fragments, frameTypeList)
  | b :: i' =>
      match fuel with
      | O => Err OutOfFuel
      | S fuel' =>
          let frameType := Z_of_byte b in
          let* (new, i') := readFrame frameType i' in
          parseFrames_loop fuel' i' (fragments ++ new) (frameTypeList ++ [frameType])
      end
  end.

Definition parseQUICCryptoFrames (decrypted : list byte) : result (list qCryptoFragment * list Z) :=
  parseFrames_loop (length decrypted) decrypted [] [].

Definition isZero (l : list Z) : bool := forallb (fun v => v =? 0) l.
Definition count (l : list Z) (value : Z) : Z := zlen (List.filter (fun v => v =? value) l).

(** ** Reassembly *)

Definition frameLength (fragments : list qCryptoFragment) : Z :=
  fold_left (fun frameLen fragment => uint64 (frameLen + f_length fragment)) fragments 0.

(** [buffer.Write] on a buffer of this capacity: what does not fit is lost. *)
Definition buffer_Write (capacity : Z) (buffer data : list byte) : list byte := take (Z.to_nat capacity) (buffer ++ data).

(** The loop labelled find. *)
Fixpoint find_loop (fuel : nat) (fragments : list qCryptoFragment) (capacity : Z) (buffer : list byte) (index : Z)
    : result (list byte) :=
  match List.find (fun fragment => f_offset fragment =? index) fragments with
  | None => Ok buffer
  | Some fragment =>
      match fuel with
      | O => Err OutOfFuel
      | S fuel' =>
          find_loop fuel' fragments capacity (buffer_Write capacity buffer (f_payload fragment))
            (uint64 (f_offset fragment + f_length fragment))
      end
  end.

Definition recordHeader (frameLen : Z) : list byte := x16 :: be_encode 2 0x0303 ++ be_encode 2 frameLen.

Definition reassemble (fragments : list qCryptoFragment) (frameLen : Z) : result (list byte) :=
  find_loop (length fragments) fragments (5 + frameLen) (recordHeader frameLen) 0.

(** ** The client *)

Definition ClientChromium : string := "chromium".
Definition ClientSafari : string := "safari".
Definition ClientFirefox : string := "firefox".
Definition ClientQUICGo : string := "quic-go".
Definition ClientUnknown : string := "unknown".
Definition ProtocolQUIC : string := "quic".

Definition x25519Kyber768Draft00 : Z := 0x11EC.
Definition extensionRenegotiationInfo : Z := 0xFF01.
Definition TLS_AES_256_GCM_SHA384 : Z := 0x1302.
Definition tls_X25519 : Z := 29.
Definition ECDSAWithP256AndSHA256 : Z := 0x0403.

Definition isQUICGo (fingerprint : ClientHello) : bool :=
  bool_decide (x25519Kyber768Draft00 ∈ EllipticCurves fingerprint)
  || bool_decide (extensionRenegotiationInfo ∈ Extensions fingerprint).

Definition grease_head (l : list Z) : bool :=
  match l with v :: _ => Z.land v GreaseBitmask =? 0x0A0A | [] => false end.

Definition isSafari (fingerprint : ClientHello) : bool :=
  ((zlen (Versions fingerprint) =? 2) && grease_head (Versions fingerprint)
   && (zlen (EllipticCurves fingerprint) =? 5) && grease_head (EllipticCurves fingerprint))
  || (bool_decide (CipherSuites fingerprint = [TLS_AES_256_GCM_SHA384])
      && bool_decide (EllipticCurves fingerprint = [tls_X25519])
      && bool_decide (SignatureAlgorithms fingerprint = [ECDSAWithP256AndSHA256])).

(** The body of [for metadata.Client == ""]; an empty list of frames is an index out of range. *)
Definition guessClient (frameTypeList : list Z) (fingerprint : ClientHello) : result string :=
  if zlen frameTypeList =? 1 then Ok ClientFirefox
  else match frameTypeList with
  | [] => Panic "runtime error: index out of range [0] with length 0"
  | first :: rest =>
      if (first =? frameTypeCrypto) && isZero rest && isSafari fingerprint then Ok ClientSafari
      else if (List.last frameTypeList 0 =? frameTypeCrypto) && isZero (removelast frameTypeList) then Ok ClientQUICGo
      else if (1 <? count frameTypeList frameTypeCrypto) || (0 <? count frameTypeList frameTypePing) then
        Ok (if isQUICGo fingerprint then ClientQUICGo else ClientChromium)
      else Ok ClientUnknown
  end.

(** ** The sniffer *)

(** The fields of the metadata that the sniffers write. *)
Record SniffData := mkSniffData {
  s_Protocol : string;
  s_Domain : string;
  s_Client : string;
  s_Context : option (list qCryptoFragment);
}.

(** From the decrypted payload on. *)
Definition sniffFrames (decrypted : list byte) (md : SniffData) : SniffData * result unit :=
  match parseQUICCryptoFrames decrypted with
  | Err e => (md, Err e)
  | Panic s => (md, Panic s)
  | Ok (fragments, frameTypeList) =>
      let fragments := fragments ++ default [] (s_Context md) in
      let md := mkSniffData (s_Protocol md) (s_Domain md) (s_Client md) None in
      let frameLen := frameLength fragments in
      if 65535 <? frameLen then (md, Err ErrInvalid)
      else match reassemble fragments frameLen with
      | Err e => (md, Err e)
      | Panic s => (md, Panic s)
      | Ok buffer =>
          match Compute buffer with
          | Err e => (mkSniffData ProtocolQUIC (s_Domain md) (s_Client md) (Some fragments), Err (EErrors ErrNeedMoreData e))
          | Panic s => (md, Panic s)
          | Ok fingerprint =>
              let md := mkSniffData ProtocolQUIC (string_of_bytes (ServerName fingerprint)) (s_Client md) None in
              if String.eqb (s_Client md) "" then
                match guessClient frameTypeList fingerprint with
                | Ok client => (mkSniffData (s_Protocol md) (s_Domain md) client None, Ok tt)
                | Err e => (md, Err e)
                | Panic s => (md, Panic s)
                end
              else (md, Ok tt)
          end
      end
  end.

(** The fields of the long header. *)
Record Header := mkHeader {
  versionNumber : Z;
  destConnID : list byte;
  hdrLen : Z;
  packetLen : Z;
  pnBytes : list byte;   (* the sample for the header protection *)
}.

(** [io.CopyN(io.Discard, reader, n)]. *)
Definition discard (n : Z) : Reader unit := fun i => if n <=? zlen i then Ok (tt, drop (Z.to_nat n) i) else Err EOF.

Definition check (b : bool) (e : go_error) : Reader unit := rlift (if b then Err e else Ok tt).

Definition readHeader (packet : list byte) : Reader Header :=
  let! typeByte := Qtls.ReadOctet in
  let! _ := check (Z.land typeByte 0x40 =? 0) (ENew "bad type byte") in
  let! version := ReadFull 4 in
  let versionNumber := be_decode version in
  let! _ := check (negb (versionNumber =? Qtls.VersionDraft29) && negb (versionNumber =? Qtls.Version1)
                   && negb (versionNumber =? Qtls.Version2)) (ENew "bad version") in
  let packetType := Z.shiftr (Z.land typeByte 0x30) 4 in
  let! _ := check (((packetType =? 0) && (versionNumber =? Qtls.Version2))
                   || ((packetType =? 2) && negb (versionNumber =? Qtls.Version2)) || (2 <? packetType)) (ENew "bad packet type") in
  let! destConnIDLen := Qtls.ReadOctet in
  let! _ := check ((destConnIDLen =? 0) || (20 <? destConnIDLen)) (ENew "bad destination connection id length") in
  let! destConnID := ReadFull destConnIDLen in
  let! srcConnIDLen := Qtls.ReadOctet in
  let! _ := discard srcConnIDLen in
  let! tokenLen := Qtls.ReadUvarint in
  let! _ := discard tokenLen in
  let! packetLen := Qtls.ReadUvarint in
  let! hdrLen := (fun i => Ok (zlen packet - zlen i, i)) in
  let! _ := check (zlen packet <? hdrLen + packetLen) ErrInvalid in
  let! _ := discard 4 in
  let! pnBytes := ReadFull 16 in
  rret (mkHeader versionNumber destConnID hdrLen packetLen pnBytes).

Section Crypto.
Context `{QC : QuicCrypto}.

Definition HKDFExpandLabel (secret ctx : list byte) (label : string) (length : Z) : result (list byte) :=
  let labelBytes := bytes_of_string label in
  let info := be_encode 2 (uint16 length) ++ [byte_of_Z (6 + zlen labelBytes)] ++ bytes_of_string "tls13 " ++ labelBytes
              ++ [byte_of_Z (zlen ctx)] ++ ctx in
  match hkdf_Expand secret info length with
  | Ok out => if zlen out =? length then Ok out else Panic "quic: HKDF-Expand-Label invocation failed unexpectedly"
  | _ => Panic "quic: HKDF-Expand-Label invocation failed unexpectedly"
  end.

(** [xorNonceAEAD]: the key and the nonce mask. *)
Definition AEADAESGCMTLS13 (key nonceMask : list byte) : result (list byte * list byte) :=
  if negb (zlen nonceMask =? 12) then Panic "tls: internal error: wrong nonce length"
  else if negb (zlen key =? 16) && negb (zlen key =? 24) && negb (zlen key =? 32) then Panic "crypto/aes: invalid key size"
  else Ok (key, nonceMask).

Definition xor_bytes (a b : list byte) : list byte := zip_with (fun x y => byte_of_Z (Z.lxor (Z_of_byte x) (Z_of_byte y))) a b.

(** [Open]; the nonce has eight bytes. *)
Definition AEAD_Open (aead : list byte * list byte) (nonce ciphertext additionalData : list byte) : result (list byte) :=
  let '(key, nonceMask) := aead in
  match gcm_Open key (take 4 nonceMask ++ xor_bytes (drop 4 nonceMask) nonce) ciphertext additionalData with
  | Some plaintext => Ok plaintext
  | None => Err (ENew "cipher: message authentication failed")
  end.

(** [bs[i] ^= v]. *)
Definition xor_at (bs : list byte) (i v : Z) : result (list byte) :=
  let* b := index bs i in Ok (<[Z.to_nat i := byte_of_Z (Z.lxor b v)]> bs).

(** [for i := range newPacket[hdrLen : hdrLen+4] { newPacket[hdrLen+i] ^= mask[i+1] }]. *)
Fixpoint unmask (n : nat) (i hdrLen : Z) (mask newPacket : list byte) : result (list byte) :=
  match n with
  | O => Ok newPacket
  | S n' =>
      let* m := index mask (i + 1) in
      let* newPacket := xor_at newPacket (hdrLen + i) m in
      unmask n' (i + 1) hdrLen mask newPacket
  end.

Definition readPacketNumber (packetNumberLength hdrLen : Z) (newPacket : list byte) : result Z :=
  if packetNumberLength =? 1 then index newPacket hdrLen
  else if packetNumberLength =? 2 then be16 newPacket hdrLen
  else if packetNumberLength =? 3 then
    let* b2 := index newPacket (hdrLen + 2) in let* b1 := index newPacket (hdrLen + 1) in let* b0 := index newPacket hdrLen in
    Ok (Z.lor (Z.lor b2 (Z.shiftl b1 8)) (Z.shiftl b0 16))
  else if packetNumberLength =? 4 then
    let* bs := slice newPacket hdrLen (hdrLen + 4) in Ok (be_decode bs)
  else Err (ENew "bad packet number length").

(** From the salt to the decrypted payload. *)
Definition decryptPacket (packet : list byte) (h : Header) : result (list byte) :=
  let v2 := versionNumber h =? Qtls.Version2 in
  let salt := if versionNumber h =? Qtls.Version1 then Qtls.SaltV1 else if v2 then Qtls.SaltV2 else Qtls.SaltOld in
  let initialSecret := hkdf_Extract (destConnID h) salt in
  let* secret := HKDFExpandLabel initialSecret [] "client in" 32 in
  let* hpKey := HKDFExpandLabel secret [] (if v2 then Qtls.HKDFLabelHeaderProtectionV2 else Qtls.HKDFLabelHeaderProtectionV1) 16 in
  let mask := aes_Encrypt hpKey (pnBytes h) in
  let* m0 := index mask 0 in
  let* newPacket := xor_at packet 0 (Z.land m0 0xf) in
  let* _ := slice newPacket (hdrLen h) (hdrLen h + 4) in
  let* newPacket := unmask 4 0 (hdrLen h) mask newPacket in
  let* b0 := index newPacket 0 in
  let packetNumberLength := Z.land b0 0x3 + 1 in
  if packetLen h + hdrLen h <? hdrLen h + packetNumberLength then Err ErrInvalid
  else
    let* packetNumber := readPacketNumber packetNumberLength (hdrLen h) newPacket in
    let extHdrLen := hdrLen h + packetNumberLength in
    let* original := slice packet extHdrLen (hdrLen h + 4) in
    let newPacket := take (Z.to_nat extHdrLen) newPacket ++ original ++ drop (Z.to_nat (hdrLen h + 4)) newPacket in
    let* data := slice newPacket extHdrLen (packetLen h + hdrLen h) in
    let* key := HKDFExpandLabel secret [] (if v2 then Qtls.HKDFLabelKeyV2 else Qtls.HKDFLabelKeyV1) 16 in
    let* iv := HKDFExpandLabel secret [] (if v2 then Qtls.HKDFLabelIVV2 else Qtls.HKDFLabelIVV1) 12 in
    let* cipher := AEADAESGCMTLS13 key iv in
    AEAD_Open cipher (be_encode 8 packetNumber) data (take (Z.to_nat extHdrLen) newPacket).

Definition QUICClientHello (packet : list byte) (md : SniffData) : SniffData * result unit :=
  match readHeader packet packet with
  | Err e => (md, Err e)
  | Panic s => (md, Panic s)
  | Ok (header, _) =>
      match decryptPacket packet header with
      | Err e => (md, Err e)
      | Panic s => (md, Panic s)
      | Ok decrypted => sniffFrames decrypted md
      end
  end.

End Crypto.
