(* ===== verification/QuicTheorems.v ===== *)
(** * What the QUIC sniffer does with the packets it is given

    Three groups of results on Quic.

    - Frames: every frame of the RFC grammar ([frame_wire]) is read back, and
      the parser returns on every input.
    - Reassembly: the buffer handed to the hello parser is the longest chain of
      adjoining fragments from offset 0; nothing is cut off.
    - The sniffer: a client hello cut anywhere, sent in any order over any
      number of packets is recognised with the last fragment and not before
      ([quic_hello_sniffed]); no sequence of packets makes it panic
      ([quic_sniffer_returns]). *)
From Stdlib Require Import ZArith Lia Bool.
From S2P Require Import Prelude GoIO Ja3 Quic.

(** ** Variable-length integers (RFC 9000, 16) *)

(** [k] is the exponent in the two high bits: an encoding on 2^k bytes. *)
Definition varint (v : Z) (w : list byte) : Prop :=
  exists k, k ∈ [0; 1; 2; 3] /\ 0 <= v < 2 ^ (8 * 2 ^ k - 2) /\ w = be_encode (Z.to_nat (2 ^ k)) (k * 2 ^ (8 * 2 ^ k - 2) + v).

Lemma land_high c : 0 <= c < 256 -> Z.shiftr (Z.land c 0xc0) 6 = c / 64.
Proof.
  intros H. rewrite Z.shiftr_land. change (Z.shiftr 0xc0 6) with (Z.ones 2). rewrite Z.land_ones, Z.shiftr_div_pow2 by lia.
  apply Z.mod_small. change (2 ^ 6) with 64. change (2 ^ 2) with 4. pose proof (Z.div_lt_upper_bound c 64 4).
  pose proof (Z.div_pos c 64). lia.
Qed.

Lemma land_low c : Z.land c (0xff - 0xc0) = c mod 64.
Proof. change (0xff - 0xc0) with (Z.ones 6). by rewrite Z.land_ones. Qed.

Lemma be_decode_cons b bs : be_decode (b :: bs) = Z_of_byte b * 2 ^ (8 * zlen bs) + be_decode bs.
Proof.
  unfold be_decode at 1. cbn [be_decode_acc]. rewrite Z.shiftl_0_l, Z.lor_0_l.
  assert (forall bs acc, be_decode_acc acc bs = acc * 2 ^ (8 * zlen bs) + be_decode bs) as H; [|apply H].
  clear. intros bs. induction bs as [|b bs IH] using rev_ind; intros acc; [change (zlen []) with 0; cbn; lia|].
  assert (forall l acc x, be_decode_acc acc (l ++ [x]) = Z.lor (Z.shiftl (be_decode_acc acc l) 8) (Z_of_byte x)) as Hs.
  { intros l. induction l as [|y l IHl]; intros a x; [done|]. cbn [app be_decode_acc]. apply IHl. }
  unfold be_decode. rewrite !Hs, IH. fold (be_decode bs). pose proof (Z_of_byte_range b).
  rewrite !lor_shiftl_small by lia. rewrite zlen_app. change (zlen [b]) with 1.
  replace (8 * (zlen bs + 1)) with (8 * zlen bs + 8) by lia. pose proof (zlen_nonneg bs). rewrite Z.pow_add_r by lia. nia.
Qed.

Lemma be_decode_nil : be_decode [] = 0.
Proof. reflexivity. Qed.

Lemma ReadOctet_cons b i : Qtls.ReadOctet (b :: i) = Ok (Z_of_byte b, i).
Proof. reflexivity. Qed.

(** The reader on an encoding of each length. *)
Section Widths.
Context (b1 b2 b3 b4 b5 b6 b7 b8 : byte) (rest : list byte).
Let c (b : byte) : Z := Z_of_byte b.
Let high : Z := c b1 mod 64.

Ltac read_width H :=
  intros H; unfold Qtls.ReadUvarint, rbind; rewrite ReadOctet_cons, land_high, land_low by (apply Z_of_byte_range); fold (c b1); rewrite H;
  match goal with |- context [Z.shiftl 1 ?k] => let x := eval vm_compute in (Z.shiftl 1 k) in change (Z.shiftl 1 k) with x end;
  cbn [Z.eqb Pos.eqb]; repeat (rewrite ReadOctet_cons; cbv beta iota; cbn [Z.eqb Pos.eqb]);
  unfold rret; rewrite ?Z.shiftl_mul_pow2 by lia; reflexivity.

Lemma ReadUvarint_1 : c b1 / 64 = 0 -> Qtls.ReadUvarint (b1 :: rest) = Ok (high, rest).
Proof. read_width H. Qed.
Lemma ReadUvarint_2 : c b1 / 64 = 1 -> Qtls.ReadUvarint (b1 :: b2 :: rest) = Ok (c b2 + high * 2 ^ 8, rest).
Proof. read_width H. Qed.
Lemma ReadUvarint_4 : c b1 / 64 = 2 ->
  Qtls.ReadUvarint (b1 :: b2 :: b3 :: b4 :: rest) = Ok (c b4 + c b3 * 2 ^ 8 + c b2 * 2 ^ 16 + high * 2 ^ 24, rest).
Proof. read_width H. Qed.
Lemma ReadUvarint_8 : c b1 / 64 = 3 ->
  Qtls.ReadUvarint (b1 :: b2 :: b3 :: b4 :: b5 :: b6 :: b7 :: b8 :: rest) =
  Ok (c b8 + c b7 * 2 ^ 8 + c b6 * 2 ^ 16 + c b5 * 2 ^ 24 + c b4 * 2 ^ 32 + c b3 * 2 ^ 40 + c b2 * 2 ^ 48 + high * 2 ^ 56, rest).
Proof. read_width H. Qed.
End Widths.

(** The bytes of an encoding and the equation between them and the value. *)
Ltac encoded_bytes n x :=
  let He := fresh "He" in let E := fresh "E" in
  assert (be_decode (be_encode n x) = x) as He by (apply be_decode_encode; cbn; lia);
  pose proof (length_be_encode n x) as E; generalize dependent (be_encode n x); intros ?l He E;
  repeat match goal with
  | E : length ?l = S _ |- _ => is_var l; destruct l as [|?b ?l]; [discriminate E|]; cbn [length] in E; apply Nat.succ_inj in E
  | E : length ?l = O |- _ => is_var l; destruct l; [|discriminate E]
  end;
  rewrite !be_decode_cons, be_decode_nil in He; rewrite ?zlen_cons in He; change (@zlen byte []) with 0 in He; cbn in He;
  repeat match goal with b : byte |- _ => lazymatch goal with H : 0 <= Z_of_byte b < 256 |- _ => fail | _ => pose proof (Z_of_byte_range b) end end.

Lemma varint_decodes v w : varint v w -> decodes Qtls.ReadUvarint w v.
Proof.
  intros (k & Hk & Hv & ->) rest. rewrite !elem_of_cons in Hk. destruct Hk as [->|[->|[->|[->|[]%elem_of_nil]]]].
  - change (2 ^ (8 * 2 ^ 0 - 2)) with 64 in *. change (Z.to_nat (2 ^ 0)) with 1%nat. encoded_bytes 1%nat (0 * 64 + v).
    cbn [app]. rewrite ReadUvarint_1 by (Z.div_mod_to_equations; lia). do 2 f_equal. Z.div_mod_to_equations; lia.
  - change (2 ^ (8 * 2 ^ 1 - 2)) with (2 ^ 14) in *. change (Z.to_nat (2 ^ 1)) with 2%nat. encoded_bytes 2%nat (1 * 2 ^ 14 + v).
    cbn [app]. rewrite ReadUvarint_2 by (Z.div_mod_to_equations; lia). do 2 f_equal. Z.div_mod_to_equations; lia.
  - change (2 ^ (8 * 2 ^ 2 - 2)) with (2 ^ 30) in *. change (Z.to_nat (2 ^ 2)) with 4%nat. encoded_bytes 4%nat (2 * 2 ^ 30 + v).
    cbn [app]. rewrite ReadUvarint_4 by (Z.div_mod_to_equations; lia). do 2 f_equal. Z.div_mod_to_equations; lia.
  - change (2 ^ (8 * 2 ^ 3 - 2)) with (2 ^ 62) in *. change (Z.to_nat (2 ^ 3)) with 8%nat. encoded_bytes 8%nat (3 * 2 ^ 62 + v).
    cbn [app]. rewrite ReadUvarint_8 by (Z.div_mod_to_equations; lia). do 2 f_equal. Z.div_mod_to_equations; lia.
Qed.

(** ** Readers that return and only consume *)

(** [r] returns on every input and leaves a suffix of it. *)
Definition good {A} (r : Reader A) : Prop :=
  forall i, returns (r i) /\ forall a o, r i = Ok (a, o) -> exists w, i = w ++ o.

Lemma good_ret {A} (a : A) : good (rret a).
Proof. intros i. split; [exact I|]. intros ? ? [= _ ->]. by exists []. Qed.

Lemma good_err {A} e : e <> OutOfFuel -> good (@rlift A (Err e)).
Proof. intros He i. by split. Qed.

Lemma good_check b e : e <> OutOfFuel -> good (check b e).
Proof. intros He. unfold check. destruct b; [by apply good_err|]. intros i. split; [exact I|]. intros ? ? [= <- ->]. by exists []. Qed.

Lemma good_bind {A B} (r : Reader A) (k : A -> Reader B) : good r -> (forall a, good (k a)) -> good (rbind r k).
Proof.
  intros Hr Hk i. unfold rbind. destruct (Hr i) as [H1 H2]. destruct (r i) as [[a i']|e|s]; [|by split..].
  destruct (H2 a i' eq_refl) as [w ->]. destruct (Hk a i') as [H3 H4]. split; [done|].
  intros b o Hb. destruct (H4 b o Hb) as [w' ->]. exists (w ++ w'). by rewrite app_assoc.
Qed.

Lemma good_ReadOctet : good Qtls.ReadOctet.
Proof. intros [|b i]; split; try done. intros ? ? [= <- <-]. by exists [b]. Qed.

Lemma good_ReadFull n : good (ReadFull n).
Proof.
  intros i. split; [|intros a o H; by eapply shrinks_ReadFull]. unfold ReadFull. destruct (n <=? zlen i); [exact I|]. by destruct i.
Qed.

Lemma good_discard n : good (discard n).
Proof.
  intros i. unfold discard. destruct (n <=? zlen i); split; try done. intros ? ? [= _ <-].
  exists (take (Z.to_nat n) i). by rewrite take_drop.
Qed.

Lemma good_takeBytes n : good (takeBytes n).
Proof.
  intros i. unfold takeBytes. destruct (zlen i <? n); split; try done. intros ? ? [= <- <-]. eexists. by rewrite take_drop.
Qed.

#[local] Hint Resolve good_ret good_check good_ReadOctet good_ReadFull good_discard good_takeBytes : go.

Lemma good_ReadUvarint : good Qtls.ReadUvarint.
Proof.
  unfold Qtls.ReadUvarint.
  repeat match goal with
  | |- good (rbind _ _) => apply good_bind; [auto with go|intros ?]
  | |- good (if ?b then _ else _) => destruct b
  | |- good _ => auto with go
  end.
Qed.
#[local] Hint Resolve good_ReadUvarint : go.

(** A variable-length integer has 62 bits and takes at least one byte. *)
Lemma varint_bound i v o : Qtls.ReadUvarint i = Ok (v, o) -> 0 <= v < 2 ^ 62 /\ (length o < length i)%nat.
Proof.
  destruct i as [|b1 i]; [done|]. pose proof (Z_of_byte_range b1) as Hr.
  assert (Z_of_byte b1 / 64 ∈ [0; 1; 2; 3]) as Hk.
  { rewrite !elem_of_cons. assert (0 <= Z_of_byte b1 / 64 < 4) by (Z.div_mod_to_equations; lia). lia. }
  intros H. unfold Qtls.ReadUvarint, rbind in H. rewrite ReadOctet_cons, land_high, land_low in H by done.
  assert (0 <= Z_of_byte b1 mod 64 < 64) as Hm by (apply Z.mod_pos_bound; lia).
  revert H Hm. generalize (Z_of_byte b1 mod 64) as high. intros high H Hm.
  rewrite !elem_of_cons in Hk. destruct Hk as [Hk|[Hk|[Hk|[Hk|[]%elem_of_nil]]]]; rewrite Hk in H;
    match type of H with context [Z.shiftl 1 ?k] => let x := eval vm_compute in (Z.shiftl 1 k) in change (Z.shiftl 1 k) with x in H end;
    cbn [Z.eqb Pos.eqb] in H;
    repeat (destruct i as [|?b i]; [discriminate H|]; rewrite ReadOctet_cons in H; cbv beta iota in H; cbn [Z.eqb Pos.eqb] in H);
    unfold rret in H; rewrite ?Z.shiftl_mul_pow2 in H by lia; injection H as <- <-;
    repeat match goal with b : byte |- _ => lazymatch goal with H : 0 <= Z_of_byte b < 256 |- _ => fail | _ => pose proof (Z_of_byte_range b) end end;
    cbn [length]; lia.
Qed.

Lemma readRanges_good fuel : forall n i, (length i < fuel)%nat ->
  returns (readRanges fuel n i) /\ forall a o, readRanges fuel n i = Ok (a, o) -> exists w, i = w ++ o.
Proof.
  induction fuel as [|fuel IH]; intros n i Hf; [lia|]. cbn [readRanges]. destruct (n <=? 0); [apply good_ret|].
  unfold rbind. destruct (good_ReadUvarint i) as [H1 H2]. destruct (Qtls.ReadUvarint i) as [[v i1]|e|s] eqn:E1; [|by split..].
  destruct (good_ReadUvarint i1) as [H3 H4]. destruct (Qtls.ReadUvarint i1) as [[v' i2]|e|s] eqn:E2; [|by split..].
  apply varint_bound in E1 as [_ E1], E2 as [_ E2]. destruct (IH (n - 1) i2 ltac:(lia)) as [H5 H6]. split; [done|].
  intros a o Ho. destruct (H2 _ _ eq_refl) as [w1 ->], (H4 _ _ eq_refl) as [w2 ->], (H6 _ _ Ho) as [w3 ->].
  exists (w1 ++ w2 ++ w3). by rewrite !app_assoc.
Qed.

Ltac good_steps :=
  repeat match goal with
  | |- good (rbind _ _) => apply good_bind; [|intros ?]
  | |- good (if ?b then _ else _) => destruct b
  | |- good _ => auto with go
  end.

Lemma good_readAck t : good (readAck t).
Proof. unfold readAck. good_steps. intros i. apply readRanges_good. lia. Qed.

Lemma good_readCrypto : good readCrypto.
Proof. unfold readCrypto. good_steps. Qed.

Lemma good_readClose : good readClose.
Proof. unfold readClose. good_steps. Qed.
#[local] Hint Resolve good_readAck good_readCrypto good_readClose : go.

Lemma good_readFrame t : good (readFrame t).
Proof. unfold readFrame. good_steps. by apply good_err. Qed.

(** What the reassembly relies on. *)
Definition fragment_ok (f : qCryptoFragment) : Prop :=
  0 <= f_offset f < 2 ^ 62 /\ 0 < f_length f < 2 ^ 62 /\ f_length f = zlen (f_payload f).

Lemma readFrame_fragments t i new o : readFrame t i = Ok (new, o) -> Forall fragment_ok new.
Proof.
  unfold readFrame.
  destruct (t =? _); [intros [= <- _]; constructor|]. destruct (t =? _); [intros [= <- _]; constructor|].
  destruct (_ || _). { unfold rbind. destruct (readAck t i) as [[[] i']| |]; [|done..]. intros [= <- _]. constructor. }
  destruct (t =? _).
  - unfold readCrypto, rbind. destruct (Qtls.ReadUvarint i) as [[off i1]| |] eqn:E1; [|done..].
    destruct (Qtls.ReadUvarint i1) as [[n i2]| |] eqn:E2; [|done..]. apply varint_bound in E1 as [H1 _], E2 as [H2 _].
    unfold takeBytes. destruct (Z.ltb_spec (zlen i2) n) as [|Hn]; [done|]. destruct (Z.eqb_spec n 0); intros [= <- _]; constructor; [|constructor].
    split; [done|]. cbn. split; [lia|]. unfold zlen in *. rewrite length_take. lia.
  - destruct (t =? _); [|done]. unfold rbind. destruct (readClose i) as [[[] i']| |]; [|done..]. intros [= <- _]. constructor.
Qed.

Lemma parseFrames_loop_spec fuel : forall i fragments types,
  (length i <= fuel)%nat -> Forall fragment_ok fragments ->
  match parseFrames_loop fuel i fragments types with
  | Ok (fragments', types') =>
      Forall fragment_ok fragments' /\ (types' = [] -> i = [] /\ types = [] /\ fragments' = fragments)
  | Err e => e <> OutOfFuel
  | Panic _ => False
  end.
Proof.
  induction fuel as [|fuel IH]; intros i fragments types Hf Hfr; destruct i as [|b i]; cbn [parseFrames_loop]; [done|cbn in Hf; lia|done|].
  destruct (good_readFrame (Z_of_byte b) i) as [H1 H2]. destruct (readFrame (Z_of_byte b) i) as [[new i']|e|s] eqn:E; [|done..].
  cbn [bind_result]. destruct (H2 _ _ eq_refl) as [w ->]. apply readFrame_fragments in E.
  specialize (IH i' (fragments ++ new) (types ++ [Z_of_byte b])). cbn [length] in Hf. rewrite length_app in Hf.
  specialize (IH ltac:(lia) ltac:(by apply Forall_app)). destruct (parseFrames_loop _ _ _ _) as [[fs ts]| |]; [|done..].
  destruct IH as [Hfs Hts]. split; [done|]. intros Ht. destruct (Hts Ht) as (_ & Hbad & _). by destruct types.
Qed.

Lemma parseFrames_spec decrypted :
  match parseQUICCryptoFrames decrypted with
  | Ok (fragments, types) => Forall fragment_ok fragments /\ (types = [] -> decrypted = [] /\ fragments = [])
  | Err e => e <> OutOfFuel
  | Panic _ => False
  end.
Proof.
  unfold parseQUICCryptoFrames. pose proof (parseFrames_loop_spec (length decrypted) decrypted [] [] ltac:(lia) ltac:(constructor)) as H.
  destruct (parseFrames_loop _ _ _ _) as [[fs ts]| |]; [|done..]. destruct H as [H1 H2]. split; [done|].
  intros Ht. destruct (H2 Ht) as (? & _ & ?). done.
Qed.

(** ** Reassembly *)

(** Fragments that adjoin one another, from [index] on, and the offset behind the last one. *)
Fixpoint chain (index : Z) (fs : list qCryptoFragment) : Prop :=
  match fs with [] => True | f :: fs => f_offset f = index /\ chain (index + f_length f) fs end.

Fixpoint chain_end (index : Z) (fs : list qCryptoFragment) : Z :=
  match fs with [] => index | f :: fs => chain_end (index + f_length f) fs end.

Definition total (fs : list qCryptoFragment) : Z := foldr (fun f n => f_length f + n) 0 fs.

(** The fragments at or behind [index]: they bound what is left to do. *)
Definition behind (index : Z) (fs : list qCryptoFragment) : list qCryptoFragment := List.filter (fun f => index <=? f_offset f) fs.

Lemma behind_cons index f fs : behind index (f :: fs) = (if index <=? f_offset f then [f] else []) ++ behind index fs.
Proof. unfold behind. cbn [List.filter]. by destruct (index <=? f_offset f). Qed.

Lemma behind_le fs i j : i <= j -> (length (behind j fs) <= length (behind i fs))%nat.
Proof.
  intros H. induction fs as [|g fs IH]; [done|]. rewrite !behind_cons, !length_app.
  destruct (Z.leb_spec j (f_offset g)), (Z.leb_spec i (f_offset g)); cbn [length]; lia.
Qed.

Lemma behind_shrinks fs f index : f ∈ fs -> f_offset f = index -> 0 < f_length f ->
  (length (behind (index + f_length f) fs) < length (behind index fs))%nat.
Proof.
  intros Hin Ho Hl. induction fs as [|g fs IH]; [by apply elem_of_nil in Hin|]. rewrite !behind_cons, !length_app.
  pose proof (behind_le fs index (index + f_length f) ltac:(lia)) as Hle. apply elem_of_cons in Hin as [->|Hin].
  - rewrite Ho in *. rewrite Z.leb_refl, (proj2 (Z.leb_gt _ _)) by lia. cbn [length]. lia.
  - specialize (IH Hin). destruct (Z.leb_spec (index + f_length f) (f_offset g)), (Z.leb_spec index (f_offset g)); cbn [length]; lia.
Qed.

Lemma find_loop_spec fs capacity : Forall fragment_ok fs -> forall fuel buffer index,
  (length (behind index fs) <= fuel)%nat ->
  exists c, chain index c /\ c ⊆ fs /\ (forall f, f ∈ fs -> f_offset f <> chain_end index c) /\
    find_loop fuel fs capacity buffer index = Ok (fold_left (buffer_Write capacity) (map f_payload c) buffer).
Proof.
  intros Hok. induction fuel as [|fuel IH]; intros buffer index Hf; cbn [find_loop];
    destruct (List.find (fun f => f_offset f =? index) fs) as [f|] eqn:E.
  - apply find_some in E as [Hin Ho%Z.eqb_eq]. apply list_elem_of_In in Hin. assert (fragment_ok f) as (_ & Hl & _) by (by eapply Forall_forall).
    pose proof (behind_shrinks fs f index Hin Ho ltac:(lia)). lia.
  - exists []. split; [done|]. split; [set_solver|]. split; [|done]. intros f Hin Ho. cbn in Ho.
    apply list_elem_of_In in Hin. pose proof (List.find_none _ _ E f Hin) as Hn. by apply Z.eqb_neq in Hn.
  - apply find_some in E as [Hin Ho%Z.eqb_eq]. apply list_elem_of_In in Hin.
    assert (fragment_ok f) as (Hfo & Hl & _) by (by eapply Forall_forall).
    pose proof (behind_shrinks fs f index Hin Ho ltac:(lia)) as Hs.
    assert (uint64 (f_offset f + f_length f) = index + f_length f) as -> by (rewrite Ho in *; apply wrap_small; lia).
    destruct (IH (buffer_Write capacity buffer (f_payload f)) (index + f_length f) ltac:(lia)) as (c & H1 & H2 & H3 & H4).
    exists (f :: c). split; [done|]. split; [set_solver|]. split; [done|]. by rewrite H4.
  - exists []. split; [done|]. split; [set_solver|]. split; [|done]. intros f Hin Ho. cbn in Ho.
    apply list_elem_of_In in Hin. pose proof (List.find_none _ _ E f Hin) as Hn. by apply Z.eqb_neq in Hn.
Qed.

Lemma chain_offsets c : forall index f, Forall fragment_ok c -> chain index c -> f ∈ c -> index <= f_offset f.
Proof.
  induction c as [|g c IH]; intros index f Hok Hc Hin; [by apply elem_of_nil in Hin|]. destruct Hc as [Ho Hc].
  apply Forall_cons in Hok as [(_ & Hl & _) Hok]. apply elem_of_cons in Hin as [->|Hin]; [lia|]. specialize (IH _ _ Hok Hc Hin). lia.
Qed.

Lemma chain_NoDup c : forall index, Forall fragment_ok c -> chain index c -> NoDup c.
Proof.
  induction c as [|g c IH]; intros index Hok Hc; [constructor|]. destruct Hc as [Ho Hc]. apply Forall_cons in Hok as [(_ & Hl & _) Hok].
  constructor; [|by eapply IH]. intros Hin. pose proof (chain_offsets _ _ _ Hok Hc Hin). lia.
Qed.

Lemma total_app a b : total (a ++ b) = total a + total b.
Proof. induction a as [|f a IH]; cbn; [done|]. unfold total in *. lia. Qed.

Lemma total_Permutation a b : a ≡ₚ b -> total a = total b.
Proof. induction 1; cbn; unfold total in *; lia. Qed.

Lemma total_nonneg fs : Forall fragment_ok fs -> 0 <= total fs.
Proof. induction 1 as [|f fs (_ & Hl & _) _ IH]; cbn; [done|]. unfold total in IH. lia. Qed.

Lemma total_submseteq c fs : Forall fragment_ok fs -> c ⊆+ fs -> total c <= total fs.
Proof.
  intros Hok [k Hk]%submseteq_Permutation. rewrite (total_Permutation _ _ Hk), total_app.
  rewrite Hk in Hok. apply Forall_app in Hok as [_ Hok]. apply total_nonneg in Hok. lia.
Qed.

Lemma frameLength_total fs : Forall fragment_ok fs -> total fs < 2 ^ 64 -> frameLength fs = total fs.
Proof.
  intros Hok. unfold frameLength.
  assert (forall acc, 0 <= acc -> acc + total fs < 2 ^ 64 ->
    fold_left (fun n f => uint64 (n + f_length f)) fs acc = acc + total fs) as H; [|intros Ht; by rewrite H].
  induction Hok as [|f fs (_ & Hl & _) Hok IH]; intros acc Ha Ht; cbn [fold_left]; cbn in Ht |- *; [lia|].
  fold (total fs) in *. pose proof (total_nonneg fs Hok). unfold uint64 at 2. rewrite wrap_small by lia. rewrite IH by lia. lia.
Qed.

Lemma zlen_payloads c : Forall fragment_ok c -> zlen (concat (map f_payload c)) = total c.
Proof.
  induction 1 as [|f c (_ & _ & Hp) _ IH]; [done|]. cbn [map concat]. rewrite zlen_app, IH, <- Hp. done.
Qed.

(** Writes that fit are appended. *)
Lemma buffer_Writes capacity c : forall buffer, Forall fragment_ok c -> zlen buffer + total c <= capacity ->
  fold_left (buffer_Write capacity) (map f_payload c) buffer = buffer ++ concat (map f_payload c).
Proof.
  induction c as [|f c IH]; intros buffer Hok Hl; cbn [map fold_left concat]; [by rewrite app_nil_r|].
  apply Forall_cons in Hok as [(_ & Hlen & Hp) Hok]. pose proof (total_nonneg c Hok). cbn in Hl. fold (total c) in Hl.
  assert (buffer_Write capacity buffer (f_payload f) = buffer ++ f_payload f) as ->.
  { unfold buffer_Write. apply take_ge. rewrite length_app. unfold zlen in *. lia. }
  rewrite IH; [by rewrite app_assoc|done|]. rewrite zlen_app. lia.
Qed.

Lemma zlen_recordHeader n : zlen (recordHeader n) = 5.
Proof. unfold recordHeader. wire_lengths. done. Qed.

(** The chain that the loop finds is part of the fragments. *)
Lemma chain_part c fs : Forall fragment_ok fs -> chain 0 c -> c ⊆ fs -> Forall fragment_ok c /\ c ⊆+ fs.
Proof.
  intros Hok Hc Hin. assert (Forall fragment_ok c) as Hokc.
  { apply Forall_forall. intros f Hf. by eapply Forall_forall; [exact Hok|apply Hin]. }
  split; [done|]. apply NoDup_submseteq; [by eapply chain_NoDup|apply Hin].
Qed.

(** Whatever fragments were received, the buffer holds the longest chain of
    adjoining fragments from offset 0, complete, behind the record header. *)
Lemma reassemble_spec fs : Forall fragment_ok fs -> total fs < 2 ^ 64 ->
  exists c, chain 0 c /\ Forall fragment_ok c /\ c ⊆+ fs /\ (forall f, f ∈ fs -> f_offset f <> chain_end 0 c) /\
    reassemble fs (frameLength fs) = Ok (recordHeader (total fs) ++ concat (map f_payload c)).
Proof.
  intros Hok Ht. unfold reassemble. rewrite frameLength_total by done.
  destruct (find_loop_spec fs (5 + total fs) Hok (length fs) (recordHeader (total fs)) 0) as (c & Hc & Hin & Hend & ->).
  { unfold behind. apply filter_length_le. }
  destruct (chain_part c fs Hok Hc Hin) as [Hokc Hsub]. exists c. split_and!; try done.
  rewrite buffer_Writes; [done..|]. rewrite zlen_recordHeader. pose proof (total_submseteq c fs Hok Hsub). lia.
Qed.

Lemma reassemble_returns fs n : Forall fragment_ok fs -> exists buffer, reassemble fs n = Ok buffer.
Proof.
  intros Hok. unfold reassemble.
  destruct (find_loop_spec fs (5 + n) Hok (length fs) (recordHeader n) 0) as (c & _ & _ & _ & ->); [|by eexists].
  unfold behind. apply filter_length_le.
Qed.

(** ** The sniffer always returns *)

(** What is kept between two packets did not parse. *)
Definition context_ok (md : SniffData) : Prop :=
  match s_Context md with
  | None => True
  | Some fs => Forall fragment_ok fs /\ frameLength fs <= 65535 /\
      exists buffer e, reassemble fs (frameLength fs) = Ok buffer /\ Compute buffer = Err e
  end.

Lemma guessClient_returns types hello : types <> [] -> returns (guessClient types hello).
Proof.
  intros H. unfold guessClient. destruct types as [|t types]; [done|].
  repeat match goal with |- returns (if ?b then _ else _) => destruct b end; exact I.
Qed.

Lemma sniffFrames_returns decrypted md : context_ok md ->
  returns (snd (sniffFrames decrypted md)) /\ context_ok (fst (sniffFrames decrypted md)).
Proof.
  intros Hctx. unfold sniffFrames. pose proof (parseFrames_spec decrypted) as Hp.
  destruct (parseQUICCryptoFrames decrypted) as [[new types]|e|s]; [|by split..]. destruct Hp as [Hnew Htypes].
  set (fs := new ++ default [] (s_Context md)).
  assert (Forall fragment_ok fs) as Hfs.
  { apply Forall_app. split; [done|]. unfold context_ok in Hctx. destruct (s_Context md); [by destruct Hctx|constructor]. }
  destruct (Z.ltb_spec 65535 (frameLength fs)) as [|Hlen]; [by split|].
  destruct (reassemble_returns fs (frameLength fs) Hfs) as [buffer Hb]. rewrite Hb.
  pose proof (Compute_returns buffer) as Hr. destruct (Compute buffer) as [hello|e|s] eqn:Ec; [|split; [done|]|done].
  - cbn [s_Client]. destruct (String.eqb (s_Client md) ""); [|by split].
    assert (types <> []) as Ht.
    { intros Ht. destruct (Htypes Ht) as [-> ->]. unfold context_ok in Hctx. destruct (s_Context md) as [ctx|]; cbn in fs.
      - destruct Hctx as (_ & _ & buffer' & e & Hb' & He). subst fs. rewrite Hb in Hb'. injection Hb' as <-. congruence.
      - subst fs. vm_compute in Hb. injection Hb as <-. by vm_compute in Ec. }
    pose proof (guessClient_returns types hello Ht). by destruct (guessClient types hello).
  - cbn. split; [done|]. split; [done|]. by eexists _, _.
Qed.

(** The steps of a successful read. *)
Lemma rbind_is_Ok {A B} (r : Reader A) (k : A -> Reader B) i b o :
  rbind r k i = Ok (b, o) -> exists a i', r i = Ok (a, i') /\ k a i' = Ok (b, o).
Proof. unfold rbind. destruct (r i) as [[a i']| |]; [|done..]. intros H. by exists a, i'. Qed.

Lemma good_length {A} (r : Reader A) i a o : good r -> r i = Ok (a, o) -> zlen o <= zlen i.
Proof. intros Hg H. destruct (proj2 (Hg i) a o H) as [w ->]. rewrite zlen_app. pose proof (zlen_nonneg w). lia. Qed.

(** Take a read apart, keeping for each step that the input only shrinks. *)
Ltac read_steps H :=
  repeat match type of H with
  | rbind ?r _ _ = Ok _ =>
      let a := fresh "a" in let i := fresh "i" in let E := fresh "E" in let L := fresh "L" in
      apply rbind_is_Ok in H as (a & i & E & H);
      try (assert (zlen i <= _) as L by (eapply (good_length r); [auto with go|exact E]))
  end.

Lemma readHeader_spec packet h o : readHeader packet packet = Ok (h, o) ->
  1 <= hdrLen h /\ hdrLen h + 20 <= zlen packet /\ 0 <= packetLen h /\ hdrLen h + packetLen h <= zlen packet /\ zlen (pnBytes h) = 16.
Proof.
  unfold readHeader. intros H. apply rbind_is_Ok in H as (t & i0 & E0 & H).
  assert (zlen i0 + 1 = zlen packet) as L0. { destruct packet; [done|]. injection E0 as _ <-. rewrite zlen_cons. lia. }
  read_steps H. injection H as <- _. injection E12 as <- <-. apply varint_bound in E11 as [Hpl _].
  unfold check, rlift in E13. destruct (Z.ltb_spec (zlen packet) (zlen packet - zlen i11 + a10)); [done|]. injection E13 as _ <-.
  unfold discard in E14. destruct (Z.leb_spec 4 (zlen i11)); [|done]. injection E14 as _ <-.
  unfold ReadFull in E15. destruct (Z.leb_spec 16 (zlen (drop (Z.to_nat 4) i11))) as [Hs|]; [|by destruct (drop _ _)]. injection E15 as <- _.
  cbn [hdrLen packetLen pnBytes]. unfold zlen in *. rewrite length_take, length_drop in *. lia.
Qed.

Section Crypto.
Context `{QL : QuicCryptoLaws}.

Lemma HKDFExpandLabel_ok secret label n : 0 <= n <= 255 * 32 -> exists out, HKDFExpandLabel secret [] label n = Ok out /\ zlen out = n.
Proof.
  intros Hn. unfold HKDFExpandLabel.
  destruct (hkdf_Expand_length secret (be_encode 2 (uint16 n) ++ [byte_of_Z (6 + zlen (bytes_of_string label))] ++ bytes_of_string "tls13 "
    ++ bytes_of_string label ++ [byte_of_Z (zlen (@nil byte))] ++ []) n Hn) as (out & -> & Hl).
  exists out. by rewrite Hl, Z.eqb_refl.
Qed.

Lemma xor_at_ok bs i v : 0 <= i < zlen bs -> exists bs', xor_at bs i v = Ok bs' /\ zlen bs' = zlen bs.
Proof.
  intros Hi. unfold xor_at. destruct (index_ok bs i Hi) as (b & -> & _). eexists. split; [done|]. unfold zlen. by rewrite length_insert.
Qed.

Lemma unmask_ok n : forall i hdr mask bs, 0 <= i -> 0 <= hdr -> i + Z.of_nat n < zlen mask -> hdr + i + Z.of_nat n <= zlen bs ->
  exists bs', unmask n i hdr mask bs = Ok bs' /\ zlen bs' = zlen bs.
Proof.
  induction n as [|n IH]; intros i hdr mask bs Hi Hh Hm Hb; cbn [unmask]; [by eexists|].
  destruct (index_ok mask (i + 1) ltac:(lia)) as (m & -> & _). destruct (xor_at_ok bs (hdr + i) m ltac:(lia)) as (bs1 & E & Hl1).
  cbn [bind_result]. rewrite E. cbn [bind_result].
  destruct (IH (i + 1) hdr mask bs1) as (bs2 & -> & Hl2); [lia..|]. exists bs2. split; [done|lia].
Qed.

Lemma readPacketNumber_returns n hdr bs : 0 <= hdr -> hdr + 4 <= zlen bs -> returns (readPacketNumber n hdr bs).
Proof.
  intros H1 H2. unfold readPacketNumber. destruct (n =? 1). { destruct (index_ok bs hdr ltac:(lia)) as (v & -> & _). exact I. }
  destruct (n =? 2). { destruct (be16_ok bs hdr ltac:(lia) ltac:(lia)) as (v & -> & _). exact I. }
  repeat returns_step.
Qed.

Lemma decryptPacket_returns packet h :
  1 <= hdrLen h -> hdrLen h + 20 <= zlen packet -> 0 <= packetLen h -> hdrLen h + packetLen h <= zlen packet -> zlen (pnBytes h) = 16 ->
  returns (decryptPacket packet h).
Proof.
  intros H1 H2 H3 H4 H5. unfold decryptPacket. cbv zeta.
  destruct (HKDFExpandLabel_ok (hkdf_Extract (destConnID h) (if versionNumber h =? Qtls.Version1 then Qtls.SaltV1
    else if versionNumber h =? Qtls.Version2 then Qtls.SaltV2 else Qtls.SaltOld)) "client in" 32 ltac:(lia)) as (secret & -> & _).
  cbn [bind_result].
  destruct (HKDFExpandLabel_ok secret (if versionNumber h =? Qtls.Version2 then Qtls.HKDFLabelHeaderProtectionV2
    else Qtls.HKDFLabelHeaderProtectionV1) 16 ltac:(lia)) as (hpKey & -> & _). cbn [bind_result].
  pose proof (aes_Encrypt_length hpKey (pnBytes h) H5) as Hmask. revert Hmask. generalize (aes_Encrypt hpKey (pnBytes h)). intros mask Hmask.
  returns_step. destruct (xor_at_ok packet 0 (Z.land v 0xf) ltac:(lia)) as (p1 & -> & Hp1). cbn [bind_result]. returns_step.
  destruct (unmask_ok 4 0 (hdrLen h) mask p1) as (p2 & -> & Hp2); [lia..|]. cbn [bind_result]. returns_step.
  assert (1 <= Z.land v0 3 + 1 <= 4) as Hn by (change 3 with (Z.ones 2); rewrite Z.land_ones by lia; Z.div_mod_to_equations; lia).
  revert Hn. generalize (Z.land v0 3 + 1). intros n Hn. returns_step; [done|].
  apply returns_bind; [apply readPacketNumber_returns; lia|]. intros number _. returns_step.
  assert (forall (original : list byte), zlen original = hdrLen h + 4 - (hdrLen h + n) ->
    zlen (take (Z.to_nat (hdrLen h + n)) p2 ++ original ++ drop (Z.to_nat (hdrLen h + 4)) p2) = zlen packet) as Hlen.
  { intros l Hl. rewrite !zlen_app, Hl. unfold zlen in *. rewrite length_take, length_drop. lia. }
  specialize (Hlen s0 Hs0). revert Hlen.
  generalize (take (Z.to_nat (hdrLen h + n)) p2 ++ s0 ++ drop (Z.to_nat (hdrLen h + 4)) p2). intros p3 Hp3. returns_step.
  destruct (HKDFExpandLabel_ok secret (if versionNumber h =? Qtls.Version2 then Qtls.HKDFLabelKeyV2 else Qtls.HKDFLabelKeyV1) 16 ltac:(lia))
    as (key & -> & Hkey). cbn [bind_result].
  destruct (HKDFExpandLabel_ok secret (if versionNumber h =? Qtls.Version2 then Qtls.HKDFLabelIVV2 else Qtls.HKDFLabelIVV1) 12 ltac:(lia))
    as (iv & -> & Hiv). cbn [bind_result].
  unfold AEADAESGCMTLS13. rewrite Hkey, Hiv. cbn. by destruct (gcm_Open _ _ _ _).
Qed.

Lemma readHeader_returns packet : returns (readHeader packet packet).
Proof.
  assert (good (readHeader packet)) as Hg; [|apply Hg].
  unfold readHeader. good_steps; try by apply good_check. intros i. split; [exact I|]. intros ? ? [= _ ->]. by exists [].
Qed.

Lemma QUICClientHello_returns packet md : context_ok md ->
  returns (snd (QUICClientHello packet md)) /\ context_ok (fst (QUICClientHello packet md)).
Proof.
  intros Hctx. unfold QUICClientHello. destruct (readHeader packet packet) as [[h o]|e|s] eqn:E.
  - apply readHeader_spec in E as (H1 & H2 & H3 & H4 & H5). pose proof (decryptPacket_returns packet h H1 H2 H3 H4 H5) as Hd.
    destruct (decryptPacket packet h); [by apply sniffFrames_returns|by split..].
  - split; [|done]. pose proof (readHeader_returns packet) as Hr. by rewrite E in Hr.
  - pose proof (readHeader_returns packet) as Hr. by rewrite E in Hr.
Qed.

End Crypto.

(** The sniffer on a sequence of packets, with the outcome of each. *)
Fixpoint sniffPackets (sniff : list byte -> SniffData -> SniffData * result unit) (packets : list (list byte)) (md : SniffData)
    : SniffData * list (result unit) :=
  match packets with
  | [] => (md, [])
  | packet :: packets =>
      let '(md, r) := sniff packet md in
      let '(md, rs) := sniffPackets sniff packets md in
      (md, r :: rs)
  end.

(** No sequence of packets makes the QUIC sniffer panic or run forever:
    for each of them it returns, with success or an error.  The header fields,
    the frames, the fragments and the hello in them are whatever the client
    sent. *)
Theorem quic_sniffer_returns `{QL : QuicCryptoLaws} (packets : list (list byte)) (md : SniffData) :
  s_Context md = None -> Forall returns (snd (sniffPackets QUICClientHello packets md)).
Proof.
  intros Hc. assert (context_ok md) as Hctx by (unfold context_ok; by rewrite Hc). clear Hc. revert md Hctx.
  induction packets as [|packet packets IH]; intros md Hctx; cbn [sniffPackets]; [constructor|].
  destruct (QUICClientHello_returns packet md Hctx) as [Hr Hctx']. destruct (QUICClientHello packet md) as [md' r].
  specialize (IH md' Hctx'). destruct (sniffPackets _ packets md') as [md'' rs]. by constructor.
Qed.

(** ** The frames of an Initial packet (RFC 9000, 19) *)

Inductive Frame :=
| F_Padding
| F_Ping
| F_Ack (largest delay first : Z) (ranges : list (Z * Z)) (ecn : option (Z * Z * Z))
| F_Crypto (offset : Z) (data : list byte)
| F_ConnectionClose (code frameType : Z) (reason : list byte).

Definition frame_type (f : Frame) : Z :=
  match f with
  | F_Padding => 0 | F_Ping => 1 | F_Ack _ _ _ _ None => 2 | F_Ack _ _ _ _ (Some _) => 3 | F_Crypto _ _ => 6
  | F_ConnectionClose _ _ _ => 0x1c
  end.

Definition frame_fragments (f : Frame) : list qCryptoFragment :=
  match f with
  | F_Crypto offset data => if zlen data =? 0 then [] else [mkFragment offset (zlen data) data]
  | _ => []
  end.

Inductive varints : list Z -> list byte -> Prop :=
| varints_nil : varints [] []
| varints_cons v w l ws : varint v w -> varints l ws -> varints (v :: l) (w ++ ws).

(** The bytes behind the type of a frame; each integer in any of its encodings. *)
Definition frame_body (f : Frame) (w : list byte) : Prop :=
  match f with
  | F_Padding | F_Ping => w = []
  | F_Ack largest delay first ranges ecn =>
      exists w1 w2 w3, w = w1 ++ w2 ++ w3 /\ varints [largest; delay; zlen ranges; first] w1
        /\ varints (concat (map (fun '(gap, len) => [gap; len]) ranges)) w2
        /\ varints (match ecn with Some (ect0, ect1, ce) => [ect0; ect1; ce] | None => [] end) w3
  | F_Crypto offset data => exists w1, w = w1 ++ data /\ varints [offset; zlen data] w1
  | F_ConnectionClose code frameType reason => exists w1, w = w1 ++ reason /\ varints [code; frameType; zlen reason] w1
  end.

Definition frame_wire (f : Frame) (w : list byte) : Prop := exists body, w = byte_of_Z (frame_type f) :: body /\ frame_body f body.

Inductive frames_wire : list Frame -> list byte -> Prop :=
| frames_nil : frames_wire [] []
| frames_cons f w fs ws : frame_wire f w -> frames_wire fs ws -> frames_wire (f :: fs) (w ++ ws).

Lemma varints_split v l w : varints (v :: l) w -> exists w1 w2, w = w1 ++ w2 /\ varint v w1 /\ varints l w2.
Proof. inversion 1; subst. by eexists _, _. Qed.

Lemma decodes_varint {B} v w1 w2 (k : Z -> Reader B) b :
  varint v w1 -> decodes (k v) w2 b -> decodes (rbind Qtls.ReadUvarint k) (w1 ++ w2) b.
Proof. intros Hv Hk. eapply decodes_bind; [by apply varint_decodes|done]. Qed.

Lemma varints_nil_inv w : varints [] w -> w = [].
Proof. by inversion 1. Qed.

(** Read the next integer of a list. *)
Ltac next_varint H :=
  let w1 := fresh "w" in let w2 := fresh "w" in let Hv := fresh "Hv" in
  apply varints_split in H as (w1 & w2 & -> & Hv & H); rewrite <- ?app_assoc; eapply decodes_varint; [exact Hv|].

Lemma decodes_takeBytes data : decodes (takeBytes (zlen data)) data data.
Proof.
  intros rest. unfold takeBytes. rewrite zlen_app. pose proof (zlen_nonneg rest). rewrite (proj2 (Z.ltb_ge _ _)) by lia.
  by rewrite to_nat_zlen, take_app_length, drop_app_length.
Qed.

Lemma varint_nonempty v w : varint v w -> (0 < length w)%nat.
Proof.
  intros (k & Hk & _ & ->). rewrite length_be_encode. rewrite !elem_of_cons in Hk.
  destruct Hk as [->|[->|[->|[->|[]%elem_of_nil]]]]; cbn; lia.
Qed.

Lemma readRanges_wire ranges : forall w fuel rest, varints (concat (map (fun '(gap, len) => [gap; len]) ranges)) w ->
  (length w < fuel)%nat -> readRanges fuel (zlen ranges) (w ++ rest) = Ok (tt, rest).
Proof.
  induction ranges as [|[gap len] ranges IH]; intros w fuel rest Hw Hf; (destruct fuel as [|fuel]; [lia|]).
  - apply varints_nil_inv in Hw as ->. done.
  - cbn [map concat app] in Hw. apply varints_split in Hw as (w1 & w2 & -> & H1 & Hw). apply varints_split in Hw as (w3 & w4 & -> & H2 & Hw).
    rewrite !length_app in Hf. pose proof (varint_nonempty _ _ H1). pose proof (zlen_nonneg ranges).
    cbn [readRanges]. rewrite zlen_cons, (proj2 (Z.leb_gt _ _)) by lia. unfold rbind. rewrite <- !app_assoc.
    rewrite (varint_decodes _ _ H1), (varint_decodes _ _ H2). replace (1 + zlen ranges - 1) with (zlen ranges) by lia.
    apply IH; [done|lia].
Qed.

Lemma readFrame_wire f body : frame_body f body -> decodes (readFrame (frame_type f)) body (frame_fragments f).
Proof.
  destruct f as [| |largest delay first ranges ecn|offset data|code frameType reason]; cbn [frame_body]; intros Hb.
  - subst. apply decodes_ret.
  - subst. apply decodes_ret.
  - destruct Hb as (w1 & w2 & w3 & -> & H1 & H2 & H3).
    assert (decodes (readAck (frame_type (F_Ack largest delay first ranges ecn))) (w1 ++ w2 ++ w3) tt) as Ha.
    { unfold readAck. do 4 next_varint H1. apply varints_nil_inv in H1 as ->. cbn [app]. eapply decodes_bind.
      - intros rest. apply readRanges_wire; [done|]. rewrite length_app. lia.
      - destruct ecn as [[[ect0 ect1] ce]|]; cbn [frame_type].
        + change (3 =? frameTypeAck2) with true. cbv iota. do 3 next_varint H3. apply varints_nil_inv in H3 as ->. apply decodes_ret.
        + apply varints_nil_inv in H3 as ->. apply decodes_ret. }
    destruct ecn as [[[ect0 ect1] ce]|]; eapply (decodes_map _ (fun _ => [])); exact Ha.
  - destruct Hb as (w1 & -> & H1). change (readFrame _) with readCrypto. unfold readCrypto.
    do 2 next_varint H1. apply varints_nil_inv in H1 as ->. cbn [app].
    apply (decodes_map _ (fun payload => if zlen data =? 0 then [] else [mkFragment offset (zlen data) payload])), decodes_takeBytes.
  - destruct Hb as (w1 & -> & H1). assert (decodes readClose (w1 ++ reason) tt) as Hc.
    { unfold readClose. do 3 next_varint H1. apply varints_nil_inv in H1 as ->. cbn [app].
      eapply (decodes_map _ (fun _ => tt)), decodes_takeBytes. }
    eapply (decodes_map _ (fun _ => [])). exact Hc.
Qed.

Lemma frame_type_byte f : Z_of_byte (byte_of_Z (frame_type f)) = frame_type f.
Proof. by destruct f as [| |? ? ? ? []| |]. Qed.

Lemma parseFrames_loop_wire fs w : frames_wire fs w -> forall fuel fragments types, (length w <= fuel)%nat ->
  parseFrames_loop fuel w fragments types = Ok (fragments ++ concat (map frame_fragments fs), types ++ map frame_type fs).
Proof.
  induction 1 as [|f w fs ws (body & -> & Hb) _ IH]; intros fuel fragments types Hf; [destruct fuel; cbn; by rewrite !app_nil_r|].
  destruct fuel as [|fuel]; [cbn in Hf; lia|]. cbn [app parseFrames_loop map concat]. rewrite frame_type_byte, (readFrame_wire f body Hb ws).
  cbn [bind_result]. rewrite IH by (cbn [app length] in Hf; rewrite length_app in Hf; lia). by rewrite <- !app_assoc.
Qed.

(** The parser reads back the frames of a packet, however their integers are encoded. *)
Lemma parseFrames_wire fs w : frames_wire fs w ->
  parseQUICCryptoFrames w = Ok (concat (map frame_fragments fs), map frame_type fs).
Proof. intros H. unfold parseQUICCryptoFrames. by rewrite (parseFrames_loop_wire fs w H). Qed.

(** ** A client hello cut into pieces *)

(** The CRYPTO data [ps], one piece behind the other from [offset] on. *)
Fixpoint pieces (offset : Z) (ps : list (list byte)) : list qCryptoFragment :=
  match ps with [] => [] | p :: ps => mkFragment offset (zlen p) p :: pieces (offset + zlen p) ps end.

Lemma zlen_pos {A} (l : list A) : l <> [] -> 0 < zlen l.
Proof. destruct l; [done|]. rewrite zlen_cons. pose proof (zlen_nonneg l). lia. Qed.

Section Pieces.
#[local] Abbreviation cut := (Forall (fun p : list byte => p <> [])).

Lemma pieces_ok ps : forall offset, cut ps -> 0 <= offset -> offset + zlen (concat ps) < 2 ^ 62 -> Forall fragment_ok (pieces offset ps).
Proof.
  induction ps as [|p ps IH]; intros offset Hps Ho Hl; cbn [pieces]; constructor; apply Forall_cons in Hps as [Hp Hps];
    cbn [concat] in Hl; rewrite zlen_app in Hl; pose proof (zlen_pos p Hp); pose proof (zlen_nonneg (concat ps)).
  - unfold fragment_ok. cbn. lia.
  - apply IH; [done|lia..].
Qed.

Lemma pieces_total ps : forall offset, total (pieces offset ps) = zlen (concat ps).
Proof. induction ps as [|p ps IH]; intros offset; [done|]. cbn [pieces concat]. rewrite zlen_app, <- (IH (offset + zlen p)). done. Qed.

Lemma pieces_offset ps : forall offset f, f ∈ pieces offset ps -> offset <= f_offset f.
Proof.
  induction ps as [|p ps IH]; intros offset f Hf; [by apply elem_of_nil in Hf|]. cbn [pieces] in Hf.
  apply elem_of_cons in Hf as [->|Hf]; [done|]. apply IH in Hf. pose proof (zlen_nonneg p). lia.
Qed.

Lemma pieces_payload ps : forall offset, map f_payload (pieces offset ps) = ps.
Proof. induction ps as [|p ps IH]; intros offset; cbn; [done|]. by rewrite IH. Qed.

Lemma chain_end_pieces ps : forall offset, chain_end offset (pieces offset ps) = offset + zlen (concat ps).
Proof. induction ps as [|p ps IH]; intros offset; cbn [pieces chain_end concat f_length]; [change (zlen []) with 0; lia|]. rewrite IH, zlen_app. lia. Qed.

(** A chain of pieces is an initial part of them. *)
Lemma chain_pieces c : forall offset ps, cut ps -> Forall fragment_ok c -> chain offset c -> c ⊆ pieces offset ps ->
  exists ps1 ps2, ps = ps1 ++ ps2 /\ c = pieces offset ps1.
Proof.
  induction c as [|f c IH]; intros offset ps Hps Hok Hc Hsub; [by exists [], ps|].
  destruct Hc as [Ho Hc]. assert (f ∈ pieces offset ps) as Hf by (apply Hsub; left). apply Forall_cons in Hok as [_ Hok].
  destruct ps as [|p ps]; [by apply elem_of_nil in Hf|]. apply Forall_cons in Hps as [Hp Hps]. apply zlen_pos in Hp.
  cbn [pieces] in Hf, Hsub. apply elem_of_cons in Hf as [->|Hf%pieces_offset]; [|lia]. cbn [f_length] in Hc.
  destruct (IH (offset + zlen p) ps Hps Hok Hc) as (ps1 & ps2 & -> & ->).
  - intros g Hg. pose proof (chain_offsets _ _ _ Hok Hc Hg) as Hgo. assert (g ∈ mkFragment offset (zlen p) p :: pieces (offset + zlen p) ps) as Hin
      by (apply Hsub; by right). apply elem_of_cons in Hin as [->|Hin]; [cbn in Hgo; lia|done].
  - by exists (p :: ps1), ps2.
Qed.

Context (ps : list (list byte)) (stream : list byte).
Hypothesis Hcut : cut ps.
Hypothesis Hstream : concat ps = stream.
Hypothesis Hlen : zlen stream < 65536.

Lemma stream_pieces_ok : Forall fragment_ok (pieces 0 ps).
Proof. apply pieces_ok; [done..|]. rewrite Hstream. lia. Qed.

(** The fragments received and those [missing] make up the stream: what is reassembled. *)
Lemma reassemble_pieces fs missing : fs ++ missing ≡ₚ pieces 0 ps ->
  exists ps1 ps2, ps = ps1 ++ ps2 /\ reassemble fs (frameLength fs) = Ok (recordHeader (total fs) ++ concat ps1) /\
    zlen (concat ps1) <= total fs <= zlen stream /\ (missing = [] <-> ps2 = []).
Proof.
  intros Hp. assert (Forall fragment_ok (fs ++ missing)) as Hok by (rewrite Hp; apply stream_pieces_ok).
  apply Forall_app in Hok as [Hok Hokm]. pose proof (total_nonneg missing Hokm) as Hm.
  assert (total fs + total missing = zlen stream) as Ht. { by rewrite <- total_app, (total_Permutation _ _ Hp), pieces_total, Hstream. }
  destruct (reassemble_spec fs Hok ltac:(lia)) as (c & Hc & Hokc & Hsub & Hend & Hr).
  destruct (chain_pieces c 0 ps Hcut Hokc Hc) as (ps1 & ps2 & Hps & ->).
  { intros f Hf. rewrite <- Hp. apply elem_of_app. left. eapply elem_of_submseteq; [exact Hf|exact Hsub]. }
  rewrite pieces_payload in Hr. exists ps1, ps2. split; [done|]. split; [done|].
  pose proof (total_submseteq _ _ Hok Hsub) as Hle. rewrite pieces_total in Hle. split; [lia|]. split; intros ->.
  - destruct ps2 as [|p ps2]; [done|]. exfalso. rewrite app_nil_r in Hp.
    apply (Hend (mkFragment (0 + zlen (concat ps1)) (zlen p) p)); [|by rewrite chain_end_pieces].
    rewrite Hp, Hps. clear. generalize 0. induction ps1 as [|q ps1 IH]; intros o; cbn [app pieces concat].
    + rewrite zlen_nil, Z.add_0_r. left.
    + right. rewrite zlen_app, Z.add_assoc. apply IH.
  - rewrite app_nil_r in Hps. subst ps1. apply submseteq_length in Hsub. apply Permutation_length in Hp. rewrite length_app in Hp.
    destruct missing; [done|cbn in Hp; lia].
Qed.
End Pieces.

(** ** The hello parser on a hello that is not complete *)

Lemma recordHeader_record n hs : recordHeader n ++ hs = x16 :: x03 :: x03 :: be_encode 2 n ++ hs.
Proof. reflexivity. Qed.

Lemma Compute_partial h P Q n : hello_ok h -> encode_handshake h = P ++ Q -> Q <> [] -> zlen P <= n < 65536 ->
  exists e, Compute (recordHeader n ++ P) = Err e.
Proof.
  intros Hok He HQ Hn. pose proof (zlen_nonneg P). rewrite recordHeader_record, Compute_record by lia.
  destruct (Z.ltb_spec (zlen P) n) as [|Hle]; [by eexists|]. rewrite take_ge by (unfold zlen in *; lia).
  unfold parseHandshake. destruct (Z.ltb_spec (zlen P) (handshakeHeaderLen + randomDataLen + sessionIDHeaderLen)) as [|Hlong]; [by eexists|].
  unfold_lengths. unfold encode_handshake in He.
  destruct (be_encode 3 (zlen (encode_body h))) as [|b1 [|b2 [|b3 [|]]]] eqn:E; [by apply (f_equal length) in E; rewrite length_be_encode in E..| |by apply (f_equal length) in E; rewrite length_be_encode in E].
  pose proof (ok_length h Hok) as Hl. unfold encode_handshake in Hl. rewrite E in Hl. wire_lengths_in Hl. pose proof (zlen_nonneg (encode_body h)).
  pose proof (be24_encode (zlen (encode_body h)) b1 b2 b3 ltac:(lia) E) as H24.
  destruct P as [|c0 [|c1 [|c2 [|c3 P]]]]; [by cbn in Hlong..|]. cbn [app] in He. injection He as <- <- <- <- He.
  change (index _ 0) with (Ok 1). change (index _ 1) with (Ok (Z_of_byte b1)). change (index _ 2) with (Ok (Z_of_byte b2)).
  change (index _ 3) with (Ok (Z_of_byte b3)). cbn [bind_result]. change (negb (1 =? handshakeType)) with false. cbv iota.
  rewrite H24. change (x01 :: b1 :: b2 :: b3 :: P) with ([x01; b1; b2; b3] ++ P).
  rewrite slice_from_app by done. cbn [bind_result]. rewrite (proj2 (Z.eqb_neq _ _)); [by eexists|].
  rewrite He, zlen_app. apply zlen_pos in HQ. lia.
Qed.

(** ** The sniffer on the packets of a client hello *)

Definition needs_more (r : result unit) : Prop := exists e, r = Err (EErrors ErrNeedMoreData e).

Definition fragments_of (frames : list Frame) : list qCryptoFragment := concat (map frame_fragments frames).

Section Hello.
Context (h : Hello) (ps : list (list byte)).
Hypothesis Hok : hello_ok h.
Hypothesis Hcut : Forall (fun p : list byte => p <> []) ps.
Hypothesis Hps : concat ps = encode_handshake h.

Lemma hello_fragments fs missing : fs ++ missing ≡ₚ pieces 0 ps -> frameLength fs <= 65535.
Proof.
  intros Hp. pose proof (ok_length h Hok) as Hl. assert (Forall fragment_ok (fs ++ missing)) as H.
  { rewrite Hp. by eapply stream_pieces_ok. }
  apply Forall_app in H as [H1 H2]. pose proof (total_nonneg missing H2).
  assert (total fs + total missing = zlen (encode_handshake h)) as Ht by (by rewrite <- total_app, (total_Permutation _ _ Hp), pieces_total, Hps).
  rewrite frameLength_total by (done || lia). lia.
Qed.

(** While pieces are missing the sniffer keeps what it has and asks for more. *)
Lemma sniff_partial frames w md missing :
  frames_wire frames w -> (fragments_of frames ++ default [] (s_Context md)) ++ missing ≡ₚ pieces 0 ps -> missing <> [] ->
  exists e, sniffFrames w md =
    (mkSniffData ProtocolQUIC (s_Domain md) (s_Client md) (Some (fragments_of frames ++ default [] (s_Context md))),
     Err (EErrors ErrNeedMoreData e)).
Proof.
  intros Hw Hp Hm. pose proof (ok_length h Hok) as Hl. unfold sniffFrames. rewrite (parseFrames_wire _ _ Hw). fold (fragments_of frames).
  pose proof (hello_fragments _ _ Hp) as Hf. rewrite (proj2 (Z.ltb_ge _ _)) by lia.
  destruct (reassemble_pieces ps _ Hcut Hps Hl _ _ Hp) as (ps1 & ps2 & Hsplit & -> & Hle & Hiff).
  destruct (Compute_partial h (concat ps1) (concat ps2) (total (fragments_of frames ++ default [] (s_Context md))) Hok) as [e ->].
  - by rewrite <- concat_app, <- Hsplit.
  - intros Hc. apply Hm, Hiff. rewrite Hsplit in Hcut. apply Forall_app in Hcut as [_ Hcut2]. destruct ps2 as [|p ps2]; [done|].
    apply Forall_cons in Hcut2 as [Hp2 _]. by destruct p.
  - lia.
  - by exists e.
Qed.

(** With the last piece it answers. *)
Lemma sniff_complete frames w md :
  frames_wire frames w -> frames <> [] -> fragments_of frames ++ default [] (s_Context md) ≡ₚ pieces 0 ps ->
  exists client, sniffFrames w md = (mkSniffData ProtocolQUIC (string_of_bytes (ServerName (hello_of h))) client None, Ok tt).
Proof.
  intros Hw Hne Hp. pose proof (ok_length h Hok) as Hl. unfold sniffFrames. rewrite (parseFrames_wire _ _ Hw). fold (fragments_of frames).
  assert ((fragments_of frames ++ default [] (s_Context md)) ++ [] ≡ₚ pieces 0 ps) as Hp' by (by rewrite app_nil_r).
  pose proof (hello_fragments _ _ Hp') as Hf. rewrite (proj2 (Z.ltb_ge _ _)) by lia.
  destruct (reassemble_pieces ps _ Hcut Hps Hl _ _ Hp') as (ps1 & ps2 & Hsplit & -> & Hle & Hiff).
  rewrite (proj1 Hiff eq_refl), app_nil_r in Hsplit. subst ps1. rewrite Hps.
  assert (total (fragments_of frames ++ default [] (s_Context md)) = zlen (encode_handshake h)) as -> by (rewrite Hps in Hle; lia).
  rewrite recordHeader_record. fold (encode_record (encode_handshake h)). rewrite (Compute_encode h Hok). cbn [s_Client s_Protocol s_Domain].
  destruct (String.eqb (s_Client md) ""); [|by eexists].
  assert (exists client, guessClient (map frame_type frames) (hello_of h) = Ok client) as [client ->]; [|by eexists].
  unfold guessClient. destruct frames as [|f frames]; [done|]. cbn [map].
  repeat match goal with |- context [if ?b then _ else _] => destruct b end; by eexists.
Qed.

End Hello.

(** A packet that decrypts to these frames. *)
Definition carries `{QuicCrypto} (packet : list byte) (frames : list Frame) : Prop :=
  exists header o w, readHeader packet packet = Ok (header, o) /\ decryptPacket packet header = Ok w /\ frames_wire frames w.

Lemma QUICClientHello_carries `{QuicCrypto} packet frames :
  carries packet frames -> exists w, frames_wire frames w /\ forall md, QUICClientHello packet md = sniffFrames w md.
Proof. intros (header & o & w & H1 & H2 & H3). exists w. split; [done|]. intros md. unfold QUICClientHello. by rewrite H1, H2. Qed.

(** The pieces come with the packets; those that are not in [received] are still missing before the last one. *)
Lemma sniff_packets `{QuicCrypto} h ps packets : forall frames last lastFrames md,
  hello_ok h -> Forall (fun p : list byte => p <> []) ps -> concat ps = encode_handshake h ->
  Forall2 carries packets frames -> carries last lastFrames -> fragments_of lastFrames <> [] ->
  fragments_of lastFrames ++ fragments_of (concat (reverse frames)) ++ default [] (s_Context md) ≡ₚ pieces 0 ps ->
  exists client rs, sniffPackets QUICClientHello (packets ++ [last]) md =
      (mkSniffData ProtocolQUIC (string_of_bytes (ServerName (hello_of h))) client None, rs ++ [Ok tt])
    /\ length rs = length packets /\ Forall needs_more rs.
Proof.
  induction packets as [|packet packets IH]; intros frames last lastFrames md Hok Hcut Hps Hf Hlast Hne Hp.
  - apply Forall2_nil_inv_l in Hf as ->. cbn [app sniffPackets]. destruct (QUICClientHello_carries _ _ Hlast) as (w & Hw & ->).
    destruct (sniff_complete h ps Hok Hcut Hps lastFrames w md Hw) as [client ->]; [by intros ->|done|].
    exists client, []. by split_and!.
  - apply Forall2_cons_inv_l in Hf as (fr & frames' & Hc & Hf & ->). cbn [app sniffPackets].
    destruct (QUICClientHello_carries _ _ Hc) as (w & Hw & ->).
    rewrite reverse_cons, concat_app in Hp. unfold fragments_of at 2 in Hp. rewrite map_app, concat_app in Hp. cbn [concat] in Hp. rewrite app_nil_r in Hp.
    fold (fragments_of (concat (reverse frames'))) (fragments_of fr) in Hp.
    destruct (sniff_partial h ps Hok Hcut Hps fr w md (fragments_of lastFrames ++ fragments_of (concat (reverse frames'))) Hw) as [e ->].
    + rewrite <- Hp, <- !app_assoc. solve_Permutation.
    + intros [? _]%app_eq_nil. done.
    + destruct (IH frames' last lastFrames (mkSniffData ProtocolQUIC (s_Domain md) (s_Client md)
        (Some (fragments_of fr ++ default [] (s_Context md)))) Hok Hcut Hps Hf Hlast Hne) as (client & rs & -> & Hl & Hn).
      * cbn [s_Context default]. rewrite <- Hp, <- !app_assoc. done.
      * exists client, (Err (EErrors ErrNeedMoreData e) :: rs). split; [done|]. split; [by cbn; rewrite Hl|]. constructor; [by eexists|done].
Qed.

Lemma fragments_concat fss : fragments_of (concat fss) = concat (map fragments_of fss).
Proof. unfold fragments_of. induction fss as [|fs fss IH]; [done|]. cbn [concat map]. by rewrite map_app, concat_app, IH. Qed.

Lemma concat_reverse {A} (l : list (list A)) : concat (reverse l) ≡ₚ concat l.
Proof.
  induction l as [|x l IH]; [done|]. rewrite reverse_cons, concat_app. cbn [concat]. rewrite app_nil_r, IH. apply Permutation_app_comm.
Qed.

(** C20: a QUIC client hello is recognised however it is cut into CRYPTO frames,
    in whatever order and over however many Initial packets they are sent, among
    padding, pings and acknowledgements: with the packet that brings the last
    piece the sniffer reports QUIC and the server name of the hello, and on every
    packet before it asks for more data. *)
Theorem quic_hello_sniffed `{QuicCrypto} (h : Hello) (ps : list (list byte)) (packets : list (list byte)) (frames : list (list Frame))
    (last : list byte) (lastFrames : list Frame) (md : SniffData) :
  hello_ok h -> Forall (fun p => p <> []) ps -> concat ps = encode_handshake h ->
  Forall2 carries packets frames -> carries last lastFrames -> fragments_of lastFrames <> [] ->
  concat (map fragments_of frames) ++ fragments_of lastFrames ≡ₚ pieces 0 ps -> s_Context md = None ->
  exists client rs, sniffPackets QUICClientHello (packets ++ [last]) md =
      (mkSniffData ProtocolQUIC (string_of_bytes (ServerName (hello_of h))) client None, rs ++ [Ok tt])
    /\ length rs = length packets /\ Forall needs_more rs.
Proof.
  intros Hok Hcut Hps Hf Hlast Hne Hp Hctx. apply (sniff_packets h ps packets frames last lastFrames md); try done.
  rewrite Hctx. cbn [default]. rewrite app_nil_r, fragments_concat.
  change (map fragments_of (reverse frames)) with (fragments_of <$> reverse frames). rewrite fmap_reverse, concat_reverse, <- Hp. apply Permutation_app_comm.
Qed.

(** Where the sniffer departs from its purpose: a retransmitted fragment counts
    twice in the length of the record, so that a hello of which all pieces
    arrived, one of them twice, is never found complete. *)
Theorem quic_retransmission_blocks (h : Hello) (ps : list (list byte)) (frames : list Frame) (w : list byte) (md : SniffData) extra :
  hello_ok h -> Forall (fun p => p <> []) ps -> concat ps = encode_handshake h -> frames_wire frames w ->
  fragments_of frames ++ default [] (s_Context md) ≡ₚ pieces 0 ps ++ extra -> extra <> [] -> extra ⊆ pieces 0 ps ->
  total (pieces 0 ps ++ extra) < 65536 ->
  needs_more (snd (sniffFrames w md)).
Proof.
  intros Hok Hcut Hps Hw Hp Hne Hsub Ht. pose proof (ok_length h Hok) as Hl. pose proof (zlen_nonneg (encode_handshake h)).
  assert (Forall fragment_ok (pieces 0 ps)) as Hokp by (by eapply stream_pieces_ok).
  assert (Forall fragment_ok extra) as Hoke by (apply Forall_forall; intros f Hf; eapply Forall_forall; [exact Hokp|by apply Hsub]).
  unfold sniffFrames. rewrite (parseFrames_wire _ _ Hw). fold (fragments_of frames). revert Hp. generalize (fragments_of frames ++ default [] (s_Context md)).
  intros fs Hp. assert (Forall fragment_ok fs) as Hokf by (rewrite Hp; by apply Forall_app).
  assert (total fs = zlen (encode_handshake h) + total extra) as Htot.
  { rewrite (total_Permutation _ _ Hp), total_app, pieces_total. by rewrite Hps. }
  assert (0 < total extra) as Hpos.
  { destruct extra as [|f extra]; [done|]. apply Forall_cons in Hoke as [(_ & Hf & _) Hoke]. apply total_nonneg in Hoke. cbn. fold (total extra). lia. }
  rewrite (total_Permutation _ _ (Permutation_sym Hp)) in Ht.
  rewrite (proj2 (Z.ltb_ge _ _)) by (rewrite frameLength_total by (done || lia); lia).
  destruct (reassemble_spec fs Hokf ltac:(lia)) as (c & Hc & Hokc & Hsubc & _ & ->).
  destruct (chain_pieces c 0 ps Hcut Hokc Hc) as (ps1 & ps2 & Hsplit & ->).
  { intros f Hf. eapply elem_of_submseteq in Hf; [|exact Hsubc]. rewrite Hp in Hf. apply elem_of_app in Hf as [|Hf]; [done|by apply Hsub]. }
  rewrite pieces_payload, recordHeader_record, Compute_record by lia.
  assert (zlen (concat ps1) <= zlen (encode_handshake h)) as Hle.
  { rewrite <- Hps, Hsplit, concat_app, zlen_app. pose proof (zlen_nonneg (concat ps2)). lia. }
  rewrite (proj2 (Z.ltb_lt _ _)) by lia. by eexists.
Qed.

(** ** Witnesses *)

Module QuicDemo.

(** Toy cryptography: zero keys and masks, and an AEAD that returns its input. *)
#[export] Instance crypto : QuicCrypto := {|
  hkdf_Extract := fun _ _ => [];
  hkdf_Expand := fun _ _ n => Ok (replicate (Z.to_nat n) x00);
  aes_Encrypt := fun _ _ => replicate 16 x00;
  gcm_Open := fun _ _ ciphertext _ => Some ciphertext;
|}.

#[export] Instance crypto_laws : QuicCryptoLaws.
Proof.
  constructor.
  - intros secret info n Hn. eexists. split; [done|]. unfold zlen. rewrite length_replicate. lia.
  - done.
Qed.

Definition hello : Hello :=
  mkHello 0x0303 (replicate 32 x07) [] [0x1301] [x00] [E_ServerName (bytes_of_string "example.org"); E_Groups [29]; E_Versions [0x0304]].

Definition cut : list (list byte) := [take 30 (encode_handshake hello); drop 30 (encode_handshake hello)].

(** The second piece first; a ping and padding around the first. *)
Definition frames1 : list Frame := [F_Crypto 30 (drop 30 (encode_handshake hello))].
Definition frames2 : list Frame := [F_Ping; F_Crypto 0 (take 30 (encode_handshake hello)); F_Padding].

Definition payload1 : list byte := [x06; byte_of_Z 30; x40; byte_of_Z (zlen (encode_handshake hello) - 30)] ++ drop 30 (encode_handshake hello).
Definition payload2 : list byte := [x01; x06; x00; byte_of_Z 30] ++ take 30 (encode_handshake hello) ++ [x00].

(** An Initial packet of version 1 with a one-byte packet number. *)
Definition packet (payload : list byte) : list byte :=
  [byte_of_Z 0xc0; x00; x00; x00; x01; x01; x05; x00; x00; x40; byte_of_Z (zlen payload + 1); x09] ++ payload.

Lemma hello_is_ok : hello_ok hello.
Proof.
  constructor; cbn [hello h_version h_random h_session h_suites h_compression h_exts]; unfold is_uint.
  - split; [lia|reflexivity].
  - reflexivity.
  - reflexivity.
  - repeat constructor; lia.
  - reflexivity.
  - repeat constructor; unfold is_uint; lia.
  - by vm_compute.
Qed.

Lemma varint_1 v : 0 <= v < 64 -> varint v (be_encode 1 v).
Proof. intros Hv. exists 0. split; [left|]. split; [exact Hv|]. done. Qed.

Lemma varint_2 v : 0 <= v < 2 ^ 14 -> varint v (be_encode 2 (2 ^ 14 + v)).
Proof. intros Hv. exists 1. split; [right; left|]. split; [exact Hv|]. done. Qed.

Lemma varints_two a w1 b w2 : varint a w1 -> varint b w2 -> varints [a; b] (w1 ++ w2).
Proof. intros Ha Hb. rewrite <- (app_nil_r w2). repeat constructor; done. Qed.

Lemma frames_one f w : frame_wire f w -> frames_wire [f] w.
Proof. intros H. rewrite <- (app_nil_r w). repeat constructor; done. Qed.

Lemma decrypts payload : payload ∈ [payload1; payload2] ->
  exists header o, readHeader (packet payload) (packet payload) = Ok (header, o) /\ decryptPacket (packet payload) header = Ok payload.
Proof.
  intros H. rewrite !elem_of_cons in H. destruct H as [->|[->|[]%elem_of_nil]]; eexists _, _; (split; [by vm_compute|by vm_compute]).
Qed.

Lemma carries1 : carries (packet payload1) frames1.
Proof.
  destruct (decrypts payload1 ltac:(left)) as (header & o & H1 & H2). exists header, o, payload1. split; [done|]. split; [done|].
  apply frames_one. eexists. split; [reflexivity|]. exists (be_encode 1 30 ++ be_encode 2 (2 ^ 14 + 52)). split; [by vm_compute|].
  apply varints_two; [by apply varint_1|by apply varint_2].
Qed.

Lemma carries2 : carries (packet payload2) frames2.
Proof.
  destruct (decrypts payload2 ltac:(right; left)) as (header & o & H1 & H2). exists header, o, payload2. split; [done|]. split; [done|].
  apply (frames_cons F_Ping [x01]); [by eexists|].
  apply (frames_cons _ ([x06; x00; byte_of_Z 30] ++ take 30 (encode_handshake hello)) _ [x00]).
  - eexists. split; [reflexivity|]. exists (be_encode 1 0 ++ be_encode 1 30). split; [by vm_compute|].
    apply varints_two; by apply varint_1.
  - apply frames_one. by eexists.
Qed.

Definition md0 : SniffData := mkSniffData "" "" "" None.

Lemma pieces_sent : concat (map fragments_of [frames1]) ++ fragments_of frames2 ≡ₚ pieces 0 cut.
Proof.
  assert (pieces 0 cut = fragments_of frames2 ++ fragments_of frames1) as -> by by_compute.
  cbn [map concat]. rewrite app_nil_r. apply Permutation_app_comm.
Qed.

Lemma quic_hello_sniffed_witness :
  (exists client rs, sniffPackets QUICClientHello ([packet payload1] ++ [packet payload2]) md0 =
      (mkSniffData ProtocolQUIC (string_of_bytes (ServerName (hello_of hello))) client None, rs ++ [Ok tt])
    /\ length rs = 1%nat /\ Forall needs_more rs)
  /\ string_of_bytes (ServerName (hello_of hello)) = "example.org".
Proof.
  split; [|reflexivity].
  apply (quic_hello_sniffed hello cut [packet payload1] [frames1] (packet payload2) frames2 md0 hello_is_ok).
  - repeat constructor; discriminate.
  - reflexivity.
  - constructor; [exact carries1|constructor].
  - exact carries2.
  - discriminate.
  - exact pieces_sent.
  - reflexivity.
Defined.

Lemma quic_sniffer_returns_witness :
  Forall returns (snd (sniffPackets QUICClientHello [packet payload1; packet []; []; packet payload1] md0)).
Proof. apply quic_sniffer_returns. reflexivity. Defined.

Lemma quic_retransmission_blocks_witness :
  needs_more (snd (sniffFrames payload2 (mkSniffData ProtocolQUIC "" "" (Some (fragments_of frames1 ++ fragments_of frames1))))).
Proof.
  destruct carries2 as (header & o & w & H1 & H2 & Hw). destruct (decrypts payload2 ltac:(right; left)) as (header' & o' & H1' & H2').
  assert (w = payload2) as -> by congruence.
  assert (pieces 0 cut = fragments_of frames2 ++ fragments_of frames1) as Hp by by_compute.
  apply (quic_retransmission_blocks hello cut frames2 payload2 _ (fragments_of frames1) hello_is_ok).
  - repeat constructor; discriminate.
  - reflexivity.
  - exact Hw.
  - rewrite Hp, <- app_assoc. reflexivity.
  - discriminate.
  - rewrite Hp. set_solver.
  - by vm_compute.
Defined.

End QuicDemo.
