(* ===== verification/MatchState.v ===== *)
(** * Rule match states (route/rule/match_state.go)

    A rule is evaluated to the set of "match states" it can be satisfied in:
    a state is the bit set of the four address/port groups that matched, a
    state set is a bit set of such states, packed in a uint16.  The model
    keeps the bits: a [ruleMatchState] is a Z below 16, a
    [ruleMatchStateSet] a Z below 2^16, the loops run over [0..15] as the
    code's do.

    The abstraction is [member]: the theorems show that the packed
    operations compute the union, the pointwise "or" product and the
    filtering of the sets they denote, and that packed sets are determined
    by their members. *)
From Stdlib Require Import ZArith Lia Bool.
From S2P Require Import Prelude.

Abbreviation ruleMatchState := Z (only parsing).
Abbreviation ruleMatchStateSet := Z (only parsing).

Definition ruleMatchSourceAddress : ruleMatchState := 1.
Definition ruleMatchSourcePort : ruleMatchState := 2.
Definition ruleMatchDestinationAddress : ruleMatchState := 4.
Definition ruleMatchDestinationPort : ruleMatchState := 8.

(** The states the loops [for state := range ruleMatchState(16)] visit. *)
Definition allStates : list ruleMatchState := seqZ 0 16.

Definition singleRuleMatchState (state : ruleMatchState) : ruleMatchStateSet :=
  uint16 (Z.shiftl 1 state).

Definition emptyRuleMatchState : ruleMatchStateSet := singleRuleMatchState 0.

Definition isEmpty (s : ruleMatchStateSet) : bool := s =? 0.

Definition contains (s : ruleMatchStateSet) (state : ruleMatchState) : bool :=
  negb (Z.land s (uint16 (Z.shiftl 1 state)) =? 0).

Definition add (s : ruleMatchStateSet) (state : ruleMatchState) : ruleMatchStateSet :=
  Z.lor s (singleRuleMatchState state).

Definition merge (s other : ruleMatchStateSet) : ruleMatchStateSet := Z.lor s other.

Definition combine (s other : ruleMatchStateSet) : ruleMatchStateSet :=
  if isEmpty s || isEmpty other then 0
  else fold_left (fun combined left =>
         if negb (contains s left) then combined
         else fold_left (fun combined right =>
                if negb (contains other right) then combined
                else add combined (Z.lor left right)) allStates combined)
       allStates 0.

Definition withBase (s : ruleMatchStateSet) (base : ruleMatchState) : ruleMatchStateSet :=
  if isEmpty s then 0
  else fold_left (fun acc state =>
         if negb (contains s state) then acc else add acc (Z.lor state base)) allStates 0.

Definition filter_states (s : ruleMatchStateSet) (allowed : ruleMatchState -> bool) : ruleMatchStateSet :=
  fold_left (fun filtered state =>
    if negb (contains s state) then filtered
    else if allowed state then add filtered state else filtered) allStates 0.

(** [func (s ruleMatchState) has(target ruleMatchState) bool] (rule_abstract.go). *)
Definition has (s target : ruleMatchState) : bool := negb (Z.land s target =? 0).

(** ** Abstraction *)

Definition is_state (st : Z) : Prop := 0 <= st < 16.
Definition is_set (s : Z) : Prop := 0 <= s < 2 ^ 16.

Definition member (st s : Z) : Prop := is_state st /\ contains s st = true.

(** [st] contains every group of [base]. *)
Definition extends (base st : Z) : Prop := Z.lor st base = st.

#[export] Instance is_state_dec st : Decision (is_state st).
Proof. unfold is_state. apply _. Defined.

#[export] Instance member_dec st s : Decision (member st s).
Proof. unfold member. apply _. Defined.

(** ** Lemmas *)

Lemma elem_allStates st : st ∈ allStates <-> is_state st.
Proof. unfold allStates, is_state. rewrite elem_of_seqZ. lia. Qed.

Lemma lor_bound a b k : 0 <= k -> 0 <= a < 2 ^ k -> 0 <= b < 2 ^ k -> 0 <= Z.lor a b < 2 ^ k.
Proof.
  intros Hk Ha Hb. assert (0 <= Z.lor a b) as H0 by (apply Z.lor_nonneg; lia).
  split; [done|].
  rewrite <- (Z.mod_small a (2 ^ k)), <- (Z.mod_small b (2 ^ k)) by done.
  rewrite <- !Z.land_ones, <- Z.land_lor_distr_l, Z.land_ones by done.
  apply Z.mod_pos_bound. by apply Z.pow_pos_nonneg.
Qed.

Lemma is_state_lor a b : is_state a -> is_state b -> is_state (Z.lor a b).
Proof. apply (lor_bound a b 4). lia. Qed.

Lemma is_set_merge s t : is_set s -> is_set t -> is_set (merge s t).
Proof. apply lor_bound. lia. Qed.

Lemma is_set_single st : is_set (singleRuleMatchState st).
Proof. unfold is_set, singleRuleMatchState, uint16. apply wrap_range. lia. Qed.

Lemma is_set_0 : is_set 0.
Proof. unfold is_set. lia. Qed.

Lemma is_set_add s st : is_set s -> is_set (add s st).
Proof. intros H. apply is_set_merge; [done|apply is_set_single]. Qed.

Lemma single_pow2 st : is_state st -> singleRuleMatchState st = 2 ^ st.
Proof.
  intros H. unfold singleRuleMatchState, uint16.
  rewrite Z.shiftl_1_l. apply wrap_small. unfold is_state in H.
  split; [by apply Z.pow_nonneg|]. apply Z.pow_lt_mono_r; lia.
Qed.

Lemma contains_testbit s st : is_state st -> contains s st = Z.testbit s st.
Proof.
  intros H. unfold contains.
  change (uint16 (Z.shiftl 1 st)) with (singleRuleMatchState st).
  rewrite single_pow2 by done. unfold is_state in H.
  destruct (Z.testbit s st) eqn:E.
  - apply negb_true_iff, Z.eqb_neq. intros Hc.
    apply (f_equal (fun z => Z.testbit z st)) in Hc.
    rewrite Z.land_spec, E, Z.pow2_bits_true, Z.bits_0 in Hc by lia. done.
  - apply negb_false_iff, Z.eqb_eq. apply Z.bits_inj'. intros n Hn.
    rewrite Z.land_spec, Z.bits_0. destruct (decide (n = st)) as [->|].
    + by rewrite E.
    + rewrite Z.pow2_bits_false by lia. apply andb_false_r.
Qed.

Lemma member_testbit st s : member st s <-> is_state st /\ Z.testbit s st = true.
Proof.
  unfold member. split; intros [H1 H2]; (split; [done|]);
    by rewrite contains_testbit in *.
Qed.

Lemma member_0 st : ~ member st 0.
Proof. rewrite member_testbit, Z.bits_0. by intros [_ ?]. Qed.

Lemma member_merge st s t : member st (merge s t) <-> member st s \/ member st t.
Proof.
  rewrite !member_testbit. unfold merge. rewrite Z.lor_spec, orb_true_iff. tauto.
Qed.

Lemma member_single st st' : is_state st' -> member st (singleRuleMatchState st') <-> st = st'.
Proof.
  intros H. rewrite member_testbit, single_pow2 by done. unfold is_state in *. split.
  - intros [Hs Hb]. destruct (decide (st = st')) as [|Hne]; [done|].
    rewrite Z.pow2_bits_false in Hb by lia. done.
  - intros ->. split; [done|]. apply Z.pow2_bits_true. lia.
Qed.

Lemma member_add st s st' : is_state st' -> member st (add s st') <-> member st s \/ st = st'.
Proof. intros H. unfold add. rewrite member_merge, member_single by done. tauto. Qed.

(** Packed sets are determined by their members. *)
Lemma set_ext s t : is_set s -> is_set t -> (forall st, member st s <-> member st t) -> s = t.
Proof.
  intros Hs Ht H. apply Z.bits_inj'. intros n Hn.
  destruct (decide (n < 16)).
  - specialize (H n). rewrite !member_testbit in H. unfold is_state in H.
    apply eq_bool_prop_intro. rewrite !Is_true_true. tauto.
  - rewrite <- (Z.mod_small s (2 ^ 16)), <- (Z.mod_small t (2 ^ 16)) by done.
    by rewrite !Z.mod_pow2_bits_high by lia.
Qed.

Lemma isEmpty_spec s : is_set s -> isEmpty s = true <-> forall st, ~ member st s.
Proof.
  intros Hs. unfold isEmpty. rewrite Z.eqb_eq. split.
  - intros -> st. apply member_0.
  - intros H. apply set_ext; [done|apply is_set_0|].
    intros st. split; intros Hm; [by destruct (H st)|by destruct (member_0 st)].
Qed.

Lemma nonempty_spec s : is_set s -> isEmpty s = false <-> exists st, member st s.
Proof.
  intros Hs. split.
  - intros H. destruct (decide (Exists (fun st => member st s) allStates)) as [He|He].
    + apply Exists_exists in He as (st & _ & ?). eauto.
    + enough (isEmpty s = true) by congruence.
      apply isEmpty_spec; [done|]. intros st Hm. apply He, Exists_exists.
      exists st. split; [|done]. apply elem_allStates, Hm.
  - intros [st Hm]. destruct (isEmpty s) eqn:E; [|done].
    rewrite isEmpty_spec in E by done. by destruct (E st).
Qed.

(** The shape shared by the loops: every visited [x] contributes the states in [P x]. *)
Lemma member_fold {A} (g : Z -> A -> Z) (P : A -> Prop) xs acc st :
  (forall acc x, x ∈ xs -> member st (g acc x) <-> member st acc \/ P x) ->
  member st (fold_left g xs acc) <-> member st acc \/ exists x, x ∈ xs /\ P x.
Proof.
  revert acc. induction xs as [|x xs IH]; intros acc Hg; cbn [fold_left].
  - split; [tauto|]. intros [?|(x & Hx & _)]; [done|]. by apply not_elem_of_nil in Hx.
  - rewrite IH by (intros acc' y Hy; apply Hg; by right).
    rewrite Hg by left. setoid_rewrite elem_of_cons. split.
    + intros [[?|?]|(y & ? & ?)]; [by left|right; by eauto|right; by eauto].
    + intros [?|(y & [->|?] & ?)]; [by do 2 left|by left; right|right; by eauto].
Qed.

Lemma is_set_fold {A} (g : Z -> A -> Z) xs acc :
  (forall acc x, is_set acc -> is_set (g acc x)) -> is_set acc -> is_set (fold_left g xs acc).
Proof. intros Hg. revert acc. induction xs; intros acc Ha; cbn; auto. Qed.

Lemma is_set_combine s t : is_set (combine s t).
Proof.
  unfold combine. case_match; [apply is_set_0|].
  apply is_set_fold; [|apply is_set_0]. intros acc l Hacc. case_match; [done|].
  apply is_set_fold; [|done]. intros acc' r Hacc'. case_match; auto using is_set_add.
Qed.

Lemma is_set_withBase s b : is_set (withBase s b).
Proof.
  unfold withBase. case_match; [apply is_set_0|].
  apply is_set_fold; [|apply is_set_0]. intros acc x Hacc. case_match; auto using is_set_add.
Qed.

Lemma is_set_filter s p : is_set (filter_states s p).
Proof.
  unfold filter_states. apply is_set_fold; [|apply is_set_0].
  intros acc x Hacc. repeat case_match; auto using is_set_add.
Qed.

Lemma member_withBase st s b :
  is_set s -> is_state b ->
  member st (withBase s b) <-> exists st', member st' s /\ st = Z.lor st' b.
Proof.
  intros Hs Hb. unfold withBase. destruct (isEmpty s) eqn:E.
  { rewrite isEmpty_spec in E by done. split; [intros []%member_0|].
    intros (st' & Hm & _). by destruct (E st'). }
  rewrite (member_fold _ (fun x => contains s x = true /\ st = Z.lor x b)).
  - setoid_rewrite elem_allStates. split.
    + intros [[]%member_0|(x & ? & ? & ->)]. by exists x.
    + intros (x & [? ?] & ->). right. by exists x.
  - intros acc x Hx%elem_allStates. destruct (contains s x); cbn [negb].
    + rewrite member_add by by apply is_state_lor. tauto.
    + split; [by left|]. by intros [?|[? _]].
Qed.

Lemma member_filter st s p :
  member st (filter_states s p) <-> member st s /\ p st = true.
Proof.
  unfold filter_states.
  rewrite (member_fold _ (fun x => contains s x = true /\ p x = true /\ st = x)).
  - setoid_rewrite elem_allStates. split.
    + by intros [[]%member_0|(x & ? & ? & ? & ->)].
    + intros [[? ?] ?]. right. by exists st.
  - intros acc x Hx%elem_allStates. destruct (contains s x), (p x); cbn [negb];
      rewrite ?member_add by done; split; try tauto; by intros [?|(? & ? & ?)].
Qed.

Lemma member_combine st s t :
  is_set s -> is_set t ->
  member st (combine s t) <-> exists l r, member l s /\ member r t /\ st = Z.lor l r.
Proof.
  intros Hs Ht. unfold combine. destruct (isEmpty s || isEmpty t) eqn:E.
  { split; [intros []%member_0|]. intros (l & r & Hl & Hr & _).
    apply orb_true_iff in E as [E|E]; rewrite isEmpty_spec in E by done; by destruct (E _ ltac:(eassumption)). }
  clear E.
  rewrite (member_fold _ (fun l => contains s l = true /\ exists r, member r t /\ st = Z.lor l r)).
  - setoid_rewrite elem_allStates. split.
    + intros [[]%member_0|(l & ? & ? & r & ? & ->)]. by exists l, r.
    + intros (l & r & [? ?] & ? & ->). right. exists l. eauto.
  - intros acc l Hl%elem_allStates. destruct (contains s l); cbn [negb].
    2:{ split; [by left|]. by intros [?|[? _]]. }
    rewrite (member_fold _ (fun r => contains t r = true /\ st = Z.lor l r)).
    + setoid_rewrite elem_allStates. unfold member at 3. split.
      * intros [?|(r & ? & ? & ?)]; [by left|right; by eauto 6].
      * intros [?|(_ & r & [? ?] & ?)]; [by left|right; by eauto].
    + intros acc' r Hr%elem_allStates. destruct (contains t r); cbn [negb].
      * rewrite member_add by by apply is_state_lor. tauto.
      * split; [by left|]. by intros [?|[? _]].
Qed.

(** ** The algebra of state sets *)

Lemma is_set_empty : is_set emptyRuleMatchState.
Proof. apply is_set_single. Qed.

Lemma member_empty st : member st emptyRuleMatchState <-> st = 0.
Proof. apply member_single. unfold is_state. lia. Qed.

#[export] Hint Resolve is_set_0 is_set_single is_set_empty is_set_merge is_set_add
  is_set_combine is_set_withBase is_set_filter is_state_lor : go.

Lemma withBase_combine s b :
  is_set s -> is_state b -> withBase s b = combine s (singleRuleMatchState b).
Proof.
  intros Hs Hb. apply set_ext; auto with go. intros st.
  rewrite member_withBase, member_combine by auto with go. split.
  - intros (st' & ? & ->). exists st', b. by rewrite member_single.
  - intros (l & r & ? & Hr & ->). rewrite member_single in Hr by done. subst. by exists l.
Qed.

Lemma combine_comm s t : is_set s -> is_set t -> combine s t = combine t s.
Proof.
  intros Hs Ht. apply set_ext; auto with go. intros st.
  rewrite !member_combine by done.
  split; intros (l & r & ? & ? & ->); exists r, l; by rewrite Z.lor_comm.
Qed.

Lemma combine_assoc s t u :
  is_set s -> is_set t -> is_set u -> combine s (combine t u) = combine (combine s t) u.
Proof.
  intros Hs Ht Hu. apply set_ext; auto with go. intros st.
  rewrite !member_combine by auto with go. split.
  - intros (l & r & ? & Hr & ->). apply member_combine in Hr as (m & r' & ? & ? & ->); [|done..].
    exists (Z.lor l m), r'. rewrite member_combine, Z.lor_assoc by done. eauto 10.
  - intros (l & r & Hl & ? & ->). apply member_combine in Hl as (l' & m & ? & ? & ->); [|done..].
    exists l', (Z.lor m r). rewrite member_combine, Z.lor_assoc by done. eauto 10.
Qed.

Lemma combine_empty_l s : is_set s -> combine emptyRuleMatchState s = s.
Proof.
  intros Hs. apply set_ext; auto with go. intros st.
  rewrite member_combine by auto with go. split.
  - intros (l & r & Hl & ? & ->). apply member_empty in Hl as ->. by rewrite Z.lor_0_l.
  - intros H. exists 0, st. by rewrite member_empty, Z.lor_0_l.
Qed.

Lemma combine_merge_distr s t u :
  is_set s -> is_set t -> is_set u ->
  combine s (merge t u) = merge (combine s t) (combine s u).
Proof.
  intros Hs Ht Hu. apply set_ext; auto with go. intros st.
  rewrite member_merge, !member_combine by auto with go.
  setoid_rewrite member_merge. split.
  - intros (l & r & ? & [?|?] & ->); [left|right]; eauto.
  - intros [(l & r & ? & ? & ->)|(l & r & ? & ? & ->)]; eauto 10.
Qed.

Lemma isEmpty_combine s t : is_set s -> is_set t -> isEmpty (combine s t) = isEmpty s || isEmpty t.
Proof.
  intros Hs Ht. destruct (isEmpty s || isEmpty t) eqn:E.
  - unfold combine. by rewrite E.
  - apply orb_false_iff in E as [E1 E2].
    apply nonempty_spec in E1 as [l Hl]; [|done]. apply nonempty_spec in E2 as [r Hr]; [|done].
    apply nonempty_spec; auto with go. exists (Z.lor l r). rewrite member_combine by done. eauto.
Qed.

Lemma isEmpty_merge s t : isEmpty (merge s t) = isEmpty s && isEmpty t.
Proof.
  unfold isEmpty, merge. destruct (Z.eqb_spec s 0) as [->|Hs]; [by rewrite Z.lor_0_l|].
  cbn. apply Z.eqb_neq. intros []%Z.lor_eq_0_iff. done.
Qed.

Lemma isEmpty_withBase s b : is_set s -> is_state b -> isEmpty (withBase s b) = isEmpty s.
Proof.
  intros Hs Hb. rewrite withBase_combine, isEmpty_combine by auto with go.
  rewrite (proj2 (nonempty_spec (singleRuleMatchState b) (is_set_single b))); [by rewrite orb_false_r|].
  exists b. by rewrite member_single.
Qed.

Lemma extends_refl b : extends b b.
Proof. apply Z.lor_diag. Qed.

Lemma extends_lor_l b st st' : extends b st -> extends b (Z.lor st st').
Proof. unfold extends. intros H. rewrite <- Z.lor_assoc, (Z.lor_comm st'), Z.lor_assoc. by rewrite H. Qed.

Lemma extends_lor_r b st st' : extends b st' -> extends b (Z.lor st st').
Proof. unfold extends. intros H. rewrite <- Z.lor_assoc. by rewrite H. Qed.

Lemma extends_base b st : extends b (Z.lor st b).
Proof. apply extends_lor_r, extends_refl. Qed.

Lemma has_lor a b t : has (Z.lor a b) t = has a t || has b t.
Proof.
  unfold has. rewrite Z.land_lor_distr_l.
  destruct (Z.eqb_spec (Z.land a t) 0) as [->|Ha]; [by rewrite Z.lor_0_l|]. cbn.
  apply negb_true_iff, Z.eqb_neq. intros []%Z.lor_eq_0_iff. done.
Qed.

Lemma has_extends b st t : extends b st -> has b t = true -> has st t = true.
Proof. unfold extends. intros <- H. by rewrite has_lor, H, orb_true_r. Qed.
