(* ===== verification/DnsMsg.v ===== *)
(** * DNS messages

    The message type of miekg/dns, as far as the program reads or writes it:
    a record is its header and, as [RData], the dynamic type of the Go value
    with the fields the code uses.  The two are independent, as in Go, where
    [Header().Rrtype] need not agree with the type of the record.  Header
    bits that no modelled function touches (opcode, AD, CD, ...) are left
    out. *)
From Stdlib Require Import ZArith Bool.
From S2P Require Import Prelude.

(** Record types, classes and response codes of the protocol. *)
Definition TypeA : Z := 1.
Definition TypeCNAME : Z := 5.
Definition TypeAAAA : Z := 28.
Definition TypeOPT : Z := 41.
Definition TypeHTTPS : Z := 65.
Definition ClassINET : Z := 1.

Definition RcodeSuccess : Z := 0.
Definition RcodeFormatError : Z := 1.
Definition RcodeServerFailure : Z := 2.
Definition RcodeNameError : Z := 3.
Definition RcodeRefused : Z := 5.

(** Service parameters of HTTPS records. *)
Inductive SVCBKeyValue :=
| SVCBIPv4Hint (hint : list (list byte))
| SVCBIPv6Hint (hint : list (list byte))
| SVCBOther (key : Z) (data : list byte).

Definition SVCB_IPV4HINT : Z := 4.
Definition SVCB_IPV6HINT : Z := 6.

Definition SVCB_Key (kv : SVCBKeyValue) : Z :=
  match kv with SVCBIPv4Hint _ => SVCB_IPV4HINT | SVCBIPv6Hint _ => SVCB_IPV6HINT | SVCBOther key _ => key end.

(** EDNS0 options. *)
Inductive EDNS0 :=
| EDNS0Subnet (code family sourceNetmask : Z) (address : list byte)
| EDNS0Other (code : Z) (data : list byte).

Definition EDNS0SUBNET : Z := 8.
Definition EDNS0PADDING : Z := 12.

Definition EDNS0_Option (o : EDNS0) : Z :=
  match o with EDNS0Subnet _ _ _ _ => EDNS0SUBNET | EDNS0Other code _ => code end.

Inductive RData :=
| RD_A (a : list byte)
| RD_AAAA (aaaa : list byte)
| RD_HTTPS (value : list SVCBKeyValue)
| RD_SOA (minttl : Z)
| RD_OPT (options : list EDNS0)
| RD_CNAME (target : string)
| RD_TXT (txt : list string)
| RD_MX (preference : Z) (mx : string)
| RD_Other (data : list byte).

Record RR := mkRR { rr_Name : string; rr_Rrtype : Z; rr_Class : Z; rr_Ttl : Z; rr_Data : RData }.

Record Question := mkQuestion { q_Name : string; q_Qtype : Z; q_Qclass : Z }.

Record Msg := mkMsg {
  Msg_Id : Z;
  Msg_Response : bool;
  Msg_Authoritative : bool;
  Msg_RecursionDesired : bool;
  Msg_RecursionAvailable : bool;
  Msg_Rcode : Z;
  Msg_Question : list Question;
  Msg_Answer : list RR;
  Msg_Ns : list RR;
  Msg_Extra : list RR;
}.

#[export] Instance SVCBKeyValue_eq_dec : EqDecision SVCBKeyValue.
Proof. solve_decision. Defined.
#[export] Instance EDNS0_eq_dec : EqDecision EDNS0.
Proof. solve_decision. Defined.
#[export] Instance RData_eq_dec : EqDecision RData.
Proof. solve_decision. Defined.
#[export] Instance RR_eq_dec : EqDecision RR.
Proof. solve_decision. Defined.
#[export] Instance Question_eq_dec : EqDecision Question.
Proof. solve_decision. Defined.
#[export] Instance Msg_eq_dec : EqDecision Msg.
Proof. solve_decision. Defined.

#[export] Instance Question_countable : Countable Question.
Proof.
  refine (inj_countable' (fun q => (q_Name q, q_Qtype q, q_Qclass q))
    (fun '(n, t, c) => mkQuestion n t c) _). by intros [].
Defined.

(** [response.Id = id]. *)
Definition Msg_set_Id (id : Z) (m : Msg) : Msg :=
  mkMsg id (Msg_Response m) (Msg_Authoritative m) (Msg_RecursionDesired m) (Msg_RecursionAvailable m) (Msg_Rcode m)
    (Msg_Question m) (Msg_Answer m) (Msg_Ns m) (Msg_Extra m).

(** The three record lists replaced. *)
Definition Msg_set_records (answer ns extra : list RR) (m : Msg) : Msg :=
  mkMsg (Msg_Id m) (Msg_Response m) (Msg_Authoritative m) (Msg_RecursionDesired m) (Msg_RecursionAvailable m)
    (Msg_Rcode m) (Msg_Question m) answer ns extra.

Definition rr_set_Ttl (ttl : Z) (r : RR) : RR := mkRR (rr_Name r) (rr_Rrtype r) (rr_Class r) ttl (rr_Data r).
Definition rr_set_Data (d : RData) (r : RR) : RR := mkRR (rr_Name r) (rr_Rrtype r) (rr_Class r) (rr_Ttl r) d.
