(* ===== verification/Sniff.v ===== *)
(** * Protocol sniffers (common/sniff)

    A stream sniffer reads from the bytes peeked so far: [io.MultiReader] over
    the buffers of earlier rounds and the buffer of this one, here the list of
    their contents.  A packet sniffer gets one packet.  Both write the metadata
    ([SniffData]) and return an error, which wraps [ErrNeedMoreData] when more
    bytes could change the answer.

    The parsers of other packages are parameters ([SniffEnv]): the TLS and HTTP
    stacks, the DNS library.  All other sniffers are modelled byte by byte.
    [PeekStream] takes what the connection does as the list of its read events. *)
From Stdlib Require Import ZArith Lia Bool.
From S2P Require Import Prelude GoIO DnsMsg Ja3 Quic.

(** [E.Cause1(ErrNeedMoreData, err)]. *)
Definition needMoreData (err : go_error) : go_error := EErrors ErrNeedMoreData err.

Definition needs_more_data (e : go_error) : bool := errors_Is e ErrNeedMoreData.

Definition ProtocolTLS : string := "tls".
Definition ProtocolHTTP : string := "http".
Definition ProtocolDNS : string := "dns".
Definition ProtocolSTUN : string := "stun".
Definition ProtocolBitTorrent : string := "bittorrent".
Definition ProtocolDTLS : string := "dtls".
Definition ProtocolSSH : string := "ssh".
Definition ProtocolRDP : string := "rdp".
Definition ProtocolNTP : string := "ntp".

Definition set_Protocol (p : string) (md : SniffData) : SniffData := mkSniffData p (s_Domain md) (s_Client md) (s_Context md).
Definition set_Domain (d : string) (md : SniffData) : SniffData := mkSniffData (s_Protocol md) d (s_Client md) (s_Context md).
Definition set_Client (c : string) (md : SniffData) : SniffData := mkSniffData (s_Protocol md) (s_Domain md) c (s_Context md).

Abbreviation StreamSniffer := (list (list byte) -> SniffData -> SniffData * result unit).
Abbreviation PacketSniffer := (list byte -> SniffData -> SniffData * result unit).

(** The bytes a MultiReader delivers. *)
Abbreviation stream := (@concat byte).

(** [reader.Read(p)] with room for [n] bytes: from the first buffer that is not used up. *)
Fixpoint MultiReader_Read (n : nat) (readers : list (list byte)) : result (list byte) * list (list byte) :=
  match readers with
  | [] => (Err EOF, [])
  | [] :: rest => MultiReader_Read n rest
  | bs :: rest => (Ok (take n bs), drop n bs :: rest)
  end.

(** A reader whose failures ask for more data. *)
Definition more {A} (r : Reader A) : Reader A := fun i =>
  match r i with Err e => Err (needMoreData e) | x => x end.

Definition ReadUint16 : Reader Z := let! bs := ReadFull 2 in rret (be_decode bs).

Definition expect (b : bool) : Reader unit := check (negb b) ErrInvalid.

(** A sniffer that only decides: the metadata is written on success. *)
Definition decide_with {A} (r : result A) (f : SniffData -> SniffData) (md : SniffData) : SniffData * result unit :=
  match r with Ok _ => (f md, Ok tt) | Err e => (md, Err e) | Panic s => (md, Panic s) end.

(** ** BitTorrent *)

Definition trackerConnectFlag : Z := 0.
Definition trackerProtocolID : Z := 0x41727101980.
Definition trackerConnectMinSize : Z := 16.

Definition bitTorrentHeader : list byte := bytes_of_string "BitTorrent protocol".

Definition checkBitTorrent (readers : list (list byte)) : result unit :=
  match MultiReader_Read 1 readers with
  | (Ok (first :: _), readers) =>
      if negb (Z_of_byte first =? 19) then Err ErrInvalid
      else
        let '(r, _) := MultiReader_Read 19 readers in
        let protocol := match r with Ok bs => bs | _ => [] end in
        if negb (bool_decide (protocol = take (length protocol) bitTorrentHeader)) then Err ErrInvalid
        else match r with
             | Ok _ => if zlen protocol <? 19 then Err ErrNeedMoreData else Ok tt
             | Err e => Err (needMoreData e)
             | Panic s => Panic s
             end
  | _ => Err (needMoreData EOF)
  end.

Definition BitTorrent : StreamSniffer := fun readers md => decide_with (checkBitTorrent readers) (set_Protocol ProtocolBitTorrent) md.

(** The loop over the extensions; [Seek] past the end is no error. *)
Fixpoint utp_extensions (fuel : nat) (extension : Z) (i : list byte) : result unit :=
  if extension =? 0 then Ok tt
  else match fuel with
  | O => Err OutOfFuel
  | S fuel' =>
      let* (extension, i) := ReadUint8 i in
      if 0x04 <? extension then Err ErrInvalid
      else
        let* (length, i) := ReadUint8 i in
        utp_extensions fuel' extension (drop (Z.to_nat length) i)
  end.

Definition checkUTP (packet : list byte) : result unit :=
  if zlen packet <? 20 then Err ErrInvalid
  else
    let* b0 := index packet 0 in
    let version := Z.land b0 0x0F in
    let ty := Z.shiftr b0 4 in
    if negb (version =? 1) || (4 <? ty) then Err ErrInvalid
    else
      let* extension := index packet 1 in
      let* rest := slice_from packet 20 in
      utp_extensions (S (length rest)) extension rest.

Definition UTP : PacketSniffer := fun packet md => decide_with (checkUTP packet) (set_Protocol ProtocolBitTorrent) md.

Definition checkUDPTracker (packet : list byte) : result unit :=
  if zlen packet <? trackerConnectMinSize then Err ErrInvalid
  else
    let* id := slice packet 0 8 in
    if negb (be_decode id =? trackerProtocolID) then Err ErrInvalid
    else
      let* action := slice packet 8 12 in
      if negb (be_decode action =? trackerConnectFlag) then Err ErrInvalid else Ok tt.

Definition UDPTracker : PacketSniffer := fun packet md => decide_with (checkUDPTracker packet) (set_Protocol ProtocolBitTorrent) md.

(** ** DTLS, NTP, STUN *)

Definition checkDTLSRecord (packet : list byte) : result unit :=
  if zlen packet <? 13 then Err ErrInvalid
  else
    let* contentType := index packet 0 in
    if negb (bool_decide (contentType ∈ [20; 21; 22; 23; 25])) then Err ErrInvalid
    else
      let* versionMajor := index packet 1 in
      if negb (versionMajor =? 0xfe) then Err ErrInvalid
      else
        let* versionMinor := index packet 2 in
        if negb (versionMinor =? 0xff) && negb (versionMinor =? 0xfd) then Err ErrInvalid else Ok tt.

Definition DTLSRecord : PacketSniffer := fun packet md => decide_with (checkDTLSRecord packet) (set_Protocol ProtocolDTLS) md.

(** The comparisons with 16.0 are exact: a uint32 divided by a power of two. *)
Definition checkNTP (packet : list byte) : result unit :=
  if zlen packet <? 48 then Err ErrInvalid
  else
    let* firstByte := index packet 0 in
    let li := Z.land (Z.shiftr firstByte 6) 0x03 in
    let vn := Z.land (Z.shiftr firstByte 3) 0x07 in
    let mode := Z.land firstByte 0x07 in
    if 3 <? li then Err ErrInvalid
    else if negb (vn =? 3) && negb (vn =? 4) then Err ErrInvalid
    else if negb (mode =? 3) then Err ErrInvalid
    else
      let* delay := slice packet 4 8 in
      let* dispersion := slice packet 8 12 in
      if 16 * 65536 <? be_decode delay then Err ErrInvalid
      else if 16 * 65536 <? be_decode dispersion then Err ErrInvalid
      else Ok tt.

Definition NTP : PacketSniffer := fun packet md => decide_with (checkNTP packet) (set_Protocol ProtocolNTP) md.

Definition checkSTUN (packet : list byte) : result unit :=
  if zlen packet <? 20 then Err ErrInvalid
  else
    let* cookie := slice packet 4 8 in
    if negb (be_decode cookie =? 0x2112A442) then Err ErrInvalid
    else
      let* length := be16 packet 2 in
      if zlen packet <? 20 + length then Err ErrInvalid else Ok tt.

Definition STUNMessage : PacketSniffer := fun packet md => decide_with (checkSTUN packet) (set_Protocol ProtocolSTUN) md.

(** ** RDP *)

Definition readRDP : Reader unit :=
  let! tpktVersion := more ReadUint8 in
  let! _ := expect (tpktVersion =? 0x03) in
  let! tpktReserved := more ReadUint8 in
  let! _ := expect (tpktReserved =? 0x00) in
  let! tpktLength := more ReadUint16 in
  let! _ := expect (tpktLength =? 19) in
  let! cotpLength := more ReadUint8 in
  let! _ := expect (cotpLength =? 14) in
  let! cotpTpduType := more ReadUint8 in
  let! _ := expect (cotpTpduType =? 0xE0) in
  let! _ := more (discard 5) in
  let! rdpType := more ReadUint8 in
  let! _ := expect (rdpType =? 0x01) in
  let! rdpFlags := more ReadUint8 in
  let! rdpLength := more ReadUint8 in
  expect (rdpLength =? 8).

Definition RDP : StreamSniffer := fun readers md => decide_with (readRDP (stream readers)) (set_Protocol ProtocolRDP) md.

(** ** SSH *)

Definition sshPrefix : list byte := bytes_of_string "SSH-2.0-".

(** [bufio.Reader.ReadLine] on a nonempty input, with the default buffer. *)
Definition bufioSize : nat := 4096.

Definition drop_cr (line : list byte) : list byte :=
  match last line with Some b => if Z_of_byte b =? 13 then removelast line else line | None => line end.

Fixpoint until_newline (i : list byte) : option (list byte) :=
  match i with
  | [] => None
  | b :: i' => if Z_of_byte b =? 10 then Some [] else option_map (cons b) (until_newline i')
  end.

Definition ReadLine (i : list byte) : list byte :=
  match until_newline (take bufioSize i) with
  | Some line => drop_cr line
  | None => if (bufioSize <=? length i)%nat then drop_cr (take bufioSize i) else i
  end.

Definition SSH : StreamSniffer := fun readers md =>
  let i := stream readers in
  let prefix := take (length sshPrefix) i in
  if negb (bool_decide (prefix = take (length prefix) sshPrefix)) then (md, Err ErrInvalid)
  else if zlen prefix <? zlen sshPrefix then (md, Err (needMoreData EOF))
  else
    match slice_from (ReadLine i) 8 with
    | Ok client => (set_Client (string_of_bytes client) (set_Protocol ProtocolSSH md), Ok tt)
    | Err e => (md, Err e)
    | Panic s => (md, Panic s)
    end.

(** ** The sniffers built on other packages *)

Class SniffEnv := {
  Unpack : list byte -> result Msg;                       (* miekg/dns, Msg.Unpack *)
  http_ReadRequest : list byte -> result string;          (* the Host of the request *)
  ParseSocksaddr_AddrString : string -> string;
  (* crypto/tls: the server name of the hello handed to GetConfigForClient, and how the handshake ends *)
  tls_Handshake : list byte -> option string * result unit;
}.

Section WithEnv.
Context `{SE : SniffEnv}.

Definition DomainNameQuery : PacketSniffer := fun packet md =>
  match Unpack packet with
  | Err e => (md, Err e)
  | Panic s => (md, Panic s)
  | Ok msg =>
      if Msg_Response msg || (zlen (Msg_Question msg) =? 0) || (0 <? zlen (Msg_Answer msg)) || (0 <? zlen (Msg_Ns msg)) then (md, Ok tt)
      else (set_Protocol ProtocolDNS md, Ok tt)
  end.

(** The checks on the part of the message that arrived; [packet] has [n] bytes. *)
Definition dnsHeaderRejected (packet : list byte) : bool :=
  let byte_at i := match packet !! i with Some b => Z_of_byte b | None => 0 end in
  let n := zlen packet in
  ((2 <? n) && negb (Z.land (byte_at 2%nat) 0x80 =? 0))
  || ((5 <? n) && (byte_at 4%nat =? 0) && (byte_at 5%nat =? 0))
  || existsb (fun i => (Z.of_nat i <? n) && negb (byte_at i =? 0)) [6; 7; 8; 9]%nat.

Definition StreamDomainNameQuery : StreamSniffer := fun readers md =>
  match more ReadUint16 (stream readers) with
  | Err e => (md, Err e)
  | Panic s => (md, Panic s)
  | Ok (length, i) =>
      if length <? 12 then (md, Err ErrInvalid)
      else
        let packet := take (Z.to_nat length) i in
        if dnsHeaderRejected packet then (md, Err ErrInvalid)
        else if zlen packet <? length then (md, Err (needMoreData (if zlen packet =? 0 then EOF else ErrUnexpectedEOF)))
        else DomainNameQuery packet md
  end.

Definition HTTPHost : StreamSniffer := fun readers md =>
  match http_ReadRequest (stream readers) with
  | Ok host => (set_Domain (ParseSocksaddr_AddrString host) (set_Protocol ProtocolHTTP md), Ok tt)
  | Err e => (md, Err (if errors_Is e ErrUnexpectedEOF then needMoreData e else e))
  | Panic s => (md, Panic s)
  end.

Definition TLSClientHello : StreamSniffer := fun readers md =>
  match tls_Handshake (stream readers) with
  | (_, Panic s) => (md, Panic s)
  | (Some serverName, _) => (set_Domain serverName (set_Protocol ProtocolTLS md), Ok tt)
  | (None, Ok _) => (md, Ok tt)
  | (None, Err e) => (md, Err (if errors_Is e ErrUnexpectedEOF then needMoreData e else e))
  end.

End WithEnv.

(** ** Peeking *)

(** Ports of protocols in which the server speaks first. *)
Definition Skip (port : Z) : bool := bool_decide (port ∈ [25; 465; 587; 143; 993; 110; 995]).

(** [E.Errors(sniffError, err)]. *)
Definition Errors2 (sniffError : option go_error) (err : go_error) : go_error :=
  match sniffError with None => err | Some e => EErrors e err end.

Inductive peek_outcome :=
| Accepted
| Failed (sniffError : option go_error)
| Crashed (message : string).

(** The loop over the sniffers: the first that succeeds ends it. *)
Fixpoint trySniffers {I} (sniffers : list (I -> SniffData -> SniffData * result unit)) (input : I) (md : SniffData)
    (sniffError : option go_error) : SniffData * peek_outcome :=
  match sniffers with
  | [] => (md, Failed sniffError)
  | sniffer :: rest =>
      match sniffer input md with
      | (md, Ok _) => (md, Accepted)
      | (md, Err e) => trySniffers rest input md (Some (Errors2 sniffError e))
      | (md, Panic s) => (md, Crashed s)
      end
  end.

Definition PeekPacket (packet : list byte) (md : SniffData) (sniffers : list PacketSniffer) : SniffData * result unit :=
  match trySniffers sniffers packet md None with
  | (md, Accepted) | (md, Failed None) => (md, Ok tt)
  | (md, Failed (Some e)) => (md, Err e)
  | (md, Crashed s) => (md, Panic s)
  end.

(** What happens when the connection is read: bytes arrive, the read fails (at
    the latest because of the deadline), or the deadline cannot be set.  A
    connection without further events is at its end. *)
Inductive ReadEvent := Data (bs : list byte) | ReadFails (e : go_error) | SetDeadlineFails (e : go_error).

(** Round [i] of the loop; [events] is what the connection still does,
    [buffer] the bytes of the rounds before, [sniffError] that of the last. *)
Fixpoint PeekStream_loop (sniffers : list StreamSniffer) (buffers : list (list byte))
    (i : nat) (events : list ReadEvent) (buffer : list byte) (sniffError : option go_error) (md : SniffData)
    : SniffData * list byte * list ReadEvent * result unit :=
  let finish (e : option go_error) : result unit := match e with Some e => Err e | None => Ok tt end in
  let read_failed (e : go_error) : result unit := if (0 <? i)%nat then finish sniffError else Err (ECause e "read payload") in
  match events with
  | [] => (md, buffer, [], read_failed EOF)
  | SetDeadlineFails e :: rest => (md, buffer, rest, Err (ECause e "set read deadline"))
  | ReadFails e :: rest => (md, buffer, rest, read_failed e)
  | Data data :: rest =>
      let buffer := buffer ++ data in
      match trySniffers sniffers (buffers ++ [buffer]) md None with
      | (md, Accepted) => (md, buffer, rest, Ok tt)
      | (md, Crashed s) => (md, buffer, rest, Panic s)
      | (md, Failed sniffError) =>
          if match sniffError with Some e => needs_more_data e | None => false end
          then PeekStream_loop sniffers buffers (S i) rest buffer sniffError md
          else (md, buffer, rest, finish sniffError)
      end
  end.

(** The metadata, what was peeked, what the connection still does, and the verdict. *)
Definition PeekStream (sniffers : list StreamSniffer) (buffers : list (list byte)) (events : list ReadEvent) (md : SniffData)
    : SniffData * list byte * list ReadEvent * result unit :=
  PeekStream_loop sniffers buffers 0 events [] None md.
