(* ===== verification/SniffTheorems.v ===== *)
(** * Verdicts of the sniffers

    [StreamSnifferOk] is what [PeekStream] needs of a sniffer: it returns, and
    changes nothing when it fails.  [StableSniffer] says in addition that an answer
    given on a part of the stream is not revoked by the bytes that follow.  All
    stream sniffers have the first; SSH, RDP, BitTorrent and DNS have the second
    (TLS and HTTP leave it to their parsers, which need not).  [PeekStream] is
    proved against them ([peek_stream_verdict]).  For the packet sniffers the
    theorem is that they return on any sequence of packets. *)
From Stdlib Require Import ZArith Lia Bool.
From S2P Require Import Prelude GoIO DnsMsg Ja3 Quic QuicTheorems Sniff.

Definition accepts (x : SniffData * result unit) : Prop := snd x = Ok tt.
Definition rejects (x : SniffData * result unit) : Prop := exists e, snd x = Err e /\ needs_more_data e = false.

Class StreamSnifferOk (s : StreamSniffer) : Prop := {
  sniffer_returns readers md : returns (snd (s readers md));
  sniffer_unchanged readers md e : snd (s readers md) = Err e -> fst (s readers md) = md;
}.

(** The last buffer grows from one round to the next. *)
Class StableSniffer (s : StreamSniffer) : Prop := {
  stable_returns readers md : returns (snd (s readers md));
  stable_unchanged readers md e : snd (s readers md) = Err e -> fst (s readers md) = md;
  stable_accepts pre b rest md : accepts (s (pre ++ [b]) md) ->
    accepts (s (pre ++ [b ++ rest]) md) /\ s_Protocol (fst (s (pre ++ [b ++ rest]) md)) = s_Protocol (fst (s (pre ++ [b]) md));
  stable_rejects pre b rest md : rejects (s (pre ++ [b]) md) -> rejects (s (pre ++ [b ++ rest]) md);
}.

#[export] Instance stable_ok s : StableSniffer s -> StreamSnifferOk s.
Proof. intros [Hr Hu _ _]. by split. Qed.

(** ** PeekStream *)

(** An error stays, and so does the wish for more data. *)
Lemma trySniffers_keeps {I} (sniffers : list (I -> SniffData -> SniffData * result unit)) input : forall md err0 md1 err1,
  trySniffers sniffers input md (Some err0) = (md1, Failed err1) ->
  exists e1, err1 = Some e1 /\ (needs_more_data err0 = true -> needs_more_data e1 = true).
Proof.
  induction sniffers as [|s l IH]; intros md err0 md1 err1 Ht; cbn [trySniffers] in Ht; [injection Ht as <- <-; by eexists|].
  destruct (s input md) as [md' [[]|e|m]]; [done| |done]. apply IH in Ht as (e1 & -> & H). exists e1. split; [done|].
  intros Hn. apply H. cbn. unfold needs_more_data in *. by rewrite Hn, orb_true_r.
Qed.

Lemma needs_more_Errors2 err e : needs_more_data e = true -> needs_more_data (Errors2 err e) = true.
Proof. intros He. destruct err; [|done]. cbn. unfold needs_more_data in He. by rewrite He, !orb_true_r. Qed.

Lemma trySniffers_spec sniffers pre b md err : Forall StreamSnifferOk sniffers ->
  match trySniffers sniffers (pre ++ [b]) md err with
  | (md', Accepted) => exists s, s ∈ sniffers /\ s (pre ++ [b]) md = (md', Ok tt)
  | (md', Failed err') =>
      md' = md /\ (err' = None -> sniffers = []) /\
      ((exists e, err' = Some e /\ needs_more_data e = true) \/ (forall s, s ∈ sniffers -> rejects (s (pre ++ [b]) md)))
  | (_, Crashed _) => False
  end.
Proof.
  intros Hs. revert err. induction Hs as [|s sniffers Hst Hs IH]; intros err; cbn [trySniffers].
  { split; [done|]. split; [done|]. right. intros s Hin. by apply elem_of_nil in Hin. }
  pose proof (sniffer_returns (pre ++ [b]) md) as Hr. pose proof (sniffer_unchanged (pre ++ [b]) md) as Hu.
  destruct (s (pre ++ [b]) md) as [md' r] eqn:E. cbn [fst snd] in *.
  destruct r as [[]|e|m]; [exists s; split; [left|done]|specialize (Hu e eq_refl) as ->|done].
  specialize (IH (Some (Errors2 err e))).
  destruct (trySniffers sniffers (pre ++ [b]) md (Some (Errors2 err e))) as [md'' [|err'|m]] eqn:Et; [| |done].
  { destruct IH as (s' & Hin & Hs'). exists s'. split; [by right|done]. }
  apply trySniffers_keeps in Et as (e1 & -> & Hkeep). destruct IH as (-> & _ & Hor). split; [done|]. split; [done|].
  destruct Hor as [Hn|Hall]; [by left|]. destruct (needs_more_data e) eqn:He.
  - left. exists e1. split; [done|]. by apply Hkeep, needs_more_Errors2.
  - right. intros s' Hin. apply elem_of_cons in Hin as [->|Hin]; [|by apply Hall]. rewrite E. by exists e.
Qed.

(** The bytes a connection delivers. *)
Definition payload (events : list ReadEvent) : list byte :=
  concat (map (fun ev => match ev with Data bs => bs | _ => [] end) events).

(** Reading went on until it failed. *)
Definition read_until_failure (events rest : list ReadEvent) : Prop :=
  exists ds, (events = map Data ds /\ rest = [])
    \/ (exists e, events = map Data ds ++ ReadFails e :: rest) \/ (exists e, events = map Data ds ++ SetDeadlineFails e :: rest).

Lemma read_until_failure_cons data events rest : read_until_failure events rest -> read_until_failure (Data data :: events) rest.
Proof.
  intros (ds & H). exists (data :: ds). destruct H as [[-> ->]|[[e ->]|[e ->]]]; [by left|right; left; by exists e|right; right; by exists e].
Qed.

Lemma PeekStream_loop_spec sniffers buffers md : Forall StreamSnifferOk sniffers -> forall events i buffer err md' buffer' rest r,
  (0 < i -> err <> None)%nat ->
  PeekStream_loop sniffers buffers i events buffer err md = (md', buffer', rest, r) ->
  buffer ++ payload events = buffer' ++ payload rest /\
  match r with
  | Ok _ => sniffers = [] \/ exists s, s ∈ sniffers /\ s (buffers ++ [buffer']) md = (md', Ok tt)
  | Err e => md' = md /\ (read_until_failure events rest \/ forall s, s ∈ sniffers -> rejects (s (buffers ++ [buffer']) md))
  | Panic _ => False
  end.
Proof.
  intros Hs. induction events as [|ev events IH]; intros i buffer err md' buffer' rest r Hi; cbn [PeekStream_loop].
  { assert (read_until_failure [] []) by (exists []; by left).
    destruct i as [|i]; cbn [Nat.ltb Nat.leb]; [|destruct err; [|by destruct (Hi ltac:(lia))]]; intros [= <- <- <- <-]; (split; [done|]); (split; [done|by left]). }
  destruct ev as [data|e|e].
  - pose proof (trySniffers_spec sniffers buffers (buffer ++ data) md None Hs) as Ht.
    change (payload (Data data :: events)) with (data ++ payload events). rewrite app_assoc.
    destruct (trySniffers sniffers (buffers ++ [buffer ++ data]) md None) as [md1 [|err1|m]]; [|destruct Ht as (-> & Hnil & Hor)|done].
    + intros [= <- <- <- <-]. split; [done|]. by right.
    + destruct err1 as [e1|]; [|intros [= <- <- <- <-]; split; [done|]; left; by apply Hnil]. destruct (needs_more_data e1) eqn:He1.
      * intros Hl. apply IH in Hl as [Hbytes Hrest]; [|done]. split; [done|]. destruct r; [done| |done].
        destruct Hrest as [-> [H|H]]; (split; [done|]); [left; by apply read_until_failure_cons|by right].
      * intros [= <- <- <- <-]. split; [done|]. split; [done|]. right. destruct Hor as [(e & [= <-] & He)|Hall]; [congruence|done].
  - assert (read_until_failure (ReadFails e :: events) events) by (exists []; right; left; by exists e).
    destruct i as [|i]; cbn [Nat.ltb Nat.leb]; [|destruct err; [|by destruct (Hi ltac:(lia))]]; intros [= <- <- <- <-]; (split; [done|]); (split; [done|by left]).
  - intros [= <- <- <- <-]. split; [done|]. split; [done|]. left. exists []. right; right. by exists e.
Qed.

(** ** Readers with a final answer *)

(** What [r] reads does not depend on what follows; a failure asks for more data or persists. *)
Definition final {A} (r : Reader A) : Prop := forall i rest,
  match r i with
  | Ok (a, o) => r (i ++ rest) = Ok (a, o ++ rest)
  | Err e => e <> OutOfFuel /\ (needs_more_data e = true \/ needs_more_data e = false /\ exists e', r (i ++ rest) = Err e' /\ needs_more_data e' = false)
  | Panic _ => False
  end.

Lemma final_bind {A B} (r : Reader A) (k : A -> Reader B) : final r -> (forall a, final (k a)) -> final (rbind r k).
Proof.
  intros Hr Hk i rest. unfold rbind. specialize (Hr i rest). destruct (r i) as [[a o]|e|s]; [|split; [by destruct Hr|]|done].
  - rewrite Hr. apply Hk.
  - destruct Hr as [_ [Hn|[Hn (e' & -> & He')]]]; [by left|]. right. split; [done|]. by eexists.
Qed.

Lemma final_expect b : final (expect b).
Proof. intros i rest. unfold expect, check, rlift. destruct b; cbn; [done|]. split; [done|]. right. split; [done|]. by eexists. Qed.

Lemma final_more {A} (r : Reader A) : (forall i, returns (r i)) -> (forall i a o rest, r i = Ok (a, o) -> r (i ++ rest) = Ok (a, o ++ rest)) -> final (more r).
Proof.
  intros Hr Ho i rest. unfold more. specialize (Hr i). destruct (r i) as [[a o]|e|s] eqn:E; [by rewrite (Ho i a o rest E)|split; [done|by left]|done].
Qed.

Lemma ReadFull_extend n i bs o rest : ReadFull n i = Ok (bs, o) -> ReadFull n (i ++ rest) = Ok (bs, o ++ rest).
Proof.
  unfold ReadFull. destruct (Z.leb_spec n (zlen i)) as [Hn|]; [|by destruct i]. intros [= <- <-].
  rewrite zlen_app. pose proof (zlen_nonneg rest). rewrite (proj2 (Z.leb_le _ _)) by lia.
  rewrite take_app_le, drop_app_le by (unfold zlen in Hn; lia). done.
Qed.

Lemma final_ReadUint8 : final (more ReadUint8).
Proof.
  apply final_more.
  - intros i. unfold ReadUint8, rbind. pose proof (proj1 (good_ReadFull 1 i)). by destruct (ReadFull 1 i) as [[]| |].
  - intros i a o rest. unfold ReadUint8, rbind. destruct (ReadFull 1 i) as [[bs o']| |] eqn:E; [|done..].
    apply (ReadFull_extend _ _ _ _ rest) in E. rewrite E. by intros [= <- <-].
Qed.

Lemma final_ReadUint16 : final (more ReadUint16).
Proof.
  apply final_more.
  - intros i. unfold ReadUint16, rbind. pose proof (proj1 (good_ReadFull 2 i)). by destruct (ReadFull 2 i) as [[]| |].
  - intros i a o rest. unfold ReadUint16, rbind. destruct (ReadFull 2 i) as [[bs o']| |] eqn:E; [|done..].
    apply (ReadFull_extend _ _ _ _ rest) in E. rewrite E. by intros [= <- <-].
Qed.

Lemma final_discard n : final (more (discard n)).
Proof.
  apply final_more; [apply good_discard|]. intros i a o rest. unfold discard. destruct (Z.leb_spec n (zlen i)) as [Hn|]; [|done].
  intros [= <- <-]. rewrite zlen_app. pose proof (zlen_nonneg rest). rewrite (proj2 (Z.leb_le _ _)) by lia.
  rewrite drop_app_le by (unfold zlen in Hn; lia). done.
Qed.

Lemma final_readRDP : final readRDP.
Proof.
  unfold readRDP.
  repeat first [apply final_expect | apply final_ReadUint8 | apply final_ReadUint16 | apply final_discard | apply final_bind; [|intros ?]].
Qed.

Lemma stream_last pre (b rest : list byte) : stream (pre ++ [b ++ rest]) = stream (pre ++ [b]) ++ rest.
Proof. rewrite !concat_app. cbn [concat]. by rewrite !app_nil_r, app_assoc. Qed.

(** ** The sniffers that have one *)

#[export] Instance RDP_stable : StableSniffer RDP.
Proof.
  split; unfold RDP.
  - intros readers md. pose proof (final_readRDP (stream readers) []) as H. by destruct (readRDP (stream readers)) as [[]| |]; [|destruct H|].
  - intros readers md e. by destruct (readRDP (stream readers)).
  - intros pre b rest md. unfold accepts. rewrite stream_last. pose proof (final_readRDP (stream (pre ++ [b])) rest) as H.
    destruct (readRDP (stream (pre ++ [b]))) as [[]| |]; [|done..]. by rewrite H.
  - intros pre b rest md (e & He & Hn). rewrite stream_last. pose proof (final_readRDP (stream (pre ++ [b])) rest) as H.
    destruct (readRDP (stream (pre ++ [b]))) as [[]|e'|]; [done| |done]. injection He as ->.
    destruct H as [_ [H|[_ (e'' & -> & H)]]]; [congruence|]. by exists e''.
Qed.

(** A prefix that disagrees with a header keeps disagreeing. *)
Lemma prefix_mismatch (header p p' : list byte) : p `prefix_of` p' ->
  p <> take (length p) header -> p' <> take (length p') header.
Proof.
  intros [q ->] Hne He. apply Hne. rewrite length_app in He.
  assert (take (length p) (p ++ q) = take (length p) (take (length p + length q) header)) as Ht by congruence.
  rewrite take_app_length, take_take in Ht. rewrite Ht at 1. f_equal. lia.
Qed.

Lemma take_prefix n (i rest : list byte) : take n i `prefix_of` take n (i ++ rest).
Proof. destruct (Nat.le_ge_cases n (length i)). { by rewrite take_app_le. } rewrite take_ge by done. rewrite take_app_ge by done. by eexists. Qed.

Lemma until_newline_length i line : until_newline i = Some line -> (length line < length i)%nat.
Proof.
  revert line. induction i as [|b i IH]; intros line; cbn [until_newline]; [done|]. destruct (_ =? 10); [intros [= <-]; cbn; lia|].
  destruct (until_newline i) as [l|]; [|done]. intros [= <-]. cbn. specialize (IH l eq_refl). lia.
Qed.

Lemma until_newline_prefix p i line : Forall (fun b => Z_of_byte b <> 10) p -> until_newline (p ++ i) = Some line -> p `prefix_of` line.
Proof.
  intros Hp. revert line. induction Hp as [|b p Hb Hp IH]; intros line; cbn [app until_newline]; [intros _; apply prefix_nil|].
  rewrite (proj2 (Z.eqb_neq _ _)) by done. destruct (until_newline (p ++ i)) as [l|]; [|done]. intros [= <-]. apply prefix_cons. by apply IH.
Qed.

Lemma drop_cr_length line : (length line - 1 <= length (drop_cr line))%nat.
Proof.
  unfold drop_cr. destruct (last line) as [b|] eqn:E; [|lia]. destruct (_ =? 13); [|lia].
  destruct line as [|x line] using rev_ind; [done|]. rewrite removelast_last, length_app. cbn. lia.
Qed.

Lemma drop_cr_ssh line : sshPrefix `prefix_of` line -> (8 <= length (drop_cr line))%nat.
Proof.
  intros [q ->]. destruct q as [|b q]; [by vm_compute|]. pose proof (drop_cr_length (sshPrefix ++ b :: q)) as H. rewrite length_app in H.
  assert (length sshPrefix = 8%nat) as He by by_compute. rewrite He in H. cbn [length] in H. lia.
Qed.

Lemma ReadLine_ssh i : sshPrefix `prefix_of` i -> (8 <= length (ReadLine i))%nat.
Proof.
  intros Hp. unfold ReadLine. destruct (until_newline (take bufioSize i)) as [line|] eqn:E.
  - apply drop_cr_ssh. destruct Hp as [q ->]. rewrite take_app_ge in E by (by_compute || (vm_compute; lia)).
    eapply until_newline_prefix; [|exact E]. repeat constructor; by vm_compute.
  - assert (length sshPrefix = 8%nat) as He by by_compute. apply prefix_length in Hp. rewrite He in Hp.
    destruct (Nat.leb_spec bufioSize (length i)) as [Hl|]; [|done].
    pose proof (drop_cr_length (take bufioSize i)) as H. rewrite length_take in H.
    assert (9 <= bufioSize)%nat by (apply Nat.leb_le; by vm_compute). lia.
Qed.

(** The three outcomes of the SSH sniffer, by the first bytes. *)
Lemma SSH_spec readers md :
  let p := take (length sshPrefix) (stream readers) in
  (p <> take (length p) sshPrefix /\ SSH readers md = (md, Err ErrInvalid))
  \/ (p = take (length p) sshPrefix /\ (length p < 8)%nat /\ SSH readers md = (md, Err (needMoreData EOF)))
  \/ (sshPrefix `prefix_of` stream readers /\ exists client, SSH readers md = (set_Client client (set_Protocol ProtocolSSH md), Ok tt)).
Proof.
  cbv zeta. unfold SSH. assert (length sshPrefix = 8%nat) as Hlen by by_compute. rewrite Hlen.
  set (p := take 8 (stream readers)). destruct (decide (p = take (length p) sshPrefix)) as [He|Hne].
  - rewrite bool_decide_eq_true_2 by done. cbn [negb]. destruct (Z.ltb_spec (zlen p) (zlen sshPrefix)) as [Hs|Hge].
    + right; left. split_and!; [done| |done]. unfold zlen in Hs. rewrite Hlen in Hs. lia.
    + right; right. assert (length p = 8%nat) as Hp.
      { unfold zlen in Hge. rewrite Hlen in Hge. subst p. rewrite length_take in *. lia. }
      assert (sshPrefix `prefix_of` stream readers) as Hpre.
      { exists (drop 8 (stream readers)). rewrite <- (take_drop 8 (stream readers)) at 1. fold p. rewrite He, Hp.
        by rewrite take_ge by (rewrite Hlen; lia). }
      split; [done|]. pose proof (ReadLine_ssh _ Hpre) as Hl.
      destruct (slice_from_ok (ReadLine (stream readers)) 8) as (client & -> & _); [unfold zlen; lia|]. by eexists.
  - left. by rewrite bool_decide_eq_false_2.
Qed.

#[export] Instance SSH_stable : StableSniffer SSH.
Proof.
  split.
  - intros readers md. destruct (SSH_spec readers md) as [[_ ->]|[(_ & _ & ->)|[_ [c ->]]]]; [done..|exact I].
  - intros readers md e. by destruct (SSH_spec readers md) as [[_ ->]|[(_ & _ & ->)|[_ [c ->]]]].
  - intros pre b rest md Ha. unfold accepts in *. destruct (SSH_spec (pre ++ [b]) md) as [[_ E]|[(_ & _ & E)|[Hp [c E]]]]; rewrite E in *; [done..|].
    assert (sshPrefix `prefix_of` stream (pre ++ [b ++ rest])) as Hp'.
    { rewrite stream_last. destruct Hp as [q ->]. exists (q ++ rest). by rewrite app_assoc. }
    destruct (SSH_spec (pre ++ [b ++ rest]) md) as [[Hne _]|[(_ & Hlt & _)|[_ [c' ->]]]]; [exfalso|exfalso|done].
    + apply Hne. destruct Hp' as [q ->]. rewrite take_app_length. by rewrite take_ge.
    + destruct Hp' as [q Hq]. rewrite Hq, take_app_length in Hlt. vm_compute in Hlt. lia.
  - intros pre b rest md (e & He & Hn). destruct (SSH_spec (pre ++ [b]) md) as [[Hne E]|[(_ & _ & E)|[Hp [c E]]]]; rewrite E in He; [|by injection He as <-|done].
    destruct (SSH_spec (pre ++ [b ++ rest]) md) as [[_ E']|[(Hbad & _ & _)|[Hp _]]]; [rewrite E'; by exists ErrInvalid|exfalso|exfalso].
    + revert Hbad. apply (prefix_mismatch sshPrefix (take (length sshPrefix) (stream (pre ++ [b])))); [|done]. rewrite stream_last. apply take_prefix.
    + assert (take (length sshPrefix) (stream (pre ++ [b ++ rest])) <> take (length (take (length sshPrefix) (stream (pre ++ [b ++ rest])))) sshPrefix) as Hbad.
      { apply (prefix_mismatch sshPrefix (take (length sshPrefix) (stream (pre ++ [b])))); [|done]. rewrite stream_last. apply take_prefix. }
      apply Hbad. destruct Hp as [q ->]. rewrite take_app_length. by rewrite take_ge.
Qed.

(** ** BitTorrent *)

(** A read comes from an earlier buffer, or all of them are used up. *)
Lemma MultiReader_last n pre :
  (exists bs pre', forall b, MultiReader_Read n (pre ++ [b]) = (Ok bs, pre' ++ [b]))
  \/ (forall b, MultiReader_Read n (pre ++ [b]) = match b with [] => (Err EOF, []) | _ => (Ok (take n b), [drop n b]) end).
Proof.
  induction pre as [|s pre IH]; [right; by intros []|]. destruct s as [|c s].
  - destruct IH as [(bs & pre' & H)|H]; [left; exists bs, pre'|right]; intros b; cbn [app MultiReader_Read]; apply H.
  - left. exists (take n (c :: s)), (drop n (c :: s) :: pre). by intros b.
Qed.

(** The second read and what is made of it. *)
Definition bitTorrentRest (readers : list (list byte)) : result unit :=
  let '(r, _) := MultiReader_Read 19 readers in
  let protocol := match r with Ok bs => bs | _ => [] end in
  if negb (bool_decide (protocol = take (length protocol) bitTorrentHeader)) then Err ErrInvalid
  else match r with
       | Ok _ => if zlen protocol <? 19 then Err ErrNeedMoreData else Ok tt
       | Err e => Err (needMoreData e)
       | Panic s => Panic s
       end.

(** An outcome and the outcome with more bytes. *)
Definition stable_result (r r' : result unit) : Prop :=
  match r with
  | Ok _ => r' = Ok tt
  | Err e => e <> OutOfFuel /\ (needs_more_data e = true \/ exists e', r' = Err e' /\ needs_more_data e' = false)
  | Panic _ => False
  end.

Lemma stable_reject e r' : needs_more_data e = false -> e <> OutOfFuel -> r' = Err e -> stable_result (Err e) r'.
Proof. intros Hn He ->. split; [done|]. right. by exists e. Qed.

Lemma bitTorrentRest_stable pre b rest : stable_result (bitTorrentRest (pre ++ [b])) (bitTorrentRest (pre ++ [b ++ rest])).
Proof.
  unfold bitTorrentRest. destruct (MultiReader_last 19 pre) as [(bs & pre' & H)|H]; rewrite !H.
  - destruct (negb (bool_decide (bs = take (length bs) bitTorrentHeader))); [by apply stable_reject|].
    destruct (zlen bs <? 19); [split; [done|by left]|done].
  - destruct b as [|c b]; [split; [done|by left]|]. cbn [app]. pose proof (take_prefix 19 (c :: b) rest) as Hp. cbn [app] in Hp.
    destruct (decide (take 19 (c :: b) = take (length (take 19 (c :: b))) bitTorrentHeader)) as [He|Hne].
    + rewrite (bool_decide_eq_true_2 (take 19 (c :: b) = _)) by done. cbn [negb].
      destruct (Z.ltb_spec (zlen (take 19 (c :: b))) 19) as [|Hl]; [split; [done|by left]|].
      assert (take 19 (c :: b ++ rest) = take 19 (c :: b)) as ->.
      { destruct Hp as [q Hq]. assert (length (take 19 (c :: b ++ rest)) <= 19)%nat as Hle by (rewrite length_take; lia).
        rewrite Hq, length_app in Hle. unfold zlen in Hl. rewrite Hq. destruct q; [by rewrite app_nil_r|cbn [length] in Hle; lia]. }
      rewrite bool_decide_eq_true_2 by done. cbn [negb]. by rewrite (proj2 (Z.ltb_ge _ _)).
    + rewrite (bool_decide_eq_false_2 (take 19 (c :: b) = _)) by done. cbn [negb].
      rewrite bool_decide_eq_false_2; [by apply stable_reject|]. by apply (prefix_mismatch bitTorrentHeader (take 19 (c :: b))).
Qed.

Lemma checkBitTorrent_stable pre b rest : stable_result (checkBitTorrent (pre ++ [b])) (checkBitTorrent (pre ++ [b ++ rest])).
Proof.
  unfold checkBitTorrent. fold (bitTorrentRest). destruct (MultiReader_last 1 pre) as [(bs & pre' & H)|H]; rewrite !H.
  - destruct bs as [|first bs]; [split; [done|by left]|]. destruct (negb (Z_of_byte first =? 19)); [by apply stable_reject|].
    apply bitTorrentRest_stable.
  - destruct b as [|c b]; [split; [done|by left]|]. cbn [app take drop].
    destruct (negb (Z_of_byte c =? 19)); [by apply stable_reject|]. apply (bitTorrentRest_stable []).
Qed.

Lemma last_buffer (readers : list (list byte)) : readers = [] \/ exists pre b, readers = pre ++ [b].
Proof. destruct readers as [|b pre _] using rev_ind; [by left|right; by eexists _, _]. Qed.

#[export] Instance BitTorrent_stable : StableSniffer BitTorrent.
Proof.
  split; unfold BitTorrent.
  - intros readers md. destruct (last_buffer readers) as [->|(pre & b & ->)]; [done|].
    pose proof (checkBitTorrent_stable pre b []) as H. by destruct (checkBitTorrent (pre ++ [b])); [|destruct H|].
  - intros readers md e. by destruct (checkBitTorrent readers).
  - intros pre b rest md. unfold accepts. pose proof (checkBitTorrent_stable pre b rest) as H.
    destruct (checkBitTorrent (pre ++ [b])); [|done..]. by rewrite H.
  - intros pre b rest md (e & He & Hn). pose proof (checkBitTorrent_stable pre b rest) as H.
    destruct (checkBitTorrent (pre ++ [b])) as [|e'|]; [done| |done]. injection He as ->.
    destruct H as [_ [H|(e'' & -> & H)]]; [congruence|]. by exists e''.
Qed.

(** ** DNS over a stream *)

(** The DNS, HTTP and TLS libraries return a message or an error. *)
Class SniffEnvLaws `{SniffEnv} := {
  Unpack_returns packet : returns (Unpack packet);
  ReadRequest_returns bs : returns (http_ReadRequest bs);
  Handshake_returns bs : returns (snd (tls_Handshake bs));
}.

Lemma dnsHeaderRejected_extend p q : dnsHeaderRejected p = true -> dnsHeaderRejected (p ++ q) = true.
Proof.
  unfold dnsHeaderRejected. rewrite zlen_app. pose proof (zlen_nonneg q).
  assert (forall k : nat, Z.of_nat k < zlen p -> (p ++ q) !! k = p !! k) as Hk by (intros k Hk; apply lookup_app_l; unfold zlen in Hk; lia).
  assert (forall k : nat, (Z.of_nat k <? zlen p) = true -> (Z.of_nat k <? zlen p + zlen q) = true) as Hl
    by (intros k; rewrite !Z.ltb_lt; lia).
  rewrite !orb_true_iff, !andb_true_iff, !existsb_exists. intros [[[H1 H2]|[[H1 H2] H3]]|(k & Hin & Hk')].
  - left; left. split; [by apply (Hl 2%nat)|]. rewrite Hk by (by apply Z.ltb_lt). done.
  - left; right. apply Z.ltb_lt in H1. rewrite !Hk by lia. split; [split; [apply Z.ltb_lt; lia|done]|done].
  - right. exists k. split; [done|]. apply andb_true_iff in Hk' as [H1 H2]. rewrite (Hl k H1). rewrite Hk by (by apply Z.ltb_lt). done.
Qed.

Section Dns.
Context `{SL : SniffEnvLaws}.

Lemma DomainNameQuery_returns packet md : returns (snd (DomainNameQuery packet md)) /\ s_Context (fst (DomainNameQuery packet md)) = s_Context md.
Proof. unfold DomainNameQuery. pose proof (Unpack_returns packet). destruct (Unpack packet); [|by split..]. by destruct (_ || _). Qed.

Lemma DomainNameQuery_unchanged packet md e : snd (DomainNameQuery packet md) = Err e -> fst (DomainNameQuery packet md) = md.
Proof. unfold DomainNameQuery. destruct (Unpack packet); [|done..]. by destruct (_ || _). Qed.

(** The outcomes on a stream and on a longer one. *)
Lemma StreamDomainNameQuery_cases readers rest md :
  returns (snd (StreamDomainNameQuery readers md)) /\
  (forall e, snd (StreamDomainNameQuery readers md) = Err e -> fst (StreamDomainNameQuery readers md) = md) /\
  (rejects (StreamDomainNameQuery readers md) \/ accepts (StreamDomainNameQuery readers md) ->
   forall readers', stream readers' = stream readers ++ rest ->
   (rejects (StreamDomainNameQuery readers md) -> rejects (StreamDomainNameQuery readers' md)) /\
   (accepts (StreamDomainNameQuery readers md) -> StreamDomainNameQuery readers' md = StreamDomainNameQuery readers md)).
Proof.
  unfold StreamDomainNameQuery. pose proof (final_ReadUint16 (stream readers) rest) as Hf.
  destruct (more ReadUint16 (stream readers)) as [[len i]|e|m]; [|destruct Hf as [He Hf]|done].
  - destruct (len <? 12) eqn:E12.
    { split; [done|]. split; [done|]. intros _ readers' ->. rewrite Hf, E12. split; [done|]. by intros [=]. }
    pose proof (take_prefix (Z.to_nat len) i rest) as [q Hq].
    destruct (dnsHeaderRejected (take (Z.to_nat len) i)) eqn:Er.
    { split; [done|]. split; [done|]. intros _ readers' ->. rewrite Hf, E12, Hq, (dnsHeaderRejected_extend _ q Er). split; [done|]. by intros [=]. }
    destruct (Z.ltb_spec (zlen (take (Z.to_nat len) i)) len) as [Hs|Hl].
    { split; [done|]. split; [done|]. intros [(e & [= <-] & Hn)|Ha]; [|done]. exfalso. revert Hn. by destruct (_ =? 0). }
    split; [apply DomainNameQuery_returns|]. split; [apply DomainNameQuery_unchanged|]. intros _ readers' ->.
    assert (take (Z.to_nat len) (i ++ rest) = take (Z.to_nat len) i) as Hsame.
    { rewrite Hq. assert (length (take (Z.to_nat len) (i ++ rest)) <= Z.to_nat len)%nat as Hle by (rewrite length_take; lia).
      rewrite Hq, length_app in Hle. unfold zlen in Hl. destruct q; [by rewrite app_nil_r|]. cbn [length] in Hle.
      pose proof (zlen_nonneg i). lia. }
    rewrite Hf, E12, Hsame, Er, (proj2 (Z.ltb_ge _ _)) by done. by split.
  - split; [done|]. split; [done|]. intros [(e' & [= <-] & Hn)|Ha]; [|done]. intros readers' ->.
    destruct Hf as [Hf|[_ (e' & -> & He')]]; [congruence|]. split; [intros _; by exists e'|]. by intros [=].
Qed.

#[export] Instance StreamDomainNameQuery_stable : StableSniffer StreamDomainNameQuery.
Proof.
  split.
  - intros readers md. apply (StreamDomainNameQuery_cases readers []).
  - intros readers md e. apply (StreamDomainNameQuery_cases readers []).
  - intros pre b rest md Ha. destruct (StreamDomainNameQuery_cases (pre ++ [b]) rest md) as (_ & _ & Hd).
    destruct (Hd (or_intror Ha) _ (stream_last pre b rest)) as [_ ->]; [|done]. by split.
  - intros pre b rest md Hr. destruct (StreamDomainNameQuery_cases (pre ++ [b]) rest md) as (_ & _ & Hd).
    by apply (Hd (or_introl Hr) _ (stream_last pre b rest)).
Qed.

End Dns.

(** ** Packet sniffers *)

(** Returns, and leaves the fragments kept for QUIC as they should be. *)
Class PacketSnifferOk (s : PacketSniffer) : Prop :=
  { packet_returns packet md : context_ok md -> returns (snd (s packet md)) /\ context_ok (fst (s packet md)) }.

Lemma decide_with_ok {A} (check : list byte -> result A) p : (forall packet, returns (check packet)) ->
  PacketSnifferOk (fun packet md => decide_with (check packet) (set_Protocol p) md).
Proof. intros H. split. intros packet md Hc. specialize (H packet). unfold decide_with. by destruct (check packet). Qed.

Lemma ReadUint8_result i : match ReadUint8 i with Ok (v, o) => 0 <= v /\ (length o < length i)%nat | Err e => e <> OutOfFuel | Panic _ => False end.
Proof.
  destruct i as [|b i]; [done|]. unfold ReadUint8, rbind, ReadFull. rewrite zlen_cons. pose proof (zlen_nonneg i).
  rewrite (proj2 (Z.leb_le _ _)) by lia. change (take (Z.to_nat 1) (b :: i)) with [b]. change (drop (Z.to_nat 1) (b :: i)) with i.
  cbn [rret length]. assert (be_decode [b] = Z_of_byte b) as -> by (unfold be_decode; cbn [be_decode_acc]; by rewrite Z.shiftl_0_l, Z.lor_0_l).
  pose proof (Z_of_byte_range b). lia.
Qed.

Lemma utp_extensions_returns fuel : forall extension i, (length i < fuel)%nat -> returns (utp_extensions fuel extension i).
Proof.
  induction fuel as [|fuel IH]; intros extension i Hf; [lia|]. cbn [utp_extensions]. destruct (extension =? 0); [exact I|].
  pose proof (ReadUint8_result i) as H1. destruct (ReadUint8 i) as [[e i1]| |]; [|done..]. cbn [bind_result]. destruct (4 <? e); [done|].
  pose proof (ReadUint8_result i1) as H2. destruct (ReadUint8 i1) as [[n i2]| |]; [|done..]. cbn [bind_result].
  apply IH. rewrite length_drop. lia.
Qed.

#[export] Instance UTP_ok : PacketSnifferOk UTP.
Proof. apply decide_with_ok. intros packet. unfold checkUTP. repeat returns_step. apply utp_extensions_returns. lia. Qed.

#[export] Instance UDPTracker_ok : PacketSnifferOk UDPTracker.
Proof. apply decide_with_ok. intros packet. unfold checkUDPTracker, trackerConnectMinSize. repeat returns_step. Qed.

#[export] Instance DTLSRecord_ok : PacketSnifferOk DTLSRecord.
Proof.
  apply decide_with_ok. intros packet. unfold checkDTLSRecord. repeat returns_step.
  destruct (negb (v1 =? 255) && negb (v1 =? 253)); [done|exact I].
Qed.

#[export] Instance NTP_ok : PacketSnifferOk NTP.
Proof.
  apply decide_with_ok. intros packet. unfold checkNTP. repeat returns_step.
  match goal with |- returns (if ?b then _ else _) => destruct b end; [done|]. repeat returns_step.
Qed.

#[export] Instance STUNMessage_ok : PacketSnifferOk STUNMessage.
Proof. apply decide_with_ok. intros packet. unfold checkSTUN. repeat returns_step. Qed.

#[export] Instance QUICClientHello_ok `{QuicCryptoLaws} : PacketSnifferOk QUICClientHello.
Proof. split. apply QUICClientHello_returns. Qed.

#[export] Instance DomainNameQuery_ok `{SniffEnvLaws} : PacketSnifferOk DomainNameQuery.
Proof.
  split. intros packet md Hc. destruct (DomainNameQuery_returns packet md) as [H1 H2]. split; [done|]. unfold context_ok in *. by rewrite H2.
Qed.

Lemma trySniffers_returns sniffers packet : Forall PacketSnifferOk sniffers -> forall md err, context_ok md ->
  context_ok (fst (trySniffers sniffers packet md err)) /\
  match snd (trySniffers sniffers packet md err) with
  | Accepted => True
  | Failed err' => (err <> Some OutOfFuel -> err' <> Some OutOfFuel)
  | Crashed _ => False
  end.
Proof.
  induction 1 as [|s sniffers Hs _ IH]; intros md err Hc; cbn [trySniffers]; [split; [exact Hc|cbn; auto]|].
  destruct (packet_returns packet md Hc) as [Hr Hc']. destruct (s packet md) as [md' [|e|]]; cbn [fst snd] in *; [done| |done].
  specialize (IH md' (Some (Errors2 err e)) Hc'). destruct IH as [H1 H2]. split; [done|].
  destruct (snd (trySniffers _ _ _ _)); [done| |done]. intros _. apply H2. destruct err; cbn; [discriminate|]. intros [= ->]. by apply Hr.
Qed.

Lemma PeekPacket_returns sniffers packet md : Forall PacketSnifferOk sniffers -> context_ok md ->
  returns (snd (PeekPacket packet md sniffers)) /\ context_ok (fst (PeekPacket packet md sniffers)).
Proof.
  intros Hs Hc. destruct (trySniffers_returns sniffers packet Hs md None Hc) as [H1 H2]. unfold PeekPacket.
  destruct (trySniffers sniffers packet md None) as [md' [|[e|]|m]]; cbn [fst snd] in *; try by split. split; [|done].
  specialize (H2 ltac:(done)). intros ->. done.
Qed.

(** ** The stream sniffers of the program *)

Section Peeking.
Context `{SE : SniffEnv} `{SEL : !SniffEnvLaws}.

#[export] Instance TLSClientHello_ok : StreamSnifferOk TLSClientHello.
Proof.
  split; intros readers md; unfold TLSClientHello; pose proof (Handshake_returns (stream readers));
    destruct (tls_Handshake _) as [[name|] [|e|]]; try done. cbn. by destruct (errors_Is e ErrUnexpectedEOF).
Qed.

#[export] Instance HTTPHost_ok : StreamSnifferOk HTTPHost.
Proof.
  split; intros readers md; unfold HTTPHost; pose proof (ReadRequest_returns (stream readers));
    destruct (http_ReadRequest _) as [|e|]; try done. cbn. by destruct (errors_Is e ErrUnexpectedEOF).
Qed.

(** The default list of actionSniff, and those of it that decide on a prefix. *)
Definition allStreamSniffers : list StreamSniffer := [TLSClientHello; HTTPHost; StreamDomainNameQuery; BitTorrent; SSH; RDP].
Definition prefixSniffers : list StreamSniffer := [StreamDomainNameQuery; BitTorrent; SSH; RDP].

Lemma prefixSniffers_stable s : s ∈ prefixSniffers -> StableSniffer s.
Proof.
  intros Hs. unfold prefixSniffers in Hs. repeat (apply elem_of_cons in Hs as [->|Hs]; [apply _|]). by apply elem_of_nil in Hs.
Qed.

Lemma allStreamSniffers_ok sniffers : sniffers ⊆ allStreamSniffers -> Forall StreamSnifferOk sniffers.
Proof.
  intros Hsub. apply Forall_forall. intros s Hs%Hsub. unfold allStreamSniffers in Hs.
  repeat (apply elem_of_cons in Hs as [->|Hs]; [apply _|]). by apply elem_of_nil in Hs.
Qed.

(** C21: what [PeekStream] answers, for any list of the program's stream sniffers
    and whatever the reads into which the connection cuts the stream.  Success
    means, unless the list is empty, that a sniffer of the list recognises what was
    read; if it is the SSH,
    RDP, BitTorrent or DNS sniffer it keeps recognising the stream, as the same
    protocol, with any bytes that follow.  An error means that the metadata is
    unchanged and that every sniffer of the list rejects what was read, those four
    also with any bytes that follow, unless the connection was read until it
    failed.  (The TLS and HTTP sniffers rely on parsers outside the program that may
    decide otherwise on more bytes; that these parsers return is assumed.)  The bytes that were read are kept for the
    outbound, in order, and there is no panic. *)
Theorem peek_stream_verdict (sniffers : list StreamSniffer) buffers events md md' buffer rest r :
  sniffers ⊆ allStreamSniffers -> PeekStream sniffers buffers events md = (md', buffer, rest, r) ->
  payload events = buffer ++ payload rest /\
  match r with
  | Ok _ => sniffers = [] \/ exists s, s ∈ sniffers /\ s (buffers ++ [buffer]) md = (md', Ok tt) /\
      (s ∈ prefixSniffers -> forall following, accepts (s (buffers ++ [buffer ++ following]) md) /\
         s_Protocol (fst (s (buffers ++ [buffer ++ following]) md)) = s_Protocol md')
  | Err e =>
      md' = md /\ (read_until_failure events rest \/ forall s, s ∈ sniffers -> rejects (s (buffers ++ [buffer]) md) /\
        (s ∈ prefixSniffers -> forall following, rejects (s (buffers ++ [buffer ++ following]) md)))
  | Panic _ => False
  end.
Proof.
  intros Hs H. apply allStreamSniffers_ok in Hs. apply (PeekStream_loop_spec _ _ _ Hs) in H as [Hb H]; [|lia].
  split; [done|]. destruct r as [u|e|m]; [| |done].
  - destruct H as [->|(s & Hin & He)]; [by left|]. right. exists s. split; [done|]. split; [done|].
    intros Hst%prefixSniffers_stable following.
    destruct (stable_accepts buffers buffer following md) as [H1 H2]; [unfold accepts; by rewrite He|]. split; [done|]. by rewrite H2, He.
  - destruct H as [-> [H|H]]; (split; [done|]); [by left|]. right. intros s Hin. split; [by apply H|].
    intros Hst%prefixSniffers_stable following. by apply stable_rejects, H.
Qed.
End Peeking.

(** ** Where the sniffers depart from their purpose *)

(** A DNS response, or a message without a question, is no DNS query, but the
    sniffer returns without an error: the sniffers behind it are not asked and
    the sniffing counts as a success without a protocol. *)
Lemma dns_response_ends_sniffing `{SniffEnv} packet msg md rest :
  Unpack packet = Ok msg -> Msg_Response msg = true -> PeekPacket packet md (DomainNameQuery :: rest) = (md, Ok tt).
Proof. intros Hu Hr. unfold PeekPacket. cbn [trySniffers]. unfold DomainNameQuery. by rewrite Hu, Hr. Qed.

(** The BitTorrent sniffer reads its header with a single [Read], which does
    not cross the border of two buffers: a header that an earlier sniff action
    left cut in two is not recognised, although all of it is there. *)
Lemma bittorrent_header_in_two_buffers md :
  let a := x13 :: bytes_of_string "BitTorr" in let b := bytes_of_string "ent protocol" in
  snd (BitTorrent [a; b] md) = Err ErrNeedMoreData /\ snd (BitTorrent [a ++ b] md) = Ok tt.
Proof. split; by_compute. Qed.

(** The SSH sniffer takes the version up to the end of what has arrived, which
    need not be the end of the line. *)
Lemma ssh_client_cut_short md :
  s_Client (fst (SSH [bytes_of_string "SSH-2.0-Open"] md)) = "Open" /\ snd (SSH [bytes_of_string "SSH-2.0-Open"] md) = Ok tt.
Proof. split; by_compute. Qed.

(** ** Witnesses *)

Module SniffDemo.

#[export] Instance env : SniffEnv := {|
  Unpack := fun packet => if zlen packet <? 12 then Err (ENew "dns: overflow unpacking uint16")
                          else Ok (mkMsg 0 false false true false 0 [mkQuestion "example.org." 1 1] [] [] []);
  http_ReadRequest := fun _ => Err (ENew "malformed HTTP request");
  ParseSocksaddr_AddrString := fun s => s;
  tls_Handshake := fun _ => (None, Err (ENew "tls: first record does not look like a TLS handshake"));
|}.

#[export] Instance env_laws : SniffEnvLaws.
Proof. by constructor; [intros packet; unfold Unpack, env; destruct (_ <? 12)|..]. Qed.

Definition md0 : SniffData := mkSniffData "" "" "" None.

(** A banner in two reads. *)
Definition events : list ReadEvent := [Data (bytes_of_string "SSH-"); Data (bytes_of_string "2.0-Go" ++ [x0d; x0a]); Data (bytes_of_string "x")].

Lemma peek_stream_verdict_witness : exists s, s ∈ allStreamSniffers /\
  s ([] ++ [bytes_of_string "SSH-2.0-Go" ++ [x0d; x0a]]) md0 = (mkSniffData "ssh" "" "Go" None, Ok tt).
Proof.
  destruct (peek_stream_verdict allStreamSniffers [] events md0 (mkSniffData "ssh" "" "Go" None) (bytes_of_string "SSH-2.0-Go" ++ [x0d; x0a])
    [Data (bytes_of_string "x")] (Ok tt) ltac:(done) ltac:(by_compute)) as [_ [H|(s & Hin & H & _)]]; [discriminate H|].
  exists s. split; [exact Hin|exact H].
Defined.

End SniffDemo.
