(* ===== verification/Metadata.v ===== *)
(** * Connection metadata and the environment of the rules

    [InboundContext] (adapter/inbound.go) is the record a rule is matched
    against.  The record below has the fields the modelled code reads or
    writes; the fields it never touches (timeouts, TLS options, sniffer
    bookkeeping, ...) are left out.  A Go struct copy
    ([nestedMetadata := *metadata]) is the value itself; the methods that
    write through the pointer are functions returning the new record.

    The environment is split in two.  [GoEnv] collects code that is not in
    this repository (sing's address and domain helpers, netipx, miekg/dns,
    regexp, the text helpers whose Unicode tables are not modelled): every
    definition and theorem is parametric in it.  [RuntimeState] is the
    snapshot of the services an item consults while matching (network
    manager, interface monitor, clash server). *)
From Stdlib Require Import ZArith Lia Bool.
From S2P Require Import Prelude GoIO DnsMsg.

(** ** [net/netip] *)

Inductive Addr :=
| AddrInvalid                       (* netip.Addr{} *)
| Addr4 (v : Z)                     (* 32-bit value *)
| Addr6 (v : Z) (zone : string).    (* 128-bit value *)

#[export] Instance Addr_eq_dec : EqDecision Addr.
Proof. solve_decision. Defined.

Definition Addr_IsValid (a : Addr) : bool :=
  match a with AddrInvalid => false | _ => true end.

Definition Addr_Is4 (a : Addr) : bool :=
  match a with Addr4 _ => true | _ => false end.

Definition Addr_Is6 (a : Addr) : bool :=
  match a with Addr6 _ _ => true | _ => false end.

(** [Next]: the invalid address after the last one. *)
Definition Addr_Next (a : Addr) : Addr :=
  match a with
  | AddrInvalid => AddrInvalid
  | Addr4 v => if v + 1 =? 2 ^ 32 then AddrInvalid else Addr4 (v + 1)
  | Addr6 v z => if v + 1 =? 2 ^ 128 then AddrInvalid else Addr6 (v + 1) z
  end.

Definition Addr_BitLen (a : Addr) : Z :=
  match a with AddrInvalid => 0 | Addr4 _ => 32 | Addr6 _ _ => 128 end.

Definition Addr_withoutZone (a : Addr) : Addr :=
  match a with Addr6 v _ => Addr6 v "" | _ => a end.

(** [Unmap]: a v4-mapped v6 address (::ffff:a.b.c.d) becomes the v4 address. *)
Definition Addr_Unmap (a : Addr) : Addr :=
  match a with
  | Addr6 v _ => if Z.shiftr v 32 =? 65535 then Addr4 (Z.land v (2 ^ 32 - 1)) else a
  | _ => a
  end.

Definition Addr_AsSlice (a : Addr) : list byte :=
  match a with
  | AddrInvalid => []
  | Addr4 v => be_encode 4 v
  | Addr6 v _ => be_encode 16 v
  end.

(** A [netip.Prefix]; an invalid prefix has [prefix_bits = -1]. *)
Record Prefix := mkPrefix { prefix_addr : Addr; prefix_bits : Z }.

#[export] Instance Prefix_eq_dec : EqDecision Prefix.
Proof. solve_decision. Defined.

Definition PrefixFrom (ip : Addr) (bits : Z) : Prefix :=
  {| prefix_addr := Addr_withoutZone ip;
     prefix_bits := if Addr_IsValid ip && (0 <=? bits) && (bits <=? Addr_BitLen ip) then bits else -1 |}.

Definition Prefix_IsValid (p : Prefix) : bool := 0 <=? prefix_bits p.

(** The address with all but the first [bits] bits cleared ([Addr.Prefix]). *)
Definition Addr_mask (a : Addr) (bits : Z) : Addr :=
  match a with
  | AddrInvalid => AddrInvalid
  | Addr4 v => Addr4 (Z.shiftl (Z.shiftr v (32 - bits)) (32 - bits))
  | Addr6 v _ => Addr6 (Z.shiftl (Z.shiftr v (128 - bits)) (128 - bits)) ""
  end.

(** [Prefix.Contains]: an address of the same family, without zone, whose
    masked value is that of the prefix. *)
Definition Prefix_Contains (p : Prefix) (a : Addr) : bool :=
  Prefix_IsValid p && match prefix_addr p, a with
  | Addr4 _, Addr4 _ => bool_decide (Addr_mask (prefix_addr p) (prefix_bits p) = Addr_mask a (prefix_bits p))
  | Addr6 _ _, Addr6 _ z =>
      String.eqb z "" && bool_decide (Addr_mask (prefix_addr p) (prefix_bits p) = Addr_mask a (prefix_bits p))
  | _, _ => false
  end.

Definition Prefix_Overlaps (p o : Prefix) : bool :=
  if negb (Prefix_IsValid p) || negb (Prefix_IsValid o) then false
  else if decide (p = o) then true
  else if negb (Bool.eqb (Addr_Is4 (prefix_addr p)) (Addr_Is4 (prefix_addr o))) then false
  else
    let minBits := Z.min (prefix_bits p) (prefix_bits o) in
    if minBits =? 0 then true
    else bool_decide (Addr_mask (prefix_addr p) minBits = Addr_mask (prefix_addr o) minBits).

(** ** Third-party records whose fields the code reads *)

(** [M.Socksaddr]. *)
Record Socksaddr := mkSocksaddr { Socksaddr_Addr : Addr; Socksaddr_Port : Z; Socksaddr_Fqdn : string }.

(** [netipx.IPSet], at the layout common/srs relies on: a list of ranges. *)
Abbreviation IPRange := (Addr * Addr)%type.
Abbreviation IPSet := (list IPRange).

#[export] Instance Addr_countable : Countable Addr.
Proof.
  refine (inj_countable' (fun a => match a with AddrInvalid => inl tt | Addr4 v => inr (inl v) | Addr6 v z => inr (inr (v, z)) end)
    (fun s => match s with inl _ => AddrInvalid | inr (inl v) => Addr4 v | inr (inr (v, z)) => Addr6 v z end) _).
  by intros [].
Defined.

(** ** Code outside this repository *)

Class GoEnv := {
  Matcher : Type;                                   (* sing domain.Matcher *)
  AdGuardMatcher : Type;                            (* sing domain.AdGuardMatcher *)
  Regexp : Type;                                    (* regexp.Regexp *)
  NewMatcher : list string -> list string -> bool -> Matcher;
  Matcher_Match : Matcher -> string -> bool;
  NewAdGuardMatcher : list string -> AdGuardMatcher;
  AdGuardMatcher_Match : AdGuardMatcher -> string -> bool;
  regexp_Compile : string -> result Regexp;
  MatchString : Regexp -> string -> bool;
  IPSet_Contains : IPSet -> Addr -> bool;           (* netipx.IPSet.Contains *)
  ParsePrefix : string -> result Prefix;            (* netip.ParsePrefix *)
  ParseAddr : string -> result Addr;                (* netip.ParseAddr *)
  (* netipx.IPSetBuilder: the prefixes and addresses added, then IPSet() *)
  IPSetBuilder_IPSet : list (Prefix + Addr) -> result IPSet;
  AddrFromIP : list byte -> Addr;                   (* sing M.AddrFromIP *)
  Socksaddr_IsIP : Socksaddr -> bool;
  Socksaddr_IsIPv6 : Socksaddr -> bool;
  IsPublicAddr : Addr -> bool;                      (* sing N.IsPublicAddr *)
  strings_ToLower : string -> string;
  strings_EqualFold : string -> string -> bool;
  strings_TrimSpace : string -> string;
  ParseMAC : string -> result (list byte);          (* net.ParseMAC *)
  hex_DecodeString : string -> result (list byte);
  HardwareAddr_String : list byte -> string;        (* net.HardwareAddr.String *)
  filepath_Base : string -> string;
  IsDuplicate : RR -> RR -> bool;         (* miekg/dns *)
  CanonicalName : string -> string;
}.

(** ** The services consulted while matching *)

Record Interface := mkInterface { iface_Name : string; iface_Addresses : list Prefix }.

(** [adapter.NetworkInterface]; [ni_Type] is a [C.InterfaceType]. *)
Record NetworkInterface := mkNetworkInterface {
  ni_Interface : Interface;
  ni_Type : Z;
  ni_Expensive : bool;
  ni_Constrained : bool;
}.

Record RuntimeState := mkRuntimeState {
  DefaultNetworkInterface : option NetworkInterface;
  NetworkInterfaces : list NetworkInterface;
  MyInterfaces : list string;                 (* InterfaceMonitor().MyInterfaces() *)
  MonitorDefaultInterface : option Interface; (* InterfaceMonitor().DefaultInterface() *)
  FinderInterfaces : list Interface;          (* InterfaceFinder().Interfaces() *)
  WIFIState_SSID : string;
  WIFIState_BSSID : string;
  ClashServer_Mode : option string;           (* None: no clash server *)
}.

(** [adapter.ConnectionOwner]. *)
Record ConnectionOwner := mkConnectionOwner {
  UserId : Z;
  UserName : string;
  ProcessPath : string;
}.

(** ** [adapter.InboundContext] *)

Record InboundContext := mkInboundContext {
  Inbound : string;
  IPVersion : Z;
  Network : string;
  Source : Socksaddr;
  Destination : Socksaddr;
  User : string;
  Outbound : string;
  Protocol : string;
  Domain : string;
  Client : string;
  DestinationAddresses : list Addr;
  DNSResponse : option Msg;
  DestinationAddressMatchFromResponse : bool;
  ProcessInfo : option ConnectionOwner;
  SourceMACAddress : option (list byte);
  SourceHostname : string;
  QueryType : Z;
  IPCIDRMatchSource : bool;
  IPCIDRAcceptEmpty : bool;
  SourceAddressMatch : bool;
  SourcePortMatch : bool;
  DestinationAddressMatch : bool;
  DestinationPortMatch : bool;
  DidMatch : bool;
  IgnoreDestinationIPCIDRMatch : bool;
}.

(** [metadata.DidMatch = b] *)
Definition set_DidMatch (b : bool) (c : InboundContext) : InboundContext :=
  {| Inbound := Inbound c; IPVersion := IPVersion c; Network := Network c; Source := Source c;
     Destination := Destination c; User := User c; Outbound := Outbound c; Protocol := Protocol c;
     Domain := Domain c; Client := Client c; DestinationAddresses := DestinationAddresses c;
     DNSResponse := DNSResponse c;
     DestinationAddressMatchFromResponse := DestinationAddressMatchFromResponse c;
     ProcessInfo := ProcessInfo c; SourceMACAddress := SourceMACAddress c;
     SourceHostname := SourceHostname c; QueryType := QueryType c;
     IPCIDRMatchSource := IPCIDRMatchSource c; IPCIDRAcceptEmpty := IPCIDRAcceptEmpty c;
     SourceAddressMatch := SourceAddressMatch c; SourcePortMatch := SourcePortMatch c;
     DestinationAddressMatch := DestinationAddressMatch c; DestinationPortMatch := DestinationPortMatch c;
     DidMatch := b; IgnoreDestinationIPCIDRMatch := IgnoreDestinationIPCIDRMatch c |}.

(** [metadata.IPCIDRMatchSource, metadata.IPCIDRAcceptEmpty = src, empty] *)
Definition set_IPCIDRFlags (src empty : bool) (c : InboundContext) : InboundContext :=
  {| Inbound := Inbound c; IPVersion := IPVersion c; Network := Network c; Source := Source c;
     Destination := Destination c; User := User c; Outbound := Outbound c; Protocol := Protocol c;
     Domain := Domain c; Client := Client c; DestinationAddresses := DestinationAddresses c;
     DNSResponse := DNSResponse c;
     DestinationAddressMatchFromResponse := DestinationAddressMatchFromResponse c;
     ProcessInfo := ProcessInfo c; SourceMACAddress := SourceMACAddress c;
     SourceHostname := SourceHostname c; QueryType := QueryType c;
     IPCIDRMatchSource := src; IPCIDRAcceptEmpty := empty;
     SourceAddressMatch := SourceAddressMatch c; SourcePortMatch := SourcePortMatch c;
     DestinationAddressMatch := DestinationAddressMatch c; DestinationPortMatch := DestinationPortMatch c;
     DidMatch := DidMatch c; IgnoreDestinationIPCIDRMatch := IgnoreDestinationIPCIDRMatch c |}.

(** [metadata.IgnoreDestinationIPCIDRMatch = b] *)
Definition set_IgnoreDestinationIPCIDRMatch (b : bool) (c : InboundContext) : InboundContext :=
  {| Inbound := Inbound c; IPVersion := IPVersion c; Network := Network c; Source := Source c;
     Destination := Destination c; User := User c; Outbound := Outbound c; Protocol := Protocol c;
     Domain := Domain c; Client := Client c; DestinationAddresses := DestinationAddresses c;
     DNSResponse := DNSResponse c;
     DestinationAddressMatchFromResponse := DestinationAddressMatchFromResponse c;
     ProcessInfo := ProcessInfo c; SourceMACAddress := SourceMACAddress c;
     SourceHostname := SourceHostname c; QueryType := QueryType c;
     IPCIDRMatchSource := IPCIDRMatchSource c; IPCIDRAcceptEmpty := IPCIDRAcceptEmpty c;
     SourceAddressMatch := SourceAddressMatch c; SourcePortMatch := SourcePortMatch c;
     DestinationAddressMatch := DestinationAddressMatch c; DestinationPortMatch := DestinationPortMatch c;
     DidMatch := DidMatch c; IgnoreDestinationIPCIDRMatch := b |}.

(** [metadata.DNSResponse = response; metadata.DestinationAddressMatchFromResponse = true] *)
Definition set_ResponseMatch (response : option Msg) (c : InboundContext) : InboundContext :=
  {| Inbound := Inbound c; IPVersion := IPVersion c; Network := Network c; Source := Source c;
     Destination := Destination c; User := User c; Outbound := Outbound c; Protocol := Protocol c;
     Domain := Domain c; Client := Client c; DestinationAddresses := DestinationAddresses c;
     DNSResponse := response;
     DestinationAddressMatchFromResponse := true;
     ProcessInfo := ProcessInfo c; SourceMACAddress := SourceMACAddress c;
     SourceHostname := SourceHostname c; QueryType := QueryType c;
     IPCIDRMatchSource := IPCIDRMatchSource c; IPCIDRAcceptEmpty := IPCIDRAcceptEmpty c;
     SourceAddressMatch := SourceAddressMatch c; SourcePortMatch := SourcePortMatch c;
     DestinationAddressMatch := DestinationAddressMatch c; DestinationPortMatch := DestinationPortMatch c;
     DidMatch := DidMatch c; IgnoreDestinationIPCIDRMatch := IgnoreDestinationIPCIDRMatch c |}.

Definition ResetRuleMatchCache (c : InboundContext) : InboundContext :=
  {| Inbound := Inbound c; IPVersion := IPVersion c; Network := Network c; Source := Source c;
     Destination := Destination c; User := User c; Outbound := Outbound c; Protocol := Protocol c;
     Domain := Domain c; Client := Client c; DestinationAddresses := DestinationAddresses c;
     DNSResponse := DNSResponse c;
     DestinationAddressMatchFromResponse := DestinationAddressMatchFromResponse c;
     ProcessInfo := ProcessInfo c; SourceMACAddress := SourceMACAddress c;
     SourceHostname := SourceHostname c; QueryType := QueryType c;
     IPCIDRMatchSource := IPCIDRMatchSource c; IPCIDRAcceptEmpty := IPCIDRAcceptEmpty c;
     SourceAddressMatch := false; SourcePortMatch := false;
     DestinationAddressMatch := false; DestinationPortMatch := false;
     DidMatch := false; IgnoreDestinationIPCIDRMatch := IgnoreDestinationIPCIDRMatch c |}.

Definition ResetRuleCache (c : InboundContext) : InboundContext :=
  ResetRuleMatchCache (set_IPCIDRFlags false false c).

(** ** Addresses exposed by a DNS response *)

Section WithEnv.
Context `{GE : GoEnv}.

Definition valid_addrs (addrs : list Addr) : list Addr := List.filter Addr_IsValid addrs.

Definition SVCB_addresses (value : SVCBKeyValue) : list Addr :=
  match value with
  | SVCBIPv4Hint hint => valid_addrs (map (fun ip => Addr_Unmap (AddrFromIP ip)) hint)
  | SVCBIPv6Hint hint => valid_addrs (map AddrFromIP hint)
  | SVCBOther _ _ => []
  end.

Definition RR_addresses (record : RR) : list Addr :=
  match rr_Data record with
  | RD_A a => valid_addrs [AddrFromIP a]
  | RD_AAAA a => valid_addrs [AddrFromIP a]
  | RD_HTTPS value => concat (map SVCB_addresses value)
  | _ => []
  end.

Definition DNSResponseAddresses (response : option Msg) : list Addr :=
  match response with
  | None => []
  | Some msg =>
      if negb (Msg_Rcode msg =? RcodeSuccess) then []
      else concat (map RR_addresses (Msg_Answer msg))
  end.

Definition DNSResponseAddressesForMatch (c : InboundContext) : list Addr :=
  DNSResponseAddresses (DNSResponse c).

(** [adapter.NormalizeWIFIBSSID]. *)
Definition NormalizeWIFIBSSID (bssid : string) : string :=
  let bssid := strings_TrimSpace bssid in
  if String.eqb bssid "" then ""
  else match ParseMAC bssid with
       | Ok parsed =>
           if zlen parsed =? 6 then HardwareAddr_String parsed
           else if Z.of_nat (String.length bssid) =? 12 then
             match hex_DecodeString bssid with
             | Ok decoded => HardwareAddr_String decoded
             | _ => bssid
             end
           else bssid
       | _ =>
           if Z.of_nat (String.length bssid) =? 12 then
             match hex_DecodeString bssid with
             | Ok decoded => HardwareAddr_String decoded
             | _ => bssid
             end
           else bssid
       end.

End WithEnv.

(** ** Lemmas *)

Section Lemmas.
Context `{GE : GoEnv}.

Lemma valid_addrs_valid addrs a : a ∈ valid_addrs addrs -> Addr_IsValid a = true.
Proof. unfold valid_addrs. rewrite list_elem_of_In, filter_In. by intros [_ ?]. Qed.

(** Only valid addresses are exposed to the address rules. *)
Lemma DNSResponseAddresses_valid response a :
  a ∈ DNSResponseAddresses response -> Addr_IsValid a = true.
Proof.
  unfold DNSResponseAddresses. destruct response as [msg|]; [|by intros ?%not_elem_of_nil].
  case_match; [by intros ?%not_elem_of_nil|].
  rewrite list_elem_of_In, in_concat. intros (l & (rr & <- & _)%in_map_iff & Ha).
  unfold RR_addresses in Ha. destruct (rr_Data rr) as [b|b|vs| | | | | |]; try done.
  - apply list_elem_of_In in Ha. by eapply valid_addrs_valid.
  - apply list_elem_of_In in Ha. by eapply valid_addrs_valid.
  - apply in_concat in Ha as (l' & (v & <- & _)%in_map_iff & Ha').
    apply list_elem_of_In in Ha'. destruct v; cbn in Ha'; [by eapply valid_addrs_valid..|].
    by apply not_elem_of_nil in Ha'.
Qed.

End Lemmas.
