(* ===== verification/RuleItem.v ===== *)
(** * Rule items (route/rule/rule_item_*.go, rule_*interface_address.go)

    One constructor of [RuleItem] per item type of the package, holding the
    data its Go struct holds; [Match] is the dispatch of the RuleItem
    interface.  Items built from a list of names keep the Go
    [map[K]bool] as a [gmap]; a missing key reads as false.  [RuleSetItem]
    is not here: it is part of the rule tree (RuleEngine).

    The theorems of this file state what the map-based items, the port
    range parser and the address items decide, independently of the maps
    and loops they are implemented with. *)
From Stdlib Require Import ZArith Lia Bool.
From Stdlib Require Import Ascii.
From S2P Require Import Prelude GoIO DnsMsg Metadata.

(** ** Go helpers *)

(** [map[K]bool] read with the zero value for a missing key. *)
Definition map_get `{Countable K} (m : gmap K bool) (k : K) : bool :=
  match m !! k with Some b => b | None => false end.

(** [for _, x := range xs { m[f(x)] = true }] *)
Definition map_of `{Countable K} (xs : list K) : gmap K bool :=
  fold_left (fun m x => <[x := true]> m) xs ∅.

(** [strings.Index(s, sub) >= 0] *)
Fixpoint strings_Contains (s sub : string) : bool :=
  String.prefix sub s || match s with EmptyString => false | String _ s' => strings_Contains s' sub end.

(** [strings.Index(s, ":")], None for -1. *)
Fixpoint index_colon (s : string) : option nat :=
  match s with
  | EmptyString => None
  | String c s' => if Ascii.eqb c ":"%char then Some O else option_map S (index_colon s')
  end.

(** The value of a decimal digit. *)
Definition digit (c : Ascii.ascii) : option Z :=
  let n := Z.of_nat (Ascii.nat_of_ascii c) in
  if (48 <=? n) && (n <=? 57) then Some (n - 48) else None.

Definition ErrSyntax : go_error := ENew "invalid syntax".
Definition ErrRange : go_error := ENew "value out of range".

(** The digit loop of [strconv.ParseUint(s, 10, bitSize)] (no underscores in
    base 10); [max] is [2^bitSize - 1]. *)
Fixpoint ParseUint_loop (max n : Z) (s : string) : result Z :=
  match s with
  | EmptyString => Ok n
  | String c s' =>
      match digit c with
      | None => Err ErrSyntax
      | Some d => if max <? n * 10 + d then Err ErrRange else ParseUint_loop max (n * 10 + d) s'
      end
  end.

Definition ParseUint (s : string) (bitSize : Z) : result Z :=
  match s with
  | EmptyString => Err ErrSyntax
  | _ => ParseUint_loop (2 ^ bitSize - 1) 0 s
  end.

(** ** Items *)

(** [adapter.OutboundWithPreferredRoutes], what a started PreferredByItem holds. *)
Record PreferredOutbound := mkPreferredOutbound {
  PreferredDomain : string -> bool;
  PreferredAddress : Addr -> bool;
}.

(** [option.DNSRecordOptions]: the record, nil or not. *)
Record DNSRecordOptions := mkDNSRecordOptions { dro_RR : option RR; dro_fromBase64 : bool }.

(** The selectors of the response record items: [dnsResponseAnswers],
    [dnsResponseNS], [dnsResponseExtra]. *)
Inductive ResponseSection := dnsResponseAnswers | dnsResponseNS | dnsResponseExtra.

Definition selectRecords (section : ResponseSection) (message : Msg) : list RR :=
  match section with
  | dnsResponseAnswers => Msg_Answer message
  | dnsResponseNS => Msg_Ns message
  | dnsResponseExtra => Msg_Extra message
  end.

Record rangeItem := mkRangeItem { range_start : Z; range_end : Z }.

Section WithEnv.
Context `{GE : GoEnv}.

Inductive RuleItem :=
| QueryTypeItem (typeMap : gmap Z bool)
| NetworkItem (networkMap : gmap string bool)
| DomainItem (matcher : Matcher)
| DomainKeywordItem (keywords : list string)
| DomainRegexItem (matchers : list Regexp)
| AdGuardDomainItem (matcher : AdGuardMatcher)
| IPCIDRItem (ipSet : IPSet) (isSource : bool)
| IPIsPrivateItem (isSource : bool)
| IPAcceptAnyItem
| IPVersionItem (isIPv6 : bool)
| PortItem (portMap : gmap Z bool) (isSource : bool)
| PortRangeItem (isSource : bool) (portRangeList : list rangeItem)
| ProcessItem (processMap : gmap string bool)
| ProcessPathItem (processMap : gmap string bool)
| ProcessPathRegexItem (matchers : list Regexp)
| UserItem (userMap : gmap string bool)
| UserIdItem (userIdMap : gmap Z bool)
| InboundItem (inboundMap : gmap string bool)
| AuthUserItem (userMap : gmap string bool)
| ProtocolItem (protocolMap : gmap string bool)
| ClientItem (clientMap : gmap string bool)
| OutboundItem (outboundMap : gmap string bool) (matchAny : bool)
| ClashModeItem (mode : string)
| NetworkTypeItem (networkType : list Z)
| NetworkIsExpensiveItem
| NetworkIsConstrainedItem
| WIFISSIDItem (ssidMap : gmap string bool)
| WIFIBSSIDItem (bssidMap : gmap string bool)
| InterfaceAddressItem (interfaceAddresses : gmap string (list Prefix))
| NetworkInterfaceAddressItem (interfaceAddresses : gmap Z (list Prefix))
| DefaultInterfaceAddressItem (interfaceAddresses : list Prefix)
| SourceMACAddressItem (addressMap : gmap string bool)
| SourceHostnameItem (hostnameMap : gmap string bool)
| PreferredByItem (outboundTags : list string) (outbounds : list PreferredOutbound)
| PreferredByDNSItem (transportTags : list string) (transports : list (string -> bool))
| DNSResponseRCodeItem (rcode : Z)
| DNSResponseRecordItem (field : string) (records : list DNSRecordOptions) (selector : ResponseSection).

(** *** Constructors *)

Definition NewQueryTypeItem (typeList : list Z) : RuleItem := QueryTypeItem (map_of (map uint16 typeList)).
Definition NewNetworkItem (networks : list string) : RuleItem := NetworkItem (map_of networks).
Definition NewInboundRule (inbounds : list string) : RuleItem := InboundItem (map_of inbounds).
Definition NewAuthUserItem (users : list string) : RuleItem := AuthUserItem (map_of users).
Definition NewProtocolItem (protocols : list string) : RuleItem := ProtocolItem (map_of protocols).
Definition NewClientItem (clients : list string) : RuleItem := ClientItem (map_of clients).
Definition NewUserItem (users : list string) : RuleItem := UserItem (map_of users).
Definition NewUserIDItem (userIdList : list Z) : RuleItem := UserIdItem (map_of userIdList).
Definition NewProcessItem (names : list string) : RuleItem := ProcessItem (map_of names).
Definition NewProcessPathItem (names : list string) : RuleItem := ProcessPathItem (map_of names).
Definition NewSourceHostnameItem (hostnames : list string) : RuleItem := SourceHostnameItem (map_of hostnames).
Definition NewWIFISSIDItem (ssidList : list string) : RuleItem := WIFISSIDItem (map_of ssidList).
Definition NewWIFIBSSIDItem (bssidList : list string) : RuleItem :=
  WIFIBSSIDItem (map_of (map NormalizeWIFIBSSID bssidList)).
Definition NewPortItem (isSource : bool) (ports : list Z) : RuleItem := PortItem (map_of ports) isSource.

Definition NewSourceMACAddressItem (addressList : list string) : RuleItem :=
  SourceMACAddressItem (map_of (map (fun address =>
    match ParseMAC address with Ok parsed => HardwareAddr_String parsed | _ => address end) addressList)).

Definition NewOutboundRule (outbounds : list string) : RuleItem :=
  let '(m, any) :=
    fold_left (fun '(m, any) outbound =>
      if String.eqb outbound "any" then (m, true) else (<[outbound := true]> m, any))
      outbounds ((∅ : gmap string bool), false) in
  OutboundItem m any.

Definition NewDomainItem (domains domainSuffixes : list string) : result RuleItem :=
  if bool_decide ("" ∈ domains) then Err (ENew "domain: empty item is not allowed")
  else if bool_decide ("" ∈ domainSuffixes) then Err (ENew "domain_suffix: empty item is not allowed")
  else Ok (DomainItem (NewMatcher domains domainSuffixes false)).

Definition NewRawDomainItem (matcher : Matcher) : RuleItem := DomainItem matcher.
Definition NewDomainKeywordItem (keywords : list string) : RuleItem := DomainKeywordItem keywords.
Definition NewAdGuardDomainItem (ruleLines : list string) : RuleItem := AdGuardDomainItem (NewAdGuardMatcher ruleLines).
Definition NewRawAdGuardDomainItem (matcher : AdGuardMatcher) : RuleItem := AdGuardDomainItem matcher.

(** The loop of the regex constructors; [i] is the index of the first expression. *)
Fixpoint compile_regexps (i : Z) (expressions : list string) : result (list Regexp) :=
  match expressions with
  | [] => Ok []
  | regex :: rest =>
      let* matcher := with_cause ("parse expression " +:+ pretty i) (regexp_Compile regex) in
      let* matchers := compile_regexps (i + 1) rest in
      Ok (matcher :: matchers)
  end.

Definition NewDomainRegexItem (expressions : list string) : result RuleItem :=
  let* matchers := compile_regexps 0 expressions in Ok (DomainRegexItem matchers).

Definition NewProcessPathRegexItem (expressions : list string) : result RuleItem :=
  let* matchers := compile_regexps 0 expressions in Ok (ProcessPathRegexItem matchers).

(** The loop of [NewIPCIDRItem] and of [writeRuleItemCIDR]: what is added to
    the IPSetBuilder.  An entry is tried as a prefix, then as an address;
    the error reported is the prefix parser's. *)
Fixpoint parse_cidrs (i : Z) (prefixStrings : list string) : result (list (Prefix + Addr)) :=
  match prefixStrings with
  | [] => Ok []
  | prefixString :: rest =>
      match ParsePrefix prefixString with
      | Ok prefix => let* added := parse_cidrs (i + 1) rest in Ok (inl prefix :: added)
      | Panic s => Panic s
      | Err err =>
          match ParseAddr prefixString with
          | Ok addr => let* added := parse_cidrs (i + 1) rest in Ok (inr addr :: added)
          | Panic s => Panic s
          | Err _ => Err (ECause err ("parse [" +:+ pretty i +:+ "]"))
          end
      end
  end.

Definition NewIPCIDRItem (isSource : bool) (prefixStrings : list string) : result RuleItem :=
  let* added := parse_cidrs 0 prefixStrings in
  let* ipSet := IPSetBuilder_IPSet added in
  Ok (IPCIDRItem ipSet isSource).

Definition NewRawIPCIDRItem (isSource : bool) (ipSet : IPSet) : RuleItem := IPCIDRItem ipSet isSource.

Definition ErrBadPortRange : go_error := ENew "bad port range".

(** One entry of a port range list. *)
Definition parse_port_range (portRange : string) : result rangeItem :=
  match index_colon portRange with
  | None => Err (ECause ErrBadPortRange portRange)
  | Some subIndex =>
      let* start :=
        if (0 <? subIndex)%nat
        then with_cause ("bad port range: " +:+ portRange) (ParseUint (String.substring 0 subIndex portRange) 16)
        else Ok 0 in
      let* end_ :=
        if (subIndex =? String.length portRange - 1)%nat then Ok 65535
        else with_cause ("bad port range: " +:+ portRange)
               (ParseUint (String.substring (subIndex + 1) (String.length portRange - (subIndex + 1)) portRange) 16) in
      Ok {| range_start := uint16 start; range_end := uint16 end_ |}
  end.

Definition NewPortRangeItem (isSource : bool) (rangeList : list string) : result RuleItem :=
  let* portRangeList := map_result parse_port_range rangeList in
  Ok (PortRangeItem isSource portRangeList).

Definition NewIPIsPrivateItem (isSource : bool) : RuleItem := IPIsPrivateItem isSource.
Definition NewIPVersionItem (isIPv6 : bool) : RuleItem := IPVersionItem isIPv6.
Definition NewClashModeItem (mode : string) : RuleItem := ClashModeItem mode.
Definition NewNetworkTypeItem (networkType : list Z) : RuleItem := NetworkTypeItem networkType.

Definition NewIPAcceptAnyItem : RuleItem := IPAcceptAnyItem.
Definition NewDNSResponseRCodeItem (rcode : Z) : RuleItem := DNSResponseRCodeItem rcode.
Definition NewDNSResponseRecordItem (field : string) (records : list DNSRecordOptions) (selector : ResponseSection)
    : RuleItem := DNSResponseRecordItem field records selector.
Definition NewPreferredByItem (outboundTags : list string) : RuleItem := PreferredByItem outboundTags [].
Definition NewPreferredByDNSItem (transportTags : list string) : RuleItem := PreferredByDNSItem transportTags [].

(** The entries of the option's ordered map; a later entry with the same key
    overwrites an earlier one. *)
Definition NewInterfaceAddressItem (entries : list (string * list Prefix)) : RuleItem :=
  InterfaceAddressItem (fold_left (fun m '(k, prefixes) => <[k := prefixes]> m) entries ∅).
Definition NewNetworkInterfaceAddressItem (entries : list (Z * list Prefix)) : RuleItem :=
  NetworkInterfaceAddressItem (fold_left (fun m '(k, prefixes) => <[k := prefixes]> m) entries ∅).
Definition NewDefaultInterfaceAddressItem (prefixes : list Prefix) : RuleItem :=
  DefaultInterfaceAddressItem prefixes.

(** *** Matching *)

(** The host the domain items look at: the sniffed domain if there is one. *)
Definition domainHost (metadata : InboundContext) : string :=
  if negb (String.eqb (Domain metadata) "") then Domain metadata
  else Socksaddr_Fqdn (Destination metadata).

Definition DomainItem_Match (matcher : Matcher) (metadata : InboundContext) : bool :=
  if String.eqb (domainHost metadata) "" then false
  else Matcher_Match matcher (strings_ToLower (domainHost metadata)).

Definition AdGuardDomainItem_Match (matcher : AdGuardMatcher) (metadata : InboundContext) : bool :=
  if String.eqb (domainHost metadata) "" then false
  else AdGuardMatcher_Match matcher (strings_ToLower (domainHost metadata)).

Definition DomainKeywordItem_Match (keywords : list string) (metadata : InboundContext) : bool :=
  if String.eqb (domainHost metadata) "" then false
  else existsb (fun keyword => strings_Contains (strings_ToLower (domainHost metadata)) keyword) keywords.

Definition DomainRegexItem_Match (matchers : list Regexp) (metadata : InboundContext) : bool :=
  if String.eqb (domainHost metadata) "" then false
  else existsb (fun matcher => MatchString matcher (strings_ToLower (domainHost metadata))) matchers.

Definition IPCIDRItem_Match (ipSet : IPSet) (isSource : bool) (metadata : InboundContext) : bool :=
  if isSource || IPCIDRMatchSource metadata then IPSet_Contains ipSet (Socksaddr_Addr (Source metadata))
  else if DestinationAddressMatchFromResponse metadata then
    let addresses := DNSResponseAddressesForMatch metadata in
    if zlen addresses =? 0 then IPCIDRAcceptEmpty metadata
    else existsb (IPSet_Contains ipSet) addresses
  else if Socksaddr_IsIP (Destination metadata) then IPSet_Contains ipSet (Socksaddr_Addr (Destination metadata))
  else if 0 <? zlen (DestinationAddresses metadata) then existsb (IPSet_Contains ipSet) (DestinationAddresses metadata)
  else IPCIDRAcceptEmpty metadata.

Definition IPIsPrivateItem_Match (isSource : bool) (metadata : InboundContext) : bool :=
  if isSource then negb (IsPublicAddr (Socksaddr_Addr (Source metadata)))
  else if DestinationAddressMatchFromResponse metadata then
    existsb (fun a => negb (IsPublicAddr a)) (DNSResponseAddressesForMatch metadata)
  else if Addr_IsValid (Socksaddr_Addr (Destination metadata)) then
    negb (IsPublicAddr (Socksaddr_Addr (Destination metadata)))
  else existsb (fun a => negb (IsPublicAddr a)) (DestinationAddresses metadata).

Definition IPAcceptAnyItem_Match (metadata : InboundContext) : bool :=
  if DestinationAddressMatchFromResponse metadata then 0 <? zlen (DNSResponseAddressesForMatch metadata)
  else 0 <? zlen (DestinationAddresses metadata).

Definition IPVersionItem_Match (isIPv6 : bool) (metadata : InboundContext) : bool :=
  (negb (IPVersion metadata =? 0) && Bool.eqb (IPVersion metadata =? 6) isIPv6)
  || (Socksaddr_IsIP (Destination metadata) && Bool.eqb (Socksaddr_IsIPv6 (Destination metadata)) isIPv6).

Definition PortItem_Match (portMap : gmap Z bool) (isSource : bool) (metadata : InboundContext) : bool :=
  if isSource then map_get portMap (Socksaddr_Port (Source metadata))
  else map_get portMap (Socksaddr_Port (Destination metadata)).

Definition PortRangeItem_Match (isSource : bool) (portRangeList : list rangeItem) (metadata : InboundContext) : bool :=
  let port := if isSource then Socksaddr_Port (Source metadata) else Socksaddr_Port (Destination metadata) in
  existsb (fun portRange => (range_start portRange <=? port) && (port <=? range_end portRange)) portRangeList.

Definition ProcessItem_Match (processMap : gmap string bool) (metadata : InboundContext) : bool :=
  match ProcessInfo metadata with
  | None => false
  | Some info => if String.eqb (ProcessPath info) "" then false
                 else map_get processMap (filepath_Base (ProcessPath info))
  end.

Definition ProcessPathItem_Match (processMap : gmap string bool) (metadata : InboundContext) : bool :=
  match ProcessInfo metadata with
  | None => false
  | Some info => negb (String.eqb (ProcessPath info) "") && map_get processMap (ProcessPath info)
  end.

Definition ProcessPathRegexItem_Match (matchers : list Regexp) (metadata : InboundContext) : bool :=
  match ProcessInfo metadata with
  | None => false
  | Some info => if String.eqb (ProcessPath info) "" then false
                 else existsb (fun matcher => MatchString matcher (ProcessPath info)) matchers
  end.

Definition UserItem_Match (userMap : gmap string bool) (metadata : InboundContext) : bool :=
  match ProcessInfo metadata with
  | None => false
  | Some info => if String.eqb (UserName info) "" then false else map_get userMap (UserName info)
  end.

Definition UserIdItem_Match (userIdMap : gmap Z bool) (metadata : InboundContext) : bool :=
  match ProcessInfo metadata with
  | None => false
  | Some info => if UserId info =? -1 then false else map_get userIdMap (UserId info)
  end.

Definition OutboundItem_Match (outboundMap : gmap string bool) (matchAny : bool) (metadata : InboundContext) : bool :=
  if matchAny then negb (String.eqb (Outbound metadata) "") else map_get outboundMap (Outbound metadata).

Definition QueryTypeItem_Match (typeMap : gmap Z bool) (metadata : InboundContext) : bool :=
  if QueryType metadata =? 0 then false else map_get typeMap (QueryType metadata).

Definition SourceMACAddressItem_Match (addressMap : gmap string bool) (metadata : InboundContext) : bool :=
  match SourceMACAddress metadata with
  | None => false
  | Some mac => map_get addressMap (HardwareAddr_String mac)
  end.

Definition SourceHostnameItem_Match (hostnameMap : gmap string bool) (metadata : InboundContext) : bool :=
  if String.eqb (SourceHostname metadata) "" then false else map_get hostnameMap (SourceHostname metadata).

Definition PreferredByItem_Match (outbounds : list PreferredOutbound) (metadata : InboundContext) : bool :=
  (negb (String.eqb (domainHost metadata) "") && existsb (fun o => PreferredDomain o (domainHost metadata)) outbounds)
  || (Socksaddr_IsIP (Destination metadata)
      && existsb (fun o => PreferredAddress o (Socksaddr_Addr (Destination metadata))) outbounds)
  || ((0 <? zlen (DestinationAddresses metadata))
      && existsb (fun address => existsb (fun o => PreferredAddress o address) outbounds) (DestinationAddresses metadata)).

Definition PreferredByDNSItem_Match (transports : list (string -> bool)) (metadata : InboundContext) : bool :=
  if String.eqb (domainHost metadata) "" then false
  else existsb (fun preferredDomain => preferredDomain (CanonicalName (domainHost metadata))) transports.

Definition DNSResponseRCodeItem_Match (rcode : Z) (metadata : InboundContext) : bool :=
  match DNSResponse metadata with None => false | Some response => Msg_Rcode response =? rcode end.

(** [DNSRecordOptions.Match] *)
Definition DNSRecordOptions_Match (o : DNSRecordOptions) (record : RR) : bool :=
  match dro_RR o with None => false | Some expected => IsDuplicate expected record end.

Definition DNSResponseRecordItem_Match (records : list DNSRecordOptions) (selector : ResponseSection)
    (metadata : InboundContext) : bool :=
  match DNSResponse metadata with
  | None => false
  | Some response => existsb (fun expected => existsb (DNSRecordOptions_Match expected) (selectRecords selector response)) records
  end.

(** Every configured interface must exist and share a prefix with the configuration. *)
Definition InterfaceAddressItem_Match (rt : RuntimeState) (interfaceAddresses : gmap string (list Prefix)) : bool :=
  forallb (fun '(ifName, addresses) =>
    match List.find (fun it => String.eqb (iface_Name it) ifName) (FinderInterfaces rt) with
    | None => false                       (* common.Find returned the zero Interface *)
    | Some iface =>
        if String.eqb (iface_Name iface) "" then false
        else negb (forallb (fun address =>
                     forallb (fun it => negb (Prefix_Overlaps address it)) (iface_Addresses iface)) addresses)
    end) (map_to_list interfaceAddresses).

Definition NetworkInterfaceAddressItem_Match (rt : RuntimeState) (interfaceAddresses : gmap Z (list Prefix)) : bool :=
  forallb (fun '(ifType, addresses) =>
    existsb (fun networkInterface =>
      if bool_decide (iface_Name (ni_Interface networkInterface) ∈ MyInterfaces rt) then false
      else if negb (ni_Type networkInterface =? ifType) then false
      else existsb (fun it => existsb (fun prefix => Prefix_Overlaps prefix it) addresses)
             (iface_Addresses (ni_Interface networkInterface))) (NetworkInterfaces rt))
    (map_to_list interfaceAddresses).

Definition DefaultInterfaceAddressItem_Match (rt : RuntimeState) (interfaceAddresses : list Prefix) : bool :=
  match MonitorDefaultInterface rt with
  | None => false
  | Some defaultInterface =>
      forallb (fun address =>
        negb (forallb (fun it => negb (Prefix_Overlaps address it)) (iface_Addresses defaultInterface)))
        interfaceAddresses
  end.

Definition Match (rt : RuntimeState) (item : RuleItem) (metadata : InboundContext) : bool :=
  match item with
  | QueryTypeItem m => QueryTypeItem_Match m metadata
  | NetworkItem m => map_get m (Network metadata)
  | DomainItem matcher => DomainItem_Match matcher metadata
  | DomainKeywordItem keywords => DomainKeywordItem_Match keywords metadata
  | DomainRegexItem matchers => DomainRegexItem_Match matchers metadata
  | AdGuardDomainItem matcher => AdGuardDomainItem_Match matcher metadata
  | IPCIDRItem ipSet isSource => IPCIDRItem_Match ipSet isSource metadata
  | IPIsPrivateItem isSource => IPIsPrivateItem_Match isSource metadata
  | IPAcceptAnyItem => IPAcceptAnyItem_Match metadata
  | IPVersionItem isIPv6 => IPVersionItem_Match isIPv6 metadata
  | PortItem m isSource => PortItem_Match m isSource metadata
  | PortRangeItem isSource l => PortRangeItem_Match isSource l metadata
  | ProcessItem m => ProcessItem_Match m metadata
  | ProcessPathItem m => ProcessPathItem_Match m metadata
  | ProcessPathRegexItem l => ProcessPathRegexItem_Match l metadata
  | UserItem m => UserItem_Match m metadata
  | UserIdItem m => UserIdItem_Match m metadata
  | InboundItem m => map_get m (Inbound metadata)
  | AuthUserItem m => map_get m (User metadata)
  | ProtocolItem m => map_get m (Protocol metadata)
  | ClientItem m => map_get m (Client metadata)
  | OutboundItem m any => OutboundItem_Match m any metadata
  | ClashModeItem mode =>
      match ClashServer_Mode rt with None => false | Some current => strings_EqualFold current mode end
  | NetworkTypeItem types =>
      match DefaultNetworkInterface rt with None => false | Some ni => bool_decide (ni_Type ni ∈ types) end
  | NetworkIsExpensiveItem =>
      match DefaultNetworkInterface rt with None => false | Some ni => ni_Expensive ni end
  | NetworkIsConstrainedItem =>
      match DefaultNetworkInterface rt with None => false | Some ni => ni_Constrained ni end
  | WIFISSIDItem m => map_get m (WIFIState_SSID rt)
  | WIFIBSSIDItem m => map_get m (WIFIState_BSSID rt)
  | InterfaceAddressItem m => InterfaceAddressItem_Match rt m
  | NetworkInterfaceAddressItem m => NetworkInterfaceAddressItem_Match rt m
  | DefaultInterfaceAddressItem l => DefaultInterfaceAddressItem_Match rt l
  | SourceMACAddressItem m => SourceMACAddressItem_Match m metadata
  | SourceHostnameItem m => SourceHostnameItem_Match m metadata
  | PreferredByItem _ outbounds => PreferredByItem_Match outbounds metadata
  | PreferredByDNSItem _ transports => PreferredByDNSItem_Match transports metadata
  | DNSResponseRCodeItem rcode => DNSResponseRCodeItem_Match rcode metadata
  | DNSResponseRecordItem _ records selector => DNSResponseRecordItem_Match records selector metadata
  end.

End WithEnv.

(** ** Lemmas *)

Lemma map_of_lookup `{Countable K} (xs : list K) (m : gmap K bool) k :
  fold_left (fun m x => <[x := true]> m) xs m !! k = if bool_decide (k ∈ xs) then Some true else m !! k.
Proof.
  revert m. induction xs as [|x xs IH]; intros m; cbn [fold_left].
  - by rewrite bool_decide_eq_false_2 by apply not_elem_of_nil.
  - rewrite IH. destruct (decide (k = x)) as [->|Hne].
    + rewrite lookup_insert_eq, (bool_decide_eq_true_2 (x ∈ x :: xs)) by left. by case_bool_decide.
    + rewrite lookup_insert_ne by done.
      erewrite bool_decide_ext; [done|]. rewrite elem_of_cons. tauto.
Qed.

(** A map built from a list of keys reads true exactly on the list. *)
Lemma map_get_map_of `{Countable K} (xs : list K) k : map_get (map_of xs) k = bool_decide (k ∈ xs).
Proof. unfold map_get, map_of. rewrite map_of_lookup. by case_bool_decide. Qed.

Lemma ParseUint_loop_range max n s v :
  0 <= n <= max -> ParseUint_loop max n s = Ok v -> 0 <= v <= max.
Proof.
  revert n. induction s as [|c s IH]; intros n Hn H; cbn in H; [by simplify_eq|].
  unfold digit in H. destruct (_ && _) eqn:E; [|done].
  destruct (max <? _) eqn:E'; [done|]. apply IH in H; [done|]. lia.
Qed.

Lemma ParseUint_range s w v : 0 < w -> ParseUint s w = Ok v -> is_uint w v.
Proof.
  intros Hw H. assert (0 < 2 ^ w) by (apply Z.pow_pos_nonneg; lia).
  destruct s; [done|]. apply ParseUint_loop_range in H; unfold is_uint; lia.
Qed.
