(* ===== verification/DemoEnv.v ===== *)
(** * A concrete environment

    [GoEnv] is a parameter of the development.  [demoEnv] instantiates it by
    plain functions (ASCII lower-casing, suffix matching over lists, ranges
    compared by value), so that the hypotheses of the theorems can be checked
    on concrete rules and connections. *)
From Stdlib Require Import ZArith Bool Ascii.
From S2P Require Import Prelude GoIO DnsMsg Metadata RuleItem.

Definition ascii_lower (c : ascii) : ascii :=
  let n := nat_of_ascii c in if (65 <=? n)%nat && (n <=? 90)%nat then ascii_of_nat (n + 32) else c.

Fixpoint string_lower (s : string) : string :=
  match s with EmptyString => EmptyString | String c s' => String (ascii_lower c) (string_lower s') end.

(** Is [suffix] a suffix of [s]? *)
Fixpoint has_suffix (suffix s : string) : bool :=
  String.eqb suffix s || match s with EmptyString => false | String _ s' => has_suffix suffix s' end.

Definition addr_value (a : Addr) : option (bool * Z) :=
  match a with AddrInvalid => None | Addr4 v => Some (false, v) | Addr6 v _ => Some (true, v) end.

Definition range_contains (a : Addr) (r : IPRange) : bool :=
  match addr_value (fst r), addr_value a, addr_value (snd r) with
  | Some (f1, v1), Some (f, v), Some (f2, v2) => Bool.eqb f1 f && Bool.eqb f f2 && (v1 <=? v) && (v <=? v2)
  | _, _, _ => false
  end.

(** Does [d] begin the host, or the host after one of its dots? *)
Fixpoint begins_after_dot (d host : string) : bool :=
  match host with EmptyString => false | String c rest => (Ascii.eqb c "." && String.prefix d rest) || begins_after_dot d rest end.
Definition begins_label (d host : string) : bool := String.prefix d host || begins_after_dot d host.

(** A line of an AdGuard filter: [||] stands for the start of a label, [|] for
    the start and [^] for the end of the host. *)
Definition adguard_line (host line : string) : bool :=
  let '(line, ends) := if has_suffix "^" line then (String.substring 0 (String.length line - 1) line, true) else (line, false) in
  if String.prefix "||" line then
    let d := String.substring 2 (String.length line - 2) line in
    if ends then String.eqb host d || has_suffix ("." +:+ d) host else begins_label d host
  else if String.prefix "|" line then
    let d := String.substring 1 (String.length line - 1) line in
    if ends then String.eqb host d else String.prefix d host
  else if ends then has_suffix line host else strings_Contains host line.

Definition demoEnv : GoEnv := {|
  Matcher := list string * list string;
  AdGuardMatcher := list string;
  Regexp := string;
  NewMatcher domains suffixes _ := (domains, suffixes);
  Matcher_Match m host := existsb (String.eqb host) (fst m) || existsb (fun s => has_suffix s host) (snd m);
  NewAdGuardMatcher lines := lines;
  AdGuardMatcher_Match m host := existsb (adguard_line host) m;
  regexp_Compile s := Ok s;
  MatchString re s := strings_Contains s re;
  IPSet_Contains set a := existsb (range_contains a) set;
  ParsePrefix s := Err (ENew s);
  ParseAddr s := if String.eqb s "10.0.0.1" then Ok (Addr4 167772161) else Err (ENew s);
  IPSetBuilder_IPSet added :=
    Ok (map (fun e => match e with inl p => (prefix_addr p, prefix_addr p) | inr a => (a, a) end) added);
  AddrFromIP bs :=
    if zlen bs =? 4 then Addr4 (be_decode bs) else if zlen bs =? 16 then Addr6 (be_decode bs) "" else AddrInvalid;
  Socksaddr_IsIP a := Addr_IsValid (Socksaddr_Addr a);
  Socksaddr_IsIPv6 a := match Socksaddr_Addr a with Addr6 _ _ => true | _ => false end;
  IsPublicAddr a := negb (match a with Addr4 v => Z.shiftr v 24 =? 10 | _ => false end);
  strings_ToLower := string_lower;
  strings_EqualFold a b := String.eqb (string_lower a) (string_lower b);
  strings_TrimSpace s := s;
  ParseMAC s := Err (ENew s);
  hex_DecodeString s := Err (ENew s);
  HardwareAddr_String bs := string_of_bytes bs;
  filepath_Base s := s;
  IsDuplicate a b := bool_decide (rr_set_Ttl 0 a = rr_set_Ttl 0 b);
  CanonicalName s := string_lower (if has_suffix "." s then s else s +:+ ".");
|}.

(** No network interface, no clash server. *)
Definition demoRuntime : RuntimeState := {|
  DefaultNetworkInterface := None; NetworkInterfaces := []; MyInterfaces := [];
  MonitorDefaultInterface := None; FinderInterfaces := [];
  WIFIState_SSID := ""; WIFIState_BSSID := ""; ClashServer_Mode := None;
|}.

(** A TCP connection from 10.0.0.1:4000 to a host, port 443. *)
Definition demoConnection (host : string) : InboundContext := {|
  Inbound := "tun-in"; IPVersion := 0; Network := "tcp";
  Source := mkSocksaddr (Addr4 167772161) 4000 "";
  Destination := mkSocksaddr AddrInvalid 443 host;
  User := ""; Outbound := ""; Protocol := "tls"; Domain := ""; Client := "";
  DestinationAddresses := []; DNSResponse := None; DestinationAddressMatchFromResponse := false;
  ProcessInfo := None; SourceMACAddress := None; SourceHostname := ""; QueryType := 0;
  IPCIDRMatchSource := false; IPCIDRAcceptEmpty := false;
  SourceAddressMatch := false; SourcePortMatch := false; DestinationAddressMatch := false;
  DestinationPortMatch := false; DidMatch := false; IgnoreDestinationIPCIDRMatch := false;
|}.
