(* ===== verification/RuleEngine.v ===== *)
(** * The rule engine (route/rule/rule_abstract.go, match_state.go,
      rule_item_rule_set.go, rule_set_local.go)

    A rule tree is a default rule (six groups of items, an optional
    [RuleSetItem]) or a logical rule over sub-rules.  A started
    [RuleSetItem] holds the rule-sets it refers to, a rule-set its list of
    headless rules ([ruleList]); local and remote rule-sets evaluate alike.

    [matchStatesWithBase] is written after the Go method: the flag
    [DidMatch], which the code writes through the metadata pointer, is
    threaded through the steps; nested evaluations work on copies.

    Go's [allItems] repeats the items of the groups and, last, the rule-set
    item; the engine only tests whether it is empty ([no_items]). *)
From Stdlib Require Import ZArith Lia Bool.
From S2P Require Import Prelude GoIO Metadata RuleItem MatchState.

Inductive LogicalMode := LogicalTypeAnd | LogicalTypeOr.

#[export] Instance LogicalMode_eq_dec : EqDecision LogicalMode.
Proof. solve_decision. Defined.

(** A [RuleSetItem] after Start, over the type of headless rules. *)
Record RuleSetItem (R : Type) := mkRuleSetItem {
  setList : list (list R);
  ipCidrMatchSource : bool;
  ipCidrAcceptEmpty : bool;
}.
Arguments mkRuleSetItem {R} _ _ _.
Arguments setList {R} _.
Arguments ipCidrMatchSource {R} _.
Arguments ipCidrAcceptEmpty {R} _.

Section Loops.
Context {R : Type} (eval : R -> Z).

(** The and-loop of a logical rule; None is the early return. *)
Fixpoint and_loop (rules : list R) (stateSet : Z) : option Z :=
  match rules with
  | [] => Some stateSet
  | rule :: rest =>
      let nestedStateSet := eval rule in
      if isEmpty nestedStateSet then None
      else and_loop rest (combine stateSet nestedStateSet)
  end.

(** The or-loops: [stateSet = stateSet.merge(eval(rule))]. *)
Fixpoint merge_loop (rules : list R) (stateSet : Z) : Z :=
  match rules with
  | [] => stateSet
  | rule :: rest => merge_loop rest (merge stateSet (eval rule))
  end.
End Loops.

Section WithEnv.
Context `{GE : GoEnv} (rt : RuntimeState).

(** [abstractDefaultRule] without its rule-set item and action. *)
Record abstractDefaultRule := mkDefaultRule {
  items : list RuleItem;
  sourceAddressItems : list RuleItem;
  sourcePortItems : list RuleItem;
  destinationAddressItems : list RuleItem;
  destinationIPCIDRItems : list RuleItem;
  destinationPortItems : list RuleItem;
  allItems : list RuleItem;
  invert : bool;
}.

Inductive Rule :=
| DefaultRule (r : abstractDefaultRule) (ruleSetItem : option (RuleSetItem Rule))
| LogicalRule (mode : LogicalMode) (rules : list Rule) (inverted : bool).

(** ** Helpers of the default rule *)

Definition matchAnyItem (its : list RuleItem) (metadata : InboundContext) : bool :=
  existsb (fun it => Match rt it metadata) its.

Definition nonempty {A} (l : list A) : bool := match l with [] => false | _ => true end.

Definition destinationIPCIDRMatchesSource (r : abstractDefaultRule) (metadata : InboundContext) : bool :=
  negb (IgnoreDestinationIPCIDRMatch metadata) && IPCIDRMatchSource metadata
  && nonempty (destinationIPCIDRItems r).

Definition destinationIPCIDRMatchesDestination (r : abstractDefaultRule) (metadata : InboundContext) : bool :=
  negb (IgnoreDestinationIPCIDRMatch metadata) && negb (IPCIDRMatchSource metadata)
  && nonempty (destinationIPCIDRItems r).

Definition requiresSourceAddressMatch (r : abstractDefaultRule) (metadata : InboundContext) : bool :=
  nonempty (sourceAddressItems r) || destinationIPCIDRMatchesSource r metadata.

Definition requiresDestinationAddressMatch (r : abstractDefaultRule) (metadata : InboundContext) : bool :=
  nonempty (destinationAddressItems r) || destinationIPCIDRMatchesDestination r metadata.

Definition invertedFailure (r : abstractDefaultRule) (base : Z) : Z :=
  if invert r then withBase emptyRuleMatchState base else 0.

(** [if len(group) > 0 { metadata.DidMatch = true; if matchAnyItem(group, metadata) { baseState |= flag } }] *)
Definition group_step (group : list RuleItem) (flag : Z) (s : Z * InboundContext) : Z * InboundContext :=
  let '(baseState, metadata) := s in
  if nonempty group then
    let metadata := set_DidMatch true metadata in
    (if matchAnyItem group metadata then Z.lor baseState flag else baseState, metadata)
  else (baseState, metadata).

(** The two CIDR steps: skipped when the group's flag is already set. *)
Definition cidr_step (enabled : InboundContext -> bool) (group : list RuleItem) (flag : Z)
    (s : Z * InboundContext) : Z * InboundContext :=
  let '(baseState, metadata) := s in
  if enabled metadata && negb (has baseState flag) then
    let metadata := set_DidMatch true metadata in
    (if matchAnyItem group metadata then Z.lor baseState flag else baseState, metadata)
  else if enabled metadata then (baseState, set_DidMatch true metadata)
  else (baseState, metadata).

Definition baseState_steps (r : abstractDefaultRule) (evaluationBase : Z) (metadata : InboundContext)
    : Z * InboundContext :=
  let s := group_step (sourceAddressItems r) ruleMatchSourceAddress (evaluationBase, metadata) in
  let s := cidr_step (destinationIPCIDRMatchesSource r) (destinationIPCIDRItems r) ruleMatchSourceAddress s in
  let s := group_step (sourcePortItems r) ruleMatchSourcePort s in
  let s := group_step (destinationAddressItems r) ruleMatchDestinationAddress s in
  let s := cidr_step (destinationIPCIDRMatchesDestination r) (destinationIPCIDRItems r) ruleMatchDestinationAddress s in
  group_step (destinationPortItems r) ruleMatchDestinationPort s.

(** [for _, item := range r.items { metadata.DidMatch = true; if !item.Match(metadata) { return ... } }];
    the boolean is false on the early return. *)
Fixpoint items_loop (its : list RuleItem) (metadata : InboundContext) : bool * InboundContext :=
  match its with
  | [] => (true, metadata)
  | item :: rest =>
      let metadata := set_DidMatch true metadata in
      if negb (Match rt item metadata) then (false, metadata) else items_loop rest metadata
  end.

(** The predicate of the final [stateSet.filter]. *)
Definition allowedState (r : abstractDefaultRule) (metadata : InboundContext) (state : Z) : bool :=
  if requiresSourceAddressMatch r metadata && negb (has state ruleMatchSourceAddress) then false
  else if nonempty (sourcePortItems r) && negb (has state ruleMatchSourcePort) then false
  else if requiresDestinationAddressMatch r metadata && negb (has state ruleMatchDestinationAddress) then false
  else if nonempty (destinationPortItems r) && negb (has state ruleMatchDestinationPort) then false
  else true.

Definition no_items {R} (r : abstractDefaultRule) (ruleSetItem : option R) : bool :=
  negb (nonempty (allItems r)) && match ruleSetItem with None => true | Some _ => false end.

(** [abstractDefaultRule.matchStatesWithBase]; [ruleSetItem] is the
    evaluation of the rule-set item when there is one.  Returns the state
    set and the metadata left behind. *)
Definition default_matchStatesWithBase (r : abstractDefaultRule)
    (ruleSetItem : option (InboundContext -> Z -> Z)) (metadata : InboundContext) (inheritedBase : Z)
    : Z * InboundContext :=
  if no_items r ruleSetItem then (withBase emptyRuleMatchState inheritedBase, metadata)
  else
    let evaluationBase := if invert r then 0 else inheritedBase in
    let '(baseState, metadata) := baseState_steps r evaluationBase metadata in
    let '(matched, metadata) := items_loop (items r) metadata in
    if negb matched then (invertedFailure r inheritedBase, metadata)
    else
      let '(stateSet, metadata) :=
        match ruleSetItem with
        | Some evalRuleSet =>
            let metadata := set_DidMatch true metadata in
            (evalRuleSet metadata baseState, metadata)
        | None => (singleRuleMatchState baseState, metadata)
        end in
      let stateSet := filter_states stateSet (allowedState r metadata) in
      if isEmpty stateSet then (invertedFailure r inheritedBase, metadata)
      else if invert r then
        if IgnoreDestinationIPCIDRMatch metadata && (stateSet =? emptyRuleMatchState)
           && negb (DidMatch metadata) && nonempty (destinationIPCIDRItems r)
        then (withBase emptyRuleMatchState inheritedBase, metadata)
        else (0, metadata)
      else (stateSet, metadata).

(** [abstractLogicalRule.matchStatesWithBase]; [eval] evaluates a sub-rule on
    a copy of the metadata with its rule cache reset. *)
Definition logical_matchStatesWithBase {R} (mode : LogicalMode) (inverted : bool)
    (eval : R -> InboundContext -> Z -> Z) (rules : list R) (metadata : InboundContext) (base : Z) : Z :=
  let evaluationBase := if inverted then 0 else base in
  let nested := fun rule => eval rule (ResetRuleCache metadata) evaluationBase in
  match mode with
  | LogicalTypeAnd =>
      match and_loop nested rules (withBase emptyRuleMatchState evaluationBase) with
      | None => if inverted then withBase emptyRuleMatchState base else 0
      | Some stateSet => if inverted then 0 else stateSet
      end
  | LogicalTypeOr =>
      let stateSet := merge_loop nested rules 0 in
      if isEmpty stateSet then (if inverted then withBase emptyRuleMatchState base else 0)
      else if inverted then 0 else stateSet
  end.

(** [LocalRuleSet.matchStatesWithBase]. *)
Definition ruleSet_matchStatesWithBase {R} (eval : R -> InboundContext -> Z -> Z)
    (rules : list R) (metadata : InboundContext) (base : Z) : Z :=
  merge_loop (fun rule => eval rule (ResetRuleMatchCache metadata) base) rules 0.

(** [RuleSetItem.matchStatesWithBase]. *)
Definition ruleSetItem_matchStatesWithBase {R} (eval : R -> InboundContext -> Z -> Z)
    (item : RuleSetItem R) (metadata : InboundContext) (base : Z) : Z :=
  merge_loop (fun ruleSet =>
    let nestedMetadata :=
      set_IPCIDRFlags (ipCidrMatchSource item) (ipCidrAcceptEmpty item) (ResetRuleMatchCache metadata) in
    ruleSet_matchStatesWithBase eval ruleSet nestedMetadata base) (setList item) 0.

(** [matchHeadlessRuleStatesWithBase] dispatches to the method of the rule. *)
Fixpoint matchStatesWithBase (rule : Rule) (metadata : InboundContext) (base : Z) : Z :=
  match rule with
  | DefaultRule r ruleSetItem =>
      let evalItem :=
        match ruleSetItem with
        | None => None
        | Some item => Some (ruleSetItem_matchStatesWithBase matchStatesWithBase item)
        end in
      fst (default_matchStatesWithBase r evalItem metadata base)
  | LogicalRule mode rules inverted =>
      logical_matchStatesWithBase mode inverted matchStatesWithBase rules metadata base
  end.

Definition matchStates (rule : Rule) (metadata : InboundContext) : Z :=
  matchStatesWithBase rule metadata 0.

(** [Rule.Match]. *)
Definition Rule_Match (rule : Rule) (metadata : InboundContext) : bool :=
  negb (isEmpty (matchStates rule metadata)).

(** [LocalRuleSet.Match] on the rules of the set. *)
Definition RuleSet_Match (rules : list Rule) (metadata : InboundContext) : bool :=
  negb (isEmpty (ruleSet_matchStatesWithBase matchStatesWithBase rules metadata 0)).

End WithEnv.

(** ** Induction over rule trees *)

Section Induction.
Context `{GE : GoEnv}.
Variable P : Rule -> Prop.
Hypothesis P_default : forall r ruleSetItem,
  (forall item, ruleSetItem = Some item -> Forall (Forall P) (setList item)) ->
  P (DefaultRule r ruleSetItem).
Hypothesis P_logical : forall mode rules inverted, Forall P rules -> P (LogicalRule mode rules inverted).

Fixpoint Rule_tree_ind (rule : Rule) : P rule :=
  let all := fix all (rules : list Rule) : Forall P rules :=
    match rules with
    | [] => Forall_nil_2 P
    | r :: rest => Forall_cons_2 P r rest (Rule_tree_ind r) (all rest)
    end in
  match rule with
  | DefaultRule r None => P_default r None (fun item H => match H with end)
  | DefaultRule r (Some item) =>
      let sets := fix sets (l : list (list Rule)) : Forall (Forall P) l :=
        match l with
        | [] => Forall_nil_2 (Forall P)
        | s :: rest => Forall_cons_2 (Forall P) s rest (all s) (sets rest)
        end in
      P_default r (Some item)
        (fun item' H => match H in _ = o return match o with Some i => Forall (Forall P) (setList i) | None => True end
                        with eq_refl => sets (setList item) end)
  | LogicalRule mode rules inverted => P_logical mode rules inverted (all rules)
  end.
End Induction.

(** ** Bits of a match state *)

Lemma has_pow2 s k : 0 <= k -> has s (2 ^ k) = Z.testbit s k.
Proof.
  intros Hk. unfold has. destruct (Z.testbit s k) eqn:E.
  - apply negb_true_iff, Z.eqb_neq. intros Hc.
    apply (f_equal (fun z => Z.testbit z k)) in Hc.
    rewrite Z.land_spec, E, Z.pow2_bits_true, Z.bits_0 in Hc by lia. done.
  - apply negb_false_iff, Z.eqb_eq. apply Z.bits_inj'. intros n Hn.
    rewrite Z.land_spec, Z.bits_0. destruct (decide (n = k)) as [->|]; [by rewrite E|].
    rewrite Z.pow2_bits_false by lia. apply andb_false_r.
Qed.

Lemma lor_has s k : 0 <= k -> has s (2 ^ k) = true -> Z.lor s (2 ^ k) = s.
Proof.
  intros Hk H. rewrite has_pow2 in H by done. apply Z.bits_inj'. intros n Hn.
  rewrite Z.lor_spec. destruct (decide (n = k)) as [->|].
  - by rewrite H.
  - rewrite Z.pow2_bits_false by lia. apply orb_false_r.
Qed.

(** The four group flags. *)
Definition is_flag (flag : Z) : Prop := exists k, 0 <= k < 4 /\ flag = 2 ^ k.

Lemma is_flag_SourceAddress : is_flag ruleMatchSourceAddress.
Proof. by exists 0. Qed.
Lemma is_flag_SourcePort : is_flag ruleMatchSourcePort.
Proof. by exists 1. Qed.
Lemma is_flag_DestinationAddress : is_flag ruleMatchDestinationAddress.
Proof. by exists 2. Qed.
Lemma is_flag_DestinationPort : is_flag ruleMatchDestinationPort.
Proof. by exists 3. Qed.
#[export] Hint Resolve is_flag_SourceAddress is_flag_SourcePort
  is_flag_DestinationAddress is_flag_DestinationPort : go.

Lemma lor_flag s flag : is_flag flag -> has s flag = true -> Z.lor s flag = s.
Proof. intros (k & Hk & ->). apply lor_has. lia. Qed.

Lemma is_state_flag flag : is_flag flag -> is_state flag.
Proof.
  intros (k & Hk & ->). unfold is_state. change 16 with (2 ^ 4).
  split; [by apply Z.pow_nonneg|]. apply Z.pow_lt_mono_r; lia.
Qed.

Lemma is_state_0 : is_state 0.
Proof. unfold is_state. lia. Qed.
#[export] Hint Resolve is_state_0 is_state_flag : go.

(** ** The metadata an evaluation leaves behind *)

Section Metadata.
Context `{GE : GoEnv} (rt : RuntimeState).

(** Items read neither [DidMatch] nor the per-rule match cache. *)
Lemma Match_set_DidMatch it b md : Match rt it (set_DidMatch b md) = Match rt it md.
Proof. by destruct it. Qed.

Lemma Match_ResetRuleMatchCache it md : Match rt it (ResetRuleMatchCache md) = Match rt it md.
Proof. by destruct it. Qed.

Lemma matchAnyItem_set_DidMatch its b md : matchAnyItem rt its (set_DidMatch b md) = matchAnyItem rt its md.
Proof.
  unfold matchAnyItem. induction its as [|it its IH]; [done|]. cbn. by rewrite Match_set_DidMatch, IH.
Qed.

Lemma set_DidMatch_twice b1 b2 md : set_DidMatch b1 (set_DidMatch b2 md) = set_DidMatch b1 md.
Proof. done. Qed.

Lemma set_DidMatch_id md : set_DidMatch (DidMatch md) md = md.
Proof. by destruct md. Qed.

Lemma set_DidMatch_as b md : b = DidMatch md -> set_DidMatch b md = md.
Proof. intros ->. apply set_DidMatch_id. Qed.

(** ** Closed forms of the steps *)

(** Does the group match, its CIDR part included when it counts towards it? *)
Definition sourceGroup (r : abstractDefaultRule) (md : InboundContext) : bool :=
  matchAnyItem rt (sourceAddressItems r) md
  || (destinationIPCIDRMatchesSource r md && matchAnyItem rt (destinationIPCIDRItems r) md).

Definition destinationGroup (r : abstractDefaultRule) (md : InboundContext) : bool :=
  matchAnyItem rt (destinationAddressItems r) md
  || (destinationIPCIDRMatchesDestination r md && matchAnyItem rt (destinationIPCIDRItems r) md).

(** The state a default rule contributes by itself. *)
Definition groupState (r : abstractDefaultRule) (md : InboundContext) : Z :=
  Z.lor (Z.lor (Z.lor
    (if sourceGroup r md then ruleMatchSourceAddress else 0)
    (if matchAnyItem rt (sourcePortItems r) md then ruleMatchSourcePort else 0))
    (if destinationGroup r md then ruleMatchDestinationAddress else 0))
    (if matchAnyItem rt (destinationPortItems r) md then ruleMatchDestinationPort else 0).

(** Did the group steps evaluate anything? *)
Definition groupsTouched (r : abstractDefaultRule) (md : InboundContext) : bool :=
  nonempty (sourceAddressItems r) || destinationIPCIDRMatchesSource r md
  || nonempty (sourcePortItems r) || nonempty (destinationAddressItems r)
  || destinationIPCIDRMatchesDestination r md || nonempty (destinationPortItems r).

Lemma matchAnyItem_nil md : matchAnyItem rt [] md = false.
Proof. done. Qed.

Lemma group_step_eq group flag base d md :
  group_step rt group flag (base, set_DidMatch d md) =
  (Z.lor base (if matchAnyItem rt group md then flag else 0), set_DidMatch (d || nonempty group) md).
Proof.
  unfold group_step. destruct group as [|it its]; cbn [nonempty].
  - cbn. by rewrite Z.lor_0_r, orb_false_r.
  - rewrite set_DidMatch_twice, matchAnyItem_set_DidMatch, orb_true_r.
    destruct (matchAnyItem rt (it :: its) md); [done|]. by rewrite Z.lor_0_r.
Qed.

Lemma cidr_step_eq (enabled : InboundContext -> bool) group flag base d md :
  is_flag flag -> (forall b, enabled (set_DidMatch b md) = enabled md) ->
  cidr_step rt enabled group flag (base, set_DidMatch d md) =
  (Z.lor base (if enabled md && matchAnyItem rt group md then flag else 0), set_DidMatch (d || enabled md) md).
Proof.
  intros Hf He. unfold cidr_step. rewrite He.
  destruct (enabled md); cbn [andb]; [|by rewrite Z.lor_0_r, orb_false_r].
  rewrite set_DidMatch_twice, matchAnyItem_set_DidMatch, orb_true_r.
  destruct (has base flag) eqn:Hh; cbn [negb].
  - destruct (matchAnyItem rt group md); [by rewrite lor_flag|by rewrite Z.lor_0_r].
  - destruct (matchAnyItem rt group md); [done|by rewrite Z.lor_0_r].
Qed.

Lemma baseState_steps_eq r base md :
  baseState_steps rt r base md =
  (Z.lor base (groupState r md), set_DidMatch (DidMatch md || groupsTouched r md) md).
Proof.
  unfold baseState_steps. rewrite <- (set_DidMatch_id md) at 1.
  rewrite group_step_eq, cidr_step_eq, !group_step_eq, cidr_step_eq, group_step_eq by auto with go.
  f_equal.
  - unfold groupState, sourceGroup, destinationGroup. rewrite <- !Z.lor_assoc. f_equal.
    destruct (destinationIPCIDRMatchesSource r md), (destinationIPCIDRMatchesDestination r md);
      repeat match goal with |- context [matchAnyItem rt ?l md] => destruct (matchAnyItem rt l md) end;
      reflexivity.
  - f_equal. unfold groupsTouched. by rewrite !orb_assoc.
Qed.

Lemma items_loop_eq its d md :
  items_loop rt its (set_DidMatch d md) =
  (forallb (fun it => Match rt it md) its, set_DidMatch (d || nonempty its) md).
Proof.
  revert d. induction its as [|it its IH]; intros d; cbn [items_loop forallb nonempty].
  - by rewrite orb_false_r.
  - rewrite set_DidMatch_twice, Match_set_DidMatch, orb_true_r.
    destruct (Match rt it md); cbn; [|done]. by rewrite IH.
Qed.

Lemma is_state_if (b : bool) flag : is_flag flag -> is_state (if b then flag else 0).
Proof. destruct b; auto with go. Qed.

Lemma is_state_groupState r md : is_state (groupState r md).
Proof. unfold groupState. repeat apply is_state_lor; apply is_state_if; auto with go. Qed.

Lemma allowedState_set_DidMatch r b md : allowedState r (set_DidMatch b md) = allowedState r md.
Proof. reflexivity. Qed.

(** ** Closed form of the default rule *)

Context (rs : option (InboundContext -> Z -> Z)).

(** What [matchStatesWithBase] filters: the states of the rule-set item, or the rule's own. *)
Definition ruleSetStates (md : InboundContext) (base : Z) : Z :=
  match rs with Some eval => eval (set_DidMatch true md) base | None => singleRuleMatchState base end.

(** The states in which all conditions hold, before inversion. *)
Definition positiveStates (r : abstractDefaultRule) (md : InboundContext) (base : Z) : Z :=
  if forallb (fun it => Match rt it md) (items r)
  then filter_states (ruleSetStates md (Z.lor base (groupState r md))) (allowedState r md)
  else 0.

(** [DidMatch] after the evaluation of every step. *)
Definition touched (r : abstractDefaultRule) (md : InboundContext) : bool :=
  DidMatch md || groupsTouched r md || nonempty (items r) || match rs with Some _ => true | None => false end.

(** An inverted rule whose only conditions are destination CIDRs that are
    being ignored (pre-lookup evaluation of a DNS rule). *)
Definition deferred (r : abstractDefaultRule) (md : InboundContext) : bool :=
  IgnoreDestinationIPCIDRMatch md && (positiveStates r md 0 =? emptyRuleMatchState)
  && negb (touched r md) && nonempty (destinationIPCIDRItems r).

Lemma default_matchStatesWithBase_eq r md base :
  fst (default_matchStatesWithBase rt r rs md base) =
  if no_items r rs then withBase emptyRuleMatchState base
  else if invert r then
    if isEmpty (positiveStates r md 0) || deferred r md then withBase emptyRuleMatchState base else 0
  else positiveStates r md base.
Proof.
  unfold default_matchStatesWithBase. destruct (no_items r rs); [done|].
  rewrite baseState_steps_eq, items_loop_eq.
  unfold deferred, positiveStates, invertedFailure, ruleSetStates, touched.
  assert (isEmpty 0 = true) as H0 by reflexivity.
  destruct (forallb _ _); cbn [negb].
  2:{ rewrite H0. cbn [orb fst]. destruct (invert r); reflexivity. }
  destruct rs as [eval|]; rewrite ?set_DidMatch_twice, ?orb_true_r, ?orb_false_r; cbn beta iota zeta;
    rewrite ?(allowedState_set_DidMatch r); destruct (invert r);
    match goal with |- context [filter_states ?s ?p] => generalize (filter_states s p) end;
    intros S; cbn [IgnoreDestinationIPCIDRMatch DidMatch set_DidMatch]; destruct (isEmpty S) eqn:E;
    cbn [orb fst]; try reflexivity; try (by apply Z.eqb_eq in E as ->);
    match goal with |- context [if ?c then _ else _] => destruct c; reflexivity end.
Qed.

End Metadata.

Section Leaves.
Context `{GE : GoEnv} (rt : RuntimeState).

(** What a default rule leaves in the metadata of its caller. *)
Lemma default_leaves_DidMatch r rs c base :
  exists d, snd (default_matchStatesWithBase rt r rs c base) = set_DidMatch d c.
Proof.
  unfold default_matchStatesWithBase. destruct (no_items r rs); [exists (DidMatch c); by rewrite set_DidMatch_id|].
  rewrite baseState_steps_eq, items_loop_eq. destruct (forallb _ _); cbn [negb]; [|by eexists].
  destruct rs as [eval|]; cbn zeta beta iota; rewrite ?set_DidMatch_twice;
    repeat match goal with |- context [if ?b then _ else _] => destruct b end; by eexists.
Qed.

End Leaves.
