(* ===== verification/RuleTheorems.v ===== *)
(** * Correctness of the rule engine

    What the packed state sets of RuleEngine mean:
    - every state a rule produces extends the base it was evaluated with, and
      enlarging the base never turns a match into a failure;
    - a default rule is the conjunction of its plain items with one
      disjunction per address/port group, negated when inverted, and a
      logical rule is the conjunction or disjunction of its sub-rules,
      negated when inverted;
    - a rule-set item behaves as if each rule of its sets were merged into
      the rule that refers to it. *)
From Stdlib Require Import ZArith Lia Bool.
From S2P Require Import Prelude GoIO Metadata RuleItem DemoEnv MatchState RuleEngine.

(** ** Loops *)

Section Loops.
Context {R : Type} (eval : R -> Z).

Lemma member_merge_loop rules acc st :
  member st (merge_loop eval rules acc) <-> member st acc \/ exists r, r ∈ rules /\ member st (eval r).
Proof.
  revert acc. induction rules as [|r rules IH]; intros acc; cbn [merge_loop].
  - split; [tauto|]. intros [?|(r & ?%not_elem_of_nil & _)]; done.
  - rewrite IH, member_merge. setoid_rewrite elem_of_cons. split.
    + intros [[?|?]|(r' & ? & ?)]; [by left|right; by eauto|right; by eauto].
    + intros [?|(r' & [->|?] & ?)]; [by do 2 left|by left; right|right; by eauto].
Qed.

Lemma is_set_merge_loop rules acc :
  is_set acc -> (forall r, r ∈ rules -> is_set (eval r)) -> is_set (merge_loop eval rules acc).
Proof.
  revert acc. induction rules as [|r rules IH]; intros acc Ha He; cbn [merge_loop]; [done|].
  apply IH; [apply is_set_merge; [done|apply He; left]|]. intros r' Hr. apply He. by right.
Qed.

Lemma isEmpty_merge_loop rules acc :
  isEmpty (merge_loop eval rules acc) = isEmpty acc && forallb (fun r => isEmpty (eval r)) rules.
Proof.
  revert acc. induction rules as [|r rules IH]; intros acc; cbn [merge_loop forallb].
  - by rewrite andb_true_r.
  - by rewrite IH, isEmpty_merge, andb_assoc.
Qed.

Lemma and_loop_None rules acc :
  and_loop eval rules acc = None <-> forallb (fun r => negb (isEmpty (eval r))) rules = false.
Proof.
  revert acc. induction rules as [|r rules IH]; intros acc; cbn [and_loop forallb]; [done|].
  destruct (isEmpty (eval r)); cbn; [done|]. apply IH.
Qed.

(** The states of a conjunction: one state per sub-rule, or-ed together. *)
Lemma and_loop_member rules acc s :
  is_set acc -> (forall r, r ∈ rules -> is_set (eval r)) -> and_loop eval rules acc = Some s ->
  is_set s /\
  forall st, member st s <->
    exists st0 sts, member st0 acc /\ Forall2 (fun r x => member x (eval r)) rules sts /\
                    st = fold_left Z.lor sts st0.
Proof.
  revert acc. induction rules as [|r rules IH]; intros acc Ha He H; cbn [and_loop] in H.
  - simplify_eq. split; [done|]. intros st. split.
    + intros Hm. exists st, []. by split_and!.
    + intros (st0 & sts & Hm & Hf & ->). by apply Forall2_nil_inv_l in Hf as ->.
  - destruct (isEmpty (eval r)); [done|].
    assert (is_set (eval r)) as Hr by (apply He; left).
    apply IH in H as [Hs Hm]; [|auto with go|intros r' Hr'; apply He; by right].
    split; [done|]. intros st. rewrite Hm. split.
    + intros (st1 & sts & Hst & Hf & ->). apply member_combine in Hst as (a & b & ? & ? & ->); [|done..].
      exists a, (b :: sts). split_and!; [done|by constructor|done].
    + intros (st0 & sts & Hst & Hf & ->). apply Forall2_cons_inv_l in Hf as (b & sts' & ? & ? & ->).
      exists (Z.lor st0 b), sts'. split_and!; [|done|done].
      rewrite member_combine by done. eauto.
Qed.

Lemma and_loop_nonempty rules acc s :
  is_set acc -> (forall r, r ∈ rules -> is_set (eval r)) ->
  isEmpty acc = false -> and_loop eval rules acc = Some s -> isEmpty s = false.
Proof.
  revert acc. induction rules as [|r rules IH]; intros acc Ha He Hn H; cbn [and_loop] in H; [by simplify_eq|].
  assert (is_set (eval r)) as Hr by (apply He; left).
  destruct (isEmpty (eval r)) eqn:E; [done|].
  apply (IH (combine acc (eval r))); [auto with go| |by rewrite isEmpty_combine, Hn, E|done].
  intros r' Hr'. apply He. by right.
Qed.

End Loops.

Lemma forallb_negb_existsb {A} (f : A -> bool) l : forallb (fun x => negb (f x)) l = negb (existsb f l).
Proof. induction l as [|x l IH]; [done|]. cbn. by rewrite IH, negb_orb. Qed.

Lemma existsb_In {A} (f : A -> bool) l : existsb f l = true <-> exists x, x ∈ l /\ f x = true.
Proof. rewrite existsb_exists. by setoid_rewrite <- list_elem_of_In. Qed.

Lemma forallb_In {A} (f : A -> bool) l : forallb f l = true <-> forall x, x ∈ l -> f x = true.
Proof. rewrite forallb_forall. by setoid_rewrite <- list_elem_of_In. Qed.

Section WithEnv.
Context `{GE : GoEnv} (rt : RuntimeState).

Abbreviation eval := (matchStatesWithBase rt).

(** The evaluation of the rule-set item of a default rule. *)
Definition evalItem (o : option (RuleSetItem Rule)) : option (InboundContext -> Z -> Z) :=
  match o with None => None | Some item => Some (ruleSetItem_matchStatesWithBase eval item) end.

Lemma eval_DefaultRule r o md b :
  eval (DefaultRule r o) md b = fst (default_matchStatesWithBase rt r (evalItem o) md b).
Proof. by destruct o. Qed.

Lemma no_items_evalItem r o : no_items r (evalItem o) = no_items r o.
Proof. by destruct o. Qed.

(** ** Every result is a state set extending its base *)

Definition sound_eval (e : InboundContext -> Z -> Z) : Prop :=
  forall md b, is_state b -> is_set (e md b) /\ forall st, member st (e md b) -> extends b st.

Lemma member_withBase_empty st b :
  is_state b -> member st (withBase emptyRuleMatchState b) <-> st = b.
Proof.
  intros Hb. rewrite member_withBase by auto with go. setoid_rewrite member_empty. split.
  - intros (st' & -> & ->). apply Z.lor_0_l.
  - intros ->. exists 0. by rewrite Z.lor_0_l.
Qed.

Lemma sound_withBase_empty b :
  is_state b -> is_set (withBase emptyRuleMatchState b) /\
  forall st, member st (withBase emptyRuleMatchState b) -> extends b st.
Proof.
  intros Hb. split; [auto with go|]. intros st Hm. apply member_withBase_empty in Hm as ->; [|done].
  apply extends_refl.
Qed.

Lemma sound_0 (b : Z) : is_set 0 /\ forall st, member st 0 -> extends b st.
Proof. split; [auto with go|]. intros st []%member_0. Qed.

Lemma sound_merge_loop {R} (e : R -> Z) rules (b : Z) :
  (forall r, r ∈ rules -> is_set (e r) /\ forall st, member st (e r) -> extends b st) ->
  is_set (merge_loop e rules 0) /\ forall st, member st (merge_loop e rules 0) -> extends b st.
Proof.
  intros H. split.
  - apply is_set_merge_loop; [auto with go|]. intros r Hr. apply H, Hr.
  - intros st [[]%member_0|(r & Hr & Hm)]%member_merge_loop. by eapply H.
Qed.

Lemma sound_ruleSetItem item :
  Forall (Forall (fun rule => sound_eval (eval rule))) (setList item) ->
  sound_eval (ruleSetItem_matchStatesWithBase eval item).
Proof.
  intros H md b Hb. rewrite Forall_forall in H. apply sound_merge_loop. intros rules Hrules.
  apply sound_merge_loop. intros rule Hrule. specialize (H _ Hrules).
  rewrite Forall_forall in H. by apply H.
Qed.

Lemma sound_positiveStates r o md b :
  is_state b -> (forall e, o = Some e -> sound_eval e) ->
  is_set (positiveStates rt o r md b) /\
  forall st, member st (positiveStates rt o r md b) -> extends (Z.lor b (groupState rt r md)) st.
Proof.
  intros Hb Ho. unfold positiveStates. destruct (forallb _ _); [|apply sound_0].
  split; [auto with go|]. intros st [Hm _]%member_filter.
  assert (is_state (Z.lor b (groupState rt r md))) as Hs by (apply is_state_lor; [done|apply is_state_groupState]).
  unfold ruleSetStates in Hm. destruct o as [e|].
  - by eapply Ho.
  - apply member_single in Hm as ->; [|done]. apply extends_refl.
Qed.

Lemma extends_lor_inv b g st : extends (Z.lor b g) st -> extends b st.
Proof.
  unfold extends. intros H. apply Z.bits_inj'. intros n Hn.
  apply (f_equal (fun z => Z.testbit z n)) in H. rewrite !Z.lor_spec in *.
  by destruct (Z.testbit st n), (Z.testbit b n).
Qed.

Lemma sound_default r o :
  (forall item, o = Some item -> Forall (Forall (fun rule => sound_eval (eval rule))) (setList item)) ->
  sound_eval (eval (DefaultRule r o)).
Proof.
  intros Ho md b Hb. rewrite eval_DefaultRule, default_matchStatesWithBase_eq.
  destruct (no_items _ _); [by apply sound_withBase_empty|].
  destruct (invert r).
  - destruct (_ || _); [by apply sound_withBase_empty|apply sound_0].
  - destruct (sound_positiveStates r (evalItem o) md b) as [Hs Hm]; [done| |].
    + intros e He. destruct o as [item|]; [|done]. cbn in He. simplify_eq. apply sound_ruleSetItem. by apply Ho.
    + split; [done|]. intros st Hst. by eapply extends_lor_inv, Hm.
Qed.

Lemma extends_fold_lor b st0 sts : extends b st0 -> extends b (fold_left Z.lor sts st0).
Proof. revert st0. induction sts as [|x sts IH]; intros st0 H; cbn; [done|]. by apply IH, extends_lor_l. Qed.

Lemma sound_logical mode rules inverted :
  Forall (fun rule => sound_eval (eval rule)) rules -> sound_eval (eval (LogicalRule mode rules inverted)).
Proof.
  intros H md b Hb. rewrite Forall_forall in H.
  change (eval (LogicalRule mode rules inverted) md b)
    with (logical_matchStatesWithBase mode inverted eval rules md b).
  unfold logical_matchStatesWithBase.
  assert (is_state (if inverted then 0 else b)) as Heb by (destruct inverted; auto with go).
  destruct mode.
  - destruct (and_loop _ _ _) as [s|] eqn:E; destruct inverted;
      auto using sound_0, sound_withBase_empty.
    apply and_loop_member in E as [Hs Hm]; [|auto with go|].
    + split; [done|]. intros st (st0 & sts & H0 & _ & ->)%Hm.
      apply extends_fold_lor. by apply sound_withBase_empty.
    + intros r Hr. by apply H.
  - destruct (isEmpty _); destruct inverted; auto using sound_0, sound_withBase_empty.
    apply sound_merge_loop. intros r Hr. by apply H.
Qed.

Lemma sound_rule rule : sound_eval (eval rule).
Proof. induction rule using Rule_tree_ind; auto using sound_default, sound_logical. Qed.

Lemma is_set_eval rule md b : is_state b -> is_set (eval rule md b).
Proof. intros Hb. by apply sound_rule. Qed.

(** ** Monotonicity in the base *)

(** Every state of [s] is contained in a state of [s']. *)
Definition upward (s s' : Z) : Prop :=
  forall st, member st s -> exists st', member st' s' /\ extends st st'.

Definition monotone_eval (e : InboundContext -> Z -> Z) : Prop :=
  forall md b b', is_state b -> is_state b' -> extends b b' -> upward (e md b) (e md b').

Lemma extends_lor_mono a b a' b' : extends a a' -> extends b b' -> extends (Z.lor a b) (Z.lor a' b').
Proof.
  unfold extends. intros H1 H2. apply Z.bits_inj'. intros n Hn.
  apply (f_equal (fun z => Z.testbit z n)) in H1, H2. rewrite !Z.lor_spec in *.
  by destruct (Z.testbit a n), (Z.testbit a' n), (Z.testbit b n), (Z.testbit b' n).
Qed.

Lemma upward_withBase_empty b b' :
  is_state b -> is_state b' -> extends b b' ->
  upward (withBase emptyRuleMatchState b) (withBase emptyRuleMatchState b').
Proof.
  intros Hb Hb' He st Hm. apply member_withBase_empty in Hm as ->; [|done].
  exists b'. by rewrite member_withBase_empty.
Qed.

Lemma upward_0 s : upward 0 s.
Proof. intros st []%member_0. Qed.

Lemma upward_merge_loop {R} (e e' : R -> Z) rules :
  (forall r, r ∈ rules -> upward (e r) (e' r)) -> upward (merge_loop e rules 0) (merge_loop e' rules 0).
Proof.
  intros H st [[]%member_0|(r & Hr & Hm)]%member_merge_loop.
  destruct (H r Hr st Hm) as (st' & Hm' & He). exists st'. split; [|done].
  apply member_merge_loop. right. by exists r.
Qed.

Lemma allowedState_mono r md st st' :
  extends st st' -> allowedState r md st = true -> allowedState r md st' = true.
Proof.
  intros He. unfold allowedState.
  assert (forall f, negb (has st' f) = true -> negb (has st f) = true) as Hn.
  { intros f. rewrite !negb_true_iff. intros H. destruct (has st f) eqn:E; [|done].
    apply (has_extends _ _ _ He) in E. congruence. }
  repeat match goal with |- context [?q && negb (has st' ?f)] =>
    destruct (negb (has st' f)) eqn:?; [rewrite (Hn f) by done|rewrite (andb_false_r q)] end;
  repeat (destruct (_ && _); try done).
Qed.

Lemma monotone_ruleSetItem item :
  Forall (Forall (fun rule => monotone_eval (eval rule))) (setList item) ->
  monotone_eval (ruleSetItem_matchStatesWithBase eval item).
Proof.
  intros H md b b' Hb Hb' He. rewrite Forall_forall in H.
  apply upward_merge_loop. intros rules Hrules. apply upward_merge_loop. intros rule Hrule.
  specialize (H _ Hrules). rewrite Forall_forall in H. by apply H.
Qed.

Lemma monotone_default r o :
  (forall item, o = Some item -> Forall (Forall (fun rule => monotone_eval (eval rule))) (setList item)) ->
  monotone_eval (eval (DefaultRule r o)).
Proof.
  intros Ho md b b' Hb Hb' He. rewrite !eval_DefaultRule, !default_matchStatesWithBase_eq.
  destruct (no_items _ _); [by apply upward_withBase_empty|].
  destruct (invert r).
  { destruct (_ || _); [by apply upward_withBase_empty|apply upward_0]. }
  unfold positiveStates. destruct (forallb _ _); [|apply upward_0].
  set (g := groupState rt r md).
  assert (is_state g) as Hg by apply is_state_groupState.
  assert (extends (Z.lor b g) (Z.lor b' g)) as Heg by (apply extends_lor_mono; [done|apply extends_refl]).
  intros st [Hm Ha]%member_filter.
  assert (exists st', member st' (ruleSetStates (evalItem o) md (Z.lor b' g)) /\ extends st st') as (st' & Hm' & He').
  { unfold ruleSetStates in *. destruct o as [item|]; cbn [evalItem] in *.
    - eapply (monotone_ruleSetItem item (Ho item eq_refl)); [..|exact Hm]; auto with go.
    - apply member_single in Hm as ->; [|auto with go].
      exists (Z.lor b' g). rewrite member_single by auto with go. done. }
  exists st'. split; [|done]. apply member_filter. split; [done|]. by eapply allowedState_mono.
Qed.

Lemma extends_fold_lor_mono sts sts' st0 st0' :
  extends st0 st0' -> Forall2 extends sts sts' ->
  extends (fold_left Z.lor sts st0) (fold_left Z.lor sts' st0').
Proof.
  intros H0 H. revert st0 st0' H0. induction H as [|x x' sts sts' Hx _ IH]; intros st0 st0' H0; cbn; [done|].
  apply IH. by apply extends_lor_mono.
Qed.

Lemma Forall2_upward {R} (e e' : R -> Z) rules sts :
  (forall r, r ∈ rules -> upward (e r) (e' r)) -> Forall2 (fun r x => member x (e r)) rules sts ->
  exists sts', Forall2 (fun r x => member x (e' r)) rules sts' /\ Forall2 extends sts sts'.
Proof.
  intros Hu H. induction H as [|r x rules sts Hx _ IH]; [by exists []|].
  destruct IH as (sts' & ? & ?); [intros r' Hr'; apply Hu; by right|].
  destruct (Hu r ltac:(left) x Hx) as (x' & ? & ?). exists (x' :: sts'). split; by constructor.
Qed.

Lemma monotone_logical mode rules inverted :
  Forall (fun rule => monotone_eval (eval rule)) rules -> monotone_eval (eval (LogicalRule mode rules inverted)).
Proof.
  intros H md b b' Hb Hb' He. rewrite Forall_forall in H.
  change (upward (logical_matchStatesWithBase mode inverted eval rules md b)
                 (logical_matchStatesWithBase mode inverted eval rules md b')).
  unfold logical_matchStatesWithBase. destruct inverted.
  { destruct mode; [destruct (and_loop _ _ _)|destruct (isEmpty _)];
      auto using upward_0, upward_withBase_empty. }
  assert (forall r, r ∈ rules -> upward (eval r (ResetRuleCache md) b) (eval r (ResetRuleCache md) b')) as Hu.
  { intros r Hr. by apply H. }
  assert (forall b r, is_state b -> r ∈ rules -> is_set (eval r (ResetRuleCache md) b)) as Hset.
  { intros. by apply is_set_eval. }
  destruct mode.
  - destruct (and_loop _ _ (withBase _ b)) as [s|] eqn:E; [|apply upward_0].
    destruct (and_loop _ _ (withBase _ b')) as [s'|] eqn:E'.
    + apply and_loop_member in E as [_ Hm]; [|auto with go..].
      apply and_loop_member in E' as [_ Hm']; [|auto with go..].
      intros st (st0 & sts & H0 & Hf & ->)%Hm.
      apply member_withBase_empty in H0 as ->; [|done].
      destruct (Forall2_upward _ _ _ _ Hu Hf) as (sts' & Hf' & Hex).
      exists (fold_left Z.lor sts' b'). split; [|by apply extends_fold_lor_mono].
      apply Hm'. exists b', sts'. by rewrite member_withBase_empty.
    + exfalso. apply and_loop_None in E'.
      assert (and_loop (fun rule => eval rule (ResetRuleCache md) b) rules
                (withBase emptyRuleMatchState b) <> None) as E1 by congruence.
      rewrite and_loop_None, not_false_iff_true, forallb_In in E1.
      apply not_true_iff_false in E'. apply E', forallb_In. intros r Hr.
      specialize (E1 r Hr). apply negb_true_iff in E1.
      apply nonempty_spec in E1 as [st Hst]; [|by apply Hset].
      destruct (Hu r Hr st Hst) as (st' & ? & _).
      apply negb_true_iff, nonempty_spec; [by apply Hset|]. by exists st'.
  - destruct (isEmpty _) eqn:E; [apply upward_0|].
    intros st Hst. apply (upward_merge_loop _ _ _ Hu) in Hst as (st' & Hst' & ?).
    destruct (isEmpty (merge_loop (fun rule => eval rule (ResetRuleCache md) b') rules 0)) eqn:E'; [|by exists st'].
    rewrite isEmpty_spec in E' by (apply is_set_merge_loop; auto with go). by destruct (E' st').
Qed.

Lemma monotone_rule rule : monotone_eval (eval rule).
Proof. induction rule using Rule_tree_ind; auto using monotone_default, monotone_logical. Qed.

(** ** Boolean semantics *)

(** Items do not see the rule-set flags unless they are address items. *)
Definition default_positive (r : abstractDefaultRule) (md : InboundContext) : bool :=
  forallb (fun it => Match rt it md) (items r)
  && (negb (requiresSourceAddressMatch r md) || sourceGroup rt r md)
  && (negb (nonempty (sourcePortItems r)) || matchAnyItem rt (sourcePortItems r) md)
  && (negb (requiresDestinationAddressMatch r md) || destinationGroup rt r md)
  && (negb (nonempty (destinationPortItems r)) || matchAnyItem rt (destinationPortItems r) md).

Lemma has_groupState r md :
  has (groupState rt r md) ruleMatchSourceAddress = sourceGroup rt r md /\
  has (groupState rt r md) ruleMatchSourcePort = matchAnyItem rt (sourcePortItems r) md /\
  has (groupState rt r md) ruleMatchDestinationAddress = destinationGroup rt r md /\
  has (groupState rt r md) ruleMatchDestinationPort = matchAnyItem rt (destinationPortItems r) md.
Proof.
  unfold groupState.
  destruct (sourceGroup rt r md), (matchAnyItem rt (sourcePortItems r) md),
    (destinationGroup rt r md), (matchAnyItem rt (destinationPortItems r) md); by split_and!.
Qed.

Lemma allowed_groupState r md :
  forallb (fun it => Match rt it md) (items r) && allowedState r md (groupState rt r md) = default_positive r md.
Proof.
  destruct (has_groupState r md) as (H1 & H2 & H3 & H4).
  unfold allowedState, default_positive. rewrite H1, H2, H3, H4.
  rewrite <- !andb_assoc. f_equal.
  destruct (requiresSourceAddressMatch r md), (sourceGroup rt r md), (nonempty (sourcePortItems r)),
    (matchAnyItem rt (sourcePortItems r) md), (requiresDestinationAddressMatch r md), (destinationGroup rt r md),
    (nonempty (destinationPortItems r)), (matchAnyItem rt (destinationPortItems r) md); reflexivity.
Qed.

Lemma isEmpty_filter_single st p : is_state st -> isEmpty (filter_states (singleRuleMatchState st) p) = negb (p st).
Proof.
  intros Hst. destruct (p st) eqn:E; cbn [negb].
  - apply nonempty_spec; [auto with go|]. exists st. by rewrite member_filter, member_single.
  - apply isEmpty_spec; [auto with go|]. intros st' [Hm Hp]%member_filter.
    apply member_single in Hm as ->; congruence.
Qed.

Lemma isEmpty_positiveStates r md :
  isEmpty (positiveStates rt None r md 0) = negb (default_positive r md).
Proof.
  rewrite <- allowed_groupState. unfold positiveStates, ruleSetStates.
  destruct (forallb _ _); [|done]. rewrite Z.lor_0_l. by rewrite isEmpty_filter_single by apply is_state_groupState.
Qed.

Lemma isEmpty_withBase_empty b : is_state b -> isEmpty (withBase emptyRuleMatchState b) = false.
Proof. intros Hb. by rewrite isEmpty_withBase by auto with go. Qed.

Lemma deferred_not_ignoring o r md :
  IgnoreDestinationIPCIDRMatch md = false -> deferred rt o r md = false.
Proof. intros H. unfold deferred. by rewrite H. Qed.

(** Nothing but destination CIDRs, and these are ignored; nothing was evaluated before. *)
Definition only_ignored_cidrs (r : abstractDefaultRule) (md : InboundContext) : bool :=
  IgnoreDestinationIPCIDRMatch md && nonempty (destinationIPCIDRItems r) && negb (DidMatch md)
  && negb (nonempty (items r) || nonempty (sourceAddressItems r) || nonempty (sourcePortItems r)
           || nonempty (destinationAddressItems r) || nonempty (destinationPortItems r)).

Lemma deferred_only r md : deferred rt None r md = only_ignored_cidrs r md.
Proof.
  unfold deferred, only_ignored_cidrs, touched, groupsTouched, destinationIPCIDRMatchesSource, destinationIPCIDRMatchesDestination.
  destruct (IgnoreDestinationIPCIDRMatch md) eqn:Ei; [|done]. cbn [negb andb]. rewrite !orb_false_r.
  destruct (DidMatch md); [cbn; by rewrite !andb_false_r|]. cbn [orb negb]. rewrite andb_true_r.
  destruct (items r) eqn:E1, (sourceAddressItems r) eqn:E2, (sourcePortItems r) eqn:E3, (destinationAddressItems r) eqn:E4, (destinationPortItems r) eqn:E5;
    cbn [nonempty orb negb]; rewrite ?andb_false_r, ?andb_false_l; try done.
  assert (positiveStates rt None r md 0 = emptyRuleMatchState) as ->; [|by rewrite Z.eqb_refl, !andb_true_r].
  unfold positiveStates, ruleSetStates, groupState, sourceGroup, destinationGroup, allowedState, requiresSourceAddressMatch, requiresDestinationAddressMatch,
    destinationIPCIDRMatchesSource, destinationIPCIDRMatchesDestination. rewrite Ei, E1, E2, E3, E4, E5. reflexivity.
Qed.

(** ** Merging a rule of a rule-set into the rule that refers to it *)

(** The rule with the items of both, group by group. *)
Definition merge_rules (f g : abstractDefaultRule) : abstractDefaultRule :=
  {| items := items f ++ items g;
     sourceAddressItems := sourceAddressItems f ++ sourceAddressItems g;
     sourcePortItems := sourcePortItems f ++ sourcePortItems g;
     destinationAddressItems := destinationAddressItems f ++ destinationAddressItems g;
     destinationIPCIDRItems := destinationIPCIDRItems f ++ destinationIPCIDRItems g;
     destinationPortItems := destinationPortItems f ++ destinationPortItems g;
     allItems := allItems f ++ allItems g;
     invert := invert f |}.

Definition uninvert (r : abstractDefaultRule) : abstractDefaultRule :=
  {| items := items r; sourceAddressItems := sourceAddressItems r; sourcePortItems := sourcePortItems r;
     destinationAddressItems := destinationAddressItems r; destinationIPCIDRItems := destinationIPCIDRItems r;
     destinationPortItems := destinationPortItems r; allItems := allItems r; invert := false |}.

(** [allItems] lists the items of the groups (proved of the constructors in HeadlessRule). *)
Definition wf_rule (r : abstractDefaultRule) : Prop :=
  allItems r ≡ₚ items r ++ sourceAddressItems r ++ sourcePortItems r ++
                destinationAddressItems r ++ destinationIPCIDRItems r ++ destinationPortItems r.

Lemma matchAnyItem_app l1 l2 md : matchAnyItem rt (l1 ++ l2) md = matchAnyItem rt l1 md || matchAnyItem rt l2 md.
Proof. apply existsb_app. Qed.

Lemma nonempty_app {A} (l1 l2 : list A) : nonempty (l1 ++ l2) = nonempty l1 || nonempty l2.
Proof. by destruct l1. Qed.

Lemma matchAnyItem_nonempty l md : nonempty l && matchAnyItem rt l md = matchAnyItem rt l md.
Proof. by destruct l. Qed.

Lemma sourceGroup_merge f g md : sourceGroup rt (merge_rules f g) md = sourceGroup rt f md || sourceGroup rt g md.
Proof.
  unfold sourceGroup, destinationIPCIDRMatchesSource. cbn [merge_rules sourceAddressItems destinationIPCIDRItems].
  rewrite <- !andb_assoc, !matchAnyItem_nonempty, !matchAnyItem_app.
  destruct (negb (IgnoreDestinationIPCIDRMatch md)), (IPCIDRMatchSource md); cbn [andb];
    repeat match goal with |- context [matchAnyItem rt ?l md] => destruct (matchAnyItem rt l md) end; reflexivity.
Qed.

Lemma destinationGroup_merge f g md :
  destinationGroup rt (merge_rules f g) md = destinationGroup rt f md || destinationGroup rt g md.
Proof.
  unfold destinationGroup, destinationIPCIDRMatchesDestination. cbn [merge_rules destinationAddressItems destinationIPCIDRItems].
  rewrite <- !andb_assoc, !matchAnyItem_nonempty, !matchAnyItem_app.
  destruct (negb (IgnoreDestinationIPCIDRMatch md)), (IPCIDRMatchSource md); cbn [andb negb];
    repeat match goal with |- context [matchAnyItem rt ?l md] => destruct (matchAnyItem rt l md) end; reflexivity.
Qed.

Lemma groupState_merge f g md :
  groupState rt (merge_rules f g) md = Z.lor (groupState rt f md) (groupState rt g md).
Proof.
  unfold groupState. rewrite sourceGroup_merge, destinationGroup_merge. cbn [merge_rules sourcePortItems destinationPortItems].
  rewrite !matchAnyItem_app.
  destruct (sourceGroup rt f md), (sourceGroup rt g md), (destinationGroup rt f md), (destinationGroup rt g md);
    repeat match goal with |- context [matchAnyItem rt ?l md] => destruct (matchAnyItem rt l md) end; reflexivity.
Qed.

Lemma allowedState_merge f g md st :
  allowedState (merge_rules f g) md st = allowedState f md st && allowedState g md st.
Proof.
  unfold allowedState, requiresSourceAddressMatch, requiresDestinationAddressMatch,
    destinationIPCIDRMatchesSource, destinationIPCIDRMatchesDestination.
  cbn [merge_rules sourceAddressItems sourcePortItems destinationAddressItems destinationIPCIDRItems destinationPortItems].
  rewrite !nonempty_app.
  destruct (has st ruleMatchSourceAddress), (has st ruleMatchSourcePort),
    (has st ruleMatchDestinationAddress), (has st ruleMatchDestinationPort),
    (IgnoreDestinationIPCIDRMatch md), (IPCIDRMatchSource md); cbn [negb andb orb];
    rewrite ?andb_false_r, ?andb_true_r, ?orb_false_r;
    repeat match goal with |- context [nonempty ?l] => destruct (nonempty l) end; reflexivity.
Qed.

(** A rule without items imposes nothing. *)
Lemma wf_no_items r : wf_rule r -> allItems r = [] ->
  items r = [] /\ sourceAddressItems r = [] /\ sourcePortItems r = [] /\ destinationAddressItems r = [] /\
  destinationIPCIDRItems r = [] /\ destinationPortItems r = [].
Proof.
  unfold wf_rule. intros H E. rewrite E in H. apply Permutation_nil_l in H. symmetry in H.
  repeat (apply app_eq_nil in H as [? H]). by split_and!.
Qed.

(** An un-inverted default rule without rule-set item has at most one state. *)
Lemma eval_simple r md b :
  wf_rule r -> invert r = false -> is_state b ->
  eval (DefaultRule r None) md b = positiveStates rt None r md b.
Proof.
  intros Hwf Hi Hb. rewrite eval_DefaultRule, default_matchStatesWithBase_eq, Hi. cbn [evalItem].
  destruct (no_items r None) eqn:E; [|done]. unfold no_items in E. rewrite andb_true_r in E.
  destruct (allItems r) eqn:Ea; [|done].
  destruct (wf_no_items r Hwf Ea) as (H1 & H2 & H3 & H4 & H5 & H6).
  unfold positiveStates, groupState, sourceGroup, destinationGroup, allowedState,
    requiresSourceAddressMatch, requiresDestinationAddressMatch,
    destinationIPCIDRMatchesSource, destinationIPCIDRMatchesDestination.
  rewrite H1, H2, H3, H4, H5, H6. cbn [forallb nonempty matchAnyItem existsb].
  rewrite !andb_false_r. cbn [orb andb]. rewrite !Z.lor_0_r.
  apply set_ext; [apply is_set_withBase|apply is_set_filter|]. intros st. rewrite member_withBase_empty, member_filter by done.
  unfold ruleSetStates. rewrite member_single by done. tauto.
Qed.

Lemma member_positive_simple r md b st :
  is_state b ->
  member st (positiveStates rt None r md b) <->
  forallb (fun it => Match rt it md) (items r) = true /\ st = Z.lor b (groupState rt r md) /\ allowedState r md st = true.
Proof.
  intros Hb. unfold positiveStates, ruleSetStates. destruct (forallb _ _).
  - rewrite member_filter, member_single by (apply is_state_lor; [done|apply is_state_groupState]). tauto.
  - split; [intros []%member_0|]. by intros (? & _).
Qed.

(** The metadata the rules of a rule-set are evaluated on. *)
Definition nestedMetadata (src empty : bool) (md : InboundContext) : InboundContext :=
  ResetRuleMatchCache (set_IPCIDRFlags src empty (ResetRuleMatchCache md)).

Lemma Match_nested it md :
  Match rt it (nestedMetadata (IPCIDRMatchSource md) (IPCIDRAcceptEmpty md) md) = Match rt it md.
Proof. by destruct it. Qed.

Lemma nested_any its md :
  matchAnyItem rt its (nestedMetadata (IPCIDRMatchSource md) (IPCIDRAcceptEmpty md) md) = matchAnyItem rt its md.
Proof.
  unfold matchAnyItem. induction its as [|it its IH]; [done|].
  cbn [existsb]. by rewrite Match_nested, IH.
Qed.

Lemma nested_all its md :
  forallb (fun it => Match rt it (nestedMetadata (IPCIDRMatchSource md) (IPCIDRAcceptEmpty md) md)) its
  = forallb (fun it => Match rt it md) its.
Proof. induction its as [|it its IH]; [done|]. cbn [forallb]. by rewrite Match_nested, IH. Qed.

Lemma nested_groupState g md :
  groupState rt g (nestedMetadata (IPCIDRMatchSource md) (IPCIDRAcceptEmpty md) md) = groupState rt g md.
Proof.
  unfold groupState, sourceGroup, destinationGroup. by rewrite !nested_any.
Qed.

Lemma reset_all its md :
  forallb (fun it => Match rt it (ResetRuleMatchCache md)) its = forallb (fun it => Match rt it md) its.
Proof. induction its as [|it its IH]; [done|]. cbn [forallb]. by rewrite Match_ResetRuleMatchCache, IH. Qed.

Lemma reset_any its md : matchAnyItem rt its (ResetRuleMatchCache md) = matchAnyItem rt its md.
Proof.
  unfold matchAnyItem. induction its as [|it its IH]; [done|].
  cbn [existsb]. by rewrite Match_ResetRuleMatchCache, IH.
Qed.

Lemma reset_groupState g md : groupState rt g (ResetRuleMatchCache md) = groupState rt g md.
Proof. unfold groupState, sourceGroup, destinationGroup. by rewrite !reset_any. Qed.

Lemma wf_merge_rules f g : wf_rule f -> wf_rule g -> wf_rule (merge_rules f g).
Proof.
  unfold wf_rule. intros Hf Hg.
  cbn [merge_rules items sourceAddressItems sourcePortItems destinationAddressItems destinationIPCIDRItems destinationPortItems allItems].
  rewrite Hf, Hg. solve_Permutation.
Qed.

(** The states a rule-set item of simple rules contributes. *)
Lemma member_simple_ruleSets gss md b st :
  is_state b -> Forall (Forall (fun g => wf_rule g /\ invert g = false)) gss ->
  member st (ruleSetItem_matchStatesWithBase eval
     (mkRuleSetItem (map (map (fun g => DefaultRule g None)) gss) (IPCIDRMatchSource md) (IPCIDRAcceptEmpty md))
     (set_DidMatch true md) b) <->
  exists g, g ∈ concat gss /\ forallb (fun it => Match rt it md) (items g) = true /\
            st = Z.lor b (groupState rt g md) /\ allowedState g md st = true.
Proof.
  intros Hb Hgss. unfold ruleSetItem_matchStatesWithBase, ruleSet_matchStatesWithBase.
  cbn [setList ipCidrMatchSource ipCidrAcceptEmpty].
  rewrite member_merge_loop. rewrite Forall_forall in Hgss.
  assert (forall g gs, gs ∈ gss -> g ∈ gs ->
    (member st (eval (DefaultRule g None) (nestedMetadata (IPCIDRMatchSource md) (IPCIDRAcceptEmpty md) md) b) <->
     forallb (fun it => Match rt it md) (items g) = true /\
     st = Z.lor b (groupState rt g md) /\ allowedState g md st = true)) as Hg.
  { intros g gs Hgs Hin. specialize (Hgss gs Hgs). rewrite Forall_forall in Hgss.
    destruct (Hgss g Hin) as [Hwf Hi].
    rewrite eval_simple by done. rewrite member_positive_simple by done.
    rewrite nested_all, nested_groupState. done. }
  split.
  - intros [[]%member_0|(rules & (gs & -> & Hgs)%list_elem_of_fmap & Hm)].
    apply member_merge_loop in Hm as [[]%member_0|(rule & (g & -> & Hin)%list_elem_of_fmap & Hm)].
    exists g. split; [apply list_elem_of_In, in_concat; exists gs; by rewrite <- !list_elem_of_In|].
    by apply (Hg g gs).
  - intros (g & Hc & Hm). apply list_elem_of_In, in_concat in Hc as (gs & Hgs & Hin).
    apply list_elem_of_In in Hgs. apply list_elem_of_In in Hin. right.
    exists (map (fun g => DefaultRule g None) gs). split; [apply list_elem_of_fmap; by exists gs|].
    apply member_merge_loop. right. exists (DefaultRule g None).
    split; [apply list_elem_of_fmap; by exists g|]. by apply (Hg g gs).
Qed.

End WithEnv.

Arguments default_positive {GE} rt r md.
Arguments merge_rules {GE} f g.
Arguments wf_rule {GE} r.

(** The outcome of a default rule without rule-set item. *)
Lemma Rule_Match_default `{GE : GoEnv} (rt : RuntimeState) (r : abstractDefaultRule) (md : InboundContext) :
  IgnoreDestinationIPCIDRMatch md = false ->
  Rule_Match rt (DefaultRule r None) md =
  if no_items r (@None unit) then true else xorb (invert r) (default_positive rt r md).
Proof.
  intros Hi. unfold Rule_Match, matchStates. rewrite eval_DefaultRule, default_matchStatesWithBase_eq.
  cbn [evalItem]. change (no_items r None) with (no_items r (@None unit)).
  destruct (no_items r (@None unit)); [by rewrite isEmpty_withBase_empty by auto with go|].
  rewrite deferred_not_ignoring, orb_false_r by done. destruct (invert r).
  - rewrite isEmpty_positiveStates. destruct (default_positive rt r md); [reflexivity|].
    cbn [negb]. by rewrite isEmpty_withBase_empty by auto with go.
  - rewrite isEmpty_positiveStates, negb_involutive. by destruct (default_positive rt r md).
Qed.

(** The outcome of a logical rule. *)
Lemma Rule_Match_logical `{GE : GoEnv} (rt : RuntimeState) (mode : LogicalMode) (rules : list Rule)
    (inverted : bool) (md : InboundContext) :
  Rule_Match rt (LogicalRule mode rules inverted) md =
  xorb inverted
    (match mode with
     | LogicalTypeAnd => forallb (fun rule => Rule_Match rt rule (ResetRuleCache md)) rules
     | LogicalTypeOr => existsb (fun rule => Rule_Match rt rule (ResetRuleCache md)) rules
     end).
Proof.
  unfold Rule_Match at 1, matchStates.
  change (matchStatesWithBase rt (LogicalRule mode rules inverted) md 0)
    with (logical_matchStatesWithBase mode inverted (matchStatesWithBase rt) rules md 0).
  unfold logical_matchStatesWithBase.
  assert ((if inverted then 0 else 0) = 0) as -> by by destruct inverted.
  pose proof (isEmpty_withBase_empty 0 is_state_0) as H0.
  destruct mode.
  - destruct (and_loop _ _ _) as [s|] eqn:E.
    + assert (forallb (fun rule => Rule_Match rt rule (ResetRuleCache md)) rules = true) as ->.
      { apply not_false_iff_true. intros Hf.
        assert (and_loop (fun rule => matchStatesWithBase rt rule (ResetRuleCache md) 0) rules
                  (withBase emptyRuleMatchState 0) = None) by by apply and_loop_None. congruence. }
      destruct inverted; [reflexivity|].
      apply and_loop_nonempty in E; [by rewrite E|auto with go| |done].
      intros r _. apply is_set_eval. auto with go.
    + apply and_loop_None in E. unfold Rule_Match, matchStates. rewrite E.
      destruct inverted; [by rewrite H0|reflexivity].
  - pose proof (isEmpty_merge_loop (fun rule => matchStatesWithBase rt rule (ResetRuleCache md) 0) rules 0) as Hm.
    change (isEmpty 0) with true in Hm. cbn [andb] in Hm.
    assert (existsb (fun rule => Rule_Match rt rule (ResetRuleCache md)) rules =
            negb (isEmpty (merge_loop (fun rule => matchStatesWithBase rt rule (ResetRuleCache md) 0) rules 0))) as ->.
    { rewrite Hm. clear. induction rules as [|r rules IH]; [done|]. cbn [existsb forallb].
      rewrite IH, negb_andb. done. }
    destruct (isEmpty (merge_loop _ _ _)) eqn:E; destruct inverted; rewrite ?H0, ?E; reflexivity.
Qed.

(** ** Properties *)

(** C1: the outcome of a default rule without rule-set item, for every rule and
    connection.  A rule without any item matches, inverted or not.  Otherwise
    its conditions hold when all its plain items match and every address or
    port group it configures is satisfied by at least one item: domain items and
    destination CIDRs share one group and source CIDRs have another, to which the
    destination CIDRs belong when the metadata says that they match the source;
    while the metadata says that destination CIDRs are ignored (the evaluation of
    a DNS rule before the lookup) they do not count.  The rule matches when its
    conditions hold; an inverted one when they do not, or when it has nothing but
    ignored destination CIDRs and no item was evaluated before it. *)
Theorem default_rule_semantics `{GE : GoEnv} (rt : RuntimeState) (r : abstractDefaultRule) (md : InboundContext) :
  Rule_Match rt (DefaultRule r None) md =
  if negb (nonempty (allItems r)) then true
  else if invert r then negb (default_positive rt r md) || only_ignored_cidrs r md
  else default_positive rt r md.
Proof.
  unfold Rule_Match, matchStates. rewrite eval_DefaultRule, default_matchStatesWithBase_eq. cbn [evalItem]. unfold no_items. rewrite andb_true_r.
  destruct (negb (nonempty (allItems r))); [by rewrite isEmpty_withBase_empty by auto with go|].
  rewrite deferred_only, isEmpty_positiveStates. destruct (invert r).
  - destruct (_ || _); [by rewrite isEmpty_withBase_empty by auto with go|reflexivity].
  - by rewrite isEmpty_positiveStates, negb_involutive.
Qed.

(** A logical rule is the conjunction ("and") or disjunction ("or") of its
    sub-rules, each evaluated on a copy of the metadata with a clean rule
    cache, negated when inverted. *)
Theorem logical_rule_semantics `{GE : GoEnv} (rt : RuntimeState) (mode : LogicalMode) (rules : list Rule)
    (inverted : bool) (md : InboundContext) :
  Rule_Match rt (LogicalRule mode rules inverted) md =
  xorb inverted
    (match mode with
     | LogicalTypeAnd => forallb (fun rule => Rule_Match rt rule (ResetRuleCache md)) rules
     | LogicalTypeOr => existsb (fun rule => Rule_Match rt rule (ResetRuleCache md)) rules
     end).
Proof. apply Rule_Match_logical. Qed.

(** Whatever the rule, every state it produces is a state of the four groups
    that contains the inherited base: evaluating a rule never forgets a group
    the enclosing rule already matched. *)
Theorem states_extend_base `{GE : GoEnv} (rt : RuntimeState) (rule : Rule) (md : InboundContext) (base st : Z) :
  is_state base -> member st (matchStatesWithBase rt rule md base) -> is_state st /\ extends base st.
Proof. intros Hb Hm. split; [apply Hm|]. by apply (sound_rule rt rule md base Hb). Qed.

(** Enlarging the inherited base never turns a match into a failure,
    inverted rules and nested rule-sets included. *)
Theorem base_monotone `{GE : GoEnv} (rt : RuntimeState) (rule : Rule) (md : InboundContext) (base base' : Z) :
  is_state base -> is_state base' -> extends base base' ->
  isEmpty (matchStatesWithBase rt rule md base) = false ->
  isEmpty (matchStatesWithBase rt rule md base') = false.
Proof.
  intros Hb Hb' He H. apply nonempty_spec in H as [st Hst]; [|by apply is_set_eval].
  destruct (monotone_rule rt rule md base base' Hb Hb' He st Hst) as (st' & ? & _).
  apply nonempty_spec; [by apply is_set_eval|]. by exists st'.
Qed.

(** The merging of an un-inverted rule. *)
Lemma rule_set_merges_positive `{GE : GoEnv} (rt : RuntimeState) (f : abstractDefaultRule)
    (gss : list (list abstractDefaultRule)) (md : InboundContext) :
  wf_rule f -> invert f = false -> Forall (Forall (fun g => wf_rule g /\ invert g = false)) gss ->
  Rule_Match rt (DefaultRule f (Some (mkRuleSetItem (map (map (fun g => DefaultRule g None)) gss)
                                        (IPCIDRMatchSource md) (IPCIDRAcceptEmpty md)))) md
  = existsb (fun g => Rule_Match rt (DefaultRule (merge_rules f g) None) md) (concat gss).
Proof.
  intros Hf Hi Hgss. pose proof (is_state_groupState rt f md) as Hgf.
  apply eq_bool_prop_intro. rewrite !Is_true_true, existsb_In.
  unfold Rule_Match, matchStates. rewrite eval_DefaultRule, default_matchStatesWithBase_eq, Hi.
  unfold no_items. rewrite andb_false_r. unfold positiveStates, ruleSetStates. cbn [evalItem]. rewrite Z.lor_0_l.
  assert (forall g, g ∈ concat gss -> (negb (isEmpty (matchStatesWithBase rt (DefaultRule (merge_rules f g) None) md 0)) = true <->
    forallb (fun it => Match rt it md) (items f) = true /\ forallb (fun it => Match rt it md) (items g) = true /\
    let st := Z.lor (groupState rt f md) (groupState rt g md) in
    allowedState g md st = true /\ allowedState f md st = true)) as Hg.
  { intros g Hin. apply list_elem_of_In, in_concat in Hin as (gs & Hgs%list_elem_of_In & Hin%list_elem_of_In).
    rewrite Forall_forall in Hgss. specialize (Hgss _ Hgs). rewrite Forall_forall in Hgss.
    destruct (Hgss g Hin) as [Hwf _].
    rewrite negb_true_iff, nonempty_spec by (apply is_set_eval; auto with go).
    setoid_rewrite eval_simple; [|apply wf_merge_rules; done|done|auto with go].
    setoid_rewrite member_positive_simple; [|auto with go].
    rewrite groupState_merge, Z.lor_0_l. setoid_rewrite allowedState_merge.
    cbn [merge_rules items]. split.
    - rewrite forallb_app. by intros (st & [? ?]%andb_true_iff & -> & [? ?]%andb_true_iff).
    - intros (H1 & H2 & H3 & H4). eexists. rewrite forallb_app, H1, H2, H3, H4. done. }
  destruct (forallb _ (items f)) eqn:Ef.
  - rewrite negb_true_iff, nonempty_spec by auto with go.
    setoid_rewrite member_filter. split.
    + intros (st & (g & Hin & ? & -> & ?)%member_simple_ruleSets & ?); [|done..].
      exists g. split; [done|]. apply Hg; [done|]. by split_and!.
    + intros (g & Hin & (_ & ? & ? & ?)%Hg); [|done]. eexists. split; [|done].
      apply member_simple_ruleSets; [done..|]. by exists g.
  - split; [done|]. intros (g & Hin & (? & _)%Hg); done.
Qed.

(** A rule that refers to a rule-set is never deferred: its inversion negates it. *)
Lemma Rule_Match_uninvert `{GE : GoEnv} (rt : RuntimeState) (f : abstractDefaultRule) (item : RuleSetItem Rule) (md : InboundContext) :
  Rule_Match rt (DefaultRule f (Some item)) md = xorb (invert f) (Rule_Match rt (DefaultRule (uninvert f) (Some item)) md).
Proof.
  unfold Rule_Match, matchStates. rewrite !eval_DefaultRule, !default_matchStatesWithBase_eq. cbn [evalItem]. unfold no_items. rewrite !andb_false_r.
  change (invert (uninvert f)) with false. cbv iota. destruct (invert f); [|done].
  assert (forall e, deferred rt (Some e) f md = false) as -> by (intros e; unfold deferred, touched; by rewrite orb_true_r, andb_false_r).
  change (positiveStates rt (Some ?e) (uninvert f) md 0) with (positiveStates rt (Some e) f md 0). rewrite orb_false_r.
  destruct (isEmpty (positiveStates _ _ f md 0)) eqn:E; [by rewrite isEmpty_withBase_empty by auto with go|done].
Qed.

(** C2: a rule-set item behaves as alternatives merged into the referring rule.
    For a default rule, inverted or not, whose rule-sets hold un-inverted default
    rules without rule-sets of their own, and whose item passes on the CIDR flags
    that are set in the metadata (without rule_set_ip_cidr_match_source and
    rule_set_ip_cidr_accept_empty, for a rule of the configuration): its
    conditions hold when, for some rule of some of its rule-sets, those of the
    rule with the items of both (group by group) do; and inversion negates that.
    In the rules, as the constructors build them, the list of all items holds
    exactly the items of the groups. *)
Theorem rule_set_merges `{GE : GoEnv} (rt : RuntimeState) (f : abstractDefaultRule)
    (gss : list (list abstractDefaultRule)) (md : InboundContext) :
  wf_rule f -> Forall (Forall (fun g => wf_rule g /\ invert g = false)) gss ->
  Rule_Match rt (DefaultRule f (Some (mkRuleSetItem (map (map (fun g => DefaultRule g None)) gss)
                                        (IPCIDRMatchSource md) (IPCIDRAcceptEmpty md)))) md
  = xorb (invert f) (existsb (fun g => Rule_Match rt (DefaultRule (uninvert (merge_rules f g)) None) md) (concat gss)).
Proof. intros Hf Hgss. rewrite Rule_Match_uninvert. by rewrite (rule_set_merges_positive rt (uninvert f) gss md). Qed.

(** The match cache left behind by an earlier evaluation ([DidMatch] and the
    four match flags of the metadata) never influences the outcome of a later one. *)
Theorem match_cache_irrelevant `{GE : GoEnv} (rt : RuntimeState) (rule : Rule) (md : InboundContext) (base : Z) :
  IgnoreDestinationIPCIDRMatch md = false ->
  matchStatesWithBase rt rule (ResetRuleMatchCache md) base = matchStatesWithBase rt rule md base.
Proof.
  intros Hi. destruct rule as [r o|mode rules inverted]; [|done].
  rewrite !eval_DefaultRule, !default_matchStatesWithBase_eq.
  rewrite !deferred_not_ignoring by done.
  assert (forall b, positiveStates rt (evalItem rt o) r (ResetRuleMatchCache md) b =
                    positiveStates rt (evalItem rt o) r md b) as Hp; [|by rewrite !Hp].
  intros b. unfold positiveStates.
  rewrite reset_all, reset_groupState. by destruct o.
Qed.

(** ** Instances

    [demoRule]: TCP to www.example.org, or to any address of 10.0.0.0/31, at
    ports 443 or 8000 to 8100. *)
#[export] Existing Instance demoEnv.

Definition demoRule (inverted : bool) : abstractDefaultRule :=
  let network := NetworkItem (map_of ["tcp"]) in
  let domain := DomainItem (NewMatcher ["www.example.org"] [] false) in
  let cidr := IPCIDRItem [(Addr4 167772160, Addr4 167772161)] false in
  let port := PortItem (map_of [443]) false in
  let range := PortRangeItem false [{| range_start := 8000; range_end := 8100 |}] in
  {| items := [network]; sourceAddressItems := []; sourcePortItems := [];
     destinationAddressItems := [domain]; destinationIPCIDRItems := [cidr];
     destinationPortItems := [port; range]; allItems := [network; domain; cidr; port; range];
     invert := inverted |}.

(** A rule with only the given item, in the group of destination ports. *)
Definition demoPortRule (port : Z) : abstractDefaultRule :=
  let item := PortItem (map_of [port]) false in
  {| items := []; sourceAddressItems := []; sourcePortItems := []; destinationAddressItems := [];
     destinationIPCIDRItems := []; destinationPortItems := [item]; allItems := [item]; invert := false |}.

Lemma default_rule_semantics_witness :
  Rule_Match demoRuntime (DefaultRule (demoRule true) None) (demoConnection "www.example.org") = false /\
  Rule_Match demoRuntime (DefaultRule (demoRule true) None) (demoConnection "example.org") = true.
Proof. split; rewrite default_rule_semantics; by_compute. Defined.

Lemma states_extend_base_witness :
  member 13 (matchStatesWithBase demoRuntime (DefaultRule (demoRule false) None) (demoConnection "www.example.org") 1) /\
  extends 1 13.
Proof.
  assert (member 13 (matchStatesWithBase demoRuntime (DefaultRule (demoRule false) None)
            (demoConnection "www.example.org") 1)) as H by (split; [unfold is_state; lia|by_compute]).
  split; [exact H|]. refine (proj2 (states_extend_base demoRuntime _ _ 1 13 _ H)). unfold is_state; lia.
Defined.

Lemma base_monotone_witness :
  isEmpty (matchStatesWithBase demoRuntime (DefaultRule (demoRule false) None) (demoConnection "www.example.org") 3) = false.
Proof.
  apply (base_monotone demoRuntime _ _ 1 3); [unfold is_state; lia|unfold is_state; lia|by_compute|by_compute].
Defined.

(** The rule of the set has port 80, the referring rule 443: together they match. *)
Lemma rule_set_merges_witness :
  Rule_Match demoRuntime (DefaultRule (demoPortRule 80)
    (Some (mkRuleSetItem [[DefaultRule (demoPortRule 443) None]] false false))) (demoConnection "www.example.org") = true.
Proof.
  etransitivity;
    [apply (rule_set_merges demoRuntime (demoPortRule 80) [[demoPortRule 443]] (demoConnection "www.example.org"))|by_compute];
    [unfold wf_rule; reflexivity|repeat constructor].
Defined.

Lemma match_cache_irrelevant_witness :
  matchStatesWithBase demoRuntime (DefaultRule (demoRule false) None)
    (ResetRuleMatchCache (set_DidMatch true (demoConnection "www.example.org"))) 1 = 2 ^ 13.
Proof. rewrite match_cache_irrelevant; by_compute. Defined.
