(* ===== verification/DnsRule.v ===== *)
(** * DNS rules (route/rule/rule_dns.go)

    A DNS rule embeds the abstract rules of RuleEngine ([embed] is the
    embedded rule) and evaluates them in three ways: [Match] (which honours
    [match_response]), [LegacyPreMatch] (before a lookup: destination CIDR
    conditions are ignored) and [MatchAddressLimit] (after a lookup: address
    conditions are matched against the response).

    [LegacyPreMatch] works on the caller's metadata; it returns it as the
    call leaves it, with [IgnoreDestinationIPCIDRMatch] switched off again by
    the deferred function. *)
From Stdlib Require Import ZArith Lia Bool.
From S2P Require Import Prelude GoIO DnsMsg Metadata RuleItem MatchState RuleEngine RuleTheorems DemoEnv.

Section WithEnv.
Context `{GE : GoEnv} (rt : RuntimeState).

Inductive DNSRule :=
| DefaultDNSRule (r : abstractDefaultRule) (ruleSetItem : option (RuleSetItem Rule)) (matchResponse : bool)
| LogicalDNSRule (mode : LogicalMode) (rules : list DNSRule) (inverted : bool).

(** The embedded abstractDefaultRule or abstractLogicalRule. *)
Fixpoint embed (rule : DNSRule) : Rule :=
  match rule with
  | DefaultDNSRule r ruleSetItem _ => DefaultRule r ruleSetItem
  | LogicalDNSRule mode rules inverted => LogicalRule mode (map embed rules) inverted
  end.

(** [DefaultDNSRule.matchStatesForMatch]. *)
Definition default_matchStatesForMatch (r : abstractDefaultRule) (ruleSetItem : option (RuleSetItem Rule))
    (matchResponse : bool) (metadata : InboundContext) : Z :=
  if matchResponse then
    match DNSResponse metadata with
    | None => invertedFailure r 0
    | Some response => matchStates rt (DefaultRule r ruleSetItem) (set_ResponseMatch (Some response) metadata)
    end
  else matchStates rt (DefaultRule r ruleSetItem) metadata.

(** [matchDNSHeadlessRuleStatesForMatch] and [LogicalDNSRule.matchStatesForMatch]. *)
Fixpoint matchStatesForMatch (rule : DNSRule) (metadata : InboundContext) : Z :=
  match rule with
  | DefaultDNSRule r ruleSetItem matchResponse => default_matchStatesForMatch r ruleSetItem matchResponse metadata
  | LogicalDNSRule mode rules inverted =>
      let nested := fun rule => matchStatesForMatch rule (ResetRuleCache metadata) in
      match mode with
      | LogicalTypeAnd =>
          match and_loop nested rules emptyRuleMatchState with
          | None => if inverted then emptyRuleMatchState else 0
          | Some stateSet => if inverted then 0 else stateSet
          end
      | LogicalTypeOr =>
          let stateSet := merge_loop nested rules 0 in
          if isEmpty stateSet then (if inverted then emptyRuleMatchState else 0)
          else if inverted then 0 else stateSet
      end
  end.

Definition DNSRule_Match (rule : DNSRule) (metadata : InboundContext) : bool :=
  negb (isEmpty (matchStatesForMatch rule metadata)).

(** The evaluation of an embedded rule on the caller's own metadata, with the
    metadata it leaves behind. *)
Definition matchStates_mut (rule : DNSRule) (metadata : InboundContext) : Z * InboundContext :=
  match rule with
  | DefaultDNSRule r ruleSetItem _ =>
      default_matchStatesWithBase rt r (evalItem rt ruleSetItem) metadata 0
  | LogicalDNSRule mode rules inverted => (matchStates rt (embed rule) metadata, metadata)
  end.

Definition LegacyPreMatch (rule : DNSRule) (metadata : InboundContext) : bool * InboundContext :=
  let run :=
    let '(stateSet, metadata) := matchStates_mut rule (set_IgnoreDestinationIPCIDRMatch true metadata) in
    (negb (isEmpty stateSet), set_IgnoreDestinationIPCIDRMatch false metadata) in
  match rule with
  | DefaultDNSRule _ _ true => (false, metadata)
  | _ => run
  end.

Definition MatchAddressLimit (rule : DNSRule) (metadata : InboundContext) (response : option Msg) : bool :=
  negb (isEmpty (matchStates rt (embed rule) (set_ResponseMatch response metadata))).

(** ** Lemmas *)

(** Items whose outcome does not depend on the DNS response. *)
Definition response_independent (it : RuleItem) : bool :=
  match it with
  | IPCIDRItem _ isSource => isSource
  | IPIsPrivateItem isSource => isSource
  | IPAcceptAnyItem | DNSResponseRCodeItem _ | DNSResponseRecordItem _ _ _ => false
  | _ => true
  end.

Lemma Match_response it response md :
  response_independent it = true -> Match rt it (set_ResponseMatch response md) = Match rt it md.
Proof.
  destruct it; cbn [response_independent]; intros H; try reflexivity; try discriminate H;
    by destruct isSource.
Qed.

Lemma Match_ignore it b md : Match rt it (set_IgnoreDestinationIPCIDRMatch b md) = Match rt it md.
Proof. by destruct it. Qed.

Lemma all_response its response md :
  forallb response_independent its = true ->
  forallb (fun it => Match rt it (set_ResponseMatch response md)) its = forallb (fun it => Match rt it md) its.
Proof.
  induction its as [|it its IH]; [done|]. cbn [forallb].
  intros [H1 H2]%andb_true_iff. by rewrite Match_response, IH.
Qed.

Lemma any_response its response md :
  forallb response_independent its = true ->
  matchAnyItem rt its (set_ResponseMatch response md) = matchAnyItem rt its md.
Proof.
  unfold matchAnyItem. induction its as [|it its IH]; [done|]. cbn [forallb existsb].
  intros [H1 H2]%andb_true_iff. by rewrite Match_response, IH.
Qed.

Lemma all_ignore its b md :
  forallb (fun it => Match rt it (set_IgnoreDestinationIPCIDRMatch b md)) its = forallb (fun it => Match rt it md) its.
Proof. induction its as [|it its IH]; [done|]. cbn [forallb]. by rewrite Match_ignore, IH. Qed.

Lemma any_ignore its b md :
  matchAnyItem rt its (set_IgnoreDestinationIPCIDRMatch b md) = matchAnyItem rt its md.
Proof.
  unfold matchAnyItem. induction its as [|it its IH]; [done|]. cbn [existsb]. by rewrite Match_ignore, IH.
Qed.

(** The groups of a rule other than its destination address conditions. *)
Definition other_items (r : abstractDefaultRule) : list RuleItem :=
  items r ++ sourceAddressItems r ++ sourcePortItems r ++ destinationPortItems r.

Lemma forallb_other r (p : RuleItem -> bool) :
  forallb p (other_items r) = true ->
  forallb p (items r) = true /\ forallb p (sourceAddressItems r) = true /\
  forallb p (sourcePortItems r) = true /\ forallb p (destinationPortItems r) = true.
Proof. unfold other_items. rewrite !forallb_app, !andb_true_iff. tauto. Qed.

Section Induction.
Variable P : DNSRule -> Prop.
Hypothesis P_default : forall r o m, P (DefaultDNSRule r o m).
Hypothesis P_logical : forall mode rules inverted, Forall P rules -> P (LogicalDNSRule mode rules inverted).

Fixpoint DNSRule_tree_ind (rule : DNSRule) : P rule :=
  match rule with
  | DefaultDNSRule r o m => P_default r o m
  | LogicalDNSRule mode rules inverted =>
      P_logical mode rules inverted
        ((fix all (rules : list DNSRule) : Forall P rules :=
           match rules with
           | [] => Forall_nil_2 P
           | r :: rest => Forall_cons_2 P r rest (DNSRule_tree_ind r) (all rest)
           end) rules)
  end.
End Induction.

Lemma is_set_matchStatesForMatch rule : forall md, is_set (matchStatesForMatch rule md).
Proof.
  induction rule as [r o m|mode rules inverted IH] using DNSRule_tree_ind; intros md; cbn [matchStatesForMatch].
  - unfold default_matchStatesForMatch. destruct m; [destruct (DNSResponse md)|].
    + apply is_set_eval. auto with go.
    + unfold invertedFailure. destruct (invert r); auto with go.
    + apply is_set_eval. auto with go.
  - rewrite Forall_forall in IH. destruct mode.
    + destruct (and_loop _ _ _) as [s|] eqn:E; destruct inverted; auto with go.
      apply and_loop_member in E as [? _]; [done|auto with go|]. intros r Hr. by apply IH.
    + assert (is_set (merge_loop (fun rule => matchStatesForMatch rule (ResetRuleCache md)) rules 0)) as Hs.
      { apply is_set_merge_loop; [auto with go|]. intros r Hr. by apply IH. }
      destruct (isEmpty _), inverted; auto with go.
Qed.

(** An un-inverted default rule on metadata of any kind. *)
Lemma eval_uninverted r md :
  no_items r (@None unit) = false -> invert r = false ->
  negb (isEmpty (matchStates rt (DefaultRule r None) md)) = default_positive rt r md.
Proof.
  intros Hn Hi. unfold matchStates. rewrite eval_DefaultRule, default_matchStatesWithBase_eq.
  cbn [evalItem]. change (no_items r None) with (no_items r (@None unit)).
  by rewrite Hn, Hi, isEmpty_positiveStates, negb_involutive.
Qed.

Lemma LegacyPreMatch_default r o md :
  fst (LegacyPreMatch (DefaultDNSRule r o false) md) =
  negb (isEmpty (matchStates rt (DefaultRule r o) (set_IgnoreDestinationIPCIDRMatch true md))).
Proof.
  unfold LegacyPreMatch, matchStates_mut, matchStates. rewrite eval_DefaultRule.
  by destruct (default_matchStatesWithBase _ _ _ _ _).
Qed.

End WithEnv.

(** ** Properties *)

(** A logical DNS rule is the conjunction or disjunction of the [Match] of
    its sub-rules ([match_response] of each sub-rule included), negated when
    inverted. *)
Theorem dns_logical_semantics `{GE : GoEnv} (rt : RuntimeState) (mode : LogicalMode) (rules : list DNSRule)
    (inverted : bool) (md : InboundContext) :
  DNSRule_Match rt (LogicalDNSRule mode rules inverted) md =
  xorb inverted
    (match mode with
     | LogicalTypeAnd => forallb (fun rule => DNSRule_Match rt rule (ResetRuleCache md)) rules
     | LogicalTypeOr => existsb (fun rule => DNSRule_Match rt rule (ResetRuleCache md)) rules
     end).
Proof.
  unfold DNSRule_Match at 1. cbn [matchStatesForMatch].
  assert (isEmpty emptyRuleMatchState = false) as H0 by reflexivity.
  destruct mode.
  - destruct (and_loop _ _ _) as [s|] eqn:E.
    + assert (forallb (fun rule => DNSRule_Match rt rule (ResetRuleCache md)) rules = true) as ->.
      { apply not_false_iff_true. intros Hf.
        assert (and_loop (fun rule => matchStatesForMatch rt rule (ResetRuleCache md)) rules
                  emptyRuleMatchState = None) by by apply and_loop_None. congruence. }
      destruct inverted; [reflexivity|].
      apply and_loop_nonempty in E; [by rewrite E|auto with go| |done].
      intros r _. apply is_set_matchStatesForMatch.
    + apply and_loop_None in E. unfold DNSRule_Match. rewrite E. by destruct inverted.
  - pose proof (isEmpty_merge_loop (fun rule => matchStatesForMatch rt rule (ResetRuleCache md)) rules 0) as Hm.
    change (isEmpty 0) with true in Hm. cbn [andb] in Hm.
    assert (existsb (fun rule => DNSRule_Match rt rule (ResetRuleCache md)) rules =
            negb (isEmpty (merge_loop (fun rule => matchStatesForMatch rt rule (ResetRuleCache md)) rules 0))) as ->.
    { rewrite Hm. clear. induction rules as [|r rules IH]; [done|]. cbn [existsb forallb].
      rewrite IH, negb_andb. done. }
    destruct (isEmpty (merge_loop _ _ _)) eqn:E; destruct inverted; rewrite ?H0, ?E; reflexivity.
Qed.

(** The pre-lookup evaluation never discards a rule that the response would
    make match: if an un-inverted address rule without domain items matches
    after the lookup, its [LegacyPreMatch] before it was true. *)
Theorem legacy_prematch_complete `{GE : GoEnv} (rt : RuntimeState) (r : abstractDefaultRule)
    (md : InboundContext) (response : option Msg) :
  invert r = false -> destinationAddressItems r = [] -> IPCIDRMatchSource md = false ->
  forallb response_independent (other_items r) = true ->
  MatchAddressLimit rt (DefaultDNSRule r None false) md response = true ->
  fst (LegacyPreMatch rt (DefaultDNSRule r None false) md) = true.
Proof.
  intros Hi Hd Hs Hr H. rewrite LegacyPreMatch_default. unfold MatchAddressLimit in H. cbn [embed] in H.
  destruct (no_items r (@None unit)) eqn:Hn.
  { unfold matchStates. rewrite eval_DefaultRule, default_matchStatesWithBase_eq.
    cbn [evalItem]. change (no_items r None) with (no_items r (@None unit)). rewrite Hn.
    by rewrite isEmpty_withBase_empty by auto with go. }
  rewrite eval_uninverted in * by done. apply forallb_other in Hr as (H1 & H2 & H3 & H4).
  unfold default_positive, sourceGroup, destinationGroup, requiresSourceAddressMatch,
    requiresDestinationAddressMatch, destinationIPCIDRMatchesSource, destinationIPCIDRMatchesDestination in *.
  rewrite Hd, all_ignore, !any_ignore in *.
  rewrite (all_response _ _ _ _ H1), (any_response _ _ _ _ H2), (any_response _ _ _ _ H3), (any_response _ _ _ _ H4) in H.
  cbn [nonempty orb andb negb IPCIDRMatchSource IgnoreDestinationIPCIDRMatch set_IgnoreDestinationIPCIDRMatch
    set_ResponseMatch matchAnyItem existsb] in *.
  rewrite Hs, !andb_false_r in *. cbn [andb orb negb] in *. rewrite !orb_false_r in *.
  repeat match type of H with
  | _ && _ = true => apply andb_true_iff in H as [H ?]
  end.
  by repeat (apply andb_true_iff; split).
Qed.

(** An inverted rule whose only conditions are destination CIDRs is deferred
    by the pre-lookup evaluation: it matches before the lookup, whatever the
    addresses will be. *)
Theorem legacy_prematch_defers_inverted_cidr `{GE : GoEnv} (rt : RuntimeState) (r : abstractDefaultRule)
    (md : InboundContext) :
  invert r = true -> other_items r = [] -> destinationAddressItems r = [] ->
  destinationIPCIDRItems r <> [] -> DidMatch md = false ->
  fst (LegacyPreMatch rt (DefaultDNSRule r None false) md) = true.
Proof.
  intros Hi Ho Hd Hc Hm. rewrite LegacyPreMatch_default. unfold matchStates.
  rewrite eval_DefaultRule, default_matchStatesWithBase_eq. cbn [evalItem].
  unfold other_items in Ho. repeat (apply app_eq_nil in Ho as [? Ho]).
  assert (deferred rt None r (set_IgnoreDestinationIPCIDRMatch true md) = true) as ->.
  { unfold deferred, positiveStates, touched, groupsTouched, ruleSetStates, groupState, sourceGroup, destinationGroup,
      allowedState, requiresSourceAddressMatch, requiresDestinationAddressMatch, destinationIPCIDRMatchesSource,
      destinationIPCIDRMatchesDestination.
    repeat match goal with H : _ r = [] |- _ => rewrite H; clear H end.
    cbn [forallb nonempty matchAnyItem existsb IgnoreDestinationIPCIDRMatch set_IgnoreDestinationIPCIDRMatch
      negb andb orb DidMatch]. rewrite Hm. by destruct (destinationIPCIDRItems r). }
  rewrite orb_true_r, Hi. destruct (no_items r None); by rewrite isEmpty_withBase_empty by auto with go.
Qed.

(** Domain items and address filters share one group after the lookup too:
    once a domain item of an un-inverted rule matches (and its other
    conditions hold), [MatchAddressLimit] accepts every response, whether or
    not its addresses are in the rule's [ip_cidr]. *)
Theorem address_filter_satisfied_by_domain `{GE : GoEnv} (rt : RuntimeState) (r : abstractDefaultRule)
    (md : InboundContext) (response : option Msg) :
  invert r = false -> IPCIDRMatchSource md = false ->
  forallb response_independent (other_items r ++ destinationAddressItems r) = true ->
  matchAnyItem rt (destinationAddressItems r) md = true ->
  forallb (fun it => Match rt it md) (items r) = true ->
  negb (nonempty (sourceAddressItems r)) || matchAnyItem rt (sourceAddressItems r) md = true ->
  negb (nonempty (sourcePortItems r)) || matchAnyItem rt (sourcePortItems r) md = true ->
  negb (nonempty (destinationPortItems r)) || matchAnyItem rt (destinationPortItems r) md = true ->
  MatchAddressLimit rt (DefaultDNSRule r None false) md response = true.
Proof.
  intros Hi Hs Hr Hd Hit Hsa Hsp Hdp. unfold MatchAddressLimit. cbn [embed].
  rewrite forallb_app, andb_true_iff in Hr. destruct Hr as [(H1 & H2 & H3 & H4)%forallb_other H5].
  destruct (no_items r (@None unit)) eqn:Hn.
  { unfold matchStates. rewrite eval_DefaultRule, default_matchStatesWithBase_eq.
    cbn [evalItem]. change (no_items r None) with (no_items r (@None unit)). rewrite Hn.
    by rewrite isEmpty_withBase_empty by auto with go. }
  rewrite eval_uninverted by done.
  unfold default_positive, sourceGroup, destinationGroup, requiresSourceAddressMatch, destinationIPCIDRMatchesSource.
  rewrite (all_response _ _ _ _ H1), (any_response _ _ _ _ H2), (any_response _ _ _ _ H3), (any_response _ _ _ _ H4),
    (any_response _ _ _ _ H5).
  cbn [IPCIDRMatchSource set_ResponseMatch].
  by rewrite Hs, !andb_false_r, !orb_false_r, Hit, Hsa, Hsp, Hdp, Hd, !orb_true_r.
Qed.

(** ** Instances *)

(** An A record of a response. *)
Definition demoResponse (address : list byte) : option Msg :=
  Some (mkMsg 0 true true true true RcodeSuccess [] [mkRR "a.b." TypeA ClassINET 600 (RD_A address)] [] []).

(** TCP to an address of 10.0.0.0/31. *)
Definition demoCIDRRule (inverted : bool) : abstractDefaultRule :=
  let cidr := IPCIDRItem [(Addr4 167772160, Addr4 167772161)] false in
  {| items := []; sourceAddressItems := []; sourcePortItems := []; destinationAddressItems := [];
     destinationIPCIDRItems := [cidr]; destinationPortItems := []; allItems := [cidr]; invert := inverted |}.

Lemma legacy_prematch_complete_witness :
  fst (LegacyPreMatch demoRuntime (DefaultDNSRule (demoCIDRRule false) None false) (demoConnection "a.b")) = true.
Proof.
  apply (legacy_prematch_complete demoRuntime _ _ (demoResponse [x0a; x00; x00; x01])); by_compute.
Defined.

Lemma legacy_prematch_defers_inverted_cidr_witness :
  fst (LegacyPreMatch demoRuntime (DefaultDNSRule (demoCIDRRule true) None false) (demoConnection "a.b")) = true.
Proof. apply legacy_prematch_defers_inverted_cidr; [reflexivity..|discriminate|reflexivity]. Defined.

(** 8.8.8.8 is not in 10.0.0.0/31, and is accepted. *)
Lemma address_filter_satisfied_by_domain_witness :
  MatchAddressLimit demoRuntime (DefaultDNSRule (demoRule false) None false) (demoConnection "www.example.org")
    (demoResponse [x08; x08; x08; x08]) = true.
Proof. apply address_filter_satisfied_by_domain; by_compute. Defined.
