(* ===== verification/HeadlessRule.v ===== *)
(** * Headless rules (option/rule_set.go, route/rule/rule_headless.go, rule_set.go)

    The rules of a rule-set file: the option structs, their [IsValid], and
    the constructors that turn them into the rule tree of RuleEngine.

    - Module [Opt] holds the option structs.  A Go slice that
      [reflect.DeepEqual] compares with the zero value is a [Listable]: [None]
      is the nil slice, which differs from an empty one.
    - A constructor step of the source, "if the option is set, build an item and
      append it to its group and to allItems", is [add append item rule]; the
      five [append_*] functions are the groups.
    - [headless_meaning] is the specification: what a rule means, read off its
      options without items, groups or match states.  [headless_spec] is what the
      constructors build, with the conditions they leave out without a network
      manager; with one, the two agree on rules that state a condition. *)
From Stdlib Require Import ZArith Lia Bool.
From S2P Require Import Prelude GoIO Metadata RuleItem DemoEnv MatchState RuleEngine RuleTheorems.

(** ** Options *)

Definition Listable (A : Type) : Type := option (list A).

(** The elements; [len] of a nil slice is 0. *)
Definition elems {A} (l : Listable A) : list A := match l with Some l => l | None => [] end.

(** [len(l) > 0] *)
Definition given {A} (l : Listable A) : bool := nonempty (elems l).

Definition is_nil {A} (o : option A) : bool := match o with None => true | Some _ => false end.

Module Opt.
Section WithEnv.
Context `{GE : GoEnv}.

Record DefaultHeadlessRule := mkDefaultHeadlessRule {
  QueryType : Listable Z;
  Network : Listable string;
  Domain : Listable string;
  DomainSuffix : Listable string;
  DomainKeyword : Listable string;
  DomainRegex : Listable string;
  SourceIPCIDR : Listable string;
  IPCIDR : Listable string;
  SourcePort : Listable Z;
  SourcePortRange : Listable string;
  Port : Listable Z;
  PortRange : Listable string;
  ProcessName : Listable string;
  ProcessPath : Listable string;
  ProcessPathRegex : Listable string;
  NetworkType : Listable Z;
  NetworkIsExpensive : bool;
  NetworkIsConstrained : bool;
  WIFISSID : Listable string;
  WIFIBSSID : Listable string;
  NetworkInterfaceAddress : option (list (Z * list Prefix)); (* *badjson.TypedMap, in insertion order *)
  DefaultInterfaceAddress : Listable Prefix;
  Invert : bool;
  DomainMatcher : option Matcher;
  SourceIPSet : option Metadata.IPSet;
  IPSet : option Metadata.IPSet;
  AdGuardDomain : Listable string;
  AdGuardDomainMatcher : option AdGuardMatcher;
}.

Record LogicalHeadlessRule (R : Type) := mkLogicalHeadlessRule {
  Mode : string;
  Rules : list R;
  LogicalInvert : bool;
}.
Arguments mkLogicalHeadlessRule {R} _ _ _.
Arguments Mode {R} _.
Arguments Rules {R} _.
Arguments LogicalInvert {R} _.

Inductive HeadlessRule :=
| mkHeadlessRule (Type_ : string) (DefaultOptions : DefaultHeadlessRule)
    (LogicalOptions : LogicalHeadlessRule HeadlessRule).

Definition Type_ (r : HeadlessRule) : string := let '(mkHeadlessRule t _ _) := r in t.

(** [DefaultHeadlessRule{Invert: inverted}] *)
Definition zero (inverted : bool) : DefaultHeadlessRule := {|
  QueryType := None; Network := None; Domain := None; DomainSuffix := None; DomainKeyword := None;
  DomainRegex := None; SourceIPCIDR := None; IPCIDR := None; SourcePort := None; SourcePortRange := None;
  Port := None; PortRange := None; ProcessName := None; ProcessPath := None; ProcessPathRegex := None;
  NetworkType := None; NetworkIsExpensive := false; NetworkIsConstrained := false; WIFISSID := None;
  WIFIBSSID := None; NetworkInterfaceAddress := None; DefaultInterfaceAddress := None; Invert := inverted;
  DomainMatcher := None; SourceIPSet := None; IPSet := None; AdGuardDomain := None;
  AdGuardDomainMatcher := None |}.

(** Every field but IPCIDR, IPSet and Invert has its zero value. *)
Definition zeroButIPCIDR (r : DefaultHeadlessRule) : bool :=
  is_nil (QueryType r) && is_nil (Network r) && is_nil (Domain r) && is_nil (DomainSuffix r)
  && is_nil (DomainKeyword r) && is_nil (DomainRegex r) && is_nil (SourceIPCIDR r)
  && is_nil (SourcePort r) && is_nil (SourcePortRange r) && is_nil (Port r) && is_nil (PortRange r)
  && is_nil (ProcessName r) && is_nil (ProcessPath r) && is_nil (ProcessPathRegex r) && is_nil (NetworkType r)
  && negb (NetworkIsExpensive r) && negb (NetworkIsConstrained r) && is_nil (WIFISSID r) && is_nil (WIFIBSSID r)
  && is_nil (NetworkInterfaceAddress r) && is_nil (DefaultInterfaceAddress r)
  && is_nil (DomainMatcher r) && is_nil (SourceIPSet r) && is_nil (AdGuardDomain r)
  && is_nil (AdGuardDomainMatcher r).

(** [DefaultHeadlessRule.IsValid]: not [DeepEqual] to the zero rule with the same Invert. *)
Definition Default_IsValid (r : DefaultHeadlessRule) : bool :=
  negb (zeroButIPCIDR r && is_nil (IPCIDR r) && is_nil (IPSet r)).

(** [common.All] over a predicate that may panic. *)
Section All.
Context {R : Type} (valid : R -> result bool).

Fixpoint all_result (rules : list R) : result bool :=
  match rules with
  | [] => Ok true
  | rule :: rest => let* b := valid rule in if b then all_result rest else Ok false
  end.
End All.

Definition Logical_IsValid {R} (valid : R -> result bool) (r : LogicalHeadlessRule R) : result bool :=
  if nonempty (Rules r) then all_result valid (Rules r) else Ok false.

Definition RuleTypeDefault : string := "default".
Definition RuleTypeLogical : string := "logical".

Definition isDefaultType (t : string) : bool := String.eqb t "" || String.eqb t RuleTypeDefault.

Fixpoint IsValid (r : HeadlessRule) : result bool :=
  match r with
  | mkHeadlessRule t defaultOptions logicalOptions =>
      if isDefaultType t then Ok (Default_IsValid defaultOptions)
      else if String.eqb t RuleTypeLogical then Logical_IsValid IsValid logicalOptions
      else Panic ("unknown rule type: " +:+ t)
  end.

End WithEnv.
Arguments mkLogicalHeadlessRule {R} _ _ _.
Arguments Mode {R} _.
Arguments Rules {R} _.
Arguments LogicalInvert {R} _.
End Opt.

(** ** Building a default rule *)

Section WithEnv.
Context `{GE : GoEnv}.

(** [abstractDefaultRule{invert: inverted}] *)
Definition emptyRule (inverted : bool) : abstractDefaultRule := {|
  items := []; sourceAddressItems := []; sourcePortItems := []; destinationAddressItems := [];
  destinationIPCIDRItems := []; destinationPortItems := []; allItems := []; invert := inverted |}.

(** [rule.items = append(rule.items, item); rule.allItems = append(rule.allItems, item)] *)
Definition append_items (rule : abstractDefaultRule) (item : RuleItem) : abstractDefaultRule := {|
  items := items rule ++ [item]; sourceAddressItems := sourceAddressItems rule;
  sourcePortItems := sourcePortItems rule; destinationAddressItems := destinationAddressItems rule;
  destinationIPCIDRItems := destinationIPCIDRItems rule; destinationPortItems := destinationPortItems rule;
  allItems := allItems rule ++ [item]; invert := invert rule |}.

Definition append_sourceAddress (rule : abstractDefaultRule) (item : RuleItem) : abstractDefaultRule := {|
  items := items rule; sourceAddressItems := sourceAddressItems rule ++ [item];
  sourcePortItems := sourcePortItems rule; destinationAddressItems := destinationAddressItems rule;
  destinationIPCIDRItems := destinationIPCIDRItems rule; destinationPortItems := destinationPortItems rule;
  allItems := allItems rule ++ [item]; invert := invert rule |}.

Definition append_sourcePort (rule : abstractDefaultRule) (item : RuleItem) : abstractDefaultRule := {|
  items := items rule; sourceAddressItems := sourceAddressItems rule;
  sourcePortItems := sourcePortItems rule ++ [item]; destinationAddressItems := destinationAddressItems rule;
  destinationIPCIDRItems := destinationIPCIDRItems rule; destinationPortItems := destinationPortItems rule;
  allItems := allItems rule ++ [item]; invert := invert rule |}.

Definition append_destinationAddress (rule : abstractDefaultRule) (item : RuleItem) : abstractDefaultRule := {|
  items := items rule; sourceAddressItems := sourceAddressItems rule;
  sourcePortItems := sourcePortItems rule; destinationAddressItems := destinationAddressItems rule ++ [item];
  destinationIPCIDRItems := destinationIPCIDRItems rule; destinationPortItems := destinationPortItems rule;
  allItems := allItems rule ++ [item]; invert := invert rule |}.

Definition append_destinationIPCIDR (rule : abstractDefaultRule) (item : RuleItem) : abstractDefaultRule := {|
  items := items rule; sourceAddressItems := sourceAddressItems rule;
  sourcePortItems := sourcePortItems rule; destinationAddressItems := destinationAddressItems rule;
  destinationIPCIDRItems := destinationIPCIDRItems rule ++ [item]; destinationPortItems := destinationPortItems rule;
  allItems := allItems rule ++ [item]; invert := invert rule |}.

Definition append_destinationPort (rule : abstractDefaultRule) (item : RuleItem) : abstractDefaultRule := {|
  items := items rule; sourceAddressItems := sourceAddressItems rule;
  sourcePortItems := sourcePortItems rule; destinationAddressItems := destinationAddressItems rule;
  destinationIPCIDRItems := destinationIPCIDRItems rule; destinationPortItems := destinationPortItems rule ++ [item];
  allItems := allItems rule ++ [item]; invert := invert rule |}.

(** One step of a constructor: nothing, an item, or the error of building it. *)
Definition add (append : abstractDefaultRule -> RuleItem -> abstractDefaultRule)
    (step : option (result RuleItem)) (rule : abstractDefaultRule) : result abstractDefaultRule :=
  match step with
  | None => Ok rule
  | Some build => let* item := build in Ok (append rule item)
  end.

Definition when {A} (b : bool) (x : A) : option A := if b then Some x else None.

(** [if len(l) > 0 { x } else if p != nil { f(p) }] *)
Definition orRaw {A B X} (l : Listable A) (x : X) (p : option B) (f : B -> X) : option X :=
  if given l then Some x else option_map f p.

(** [hasNetworkManager]: the context has a network manager. *)
Definition NewDefaultHeadlessRule (hasNetworkManager : bool) (options : Opt.DefaultHeadlessRule)
    : result abstractDefaultRule :=
  let rule := emptyRule (Opt.Invert options) in
  let* rule := add append_items
    (when (given (Opt.QueryType options)) (Ok (NewQueryTypeItem (elems (Opt.QueryType options))))) rule in
  let* rule := add append_items
    (when (given (Opt.Network options)) (Ok (NewNetworkItem (elems (Opt.Network options))))) rule in
  let* rule := add append_destinationAddress
    (if given (Opt.Domain options) || given (Opt.DomainSuffix options)
     then Some (NewDomainItem (elems (Opt.Domain options)) (elems (Opt.DomainSuffix options)))
     else option_map (fun matcher => Ok (NewRawDomainItem matcher)) (Opt.DomainMatcher options)) rule in
  let* rule := add append_destinationAddress
    (when (given (Opt.DomainKeyword options)) (Ok (NewDomainKeywordItem (elems (Opt.DomainKeyword options))))) rule in
  let* rule := add append_destinationAddress
    (when (given (Opt.DomainRegex options))
       (with_cause "domain_regex" (NewDomainRegexItem (elems (Opt.DomainRegex options))))) rule in
  let* rule := add append_sourceAddress
    (orRaw (Opt.SourceIPCIDR options)
       (with_cause "source_ip_cidr" (NewIPCIDRItem true (elems (Opt.SourceIPCIDR options))))
       (Opt.SourceIPSet options) (fun ipSet => Ok (NewRawIPCIDRItem true ipSet))) rule in
  let* rule := add append_destinationIPCIDR
    (orRaw (Opt.IPCIDR options)
       (with_cause "ipcidr" (NewIPCIDRItem false (elems (Opt.IPCIDR options))))
       (Opt.IPSet options) (fun ipSet => Ok (NewRawIPCIDRItem false ipSet))) rule in
  let* rule := add append_sourcePort
    (when (given (Opt.SourcePort options)) (Ok (NewPortItem true (elems (Opt.SourcePort options))))) rule in
  let* rule := add append_sourcePort
    (when (given (Opt.SourcePortRange options))
       (with_cause "source_port_range" (NewPortRangeItem true (elems (Opt.SourcePortRange options))))) rule in
  let* rule := add append_destinationPort
    (when (given (Opt.Port options)) (Ok (NewPortItem false (elems (Opt.Port options))))) rule in
  let* rule := add append_destinationPort
    (when (given (Opt.PortRange options))
       (with_cause "port_range" (NewPortRangeItem false (elems (Opt.PortRange options))))) rule in
  let* rule := add append_items
    (when (given (Opt.ProcessName options)) (Ok (NewProcessItem (elems (Opt.ProcessName options))))) rule in
  let* rule := add append_items
    (when (given (Opt.ProcessPath options)) (Ok (NewProcessPathItem (elems (Opt.ProcessPath options))))) rule in
  let* rule := add append_items
    (when (given (Opt.ProcessPathRegex options))
       (with_cause "process_path_regex" (NewProcessPathRegexItem (elems (Opt.ProcessPathRegex options))))) rule in
  let* rule := add append_items
    (when (hasNetworkManager && given (Opt.NetworkType options))
       (Ok (NewNetworkTypeItem (elems (Opt.NetworkType options))))) rule in
  let* rule := add append_items
    (when (hasNetworkManager && Opt.NetworkIsExpensive options) (Ok NetworkIsExpensiveItem)) rule in
  let* rule := add append_items
    (when (hasNetworkManager && Opt.NetworkIsConstrained options) (Ok NetworkIsConstrainedItem)) rule in
  let* rule := add append_items
    (when (hasNetworkManager && given (Opt.WIFISSID options))
       (Ok (NewWIFISSIDItem (elems (Opt.WIFISSID options))))) rule in
  let* rule := add append_items
    (when (hasNetworkManager && given (Opt.WIFIBSSID options))
       (Ok (NewWIFIBSSIDItem (elems (Opt.WIFIBSSID options))))) rule in
  let* rule := add append_items
    (when (hasNetworkManager && given (Opt.NetworkInterfaceAddress options))
       (Ok (NewNetworkInterfaceAddressItem (elems (Opt.NetworkInterfaceAddress options))))) rule in
  let* rule := add append_items
    (when (hasNetworkManager && given (Opt.DefaultInterfaceAddress options))
       (Ok (NewDefaultInterfaceAddressItem (elems (Opt.DefaultInterfaceAddress options))))) rule in
  add append_destinationAddress
    (orRaw (Opt.AdGuardDomain options) (Ok (NewAdGuardDomainItem (elems (Opt.AdGuardDomain options))))
       (Opt.AdGuardDomainMatcher options) (fun matcher => Ok (NewRawAdGuardDomainItem matcher))) rule.

(** [for i, subRule := range rules { rule, err := f(subRule); if err != nil { return E.Cause(err, msg(i)) } ... }] *)
Section Indexed.
Context {A B : Type} (msg : Z -> string) (f : A -> result B).

Fixpoint mapi_result (i : Z) (xs : list A) : result (list B) :=
  match xs with
  | [] => Ok []
  | x :: rest =>
      let* y := with_cause (msg i) (f x) in
      let* ys := mapi_result (i + 1) rest in
      Ok (y :: ys)
  end.
End Indexed.

Definition NewLogicalHeadlessRule {R} (NewHeadlessRule : R -> result Rule) (options : Opt.LogicalHeadlessRule R)
    : result Rule :=
  let* mode :=
    if String.eqb (Opt.Mode options) "and" then Ok LogicalTypeAnd
    else if String.eqb (Opt.Mode options) "or" then Ok LogicalTypeOr
    else Err (ENew ("unknown logical mode: " +:+ Opt.Mode options)) in
  let* rules := mapi_result (fun i => "sub rule[" +:+ pretty i +:+ "]") NewHeadlessRule 0 (Opt.Rules options) in
  Ok (LogicalRule mode rules (Opt.LogicalInvert options)).

Definition ErrMissingConditions : go_error := ENew "missing conditions".

Fixpoint NewHeadlessRule (hasNetworkManager : bool) (options : Opt.HeadlessRule) : result Rule :=
  match options with
  | Opt.mkHeadlessRule t defaultOptions logicalOptions =>
      if Opt.isDefaultType t then
        if negb (Opt.Default_IsValid defaultOptions) then Err ErrMissingConditions
        else let* rule := NewDefaultHeadlessRule hasNetworkManager defaultOptions in Ok (DefaultRule rule None)
      else if String.eqb t Opt.RuleTypeLogical then
        let* valid := Opt.Logical_IsValid Opt.IsValid logicalOptions in
        if negb valid then Err ErrMissingConditions
        else NewLogicalHeadlessRule (NewHeadlessRule hasNetworkManager) logicalOptions
      else Err (ENew ("unknown rule type: " +:+ t))
  end.

(** ** rule_set.go *)

(** [HasHeadlessRule]: only the type "default" is inspected, not "". *)
Section Has.
Context (cond : Opt.DefaultHeadlessRule -> bool).

Fixpoint hasRule (rule : Opt.HeadlessRule) : bool :=
  match rule with
  | Opt.mkHeadlessRule t defaultOptions logicalOptions =>
      if String.eqb t Opt.RuleTypeDefault then cond defaultOptions
      else if String.eqb t Opt.RuleTypeLogical then existsb hasRule (Opt.Rules logicalOptions)
      else false
  end.
End Has.

Definition HasHeadlessRule (rules : list Opt.HeadlessRule) (cond : Opt.DefaultHeadlessRule -> bool) : bool :=
  existsb (hasRule cond) rules.

Definition isProcessHeadlessRule (rule : Opt.DefaultHeadlessRule) : bool :=
  given (Opt.ProcessName rule) || given (Opt.ProcessPath rule) || given (Opt.ProcessPathRegex rule).

Definition isWIFIHeadlessRule (rule : Opt.DefaultHeadlessRule) : bool :=
  given (Opt.WIFISSID rule) || given (Opt.WIFIBSSID rule).

Definition isIPCIDRHeadlessRule (rule : Opt.DefaultHeadlessRule) : bool :=
  given (Opt.IPCIDR rule) || negb (is_nil (Opt.IPSet rule)).

Definition isDNSQueryTypeHeadlessRule (rule : Opt.DefaultHeadlessRule) : bool := given (Opt.QueryType rule).

Definition isNonIPCIDRHeadlessRule (rule : Opt.DefaultHeadlessRule) : bool := negb (Opt.zeroButIPCIDR rule).

Record RuleSetMetadata := mkRuleSetMetadata {
  ContainsProcessRule : bool;
  ContainsWIFIRule : bool;
  ContainsIPCIDRRule : bool;
  ContainsDNSQueryTypeRule : bool;
  ContainsNonIPCIDRRule : bool;
}.

Definition buildRuleSetMetadata (headlessRules : list Opt.HeadlessRule) : RuleSetMetadata := {|
  ContainsProcessRule := HasHeadlessRule headlessRules isProcessHeadlessRule;
  ContainsWIFIRule := HasHeadlessRule headlessRules isWIFIHeadlessRule;
  ContainsIPCIDRRule := HasHeadlessRule headlessRules isIPCIDRHeadlessRule;
  ContainsDNSQueryTypeRule := HasHeadlessRule headlessRules isDNSQueryTypeHeadlessRule;
  ContainsNonIPCIDRRule := HasHeadlessRule headlessRules isNonIPCIDRHeadlessRule;
|}.

(** [extractIPSetFromRule]. *)
Definition extractItem (item : RuleItem) : list IPSet :=
  match item with IPCIDRItem ipSet _ => [ipSet] | _ => [] end.

Fixpoint extractIPSetFromRule (rule : Rule) : list IPSet :=
  match rule with
  | DefaultRule r _ => concat (map extractItem (destinationIPCIDRItems r))
  | LogicalRule _ rules _ => concat (map extractIPSetFromRule rules)
  end.

(** ** Specification

    [wanted l p]: an option that is not given holds, a given one decides by [p]. *)
Definition wanted {A} (l : Listable A) (p : bool) : bool := negb (given l) || p.

Section Spec.
Context (rt : RuntimeState) (hasNetworkManager : bool).

Definition regexes_match (expressions : list string) (s : string) : bool :=
  existsb (fun e => match regexp_Compile e with Ok matcher => MatchString matcher s | _ => false end) expressions.

(** Some destination or source address of the connection is in the listed prefixes. *)
Definition cidr_match (isSource : bool) (l : Listable string) (raw : option IPSet) (md : InboundContext) : bool :=
  if given l then
    match parse_cidrs 0 (elems l) with
    | Ok added => match IPSetBuilder_IPSet added with Ok set => IPCIDRItem_Match set isSource md | _ => false end
    | _ => false
    end
  else match raw with Some set => IPCIDRItem_Match set isSource md | None => false end.

Definition port_in_ranges (ranges : list string) (port : Z) : bool :=
  existsb (fun s => match parse_port_range s with
                    | Ok r => (range_start r <=? port) && (port <=? range_end r)
                    | _ => false end) ranges.

Definition process_spec (o : Opt.DefaultHeadlessRule) (md : InboundContext) : bool :=
  wanted (Opt.ProcessName o)
    (match ProcessInfo md with
     | Some info => negb (String.eqb (ProcessPath info) "")
                    && bool_decide (filepath_Base (ProcessPath info) ∈ elems (Opt.ProcessName o))
     | None => false end)
  && wanted (Opt.ProcessPath o)
    (match ProcessInfo md with
     | Some info => negb (String.eqb (ProcessPath info) "") && bool_decide (ProcessPath info ∈ elems (Opt.ProcessPath o))
     | None => false end)
  && wanted (Opt.ProcessPathRegex o)
    (match ProcessInfo md with
     | Some info => negb (String.eqb (ProcessPath info) "")
                    && regexes_match (elems (Opt.ProcessPathRegex o)) (ProcessPath info)
     | None => false end).

Definition network_spec (o : Opt.DefaultHeadlessRule) : bool :=
  wanted (Opt.NetworkType o)
    (match DefaultNetworkInterface rt with
     | Some ni => bool_decide (ni_Type ni ∈ elems (Opt.NetworkType o)) | None => false end)
  && (negb (Opt.NetworkIsExpensive o) || match DefaultNetworkInterface rt with Some ni => ni_Expensive ni | None => false end)
  && (negb (Opt.NetworkIsConstrained o)
      || match DefaultNetworkInterface rt with Some ni => ni_Constrained ni | None => false end)
  && wanted (Opt.WIFISSID o) (bool_decide (WIFIState_SSID rt ∈ elems (Opt.WIFISSID o)))
  && wanted (Opt.WIFIBSSID o) (bool_decide (WIFIState_BSSID rt ∈ map NormalizeWIFIBSSID (elems (Opt.WIFIBSSID o))))
  && wanted (Opt.NetworkInterfaceAddress o)
       (NetworkInterfaceAddressItem_Match rt
          (fold_left (fun m '(k, prefixes) => <[k := prefixes]> m) (elems (Opt.NetworkInterfaceAddress o)) ∅))
  && wanted (Opt.DefaultInterfaceAddress o) (DefaultInterfaceAddressItem_Match rt (elems (Opt.DefaultInterfaceAddress o))).

(** One of the domain conditions holds of the host of the connection. *)
Definition domain_spec (o : Opt.DefaultHeadlessRule) (md : InboundContext) : bool :=
  let host := strings_ToLower (domainHost md) in
  negb (String.eqb (domainHost md) "") &&
  ((if given (Opt.Domain o) || given (Opt.DomainSuffix o)
    then Matcher_Match (NewMatcher (elems (Opt.Domain o)) (elems (Opt.DomainSuffix o)) false) host
    else match Opt.DomainMatcher o with Some matcher => Matcher_Match matcher host | None => false end)
   || existsb (strings_Contains host) (elems (Opt.DomainKeyword o))
   || regexes_match (elems (Opt.DomainRegex o)) host
   || (if given (Opt.AdGuardDomain o) then AdGuardMatcher_Match (NewAdGuardMatcher (elems (Opt.AdGuardDomain o))) host
       else match Opt.AdGuardDomainMatcher o with Some matcher => AdGuardMatcher_Match matcher host | None => false end)).

Definition has_domain (o : Opt.DefaultHeadlessRule) : bool :=
  given (Opt.Domain o) || given (Opt.DomainSuffix o) || negb (is_nil (Opt.DomainMatcher o))
  || given (Opt.DomainKeyword o) || given (Opt.DomainRegex o)
  || given (Opt.AdGuardDomain o) || negb (is_nil (Opt.AdGuardDomainMatcher o)).

Definition has_network (o : Opt.DefaultHeadlessRule) : bool :=
  given (Opt.NetworkType o) || Opt.NetworkIsExpensive o || Opt.NetworkIsConstrained o || given (Opt.WIFISSID o)
  || given (Opt.WIFIBSSID o) || given (Opt.NetworkInterfaceAddress o) || given (Opt.DefaultInterfaceAddress o).

(** Does the rule state any condition; any that the program evaluates? *)
Definition conditions_given (network : bool) (o : Opt.DefaultHeadlessRule) : bool :=
  given (Opt.QueryType o) || given (Opt.Network o) || has_domain o
  || given (Opt.SourceIPCIDR o) || negb (is_nil (Opt.SourceIPSet o)) || isIPCIDRHeadlessRule o
  || given (Opt.SourcePort o) || given (Opt.SourcePortRange o) || given (Opt.Port o) || given (Opt.PortRange o)
  || isProcessHeadlessRule o || network.
Definition states_conditions (o : Opt.DefaultHeadlessRule) : bool := conditions_given (has_network o) o.
Definition has_conditions (o : Opt.DefaultHeadlessRule) : bool := conditions_given (hasNetworkManager && has_network o) o.

(** The conditions of a rule, where those on the state of the network come to [network]. *)
Definition conditions_hold (network : bool) (o : Opt.DefaultHeadlessRule) (md : InboundContext) : bool :=
  wanted (Opt.QueryType o)
    (negb (QueryType md =? 0) && bool_decide (QueryType md ∈ map uint16 (elems (Opt.QueryType o))))
  && wanted (Opt.Network o) (bool_decide (Network md ∈ elems (Opt.Network o)))
  && process_spec o md
  && network
  (* source address *)
  && (negb (given (Opt.SourceIPCIDR o) || negb (is_nil (Opt.SourceIPSet o)))
      || cidr_match true (Opt.SourceIPCIDR o) (Opt.SourceIPSet o) md)
  (* source port *)
  && (negb (given (Opt.SourcePort o) || given (Opt.SourcePortRange o))
      || bool_decide (Socksaddr_Port (Source md) ∈ elems (Opt.SourcePort o))
      || port_in_ranges (elems (Opt.SourcePortRange o)) (Socksaddr_Port (Source md)))
  (* destination address: domain or address *)
  && (negb (has_domain o || isIPCIDRHeadlessRule o)
      || domain_spec o md || cidr_match false (Opt.IPCIDR o) (Opt.IPSet o) md)
  (* destination port *)
  && (negb (given (Opt.Port o) || given (Opt.PortRange o))
      || bool_decide (Socksaddr_Port (Destination md) ∈ elems (Opt.Port o))
      || port_in_ranges (elems (Opt.PortRange o)) (Socksaddr_Port (Destination md))).

(** What a rule means: all groups of conditions hold, and [invert] negates. *)
Fixpoint headless_meaning (r : Opt.HeadlessRule) (md : InboundContext) : bool :=
  match r with
  | Opt.mkHeadlessRule t o l =>
      if Opt.isDefaultType t then xorb (Opt.Invert o) (conditions_hold (network_spec o) o md)
      else xorb (Opt.LogicalInvert l)
             (if String.eqb (Opt.Mode l) "and" then forallb (fun r => headless_meaning r md) (Opt.Rules l)
              else existsb (fun r => headless_meaning r md) (Opt.Rules l))
  end.

(** Every default rule of the tree states a condition. *)
Fixpoint conditioned (r : Opt.HeadlessRule) : bool :=
  match r with
  | Opt.mkHeadlessRule t o l =>
      if Opt.isDefaultType t then states_conditions o else forallb conditioned (Opt.Rules l)
  end.

(** What the program evaluates with or without a network manager: without one
    the conditions on the network are dropped, and so is the [invert] of a rule
    that has no other. *)
Definition default_spec (o : Opt.DefaultHeadlessRule) (md : InboundContext) : bool :=
  conditions_hold (negb hasNetworkManager || network_spec o) o md.

Fixpoint headless_spec (r : Opt.HeadlessRule) (md : InboundContext) : bool :=
  match r with
  | Opt.mkHeadlessRule t o l =>
      if Opt.isDefaultType t then
        if has_conditions o then xorb (Opt.Invert o) (default_spec o md) else true
      else xorb (Opt.LogicalInvert l)
             (if String.eqb (Opt.Mode l) "and" then forallb (fun r => headless_spec r md) (Opt.Rules l)
              else existsb (fun r => headless_spec r md) (Opt.Rules l))
  end.
End Spec.
End WithEnv.

(** ** The constructed rule *)

Section Lemmas.
Context `{GE : GoEnv}.

(** The items a step appends. *)
Definition built (step : option (result RuleItem)) : list RuleItem :=
  match step with Some (Ok item) => [item] | _ => [] end.

Definition step_ok (step : option (result RuleItem)) : bool :=
  match step with None => true | Some m => is_ok m end.

Lemma add_inv append step rule rule' :
  add append step rule = Ok rule' -> step_ok step = true /\ rule' = foldl append rule (built step).
Proof. destruct step as [[item|e|m]|]; cbn; intros H; by simplify_eq. Qed.

Lemma add_ok append step rule : step_ok step = true -> add append step rule = Ok (foldl append rule (built step)).
Proof. by destruct step as [[]|]. Qed.

Lemma bind_add_inv append step rule (k : abstractDefaultRule -> result abstractDefaultRule) rule' :
  bind_result (add append step rule) k = Ok rule' ->
  exists l, built step = l /\ step_ok step = true /\ k (foldl append rule l) = Ok rule'.
Proof.
  intros H. exists (built step). destruct (add append step rule) eqn:E; [|done..].
  apply add_inv in E as [? ->]. done.
Qed.

Lemma foldl_append_items r l :
  foldl append_items r l = mkDefaultRule (items r ++ l) (sourceAddressItems r) (sourcePortItems r)
    (destinationAddressItems r) (destinationIPCIDRItems r) (destinationPortItems r) (allItems r ++ l) (invert r).
Proof.
  revert r. induction l as [|it l IH]; intros r; cbn [foldl]; [by rewrite !app_nil_r; destruct r|].
  rewrite IH. cbn. by rewrite <- !app_assoc.
Qed.

Lemma foldl_append_sourceAddress r l :
  foldl append_sourceAddress r l = mkDefaultRule (items r) (sourceAddressItems r ++ l) (sourcePortItems r)
    (destinationAddressItems r) (destinationIPCIDRItems r) (destinationPortItems r) (allItems r ++ l) (invert r).
Proof.
  revert r. induction l as [|it l IH]; intros r; cbn [foldl]; [by rewrite !app_nil_r; destruct r|].
  rewrite IH. cbn. by rewrite <- !app_assoc.
Qed.

Lemma foldl_append_sourcePort r l :
  foldl append_sourcePort r l = mkDefaultRule (items r) (sourceAddressItems r) (sourcePortItems r ++ l)
    (destinationAddressItems r) (destinationIPCIDRItems r) (destinationPortItems r) (allItems r ++ l) (invert r).
Proof.
  revert r. induction l as [|it l IH]; intros r; cbn [foldl]; [by rewrite !app_nil_r; destruct r|].
  rewrite IH. cbn. by rewrite <- !app_assoc.
Qed.

Lemma foldl_append_destinationAddress r l :
  foldl append_destinationAddress r l = mkDefaultRule (items r) (sourceAddressItems r) (sourcePortItems r)
    (destinationAddressItems r ++ l) (destinationIPCIDRItems r) (destinationPortItems r) (allItems r ++ l) (invert r).
Proof.
  revert r. induction l as [|it l IH]; intros r; cbn [foldl]; [by rewrite !app_nil_r; destruct r|].
  rewrite IH. cbn. by rewrite <- !app_assoc.
Qed.

Lemma foldl_append_destinationIPCIDR r l :
  foldl append_destinationIPCIDR r l = mkDefaultRule (items r) (sourceAddressItems r) (sourcePortItems r)
    (destinationAddressItems r) (destinationIPCIDRItems r ++ l) (destinationPortItems r) (allItems r ++ l) (invert r).
Proof.
  revert r. induction l as [|it l IH]; intros r; cbn [foldl]; [by rewrite !app_nil_r; destruct r|].
  rewrite IH. cbn. by rewrite <- !app_assoc.
Qed.

Lemma foldl_append_destinationPort r l :
  foldl append_destinationPort r l = mkDefaultRule (items r) (sourceAddressItems r) (sourcePortItems r)
    (destinationAddressItems r) (destinationIPCIDRItems r) (destinationPortItems r ++ l) (allItems r ++ l) (invert r).
Proof.
  revert r. induction l as [|it l IH]; intros r; cbn [foldl]; [by rewrite !app_nil_r; destruct r|].
  rewrite IH. cbn. by rewrite <- !app_assoc.
Qed.
End Lemmas.

Ltac simpl_rule H :=
  rewrite ?foldl_append_items, ?foldl_append_sourceAddress, ?foldl_append_sourcePort,
    ?foldl_append_destinationAddress, ?foldl_append_destinationIPCIDR, ?foldl_append_destinationPort in H;
  cbn [emptyRule items sourceAddressItems sourcePortItems destinationAddressItems destinationIPCIDRItems
       destinationPortItems allItems invert] in H.

(** Run the steps of a constructor in hypothesis [H], keeping what each built. *)
Ltac run_steps H :=
  repeat (apply bind_add_inv in H as (? & ? & ? & H); simpl_rule H);
  apply add_inv in H as [? H];
  match type of H with context [built ?step] =>
    let l := fresh "l" in let E := fresh "E" in remember (built step) as l eqn:E; symmetry in E end;
  simpl_rule H; subst.

Section Lemmas2.
Context `{GE : GoEnv}.

(** Every rule the constructor builds lists its items exactly once in allItems. *)
Lemma wf_NewDefaultHeadlessRule nm o rule : NewDefaultHeadlessRule nm o = Ok rule -> wf_rule rule.
Proof.
  intros H. unfold NewDefaultHeadlessRule in H. run_steps H.
  unfold wf_rule. cbn [items sourceAddressItems sourcePortItems destinationAddressItems destinationIPCIDRItems
    destinationPortItems allItems]. solve_Permutation.
Qed.

Lemma invert_NewDefaultHeadlessRule nm o rule : NewDefaultHeadlessRule nm o = Ok rule -> invert rule = Opt.Invert o.
Proof. intros H. unfold NewDefaultHeadlessRule in H. by run_steps H. Qed.

(** *** What the items of one step decide *)

Context (rt : RuntimeState).

Lemma compile_regexps_match i l ms x :
  compile_regexps i l = Ok ms -> existsb (fun m => MatchString m x) ms = regexes_match l x.
Proof.
  revert i ms. induction l as [|e l IH]; intros i ms H; cbn in H; [by simplify_eq|].
  unfold regexes_match. cbn [existsb]. destruct (regexp_Compile e); cbn in H; [|done..].
  bind_case H; simplify_eq. cbn [existsb]. by erewrite IH.
Qed.

Lemma port_ranges_match l rs port :
  map_result parse_port_range l = Ok rs ->
  existsb (fun r => (range_start r <=? port) && (port <=? range_end r)) rs = port_in_ranges l port.
Proof.
  revert rs. induction l as [|e l IH]; intros rs H; cbn [map_result] in H; [by simplify_eq|].
  unfold port_in_ranges. cbn [existsb]. destruct (parse_port_range e); cbn [bind_result] in H; [|done..].
  bind_case H; simplify_eq. cbn [existsb]. by erewrite IH.
Qed.

Lemma nonempty_built step : step_ok step = true -> nonempty (built step) = negb (is_nil step).
Proof. by destruct step as [[]|]. Qed.

Lemma is_nil_when {A} b (x : A) : is_nil (when b x) = negb b.
Proof. by destruct b. Qed.

Lemma is_nil_orRaw {A B X} (l : Listable A) (x : X) (p : option B) f :
  is_nil (orRaw l x p f) = negb (given l || negb (is_nil p)).
Proof. unfold orRaw. destruct (given l); [done|]. by destruct p. Qed.

Lemma matchAny_built_when b it md : matchAnyItem rt (built (when b (Ok it))) md = b && Match rt it md.
Proof. destruct b; [|done]. apply orb_false_r. Qed.

Lemma all_built_when b it md :
  forallb (fun it => Match rt it md) (built (when b (Ok it))) = negb b || Match rt it md.
Proof. destruct b; [|done]. apply andb_true_r. Qed.

Lemma all_built_process_regex l c md :
  step_ok (when (given l) (with_cause c (NewProcessPathRegexItem (elems l)))) = true ->
  forallb (fun it => Match rt it md) (built (when (given l) (with_cause c (NewProcessPathRegexItem (elems l))))) =
  wanted l (match ProcessInfo md with
            | Some info => negb (String.eqb (ProcessPath info) "") && regexes_match (elems l) (ProcessPath info)
            | None => false end).
Proof.
  unfold wanted. destruct (given l); [|done]. cbn [when]. unfold NewProcessPathRegexItem.
  destruct (compile_regexps 0 (elems l)) as [ms| |] eqn:E; cbn; [|done..]. intros _.
  rewrite andb_true_r. unfold ProcessPathRegexItem_Match. destruct (ProcessInfo md) as [info|]; [|done].
  destruct (String.eqb _ _); [done|]. by erewrite compile_regexps_match.
Qed.

Lemma any_built_domain_regex l c md :
  step_ok (when (given l) (with_cause c (NewDomainRegexItem (elems l)))) = true ->
  matchAnyItem rt (built (when (given l) (with_cause c (NewDomainRegexItem (elems l))))) md =
  negb (String.eqb (domainHost md) "") && regexes_match (elems l) (strings_ToLower (domainHost md)).
Proof.
  unfold given. destruct (elems l) as [|e es] eqn:El; cbn [nonempty when];
    [cbn; by rewrite andb_false_r|]. rewrite <- El. clear El. unfold NewDomainRegexItem.
  destruct (compile_regexps 0 _) as [ms| |] eqn:E; cbn; [|done..]. intros _.
  rewrite orb_false_r. unfold DomainRegexItem_Match. destruct (String.eqb _ _); [done|].
  by erewrite compile_regexps_match.
Qed.

Lemma any_built_port_range isSource l c md :
  step_ok (when (given l) (with_cause c (NewPortRangeItem isSource (elems l)))) = true ->
  matchAnyItem rt (built (when (given l) (with_cause c (NewPortRangeItem isSource (elems l))))) md =
  port_in_ranges (elems l) (if isSource then Socksaddr_Port (Source md) else Socksaddr_Port (Destination md)).
Proof.
  unfold given. destruct (elems l) as [|e es] eqn:El; cbn [nonempty when]; [done|].
  rewrite <- El. clear El. unfold NewPortRangeItem.
  destruct (map_result _ _) as [rs| |] eqn:E; cbn; [|done..]. intros _.
  rewrite orb_false_r. unfold PortRangeItem_Match. by erewrite port_ranges_match.
Qed.

Lemma any_built_cidr isSource l c raw md :
  let step := orRaw l (with_cause c (NewIPCIDRItem isSource (elems l))) raw
                (fun ipSet => Ok (NewRawIPCIDRItem isSource ipSet)) in
  step_ok step = true -> matchAnyItem rt (built step) md = cidr_match isSource l raw md.
Proof.
  unfold orRaw, cidr_match. destruct (given l).
  - unfold NewIPCIDRItem. destruct (parse_cidrs 0 (elems l)); cbn; [|done..].
    destruct (IPSetBuilder_IPSet _); cbn; [|done..]. intros _. apply orb_false_r.
  - destruct raw; [|done]. intros _. apply orb_false_r.
Qed.

Lemma any_built_domain o md :
  let step := if given (Opt.Domain o) || given (Opt.DomainSuffix o)
     then Some (NewDomainItem (elems (Opt.Domain o)) (elems (Opt.DomainSuffix o)))
     else option_map (fun matcher => Ok (NewRawDomainItem matcher)) (Opt.DomainMatcher o) in
  step_ok step = true ->
  nonempty (built step) = given (Opt.Domain o) || given (Opt.DomainSuffix o) || negb (is_nil (Opt.DomainMatcher o)) /\
  matchAnyItem rt (built step) md =
  negb (String.eqb (domainHost md) "") &&
  (if given (Opt.Domain o) || given (Opt.DomainSuffix o)
   then Matcher_Match (NewMatcher (elems (Opt.Domain o)) (elems (Opt.DomainSuffix o)) false)
          (strings_ToLower (domainHost md))
   else match Opt.DomainMatcher o with
        | Some matcher => Matcher_Match matcher (strings_ToLower (domainHost md)) | None => false end).
Proof.
  destruct (given (Opt.Domain o) || given (Opt.DomainSuffix o)).
  - unfold NewDomainItem. do 2 (case_bool_decide; [done|]). intros _. split; [done|]. cbn.
    rewrite orb_false_r. unfold DomainItem_Match. by destruct (String.eqb _ _).
  - destruct (Opt.DomainMatcher o); cbn; [|by rewrite andb_false_r]. intros _. split; [done|].
    rewrite orb_false_r. unfold DomainItem_Match. by destruct (String.eqb _ _).
Qed.

(** *** The groups of the constructed rule *)

Lemma QueryTypeItem_map_of l md :
  QueryTypeItem_Match (map_of l) md = negb (QueryType md =? 0) && bool_decide (QueryType md ∈ l).
Proof. unfold QueryTypeItem_Match. rewrite map_get_map_of. by destruct (_ =? _). Qed.

Lemma ProcessItem_map_of l md :
  ProcessItem_Match (map_of l) md =
  match ProcessInfo md with
  | Some info => negb (String.eqb (ProcessPath info) "") && bool_decide (filepath_Base (ProcessPath info) ∈ l)
  | None => false end.
Proof.
  unfold ProcessItem_Match. destruct (ProcessInfo md); [|done]. rewrite map_get_map_of. by destruct (String.eqb _ _).
Qed.

Lemma ProcessPathItem_map_of l md :
  ProcessPathItem_Match (map_of l) md =
  match ProcessInfo md with
  | Some info => negb (String.eqb (ProcessPath info) "") && bool_decide (ProcessPath info ∈ l)
  | None => false end.
Proof. unfold ProcessPathItem_Match. destruct (ProcessInfo md); [|done]. by rewrite map_get_map_of. Qed.

Lemma items_NewDefaultHeadlessRule nm o rule md :
  NewDefaultHeadlessRule nm o = Ok rule ->
  forallb (fun it => Match rt it md) (items rule) =
  wanted (Opt.QueryType o) (negb (QueryType md =? 0) && bool_decide (QueryType md ∈ map uint16 (elems (Opt.QueryType o))))
  && wanted (Opt.Network o) (bool_decide (Network md ∈ elems (Opt.Network o)))
  && process_spec o md && (negb nm || network_spec rt o).
Proof.
  intros H. unfold NewDefaultHeadlessRule in H. run_steps H. cbn [items app].
  rewrite !forallb_app, !all_built_when, all_built_process_regex by done.
  unfold NewQueryTypeItem, NewNetworkItem, NewProcessItem, NewProcessPathItem, NewNetworkTypeItem, NewWIFISSIDItem,
    NewWIFIBSSIDItem, NewNetworkInterfaceAddressItem, NewDefaultInterfaceAddressItem. cbn [Match].
  rewrite !map_get_map_of, QueryTypeItem_map_of, ProcessItem_map_of, ProcessPathItem_map_of.
  unfold process_spec, network_spec, wanted. destruct nm; cbn [negb andb orb]; by rewrite ?andb_true_r, <- !andb_assoc.
Qed.

(** Groups with their emptiness. *)
Ltac group_case H :=
  unfold NewDefaultHeadlessRule in H; run_steps H;
  cbn [sourceAddressItems sourcePortItems destinationAddressItems destinationIPCIDRItems destinationPortItems allItems app];
  rewrite ?nonempty_app, ?matchAnyItem_app.

Lemma sourceAddress_NewDefaultHeadlessRule nm o rule md :
  NewDefaultHeadlessRule nm o = Ok rule ->
  nonempty (sourceAddressItems rule) = given (Opt.SourceIPCIDR o) || negb (is_nil (Opt.SourceIPSet o)) /\
  matchAnyItem rt (sourceAddressItems rule) md = cidr_match true (Opt.SourceIPCIDR o) (Opt.SourceIPSet o) md.
Proof.
  intros H. group_case H. rewrite nonempty_built, is_nil_orRaw, negb_involutive by done. split; [done|].
  by apply any_built_cidr.
Qed.

Lemma destinationIPCIDR_NewDefaultHeadlessRule nm o rule md :
  NewDefaultHeadlessRule nm o = Ok rule ->
  nonempty (destinationIPCIDRItems rule) = isIPCIDRHeadlessRule o /\
  matchAnyItem rt (destinationIPCIDRItems rule) md = cidr_match false (Opt.IPCIDR o) (Opt.IPSet o) md.
Proof.
  intros H. group_case H. rewrite nonempty_built, is_nil_orRaw, negb_involutive by done. split; [done|].
  by apply any_built_cidr.
Qed.

Lemma existsb_eq_elem `{EqDecision A} (x : A) l : given (Some l) && bool_decide (x ∈ l) = bool_decide (x ∈ l).
Proof. destruct l; [|done]. cbn. symmetry. apply bool_decide_eq_false_2, not_elem_of_nil. Qed.

Lemma given_elem `{EqDecision A} (x : A) (l : Listable A) :
  given l && bool_decide (x ∈ elems l) = bool_decide (x ∈ elems l).
Proof. destruct l; [apply existsb_eq_elem|apply (existsb_eq_elem x [])]. Qed.

Lemma sourcePort_NewDefaultHeadlessRule nm o rule md :
  NewDefaultHeadlessRule nm o = Ok rule ->
  nonempty (sourcePortItems rule) = given (Opt.SourcePort o) || given (Opt.SourcePortRange o) /\
  matchAnyItem rt (sourcePortItems rule) md =
    bool_decide (Socksaddr_Port (Source md) ∈ elems (Opt.SourcePort o))
    || port_in_ranges (elems (Opt.SourcePortRange o)) (Socksaddr_Port (Source md)).
Proof.
  intros H. group_case H. rewrite !nonempty_built, !is_nil_when, !negb_involutive by done. split; [done|].
  rewrite matchAny_built_when, any_built_port_range by done. cbn [NewPortItem Match PortItem_Match].
  by rewrite map_get_map_of, given_elem.
Qed.

Lemma destinationPort_NewDefaultHeadlessRule nm o rule md :
  NewDefaultHeadlessRule nm o = Ok rule ->
  nonempty (destinationPortItems rule) = given (Opt.Port o) || given (Opt.PortRange o) /\
  matchAnyItem rt (destinationPortItems rule) md =
    bool_decide (Socksaddr_Port (Destination md) ∈ elems (Opt.Port o))
    || port_in_ranges (elems (Opt.PortRange o)) (Socksaddr_Port (Destination md)).
Proof.
  intros H. group_case H. rewrite !nonempty_built, !is_nil_when, !negb_involutive by done. split; [done|].
  rewrite matchAny_built_when, any_built_port_range by done. cbn [NewPortItem Match PortItem_Match].
  by rewrite map_get_map_of, given_elem.
Qed.

Lemma any_built_adguard o md :
  matchAnyItem rt (built (orRaw (Opt.AdGuardDomain o) (Ok (NewAdGuardDomainItem (elems (Opt.AdGuardDomain o))))
       (Opt.AdGuardDomainMatcher o) (fun matcher => Ok (NewRawAdGuardDomainItem matcher)))) md =
  negb (String.eqb (domainHost md) "") &&
  (let host := strings_ToLower (domainHost md) in
   if given (Opt.AdGuardDomain o) then AdGuardMatcher_Match (NewAdGuardMatcher (elems (Opt.AdGuardDomain o))) host
   else match Opt.AdGuardDomainMatcher o with Some matcher => AdGuardMatcher_Match matcher host | None => false end).
Proof.
  unfold orRaw. destruct (given (Opt.AdGuardDomain o)).
  - cbn. rewrite orb_false_r. unfold AdGuardDomainItem_Match. by destruct (String.eqb _ _).
  - destruct (Opt.AdGuardDomainMatcher o); cbn; [|by rewrite andb_false_r].
    rewrite orb_false_r. unfold AdGuardDomainItem_Match. by destruct (String.eqb _ _).
Qed.

Lemma any_built_keyword l md :
  matchAnyItem rt (built (when (given l) (Ok (NewDomainKeywordItem (elems l))))) md =
  negb (String.eqb (domainHost md) "") && existsb (strings_Contains (strings_ToLower (domainHost md))) (elems l).
Proof.
  rewrite matchAny_built_when. cbn [NewDomainKeywordItem Match]. unfold DomainKeywordItem_Match, given.
  destruct (String.eqb _ _); [by rewrite andb_false_r|]. by destruct (elems l).
Qed.

Lemma destinationAddress_NewDefaultHeadlessRule nm o rule md :
  NewDefaultHeadlessRule nm o = Ok rule ->
  nonempty (destinationAddressItems rule) = has_domain o /\
  matchAnyItem rt (destinationAddressItems rule) md = domain_spec o md.
Proof.
  intros H. group_case H. rewrite any_built_keyword, any_built_domain_regex, any_built_adguard by done.
  edestruct (any_built_domain o md) as [-> ->]; [done|].
  rewrite !nonempty_built, !is_nil_when, is_nil_orRaw, !negb_involutive by done. split.
  - unfold has_domain. by rewrite <- !orb_assoc.
  - unfold domain_spec. cbn zeta. by rewrite <- !andb_orb_distrib_r.
Qed.

Lemma allItems_NewDefaultHeadlessRule nm o rule :
  NewDefaultHeadlessRule nm o = Ok rule -> nonempty (allItems rule) = has_conditions nm o.
Proof.
  intros H. group_case H. edestruct (any_built_domain o (demoConnection "")) as [-> _]; [done|].
  rewrite !nonempty_built, !is_nil_when, !is_nil_orRaw, !negb_involutive by done.
  unfold has_conditions, conditions_given, has_domain, has_network, isIPCIDRHeadlessRule, isProcessHeadlessRule.
  destruct nm; cbn [andb];
    repeat match goal with |- context [given ?x] =>
      destruct (given x); cbn [orb]; rewrite ?orb_true_r; [reflexivity|] end;
    repeat match goal with |- context [is_nil ?x] =>
      destruct (is_nil x); cbn [orb negb]; rewrite ?orb_true_r; [|reflexivity] end;
    by destruct (Opt.NetworkIsExpensive o), (Opt.NetworkIsConstrained o).
Qed.

(** The specification of a single rule. *)
Lemma default_positive_spec nm o rule md :
  NewDefaultHeadlessRule nm o = Ok rule -> IPCIDRMatchSource md = false -> IgnoreDestinationIPCIDRMatch md = false ->
  default_positive rt rule md = default_spec rt nm o md.
Proof.
  intros H Hs Hi. unfold default_positive, default_spec, conditions_hold, requiresSourceAddressMatch, requiresDestinationAddressMatch,
    sourceGroup, destinationGroup, destinationIPCIDRMatchesSource, destinationIPCIDRMatchesDestination.
  rewrite Hs, Hi. cbn [negb andb]. rewrite (items_NewDefaultHeadlessRule _ _ _ _ H).
  destruct (sourceAddress_NewDefaultHeadlessRule _ _ _ md H) as [-> ->].
  destruct (sourcePort_NewDefaultHeadlessRule _ _ _ md H) as [-> ->].
  destruct (destinationAddress_NewDefaultHeadlessRule _ _ _ md H) as [-> ->].
  destruct (destinationPort_NewDefaultHeadlessRule _ _ _ md H) as [-> ->].
  destruct (destinationIPCIDR_NewDefaultHeadlessRule _ _ _ md H) as [Hc Hm].
  assert (nonempty (destinationIPCIDRItems rule) && matchAnyItem rt (destinationIPCIDRItems rule) md =
          cidr_match false (Opt.IPCIDR o) (Opt.IPSet o) md) as -> by by rewrite matchAnyItem_nonempty.
  by rewrite Hc, !orb_false_r, !orb_assoc.
Qed.

Definition clean (md : InboundContext) : Prop :=
  IPCIDRMatchSource md = false /\ IPCIDRAcceptEmpty md = false /\ IgnoreDestinationIPCIDRMatch md = false.

Lemma cidr_match_reset isSource l raw md :
  clean md -> cidr_match isSource l raw (ResetRuleCache md) = cidr_match isSource l raw md.
Proof.
  intros (Hs & He & Hi).
  assert (forall set, IPCIDRItem_Match set isSource (ResetRuleCache md) = IPCIDRItem_Match set isSource md) as Heq.
  { intros set. unfold IPCIDRItem_Match. rewrite Hs, He. reflexivity. }
  unfold cidr_match. destruct (given l).
  - destruct (parse_cidrs _ _); [|done..]. destruct (IPSetBuilder_IPSet _); [|done..]. apply Heq.
  - destruct raw; [|done]. apply Heq.
Qed.

Lemma default_spec_reset nm o md : clean md -> default_spec rt nm o (ResetRuleCache md) = default_spec rt nm o md.
Proof. intros Hc. unfold default_spec, conditions_hold. by rewrite !cidr_match_reset. Qed.

Lemma clean_reset md : clean md -> clean (ResetRuleCache md).
Proof. intros (_ & _ & ?). done. Qed.

End Lemmas2.

Section HeadlessInduction.
Context `{GE : GoEnv} (P : Opt.HeadlessRule -> Prop).
Hypothesis P_rule : forall t o l, Forall P (Opt.Rules l) -> P (Opt.mkHeadlessRule t o l).

Fixpoint HeadlessRule_tree_ind (r : Opt.HeadlessRule) : P r :=
  match r with
  | Opt.mkHeadlessRule t o l =>
      P_rule t o l
        ((fix all (rules : list Opt.HeadlessRule) : Forall P rules :=
            match rules with
            | [] => Forall_nil_2 P
            | r :: rest => Forall_cons_2 P r rest (HeadlessRule_tree_ind r) (all rest)
            end) (Opt.Rules l))
  end.
End HeadlessInduction.

(** Rules built one by one. *)
Section Indexed2.
Context {A B : Type} (msg : Z -> string) (f : A -> result B).

Lemma mapi_result_Forall2 i xs ys : mapi_result msg f i xs = Ok ys -> Forall2 (fun x y => f x = Ok y) xs ys.
Proof.
  revert i ys. induction xs as [|x xs IH]; intros i ys H; cbn [mapi_result] in H; [by simplify_eq|].
  destruct (f x) eqn:E; cbn [with_cause bind_result] in H; [|done..].
  bind_case H; simplify_eq. constructor; [done|]. by eapply IH.
Qed.

Lemma mapi_result_ok i xs ys : Forall2 (fun x y => f x = Ok y) xs ys -> mapi_result msg f i xs = Ok ys.
Proof.
  intros H. revert i. induction H as [|x y xs ys E _ IH]; intros i; [done|].
  cbn [mapi_result]. rewrite E. cbn [with_cause bind_result]. by rewrite IH.
Qed.
End Indexed2.

Lemma Forall2_forallb {A B} (f : A -> bool) (g : B -> bool) xs ys :
  Forall2 (fun x y => f x = g y) xs ys -> forallb f xs = forallb g ys.
Proof. induction 1 as [|x y xs ys E _ IH]; [done|]. cbn [forallb]. by rewrite E, IH. Qed.

Lemma Forall2_existsb {A B} (f : A -> bool) (g : B -> bool) xs ys :
  Forall2 (fun x y => f x = g y) xs ys -> existsb f xs = existsb g ys.
Proof. induction 1 as [|x y xs ys E _ IH]; [done|]. cbn [existsb]. by rewrite E, IH. Qed.

Section Tree.
Context `{GE : GoEnv} (rt : RuntimeState) (nm : bool).

(** The shape of a successfully constructed rule. *)
Lemma NewHeadlessRule_inv r rule :
  NewHeadlessRule nm r = Ok rule ->
  match r with
  | Opt.mkHeadlessRule t o l =>
      (Opt.isDefaultType t = true /\ Opt.Default_IsValid o = true /\
       exists d, NewDefaultHeadlessRule nm o = Ok d /\ rule = DefaultRule d None) \/
      (Opt.isDefaultType t = false /\ t = Opt.RuleTypeLogical /\ Opt.Rules l <> [] /\
       exists mode rules,
         ((mode = LogicalTypeAnd /\ Opt.Mode l = "and") \/ (mode = LogicalTypeOr /\ Opt.Mode l = "or")) /\
         Forall2 (fun r rule => NewHeadlessRule nm r = Ok rule) (Opt.Rules l) rules /\
         rule = LogicalRule mode rules (Opt.LogicalInvert l))
  end.
Proof.
  destruct r as [t o l]. cbn [NewHeadlessRule]. intros H. destruct (Opt.isDefaultType t).
  - left. destruct (Opt.Default_IsValid o); [|done]. cbn [negb] in H. bind_case H; simplify_eq. eauto.
  - right. destruct (String.eqb_spec t Opt.RuleTypeLogical) as [->|]; [|done]. split_and!; [done..| |].
    { intros Hn. unfold Opt.Logical_IsValid in H. by rewrite Hn in H. }
    bind_case H; [|done..]. destruct value; [|done]. cbn [negb] in H. unfold NewLogicalHeadlessRule in H.
    destruct (String.eqb_spec (Opt.Mode l) "and"); [|destruct (String.eqb_spec (Opt.Mode l) "or"); [|done]];
      cbn [bind_result] in H; bind_case H; simplify_eq;
      (eexists _, _; split_and!; [|by eapply mapi_result_Forall2|done]); auto.
Qed.

(** A rule that could be built is valid, so its parent accepts it. *)
Lemma NewHeadlessRule_valid r rule : NewHeadlessRule nm r = Ok rule -> Opt.IsValid r = Ok true.
Proof.
  destruct r as [t o l]. cbn [NewHeadlessRule Opt.IsValid]. destruct (Opt.isDefaultType t).
  - by destruct (Opt.Default_IsValid o).
  - destruct (String.eqb _ _); [|done]. destruct (Opt.Logical_IsValid Opt.IsValid l) as [[]| |]; done.
Qed.

Lemma NewHeadlessRule_logical o l mode rules :
  Opt.Rules l <> [] ->
  (mode = LogicalTypeAnd /\ Opt.Mode l = "and") \/ (mode = LogicalTypeOr /\ Opt.Mode l = "or") ->
  Forall2 (fun r rule => NewHeadlessRule nm r = Ok rule) (Opt.Rules l) rules ->
  NewHeadlessRule nm (Opt.mkHeadlessRule Opt.RuleTypeLogical o l) = Ok (LogicalRule mode rules (Opt.LogicalInvert l)).
Proof.
  intros Hne Hmode Hr. cbn [NewHeadlessRule]. change (Opt.isDefaultType Opt.RuleTypeLogical) with false.
  change (String.eqb Opt.RuleTypeLogical Opt.RuleTypeLogical) with true. cbn match.
  assert (Opt.Logical_IsValid Opt.IsValid l = Ok true) as ->.
  { unfold Opt.Logical_IsValid. destruct (Opt.Rules l) as [|r rs]; [done|]. cbn [nonempty]. clear Hne Hmode.
    induction Hr as [|r' rule' rs' rules' E _ IH]; [done|]. cbn [Opt.all_result].
    by rewrite (NewHeadlessRule_valid _ _ E). }
  cbn [bind_result negb]. unfold NewLogicalHeadlessRule. rewrite (mapi_result_ok _ _ _ _ _ Hr).
  by destruct Hmode as [[-> ->]|[-> ->]].
Qed.

Lemma forallb_Forall' {A} (f : A -> bool) l : forallb f l = true -> Forall (fun x => f x = true) l.
Proof.
  induction l as [|x l IH]; intros H; constructor; cbn in H; apply andb_true_iff in H as [? ?]; auto.
Qed.

Lemma headless_spec_reset r md : clean md -> headless_spec rt nm r (ResetRuleCache md) = headless_spec rt nm r md.
Proof.
  intros Hc. induction r as [t o l IH] using HeadlessRule_tree_ind. cbn [headless_spec].
  rewrite default_spec_reset by done. destruct (Opt.isDefaultType t); [done|]. f_equal.
  destruct (String.eqb _ _); [apply Forall2_forallb|apply Forall2_existsb]; by apply Forall_Forall2_diag.
Qed.

(** With a network manager the program evaluates what the options say. *)
Lemma headless_spec_meaning r md : conditioned r = true -> headless_spec rt true r md = headless_meaning rt r md.
Proof.
  induction r as [t o l IH] using HeadlessRule_tree_ind. cbn [headless_spec headless_meaning conditioned].
  destruct (Opt.isDefaultType t); intros Hc; [change (has_conditions true o) with (states_conditions o); by rewrite Hc|].
  f_equal. assert (Forall2 (fun r r' => headless_spec rt true r md = headless_meaning rt r' md) (Opt.Rules l) (Opt.Rules l)) as Hall.
  { apply Forall_Forall2_diag. apply forallb_Forall' in Hc. eapply Forall_impl; [exact (proj2 (Forall_and _ _) (conj IH Hc))|]. cbn. naive_solver. }
  destruct (String.eqb _ _); [by apply Forall2_forallb|by apply Forall2_existsb].
Qed.

Lemma Rule_Match_spec r : forall rule md, NewHeadlessRule nm r = Ok rule -> clean md ->
  Rule_Match rt rule md = headless_spec rt nm r md.
Proof.
  induction r as [t o l IH] using HeadlessRule_tree_ind. intros rule md H Hc.
  apply NewHeadlessRule_inv in H as [(Ht & _ & d & Hd & ->)|(Ht & _ & _ & mode & rules & Hm & Hr & ->)];
    cbn [headless_spec]; rewrite Ht.
  - destruct Hc as (Hs & He & Hi). rewrite Rule_Match_default by done. unfold no_items. rewrite andb_true_r.
    erewrite allItems_NewDefaultHeadlessRule, invert_NewDefaultHeadlessRule, default_positive_spec by eassumption. by destruct (has_conditions nm o).
  - rewrite Rule_Match_logical. f_equal.
    assert (Forall2 (fun rule r => Rule_Match rt rule (ResetRuleCache md) = headless_spec rt nm r md) rules (Opt.Rules l)) as Hall.
    { apply Forall2_flip. revert IH. clear - Hr Hc. induction Hr as [|r rule rs rules E Hr IH']; intros Hf; [constructor|].
      inversion Hf; subst. constructor; [|auto]. cbn.
      rewrite <- headless_spec_reset by done. eauto using clean_reset. }
    destruct Hm as [[-> ->]|[-> ->]]; [by apply Forall2_forallb|by apply Forall2_existsb].
Qed.


Lemma RuleSet_Match_existsb rules md :
  RuleSet_Match rt rules md = existsb (fun rule => Rule_Match rt rule (ResetRuleMatchCache md)) rules.
Proof.
  unfold RuleSet_Match, ruleSet_matchStatesWithBase. rewrite isEmpty_merge_loop. change (isEmpty 0) with true.
  induction rules as [|r rules IH]; [done|]. cbn [existsb forallb andb] in *. by rewrite negb_andb, IH.
Qed.

Lemma RuleSet_Match_spec rs rules md :
  Forall2 (fun r rule => NewHeadlessRule nm r = Ok rule) rs rules -> clean md ->
  RuleSet_Match rt rules md = existsb (fun r => headless_spec rt nm r (ResetRuleMatchCache md)) rs.
Proof.
  intros H Hc. rewrite RuleSet_Match_existsb. symmetry. apply Forall2_existsb.
  eapply Forall2_impl; [exact H|]. intros r rule Hr. cbn. symmetry. by apply Rule_Match_spec.
Qed.

(** [metadata.ProcessInfo = info] *)
Definition set_ProcessInfo (info : option ConnectionOwner) (c : InboundContext) : InboundContext :=
  {| Inbound := Inbound c; IPVersion := IPVersion c; Network := Network c; Source := Source c;
     Destination := Destination c; User := User c; Outbound := Outbound c; Protocol := Protocol c;
     Domain := Domain c; Client := Client c; DestinationAddresses := DestinationAddresses c;
     DNSResponse := DNSResponse c;
     DestinationAddressMatchFromResponse := DestinationAddressMatchFromResponse c;
     ProcessInfo := info; SourceMACAddress := SourceMACAddress c;
     SourceHostname := SourceHostname c; QueryType := QueryType c;
     IPCIDRMatchSource := IPCIDRMatchSource c; IPCIDRAcceptEmpty := IPCIDRAcceptEmpty c;
     SourceAddressMatch := SourceAddressMatch c; SourcePortMatch := SourcePortMatch c;
     DestinationAddressMatch := DestinationAddressMatch c; DestinationPortMatch := DestinationPortMatch c;
     DidMatch := DidMatch c; IgnoreDestinationIPCIDRMatch := IgnoreDestinationIPCIDRMatch c |}.

(** The types the decoders produce: "default" or "logical", never "". *)
Fixpoint normalized (r : Opt.HeadlessRule) : bool :=
  match r with
  | Opt.mkHeadlessRule t _ l =>
      String.eqb t Opt.RuleTypeDefault || (String.eqb t Opt.RuleTypeLogical && forallb normalized (Opt.Rules l))
  end.

Lemma existsb_false_Forall {A} (f : A -> bool) l : existsb f l = false -> Forall (fun x => f x = false) l.
Proof.
  induction l as [|x l IH]; intros H; constructor; cbn in H; apply orb_false_iff in H as [? ?]; auto.
Qed.

Lemma process_spec_unused o info md :
  isProcessHeadlessRule o = false -> process_spec o (set_ProcessInfo info md) = process_spec o md.
Proof.
  unfold isProcessHeadlessRule, process_spec, wanted. rewrite !orb_false_iff. intros [[-> ->] ->]. reflexivity.
Qed.

Lemma headless_spec_process r info md :
  normalized r = true -> hasRule isProcessHeadlessRule r = false ->
  headless_spec rt nm r (set_ProcessInfo info md) = headless_spec rt nm r md.
Proof.
  induction r as [t o l IH] using HeadlessRule_tree_ind. cbn [normalized hasRule headless_spec]. intros Hn Hh.
  unfold Opt.isDefaultType in *. destruct (String.eqb_spec t Opt.RuleTypeDefault) as [->|].
  - cbn. destruct (has_conditions nm o); [|done]. f_equal.
    unfold default_spec, conditions_hold. rewrite process_spec_unused by done. reflexivity.
  - cbn [orb] in Hn. apply andb_true_iff in Hn as [Ht Hn]. rewrite Ht in Hh. apply String.eqb_eq in Ht as ->.
    cbn [String.eqb Ascii.eqb Bool.eqb orb Opt.RuleTypeLogical Opt.RuleTypeDefault]. f_equal.
    assert (Forall2 (fun r r' => headless_spec rt nm r (set_ProcessInfo info md) = headless_spec rt nm r' md)
              (Opt.Rules l) (Opt.Rules l)) as Hf.
    { apply Forall_Forall2_diag. apply existsb_false_Forall in Hh. apply forallb_Forall' in Hn.
      revert IH Hh Hn. induction (Opt.Rules l) as [|x xs IHx]; intros ???; [constructor|].
      decompose_Forall_hyps. constructor; auto. }
    destruct (String.eqb _ _); [by apply Forall2_forallb|by apply Forall2_existsb].
Qed.

(** The address sets a rule exposes are those of its ip_cidr conditions. *)
Lemma extract_default o d :
  NewDefaultHeadlessRule nm o = Ok d ->
  nonempty (extractIPSetFromRule (DefaultRule d None)) = isIPCIDRHeadlessRule o.
Proof.
  intros H. cbn [extractIPSetFromRule]. unfold NewDefaultHeadlessRule in H. run_steps H.
  cbn [destinationIPCIDRItems app].
  match goal with Hs : step_ok ?step = true |- context [built ?step] => revert Hs end.
  clear. unfold orRaw, isIPCIDRHeadlessRule.
  destruct (given (Opt.IPCIDR o)).
  - unfold NewIPCIDRItem. destruct (parse_cidrs _ _); [|done..]. cbn. by destruct (IPSetBuilder_IPSet _).
  - by destruct (Opt.IPSet o).
Qed.

Lemma extract_spec r : forall rule, normalized r = true -> NewHeadlessRule nm r = Ok rule ->
  nonempty (extractIPSetFromRule rule) = hasRule isIPCIDRHeadlessRule r.
Proof.
  induction r as [t o l IH] using HeadlessRule_tree_ind. cbn [normalized hasRule]. intros rule Hn H.
  apply NewHeadlessRule_inv in H as [(Ht & _ & d & Hd & ->)|(Ht & -> & _ & mode & rules & _ & Hr & ->)].
  - rewrite (extract_default _ _ Hd). unfold Opt.isDefaultType in Ht.
    destruct (String.eqb_spec t Opt.RuleTypeDefault); [done|]. cbn [orb] in Hn.
    apply andb_true_iff in Hn as [->%String.eqb_eq _]. done.
  - change (String.eqb Opt.RuleTypeLogical Opt.RuleTypeDefault) with false in *.
    change (String.eqb Opt.RuleTypeLogical Opt.RuleTypeLogical) with true in *. cbn [orb andb] in Hn |- *.
    cbn [extractIPSetFromRule]. apply forallb_Forall' in Hn. revert IH Hn. clear -Hr.
    induction Hr as [|r rule rs rules E Hr IH']; intros Hf Hn; [done|]. decompose_Forall_hyps.
    cbn [map concat existsb]. rewrite nonempty_app. f_equal; [|auto]. eauto.
Qed.

(** Without conditions the constructor has nothing to build, and nothing to fail on. *)
Lemma NewDefaultHeadlessRule_unconditional hasNM o :
  has_conditions hasNM o = false -> NewDefaultHeadlessRule hasNM o = Ok (emptyRule (Opt.Invert o)).
Proof.
  unfold has_conditions, conditions_given, has_domain, has_network, isIPCIDRHeadlessRule, isProcessHeadlessRule.
  rewrite andb_orb_distrib_r. rewrite !andb_orb_distrib_r, !orb_false_iff, !negb_false_iff. intros H. destruct_and!.
  unfold NewDefaultHeadlessRule, orRaw. repeat match goal with
  | H : is_nil ?x = true |- _ => destruct x; [discriminate H|clear H]
  | H : _ = false |- _ => rewrite H; clear H end. reflexivity.
Qed.

Lemma given_nil {A} (l : Listable A) : is_nil l = true -> given l = false.
Proof. by destruct l. Qed.

(** A rule with a condition is valid. *)
Lemma has_conditions_valid hasNM o : has_conditions hasNM o = true -> Opt.Default_IsValid o = true.
Proof.
  intros H. apply not_false_iff_true. unfold Opt.Default_IsValid, Opt.zeroButIPCIDR.
  rewrite negb_false_iff, !andb_true_iff, !negb_true_iff. intros Hz. destruct_and!.
  revert H. unfold has_conditions, conditions_given, has_domain, has_network, isIPCIDRHeadlessRule, isProcessHeadlessRule.
  rewrite !given_nil by done. repeat match goal with H : _ = _ |- _ => rewrite H; clear H end.
  cbn. by rewrite !andb_false_r.
Qed.

Lemma has_network_valid o : has_network o = true -> Opt.Default_IsValid o = true.
Proof. intros H. apply (has_conditions_valid true). unfold has_conditions, conditions_given. by rewrite H, orb_true_r. Qed.

Lemma NewHeadlessRule_unconditional o l :
  has_network o = true -> has_conditions false o = false ->
  exists rule, NewHeadlessRule false (Opt.mkHeadlessRule Opt.RuleTypeDefault o l) = Ok rule.
Proof.
  intros Hn Hc. eexists. cbn [NewHeadlessRule]. change (Opt.isDefaultType Opt.RuleTypeDefault) with true.
  rewrite has_network_valid, NewDefaultHeadlessRule_unconditional by done. reflexivity.
Qed.
End Tree.

(** ** Properties *)

(** C9: a headless rule that the program built means what its options say: its
    outcome is that of [headless_meaning], which evaluates the options directly
    (conditions of one group are alternatives, groups are combined by conjunction,
    [invert] negates, logical rules combine their sub-rules).  Provided the context
    has a network manager, as that of the running program has, every default rule
    states at least one condition, and the rule-set is matched without the options
    rule_set_ip_cidr_match_source and rule_set_ip_cidr_accept_empty of a referring
    rule and outside the pre-match of legacy DNS rules, which change what the
    address conditions apply to. *)
Theorem headless_rule_semantics `{GE : GoEnv} (rt : RuntimeState) (r : Opt.HeadlessRule) (rule : Rule) (md : InboundContext) :
  NewHeadlessRule true r = Ok rule -> conditioned r = true ->
  IPCIDRMatchSource md = false -> IPCIDRAcceptEmpty md = false -> IgnoreDestinationIPCIDRMatch md = false ->
  Rule_Match rt rule md = headless_meaning rt r md.
Proof. intros H Hc ???. rewrite <- headless_spec_meaning by done. by apply Rule_Match_spec. Qed.

(** A rule-set whose metadata says it has no process rule can be matched
    without the (expensive) process lookup: its outcome does not depend on the
    process of the connection. *)
Theorem process_lookup_skippable `{GE : GoEnv} (rt : RuntimeState) (hasNetworkManager : bool)
    (rs : list Opt.HeadlessRule) (rules : list Rule) (md : InboundContext) (info : option ConnectionOwner) :
  Forall2 (fun r rule => NewHeadlessRule hasNetworkManager r = Ok rule) rs rules ->
  forallb normalized rs = true -> ContainsProcessRule (buildRuleSetMetadata rs) = false ->
  IPCIDRMatchSource md = false -> IPCIDRAcceptEmpty md = false -> IgnoreDestinationIPCIDRMatch md = false ->
  RuleSet_Match rt rules (set_ProcessInfo info md) = RuleSet_Match rt rules md.
Proof.
  intros H Hn Hp ???. rewrite !(RuleSet_Match_spec rt hasNetworkManager rs) by done.
  apply Forall2_existsb, Forall_Forall2_diag. apply forallb_Forall' in Hn. apply existsb_false_Forall in Hp.
  eapply Forall_impl; [exact (proj2 (Forall_and _ _) (conj Hn Hp))|].
  intros r [Hr1 Hr2]. exact (headless_spec_process rt hasNetworkManager r info (ResetRuleMatchCache md) Hr1 Hr2).
Qed.

(** The ContainsIPCIDRRule flag of a rule-set is exact: it is set if and only
    if the loaded rules expose an address set. *)
Theorem ipcidr_flag_exact `{GE : GoEnv} (hasNetworkManager : bool) (rs : list Opt.HeadlessRule) (rules : list Rule) :
  Forall2 (fun r rule => NewHeadlessRule hasNetworkManager r = Ok rule) rs rules -> forallb normalized rs = true ->
  ContainsIPCIDRRule (buildRuleSetMetadata rs) = nonempty (concat (map extractIPSetFromRule rules)).
Proof.
  cbn [buildRuleSetMetadata ContainsIPCIDRRule]. unfold HasHeadlessRule.
  induction 1 as [|r rule rs rules E Hr IH]; [done|]. cbn [forallb existsb map concat].
  intros [H1 H2]%andb_true_iff. rewrite nonempty_app, IH by done. f_equal. symmetry. by eapply extract_spec.
Qed.

(** Without a network manager, a rule whose only conditions are about the
    network state is accepted, has no item, and matches every connection, even
    when it is inverted. *)
Theorem network_rule_without_manager_matches_all `{GE : GoEnv} (rt : RuntimeState) (o : Opt.DefaultHeadlessRule)
    (l : Opt.LogicalHeadlessRule Opt.HeadlessRule) (md : InboundContext) :
  has_network o = true -> has_conditions false o = false ->
  IPCIDRMatchSource md = false -> IPCIDRAcceptEmpty md = false -> IgnoreDestinationIPCIDRMatch md = false ->
  exists rule, NewHeadlessRule false (Opt.mkHeadlessRule Opt.RuleTypeDefault o l) = Ok rule /\
               Rule_Match rt rule md = true.
Proof.
  intros Hn Hc ???. destruct (NewHeadlessRule_unconditional o l Hn Hc) as [rule Hrule].
  exists rule. split; [done|]. rewrite (Rule_Match_spec rt false _ _ _ Hrule) by done.
  cbn [headless_spec]. change (Opt.isDefaultType Opt.RuleTypeDefault) with true. by rewrite Hc.
Qed.

(** ** Instances *)

(** Port 443 of hosts of the given suffix. *)
Definition demoOptions (suffix : string) : Opt.DefaultHeadlessRule := {|
  Opt.QueryType := None; Opt.Network := None; Opt.Domain := None; Opt.DomainSuffix := Some [suffix];
  Opt.DomainKeyword := None; Opt.DomainRegex := None; Opt.SourceIPCIDR := None; Opt.IPCIDR := None;
  Opt.SourcePort := None; Opt.SourcePortRange := None; Opt.Port := Some [443]; Opt.PortRange := Some ["80:90"];
  Opt.ProcessName := None; Opt.ProcessPath := None; Opt.ProcessPathRegex := None;
  Opt.NetworkType := None; Opt.NetworkIsExpensive := false; Opt.NetworkIsConstrained := false; Opt.WIFISSID := None;
  Opt.WIFIBSSID := None; Opt.NetworkInterfaceAddress := None; Opt.DefaultInterfaceAddress := None;
  Opt.Invert := false; Opt.DomainMatcher := None; Opt.SourceIPSet := None; Opt.IPSet := None;
  Opt.AdGuardDomain := None; Opt.AdGuardDomainMatcher := None |}.

(** An inverted WIFI condition. *)
Definition demoWIFIOptions : Opt.DefaultHeadlessRule := {|
  Opt.QueryType := None; Opt.Network := None; Opt.Domain := None; Opt.DomainSuffix := None;
  Opt.DomainKeyword := None; Opt.DomainRegex := None; Opt.SourceIPCIDR := None; Opt.IPCIDR := None;
  Opt.SourcePort := None; Opt.SourcePortRange := None; Opt.Port := None; Opt.PortRange := None;
  Opt.ProcessName := None; Opt.ProcessPath := None; Opt.ProcessPathRegex := None;
  Opt.NetworkType := None; Opt.NetworkIsExpensive := false; Opt.NetworkIsConstrained := false;
  Opt.WIFISSID := Some ["home"]; Opt.WIFIBSSID := None; Opt.NetworkInterfaceAddress := None;
  Opt.DefaultInterfaceAddress := None; Opt.Invert := true; Opt.DomainMatcher := None; Opt.SourceIPSet := None;
  Opt.IPSet := None; Opt.AdGuardDomain := None; Opt.AdGuardDomainMatcher := None |}.

Definition noLogical : Opt.LogicalHeadlessRule Opt.HeadlessRule := Opt.mkLogicalHeadlessRule "" [] false.

Definition demoHeadless (o : Opt.DefaultHeadlessRule) : Opt.HeadlessRule :=
  Opt.mkHeadlessRule Opt.RuleTypeDefault o noLogical.

(** Both suffixes must match, and the rule is inverted. *)
Definition demoLogical : Opt.HeadlessRule :=
  Opt.mkHeadlessRule Opt.RuleTypeLogical (Opt.zero false)
    (Opt.mkLogicalHeadlessRule "and" [demoHeadless (demoOptions "org"); demoHeadless (demoOptions "example.org")] true).

Definition demoBuilt (r : Opt.HeadlessRule) : Rule :=
  match NewHeadlessRule true r with Ok rule => rule | _ => LogicalRule LogicalTypeOr [] false end.

Lemma demoBuilt_ok r : is_ok (NewHeadlessRule true r) = true -> NewHeadlessRule true r = Ok (demoBuilt r).
Proof. unfold demoBuilt. by destruct (NewHeadlessRule true r). Qed.

Lemma headless_rule_semantics_witness :
  Rule_Match demoRuntime (demoBuilt demoLogical) (demoConnection "www.example.org") = false /\
  Rule_Match demoRuntime (demoBuilt demoLogical) (demoConnection "www.example.com") = true.
Proof.
  split; (rewrite (headless_rule_semantics demoRuntime demoLogical);
    [by_compute|apply demoBuilt_ok; by_compute|by_compute..]).
Defined.

Lemma process_lookup_skippable_witness :
  RuleSet_Match demoRuntime [demoBuilt demoLogical]
    (set_ProcessInfo (Some {| UserId := 0; UserName := "root"; ProcessPath := "/bin/sh" |}) (demoConnection "a.org")) = true.
Proof.
  rewrite (process_lookup_skippable demoRuntime true [demoLogical]);
    [by_compute|constructor; [apply demoBuilt_ok; by_compute|constructor]|by_compute..].
Defined.

Lemma ipcidr_flag_exact_witness :
  ContainsIPCIDRRule (buildRuleSetMetadata [demoLogical]) = false.
Proof.
  rewrite (ipcidr_flag_exact true [demoLogical] [demoBuilt demoLogical]);
    [by_compute|constructor; [apply demoBuilt_ok; by_compute|constructor]|by_compute].
Defined.

Lemma network_rule_without_manager_matches_all_witness :
  exists rule, NewHeadlessRule false (demoHeadless demoWIFIOptions) = Ok rule /\
               Rule_Match demoRuntime rule (demoConnection "www.example.org") = true.
Proof. apply network_rule_without_manager_matches_all; by_compute. Defined.
