(* ===== verification/RuleBlind.v ===== *)
(** * Fields of the metadata that a rule does not read

    The rule engine looks at the metadata of a connection through the items of
    the rule only, apart from the flags it keeps there itself.  So a change of
    the metadata that no item of the tree can see ([blind]) does not change the
    outcome of the rule, whatever its groups, inversions and nested rule-sets.
    The instance used is the process that opened the connection: rules without
    process items are blind to it. *)
From Stdlib Require Import ZArith Lia Bool.
From S2P Require Import Prelude GoIO DnsMsg Metadata RuleItem MatchState RuleEngine RuleTheorems HeadlessRule.

Section Items.
Context `{GE : GoEnv}.

Definition group_items (r : abstractDefaultRule) : list RuleItem :=
  items r ++ sourceAddressItems r ++ sourcePortItems r ++ destinationAddressItems r ++ destinationIPCIDRItems r
  ++ destinationPortItems r.

(** Every item of the tree, those of the nested rule-sets included, satisfies [p]. *)
Fixpoint all_items (p : RuleItem -> bool) (rule : Rule) : bool :=
  match rule with
  | DefaultRule r ruleSetItem =>
      forallb p (group_items r)
      && match ruleSetItem with Some item => forallb (forallb (all_items p)) (setList item) | None => true end
  | LogicalRule _ rules _ => forallb (all_items p) rules
  end.
End Items.

(** ** What the constructor steps append *)

Section Built.
Context `{GE : GoEnv} (p : RuleItem -> bool).

Lemma forallb_built step : (forall it, step = Some (Ok it) -> p it = true) -> forallb p (built step) = true.
Proof. intros H. destruct step as [[it| |]|]; [|done..]. cbn. by rewrite (H it eq_refl). Qed.

Lemma forallb_when b it : p it = true -> forallb p (built (when b (Ok it))) = true.
Proof. intros H. apply forallb_built. intros it'. destruct b; [|done]. by intros [= <-]. Qed.

Lemma forallb_when_built b m : (forall it, m = Ok it -> p it = true) -> forallb p (built (when b m)) = true.
Proof. intros H. apply forallb_built. intros it. destruct b; [|done]. intros [= ->]. by apply H. Qed.

Lemma built_with_cause b c (m : result RuleItem) : built (when b (with_cause c m)) = built (when b m).
Proof. destruct b; [|done]. by destruct m. Qed.

Lemma forallb_when_cause b c m : (forall it, m = Ok it -> p it = true) -> forallb p (built (when b (with_cause c m))) = true.
Proof. intros H. rewrite built_with_cause. by apply forallb_when_built. Qed.

Lemma forallb_raw {B} (b : bool) (m : result RuleItem) (o : option B) (g : B -> RuleItem) :
  (forall it, m = Ok it -> p it = true) -> (forall x, p (g x) = true) ->
  forallb p (built (if b then Some m else option_map (fun x => Ok (g x)) o)) = true.
Proof.
  intros Hm Hg. apply forallb_built. intros it. destruct b; [intros [= ->]; by apply Hm|]. destruct o; [|done]. by intros [= <-].
Qed.
End Built.

Section Shapes.
Context `{GE : GoEnv}.

Lemma NewDomainItem_shape d s it : NewDomainItem d s = Ok it -> exists m, it = DomainItem m.
Proof. unfold NewDomainItem. do 2 (case_bool_decide; [done|]). intros [= <-]. by eexists. Qed.

Lemma NewDomainRegexItem_shape l it : NewDomainRegexItem l = Ok it -> exists m, it = DomainRegexItem m.
Proof. unfold NewDomainRegexItem. destruct (compile_regexps _ _); [|done..]. intros [= <-]. by eexists. Qed.

Lemma NewProcessPathRegexItem_shape l it : NewProcessPathRegexItem l = Ok it -> exists m, it = ProcessPathRegexItem m.
Proof. unfold NewProcessPathRegexItem. destruct (compile_regexps _ _); [|done..]. intros [= <-]. by eexists. Qed.

Lemma NewIPCIDRItem_shape s l it : NewIPCIDRItem s l = Ok it -> exists set, it = IPCIDRItem set s.
Proof.
  unfold NewIPCIDRItem. destruct (parse_cidrs _ _); cbn [bind_result]; [|done..]. destruct (IPSetBuilder_IPSet _); [|done..].
  intros [= <-]. by eexists.
Qed.

Lemma NewPortRangeItem_shape s l it : NewPortRangeItem s l = Ok it -> exists ranges, it = PortRangeItem s ranges.
Proof. unfold NewPortRangeItem. destruct (map_result _ _); [|done..]. intros [= <-]. by eexists. Qed.

Lemma with_cause_Ok {A} c (m : result A) x : with_cause c m = Ok x -> m = Ok x.
Proof. by destruct m. Qed.
End Shapes.

(** The item of a fallible constructor is of the constructor's kind. *)
Ltac item_shape :=
  let E := fresh "E" in
  intros ? E; try (apply with_cause_Ok in E);
  first
    [ apply NewDomainItem_shape in E as [? ->] | apply NewDomainRegexItem_shape in E as [? ->]
    | apply NewProcessPathRegexItem_shape in E as [? ->] | apply NewIPCIDRItem_shape in E as [? ->]
    | apply NewPortRangeItem_shape in E as [? ->] | injection E as <- ];
  reflexivity.

(** Every item that one step, or a list of steps, appends satisfies the predicate. *)
Ltac item_step :=
  unfold orRaw;
  first
    [ reflexivity | apply forallb_when; reflexivity | apply forallb_when_cause; item_shape | apply forallb_when_built; item_shape
    | apply (forallb_raw _ _ _ _ NewRawDomainItem); [item_shape|reflexivity]
    | apply (forallb_raw _ _ _ _ (NewRawIPCIDRItem _)); [item_shape|reflexivity]
    | apply (forallb_raw _ _ _ _ NewRawAdGuardDomainItem); [item_shape|reflexivity] ].

Ltac item_steps := rewrite ?forallb_app, ?andb_true_iff; split_and!; item_step.

Section Blind.
Context `{GE : GoEnv} (rt : RuntimeState) (f : InboundContext -> InboundContext) (p : RuleItem -> bool).

(** [f] leaves the flags of the engine alone, and the items in [p] do not see it. *)
Record blind : Prop := {
  blind_item : forall it md, p it = true -> Match rt it (f md) = Match rt it md;
  blind_source : forall md, IPCIDRMatchSource (f md) = IPCIDRMatchSource md;
  blind_ignore : forall md, IgnoreDestinationIPCIDRMatch (f md) = IgnoreDestinationIPCIDRMatch md;
  blind_did : forall md, DidMatch (f md) = DidMatch md;
  blind_set_did : forall b md, set_DidMatch b (f md) = f (set_DidMatch b md);
  blind_flags : forall s e md, set_IPCIDRFlags s e (f md) = f (set_IPCIDRFlags s e md);
  blind_reset : forall md, ResetRuleMatchCache (f md) = f (ResetRuleMatchCache md);
}.

Hypothesis Hb : blind.
Abbreviation eval := (matchStatesWithBase rt).

Definition unseen (e : InboundContext -> Z -> Z) : Prop := forall md b, e (f md) b = e md b.

Lemma blind_any its md : forallb p its = true -> matchAnyItem rt its (f md) = matchAnyItem rt its md.
Proof.
  unfold matchAnyItem. induction its as [|it its IH]; [done|]. cbn. intros [Hi Hr]%andb_true_iff.
  by rewrite (blind_item Hb), IH.
Qed.

Lemma blind_all its md : forallb p its = true -> forallb (fun it => Match rt it (f md)) its = forallb (fun it => Match rt it md) its.
Proof. induction its as [|it its IH]; [done|]. cbn. intros [Hi Hr]%andb_true_iff. by rewrite (blind_item Hb), IH. Qed.

Lemma merge_loop_ext {R} (e e' : R -> Z) l : (forall x, x ∈ l -> e x = e' x) -> forall s, merge_loop e l s = merge_loop e' l s.
Proof.
  induction l as [|x l IH]; intros H s; [done|]. cbn. rewrite (H x) by left. apply IH. intros y Hy. apply H. by right.
Qed.

Lemma and_loop_ext {R} (e e' : R -> Z) l : (forall x, x ∈ l -> e x = e' x) -> forall s, and_loop e l s = and_loop e' l s.
Proof.
  induction l as [|x l IH]; intros H s; [done|]. cbn. rewrite (H x) by left. destruct (isEmpty _); [done|].
  apply IH. intros y Hy. apply H. by right.
Qed.

Lemma unseen_item item :
  Forall (Forall (fun rule => unseen (eval rule))) (setList item) -> unseen (ruleSetItem_matchStatesWithBase eval item).
Proof.
  intros H md b. unfold ruleSetItem_matchStatesWithBase, ruleSet_matchStatesWithBase. apply merge_loop_ext. intros set Hs.
  apply merge_loop_ext. intros rule Hr. rewrite (blind_reset Hb), (blind_flags Hb), (blind_reset Hb).
  rewrite Forall_forall in H. specialize (H set Hs). rewrite Forall_forall in H. by apply H.
Qed.

Lemma unseen_default r e :
  forallb p (group_items r) = true -> (forall e0, e = Some e0 -> unseen e0) ->
  unseen (fun md b => fst (default_matchStatesWithBase rt r e md b)).
Proof.
  unfold group_items. rewrite !forallb_app, !andb_true_iff. intros (Hi & Hsa & Hsp & Hda & Hdc & Hdp) He md b.
  rewrite !default_matchStatesWithBase_eq.
  assert (groupState rt r (f md) = groupState rt r md) as Hg.
  { unfold groupState, sourceGroup, destinationGroup, destinationIPCIDRMatchesSource, destinationIPCIDRMatchesDestination.
    by rewrite !blind_any, (blind_source Hb), (blind_ignore Hb). }
  assert (allowedState r (f md) = allowedState r md) as Ha.
  { unfold allowedState, requiresSourceAddressMatch, requiresDestinationAddressMatch, destinationIPCIDRMatchesSource,
      destinationIPCIDRMatchesDestination. by rewrite (blind_source Hb), (blind_ignore Hb). }
  assert (forall b, positiveStates rt e r (f md) b = positiveStates rt e r md b) as Hp.
  { intros b'. unfold positiveStates. rewrite blind_all, Hg, Ha by done. unfold ruleSetStates. destruct e as [e0|]; [|done].
    rewrite (blind_set_did Hb). by rewrite (He e0 eq_refl). }
  unfold deferred, touched, groupsTouched, destinationIPCIDRMatchesSource, destinationIPCIDRMatchesDestination.
  by rewrite !Hp, (blind_source Hb), (blind_ignore Hb), (blind_did Hb).
Qed.

Lemma unseen_rule rule : all_items p rule = true -> unseen (eval rule).
Proof.
  induction rule as [r o IH|mode rules inverted IH] using Rule_tree_ind; cbn [all_items].
  - intros [Hg Hs]%andb_true_iff md b. rewrite !eval_DefaultRule. apply (unseen_default r (evalItem rt o)); [done|].
    intros e0 He. destruct o as [item|]; [|done]. injection He as <-. apply unseen_item.
    specialize (IH item eq_refl). rewrite forallb_forall in Hs. rewrite Forall_forall in IH |- *. intros set Hset.
    specialize (IH set Hset). specialize (Hs set (proj1 (list_elem_of_In _ _) Hset)). rewrite forallb_forall in Hs.
    rewrite Forall_forall in IH |- *. intros rule Hr. apply IH; [done|]. by apply Hs, list_elem_of_In.
  - intros Ha md b. cbn [matchStatesWithBase]. unfold logical_matchStatesWithBase. cbn zeta.
    assert (forall b' x, x ∈ rules -> eval x (ResetRuleCache (f md)) b' = eval x (ResetRuleCache md) b') as He.
    { intros b' x Hx. unfold ResetRuleCache. rewrite (blind_flags Hb), (blind_reset Hb). rewrite Forall_forall in IH.
      apply IH; [done|]. rewrite forallb_forall in Ha. by apply Ha, list_elem_of_In. }
    destruct mode; [by erewrite and_loop_ext by (intros; by apply He)|by erewrite merge_loop_ext by (intros; by apply He)].
Qed.

Lemma blind_Match rule md : all_items p rule = true -> Rule_Match rt rule (f md) = Rule_Match rt rule md.
Proof. intros H. unfold Rule_Match, matchStates. by rewrite (unseen_rule rule H). Qed.
End Blind.

(** ** The process of a connection *)

Section Process.
Context `{GE : GoEnv} (rt : RuntimeState).

(** Items that do not look at the process. *)
Definition no_process (it : RuleItem) : bool :=
  match it with
  | ProcessItem _ | ProcessPathItem _ | ProcessPathRegexItem _ | UserItem _ | UserIdItem _ => false
  | _ => true
  end.

Lemma blind_process info : blind rt (set_ProcessInfo info) no_process.
Proof. split; try done. intros it md H. by destruct it. Qed.

(** A default headless rule without process conditions. *)
Lemma headless_items_no_process nm o r :
  NewDefaultHeadlessRule nm o = Ok r -> isProcessHeadlessRule o = false -> forallb no_process (group_items r) = true.
Proof.
  intros H Hp. unfold isProcessHeadlessRule in Hp. rewrite !orb_false_iff in Hp. destruct Hp as [[Hn Hpp] Hr].
  unfold NewDefaultHeadlessRule in H. run_steps H. unfold group_items.
  cbn [items sourceAddressItems sourcePortItems destinationAddressItems destinationIPCIDRItems destinationPortItems app].
  rewrite Hn, Hpp, Hr. item_steps.
Qed.

Lemma headless_no_process nm r : forall rule,
  NewHeadlessRule nm r = Ok rule -> normalized r = true -> hasRule isProcessHeadlessRule r = false -> all_items no_process rule = true.
Proof.
  induction r as [t o l IH] using HeadlessRule_tree_ind. cbn [normalized hasRule]. intros rule H Hn Hh.
  apply NewHeadlessRule_inv in H as [(Ht & _ & d & Hd & ->)|(Ht & -> & _ & mode & rules & _ & Hr & ->)].
  - cbn [all_items]. rewrite andb_true_r. eapply headless_items_no_process; [exact Hd|]. unfold Opt.isDefaultType in Ht.
    destruct (String.eqb_spec t Opt.RuleTypeDefault); [done|]. cbn [orb] in Hn. apply andb_true_iff in Hn as [->%String.eqb_eq _]. done.
  - change (String.eqb Opt.RuleTypeLogical Opt.RuleTypeDefault) with false in *.
    change (String.eqb Opt.RuleTypeLogical Opt.RuleTypeLogical) with true in *. cbn [orb andb] in Hn, Hh. cbn [all_items].
    apply forallb_Forall' in Hn. apply existsb_false_Forall in Hh. revert IH Hn Hh. clear -Hr.
    induction Hr as [|r rule rs rules E Hr IH']; intros Hf Hn Hh; [done|]. decompose_Forall_hyps. cbn [forallb].
    apply andb_true_iff. eauto.
Qed.

(** The rules of a rule-set whose metadata says it has no process rule. *)
Lemma rule_set_no_process nm hs rules :
  Forall2 (fun h rule => NewHeadlessRule nm h = Ok rule) hs rules -> forallb normalized hs = true ->
  ContainsProcessRule (buildRuleSetMetadata hs) = false -> forallb (all_items no_process) rules = true.
Proof.
  cbn [buildRuleSetMetadata ContainsProcessRule]. unfold HasHeadlessRule.
  induction 1 as [|h rule hs rules E Hr IH]; [done|]. cbn [forallb existsb]. rewrite andb_true_iff, orb_false_iff.
  intros [Hn1 Hn2] [Hh1 Hh2]. apply andb_true_iff. split; [by eapply headless_no_process|auto].
Qed.
End Process.
