(* ===== verification/Srs.v ===== *)
(** * The binary rule-set format (common/srs/binary.go, ip_set.go, ip_cidr.go)

    [Read] and [Write] of .srs files: a magic number, a version byte and a
    zlib stream of rules.  Writers are functions to the bytes they append
    ([result (list byte)]: the errors are those of the code, an in-memory
    writer does not fail); readers are the [Reader]s of GoIO.

    The loop of [readDefaultRule] switches on an item type and stores what
    it read into the rule.  Here [readItem] is the reading half of the
    switch, [srsItem] what was read, and [apply_item] the assignment.

    The domain matchers, the zlib codec and [IPSet.Prefixes] are code
    outside this repository: parameters ([SrsEnv]), with the laws the format
    relies on in [SrsLaws]. *)
From Stdlib Require Import ZArith Lia Bool.
From S2P Require Import Prelude GoIO Metadata RuleItem DemoEnv MatchState RuleEngine RuleTheorems HeadlessRule.

(** ** Code outside this repository *)

Class SrsEnv `{GE : GoEnv} := {
  ReadMatcher : Reader Matcher;                       (* domain.ReadMatcher *)
  Matcher_Write : Matcher -> list byte;               (* Matcher.Write *)
  Matcher_Dump : Matcher -> list string * list string;
  ReadAdGuardMatcher : Reader AdGuardMatcher;
  AdGuardMatcher_Write : AdGuardMatcher -> list byte;
  AdGuardMatcher_Dump : AdGuardMatcher -> list string;
  IPSet_PrefixStrings : IPSet -> list string;         (* Prefixes(), each with String() *)
  zlib_NewReader : list byte -> result (list byte);   (* the content of a zlib stream *)
  zlib_Compress : list byte -> list byte;             (* NewWriterLevel, Write, Close *)
}.

(** ** Readers and writers *)

(** [n] uses of a reader that knows its index. *)
Section Indexed.
Context {A : Type} (r : Z -> Reader A).

Fixpoint readi_n (n : nat) (i : Z) : Reader (list A) :=
  match n with
  | O => rret []
  | S n' => let! x := r i in let! xs := readi_n n' (i + 1) in rret (x :: xs)
  end.
End Indexed.

(** Writers in sequence; the first error is returned. *)
Fixpoint wseq (parts : list (result (list byte))) : result (list byte) :=
  match parts with
  | [] => Ok []
  | part :: rest => let* w1 := part in let* w2 := wseq rest in Ok (w1 ++ w2)
  end.

(** [if b { write }] *)
Definition wopt (b : bool) (write : result (list byte)) : result (list byte) := if b then write else Ok [].

(** [if generateVersion < required { return E.New(msg) }] *)
Definition require_version (generateVersion required : Z) (msg : string) (write : result (list byte))
    : result (list byte) :=
  if generateVersion <? required then Err (ENew msg) else write.

Definition MagicBytes : list byte := [x53; x52; x53].

Definition ruleItemQueryType : Z := 0.
Definition ruleItemNetwork : Z := 1.
Definition ruleItemDomain : Z := 2.
Definition ruleItemDomainKeyword : Z := 3.
Definition ruleItemDomainRegex : Z := 4.
Definition ruleItemSourceIPCIDR : Z := 5.
Definition ruleItemIPCIDR : Z := 6.
Definition ruleItemSourcePort : Z := 7.
Definition ruleItemSourcePortRange : Z := 8.
Definition ruleItemPort : Z := 9.
Definition ruleItemPortRange : Z := 10.
Definition ruleItemProcessName : Z := 11.
Definition ruleItemProcessPath : Z := 12.
Definition ruleItemPackageName : Z := 13.
Definition ruleItemWIFISSID : Z := 14.
Definition ruleItemWIFIBSSID : Z := 15.
Definition ruleItemAdGuardDomain : Z := 16.
Definition ruleItemProcessPathRegex : Z := 17.
Definition ruleItemNetworkType : Z := 18.
Definition ruleItemNetworkIsExpensive : Z := 19.
Definition ruleItemNetworkIsConstrained : Z := 20.
Definition ruleItemNetworkInterfaceAddress : Z := 21.
Definition ruleItemDefaultInterfaceAddress : Z := 22.
Definition ruleItemPackageNameRegex : Z := 23.
Definition ruleItemFinal : Z := 255.

Definition RuleSetVersion1 : Z := 1.
Definition RuleSetVersion2 : Z := 2.
Definition RuleSetVersion3 : Z := 3.
Definition RuleSetVersion4 : Z := 4.
Definition RuleSetVersion5 : Z := 5.
Definition RuleSetVersionCurrent : Z := RuleSetVersion5.

(** Sizes of the element types of the slices allocated by the readers (amd64). *)
Definition sizeof_byte : Z := 1.
Definition sizeof_uint16 : Z := 2.
Definition sizeof_string : Z := 16.
Definition sizeof_myIPRange : Z := 48.
Definition sizeof_HeadlessRule : Z := 600.

Section WithUvarint.
Context `{UW : UvarintWriter}.

(** [length, err := binary.ReadUvarint(reader); buf := make([]byte, length); io.ReadFull(reader, buf)] *)
Definition readBytes : Reader (list byte) :=
  let! n := ReadUvarint in
  let! _ := rlift (make_slice sizeof_byte n) in
  ReadFull n.

Definition writeBytes (bs : list byte) : list byte := WriteUvarint (zlen bs) ++ bs.

Definition readRuleItemString : Reader (list string) :=
  let! length := ReadUvarint in
  let! _ := rlift (make_slice sizeof_string length) in
  read_n (Z.to_nat length) (let! buf := readBytes in rret (string_of_bytes buf)).

Definition writeRuleItemString (itemType : Z) (value : list string) : result (list byte) :=
  Ok (byte_of_Z itemType :: WriteUvarint (zlen value) ++ concat (map (fun s => writeBytes (bytes_of_string s)) value)).

Definition readRuleItemUint8 : Reader (list Z) :=
  let! bs := readBytes in rret (map Z_of_byte bs).

Definition writeRuleItemUint8 (itemType : Z) (value : list Z) : result (list byte) :=
  Ok (byte_of_Z itemType :: writeBytes (map byte_of_Z value)).

Definition readRuleItemUint16 : Reader (list Z) :=
  let! length := ReadUvarint in
  let! _ := rlift (make_slice sizeof_uint16 length) in
  ReadUint16s length.

Definition writeRuleItemUint16 (itemType : Z) (value : list Z) : result (list byte) :=
  Ok (byte_of_Z itemType :: WriteUvarint (zlen value) ++ WriteUint16s value).

Section WithEnv.
Context `{GE : GoEnv}.

(** ip_cidr.go *)
Definition readPrefix : Reader Prefix :=
  let! addrSlice := readBytes in
  let! prefixBits := ReadByte in
  rret (PrefixFrom (AddrFromIP addrSlice) (Z_of_byte prefixBits)).

Definition writePrefix (prefix : Prefix) : list byte :=
  writeBytes (Addr_AsSlice (prefix_addr prefix)) ++ [byte_of_Z (prefix_bits prefix)].

(** ip_set.go *)
Definition readIPRange : Reader IPRange :=
  let! fromBytes := readBytes in
  let! toBytes := readBytes in
  rret (AddrFromIP fromBytes, AddrFromIP toBytes).

Definition readIPSet : Reader IPSet :=
  let! version := ReadByte in
  if negb (Z_of_byte version =? 1) then rlift (Err ErrInvalid)
  else
    let! length := ReadUint64 in
    let! _ := rlift (make_slice sizeof_myIPRange length) in
    read_n (Z.to_nat length) readIPRange.

Definition writeIPRange (rr : IPRange) : list byte :=
  writeBytes (Addr_AsSlice (fst rr)) ++ writeBytes (Addr_AsSlice (snd rr)).

Definition writeIPSet (set : IPSet) : list byte :=
  x01 :: be_encode 8 (uint64 (zlen set)) ++ concat (map writeIPRange set).

Definition writeRuleItemCIDR (itemType : Z) (value : list string) : result (list byte) :=
  let* added := parse_cidrs 0 value in
  let* ipSet := IPSetBuilder_IPSet added in
  Ok (byte_of_Z itemType :: writeIPSet ipSet).

(** The prefix lists of the interface address items. *)
Definition readPrefixes : Reader (list Prefix) :=
  let! prefixCount := ReadUvarint in read_n (Z.to_nat prefixCount) readPrefix.

Definition writePrefixes (value : list Prefix) : list byte :=
  WriteUvarint (zlen value) ++ concat (map writePrefix value).

(** [TypedMap.Put]: an existing key keeps its place. *)
Fixpoint map_put {V} (k : Z) (v : V) (m : list (Z * V)) : list (Z * V) :=
  match m with
  | [] => [(k, v)]
  | (k', v') :: m' => if k =? k' then (k, v) :: m' else (k', v') :: map_put k v m'
  end.

(** ** Items *)

Inductive srsItem :=
| IQueryType (l : list Z)
| INetwork (l : list string)
| IDomain (matcher : Matcher)
| IDomainKeyword (l : list string)
| IDomainRegex (l : list string)
| ISourceIPCIDR (set : IPSet)
| IIPCIDR (set : IPSet)
| ISourcePort (l : list Z)
| ISourcePortRange (l : list string)
| IPort (l : list Z)
| IPortRange (l : list string)
| IProcessName (l : list string)
| IProcessPath (l : list string)
| IProcessPathRegex (l : list string)
| IPackageName                         (* read and dropped *)
| IWIFISSID (l : list string)
| IWIFIBSSID (l : list string)
| IAdGuardDomain (matcher : AdGuardMatcher)
| INetworkType (l : list Z)
| INetworkIsExpensive
| INetworkIsConstrained
| INetworkInterfaceAddress (entries : list (Z * list Prefix))
| IDefaultInterfaceAddress (l : list Prefix).

Context `{SE : !SrsEnv}.

(** The entries of ruleItemNetworkInterfaceAddress. *)
Fixpoint readInterfaceAddresses (size : nat) (m : list (Z * list Prefix)) : Reader (list (Z * list Prefix)) :=
  match size with
  | O => rret m
  | S size' =>
      let! key := ReadUint8 in
      let! value := readPrefixes in
      readInterfaceAddresses size' (map_put key value m)
  end.

(** The reading half of the switch of [readDefaultRule]. *)
Definition readItem (itemType lastItemType : Z) : Reader srsItem :=
  if itemType =? ruleItemQueryType then let! l := readRuleItemUint16 in rret (IQueryType l)
  else if itemType =? ruleItemNetwork then let! l := readRuleItemString in rret (INetwork l)
  else if itemType =? ruleItemDomain then let! matcher := ReadMatcher in rret (IDomain matcher)
  else if itemType =? ruleItemDomainKeyword then let! l := readRuleItemString in rret (IDomainKeyword l)
  else if itemType =? ruleItemDomainRegex then let! l := readRuleItemString in rret (IDomainRegex l)
  else if itemType =? ruleItemSourceIPCIDR then let! set := readIPSet in rret (ISourceIPCIDR set)
  else if itemType =? ruleItemIPCIDR then let! set := readIPSet in rret (IIPCIDR set)
  else if itemType =? ruleItemSourcePort then let! l := readRuleItemUint16 in rret (ISourcePort l)
  else if itemType =? ruleItemSourcePortRange then let! l := readRuleItemString in rret (ISourcePortRange l)
  else if itemType =? ruleItemPort then let! l := readRuleItemUint16 in rret (IPort l)
  else if itemType =? ruleItemPortRange then let! l := readRuleItemString in rret (IPortRange l)
  else if itemType =? ruleItemProcessName then let! l := readRuleItemString in rret (IProcessName l)
  else if itemType =? ruleItemProcessPath then let! l := readRuleItemString in rret (IProcessPath l)
  else if itemType =? ruleItemProcessPathRegex then let! l := readRuleItemString in rret (IProcessPathRegex l)
  else if (itemType =? ruleItemPackageName) || (itemType =? ruleItemPackageNameRegex) then
    let! _ := readRuleItemString in rret IPackageName
  else if itemType =? ruleItemWIFISSID then let! l := readRuleItemString in rret (IWIFISSID l)
  else if itemType =? ruleItemWIFIBSSID then let! l := readRuleItemString in rret (IWIFIBSSID l)
  else if itemType =? ruleItemAdGuardDomain then let! matcher := ReadAdGuardMatcher in rret (IAdGuardDomain matcher)
  else if itemType =? ruleItemNetworkType then let! l := readRuleItemUint8 in rret (INetworkType l)
  else if itemType =? ruleItemNetworkIsExpensive then rret INetworkIsExpensive
  else if itemType =? ruleItemNetworkIsConstrained then rret INetworkIsConstrained
  else if itemType =? ruleItemNetworkInterfaceAddress then
    let! size := ReadUvarint in
    let! entries := readInterfaceAddresses (Z.to_nat size) [] in rret (INetworkInterfaceAddress entries)
  else if itemType =? ruleItemDefaultInterfaceAddress then
    let! l := readPrefixes in rret (IDefaultInterfaceAddress l)
  else rlift (Err (ENew ("unknown rule item type: " +:+ pretty itemType +:+ ", last type: " +:+ pretty lastItemType))).

(** The assignments of the switch; [recover] also restores the source form. *)
Definition apply_item (recover : bool) (item : srsItem) (r : Opt.DefaultHeadlessRule) : Opt.DefaultHeadlessRule := {|
  Opt.QueryType := match item with IQueryType l => Some l | _ => Opt.QueryType r end;
  Opt.Network := match item with INetwork l => Some l | _ => Opt.Network r end;
  Opt.Domain := match item with
    | IDomain matcher => if recover then Some (fst (Matcher_Dump matcher)) else Opt.Domain r | _ => Opt.Domain r end;
  Opt.DomainSuffix := match item with
    | IDomain matcher => if recover then Some (snd (Matcher_Dump matcher)) else Opt.DomainSuffix r
    | _ => Opt.DomainSuffix r end;
  Opt.DomainKeyword := match item with IDomainKeyword l => Some l | _ => Opt.DomainKeyword r end;
  Opt.DomainRegex := match item with IDomainRegex l => Some l | _ => Opt.DomainRegex r end;
  Opt.SourceIPCIDR := match item with
    | ISourceIPCIDR set => if recover then Some (IPSet_PrefixStrings set) else Opt.SourceIPCIDR r
    | _ => Opt.SourceIPCIDR r end;
  Opt.IPCIDR := match item with
    | IIPCIDR set => if recover then Some (IPSet_PrefixStrings set) else Opt.IPCIDR r | _ => Opt.IPCIDR r end;
  Opt.SourcePort := match item with ISourcePort l => Some l | _ => Opt.SourcePort r end;
  Opt.SourcePortRange := match item with ISourcePortRange l => Some l | _ => Opt.SourcePortRange r end;
  Opt.Port := match item with IPort l => Some l | _ => Opt.Port r end;
  Opt.PortRange := match item with IPortRange l => Some l | _ => Opt.PortRange r end;
  Opt.ProcessName := match item with IProcessName l => Some l | _ => Opt.ProcessName r end;
  Opt.ProcessPath := match item with IProcessPath l => Some l | _ => Opt.ProcessPath r end;
  Opt.ProcessPathRegex := match item with IProcessPathRegex l => Some l | _ => Opt.ProcessPathRegex r end;
  Opt.NetworkType := match item with INetworkType l => Some l | _ => Opt.NetworkType r end;
  Opt.NetworkIsExpensive := match item with INetworkIsExpensive => true | _ => Opt.NetworkIsExpensive r end;
  Opt.NetworkIsConstrained := match item with INetworkIsConstrained => true | _ => Opt.NetworkIsConstrained r end;
  Opt.WIFISSID := match item with IWIFISSID l => Some l | _ => Opt.WIFISSID r end;
  Opt.WIFIBSSID := match item with IWIFIBSSID l => Some l | _ => Opt.WIFIBSSID r end;
  Opt.NetworkInterfaceAddress := match item with
    | INetworkInterfaceAddress entries => Some entries | _ => Opt.NetworkInterfaceAddress r end;
  Opt.DefaultInterfaceAddress := match item with (* an empty list of prefixes is the nil slice *)
    | IDefaultInterfaceAddress l => if nonempty l then Some l else None | _ => Opt.DefaultInterfaceAddress r end;
  Opt.Invert := Opt.Invert r;
  Opt.DomainMatcher := match item with IDomain matcher => Some matcher | _ => Opt.DomainMatcher r end;
  Opt.SourceIPSet := match item with ISourceIPCIDR set => Some set | _ => Opt.SourceIPSet r end;
  Opt.IPSet := match item with IIPCIDR set => Some set | _ => Opt.IPSet r end;
  Opt.AdGuardDomain := match item with
    | IAdGuardDomain matcher => if recover then Some (AdGuardMatcher_Dump matcher) else Opt.AdGuardDomain r
    | _ => Opt.AdGuardDomain r end;
  Opt.AdGuardDomainMatcher := match item with IAdGuardDomain matcher => Some matcher | _ => Opt.AdGuardDomainMatcher r end;
|}.

Definition set_Invert (inverted : bool) (r : Opt.DefaultHeadlessRule) : Opt.DefaultHeadlessRule := {|
  Opt.QueryType := Opt.QueryType r; Opt.Network := Opt.Network r; Opt.Domain := Opt.Domain r;
  Opt.DomainSuffix := Opt.DomainSuffix r; Opt.DomainKeyword := Opt.DomainKeyword r;
  Opt.DomainRegex := Opt.DomainRegex r; Opt.SourceIPCIDR := Opt.SourceIPCIDR r; Opt.IPCIDR := Opt.IPCIDR r;
  Opt.SourcePort := Opt.SourcePort r; Opt.SourcePortRange := Opt.SourcePortRange r; Opt.Port := Opt.Port r;
  Opt.PortRange := Opt.PortRange r; Opt.ProcessName := Opt.ProcessName r; Opt.ProcessPath := Opt.ProcessPath r;
  Opt.ProcessPathRegex := Opt.ProcessPathRegex r; Opt.NetworkType := Opt.NetworkType r;
  Opt.NetworkIsExpensive := Opt.NetworkIsExpensive r; Opt.NetworkIsConstrained := Opt.NetworkIsConstrained r;
  Opt.WIFISSID := Opt.WIFISSID r; Opt.WIFIBSSID := Opt.WIFIBSSID r;
  Opt.NetworkInterfaceAddress := Opt.NetworkInterfaceAddress r;
  Opt.DefaultInterfaceAddress := Opt.DefaultInterfaceAddress r; Opt.Invert := inverted;
  Opt.DomainMatcher := Opt.DomainMatcher r; Opt.SourceIPSet := Opt.SourceIPSet r; Opt.IPSet := Opt.IPSet r;
  Opt.AdGuardDomain := Opt.AdGuardDomain r; Opt.AdGuardDomainMatcher := Opt.AdGuardDomainMatcher r |}.

(** The loop of [readDefaultRule].  Every round reads at least the item type,
    so one more round than there is input is enough. *)
Fixpoint readDefaultRule_loop (fuel : nat) (recover : bool) (rule : Opt.DefaultHeadlessRule) (lastItemType : Z)
    : Reader Opt.DefaultHeadlessRule :=
  match fuel with
  | O => rlift (Err OutOfFuel)
  | S fuel =>
      let! itemType := ReadUint8 in
      if itemType =? ruleItemFinal then let! inverted := ReadBool in rret (set_Invert inverted rule)
      else
        let! item := readItem itemType lastItemType in
        readDefaultRule_loop fuel recover (apply_item recover item rule) itemType
  end.

Definition readDefaultRule (recover : bool) : Reader Opt.DefaultHeadlessRule :=
  fun i => readDefaultRule_loop (S (length i)) recover (Opt.zero false) 0 i.

Definition readLogicalRule (readRule : Reader Opt.HeadlessRule) : Reader (Opt.LogicalHeadlessRule Opt.HeadlessRule) :=
  let! mode := ReadByte in
  let! mode :=
    rlift (if Z_of_byte mode =? 0 then Ok "and"
           else if Z_of_byte mode =? 1 then Ok "or"
           else Err (ENew ("unknown logical mode: " +:+ pretty (Z_of_byte mode)))) in
  let! length := ReadUvarint in
  let! _ := rlift (make_slice sizeof_HeadlessRule length) in
  let! rules := readi_n (fun i => rcause ("read logical rule [" +:+ pretty i +:+ "]") readRule) (Z.to_nat length) 0 in
  let! inverted := ReadBool in
  rret (Opt.mkLogicalHeadlessRule mode rules inverted).

(** The zero LogicalOptions of a default rule. *)
Definition zeroLogical : Opt.LogicalHeadlessRule Opt.HeadlessRule := Opt.mkLogicalHeadlessRule "" [] false.

(** Rules nest at most as deep as there are bytes. *)
Fixpoint readRule (fuel : nat) (recover : bool) : Reader Opt.HeadlessRule :=
  match fuel with
  | O => rlift (Err OutOfFuel)
  | S fuel =>
      let! ruleType := ReadUint8 in
      if ruleType =? 0 then
        let! defaultOptions := readDefaultRule recover in
        rret (Opt.mkHeadlessRule Opt.RuleTypeDefault defaultOptions zeroLogical)
      else if ruleType =? 1 then
        let! logicalOptions := readLogicalRule (readRule fuel recover) in
        rret (Opt.mkHeadlessRule Opt.RuleTypeLogical (Opt.zero false) logicalOptions)
      else rlift (Err (ENew ("unknown rule type: " +:+ pretty ruleType)))
  end.

(** [option.PlainRuleSetCompat], without the raw JSON message. *)
Record PlainRuleSetCompat := mkPlainRuleSetCompat { Version : Z; Rules : list Opt.HeadlessRule }.

(** The content of the zlib stream. *)
Definition readRules (recover : bool) : Reader (list Opt.HeadlessRule) :=
  fun i =>
    (let! length := ReadUvarint in
     let! _ := rlift (make_slice sizeof_HeadlessRule length) in
     readi_n (fun k => rcause ("read rule[" +:+ pretty k +:+ "]") (readRule (S (List.length i)) recover))
       (Z.to_nat length) 0) i.

Definition Read (recover : bool) (input : list byte) : result PlainRuleSetCompat :=
  let* (magicBytes, input) := ReadFull 3 input in
  if negb (bool_decide (magicBytes = MagicBytes)) then Err (ENew "invalid sing-box rule-set file")
  else
    let* (version, input) := ReadUint8 input in
    if RuleSetVersionCurrent <? version then Err (ENew ("unsupported version: " +:+ pretty version))
    else
      let* content := zlib_NewReader input in
      let* (rules, _) := readRules recover content in
      Ok {| Version := version; Rules := rules |}.

(** ** Writing *)

Definition writeInterfaceAddresses (entries : list (Z * list Prefix)) : list byte :=
  WriteUvarint (zlen entries) ++
  concat (map (fun '(key, value) => byte_of_Z key :: writePrefixes value) entries).

(** The conditional parts of [writeDefaultRule], in order. *)
Definition writeItems (rule : Opt.DefaultHeadlessRule) (generateVersion : Z) : list (result (list byte)) :=
  [
    wopt (given (Opt.QueryType rule))
      (writeRuleItemUint16 ruleItemQueryType (map uint16 (elems (Opt.QueryType rule))));
    wopt (given (Opt.Network rule)) (writeRuleItemString ruleItemNetwork (elems (Opt.Network rule)));
    wopt (given (Opt.Domain rule) || given (Opt.DomainSuffix rule))
      (Ok (byte_of_Z ruleItemDomain ::
           Matcher_Write (NewMatcher (elems (Opt.Domain rule)) (elems (Opt.DomainSuffix rule))
                            (generateVersion =? RuleSetVersion1))));
    wopt (given (Opt.DomainKeyword rule)) (writeRuleItemString ruleItemDomainKeyword (elems (Opt.DomainKeyword rule)));
    wopt (given (Opt.DomainRegex rule)) (writeRuleItemString ruleItemDomainRegex (elems (Opt.DomainRegex rule)));
    wopt (given (Opt.SourceIPCIDR rule))
      (with_cause "source_ip_cidr" (writeRuleItemCIDR ruleItemSourceIPCIDR (elems (Opt.SourceIPCIDR rule))));
    wopt (given (Opt.IPCIDR rule))
      (with_cause "ipcidr" (writeRuleItemCIDR ruleItemIPCIDR (elems (Opt.IPCIDR rule))));
    wopt (given (Opt.SourcePort rule)) (writeRuleItemUint16 ruleItemSourcePort (elems (Opt.SourcePort rule)));
    wopt (given (Opt.SourcePortRange rule))
      (writeRuleItemString ruleItemSourcePortRange (elems (Opt.SourcePortRange rule)));
    wopt (given (Opt.Port rule)) (writeRuleItemUint16 ruleItemPort (elems (Opt.Port rule)));
    wopt (given (Opt.PortRange rule)) (writeRuleItemString ruleItemPortRange (elems (Opt.PortRange rule)));
    wopt (given (Opt.ProcessName rule)) (writeRuleItemString ruleItemProcessName (elems (Opt.ProcessName rule)));
    wopt (given (Opt.ProcessPath rule)) (writeRuleItemString ruleItemProcessPath (elems (Opt.ProcessPath rule)));
    wopt (given (Opt.ProcessPathRegex rule))
      (writeRuleItemString ruleItemProcessPathRegex (elems (Opt.ProcessPathRegex rule)));
    wopt (given (Opt.NetworkType rule))
      (require_version generateVersion RuleSetVersion3
         "`network_type` rule item is only supported in version 3 or later"
         (writeRuleItemUint8 ruleItemNetworkType (elems (Opt.NetworkType rule))));
    wopt (Opt.NetworkIsExpensive rule)
      (require_version generateVersion RuleSetVersion3
         "`network_is_expensive` rule item is only supported in version 3 or later"
         (Ok [byte_of_Z ruleItemNetworkIsExpensive]));
    wopt (Opt.NetworkIsConstrained rule)
      (require_version generateVersion RuleSetVersion3
         "`network_is_constrained` rule item is only supported in version 3 or later"
         (Ok [byte_of_Z ruleItemNetworkIsConstrained]));
    wopt (given (Opt.NetworkInterfaceAddress rule))
      (require_version generateVersion RuleSetVersion4
         "`network_interface_address` rule item is only supported in version 4 or later"
         (Ok (byte_of_Z ruleItemNetworkInterfaceAddress ::
              writeInterfaceAddresses (elems (Opt.NetworkInterfaceAddress rule)))));
    wopt (given (Opt.DefaultInterfaceAddress rule))
      (require_version generateVersion RuleSetVersion4
         "`default_interface_address` rule item is only supported in version 4 or later"
         (Ok (byte_of_Z ruleItemDefaultInterfaceAddress ::
              writePrefixes (elems (Opt.DefaultInterfaceAddress rule)))));
    wopt (given (Opt.WIFISSID rule)) (writeRuleItemString ruleItemWIFISSID (elems (Opt.WIFISSID rule)));
    wopt (given (Opt.WIFIBSSID rule)) (writeRuleItemString ruleItemWIFIBSSID (elems (Opt.WIFIBSSID rule)));
    wopt (given (Opt.AdGuardDomain rule))
      (require_version generateVersion RuleSetVersion2
         "AdGuard rule items is only supported in version 2 or later"
         (Ok (byte_of_Z ruleItemAdGuardDomain ::
              AdGuardMatcher_Write (NewAdGuardMatcher (elems (Opt.AdGuardDomain rule))))))
  ].

Definition writeDefaultRule (rule : Opt.DefaultHeadlessRule) (generateVersion : Z) : result (list byte) :=
  wseq (Ok [byte_of_Z 0] :: writeItems rule generateVersion
          ++ [Ok [byte_of_Z ruleItemFinal]; Ok (WriteBool (Opt.Invert rule))]).

Section WriteLogical.
Context {R : Type} (writeRule : R -> result (list byte)).

Definition writeLogicalRule (logicalRule : Opt.LogicalHeadlessRule R) : result (list byte) :=
  wseq [
    Ok [byte_of_Z 1];
    (if String.eqb (Opt.Mode logicalRule) "and" then Ok [byte_of_Z 0]
     else if String.eqb (Opt.Mode logicalRule) "or" then Ok [byte_of_Z 1]
     else Panic ("unknown logical mode: " +:+ Opt.Mode logicalRule));
    Ok (WriteUvarint (zlen (Opt.Rules logicalRule)));
    wseq (map writeRule (Opt.Rules logicalRule));
    Ok (WriteBool (Opt.LogicalInvert logicalRule))
  ].
End WriteLogical.

Fixpoint writeRule (generateVersion : Z) (rule : Opt.HeadlessRule) : result (list byte) :=
  match rule with
  | Opt.mkHeadlessRule t defaultOptions logicalOptions =>
      if String.eqb t Opt.RuleTypeDefault then writeDefaultRule defaultOptions generateVersion
      else if String.eqb t Opt.RuleTypeLogical then writeLogicalRule (writeRule generateVersion) logicalOptions
      else Panic ("unknown rule type: " +:+ t)
  end.

Definition writeRules (rules : list Opt.HeadlessRule) (generateVersion : Z) : result (list byte) :=
  wseq (Ok (WriteUvarint (zlen rules)) :: map (writeRule generateVersion) rules).

Definition Write (rules : list Opt.HeadlessRule) (generateVersion : Z) : result (list byte) :=
  let* content := writeRules rules generateVersion in
  Ok (MagicBytes ++ [byte_of_Z generateVersion] ++ zlib_Compress content).

(** ** [PlainRuleSetCompat.Upgrade] (option/rule_set.go) *)
Definition Upgrade (r : PlainRuleSetCompat) : result (list Opt.HeadlessRule) :=
  if (Version r =? RuleSetVersion1) || (Version r =? RuleSetVersion2) || (Version r =? RuleSetVersion3)
     || (Version r =? RuleSetVersion4) || (Version r =? RuleSetVersion5)
  then Ok (Rules r)
  else Err (ENew ("unknown rule-set version: " +:+ pretty (Version r))).

End WithEnv.
End WithUvarint.
