(* ===== verification/SrsTheorems.v ===== *)
(** * Theorems about the binary rule-set format

    Round trip: what [Write] wrote, [Read] loads as the in-memory form
    [loaded] of the rules, for every rule-set the writer accepts; and the
    loaded rules decide exactly as the source rules.  Termination: [Read]
    never runs out of the fuel of its loops.  Version gating, and the panics
    of [Read] on crafted lengths. *)
From Stdlib Require Import ZArith Lia Bool.
From S2P Require Import Prelude GoIO Metadata RuleItem DemoEnv MatchState RuleEngine RuleTheorems HeadlessRule Srs.

(** ** What the format relies on *)

(** A netip.Addr of the stated width, without zone. *)
Definition wf_addr (a : Addr) : Prop :=
  match a with
  | AddrInvalid => True
  | Addr4 v => is_uint 32 v
  | Addr6 v zone => is_uint 128 v /\ zone = ""
  end.

(** No model-only error inside an error chain. *)
Fixpoint fuelled (e : go_error) : bool :=
  match e with
  | OutOfFuel => true
  | ECause cause _ => fuelled cause
  | EErrors e1 e2 => fuelled e1 || fuelled e2
  | _ => false
  end.

(** A reader that never fails for lack of fuel. *)
Definition no_fuel_error {A} (r : Reader A) : Prop := forall i e, r i = Err e -> fuelled e = false.

Class SrsLaws `{SE : SrsEnv} := {
  ReadMatcher_Write : forall m, decodes ReadMatcher (Matcher_Write m) m;
  ReadAdGuardMatcher_Write : forall m, decodes ReadAdGuardMatcher (AdGuardMatcher_Write m) m;
  zlib_roundtrip : forall content, zlib_NewReader (zlib_Compress content) = Ok content;
  AddrFromIP_AsSlice : forall a, wf_addr a -> AddrFromIP (Addr_AsSlice a) = a;
  (* the ranges of a built IPSet are zone-free, and no more than the prefixes added *)
  IPSet_built : forall l added set,
    parse_cidrs 0 l = Ok added -> IPSetBuilder_IPSet added = Ok set ->
    Forall (fun r => wf_addr (fst r) /\ wf_addr (snd r)) set /\ zlen set <= zlen l;
  ReadMatcher_shrinks : shrinks ReadMatcher;
  ReadAdGuardMatcher_shrinks : shrinks ReadAdGuardMatcher;
  ReadMatcher_errors : no_fuel_error ReadMatcher;
  ReadAdGuardMatcher_errors : no_fuel_error ReadAdGuardMatcher;
  zlib_errors : forall i e, zlib_NewReader i = Err e -> fuelled e = false;
}.

(** ** Values the format can represent *)

Definition wf_strings (l : list string) : Prop :=
  sizeof_string * zlen l <= maxAlloc /\ Forall (fun s => zlen (bytes_of_string s) <= maxAlloc) l.
Definition wf_uint16s (l : list Z) : Prop := sizeof_uint16 * zlen l <= maxAlloc /\ Forall (is_uint 16) l.
Definition wf_uint8s (l : list Z) : Prop := zlen l <= maxAlloc /\ Forall (is_uint 8) l.

Definition wf_prefix (p : Prefix) : Prop :=
  wf_addr (prefix_addr p) /\
  (prefix_bits p = -1 \/ (Addr_IsValid (prefix_addr p) = true /\ 0 <= prefix_bits p <= Addr_BitLen (prefix_addr p))).

Definition wf_prefixes (l : list Prefix) : Prop := is_uint 64 (zlen l) /\ Forall wf_prefix l.

Definition wf_entries (l : list (Z * list Prefix)) : Prop :=
  is_uint 64 (zlen l) /\ NoDup l.*1 /\ Forall (fun e => is_uint 8 (fst e) /\ wf_prefixes (snd e)) l.

Section WithEnv.
Context `{UW : UvarintWriter} `{SL : SrsLaws}.

Record wf_options (o : Opt.DefaultHeadlessRule) : Prop := {
  wf_QueryType : sizeof_uint16 * zlen (elems (Opt.QueryType o)) <= maxAlloc;
  wf_Network : wf_strings (elems (Opt.Network o));
  wf_DomainKeyword : wf_strings (elems (Opt.DomainKeyword o));
  wf_DomainRegex : wf_strings (elems (Opt.DomainRegex o));
  wf_SourceIPCIDR : sizeof_myIPRange * zlen (elems (Opt.SourceIPCIDR o)) <= maxAlloc;
  wf_IPCIDR : sizeof_myIPRange * zlen (elems (Opt.IPCIDR o)) <= maxAlloc;
  wf_SourcePort : wf_uint16s (elems (Opt.SourcePort o));
  wf_SourcePortRange : wf_strings (elems (Opt.SourcePortRange o));
  wf_Port : wf_uint16s (elems (Opt.Port o));
  wf_PortRange : wf_strings (elems (Opt.PortRange o));
  wf_ProcessName : wf_strings (elems (Opt.ProcessName o));
  wf_ProcessPath : wf_strings (elems (Opt.ProcessPath o));
  wf_ProcessPathRegex : wf_strings (elems (Opt.ProcessPathRegex o));
  wf_NetworkType : wf_uint8s (elems (Opt.NetworkType o));
  wf_WIFISSID : wf_strings (elems (Opt.WIFISSID o));
  wf_WIFIBSSID : wf_strings (elems (Opt.WIFIBSSID o));
  wf_NetworkInterfaceAddress : wf_entries (elems (Opt.NetworkInterfaceAddress o));
  wf_DefaultInterfaceAddress : wf_prefixes (elems (Opt.DefaultInterfaceAddress o));
}.

(** ** Round trips of the parts *)

Lemma decodes_eq {A} (r : Reader A) w a b : decodes r w a -> a = b -> decodes r w b.
Proof. by intros ? <-. Qed.

Lemma decodes_make {A} sizeof n (k : unit -> Reader A) w a :
  sizeof * n <= maxAlloc -> decodes (k tt) w a -> decodes (rbind (rlift (make_slice sizeof n)) k) w a.
Proof.
  intros Hn H. apply (decodes_lift _ k w tt); [|done]. unfold make_slice.
  by rewrite (proj2 (Z.ltb_ge _ _)).
Qed.

Lemma alloc_is_uint64 {A} (l : list A) sizeof : 1 <= sizeof -> sizeof * zlen l <= maxAlloc -> is_uint 64 (zlen l).
Proof. pose proof (zlen_nonneg l). unfold is_uint, maxAlloc. nia. Qed.

Lemma decodes_readBytes bs : zlen bs <= maxAlloc -> decodes readBytes (writeBytes bs) bs.
Proof.
  intros H. unfold readBytes, writeBytes. eapply decodes_bind.
  - apply WriteUvarint_decodes. apply (alloc_is_uint64 bs 1); lia.
  - apply decodes_make; [unfold sizeof_byte; lia|]. apply decodes_ReadFull.
Qed.

Lemma string_bytes s : string_of_bytes (bytes_of_string s) = s.
Proof. apply String.string_of_list_byte_of_string. Qed.

Lemma to_nat_length {A} (l : list A) : Z.to_nat (zlen l) = length l.
Proof. apply to_nat_zlen. Qed.

Lemma decodes_strings l :
  wf_strings l ->
  decodes readRuleItemString (WriteUvarint (zlen l) ++ concat (map (fun s => writeBytes (bytes_of_string s)) l)) l.
Proof.
  intros [Hl Hs]. unfold readRuleItemString. eapply decodes_bind.
  - apply WriteUvarint_decodes. apply (alloc_is_uint64 l sizeof_string); unfold sizeof_string in *; lia.
  - apply decodes_make; [done|]. rewrite to_nat_length. rewrite <- (map_id l) at 3.
    apply (decodes_read_n _ (fun s => writeBytes (bytes_of_string s)) id).
    intros s Hin. rewrite <- (string_bytes s) at 2. apply (decodes_map _ string_of_bytes), decodes_readBytes.
    rewrite Forall_forall in Hs. auto.
Qed.

Lemma decodes_uint16s l :
  wf_uint16s l -> decodes readRuleItemUint16 (WriteUvarint (zlen l) ++ WriteUint16s l) l.
Proof.
  intros [Hl Hs]. unfold readRuleItemUint16. eapply decodes_bind.
  - apply WriteUvarint_decodes. apply (alloc_is_uint64 l sizeof_uint16); unfold sizeof_uint16 in *; lia.
  - apply decodes_make; [done|]. by apply decodes_ReadUint16s.
Qed.

Lemma decodes_uint8s l : wf_uint8s l -> decodes readRuleItemUint8 (writeBytes (map byte_of_Z l)) l.
Proof.
  intros [Hl Hs]. unfold readRuleItemUint8. replace l with (map Z_of_byte (map byte_of_Z l)) at 2.
  - apply (decodes_map _ (map Z_of_byte)), decodes_readBytes. unfold zlen in *. by rewrite length_map.
  - rewrite map_map. rewrite <- (map_id l) at 2. apply map_ext_in. intros z Hz.
    rewrite Forall_forall in Hs. apply Z_of_byte_small, Hs. by apply list_elem_of_In.
Qed.

Lemma zlen_AsSlice a : 0 <= zlen (Addr_AsSlice a) <= 16.
Proof. destruct a; unfold zlen; cbn [Addr_AsSlice]; rewrite ?length_be_encode; cbn; lia. Qed.

Lemma decodes_addr a : wf_addr a -> decodes readBytes (writeBytes (Addr_AsSlice a)) (Addr_AsSlice a).
Proof. intros H. apply decodes_readBytes. pose proof (zlen_AsSlice a). unfold maxAlloc. lia. Qed.

Lemma PrefixFrom_wf p :
  wf_prefix p -> PrefixFrom (prefix_addr p) (Z_of_byte (byte_of_Z (prefix_bits p))) = p.
Proof.
  destruct p as [a b]. cbn [prefix_addr prefix_bits]. intros [Ha Hb]. cbn [prefix_addr prefix_bits] in *.
  unfold PrefixFrom. rewrite Z_of_byte_of_Z. f_equal.
  - destruct a; try done. by destruct Ha as [_ ->].
  - destruct Hb as [->|[Hv Hb]].
    + change (-1 mod 256) with 255. by destruct a.
    + rewrite Z.mod_small by (destruct a; cbn [Addr_BitLen] in Hb; lia). rewrite Hv.
      rewrite (proj2 (Z.leb_le 0 b)), (proj2 (Z.leb_le b _)) by lia. done.
Qed.

Lemma decodes_prefix p : wf_prefix p -> decodes readPrefix (writePrefix p) p.
Proof.
  intros Hp. unfold readPrefix, writePrefix. eapply decodes_bind; [apply decodes_addr, Hp|].
  eapply decodes_eq; [apply (decodes_map _ (fun b => PrefixFrom _ (Z_of_byte b))), decodes_ReadByte|].
  by rewrite (AddrFromIP_AsSlice (prefix_addr p)), PrefixFrom_wf by apply Hp.
Qed.

Lemma decodes_prefixes l : wf_prefixes l -> decodes readPrefixes (writePrefixes l) l.
Proof.
  intros [Hl Hs]. unfold readPrefixes, writePrefixes. eapply decodes_bind; [by apply WriteUvarint_decodes|].
  rewrite to_nat_length. rewrite <- (map_id l) at 3. apply (decodes_read_n _ writePrefix id).
  intros p Hp. rewrite Forall_forall in Hs. by apply decodes_prefix, Hs.
Qed.

Definition wf_range (r : IPRange) : Prop := wf_addr (fst r) /\ wf_addr (snd r).

Lemma decodes_range r : wf_range r -> decodes readIPRange (writeIPRange r) r.
Proof.
  destruct r as [a b]. intros [Ha Hb]. cbn [fst snd] in *. unfold readIPRange, writeIPRange. cbn [fst snd].
  eapply decodes_bind; [by apply decodes_addr|].
  eapply decodes_eq; [apply (decodes_map _ (fun bs => (_, AddrFromIP bs))); by apply decodes_addr|].
  cbn. by rewrite !AddrFromIP_AsSlice.
Qed.

Lemma decodes_IPSet set :
  sizeof_myIPRange * zlen set <= maxAlloc -> Forall wf_range set -> decodes readIPSet (writeIPSet set) set.
Proof.
  intros Hl Hs. unfold readIPSet, writeIPSet. eapply (decodes_bind _ _ [x01]); [apply decodes_ReadByte|].
  change (negb (Z_of_byte x01 =? 1)) with false. cbn [negb].
  assert (is_uint 64 (zlen set)) as Hu by (apply (alloc_is_uint64 set sizeof_myIPRange); unfold sizeof_myIPRange in *; lia).
  unfold uint64. rewrite wrap_small by apply Hu.
  eapply decodes_bind; [by apply decodes_ReadUint64|]. apply decodes_make; [done|].
  rewrite to_nat_length. rewrite <- (map_id set) at 3. apply (decodes_read_n _ writeIPRange id).
  intros r Hr. rewrite Forall_forall in Hs. by apply decodes_range, Hs.
Qed.


Lemma map_put_fresh {V} k (v : V) m : k ∉ m.*1 -> map_put k v m = m ++ [(k, v)].
Proof.
  induction m as [|[k' v'] m IH]; intros H; [done|]. cbn [map_put]. rewrite fmap_cons, not_elem_of_cons in H.
  destruct H as [H1 H2]. cbn [fst] in H1. rewrite (proj2 (Z.eqb_neq k k')) by done. by rewrite IH.
Qed.

Lemma decodes_entries l : forall m,
  NoDup (m ++ l).*1 -> Forall (fun e => is_uint 8 (fst e) /\ wf_prefixes (snd e)) l ->
  decodes (readInterfaceAddresses (length l) m)
    (concat (map (fun '(key, value) => byte_of_Z key :: writePrefixes value) l)) (m ++ l).
Proof.
  induction l as [|[k v] l IH]; intros m Hn Hf; cbn [length readInterfaceAddresses map concat].
  - rewrite app_nil_r. apply decodes_ret.
  - apply Forall_cons in Hf as [[Hk Hv] Hf]. cbn [fst snd] in *. rewrite <- (app_nil_l (byte_of_Z k :: _)).
    change (([] ++ byte_of_Z k :: writePrefixes v) ++ ?t) with ([byte_of_Z k] ++ writePrefixes v ++ t).
    eapply decodes_bind; [by apply decodes_ReadUint8|]. eapply decodes_bind; [by apply decodes_prefixes|].
    assert (k ∉ m.*1) as Hfresh.
    { rewrite fmap_app, NoDup_app in Hn. destruct Hn as (_ & Hd & _). intros Hin. apply (Hd k Hin). left. }
    rewrite map_put_fresh by done. eapply decodes_eq; [apply IH|].
    + by rewrite <- app_assoc.
    + done.
    + by rewrite <- app_assoc.
Qed.

(** ** The in-memory form of a written rule *)

(** A list item is read back only if it was not empty. *)
Definition keep {A} (l : Listable A) : Listable A := if given l then Some (elems l) else None.

Definition cidr_set (l : Listable string) : option IPSet :=
  if given l then
    match parse_cidrs 0 (elems l) with
    | Ok added => match IPSetBuilder_IPSet added with Ok set => Some set | _ => None end
    | _ => None
    end
  else None.

(** Domains and address lists come back compiled; the source lists are gone. *)
Definition loaded_default (version : Z) (o : Opt.DefaultHeadlessRule) : Opt.DefaultHeadlessRule := {|
  Opt.QueryType := if given (Opt.QueryType o) then Some (map uint16 (elems (Opt.QueryType o))) else None;
  Opt.Network := keep (Opt.Network o); Opt.Domain := None; Opt.DomainSuffix := None;
  Opt.DomainKeyword := keep (Opt.DomainKeyword o); Opt.DomainRegex := keep (Opt.DomainRegex o);
  Opt.SourceIPCIDR := None; Opt.IPCIDR := None;
  Opt.SourcePort := keep (Opt.SourcePort o); Opt.SourcePortRange := keep (Opt.SourcePortRange o);
  Opt.Port := keep (Opt.Port o); Opt.PortRange := keep (Opt.PortRange o);
  Opt.ProcessName := keep (Opt.ProcessName o); Opt.ProcessPath := keep (Opt.ProcessPath o);
  Opt.ProcessPathRegex := keep (Opt.ProcessPathRegex o); Opt.NetworkType := keep (Opt.NetworkType o);
  Opt.NetworkIsExpensive := Opt.NetworkIsExpensive o; Opt.NetworkIsConstrained := Opt.NetworkIsConstrained o;
  Opt.WIFISSID := keep (Opt.WIFISSID o); Opt.WIFIBSSID := keep (Opt.WIFIBSSID o);
  Opt.NetworkInterfaceAddress := keep (Opt.NetworkInterfaceAddress o);
  Opt.DefaultInterfaceAddress := keep (Opt.DefaultInterfaceAddress o); Opt.Invert := Opt.Invert o;
  Opt.DomainMatcher :=
    if given (Opt.Domain o) || given (Opt.DomainSuffix o)
    then Some (NewMatcher (elems (Opt.Domain o)) (elems (Opt.DomainSuffix o)) (version =? RuleSetVersion1)) else None;
  Opt.SourceIPSet := cidr_set (Opt.SourceIPCIDR o); Opt.IPSet := cidr_set (Opt.IPCIDR o);
  Opt.AdGuardDomain := None;
  Opt.AdGuardDomainMatcher :=
    if given (Opt.AdGuardDomain o) then Some (NewAdGuardMatcher (elems (Opt.AdGuardDomain o))) else None |}.

Fixpoint loaded (version : Z) (r : Opt.HeadlessRule) : Opt.HeadlessRule :=
  match r with
  | Opt.mkHeadlessRule t o l =>
      if String.eqb t Opt.RuleTypeDefault then Opt.mkHeadlessRule t (loaded_default version o) zeroLogical
      else Opt.mkHeadlessRule t (Opt.zero false)
             (Opt.mkLogicalHeadlessRule (Opt.Mode l) (map (loaded version) (Opt.Rules l)) (Opt.LogicalInvert l))
  end.

(** The items of a written rule. *)
Definition items_of (version : Z) (o : Opt.DefaultHeadlessRule) : list (option srsItem) := [
  when (given (Opt.QueryType o)) (IQueryType (map uint16 (elems (Opt.QueryType o))));
  when (given (Opt.Network o)) (INetwork (elems (Opt.Network o)));
  when (given (Opt.Domain o) || given (Opt.DomainSuffix o))
    (IDomain (NewMatcher (elems (Opt.Domain o)) (elems (Opt.DomainSuffix o)) (version =? RuleSetVersion1)));
  when (given (Opt.DomainKeyword o)) (IDomainKeyword (elems (Opt.DomainKeyword o)));
  when (given (Opt.DomainRegex o)) (IDomainRegex (elems (Opt.DomainRegex o)));
  option_map ISourceIPCIDR (cidr_set (Opt.SourceIPCIDR o));
  option_map IIPCIDR (cidr_set (Opt.IPCIDR o));
  when (given (Opt.SourcePort o)) (ISourcePort (elems (Opt.SourcePort o)));
  when (given (Opt.SourcePortRange o)) (ISourcePortRange (elems (Opt.SourcePortRange o)));
  when (given (Opt.Port o)) (IPort (elems (Opt.Port o)));
  when (given (Opt.PortRange o)) (IPortRange (elems (Opt.PortRange o)));
  when (given (Opt.ProcessName o)) (IProcessName (elems (Opt.ProcessName o)));
  when (given (Opt.ProcessPath o)) (IProcessPath (elems (Opt.ProcessPath o)));
  when (given (Opt.ProcessPathRegex o)) (IProcessPathRegex (elems (Opt.ProcessPathRegex o)));
  when (given (Opt.NetworkType o)) (INetworkType (elems (Opt.NetworkType o)));
  when (Opt.NetworkIsExpensive o) INetworkIsExpensive;
  when (Opt.NetworkIsConstrained o) INetworkIsConstrained;
  when (given (Opt.NetworkInterfaceAddress o)) (INetworkInterfaceAddress (elems (Opt.NetworkInterfaceAddress o)));
  when (given (Opt.DefaultInterfaceAddress o)) (IDefaultInterfaceAddress (elems (Opt.DefaultInterfaceAddress o)));
  when (given (Opt.WIFISSID o)) (IWIFISSID (elems (Opt.WIFISSID o)));
  when (given (Opt.WIFIBSSID o)) (IWIFIBSSID (elems (Opt.WIFIBSSID o)));
  when (given (Opt.AdGuardDomain o)) (IAdGuardDomain (NewAdGuardMatcher (elems (Opt.AdGuardDomain o))))
].

Definition apply_opt (r : Opt.DefaultHeadlessRule) (item : option srsItem) : Opt.DefaultHeadlessRule :=
  match item with Some item => apply_item false item r | None => r end.

(** [bytes] are an item's type and body, or nothing. *)
Definition seg (bytes : list byte) (item : option srsItem) : Prop :=
  match item with
  | None => bytes = []
  | Some it => exists t body, bytes = byte_of_Z t :: body /\ 0 <= t < 255 /\ forall last, decodes (readItem t last) body it
  end.

Definition part_ok (part : result (list byte)) (item : option srsItem) : Prop :=
  forall bytes, part = Ok bytes -> seg bytes item.

Lemma wseq_segs parts its w :
  Forall2 part_ok parts its -> wseq parts = Ok w -> exists segs, w = concat segs /\ Forall2 seg segs its.
Proof.
  intros H. revert w. induction H as [|part it parts its Hp _ IH]; intros w Hw; cbn [wseq] in Hw.
  - simplify_eq. by exists [].
  - bind_case Hw; [|done..]. bind_case Hw; [|done..]. simplify_eq.
    destruct (IH _ eq_refl) as (segs & -> & Hs). exists (value :: segs). split; [done|]. constructor; auto.
Qed.

Lemma wseq_app p1 p2 w : wseq (p1 ++ p2) = Ok w -> exists w1 w2, wseq p1 = Ok w1 /\ wseq p2 = Ok w2 /\ w = w1 ++ w2.
Proof.
  revert w. induction p1 as [|p p1 IH]; intros w H; [by exists [], w|]. cbn [app wseq] in *.
  destruct p; cbn [bind_result] in *; [|done..]. bind_case H; [|done..]. simplify_eq.
  destruct (IH _ eq_refl) as (w1 & w2 & -> & -> & ->). cbn [bind_result]. eexists _, _. split_and!; [done..|].
  by rewrite app_assoc.
Qed.

Lemma decodes_segs segs its inverted : Forall2 seg segs its -> forall fuel rule last,
  (length (concat segs) < fuel)%nat ->
  decodes (readDefaultRule_loop fuel false rule last)
    (concat segs ++ [byte_of_Z ruleItemFinal] ++ WriteBool inverted) (set_Invert inverted (fold_left apply_opt its rule)).
Proof.
  induction 1 as [|bytes it segs its Hs _ IH]; intros fuel rule last Hf; cbn [concat] in *.
  - destruct fuel; [lia|]. cbn [app readDefaultRule_loop fold_left]. eapply (decodes_bind _ _ [_]);
      [by apply decodes_ReadUint8|]. change (ruleItemFinal =? ruleItemFinal) with true. cbn match.
    apply (decodes_map _ (fun b => set_Invert b rule)), decodes_ReadBool.
  - destruct it as [it|]; cbn [fold_left apply_opt seg] in *; [|subst; by apply IH].
    destruct Hs as (t & body & -> & Ht & Hd). destruct fuel; [lia|].
    rewrite length_app in Hf. cbn [length] in Hf. cbn [readDefaultRule_loop].
    change ((byte_of_Z t :: body) ++ concat segs) with ([byte_of_Z t] ++ body ++ concat segs).
    rewrite <- !app_assoc. eapply decodes_bind; [apply decodes_ReadUint8; unfold is_uint; lia|].
    rewrite (proj2 (Z.eqb_neq t ruleItemFinal)) by (unfold ruleItemFinal; lia).
    eapply decodes_bind; [apply Hd|]. apply IH. lia.
Qed.


(** A conditional record, field by field. *)
Definition pick (b : bool) (r1 r2 : Opt.DefaultHeadlessRule) : Opt.DefaultHeadlessRule := {|
  Opt.QueryType := if b then Opt.QueryType r1 else Opt.QueryType r2; Opt.Network := if b then Opt.Network r1
  else Opt.Network r2; Opt.Domain := if b then Opt.Domain r1 else Opt.Domain r2; Opt.DomainSuffix := if b then
  Opt.DomainSuffix r1 else Opt.DomainSuffix r2; Opt.DomainKeyword := if b then Opt.DomainKeyword r1 else
  Opt.DomainKeyword r2; Opt.DomainRegex := if b then Opt.DomainRegex r1 else Opt.DomainRegex r2;
  Opt.SourceIPCIDR := if b then Opt.SourceIPCIDR r1 else Opt.SourceIPCIDR r2; Opt.IPCIDR := if b then Opt.IPCIDR
  r1 else Opt.IPCIDR r2; Opt.SourcePort := if b then Opt.SourcePort r1 else Opt.SourcePort r2;
  Opt.SourcePortRange := if b then Opt.SourcePortRange r1 else Opt.SourcePortRange r2; Opt.Port := if b then
  Opt.Port r1 else Opt.Port r2; Opt.PortRange := if b then Opt.PortRange r1 else Opt.PortRange r2;
  Opt.ProcessName := if b then Opt.ProcessName r1 else Opt.ProcessName r2; Opt.ProcessPath := if b then
  Opt.ProcessPath r1 else Opt.ProcessPath r2; Opt.ProcessPathRegex := if b then Opt.ProcessPathRegex r1 else
  Opt.ProcessPathRegex r2; Opt.NetworkType := if b then Opt.NetworkType r1 else Opt.NetworkType r2;
  Opt.NetworkIsExpensive := if b then Opt.NetworkIsExpensive r1 else Opt.NetworkIsExpensive r2;
  Opt.NetworkIsConstrained := if b then Opt.NetworkIsConstrained r1 else Opt.NetworkIsConstrained r2;
  Opt.WIFISSID := if b then Opt.WIFISSID r1 else Opt.WIFISSID r2; Opt.WIFIBSSID := if b then Opt.WIFIBSSID r1
  else Opt.WIFIBSSID r2; Opt.NetworkInterfaceAddress := if b then Opt.NetworkInterfaceAddress r1 else
  Opt.NetworkInterfaceAddress r2; Opt.DefaultInterfaceAddress := if b then Opt.DefaultInterfaceAddress r1 else
  Opt.DefaultInterfaceAddress r2; Opt.Invert := if b then Opt.Invert r1 else Opt.Invert r2; Opt.DomainMatcher :=
  if b then Opt.DomainMatcher r1 else Opt.DomainMatcher r2; Opt.SourceIPSet := if b then Opt.SourceIPSet r1 else
  Opt.SourceIPSet r2; Opt.IPSet := if b then Opt.IPSet r1 else Opt.IPSet r2; Opt.AdGuardDomain := if b then
  Opt.AdGuardDomain r1 else Opt.AdGuardDomain r2; Opt.AdGuardDomainMatcher := if b then Opt.AdGuardDomainMatcher
  r1 else Opt.AdGuardDomainMatcher r2 |}.

Lemma apply_opt_when r b it : apply_opt r (when b it) = pick b (apply_item false it r) r.
Proof. destruct r, b; reflexivity. Qed.

Lemma if_same {A} (b : bool) (x : A) : (if b then x else x) = x.
Proof. by destruct b. Qed.

Ltac simpl_options :=
  cbn [apply_item Opt.QueryType Opt.Network Opt.Domain Opt.DomainSuffix Opt.DomainKeyword Opt.DomainRegex
    Opt.SourceIPCIDR Opt.IPCIDR Opt.SourcePort Opt.SourcePortRange Opt.Port Opt.PortRange Opt.ProcessName
    Opt.ProcessPath Opt.ProcessPathRegex Opt.NetworkType Opt.NetworkIsExpensive Opt.NetworkIsConstrained
    Opt.WIFISSID Opt.WIFIBSSID Opt.NetworkInterfaceAddress Opt.DefaultInterfaceAddress Opt.Invert
    Opt.DomainMatcher Opt.SourceIPSet Opt.IPSet Opt.AdGuardDomain Opt.AdGuardDomainMatcher].

Ltac is_record r := lazymatch r with Opt.mkDefaultHeadlessRule _ _ _ _ _ _ _ _ _ _ _ _ _ _ _ _ _ _ _ _ _ _ _ _ _ _ _ _ => idtac end.

(** Apply the innermost pending item: its rule is already a record. *)
Ltac apply_innermost :=
  match goal with
  | |- context [apply_opt ?r (when ?b ?it)] =>
      is_record r; rewrite (apply_opt_when r b it); unfold pick; simpl_options; rewrite ?if_same
  | |- context [apply_opt ?r (Some ?it)] =>
      is_record r; change (apply_opt r (Some it)) with (apply_item false it r); unfold apply_item; simpl_options
  | |- context [apply_opt ?r None] => is_record r; change (apply_opt r None) with r
  end.

Lemma loaded_default_items version o :
  set_Invert (Opt.Invert o) (fold_left apply_opt (items_of version o) (Opt.zero false)) = loaded_default version o.
Proof.
  unfold items_of, loaded_default, Opt.zero. cbn [fold_left].
  destruct (cidr_set (Opt.SourceIPCIDR o)), (cidr_set (Opt.IPCIDR o)); cbn [option_map];
    repeat apply_innermost; unfold set_Invert; simpl_options;
    unfold keep, given; destruct (nonempty (elems (Opt.DefaultInterfaceAddress o))), (Opt.NetworkIsExpensive o),
      (Opt.NetworkIsConstrained o); reflexivity.
Qed.

(** *** Every part of the writer is read back by its case of the reader *)

Lemma part_wopt b m it : (b = true -> part_ok m (Some it)) -> part_ok (wopt b m) (when b it).
Proof. destruct b; cbn; [auto|]. intros _ bytes H. by simplify_eq. Qed.

Lemma part_version v required msg m it : part_ok m it -> part_ok (require_version v required msg m) it.
Proof. intros H bytes. unfold require_version. destruct (v <? required); [done|]. apply H. Qed.

Lemma part_item t body it :
  0 <= t < 255 -> (forall last, decodes (readItem t last) body it) -> part_ok (Ok (byte_of_Z t :: body)) (Some it).
Proof. intros Ht Hd bytes H. simplify_eq. by exists t, body. Qed.

Lemma part_cidr t c l (mk : IPSet -> srsItem) :
  0 <= t < 255 -> sizeof_myIPRange * zlen (elems l) <= maxAlloc ->
  (forall last, readItem t last = (let! set := readIPSet in rret (mk set))) ->
  part_ok (wopt (given l) (with_cause c (writeRuleItemCIDR t (elems l)))) (option_map mk (cidr_set l)).
Proof.
  intros Ht Hl Hr. unfold cidr_set. destruct (given l); cbn [wopt]; [|intros bytes H; by simplify_eq].
  unfold writeRuleItemCIDR. destruct (parse_cidrs 0 (elems l)) as [added| |] eqn:E1; [|done..]. cbn [bind_result].
  destruct (IPSetBuilder_IPSet added) as [set| |] eqn:E2; [|done..]. cbn [bind_result with_cause option_map].
  destruct (IPSet_built _ _ _ E1 E2) as [Hw Hn]. apply part_item; [done|]. intros last. rewrite Hr.
  apply (decodes_map _ mk), decodes_IPSet; [|done]. unfold sizeof_myIPRange in *. lia.
Qed.

Lemma wf_uint16s_map l : sizeof_uint16 * zlen l <= maxAlloc -> wf_uint16s (map uint16 l).
Proof.
  intros H. split; [unfold zlen in *; by rewrite length_map|]. apply Forall_forall. intros x Hx.
  apply list_elem_of_In, in_map_iff in Hx as (z & <- & _). apply Z.mod_pos_bound. lia.
Qed.

Lemma parts_of_rule version o : wf_options o -> Forall2 part_ok (writeItems o version) (items_of version o).
Proof.
  intros [].
  repeat first
    [ apply Forall2_cons; split
    | apply Forall2_nil; exact I ];
  first
    [ apply part_cidr; [unfold ruleItemSourceIPCIDR, ruleItemIPCIDR; lia|done|reflexivity]
    | apply part_wopt; intros _; repeat apply part_version; apply part_item; [vm_compute; split; congruence|intros last] ].
  all: try (apply (decodes_map _ _); by apply decodes_strings).
  all: try (apply (decodes_map _ _); by apply decodes_uint16s, wf_uint16s_map).
  all: try (apply (decodes_map _ _); by apply decodes_uint16s).
  all: try (apply (decodes_map _ _); by apply decodes_uint8s).
  all: try (apply (decodes_map _ _); by apply decodes_prefixes).
  all: try (apply decodes_ret).
  - apply (decodes_map _ _), ReadMatcher_Write.
  - match goal with H : wf_entries ?l |- _ => destruct H as (Hl & Hn & Hf) end.
    change (decodes (let! size := ReadUvarint in let! entries := readInterfaceAddresses (Z.to_nat size) [] in
      rret (INetworkInterfaceAddress entries)) (writeInterfaceAddresses (elems (Opt.NetworkInterfaceAddress o)))
      (INetworkInterfaceAddress (elems (Opt.NetworkInterfaceAddress o)))).
    eapply decodes_bind; [by apply WriteUvarint_decodes|]. apply (decodes_map _ INetworkInterfaceAddress).
    rewrite to_nat_length. by apply (decodes_entries _ []).
  - apply (decodes_map _ _), ReadAdGuardMatcher_Write.
Qed.

(** ** Rules *)

Lemma decodes_default version o w :
  wf_options o -> writeDefaultRule o version = Ok w ->
  exists body, w = byte_of_Z 0 :: body /\ decodes (readDefaultRule false) body (loaded_default version o).
Proof.
  intros Hwf H. unfold writeDefaultRule in H. cbn [wseq bind_result] in H. bind_case H; [|done..]. simplify_eq.
  eexists. split; [done|]. apply wseq_app in E as (w1 & w2 & E1 & E2 & ->). cbn in E2. simplify_eq.
  destruct (wseq_segs _ _ _ (parts_of_rule version o Hwf) E1) as (segs & -> & Hs).
  intros rest. unfold readDefaultRule. rewrite <- loaded_default_items.
  apply (decodes_segs _ _ _ Hs). rewrite !length_app. lia.
Qed.

(** Rules the format can represent. *)
Inductive wf_headless : Opt.HeadlessRule -> Prop :=
| wf_headless_default o l : wf_options o -> wf_headless (Opt.mkHeadlessRule Opt.RuleTypeDefault o l)
| wf_headless_logical o l :
    sizeof_HeadlessRule * zlen (Opt.Rules l) <= maxAlloc -> Forall wf_headless (Opt.Rules l) ->
    wf_headless (Opt.mkHeadlessRule Opt.RuleTypeLogical o l).

Lemma wseq_map {A} (f : A -> result (list byte)) xs w :
  wseq (map f xs) = Ok w -> exists ws, Forall2 (fun x w => f x = Ok w) xs ws /\ w = concat ws.
Proof.
  revert w. induction xs as [|x xs IH]; intros w H; cbn [map wseq] in H; [simplify_eq; by exists []|].
  destruct (f x) as [wx| |] eqn:E; cbn [bind_result] in H; [|done..]. bind_case H; [|done..]. simplify_eq.
  destruct (IH _ eq_refl) as (ws & Hws & ->). exists (wx :: ws). by split; [constructor|].
Qed.

Lemma decodes_readi_n {A B} (r : Z -> Reader B) (f : A -> B) xs ws :
  Forall2 (fun x w => forall i, decodes (r i) w (f x)) xs ws ->
  forall i, decodes (readi_n r (length xs) i) (concat ws) (map f xs).
Proof.
  induction 1 as [|x w xs ws Hd _ IH]; intros i; cbn [length readi_n map concat]; [apply decodes_ret|].
  eapply decodes_bind; [apply Hd|]. apply (decodes_map _ (cons (f x))), IH.
Qed.

Lemma length_concat_elem {A} (w : list A) ws : w ∈ ws -> (length w <= length (concat ws))%nat.
Proof.
  induction ws as [|x ws IH]; [by intros ?%not_elem_of_nil|]. cbn [concat]. rewrite length_app.
  intros [->|?%IH]%elem_of_cons; lia.
Qed.

Lemma decodes_assoc2 {A B C D} (r : Reader A) (l : A -> Reader B) (f : A -> Reader C) (g : C -> Reader D) w b :
  decodes (rbind (rbind r (fun x => rbind (l x) (fun _ => f x))) g) w b ->
  decodes (rbind r (fun x => rbind (l x) (fun _ => rbind (f x) g))) w b.
Proof.
  intros H rest. rewrite <- (H rest). unfold rbind. destruct (r _) as [[x i]| |]; [|done..].
  by destruct (l x i) as [[y j]| |].
Qed.

(** The sub-rules and the top-level rules: a counted sequence of rules. *)
Lemma decodes_rules version fuel (cause : Z -> string) rules ws :
  Forall2 (fun r w => writeRule version r = Ok w) rules ws ->
  Forall (fun r => forall w fuel, writeRule version r = Ok w -> (length w <= fuel)%nat ->
            decodes (readRule fuel false) w (loaded version r)) rules ->
  (length (concat ws) <= fuel)%nat -> sizeof_HeadlessRule * zlen rules <= maxAlloc ->
  decodes (let! length := ReadUvarint in
           let! _ := rlift (make_slice sizeof_HeadlessRule length) in
           readi_n (fun i => rcause (cause i) (readRule fuel false)) (Z.to_nat length) 0)
    (WriteUvarint (zlen rules) ++ concat ws) (map (loaded version) rules).
Proof.
  intros Hw Hd Hf Hn. eapply decodes_bind.
  - apply WriteUvarint_decodes. apply (alloc_is_uint64 rules sizeof_HeadlessRule); unfold sizeof_HeadlessRule in *; lia.
  - apply decodes_make; [done|]. rewrite to_nat_length. apply decodes_readi_n.
    assert (forall w, w ∈ ws -> (length w <= fuel)%nat) as Hl by (intros w ?%length_concat_elem; lia).
    clear Hn Hf. induction Hw as [|r w rules ws E Hw IH]; [constructor|]. apply Forall_cons in Hd as [Hr Hd].
    constructor.
    + intros i. apply decodes_cause, Hr; [done|]. apply Hl. left.
    + apply IH; [done|]. intros w' Hw'. apply Hl. by right.
Qed.

Lemma decodes_rule version r : wf_headless r -> forall w fuel,
  writeRule version r = Ok w -> (length w <= fuel)%nat -> decodes (readRule fuel false) w (loaded version r).
Proof.
  induction r as [t o l IH] using HeadlessRule_tree_ind. intros Hwf w fuel H Hf. inversion Hwf as [? ? Ho|? ? Hn Hs]; subst.
  - apply decodes_default in H as (body & -> & Hd); [|done]. cbn [length] in Hf. destruct fuel; [lia|].
    cbn [readRule loaded]. change (String.eqb Opt.RuleTypeDefault Opt.RuleTypeDefault) with true. cbn match.
    eapply (decodes_bind _ _ [_]); [by apply decodes_ReadUint8|]. cbn match. change (0 =? 0) with true. cbn match.
    by apply (decodes_map _ (fun d => Opt.mkHeadlessRule Opt.RuleTypeDefault d zeroLogical)).
  - cbn [writeRule] in H. change (String.eqb Opt.RuleTypeLogical Opt.RuleTypeDefault) with false in H.
    change (String.eqb Opt.RuleTypeLogical Opt.RuleTypeLogical) with true in H. cbn match in H.
    unfold writeLogicalRule in H. cbn [wseq bind_result] in H.
    set (mb := if String.eqb (Opt.Mode l) "and" then Ok [byte_of_Z 0] else _) in H.
    destruct mb as [mode| |] eqn:Em; cbn [bind_result] in H; [|done..].
    destruct (wseq (map _ _)) as [ws'| |] eqn:Ew; cbn [bind_result] in H; [|done..]. simplify_eq.
    apply wseq_map in Ew as (ws & Hws & ->).
    assert (exists m, mode = [m] /\ (if Z_of_byte m =? 0 then Ok "and" else if Z_of_byte m =? 1 then Ok "or"
              else Err (ENew ("unknown logical mode: " +:+ pretty (Z_of_byte m)))) = Ok (Opt.Mode l)) as (m & -> & Hm).
    { revert Em. destruct (String.eqb_spec (Opt.Mode l) "and") as [->|]; [intros; simplify_eq; by eexists|].
      destruct (String.eqb_spec (Opt.Mode l) "or") as [->|]; [intros; simplify_eq; by eexists|done]. }
    change [if Opt.LogicalInvert l then x01 else x00] with (WriteBool (Opt.LogicalInvert l)) in *.
    cbn [length app] in Hf. rewrite !length_app in Hf. destruct fuel; [lia|].
    cbn [readRule loaded]. change (String.eqb Opt.RuleTypeLogical Opt.RuleTypeDefault) with false. cbn match.
    eapply (decodes_bind _ _ [_]); [by apply decodes_ReadUint8|]. change (1 =? 0) with false. change (1 =? 1) with true.
    cbn match. apply (decodes_map _ (fun l => Opt.mkHeadlessRule Opt.RuleTypeLogical (Opt.zero false) l)).
    unfold readLogicalRule. eapply (decodes_bind _ _ [_]); [apply decodes_ReadByte|].
    eapply decodes_lift; [exact Hm|].
    apply decodes_assoc2. rewrite app_assoc. eapply decodes_bind.
    + apply decodes_rules with (cause := fun i => "read logical rule [" +:+ pretty i +:+ "]"); [done| |lia|done].
      clear - IH Hs. induction (Opt.Rules l) as [|x xs IHx]; [constructor|]. decompose_Forall_hyps. constructor; auto.
    + apply (decodes_map _ (fun b => Opt.mkLogicalHeadlessRule _ _ b)), decodes_ReadBool.
Qed.

(** ** The file *)

Lemma Read_Write version rules file :
  is_uint 8 version -> version <= RuleSetVersionCurrent -> sizeof_HeadlessRule * zlen rules <= maxAlloc ->
  Forall wf_headless rules -> Write rules version = Ok file ->
  Read false file = Ok {| Version := version; Rules := map (loaded version) rules |}.
Proof.
  intros Hu Hv Hn Hwf H. unfold Write in H. destruct (writeRules rules version) as [content| |] eqn:Ew; [|done..].
  cbn [bind_result] in H.
  assert (MagicBytes ++ [byte_of_Z version] ++ zlib_Compress content = file) as <- by congruence. unfold Read.
  rewrite (decodes_ReadFull_n 3 MagicBytes) by done. cbn [bind_result].
  rewrite bool_decide_eq_true_2 by done. cbn [negb].
  rewrite (decodes_ReadUint8 version Hu). cbn [bind_result].
  rewrite (proj2 (Z.ltb_ge _ _)) by done. rewrite zlib_roundtrip. cbn [bind_result].
  unfold writeRules in Ew. cbn [wseq bind_result] in Ew.
  destruct (wseq (map _ _)) as [ws'| |] eqn:Ew'; cbn [bind_result] in Ew; [|done..]. simplify_eq.
  apply wseq_map in Ew' as (ws & Hws & ->). unfold readRules.
  rewrite <- (app_nil_r (WriteUvarint _ ++ _)).
  rewrite (decodes_rules version _ (fun i => "read rule[" +:+ pretty i +:+ "]") rules ws Hws); [done| | |done].
  - eapply Forall_impl; [exact Hwf|]. intros r Hr w fuel. by apply decodes_rule.
  - rewrite !length_app. lia.
Qed.


(** ** The loaded rules mean the same *)

(** Rules as a source file can state them: no compiled matcher or address set. *)
Definition source_form (o : Opt.DefaultHeadlessRule) : bool :=
  is_nil (Opt.DomainMatcher o) && is_nil (Opt.SourceIPSet o) && is_nil (Opt.IPSet o) && is_nil (Opt.AdGuardDomainMatcher o).

Lemma given_keep {A} (l : Listable A) : given (keep l) = given l.
Proof. unfold keep. by destruct (given l) eqn:E. Qed.

Lemma elems_keep {A} (l : Listable A) : elems (keep l) = elems l.
Proof. unfold keep, given. by destruct l as [[|]|]. Qed.

Lemma wanted_keep {A} (l : Listable A) p : wanted (keep l) p = wanted l p.
Proof. unfold wanted. by rewrite given_keep. Qed.

Lemma uint16_idem l : map uint16 (map uint16 l) = map uint16 l.
Proof. rewrite map_map. apply map_ext. intros z. apply Z.mod_mod. lia. Qed.

Lemma given_map {A B} (f : A -> B) (l : Listable A) :
  given (if given l then Some (map f (elems l)) else None) = given l.
Proof. unfold given. by destruct l as [[|]|]. Qed.

Lemma elems_map {A B} (f : A -> B) (l : Listable A) :
  elems (if given l then Some (map f (elems l)) else None) = map f (elems l).
Proof. unfold given. by destruct l as [[|]|]. Qed.

Definition cidr_ok (l : Listable string) : bool := negb (given l) || negb (is_nil (cidr_set l)).

Lemma cidr_match_set isSource l md : cidr_ok l = true ->
  cidr_match isSource None (cidr_set l) md = cidr_match isSource l None md /\
  negb (is_nil (cidr_set l)) = given l.
Proof.
  unfold cidr_ok, cidr_match, cidr_set. destruct (given l); [|done]. cbn.
  destruct (parse_cidrs 0 (elems l)); [|done..]. by destruct (IPSetBuilder_IPSet value).
Qed.

Lemma is_nil_if {A} (b : bool) (x : A) : is_nil (if b then Some x else None) = negb b.
Proof. by destruct b. Qed.

Section Meaning.
Context (rt : RuntimeState) (version : Z).
Hypothesis not_legacy : version <> RuleSetVersion1.

Lemma domain_spec_loaded o md :
  source_form o = true -> domain_spec (loaded_default version o) md = domain_spec o md.
Proof.
  unfold source_form. rewrite !andb_true_iff. intros (((H1 & _) & _) & H4).
  unfold domain_spec. cbn [loaded_default Opt.Domain Opt.DomainSuffix Opt.DomainMatcher Opt.DomainKeyword
    Opt.DomainRegex Opt.AdGuardDomain Opt.AdGuardDomainMatcher]. rewrite !elems_keep.
  rewrite (proj2 (Z.eqb_neq version _)) by done. change (@given string None) with false. cbn [orb].
  destruct (Opt.DomainMatcher o); [done|]. destruct (Opt.AdGuardDomainMatcher o); [done|].
  by destruct (given (Opt.Domain o) || given (Opt.DomainSuffix o)), (given (Opt.AdGuardDomain o)).
Qed.

Lemma has_domain_loaded o :
  source_form o = true -> has_domain (loaded_default version o) = has_domain o.
Proof.
  unfold source_form. rewrite !andb_true_iff. intros (((H1 & _) & _) & H4).
  unfold has_domain. cbn [loaded_default Opt.Domain Opt.DomainSuffix Opt.DomainMatcher Opt.DomainKeyword
    Opt.DomainRegex Opt.AdGuardDomain Opt.AdGuardDomainMatcher].
  rewrite !given_keep, !is_nil_if, H1, H4, !negb_involutive. change (@given string None) with false.
  cbn [orb negb]. by rewrite !orb_false_r.
Qed.

Lemma default_spec_loaded nm o md :
  source_form o = true -> cidr_ok (Opt.SourceIPCIDR o) = true -> cidr_ok (Opt.IPCIDR o) = true ->
  has_conditions nm (loaded_default version o) = has_conditions nm o /\
  default_spec rt nm (loaded_default version o) md = default_spec rt nm o md.
Proof.
  intros Hs H1 H2. pose proof Hs as Hs'. unfold source_form in Hs'. rewrite !andb_true_iff in Hs'.
  destruct Hs' as (((_ & HS) & HI) & _).
  destruct (cidr_match_set true _ md H1) as [M1 N1]. destruct (cidr_match_set false _ md H2) as [M2 N2].
  unfold has_conditions, conditions_given, default_spec, conditions_hold, has_network, network_spec, process_spec, isIPCIDRHeadlessRule, isProcessHeadlessRule.
  rewrite (has_domain_loaded o Hs), (domain_spec_loaded o md Hs).
  cbn [loaded_default Opt.QueryType Opt.Network Opt.SourceIPCIDR Opt.IPCIDR Opt.SourceIPSet Opt.IPSet Opt.SourcePort
    Opt.SourcePortRange Opt.Port Opt.PortRange Opt.ProcessName Opt.ProcessPath Opt.ProcessPathRegex Opt.NetworkType
    Opt.NetworkIsExpensive Opt.NetworkIsConstrained Opt.WIFISSID Opt.WIFIBSSID Opt.NetworkInterfaceAddress
    Opt.DefaultInterfaceAddress].
  rewrite M1, M2, N1, N2. change (@given string None) with false. cbn [orb].
  destruct (Opt.SourceIPSet o); [done|]. destruct (Opt.IPSet o); [done|]. cbn [is_nil negb].
  rewrite !orb_false_r, !wanted_keep, !given_keep, !elems_keep, given_map, elems_map, uint16_idem.
  unfold wanted. rewrite given_map. done.
Qed.

Lemma cidr_ok_step isSource c l (raw : option IPSet) f :
  step_ok (orRaw l (with_cause c (NewIPCIDRItem isSource (elems l))) raw f) = true -> cidr_ok l = true.
Proof.
  unfold orRaw, cidr_ok, cidr_set, NewIPCIDRItem. destruct (given l); [|done].
  destruct (parse_cidrs 0 (elems l)); [|done..]. cbn. by destruct (IPSetBuilder_IPSet value).
Qed.

Lemma step_raw {A} (x : option A) (f : A -> RuleItem) : step_ok (option_map (fun a => Ok (f a)) x) = true.
Proof. by destruct x. Qed.

(** The constructor succeeds on the loaded form, and the address lists parse. *)
Lemma NewDefaultHeadlessRule_loaded nm o d :
  NewDefaultHeadlessRule nm o = Ok d ->
  cidr_ok (Opt.SourceIPCIDR o) = true /\ cidr_ok (Opt.IPCIDR o) = true /\
  exists d', NewDefaultHeadlessRule nm (loaded_default version o) = Ok d'.
Proof.
  intros H. unfold NewDefaultHeadlessRule in H. run_steps H. split_and!; [by eapply cidr_ok_step..|].
  unfold NewDefaultHeadlessRule.
  cbn [loaded_default Opt.QueryType Opt.Network Opt.Domain Opt.DomainSuffix Opt.DomainKeyword Opt.DomainRegex
    Opt.SourceIPCIDR Opt.IPCIDR Opt.SourcePort Opt.SourcePortRange Opt.Port Opt.PortRange Opt.ProcessName
    Opt.ProcessPath Opt.ProcessPathRegex Opt.NetworkType Opt.NetworkIsExpensive Opt.NetworkIsConstrained
    Opt.WIFISSID Opt.WIFIBSSID Opt.NetworkInterfaceAddress Opt.DefaultInterfaceAddress Opt.Invert
    Opt.DomainMatcher Opt.SourceIPSet Opt.IPSet Opt.AdGuardDomain Opt.AdGuardDomainMatcher].
  unfold orRaw. change (@given string None) with false. cbn [orb]. rewrite !given_keep, !elems_keep, given_map, elems_map.
  repeat first
    [ rewrite add_ok by (assumption || apply step_raw || (destruct (given _); reflexivity)
                         || (destruct nm; cbn [andb]; solve [reflexivity|by destruct (given _)]));
      cbn [bind_result] ].
  by eexists.
Qed.

(** Source rules in which every default rule states a condition. *)
Inductive source_rule : Opt.HeadlessRule -> Prop :=
| source_default o l :
    source_form o = true -> has_conditions true o = true ->
    source_rule (Opt.mkHeadlessRule Opt.RuleTypeDefault o l)
| source_logical o l :
    Forall source_rule (Opt.Rules l) -> source_rule (Opt.mkHeadlessRule Opt.RuleTypeLogical o l).

Lemma loaded_meaning nm r : source_rule r -> forall rule, NewHeadlessRule nm r = Ok rule ->
  (exists rule', NewHeadlessRule nm (loaded version r) = Ok rule') /\
  forall md, headless_spec rt nm (loaded version r) md = headless_spec rt nm r md.
Proof.
  induction r as [t o l IH] using HeadlessRule_tree_ind. intros Hs rule H.
  inversion Hs as [? ? Hf Hc|? ? Hrs]; subst; cbn [loaded];
    [change (String.eqb Opt.RuleTypeDefault Opt.RuleTypeDefault) with true
    |change (String.eqb Opt.RuleTypeLogical Opt.RuleTypeDefault) with false]; cbn match.
  - apply NewHeadlessRule_inv in H as [(_ & _ & d & Hd & _)|(Ht & _)]; [|done].
    destruct (NewDefaultHeadlessRule_loaded nm o d Hd) as (C1 & C2 & d' & Hd'). split.
    + exists (DefaultRule d' None). cbn [NewHeadlessRule]. change (Opt.isDefaultType Opt.RuleTypeDefault) with true.
      cbn match. rewrite (has_conditions_valid true), Hd'; [done|].
      by destruct (default_spec_loaded true o (demoConnection "") Hf C1 C2) as [-> _].
    + intros md. cbn [headless_spec]. change (Opt.isDefaultType Opt.RuleTypeDefault) with true. cbn match.
      destruct (default_spec_loaded nm o md Hf C1 C2) as [-> ->]. done.
  - apply NewHeadlessRule_inv in H as [(Ht & _)|(_ & _ & Hne & mode & rules & Hm & Hr & _)]; [done|].
    assert ((exists rules', Forall2 (fun r rule => NewHeadlessRule nm r = Ok rule) (map (loaded version) (Opt.Rules l)) rules') /\
            forall md, Forall2 (fun r r' => headless_spec rt nm r md = headless_spec rt nm r' md)
                         (map (loaded version) (Opt.Rules l)) (Opt.Rules l)) as [[rules' Hr'] Heq].
    { clear - IH Hrs Hr. induction Hr as [|x y xs ys E Hr IHx]; [by split; [exists []|]; constructor|].
      apply Forall_cons in IH as [IH1 IH2]. apply Forall_cons in Hrs as [S1 S2].
      destruct (IH1 S1 _ E) as [[y' Hy'] Hmd]. destruct (IHx IH2 S2) as [[ys' Hys'] Hmds].
      split; [exists (y' :: ys'); by constructor|]. intros md. by constructor. }
    split.
    + eexists. apply NewHeadlessRule_logical; [|exact Hm|exact Hr']. cbn. by destruct (Opt.Rules l).
    + intros md. cbn [headless_spec Opt.Mode Opt.Rules Opt.LogicalInvert].
      change (Opt.isDefaultType Opt.RuleTypeLogical) with false. cbn match. f_equal.
      destruct (String.eqb _ _); [apply Forall2_forallb|apply Forall2_existsb]; apply Heq.
Qed.
End Meaning.


(** ** Termination

    [bounded n r]: on inputs of less than [n] bytes, [r] does not run out of fuel. *)
Definition bounded {A} (n : nat) (r : Reader A) : Prop :=
  forall i e, (length i < n)%nat -> r i = Err e -> fuelled e = false.

Lemma bounded_any {A} n (r : Reader A) : no_fuel_error r -> bounded n r.
Proof. intros H i e _. apply H. Qed.

Lemma bounded_ret {A} n (a : A) : bounded n (rret a).
Proof. by intros i e _ H. Qed.

Lemma bounded_lift {A} n (m : result A) : (forall e, m = Err e -> fuelled e = false) -> bounded n (rlift m).
Proof. intros Hm i e _ H. destruct m; [done| |done]. injection H as <-. by apply Hm. Qed.

Lemma bounded_bind {A B} n (r : Reader A) (k : A -> Reader B) :
  shrinks r -> bounded n r -> (forall a, bounded n (k a)) -> bounded n (rbind r k).
Proof.
  intros Hs Hr Hk i e Hi H. unfold rbind in H. destruct (r i) as [[a o]|e'|] eqn:E; [| |done].
  - eapply Hk; [|exact H]. pose proof (shrinks1_shrinks r Hs _ _ _ E). lia.
  - injection H as <-. by eapply Hr.
Qed.

(** A first step that consumes a byte leaves less input for the rest. *)
Lemma bounded_strict {A B} n (r : Reader A) (k : A -> Reader B) :
  shrinks1 r -> no_fuel_error r -> (forall a, bounded n (k a)) -> bounded (S n) (rbind r k).
Proof.
  intros Hs Hr Hk i e Hi H. unfold rbind in H. destruct (r i) as [[a o]|e'|] eqn:E; [| |done].
  - eapply Hk; [|exact H]. pose proof (Hs _ _ _ E). lia.
  - injection H as <-. by eapply Hr.
Qed.

Lemma bounded_cause {A} n msg (r : Reader A) : bounded n r -> bounded n (rcause msg r).
Proof.
  intros Hr i e Hi H. unfold rcause, with_cause in H. destruct (r i) eqn:E; [done| |done].
  injection H as <-. cbn. by eapply Hr.
Qed.

Lemma bounded_ReadByte n : bounded n ReadByte.
Proof. intros [|b i] e _ H; cbn in H; [|done]. by injection H as <-. Qed.

Lemma bounded_ReadFull n k : bounded n (ReadFull k).
Proof.
  intros i e _ H. unfold ReadFull in H. destruct (k <=? zlen i); [done|]. destruct i; by injection H as <-.
Qed.

Lemma bounded_ReadUvarint n : bounded n ReadUvarint.
Proof.
  assert (forall m i s x inp e, ReadUvarint_loop m i s x inp = Err e -> fuelled e = false) as Hl.
  { induction m as [|m IH]; intros i s x inp e H; cbn [ReadUvarint_loop] in H; [by injection H as <-|].
    destruct inp as [|b inp]; [injection H as <-; by destruct (0 <? i)|].
    destruct (Z_of_byte b <? 128); [|by eapply IH].
    destruct ((i =? 9) && (1 <? Z_of_byte b)); [by injection H as <-|done]. }
  intros i e _ H. by eapply Hl.
Qed.

Lemma bounded_read_n {A} n (r : Reader A) k : shrinks r -> bounded n r -> bounded n (read_n k r).
Proof.
  intros Hs Hr. induction k as [|k IH]; cbn [read_n]; [apply bounded_ret|].
  apply bounded_bind; [done|done|intros a]. apply bounded_bind; [by apply shrinks_read_n|done|intros].
  apply bounded_ret.
Qed.

Lemma shrinks_readi_n {A} (r : Z -> Reader A) k : (forall i, shrinks (r i)) -> forall i, shrinks (readi_n r k i).
Proof. intros Hr. induction k as [|k IH]; intros i; cbn [readi_n]; solve_shrinks. Qed.

Lemma bounded_readi_n {A} n (r : Z -> Reader A) k :
  (forall i, shrinks (r i)) -> (forall i, bounded n (r i)) -> forall i, bounded n (readi_n r k i).
Proof.
  intros Hs Hr. induction k as [|k IH]; intros i; cbn [readi_n]; [apply bounded_ret|].
  apply bounded_bind; [done|done|intros a]. apply bounded_bind; [by apply shrinks_readi_n|done|intros].
  apply bounded_ret.
Qed.

Lemma make_slice_errors sizeof n e : make_slice sizeof n = Err e -> fuelled e = false.
Proof. unfold make_slice. by destruct (_ <? _). Qed.

Hint Resolve bounded_ret bounded_ReadByte bounded_ReadFull bounded_ReadUvarint bounded_cause
  make_slice_errors shrinks_readi_n : go.
Hint Resolve ReadMatcher_shrinks ReadAdGuardMatcher_shrinks : go.

(** Decompose a [bounded] goal along the monadic structure of the reader. *)
Ltac solve_bounded :=
  repeat match goal with
  | |- bounded _ (rbind _ _) => apply bounded_bind; [solve [solve_shrinks]| |intros]
  | |- bounded _ (rlift _) => apply bounded_lift; intros
  | |- bounded _ (read_n _ _) => apply bounded_read_n; [solve [solve_shrinks]|]
  | |- bounded _ (if ?b then _ else _) => destruct b
  end; eauto with go; try by simplify_eq.

Lemma shrinks_readBytes : shrinks readBytes.
Proof. unfold readBytes. solve_shrinks. Qed.

Lemma bounded_readBytes n : bounded n readBytes.
Proof. unfold readBytes. solve_bounded. Qed.

Hint Resolve shrinks_readBytes bounded_readBytes : go.

Lemma shrinks_readPrefix : shrinks readPrefix.
Proof. unfold readPrefix. solve_shrinks. Qed.

Lemma shrinks_readIPRange : shrinks readIPRange.
Proof. unfold readIPRange. solve_shrinks. Qed.

Hint Resolve shrinks_readPrefix shrinks_readIPRange : go.

Lemma shrinks_readRuleItemString : shrinks readRuleItemString.
Proof. unfold readRuleItemString. solve_shrinks. apply shrinks_read_n. solve_shrinks. Qed.

Lemma shrinks_readPrefixes : shrinks readPrefixes.
Proof. unfold readPrefixes. solve_shrinks. Qed.

Hint Resolve shrinks_readRuleItemString shrinks_readPrefixes : go.

Lemma shrinks_readInterfaceAddresses k : forall m, shrinks (readInterfaceAddresses k m).
Proof. induction k as [|k IH]; intros m; cbn [readInterfaceAddresses]; solve_shrinks. Qed.

Hint Resolve shrinks_readInterfaceAddresses : go.

Lemma shrinks_readItem t last : shrinks (readItem t last).
Proof.
  unfold readItem, readRuleItemUint16, readRuleItemUint8, readIPSet. solve_shrinks.
Qed.

Lemma bounded_ReadUint8 n : bounded n ReadUint8.
Proof. unfold ReadUint8. solve_bounded. Qed.

Lemma bounded_ReadBool n : bounded n ReadBool.
Proof. unfold ReadBool. solve_bounded. Qed.

Lemma bounded_readRuleItemString n : bounded n readRuleItemString.
Proof. unfold readRuleItemString. solve_bounded. Qed.

Lemma bounded_readPrefixes n : bounded n readPrefixes.
Proof. unfold readPrefixes, readPrefix. solve_bounded. Qed.

Hint Resolve bounded_ReadUint8 bounded_ReadBool bounded_readRuleItemString bounded_readPrefixes : go.

Lemma bounded_readInterfaceAddresses n k : forall m, bounded n (readInterfaceAddresses k m).
Proof. induction k as [|k IH]; intros m; cbn [readInterfaceAddresses]; solve_bounded. Qed.

Hint Resolve bounded_readInterfaceAddresses bounded_any ReadMatcher_errors ReadAdGuardMatcher_errors : go.

Lemma bounded_readItem n t last : bounded n (readItem t last).
Proof.
  unfold readItem, readRuleItemUint16, readRuleItemUint8, readIPSet, ReadUint16s, ReadUint64, readIPRange. solve_bounded.
Qed.

Hint Resolve shrinks_readItem bounded_readItem : go.

Lemma shrinks1_ReadUint8 : shrinks1 ReadUint8.
Proof.
  intros i a o H. unfold ReadUint8, rbind, ReadFull in H. destruct i as [|b i]; [done|].
  change (zlen (b :: i)) with (Z.of_nat (S (length i))) in H.
  rewrite (proj2 (Z.leb_le _ _)) in H by lia. cbn in H. injection H as _ <-. rewrite drop_0. cbn. lia.
Qed.

Lemma no_fuel_error_ReadUint8 : no_fuel_error ReadUint8.
Proof. intros i e. apply (bounded_ReadUint8 (S (length i))). lia. Qed.

Hint Resolve shrinks1_ReadUint8 no_fuel_error_ReadUint8 : go.

Lemma shrinks_readDefaultRule_loop fuel recover : forall rule last, shrinks (readDefaultRule_loop fuel recover rule last).
Proof. induction fuel as [|fuel IH]; intros rule last; cbn [readDefaultRule_loop]; solve_shrinks. Qed.

Lemma bounded_readDefaultRule_loop fuel recover : forall rule last,
  bounded fuel (readDefaultRule_loop fuel recover rule last).
Proof.
  induction fuel as [|fuel IH]; intros rule last; cbn [readDefaultRule_loop]; [intros i e Hi; lia|].
  apply bounded_strict; [auto with go..|]. intros t. solve_bounded.
Qed.

Lemma shrinks_readDefaultRule recover : shrinks (readDefaultRule recover).
Proof. intros i a o H. by eapply shrinks_readDefaultRule_loop. Qed.

Lemma bounded_readDefaultRule n recover : bounded n (readDefaultRule recover).
Proof. intros i e _ H. eapply bounded_readDefaultRule_loop; [|exact H]. lia. Qed.

Hint Resolve shrinks_readDefaultRule bounded_readDefaultRule : go.

Lemma shrinks_readLogicalRule r : shrinks r -> shrinks (readLogicalRule r).
Proof. intros Hr. unfold readLogicalRule. solve_shrinks. Qed.

Lemma bounded_readLogicalRule n r : shrinks r -> bounded n r -> bounded n (readLogicalRule r).
Proof.
  intros Hs Hr. unfold readLogicalRule. solve_bounded.
  - match goal with H : _ = Err _ |- _ => revert H end. destruct (_ =? 0); [done|]. destruct (_ =? 1); [done|].
    intros. by simplify_eq.
  - apply bounded_readi_n; auto with go.
Qed.

Hint Resolve shrinks_readLogicalRule bounded_readLogicalRule : go.

Lemma shrinks_readRule fuel recover : shrinks (readRule fuel recover).
Proof. induction fuel as [|fuel IH]; cbn [readRule]; solve_shrinks. Qed.

Hint Resolve shrinks_readRule : go.

Lemma bounded_readRule fuel recover : bounded fuel (readRule fuel recover).
Proof.
  induction fuel as [|fuel IH]; cbn [readRule]; [intros i e Hi; lia|].
  apply bounded_strict; [auto with go..|]. intros t. solve_bounded.
Qed.

Hint Resolve bounded_readRule : go.

Lemma readRules_errors recover i e : readRules recover i = Err e -> fuelled e = false.
Proof.
  unfold readRules. intros H.
  assert (bounded (S (length i)) (let! length := ReadUvarint in
     let! _ := rlift (make_slice sizeof_HeadlessRule length) in
     readi_n (fun k => rcause ("read rule[" +:+ pretty k +:+ "]") (readRule (S (List.length i)) recover))
       (Z.to_nat length) 0)) as Hb; [|eapply Hb; [|exact H]; lia].
  solve_bounded. apply bounded_readi_n; auto with go.
Qed.

(** ** Version gating *)

Lemma is_ok_wseq parts : is_ok (wseq parts) = forallb is_ok parts.
Proof.
  induction parts as [|p parts IH]; [done|]. cbn [wseq forallb]. rewrite <- IH.
  destruct p; [|done..]. cbn [bind_result is_ok andb]. by destruct (wseq parts).
Qed.

(** The first format version that can represent the rule. *)
Definition required_version (o : Opt.DefaultHeadlessRule) : Z :=
  if given (Opt.NetworkInterfaceAddress o) || given (Opt.DefaultInterfaceAddress o) then RuleSetVersion4
  else if given (Opt.NetworkType o) || Opt.NetworkIsExpensive o || Opt.NetworkIsConstrained o then RuleSetVersion3
  else if given (Opt.AdGuardDomain o) then RuleSetVersion2
  else RuleSetVersion1.

Lemma is_ok_wopt b m : is_ok (wopt b m) = negb b || is_ok m.
Proof. by destruct b. Qed.

Lemma is_ok_require v required msg m : is_ok (require_version v required msg m) = (required <=? v) && is_ok m.
Proof. unfold require_version. destruct (Z.ltb_spec v required), (Z.leb_spec required v); by try lia. Qed.

Lemma is_ok_cidr t c l : negb (given l) || is_ok (with_cause c (writeRuleItemCIDR t (elems l))) = cidr_ok l.
Proof.
  unfold cidr_ok, cidr_set, writeRuleItemCIDR. destruct (given l); [|done].
  destruct (parse_cidrs 0 (elems l)); [|done..]. cbn. by destruct (IPSetBuilder_IPSet value).
Qed.

Lemma is_ok_writeDefaultRule o version :
  1 <= version ->
  is_ok (writeDefaultRule o version) =
  (required_version o <=? version) && cidr_ok (Opt.SourceIPCIDR o) && cidr_ok (Opt.IPCIDR o).
Proof.
  intros Hv. unfold writeDefaultRule. rewrite is_ok_wseq. cbn [forallb app writeItems].
  rewrite !is_ok_wopt, !is_ok_require, !is_ok_cidr. cbn [is_ok writeRuleItemString writeRuleItemUint16 writeRuleItemUint8].
  rewrite !orb_true_r. cbn [andb]. rewrite !andb_true_r. unfold required_version, RuleSetVersion1, RuleSetVersion2, RuleSetVersion3, RuleSetVersion4.
  destruct (cidr_ok (Opt.SourceIPCIDR o)), (cidr_ok (Opt.IPCIDR o)); cbn [andb]; rewrite ?andb_false_r; [|done..].
  rewrite !andb_true_r.
  destruct (given (Opt.NetworkInterfaceAddress o)), (given (Opt.DefaultInterfaceAddress o)), (given (Opt.NetworkType o)),
    (Opt.NetworkIsExpensive o), (Opt.NetworkIsConstrained o), (given (Opt.AdGuardDomain o)); cbn [negb orb andb];
    destruct (Z.leb_spec 1 version), (Z.leb_spec 2 version), (Z.leb_spec 3 version), (Z.leb_spec 4 version);
    (lia || reflexivity).
Qed.

End WithEnv.

(** ** Properties *)

(** C11: reading a written rule-set file gives back the rules, in their loaded
    form, for every rule-set the writer accepts whose lengths fit the address
    space. *)
Theorem srs_roundtrip `{UW : UvarintWriter} `{SL : SrsLaws} (version : Z) (rules : list Opt.HeadlessRule)
    (file : list byte) :
  is_uint 8 version -> version <= RuleSetVersionCurrent -> sizeof_HeadlessRule * zlen rules <= maxAlloc ->
  Forall wf_headless rules -> Write rules version = Ok file ->
  Read false file = Ok {| Version := version; Rules := map (loaded version) rules |}.
Proof. apply Read_Write. Qed.

(** C13: compiling a rule-set does not change what it matches: for format versions
    from 2 on, the file written from source rules loads, its rules can be built
    whenever the source rules can, and the built rule-set accepts exactly the
    same connections (stated for metadata without the flags of a referring rule or
    of the legacy pre-match that change what address conditions apply to). *)
Theorem compiled_rule_set_equivalent `{UW : UvarintWriter} `{SL : SrsLaws} (rt : RuntimeState)
    (hasNetworkManager : bool) (version : Z) (rules : list Opt.HeadlessRule) (built : list Rule)
    (file : list byte) (md : InboundContext) :
  RuleSetVersion2 <= version <= RuleSetVersionCurrent -> sizeof_HeadlessRule * zlen rules <= maxAlloc ->
  Forall wf_headless rules -> Forall source_rule rules ->
  Forall2 (fun r rule => NewHeadlessRule hasNetworkManager r = Ok rule) rules built ->
  Write rules version = Ok file ->
  IPCIDRMatchSource md = false -> IPCIDRAcceptEmpty md = false -> IgnoreDestinationIPCIDRMatch md = false ->
  exists compat loadedRules built',
    Read false file = Ok compat /\ Upgrade compat = Ok loadedRules /\
    Forall2 (fun r rule => NewHeadlessRule hasNetworkManager r = Ok rule) loadedRules built' /\
    RuleSet_Match rt built' md = RuleSet_Match rt built md.
Proof.
  unfold RuleSetVersion2, RuleSetVersionCurrent, RuleSetVersion5. intros Hv Hn Hwf Hsrc Hb Hw H1 H2 H3.
  assert (exists built', Forall2 (fun r rule => NewHeadlessRule hasNetworkManager r = Ok rule)
            (map (loaded version) rules) built' /\
          Forall2 (fun r r' => headless_spec rt hasNetworkManager r (ResetRuleMatchCache md) =
                               headless_spec rt hasNetworkManager r' (ResetRuleMatchCache md))
            (map (loaded version) rules) rules) as (built' & Hb' & Heq).
  { clear Hwf Hw Hn. induction Hb as [|r rule rules built Hr _ IH]; [by exists []|].
    apply Forall_cons in Hsrc as [Hs1 Hs2]. destruct (IH Hs2) as (built' & Hb' & Heq).
    destruct (loaded_meaning rt version ltac:(unfold RuleSetVersion1; lia) hasNetworkManager r Hs1 rule Hr)
      as [[rule' Hr'] Hmd].
    exists (rule' :: built'). split; by constructor. }
  eexists _, _, built'. split_and!; [eapply (Read_Write version rules); try done; unfold is_uint, RuleSetVersionCurrent, RuleSetVersion5; lia| |exact Hb'|].
  - unfold Upgrade. cbn [Version Rules].
    destruct (Z.eqb_spec version RuleSetVersion1), (Z.eqb_spec version RuleSetVersion2),
      (Z.eqb_spec version RuleSetVersion3), (Z.eqb_spec version RuleSetVersion4), (Z.eqb_spec version RuleSetVersion5);
      cbn [orb]; try done; unfold RuleSetVersion1, RuleSetVersion2, RuleSetVersion3, RuleSetVersion4, RuleSetVersion5 in *; lia.
  - rewrite (RuleSet_Match_spec rt hasNetworkManager _ _ md Hb'), (RuleSet_Match_spec rt hasNetworkManager _ _ md Hb) by done.
    by apply Forall2_existsb.
Qed.

(** C40: [Read] terminates on every input: the bound on its loops and on the nesting
    of rules is never reached. *)
Theorem srs_read_terminates `{UW : UvarintWriter} `{SL : SrsLaws} (recover : bool) (input : list byte) (e : go_error) :
  Read recover input = Err e -> fuelled e = false.
Proof.
  intros H. unfold Read in H. bind_case H; [|by simplify_eq; eapply (bounded_ReadFull (S (length input))); [|exact E]; lia|done].
  destruct value as [magic i1]. destruct (negb _); [by simplify_eq|].
  bind_case H; [|by simplify_eq; eapply (bounded_ReadUint8 (S (length i1))); [|exact E0]; lia|done].
  destruct value as [v i2]. destruct (_ <? v); [by simplify_eq|].
  bind_case H; [|by simplify_eq; eapply zlib_errors|done]. bind_case H; [by destruct value0|by simplify_eq; eapply readRules_errors|done].
Qed.

(** The writer accepts a default rule exactly when the requested format
    version can represent all its items and its address lists parse. *)
Theorem srs_version_gate `{UW : UvarintWriter} `{SL : SrsLaws} (o : Opt.DefaultHeadlessRule) (version : Z) :
  RuleSetVersion1 <= version ->
  is_ok (writeDefaultRule o version) =
  (required_version o <=? version) && cidr_ok (Opt.SourceIPCIDR o) && cidr_ok (Opt.IPCIDR o).
Proof. apply is_ok_writeDefaultRule. Qed.

(** A few bytes crash the reader: a file whose rule count does not fit the
    address space makes [Read] panic instead of returning an error. *)
Theorem srs_read_panics_on_count `{UW : UvarintWriter} `{SL : SrsLaws} (recover : bool) (version count : Z) :
  is_uint 8 version -> version <= RuleSetVersionCurrent -> is_uint 64 count -> maxAlloc < sizeof_HeadlessRule * count ->
  is_panic (Read recover (MagicBytes ++ [byte_of_Z version] ++ zlib_Compress (WriteUvarint count))) = true.
Proof.
  intros Hu Hv Hc Hm. unfold Read. rewrite (decodes_ReadFull_n 3 MagicBytes) by done. cbn [bind_result].
  rewrite bool_decide_eq_true_2 by done. cbn [negb]. rewrite (decodes_ReadUint8 version Hu). cbn [bind_result].
  rewrite (proj2 (Z.ltb_ge _ _)) by done. rewrite zlib_roundtrip. cbn [bind_result]. unfold readRules, rbind at 1.
  pose proof (WriteUvarint_decodes count Hc []) as Hd. rewrite app_nil_r in Hd. rewrite Hd.
  unfold rbind, rlift, make_slice. by rewrite (proj2 (Z.ltb_lt _ _) Hm).
Qed.

(** ** Instances

    A codec for the matchers of [demoEnv]: [01 b] is a byte, [02] ends a
    string, [00] ends the list; the zlib codec is the identity. *)
Fixpoint demo_decode (i : list byte) : result (list (list byte) * list byte) :=
  match i with
  | x00 :: i' => Ok ([], i')
  | x02 :: i' => let* (l, o) := demo_decode i' in Ok ([] :: l, o)
  | x01 :: b :: i' =>
      let* (l, o) := demo_decode i' in
      match l with s :: l' => Ok ((b :: s) :: l', o) | [] => Err ErrInvalid end
  | _ => Err EOF
  end.

Definition demo_encode (l : list (list byte)) : list byte :=
  concat (map (fun s => concat (map (fun b => [x01; b]) s) ++ [x02]) l) ++ [x00].

Lemma demo_decodes l : decodes demo_decode (demo_encode l) l.
Proof.
  intros rest. unfold demo_encode. rewrite <- app_assoc. induction l as [|s l IH]; [done|].
  cbn [map concat]. rewrite <- !app_assoc. induction s as [|b s IHs].
  - cbn [map concat app demo_decode] in *. by rewrite IH.
  - cbn [map concat app demo_decode] in *. by rewrite IHs.
Qed.

Lemma demo_decode_spec n : forall i, (length i <= n)%nat ->
  match demo_decode i with
  | Ok (_, o) => exists w, i = w ++ o
  | Err e => fuelled e = false
  | Panic _ => True
  end.
Proof.
  induction n as [|n IH]; intros i Hi; [by destruct i; cbn in Hi; [|lia]|].
  destruct i as [|b i]; [done|]. cbn [length] in Hi.
  destruct b; cbn [demo_decode]; try done; [by exists [x00]| |].
  - destruct i as [|b i]; [done|]. cbn [length] in Hi. specialize (IH i ltac:(lia)).
    destruct (demo_decode i) as [[[|s l] o]| |]; cbn [bind_result]; [done| |done..].
    destruct IH as [w ->]. by exists (x01 :: b :: w).
  - specialize (IH i ltac:(lia)). destruct (demo_decode i) as [[l o]| |]; cbn [bind_result]; [|done..].
    destruct IH as [w ->]. by exists (x02 :: w).
Qed.

Lemma demo_shrinks : shrinks demo_decode.
Proof. intros i a o H. pose proof (demo_decode_spec _ i (le_n _)) as Hs. by rewrite H in Hs. Qed.

Lemma demo_errors : no_fuel_error demo_decode.
Proof. intros i e H. pose proof (demo_decode_spec _ i (le_n _)) as Hs. by rewrite H in Hs. Qed.

Definition demo_strings : Reader (list string) := let! l := demo_decode in rret (map string_of_bytes l).
Definition demo_write (l : list string) : list byte := demo_encode (map bytes_of_string l).

Lemma demo_strings_write l : decodes demo_strings (demo_write l) l.
Proof.
  unfold demo_strings, demo_write. eapply decodes_eq; [apply (decodes_map _ (map string_of_bytes)), demo_decodes|].
  rewrite map_map. rewrite <- (map_id l) at 2. apply map_ext, string_bytes.
Qed.

#[export] Instance demoSrs : SrsEnv := {|
  ReadMatcher := let! domains := demo_strings in let! suffixes := demo_strings in rret (domains, suffixes);
  Matcher_Write m := demo_write (fst m) ++ demo_write (snd m);
  Matcher_Dump m := m;
  ReadAdGuardMatcher := demo_strings;
  AdGuardMatcher_Write := demo_write;
  AdGuardMatcher_Dump m := m;
  IPSet_PrefixStrings set := map (fun _ => "10.0.0.1") set;
  zlib_NewReader i := Ok i;
  zlib_Compress i := i;
|}.

Lemma demo_strings_shrinks : shrinks demo_strings.
Proof. unfold demo_strings. apply shrinks_bind; [apply demo_shrinks|]. auto with go. Qed.

Lemma demo_strings_errors : no_fuel_error demo_strings.
Proof.
  intros i e H. unfold demo_strings, rbind in H. destruct (demo_decode i) as [[l o]| |] eqn:E; [done| |done].
  injection H as <-. by eapply demo_errors.
Qed.

(** The addresses the demo parser accepts. *)
Lemma demo_cidrs l : forall i added,
  parse_cidrs i l = Ok added -> Forall (fun e => e = inr (Addr4 167772161)) added /\ zlen added = zlen l.
Proof.
  induction l as [|s l IH]; intros i added H; cbn [parse_cidrs] in H; [by simplify_eq|].
  change (ParsePrefix s) with (@Err Prefix (ENew s)) in H. cbn match in H.
  change (ParseAddr s) with (if String.eqb s "10.0.0.1" then Ok (Addr4 167772161) else Err (ENew s)) in H.
  destruct (String.eqb s "10.0.0.1"); [|done]. bind_case H; [|done..]. injection H as <-.
  apply IH in E as [? ?]. rewrite !zlen_cons. split; [by constructor|lia].
Qed.

#[export] Instance demoSrsLaws : SrsLaws.
Proof.
  split.
  - intros [d s]. eapply decodes_bind; [apply demo_strings_write|].
    apply (decodes_map _ (fun x => (d, x))), demo_strings_write.
  - apply demo_strings_write.
  - done.
  - intros [|v|v z] H; [done| |]; cbn [Addr_AsSlice]; unfold AddrFromIP, demoEnv.
    + change (zlen (be_encode 4 v)) with 4. cbn match. by rewrite be_decode_encode.
    + destruct H as [H ->]. change (zlen (be_encode 16 v)) with 16. cbn match. by rewrite be_decode_encode.
  - intros l added set H1 H2. apply demo_cidrs in H1 as [Ha Hl]. cbn in H2. injection H2 as <-.
    rewrite <- Hl. split; [|unfold zlen; rewrite length_map; lia].
    apply Forall_fmap. eapply Forall_impl; [exact Ha|]. intros ? ->. done.
  - apply shrinks_bind; [apply demo_strings_shrinks|intros]. apply shrinks_bind; [apply demo_strings_shrinks|]. auto with go.
  - apply demo_strings_shrinks.
  - intros i e H. cbn [ReadMatcher demoSrs] in H. unfold rbind in H.
    destruct (demo_strings i) as [[d o]| |] eqn:E1; [|injection H as <-; by eapply demo_strings_errors|done].
    destruct (demo_strings o) as [[d' o']| |] eqn:E2; [done|injection H as <-; by eapply demo_strings_errors|done].
  - apply demo_strings_errors.
  - done.
Qed.

Lemma demo_wf_options suffix : wf_options (demoOptions suffix).
Proof.
  constructor; cbn [demoOptions Opt.QueryType Opt.Network Opt.DomainKeyword Opt.DomainRegex Opt.SourceIPCIDR Opt.IPCIDR
    Opt.SourcePort Opt.SourcePortRange Opt.Port Opt.PortRange Opt.ProcessName Opt.ProcessPath Opt.ProcessPathRegex
    Opt.NetworkType Opt.WIFISSID Opt.WIFIBSSID Opt.NetworkInterfaceAddress Opt.DefaultInterfaceAddress elems];
    unfold wf_strings, wf_uint16s, wf_uint8s, wf_entries, wf_prefixes, is_uint;
    split_and?; repeat apply Forall_cons_2; try apply Forall_nil_2; try apply NoDup_nil_2; try (split; lia);
    vm_compute; congruence.
Qed.

Lemma demo_wf : Forall wf_headless [demoLogical].
Proof.
  apply Forall_singleton, wf_headless_logical; [vm_compute; congruence|].
  repeat apply Forall_cons_2; try apply Forall_nil_2; apply wf_headless_default, demo_wf_options.
Qed.

Lemma demo_source : Forall source_rule [demoLogical].
Proof. repeat constructor. Qed.

Definition demoFile (version : Z) : list byte :=
  match Write [demoLogical] version with Ok file => file | _ => [] end.

Lemma demoFile_ok version : is_ok (Write [demoLogical] version) = true -> Write [demoLogical] version = Ok (demoFile version).
Proof. unfold demoFile. by destruct (Write [demoLogical] version). Qed.

Lemma srs_roundtrip_witness :
  Read false (demoFile 3) = Ok {| Version := 3; Rules := [loaded 3 demoLogical] |}.
Proof.
  apply (srs_roundtrip 3 [demoLogical]); [unfold is_uint; lia|vm_compute; congruence|vm_compute; congruence|apply demo_wf|].
  apply demoFile_ok. by_compute.
Defined.

Lemma compiled_rule_set_equivalent_witness :
  exists compat loadedRules built',
    Read false (demoFile 3) = Ok compat /\ Upgrade compat = Ok loadedRules /\
    Forall2 (fun r rule => NewHeadlessRule true r = Ok rule) loadedRules built' /\
    RuleSet_Match demoRuntime built' (demoConnection "a.com") =
    RuleSet_Match demoRuntime [demoBuilt demoLogical] (demoConnection "a.com").
Proof.
  apply (compiled_rule_set_equivalent demoRuntime true 3 [demoLogical]);
    [unfold RuleSetVersion2, RuleSetVersionCurrent, RuleSetVersion5; lia|vm_compute; congruence|apply demo_wf
    |apply demo_source|constructor; [apply demoBuilt_ok; by_compute|constructor]|apply demoFile_ok; by_compute
    |reflexivity..].
Defined.

Lemma srs_read_terminates_witness :
  Read true MagicBytes = Err EOF /\ fuelled EOF = false.
Proof.
  assert (Read true MagicBytes = Err EOF) as H by reflexivity.
  split; [exact H|]. exact (srs_read_terminates true MagicBytes EOF H).
Defined.

(** A [network_is_expensive] condition needs version 3. *)
Lemma srs_version_gate_witness :
  is_ok (writeDefaultRule (apply_item false INetworkIsExpensive (Opt.zero false)) 2) = false.
Proof. rewrite srs_version_gate; [by_compute|vm_compute; congruence]. Defined.

Lemma srs_read_panics_on_count_witness :
  is_panic (Read false (MagicBytes ++ [byte_of_Z 1] ++ zlib_Compress (WriteUvarint (2 ^ 40)))) = true.
Proof. apply srs_read_panics_on_count; unfold is_uint; vm_compute; (congruence || split; congruence). Defined.
