(* ===== verification/SavedBinary.v ===== *)
(** * Saved rule-sets (adapter/experimental.go, experimental/cachefile/cache.go)

    [SavedBinary] is what the cache file keeps of a downloaded rule-set: the
    content, the time of the update and the Etag.  [MarshalBinary] and
    [UnmarshalBinary] are its codec, [LoadRuleSet] and [SaveRuleSet] the
    accesses to the cache file.

    The database (bbolt) is code outside this repository.  The bucket of the
    rule-sets is a map from tag to bytes, the outcome of a write is an
    argument ([put]): None when the transaction was committed.  A panic
    inside a transaction is recovered by [CacheFile.view] and
    [CacheFile.batch], which then delete the database file ([resetDB]);
    [reopens] says whether opening the new one succeeds. *)
From Stdlib Require Import ZArith Lia Bool.
From S2P Require Import Prelude GoIO HeadlessRule Srs SrsTheorems.

(** [time.Time] as seconds since the epoch and nanoseconds. *)
Record Time := mkTime { time_Unix : Z; time_Nanosecond : Z }.

#[export] Instance Time_eq_dec : EqDecision Time.
Proof. solve_decision. Defined.

(** [time.Time{}]: January 1, year 1. *)
Definition zeroTime : Time := mkTime (-62135596800) 0.

Definition Time_IsZero (t : Time) : bool := bool_decide (t = zeroTime).

(** [time.Unix(t.Unix(), 0)] *)
Definition Time_Truncate (t : Time) : Time := mkTime (time_Unix t) 0.

Record SavedBinary := mkSavedBinary {
  Content : list byte;
  LastUpdated : Time;
  LastEtag : string;
}.

#[export] Instance SavedBinary_eq_dec : EqDecision SavedBinary.
Proof. solve_decision. Defined.

(** [binary.Read(reader, binary.BigEndian, &x)] for an int64. *)
Definition ReadInt64 : Reader Z := let! v := ReadUint64 in rret (int64 v).

(** What the code uses of [CacheFile]: whether the database is open, and the
    bucket of the rule-sets. *)
Record CacheFile := mkCacheFile {
  cf_open : bool;
  cf_ruleSets : gmap string (list byte);
}.

Section WithUvarint.
Context `{UW : UvarintWriter}.

Definition MarshalBinary (s : SavedBinary) : list byte :=
  [byte_of_Z 1] ++ writeBytes (Content s) ++ be_encode 8 (uint64 (time_Unix (LastUpdated s)))
  ++ writeBytes (bytes_of_string (LastEtag s)).

(** The version byte is read and ignored. *)
Definition readSaved : Reader SavedBinary :=
  let! _ := ReadUint8 in
  let! content := readBytes in
  let! lastUpdated := ReadInt64 in
  let! etagBytes := readBytes in
  rret (mkSavedBinary content (mkTime lastUpdated 0) (string_of_bytes etagBytes)).

Definition UnmarshalBinary (data : list byte) : result SavedBinary :=
  let* read := readSaved data in Ok (fst read).

(** [resetDB]: the database file is removed and opened anew. *)
Definition resetDB (reopens : bool) (c : CacheFile) : CacheFile := mkCacheFile reopens ∅.

Definition LoadRuleSet (reopens : bool) (tag : string) (c : CacheFile) : option SavedBinary * CacheFile :=
  if negb (cf_open c) then (None, c)
  else match cf_ruleSets c !! tag with
       | None | Some [] => (None, c)
       | Some setBinary =>
           match UnmarshalBinary setBinary with
           | Ok savedSet => (Some savedSet, c)
           | Err _ => (None, c)
           | Panic _ => (None, resetDB reopens c)
           end
       end.

Definition SaveRuleSet (put : option go_error) (tag : string) (set : SavedBinary) (c : CacheFile)
    : result unit * CacheFile :=
  if negb (cf_open c) then (Err ErrClosed, c)
  else match put with
       | Some e => (Err e, c)
       | None => (Ok tt, mkCacheFile (cf_open c) (<[tag := MarshalBinary set]> (cf_ruleSets c)))
       end.

(** ** The codec *)

(** What fits the format: lengths that can be allocated, a 64-bit time. *)
Definition wf_saved (s : SavedBinary) : Prop :=
  zlen (Content s) <= maxAlloc /\ zlen (bytes_of_string (LastEtag s)) <= maxAlloc
  /\ is_sint 64 (time_Unix (LastUpdated s)).

Lemma int64_uint64 v : is_sint 64 v -> int64 (uint64 v) = v.
Proof.
  unfold is_sint, int64, uint64, swrap, wrap. change (64 - 1) with 63. intros H.
  rewrite Z.add_mod_idemp_l by lia. rewrite Z.mod_small; lia.
Qed.

Lemma decodes_ReadInt64 v : is_sint 64 v -> decodes ReadInt64 (be_encode 8 (uint64 v)) v.
Proof.
  intros H. rewrite <- (int64_uint64 v H) at 2. apply (decodes_map _ int64), decodes_ReadUint64.
  apply wrap_range. lia.
Qed.

Lemma decodes_readSaved s : wf_saved s ->
  decodes readSaved (MarshalBinary s) (mkSavedBinary (Content s) (Time_Truncate (LastUpdated s)) (LastEtag s)).
Proof.
  intros (Hc & He & Ht). unfold readSaved, MarshalBinary.
  eapply decodes_bind; [apply decodes_ReadUint8; unfold is_uint; lia|].
  eapply decodes_bind; [by apply decodes_readBytes|].
  eapply decodes_bind; [by apply decodes_ReadInt64|].
  rewrite <- (string_of_bytes_of_string (LastEtag s)) at 2.
  apply (decodes_map _ (fun etagBytes => mkSavedBinary (Content s) (Time_Truncate (LastUpdated s)) (string_of_bytes etagBytes))).
  by apply decodes_readBytes.
Qed.

Lemma MarshalBinary_cons s : exists l, MarshalBinary s = x01 :: l.
Proof. eexists. reflexivity. Qed.

Lemma Load_Save reopens tag s c c' :
  wf_saved s -> SaveRuleSet None tag s c = (Ok tt, c') ->
  LoadRuleSet reopens tag c' = (Some (mkSavedBinary (Content s) (Time_Truncate (LastUpdated s)) (LastEtag s)), c').
Proof.
  intros Hs. unfold SaveRuleSet, LoadRuleSet. destruct (cf_open c) eqn:Ho; cbn [negb]; intros [= <-].
  cbn [cf_open cf_ruleSets]. rewrite lookup_insert_eq. cbn [negb].
  destruct (MarshalBinary_cons s) as [l El]. rewrite El. unfold UnmarshalBinary. rewrite <- El.
  pose proof (decodes_readSaved s Hs []) as Hd. rewrite app_nil_r in Hd. by rewrite Hd.
Qed.

End WithUvarint.

(** ** Theorems *)

(** A rule-set saved in the cache file is loaded back with its content and
    Etag, its update time truncated to the second; the entries of the other
    tags load as before. *)
Theorem saved_rule_set_roundtrip `{UW : UvarintWriter} (reopens : bool) (tag : string) (s : SavedBinary)
    (c c' : CacheFile) :
  wf_saved s -> SaveRuleSet None tag s c = (Ok tt, c') ->
  LoadRuleSet reopens tag c' = (Some (mkSavedBinary (Content s) (Time_Truncate (LastUpdated s)) (LastEtag s)), c') /\
  forall tag', tag' <> tag -> fst (LoadRuleSet reopens tag' c') = fst (LoadRuleSet reopens tag' c).
Proof.
  intros Hs H. split; [by apply (Load_Save reopens tag s c)|]. intros tag' Hne. revert H.
  unfold SaveRuleSet, LoadRuleSet. destruct (cf_open c) eqn:Ho; cbn [negb]; intros [= <-].
  cbn [cf_open cf_ruleSets]. rewrite lookup_insert_ne by done. cbn [negb].
  destruct (cf_ruleSets c !! tag') as [[|b l]|]; [done| |done]. by destruct (UnmarshalBinary (b :: l)).
Qed.

Lemma saved_rule_set_roundtrip_witness :
  let s := mkSavedBinary [x53; x52; x53] (mkTime 1700000000 5) "W/1" in
  let c := snd (SaveRuleSet None "geoip" s (mkCacheFile true ∅)) in
  fst (LoadRuleSet true "geoip" c) = Some (mkSavedBinary [x53; x52; x53] (mkTime 1700000000 0) "W/1").
Proof.
  intros s c. destruct (saved_rule_set_roundtrip true "geoip" s (mkCacheFile true ∅) c) as [H _].
  - repeat split; vm_compute; congruence.
  - reflexivity.
  - by rewrite H.
Defined.
