(* ===== verification/RuleSet.v ===== *)
(** * Rule-sets (route/rule/rule_set_local.go, rule_set_remote.go,
      rule_set.go, rule_item_rule_set.go)

    A rule-set holds the compiled rules of a file, of inline options or of a
    download, with the metadata computed from their options.  The fields the
    local and the remote rule-set have in common, and the operations the Go
    code repeats for both, are [RuleSetState]; [LocalRuleSet] and
    [RemoteRuleSet] add theirs.

    Callbacks are identified by numbers, in the order of [list.List]; an
    operation that runs callbacks returns those it called, in order.

    The second half is the remote rule-set as a system of concurrent steps:
    downloads ([fetch]) in progress, each at a program point, cleanups
    between their test and their effect, and a [Close] waiting for the
    downloads.  A step is what the code does while it holds [access], or an
    atomic operation; the building of the new rules reads nothing shared and
    is part of the step that stores them.

    Parameters: the JSON decoder, the validator of the DNS router, the HTTP
    exchange (a function of the If-None-Match header), the clock, and the
    outcome of the writes to the cache file.  [StartContext] runs before the
    rule-set is shared: it is modelled as a whole and is not a step. *)
From Stdlib Require Import ZArith Lia Bool.
From S2P Require Import Prelude GoIO Metadata RuleItem MatchState RuleEngine HeadlessRule Srs SavedBinary.

Record RuleSetOptions := mkRuleSetOptions { rso_Tag : string; rso_Format : string }.

Definition RuleSetFormatSource : string := "source".
Definition RuleSetFormatBinary : string := "binary".

(** What is read of [http.Response]. [rsp_BodyErr]: the error met after
    [rsp_Body], if any. *)
Record Response := mkResponse {
  rsp_StatusCode : Z;
  rsp_Status : string;
  rsp_ContentLength : Z;
  rsp_Body : list byte;
  rsp_BodyErr : option go_error;
  rsp_Etag : string;
}.

Definition StatusOK : Z := 200.
Definition StatusNotModified : Z := 304.

Definition remoteRuleSetMaxDownloadBytes : Z := 32 * 1024 * 1024.

(** The first [n] bytes, as [io.LimitReader] passes them on. *)
Fixpoint limit {A} (n : Z) (l : list A) : list A :=
  match l with
  | [] => []
  | x :: rest => if n <=? 0 then [] else x :: limit (n - 1) rest
  end.

Definition readLimitedRuleSetBody (response : Response) : result (list byte) :=
  if remoteRuleSetMaxDownloadBytes <? rsp_ContentLength response then
    Err (ENew ("rule-set download size exceeds limit: " +:+ pretty (rsp_ContentLength response) +:+ " > "
                 +:+ pretty remoteRuleSetMaxDownloadBytes))
  else
    let content := limit (remoteRuleSetMaxDownloadBytes + 1) (rsp_Body response) in
    let* _ := match rsp_BodyErr response with
              | Some e => if zlen content <? remoteRuleSetMaxDownloadBytes + 1 then Err e else Ok tt
              | None => Ok tt
              end in
    if remoteRuleSetMaxDownloadBytes <? zlen content then
      Err (ENew ("rule-set download size exceeds limit: " +:+ pretty remoteRuleSetMaxDownloadBytes))
    else Ok content.

Section WithEnv.
Context `{UW : UvarintWriter} `{GE : GoEnv} `{SE : !SrsEnv}.
Context (hasNetworkManager : bool).
Context (json_Unmarshal : list byte -> result PlainRuleSetCompat).
Context (validator : option (string -> RuleSetMetadata -> result unit)).

(** ** The common part *)

Record RuleSetState := mkRuleSetState {
  rs_rules : list Rule;
  rs_metadata : RuleSetMetadata;
  rs_callbacks : list nat;
  rs_refs : Z;
  rs_closed : bool;
}.

Definition noMetadata : RuleSetMetadata := mkRuleSetMetadata false false false false false.

Definition newState : RuleSetState := mkRuleSetState [] noMetadata [] 0 false.

Definition set_rules (rules : list Rule) (metadata : RuleSetMetadata) (s : RuleSetState) : RuleSetState :=
  mkRuleSetState rules metadata (rs_callbacks s) (rs_refs s) (rs_closed s).

Definition IncRef (s : RuleSetState) : RuleSetState :=
  mkRuleSetState (rs_rules s) (rs_metadata s) (rs_callbacks s) (int32 (rs_refs s + 1)) (rs_closed s).

Definition DecRef (s : RuleSetState) : RuleSetState * result unit :=
  let refs := int32 (rs_refs s - 1) in
  (mkRuleSetState (rs_rules s) (rs_metadata s) (rs_callbacks s) refs (rs_closed s),
   if refs <? 0 then Panic "rule-set: negative refs" else Ok tt).

(** The effect of [Cleanup] once it found no reference. *)
Definition dropRules (s : RuleSetState) : RuleSetState := set_rules [] (rs_metadata s) s.

Definition Cleanup (s : RuleSetState) : RuleSetState := if rs_refs s =? 0 then dropRules s else s.

Definition RegisterCallback (callback : nat) (s : RuleSetState) : RuleSetState :=
  mkRuleSetState (rs_rules s) (rs_metadata s) (rs_callbacks s ++ [callback]) (rs_refs s) (rs_closed s).

(** [callbacks.Remove(element)]: nothing happens when the element is not in the list. *)
Fixpoint remove_callback (element : nat) (callbacks : list nat) : list nat :=
  match callbacks with
  | [] => []
  | c :: rest => if Nat.eqb c element then rest else c :: remove_callback element rest
  end.

Definition UnregisterCallback (element : nat) (s : RuleSetState) : RuleSetState :=
  mkRuleSetState (rs_rules s) (rs_metadata s) (remove_callback element (rs_callbacks s)) (rs_refs s) (rs_closed s).

(** [s.access.Lock(); s.closed = true; s.rules = nil; s.access.Unlock()] *)
Definition closeState (s : RuleSetState) : RuleSetState :=
  mkRuleSetState [] (rs_metadata s) (rs_callbacks s) (rs_refs s) true.

Definition validateRuleSetMetadataUpdate (tag : string) (metadata : RuleSetMetadata) : result unit :=
  match validator with None => Ok tt | Some validate => validate tag metadata end.

(** The new rules and their metadata. *)
Definition buildRules (tag : string) (headlessRules : list Opt.HeadlessRule) : result (list Rule * RuleSetMetadata) :=
  let* rules := mapi_result (fun i => "parse rule_set.rules.[" +:+ pretty i +:+ "]")
                  (NewHeadlessRule hasNetworkManager) 0 headlessRules in
  let metadata := buildRuleSetMetadata headlessRules in
  let* _ := validateRuleSetMetadataUpdate tag metadata in
  Ok (rules, metadata).

(** The locked region that stores them, and the callbacks to run after it. *)
Definition commitRules (rules : list Rule) (metadata : RuleSetMetadata) (s : RuleSetState)
    : RuleSetState * result (list nat) :=
  if rs_closed s then (s, Err ErrClosed) else (set_rules rules metadata s, Ok (rs_callbacks s)).

(** The outcome carries the callbacks called. *)
Definition reloadRules (tag : string) (headlessRules : list Opt.HeadlessRule) (s : RuleSetState)
    : RuleSetState * result (list nat) :=
  match buildRules tag headlessRules with
  | Ok (rules, metadata) => commitRules rules metadata s
  | Err e => (s, Err e)
  | Panic m => (s, Panic m)
  end.

Definition decode (isSource isBinary : bool) (format : string) (content : result (list byte))
    : result (list Opt.HeadlessRule) :=
  let* ruleSet :=
    if isSource then let* content := content in json_Unmarshal content
    else if isBinary then let* content := content in Read false content
    else Err (ENew ("unknown rule-set format: " +:+ format)) in
  Upgrade ruleSet.

Definition reload (tag : string) (decoded : result (list Opt.HeadlessRule)) (s : RuleSetState)
    : RuleSetState * result (list nat) :=
  match decoded with
  | Ok headlessRules => reloadRules tag headlessRules s
  | Err e => (s, Err e)
  | Panic m => (s, Panic m)
  end.

(** [ExtractIPSet] *)
Definition ExtractIPSet (s : RuleSetState) : list IPSet := concat (map extractIPSetFromRule (rs_rules s)).

(** ** [LocalRuleSet] *)

Record LocalRuleSet := mkLocalRuleSet {
  lrs_tag : string;
  lrs_fileFormat : string;
  lrs_watched : bool;
  lrs_state : RuleSetState;
}.

(** [content]: the file, or the error met reading it. *)
Definition reloadFile (content : result (list byte)) (s : LocalRuleSet) : LocalRuleSet * result (list nat) :=
  let format := lrs_fileFormat s in
  let '(state, r) :=
    reload (lrs_tag s)
      (decode (String.eqb format RuleSetFormatSource || String.eqb format "") (String.eqb format RuleSetFormatBinary)
         format content) (lrs_state s) in
  (mkLocalRuleSet (lrs_tag s) format (lrs_watched s) state, r).

(** Where the rules of a local rule-set come from: the inline options, or a
    file, with the outcome of creating its watcher. *)
Inductive LocalSource :=
| InlineRules (rules : list Opt.HeadlessRule)
| RuleFile (content : result (list byte)) (watcher : result unit).

Definition NewLocalRuleSet (options : RuleSetOptions) (source : LocalSource) : result LocalRuleSet :=
  let ruleSet := mkLocalRuleSet (rso_Tag options) (rso_Format options) false newState in
  match source with
  | InlineRules [] => Err (ENew "empty inline rule-set")
  | InlineRules rules =>
      let '(state, r) := reloadRules (rso_Tag options) rules (lrs_state ruleSet) in
      let* _ := r in
      Ok (mkLocalRuleSet (rso_Tag options) (rso_Format options) false state)
  | RuleFile content watcher =>
      let '(ruleSet, r) := reloadFile content ruleSet in
      let* _ := r in
      let* _ := watcher in
      Ok (mkLocalRuleSet (lrs_tag ruleSet) (lrs_fileFormat ruleSet) true (lrs_state ruleSet))
  end.

(** [watcher]: the outcome of closing the watcher. *)
Definition Local_Close (watcher : result unit) (s : LocalRuleSet) : LocalRuleSet * result unit :=
  (mkLocalRuleSet (lrs_tag s) (lrs_fileFormat s) (lrs_watched s) (closeState (lrs_state s)),
   if lrs_watched s then watcher else Ok tt).

(** ** [RemoteRuleSet] *)

Record RemoteRuleSet := mkRemoteRuleSet {
  rrs_options : RuleSetOptions;
  rrs_state : RuleSetState;
  rrs_lastUpdated : Time;
  rrs_lastEtag : string;
  rrs_fetchWG : Z;
}.

Definition NewRemoteRuleSet (options : RuleSetOptions) : RemoteRuleSet :=
  mkRemoteRuleSet options newState zeroTime "" 0.

Definition set_state (state : RuleSetState) (s : RemoteRuleSet) : RemoteRuleSet :=
  mkRemoteRuleSet (rrs_options s) state (rrs_lastUpdated s) (rrs_lastEtag s) (rrs_fetchWG s).

Definition set_updated (lastUpdated : Time) (lastEtag : string) (s : RemoteRuleSet) : RemoteRuleSet :=
  mkRemoteRuleSet (rrs_options s) (rrs_state s) lastUpdated lastEtag (rrs_fetchWG s).

Definition add_fetch (n : Z) (s : RemoteRuleSet) : RemoteRuleSet :=
  mkRemoteRuleSet (rrs_options s) (rrs_state s) (rrs_lastUpdated s) (rrs_lastEtag s) (rrs_fetchWG s + n).

Definition loadBytes (content : list byte) (s : RemoteRuleSet) : RemoteRuleSet * result (list nat) :=
  let format := rso_Format (rrs_options s) in
  let '(state, r) :=
    reload (rso_Tag (rrs_options s))
      (decode (String.eqb format RuleSetFormatSource) (String.eqb format RuleSetFormatBinary) format (Ok content))
      (rrs_state s) in
  (set_state state s, r).

Definition beginFetch (s : RemoteRuleSet) : RemoteRuleSet * bool :=
  if rs_closed (rrs_state s) then (s, false) else (add_fetch 1 s, true).

(** The locked region of the 304 branch. *)
Definition commitNotModified (now : Time) (s : RemoteRuleSet) : RemoteRuleSet * result unit :=
  if rs_closed (rrs_state s) then (s, Err ErrClosed) else (set_updated now (rrs_lastEtag s) s, Ok tt).

(** The accesses of the 304 branch to the cache file. *)
Definition touchCache (reopens : bool) (put : option go_error) (tag : string) (now : Time)
    (cacheFile : option CacheFile) : option CacheFile :=
  match cacheFile with
  | None => None
  | Some c =>
      let '(saved, c) := LoadRuleSet reopens tag c in
      match saved with
      | None => Some c
      | Some saved => Some (snd (SaveRuleSet put tag (mkSavedBinary (Content saved) now (LastEtag saved)) c))
      end
  end.

(** The locked region after a download was loaded; returns the Etag to save. *)
Definition commitUpdate (now : Time) (eTagHeader : string) (s : RemoteRuleSet) : RemoteRuleSet * result string :=
  if rs_closed (rrs_state s) then (s, Err ErrClosed)
  else
    let lastEtag := if String.eqb eTagHeader "" then rrs_lastEtag s else eTagHeader in
    (set_updated now lastEtag s, Ok lastEtag).

Definition saveCache (put : option go_error) (tag : string) (saved : SavedBinary) (cacheFile : option CacheFile)
    : option CacheFile :=
  match cacheFile with
  | None => None
  | Some c => Some (snd (SaveRuleSet put tag saved c))
  end.

(** The body of [fetch] between [beginFetch] and the deferred [fetchWG.Done()].
    [http] is the HTTP exchange, given the If-None-Match header. *)
Definition fetchBody (now : Time) (http : string -> result Response) (reopens : bool) (put : option go_error)
    (s : RemoteRuleSet) (cacheFile : option CacheFile) : RemoteRuleSet * option CacheFile * result (list nat) :=
  let tag := rso_Tag (rrs_options s) in
  match http (rrs_lastEtag s) with
  | Err e => (s, cacheFile, Err e)
  | Panic m => (s, cacheFile, Panic m)
  | Ok response =>
      if rsp_StatusCode response =? StatusOK then
        match readLimitedRuleSetBody response with
        | Err e => (s, cacheFile, Err e)
        | Panic m => (s, cacheFile, Panic m)
        | Ok content =>
            match loadBytes content s with
            | (s, Err e) => (s, cacheFile, Err e)
            | (s, Panic m) => (s, cacheFile, Panic m)
            | (s, Ok called) =>
                match commitUpdate now (rsp_Etag response) s with
                | (s, Ok lastEtag) =>
                    (s, saveCache put tag (mkSavedBinary content now lastEtag) cacheFile, Ok called)
                | (s, Err e) => (s, cacheFile, Err e)
                | (s, Panic m) => (s, cacheFile, Panic m)
                end
            end
        end
      else if rsp_StatusCode response =? StatusNotModified then
        match commitNotModified now s with
        | (s, Ok _) => (s, touchCache reopens put tag now cacheFile, Ok [])
        | (s, Err e) => (s, cacheFile, Err e)
        | (s, Panic m) => (s, cacheFile, Panic m)
        end
      else (s, cacheFile, Err (ENew ("unexpected status: " +:+ rsp_Status response)))
  end.

Definition fetch (now : Time) (http : string -> result Response) (reopens : bool) (put : option go_error)
    (s : RemoteRuleSet) (cacheFile : option CacheFile) : RemoteRuleSet * option CacheFile * result (list nat) :=
  let '(s, begun) := beginFetch s in
  if negb begun then (s, cacheFile, Err ErrClosed)
  else
    let '(s, cacheFile, r) := fetchBody now http reopens put s cacheFile in
    (add_fetch (-1) s, cacheFile, r).

(** Errors are logged. *)
Definition updateOnce (now : Time) (http : string -> result Response) (reopens : bool) (put : option go_error)
    (s : RemoteRuleSet) (cacheFile : option CacheFile) : RemoteRuleSet * option CacheFile :=
  let '(s, cacheFile, r) := fetch now http reopens put s cacheFile in
  if is_ok r then (set_state (Cleanup (rrs_state s)) s, cacheFile) else (s, cacheFile).

(** The restoration of a saved rule-set; the flag says that it succeeded. *)
Definition restore (saved : option SavedBinary) (s : RemoteRuleSet) : result RemoteRuleSet :=
  match saved with
  | None => Ok s
  | Some saved =>
      match loadBytes (Content saved) s with
      | (s, Ok _) => Ok (set_updated (LastUpdated saved) (LastEtag saved) s)
      | (s, Err _) => Ok s
      | (s, Panic m) => Panic m
      end
  end.

(** [StartContext] after the HTTP transport is resolved ([transport]). *)
Definition StartContext (transport : result unit) (now : Time) (http : string -> result Response)
    (reopens : bool) (put : option go_error) (s : RemoteRuleSet) (cacheFile : option CacheFile)
    : RemoteRuleSet * option CacheFile * result unit :=
  match with_cause "create rule-set http client" transport with
  | Err e => (s, cacheFile, Err e)
  | Panic m => (s, cacheFile, Panic m)
  | Ok _ =>
      let '(saved, cacheFile) :=
        match cacheFile with
        | None => (None, None)
        | Some c => let '(saved, c) := LoadRuleSet reopens (rso_Tag (rrs_options s)) c in (saved, Some c)
        end in
      match restore saved s with
      | Panic m => (s, cacheFile, Panic m)
      | Err e => (s, cacheFile, Err e)
      | Ok s =>
          if Time_IsZero (rrs_lastUpdated s) then
            let '(s, cacheFile, r) := fetch now http reopens put s cacheFile in
            (s, cacheFile, let* _ := with_cause ("initial rule-set: " +:+ rso_Tag (rrs_options s)) r in Ok tt)
          else (s, cacheFile, Ok tt)
      end
  end.

(** The locked region of [Close]; the flag says that the caller goes on to
    cancel the context and to wait for the downloads. *)
Definition beginClose (s : RemoteRuleSet) : RemoteRuleSet * bool :=
  if rs_closed (rrs_state s) then (s, false) else (set_state (closeState (rrs_state s)) s, true).

(** ** The remote rule-set under concurrency *)

(** Where a download is. *)
Inductive fetch_pc :=
| F_Requested                                      (* the request is in flight *)
| F_NotModified (now : Time)                       (* 304: about to touch the cache file *)
| F_Loading (content : list byte) (eTagHeader : string)  (* 200: about to store the rules *)
| F_Loaded (content : list byte) (eTagHeader : string)   (* rules stored, callbacks called *)
| F_Saving (saved : SavedBinary)                   (* about to write the cache file *)
| F_Returning.                                     (* about to run fetchWG.Done() *)

(** Where the first call of [Close] is. *)
Inductive close_pc := C_None | C_Waiting | C_Returned.

Record System := mkSystem {
  sys_set : RemoteRuleSet;
  sys_cache : option CacheFile;
  sys_fetches : list fetch_pc;
  sys_cleanups : nat;              (* cleanups between their test and their effect *)
  sys_close : close_pc;
}.

Definition with_state (f : RuleSetState -> RuleSetState) (y : System) : System :=
  mkSystem (set_state (f (rrs_state (sys_set y))) (sys_set y)) (sys_cache y) (sys_fetches y) (sys_cleanups y) (sys_close y).

(** What a download does with the response, up to the next locked region. *)
Definition respond (now : Time) (response : result Response) (s : RemoteRuleSet) : option (RemoteRuleSet * fetch_pc) :=
  match response with
  | Err _ => Some (s, F_Returning)
  | Panic _ => None
  | Ok response =>
      if rsp_StatusCode response =? StatusOK then
        match readLimitedRuleSetBody response with
        | Ok content => Some (s, F_Loading content (rsp_Etag response))
        | Err _ => Some (s, F_Returning)
        | Panic _ => None
        end
      else if rsp_StatusCode response =? StatusNotModified then
        let '(s, r) := commitNotModified now s in
        Some (s, if is_ok r then F_NotModified now else F_Returning)
      else Some (s, F_Returning)
  end.

(** One step of a download at [pc]; None where the program panics, or where
    the download is over. *)
Definition fetch_step (now : Time) (response : result Response) (reopens : bool) (put : option go_error)
    (pc : fetch_pc) (s : RemoteRuleSet) (cacheFile : option CacheFile)
    : option (RemoteRuleSet * option CacheFile * fetch_pc) :=
  let tag := rso_Tag (rrs_options s) in
  match pc with
  | F_Requested =>
      match respond now response s with
      | Some (s, pc) => Some (s, cacheFile, pc)
      | None => None
      end
  | F_NotModified now => Some (s, touchCache reopens put tag now cacheFile, F_Returning)
  | F_Loading content eTagHeader =>
      match loadBytes content s with
      | (s, Ok _) => Some (s, cacheFile, F_Loaded content eTagHeader)
      | (s, Err _) => Some (s, cacheFile, F_Returning)
      | (_, Panic _) => None
      end
  | F_Loaded content eTagHeader =>
      match commitUpdate now eTagHeader s with
      | (s, Ok lastEtag) => Some (s, cacheFile, F_Saving (mkSavedBinary content now lastEtag))
      | (s, _) => Some (s, cacheFile, F_Returning)
      end
  | F_Saving saved => Some (s, saveCache put tag saved cacheFile, F_Returning)
  | F_Returning => None
  end.

Inductive step : System -> System -> Prop :=
| step_begin s s' cache fetches cleanups close :
    beginFetch s = (s', true) ->
    step (mkSystem s cache fetches cleanups close) (mkSystem s' cache (F_Requested :: fetches) cleanups close)
| step_fetch now response reopens put s s' cache cache' before pc pc' after cleanups close :
    fetch_step now response reopens put pc s cache = Some (s', cache', pc') ->
    step (mkSystem s cache (before ++ pc :: after) cleanups close)
         (mkSystem s' cache' (before ++ pc' :: after) cleanups close)
| step_done s cache before after cleanups close :
    step (mkSystem s cache (before ++ F_Returning :: after) cleanups close)
         (mkSystem (add_fetch (-1) s) cache (before ++ after) cleanups close)
| step_incRef y : step y (with_state IncRef y)
| step_decRef y :
    is_panic (snd (DecRef (rrs_state (sys_set y)))) = false ->
    step y (with_state (fun s => fst (DecRef s)) y)
| step_cleanupTest s cache fetches cleanups close :
    rs_refs (rrs_state s) = 0 ->
    step (mkSystem s cache fetches cleanups close) (mkSystem s cache fetches (S cleanups) close)
| step_cleanupDrop s cache fetches cleanups close :
    step (mkSystem s cache fetches (S cleanups) close)
         (mkSystem (set_state (dropRules (rrs_state s)) s) cache fetches cleanups close)
| step_register callback y : step y (with_state (RegisterCallback callback) y)
| step_unregister callback y : step y (with_state (UnregisterCallback callback) y)
| step_close s s' cache fetches cleanups :
    beginClose s = (s', true) ->
    step (mkSystem s cache fetches cleanups C_None) (mkSystem s' cache fetches cleanups C_Waiting)
| step_closeReturn s cache fetches cleanups :
    rrs_fetchWG s = 0 ->
    step (mkSystem s cache fetches cleanups C_Waiting) (mkSystem s cache fetches cleanups C_Returned).

(** A rule-set that was started and is not in use yet. *)
Definition started (s : RemoteRuleSet) (cacheFile : option CacheFile) : System :=
  mkSystem s cacheFile [] 0 C_None.

End WithEnv.

(** ** [RuleSetItem] and the references it takes

    [refs] are the reference counts of the router's rule-sets by tag, and
    [held] the tags of [setList]. *)

Section Item.

Definition decRef (refs : gmap string Z) (tag : string) : result (gmap string Z) :=
  let n := int32 (default 0 (refs !! tag) - 1) in
  if n <? 0 then Panic "rule-set: negative refs" else Ok (<[tag := n]> refs).

Definition incRef (refs : gmap string Z) (tag : string) : gmap string Z :=
  <[tag := int32 (default 0 (refs !! tag) + 1)]> refs.

(** [RuleSetItem.Close]; the list of held tags is empty afterwards. *)
Fixpoint item_Close (held : list string) (refs : gmap string Z) : result (gmap string Z) :=
  match held with
  | [] => Ok refs
  | tag :: rest => let* refs := decRef refs tag in item_Close rest refs
  end.

(** The loop of [RuleSetItem.Start]: the error, if any, the tags held and the counts. *)
Fixpoint item_Start_loop (tagList held : list string) (refs : gmap string Z)
    : result (option go_error * list string * gmap string Z) :=
  match tagList with
  | [] => Ok (None, held, refs)
  | tag :: rest =>
      match refs !! tag with
      | None =>
          let* refs := item_Close held refs in
          Ok (Some (ENew ("rule-set not found: " +:+ tag)), [], refs)
      | Some _ => item_Start_loop rest (held ++ [tag]) (incRef refs tag)
      end
  end.

Definition item_Start (tagList held : list string) (refs : gmap string Z)
    : result (option go_error * list string * gmap string Z) :=
  let* refs := item_Close held refs in
  item_Start_loop tagList [] refs.

End Item.
