(* ===== verification/RuleSetTheorems.v ===== *)
(** * Theorems on rule-sets

    A reload is all or nothing; whatever the interleaving of downloads,
    cleanups, references and [Close], the metadata of a rule-set describes
    its rules, a closed rule-set is empty for good, and [Close] returns only
    when no download is left; a restart restores what the last download
    saved; the references of a [RuleSetItem] are balanced. *)
From Stdlib Require Import ZArith Lia Bool.
From stdpp Require Import relations.
From S2P Require Import Prelude GoIO Metadata RuleItem MatchState RuleEngine RuleTheorems HeadlessRule Srs.
From S2P Require Import SrsTheorems SavedBinary RuleSet DemoEnv.

Section WithEnv.
Context `{UW : UvarintWriter} `{GE : GoEnv} `{SE : !SrsEnv}.
Context (nm : bool) (json : list byte -> result PlainRuleSetCompat).
Context (validator : option (string -> RuleSetMetadata -> result unit)).

(** ** Reloading *)

(** The rules and the metadata are those of the same options. *)
Definition built_from (headlessRules : list Opt.HeadlessRule) (s : RuleSetState) : Prop :=
  Forall2 (fun r rule => NewHeadlessRule nm r = Ok rule) headlessRules (rs_rules s)
  /\ rs_metadata s = buildRuleSetMetadata headlessRules.

Lemma buildRules_ok tag hs rules metadata :
  buildRules nm validator tag hs = Ok (rules, metadata) ->
  Forall2 (fun r rule => NewHeadlessRule nm r = Ok rule) hs rules /\ metadata = buildRuleSetMetadata hs
  /\ validateRuleSetMetadataUpdate validator tag metadata = Ok tt.
Proof.
  unfold buildRules. intros H. bind_case H; [|done..]. apply mapi_result_Forall2 in E.
  destruct (validateRuleSetMetadataUpdate validator tag (buildRuleSetMetadata hs)) as [[]| |] eqn:Ev;
    cbn [bind_result] in H; [|done..]. injection H as <- <-. done.
Qed.

(** A reload stores new rules with their metadata, or changes nothing. *)
Lemma reload_cases tag decoded s s' r :
  reload nm validator tag decoded s = (s', r) ->
  (exists hs, decoded = Ok hs /\ built_from hs s' /\ rs_closed s = false /\ r = Ok (rs_callbacks s)
     /\ s' = set_rules (rs_rules s') (buildRuleSetMetadata hs) s
     /\ validateRuleSetMetadataUpdate validator tag (buildRuleSetMetadata hs) = Ok tt)
  \/ (s' = s /\ is_ok r = false).
Proof.
  unfold reload, reloadRules, commitRules. intros H.
  destruct decoded as [hs|e|m]; [|injection H as <- <-; by right..].
  destruct (buildRules nm validator tag hs) as [[rules metadata]|e|m] eqn:Eb; [|injection H as <- <-; by right..].
  destruct (rs_closed s) eqn:Ec; injection H as <- <-; [by right|].
  apply buildRules_ok in Eb as (Hf & -> & Hv). left. exists hs. by repeat split.
Qed.

Lemma loadBytes_cases content s s' r :
  loadBytes nm json validator content s = (s', r) ->
  (exists hs, built_from hs (rrs_state s') /\ rs_closed (rrs_state s) = false /\ r = Ok (rs_callbacks (rrs_state s))
     /\ s' = set_state (set_rules (rs_rules (rrs_state s')) (buildRuleSetMetadata hs) (rrs_state s)) s)
  \/ (s' = s /\ is_ok r = false).
Proof.
  unfold loadBytes. destruct (reload _ _ _ _ _) as [state r'] eqn:E. intros [= <- <-].
  apply reload_cases in E as [(hs & _ & Hb & Hc & -> & Hs & _)|[-> Hr]]; [left|right].
  - exists hs. cbn [rrs_state set_state]. rewrite <- Hs. done.
  - split; [|done]. by destruct s.
Qed.

(** ** The invariant of the concurrent rule-set *)

Definition consistent (s : RuleSetState) : Prop := rs_rules s = [] \/ exists hs, built_from hs s.

Record inv (y : System) : Prop := {
  inv_consistent : consistent (rrs_state (sys_set y));
  inv_wg : rrs_fetchWG (sys_set y) = zlen (sys_fetches y);
  inv_closed : rs_closed (rrs_state (sys_set y)) = true -> rs_rules (rrs_state (sys_set y)) = [];
  inv_close : sys_close y <> C_None <-> rs_closed (rrs_state (sys_set y)) = true;
  inv_returned : sys_close y = C_Returned -> sys_fetches y = [];
}.

(** What the operations other than storing rules keep. *)
Definition same_rules (s s' : RuleSetState) : Prop :=
  (rs_rules s' = rs_rules s \/ rs_rules s' = []) /\ rs_metadata s' = rs_metadata s /\ rs_closed s' = rs_closed s.

Lemma consistent_same s s' : same_rules s s' -> consistent s -> consistent s'.
Proof.
  intros ([Hr|Hr] & Hm & _) H; [|by left]. unfold consistent, built_from in *. by rewrite Hr, Hm.
Qed.

Lemma inv_with_state f y : same_rules (rrs_state (sys_set y)) (f (rrs_state (sys_set y))) -> inv y -> inv (with_state f y).
Proof.
  intros Hs [H1 H2 H3 H4 H5]. split; cbn; [by eapply consistent_same|done| | |done];
    destruct Hs as ([Hr|Hr] & _ & Hc); rewrite Hc; try rewrite Hr; auto.
Qed.

(** A step of a download stores rules while the set is open, or leaves them. *)
Lemma fetch_step_cases now response reopens put pc s cache s' cache' pc' :
  fetch_step nm json validator now response reopens put pc s cache = Some (s', cache', pc') ->
  rrs_fetchWG s' = rrs_fetchWG s /\ rs_closed (rrs_state s') = rs_closed (rrs_state s) /\
  (rrs_state s' = rrs_state s \/
   (rs_closed (rrs_state s) = false /\ exists hs, built_from hs (rrs_state s'))).
Proof.
  destruct pc; cbn [fetch_step]; try (intros [= <- <- <-]; by auto).
  - unfold respond, commitNotModified. destruct response as [rsp| |]; [|intros [= <- <- <-]; by auto|done].
    destruct (_ =? StatusOK).
    + destruct (readLimitedRuleSetBody rsp); [intros [= <- <- <-]; by auto..|done].
    + destruct (_ =? StatusNotModified); [|intros [= <- <- <-]; by auto].
      destruct (rs_closed (rrs_state s)) eqn:Ec; intros [= <- <- <-]; cbn; auto.
  - destruct (loadBytes _ _ _ _ _) as [s1 r] eqn:E.
    apply loadBytes_cases in E as [(hs & Hb & Hc & -> & Hs)|[-> Hr]].
    + intros [= <- <- <-]. rewrite Hs. cbn [rrs_fetchWG rrs_state set_state rs_closed set_rules].
      split_and!; [done..|]. right. split; [done|]. exists hs. by rewrite Hs in Hb.
    + destruct r; [done|intros [= <- <- <-]; by auto|done].
  - unfold commitUpdate. destruct (rs_closed (rrs_state s)) eqn:Ec; intros [= <- <- <-]; cbn; auto.
Qed.

Lemma inv_step y y' : step nm json validator y y' -> inv y -> inv y'.
Proof.
  destruct 1 as [s s' cache fetches cleanups close Hb|now response reopens put s s' cache cache' before pc pc' after cleanups close Hf
    |s cache before after cleanups close|y|y _|s cache fetches cleanups close Hr|s cache fetches cleanups close
    |callback y|callback y|s s' cache fetches cleanups Hb|s cache fetches cleanups Hw];
    try (apply inv_with_state; repeat split; auto; fail).
  - unfold beginFetch in Hb. destruct (rs_closed (rrs_state s)) eqn:Ec; [done|]. injection Hb as <-.
    intros [H1 H2 H3 H4 H5]. cbn in *. split; cbn; [done| |done|done|].
    + rewrite zlen_cons. lia.
    + intros ->. rewrite Ec in H4. destruct H4 as [H4 _]. discriminate H4. done.
  - apply fetch_step_cases in Hf as (Hw & Hc & Hs). intros [H1 H2 H3 H4 H5]. cbn in *.
    split; cbn; rewrite ?Hw, ?Hc.
    + destruct Hs as [->|(_ & hs & Hb)]; [done|]. right. by exists hs.
    + rewrite H2. by rewrite !zlen_app, !zlen_cons.
    + intros Ho. destruct Hs as [->|(Ho' & _)]; [auto|]. congruence.
    + done.
    + intros Hcl. specialize (H5 Hcl). by destruct before.
  - intros [H1 H2 H3 H4 H5]. cbn in *. split; cbn; [done| |done|done|].
    + rewrite H2, !zlen_app, zlen_cons. lia.
    + intros Hcl. specialize (H5 Hcl). by destruct before.
  - intros [H1 H2 H3 H4 H5]. by split.
  - intros [H1 H2 H3 H4 H5]. split; cbn; [by left|done..].
  - unfold beginClose in Hb. destruct (rs_closed (rrs_state s)) eqn:Ec; [done|]. injection Hb as <-.
    intros [H1 H2 H3 H4 H5]. split; cbn in *; [by left|done|done|done|done].
  - intros [H1 H2 H3 H4 H5]. split; cbn in *; [done..| |].
    + by destruct H4 as [H4 _]; split; intros ?; [apply H4|].
    + intros _. rewrite Hw in H2. destruct fetches; [done|]. rewrite zlen_cons in H2.
      pose proof (zlen_nonneg fetches). lia.
Qed.

Lemma inv_steps y y' : rtc (step nm json validator) y y' -> inv y -> inv y'.
Proof. induction 1; eauto using inv_step. Qed.

Lemma inv_started s cache :
  consistent (rrs_state s) -> rrs_fetchWG s = 0 -> rs_closed (rrs_state s) = false -> inv (started s cache).
Proof.
  intros Hc Hw Ho. split; cbn; [done|done| | |done].
  - congruence.
  - rewrite Ho. split; done.
Qed.

(** ** From the start of the rule-set *)

Lemma fetchBody_cases now http reopens put s cache s' cache' r :
  fetchBody nm json validator now http reopens put s cache = (s', cache', r) ->
  rrs_fetchWG s' = rrs_fetchWG s /\ rs_closed (rrs_state s') = rs_closed (rrs_state s) /\
  (consistent (rrs_state s) -> consistent (rrs_state s')).
Proof.
  unfold fetchBody, commitUpdate, commitNotModified.
  destruct (http _) as [rsp| |]; [|intros [= <- _ _]; by auto..].
  destruct (_ =? StatusOK).
  - destruct (readLimitedRuleSetBody rsp) as [content| |]; [|intros [= <- _ _]; by auto..].
    destruct (loadBytes _ _ _ _ _) as [s1 r1] eqn:E.
    apply loadBytes_cases in E as [(hs & Hb & Hc & -> & Hs)|[-> Hr]].
    + rewrite Hs. cbn [rrs_state set_state rs_closed set_rules]. rewrite Hc. intros [= <- _ _]. cbn.
      split_and!; [done..|]. intros _. right. exists hs. by rewrite Hs in Hb.
    + destruct r1; [done|intros [= <- _ _]; by auto..].
  - destruct (_ =? StatusNotModified); [|intros [= <- _ _]; by auto].
    destruct (rs_closed (rrs_state s)) eqn:Ec; intros [= <- _ _]; cbn; auto.
Qed.

Lemma fetch_cases now http reopens put s cache s' cache' r :
  fetch nm json validator now http reopens put s cache = (s', cache', r) ->
  rrs_fetchWG s' = rrs_fetchWG s /\ rs_closed (rrs_state s') = rs_closed (rrs_state s) /\
  (consistent (rrs_state s) -> consistent (rrs_state s')).
Proof.
  unfold fetch, beginFetch. destruct (rs_closed (rrs_state s)) eqn:Ec; cbn [negb]; [intros [= <- _ _]; by auto|].
  destruct (fetchBody _ _ _ _ _ _ _ _ _) as [[s1 cache1] r1] eqn:E. intros [= <- _ _].
  apply fetchBody_cases in E as (Hw & Hc & Hk). cbn in *. rewrite <- Ec. split_and!; [lia|done|done].
Qed.

Lemma restore_cases saved s s' :
  restore nm json validator saved s = Ok s' ->
  rrs_fetchWG s' = rrs_fetchWG s /\ rs_closed (rrs_state s') = rs_closed (rrs_state s) /\
  (consistent (rrs_state s) -> consistent (rrs_state s')).
Proof.
  unfold restore. destruct saved as [saved|]; [|intros [= <-]; by auto].
  destruct (loadBytes _ _ _ _ _) as [s1 r] eqn:E.
  apply loadBytes_cases in E as [(hs & Hb & Hc & -> & Hs)|[-> Hr]].
  - intros [= <-]. rewrite Hs. cbn. split_and!; [done..|]. intros _. right. exists hs. by rewrite Hs in Hb.
  - destruct r; [done|intros [= <-]; by auto|done].
Qed.

Lemma StartContext_cases transport now http reopens put s cache s' cache' r :
  StartContext nm json validator transport now http reopens put s cache = (s', cache', r) ->
  rrs_fetchWG s' = rrs_fetchWG s /\ rs_closed (rrs_state s') = rs_closed (rrs_state s) /\
  (consistent (rrs_state s) -> consistent (rrs_state s')).
Proof.
  unfold StartContext. destruct (with_cause _ _); [|intros [= <- _ _]; by auto..].
  destruct (match cache with None => _ | Some _ => _ end) as [saved cache1].
  destruct (restore _ _ _ _ _) as [s1| |] eqn:Er; [|intros [= <- _ _]; by auto..].
  apply restore_cases in Er as (Hw & Hc & Hk).
  destruct (Time_IsZero _); [|intros [= <- _ _]; by auto].
  destruct (fetch _ _ _ _ _ _ _ _ _) as [[s2 cache2] r2] eqn:Ef. apply fetch_cases in Ef as (Hw2 & Hc2 & Hk2).
  intros [= <- _ _]. rewrite Hw2, Hc2. auto.
Qed.

Lemma inv_StartContext transport now http reopens put options cache s cache' r :
  StartContext nm json validator transport now http reopens put (NewRemoteRuleSet options) cache = (s, cache', r) ->
  inv (started s cache').
Proof.
  intros H. apply StartContext_cases in H as (Hw & Hc & Hk). apply inv_started; [|done|done]. apply Hk. by left.
Qed.

(** A state the rule-set can be in: it was started, then any interleaving. *)
Definition reachable (options : RuleSetOptions) (y : System) : Prop :=
  exists transport now http reopens put cache s cache' r,
    StartContext nm json validator transport now http reopens put (NewRemoteRuleSet options) cache = (s, cache', r)
    /\ rtc (step nm json validator) (started s cache') y.

Lemma inv_reachable options y : reachable options y -> inv y.
Proof.
  intros (transport & now & http & reopens & put & cache & s & cache' & r & Hs & Hy).
  eapply inv_steps; [exact Hy|]. by eapply inv_StartContext.
Qed.

Lemma reachable_steps options y y' : reachable options y -> rtc (step nm json validator) y y' -> reachable options y'.
Proof.
  intros (transport & now & http & reopens & put & cache & s & cache' & r & Hs & Hy) H.
  exists transport, now, http, reopens, put, cache, s, cache', r. split; [done|]. by etransitivity.
Qed.

(** ** After [Close] *)

Lemma closed_step y y' : step nm json validator y y' -> rs_closed (rrs_state (sys_set y)) = true ->
  rs_closed (rrs_state (sys_set y')) = true.
Proof.
  destruct 1; cbn in *; try done.
  - unfold beginFetch in *. case_match; by simplify_eq.
  - intros Hc. apply fetch_step_cases in H as (_ & -> & _). done.
  - unfold beginClose in *. case_match; by simplify_eq.
Qed.

Lemma closed_steps y y' : rtc (step nm json validator) y y' -> rs_closed (rrs_state (sys_set y)) = true ->
  rs_closed (rrs_state (sys_set y')) = true.
Proof. induction 1; eauto using closed_step. Qed.

(** Once [Close] returned no step touches the cache file or the update time. *)
Lemma returned_step y y' : step nm json validator y y' -> inv y -> sys_close y = C_Returned ->
  sys_close y' = C_Returned /\ sys_cache y' = sys_cache y /\
  rrs_lastUpdated (sys_set y') = rrs_lastUpdated (sys_set y) /\ rrs_lastEtag (sys_set y') = rrs_lastEtag (sys_set y).
Proof.
  intros Hs [_ _ _ H4 H5] Hc. specialize (H5 Hc).
  assert (rs_closed (rrs_state (sys_set y)) = true) as Ho by (apply H4; congruence).
  destruct Hs; cbn in *; try done; try (by destruct before).
  unfold beginFetch in *. by rewrite Ho in *.
Qed.

Lemma returned_steps y y' : rtc (step nm json validator) y y' -> inv y -> sys_close y = C_Returned ->
  sys_close y' = C_Returned /\ sys_cache y' = sys_cache y /\
  rrs_lastUpdated (sys_set y') = rrs_lastUpdated (sys_set y) /\ rrs_lastEtag (sys_set y') = rrs_lastEtag (sys_set y).
Proof.
  induction 1 as [y|y1 y2 y3 H12 _ IH]; [done|]. intros Hi Hc.
  destruct (returned_step y1 y2 H12 Hi Hc) as (Hc2 & ? & ? & ?).
  destruct (IH (inv_step _ _ H12 Hi) Hc2) as (? & ? & ? & ?). repeat split; congruence.
Qed.

(** ** [Close] can return *)

(** The download does not hold a content on which decoding panics. *)
Definition no_panic (s : RemoteRuleSet) (pc : fetch_pc) : Prop :=
  match pc with
  | F_Loading content _ => is_panic (snd (loadBytes nm json validator content s)) = false
  | _ => True
  end.

Lemma no_panic_add_fetch n s pc : no_panic s pc -> no_panic (add_fetch n s) pc.
Proof. destruct pc; cbn; [done..| |done|done|done]. unfold loadBytes. cbn. by destruct (reload _ _ _ _ _). Qed.

(** A download of a closed rule-set runs to its end. *)
Lemma fetch_finishes s cache pc rest cleanups close :
  rs_closed (rrs_state s) = true -> no_panic s pc ->
  exists cache', rtc (step nm json validator) (mkSystem s cache (pc :: rest) cleanups close)
                     (mkSystem (add_fetch (-1) s) cache' rest cleanups close).
Proof.
  intros Hc Hp.
  assert (forall cache, rtc (step nm json validator) (mkSystem s cache (F_Returning :: rest) cleanups close)
                     (mkSystem (add_fetch (-1) s) cache rest cleanups close)) as Hd.
  { intros c. apply rtc_once, (step_done nm json validator s c [] rest). }
  assert (forall cache', fetch_step nm json validator zeroTime (Err EOF) true None pc s cache = Some (s, cache', F_Returning) ->
    exists cache', rtc (step nm json validator) (mkSystem s cache (pc :: rest) cleanups close)
                     (mkSystem (add_fetch (-1) s) cache' rest cleanups close)) as Hgo.
  { intros cache' H. exists cache'. eapply rtc_l; [|apply Hd].
    by apply (step_fetch nm json validator zeroTime (Err EOF) true None s s cache cache' [] pc F_Returning rest). }
  destruct pc as [|now|content tag|content tag|saved|]; cbn [fetch_step respond] in Hgo; [by eauto..| | |by eauto|by eauto].
  - apply (Hgo cache). cbn [no_panic] in Hp. destruct (loadBytes _ _ _ _ _) as [s1 r] eqn:E.
    apply loadBytes_cases in E as [(hs & _ & Ho & _)|[-> Hr]]; [congruence|]. by destruct r.
  - apply (Hgo cache). unfold commitUpdate. by rewrite Hc.
Qed.

Lemma fetches_finish fetches : forall s cache cleanups close,
  rs_closed (rrs_state s) = true -> Forall (no_panic s) fetches ->
  exists cache', rtc (step nm json validator) (mkSystem s cache fetches cleanups close)
                     (mkSystem (add_fetch (- zlen fetches) s) cache' [] cleanups close).
Proof.
  induction fetches as [|pc rest IH]; intros s cache cleanups close Hc Hp.
  - exists cache. replace (add_fetch (- zlen []) s) with s; [done|].
    unfold add_fetch. rewrite (@zlen_nil fetch_pc). destruct s. f_equal. cbn. lia.
  - apply Forall_cons in Hp as [Hp Hps]. destruct (fetch_finishes s cache pc rest cleanups close) as [c1 H1]; [done..|].
    destruct (IH (add_fetch (-1) s) c1 cleanups close) as [c2 H2]; [done| |].
    { eapply Forall_impl; [exact Hps|]. intros pc'. apply no_panic_add_fetch. }
    exists c2. etransitivity; [exact H1|]. replace (add_fetch (- zlen (pc :: rest)) s)
      with (add_fetch (- zlen rest) (add_fetch (-1) s)); [done|].
    unfold add_fetch. cbn. rewrite zlen_cons. f_equal. lia.
Qed.

End WithEnv.

(** ** Restarting *)

Section Restart.
Context `{UW : UvarintWriter} `{GE : GoEnv} `{SE : !SrsEnv}.
Context (nm : bool) (json : list byte -> result PlainRuleSetCompat).
Context (validator : option (string -> RuleSetMetadata -> result unit)).

(** Loading is a function of the content and the options. *)
Lemma loadBytes_again content s s' called s0 :
  loadBytes nm json validator content s = (s', Ok called) ->
  rrs_options s0 = rrs_options s -> rs_closed (rrs_state s0) = false ->
  loadBytes nm json validator content s0 =
    (set_state (set_rules (rs_rules (rrs_state s')) (rs_metadata (rrs_state s')) (rrs_state s0)) s0,
     Ok (rs_callbacks (rrs_state s0))).
Proof.
  unfold loadBytes, reload, reloadRules, commitRules. intros H -> Ho. rewrite Ho.
  destruct (decode _ _ _ _ _) as [hs| |]; [|by simplify_eq..].
  destruct (buildRules _ _ _ hs) as [[rules metadata]| |]; [|by simplify_eq..].
  destruct (rs_closed (rrs_state s)); [by simplify_eq|]. injection H as <- _. reflexivity.
Qed.

Lemma readLimitedRuleSetBody_size rsp content :
  readLimitedRuleSetBody rsp = Ok content -> zlen content <= remoteRuleSetMaxDownloadBytes.
Proof.
  unfold readLimitedRuleSetBody. destruct (_ <? rsp_ContentLength rsp); [done|]. intros H. bind_case H; [|done..].
  destruct (Z.ltb_spec remoteRuleSetMaxDownloadBytes (zlen (limit (remoteRuleSetMaxDownloadBytes + 1) (rsp_Body rsp))));
    [done|]. by injection H as <-.
Qed.

(** What a successful download leaves. *)
Lemma fetch_downloaded now http reopens put s cache s' cache' called rsp :
  fetch nm json validator now http reopens put s cache = (s', cache', Ok called) ->
  http (rrs_lastEtag s) = Ok rsp -> rsp_StatusCode rsp = StatusOK ->
  exists content s1, loadBytes nm json validator content s = (s1, Ok called)
    /\ zlen content <= remoteRuleSetMaxDownloadBytes /\ rrs_state s' = rrs_state s1
    /\ cache' = saveCache put (rso_Tag (rrs_options s)) (mkSavedBinary content now (rrs_lastEtag s')) cache.
Proof.
  unfold fetch, beginFetch. destruct (rs_closed (rrs_state s)) eqn:Ec; cbn [negb]; [done|].
  unfold fetchBody. change (rrs_lastEtag (add_fetch 1 s)) with (rrs_lastEtag s).
  intros H Hh Hk. rewrite Hh, Hk, Z.eqb_refl in H. revert H.
  destruct (readLimitedRuleSetBody rsp) as [content| |] eqn:Er; [|by intros [=]..].
  apply readLimitedRuleSetBody_size in Er.
  destruct (loadBytes _ _ _ _ _) as [s1 r1] eqn:El. destruct r1 as [called1| |]; [|by intros [=]..].
  pose proof (loadBytes_again _ _ _ _ s El eq_refl Ec) as El'.
  assert (called1 = rs_callbacks (rrs_state s) /\ rs_closed (rrs_state s1) = false) as [-> Hc1].
  { apply loadBytes_cases in El as [(hs & _ & Hc & Hr & ->)|[_ Hr]]; [|done]. injection Hr as ->. by cbn. }
  unfold commitUpdate. rewrite Hc1. intros [= <- <- <-]. eexists content, _. split_and!; [exact El'|done| |reflexivity].
  apply loadBytes_cases in El as [(hs & Hb & _ & _ & Hs)|[_ Hr]]; [|done].
  rewrite Hs. cbn. destruct Hb as [_ Hm]. by rewrite Hs in Hm.
Qed.
End Restart.

(** ** The references of a [RuleSetItem] *)

Definition count (tag : string) (tags : list string) : Z :=
  fold_right (fun t n => (if bool_decide (t = tag) then 1 else 0) + n) 0 tags.

Lemma count_cons tag t tags : count tag (t :: tags) = (if bool_decide (t = tag) then 1 else 0) + count tag tags.
Proof. reflexivity. Qed.

Lemma count_nonneg tag tags : 0 <= count tag tags.
Proof. induction tags as [|t tags IH]; [done|]. rewrite count_cons. case_bool_decide; lia. Qed.

Lemma count_app tag l1 l2 : count tag (l1 ++ l2) = count tag l1 + count tag l2.
Proof. induction l1 as [|t l1 IH]; [done|]. cbn [app]. rewrite !count_cons, IH. lia. Qed.

Lemma count_le_length tag tags : count tag tags <= zlen tags.
Proof. induction tags as [|t tags IH]; [done|]. rewrite zlen_cons, count_cons. case_bool_decide; lia. Qed.

(** The counts with [n tag] added to those of the existing rule-sets. *)
Definition shifted (n : string -> Z) (refs refs' : gmap string Z) : Prop :=
  forall tag, refs' !! tag = option_map (fun r => r + n tag) (refs !! tag).

Lemma int32_small z : - 2 ^ 31 <= z < 2 ^ 31 -> int32 z = z.
Proof. intros H. apply swrap_small; [lia|]. exact H. Qed.

(** Releasing the held tags takes back what was added for them. *)
Lemma item_Close_shifted held : forall refs refs',
  map_Forall (fun _ n => 0 <= n < 2 ^ 31 - zlen held) refs ->
  (forall tag, tag ∈ held -> is_Some (refs !! tag)) ->
  shifted (fun tag => count tag held) refs refs' -> item_Close held refs' = Ok refs.
Proof.
  induction held as [|t held IH]; intros refs refs' Hb Hin Hs.
  - cbn. f_equal. apply map_eq. intros tag. rewrite Hs. destruct (refs !! tag); [|done]. cbn. f_equal. lia.
  - cbn [item_Close]. destruct (Hin t ltac:(set_solver)) as [n Hn].
    assert (0 <= n < 2 ^ 31 - zlen (t :: held)) as Hr by exact (Hb t n Hn). rewrite zlen_cons in Hb, Hr.
    pose proof (count_nonneg t held). pose proof (count_le_length t held).
    assert (refs' !! t = Some (n + (1 + count t held))) as Ht.
    { rewrite Hs, Hn, count_cons, bool_decide_true by done. done. }
    unfold decRef. rewrite Ht. cbn [from_option]; unfold id; rewrite int32_small by lia.
    destruct (Z.ltb_spec (n + (1 + count t held) - 1) 0); [lia|]. cbn [bind_result].
    apply IH; [| |].
    + eapply map_Forall_impl; [exact Hb|]. cbn beta. intros. lia.
    + intros tag Hi. apply Hin. set_solver.
    + intros tag. destruct (decide (tag = t)) as [->|].
      * rewrite lookup_insert_eq, Hn. cbn. f_equal. lia.
      * rewrite lookup_insert_ne, Hs by done. destruct (refs !! tag); [|done]. cbn [option_map]. f_equal.
        rewrite count_cons, bool_decide_false by done. lia.
Qed.

(** The loop adds a reference per tag, or gives everything back. *)
Lemma item_Start_loop_spec tagList : forall held refs refs',
  map_Forall (fun _ n => 0 <= n < 2 ^ 31 - zlen (held ++ tagList)) refs ->
  (forall tag, tag ∈ held -> is_Some (refs !! tag)) ->
  shifted (fun tag => count tag held) refs refs' ->
  (exists refs'', item_Start_loop tagList held refs' = Ok (None, held ++ tagList, refs'')
     /\ (forall tag, tag ∈ tagList -> is_Some (refs !! tag)) /\ shifted (fun tag => count tag (held ++ tagList)) refs refs'')
  \/ (exists tag, tag ∈ tagList /\ refs !! tag = None
     /\ item_Start_loop tagList held refs' = Ok (Some (ENew ("rule-set not found: " +:+ tag)), [], refs)).
Proof.
  induction tagList as [|t tagList IH]; intros held refs refs' Hb Hin Hs; cbn [item_Start_loop].
  - left. exists refs'. rewrite app_nil_r. split_and!; [done|set_solver|done].
  - pose proof (Hs t) as Ht. destruct (refs !! t) as [n|] eqn:Hn; cbn in Ht; rewrite Ht.
    + assert (0 <= n < 2 ^ 31 - zlen (held ++ t :: tagList)) as Hr by exact (Hb t n Hn).
      rewrite zlen_app, zlen_cons in Hr. pose proof (count_nonneg t held). pose proof (count_le_length t held).
      pose proof (zlen_nonneg tagList).
      destruct (IH (held ++ [t]) refs (incRef refs' t)) as [(refs'' & Hl & Hin' & Hs')|(tag & Ht1 & Ht2 & Ht3)].
      * by rewrite <- app_assoc.
      * intros tag [? | ->%list_elem_of_singleton]%elem_of_app; [auto|]. by rewrite Hn.
      * intros tag. unfold incRef. rewrite Ht. cbn [from_option]; unfold id; rewrite int32_small by lia. rewrite count_app, count_cons.
        destruct (decide (tag = t)) as [->|].
        -- rewrite lookup_insert_eq, Hn, bool_decide_true by done. cbn. f_equal. lia.
        -- rewrite lookup_insert_ne, Hs, bool_decide_false by done. cbn [count fold_right]. by rewrite !Z.add_0_r.
      * left. exists refs''. rewrite <- app_assoc in Hl, Hs'. split_and!; [done| |done].
        intros tag [-> | ?]%elem_of_cons; [by rewrite Hn|auto].
      * right. exists tag. split_and!; [set_solver|done..].
    + right. exists t. split_and!; [set_solver|done|]. rewrite (item_Close_shifted held refs refs'); [done| |done|done].
      rewrite zlen_app in Hb. pose proof (zlen_nonneg (t :: tagList)).
      eapply map_Forall_impl; [exact Hb|]. cbn beta. intros. lia.
Qed.

(** ** Theorems *)

(** A reload is all or nothing.  When it succeeds, the rules are those built
    from the decoded options, the metadata is theirs, the DNS router accepted
    it, every registered callback was called once in the order of registration
    and the set was open; otherwise the rule-set is unchanged. *)
Theorem reload_all_or_nothing `{GE : GoEnv} (nm : bool)
    (validator : option (string -> RuleSetMetadata -> result unit)) (tag : string)
    (decoded : result (list Opt.HeadlessRule)) (s : RuleSetState) :
  let '(s', r) := reload nm validator tag decoded s in
  match r with
  | Ok called =>
      exists hs rules, decoded = Ok hs /\ Forall2 (fun r rule => NewHeadlessRule nm r = Ok rule) hs rules
        /\ s' = set_rules rules (buildRuleSetMetadata hs) s
        /\ validateRuleSetMetadataUpdate validator tag (buildRuleSetMetadata hs) = Ok tt
        /\ called = rs_callbacks s /\ rs_closed s = false
  | _ => s' = s
  end.
Proof.
  destruct (reload nm validator tag decoded s) as [s' r] eqn:E.
  apply reload_cases in E as [(hs & Hd & [Hb _] & Hc & -> & Hs & Hv)|[-> Hr]].
  - by exists hs, (rs_rules s').
  - by destruct r.
Qed.

(** Whatever the interleaving of downloads, cleanups, references, callbacks
    and Close after the start, the rules a rule-set holds, if any, are those
    built from the options its metadata was computed from. *)
Theorem metadata_describes_rules `{UW : UvarintWriter} `{GE : GoEnv} `{SE : !SrsEnv} (nm : bool)
    (json : list byte -> result PlainRuleSetCompat) (validator : option (string -> RuleSetMetadata -> result unit))
    (options : RuleSetOptions) (y : System) :
  reachable nm json validator options y ->
  let s := rrs_state (sys_set y) in
  rs_rules s = [] \/
  exists hs, Forall2 (fun r rule => NewHeadlessRule nm r = Ok rule) hs (rs_rules s)
             /\ rs_metadata s = buildRuleSetMetadata hs.
Proof. intros H. exact (inv_consistent _ _ (inv_reachable nm json validator options y H)). Qed.

(** C14: a closed rule-set is empty and matches nothing, now and after any further
    steps: a download that was running cannot bring rules back. *)
Theorem closed_rule_set_stays_empty `{UW : UvarintWriter} `{GE : GoEnv} `{SE : !SrsEnv} (rt : RuntimeState) (nm : bool)
    (json : list byte -> result PlainRuleSetCompat) (validator : option (string -> RuleSetMetadata -> result unit))
    (options : RuleSetOptions) (y y' : System) :
  reachable nm json validator options y -> rs_closed (rrs_state (sys_set y)) = true ->
  rtc (step nm json validator) y y' ->
  rs_closed (rrs_state (sys_set y')) = true /\ rs_rules (rrs_state (sys_set y')) = []
  /\ forall md, RuleSet_Match rt (rs_rules (rrs_state (sys_set y'))) md = false.
Proof.
  intros Hr Hc Hs. pose proof (closed_steps nm json validator y y' Hs Hc) as Hc'.
  pose proof (inv_closed _ _ (inv_reachable nm json validator options y' (reachable_steps _ _ _ _ _ _ Hr Hs)) Hc') as He.
  rewrite He. done.
Qed.

(** When Close has returned, no download is running, none can start, and
    nothing writes the cache file, the update time or the Etag any more. *)
Theorem close_waits_for_fetches `{UW : UvarintWriter} `{GE : GoEnv} `{SE : !SrsEnv} (nm : bool)
    (json : list byte -> result PlainRuleSetCompat) (validator : option (string -> RuleSetMetadata -> result unit))
    (options : RuleSetOptions) (y y' : System) :
  reachable nm json validator options y -> sys_close y = C_Returned -> rtc (step nm json validator) y y' ->
  sys_fetches y' = [] /\ snd (beginFetch (sys_set y')) = false /\ sys_cache y' = sys_cache y
  /\ rrs_lastUpdated (sys_set y') = rrs_lastUpdated (sys_set y) /\ rrs_lastEtag (sys_set y') = rrs_lastEtag (sys_set y).
Proof.
  intros Hr Hc Hs. pose proof (inv_reachable nm json validator options y Hr) as Hi.
  destruct (returned_steps nm json validator y y' Hs Hi Hc) as (Hc' & ? & ? & ?).
  pose proof (inv_steps nm json validator y y' Hs Hi) as Hi'. split_and!; [|unfold beginFetch|done..].
  - exact (inv_returned _ _ Hi' Hc').
  - pose proof (proj1 (inv_close _ _ Hi') ltac:(congruence)) as ->. done.
Qed.

(** A Close that waits can return: every download in progress, whatever its
    program point, can be run to its end (as long as the content it holds does
    not make the decoder panic). *)
Theorem close_can_return `{UW : UvarintWriter} `{GE : GoEnv} `{SE : !SrsEnv} (nm : bool)
    (json : list byte -> result PlainRuleSetCompat) (validator : option (string -> RuleSetMetadata -> result unit))
    (options : RuleSetOptions) (y : System) :
  reachable nm json validator options y -> sys_close y = C_Waiting ->
  Forall (no_panic nm json validator (sys_set y)) (sys_fetches y) ->
  exists y', rtc (step nm json validator) y y' /\ sys_close y' = C_Returned.
Proof.
  intros Hr Hc Hp. pose proof (inv_reachable nm json validator options y Hr) as Hi.
  destruct y as [s cache fetches cleanups close]. cbn in *. subst close.
  destruct (fetches_finish nm json validator fetches s cache cleanups C_Waiting) as [cache' H].
  - apply (proj1 (inv_close _ _ Hi)). done.
  - done.
  - exists (mkSystem (add_fetch (- zlen fetches) s) cache' [] cleanups C_Returned). split; [|done].
    eapply rtc_r; [exact H|]. apply step_closeReturn. pose proof (inv_wg _ _ Hi) as Hw. cbn in *. lia.
Qed.

(** After a download that was loaded and saved, a new start restores the same
    rules, metadata and Etag, and the update time to the second, from the cache
    file, without any HTTP exchange. *)
Theorem restart_restores_download `{UW : UvarintWriter} `{GE : GoEnv} `{SE : !SrsEnv} (nm : bool)
    (json : list byte -> result PlainRuleSetCompat) (validator : option (string -> RuleSetMetadata -> result unit))
    (now : Time) (http : string -> result Response) (rsp : Response) (reopens : bool) (s s' : RemoteRuleSet)
    (cache : CacheFile) (cache' : option CacheFile) (called : list nat) :
  fetch nm json validator now http reopens None s (Some cache) = (s', cache', Ok called) ->
  http (rrs_lastEtag s) = Ok rsp -> rsp_StatusCode rsp = StatusOK ->
  cf_open cache = true -> is_sint 64 (time_Unix now) -> time_Unix now <> time_Unix zeroTime ->
  zlen (bytes_of_string (rrs_lastEtag s')) <= maxAlloc ->
  forall now2 http2 put2,
    StartContext nm json validator (Ok tt) now2 http2 reopens put2 (NewRemoteRuleSet (rrs_options s)) cache' =
    (mkRemoteRuleSet (rrs_options s)
       (set_rules (rs_rules (rrs_state s')) (rs_metadata (rrs_state s')) newState)
       (Time_Truncate now) (rrs_lastEtag s') 0, cache', Ok tt).
Proof.
  intros Hf Hh Hk Ho Ht Hz He now2 http2 put2.
  eapply fetch_downloaded in Hf as (content & s1 & Hl & Hsz & Hst & ->); [|exact Hh|exact Hk].
  set (saved := mkSavedBinary content now (rrs_lastEtag s')). cbn [saveCache].
  destruct (SaveRuleSet None (rso_Tag (rrs_options s)) saved cache) as [r c] eqn:Es.
  assert (r = Ok tt) as -> by (unfold SaveRuleSet in Es; rewrite Ho in Es; by injection Es as <- _).
  assert (wf_saved saved) as Hw.
  { repeat split; cbn; [|done|apply Ht..]. unfold remoteRuleSetMaxDownloadBytes, maxAlloc in *. lia. }
  unfold StartContext. cbn [with_cause snd].
  change (rrs_options (NewRemoteRuleSet (rrs_options s))) with (rrs_options s).
  rewrite (Load_Save reopens _ saved cache c Hw Es). cbn [restore Content LastUpdated LastEtag saved].
  rewrite (loadBytes_again nm json validator content s s1 called (NewRemoteRuleSet (rrs_options s)) Hl eq_refl eq_refl).
  unfold Time_IsZero. rewrite bool_decide_false; [by rewrite Hst|].
  intros Heq. apply (f_equal time_Unix) in Heq. done.
Qed.

(** The references of a RuleSetItem are balanced (counts far from the int32
    limit): starting it either takes one reference per listed tag, which closing
    it gives back exactly, or fails on a missing rule-set and leaves every count
    as it was; neither panics. *)
Theorem rule_set_item_refs_balanced (tagList : list string) (refs : gmap string Z) :
  map_Forall (fun _ n => 0 <= n < 2 ^ 31 - zlen tagList) refs ->
  (exists refs', item_Start tagList [] refs = Ok (None, tagList, refs')
     /\ (forall tag, refs' !! tag = option_map (fun n => n + count tag tagList) (refs !! tag))
     /\ item_Close tagList refs' = Ok refs)
  \/ (exists tag, tag ∈ tagList /\ refs !! tag = None
     /\ item_Start tagList [] refs = Ok (Some (ENew ("rule-set not found: " +:+ tag)), [], refs)).
Proof.
  intros Hb. assert (shifted (fun tag => count tag []) refs refs) as H0.
  { intros tag. destruct (refs !! tag); [|done]. cbn. f_equal. lia. }
  destruct (item_Start_loop_spec tagList [] refs refs Hb ltac:(set_solver) H0) as [(refs' & H1 & H2 & H3)|H]; [left|by right].
  exists refs'. split_and!; [done..|]. by apply item_Close_shifted.
Qed.

(** ** Witnesses *)

Definition demoSetOptions : RuleSetOptions := mkRuleSetOptions "geosite" RuleSetFormatBinary.
Definition demoJson (content : list byte) : result PlainRuleSetCompat := Err ErrInvalid.
Definition demoResponse200 : Response := mkResponse StatusOK "200 OK" 10 (demoFile 3) None "v1".
Definition demoHttp (etag : string) : result Response := Ok demoResponse200.
Definition demoNow : Time := mkTime 1700000000 7.

Definition demoFetched : RemoteRuleSet * option CacheFile * result (list nat) :=
  fetch true demoJson None demoNow demoHttp true None (NewRemoteRuleSet demoSetOptions) (Some (mkCacheFile true ∅)).

Definition demoStarted : System :=
  let '(s, cache, _) := StartContext true demoJson None (Ok tt) demoNow demoHttp true None
                       (NewRemoteRuleSet demoSetOptions) (Some (mkCacheFile true ∅)) in
  started s cache.

Lemma demo_reachable : reachable true demoJson None demoSetOptions demoStarted.
Proof.
  unfold reachable, demoStarted.
  exists (Ok tt), demoNow, demoHttp, true, None, (Some (mkCacheFile true ∅)).
  destruct (StartContext _ _ _ _ _ _ _ _ _ _) as [[s cache] r]. exists s, cache, r. by split.
Qed.

Lemma demo_fetched_ok : is_ok (snd demoFetched) = true.
Proof. by_compute. Qed.

(** The started system with a download in flight and a Close waiting for it. *)
Definition demoClosing : System :=
  mkSystem (fst (beginClose (fst (beginFetch (sys_set demoStarted))))) (sys_cache demoStarted) [F_Requested] 0 C_Waiting.

Lemma demo_closing_reachable : reachable true demoJson None demoSetOptions demoClosing.
Proof.
  eapply reachable_steps; [apply demo_reachable|]. unfold demoClosing.
  assert (rs_closed (rrs_state (sys_set demoStarted)) = false) as Ho by by_compute.
  revert Ho. unfold demoStarted. destruct (StartContext _ _ _ _ _ _ _ _ _ _) as [[s cache] r]. cbn. intros Ho.
  unfold beginFetch. rewrite Ho. eapply rtc_l; [apply step_begin; unfold beginFetch; by rewrite Ho|].
  apply rtc_once, step_close. unfold beginClose. cbn. by rewrite Ho.
Qed.

Lemma metadata_describes_rules_witness :
  exists hs, Forall2 (fun r rule => NewHeadlessRule true r = Ok rule) hs (rs_rules (rrs_state (sys_set demoStarted)))
             /\ rs_metadata (rrs_state (sys_set demoStarted)) = buildRuleSetMetadata hs.
Proof.
  destruct (metadata_describes_rules true demoJson None demoSetOptions demoStarted demo_reachable) as [H|H]; [|exact H].
  assert (nonempty (rs_rules (rrs_state (sys_set demoStarted))) = true) as Hn by by_compute. by rewrite H in Hn.
Defined.

Lemma closed_rule_set_stays_empty_witness :
  RuleSet_Match demoRuntime (rs_rules (rrs_state (sys_set demoClosing))) (demoConnection "www.example.org") = false.
Proof.
  apply (closed_rule_set_stays_empty demoRuntime true demoJson None demoSetOptions demoClosing demoClosing);
    [apply demo_closing_reachable|by_compute|constructor].
Defined.

Lemma close_can_return_witness :
  exists y', rtc (step true demoJson None) demoClosing y' /\ sys_close y' = C_Returned.
Proof.
  apply (close_can_return true demoJson None demoSetOptions demoClosing);
    [apply demo_closing_reachable|reflexivity|repeat constructor].
Defined.

(** The started system after a Close with no download in progress. *)
Definition demoReturned : System :=
  mkSystem (fst (beginClose (sys_set demoStarted))) (sys_cache demoStarted) [] 0 C_Returned.

Lemma demo_returned_reachable : reachable true demoJson None demoSetOptions demoReturned.
Proof.
  eapply reachable_steps; [apply demo_reachable|]. unfold demoReturned.
  assert (rs_closed (rrs_state (sys_set demoStarted)) = false) as Ho by by_compute.
  assert (rrs_fetchWG (fst (beginClose (sys_set demoStarted))) = 0) as Hw by by_compute.
  revert Ho Hw. unfold demoStarted. destruct (StartContext _ _ _ _ _ _ _ _ _ _) as [[s cache] r]. cbn. intros Ho Hw.
  unfold beginClose in *. rewrite Ho in *. eapply rtc_l; [apply step_close; unfold beginClose; by rewrite Ho|].
  by apply rtc_once, step_closeReturn.
Qed.

Lemma close_waits_for_fetches_witness : snd (beginFetch (sys_set demoReturned)) = false.
Proof.
  apply (close_waits_for_fetches true demoJson None demoSetOptions demoReturned demoReturned);
    [apply demo_returned_reachable|reflexivity|constructor].
Defined.

Lemma restart_restores_download_witness :
  let '(s', cache', r) := demoFetched in
  forall now2 http2 put2,
    StartContext true demoJson None (Ok tt) now2 http2 true put2 (NewRemoteRuleSet demoSetOptions) cache' =
    (mkRemoteRuleSet demoSetOptions (set_rules (rs_rules (rrs_state s')) (rs_metadata (rrs_state s')) newState)
       (mkTime 1700000000 0) (rrs_lastEtag s') 0, cache', Ok tt).
Proof.
  assert (rrs_lastEtag (fst (fst demoFetched)) = "v1") as He by by_compute.
  pose proof demo_fetched_ok as Hok. destruct demoFetched as [[s' cache'] r] eqn:E. cbn in He, Hok.
  destruct r as [called| |]; [|done..].
  apply (restart_restores_download true demoJson None demoNow demoHttp demoResponse200 true
           (NewRemoteRuleSet demoSetOptions) s' (mkCacheFile true ∅) cache' called);
    [exact E|reflexivity|reflexivity|reflexivity|by split; vm_compute|by vm_compute|]. rewrite He. by vm_compute.
Defined.

Lemma rule_set_item_refs_balanced_witness :
  exists refs', item_Start ["a"; "b"; "a"] [] {[ "a" := 1; "b" := 0 ]} = Ok (None, ["a"; "b"; "a"], refs')
                /\ item_Close ["a"; "b"; "a"] refs' = Ok {[ "a" := 1; "b" := 0 ]}.
Proof.
  destruct (rule_set_item_refs_balanced ["a"; "b"; "a"] {[ "a" := 1; "b" := 0 ]}) as [(refs' & H1 & _ & H2)|(t & H1 & H2 & _)].
  - apply map_Forall_insert_2; [vm_compute; by split|]. apply map_Forall_singleton. vm_compute. by split.
  - by exists refs'.
  - exfalso. apply list_elem_of_In in H1. cbn in H1. destruct H1 as [<-|[<-|[<-|[]]]]; by vm_compute in H2.
Defined.
