(* ===== verification/RuleObject.v ===== *)
(** * Rules as the router holds them (route/rule/rule_abstract.go)

    A rule object is the tree of conditions of a route or DNS rule with its
    actions.  Its rule-set item refers to the rule-sets of the router by tag
    ([RuleSetRef]), since a rule-set is updated under the rules that use it.

    Starting a rule starts its items and takes a reference on each of its
    rule-sets ([refs] are the counts); closing it gives the references back.
    The lemmas say that the counts and the rules agree: what a rule holds
    after [Start] is what was added, and [Close] takes back exactly that. *)
From Stdlib Require Import ZArith Lia Bool.
From S2P Require Import Prelude GoIO DnsMsg Metadata RuleItem MatchState RuleEngine RuleTheorems HeadlessRule Srs SavedBinary RuleSet RuleSetTheorems.

(** A [RuleSetItem]: the tags, and those of the rule-sets it holds. *)
Record RuleSetRef := mkRuleSetRef {
  tagList : list string;
  heldTags : list string;
  ref_matchSource : bool;
  ref_acceptEmpty : bool;
}.

(** Start the rules in order, up to the first error. *)
Section StartAll.
Context {A S : Type} (start : A -> S -> result (option go_error * A * S)).

Fixpoint start_all (rules : list A) (s : S) : result (option go_error * list A * S) :=
  match rules with
  | [] => Ok (None, [], s)
  | rule :: rest =>
      let* started := start rule s in
      match started with
      | (Some e, rule, s) => Ok (Some e, rule :: rest, s)
      | (None, rule, s) =>
          let* others := start_all rest s in
          let '(err, rest, s) := others in Ok (err, rule :: rest, s)
      end
  end.
End StartAll.

(** Close the rules in order. *)
Section CloseAll.
Context {A S : Type} (close : A -> S -> result (A * S)).

Fixpoint close_all (rules : list A) (s : S) : result (list A * S) :=
  match rules with
  | [] => Ok ([], s)
  | rule :: rest =>
      let* closed := close rule s in
      let '(rule, s) := closed in
      let* others := close_all rest s in
      let '(rest, s) := others in Ok (rule :: rest, s)
  end.
End CloseAll.

(** [X]: what the kind of rule adds to an abstractDefaultRule; [A]: its actions. *)
Section Objects.
Context `{GE : GoEnv} {X A : Type}.

Inductive RuleObject :=
| DefaultObject (r : abstractDefaultRule) (ruleSet : option RuleSetRef) (extra : X) (action : option A)
| LogicalObject (mode : LogicalMode) (rules : list RuleObject) (inverted : bool) (action : option A).

Definition Action (rule : RuleObject) : option A :=
  match rule with DefaultObject _ _ _ action => action | LogicalObject _ _ _ action => action end.

(** [Start] of an item, for the items that have one. *)
Context (start_item : RuleItem -> result RuleItem).

(** The items of allItems are started; those of [items] are the same objects. *)
Definition items_started (r : abstractDefaultRule) : result abstractDefaultRule :=
  let* all := map_result start_item (allItems r) in
  let* its := map_result start_item (items r) in
  Ok (mkDefaultRule its (sourceAddressItems r) (sourcePortItems r) (destinationAddressItems r) (destinationIPCIDRItems r)
        (destinationPortItems r) all (invert r)).

(** [Start] of a rule: the error, the rule and the reference counts it leaves. *)
Fixpoint object_Start (rule : RuleObject) (refs : gmap string Z) : result (option go_error * RuleObject * gmap string Z) :=
  match rule with
  | DefaultObject r ruleSet extra action =>
      match items_started r with
      | Err e => Ok (Some e, rule, refs)
      | Panic s => Panic s
      | Ok r =>
          match ruleSet with
          | None => Ok (None, DefaultObject r None extra action, refs)
          | Some ref =>
              let* started := item_Start (tagList ref) (heldTags ref) refs in
              let '(err, held, refs) := started in
              Ok (err, DefaultObject r (Some (mkRuleSetRef (tagList ref) held (ref_matchSource ref) (ref_acceptEmpty ref)))
                         extra action, refs)
          end
      end
  | LogicalObject mode rules inverted action =>
      let* started := start_all object_Start rules refs in
      let '(err, rules, refs) := started in Ok (err, LogicalObject mode rules inverted action, refs)
  end.

(** [Close]: only rule-set items have something to close. *)
Fixpoint object_Close (rule : RuleObject) (refs : gmap string Z) : result (RuleObject * gmap string Z) :=
  match rule with
  | DefaultObject r None extra action => Ok (rule, refs)
  | DefaultObject r (Some ref) extra action =>
      let* refs := item_Close (heldTags ref) refs in
      Ok (DefaultObject r (Some (mkRuleSetRef (tagList ref) [] (ref_matchSource ref) (ref_acceptEmpty ref))) extra action, refs)
  | LogicalObject mode rules inverted action =>
      let* closed := close_all object_Close rules refs in
      let '(rules, refs) := closed in Ok (LogicalObject mode rules inverted action, refs)
  end.

(** [for i, rule := range rules { err = rule.Start(); if err != nil { return E.Cause(err, msg(i)) } }] *)
Definition startIndexed (msg : Z -> string) (rules : list RuleObject) (refs : gmap string Z)
    : result (option go_error * list RuleObject * gmap string Z) :=
  let* started := start_all (fun '(i, rule) refs =>
      let* x := object_Start rule refs in
      let '(err, rule, refs) := x in
      Ok (option_map (fun e => ECause e (msg (Z.of_nat i))) err, (i, rule), refs))
    (zip (seq 0 (length rules)) rules) refs in
  let '(err, rules, refs) := started in Ok (err, map snd rules, refs).
End Objects.
Arguments RuleObject {GE} X A.

(** ** References *)

Section References.
Context `{GE : GoEnv} {X A : Type}.

Section Induction.
Variable Q : RuleObject X A -> Prop.
Hypothesis Q_default : forall r ruleSet extra action, Q (DefaultObject r ruleSet extra action).
Hypothesis Q_logical : forall mode rules inverted action, Forall Q rules -> Q (LogicalObject mode rules inverted action).

Fixpoint object_tree_ind (rule : RuleObject X A) : Q rule :=
  match rule with
  | DefaultObject r ruleSet extra action => Q_default r ruleSet extra action
  | LogicalObject mode rules inverted action =>
      Q_logical mode rules inverted action
        ((fix all (rules : list (RuleObject X A)) : Forall Q rules :=
           match rules with
           | [] => Forall_nil_2 Q
           | r :: rest => Forall_cons_2 Q r rest (object_tree_ind r) (all rest)
           end) rules)
  end.
End Induction.

(** The tags of the rule-sets a rule holds, and of those it refers to. *)
Fixpoint held_of (rule : RuleObject X A) : list string :=
  match rule with
  | DefaultObject _ ruleSet _ _ => match ruleSet with Some ref => heldTags ref | None => [] end
  | LogicalObject _ rules _ _ => concat (map held_of rules)
  end.

Fixpoint tags_of (rule : RuleObject X A) : list string :=
  match rule with
  | DefaultObject _ ruleSet _ _ => match ruleSet with Some ref => tagList ref | None => [] end
  | LogicalObject _ rules _ _ => concat (map tags_of rules)
  end.

(** The counts are so far from the int32 limit that [n] references fit. *)
Definition room (n : Z) (refs : gmap string Z) : Prop := map_Forall (fun _ k => 0 <= k < 2 ^ 31 - n) refs.

(** [held] was added to the counts [refs]. *)
Definition holding (held : list string) (refs refs' : gmap string Z) : Prop :=
  shifted (fun tag => count tag held) refs refs' /\ forall tag, tag ∈ held -> is_Some (refs !! tag).

Lemma holding_nil refs : holding [] refs refs.
Proof. split; [|set_solver]. intros tag. destruct (refs !! tag); [|done]. cbn. f_equal. lia. Qed.

Lemma holding_app h1 h2 refs refs1 refs2 : holding h1 refs refs1 -> holding h2 refs1 refs2 -> holding (h1 ++ h2) refs refs2.
Proof.
  intros [H1 E1] [H2 E2]. split.
  - intros tag. rewrite H2, H1, count_app. destruct (refs !! tag); [|done]. cbn. f_equal. lia.
  - intros tag [?|Hin]%elem_of_app; [by apply E1|]. specialize (E2 tag Hin). rewrite H1 in E2. by destruct (refs !! tag); [|destruct E2].
Qed.

Lemma room_after n h refs refs' : room (n + zlen h) refs -> holding h refs refs' -> room n refs'.
Proof.
  intros Hr [H _] tag k Hk. rewrite H in Hk. destruct (refs !! tag) as [k0|] eqn:E; [|done]. cbn in Hk. injection Hk as <-.
  pose proof (Hr tag k0 E) as Hb. cbn beta in Hb. pose proof (count_nonneg tag h). pose proof (count_le_length tag h). lia.
Qed.

Lemma room_weaken n m refs : n <= m -> room m refs -> room n refs.
Proof. intros H Hr. eapply map_Forall_impl; [exact Hr|]. cbn beta. intros. lia. Qed.

(** *** Closing *)

Lemma item_Close_app h1 h2 refs : item_Close (h1 ++ h2) refs = let* refs := item_Close h1 refs in item_Close h2 refs.
Proof.
  revert refs. induction h1 as [|t h1 IH]; intros refs; [done|]. cbn [app item_Close].
  destruct (decRef refs t); cbn [bind_result]; [apply IH|done|done].
Qed.

Definition closes (rule : RuleObject X A) : Prop := forall refs refs',
  item_Close (held_of rule) refs = Ok refs' -> exists rule', object_Close rule refs = Ok (rule', refs') /\ held_of rule' = [].

Lemma close_all_closes rules : Forall closes rules -> forall refs refs',
  item_Close (concat (map held_of rules)) refs = Ok refs' ->
  exists rules', close_all object_Close rules refs = Ok (rules', refs') /\ concat (map held_of rules') = [].
Proof.
  induction 1 as [|rule rules Hc _ IH]; intros refs refs' H.
  { injection H as <-. by exists []. }
  cbn [map concat] in H. rewrite item_Close_app in H. destruct (item_Close (held_of rule) refs) as [refs1| |] eqn:E; cbn [bind_result] in H; try done.
  destruct (Hc _ _ E) as (rule' & Ho & Hn). destruct (IH _ _ H) as (rules' & Hos & Hns). exists (rule' :: rules').
  cbn [close_all]. rewrite Ho. cbn [bind_result]. rewrite Hos. cbn [bind_result map concat]. by rewrite Hn, Hns.
Qed.

Lemma object_closes rule : closes rule.
Proof.
  induction rule as [r ruleSet mr action|mode rules inverted action IH] using object_tree_ind; intros refs refs' H.
  - destruct ruleSet as [ref|]; cbn [held_of object_Close] in *; [|injection H as <-; by eexists].
    rewrite H. cbn [bind_result]. by eexists.
  - cbn [held_of object_Close] in *. destruct (close_all_closes rules IH refs refs' H) as (rules' & -> & Hn).
    cbn [bind_result]. eexists. split; [done|]. done.
Qed.

(** Closing the rules takes back what they hold. *)
Lemma close_all_holding (rules : list (RuleObject X A)) refs refs' :
  room (zlen (concat (map held_of rules))) refs -> holding (concat (map held_of rules)) refs refs' -> exists rules', close_all object_Close rules refs' = Ok (rules', refs).
Proof.
  intros Hr [Hs He].   destruct (close_all_closes rules) with (refs := refs') (refs' := refs) as (rules' & -> & _).
  - apply Forall_forall. intros r _. apply object_closes.
  - by apply item_Close_shifted.
  - by eexists.
Qed.

(** *** Starting *)

Context (start_item : RuleItem -> result RuleItem).
Hypothesis start_item_no_panic : forall it, is_panic (start_item it) = false.

Definition starts (rule : RuleObject X A) : Prop := forall refs,
  held_of rule = [] -> room (zlen (tags_of rule)) refs ->
  exists err rule' refs', object_Start start_item rule refs = Ok (err, rule', refs') /\
    holding (held_of rule') refs refs' /\ zlen (held_of rule') <= zlen (tags_of rule).

Lemma map_result_items_no_panic l : is_panic (map_result start_item l) = false.
Proof.
  induction l as [|it l IH]; [done|]. cbn [map_result]. pose proof (start_item_no_panic it).
  destruct (start_item it); cbn [bind_result]; [|done|done]. by destruct (map_result _ l).
Qed.

Lemma items_started_no_panic r : is_panic (items_started start_item r) = false.
Proof.
  unfold items_started. pose proof (map_result_items_no_panic (allItems r)). pose proof (map_result_items_no_panic (items r)).
  destruct (map_result _ (allItems r)); cbn [bind_result]; [|done|done]. by destruct (map_result _ (items r)).
Qed.

Lemma start_all_starts {B S} (start : B -> S -> result (option go_error * B * S)) (held tags : B -> list string)
    (inv : S -> gmap string Z) rules :
  Forall (fun rule => forall s, room (zlen (tags rule)) (inv s) -> exists err rule' s', start rule s = Ok (err, rule', s') /\
    holding (held rule') (inv s) (inv s') /\ zlen (held rule') <= zlen (tags rule)) rules ->
  Forall (fun rule => held rule = []) rules -> forall s, room (zlen (concat (map tags rules))) (inv s) ->
  exists err rules' s', start_all start rules s = Ok (err, rules', s') /\
    holding (concat (map held rules')) (inv s) (inv s') /\ zlen (concat (map held rules')) <= zlen (concat (map tags rules)).
Proof.
  induction 1 as [|rule rules Hs _ IH]; intros Hf s Hr; cbn [start_all].
  { exists None, [], s. split_and!; [done|apply holding_nil|done]. }
  inversion Hf as [|? ? Hf1 Hf2]; subst. cbn [map concat] in *. rewrite zlen_app in Hr.
  pose proof (zlen_nonneg (concat (map tags rules))). pose proof (zlen_nonneg (tags rule)).
  destruct (Hs s) as (err & rule' & s1 & -> & Hh & Hl); [eapply room_weaken; [|exact Hr]; lia|]. cbn [bind_result].
  destruct err as [e|].
  - exists (Some e), (rule' :: rules), s1. split; [done|]. cbn [map concat].
    assert (concat (map held rules) = []) as -> by (clear -Hf2; induction Hf2 as [|? ? E _ IH]; [done|]; cbn; by rewrite E, IH).
    rewrite app_nil_r. split; [done|]. rewrite zlen_app. lia.
  - destruct (IH Hf2 s1) as (err & rules' & s2 & -> & Hh2 & Hl2).
    { eapply room_after; [|exact Hh]. eapply room_weaken; [|exact Hr]. lia. }
    cbn [bind_result]. exists err, (rule' :: rules'), s2. split; [done|]. cbn [map concat]. rewrite !zlen_app.
    split; [by eapply holding_app|lia].
Qed.

Lemma concat_nil_Forall {B} (f : B -> list string) l : concat (map f l) = [] -> Forall (fun x => f x = []) l.
Proof. induction l as [|x l IH]; cbn; [constructor|]. intros [? ?]%app_eq_nil. constructor; auto. Qed.

Lemma object_starts rule : starts rule.
Proof.
  induction rule as [r ruleSet mr action|mode rules inverted action IH] using object_tree_ind; intros refs Hf Hr.
  - cbn [object_Start]. pose proof (items_started_no_panic r) as Hp. destruct (items_started start_item r) as [r'|e|]; [| |done].
    2:{ eexists _, _, _. split; [done|]. rewrite Hf. split; [apply holding_nil|]. apply zlen_nonneg. }
    destruct ruleSet as [ref|]; [|eexists _, _, _; split; [done|]; cbn; split; [apply holding_nil|done]].
    cbn [held_of tags_of] in *. rewrite Hf. unfold item_Start. cbn [item_Close bind_result].
    destruct (item_Start_loop_spec (tagList ref) [] refs refs Hr ltac:(set_solver) (proj1 (holding_nil refs)))
      as [(refs' & -> & Hin & Hs)|(tag & _ & _ & ->)]; cbn [bind_result]; eexists _, _, _; (split; [done|]); cbn [held_of heldTags].
    + split; [by split|done].
    + split; [apply holding_nil|apply zlen_nonneg].
  - cbn [object_Start held_of tags_of] in *.
    destruct (start_all_starts (object_Start start_item) held_of tags_of id rules) with (s := refs)
      as (err & rules' & refs' & -> & Hh & Hl); [|by apply concat_nil_Forall|done|].
    + pose proof (concat_nil_Forall _ _ Hf) as Hfs. rewrite Forall_forall in *. intros rule Hin s Hs. apply (IH rule Hin s); [by apply Hfs|done].
    + cbn [bind_result]. eexists _, _, _. split; [done|]. cbn [held_of]. by split.
Qed.
Lemma startIndexed_holding msg (rules : list (RuleObject X A)) refs :
  Forall (fun r => held_of r = []) rules -> room (zlen (concat (map tags_of rules))) refs ->
  exists err rules' refs', startIndexed start_item msg rules refs = Ok (err, rules', refs') /\
    holding (concat (map held_of rules')) refs refs' /\ zlen (concat (map held_of rules')) <= zlen (concat (map tags_of rules)).
Proof.
  intros Hf Hr. unfold startIndexed.
  assert (Hsnd : map snd (zip (seq 0 (length rules)) rules) = rules) by (apply snd_zip; by rewrite length_seq).
  assert (Hmap : forall (f : RuleObject X A -> list string), map (fun x => f (snd x)) (zip (seq 0 (length rules)) rules) = map f rules).
  { intros f. transitivity (map f (map snd (zip (seq 0 (length rules)) rules))); [by rewrite map_map|by rewrite Hsnd]. }
  assert (Hel : forall i rule, (i, rule) ∈ zip (seq 0 (length rules)) rules -> rule ∈ rules).
  { intros i rule Hin. rewrite <- Hsnd. apply list_elem_of_In, in_map_iff. exists (i, rule). split; [done|]. by apply list_elem_of_In. }
  match goal with |- context [start_all ?start _ _] =>
    destruct (start_all_starts start (fun x => held_of (snd x)) (fun x => tags_of (snd x)) id (zip (seq 0 (length rules)) rules))
      with (s := refs) as (err & rules' & refs' & Hs & Hh & Hl) end.
  - apply Forall_forall. intros [i rule] Hin s Hs. pose proof (Hel i rule Hin) as Hrule. rewrite Forall_forall in Hf.
    destruct (object_starts rule s (Hf rule Hrule) Hs)
      as (err & rule' & s' & -> & Hh & Hl). cbn [bind_result]. by eexists _, _, _.
  - apply Forall_forall. intros [i rule] Hin. rewrite Forall_forall in Hf. apply Hf. by apply (Hel i).
  - by rewrite Hmap.
  - rewrite Hs. cbn [bind_result]. eexists _, _, _. split; [done|]. rewrite Hmap in Hl. by rewrite map_map.
Qed.

(** Starting rules leaves their actions. *)
Lemma start_all_pointwise {C S B} (start : C -> S -> result (option go_error * C * S)) (f : C -> B) rules :
  (forall rule s err rule' s', start rule s = Ok (err, rule', s') -> f rule' = f rule) ->
  forall s err rules' s', start_all start rules s = Ok (err, rules', s') -> map f rules' = map f rules.
Proof.
  intros Hf. induction rules as [|rule rules IH]; intros s err rules' s' H; cbn [start_all] in H; [by injection H as <- <- <-|].
  destruct (start rule s) as [[[e r1] s1]| |] eqn:E; cbn [bind_result] in H; [|done..]. pose proof (Hf _ _ _ _ _ E) as Hr.
  destruct e as [e|]; [injection H as <- <- <-; cbn; by rewrite Hr|].
  destruct (start_all start rules s1) as [[[e2 rs2] s2]| |] eqn:E2; cbn [bind_result] in H; [|done..]. injection H as <- <- <-.
  cbn. rewrite Hr. f_equal. by eapply IH.
Qed.

Lemma object_Start_Action (rule : RuleObject X A) refs err rule' refs' :
  object_Start start_item rule refs = Ok (err, rule', refs') -> Action rule' = Action rule.
Proof.
  destruct rule as [r ruleSet mr action|mode rules inverted action]; cbn [object_Start].
  - destruct (items_started start_item r); [|by intros [= <- <- <-]|done]. destruct ruleSet as [ref|]; [|by intros [= <- <- <-]].
    destruct (item_Start _ _ _) as [[[? ?] ?]| |]; cbn [bind_result]; [by intros [= <- <- <-]|done..].
  - destruct (start_all _ _ _) as [[[? ?] ?]| |]; cbn [bind_result]; [by intros [= <- <- <-]|done..].
Qed.

Lemma startIndexed_Action msg (rules : list (RuleObject X A)) refs err rules' refs' :
  startIndexed start_item msg rules refs = Ok (err, rules', refs') -> map Action rules' = map Action rules.
Proof.
  unfold startIndexed. destruct (start_all _ _ _) as [[[e rs1] s1]| |] eqn:E; cbn [bind_result]; [|done..]. intros [= _ <- _].
  assert (map (fun x => Action (snd x)) rs1 = map (fun x => Action (snd x)) (zip (seq 0 (length rules)) rules)) as Hm.
  { eapply start_all_pointwise; [|exact E]. intros [i rule] s err0 rule' s'. cbn beta iota.
    destruct (object_Start _ rule s) as [[[e0 r0] s0]| |] eqn:Eo; cbn [bind_result]; [|done..]. intros [= _ <- _]. by eapply object_Start_Action. }
  rewrite !map_map, Hm, <- map_map. f_equal. apply snd_zip. by rewrite length_seq.
Qed.
End References.
