(* ===== verification/DnsClient.v ===== *)
(** * The DNS client (dns/client.go, client_truncate.go, extension_edns0_subnet.go)

    A query to a server ([Exchange]): the strategy filter, the response cache
    with its lifetimes and stale answers, the rejected-response cache, the
    check of the response by the caller, the rewriting of TTLs.

    Time is in nanoseconds.  Code outside this repository is a parameter: the
    helpers of miekg/dns ([DnsLib]), the in-memory cache (freelru, [LRU], with
    the laws [LRULaws]), the persistent caches ([DNSCacheStore], [RDRCStore],
    interfaces implemented by the cache file), the exchange with the server.
    The lock that makes concurrent queries of one key wait for the first is
    not modelled as such: [cancelled] is the error of a query whose context
    ends while it waits. *)
From Stdlib Require Import ZArith Lia Bool.
From S2P Require Import Prelude GoIO DnsMsg Metadata.

Definition Second : Z := 1000000000.

(** ** Options *)

Definition DomainStrategyAsIS : Z := 0.
Definition DomainStrategyPreferIPv4 : Z := 1.
Definition DomainStrategyPreferIPv6 : Z := 2.
Definition DomainStrategyIPv4Only : Z := 3.
Definition DomainStrategyIPv6Only : Z := 4.

(** [adapter.DNSQueryOptions], over the type of transports. *)
Record DNSQueryOptions (T : Type) := mkQueryOptions {
  qo_Transport : option T;
  qo_Strategy : Z;
  qo_LookupStrategy : Z;
  qo_DisableCache : bool;
  qo_DisableOptimisticCache : bool;
  qo_RewriteTTL : option Z;
  qo_Timeout : Z;
  qo_ClientSubnet : Prefix;
}.
Arguments mkQueryOptions {T} _ _ _ _ _ _ _ _.
Arguments qo_Transport {T} _.
Arguments qo_Strategy {T} _.
Arguments qo_LookupStrategy {T} _.
Arguments qo_DisableCache {T} _.
Arguments qo_DisableOptimisticCache {T} _.
Arguments qo_RewriteTTL {T} _.
Arguments qo_Timeout {T} _.
Arguments qo_ClientSubnet {T} _.

(** [options.Strategy = strategy]. *)
Definition qo_set_Strategy {T} (strategy : Z) (o : DNSQueryOptions T) : DNSQueryOptions T :=
  mkQueryOptions (qo_Transport o) strategy (qo_LookupStrategy o) (qo_DisableCache o) (qo_DisableOptimisticCache o)
    (qo_RewriteTTL o) (qo_Timeout o) (qo_ClientSubnet o).

(** ** Code outside this repository *)

Class DnsLib := {
  IsFqdn : string -> bool;                        (* dns.IsFqdn *)
  Fqdn : string -> string;                        (* dns.Fqdn *)
  IsEdns0 : Msg -> option RR;                     (* Msg.IsEdns0 *)
  EDNS_Version : RR -> Z;                         (* OPT.Version, UDPSize, Do *)
  EDNS_UDPSize : RR -> Z;
  EDNS_Do : RR -> bool;
  SetEdns0 : Z -> bool -> Msg -> Msg;             (* Msg.SetEdns0 *)
  Msg_Pack : Msg -> result (list byte);
  Msg_Unpack : list byte -> result Msg;
}.

(** [SetEdns0] adds an OPT record to the additional section. *)
Class DnsLibLaws `{DnsLib} := {
  SetEdns0_spec size do_ m : exists opt, SetEdns0 size do_ m = Msg_set_records (Msg_Answer m) (Msg_Ns m) (Msg_Extra m ++ [opt]) m;
}.

(** freelru.Cache; values carry an optional expiry time. *)
Class LRU (K V : Type) := {
  Cache : Type;
  NewCache : Z -> Cache;
  peek : K -> Cache -> option (V * option Z);
  cache_Add : K -> V -> Cache -> Cache;
  cache_AddWithLifetime : Z -> K -> V -> Z -> Cache -> Cache;       (* now, key, value, lifetime *)
  cache_Get : Z -> K -> Cache -> option V * Cache;
  cache_GetWithLifetimeNoExpire : K -> Cache -> option (V * Z) * Cache;
  cache_Remove : K -> Cache -> Cache;
  cache_Purge : Cache -> Cache;
}.
Arguments Cache K V {_}.

Definition Millisecond : Z := 1000000.

(** A lookup leaves the entries; an insertion sets its entry and may evict
    others; lifetimes are kept in milliseconds. *)
Class LRULaws (K V : Type) `{EqDecision K} `{LRU K V} := {
  peek_new n k : peek k (NewCache n) = None;
  peek_add k v c : peek k (cache_Add k v c) = Some (v, None);
  peek_add_ne k k' v c : k' <> k -> peek k' (cache_Add k v c) = peek k' c \/ peek k' (cache_Add k v c) = None;
  peek_life now k v life c : exists e, peek k (cache_AddWithLifetime now k v life c) = Some (v, Some e) /\
    now + life - Millisecond < e <= now + life;
  peek_life_ne now k k' v life c : k' <> k ->
    peek k' (cache_AddWithLifetime now k v life c) = peek k' c \/ peek k' (cache_AddWithLifetime now k v life c) = None;
  get_value now k v c : fst (cache_Get now k c) = Some v -> exists e, peek k c = Some (v, e);
  get_peek now k k' c : peek k' (snd (cache_Get now k c)) = peek k' c;
  get_life_value k v e c : fst (cache_GetWithLifetimeNoExpire k c) = Some (v, e) -> exists e', peek k c = Some (v, e') /\
    (forall x, e' = Some x -> e = x);
  get_life_hit k v e c : peek k c = Some (v, Some e) -> fst (cache_GetWithLifetimeNoExpire k c) = Some (v, e);
  get_life_peek k k' c : peek k' (snd (cache_GetWithLifetimeNoExpire k c)) = peek k' c;
  peek_remove k k' c : peek k' (cache_Remove k c) = if decide (k' = k) then None else peek k' c;
  peek_purge k c : peek k (cache_Purge c) = None;
}.

(** [adapter.DNSCacheStore] and [adapter.RDRCStore]. *)
Class DNSCacheStore (P : Type) := {
  LoadDNSCache : string -> string -> Z -> P -> option (list byte * Z);
  SaveDNSCacheAsync : string -> string -> Z -> list byte -> Z -> P -> P;
  ClearDNSCache : P -> P;
}.

Class RDRCStore (R : Type) := {
  LoadRDRC : string -> string -> Z -> R -> bool;
  SaveRDRCAsync : string -> string -> Z -> R -> R;
}.

(** ** TTLs *)

Fixpoint soa_ttl (records : list RR) : option Z :=
  match records with
  | [] => None
  | record :: rest =>
      match rr_Data record with
      | RD_SOA soaMinimum => Some (if rr_Ttl record <? soaMinimum then rr_Ttl record else soaMinimum)
      | _ => soa_ttl rest
      end
  end.

Definition extractNegativeTTL (response : Msg) : option Z := soa_ttl (Msg_Ns response).

(** One record of the loop of [computeTimeToLive]. *)
Definition ttl_step (timeToLive : Z) (record : RR) : Z :=
  if rr_Rrtype record =? TypeOPT then timeToLive
  else if (timeToLive =? 0) || ((0 <? rr_Ttl record) && (rr_Ttl record <? timeToLive)) then rr_Ttl record
  else timeToLive.

Definition records_of (m : Msg) : list RR := Msg_Answer m ++ Msg_Ns m ++ Msg_Extra m.

Definition computeTimeToLive (response : Msg) : Z :=
  match Msg_Answer response, extractNegativeTTL response with
  | [], Some soaTTL => soaTTL
  | _, _ => fold_left ttl_step (records_of response) 0
  end.

Definition set_ttl (timeToLive : Z) (record : RR) : RR :=
  if rr_Rrtype record =? TypeOPT then record else rr_set_Ttl timeToLive record.

Definition normalizeTTL (timeToLive : Z) (response : Msg) : Msg :=
  Msg_set_records (map (set_ttl timeToLive) (Msg_Answer response)) (map (set_ttl timeToLive) (Msg_Ns response))
    (map (set_ttl timeToLive) (Msg_Extra response)) response.

(** The address hints an HTTPS record loses under an "only" strategy. *)
Definition filter_hints (strategy : Z) (record : RR) : RR :=
  match rr_Data record with
  | RD_HTTPS value =>
      rr_set_Data (RD_HTTPS (List.filter (fun it =>
        if strategy =? DomainStrategyIPv4Only then negb (SVCB_Key it =? SVCB_IPV6HINT)
        else negb (SVCB_Key it =? SVCB_IPV4HINT)) value)) record
  | _ => record
  end.

Definition applyResponseOptions {T} (question : Question) (response : Msg) (options : DNSQueryOptions T) : Msg * Z :=
  let response :=
    if (q_Qtype question =? TypeHTTPS) && ((qo_Strategy options =? DomainStrategyIPv4Only)
         || (qo_Strategy options =? DomainStrategyIPv6Only))
    then Msg_set_records (map (filter_hints (qo_Strategy options)) (Msg_Answer response)) (Msg_Ns response)
           (Msg_Extra response) response
    else response in
  let timeToLive := match qo_RewriteTTL options with Some ttl => ttl | None => computeTimeToLive response end in
  (normalizeTTL timeToLive response, timeToLive).

(** ** Fixed responses *)

Definition FixedResponseStatus (message : Msg) (rcode : Z) : Msg :=
  mkMsg (Msg_Id message) true true true true rcode (Msg_Question message) [] [] [].

Definition FixedResponse (id : Z) (question : Question) (addresses : list Addr) (timeToLive : Z) : Msg :=
  let answers := fold_left (fun answers address =>
    if Addr_Is4 address && (q_Qtype question =? TypeA) then
      answers ++ [mkRR (q_Name question) TypeA ClassINET timeToLive (RD_A (Addr_AsSlice address))]
    else if Addr_Is6 address && (q_Qtype question =? TypeAAAA) then
      answers ++ [mkRR (q_Name question) TypeAAAA ClassINET timeToLive (RD_AAAA (Addr_AsSlice address))]
    else answers) addresses [] in
  mkMsg id true true true true RcodeSuccess [question] answers [] [].

Definition FixedResponseCNAME (id : Z) (question : Question) (record : string) (timeToLive : Z) : Msg :=
  mkMsg id true true true true RcodeSuccess [question]
    [mkRR (q_Name question) TypeCNAME ClassINET timeToLive (RD_CNAME record)] [] [].

(** The header says type A, as in the source. *)
Definition FixedResponseTXT (id : Z) (question : Question) (records : list string) (timeToLive : Z) : Msg :=
  mkMsg id true true true true RcodeSuccess [question]
    [mkRR (q_Name question) TypeA ClassINET timeToLive (RD_TXT records)] [] [].

Definition FixedResponseMX (id : Z) (question : Question) (records : list (Z * string)) (timeToLive : Z) : Msg :=
  mkMsg id true true true true RcodeSuccess [question]
    (map (fun '(pref, host) => mkRR (q_Name question) TypeA ClassINET timeToLive (RD_MX pref host)) records) [] [].

Definition stripDNSPadding (response : Msg) : Msg :=
  Msg_set_records (Msg_Answer response) (Msg_Ns response)
    (map (fun record => match rr_Data record with
       | RD_OPT options => rr_set_Data (RD_OPT (List.filter (fun it => negb (EDNS0_Option it =? EDNS0PADDING)) options)) record
       | _ => record
       end) (Msg_Extra response)) response.

Definition sortAddresses (response4 response6 : list Addr) (strategy : Z) : list Addr :=
  if strategy =? DomainStrategyPreferIPv6 then response6 ++ response4 else response4 ++ response6.

(** ** Client subnet *)

(** The search of [setClientSubnet]: the OPT record last looked at (none after a
    record of another type) and, in it, the subnet option found. *)
Fixpoint find_subnet_option (j : nat) (options : list EDNS0) : option nat :=
  match options with
  | [] => None
  | EDNS0Subnet _ _ _ _ :: _ => Some j
  | EDNS0Other _ _ :: rest => find_subnet_option (S j) rest
  end.

Fixpoint find_subnet (i : nat) (found : option nat) (records : list RR) : option nat * option nat :=
  match records with
  | [] => (found, None)
  | record :: rest =>
      match rr_Data record with
      | RD_OPT options =>
          match find_subnet_option O options with
          | Some j => (Some i, Some j)
          | None => find_subnet (S i) (Some i) rest
          end
      | _ => find_subnet (S i) None rest
      end
  end.

(** The subnet option written. *)
Definition subnet_option (clientSubnet : Prefix) : EDNS0 :=
  EDNS0Subnet EDNS0SUBNET (if Addr_Is4 (prefix_addr clientSubnet) then 1 else 2) (uint8 (prefix_bits clientSubnet))
    (Addr_AsSlice (prefix_addr clientSubnet)).

Definition write_subnet (clientSubnet : Prefix) (j : option nat) (options : list EDNS0) : list EDNS0 :=
  match j with
  | None => options ++ [subnet_option clientSubnet]
  | Some j => match options !! j with
      | Some (EDNS0Subnet code _ _ _) =>
          <[j := EDNS0Subnet code (if Addr_Is4 (prefix_addr clientSubnet) then 1 else 2)
                   (uint8 (prefix_bits clientSubnet)) (Addr_AsSlice (prefix_addr clientSubnet))]> options
      | _ => options
      end
  end.

Definition SetClientSubnet (message : Msg) (clientSubnet : Prefix) : Msg :=
  match find_subnet O None (Msg_Extra message) with
  | (None, _) =>
      Msg_set_records (Msg_Answer message) (Msg_Ns message)
        (Msg_Extra message ++ [mkRR "." TypeOPT 0 0 (RD_OPT [subnet_option clientSubnet])]) message
  | (Some i, j) =>
      Msg_set_records (Msg_Answer message) (Msg_Ns message)
        (alter (fun record => match rr_Data record with
           | RD_OPT options => rr_set_Data (RD_OPT (write_subnet clientSubnet j options)) record
           | _ => record
           end) i (Msg_Extra message)) message
  end.

(** ** Errors *)

Definition ErrResponseRejected : go_error := ENew "response rejected".
Definition ErrResponseRejectedCached : go_error := ECause ErrResponseRejected "cached".
Definition ErrNotCached : go_error := ENew "not cached".

(** [errors.As(err, &rcodeError)] *)
Fixpoint as_RcodeError (e : go_error) : option Z :=
  match e with
  | RcodeError rcode => Some rcode
  | ECause e _ => as_RcodeError e
  | RejectedError e => as_RcodeError e
  | EErrors e1 e2 => match as_RcodeError e1 with Some rcode => Some rcode | None => as_RcodeError e2 end
  | _ => None
  end.

(** ** The client *)

(** [dnsCacheKey]: the question and the tag of the transport. *)
Abbreviation dnsCacheKey := (Question * string)%type (only parsing).

Section Client.
Context {DL : DnsLib}.
Context {T : Type} (transport_Tag : T -> string).
Context {P : Type} {DS : DNSCacheStore P} {R : Type} {RS : RDRCStore R}.

Context {LC : LRU dnsCacheKey Msg}.

Record Client := mkClient {
  c_timeout : Z;
  disableCache : bool;
  disableExpire : bool;
  optimisticTimeout : Z;
  cacheCapacity : Z;
  clientSubnet : Prefix;
  rdrc : option R;
  dnsCache : option P;
  cache : option (Cache dnsCacheKey Msg);
  backgroundRefresh : gset dnsCacheKey;
}.

Definition c_set_cache (c : option (Cache dnsCacheKey Msg)) (cl : Client) : Client :=
  mkClient (c_timeout cl) (disableCache cl) (disableExpire cl) (optimisticTimeout cl) (cacheCapacity cl) (clientSubnet cl)
    (rdrc cl) (dnsCache cl) c (backgroundRefresh cl).

Definition c_set_dnsCache (p : option P) (cl : Client) : Client :=
  mkClient (c_timeout cl) (disableCache cl) (disableExpire cl) (optimisticTimeout cl) (cacheCapacity cl) (clientSubnet cl)
    (rdrc cl) p (cache cl) (backgroundRefresh cl).

Definition c_set_rdrc (r : option R) (cl : Client) : Client :=
  mkClient (c_timeout cl) (disableCache cl) (disableExpire cl) (optimisticTimeout cl) (cacheCapacity cl) (clientSubnet cl)
    r (dnsCache cl) (cache cl) (backgroundRefresh cl).

Definition c_set_refresh (g : gset dnsCacheKey) (cl : Client) : Client :=
  mkClient (c_timeout cl) (disableCache cl) (disableExpire cl) (optimisticTimeout cl) (cacheCapacity cl) (clientSubnet cl)
    (rdrc cl) (dnsCache cl) (cache cl) g.

Definition DNSTimeout : Z := 10 * Second.

Definition initializeMemoryCache (cl : Client) : Client :=
  if disableCache cl then cl
  else match cache cl with Some _ => cl | None => c_set_cache (Some (NewCache (cacheCapacity cl))) cl end.

(** [NewClient]; [hasDNSCacheFunc] says whether the options carry a function that
    looks up the persistent cache. *)
Definition NewClient (timeout : Z) (disable disableExpire : bool) (optimisticTimeout cacheCapacity : Z)
    (clientSubnet : Prefix) (hasDNSCacheFunc : bool) : Client :=
  let client := mkClient (if timeout =? 0 then DNSTimeout else timeout) disable disableExpire optimisticTimeout
    (Z.max cacheCapacity 1024) clientSubnet None None None ∅ in
  if negb (disableCache client) && negb hasDNSCacheFunc then initializeMemoryCache client else client.

(** [Start]; the arguments are the lookups of the stores, where the client has
    them, by what they return. *)
Definition Client_Start (initRDRCFunc : option (option R)) (initDNSCacheFunc : option (option P)) (cl : Client) : Client :=
  let cl := match initRDRCFunc with Some r => c_set_rdrc r cl | None => cl end in
  let cl := match initDNSCacheFunc with Some p => c_set_dnsCache p cl | None => cl end in
  match dnsCache cl with None => initializeMemoryCache cl | Some _ => cl end.

Definition Client_ClearCache (cl : Client) : Client :=
  c_set_dnsCache (option_map ClearDNSCache (dnsCache cl)) (c_set_cache (option_map cache_Purge (cache cl)) cl).

(** [int(expireAt.Sub(timeNow).Seconds())], bounded below by 0. *)
Definition remaining_seconds (expireAt now : Z) : Z := Z.max (Z.quot (expireAt - now) Second) 0.

Definition loadPersistentResponse (now : Z) (question : Question) (tag : string) (cl : Client) (p : P)
    : option (Msg * Z * bool) :=
  match LoadDNSCache tag (q_Name question) (q_Qtype question) p with
  | None => None
  | Some (rawMessage, expireAt) =>
      match Msg_Unpack rawMessage with
      | Ok response =>
          if disableExpire cl then Some (response, 0, false)
          else if expireAt <? now then
            if (0 <? optimisticTimeout cl) && (now <? expireAt + optimisticTimeout cl)
            then Some (normalizeTTL 1 response, 0, true)
            else None
          else
            let nowTTL := remaining_seconds expireAt now in
            Some (normalizeTTL (uint32 nowTTL) response, nowTTL, false)
      | _ => None
      end
  end.

(** [loadResponse]: the response, its remaining time, whether it is stale. *)
Definition loadResponse (now : Z) (question : Question) (tag : string) (cl : Client) : option (Msg * Z * bool) * Client :=
  match dnsCache cl with
  | Some p => (loadPersistentResponse now question tag cl p, cl)
  | None =>
      match cache cl with
      | None => (None, cl)
      | Some c =>
          let key := (question, tag) in
          if disableExpire cl then
            let '(response, c) := cache_Get now key c in
            (option_map (fun response => (response, 0, false)) response, c_set_cache (Some c) cl)
          else
            let '(entry, c) := cache_GetWithLifetimeNoExpire key c in
            match entry with
            | None => (None, c_set_cache (Some c) cl)
            | Some (response, expireAt) =>
                if expireAt <? now then
                  if (0 <? optimisticTimeout cl) && (now <? expireAt + optimisticTimeout cl)
                  then (Some (normalizeTTL 1 response, 0, true), c_set_cache (Some c) cl)
                  else (None, c_set_cache (Some (cache_Remove key c)) cl)
                else
                  let nowTTL := remaining_seconds expireAt now in
                  (Some (normalizeTTL (uint32 nowTTL) response, nowTTL, false), c_set_cache (Some c) cl)
            end
      end
  end.

Definition storeCache (now : Z) (question : Question) (tag : string) (message : Msg) (timeToLive : Z) (cl : Client) : Client :=
  if timeToLive =? 0 then cl
  else match dnsCache cl with
  | Some p =>
      match Msg_Pack message with
      | Ok packed =>
          c_set_dnsCache (Some (SaveDNSCacheAsync tag (q_Name question) (q_Qtype question) packed
                                  (now + Second * timeToLive) p)) cl
      | _ => cl
      end
  | None =>
      match cache cl with
      | None => cl
      | Some c =>
          let key := (question, tag) in
          if disableExpire cl then c_set_cache (Some (cache_Add key message c)) cl
          else c_set_cache (Some (cache_AddWithLifetime now key message (Second * timeToLive) c)) cl
      end
  end.

Definition prepareExchangeMessage (message : Msg) (options : DNSQueryOptions T) (cl : Client) : Msg :=
  let subnet := if Prefix_IsValid (qo_ClientSubnet options) then qo_ClientSubnet options else clientSubnet cl in
  if Prefix_IsValid subnet then SetClientSubnet message subnet else message.

(** [exchangeToTransport]; [exchange] is the transport's Exchange under the given timeout. *)
Definition exchangeToTransport (exchange : Z -> Msg -> result Msg) (message : Msg) (timeout : Z) (cl : Client) : result Msg :=
  let timeout := if timeout =? 0 then c_timeout cl else timeout in
  match exchange timeout message with
  | Ok response => Ok (stripDNSPadding response)
  | Err e => match as_RcodeError e with
      | Some rcode => Ok (FixedResponseStatus message rcode)
      | None => Err e
      end
  | Panic s => Panic s
  end.

(** A response that may be cached: no error, or a name that does not exist. *)
Definition cacheable_rcode (response : Msg) : bool :=
  (Msg_Rcode response =? RcodeSuccess) || (Msg_Rcode response =? RcodeNameError).

(** The check of a response by the caller. *)
Definition response_rejected (responseChecker : option (Msg -> bool)) (response : Msg) : bool :=
  match responseChecker with
  | None => false
  | Some checker => if negb (cacheable_rcode response) then true else negb (checker response)
  end.

Definition isSimpleRequest (message : Msg) (options : DNSQueryOptions T) : bool :=
  (zlen (Msg_Question message) =? 1) && (zlen (Msg_Ns message) =? 0)
  && match Msg_Extra message with
     | [] => true
     | [record] =>
         (rr_Rrtype record =? TypeOPT) && (0 <? rr_Class record) && (rr_Ttl record =? 0)
         && match rr_Data record with RD_OPT options => zlen options =? 0 | _ => false end
     | _ => false
     end
  && negb (Prefix_IsValid (qo_ClientSubnet options)).

(** The OPT record of the response follows that of the request. *)
Definition adjust_edns (message response : Msg) : Msg :=
  match IsEdns0 response with
  | None => response
  | Some responseEDNSOpt =>
      let requestEDNSOpt := IsEdns0 message in
      if match requestEDNSOpt with
         | None => true
         | Some request => EDNS_Version request <? EDNS_Version responseEDNSOpt
         end
      then
        let response := Msg_set_records (Msg_Answer response) (Msg_Ns response)
          (List.filter (fun it => negb (rr_Rrtype it =? TypeOPT)) (Msg_Extra response)) response in
        match requestEDNSOpt with
        | Some _ => SetEdns0 (EDNS_UDPSize responseEDNSOpt) (EDNS_Do responseEDNSOpt) response
        | None => response
        end
      else response
  end.

(** [backgroundRefreshDNS], its two ends: the refresh is registered, unless one
    is running; it is run, on the state of that time. *)
Definition beginRefresh (question : Question) (tag : string) (cl : Client) : bool * Client :=
  let key := (question, tag) in
  if bool_decide (key ∈ backgroundRefresh cl) then (false, cl)
  else (true, c_set_refresh ({[key]} ∪ backgroundRefresh cl) cl).

Definition runRefresh (now : Z) (exchange : Z -> Msg -> result Msg) (question : Question) (tag : string) (message : Msg)
    (options : DNSQueryOptions T) (responseChecker : option (Msg -> bool)) (cl : Client) : Client :=
  let done cl := c_set_refresh (backgroundRefresh cl ∖ {[(question, tag)]}) cl in
  match exchangeToTransport exchange message (qo_Timeout options) cl with
  | Ok response =>
      if response_rejected responseChecker response then
        match rdrc cl with
        | Some r => done (c_set_rdrc (Some (SaveRDRCAsync tag (q_Name question) (q_Qtype question) r)) cl)
        | None => done cl
        end
      else if negb (cacheable_rcode response) then done cl
      else
        let '(response, timeToLive) := applyResponseOptions question response options in
        done (storeCache now question tag response timeToLive cl)
  | _ => done cl
  end.

(** The part of [Exchange] that asks the transport. *)
Definition exchange_uncached (now : Z) (ctxTag : option string) (exchange : Z -> Msg -> result Msg) (question : Question)
    (tag : string) (message : Msg) (noCache : bool) (options : DNSQueryOptions T) (responseChecker : option (Msg -> bool))
    (cl : Client) : result Msg * Client :=
  if match ctxTag with Some t => String.eqb tag t | None => false end
  then (Err (ENew ("DNS query loopback in transport[" +:+ tag +:+ "]")), cl)
  else if negb noCache && negb (bool_decide (responseChecker = None))
          && match rdrc cl with Some r => LoadRDRC tag (q_Name question) (q_Qtype question) r | None => false end
  then (Err ErrResponseRejectedCached, cl)
  else match exchangeToTransport exchange message (qo_Timeout options) cl with
  | Err e => (Err e, cl)
  | Panic s => (Panic s, cl)
  | Ok response =>
      let noCache := noCache || negb (cacheable_rcode response) in
      if response_rejected responseChecker response then
        let cl := match rdrc cl with
          | Some r => if negb noCache
              then c_set_rdrc (Some (SaveRDRCAsync tag (q_Name question) (q_Qtype question) r)) cl else cl
          | None => cl
          end in
        (Err ErrResponseRejected, cl)
      else
        let '(response, timeToLive) := applyResponseOptions question response options in
        let cl := if negb noCache then storeCache now question tag response timeToLive cl else cl in
        (Ok (adjust_edns message (Msg_set_Id (Msg_Id message) response)), cl)
  end.

(** [Exchange].  [cancelled] is set when the query waits for another one of its
    key and its context ends.  The third component is the message of the
    background refresh started, if any. *)
Definition Exchange (now : Z) (ctxTag : option string) (cancelled : option go_error) (exchange : Z -> Msg -> result Msg)
    (transport : T) (message : Msg) (options : DNSQueryOptions T) (responseChecker : option (Msg -> bool)) (cl : Client)
    : result Msg * Client * option Msg :=
  match Msg_Question message with
  | [] => (Ok (FixedResponseStatus message RcodeFormatError), cl, None)
  | question :: _ =>
      if (q_Qtype question =? TypeA) && (qo_Strategy options =? DomainStrategyIPv6Only)
         || (q_Qtype question =? TypeAAAA) && (qo_Strategy options =? DomainStrategyIPv4Only)
      then (Ok (FixedResponseStatus message RcodeSuccess), cl, None)
      else
        let tag := transport_Tag transport in
        let message := prepareExchangeMessage message options cl in
        let noCache := negb (isSimpleRequest message options) || disableCache cl || qo_DisableCache options in
        if noCache then
          let '(r, cl) := exchange_uncached now ctxTag exchange question tag message noCache options responseChecker cl in
          (r, cl, None)
        else match cancelled with
        | Some e => (Err e, cl, None)
        | None =>
            let '(loaded, cl) := loadResponse now question tag cl in
            let ask cl :=
              let '(r, cl) := exchange_uncached now ctxTag exchange question tag message noCache options responseChecker cl in
              (r, cl, None) in
            match loaded with
            | Some (response, _, true) =>
                if negb (qo_DisableOptimisticCache options) then
                  let '(started, cl) := beginRefresh question tag cl in
                  (Ok (Msg_set_Id (Msg_Id message) response), cl, if started then Some message else None)
                else ask cl
            | Some (response, _, false) => (Ok (Msg_set_Id (Msg_Id message) response), cl, None)
            | None => ask cl
            end
        end
  end.

(** [FqdnToDomain] (client_log.go): the name without its final dot. *)
Definition FqdnToDomain (fqdn : string) : string :=
  if IsFqdn fqdn then String.substring 0 (String.length fqdn - 1) fqdn else fqdn.

Section Lookup.
Context `{GE : GoEnv}.

Definition MessageToAddresses (response : Msg) : list Addr := DNSResponseAddresses (Some response).

(** [questionCache]: None for ErrNotCached. *)
Definition questionCache (now : Z) (transport : T) (message : Msg) (options : DNSQueryOptions T) (cl : Client)
    : option (result (list Addr)) * Client * option Msg :=
  match Msg_Question message with
  | [] => (Some (Panic "index out of range"), cl, None)
  | question :: _ =>
      let tag := transport_Tag transport in
      let '(loaded, cl) := loadResponse now question tag cl in
      let answer response :=
        if negb (Msg_Rcode response =? RcodeSuccess) then Err (RcodeError (Msg_Rcode response))
        else Ok (MessageToAddresses response) in
      match loaded with
      | None => (None, cl, None)
      | Some (response, _, false) => (Some (answer response), cl, None)
      | Some (response, _, true) =>
          if qo_DisableOptimisticCache options then (None, cl, None)
          else
            let refresh := prepareExchangeMessage message options cl in
            let '(started, cl) := beginRefresh question tag cl in
            (Some (answer response), cl, if started then Some refresh else None)
      end
  end.

(** [lookupToExchange]. *)
Definition lookupToExchange (now : Z) (ctxTag : option string) (cancelled : option go_error)
    (exchange : Z -> Msg -> result Msg) (transport : T) (name : string) (qType : Z) (options : DNSQueryOptions T)
    (responseChecker : option (Msg -> bool)) (cl : Client) : result (list Addr) * Client * option Msg :=
  let message := mkMsg 0 false false true false RcodeSuccess [mkQuestion name qType ClassINET] [] [] [] in
  let ask cl :=
    let '(r, cl, refresh) := Exchange now ctxTag cancelled exchange transport message options responseChecker cl in
    (match r with
     | Ok response =>
         if negb (Msg_Rcode response =? RcodeSuccess) then Err (RcodeError (Msg_Rcode response))
         else Ok (MessageToAddresses response)
     | Err e => Err e
     | Panic s => Panic s
     end, cl, refresh) in
  if negb (disableCache cl || qo_DisableCache options) then
    match questionCache now transport message options cl with
    | (Some r, cl, refresh) => (r, cl, refresh)
    | (None, cl, _) => ask cl
    end
  else ask cl.

(** [Lookup].  A lookup of both families asks both queries at once in a task
    group (of the sing library): [sixFirst] is the order in which the two take
    effect, [group_Run] the error of the group from those of its tasks. *)
Definition Client_Lookup (group_Run : option go_error -> option go_error -> option go_error) (sixFirst : bool)
    (now : Z) (ctxTag : option string) (cancelled : option go_error) (exchange : Z -> Msg -> result Msg) (transport : T)
    (domain : string) (options : DNSQueryOptions T) (responseChecker : option (Msg -> bool)) (cl : Client)
    : result (list Addr) * Client * list Msg :=
  let domain := FqdnToDomain domain in
  let dnsName := Fqdn domain in
  let strategy := if negb (qo_LookupStrategy options =? DomainStrategyAsIS) then qo_LookupStrategy options
                  else qo_Strategy options in
  let lookupOptions := if negb (qo_LookupStrategy options =? DomainStrategyAsIS) then qo_set_Strategy strategy options
                       else options in
  let ask qType cl :=
    lookupToExchange now ctxTag cancelled exchange transport dnsName qType lookupOptions responseChecker cl in
  if strategy =? DomainStrategyIPv4Only then let '(r, cl, refresh) := ask TypeA cl in (r, cl, option_list refresh)
  else if strategy =? DomainStrategyIPv6Only then let '(r, cl, refresh) := ask TypeAAAA cl in (r, cl, option_list refresh)
  else
    let '(r1, cl, refresh1) := ask (if sixFirst then TypeAAAA else TypeA) cl in
    let '(r2, cl, refresh2) := ask (if sixFirst then TypeA else TypeAAAA) cl in
    let '(r4, r6) := if sixFirst then (r2, r1) else (r1, r2) in
    (match r4, r6 with
     | Panic s, _ | _, Panic s => Panic s
     | _, _ =>
         let addresses r := match r with Ok l => l | _ => [] end in
         let error r := match r with Err e => Some e | _ => None end in
         match addresses r4, addresses r6 with
         | [], [] => match group_Run (error r4) (error r6) with Some e => Err e | None => Ok [] end
         | response4, response6 => Ok (sortAddresses response4 response6 strategy)
         end
     end, cl, option_list refresh1 ++ option_list refresh2).
End Lookup.
End Client.
