(* ===== verification/DnsClientTheorems.v ===== *)
(** * Properties of the DNS client

    TTLs, the age of cached answers, what enters the cache, and the check of
    a response by the rule that asked for it. *)
From Stdlib Require Import ZArith Lia Bool.
From S2P Require Import Prelude GoIO DnsMsg Metadata RuleItem DemoEnv DnsClient.

(** ** TTLs *)

Definition counts (record : RR) : bool := negb (rr_Rrtype record =? TypeOPT).

(** The least positive TTL of the records that count, 0 when there is none. *)
Definition least_ttl (records : list RR) (ttl : Z) : Prop :=
  (forall r, r ∈ records -> counts r = true -> 0 < rr_Ttl r -> 0 < ttl <= rr_Ttl r) /\
  (ttl = 0 \/ 0 < ttl /\ exists r, r ∈ records /\ counts r = true /\ rr_Ttl r = ttl).

Lemma ttl_step_least records ttl record :
  0 <= rr_Ttl record -> least_ttl records ttl -> least_ttl (records ++ [record]) (ttl_step ttl record).
Proof.
  intros Hr [H1 H2]. unfold ttl_step. destruct (rr_Rrtype record =? TypeOPT) eqn:Eo.
  { split.
    - intros r Hin Hc Hp. apply elem_of_app in Hin as [Hin| ->%list_elem_of_singleton]; [by apply H1|].
      unfold counts in Hc. by rewrite Eo in Hc.
    - destruct H2 as [->|(Hp & r & Hin & ?)]; [by left|right]. split; [done|]. exists r. set_solver. }
  assert (counts record = true) as Hcr by (unfold counts; by rewrite Eo).
  destruct ((ttl =? 0) || _) eqn:E.
  - split.
    + intros r Hin Hc Hp. apply elem_of_app in Hin as [Hin| ->%list_elem_of_singleton]; [|lia].
      specialize (H1 r Hin Hc Hp). lia.
    + destruct (decide (rr_Ttl record = 0)) as [->|]; [by left|right]. split; [lia|]. exists record. set_solver.
  - split.
    + intros r Hin Hc Hp. apply elem_of_app in Hin as [Hin| ->%list_elem_of_singleton]; [by apply H1|]. lia.
    + destruct H2 as [->|(Hp & r & Hin & ?)]; [by left|right]. split; [done|]. exists r. set_solver.
Qed.

Lemma ttl_fold_least records : Forall (fun r => 0 <= rr_Ttl r) records -> least_ttl records (fold_left ttl_step records 0).
Proof.
  intros H. assert (forall l done ttl, Forall (fun r => 0 <= rr_Ttl r) l -> least_ttl done ttl ->
    least_ttl (done ++ l) (fold_left ttl_step l ttl)) as Hg.
  { intros l. induction l as [|r l IH]; intros done ttl Hl Hd; [by rewrite app_nil_r|].
    inversion Hl; subst. cbn [fold_left]. rewrite (cons_middle r done l), app_assoc. apply IH; [done|]. by apply ttl_step_least. }
  apply (Hg records [] 0 H). split; [intros r Hin; by apply not_elem_of_nil in Hin|by left].
Qed.

(** The TTL of a response with answers, or without SOA record, is the least
    positive one of its records. *)
Lemma computeTimeToLive_least m :
  (Msg_Answer m <> [] \/ extractNegativeTTL m = None) -> Forall (fun r => 0 <= rr_Ttl r) (records_of m) ->
  least_ttl (records_of m) (computeTimeToLive m).
Proof.
  intros H Hr. unfold computeTimeToLive. destruct (Msg_Answer m) eqn:Ea; [destruct H as [H|H]; [done|rewrite H]|];
    by apply ttl_fold_least.
Qed.

(** All records that count have the TTL [ttl]. *)
Definition uniform_ttl (ttl : Z) (m : Msg) : Prop := forall r, r ∈ records_of m -> counts r = true -> rr_Ttl r = ttl.

Lemma normalizeTTL_uniform ttl m : uniform_ttl ttl (normalizeTTL ttl m).
Proof.
  intros r Hin Hc. unfold records_of, normalizeTTL in Hin. cbn [Msg_Answer Msg_Ns Msg_Extra Msg_set_records] in Hin.
  rewrite <- !map_app, list_elem_of_In, in_map_iff in Hin. destruct Hin as (r0 & <- & _).
  unfold set_ttl, counts in *. by destruct (rr_Rrtype r0 =? TypeOPT) eqn:E; [rewrite E in Hc|].
Qed.

(** ** The cache *)

Section Cache.
Context {DL : DnsLib} {T : Type} (transport_Tag : T -> string).
Context {P : Type} {DS : DNSCacheStore P} {R : Type} {RS : RDRCStore R}.
Context {LC : LRU dnsCacheKey Msg} {LL : LRULaws dnsCacheKey Msg}.

Implicit Types (cl : Client (P := P) (R := R)).

(** The entry of a key in the memory cache. *)
Definition entry (k : dnsCacheKey) cl : option (Msg * option Z) := cache cl ≫= fun c => peek k c.

(** What the cache may hold: an answer or the absence of a name, with one TTL, not 0. *)
Definition cached_ok (m : Msg) : Prop := cacheable_rcode m = true /\ exists ttl, ttl <> 0 /\ uniform_ttl ttl m.

(** Every entry of the memory cache satisfies [good]. *)
Definition cache_all (good : dnsCacheKey -> Msg -> Prop) cl : Prop := forall k m e, entry k cl = Some (m, e) -> good k m.

(** [m] is the response of a server that was asked with [exch], as it is
    cached for the question [q]: the code allows it, and the check of the query,
    when it has one, accepted the response. *)
Definition answer_of (exch : Z -> Msg -> result Msg) (o : DNSQueryOptions T) (chk : option (Msg -> bool)) (q : Question)
    (m : Msg) : Prop :=
  exists sent timeout cl response,
    exchangeToTransport exch sent timeout cl = Ok response /\ cacheable_rcode response = true /\
    (forall checker, chk = Some checker -> checker response = true) /\ m = fst (applyResponseOptions q response o).

(** An answer that [exch], [o] and [chk] give for [q] may be cached under [(q, tag)]. *)
Definition admits (good : dnsCacheKey -> Msg -> Prop) exch o chk q tag : Prop :=
  forall m, answer_of exch o chk q m -> cached_ok m -> good (q, tag) m.

(** No entry is new in [cl']. *)
Definition no_new_entries cl cl' : Prop := forall k x, entry k cl' = Some x -> entry k cl = Some x.

Lemma no_new_all good cl cl' : no_new_entries cl cl' -> cache_all good cl -> cache_all good cl'.
Proof. intros Hn Hs k m e He. by eapply Hs, Hn. Qed.

Lemma no_new_refl cl : no_new_entries cl cl.
Proof. by intros k x. Qed.

Lemma loadResponse_no_new now q tag cl : no_new_entries cl (snd (loadResponse now q tag cl)).
Proof.
  unfold loadResponse. destruct (dnsCache cl); [apply no_new_refl|]. destruct (cache cl) as [c|] eqn:Ec; [|apply no_new_refl].
  destruct (disableExpire cl).
  - pose proof (get_peek now (q, tag)) as Hg. specialize (fun k => Hg k c). destruct (cache_Get now (q, tag) c) as [r c'].
    intros k x. cbn in *. rewrite Hg. unfold entry. by rewrite Ec.
  - pose proof (get_life_peek (q, tag)) as Hg. specialize (fun k => Hg k c).
    destruct (cache_GetWithLifetimeNoExpire (q, tag) c) as [[[m e]|] c']; cbn [snd fst] in *.
    + repeat case_match; intros k x; cbn; rewrite ?peek_remove; try (case_decide; [done|]); rewrite Hg; unfold entry; by rewrite Ec.
    + intros k x. cbn. rewrite Hg. unfold entry. by rewrite Ec.
Qed.

(** [loadResponse] returns an entry, with the TTL that remains. *)
Lemma loadResponse_entry now q tag cl r ttl stale :
  dnsCache cl = None -> disableExpire cl = false ->
  fst (loadResponse now q tag cl) = Some (r, ttl, stale) ->
  exists m e, entry (q, tag) cl = Some (m, e) /\ forall expireAt, e = Some expireAt ->
    if stale then ttl = 0 /\ r = normalizeTTL 1 m /\ 0 < optimisticTimeout cl /\
                  expireAt < now < expireAt + optimisticTimeout cl
    else now <= expireAt /\ ttl = (expireAt - now) / Second /\ r = normalizeTTL (uint32 ttl) m.
Proof.
  intros Hd He. unfold loadResponse. rewrite Hd, He. destruct (cache cl) as [c|] eqn:Ec; [|done].
  pose proof (get_life_value (q, tag)) as Hg. specialize (fun v e => Hg v e c).
  destruct (cache_GetWithLifetimeNoExpire (q, tag) c) as [[[m e]|] c']; cbn [snd fst] in *; [|done].
  destruct (Hg m e eq_refl) as (e' & Hp & Hx). intros H. exists m, e'. unfold entry. rewrite Ec. split; [done|].
  intros expireAt ->. specialize (Hx expireAt eq_refl) as ->. destruct (expireAt <? now) eqn:El.
  - destruct (_ && _) eqn:Eo; [|done]. cbn in H. injection H as <- <- <-. split_and!; first [done|lia].
  - cbn in H. injection H as <- <- <-. unfold remaining_seconds. rewrite Z.quot_div_nonneg by (unfold Second; lia).
    assert (0 <= (expireAt - now) / Second) by (apply Z.div_pos; unfold Second; lia). rewrite Z.max_l by done. split_and!; first [done|lia].
Qed.

Lemma storeCache_all (good : dnsCacheKey -> Msg -> Prop) now q tag m ttl cl :
  cache_all good cl -> cacheable_rcode m = true -> uniform_ttl ttl m -> (cached_ok m -> good (q, tag) m) ->
  cache_all good (storeCache now q tag m ttl cl).
Proof.
  intros Hs Hc Hu Hg. unfold storeCache. destruct (ttl =? 0) eqn:E0; [done|].
  assert (good (q, tag) m) as Hm by (apply Hg; split; [done|]; exists ttl; split; [lia|done]).
  destruct (dnsCache cl) as [p|]; [destruct (Msg_Pack m); done|]. destruct (cache cl) as [c|] eqn:Ec; [|done].
  assert (forall k m' e', peek k c = Some (m', e') -> good k m') as Hs'.
  { intros k m' e' He. apply (Hs k m' e'). unfold entry. by rewrite Ec. }
  destruct (disableExpire cl); intros k m' e'; unfold entry; cbn [cache c_set_cache mbind option_bind];
    intros He; destruct (decide (k = (q, tag))) as [->|Hne].
  - rewrite peek_add in He. by injection He as <- <-.
  - destruct (peek_add_ne (q, tag) k m c Hne) as [E|E]; rewrite E in He; [by eapply Hs'|done].
  - destruct (peek_life now (q, tag) m (Second * ttl) c) as (e & Hl & _). rewrite Hl in He. by injection He as <- <-.
  - destruct (peek_life_ne now (q, tag) k m (Second * ttl) c Hne) as [E|E]; rewrite E in He; [by eapply Hs'|done].
Qed.

Lemma applyResponseOptions_spec q m (o : DNSQueryOptions T) :
  let '(m', ttl) := applyResponseOptions q m o in
  uniform_ttl ttl m' /\ Msg_Rcode m' = Msg_Rcode m /\ Msg_Id m' = Msg_Id m.
Proof.
  unfold applyResponseOptions. cbn zeta. split; [apply normalizeTTL_uniform|]. by destruct (_ && _).
Qed.

(** An accepted response is an answer in the sense above. *)
Lemma accepted_answer exch sent timeout cl response (o : DNSQueryOptions T) chk q :
  exchangeToTransport exch sent timeout cl = Ok response -> cacheable_rcode response = true ->
  response_rejected chk response = false -> answer_of exch o chk q (fst (applyResponseOptions q response o)).
Proof.
  intros He Hc Hr. exists sent, timeout, cl, response. split_and!; [done..| |done].
  intros checker ->. cbn in Hr. rewrite Hc in Hr. by destruct (checker response).
Qed.

Lemma exchange_uncached_all good now ctxTag exch q tag message noCache (o : DNSQueryOptions T) chk cl :
  admits good exch o chk q tag -> cache_all good cl ->
  cache_all good (snd (exchange_uncached now ctxTag exch q tag message noCache o chk cl)).
Proof.
  intros Hg Hs. unfold exchange_uncached. destruct (match ctxTag with Some t => _ | None => _ end); [done|].
  destruct (_ && _ && _); [done|]. destruct (exchangeToTransport _ _ _ _) as [m| |] eqn:Ee; [|done..].
  destruct (response_rejected chk m) eqn:Er; [by destruct (rdrc cl), noCache, (cacheable_rcode m)|].
  pose proof (applyResponseOptions_spec q m o) as Ha. pose proof (fun Hc => accepted_answer _ _ _ _ _ o _ q Ee Hc Er) as Hans.
  destruct (applyResponseOptions q m o) as [m' ttl]. destruct Ha as (Hu & Hr & _).
  cbn [snd fst] in *. destruct noCache; [done|]. destruct (cacheable_rcode m) eqn:Ec; [|done]. cbn [negb orb].
  apply storeCache_all; try done; [unfold cacheable_rcode in *; by rewrite Hr|]. by apply Hg, Hans.
Qed.

Lemma runRefresh_all good now exch q tag message (o : DNSQueryOptions T) chk cl :
  admits good exch o chk q tag -> cache_all good cl -> cache_all good (runRefresh now exch q tag message o chk cl).
Proof.
  intros Hg Hs. unfold runRefresh. destruct (exchangeToTransport _ _ _ _) as [m| |] eqn:Ee; [|done..].
  destruct (response_rejected chk m) eqn:Er; [by destruct (rdrc cl)|]. destruct (cacheable_rcode m) eqn:Ec; [|done]. cbn [negb].
  pose proof (applyResponseOptions_spec q m o) as Ha. pose proof (accepted_answer _ _ _ _ _ o _ q Ee Ec Er) as Hans.
  destruct (applyResponseOptions q m o) as [m' ttl]. destruct Ha as (Hu & Hr & _). cbn [fst] in Hans.
  apply (storeCache_all good now q tag m' ttl cl Hs); [|done|by apply Hg]. unfold cacheable_rcode in *. by rewrite Hr.
Qed.

Lemma Exchange_all good now ctxTag cancelled exch transport message (o : DNSQueryOptions T) chk cl :
  (forall q, head (Msg_Question message) = Some q -> admits good exch o chk q (transport_Tag transport)) ->
  cache_all good cl -> cache_all good (snd (fst (Exchange transport_Tag now ctxTag cancelled exch transport message o chk cl))).
Proof.
  intros Hg Hs. unfold Exchange. destruct (Msg_Question message) as [|q qs]; [done|]. specialize (Hg q eq_refl).
  destruct (_ || _); [done|]. destruct (_ || _ || _).
  { match goal with |- context [exchange_uncached ?a ?b ?c ?d ?e ?f ?g ?h ?i ?j] =>
      pose proof (exchange_uncached_all good a b c d e f g h i j Hg Hs) as Hu; destruct (exchange_uncached a b c d e f g h i j) end. done. }
  destruct cancelled; [done|].
  pose proof (no_new_all good _ _ (loadResponse_no_new now q (transport_Tag transport) cl) Hs) as Hs'.
  destruct (loadResponse now q (transport_Tag transport) cl) as [loaded cl']. cbn [snd] in Hs'.
  destruct loaded as [[[m ttl] []]|]; [destruct (negb _)|done|];
    try (match goal with |- context [exchange_uncached ?a ?b ?c ?d ?e ?f ?g ?h ?i ?j] =>
      pose proof (exchange_uncached_all good a b c d e f g h i j Hg Hs') as Hu; destruct (exchange_uncached a b c d e f g h i j) end; done).
  unfold beginRefresh. by case_bool_decide.
Qed.

(** What happens to a running client: queries, background refreshes, clearing. *)
Inductive client_event :=
| Ev_Exchange (now : Z) (ctxTag : option string) (cancelled : option go_error) (exch : Z -> Msg -> result Msg) (transport : T)
    (message : Msg) (o : DNSQueryOptions T) (chk : option (Msg -> bool))
| Ev_Refresh (now : Z) (exch : Z -> Msg -> result Msg) (q : Question) (tag : string) (message : Msg) (o : DNSQueryOptions T)
    (chk : option (Msg -> bool))
| Ev_ClearCache.

Definition client_after cl (ev : client_event) : Client (P := P) (R := R) :=
  match ev with
  | Ev_Exchange now ctxTag cancelled exch transport message o chk =>
      snd (fst (Exchange transport_Tag now ctxTag cancelled exch transport message o chk cl))
  | Ev_Refresh now exch q tag message o chk => runRefresh now exch q tag message o chk cl
  | Ev_ClearCache => Client_ClearCache cl
  end.

(** The event asked a server for the question of the key, under its tag, and
    got [m] as an answer that its check accepted. *)
Definition supplied (k : dnsCacheKey) (m : Msg) (ev : client_event) : Prop :=
  match ev with
  | Ev_Exchange _ _ _ exch transport message o chk =>
      head (Msg_Question message) = Some (fst k) /\ transport_Tag transport = snd k /\ answer_of exch o chk (fst k) m
  | Ev_Refresh _ exch q tag _ o chk => (q, tag) = k /\ answer_of exch o chk q m
  | Ev_ClearCache => False
  end.

Lemma client_after_all (good : dnsCacheKey -> Msg -> Prop) cl ev :
  (forall k m, supplied k m ev -> cached_ok m -> good k m) -> cache_all good cl -> cache_all good (client_after cl ev).
Proof.
  intros Hg. destruct ev; cbn [client_after].
  - apply Exchange_all. intros q Hq m Ha. by apply Hg.
  - apply runRefresh_all. intros m' Ha. by apply Hg.
  - intros Hs k m e. unfold entry. cbn. destruct (cache cl); [|done]. cbn. by rewrite peek_purge.
Qed.

Lemma client_run_all (good : dnsCacheKey -> Msg -> Prop) events : forall cl,
  (forall ev k m, ev ∈ events -> supplied k m ev -> cached_ok m -> good k m) -> cache_all good cl ->
  cache_all good (fold_left client_after events cl).
Proof.
  induction events as [|ev events IH]; intros cl Hg Hs; [done|]. cbn [fold_left]. apply IH.
  - intros ev' k m Hin. apply Hg. by right.
  - apply client_after_all; [|done]. intros k m. apply Hg. by left.
Qed.
End Cache.

(** ** A concrete client *)

(** A cache as a map that never evicts. *)
#[export] Instance mapLRU `{Countable K} {V : Type} : LRU K V := {|
  Cache := gmap K (V * option Z);
  NewCache _ := ∅;
  peek k c := c !! k;
  cache_Add k v c := <[k := (v, None)]> c;
  cache_AddWithLifetime now k v life c := <[k := (v, Some (now + life))]> c;
  cache_Get now k c :=
    (match c !! k with
     | Some (v, None) => Some v
     | Some (v, Some e) => if e <? now then None else Some v
     | None => None
     end, c);
  cache_GetWithLifetimeNoExpire k c :=
    (match c !! k with Some (v, Some e) => Some (v, e) | Some (v, None) => Some (v, 0) | None => None end, c);
  cache_Remove k c := base.delete k c;
  cache_Purge _ := ∅;
|}.

#[export] Instance mapLRU_laws `{Countable K} {V : Type} : LRULaws K V.
Proof.
  split; cbn.
  - intros. apply lookup_empty.
  - intros. apply lookup_insert_eq.
  - intros. left. by apply lookup_insert_ne.
  - intros. eexists. split; [apply lookup_insert_eq|]. unfold Millisecond. lia.
  - intros. left. by apply lookup_insert_ne.
  - intros now k v c. destruct (c !! k) as [[? [e|]]|]; [case_match| |]; naive_solver.
  - done.
  - intros k v e c. destruct (c !! k) as [[? [?|]]|]; naive_solver.
  - by intros k v e c ->.
  - done.
  - intros k k' c. case_decide; subst; [apply lookup_delete_eq|by apply lookup_delete_ne].
  - intros. apply lookup_empty.
Qed.

(** The OPT record as miekg/dns writes it: the size is the class, the version and
    the DO bit are in the TTL. *)
#[export] Instance demoDnsLib : DnsLib := {|
  IsFqdn s := has_suffix "." s;
  Fqdn s := if has_suffix "." s then s else s +:+ ".";
  IsEdns0 m := List.find (fun r => rr_Rrtype r =? TypeOPT) (Msg_Extra m);
  EDNS_Version r := Z.land (Z.shiftr (rr_Ttl r) 16) 255;
  EDNS_UDPSize r := rr_Class r;
  EDNS_Do r := Z.testbit (rr_Ttl r) 15;
  SetEdns0 size do_ m := Msg_set_records (Msg_Answer m) (Msg_Ns m)
    (Msg_Extra m ++ [mkRR "." TypeOPT size (if do_ then 32768 else 0) (RD_OPT [])]) m;
  Msg_Pack _ := Err (ENew "unsupported");
  Msg_Unpack _ := Err (ENew "unsupported");
|}.

#[export] Instance demoDnsLib_laws : DnsLibLaws.
Proof. split. intros. by eexists. Qed.

(** Stores that hold nothing. *)
#[export] Instance noDNSCache : DNSCacheStore unit :=
  {| LoadDNSCache _ _ _ _ := None; SaveDNSCacheAsync _ _ _ _ _ p := p; ClearDNSCache p := p |}.
#[export] Instance noRDRC : RDRCStore unit := {| LoadRDRC _ _ _ _ := false; SaveRDRCAsync _ _ _ r := r |}.

(** A client with the memory cache and an optimistic window of an hour. *)
Definition demoClient : Client (P := unit) (R := unit) :=
  Client_Start None (Some None) (NewClient 0 false false (3600 * Second) 4096 (mkPrefix AddrInvalid (-1)) true).

Definition demoOptions : DNSQueryOptions string :=
  mkQueryOptions None DomainStrategyAsIS DomainStrategyAsIS false false None 0 (mkPrefix AddrInvalid (-1)).

Definition demoQuestion : Question := mkQuestion "example.org." TypeA ClassINET.

Definition demoQuery : Msg := mkMsg 7 false false true false RcodeSuccess [demoQuestion] [] [] [].

(** A server that answers 10.0.0.1 for 300 seconds. *)
Definition demoExchange (timeout : Z) (m : Msg) : result Msg :=
  Ok (FixedResponse (Msg_Id m) demoQuestion [Addr4 167772161] 300).

(** ** Theorems *)

Section Theorems.
Context {DL : DnsLib} {DLL : DnsLibLaws} {T : Type} (transport_Tag : T -> string).
Context {P : Type} {DS : DNSCacheStore P} {R : Type} {RS : RDRCStore R}.
Context {LC : LRU dnsCacheKey Msg} {LL : LRULaws dnsCacheKey Msg}.

Implicit Types (cl : Client (P := P) (R := R)).

Lemma cache_all_start good (initRDRC : option (option R)) (initCache : option (option P)) timeout disable expire optimistic
    capacity subnet hasFunc :
  cache_all good (Client_Start initRDRC initCache (NewClient timeout disable expire optimistic capacity subnet hasFunc)).
Proof.
  assert (forall cl, cache cl = None -> cache_all good cl) as H0 by (intros cl E k m e; unfold entry; by rewrite E).
  assert (forall cl, cache_all good cl -> cache_all good (initializeMemoryCache cl)) as Hi.
  { intros cl Hs. unfold initializeMemoryCache. destruct (disableCache cl); [done|]. destruct (cache cl) eqn:E; [done|].
    intros k m e. unfold entry. cbn. by rewrite peek_new. }
  assert (forall cl cl', cache cl' = cache cl -> cache_all good cl -> cache_all good cl') as Hc.
  { intros cl cl' E Hs k m e. unfold entry. rewrite E. apply Hs. }
  assert (cache_all good (P := P) (R := R) (NewClient timeout disable expire optimistic capacity subnet hasFunc)) as Hn.
  { unfold NewClient. cbn zeta. destruct (_ && _); [apply Hi|]; by apply H0. }
  unfold Client_Start. cbn zeta.
  match goal with |- cache_all good match dnsCache ?cl with _ => _ end => assert (cache_all good cl) by
    (eapply Hc; [|exact Hn]; by destruct initRDRC, initCache); destruct (dnsCache cl) end; [done|by apply Hi].
Qed.

(** C4: what the memory cache of the client holds, after any sequence of
    queries, background refreshes and clearings: answers whose code is success or
    NXDOMAIN, all of whose records (the EDNS OPT pseudo-record apart, whose TTL
    field holds flags) carry one TTL that is not 0, and each of which a server gave
    to a query or refresh of the sequence for the same question and server tag and
    the check of that query, if it had one, accepted.  So failures of a server and
    responses the caller rejected are never cached. *)
Theorem cached_answers_sound (initRDRC : option (option R)) (initCache : option (option P)) timeout disable expire optimistic
    capacity subnet hasFunc (events : list (client_event (T := T))) k m e :
  entry k (fold_left (client_after transport_Tag) events
    (Client_Start initRDRC initCache (NewClient timeout disable expire optimistic capacity subnet hasFunc))) = Some (m, e) ->
  (Msg_Rcode m = RcodeSuccess \/ Msg_Rcode m = RcodeNameError) /\
  (exists ttl, ttl <> 0 /\ forall r, r ∈ records_of m -> rr_Rrtype r <> TypeOPT -> rr_Ttl r = ttl) /\
  exists ev, ev ∈ events /\ supplied (P := P) (R := R) transport_Tag k m ev.
Proof.
  intros He. edestruct (client_run_all transport_Tag (fun k m => cached_ok m /\ exists ev, ev ∈ events /\ supplied (P := P) (R := R) transport_Tag k m ev)
    events) as [[Hc (ttl & Ht & Hu)] Hev]; [| |exact He|]; [intros ev k' m' Hin Hs Hok; by split; [|exists ev]|apply cache_all_start|].
  split; [unfold cacheable_rcode in Hc; lia|]. split; [|done]. exists ttl. split; [done|]. intros r Hin Hn. apply Hu; [done|].
  unfold counts. lia.
Qed.

(** An answer stored at time [t0] for [ttl] seconds is served for that
    time, less the millisecond the cache rounds by, with the TTL that remains:
    a client that keeps it for its TTL never keeps it beyond [t0 + ttl].  After
    that time it is served with TTL 1 while the optimistic window is open, and
    not at all after it. *)
Theorem cached_ttl_bounds t0 now q tag m ttl cl c :
  dnsCache cl = None -> cache cl = Some c -> disableExpire cl = false -> 0 < ttl < 2 ^ 32 -> t0 <= now ->
  let expiry := t0 + Second * ttl in
  let loaded := fst (loadResponse now q tag (storeCache t0 q tag m ttl cl)) in
  (now <= expiry - Millisecond -> exists r left_,
    loaded = Some (r, left_, false) /\ r = normalizeTTL left_ m) /\
  (forall r left_, loaded = Some (r, left_, false) ->
    0 <= left_ <= ttl /\ now + Second * left_ <= expiry /\ r = normalizeTTL left_ m) /\
  (forall r left_, loaded = Some (r, left_, true) ->
    r = normalizeTTL 1 m /\ now < expiry + optimisticTimeout cl /\ expiry - Millisecond < now) /\
  (expiry + Z.max 0 (optimisticTimeout cl) <= now -> expiry < now -> loaded = None).
Proof.
  intros Hd Hc Hx Ht Hn expiry loaded.
  assert (Hw : storeCache t0 q tag m ttl cl = c_set_cache (Some (cache_AddWithLifetime t0 (q, tag) m (Second * ttl) c)) cl).
  { unfold storeCache. rewrite Hd, Hc, Hx. by destruct (Z.eqb_spec ttl 0); [lia|]. }
  destruct (peek_life t0 (q, tag) m (Second * ttl) c) as (e & Hp & He). fold expiry in He.
  pose proof (get_life_hit (q, tag) m e _ Hp) as Hh. subst loaded. rewrite Hw. unfold loadResponse.
  cbn [dnsCache cache disableExpire c_set_cache optimisticTimeout]. rewrite Hd, Hx.
  destruct (cache_GetWithLifetimeNoExpire (q, tag) _) as [got c']. cbn [fst] in Hh. subst got.
  assert (now <= e -> remaining_seconds e now = (e - now) / Second /\ 0 <= (e - now) / Second <= ttl /\
    now + Second * ((e - now) / Second) <= e) as Hrem.
  { intros Hle. assert (0 <= (e - now) / Second) by (apply Z.div_pos; unfold Second; lia). unfold remaining_seconds.
    rewrite Z.quot_div_nonneg by (unfold Second; lia). rewrite Z.max_l by done.
    assert (Second * ((e - now) / Second) <= e - now) by (apply Z.mul_div_le; unfold Second; lia).
    split_and!; [done..| |lia]. unfold Second in *. lia. }
  assert (forall x, 0 <= x <= ttl -> uint32 x = x) as Hu by (intros x Hx'; unfold uint32, wrap; rewrite Z.mod_small; lia).
  destruct (Z.ltb_spec e now) as [Hlt|Hge].
  - destruct (_ && _) eqn:Eo; cbn [fst]; split_and!; intros; try lia; simplify_eq; try done; split_and!; first [done|lia].
  - destruct (Hrem Hge) as (-> & Hb & Hm). cbn [fst]. split_and!; intros; try lia; simplify_eq; rewrite ?Hu by done.
    + by eexists _, _.
    + split_and!; first [done|lia].
Qed.

Lemma adjust_edns_keeps message response :
  Msg_Id (adjust_edns message response) = Msg_Id response /\ Msg_Rcode (adjust_edns message response) = Msg_Rcode response /\
  Msg_Answer (adjust_edns message response) = Msg_Answer response.
Proof.
  unfold adjust_edns. cbn zeta. repeat case_match; try done;
    match goal with |- context [SetEdns0 ?a ?b ?c] => by destruct (SetEdns0_spec a b c) as [opt ->] end.
Qed.

Lemma SetClientSubnet_keeps m p : Msg_Id (SetClientSubnet m p) = Msg_Id m /\ Msg_Question (SetClientSubnet m p) = Msg_Question m.
Proof. unfold SetClientSubnet. by destruct (find_subnet _ _ _) as [[i|] j]. Qed.

Lemma prepareExchangeMessage_keeps m (o : DNSQueryOptions T) cl :
  Msg_Id (prepareExchangeMessage m o cl) = Msg_Id m /\ Msg_Question (prepareExchangeMessage m o cl) = Msg_Question m.
Proof. unfold prepareExchangeMessage. cbn zeta. case_match; [apply SetClientSubnet_keeps|done]. Qed.

(** What a query that reaches the server returns. *)
Lemma exchange_uncached_ok now ctxTag exch q tag message noCache (o : DNSQueryOptions T) chk cl r cl' :
  exchange_uncached now ctxTag exch q tag message noCache o chk cl = (Ok r, cl') ->
  ctxTag <> Some tag /\ Msg_Id r = Msg_Id message /\ exists m,
    exchangeToTransport exch message (qo_Timeout o) cl = Ok m /\ response_rejected chk m = false /\
    Msg_Rcode r = Msg_Rcode m /\ Msg_Answer r = Msg_Answer (fst (applyResponseOptions q m o)).
Proof.
  unfold exchange_uncached. destruct (match ctxTag with Some t => _ | None => _ end) eqn:Et; [done|]. destruct (_ && _ && _); [done|].
  destruct (exchangeToTransport _ _ _ _) as [m| |]; [|done..]. destruct (response_rejected chk m) eqn:Er; [done|].
  pose proof (applyResponseOptions_spec q m o) as Ha. destruct (applyResponseOptions q m o) as [m' ttl] eqn:Em. intros [= <- <-].
  destruct (adjust_edns_keeps message (Msg_set_Id (Msg_Id message) m')) as (-> & Hc & Hn). rewrite Hc, Hn.
  split; [intros ->; by rewrite String.eqb_refl in Et|]. split; [done|]. exists m. rewrite Em. by destruct Ha as (_ & ? & _).
Qed.

(** The query that reaches the cache: [prepareExchangeMessage] leaves it simple. *)
Definition uses_cache message (o : DNSQueryOptions T) cl : bool :=
  negb (negb (isSimpleRequest (prepareExchangeMessage message o cl) o) || disableCache cl || qo_DisableCache o).

Lemma Exchange_cached now ctxTag exch transport message (o : DNSQueryOptions T) chk cl q qs r ttl :
  Msg_Question message = q :: qs ->
  (q_Qtype q =? TypeA) && (qo_Strategy o =? DomainStrategyIPv6Only)
    || (q_Qtype q =? TypeAAAA) && (qo_Strategy o =? DomainStrategyIPv4Only) = false ->
  uses_cache message o cl = true -> fst (loadResponse now q (transport_Tag transport) cl) = Some (r, ttl, false) ->
  Exchange transport_Tag now ctxTag None exch transport message o chk cl =
    (Ok (Msg_set_Id (Msg_Id message) r), snd (loadResponse now q (transport_Tag transport) cl), None).
Proof.
  intros Hq Hs Hu Hl. unfold Exchange. rewrite Hq, Hs. unfold uses_cache in Hu. apply negb_true_iff in Hu. rewrite Hu.
  destruct (loadResponse now q (transport_Tag transport) cl) as [l cl']. cbn [fst snd] in *. subst l.
  by destruct (prepareExchangeMessage_keeps message o cl) as [-> _].
Qed.

Lemma loadResponse_timeout now q tag cl : c_timeout (snd (loadResponse now q tag cl)) = c_timeout cl.
Proof. unfold loadResponse. by repeat case_match. Qed.

(** Every answer of [Exchange] has the identifier of the query; and an
    answer that comes neither from the cache nor from the strategy filter came
    from the server, the caller's check accepted it, and it has the server's code:
    the records are those of the server up to TTLs and address hints. *)
Theorem exchange_answer now ctxTag cancelled exch transport message (o : DNSQueryOptions T) chk cl r cl' refresh q qs :
  Exchange transport_Tag now ctxTag cancelled exch transport message o chk cl = (Ok r, cl', refresh) ->
  Msg_Question message = q :: qs ->
  Msg_Id r = Msg_Id message /\
  ((q_Qtype q =? TypeA) && (qo_Strategy o =? DomainStrategyIPv6Only)
     || (q_Qtype q =? TypeAAAA) && (qo_Strategy o =? DomainStrategyIPv4Only) = false ->
   (uses_cache message o cl = true -> fst (loadResponse now q (transport_Tag transport) cl) = None) ->
   ctxTag <> Some (transport_Tag transport) /\
   exists m, exchangeToTransport exch (prepareExchangeMessage message o cl) (qo_Timeout o) cl = Ok m /\
     (forall checker, chk = Some checker -> cacheable_rcode m = true /\ checker m = true) /\
     Msg_Rcode r = Msg_Rcode m /\ Msg_Answer r = Msg_Answer (fst (applyResponseOptions q m o))).
Proof.
  intros He Hq. unfold Exchange in He. rewrite Hq in He. destruct (prepareExchangeMessage_keeps message o cl) as [Hid _].
  assert (Hchk : forall m checker, response_rejected chk m = false -> chk = Some checker -> cacheable_rcode m = true /\ checker m = true).
  { intros m checker Hr ->. unfold response_rejected in Hr. destruct (cacheable_rcode m); [|done]. by apply negb_false_iff in Hr. }
  destruct (_ || _); [by simplify_eq|].
  assert (Hask : forall noCache cl2 ref, c_timeout cl2 = c_timeout cl -> (let '(x, c) := exchange_uncached now ctxTag exch q (transport_Tag transport)
      (prepareExchangeMessage message o cl) noCache o chk cl2 in (x, c, ref)) = (Ok r, cl', refresh) ->
    Msg_Id r = Msg_Id message /\ (ctxTag <> Some (transport_Tag transport) /\
      exists m, exchangeToTransport exch (prepareExchangeMessage message o cl) (qo_Timeout o) cl = Ok m /\
     (forall checker, chk = Some checker -> cacheable_rcode m = true /\ checker m = true) /\
     Msg_Rcode r = Msg_Rcode m /\ Msg_Answer r = Msg_Answer (fst (applyResponseOptions q m o)))).
  { intros noCache cl2 ref Ht Hx. destruct (exchange_uncached _ _ _ _ _ _ _ _ _ _) as [x c] eqn:Ex in Hx. simplify_eq.
    destruct (exchange_uncached_ok _ _ _ _ _ _ _ _ _ _ _ _ Ex) as (Hc & Hi & m & Hm & Hr & Hrc & Ha). rewrite Hi, Hid.
    split_and!; try done. exists m. unfold exchangeToTransport in *. rewrite Ht in Hm. split_and!; try done. intros checker. by apply Hchk. }
  destruct (negb _ || _ || _) eqn:En; [by destruct (Hask _ _ _ eq_refl He)|]. destruct cancelled; [done|].
  assert (uses_cache message o cl = true) as Hu by (unfold uses_cache; by rewrite En).
  pose proof (loadResponse_timeout now q (transport_Tag transport) cl) as Ht.
  destruct (loadResponse now q (transport_Tag transport) cl) as [l cl2]. cbn [fst snd] in *.
  destruct l as [[[m ttl] []]|]; [|simplify_eq; split; [done|]; intros _ H; by specialize (H Hu)|by destruct (Hask _ _ _ Ht He)].
  split; [|intros _ H; by specialize (H Hu)]. destruct (negb (qo_DisableOptimisticCache o)); [|by destruct (Hask _ _ _ Ht He)].
  destruct (beginRefresh _ _ _). by simplify_eq.
Qed.

(** An answer in the cache, still alive, is returned whatever check the
    caller asks for: two rules that use one server, one of them with an address
    filter, share the answers, and the filter sees none that the other cached. *)
Theorem cached_answer_unchecked now ctxTag exch transport message (o : DNSQueryOptions T) cl q qs r ttl :
  Msg_Question message = q :: qs -> qo_Strategy o = DomainStrategyAsIS ->
  uses_cache message o cl = true -> fst (loadResponse now q (transport_Tag transport) cl) = Some (r, ttl, false) ->
  forall checker, fst (fst (Exchange transport_Tag now ctxTag None exch transport message o (Some checker) cl)) =
    Ok (Msg_set_Id (Msg_Id message) r).
Proof.
  intros Hq Hs Hu Hl checker. rewrite (Exchange_cached _ _ _ _ _ _ _ _ q qs r ttl) by (try done; rewrite Hs; cbn; by rewrite !andb_false_r).
  done.
Qed.
End Theorems.

(** ** Witnesses *)

(** The client after the first query of [demoQuery] at time 0. *)
Definition demoAsked : Client (P := unit) (R := unit) :=
  snd (fst (Exchange (fun tag : string => tag) 0 None None demoExchange "remote" demoQuery demoOptions None demoClient)).

(** Its answer. *)
Definition demoAnswer : Msg := normalizeTTL 300 (FixedResponse 7 demoQuestion [Addr4 167772161] 300).

Lemma demoAsked_entry : entry (demoQuestion, "remote") demoAsked = Some (demoAnswer, Some (300 * Second)).
Proof. by vm_compute. Qed.

Lemma demoChecked_entry : entry (demoQuestion, "remote") (fold_left (client_after (fun tag : string => tag))
    [Ev_Exchange 0 None None demoExchange "remote" demoQuery demoOptions (Some (fun _ => true))] demoClient) =
  Some (demoAnswer, Some (300 * Second)).
Proof. by vm_compute. Qed.

Lemma demoAsked_load : fst (loadResponse (100 * Second) demoQuestion "remote" demoAsked) = Some (normalizeTTL 200 demoAnswer, 200, false).
Proof. by vm_compute. Qed.

Lemma demo_uses_cache : uses_cache demoQuery demoOptions demoAsked = true.
Proof. by vm_compute. Qed.

Definition demoRun := Exchange (fun tag : string => tag) 0 None None demoExchange "remote" demoQuery demoOptions None demoClient.

Lemma demo_exchange_ok : fst (fst demoRun) = Ok demoAnswer.
Proof. by vm_compute. Qed.

Lemma demo_exchange_refresh : snd demoRun = None.
Proof. by vm_compute. Qed.

Lemma demo_exchange : demoRun = (Ok demoAnswer, demoAsked, None).
Proof. rewrite <- demo_exchange_ok, <- demo_exchange_refresh. unfold demoAsked. fold demoRun. by destruct demoRun as [[? ?] ?]. Qed.

Lemma demo_not_loaded : fst (loadResponse 0 demoQuestion "remote" demoClient) = None.
Proof. by vm_compute. Qed.

Lemma demoClient_cache : dnsCache demoClient = None /\ cache demoClient = Some (NewCache 4096) /\ disableExpire demoClient = false.
Proof. split_and!; reflexivity. Qed.

Lemma cached_answers_sound_witness : Msg_Rcode demoAnswer = RcodeSuccess \/ Msg_Rcode demoAnswer = RcodeNameError.
Proof.
  exact (proj1 (cached_answers_sound (fun tag : string => tag) None (Some None) 0 false false (3600 * Second) 4096
    (mkPrefix AddrInvalid (-1)) true [Ev_Exchange 0 None None demoExchange "remote" demoQuery demoOptions (Some (fun _ => true))]
    (demoQuestion, "remote") demoAnswer _ demoChecked_entry)).
Defined.

Lemma cached_ttl_bounds_witness : exists r left_,
  fst (loadResponse (100 * Second) demoQuestion "remote" (storeCache 0 demoQuestion "remote" demoAnswer 300 demoClient))
    = Some (r, left_, false) /\ r = normalizeTTL left_ demoAnswer.
Proof.
  refine (proj1 (cached_ttl_bounds 0 (100 * Second) demoQuestion "remote" demoAnswer 300 demoClient (NewCache 4096)
    (proj1 demoClient_cache) (proj1 (proj2 demoClient_cache)) (proj2 (proj2 demoClient_cache))
    (conj eq_refl eq_refl) _) _); discriminate.
Defined.

Lemma exchange_answer_witness : Msg_Id demoAnswer = Msg_Id demoQuery.
Proof.
  exact (proj1 (exchange_answer (fun tag : string => tag) 0 None None demoExchange "remote" demoQuery demoOptions None demoClient
    demoAnswer demoAsked None demoQuestion [] demo_exchange eq_refl)).
Defined.

Lemma cached_answer_unchecked_witness :
  fst (fst (Exchange (fun tag : string => tag) (100 * Second) None None demoExchange "remote" demoQuery demoOptions
    (Some (fun _ => false)) demoAsked)) = Ok (Msg_set_Id 7 (normalizeTTL 200 demoAnswer)).
Proof.
  exact (cached_answer_unchecked (fun tag : string => tag) (100 * Second) None demoExchange "remote" demoQuery demoOptions
    demoAsked demoQuestion [] (normalizeTTL 200 demoAnswer) 200 eq_refl eq_refl demo_uses_cache demoAsked_load (fun _ => false)).
Defined.
