(* ===== verification/DnsOptions.v ===== *)
(** * DNS rule options and the DNS mode (option/rule_dns.go, rule_action.go,
      route/rule/rule_nested_action.go, dns/router.go)

    The options of a DNS rule (Module [DnsOpt]), and the analysis that
    decides from them, and from the metadata of the rule-sets they name,
    whether the router runs in legacy mode: which rules need that mode
    ([dnsRuleModeRequirements]), and which the other mode refuses
    ([validateLegacyDNSModeDisabledRules]).

    The router service is [router], nil when the context has none; of a
    rule-set only the metadata is read.  [overrides] is the map of metadata
    that replaces that of the rule-sets. *)
From Stdlib Require Import ZArith Lia Bool.
From S2P Require Import Prelude GoIO DnsMsg Metadata RuleItem MatchState RuleEngine HeadlessRule DnsClient.

#[export] Instance DNSRecordOptions_eq_dec : EqDecision DNSRecordOptions.
Proof. solve_decision. Defined.

(** ** Options *)

Module DnsOpt.

Record DNSRouteActionOptions := mkRouteOptions {
  Server : string;
  Timeout : Z;
  Strategy : Z;
  DisableCache : bool;
  DisableOptimisticCache : bool;
  RewriteTTL : option Z;
  ClientSubnet : option Prefix;
}.

Record DNSRouteOptionsActionOptions := mkRouteOptionsOptions {
  o_Strategy : Z;
  o_Timeout : Z;
  o_DisableCache : bool;
  o_DisableOptimisticCache : bool;
  o_RewriteTTL : option Z;
  o_ClientSubnet : option Prefix;
}.

Record RejectActionOptions := mkRejectOptions { Method : string; NoDrop : bool }.

Record DNSRouteActionPredefined := mkPredefined {
  Rcode : option Z;
  Answer : Listable DNSRecordOptions;
  Ns : Listable DNSRecordOptions;
  Extra : Listable DNSRecordOptions;
}.

Record DNSRuleAction := mkAction {
  Action : string;
  RouteOptions : DNSRouteActionOptions;
  RouteOptionsOptions : DNSRouteOptionsActionOptions;
  RejectOptions : RejectActionOptions;
  PredefinedOptions : DNSRouteActionPredefined;
}.

(** [DNSRuleAction{}] *)
Definition zeroAction : DNSRuleAction :=
  mkAction "" (mkRouteOptions "" 0 0 false false None None) (mkRouteOptionsOptions 0 0 false false None None)
    (mkRejectOptions "" false) (mkPredefined None None None None).

#[global] Instance DNSRouteActionOptions_eq_dec : EqDecision DNSRouteActionOptions.
Proof. solve_decision. Defined.
#[global] Instance DNSRouteOptionsActionOptions_eq_dec : EqDecision DNSRouteOptionsActionOptions.
Proof. solve_decision. Defined.
#[global] Instance RejectActionOptions_eq_dec : EqDecision RejectActionOptions.
Proof. solve_decision. Defined.
#[global] Instance DNSRouteActionPredefined_eq_dec : EqDecision DNSRouteActionPredefined.
Proof. unfold EqDecision, Decision, Listable in *. solve_decision. Defined.
#[global] Instance DNSRuleAction_eq_dec : EqDecision DNSRuleAction.
Proof. solve_decision. Defined.

(** [RawDefaultDNSRule], with the action of [DefaultDNSRule]. *)
Record DefaultDNSRule := mkDefaultDNSRule {
  Inbound : Listable string;
  IPVersion : Z;
  QueryType : Listable Z;
  Network : Listable string;
  AuthUser : Listable string;
  Protocol : Listable string;
  Domain : Listable string;
  DomainSuffix : Listable string;
  DomainKeyword : Listable string;
  DomainRegex : Listable string;
  SourceIPCIDR : Listable string;
  SourceIPIsPrivate : bool;
  SourcePort : Listable Z;
  SourcePortRange : Listable string;
  Port : Listable Z;
  PortRange : Listable string;
  ProcessName : Listable string;
  ProcessPath : Listable string;
  ProcessPathRegex : Listable string;
  User : Listable string;
  UserID : Listable Z;
  Outbound : Listable string;
  ClashMode : string;
  NetworkType : Listable Z;
  NetworkIsExpensive : bool;
  NetworkIsConstrained : bool;
  WIFISSID : Listable string;
  WIFIBSSID : Listable string;
  InterfaceAddress : option (list (string * list Prefix));
  NetworkInterfaceAddress : option (list (Z * list Prefix));
  DefaultInterfaceAddress : Listable Prefix;
  SourceMACAddress : Listable string;
  SourceHostname : Listable string;
  PreferredBy : Listable string;
  RuleSet : Listable string;
  RuleSetIPCIDRMatchSource : bool;
  MatchResponse : bool;
  IPCIDR : Listable string;
  IPIsPrivate : bool;
  IPAcceptAny : bool;
  ResponseRcode : option Z;
  ResponseAnswer : Listable DNSRecordOptions;
  ResponseNs : Listable DNSRecordOptions;
  ResponseExtra : Listable DNSRecordOptions;
  Invert : bool;
  Geosite : Listable string;
  SourceGeoIP : Listable string;
  GeoIP : Listable string;
  RuleSetIPCIDRAcceptEmpty : bool;
  Deprecated_RulesetIPCIDRMatchSource : bool;
  ruleAction : DNSRuleAction;
}.

(** Every field but Invert and the action has its zero value. *)
Definition noConditions (r : DefaultDNSRule) : bool :=
  is_nil (Inbound r) && (IPVersion r =? 0) && is_nil (QueryType r) && is_nil (Network r) && is_nil (AuthUser r)
  && is_nil (Protocol r) && is_nil (Domain r) && is_nil (DomainSuffix r) && is_nil (DomainKeyword r)
  && is_nil (DomainRegex r) && is_nil (SourceIPCIDR r) && negb (SourceIPIsPrivate r) && is_nil (SourcePort r)
  && is_nil (SourcePortRange r) && is_nil (Port r) && is_nil (PortRange r) && is_nil (ProcessName r)
  && is_nil (ProcessPath r) && is_nil (ProcessPathRegex r) && is_nil (User r) && is_nil (UserID r)
  && is_nil (Outbound r) && String.eqb (ClashMode r) "" && is_nil (NetworkType r) && negb (NetworkIsExpensive r)
  && negb (NetworkIsConstrained r) && is_nil (WIFISSID r) && is_nil (WIFIBSSID r) && is_nil (InterfaceAddress r)
  && is_nil (NetworkInterfaceAddress r) && is_nil (DefaultInterfaceAddress r) && is_nil (SourceMACAddress r)
  && is_nil (SourceHostname r) && is_nil (PreferredBy r) && is_nil (RuleSet r) && negb (RuleSetIPCIDRMatchSource r)
  && negb (MatchResponse r) && is_nil (IPCIDR r) && negb (IPIsPrivate r) && negb (IPAcceptAny r)
  && is_nil (ResponseRcode r) && is_nil (ResponseAnswer r) && is_nil (ResponseNs r) && is_nil (ResponseExtra r)
  && is_nil (Geosite r) && is_nil (SourceGeoIP r) && is_nil (GeoIP r) && negb (RuleSetIPCIDRAcceptEmpty r)
  && negb (Deprecated_RulesetIPCIDRMatchSource r).

(** [DefaultDNSRule.IsValid]: not [DeepEqual] to the zero rule with the same Invert. *)
Definition Default_IsValid (r : DefaultDNSRule) : bool :=
  negb (noConditions r && bool_decide (ruleAction r = zeroAction)).

Record LogicalDNSRule (R : Type) := mkLogicalDNSRule {
  Mode : string;
  Rules : list R;
  LogicalInvert : bool;
  logicalAction : DNSRuleAction;
}.
Arguments mkLogicalDNSRule {R} _ _ _ _.
Arguments Mode {R} _.
Arguments Rules {R} _.
Arguments LogicalInvert {R} _.
Arguments logicalAction {R} _.

Inductive DNSRule :=
| mkDNSRule (Type_ : string) (DefaultOptions : DefaultDNSRule) (LogicalOptions : LogicalDNSRule DNSRule).

(** [DNSRule.IsValid] panics on the type "". *)
Fixpoint IsValid (r : DNSRule) : result bool :=
  match r with
  | mkDNSRule t defaultOptions logicalOptions =>
      if String.eqb t Opt.RuleTypeDefault then Ok (Default_IsValid defaultOptions)
      else if String.eqb t Opt.RuleTypeLogical then
        if nonempty (Rules logicalOptions) then Opt.all_result IsValid (Rules logicalOptions) else Ok false
      else Panic ("unknown DNS rule type: " +:+ t)
  end.

Definition Logical_IsValid (r : LogicalDNSRule DNSRule) : result bool :=
  if nonempty (Rules r) then Opt.all_result IsValid (Rules r) else Ok false.

Section Induction.
Variable P : DNSRule -> Prop.
Hypothesis P_rule : forall t d l, Forall P (Rules l) -> P (mkDNSRule t d l).

Fixpoint DNSRule_tree_ind (r : DNSRule) : P r :=
  match r with
  | mkDNSRule t d (mkLogicalDNSRule mode rules inverted action) =>
      P_rule t d (mkLogicalDNSRule mode rules inverted action)
        ((fix all (rules : list DNSRule) : Forall P rules :=
           match rules with
           | [] => Forall_nil_2 P
           | r :: rest => Forall_cons_2 P r rest (DNSRule_tree_ind r) (all rest)
           end) rules)
  end.
End Induction.

End DnsOpt.

Definition RuleActionTypeRoute : string := "route".
Definition RuleActionTypeRouteOptions : string := "route-options".
Definition RuleActionTypeEvaluate : string := "evaluate".
Definition RuleActionTypeRespond : string := "respond".
Definition RuleActionTypeReject : string := "reject".
Definition RuleActionTypePredefined : string := "predefined".

Definition RuleActionRejectMethodDefault : string := "default".
Definition RuleActionRejectMethodDrop : string := "drop".
Definition RuleActionRejectMethodReply : string := "reply".

(** ** Actions of nested rules *)

Definition DNSRuleActionNestedUnsupportedMessage : string := "DNS rule action is not supported in nested rules".

Definition dnsRuleHasConfiguredAction (rule : DnsOpt.DNSRule) : bool :=
  match rule with
  | DnsOpt.mkDNSRule t d l =>
      if Opt.isDefaultType t then negb (bool_decide (DnsOpt.ruleAction d = DnsOpt.zeroAction))
      else if String.eqb t Opt.RuleTypeLogical then negb (bool_decide (DnsOpt.logicalAction l = DnsOpt.zeroAction))
      else false
  end.

(** [for i, x := range xs { err := f(x); if err != nil { return E.Cause(err, msg(i)) } }] *)
Section EachResult.
Context {A : Type} (msg : Z -> string) (f : A -> result unit).

Fixpoint eachi_result (i : Z) (xs : list A) : result unit :=
  match xs with
  | [] => Ok tt
  | x :: rest => let* _ := with_cause (msg i) (f x) in eachi_result (i + 1) rest
  end.
End EachResult.

Definition subRuleMsg (i : Z) : string := "sub rule[" +:+ pretty i +:+ "]".

Fixpoint validateNoNestedDNSRuleActions (nested : bool) (rule : DnsOpt.DNSRule) : result unit :=
  if nested && dnsRuleHasConfiguredAction rule then Err (ENew DNSRuleActionNestedUnsupportedMessage)
  else match rule with
  | DnsOpt.mkDNSRule t _ l =>
      if negb (String.eqb t Opt.RuleTypeLogical) then Ok tt
      else eachi_result subRuleMsg (validateNoNestedDNSRuleActions true) 0 (DnsOpt.Rules l)
  end.

Definition ValidateNoNestedDNSRuleActions (rule : DnsOpt.DNSRule) : result unit :=
  validateNoNestedDNSRuleActions false rule.

(** ** What a rule requires of the mode *)

Definition defaultRuleNeedsLegacyDNSModeFromAddressFilter (rule : DnsOpt.DefaultDNSRule) : bool :=
  if DnsOpt.RuleSetIPCIDRAcceptEmpty rule then true
  else negb (DnsOpt.MatchResponse rule)
       && (DnsOpt.IPAcceptAny rule || given (DnsOpt.IPCIDR rule) || DnsOpt.IPIsPrivate rule).

Definition hasResponseMatchFields (rule : DnsOpt.DefaultDNSRule) : bool :=
  negb (is_nil (DnsOpt.ResponseRcode rule)) || given (DnsOpt.ResponseAnswer rule) || given (DnsOpt.ResponseNs rule)
  || given (DnsOpt.ResponseExtra rule).

Definition defaultRuleDisablesLegacyDNSMode (rule : DnsOpt.DefaultDNSRule) : bool :=
  DnsOpt.MatchResponse rule || hasResponseMatchFields rule
  || String.eqb (DnsOpt.Action (DnsOpt.ruleAction rule)) RuleActionTypeEvaluate
  || String.eqb (DnsOpt.Action (DnsOpt.ruleAction rule)) RuleActionTypeRespond
  || (0 <? DnsOpt.IPVersion rule) || given (DnsOpt.QueryType rule).

Record dnsRuleModeFlags := mkModeFlags { disabled : bool; needed : bool; neededFromStrategy : bool }.

Definition noFlags : dnsRuleModeFlags := mkModeFlags false false false.

Definition flags_merge (f other : dnsRuleModeFlags) : dnsRuleModeFlags :=
  mkModeFlags (disabled f || disabled other) (needed f || needed other) (neededFromStrategy f || neededFromStrategy other).

(** The action types that carry route options. *)
Definition isRouteAction (t : string) : bool :=
  String.eqb t "" || String.eqb t RuleActionTypeRoute || String.eqb t RuleActionTypeEvaluate.

Definition dnsRuleActionDisablesLegacyDNSMode (action : DnsOpt.DNSRuleAction) : bool :=
  if isRouteAction (DnsOpt.Action action) then DnsOpt.DisableOptimisticCache (DnsOpt.RouteOptions action)
  else if String.eqb (DnsOpt.Action action) RuleActionTypeRouteOptions
  then DnsOpt.o_DisableOptimisticCache (DnsOpt.RouteOptionsOptions action)
  else false.

Definition dnsRuleActionHasStrategy (action : DnsOpt.DNSRuleAction) : bool :=
  if isRouteAction (DnsOpt.Action action) then negb (DnsOpt.Strategy (DnsOpt.RouteOptions action) =? DomainStrategyAsIS)
  else if String.eqb (DnsOpt.Action action) RuleActionTypeRouteOptions
  then negb (DnsOpt.o_Strategy (DnsOpt.RouteOptionsOptions action) =? DomainStrategyAsIS)
  else false.

Definition dnsRuleActionType (rule : DnsOpt.DNSRule) : string :=
  match rule with
  | DnsOpt.mkDNSRule t d l =>
      let orRoute action := if String.eqb action "" then RuleActionTypeRoute else action in
      if Opt.isDefaultType t then orRoute (DnsOpt.Action (DnsOpt.ruleAction d))
      else if String.eqb t Opt.RuleTypeLogical then orRoute (DnsOpt.Action (DnsOpt.logicalAction l))
      else ""
  end.

Definition dnsRuleActionServer (rule : DnsOpt.DNSRule) : string :=
  match rule with
  | DnsOpt.mkDNSRule t d l =>
      if Opt.isDefaultType t then DnsOpt.Server (DnsOpt.RouteOptions (DnsOpt.ruleAction d))
      else if String.eqb t Opt.RuleTypeLogical then DnsOpt.Server (DnsOpt.RouteOptions (DnsOpt.logicalAction l))
      else ""
  end.

(** The deprecation messages; [Note] and [MessageWithLink] (experimental/deprecated). *)
Record Note := mkNote {
  Description : string; DeprecatedVersion : string; ScheduledVersion : string; MigrationLink : string }.

Definition OptionRuleSetIPCIDRAcceptEmpty : Note :=
  mkNote "Legacy `rule_set_ip_cidr_accept_empty` DNS rule item" "1.14.0" "1.16.0"
    "https://sing-box.sagernet.org/migration/#migrate-address-filter-fields-to-response-matching".
Definition OptionLegacyDNSAddressFilter : Note :=
  mkNote "Legacy Address Filter Fields in DNS rules" "1.14.0" "1.16.0"
    "https://sing-box.sagernet.org/migration/#migrate-address-filter-fields-to-response-matching".
Definition OptionLegacyDNSRuleStrategy : Note :=
  mkNote "Legacy `strategy` DNS rule action option" "1.14.0" "1.16.0"
    "https://sing-box.sagernet.org/migration/#migrate-dns-rule-action-strategy-to-rule-items".

Definition MessageWithLink (n : Note) : string :=
  if String.eqb (MigrationLink n) "" then
    Description n +:+ " is deprecated in sing-box " +:+ DeprecatedVersion n
      +:+ " and will be removed in sing-box " +:+ ScheduledVersion n +:+ "."
  else
    Description n +:+ " is deprecated in sing-box " +:+ DeprecatedVersion n
      +:+ " and will be removed in sing-box " +:+ ScheduledVersion n
      +:+ ", checkout documentation for migration: " +:+ MigrationLink n.

(** ** The mode *)

Section Mode.
Context (router : option (string -> option RuleSetMetadata)) (overrides : gmap string RuleSetMetadata).

Definition lookupDNSRuleSetMetadata (tag : string) : result RuleSetMetadata :=
  match overrides !! tag with
  | Some metadata => Ok metadata
  | None =>
      match router with
      | None => Panic "invalid memory address or nil pointer dereference"
      | Some ruleSet =>
          match ruleSet tag with
          | None => Err (ENew ("rule-set not found: " +:+ tag))
          | Some metadata => Ok metadata
          end
      end
  end.

(** The loop over the rule-sets of a default rule. *)
Fixpoint ruleSet_flags (matchSource : bool) (tags : list string) (flags : dnsRuleModeFlags) : result dnsRuleModeFlags :=
  match tags with
  | [] => Ok flags
  | tag :: rest =>
      let* metadata := lookupDNSRuleSetMetadata tag in
      ruleSet_flags matchSource rest
        (mkModeFlags (disabled flags || ContainsDNSQueryTypeRule metadata)
           (needed flags || negb matchSource && ContainsIPCIDRRule metadata) (neededFromStrategy flags))
  end.

Definition dnsRuleModeRequirementsInDefaultRule (rule : DnsOpt.DefaultDNSRule) : result dnsRuleModeFlags :=
  let fromStrategy := dnsRuleActionHasStrategy (DnsOpt.ruleAction rule) in
  let flags := mkModeFlags
    (defaultRuleDisablesLegacyDNSMode rule || dnsRuleActionDisablesLegacyDNSMode (DnsOpt.ruleAction rule))
    (defaultRuleNeedsLegacyDNSModeFromAddressFilter rule || fromStrategy) fromStrategy in
  if negb (given (DnsOpt.RuleSet rule)) then Ok flags
  else match router with
  | None => Err (ENew "router service not found")
  | Some _ => ruleSet_flags (DnsOpt.RuleSetIPCIDRMatchSource rule) (elems (DnsOpt.RuleSet rule)) flags
  end.

Section MergeFlags.
Context {A : Type} (msg : Z -> string) (f : A -> result dnsRuleModeFlags).

Fixpoint mergeAll (i : Z) (xs : list A) (flags : dnsRuleModeFlags) : result dnsRuleModeFlags :=
  match xs with
  | [] => Ok flags
  | x :: rest => let* subFlags := with_cause (msg i) (f x) in mergeAll (i + 1) rest (flags_merge flags subFlags)
  end.
End MergeFlags.

Fixpoint dnsRuleModeRequirementsInRule (rule : DnsOpt.DNSRule) : result dnsRuleModeFlags :=
  match rule with
  | DnsOpt.mkDNSRule t d l =>
      if Opt.isDefaultType t then dnsRuleModeRequirementsInDefaultRule d
      else if String.eqb t Opt.RuleTypeLogical then
        let fromStrategy := dnsRuleActionHasStrategy (DnsOpt.logicalAction l) in
        let flags := mkModeFlags
          (String.eqb (dnsRuleActionType rule) RuleActionTypeEvaluate
           || String.eqb (dnsRuleActionType rule) RuleActionTypeRespond
           || dnsRuleActionDisablesLegacyDNSMode (DnsOpt.logicalAction l)) fromStrategy fromStrategy in
        mergeAll subRuleMsg dnsRuleModeRequirementsInRule 0 (DnsOpt.Rules l) flags
      else Ok noFlags
  end.

Definition dnsRuleModeRequirements (rules : list DnsOpt.DNSRule) : result dnsRuleModeFlags :=
  mergeAll (fun i => "dns rule[" +:+ pretty i +:+ "]") dnsRuleModeRequirementsInRule 0 rules noFlags.

Definition resolveLegacyDNSMode (rules : list DnsOpt.DNSRule) : result (bool * dnsRuleModeFlags) :=
  let* flags := dnsRuleModeRequirements rules in
  if disabled flags && neededFromStrategy flags then Err (ENew (MessageWithLink OptionLegacyDNSRuleStrategy))
  else if disabled flags then Ok (false, flags)
  else Ok (needed flags, flags).

(** The loop over the rule-sets of a default rule that does not match responses. *)
Fixpoint ruleSets_not_pure_ip (tags : list string) : result unit :=
  match tags with
  | [] => Ok tt
  | tag :: rest =>
      let* metadata := lookupDNSRuleSetMetadata tag in
      if ContainsIPCIDRRule metadata && negb (ContainsNonIPCIDRRule metadata)
      then Err (ENew (MessageWithLink OptionLegacyDNSAddressFilter))
      else ruleSets_not_pure_ip rest
  end.

Definition validateLegacyDNSModeDisabledDefaultRule (rule : DnsOpt.DefaultDNSRule) : result bool :=
  if (hasResponseMatchFields rule || given (DnsOpt.IPCIDR rule) || DnsOpt.IPIsPrivate rule || DnsOpt.IPAcceptAny rule)
     && negb (DnsOpt.MatchResponse rule)
  then Err (ENew "Response Match Fields (ip_cidr, ip_is_private, ip_accept_any, response_rcode, response_answer, response_ns, response_extra) require match_response to be enabled")
  else
    let* _ := if negb (DnsOpt.MatchResponse rule) && given (DnsOpt.RuleSet rule)
              then ruleSets_not_pure_ip (elems (DnsOpt.RuleSet rule)) else Ok tt in
    if DnsOpt.RuleSetIPCIDRAcceptEmpty rule then Err (ENew (MessageWithLink OptionRuleSetIPCIDRAcceptEmpty))
    else Ok (DnsOpt.MatchResponse rule || String.eqb (DnsOpt.Action (DnsOpt.ruleAction rule)) RuleActionTypeRespond).

Section AnyFlag.
Context {A : Type} (msg : Z -> string) (f : A -> result bool).

Fixpoint orAll (i : Z) (xs : list A) (b : bool) : result bool :=
  match xs with
  | [] => Ok b
  | x :: rest => let* sub := with_cause (msg i) (f x) in orAll (i + 1) rest (b || sub)
  end.
End AnyFlag.

Fixpoint validateLegacyDNSModeDisabledRuleTree (rule : DnsOpt.DNSRule) : result bool :=
  match rule with
  | DnsOpt.mkDNSRule t d l =>
      if Opt.isDefaultType t then validateLegacyDNSModeDisabledDefaultRule d
      else if String.eqb t Opt.RuleTypeLogical then
        orAll subRuleMsg validateLegacyDNSModeDisabledRuleTree 0 (DnsOpt.Rules l)
          (String.eqb (dnsRuleActionType rule) RuleActionTypeRespond)
      else Ok false
  end.

Fixpoint validateDisabledRules_loop (i : Z) (rules : list DnsOpt.DNSRule) (seenEvaluate : bool) : result unit :=
  match rules with
  | [] => Ok tt
  | rule :: rest =>
      let* requiresPriorEvaluate :=
        with_cause ("validate dns rule[" +:+ pretty i +:+ "]") (validateLegacyDNSModeDisabledRuleTree rule) in
      if requiresPriorEvaluate && negb seenEvaluate
      then Err (ENew ("dns rule[" +:+ pretty i +:+ "]: response-based matching requires a preceding evaluate action"))
      else validateDisabledRules_loop (i + 1) rest
             (String.eqb (dnsRuleActionType rule) RuleActionTypeEvaluate || seenEvaluate)
  end.

Definition validateLegacyDNSModeDisabledRules (rules : list DnsOpt.DNSRule) : result unit :=
  validateDisabledRules_loop 0 rules false.

End Mode.

(** [transportManager]: the type of a transport by its tag, None for a nil manager. *)
Fixpoint validateEvaluateFakeIP_loop (transport : string -> option string) (i : Z) (rules : list DnsOpt.DNSRule) : result unit :=
  match rules with
  | [] => Ok tt
  | rule :: rest =>
      if negb (String.eqb (dnsRuleActionType rule) RuleActionTypeEvaluate) || String.eqb (dnsRuleActionServer rule) ""
      then validateEvaluateFakeIP_loop transport (i + 1) rest
      else match transport (dnsRuleActionServer rule) with
      | Some t =>
          if String.eqb t "fakeip"
          then Err (ENew ("dns rule[" +:+ pretty i +:+ "]: evaluate action cannot use fakeip server: " +:+ dnsRuleActionServer rule))
          else validateEvaluateFakeIP_loop transport (i + 1) rest
      | None => validateEvaluateFakeIP_loop transport (i + 1) rest
      end
  end.

Definition validateEvaluateFakeIPRules (rules : list DnsOpt.DNSRule) (transportManager : option (string -> option string))
    : result unit :=
  match transportManager with None => Ok tt | Some transport => validateEvaluateFakeIP_loop transport 0 rules end.

(** [Router.ValidateRuleSetMetadataUpdate], over the fields of the router it reads. *)
Definition ValidateRuleSetMetadataUpdate (router : option (string -> option RuleSetMetadata))
    (rawRules : list DnsOpt.DNSRule) (started legacyDNSMode closing : bool) (tag : string) (metadata : RuleSetMetadata)
    : result unit :=
  match rawRules with
  | [] => Ok tt
  | _ =>
      match router with
      | None => Err (ENew "router service not found")
      | Some _ =>
          let overrides := {[ tag := metadata ]} in
          if closing then Ok tt
          else
            let* candidate := resolveLegacyDNSMode router overrides rawRules in
            let '(candidateLegacyDNSMode, flags) := candidate in
            if negb started then
              if negb candidateLegacyDNSMode then validateLegacyDNSModeDisabledRules router overrides rawRules else Ok tt
            else if legacyDNSMode then
              if negb candidateLegacyDNSMode && disabled flags then
                let* _ := validateLegacyDNSModeDisabledRules router overrides rawRules in
                Err (ENew (MessageWithLink OptionLegacyDNSAddressFilter))
              else Ok tt
            else if candidateLegacyDNSMode then Err (ENew (MessageWithLink OptionLegacyDNSAddressFilter))
            else validateLegacyDNSModeDisabledRules router overrides rawRules
      end
  end.
