(* ===== verification/DnsMode.v ===== *)
(** * The DNS mode and rule-set updates

    The router keeps the mode it started in.  A rule-set whose metadata
    changes is validated first; the theorems state what the validation
    guarantees, and what it does not when two rule-sets change at once. *)
From Stdlib Require Import ZArith Lia Bool.
From S2P Require Import Prelude GoIO DnsMsg Metadata RuleItem MatchState RuleEngine HeadlessRule DnsClient DnsOptions.

(** The metadata of the rule-sets after [tag] changed. *)
Definition updateMetadata (tag : string) (metadata : RuleSetMetadata) (ruleSet : string -> option RuleSetMetadata)
    : string -> option RuleSetMetadata :=
  fun t => if decide (t = tag) then Some metadata else ruleSet t.

(** ** The analysis reads the metadata through [lookupDNSRuleSetMetadata] only *)

Section Same.
Context (rs1 rs2 : string -> option RuleSetMetadata) (o1 o2 : gmap string RuleSetMetadata).
Hypothesis same : forall tag, lookupDNSRuleSetMetadata (Some rs1) o1 tag = lookupDNSRuleSetMetadata (Some rs2) o2 tag.

Lemma ruleSet_flags_same matchSource tags flags :
  ruleSet_flags (Some rs1) o1 matchSource tags flags = ruleSet_flags (Some rs2) o2 matchSource tags flags.
Proof.
  revert flags. induction tags as [|tag tags IH]; intros flags; cbn [ruleSet_flags]; [done|]. rewrite same.
  destruct (lookupDNSRuleSetMetadata _ _ _); cbn [bind_result]; [apply IH|done|done].
Qed.

Lemma ruleSets_not_pure_ip_same tags : ruleSets_not_pure_ip (Some rs1) o1 tags = ruleSets_not_pure_ip (Some rs2) o2 tags.
Proof.
  induction tags as [|tag tags IH]; cbn [ruleSets_not_pure_ip]; [done|]. rewrite same.
  destruct (lookupDNSRuleSetMetadata _ _ _); cbn [bind_result]; [by rewrite IH|done|done].
Qed.

Lemma mergeAll_ext {A} msg (f g : A -> result dnsRuleModeFlags) xs :
  Forall (fun x => f x = g x) xs -> forall i flags, mergeAll msg f i xs flags = mergeAll msg g i xs flags.
Proof.
  induction 1 as [|x xs Hx _ IH]; intros i flags; cbn [mergeAll]; [done|]. rewrite Hx.
  destruct (with_cause _ _); cbn [bind_result]; [apply IH|done|done].
Qed.

Lemma orAll_ext {A} msg (f g : A -> result bool) xs :
  Forall (fun x => f x = g x) xs -> forall i b, orAll msg f i xs b = orAll msg g i xs b.
Proof.
  induction 1 as [|x xs Hx _ IH]; intros i b; cbn [orAll]; [done|]. rewrite Hx.
  destruct (with_cause _ _); cbn [bind_result]; [apply IH|done|done].
Qed.

Lemma requirements_same rule :
  dnsRuleModeRequirementsInRule (Some rs1) o1 rule = dnsRuleModeRequirementsInRule (Some rs2) o2 rule.
Proof.
  induction rule as [t d l IH] using DnsOpt.DNSRule_tree_ind. cbn [dnsRuleModeRequirementsInRule].
  destruct (Opt.isDefaultType t).
  - unfold dnsRuleModeRequirementsInDefaultRule. destruct (negb _); [done|]. apply ruleSet_flags_same.
  - destruct (String.eqb t Opt.RuleTypeLogical); [|done]. by apply mergeAll_ext.
Qed.

Lemma resolve_same rules : resolveLegacyDNSMode (Some rs1) o1 rules = resolveLegacyDNSMode (Some rs2) o2 rules.
Proof.
  unfold resolveLegacyDNSMode, dnsRuleModeRequirements.
  rewrite (mergeAll_ext _ _ (dnsRuleModeRequirementsInRule (Some rs2) o2)); [done|].
  apply Forall_forall. intros r _. apply requirements_same.
Qed.

Lemma tree_same rule :
  validateLegacyDNSModeDisabledRuleTree (Some rs1) o1 rule = validateLegacyDNSModeDisabledRuleTree (Some rs2) o2 rule.
Proof.
  induction rule as [t d l IH] using DnsOpt.DNSRule_tree_ind. cbn [validateLegacyDNSModeDisabledRuleTree].
  destruct (Opt.isDefaultType t).
  - unfold validateLegacyDNSModeDisabledDefaultRule. by rewrite ruleSets_not_pure_ip_same.
  - destruct (String.eqb t Opt.RuleTypeLogical); [|done]. by apply orAll_ext.
Qed.

Lemma validate_same rules :
  validateLegacyDNSModeDisabledRules (Some rs1) o1 rules = validateLegacyDNSModeDisabledRules (Some rs2) o2 rules.
Proof.
  unfold validateLegacyDNSModeDisabledRules. generalize 0 as i, false as seen.
  induction rules as [|r rules IH]; intros i seen; cbn [validateDisabledRules_loop]; [done|]. rewrite tree_same.
  destruct (with_cause _ _); cbn [bind_result]; [|done..]. destruct (_ && _); [done|apply IH].
Qed.
End Same.

(** An override is an updated rule-set. *)
Lemma override_update tag metadata rs t :
  lookupDNSRuleSetMetadata (Some rs) {[ tag := metadata ]} t = lookupDNSRuleSetMetadata (Some (updateMetadata tag metadata rs)) ∅ t.
Proof.
  unfold lookupDNSRuleSetMetadata, updateMetadata. rewrite lookup_empty. destruct (decide (t = tag)) as [->|Hne].
  - by rewrite lookup_singleton_eq.
  - by rewrite lookup_singleton_ne by done.
Qed.

(** ** The mode fits the rules *)

(** The router runs in mode [legacy] with rule-sets of metadata [rs]: in legacy
    mode no rule needs the other; in the other mode no rule needs legacy mode
    and the rules pass its validation. *)
Definition mode_ok (rs : string -> option RuleSetMetadata) (legacy : bool) (rules : list DnsOpt.DNSRule) : Prop :=
  exists candidate flags, resolveLegacyDNSMode (Some rs) ∅ rules = Ok (candidate, flags) /\
    if legacy then disabled flags = false
    else candidate = false /\ validateLegacyDNSModeDisabledRules (Some rs) ∅ rules = Ok tt.

Lemma resolve_disabled rs o rules candidate flags :
  resolveLegacyDNSMode rs o rules = Ok (candidate, flags) -> disabled flags = true -> candidate = false.
Proof.
  unfold resolveLegacyDNSMode. destruct (dnsRuleModeRequirements rs o rules) as [f| |]; cbn [bind_result]; [|done..].
  destruct (disabled f) eqn:Ed, (neededFromStrategy f); cbn [andb]; intros [= <- <-]; congruence.
Qed.

(** A started, running router accepts exactly the updates that fit its mode. *)
Lemma update_accepted_iff rs rules legacy tag metadata :
  ValidateRuleSetMetadataUpdate (Some rs) rules true legacy false tag metadata = Ok tt <->
  mode_ok (updateMetadata tag metadata rs) legacy rules.
Proof.
  assert (mode_ok (updateMetadata tag metadata rs) legacy rules <->
    exists candidate flags, resolveLegacyDNSMode (Some rs) {[ tag := metadata ]} rules = Ok (candidate, flags) /\
    if legacy then disabled flags = false
    else candidate = false /\ validateLegacyDNSModeDisabledRules (Some rs) {[ tag := metadata ]} rules = Ok tt) as ->.
  { unfold mode_ok. by rewrite (resolve_same _ _ _ _ (override_update tag metadata rs)),
      (validate_same _ _ _ _ (override_update tag metadata rs)). }
  unfold ValidateRuleSetMetadataUpdate. destruct rules as [|r rest].
  { split; [|done]. intros _. exists false, noFlags. by destruct legacy. }
  remember (r :: rest) as rules eqn:Er. clear Er. cbn [negb].
  destruct (resolveLegacyDNSMode _ _ rules) as [[candidate flags]| |] eqn:Eres; cbn [bind_result];
    [|by split; [|intros (? & ? & ? & _)]..].
  pose proof (resolve_disabled _ _ _ _ _ Eres) as Hd. split.
  - intros H. exists candidate, flags. split; [done|]. destruct legacy, candidate; cbn [negb andb] in H; try done.
    + by destruct (disabled flags); [specialize (Hd eq_refl)|].
    + destruct (disabled flags); [|done].
      destruct (validateLegacyDNSModeDisabledRules _ _ _); by cbn [bind_result] in H.
  - intros (? & ? & [= <- <-] & H). destruct legacy; [|destruct H as [-> ->]; done]. rewrite H. by rewrite andb_false_r.
Qed.

(** ** Response matching comes after an evaluation *)

(** The rule looks at a response, or answers with one. *)
Definition default_uses_response (d : DnsOpt.DefaultDNSRule) : bool :=
  DnsOpt.MatchResponse d || hasResponseMatchFields d || given (DnsOpt.IPCIDR d) || DnsOpt.IPIsPrivate d || DnsOpt.IPAcceptAny d
  || String.eqb (DnsOpt.Action (DnsOpt.ruleAction d)) RuleActionTypeRespond.

Fixpoint uses_response (rule : DnsOpt.DNSRule) : bool :=
  match rule with
  | DnsOpt.mkDNSRule t d l =>
      if Opt.isDefaultType t then default_uses_response d
      else if String.eqb t Opt.RuleTypeLogical then
        String.eqb (dnsRuleActionType rule) RuleActionTypeRespond || existsb uses_response (DnsOpt.Rules l)
      else false
  end.

Lemma default_requires rs o d b :
  validateLegacyDNSModeDisabledDefaultRule rs o d = Ok b -> default_uses_response d = b.
Proof.
  unfold validateLegacyDNSModeDisabledDefaultRule, default_uses_response.
  destruct (DnsOpt.MatchResponse d); cbn [negb andb orb].
  - rewrite andb_false_r. cbn [bind_result]. destruct (DnsOpt.RuleSetIPCIDRAcceptEmpty d); [done|]. congruence.
  - rewrite andb_true_r. destruct (_ || _ || _ || _); [done|].
    destruct (if given (DnsOpt.RuleSet d) then _ else _); cbn [bind_result]; [|done..].
    destruct (DnsOpt.RuleSetIPCIDRAcceptEmpty d); [done|]. intros [= <-]. done.
Qed.

Lemma orAll_existsb {A} msg (f : A -> result bool) (p : A -> bool) xs :
  Forall (fun x => forall b, f x = Ok b -> p x = b) xs ->
  forall i b0 b, orAll msg f i xs b0 = Ok b -> b0 || existsb p xs = b.
Proof.
  induction 1 as [|x xs Hx _ IH]; intros i b0 b Ho; cbn [orAll existsb] in *; [rewrite orb_false_r; congruence|].
  destruct (with_cause _ _) as [sub| |] eqn:E; cbn [bind_result] in Ho; [|done..]. apply with_cause_is_Ok in E.
  apply IH in Ho. rewrite (Hx _ E), orb_assoc. done.
Qed.

Lemma tree_requires rs o rule b : validateLegacyDNSModeDisabledRuleTree rs o rule = Ok b -> uses_response rule = b.
Proof.
  revert b. induction rule as [t d l IH] using DnsOpt.DNSRule_tree_ind. intros b.
  cbn [validateLegacyDNSModeDisabledRuleTree uses_response].
  destruct (Opt.isDefaultType t); [apply default_requires|]. destruct (String.eqb t Opt.RuleTypeLogical); [|congruence].
  by apply orAll_existsb.
Qed.

Lemma validate_loop_spec rs o rules : forall i seen, validateDisabledRules_loop rs o i rules seen = Ok tt ->
  forall k rule, rules !! k = Some rule -> uses_response rule = true -> seen = false ->
  exists j rule', (j < k)%nat /\ rules !! j = Some rule' /\ dnsRuleActionType rule' = RuleActionTypeEvaluate.
Proof.
  induction rules as [|r rules IH]; intros i seen H k rule Hk Hu ->; [done|]. cbn [validateDisabledRules_loop] in H.
  destruct (with_cause _ _) as [b| |] eqn:E; cbn [bind_result] in H; [|done..]. apply with_cause_is_Ok, tree_requires in E.
  destruct (b && negb false) eqn:Eb; [done|]. destruct k as [|k]; [injection Hk as ->; cbn [negb] in Eb; rewrite andb_true_r in Eb; congruence|].
  cbn [lookup list_lookup] in Hk. destruct (String.eqb (dnsRuleActionType r) RuleActionTypeEvaluate) eqn:Ee.
  - exists 0%nat, r. split; [lia|]. split; [done|]. by apply String.eqb_eq.
  - destruct (IH _ _ H k rule Hk Hu eq_refl) as (j & r' & ? & ? & ?). exists (S j), r'. split; [lia|done].
Qed.
