(* ===== verification/DnsRuleBuild.v ===== *)
(** * Building DNS rules (route/rule/rule_dns.go, rule_action.go)

    From the options of a DNS rule to the rule the router holds: the items of
    the conditions, the action, the references to rule-sets (RuleObject);
    [view] is the rule tree of DnsRule with the rules these sets have at the
    moment.  Starting a DNS rule also resolves the servers named in
    [preferred_by]. *)
From Stdlib Require Import ZArith Lia Bool.
From Stdlib Require Import Ascii.
From S2P Require Import Prelude GoIO DnsMsg Metadata RuleItem MatchState RuleEngine RuleTheorems DnsRule HeadlessRule Srs SavedBinary RuleSet RuleSetTheorems RuleObject DnsClient DnsOptions.

(** ** Actions *)

Record RuleActionDNSRouteOptions := mkDNSRouteOptions {
  ra_Strategy : Z;
  ra_Timeout : Z;
  ra_DisableCache : bool;
  ra_DisableOptimisticCache : bool;
  ra_RewriteTTL : option Z;
  ra_ClientSubnet : Prefix;
}.

(** The actions of DNS rules; a record of a predefined response may be nil. *)
Inductive DNSAction :=
| RuleActionDNSRoute (server : string) (options : RuleActionDNSRouteOptions)
| RuleActionEvaluate (server : string) (options : RuleActionDNSRouteOptions)
| RuleActionRespond
| RuleActionDNSOptions (options : RuleActionDNSRouteOptions)
| RuleActionDNSReject (method : string) (noDrop : bool)
| RuleActionPredefined (rcode : Z) (answer ns extra : list (option RR)).

(** [common.PtrValueOrDefault] of a prefix. *)
Definition prefix_or_zero (p : option Prefix) : Prefix := default (mkPrefix AddrInvalid (-1)) p.

Definition routeOptions_of (o : DnsOpt.DNSRouteActionOptions) : RuleActionDNSRouteOptions :=
  mkDNSRouteOptions (DnsOpt.Strategy o) (DnsOpt.Timeout o) (DnsOpt.DisableCache o) (DnsOpt.DisableOptimisticCache o)
    (DnsOpt.RewriteTTL o) (prefix_or_zero (DnsOpt.ClientSubnet o)).

(** The outer option is the nil action. *)
Definition NewDNSRuleAction (action : DnsOpt.DNSRuleAction) : result (option DNSAction) :=
  let t := DnsOpt.Action action in
  if String.eqb t "" then Ok None
  else if String.eqb t RuleActionTypeRoute then
    Ok (Some (RuleActionDNSRoute (DnsOpt.Server (DnsOpt.RouteOptions action)) (routeOptions_of (DnsOpt.RouteOptions action))))
  else if String.eqb t RuleActionTypeEvaluate then
    Ok (Some (RuleActionEvaluate (DnsOpt.Server (DnsOpt.RouteOptions action)) (routeOptions_of (DnsOpt.RouteOptions action))))
  else if String.eqb t RuleActionTypeRespond then Ok (Some RuleActionRespond)
  else if String.eqb t RuleActionTypeRouteOptions then
    let o := DnsOpt.RouteOptionsOptions action in
    Ok (Some (RuleActionDNSOptions (mkDNSRouteOptions (DnsOpt.o_Strategy o) (DnsOpt.o_Timeout o) (DnsOpt.o_DisableCache o)
                (DnsOpt.o_DisableOptimisticCache o) (DnsOpt.o_RewriteTTL o) (prefix_or_zero (DnsOpt.o_ClientSubnet o)))))
  else if String.eqb t RuleActionTypeReject then
    Ok (Some (RuleActionDNSReject (DnsOpt.Method (DnsOpt.RejectOptions action)) (DnsOpt.NoDrop (DnsOpt.RejectOptions action))))
  else if String.eqb t RuleActionTypePredefined then
    let o := DnsOpt.PredefinedOptions action in
    Ok (Some (RuleActionPredefined (default RcodeSuccess (DnsOpt.Rcode o)) (map dro_RR (elems (DnsOpt.Answer o)))
                (map dro_RR (elems (DnsOpt.Ns o))) (map dro_RR (elems (DnsOpt.Extra o)))))
  else Panic ("unknown rule action: " +:+ t).

(** [strings.HasPrefix(s, "*")], [s[1:]], [strings.HasSuffix]. *)
Definition wildcard_tail (s : string) : option string :=
  match s with String c rest => if Ascii.eqb c "*"%char then Some rest else None | EmptyString => None end.

Fixpoint strings_HasSuffix (s suffix : string) : bool :=
  String.eqb s suffix || match s with EmptyString => false | String _ s' => strings_HasSuffix s' suffix end.

Definition rewriteRecord (question : Question) (it : RR) : RR :=
  match wildcard_tail (rr_Name it) with
  | Some tail => if strings_HasSuffix (q_Name question) tail
      then mkRR (q_Name question) (rr_Rrtype it) (rr_Class it) (rr_Ttl it) (rr_Data it) else it
  | None => it
  end.

Definition rewriteRecords (records : list (option RR)) (question : Question) : result (list RR) :=
  map_result (fun it => match it with
    | Some record => Ok (rewriteRecord question record)
    | None => Panic "invalid memory address or nil pointer dereference"
    end) records.

(** [RuleActionPredefined.Response]. *)
Definition Predefined_Response (rcode : Z) (answer ns extra : list (option RR)) (request : Msg) : result Msg :=
  match Msg_Question request with
  | [] => Panic "index out of range"
  | question :: _ =>
      let* answer := rewriteRecords answer question in
      let* ns := rewriteRecords ns question in
      let* extra := rewriteRecords extra question in
      Ok (mkMsg (Msg_Id request) true true true true rcode (Msg_Question request) answer ns extra)
  end.

(** *** Rejections *)

Definition ErrReset : go_error := ENew "reset".          (* tun.ErrReset *)
Definition ErrDrop : go_error := ENew "drop".            (* tun.ErrDrop *)

(** [RuleActionReject.Error]; the state is [dropCounter], the times of the
    rejections of the last 30 seconds. *)
Definition Reject_Error (now : Z) (method : string) (noDrop : bool) (dropCounter : list Z)
    : result (option go_error) * list Z :=
  if String.eqb method RuleActionRejectMethodDefault then
    if noDrop then (Ok (Some (RejectedError ErrReset)), dropCounter)
    else
      let dropCounter := List.filter (fun t => now - t <=? 30 * Second) dropCounter ++ [now] in
      (Ok (Some (RejectedError (if 50 <? zlen dropCounter then ErrDrop else ErrReset))), dropCounter)
  else if String.eqb method RuleActionRejectMethodDrop then (Ok (Some (RejectedError ErrDrop)), dropCounter)
  else if String.eqb method RuleActionRejectMethodReply then (Ok None, dropCounter)
  else (Panic ("unknown reject method: " +:+ method), dropCounter).

(** ** Rules *)

(** A DNS rule holds [matchResponse] next to its conditions and its action. *)
Abbreviation DNSRuleObject := (RuleObject bool DNSAction).

Section WithEnv.
Context `{GE : GoEnv}.

Definition validateDNSRuleAction (action : DnsOpt.DNSRuleAction) : result unit :=
  if String.eqb (DnsOpt.Action action) RuleActionTypeReject
     && String.eqb (DnsOpt.Method (DnsOpt.RejectOptions action)) RuleActionRejectMethodReply
  then Err (ENew "reject method `reply` is not supported for DNS rules")
  else Ok tt.

Definition ErrGeositeRemoved : go_error :=
  ENew "geosite database is deprecated in sing-box 1.8.0 and removed in sing-box 1.12.0".
Definition ErrGeoIPRemoved : go_error :=
  ENew "geoip database is deprecated in sing-box 1.8.0 and removed in sing-box 1.12.0".

(** [if cond { return nil, err }] *)
Definition guard (cond : bool) (err : go_error) : result unit := if cond then Err err else Ok tt.

Definition NewDefaultDNSRule (options : DnsOpt.DefaultDNSRule) (legacyDNSMode : bool) : result DNSRuleObject :=
  let* action := NewDNSRuleAction (DnsOpt.ruleAction options) in
  let rule := emptyRule (DnsOpt.Invert options) in
  let* rule := add append_items (when (given (DnsOpt.Inbound options)) (Ok (NewInboundRule (elems (DnsOpt.Inbound options))))) rule in
  let* rule := add append_items
    (when (0 <? DnsOpt.IPVersion options)
       (if (DnsOpt.IPVersion options =? 4) || (DnsOpt.IPVersion options =? 6)
        then Ok (NewIPVersionItem (DnsOpt.IPVersion options =? 6))
        else Err (ENew ("invalid ip version: " +:+ pretty (DnsOpt.IPVersion options))))) rule in
  let* rule := add append_items (when (given (DnsOpt.QueryType options)) (Ok (NewQueryTypeItem (elems (DnsOpt.QueryType options))))) rule in
  let* rule := add append_items (when (given (DnsOpt.Network options)) (Ok (NewNetworkItem (elems (DnsOpt.Network options))))) rule in
  let* rule := add append_items (when (given (DnsOpt.AuthUser options)) (Ok (NewAuthUserItem (elems (DnsOpt.AuthUser options))))) rule in
  let* rule := add append_items (when (given (DnsOpt.Protocol options)) (Ok (NewProtocolItem (elems (DnsOpt.Protocol options))))) rule in
  let* rule := add append_destinationAddress
    (when (given (DnsOpt.Domain options) || given (DnsOpt.DomainSuffix options))
       (NewDomainItem (elems (DnsOpt.Domain options)) (elems (DnsOpt.DomainSuffix options)))) rule in
  let* rule := add append_destinationAddress
    (when (given (DnsOpt.DomainKeyword options)) (Ok (NewDomainKeywordItem (elems (DnsOpt.DomainKeyword options))))) rule in
  let* rule := add append_destinationAddress
    (when (given (DnsOpt.DomainRegex options))
       (with_cause "domain_regex" (NewDomainRegexItem (elems (DnsOpt.DomainRegex options))))) rule in
  let* _ := guard (given (DnsOpt.Geosite options)) ErrGeositeRemoved in
  let* _ := guard (given (DnsOpt.SourceGeoIP options)) ErrGeoIPRemoved in
  let* _ := guard (given (DnsOpt.GeoIP options)) ErrGeoIPRemoved in
  let* rule := add append_sourceAddress
    (when (given (DnsOpt.SourceIPCIDR options))
       (with_cause "source_ip_cidr" (NewIPCIDRItem true (elems (DnsOpt.SourceIPCIDR options))))) rule in
  let* rule := add append_destinationIPCIDR
    (when (given (DnsOpt.IPCIDR options)) (with_cause "ip_cidr" (NewIPCIDRItem false (elems (DnsOpt.IPCIDR options))))) rule in
  let* rule := add append_sourceAddress (when (DnsOpt.SourceIPIsPrivate options) (Ok (NewIPIsPrivateItem true))) rule in
  let* rule := add append_destinationIPCIDR (when (DnsOpt.IPIsPrivate options) (Ok (NewIPIsPrivateItem false))) rule in
  let* rule := add append_destinationIPCIDR (when (DnsOpt.IPAcceptAny options) (Ok NewIPAcceptAnyItem)) rule in
  let* rule := add append_items (option_map (fun rcode => Ok (NewDNSResponseRCodeItem rcode)) (DnsOpt.ResponseRcode options)) rule in
  let* rule := add append_items
    (when (given (DnsOpt.ResponseAnswer options))
       (Ok (NewDNSResponseRecordItem "response_answer" (elems (DnsOpt.ResponseAnswer options)) dnsResponseAnswers))) rule in
  let* rule := add append_items
    (when (given (DnsOpt.ResponseNs options))
       (Ok (NewDNSResponseRecordItem "response_ns" (elems (DnsOpt.ResponseNs options)) dnsResponseNS))) rule in
  let* rule := add append_items
    (when (given (DnsOpt.ResponseExtra options))
       (Ok (NewDNSResponseRecordItem "response_extra" (elems (DnsOpt.ResponseExtra options)) dnsResponseExtra))) rule in
  let* rule := add append_sourcePort (when (given (DnsOpt.SourcePort options)) (Ok (NewPortItem true (elems (DnsOpt.SourcePort options))))) rule in
  let* rule := add append_sourcePort
    (when (given (DnsOpt.SourcePortRange options))
       (with_cause "source_port_range" (NewPortRangeItem true (elems (DnsOpt.SourcePortRange options))))) rule in
  let* rule := add append_destinationPort (when (given (DnsOpt.Port options)) (Ok (NewPortItem false (elems (DnsOpt.Port options))))) rule in
  let* rule := add append_destinationPort
    (when (given (DnsOpt.PortRange options))
       (with_cause "port_range" (NewPortRangeItem false (elems (DnsOpt.PortRange options))))) rule in
  let* rule := add append_items (when (given (DnsOpt.ProcessName options)) (Ok (NewProcessItem (elems (DnsOpt.ProcessName options))))) rule in
  let* rule := add append_items (when (given (DnsOpt.ProcessPath options)) (Ok (NewProcessPathItem (elems (DnsOpt.ProcessPath options))))) rule in
  let* rule := add append_items
    (when (given (DnsOpt.ProcessPathRegex options))
       (with_cause "process_path_regex" (NewProcessPathRegexItem (elems (DnsOpt.ProcessPathRegex options))))) rule in
  let* rule := add append_items (when (given (DnsOpt.User options)) (Ok (NewUserItem (elems (DnsOpt.User options))))) rule in
  let* rule := add append_items (when (given (DnsOpt.UserID options)) (Ok (NewUserIDItem (elems (DnsOpt.UserID options))))) rule in
  let* rule := add append_items (when (given (DnsOpt.Outbound options)) (Ok (NewOutboundRule (elems (DnsOpt.Outbound options))))) rule in
  let* rule := add append_items
    (when (negb (String.eqb (DnsOpt.ClashMode options) "")) (Ok (NewClashModeItem (DnsOpt.ClashMode options)))) rule in
  let* rule := add append_items (when (given (DnsOpt.NetworkType options)) (Ok (NewNetworkTypeItem (elems (DnsOpt.NetworkType options))))) rule in
  let* rule := add append_items (when (DnsOpt.NetworkIsExpensive options) (Ok NetworkIsExpensiveItem)) rule in
  let* rule := add append_items (when (DnsOpt.NetworkIsConstrained options) (Ok NetworkIsConstrainedItem)) rule in
  let* rule := add append_items (when (given (DnsOpt.WIFISSID options)) (Ok (NewWIFISSIDItem (elems (DnsOpt.WIFISSID options))))) rule in
  let* rule := add append_items (when (given (DnsOpt.WIFIBSSID options)) (Ok (NewWIFIBSSIDItem (elems (DnsOpt.WIFIBSSID options))))) rule in
  let* rule := add append_items
    (when (given (DnsOpt.InterfaceAddress options)) (Ok (NewInterfaceAddressItem (elems (DnsOpt.InterfaceAddress options))))) rule in
  let* rule := add append_items
    (when (given (DnsOpt.NetworkInterfaceAddress options))
       (Ok (NewNetworkInterfaceAddressItem (elems (DnsOpt.NetworkInterfaceAddress options))))) rule in
  let* rule := add append_items
    (when (given (DnsOpt.DefaultInterfaceAddress options))
       (Ok (NewDefaultInterfaceAddressItem (elems (DnsOpt.DefaultInterfaceAddress options))))) rule in
  let* rule := add append_items
    (when (given (DnsOpt.SourceMACAddress options)) (Ok (NewSourceMACAddressItem (elems (DnsOpt.SourceMACAddress options))))) rule in
  let* rule := add append_items
    (when (given (DnsOpt.SourceHostname options)) (Ok (NewSourceHostnameItem (elems (DnsOpt.SourceHostname options))))) rule in
  let* rule := add append_items
    (when (given (DnsOpt.PreferredBy options)) (Ok (NewPreferredByDNSItem (elems (DnsOpt.PreferredBy options))))) rule in
  let* _ := guard (DnsOpt.RuleSetIPCIDRAcceptEmpty options && negb legacyDNSMode)
    (ENew (MessageWithLink OptionRuleSetIPCIDRAcceptEmpty)) in
  let* ruleSet :=
    if given (DnsOpt.RuleSet options) then
      let* _ := guard (DnsOpt.Deprecated_RulesetIPCIDRMatchSource options)
        (ENew "rule_set_ipcidr_match_source is deprecated in sing-box 1.10.0 and removed in sing-box 1.11.0") in
      Ok (Some (mkRuleSetRef (elems (DnsOpt.RuleSet options)) [] (DnsOpt.RuleSetIPCIDRMatchSource options)
                  (DnsOpt.RuleSetIPCIDRAcceptEmpty options)))
    else Ok None in
  Ok (DefaultObject rule ruleSet (DnsOpt.MatchResponse options) action).

(** The guards [NewDNSRule] has in common for both kinds of rule. *)
Definition checkDNSRule (checkServer : bool) (action : DnsOpt.DNSRuleAction) : result unit :=
  let* _ := guard (negb checkServer && String.eqb (DnsOpt.Action action) RuleActionTypeEvaluate)
    (ENew (DnsOpt.Action action +:+ " is only allowed on top-level DNS rules")) in
  let* _ := validateDNSRuleAction action in
  guard (isRouteAction (DnsOpt.Action action) && String.eqb (DnsOpt.Server (DnsOpt.RouteOptions action)) "" && checkServer)
    (ENew "missing server field").

(** [NewLogicalDNSRule], over [NewDNSRule] for the sub-rules. *)
Definition NewLogicalDNSRule (NewSubRule : DnsOpt.DNSRule -> result DNSRuleObject) (options : DnsOpt.LogicalDNSRule DnsOpt.DNSRule)
    : result DNSRuleObject :=
  let* action := NewDNSRuleAction (DnsOpt.logicalAction options) in
  let* mode :=
    if String.eqb (DnsOpt.Mode options) "and" then Ok LogicalTypeAnd
    else if String.eqb (DnsOpt.Mode options) "or" then Ok LogicalTypeOr
    else Err (ENew ("unknown logical mode: " +:+ DnsOpt.Mode options)) in
  let* rules := mapi_result subRuleMsg
    (fun subRule => let* _ := validateNoNestedDNSRuleActions true subRule in NewSubRule subRule) 0 (DnsOpt.Rules options) in
  Ok (LogicalObject mode rules (DnsOpt.LogicalInvert options) action).

Fixpoint NewDNSRule (checkServer legacyDNSMode : bool) (options : DnsOpt.DNSRule) : result DNSRuleObject :=
  match options with
  | DnsOpt.mkDNSRule t d l =>
      if Opt.isDefaultType t then
        let* _ := guard (negb (DnsOpt.Default_IsValid d)) ErrMissingConditions in
        let* _ := checkDNSRule checkServer (DnsOpt.ruleAction d) in
        NewDefaultDNSRule d legacyDNSMode
      else if String.eqb t Opt.RuleTypeLogical then
        let* valid := DnsOpt.Logical_IsValid l in
        let* _ := guard (negb valid) ErrMissingConditions in
        let* _ := checkDNSRule checkServer (DnsOpt.logicalAction l) in
        NewLogicalDNSRule (NewDNSRule false legacyDNSMode) l
      else Err (ENew ("unknown rule type: " +:+ t))
  end.

(** ** Starting and closing *)

(** The transport manager as [preferred_by] reads it: a server's type, and its
    PreferredDomain when it has one. *)
Context (preferred : string -> option (string * option (string -> bool))).

(** The loop of [PreferredByDNSItem.Start]. *)
Fixpoint preferred_loop (transportTags : list string) (transports : list (string -> bool)) : result (list (string -> bool)) :=
  match transportTags with
  | [] => Ok transports
  | transportTag :: rest =>
      match preferred transportTag with
      | None => Err (ENew ("DNS server not found: " +:+ transportTag))
      | Some (type_, None) => Err (ENew ("DNS server type does not support preferred_by: " +:+ type_))
      | Some (_, Some preferredDomain) => preferred_loop rest (transports ++ [preferredDomain])
      end
  end.

Definition dns_item_started (item : RuleItem) : result RuleItem :=
  match item with
  | PreferredByDNSItem transportTags transports =>
      let* transports := preferred_loop transportTags transports in Ok (PreferredByDNSItem transportTags transports)
  | _ => Ok item
  end.

(** ** What the rule reads while it runs *)

(** The rule-sets of the router: their rules and metadata. *)
Context (ruleSets : string -> option (list Rule * RuleSetMetadata)).

Definition ruleSet_rules (tag : string) : list Rule := match ruleSets tag with Some (rules, _) => rules | None => [] end.
Definition ruleSet_metadata (tag : string) : option RuleSetMetadata := option_map snd (ruleSets tag).

(** The rule tree with the rules the held rule-sets have now. *)
Fixpoint view (rule : DNSRuleObject) : DNSRule :=
  match rule with
  | DefaultObject r ruleSet matchResponse _ =>
      DefaultDNSRule r (option_map (fun ref => mkRuleSetItem (map ruleSet_rules (heldTags ref)) (ref_matchSource ref) (ref_acceptEmpty ref)) ruleSet)
        matchResponse
  | LogicalObject mode rules inverted _ => LogicalDNSRule mode (map view rules) inverted
  end.

Definition ContainsDestinationIPCIDRRule (ref : RuleSetRef) : bool :=
  if ref_matchSource ref then false
  else existsb (fun tag => match ruleSet_metadata tag with Some m => ContainsIPCIDRRule m | None => false end) (heldTags ref).

Fixpoint WithAddressLimit (rule : DNSRuleObject) : bool :=
  match rule with
  | DefaultObject r ruleSet _ _ =>
      if nonempty (destinationIPCIDRItems r) then true
      else match ruleSet with Some ref => ContainsDestinationIPCIDRRule ref | None => false end
  | LogicalObject _ rules _ _ => existsb WithAddressLimit rules
  end.
End WithEnv.
