(* ===== verification/DnsRouter.v ===== *)
(** * The DNS router (dns/router.go)

    A query goes through the rules of the router to a server: in legacy mode
    rule by rule, with a check of the addresses of the response that may send
    the query on to the next rule ([legacy_exchange]); in the other mode in one
    pass, where a response can be evaluated, matched by the following rules and
    given as the answer ([exchangeWithRules]).  [Router_Exchange] answers a
    message, [Router_Lookup] a domain.

    Parameters: the transport manager ([Transport], [Default]; the registry of
    DnsTransport has them), the exchange with a server and the clock, both by
    the index of the rule that asks (after the last rule, their number), the
    rule-sets of the route router, the network state.  A handler returns the
    state it leaves: the client with its caches, the background refreshes it
    started, the drop counters of the reject actions (by rule), the reverse
    mapping. *)
From Stdlib Require Import ZArith Lia Bool.
From S2P Require Import Prelude GoIO DnsMsg Metadata RuleItem MatchState RuleEngine RuleTheorems DnsRule HeadlessRule Srs SavedBinary RuleSet RuleSetTheorems RuleObject DnsClient DnsOptions DnsMode DnsRuleBuild.

Definition DNSTypeFakeIP : string := "fakeip".

(** ** Metadata *)

(** The fields of the metadata that the router writes. *)
Definition dns_update (destination : Socksaddr) (domain : string) (queryType ipVersion : Z) (response : option Msg)
    (fromResponse : bool) (c : InboundContext) : InboundContext :=
  {| Inbound := Inbound c; IPVersion := ipVersion; Network := Network c; Source := Source c;
     Destination := destination; User := User c; Outbound := Outbound c; Protocol := Protocol c;
     Domain := domain; Metadata.Client := Metadata.Client c; DestinationAddresses := DestinationAddresses c;
     DNSResponse := response; DestinationAddressMatchFromResponse := fromResponse;
     ProcessInfo := ProcessInfo c; SourceMACAddress := SourceMACAddress c;
     SourceHostname := SourceHostname c; QueryType := queryType;
     IPCIDRMatchSource := IPCIDRMatchSource c; IPCIDRAcceptEmpty := IPCIDRAcceptEmpty c;
     SourceAddressMatch := SourceAddressMatch c; SourcePortMatch := SourcePortMatch c;
     DestinationAddressMatch := DestinationAddressMatch c; DestinationPortMatch := DestinationPortMatch c;
     DidMatch := DidMatch c; IgnoreDestinationIPCIDRMatch := IgnoreDestinationIPCIDRMatch c |}.

(** [metadata.ResetRuleCache(); metadata.DNSResponse = response; metadata.DestinationAddressMatchFromResponse = false] *)
Definition reset_for_rule (response : option Msg) (c : InboundContext) : InboundContext :=
  dns_update (Destination c) (Domain c) (QueryType c) (IPVersion c) response false (ResetRuleCache c).

Definition noSocksaddr : Socksaddr := mkSocksaddr AddrInvalid 0 "".

(** [Exchange]: the metadata of a query. *)
Definition query_metadata (domain : string) (qType : Z) (c : InboundContext) : InboundContext :=
  dns_update noSocksaddr domain qType
    (if qType =? TypeA then 4 else if qType =? TypeAAAA then 6 else IPVersion c) None false c.

(** [Lookup], then [withLookupQueryMetadata]. *)
Definition lookup_metadata (domain : string) (c : InboundContext) : InboundContext :=
  dns_update noSocksaddr domain (QueryType c) (IPVersion c) None false c.

Definition withLookupQueryMetadata (qType : Z) (c : InboundContext) : InboundContext :=
  dns_update (Destination c) (Domain c) qType (if qType =? TypeA then 4 else if qType =? TypeAAAA then 6 else 0)
    (DNSResponse c) (DestinationAddressMatchFromResponse c) c.

Definition isAddressQuery (message : Msg) : bool :=
  existsb (fun question => (q_Qtype question =? TypeA) || (q_Qtype question =? TypeAAAA) || (q_Qtype question =? TypeHTTPS))
    (Msg_Question message).

Definition filterAddressesByQueryType (addresses : list Addr) (qType : Z) : list Addr :=
  if qType =? TypeA then List.filter Addr_Is4 addresses
  else if qType =? TypeAAAA then List.filter Addr_Is6 addresses
  else addresses.

(** ** Query options *)

Section Options.
Context {T : Type}.

Definition qo_update (strategy : Z) (disableCache disableOptimistic : bool) (rewriteTTL : option Z) (timeout : Z)
    (subnet : Prefix) (o : DNSQueryOptions T) : DNSQueryOptions T :=
  mkQueryOptions (qo_Transport o) strategy (qo_LookupStrategy o) disableCache disableOptimistic rewriteTTL timeout subnet.

(** The options a rule of the legacy mode sets, [isFakeIP] when its server is one. *)
Definition legacyRouteOptions (isFakeIP : bool) (action : RuleActionDNSRouteOptions) (o : DNSQueryOptions T) : DNSQueryOptions T :=
  qo_update (if negb (ra_Strategy action =? DomainStrategyAsIS) then ra_Strategy action else qo_Strategy o)
    (if isFakeIP || ra_DisableCache action then true else qo_DisableCache o) (qo_DisableOptimisticCache o)
    (match ra_RewriteTTL action with Some ttl => Some ttl | None => qo_RewriteTTL o end)
    (if 0 <? ra_Timeout action then ra_Timeout action else qo_Timeout o)
    (if Prefix_IsValid (ra_ClientSubnet action) then ra_ClientSubnet action else qo_ClientSubnet o) o.

(** The strategy is left out. *)
Definition applyDNSRouteOptions (routeOptions : RuleActionDNSRouteOptions) (o : DNSQueryOptions T) : DNSQueryOptions T :=
  qo_update (qo_Strategy o) (ra_DisableCache routeOptions || qo_DisableCache o)
    (ra_DisableOptimisticCache routeOptions || qo_DisableOptimisticCache o)
    (match ra_RewriteTTL routeOptions with Some ttl => Some ttl | None => qo_RewriteTTL o end)
    (if 0 <? ra_Timeout routeOptions then ra_Timeout routeOptions else qo_Timeout o)
    (if Prefix_IsValid (ra_ClientSubnet routeOptions) then ra_ClientSubnet routeOptions else qo_ClientSubnet o) o.

Definition disableCaching (o : DNSQueryOptions T) : DNSQueryOptions T :=
  qo_update (qo_Strategy o) true (qo_DisableOptimisticCache o) (qo_RewriteTTL o) (qo_Timeout o) (qo_ClientSubnet o) o.

(** [if options.Strategy == C.DomainStrategyAsIS { options.Strategy = r.defaultDomainStrategy }] *)
Definition withDefaultStrategy (defaultStrategy : Z) (o : DNSQueryOptions T) : DNSQueryOptions T :=
  if qo_Strategy o =? DomainStrategyAsIS then qo_set_Strategy defaultStrategy o else o.
End Options.

(** ** The router *)

Section Router.
Context `{GE : GoEnv} (rt : RuntimeState).
Context {DL : DnsLib} {P : Type} {DS : DNSCacheStore P} {R : Type} {RS : RDRCStore R}.
Context {LC : LRU dnsCacheKey Msg} {RM : LRU Addr string}.

(** The transport manager. *)
Context {T : Type} (transport_Tag transport_Type : T -> string) (Transport : string -> option T) (Default : option T).

(** The rule-sets of the route router. *)
Context (ruleSets : string -> option (list Rule * RuleSetMetadata)).

Abbreviation DNSClient := (Client (P := P) (R := R)).

Record Router := mkRouter {
  r_client : DNSClient;
  rawRules : list DnsOpt.DNSRule;
  r_rules : list DNSRuleObject;
  defaultDomainStrategy : Z;
  dnsReverseMapping : option (Cache Addr string);
  legacyDNSMode : bool;
  r_started : bool;
  r_closing : bool;
  r_drops : gmap nat (list Z);
}.

(** What a handler changes: the client, the refreshes started, the drop counters. *)
Record Run := mkRun { run_client : DNSClient; run_refreshes : list (T * Msg); run_drops : gmap nat (list Z) }.

Context (clock : nat -> Z) (exchange : nat -> T -> Z -> Msg -> result Msg).
Context (ctxTag : option string) (cancelled : nat -> option go_error).

Definition nilDereference : string := "invalid memory address or nil pointer dereference".

(** [r.client.Exchange] of the rule [i]; a nil transport is dereferenced. *)
Definition client_Exchange (i : nat) (transport : option T) (message : Msg) (options : DNSQueryOptions T)
    (responseChecker : option (Msg -> bool)) (run : Run) : result Msg * Run :=
  match transport with
  | None => (Panic nilDereference, run)
  | Some transport =>
      let '(r, cl, refresh) := Exchange transport_Tag (clock i) ctxTag (cancelled i) (exchange i transport) transport message
                                 options responseChecker (run_client run) in
      (r, mkRun cl (run_refreshes run ++ map (pair transport) (option_list refresh)) (run_drops run))
  end.

(** *** Legacy mode *)

Record Matched := mkMatched {
  m_transport : option T;
  m_rule : option (nat * DNSRuleObject);
  m_options : DNSQueryOptions T;
  m_metadata : InboundContext;
}.

(** The loop of [matchDNS] over the rules from index [i] on. *)
Fixpoint matchDNS_loop (allowFakeIP addressQuery : bool) (i : nat) (rules : list DNSRuleObject)
    (options : DNSQueryOptions T) (metadata : InboundContext) : Matched :=
  match rules with
  | [] => mkMatched Default None options metadata
  | currentRule :: rest =>
      if WithAddressLimit ruleSets currentRule && negb addressQuery
      then matchDNS_loop allowFakeIP addressQuery (S i) rest options metadata
      else
        let metadata := reset_for_rule (DNSResponse metadata) metadata in
        let '(matched, metadata) := LegacyPreMatch rt (view ruleSets currentRule) metadata in
        if negb matched then matchDNS_loop allowFakeIP addressQuery (S i) rest options metadata
        else
          match Action currentRule with
          | Some (RuleActionDNSRoute server action) =>
              match Transport server with
              | None => matchDNS_loop allowFakeIP addressQuery (S i) rest options metadata
              | Some transport =>
                  let isFakeIP := String.eqb (transport_Type transport) DNSTypeFakeIP in
                  if isFakeIP && negb allowFakeIP
                  then matchDNS_loop allowFakeIP addressQuery (S i) rest options metadata
                  else mkMatched (Some transport) (Some (i, currentRule)) (legacyRouteOptions isFakeIP action options) metadata
              end
          | Some (RuleActionDNSOptions action) =>
              matchDNS_loop allowFakeIP addressQuery (S i) rest (legacyRouteOptions false action options) metadata
          | Some (RuleActionDNSReject _ _) | Some (RuleActionPredefined _ _ _ _) =>
              mkMatched None (Some (i, currentRule)) options metadata
          | _ => matchDNS_loop allowFakeIP addressQuery (S i) rest options metadata
          end
  end.

(** [ruleIndex]: the rule matched last, None for -1. *)
Definition matchDNS (rules : list DNSRuleObject) (allowFakeIP addressQuery : bool) (ruleIndex : option nat)
    (options : DNSQueryOptions T) (metadata : InboundContext) : Matched :=
  let first := match ruleIndex with None => O | Some i => S i end in
  matchDNS_loop allowFakeIP addressQuery first (drop first rules) options metadata.

Definition addressLimitResponseCheck (rule : option (nat * DNSRuleObject)) (metadata : InboundContext) : option (Msg -> bool) :=
  match rule with
  | None => None
  | Some (_, rule) =>
      if negb (WithAddressLimit ruleSets rule) then None
      else Some (fun response => MatchAddressLimit rt (view ruleSets rule) metadata (Some response))
  end.

Definition isResponseRejected (e : go_error) : bool := errors_Is e ErrResponseRejectedCached || errors_Is e ErrResponseRejected.

(** The refusal of a reject action. *)
Definition refusedResponse (message : Msg) : Msg :=
  mkMsg (Msg_Id message) true false false false RcodeRefused (take 1 (Msg_Question message)) [] [] [].

(** The index of the rule that asks: [length rules] for none. *)
Definition asking (rules : list DNSRuleObject) (rule : option (nat * DNSRuleObject)) : nat :=
  match rule with Some (i, _) => i | None => length rules end.

(** How an exchange ends: with an answer and its transport, or at once. *)
Inductive Outcome :=
| Answered (r : result Msg) (transport : option T)   (* goes on to [done] *)
| Returned (r : result Msg).                         (* return *)

(** The loop of [Exchange] in legacy mode; None when the fuel runs out. *)
Fixpoint legacy_exchange (fuel : nat) (defaultStrategy : Z) (rules : list DNSRuleObject) (message : Msg)
    (options : DNSQueryOptions T) (ruleIndex : option nat) (metadata : InboundContext) (run : Run) : option (Outcome * Run) :=
  match fuel with
  | O => None
  | S fuel =>
      let m := matchDNS rules true (isAddressQuery message) ruleIndex options metadata in
      let ask :=
        let responseCheck := addressLimitResponseCheck (m_rule m) (m_metadata m) in
        let '(r, run) := client_Exchange (asking rules (m_rule m)) (m_transport m) message
                           (withDefaultStrategy defaultStrategy (m_options m)) responseCheck run in
        let rejected := match r with Err e => isResponseRejected e | _ => false end in
        if negb (bool_decide (responseCheck = None)) && rejected
        then legacy_exchange fuel defaultStrategy rules message options (option_map fst (m_rule m)) (m_metadata m) run
        else Some (Answered r (m_transport m), run) in
      match m_rule m with
      | Some (_, rule) =>
          match Action rule with
          | Some (RuleActionDNSReject method _) =>
              if String.eqb method RuleActionRejectMethodDefault then Some (Returned (Ok (refusedResponse message)), run)
              else if String.eqb method RuleActionRejectMethodDrop then Some (Returned (Err ErrDrop), run)
              else ask
          | Some (RuleActionPredefined rcode answer ns extra) =>
              Some (Answered (Predefined_Response rcode answer ns extra message) (m_transport m), run)
          | _ => ask
          end
      | None => ask
      end
  end.

(** *** The other mode *)

Inductive dnsRouteStatus := dnsRouteStatusMissing | dnsRouteStatusSkipped | dnsRouteStatusResolved.

Definition resolveDNSRoute (server : string) (routeOptions : RuleActionDNSRouteOptions) (allowFakeIP : bool)
    (options : DNSQueryOptions T) : option T * dnsRouteStatus * DNSQueryOptions T :=
  match Transport server with
  | None => (None, dnsRouteStatusMissing, options)
  | Some transport =>
      let isFakeIP := String.eqb (transport_Type transport) DNSTypeFakeIP in
      if isFakeIP && negb allowFakeIP then (Some transport, dnsRouteStatusSkipped, options)
      else
        let options := applyDNSRouteOptions routeOptions options in
        (Some transport, dnsRouteStatusResolved, if isFakeIP then disableCaching options else options)
  end.

Record exchangeWithRulesResult := mkExchangeResult {
  x_response : result Msg;
  x_transport : option T;
  x_rejectAction : option (nat * string * bool);     (* the rule, its method and NoDrop *)
}.

Definition dnsRespondMissingResponseMessage : string :=
  "respond action requires an evaluated response from a preceding evaluate action".

(** The loop over the rules from index [i] on; [evaluated] is the evaluated
    response with its transport.  [Match] writes the match cache of the metadata
    only, which the next rule resets. *)
Fixpoint exchangeWithRules_loop (defaultStrategy : Z) (allowFakeIP : bool) (message : Msg) (metadata : InboundContext)
    (i : nat) (rules : list DNSRuleObject) (effectiveOptions : DNSQueryOptions T) (evaluated : option (Msg * T)) (run : Run)
    : exchangeWithRulesResult * Run :=
  match rules with
  | [] =>
      let '(r, run) := client_Exchange i Default message (withDefaultStrategy defaultStrategy effectiveOptions) None run in
      (mkExchangeResult r Default None, run)
  | currentRule :: rest =>
      let next := exchangeWithRules_loop defaultStrategy allowFakeIP message metadata (S i) rest in
      if negb (DNSRule_Match rt (view ruleSets currentRule) (reset_for_rule (option_map fst evaluated) metadata))
      then next effectiveOptions evaluated run
      else
        match Action currentRule with
        | Some (RuleActionDNSOptions action) => next (applyDNSRouteOptions action effectiveOptions) evaluated run
        | Some (RuleActionEvaluate server action) =>
            match Transport server with
            | None => next effectiveOptions None run
            | Some transport =>
                let queryOptions := applyDNSRouteOptions action effectiveOptions in
                let '(r, run) := client_Exchange i (Some transport) message (withDefaultStrategy defaultStrategy queryOptions) None run in
                match r with
                | Ok response => next effectiveOptions (Some (response, transport)) run
                | Err _ => next effectiveOptions None run
                | Panic s => (mkExchangeResult (Panic s) None None, run)
                end
            end
        | Some RuleActionRespond =>
            match evaluated with
            | None => (mkExchangeResult (Err (ENew dnsRespondMissingResponseMessage)) None None, run)
            | Some (response, transport) => (mkExchangeResult (Ok response) (Some transport) None, run)
            end
        | Some (RuleActionDNSRoute server action) =>
            match resolveDNSRoute server action allowFakeIP effectiveOptions with
            | (transport, dnsRouteStatusResolved, queryOptions) =>
                let '(r, run) := client_Exchange i transport message (withDefaultStrategy defaultStrategy queryOptions) None run in
                (mkExchangeResult r transport None, run)
            | _ => next effectiveOptions evaluated run
            end
        | Some (RuleActionDNSReject method noDrop) =>
            if String.eqb method RuleActionRejectMethodDefault
            then (mkExchangeResult (Ok (refusedResponse message)) None (Some (i, method, noDrop)), run)
            else if String.eqb method RuleActionRejectMethodDrop
            then (mkExchangeResult (Err ErrDrop) None (Some (i, method, noDrop)), run)
            else next effectiveOptions evaluated run
        | Some (RuleActionPredefined rcode answer ns extra) =>
            (mkExchangeResult (Predefined_Response rcode answer ns extra message) None None, run)
        | None => next effectiveOptions evaluated run
        end
  end.

Definition exchangeWithRules (defaultStrategy : Z) (rules : list DNSRuleObject) (message : Msg) (options : DNSQueryOptions T)
    (allowFakeIP : bool) (metadata : InboundContext) (run : Run) : exchangeWithRulesResult * Run :=
  exchangeWithRules_loop defaultStrategy allowFakeIP message metadata 0 rules options None run.

(** *** Exchange *)

Definition ErrRouterClosed : go_error := ENew "dns router closed".

(** The records of an answer that enter the reverse mapping. *)
Fixpoint addReverseMapping (now : Z) (answers : list RR) (m : Cache Addr string) : Cache Addr string :=
  match answers with
  | [] => m
  | answer :: rest =>
      let add bytes := cache_AddWithLifetime now (AddrFromIP bytes) (FqdnToDomain (rr_Name answer)) (rr_Ttl answer * Second) m in
      addReverseMapping now rest
        (match rr_Data answer with RD_A a => add a | RD_AAAA aaaa => add aaaa | _ => m end)
  end.

Definition isFakeIPTransport (transport : option T) : bool :=
  match transport with Some t => String.eqb (transport_Type t) DNSTypeFakeIP | None => false end.

Definition r_set_run (run : Run) (mapping : option (Cache Addr string)) (r : Router) : Router :=
  mkRouter (run_client run) (rawRules r) (r_rules r) (defaultDomainStrategy r) mapping (legacyDNSMode r) (r_started r)
    (r_closing r) (run_drops run).

Definition run_of (r : Router) : Run := mkRun (r_client r) [] (r_drops r).

(** After [done]. *)
Definition finishExchange (now : Z) (outcome : Outcome) (run : Run) (r : Router) : result Msg * Router * list (T * Msg) :=
  let keep := r_set_run run (dnsReverseMapping r) r in
  match outcome with
  | Returned res => (res, keep, run_refreshes run)
  | Answered (Ok response) transport =>
      let mapping :=
        match dnsReverseMapping r with
        | Some m => if nonempty (Msg_Answer response) && negb (isFakeIPTransport transport)
                    then Some (addReverseMapping now (Msg_Answer response) m) else Some m
        | None => None
        end in
      (Ok response, r_set_run run mapping r, run_refreshes run)
  | Answered res _ => (res, keep, run_refreshes run)
  end.

(** The error [OutOfFuel] stands for fuel that ran out; [legacy_fuel_enough] shows
    that it does not. *)
Definition Router_Exchange (message : Msg) (options : DNSQueryOptions T) (metadata : InboundContext) (r : Router)
    : result Msg * Router * list (T * Msg) :=
  match Msg_Question message with
  | [question] =>
      if r_closing r then (Err ErrRouterClosed, r, [])
      else
        let rules := r_rules r in
        let metadata := query_metadata (FqdnToDomain (q_Name question)) (q_Qtype question) metadata in
        let now := clock (length rules) in
        match qo_Transport options with
        | Some transport =>
            let '(res, run) := client_Exchange (length rules) (Some transport) message
                                 (withDefaultStrategy (defaultDomainStrategy r) options) None (run_of r) in
            finishExchange now (Answered res (Some transport)) run r
        | None =>
            if negb (legacyDNSMode r) then
              let '(x, run) := exchangeWithRules (defaultDomainStrategy r) rules message options true metadata (run_of r) in
              finishExchange now (Answered (x_response x) (x_transport x)) run r
            else
              match legacy_exchange (S (length rules)) (defaultDomainStrategy r) rules message options None metadata (run_of r) with
              | Some (outcome, run) => finishExchange now outcome run r
              | None => (Err OutOfFuel, r, [])
              end
        end
  | _ => (Ok (mkMsg (Msg_Id message) true false false false RcodeFormatError (Msg_Question message) [] [] []), r, [])
  end.

(** *** Lookup *)

(** The task group of the sing library, and the order in which its two tasks take effect. *)
Context (group_Run : option go_error -> option go_error -> option go_error) (sixFirst : bool).

Definition resolveLookupStrategy (defaultStrategy : Z) (options : DNSQueryOptions T) : Z :=
  if negb (qo_LookupStrategy options =? DomainStrategyAsIS) then qo_LookupStrategy options
  else if negb (qo_Strategy options =? DomainStrategyAsIS) then qo_Strategy options
  else defaultStrategy.

(** [rejectAction.Error(ctx)] of the rule [i]; a nil error is [Ok None]. *)
Definition rejectError (i : nat) (method : string) (noDrop : bool) (run : Run) : result (option go_error) * Run :=
  let '(e, counter) := Reject_Error (clock i) method noDrop (default [] (run_drops run !! i)) in
  (e, mkRun (run_client run) (run_refreshes run) (<[i := counter]> (run_drops run))).

Definition lookupWithRulesType (defaultStrategy : Z) (rules : list DNSRuleObject) (domain : string) (qType : Z)
    (options : DNSQueryOptions T) (metadata : InboundContext) (run : Run) : result (list Addr) * Run :=
  let request := mkMsg 0 false false true false RcodeSuccess [mkQuestion (Fqdn domain) qType ClassINET] [] [] [] in
  let '(x, run) := exchangeWithRules defaultStrategy rules request options false (withLookupQueryMetadata qType metadata) run in
  match x_rejectAction x with
  | Some (i, method, noDrop) =>
      let '(e, run) := rejectError i method noDrop run in
      (match e with Ok (Some e) => Err e | Ok None => Ok [] | Err e => Err e | Panic s => Panic s end, run)
  | None =>
      (match x_response x with
       | Ok response =>
           if negb (Msg_Rcode response =? RcodeSuccess) then Err (RcodeError (Msg_Rcode response))
           else Ok (filterAddressesByQueryType (MessageToAddresses response) qType)
       | Err e => Err e
       | Panic s => Panic s
       end, run)
  end.

Definition lookupWithRules (defaultStrategy : Z) (rules : list DNSRuleObject) (domain : string) (options : DNSQueryOptions T)
    (metadata : InboundContext) (run : Run) : result (list Addr) * Run :=
  let strategy := resolveLookupStrategy defaultStrategy options in
  let lookupOptions := if negb (strategy =? DomainStrategyAsIS) then qo_set_Strategy strategy options else options in
  let ask qType run := lookupWithRulesType defaultStrategy rules domain qType lookupOptions metadata run in
  if strategy =? DomainStrategyIPv4Only then ask TypeA run
  else if strategy =? DomainStrategyIPv6Only then ask TypeAAAA run
  else
    let '(r1, run) := ask (if sixFirst then TypeAAAA else TypeA) run in
    let '(r2, run) := ask (if sixFirst then TypeA else TypeAAAA) run in
    let '(r4, r6) := if sixFirst then (r2, r1) else (r1, r2) in
    (match r4, r6 with
     | Panic s, _ | _, Panic s => Panic s
     | _, _ =>
         let addresses r := match r with Ok l => l | _ => [] end in
         let error r := match r with Err e => Some e | _ => None end in
         match addresses r4, addresses r6 with
         | [], [] => match group_Run (error r4) (error r6) with Some e => Err e | None => Ok [] end
         | response4, response6 => Ok (sortAddresses response4 response6 strategy)
         end
     end, run).

Definition client_Lookup (i : nat) (transport : option T) (domain : string) (options : DNSQueryOptions T)
    (responseChecker : option (Msg -> bool)) (run : Run) : result (list Addr) * Run :=
  match transport with
  | None => (Panic nilDereference, run)
  | Some transport =>
      let '(r, cl, refreshes) := Client_Lookup transport_Tag group_Run sixFirst (clock i) ctxTag (cancelled i)
                                   (exchange i transport) transport domain options responseChecker (run_client run) in
      (r, mkRun cl (run_refreshes run ++ map (pair transport) refreshes) (run_drops run))
  end.

(** The addresses of a predefined response. *)
Definition predefinedAddresses (answer : list (option RR)) : list Addr :=
  concat (map (fun record => match record with
    | Some rr => match rr_Data rr with RD_A a => [AddrFromIP a] | RD_AAAA aaaa => [AddrFromIP aaaa] | _ => [] end
    | None => []
    end) answer).

(** [printResult]: the error the caller sees. *)
Definition printResult (domain : string) (r : result (list Addr)) : result (list Addr) :=
  with_cause ("lookup " +:+ domain) (match r with Ok [] => Err (ENew "empty result") | _ => r end).

(** The loop of [Lookup] in legacy mode; the bool says whether [printResult] follows. *)
Fixpoint legacy_lookup (fuel : nat) (defaultStrategy : Z) (rules : list DNSRuleObject) (domain : string)
    (options : DNSQueryOptions T) (ruleIndex : option nat) (metadata : InboundContext) (run : Run)
    : option (bool * result (list Addr) * Run) :=
  match fuel with
  | O => None
  | S fuel =>
      let m := matchDNS rules false true ruleIndex options metadata in
      let ask :=
        let responseCheck := addressLimitResponseCheck (m_rule m) (m_metadata m) in
        let '(r, run) := client_Lookup (asking rules (m_rule m)) (m_transport m) domain
                           (withDefaultStrategy defaultStrategy (m_options m)) responseCheck run in
        if bool_decide (responseCheck = None) || negb (match r with Err _ => true | _ => false end)
        then Some (true, r, run)
        else legacy_lookup fuel defaultStrategy rules domain options (option_map fst (m_rule m)) (m_metadata m) run in
      match m_rule m with
      | Some (i, rule) =>
          match Action rule with
          | Some (RuleActionDNSReject method noDrop) =>
              let '(e, run) := rejectError i method noDrop run in
              Some (false, match e with
                | Ok (Some cause) => Err (RejectedError cause)
                | Ok None => Err (RejectedError (ENew "<nil>"))
                | Err e => Err e
                | Panic s => Panic s
                end, run)
          | Some (RuleActionPredefined rcode answer _ _) =>
              Some (true, if negb (rcode =? RcodeSuccess) then Err (RcodeError rcode) else Ok (predefinedAddresses answer), run)
          | _ => ask
          end
      | None => ask
      end
  end.

Definition Router_Lookup (domain : string) (options : DNSQueryOptions T) (metadata : InboundContext) (r : Router)
    : result (list Addr) * Router * list (T * Msg) :=
  if r_closing r then (Err ErrRouterClosed, r, [])
  else
    let rules := r_rules r in
    let metadata := lookup_metadata (FqdnToDomain domain) metadata in
    let finish (res : result (list Addr)) (run : Run) := (res, r_set_run run (dnsReverseMapping r) r, run_refreshes run) in
    match qo_Transport options with
    | Some transport =>
        let '(res, run) := client_Lookup (length rules) (Some transport) domain
                             (withDefaultStrategy (defaultDomainStrategy r) options) None (run_of r) in
        finish (printResult domain res) run
    | None =>
        if negb (legacyDNSMode r) then
          let '(res, run) := lookupWithRules (defaultDomainStrategy r) rules domain options metadata (run_of r) in
          finish (printResult domain res) run
        else
          match legacy_lookup (S (length rules)) (defaultDomainStrategy r) rules domain options None metadata (run_of r) with
          | Some (print, res, run) => finish (if print then printResult domain res else res) run
          | None => (Err OutOfFuel, r, [])
          end
    end.

(** *** Lifecycle *)

(** The router service of the context; a server's PreferredDomain. *)
Context (hasRouter : bool) (PreferredDomain : T -> option (string -> bool)).

Definition routerService : option (string -> option RuleSetMetadata) :=
  if hasRouter then Some (ruleSet_metadata ruleSets) else None.

Definition preferredTransport (tag : string) : option (string * option (string -> bool)) :=
  option_map (fun t => (transport_Type t, PreferredDomain t)) (Transport tag).

(** [for i, rule := range newRules { err = rule.Start() ... }]. *)
Definition startRules : list DNSRuleObject -> gmap string Z -> result (option go_error * list DNSRuleObject * gmap string Z) :=
  startIndexed (dns_item_started preferredTransport) (fun i => "initialize DNS rule[" +:+ pretty i +:+ "]").

Definition closeRules (rules : list DNSRuleObject) (refs : gmap string Z) : result (gmap string Z) :=
  let* closed := close_all object_Close rules refs in Ok (snd closed).

(** The checks and constructors of [buildRules].  A failure of a constructor
    closes the rules built so far, which hold nothing yet. *)
Definition newRules (rawRules : list DnsOpt.DNSRule) : result (list DNSRuleObject * bool * dnsRuleModeFlags) :=
  let* _ := eachi_result (fun i => "parse dns rule[" +:+ pretty i +:+ "]") ValidateNoNestedDNSRuleActions 0 rawRules in
  let* mode := resolveLegacyDNSMode routerService ∅ rawRules in
  let '(legacy, flags) := mode in
  let* _ := if negb legacy then validateLegacyDNSModeDisabledRules routerService ∅ rawRules else Ok tt in
  let* _ := validateEvaluateFakeIPRules rawRules (Some (fun tag => option_map transport_Type (Transport tag))) in
  let* rules := mapi_result (fun i => "parse dns rule[" +:+ pretty i +:+ "]") (NewDNSRule true legacy) 0 rawRules in
  Ok (rules, legacy, flags).

(** [buildRules], with the reference counts it leaves; only a panic leaves none. *)
Definition buildRules (start : bool) (rawRules : list DnsOpt.DNSRule) (refs : gmap string Z)
    : result (result (list DNSRuleObject * bool * dnsRuleModeFlags) * gmap string Z) :=
  match newRules rawRules with
  | Panic s => Panic s
  | Err e => Ok (Err e, refs)
  | Ok (rules, legacy, flags) =>
      if negb start then Ok (Ok (rules, legacy, flags), refs)
      else
        let* started := startRules rules refs in
        let '(err, rules, refs) := started in
        match err with
        | Some e => let* refs := closeRules rules refs in Ok (Err e, refs)
        | None => Ok (Ok (rules, legacy, flags), refs)
        end
  end.

(** [option.DNSOptions], as far as [NewRouter] reads it. *)
Record DNSOptions := mkDNSOptions {
  opt_Strategy : Z;
  opt_ReverseMapping : bool;
  opt_Timeout : Z;
  opt_DisableCache : bool;
  opt_DisableExpire : bool;
  opt_CacheCapacity : Z;
  opt_ClientSubnet : option Prefix;
  opt_Optimistic : option (bool * Z);              (* Enabled, Timeout *)
}.

Definition NewRouter (options : DNSOptions) : result Router :=
  let '(enabled, timeout) := default (false, 0) (opt_Optimistic options) in
  let* optimisticTimeout :=
    if enabled then
      if opt_DisableCache options then Err (ENew "`optimistic` is conflict with `disable_cache`")
      else if opt_DisableExpire options then Err (ENew "`optimistic` is conflict with `disable_expire`")
      else Ok (if timeout =? 0 then 3 * 24 * 3600 * Second else timeout)
    else Ok 0 in
  Ok (mkRouter
    (NewClient (opt_Timeout options) (opt_DisableCache options) (opt_DisableExpire options) optimisticTimeout
       (opt_CacheCapacity options) (prefix_or_zero (opt_ClientSubnet options)) true)
    [] [] (opt_Strategy options) (if opt_ReverseMapping options then Some (NewCache 1024) else None) false false false ∅).

Definition r_set_rawRules (rules : list DnsOpt.DNSRule) (r : Router) : Router :=
  mkRouter (r_client r) rules (r_rules r) (defaultDomainStrategy r) (dnsReverseMapping r) (legacyDNSMode r) (r_started r)
    (r_closing r) (r_drops r).

(** The rules built to check them are closed; they were not started. *)
Definition Router_Initialize (rules : list DnsOpt.DNSRule) (r : Router) (refs : gmap string Z)
    : result (result unit * Router * gmap string Z) :=
  let r := r_set_rawRules rules r in
  let* built := buildRules false (rawRules r) refs in
  match built with
  | (Ok (rules, _, _), refs) => let* refs := closeRules rules refs in Ok (Ok tt, r, refs)
  | (Err e, refs) => Ok (Err e, r, refs)
  | (Panic s, _) => Panic s
  end.

(** [Start(adapter.StartStateStart)]; the stores are what the client looks up. *)
Definition Router_Start (initRDRCFunc : option (option R)) (initDNSCacheFunc : option (option P)) (r : Router)
    (refs : gmap string Z) : result (result unit * Router * gmap string Z) :=
  let client := Client_Start initRDRCFunc initDNSCacheFunc (r_client r) in
  let withClient := mkRouter client (rawRules r) (r_rules r) (defaultDomainStrategy r) (dnsReverseMapping r)
                      (legacyDNSMode r) (r_started r) (r_closing r) (r_drops r) in
  let* built := buildRules true (rawRules r) refs in
  match built with
  | (Ok (rules, legacy, _), refs) =>
      if r_closing r then let* refs := closeRules rules refs in Ok (Ok tt, withClient, refs)
      else Ok (Ok tt, mkRouter client (rawRules r) rules (defaultDomainStrategy r) (dnsReverseMapping r) legacy true
                        (r_closing r) ∅, refs)
  | (Err e, refs) => Ok (Err e, withClient, refs)
  | (Panic s, _) => Panic s
  end.

Definition Router_Close (r : Router) (refs : gmap string Z) : result (Router * gmap string Z) :=
  if r_closing r then Ok (r, refs)
  else
    let* refs := closeRules (r_rules r) refs in
    Ok (mkRouter (r_client r) (rawRules r) [] (defaultDomainStrategy r) (dnsReverseMapping r) (legacyDNSMode r) (r_started r)
          true (r_drops r), refs).

Definition Router_ClearCache (r : Router) : Router :=
  mkRouter (Client_ClearCache (r_client r)) (rawRules r) (r_rules r) (defaultDomainStrategy r)
    (option_map cache_Purge (dnsReverseMapping r)) (legacyDNSMode r) (r_started r) (r_closing r) (r_drops r).

Definition Router_LookupReverseMapping (now : Z) (ip : Addr) (r : Router) : option string * Router :=
  match dnsReverseMapping r with
  | None => (None, r)
  | Some m => let '(domain, m) := cache_Get now ip m in
      (domain, mkRouter (r_client r) (rawRules r) (r_rules r) (defaultDomainStrategy r) (Some m) (legacyDNSMode r)
                 (r_started r) (r_closing r) (r_drops r))
  end.
End Router.
