(* ===== verification/DnsBuildTheorems.v ===== *)
(** * The DNS rules a configuration builds

    What the constructed rules have in common with their options, which rules
    each mode may hold, and the balance of the references that starting and
    closing them takes on the rule-sets. *)
From Stdlib Require Import ZArith Lia Bool.
From S2P Require Import Prelude GoIO DnsMsg Metadata RuleItem MatchState RuleEngine RuleTheorems DnsRule HeadlessRule Srs SavedBinary RuleSet RuleSetTheorems RuleObject DnsClient DnsClientTheorems DnsOptions DnsMode DnsRuleBuild DnsRouter DemoEnv.

(** ** The constructor of default rules *)

Section Steps.
Context `{GE : GoEnv}.

(** What is tracked through the steps: the groups add up, the inversion, whether
    there are conditions on the destination address. *)
Definition rule_facts (inverted cidr : bool) (r : abstractDefaultRule) : Prop :=
  wf_rule r /\ invert r = inverted /\ nonempty (destinationIPCIDRItems r) = cidr.

Lemma emptyRule_facts b : rule_facts b false (emptyRule b).
Proof. unfold rule_facts, wf_rule. by split_and!. Qed.

(** A step that is not one of the destination addresses keeps the facts. *)
Definition keeps (append : abstractDefaultRule -> RuleItem -> abstractDefaultRule) : Prop :=
  forall b cidr r item, rule_facts b cidr r -> rule_facts b cidr (append r item).

Ltac solve_facts :=
  intros [Hw [Hi Hc]]; unfold rule_facts, wf_rule in *; cbn; split_and!; [rewrite Hw; solve_Permutation|done|try done].

Lemma keeps_items : keeps append_items.
Proof. intros b cidr r item. solve_facts. Qed.
Lemma keeps_sourceAddress : keeps append_sourceAddress.
Proof. intros b cidr r item. solve_facts. Qed.
Lemma keeps_sourcePort : keeps append_sourcePort.
Proof. intros b cidr r item. solve_facts. Qed.
Lemma keeps_destinationAddress : keeps append_destinationAddress.
Proof. intros b cidr r item. solve_facts. Qed.
Lemma keeps_destinationPort : keeps append_destinationPort.
Proof. intros b cidr r item. solve_facts. Qed.

Lemma append_cidr_facts b cidr r item : rule_facts b cidr r -> rule_facts b true (append_destinationIPCIDR r item).
Proof. solve_facts. by destruct (destinationIPCIDRItems r). Qed.

Context {B : Type}.

Lemma step_keeps append step b cidr r (k : abstractDefaultRule -> result B) x :
  keeps append -> bind_result (add append step r) k = Ok x -> rule_facts b cidr r ->
  exists r', rule_facts b cidr r' /\ k r' = Ok x.
Proof.
  intros Hk H Hr. destruct step as [[item| |]|]; cbn in H; try done; [|by exists r].
  exists (append r item). by split; [apply Hk|].
Qed.

Lemma step_cidr step b cidr r (k : abstractDefaultRule -> result B) x :
  bind_result (add append_destinationIPCIDR step r) k = Ok x -> rule_facts b cidr r ->
  exists r', rule_facts b (cidr || negb (is_nil step)) r' /\ k r' = Ok x.
Proof.
  intros H Hr. destruct step as [[item| |]|]; cbn in H; try done; [|rewrite orb_false_r; by exists r].
  exists (append_destinationIPCIDR r item). split; [|done]. rewrite orb_true_r. by eapply append_cidr_facts.
Qed.

Lemma step_guard cond err (k : unit -> result B) x : bind_result (guard cond err) k = Ok x -> cond = false /\ k tt = Ok x.
Proof. by destruct cond. Qed.
End Steps.

#[export] Hint Resolve keeps_items keeps_sourceAddress keeps_sourcePort keeps_destinationAddress keeps_destinationPort : dnsrule.

(** One step of a constructor in [H], of a rule with facts [Hr]. *)
Ltac dns_step H Hr :=
  first
    [ apply step_guard in H as [? H]
    | eapply step_cidr in H as (? & ? & H); [|exact Hr]; clear Hr; rename select (rule_facts _ _ _) into Hr
    | eapply step_keeps in H as (? & ? & H); [|solve [auto with dnsrule]|exact Hr]; clear Hr; rename select (rule_facts _ _ _) into Hr ].

Section Constructor.
Context `{GE : GoEnv}.

(** The conditions on the destination address. *)
Definition address_conditions (o : DnsOpt.DefaultDNSRule) : bool :=
  given (DnsOpt.IPCIDR o) || DnsOpt.IPIsPrivate o || DnsOpt.IPAcceptAny o.

Lemma NewDefaultDNSRule_inv o legacy obj :
  NewDefaultDNSRule o legacy = Ok obj ->
  exists r action, NewDNSRuleAction (DnsOpt.ruleAction o) = Ok action /\ rule_facts (DnsOpt.Invert o) (address_conditions o) r /\
    obj = DefaultObject r (if given (DnsOpt.RuleSet o) then Some (mkRuleSetRef (elems (DnsOpt.RuleSet o)) []
        (DnsOpt.RuleSetIPCIDRMatchSource o) (DnsOpt.RuleSetIPCIDRAcceptEmpty o)) else None) (DnsOpt.MatchResponse o) action.
Proof.
  intros H. unfold NewDefaultDNSRule in H. destruct (NewDNSRuleAction _) as [action| |]; cbn [bind_result] in H; [|done..]. cbn zeta in H.
  pose proof (emptyRule_facts (DnsOpt.Invert o)) as Hr. repeat dns_step H Hr.
  rewrite !is_nil_when, !negb_involutive in Hr. cbn [orb] in Hr.
  match type of Hr with rule_facts _ _ ?r => exists r end. exists action. split_and!; [done|exact Hr|].
  destruct (given (DnsOpt.RuleSet o)); cbn [bind_result] in H; [|by injection H as <-].
  destruct (DnsOpt.Deprecated_RulesetIPCIDRMatchSource o); cbn in H; [done|]. by injection H as <-.
Qed.
End Constructor.

(** ** References *)

Section References.
Context `{GE : GoEnv}.

Context (preferred : string -> option (string * option (string -> bool))).

Lemma closeRules_holding (rules : list DNSRuleObject) refs refs' :
  room (zlen (concat (map held_of rules))) refs -> holding (concat (map held_of rules)) refs refs' -> closeRules rules refs' = Ok refs.
Proof. intros Hr Hh. unfold closeRules. by destruct (close_all_holding rules refs refs' Hr Hh) as [rules' ->]. Qed.

Lemma dns_item_no_panic it : is_panic (dns_item_started preferred it) = false.
Proof.
  assert (forall tags acc, is_panic (preferred_loop preferred tags acc) = false) as Hp.
  { induction tags as [|t tags IH]; intros acc; cbn [preferred_loop]; [done|]. by destruct (preferred t) as [[? []]|]. }
  destruct it; try done. cbn [dns_item_started]. specialize (Hp transportTags transports). by destruct (preferred_loop _ _ _).
Qed.
End References.

(** ** The rules built *)

Section Built.
Context `{GE : GoEnv}.

Lemma mapi_result_Forall {A B} msg (f : A -> result B) (Q : A -> B -> Prop) xs : forall i ys,
  Forall (fun x => forall y, f x = Ok y -> Q x y) xs -> mapi_result msg f i xs = Ok ys -> Forall2 Q xs ys.
Proof.
  induction xs as [|x xs IH]; intros i ys Hf H; cbn [mapi_result] in H; [injection H as <-; constructor|].
  inversion Hf; subst. destruct (with_cause _ _) as [y| |] eqn:E; cbn [bind_result] in H; [|done..]. apply with_cause_is_Ok in E.
  destruct (mapi_result _ _ _ xs) as [ys'| |] eqn:Es; cbn [bind_result] in H; [|done..]. injection H as <-.
  constructor; [auto|]. by eapply IH.
Qed.

(** The constructor call of a rule, by its kind. *)
Lemma NewDNSRule_inv checkServer legacy t d l obj :
  NewDNSRule checkServer legacy (DnsOpt.mkDNSRule t d l) = Ok obj ->
  (Opt.isDefaultType t = true /\ checkDNSRule checkServer (DnsOpt.ruleAction d) = Ok tt /\ NewDefaultDNSRule d legacy = Ok obj) \/
  (Opt.isDefaultType t = false /\ String.eqb t Opt.RuleTypeLogical = true /\ checkDNSRule checkServer (DnsOpt.logicalAction l) = Ok tt /\
   exists action mode rules, NewDNSRuleAction (DnsOpt.logicalAction l) = Ok action /\
     obj = LogicalObject mode rules (DnsOpt.LogicalInvert l) action /\
     Forall2 (fun o r => NewDNSRule false legacy o = Ok r) (DnsOpt.Rules l) rules).
Proof.
  cbn [NewDNSRule]. destruct (Opt.isDefaultType t).
  - intros [_ H]%step_guard. destruct (checkDNSRule _ _) as [[]| |] eqn:E; cbn [bind_result] in H; [|done..]. by left.
  - destruct (String.eqb t Opt.RuleTypeLogical); [|done]. destruct (DnsOpt.Logical_IsValid l); cbn [bind_result]; [|done..].
    intros [_ H]%step_guard. destruct (checkDNSRule _ _) as [[]| |] eqn:E; cbn [bind_result] in H; [|done..]. right.
    split_and!; [done..|]. unfold NewLogicalDNSRule in H. destruct (NewDNSRuleAction _) as [action| |]; cbn [bind_result] in H; [|done..].
    exists action. destruct (if String.eqb _ "and" then _ else _) as [mode| |]; cbn [bind_result] in H; [|done..].
    destruct (mapi_result _ _ _ _) as [rules| |] eqn:Er; cbn [bind_result] in H; [|done..]. injection H as <-.
    exists mode, rules. split_and!; [done..|]. eapply mapi_result_Forall; [|exact Er]. apply Forall_forall. intros o _ r. cbn beta.
    by destruct (validateNoNestedDNSRuleActions true o).
Qed.

(** Induction over the options and the rules built from them. *)
Lemma NewDNSRule_ind (Q : bool -> DnsOpt.DNSRule -> DNSRuleObject -> Prop) legacy :
  (forall checkServer t d l obj, Opt.isDefaultType t = true -> checkDNSRule checkServer (DnsOpt.ruleAction d) = Ok tt ->
     NewDefaultDNSRule d legacy = Ok obj -> Q checkServer (DnsOpt.mkDNSRule t d l) obj) ->
  (forall checkServer t d l mode rules action, Opt.isDefaultType t = false -> String.eqb t Opt.RuleTypeLogical = true ->
     checkDNSRule checkServer (DnsOpt.logicalAction l) = Ok tt -> NewDNSRuleAction (DnsOpt.logicalAction l) = Ok action ->
     Forall2 (Q false) (DnsOpt.Rules l) rules ->
     Q checkServer (DnsOpt.mkDNSRule t d l) (LogicalObject mode rules (DnsOpt.LogicalInvert l) action)) ->
  forall options checkServer obj, NewDNSRule checkServer legacy options = Ok obj -> Q checkServer options obj.
Proof.
  intros Hd Hl options. induction options as [t d l IH] using DnsOpt.DNSRule_tree_ind. intros checkServer obj H.
  apply NewDNSRule_inv in H as [(Ht & Hc & Hn)|(Ht & Ht2 & Hc & action & mode & rules & Ha & -> & Hr)]; [by apply Hd|].
  apply Hl; try done. rewrite Forall2_same_length_lookup in Hr |- *. destruct Hr as [Hlen Hr]. split; [done|].
  intros i o r Ho Hor. rewrite Forall_lookup in IH. apply (IH i o Ho). by apply (Hr i).
Qed.

(** A rule that was built and not started holds nothing. *)
Lemma built_holds_nothing options checkServer legacy obj : NewDNSRule checkServer legacy options = Ok obj -> held_of obj = [].
Proof.
  revert options checkServer obj. apply (NewDNSRule_ind (fun _ _ obj => held_of obj = [])).
  - intros cs t d l obj _ _ H. apply NewDefaultDNSRule_inv in H as (r & action & _ & _ & ->). cbn. by destruct (given _).
  - intros cs t d l mode rules action _ _ _ _ H. cbn [held_of]. induction H as [|o r os rs E _ IH]; [done|]. cbn. by rewrite E, IH.
Qed.
End Built.

(** ** Starting and closing the router *)

Section Lifecycle.
Context `{GE : GoEnv} {DL : DnsLib} {P : Type} {DS : DNSCacheStore P} {R : Type} {RS : RDRCStore R}.
Context {LC : LRU dnsCacheKey Msg} {RM : LRU Addr string}.
Context {T : Type} (transport_Type : T -> string) (Transport : string -> option T).
Context (ruleSets : string -> option (list Rule * RuleSetMetadata)) (hasRouter : bool) (PreferredDomain : T -> option (string -> bool)).

Lemma newRules_inv raw rules legacy flags :
  newRules transport_Type Transport ruleSets hasRouter raw = Ok (rules, legacy, flags) ->
  resolveLegacyDNSMode (routerService ruleSets hasRouter) ∅ raw = Ok (legacy, flags) /\
  (legacy = false -> validateLegacyDNSModeDisabledRules (routerService ruleSets hasRouter) ∅ raw = Ok tt) /\
  validateEvaluateFakeIPRules raw (Some (fun tag => option_map transport_Type (Transport tag))) = Ok tt /\
  Forall2 (fun o r => NewDNSRule true legacy o = Ok r) raw rules.
Proof.
  unfold newRules. destruct (eachi_result _ _ _ _) as [[]| |]; cbn [bind_result]; [|done..].
  destruct (resolveLegacyDNSMode _ _ _) as [[lg fl]| |]; cbn [bind_result]; [|done..].
  destruct (if negb lg then _ else _) as [[]| |] eqn:Ev; cbn [bind_result]; [|done..].
  destruct (validateEvaluateFakeIPRules _ _) as [[]| |]; cbn [bind_result]; [|done..].
  destruct (mapi_result _ _ _ _) as [rs| |] eqn:Er; cbn [bind_result]; [|done..]. intros [= <- <- <-].
  split_and!; [done| |done|]; [by intros ->|]. eapply mapi_result_Forall; [|exact Er]. by apply Forall_forall.
Qed.

Lemma newRules_hold_nothing raw rules legacy flags :
  newRules transport_Type Transport ruleSets hasRouter raw = Ok (rules, legacy, flags) -> Forall (fun r => held_of r = []) rules.
Proof.
  intros H. apply newRules_inv in H as (_ & _ & _ & Hb). induction Hb as [|o r os rs Ho _ IH]; constructor; [|done].
  by eapply built_holds_nothing.
Qed.

(** The evaluate actions of a router that started name servers that are not fake-IP servers. *)
Lemma evaluate_loop_ok types i raw k o :
  validateEvaluateFakeIP_loop types i raw = Ok tt -> raw !! k = Some o -> dnsRuleActionType o = RuleActionTypeEvaluate ->
  dnsRuleActionServer o <> "" -> types (dnsRuleActionServer o) <> Some DNSTypeFakeIP.
Proof.
  revert i k. induction raw as [|r raw IH]; intros i k H Hk Ha Hs; [done|]. cbn [validateEvaluateFakeIP_loop] in H.
  destruct k as [|k].
  - injection Hk as ->. rewrite Ha in H. rewrite (proj2 (String.eqb_neq _ _) Hs) in H. cbn in H.
    destruct (types (dnsRuleActionServer o)) as [t|]; [|done]. destruct (String.eqb_spec t "fakeip"); [done|].
    unfold DNSTypeFakeIP. congruence.
  - destruct (_ || _); [by eapply IH|]. destruct (types (dnsRuleActionServer r)) as [t|]; [destruct (String.eqb t "fakeip"); [done|]|]; by eapply IH.
Qed.

Lemma NewDNSRule_evaluate legacy o obj server ro :
  NewDNSRule true legacy o = Ok obj -> Action obj = Some (RuleActionEvaluate server ro) ->
  dnsRuleActionType o = RuleActionTypeEvaluate /\ dnsRuleActionServer o = server /\ server <> "".
Proof.
  assert (Hact : forall a act, NewDNSRuleAction a = Ok act -> act = Some (RuleActionEvaluate server ro) ->
    checkDNSRule true a = Ok tt -> DnsOpt.Action a = RuleActionTypeEvaluate /\ DnsOpt.Server (DnsOpt.RouteOptions a) = server /\ server <> "").
  { intros a act H -> Hc. unfold NewDNSRuleAction in H. cbn zeta in H.
    destruct (String.eqb _ ""); [done|]. destruct (String.eqb _ RuleActionTypeRoute); [done|].
    destruct (String.eqb_spec (DnsOpt.Action a) RuleActionTypeEvaluate) as [Ea|_]; [|by repeat (destruct (String.eqb _ _); [done|])].
    injection H as <- _. split; [done|]. split; [done|]. intros E. unfold checkDNSRule, isRouteAction in Hc.
    rewrite Ea, E in Hc. unfold validateDNSRuleAction in Hc. rewrite Ea in Hc. done. }
  destruct o as [t d l]. intros H Ha. apply NewDNSRule_inv in H as [(Ht & Hc & Hn)|(Ht & Ht2 & Hc & action & mode & rules & Hna & -> & _)].
  - apply NewDefaultDNSRule_inv in Hn as (r & action & Hna & _ & ->). cbn in Ha.
    destruct (Hact _ _ Hna Ha Hc) as (E & Es & Hs). cbn. rewrite Ht, E. done.
  - cbn in Ha. destruct (Hact _ _ Hna Ha Hc) as (E & Es & Hs). cbn. rewrite Ht, Ht2, E. done.
Qed.

Lemma newRules_evaluate raw rules legacy flags rule server ro t :
  newRules transport_Type Transport ruleSets hasRouter raw = Ok (rules, legacy, flags) -> rule ∈ rules ->
  Action rule = Some (RuleActionEvaluate server ro) -> Transport server = Some t -> transport_Type t <> DNSTypeFakeIP.
Proof.
  intros H Hin Ha Ht. apply newRules_inv in H as (_ & _ & Hv & Hb). apply list_elem_of_lookup in Hin as [k Hk].
  destruct (Forall2_lookup_r _ _ _ _ _ Hb Hk) as (o & Ho & Hn). destruct (NewDNSRule_evaluate _ _ _ _ _ Hn Ha) as (Et & Es & Hs).
  unfold validateEvaluateFakeIPRules in Hv. rewrite <- Es in Hs.
  pose proof (evaluate_loop_ok _ _ _ _ _ Hv Ho Et Hs) as Hne. cbn beta in Hne. rewrite Es, Ht in Hne. cbn in Hne. congruence.
Qed.

Lemma Router_Start_evaluate initRDRC initCache (r r' : Router (P := P) (R := R)) refs refs' rule server ro t :
  r_closing r = false ->
  Router_Start transport_Type Transport ruleSets hasRouter PreferredDomain initRDRC initCache r refs = Ok (Ok tt, r', refs') ->
  rule ∈ r_rules r' -> Action rule = Some (RuleActionEvaluate server ro) -> Transport server = Some t -> transport_Type t <> DNSTypeFakeIP.
Proof.
  intros Hc H Hin Ha Ht. unfold Router_Start, buildRules in H. cbn zeta in H. rewrite Hc in H.
  destruct (newRules _ _ _ _ _) as [[[rules legacy] flags]| |] eqn:En; cbn [bind_result negb] in H; [|done..].
  destruct (startRules _ _ _ rules refs) as [[[err rules1] refs1]| |] eqn:Es; cbn [bind_result] in H; [|done..].
  destruct err as [e|]; [destruct (closeRules rules1 refs1); by cbn [bind_result] in H|]. cbn [bind_result] in H. injection H as <- <-.
  cbn [r_rules] in Hin. apply startIndexed_Action in Es. apply list_elem_of_lookup in Hin as [k Hk].
  assert (map Action rules !! k = Some (Action rule)) as Hm by (rewrite <- Es, list_lookup_fmap, Hk; done).
  rewrite list_lookup_fmap in Hm. destruct (rules !! k) as [rule0|] eqn:E0; [|done]. injection Hm as Hm. rewrite <- Hm in Ha.
  eapply newRules_evaluate; [exact En|by eapply list_elem_of_lookup_2|exact Ha|exact Ht].
Qed.

(** Building the rules and starting them: on success the counts hold what the
    rules hold, otherwise they are unchanged. *)
Lemma buildRules_holding raw refs :
  is_panic (newRules transport_Type Transport ruleSets hasRouter raw) = false ->
  (forall rules legacy flags, newRules transport_Type Transport ruleSets hasRouter raw = Ok (rules, legacy, flags) ->
     room (zlen (concat (map tags_of rules))) refs) ->
  (exists rules legacy flags refs', buildRules transport_Type Transport ruleSets hasRouter PreferredDomain true raw refs =
       Ok (Ok (rules, legacy, flags), refs') /\ holding (concat (map held_of rules)) refs refs' /\
       room (zlen (concat (map held_of rules))) refs /\
       exists rules0, newRules transport_Type Transport ruleSets hasRouter raw = Ok (rules0, legacy, flags)) \/
  (exists e, buildRules transport_Type Transport ruleSets hasRouter PreferredDomain true raw refs = Ok (Err e, refs)).
Proof.
  intros Hp Hroom. unfold buildRules. destruct (newRules _ _ _ _ raw) as [[[rules legacy] flags]|e|] eqn:En; [|right; by eexists|done].
  specialize (Hroom _ _ _ eq_refl). pose proof (newRules_hold_nothing _ _ _ _ En) as Hf. cbn [negb].
  unfold startRules.
  destruct (startIndexed_holding (dns_item_started (preferredTransport transport_Type Transport PreferredDomain)) (dns_item_no_panic _)
    (fun i => "initialize DNS rule[" +:+ pretty i +:+ "]") rules refs Hf Hroom) as (err & rules' & refs' & -> & Hh & Hl). cbn [bind_result].
  assert (room (zlen (concat (map held_of rules'))) refs) as Hr' by (eapply room_weaken; [exact Hl|done]).
  destruct err as [e|].
  - right. rewrite (closeRules_holding rules' refs refs' Hr' Hh). cbn [bind_result]. by eexists.
  - left. exists rules', legacy, flags, refs'. split_and!; [done..|]. by eexists.
Qed.
End Lifecycle.

(** ** Rules and mode *)

Section Mode.
Context `{GE : GoEnv}.

(** The action works on evaluated responses. *)
Definition evaluating (action : option DNSAction) : bool :=
  match action with Some (RuleActionEvaluate _ _) | Some RuleActionRespond => true | _ => false end.

(** The strategy an action sets. *)
Definition action_strategy (action : option DNSAction) : Z :=
  match action with
  | Some (RuleActionDNSRoute _ o) | Some (RuleActionEvaluate _ o) | Some (RuleActionDNSOptions o) => ra_Strategy o
  | _ => DomainStrategyAsIS
  end.

(** What legacy mode does not support: matching a response, evaluating one. *)
Fixpoint fits_legacy (rule : DNSRuleObject) : bool :=
  match rule with
  | DefaultObject _ _ matchResponse action => negb matchResponse && negb (evaluating action)
  | LogicalObject _ rules _ action => forallb fits_legacy rules && negb (evaluating action)
  end.

(** What the other mode does not support: a strategy, and conditions on the
    destination address that are not on an evaluated response. *)
Fixpoint fits_response (rule : DNSRuleObject) : bool :=
  match rule with
  | DefaultObject r _ matchResponse action =>
      (matchResponse || negb (nonempty (destinationIPCIDRItems r))) && (action_strategy action =? DomainStrategyAsIS)
  | LogicalObject _ rules _ action => forallb fits_response rules && (action_strategy action =? DomainStrategyAsIS)
  end.

Lemma NewDNSRuleAction_evaluating a action :
  NewDNSRuleAction a = Ok action -> evaluating action = true ->
  String.eqb (DnsOpt.Action a) RuleActionTypeEvaluate || String.eqb (DnsOpt.Action a) RuleActionTypeRespond = true.
Proof.
  unfold NewDNSRuleAction. cbn zeta.
  destruct (String.eqb _ ""); [by intros [= <-]|]. destruct (String.eqb _ RuleActionTypeRoute); [by intros [= <-]|].
  destruct (String.eqb _ RuleActionTypeEvaluate); [done|]. destruct (String.eqb _ RuleActionTypeRespond); [done|].
  repeat (destruct (String.eqb _ _); [by intros [= <-]|]). done.
Qed.

Lemma NewDNSRuleAction_strategy a action :
  NewDNSRuleAction a = Ok action -> dnsRuleActionHasStrategy a = false -> action_strategy action =? DomainStrategyAsIS = true.
Proof.
  unfold NewDNSRuleAction, dnsRuleActionHasStrategy, isRouteAction. cbn zeta.
  destruct (String.eqb _ ""); [by intros [= <-]|]. destruct (String.eqb _ RuleActionTypeRoute); cbn [orb].
  { intros [= <-]. cbn. by rewrite negb_false_iff. }
  destruct (String.eqb _ RuleActionTypeEvaluate); [intros [= <-]; cbn; by rewrite negb_false_iff|].
  destruct (String.eqb _ RuleActionTypeRespond); [by intros [= <-]|].
  destruct (String.eqb _ RuleActionTypeRouteOptions); [intros [= <-]; cbn; by rewrite negb_false_iff|].
  repeat (destruct (String.eqb _ _); [by intros [= <-]|]). done.
Qed.

(** A flag that the merge accumulates is unset for every part. *)
Lemma mergeAll_unset {A} (p : dnsRuleModeFlags -> bool) msg (f : A -> result dnsRuleModeFlags) xs :
  (forall a b, p (flags_merge a b) = p a || p b) -> forall i flags all,
  mergeAll msg f i xs flags = Ok all -> p all = false ->
  p flags = false /\ Forall (fun x => exists fx, f x = Ok fx /\ p fx = false) xs.
Proof.
  intros Hp. induction xs as [|x xs IH]; intros i flags all H Hf; cbn [mergeAll] in H; [by injection H as <-|].
  destruct (with_cause _ _) as [fx| |] eqn:E; cbn [bind_result] in H; [|done..]. apply with_cause_is_Ok in E.
  destruct (IH _ _ _ H Hf) as [Hm Hall]. rewrite Hp in Hm. apply orb_false_iff in Hm as [H1 H2]. split; [done|].
  constructor; [by exists fx|done].
Qed.

Lemma ruleSet_flags_unset rs o matchSource tags flags all :
  ruleSet_flags rs o matchSource tags flags = Ok all ->
  (disabled all = false -> disabled flags = false) /\ neededFromStrategy all = neededFromStrategy flags.
Proof.
  revert flags. induction tags as [|tag tags IH]; intros flags H; cbn [ruleSet_flags] in H; [by injection H as <-|].
  destruct (lookupDNSRuleSetMetadata _ _ _); cbn [bind_result] in H; [|done..]. destruct (IH _ H) as [H1 H2]. cbn in *.
  split; [|done]. intros Ha. specialize (H1 Ha). by apply orb_false_iff in H1 as [? _].
Qed.

Lemma default_flags rs o d flags :
  dnsRuleModeRequirementsInDefaultRule rs o d = Ok flags ->
  (disabled flags = false -> defaultRuleDisablesLegacyDNSMode d = false) /\
  neededFromStrategy flags = dnsRuleActionHasStrategy (DnsOpt.ruleAction d).
Proof.
  unfold dnsRuleModeRequirementsInDefaultRule. cbn zeta. destruct (negb _).
  - intros [= <-]. cbn. split; [|done]. by intros [? _]%orb_false_iff.
  - destruct rs; [|done]. intros [H1 H2]%ruleSet_flags_unset. cbn in *. split; [|done].
    intros Hf. specialize (H1 Hf). by apply orb_false_iff in H1 as [? _].
Qed.

(** A strategy needs legacy mode. *)
Definition strategy_needs (flags : dnsRuleModeFlags) : Prop := neededFromStrategy flags = true -> needed flags = true.

Lemma mergeAll_strategy {A} msg (f : A -> result dnsRuleModeFlags) xs :
  Forall (fun x => forall fx, f x = Ok fx -> strategy_needs fx) xs -> forall i flags all,
  strategy_needs flags -> mergeAll msg f i xs flags = Ok all -> strategy_needs all.
Proof.
  induction 1 as [|x xs Hx _ IH]; intros i flags all Hf H; cbn [mergeAll] in H; [by injection H as <-|].
  destruct (with_cause _ _) as [fx| |] eqn:E; cbn [bind_result] in H; [|done..]. apply with_cause_is_Ok in E.
  eapply IH; [|exact H]. unfold strategy_needs in *. cbn. rewrite !orb_true_iff. intros [?|?]; [left|right]; [auto|by apply (Hx fx)].
Qed.

Lemma requirements_strategy rs o rule : forall flags, dnsRuleModeRequirementsInRule rs o rule = Ok flags -> strategy_needs flags.
Proof.
  induction rule as [t d l IH] using DnsOpt.DNSRule_tree_ind. intros flags H. cbn [dnsRuleModeRequirementsInRule] in H.
  destruct (Opt.isDefaultType t).
  - unfold dnsRuleModeRequirementsInDefaultRule in H. cbn zeta in H.
    assert (forall tags flags all, ruleSet_flags rs o (DnsOpt.RuleSetIPCIDRMatchSource d) tags flags = Ok all ->
      strategy_needs flags -> strategy_needs all) as Hl.
    { induction tags as [|tag tags IHt]; intros f all Ha Hf; cbn [ruleSet_flags] in Ha; [by injection Ha as <-|].
      destruct (lookupDNSRuleSetMetadata _ _ _); cbn [bind_result] in Ha; [|done..]. eapply IHt; [exact Ha|].
      unfold strategy_needs in *. cbn. intros Hs. by rewrite Hf. }
    destruct (negb _); [injection H as <-|destruct rs; [eapply Hl; [exact H|]|done]]; intros Hs; cbn in *; by rewrite Hs, orb_true_r.
  - destruct (String.eqb t Opt.RuleTypeLogical); [|injection H as <-; done].
    eapply mergeAll_strategy; [exact IH| |exact H]. by unfold strategy_needs.
Qed.

Lemma built_forallb {A} (p : DNSRuleObject -> bool) (Q : A -> Prop) (V : A -> DNSRuleObject -> Prop) os rules :
  Forall Q os -> Forall2 V os rules -> (forall o r, Q o -> V o r -> p r = true) -> forallb p rules = true.
Proof.
  intros HQ HV Hp. revert HQ. induction HV as [|o r os rs Ho _ IH]; intros HQ; [done|]. inversion HQ; subst. cbn.
  rewrite (Hp o r) by done. by apply IH.
Qed.

Lemma built_fits_legacy rs o options checkServer legacy obj flags :
  NewDNSRule checkServer legacy options = Ok obj -> dnsRuleModeRequirementsInRule rs o options = Ok flags ->
  disabled flags = false -> fits_legacy obj = true.
Proof.
  intros H. revert flags. revert options checkServer obj H.
  apply (NewDNSRule_ind (fun _ options obj => forall flags, dnsRuleModeRequirementsInRule rs o options = Ok flags ->
    disabled flags = false -> fits_legacy obj = true)).
  - intros cs t d l obj Ht _ H flags Hr Hf. cbn [dnsRuleModeRequirementsInRule] in Hr. rewrite Ht in Hr.
    apply default_flags in Hr as [Hr _]. specialize (Hr Hf). apply NewDefaultDNSRule_inv in H as (r & action & Ha & _ & ->).
    cbn [fits_legacy]. unfold defaultRuleDisablesLegacyDNSMode in Hr. rewrite !orb_false_iff in Hr.
    destruct Hr as [[[[[Hm _] He] Hp] _] _]. rewrite Hm. cbn [negb andb]. apply negb_true_iff.
    destruct (evaluating action) eqn:Ee; [|done]. pose proof (NewDNSRuleAction_evaluating _ _ Ha Ee) as Hx. by rewrite He, Hp in Hx.
  - intros cs t d l mode rules action Ht Ht2 _ Ha Hs flags Hr Hf. cbn [dnsRuleModeRequirementsInRule] in Hr. rewrite Ht, Ht2 in Hr.
    apply (mergeAll_unset disabled) in Hr as [Hfl Hall]; [|done|done]. cbn [fits_legacy]. rewrite andb_true_iff. split.
    + eapply built_forallb; [exact Hall|exact Hs|]. intros x r (fx & Hx & Hxf) Hq. by eapply Hq.
    + apply negb_true_iff. destruct (evaluating action) eqn:Ee; [|done].
      pose proof (NewDNSRuleAction_evaluating _ _ Ha Ee) as Hx. cbn [disabled] in Hfl. rewrite !orb_false_iff in Hfl.
      destruct Hfl as [[He Hp] _]. unfold dnsRuleActionType in He, Hp. rewrite Ht, Ht2 in He, Hp.
      destruct (String.eqb_spec (DnsOpt.Action (DnsOpt.logicalAction l)) "") as [E0|]; [by rewrite E0 in Hx|]. by rewrite He, Hp in Hx.
Qed.

Lemma default_address_matched rs o d b : validateLegacyDNSModeDisabledDefaultRule rs o d = Ok b ->
  DnsOpt.MatchResponse d || negb (address_conditions d) = true.
Proof.
  unfold validateLegacyDNSModeDisabledDefaultRule, address_conditions. destruct (DnsOpt.MatchResponse d); [done|].
  cbn [negb]. rewrite andb_true_r. destruct (hasResponseMatchFields d), (given (DnsOpt.IPCIDR d)), (DnsOpt.IPIsPrivate d),
    (DnsOpt.IPAcceptAny d); done.
Qed.

Lemma orAll_ok {A} msg (f : A -> result bool) xs : forall i b all,
  orAll msg f i xs b = Ok all -> Forall (fun x => exists bx, f x = Ok bx) xs.
Proof.
  induction xs as [|x xs IH]; intros i b all H; [constructor|]. cbn [orAll] in H.
  destruct (with_cause _ _) as [bx| |] eqn:E; cbn [bind_result] in H; [|done..]. apply with_cause_is_Ok in E.
  constructor; [by exists bx|by eapply IH].
Qed.

Lemma built_fits_response rs o options checkServer legacy obj flags b :
  NewDNSRule checkServer legacy options = Ok obj -> dnsRuleModeRequirementsInRule rs o options = Ok flags ->
  neededFromStrategy flags = false -> validateLegacyDNSModeDisabledRuleTree rs o options = Ok b -> fits_response obj = true.
Proof.
  intros H. revert flags b. revert options checkServer obj H.
  apply (NewDNSRule_ind (fun _ options obj => forall flags b, dnsRuleModeRequirementsInRule rs o options = Ok flags ->
    neededFromStrategy flags = false -> validateLegacyDNSModeDisabledRuleTree rs o options = Ok b -> fits_response obj = true)).
  - intros cs t d l obj Ht _ H flags b Hr Hf Hv. cbn [dnsRuleModeRequirementsInRule validateLegacyDNSModeDisabledRuleTree] in Hr, Hv.
    rewrite Ht in Hr, Hv. apply default_flags in Hr as [_ Hr]. apply default_address_matched in Hv.
    apply NewDefaultDNSRule_inv in H as (r & action & Ha & (_ & _ & Hc) & ->). cbn [fits_response]. rewrite Hc, Hv. cbn [andb].
    eapply NewDNSRuleAction_strategy; [exact Ha|congruence].
  - intros cs t d l mode rules action Ht Ht2 _ Ha Hs flags b Hr Hf Hv.
    cbn [dnsRuleModeRequirementsInRule validateLegacyDNSModeDisabledRuleTree] in Hr, Hv. rewrite Ht, Ht2 in Hr, Hv.
    apply (mergeAll_unset neededFromStrategy) in Hr as [Hfl Hall]; [|done|done]. apply orAll_ok in Hv.
    cbn [fits_response]. rewrite andb_true_iff. split; [|by eapply NewDNSRuleAction_strategy].
    eapply (built_forallb _ (fun x => (exists fx, _ x = Ok fx /\ neededFromStrategy fx = false) /\ exists bx, _ x = Ok bx));
      [|exact Hs|].
    + rewrite Forall_forall in *. intros x Hx. split; [by apply Hall|by apply Hv].
    + intros x r [(fx & Hx & Hxf) (bx & Hb)] Hq. by eapply Hq.
Qed.
End Mode.

Lemma validated_tree rs o rules k rule :
  validateLegacyDNSModeDisabledRules rs o rules = Ok tt -> rules !! k = Some rule ->
  exists b, validateLegacyDNSModeDisabledRuleTree rs o rule = Ok b.
Proof.
  unfold validateLegacyDNSModeDisabledRules. generalize 0 as i, false as seen. revert k.
  induction rules as [|r rules IH]; intros k i seen H Hk; [done|]. cbn [validateDisabledRules_loop] in H.
  destruct (with_cause _ _) as [b| |] eqn:E; cbn [bind_result] in H; [|done..]. apply with_cause_is_Ok in E.
  destruct (_ && _); [done|]. destruct k as [|k]; [injection Hk as <-; by exists b|]. by eapply IH.
Qed.

(** ** Building does not panic *)

(** The parsers of other packages return a value or an error. *)
Class GoEnvReturns `{GE : GoEnv} : Prop := {
  Compile_returns s : is_panic (regexp_Compile s) = false;
  ParsePrefix_returns s : is_panic (ParsePrefix s) = false;
  ParseAddr_returns s : is_panic (ParseAddr s) = false;
  IPSet_returns l : is_panic (IPSetBuilder_IPSet l) = false;
}.

(** What decoding produces: the types "default" and "logical", the known actions. *)
Definition known_action (action : DnsOpt.DNSRuleAction) : bool :=
  bool_decide (DnsOpt.Action action ∈ [""; RuleActionTypeRoute; RuleActionTypeEvaluate; RuleActionTypeRespond;
    RuleActionTypeRouteOptions; RuleActionTypeReject; RuleActionTypePredefined]).

Fixpoint decoded (rule : DnsOpt.DNSRule) : bool :=
  match rule with
  | DnsOpt.mkDNSRule t d l =>
      if String.eqb t Opt.RuleTypeDefault then known_action (DnsOpt.ruleAction d)
      else String.eqb t Opt.RuleTypeLogical && known_action (DnsOpt.logicalAction l) && forallb decoded (DnsOpt.Rules l)
  end.

Section NoPanic.
Context `{GE : GoEnv} `{GER : !GoEnvReturns}.

Lemma np_bind {A B} (r : result A) (k : A -> result B) : is_panic r = false -> (forall a, is_panic (k a) = false) -> is_panic (bind_result r k) = false.
Proof. intros Hr Hk. by destruct r; [apply Hk|..]. Qed.

Lemma np_cause {A} msg (r : result A) : is_panic r = false -> is_panic (with_cause msg r) = false.
Proof. by destruct r. Qed.

Lemma np_when append b build rule : is_panic build = false -> is_panic (add append (when b build) rule) = false.
Proof. intros H. destruct b; cbn; [|done]. by apply np_bind. Qed.

Lemma np_option {X} append (f : X -> RuleItem) o rule : is_panic (add append (option_map (fun x => Ok (f x)) o) rule) = false.
Proof. by destruct o. Qed.

Lemma np_guard b e : is_panic (guard b e) = false.
Proof. by destruct b. Qed.

Lemma np_mapi {A B} msg (f : A -> result B) xs : Forall (fun x => is_panic (f x) = false) xs -> forall i, is_panic (mapi_result msg f i xs) = false.
Proof.
  induction 1 as [|x xs Hx _ IH]; intros i; [done|]. cbn [mapi_result]. apply np_bind; [by apply np_cause|]. intros y. apply np_bind; [apply IH|done].
Qed.

Lemma np_eachi {A} msg (f : A -> result unit) xs : Forall (fun x => is_panic (f x) = false) xs -> forall i, is_panic (eachi_result msg f i xs) = false.
Proof. induction 1 as [|x xs Hx _ IH]; intros i; [done|]. cbn [eachi_result]. apply np_bind; [by apply np_cause|]. intros y. apply IH. Qed.

Lemma np_regexps l : forall i, is_panic (compile_regexps i l) = false.
Proof.
  induction l as [|s l IH]; intros i; [done|]. cbn [compile_regexps]. apply np_bind; [apply np_cause, Compile_returns|].
  intros m. apply np_bind; [apply IH|done].
Qed.

Lemma np_cidrs l : forall i, is_panic (parse_cidrs i l) = false.
Proof.
  induction l as [|s l IH]; intros i; [done|]. cbn [parse_cidrs]. pose proof (ParsePrefix_returns s). pose proof (ParseAddr_returns s).
  destruct (ParsePrefix s) as [p|e|]; [|destruct (ParseAddr s) as [x| |]|]; try done; (apply np_bind; [apply IH|done]).
Qed.

Lemma np_ParseUint s w : is_panic (ParseUint s w) = false.
Proof.
  unfold ParseUint. destruct s as [|c s]; [done|]. generalize (2 ^ w - 1) as m, (String c s) as t. intros m t. generalize 0 as acc.
  induction t as [|c' t IH]; intros acc; [done|]. cbn [ParseUint_loop]. repeat case_match; first [done|apply IH].
Qed.

Lemma np_port_range s : is_panic (parse_port_range s) = false.
Proof.
  unfold parse_port_range. destruct (index_colon s); [|done]. apply np_bind; [destruct (_ <? _)%nat; [apply np_cause, np_ParseUint|done]|].
  intros x. apply np_bind; [destruct (_ =? _)%nat; [done|apply np_cause, np_ParseUint]|done].
Qed.

Lemma np_port_ranges l : is_panic (map_result parse_port_range l) = false.
Proof. induction l as [|s l IH]; [done|]. cbn [map_result]. apply np_bind; [apply np_port_range|]. intros x. by apply np_bind. Qed.

Lemma np_action action : known_action action = true -> is_panic (NewDNSRuleAction action) = false.
Proof.
  unfold known_action. rewrite bool_decide_eq_true. intros H. unfold NewDNSRuleAction. cbn zeta.
  repeat (apply elem_of_cons in H as [->|H]; [reflexivity|]). by apply elem_of_nil in H.
Qed.

Lemma np_default d legacy : known_action (DnsOpt.ruleAction d) = true -> is_panic (NewDefaultDNSRule d legacy) = false.
Proof.
  intros Ha. unfold NewDefaultDNSRule. apply np_bind; [by apply np_action|]. intros action. cbn zeta.
  repeat (apply np_bind; [first [apply np_guard|apply np_option|apply np_when]|intros]); try done;
    try (apply np_cause); try (apply np_bind; [first [apply np_regexps|apply np_cidrs|apply np_port_ranges]|intros]); try done;
    try (apply np_bind; [apply IPSet_returns|done]).
  - by destruct (_ || _).
  - unfold NewDomainItem. by repeat case_match.
  - apply np_bind; [|done]. destruct (given (DnsOpt.RuleSet d)); [|done]. by apply np_bind; [apply np_guard|].
Qed.

Lemma np_nested rule : forall nested, is_panic (validateNoNestedDNSRuleActions nested rule) = false.
Proof.
  induction rule as [t d l IH] using DnsOpt.DNSRule_tree_ind. intros nested. cbn [validateNoNestedDNSRuleActions].
  destruct (_ && _); [done|]. destruct (negb _); [done|]. apply np_eachi. eapply Forall_impl; [exact IH|]. auto.
Qed.

Lemma np_valid rule : decoded rule = true -> is_panic (DnsOpt.IsValid rule) = false.
Proof.
  induction rule as [t d l IH] using DnsOpt.DNSRule_tree_ind. cbn [decoded DnsOpt.IsValid].
  destruct (String.eqb t Opt.RuleTypeDefault); [done|]. rewrite !andb_true_iff. intros [[-> _] Hd]. destruct (nonempty _); [|done].
  induction IH as [|r rs Hr _ IH']; [done|]. cbn [forallb] in Hd. apply andb_true_iff in Hd as [H1 H2]. cbn [Opt.all_result].
  apply np_bind; [auto|]. intros []; [auto|done].
Qed.

Lemma np_check cs action : is_panic (checkDNSRule cs action) = false.
Proof.
  unfold checkDNSRule. apply np_bind; [apply np_guard|]. intros _. apply np_bind; [unfold validateDNSRuleAction; by destruct (_ && _)|].
  intros _. apply np_guard.
Qed.

Lemma np_rule legacy rule : decoded rule = true -> forall cs, is_panic (NewDNSRule cs legacy rule) = false.
Proof.
  induction rule as [t d l IH] using DnsOpt.DNSRule_tree_ind. intros Hd cs. pose proof (np_valid (DnsOpt.mkDNSRule t d l) Hd) as Hv.
  cbn [decoded DnsOpt.IsValid NewDNSRule] in *. unfold Opt.isDefaultType in *. destruct (String.eqb t Opt.RuleTypeDefault) eqn:Et.
  - rewrite orb_true_r. apply np_bind; [apply np_guard|]. intros _. apply np_bind; [apply np_check|]. intros _. by apply np_default.
  - rewrite !andb_true_iff in Hd. destruct Hd as [[Hl Ha] Hs]. rewrite Hl in *. apply String.eqb_eq in Hl as ->. cbn [String.eqb orb].
    apply np_bind; [done|]. intros valid. apply np_bind; [apply np_guard|]. intros _. apply np_bind; [apply np_check|]. intros _.
    unfold NewLogicalDNSRule. apply np_bind; [by apply np_action|]. intros action. apply np_bind; [by repeat case_match|]. intros mode.
    apply np_bind; [|done]. apply np_mapi. apply forallb_Forall' in Hs. eapply Forall_impl; [exact (proj2 (Forall_and _ _) (conj IH Hs))|].
    intros r [Hr Hd']. apply np_bind; [apply np_nested|]. intros _. by apply Hr.
Qed.

(** *** The mode *)

Context (rs : string -> option RuleSetMetadata).

Lemma np_metadata tag : is_panic (lookupDNSRuleSetMetadata (Some rs) ∅ tag) = false.
Proof. unfold lookupDNSRuleSetMetadata. rewrite lookup_empty. by destruct (rs tag). Qed.

Lemma np_requirements rule : is_panic (dnsRuleModeRequirementsInRule (Some rs) ∅ rule) = false.
Proof.
  induction rule as [t d l IH] using DnsOpt.DNSRule_tree_ind. cbn [dnsRuleModeRequirementsInRule].
  destruct (Opt.isDefaultType t).
  - unfold dnsRuleModeRequirementsInDefaultRule. destruct (negb _); [done|]. generalize (elems (DnsOpt.RuleSet d)) as tags. intros tags.
    match goal with |- is_panic (ruleSet_flags _ _ _ _ ?f) = _ => generalize f end.
    induction tags as [|tag tags IHt]; intros f; [done|]. cbn [ruleSet_flags]. apply np_bind; [apply np_metadata|]. intros m. apply IHt.
  - destruct (String.eqb t _); [|done]. match goal with |- is_panic (mergeAll _ _ ?i _ ?f) = _ => generalize i f end.
    induction IH as [|r rules Hr _ IH']; intros i f; [done|]. cbn [mergeAll]. apply np_bind; [by apply np_cause|]. intros sub. apply IH'.
Qed.

Lemma np_resolve rules : is_panic (resolveLegacyDNSMode (Some rs) ∅ rules) = false.
Proof.
  unfold resolveLegacyDNSMode. apply np_bind; [|intros f; by destruct (_ && _), (disabled f)]. unfold dnsRuleModeRequirements.
  generalize 0 as i, noFlags as f. induction rules as [|r rules IH]; intros i f; [done|]. cbn [mergeAll].
  apply np_bind; [apply np_cause, np_requirements|]. intros sub. apply IH.
Qed.

Lemma np_disabled_tree rule : is_panic (validateLegacyDNSModeDisabledRuleTree (Some rs) ∅ rule) = false.
Proof.
  induction rule as [t d l IH] using DnsOpt.DNSRule_tree_ind. cbn [validateLegacyDNSModeDisabledRuleTree].
  destruct (Opt.isDefaultType t).
  - unfold validateLegacyDNSModeDisabledDefaultRule. destruct (_ && _); [done|]. apply np_bind; [|intros _; by destruct (DnsOpt.RuleSetIPCIDRAcceptEmpty d)].
    destruct (_ && _); [|done]. induction (elems (DnsOpt.RuleSet d)) as [|tag tags IHt]; [done|]. cbn [ruleSets_not_pure_ip].
    apply np_bind; [apply np_metadata|]. intros m. destruct (_ && _); [done|apply IHt].
  - destruct (String.eqb t _); [|done]. match goal with |- is_panic (orAll _ _ ?i _ ?f) = _ => generalize i f end.
    induction IH as [|r rules Hr _ IH']; intros i f; [done|]. cbn [orAll]. apply np_bind; [by apply np_cause|]. intros sub. apply IH'.
Qed.

Lemma np_disabled rules : is_panic (validateLegacyDNSModeDisabledRules (Some rs) ∅ rules) = false.
Proof.
  enough (forall i seen, is_panic (validateDisabledRules_loop (Some rs) ∅ i rules seen) = false) as H by apply H. induction rules as [|r rules IH]; intros i seen; [done|].
  cbn [validateDisabledRules_loop]. apply np_bind; [apply np_cause, np_disabled_tree|]. intros b. destruct (_ && _); [done|]. apply IH.
Qed.

Lemma np_evaluate transport rules : is_panic (validateEvaluateFakeIPRules rules (Some transport)) = false.
Proof.
  unfold validateEvaluateFakeIPRules. generalize 0 as i. induction rules as [|r rules IH]; intros i; [done|]. cbn [validateEvaluateFakeIP_loop].
  repeat case_match; first [done|apply IH].
Qed.
End NoPanic.

Lemma newRules_no_panic `{GE : GoEnv} `{GER : !GoEnvReturns} {T : Type} (transport_Type : T -> string) Transport ruleSets raw :
  forallb decoded raw = true -> is_panic (newRules transport_Type Transport ruleSets true raw) = false.
Proof.
  intros Hd%forallb_Forall'. unfold newRules, routerService. apply np_bind.
  { apply np_eachi, Forall_forall. intros r _. apply np_nested. }
  intros _. apply np_bind; [apply np_resolve|]. intros [legacy flags]. apply np_bind; [destruct (negb legacy); [apply np_disabled|done]|].
  intros _. apply np_bind; [apply np_evaluate|]. intros _. apply np_bind; [|done]. apply np_mapi. eapply Forall_impl; [exact Hd|].
  intros r Hr. by apply np_rule.
Qed.

(** ** Theorems *)

Section Theorems.
Context `{GE : GoEnv} {DL : DnsLib} {P : Type} {DS : DNSCacheStore P} {R : Type} {RS : RDRCStore R}.
Context {LC : LRU dnsCacheKey Msg} {RM : LRU Addr string}.
Context {T : Type} (transport_Type : T -> string) (Transport : string -> option T).
Context (ruleSets : string -> option (list Rule * RuleSetMetadata)) (hasRouter : bool) (PreferredDomain : T -> option (string -> bool)).

(** C8: the rules a configuration builds fit the mode they run in.  In legacy
    mode no rule, at any depth, matches a response or evaluates one.  In the other
    mode no action sets a strategy, which is why the options of an action are
    applied without it there, and a condition on the destination address stands
    only in rules that match an evaluated response. *)
Theorem dns_rules_fit_mode raw rules legacy flags :
  newRules transport_Type Transport ruleSets hasRouter raw = Ok (rules, legacy, flags) ->
  Forall (fun rule => (if legacy then fits_legacy rule else fits_response rule) = true) rules.
Proof.
  intros H. apply newRules_inv in H as (Hm & Hv & _ & Hb). unfold resolveLegacyDNSMode, dnsRuleModeRequirements in Hm.
  destruct (mergeAll _ _ _ raw noFlags) as [all| |] eqn:Ea; cbn [bind_result] in Hm; [|done..].
  assert (legacy = true -> disabled all = false) as Hd.
  { destruct (disabled all), (neededFromStrategy all); cbn in Hm; try done; injection Hm as <- _; done. }
  assert (legacy = false -> neededFromStrategy all = false) as Hn.
  { intros ->. destruct (neededFromStrategy all) eqn:En; [|done]. destruct (disabled all); cbn in Hm; [done|].
    injection Hm as Hneed _. assert (strategy_needs all) as Hs; [|by rewrite Hs in Hneed].
    refine (mergeAll_strategy _ _ raw _ _ noFlags _ _ Ea); [|done]. apply Forall_forall. intros x _. apply requirements_strategy. }
  apply Forall_lookup. intros k obj Hk. destruct (Forall2_lookup_r _ _ _ _ _ Hb Hk) as (o & Ho & Hnew). destruct legacy.
  - apply (mergeAll_unset disabled) in Ea as [_ Hall]; [|done|by apply Hd]. rewrite Forall_lookup in Hall.
    destruct (Hall _ _ Ho) as (fx & Hx & Hf). by eapply built_fits_legacy.
  - apply (mergeAll_unset neededFromStrategy) in Ea as [_ Hall]; [|done|by apply Hn]. rewrite Forall_lookup in Hall.
    destruct (Hall _ _ Ho) as (fx & Hx & Hf). destruct (validated_tree _ _ _ _ _ (Hv eq_refl) Ho) as [b Hb']. by eapply built_fits_response.
Qed.

(** C39: the references of the DNS rules on rule-sets are balanced.  For rules as
    decoding produces them (known types and actions), in a program with a router,
    with counts far from the int32 limit, and with library functions that return a
    value or an error: starting the DNS router either fails and
    leaves every count as it was, also when a later rule cannot be started; or
    succeeds, and closing the router gives back exactly what was taken.  Neither
    panics. *)
Theorem dns_router_refs_balanced `{GER : !GoEnvReturns} initRDRC initCache (r : Router (P := P) (R := R)) refs :
  r_closing r = false -> forallb decoded (rawRules r) = true ->
  (forall rules legacy flags, newRules transport_Type Transport ruleSets true (rawRules r) = Ok (rules, legacy, flags) ->
     room (zlen (concat (map tags_of rules))) refs) ->
  (exists e r', Router_Start transport_Type Transport ruleSets true PreferredDomain initRDRC initCache r refs = Ok (Err e, r', refs)) \/
  (exists r' refs' r'', Router_Start transport_Type Transport ruleSets true PreferredDomain initRDRC initCache r refs = Ok (Ok tt, r', refs') /\
     (forall tag, refs' !! tag = option_map (fun n => n + count tag (concat (map held_of (r_rules r')))) (refs !! tag)) /\
     Router_Close r' refs' = Ok (r'', refs)).
Proof.
  intros Hc Hp%(newRules_no_panic transport_Type Transport ruleSets) Hroom. unfold Router_Start. cbn zeta. rewrite Hc.
  destruct (buildRules_holding transport_Type Transport ruleSets true PreferredDomain (rawRules r) refs Hp Hroom)
    as [(rules & legacy & flags & refs' & -> & Hh & Hr & _)|(e & ->)]; cbn [bind_result]; [right|left; by eexists _, _].
  eexists _, refs', _. split; [done|]. cbn [r_rules]. split; [exact (proj1 Hh)|].
  unfold Router_Close. cbn [r_closing r_rules]. by rewrite (closeRules_holding rules refs refs' Hr Hh).
Qed.
End Theorems.

(** *** Updates of rule-sets *)

(** The updates are accepted one after the other, by a router that runs in mode [legacy]. *)
Fixpoint accepted (raw : list DnsOpt.DNSRule) (legacy : bool) (rs : string -> option RuleSetMetadata)
    (updates : list (string * RuleSetMetadata)) : Prop :=
  match updates with
  | [] => True
  | (tag, metadata) :: rest =>
      ValidateRuleSetMetadataUpdate (Some rs) raw true legacy false tag metadata = Ok tt /\
      accepted raw legacy (updateMetadata tag metadata rs) rest
  end.

Definition updated (rs : string -> option RuleSetMetadata) (updates : list (string * RuleSetMetadata)) : string -> option RuleSetMetadata :=
  fold_left (fun rs '(tag, metadata) => updateMetadata tag metadata rs) updates rs.

(** A router that runs keeps a mode that fits its rules: whatever sequence of
    rule-set updates it accepts after its start, in legacy mode no rule needs the
    other mode, and in the other mode no rule needs legacy mode and the rules still
    pass its validation.  And the router refuses no update that would fit. *)
Theorem accepted_updates_keep_mode `{GE : GoEnv} {T : Type} (transport_Type : T -> string) (Transport : string -> option T)
    (ruleSets : string -> option (list Rule * RuleSetMetadata)) raw rules legacy flags updates :
  newRules transport_Type Transport ruleSets true raw = Ok (rules, legacy, flags) ->
  accepted raw legacy (ruleSet_metadata ruleSets) updates ->
  let rs := updated (ruleSet_metadata ruleSets) updates in
  mode_ok rs legacy raw /\
  forall tag metadata, ValidateRuleSetMetadataUpdate (Some rs) raw true legacy false tag metadata = Ok tt <->
    mode_ok (updateMetadata tag metadata rs) legacy raw.
Proof.
  intros H Ha. split; [|intros; apply update_accepted_iff].
  assert (mode_ok (ruleSet_metadata ruleSets) legacy raw) as H0.
  { apply newRules_inv in H as (Hm & Hv & _ & _). cbn [routerService] in Hm, Hv. exists legacy, flags. split; [done|].
    destruct legacy; [|by split; [|apply Hv]]. destruct (disabled flags) eqn:Ed; [|done]. by rewrite (resolve_disabled _ _ _ _ _ Hm Ed). }
  revert Ha H0. clear H. generalize (ruleSet_metadata ruleSets) as rs.
  induction updates as [|[tag metadata] updates IH]; intros rs Ha H0; [done|]. destruct Ha as [Hv Ha].
  apply (IH _ Ha). by apply update_accepted_iff.
Qed.

(** In the mode that evaluates responses, a rule that looks at a response or
    answers with one, in itself or in a sub-rule, stands after a rule whose action
    evaluates one. *)
Theorem response_rules_follow_evaluate `{GE : GoEnv} {T : Type} (transport_Type : T -> string) (Transport : string -> option T)
    (ruleSets : string -> option (list Rule * RuleSetMetadata)) hasRouter raw rules flags k rule :
  newRules transport_Type Transport ruleSets hasRouter raw = Ok (rules, false, flags) ->
  raw !! k = Some rule -> uses_response rule = true ->
  exists j rule', (j < k)%nat /\ raw !! j = Some rule' /\ dnsRuleActionType rule' = RuleActionTypeEvaluate.
Proof.
  intros H Hk Hu. apply newRules_inv in H as (_ & Hv & _ & _). by eapply validate_loop_spec; [apply Hv|..].
Qed.

(** ** Concrete configurations *)

Module Demo.
Import DnsOpt.

Definition action (t server : string) : DNSRuleAction :=
  mkAction t (mkRouteOptions server 0 0 false false None None) (mkRouteOptionsOptions 0 0 false false None None)
    (mkRejectOptions "" false) (mkPredefined None None None None).

(** A rule on domain suffixes, rule-sets, addresses, with the given action. *)
Definition options (suffixes ruleSet cidr : Listable string) (matchResponse : bool) (a : DNSRuleAction) : DefaultDNSRule := {|
  Inbound := None; IPVersion := 0; QueryType := None; Network := None; AuthUser := None; Protocol := None; Domain := None;
  DomainSuffix := suffixes; DomainKeyword := None; DomainRegex := None; SourceIPCIDR := None; SourceIPIsPrivate := false;
  SourcePort := None; SourcePortRange := None; Port := None; PortRange := None; ProcessName := None; ProcessPath := None;
  ProcessPathRegex := None; User := None; UserID := None; Outbound := None; ClashMode := ""; NetworkType := None;
  NetworkIsExpensive := false; NetworkIsConstrained := false; WIFISSID := None; WIFIBSSID := None; InterfaceAddress := None;
  NetworkInterfaceAddress := None; DefaultInterfaceAddress := None; SourceMACAddress := None; SourceHostname := None;
  PreferredBy := None; RuleSet := ruleSet; RuleSetIPCIDRMatchSource := false; MatchResponse := matchResponse; IPCIDR := cidr;
  IPIsPrivate := false; IPAcceptAny := false; ResponseRcode := None; ResponseAnswer := None; ResponseNs := None;
  ResponseExtra := None; Invert := false; Geosite := None; SourceGeoIP := None; GeoIP := None; RuleSetIPCIDRAcceptEmpty := false;
  Deprecated_RulesetIPCIDRMatchSource := false; ruleAction := a |}.

Definition rule (d : DefaultDNSRule) : DNSRule := mkDNSRule "default" d (mkLogicalDNSRule "" [] false zeroAction).

Definition Transport (tag : string) : option (string * string) :=
  if String.eqb tag "remote" then Some ("remote", "udp")
  else if String.eqb tag "local" then Some ("local", "local")
  else if String.eqb tag "fakeip" then Some ("fakeip", "fakeip") else None.

Definition metadata (ip nonIP queryType : bool) : RuleSetMetadata := mkRuleSetMetadata false false ip queryType nonIP.

(** The rule-sets "a", with a rule on query types, and "b", on domains. *)
Definition ruleSets (tag : string) : option (list Rule * RuleSetMetadata) :=
  if String.eqb tag "a" then Some ([], metadata false true true)
  else if String.eqb tag "b" then Some ([], metadata false true false) else None.

(** Evaluate with one server, then answer with another for private addresses. *)
Definition responseRules : list DNSRule :=
  [rule (options (Some [".org"]) None None false (action "evaluate" "remote"));
   rule (options None None (Some ["10.0.0.1"]) true (action "route" "local"))].

(** Two rules that use rule-sets. *)
Definition setRules : list DNSRule :=
  [rule (options None (Some ["a"]) None false (action "route" "remote"));
   rule (options None (Some ["b"]) None false (action "route" "local"))].

(** Legacy: an address filter. *)
Definition legacyRules : list DNSRule :=
  [rule (options (Some [".org"]) None None false (action "route" "fakeip"));
   rule (options None None (Some ["10.0.0.1"]) false (action "route" "remote"));
   rule (options None None None false (action "route" "local"))].
End Demo.

(** Accepted one by one, not together: two updates that a running router
    accepts in the same state, of two rule-sets, after both of which the rules
    need the other mode. *)
Theorem concurrent_updates_break_mode :
  let rs := ruleSet_metadata Demo.ruleSets in
  let noQueryType := Demo.metadata false true false in
  let mixed := Demo.metadata true true false in
  mode_ok rs false Demo.setRules /\
  ValidateRuleSetMetadataUpdate (Some rs) Demo.setRules true false false "a" noQueryType = Ok tt /\
  ValidateRuleSetMetadataUpdate (Some rs) Demo.setRules true false false "b" mixed = Ok tt /\
  ~ mode_ok (updateMetadata "b" mixed (updateMetadata "a" noQueryType rs)) false Demo.setRules.
Proof.
  split_and!.
  - eexists false, _. split; [vm_compute; reflexivity|]. split; [done|by_compute].
  - by_compute.
  - by_compute.
  - intros (candidate & flags & Hr & -> & _). vm_compute in Hr. discriminate Hr.
Qed.

(** ** Witnesses *)

Definition demo_mode (raw : list DnsOpt.DNSRule) : option bool :=
  match newRules snd Demo.Transport Demo.ruleSets true raw with Ok (_, legacy, _) => Some legacy | _ => None end.

Lemma demo_built raw legacy : demo_mode raw = Some legacy ->
  exists rules flags, newRules snd Demo.Transport Demo.ruleSets true raw = Ok (rules, legacy, flags).
Proof.
  unfold demo_mode. destruct (newRules _ _ _ _ raw) as [[[rules lg] flags]| |]; [|done..]. intros [= ->]. by eexists _, _.
Qed.

Lemma demo_response_mode : demo_mode Demo.responseRules = Some false.
Proof. by_compute. Qed.

Lemma demo_set_mode : demo_mode Demo.setRules = Some false.
Proof. by_compute. Qed.

Lemma demo_legacy_mode : demo_mode Demo.legacyRules = Some true.
Proof. by_compute. Qed.

Lemma dns_rules_fit_mode_witness : exists rules, Forall (fun rule => fits_legacy rule = true) rules /\
  exists flags, newRules snd Demo.Transport Demo.ruleSets true Demo.legacyRules = Ok (rules, true, flags).
Proof.
  destruct (demo_built _ _ demo_legacy_mode) as (rules & flags & H). exists rules.
  exact (conj (dns_rules_fit_mode snd Demo.Transport Demo.ruleSets true Demo.legacyRules rules true flags H) (ex_intro _ flags H)).
Defined.

Lemma response_rules_follow_evaluate_witness : exists j rule', (j < 1)%nat /\ Demo.responseRules !! j = Some rule' /\
  dnsRuleActionType rule' = RuleActionTypeEvaluate.
Proof.
  destruct (demo_built _ _ demo_response_mode) as (rules & flags & H).
  exact (response_rules_follow_evaluate snd Demo.Transport Demo.ruleSets true Demo.responseRules rules flags 1%nat _ H eq_refl eq_refl).
Defined.

(** The rule-set "b" gains rules on addresses while "a" keeps the mode. *)
Definition demoUpdates : list (string * RuleSetMetadata) := [("b", Demo.metadata true true false)].

Lemma demo_accepted : accepted Demo.setRules false (ruleSet_metadata Demo.ruleSets) demoUpdates.
Proof. split; [by_compute|exact I]. Qed.

Lemma accepted_updates_keep_mode_witness : mode_ok (updated (ruleSet_metadata Demo.ruleSets) demoUpdates) false Demo.setRules.
Proof.
  destruct (demo_built _ _ demo_set_mode) as (rules & flags & H).
  exact (proj1 (accepted_updates_keep_mode snd Demo.Transport Demo.ruleSets Demo.setRules rules false flags demoUpdates H demo_accepted)).
Defined.

(** A router with the rules of [Demo.setRules], and the counts of its rule-sets. *)
Definition demoRouter (raw : list DnsOpt.DNSRule) : Router (P := unit) (R := unit) :=
  mkRouter demoClient raw [] DomainStrategyAsIS (Some (NewCache 1024)) false false false ∅.

Definition demoRefs : gmap string Z := {[ "a" := 0; "b" := 2 ]}.

Lemma demo_decoded : forallb decoded Demo.setRules = true.
Proof. by_compute. Qed.

#[local] Instance demo_returns : GoEnvReturns.
Proof. split; intros x; cbn; repeat case_match; done. Qed.

Definition demo_tags (raw : list DnsOpt.DNSRule) : Z :=
  match newRules snd Demo.Transport Demo.ruleSets true raw with Ok (rules, _, _) => zlen (concat (map tags_of rules)) | _ => 0 end.

Lemma demo_two_tags : demo_tags Demo.setRules = 2.
Proof. by_compute. Qed.

Lemma demo_room rules legacy flags : newRules snd Demo.Transport Demo.ruleSets true Demo.setRules = Ok (rules, legacy, flags) ->
  room (zlen (concat (map tags_of rules))) demoRefs.
Proof.
  intros H. assert (zlen (concat (map tags_of rules)) = 2) as ->.
  { pose proof demo_two_tags as Ht. unfold demo_tags in Ht. by rewrite H in Ht. }
  intros tag n Hn. unfold demoRefs in Hn. rewrite lookup_insert_Some, lookup_singleton_Some in Hn. lia.
Qed.

Definition demoStart := Router_Start snd Demo.Transport Demo.ruleSets true (fun _ : string * string => None) None (Some None)
  (demoRouter Demo.setRules) demoRefs.

Lemma demo_start_ok : match demoStart with Ok (Ok tt, _, _) => true | _ => false end = true.
Proof. by_compute. Qed.

Lemma dns_router_refs_balanced_witness : exists r' refs' r'', demoStart = Ok (Ok tt, r', refs') /\ Router_Close r' refs' = Ok (r'', demoRefs).
Proof.
  destruct (dns_router_refs_balanced snd Demo.Transport Demo.ruleSets (fun _ : string * string => None) None (Some None)
    (demoRouter Demo.setRules) demoRefs eq_refl demo_decoded demo_room) as [(e & r' & H)|(r' & refs' & r'' & H1 & _ & H2)].
  - pose proof demo_start_ok as Hs. unfold demoStart in Hs. rewrite H in Hs. discriminate Hs.
  - exact (ex_intro _ r' (ex_intro _ refs' (ex_intro _ r'' (conj H1 H2)))).
Defined.
