(* ===== verification/DnsRouterTheorems.v ===== *)
(** * Properties of the DNS router

    The walk over the rules in legacy mode, what a lookup may ask, the
    references on rule-sets, the rules that each mode may hold. *)
From Stdlib Require Import ZArith Lia Bool.
From S2P Require Import Prelude GoIO DnsMsg Metadata RuleItem MatchState RuleEngine RuleTheorems DnsRule HeadlessRule Srs SavedBinary RuleSet RuleSetTheorems RuleObject DnsClient DnsClientTheorems DnsOptions DnsMode DnsRuleBuild DnsRouter DnsBuildTheorems DemoEnv.

(** ** The walk in legacy mode *)

Section Walk.
Context `{GE : GoEnv} (rt : RuntimeState).
Context {DL : DnsLib} {P : Type} {DS : DNSCacheStore P} {R : Type} {RS : RDRCStore R}.
Context {LC : LRU dnsCacheKey Msg} {RM : LRU Addr string}.
Context {T : Type} (transport_Tag transport_Type : T -> string) (Transport : string -> option T) (Default : option T).
Context (ruleSets : string -> option (list Rule * RuleSetMetadata)).
Context (clock : nat -> Z) (exchange : nat -> T -> Z -> Msg -> result Msg).
Context (ctxTag : option string) (cancelled : nat -> option go_error).

(** A rule leaves nothing in the metadata that the next rule would see. *)
Lemma LegacyPreMatch_leaves rule c :
  IgnoreDestinationIPCIDRMatch c = false -> exists d, snd (LegacyPreMatch rt rule c) = set_DidMatch d c.
Proof.
  intros Hi. assert (Hset : forall d, set_IgnoreDestinationIPCIDRMatch false
      (set_DidMatch d (set_IgnoreDestinationIPCIDRMatch true c)) = set_DidMatch d c) by (intros d; destruct c; cbn in *; by subst).
  destruct rule as [r o []|mode rules inverted]; cbn [LegacyPreMatch].
  - exists (DidMatch c). by rewrite set_DidMatch_id.
  - cbn [matchStates_mut]. destruct (default_leaves_DidMatch rt r (evalItem rt o) (set_IgnoreDestinationIPCIDRMatch true c) 0) as [d Hd].
    destruct (default_matchStatesWithBase _ _ _ _ _) as [s c']. cbn [snd] in *. subst c'. exists d. apply Hset.
  - cbn [matchStates_mut snd]. exists (DidMatch c). rewrite set_DidMatch_id. destruct c; cbn in *; by subst.
Qed.

Lemma reset_left d c : reset_for_rule (DNSResponse (set_DidMatch d (reset_for_rule (DNSResponse c) c)))
    (set_DidMatch d (reset_for_rule (DNSResponse c) c)) = reset_for_rule (DNSResponse c) c.
Proof. reflexivity. Qed.

(** The rule matches the query, before its response is known. *)
Definition applies (rule : DNSRuleObject) (c : InboundContext) : bool :=
  fst (LegacyPreMatch rt (view ruleSets rule) (reset_for_rule (DNSResponse c) c)).

(** The rule may end the walk: an address rule only for an address query, a
    route only to a known server that is not a refused fake-IP server. *)
Definition final (allowFakeIP addressQuery : bool) (rule : DNSRuleObject) (c : InboundContext) : bool :=
  (negb (WithAddressLimit ruleSets rule) || addressQuery) && applies rule c
  && match Action rule with
     | Some (RuleActionDNSRoute server _) =>
         match Transport server with
         | Some transport => negb (String.eqb (transport_Type transport) DNSTypeFakeIP) || allowFakeIP
         | None => false
         end
     | Some (RuleActionDNSReject _ _) | Some (RuleActionPredefined _ _ _ _) => true
     | _ => false
     end.

(** The metadata that the walk leaves behind matches like the first. *)
Definition same_query (c c' : InboundContext) : Prop :=
  IgnoreDestinationIPCIDRMatch c' = false /\
  reset_for_rule (DNSResponse c') c' = reset_for_rule (DNSResponse c) c.

Lemma same_query_refl c : IgnoreDestinationIPCIDRMatch c = false -> same_query c c.
Proof. by split. Qed.

Lemma same_query_after rule c c' :
  same_query c c' -> same_query c (snd (LegacyPreMatch rt rule (reset_for_rule (DNSResponse c') c'))).
Proof.
  intros [Hi Hr]. destruct (LegacyPreMatch_leaves rule (reset_for_rule (DNSResponse c') c')) as [d Hd]; [done|]. rewrite Hd.
  split; [done|]. by rewrite reset_left.
Qed.

Lemma applies_same rule c c' : same_query c c' -> applies rule c' = applies rule c.
Proof. intros [_ Hr]. unfold applies. by rewrite Hr. Qed.

(** The result of a walk over [rules], the first of which has index [i]: the
    first rule that may end it, with its transport; or no rule and the default. *)
Definition found (allowFakeIP addressQuery : bool) (c : InboundContext) (i : nat) (rules : list DNSRuleObject)
    (m : Matched (T := T)) : Prop :=
  same_query c (m_metadata m) /\
  match m_rule m with
  | Some (k, rule) => (i <= k)%nat /\ rules !! (k - i)%nat = Some rule /\ final allowFakeIP addressQuery rule c = true /\
      (forall j r, (j < k - i)%nat -> rules !! j = Some r -> final allowFakeIP addressQuery r c = false) /\
      match Action rule with
      | Some (RuleActionDNSRoute server _) => exists t, m_transport m = Some t /\ Transport server = Some t
      | _ => m_transport m = None
      end
  | None => Forall (fun r => final allowFakeIP addressQuery r c = false) rules /\ m_transport m = Default
  end.

Lemma found_skip allowFakeIP addressQuery c i rule rules m :
  final allowFakeIP addressQuery rule c = false ->
  found allowFakeIP addressQuery c (S i) rules m -> found allowFakeIP addressQuery c i (rule :: rules) m.
Proof.
  unfold found. intros Hf [Hs H]. split; [done|]. destruct (m_rule m) as [[k rule']|].
  - destruct H as (Hk & Hl & Hfin & Hprev & Ht). replace (k - i)%nat with (S (k - S i)) by lia.
    split_and!; [lia|done|done| |done]. intros [|j] r Hj Hr; [by injection Hr as <-|]. apply (Hprev j r); [lia|done].
  - destruct H as (Hall & Ht). split; [by constructor|done].
Qed.

Lemma found_here allowFakeIP addressQuery c i rule rules t options c' :
  final allowFakeIP addressQuery rule c = true -> same_query c c' ->
  match Action rule with
  | Some (RuleActionDNSRoute server _) => exists t', t = Some t' /\ Transport server = Some t'
  | _ => t = None
  end -> found allowFakeIP addressQuery c i (rule :: rules) (mkMatched t (Some (i, rule)) options c').
Proof.
  intros Hf Hc Ht. unfold found. cbn [m_metadata m_rule m_transport]. rewrite Nat.sub_diag.
  split_and!; [done|lia|done|done| |done]. intros; lia.
Qed.

Lemma matchDNS_loop_found allowFakeIP addressQuery c rules : forall i options c', same_query c c' ->
  found allowFakeIP addressQuery c i rules
    (matchDNS_loop rt transport_Type Transport Default ruleSets allowFakeIP addressQuery i rules options c').
Proof.
  induction rules as [|rule rules IH]; intros i options c' Hc; cbn [matchDNS_loop]; [by split|].
  pose proof (fun m => found_skip allowFakeIP addressQuery c i rule rules m) as Hskip.
  pose proof (fun t o c' => found_here allowFakeIP addressQuery c i rule rules t o c') as Hhere.
  unfold final in Hskip, Hhere. rewrite <- (applies_same rule c c' Hc) in Hskip, Hhere. unfold applies in Hskip, Hhere.
  pose proof (same_query_after (view ruleSets rule) c c' Hc) as Hc2.
  destruct (WithAddressLimit ruleSets rule && negb addressQuery) eqn:Ew.
  { apply Hskip; [|by apply IH]. destruct (WithAddressLimit ruleSets rule), addressQuery; done. }
  assert (negb (WithAddressLimit ruleSets rule) || addressQuery = true) as Ea
    by (destruct (WithAddressLimit ruleSets rule), addressQuery; done). rewrite Ea in Hskip, Hhere.
  destruct (LegacyPreMatch rt (view ruleSets rule) _) as [matched c2]. cbn [fst snd andb] in *.
  destruct matched; cbn [negb andb] in *; [|apply Hskip; [done|by apply IH]].
  destruct (Action rule) as [[server action|server action| |action|method noDrop|rcode answer ns extra]|];
    try (apply Hskip; [done|by apply IH]); try (by apply Hhere).
  destruct (Transport server) as [t|] eqn:Et; [|apply Hskip; [done|by apply IH]].
  destruct (String.eqb (transport_Type t) DNSTypeFakeIP), allowFakeIP; cbn [andb negb orb] in *;
    first [apply Hskip; [done|by apply IH]|apply Hhere; [done|done|by eexists]].
Qed.

(** The rule found after [ruleIndex] has a greater index. *)
Lemma matchDNS_progress rules allowFakeIP addressQuery ruleIndex options c k rule :
  IgnoreDestinationIPCIDRMatch c = false ->
  m_rule (matchDNS rt transport_Type Transport Default ruleSets rules allowFakeIP addressQuery ruleIndex options c) = Some (k, rule) ->
  (match ruleIndex with None => 0 | Some i => S i end <= k < length rules)%nat.
Proof.
  intros Hi Hm. unfold matchDNS in Hm. set (first := match ruleIndex with None => 0%nat | Some i => S i end) in *.
  pose proof (matchDNS_loop_found allowFakeIP addressQuery c (drop first rules) first options c (same_query_refl c Hi)) as [_ H].
  rewrite Hm in H. destruct H as (Hk & Hl & _). rewrite lookup_drop in Hl. apply lookup_lt_Some in Hl. lia.
Qed.

Lemma matchDNS_metadata rules allowFakeIP addressQuery ruleIndex options c :
  IgnoreDestinationIPCIDRMatch c = false ->
  IgnoreDestinationIPCIDRMatch (m_metadata (matchDNS rt transport_Type Transport Default ruleSets rules allowFakeIP addressQuery ruleIndex options c)) = false.
Proof.
  intros Hi. unfold matchDNS. set (first := match ruleIndex with None => 0%nat | Some i => S i end).
  by destruct (matchDNS_loop_found allowFakeIP addressQuery c (drop first rules) first options c (same_query_refl c Hi)) as [[? _] _].
Qed.

(** *** The walk ends *)

Definition first_rule (ruleIndex : option nat) : nat := match ruleIndex with None => 0 | Some i => S i end.

(** A retry comes after a rule with an address check, of greater index. *)
Lemma retry_progress rules allowFakeIP addressQuery ruleIndex options c fuel :
  IgnoreDestinationIPCIDRMatch c = false -> (length rules - first_rule ruleIndex < S fuel)%nat ->
  let m := matchDNS rt transport_Type Transport Default ruleSets rules allowFakeIP addressQuery ruleIndex options c in
  addressLimitResponseCheck rt ruleSets (m_rule m) (m_metadata m) <> None ->
  (length rules - first_rule (option_map fst (m_rule m)) < fuel)%nat.
Proof.
  intros Hi Hf m Hc. destruct (m_rule m) as [[k rule]|] eqn:Em; [|done].
  apply matchDNS_progress in Em; [|done]. unfold first_rule in *. cbn [option_map fst]. destruct ruleIndex; lia.
Qed.

Lemma legacy_exchange_ends defaultStrategy rules message options fuel : forall ruleIndex c (run : Run (P := P) (R := R)),
  IgnoreDestinationIPCIDRMatch c = false -> (length rules - first_rule ruleIndex < fuel)%nat ->
  is_Some (legacy_exchange rt transport_Tag transport_Type Transport Default ruleSets clock exchange ctxTag cancelled
    fuel defaultStrategy rules message options ruleIndex c run).
Proof.
  induction fuel as [|fuel IH]; intros ruleIndex c run Hi Hf; [lia|]. cbn [legacy_exchange]. cbn zeta.
  pose proof (retry_progress rules true (isAddressQuery message) ruleIndex options c fuel Hi Hf) as Hp. cbn zeta in Hp.
  pose proof (matchDNS_metadata rules true (isAddressQuery message) ruleIndex options c Hi) as Hi'.
  destruct (matchDNS _ _ _ _ _ _ _ _ _ _ _) as [t mr o c']. cbn [m_transport m_rule m_options m_metadata] in *.
  assert (Hask : is_Some (let '(r, run0) := client_Exchange transport_Tag clock exchange ctxTag cancelled (asking rules mr) t
      message (withDefaultStrategy defaultStrategy o) (addressLimitResponseCheck rt ruleSets mr c') run in
      if negb (bool_decide (addressLimitResponseCheck rt ruleSets mr c' = None))
         && match r with Err e => isResponseRejected e | _ => false end
      then legacy_exchange rt transport_Tag transport_Type Transport Default ruleSets clock exchange ctxTag cancelled
        fuel defaultStrategy rules message options (option_map fst mr) c' run0
      else Some (Answered r t, run0))).
  { destruct (client_Exchange _ _ _ _ _ _ _ _ _ _) as [r run0]. case_bool_decide; cbn [negb andb]; [by eexists|].
    match goal with |- is_Some (if ?b then _ else _) => destruct b end; [|by eexists]. apply IH; [done|]. by apply Hp. }
  destruct mr as [[k rule]|]; [|done]. destruct (Action rule) as [[]|]; try done.
  repeat (destruct (String.eqb _ _); [by eexists|]). done.
Qed.

Lemma legacy_lookup_ends group_Run sixFirst defaultStrategy rules domain options fuel :
  forall ruleIndex c (run : Run (P := P) (R := R)),
  IgnoreDestinationIPCIDRMatch c = false -> (length rules - first_rule ruleIndex < fuel)%nat ->
  is_Some (legacy_lookup rt transport_Tag transport_Type Transport Default ruleSets clock exchange ctxTag cancelled
    group_Run sixFirst fuel defaultStrategy rules domain options ruleIndex c run).
Proof.
  induction fuel as [|fuel IH]; intros ruleIndex c run Hi Hf; [lia|]. cbn [legacy_lookup]. cbn zeta.
  pose proof (retry_progress rules false true ruleIndex options c fuel Hi Hf) as Hp. cbn zeta in Hp.
  pose proof (matchDNS_metadata rules false true ruleIndex options c Hi) as Hi'.
  destruct (matchDNS _ _ _ _ _ _ _ _ _ _ _) as [t mr o c']. cbn [m_transport m_rule m_options m_metadata] in *.
  assert (Hask : is_Some (let '(r, run0) := client_Lookup transport_Tag clock exchange ctxTag cancelled group_Run sixFirst
      (asking rules mr) t domain (withDefaultStrategy defaultStrategy o) (addressLimitResponseCheck rt ruleSets mr c') run in
      if bool_decide (addressLimitResponseCheck rt ruleSets mr c' = None) || negb (match r with Err _ => true | _ => false end)
      then Some (true, r, run0)
      else legacy_lookup rt transport_Tag transport_Type Transport Default ruleSets clock exchange ctxTag cancelled
        group_Run sixFirst fuel defaultStrategy rules domain options (option_map fst mr) c' run0)).
  { destruct (client_Lookup _ _ _ _ _ _ _ _ _ _ _ _) as [r run0]. case_bool_decide; cbn [orb]; [by eexists|].
    match goal with |- is_Some (if ?b then _ else _) => destruct b end; [by eexists|]. apply IH; [done|]. by apply Hp. }
  destruct mr as [[k rule]|]; [|done]. destruct (Action rule) as [[]|]; try done.
  destruct (rejectError _ _ _ _ _) as [e run1]. by eexists.
Qed.
End Walk.

(** ** What a lookup asks *)

Section Agree.
Context `{GE : GoEnv} (rt : RuntimeState).
Context {DL : DnsLib} {P : Type} {DS : DNSCacheStore P} {R : Type} {RS : RDRCStore R}.
Context {LC : LRU dnsCacheKey Msg} {RM : LRU Addr string}.
Context {T : Type} (transport_Tag transport_Type : T -> string) (Transport : string -> option T) (Default : option T).
Context (ruleSets : string -> option (list Rule * RuleSetMetadata)).
Context (clock : nat -> Z) (ctxTag : option string) (cancelled : nat -> option go_error).
Context (group_Run : option go_error -> option go_error -> option go_error) (sixFirst : bool).

(** Two networks that differ in what their fake-IP servers answer. *)
Context (exchange exchange' : nat -> T -> Z -> Msg -> result Msg).
Hypothesis agree : forall i t, transport_Type t <> DNSTypeFakeIP -> exchange i t = exchange' i t.
Hypothesis Default_ok : forall t, Default = Some t -> transport_Type t <> DNSTypeFakeIP.

Definition not_fakeip (transport : option T) : Prop := forall t, transport = Some t -> transport_Type t <> DNSTypeFakeIP.

(** The evaluate actions name other servers. *)
Definition evaluates_real (rules : list DNSRuleObject) : Prop :=
  forall rule server options, rule ∈ rules -> Action rule = Some (RuleActionEvaluate server options) -> not_fakeip (Transport server).

Lemma client_Exchange_agree i transport message options chk (run : Run (P := P) (R := R)) :
  not_fakeip transport ->
  client_Exchange transport_Tag clock exchange ctxTag cancelled i transport message options chk run =
  client_Exchange transport_Tag clock exchange' ctxTag cancelled i transport message options chk run.
Proof. destruct transport as [t|]; [|done]. intros H. unfold client_Exchange. by rewrite (agree i t (H t eq_refl)). Qed.

Lemma client_Lookup_agree i transport domain options chk (run : Run (P := P) (R := R)) :
  not_fakeip transport ->
  client_Lookup transport_Tag clock exchange ctxTag cancelled group_Run sixFirst i transport domain options chk run =
  client_Lookup transport_Tag clock exchange' ctxTag cancelled group_Run sixFirst i transport domain options chk run.
Proof. destruct transport as [t|]; [|done]. intros H. unfold client_Lookup. by rewrite (agree i t (H t eq_refl)). Qed.

Lemma resolved_not_fakeip server action options transport o :
  resolveDNSRoute transport_Type Transport server action false options = (transport, dnsRouteStatusResolved, o) -> not_fakeip transport.
Proof.
  unfold resolveDNSRoute. destruct (Transport server) as [t|]; [|done].
  destruct (String.eqb_spec (transport_Type t) DNSTypeFakeIP) as [E|E]; cbn [andb negb]; [done|].
  intros [= <- _] t' [= <-]. done.
Qed.

Lemma exchangeWithRules_agree defaultStrategy message c rules : forall i options evaluated (run : Run (P := P) (R := R)),
  evaluates_real rules ->
  exchangeWithRules_loop rt transport_Tag transport_Type Transport Default ruleSets clock exchange ctxTag cancelled
    defaultStrategy false message c i rules options evaluated run =
  exchangeWithRules_loop rt transport_Tag transport_Type Transport Default ruleSets clock exchange' ctxTag cancelled
    defaultStrategy false message c i rules options evaluated run.
Proof.
  induction rules as [|rule rules IH]; intros i options evaluated run Hr; cbn [exchangeWithRules_loop].
  { by rewrite client_Exchange_agree. }
  assert (evaluates_real rules) as Hr' by (intros r' s' o' Hin; apply Hr; by right).
  cbn zeta. destruct (negb _); [by apply IH|].
  destruct (Action rule) as [[server action|server action| |action|method noDrop|rcode answer ns extra]|] eqn:Ea; try done;
    try by apply IH.
  - destruct (resolveDNSRoute _ _ _ _ _ _) as [[t []] o] eqn:Er; try by apply IH.
    rewrite client_Exchange_agree; [done|by eapply resolved_not_fakeip].
  - pose proof (Hr rule server action ltac:(left) Ea) as Hn. destruct (Transport server) as [t|]; [|by apply IH].
    rewrite client_Exchange_agree by done. destruct (client_Exchange _ _ _ _ _ _ _ _ _ _) as [[] run']; try done; by apply IH.
  - destruct (String.eqb method RuleActionRejectMethodDefault); [done|].
    destruct (String.eqb method RuleActionRejectMethodDrop); [done|by apply IH].
Qed.

Lemma lookupWithRulesType_agree defaultStrategy rules domain qType options c (run : Run (P := P) (R := R)) :
  evaluates_real rules ->
  lookupWithRulesType rt transport_Tag transport_Type Transport Default ruleSets clock exchange ctxTag cancelled
    defaultStrategy rules domain qType options c run =
  lookupWithRulesType rt transport_Tag transport_Type Transport Default ruleSets clock exchange' ctxTag cancelled
    defaultStrategy rules domain qType options c run.
Proof. intros Hr. unfold lookupWithRulesType, exchangeWithRules. by rewrite exchangeWithRules_agree. Qed.

Lemma lookupWithRules_agree defaultStrategy rules domain options c (run : Run (P := P) (R := R)) :
  evaluates_real rules ->
  lookupWithRules rt transport_Tag transport_Type Transport Default ruleSets clock exchange ctxTag cancelled group_Run sixFirst
    defaultStrategy rules domain options c run =
  lookupWithRules rt transport_Tag transport_Type Transport Default ruleSets clock exchange' ctxTag cancelled group_Run sixFirst
    defaultStrategy rules domain options c run.
Proof.
  intros Hr. unfold lookupWithRules. cbn zeta. rewrite !lookupWithRulesType_agree by done.
  destruct (_ =? DomainStrategyIPv4Only); [done|]. destruct (_ =? DomainStrategyIPv6Only); [done|].
  destruct (lookupWithRulesType _ _ _ _ _ _ _ _ _ _ _ _ _ _ _ _ _) as [r1 run1]. by rewrite lookupWithRulesType_agree.
Qed.

(** The transport of a walk that refuses fake-IP servers. *)
Lemma walk_not_fakeip rules addressQuery ruleIndex options c :
  IgnoreDestinationIPCIDRMatch c = false ->
  not_fakeip (m_transport (matchDNS rt transport_Type Transport Default ruleSets rules false addressQuery ruleIndex options c)).
Proof.
  intros Hi. unfold matchDNS. set (first := match ruleIndex with None => 0%nat | Some i => S i end).
  pose proof (matchDNS_loop_found rt transport_Type Transport Default ruleSets false addressQuery c (drop first rules) first options c
    (same_query_refl c Hi)) as [_ H].
  destruct (matchDNS_loop _ _ _ _ _ _ _ _ _ _ _) as [t mr o c']. cbn [m_rule m_transport] in *.
  destruct mr as [[k rule]|]; [|destruct H as [_ ->]; exact Default_ok].
  destruct H as (_ & _ & Hf & _ & Ht). unfold final in Hf. apply andb_true_iff in Hf as [_ Hf].
  destruct (Action rule) as [[server action|server action| |action|method noDrop|rcode answer ns extra]|]; try (by subst t).
  destruct Ht as (t' & -> & Et). rewrite Et in Hf. rewrite orb_false_r in Hf. apply negb_true_iff, String.eqb_neq in Hf.
  by intros ? [= <-].
Qed.

Lemma legacy_lookup_agree defaultStrategy rules domain options fuel : forall ruleIndex c (run : Run (P := P) (R := R)),
  IgnoreDestinationIPCIDRMatch c = false ->
  legacy_lookup rt transport_Tag transport_Type Transport Default ruleSets clock exchange ctxTag cancelled group_Run sixFirst
    fuel defaultStrategy rules domain options ruleIndex c run =
  legacy_lookup rt transport_Tag transport_Type Transport Default ruleSets clock exchange' ctxTag cancelled group_Run sixFirst
    fuel defaultStrategy rules domain options ruleIndex c run.
Proof.
  induction fuel as [|fuel IH]; intros ruleIndex c run Hi; [done|]. cbn [legacy_lookup]. cbn zeta.
  rewrite (client_Lookup_agree _ _ _ _ _ _ (walk_not_fakeip rules true ruleIndex options c Hi)).
  pose proof (matchDNS_metadata rt transport_Type Transport Default ruleSets rules false true ruleIndex options c Hi) as Hi'.
  destruct (matchDNS _ _ _ _ _ _ _ _ _ _ _) as [t mr o c']. cbn [m_transport m_rule m_options m_metadata] in *.
  destruct (client_Lookup _ _ _ _ _ _ _ _ _ _ _ _) as [r run']. by rewrite IH.
Qed.
End Agree.

(** ** Theorems *)

Section Theorems.
Context `{GE : GoEnv} (rt : RuntimeState).
Context {DL : DnsLib} {P : Type} {DS : DNSCacheStore P} {R : Type} {RS : RDRCStore R}.
Context {LC : LRU dnsCacheKey Msg} {RM : LRU Addr string}.
Context {T : Type} (transport_Tag transport_Type : T -> string) (Transport : string -> option T) (Default : option T).
Context (ruleSets : string -> option (list Rule * RuleSetMetadata)).
Context (clock : nat -> Z) (exchange : nat -> T -> Z -> Msg -> result Msg).
Context (ctxTag : option string) (cancelled : nat -> option go_error).
Context (group_Run : option go_error -> option go_error -> option go_error) (sixFirst : bool).

(** C36: a query or a lookup in legacy mode ends: the loop that tries the rules one
    after the other while the responses are rejected leaves after at most one turn
    per rule and one for the default server, whatever the servers answer. *)
Theorem legacy_queries_end defaultStrategy rules message domain options metadata (run : Run (P := P) (R := R)) :
  IgnoreDestinationIPCIDRMatch metadata = false ->
  is_Some (legacy_exchange rt transport_Tag transport_Type Transport Default ruleSets clock exchange ctxTag cancelled
    (S (length rules)) defaultStrategy rules message options None metadata run) /\
  is_Some (legacy_lookup rt transport_Tag transport_Type Transport Default ruleSets clock exchange ctxTag cancelled group_Run sixFirst
    (S (length rules)) defaultStrategy rules domain options None metadata run).
Proof.
  intros Hi. split; [apply legacy_exchange_ends|apply legacy_lookup_ends]; try done; unfold first_rule; lia.
Qed.

(** The rule that [matchDNS] selects after rule [ruleIndex] is the first one
    behind it that matches the query and can end the walk: an address rule only
    for an address query, a route only to a server that exists and, when fake
    addresses are not allowed, is not a fake-IP server.  Rules in between, whether
    they match or not, leave nothing in the metadata that changes the outcome of
    the following ones.  Without such a rule the default server is taken. *)
Theorem legacy_first_rule rules allowFakeIP addressQuery ruleIndex options metadata :
  IgnoreDestinationIPCIDRMatch metadata = false ->
  let m := matchDNS rt transport_Type Transport Default ruleSets rules allowFakeIP addressQuery ruleIndex options metadata in
  let ends rule := final rt transport_Type Transport ruleSets allowFakeIP addressQuery rule metadata in
  match m_rule m with
  | Some (k, rule) =>
      (first_rule ruleIndex <= k)%nat /\ rules !! k = Some rule /\ ends rule = true /\
      (forall j r, (first_rule ruleIndex <= j < k)%nat -> rules !! j = Some r -> ends r = false) /\
      m_transport m = match Action rule with Some (RuleActionDNSRoute server _) => Transport server | _ => None end
  | None => (forall j r, (first_rule ruleIndex <= j)%nat -> rules !! j = Some r -> ends r = false) /\ m_transport m = Default
  end.
Proof.
  intros Hi m ends. unfold m, matchDNS. fold (first_rule ruleIndex). set (first := first_rule ruleIndex).
  pose proof (matchDNS_loop_found rt transport_Type Transport Default ruleSets allowFakeIP addressQuery metadata (drop first rules)
    first options metadata (same_query_refl metadata Hi)) as [_ H].
  destruct (matchDNS_loop _ _ _ _ _ _ _ _ _ _ _) as [t mr o c]. cbn [m_rule m_transport] in *. destruct mr as [[k rule]|].
  - destruct H as (Hk & Hl & Hf & Hp & Ht). rewrite lookup_drop in Hl. replace (first + (k - first))%nat with k in Hl by lia.
    split_and!; [done..| |].
    + intros j r Hj Hr. apply (Hp (j - first)%nat r); [lia|]. rewrite lookup_drop. by replace (first + (j - first))%nat with j by lia.
    + destruct (Action rule) as [[]|]; try done. destruct Ht as (t' & -> & ->). done.
  - destruct H as [Hall Ht]. split; [|done]. intros j r Hj Hr. rewrite Forall_lookup in Hall. apply (Hall (j - first)%nat).
    rewrite lookup_drop. by replace (first + (j - first))%nat with j by lia.
Qed.

(** C3: a lookup never asks a fake-IP server on its own account, in either
    mode, by none of its rules' actions: the result of [Lookup] on a router that
    started, the state it leaves and the refreshes it starts are the same in two
    networks whose fake-IP servers answer differently.  Two servers are taken
    without looking at a rule and must not be fake-IP servers for this to hold: the
    one the caller names in the options, and the default server.  The metadata is
    not that of a rule evaluation that ignores destination addresses. *)
Theorem lookup_never_asks_fakeip hasRouter PreferredDomain initRDRC initCache (r0 r : Router (P := P) (R := R)) refs0 refs
    (exchange' : nat -> T -> Z -> Msg -> result Msg) domain options metadata :
  r_closing r0 = false ->
  Router_Start transport_Type Transport ruleSets hasRouter PreferredDomain initRDRC initCache r0 refs0 = Ok (Ok tt, r, refs) ->
  (forall i t, transport_Type t <> DNSTypeFakeIP -> exchange i t = exchange' i t) ->
  (forall t, qo_Transport options = Some t -> transport_Type t <> DNSTypeFakeIP) ->
  (qo_Transport options = None -> forall t, Default = Some t -> transport_Type t <> DNSTypeFakeIP) ->
  IgnoreDestinationIPCIDRMatch metadata = false ->
  Router_Lookup rt transport_Tag transport_Type Transport Default ruleSets clock exchange ctxTag cancelled group_Run sixFirst
    domain options metadata r =
  Router_Lookup rt transport_Tag transport_Type Transport Default ruleSets clock exchange' ctxTag cancelled group_Run sixFirst
    domain options metadata r.
Proof.
  intros Hc Hs Ha Ho Hd Hi. unfold Router_Lookup. destruct (r_closing r); [done|]. cbn zeta.
  destruct (qo_Transport options) as [named|] eqn:En.
  { unfold client_Lookup. by rewrite (Ha _ named) by (by apply Ho). }
  specialize (Hd eq_refl). destruct (negb (legacyDNSMode r)).
  - rewrite (lookupWithRules_agree _ _ _ _ _ _ _ _ _ _ _ exchange exchange'); [done|done|done|].
    intros rule server o Hin Hact t Ht. by eapply Router_Start_evaluate.
  - by rewrite (legacy_lookup_agree _ _ _ _ _ _ _ _ _ _ _ exchange exchange').
Qed.
End Theorems.

(** ** Witnesses *)

Definition demoDefault : option (string * string) := Some ("remote", "udp").

Definition demoNetwork (fake : Z) (i : nat) (t : string * string) (timeout : Z) (m : Msg) : result Msg :=
  Ok (FixedResponse (Msg_Id m) demoQuestion [Addr4 (if String.eqb (snd t) DNSTypeFakeIP then fake else 167772161)] 300).

Definition demoPairOptions : DNSQueryOptions (string * string) :=
  mkQueryOptions None DomainStrategyAsIS DomainStrategyAsIS false false None 0 (mkPrefix AddrInvalid (-1)).

Definition demoMetadata : InboundContext := lookup_metadata "example.org" (demoConnection "").

Definition demoGroup (e4 e6 : option go_error) : option go_error := match e4 with Some e => Some e | None => e6 end.

Definition demoLegacyRules : list DNSRuleObject :=
  match newRules snd Demo.Transport Demo.ruleSets true Demo.legacyRules with Ok (rules, _, _) => rules | _ => [] end.

Lemma legacy_queries_end_witness :
  is_Some (legacy_exchange demoRuntime fst snd Demo.Transport demoDefault Demo.ruleSets (fun _ => 0) (demoNetwork 7) None (fun _ => None)
    (S (length demoLegacyRules)) DomainStrategyAsIS demoLegacyRules demoQuery demoPairOptions None demoMetadata
    (mkRun demoClient [] ∅ : Run (P := unit) (R := unit))).
Proof.
  exact (proj1 (legacy_queries_end demoRuntime fst snd Demo.Transport demoDefault Demo.ruleSets (fun _ => 0) (demoNetwork 7) None
    (fun _ => None) demoGroup false DomainStrategyAsIS demoLegacyRules demoQuery "example.org" demoPairOptions demoMetadata
    (mkRun demoClient [] ∅) eq_refl)).
Defined.

(** With fake addresses the first rule is taken, without them the second. *)
Definition demoWalk (allowFakeIP : bool) : option nat :=
  option_map fst (m_rule (matchDNS demoRuntime snd Demo.Transport demoDefault Demo.ruleSets demoLegacyRules allowFakeIP true None
    demoPairOptions demoMetadata)).

Lemma demo_walk_fake : demoWalk true = Some 0%nat.
Proof. by_compute. Qed.

Lemma demo_walk_real : demoWalk false = Some 1%nat.
Proof. by_compute. Qed.

Lemma legacy_first_rule_witness : exists rule, demoLegacyRules !! 1%nat = Some rule /\
  final demoRuntime snd Demo.Transport Demo.ruleSets false true rule demoMetadata = true.
Proof.
  pose proof (legacy_first_rule demoRuntime snd Demo.Transport demoDefault Demo.ruleSets demoLegacyRules false true None demoPairOptions
    demoMetadata eq_refl) as H. pose proof demo_walk_real as Hw. unfold demoWalk in Hw. cbn zeta in H.
  destruct (m_rule _) as [[k rule]|]; [|discriminate Hw]. injection Hw as ->. destruct H as (_ & Hl & Hf & _).
  exact (ex_intro _ rule (conj Hl Hf)).
Defined.

Lemma demo_networks_agree i t : snd t <> DNSTypeFakeIP -> demoNetwork 7 i t = demoNetwork 8 i t.
Proof. intros H. unfold demoNetwork. by rewrite (proj2 (String.eqb_neq (snd t) DNSTypeFakeIP) H). Qed.

Lemma demo_default_real t : demoDefault = Some t -> snd t <> DNSTypeFakeIP.
Proof. intros [= <-]. discriminate. Qed.

Lemma demo_none_named t : qo_Transport demoPairOptions = Some t -> snd t <> DNSTypeFakeIP.
Proof. done. Qed.

Lemma lookup_never_asks_fakeip_witness : exists r refs, demoStart = Ok (Ok tt, r, refs) /\
  Router_Lookup demoRuntime fst snd Demo.Transport demoDefault Demo.ruleSets (fun _ => 0) (demoNetwork 7) None (fun _ => None) demoGroup
    false "example.org" demoPairOptions demoMetadata r =
  Router_Lookup demoRuntime fst snd Demo.Transport demoDefault Demo.ruleSets (fun _ => 0) (demoNetwork 8) None (fun _ => None) demoGroup
    false "example.org" demoPairOptions demoMetadata r.
Proof.
  pose proof demo_start_ok as Hs. destruct demoStart as [[[[[]| |] r] refs]| |] eqn:E; try discriminate Hs.
  exact (ex_intro _ r (ex_intro _ refs (conj eq_refl (lookup_never_asks_fakeip demoRuntime fst snd Demo.Transport demoDefault Demo.ruleSets
    (fun _ => 0) (demoNetwork 7) None (fun _ => None) demoGroup false true (fun _ => None) None (Some None) (demoRouter Demo.setRules) r
    demoRefs refs (demoNetwork 8) "example.org" demoPairOptions demoMetadata eq_refl E demo_networks_agree demo_none_named (fun _ => demo_default_real) eq_refl)))).
Defined.
