(* ===== verification/FakeIPStorage.v ===== *)
(** * Fake-IP storage (dns/transport/fakeip/memory.go,
      experimental/cachefile/fakeip.go, adapter/fakeip.go, fakeip_metadata.go)

    A fake-IP store remembers which domain a made-up address stands for.
    [FakeIPStorage] is the interface the store uses, with two
    implementations: the maps of [MemoryStorage], and three buckets of the
    cache file.  [FakeIPStorageLaws] is what the implementations promise.

    The database (bbolt) is code outside this repository: [Bolt] collects the
    transaction operations the cache file uses and [BoltLaws] their
    documented behaviour; [mapBolt] is a concrete instance.  Writes to disk
    can fail: [Disk] carries the outcome of one transaction, whether it
    commits and whether a database deleted after a panic can be opened again.
    A database that is closed or could not be reopened is [None]. *)
From Stdlib Require Import ZArith Lia Bool.
From S2P Require Import Prelude GoIO DnsMsg Metadata.

(** ** [adapter.FakeIPMetadata] and its codec *)

Record FakeIPMetadata := mkFakeIPMetadata {
  Inet4Range : Prefix;
  Inet6Range : Prefix;
  Inet4Current : Addr;
  Inet6Current : Addr;
}.

#[export] Instance FakeIPMetadata_eq_dec : EqDecision FakeIPMetadata.
Proof. solve_decision. Defined.

(** [netip.Addr.MarshalBinary] and [UnmarshalBinary]. *)
Definition Addr_MarshalBinary (a : Addr) : list byte :=
  match a with
  | AddrInvalid => []
  | Addr4 v => be_encode 4 v
  | Addr6 v z => be_encode 16 v ++ bytes_of_string z
  end.

Definition Addr_UnmarshalBinary (b : list byte) : result Addr :=
  if zlen b =? 0 then Ok AddrInvalid
  else if zlen b =? 4 then Ok (Addr4 (be_decode b))
  else if 16 <=? zlen b then Ok (Addr6 (be_decode (take 16 b)) (string_of_bytes (drop 16 b)))
  else Err (ENew "unexpected slice size").

(** [netip.Prefix.MarshalBinary] and [UnmarshalBinary]: the address without
    its zone, then one byte for the length. *)
Definition Prefix_MarshalBinary (p : Prefix) : list byte :=
  Addr_MarshalBinary (Addr_withoutZone (prefix_addr p)) ++ [byte_of_Z (prefix_bits p)].

Definition Prefix_UnmarshalBinary (b : list byte) : result Prefix :=
  match last b with
  | None => Err (ENew "unexpected slice size")
  | Some bits =>
      let* addr := Addr_UnmarshalBinary (take (length b - 1) b) in
      Ok (PrefixFrom addr (Z_of_byte bits))
  end.

(** One element: its length on two bytes, then its bytes. *)
Definition frame (data : list byte) : list byte := be_encode 2 (uint16 (zlen data)) ++ data.

Definition FakeIPMetadata_MarshalBinary (m : FakeIPMetadata) : list byte :=
  frame (Prefix_MarshalBinary (Inet4Range m)) ++ frame (Prefix_MarshalBinary (Inet6Range m))
  ++ frame (Addr_MarshalBinary (Inet4Current m)) ++ frame (Addr_MarshalBinary (Inet6Current m)).

(** [common.Must(binary.Read(reader, binary.BigEndian, &length))]: a short
    read panics; then [io.ReadFull] and the element's decoder. *)
Definition read_frame : Reader (list byte) := fun i =>
  match ReadFull 2 i with
  | Ok (b, i) => ReadFull (be_decode b) i
  | Err e => Panic "common.Must"
  | Panic s => Panic s
  end.

Definition FakeIPMetadata_UnmarshalBinary (data : list byte) : result FakeIPMetadata :=
  let* read :=
    (let! d := read_frame in let! range4 := rlift (Prefix_UnmarshalBinary d) in
     let! d := read_frame in let! range6 := rlift (Prefix_UnmarshalBinary d) in
     let! d := read_frame in let! current4 := rlift (Addr_UnmarshalBinary d) in
     let! d := read_frame in let! current6 := rlift (Addr_UnmarshalBinary d) in
     rret (mkFakeIPMetadata range4 range6 current4 current6)) data in
  Ok (fst read).

(** ** The interface *)

Record Disk := mkDisk { disk_commit : option go_error; disk_reopens : bool }.

(** [adapter.FakeIPStorage]. *)
Class FakeIPStorage (S : Type) := {
  LoadMetadata : Disk -> S -> option FakeIPMetadata * S;      (* FakeIPMetadata() *)
  FakeIPSaveMetadata : Disk -> FakeIPMetadata -> S -> result unit * S;
  FakeIPSaveMetadataAsync : FakeIPMetadata -> S -> S;
  FakeIPStore : Disk -> Addr -> string -> S -> result unit * S;
  FakeIPLoad : Addr -> S -> option string;
  FakeIPLoadDomain : string -> bool -> S -> option Addr;
  FakeIPReset : Disk -> S -> result unit * S;
}.

(** Addresses a store hands out: without zone, of the size of their family. *)
Definition plain (a : Addr) : bool :=
  match a with
  | AddrInvalid => false
  | Addr4 v => (0 <=? v) && (v <? 2 ^ 32)
  | Addr6 v z => (0 <=? v) && (v <? 2 ^ 128) && String.eqb z ""
  end.

(** Two storages with the same mappings. *)
Definition same_mappings {S} `{FakeIPStorage S} (s s' : S) : Prop :=
  (forall a, FakeIPLoad a s' = FakeIPLoad a s) /\
  (forall d v6, FakeIPLoadDomain d v6 s' = FakeIPLoadDomain d v6 s).

(** The mapping of [a] and [d] added: a domain that had [a] loses it. *)
Definition mapping_added {S} `{FakeIPStorage S} (a : Addr) (d : string) (s s' : S) : Prop :=
  (forall a', plain a' = true -> FakeIPLoad a' s' = if decide (a' = a) then Some d else FakeIPLoad a' s) /\
  (forall d' v6, FakeIPLoadDomain d' v6 s' =
     if Bool.eqb v6 (Addr_Is6 a) then
       if decide (d' = d) then Some a
       else if decide (FakeIPLoad a s = Some d') then None else FakeIPLoadDomain d' v6 s
     else FakeIPLoadDomain d' v6 s).

Definition no_mappings {S} `{FakeIPStorage S} (s : S) : Prop :=
  (forall a, FakeIPLoad a s = None) /\ (forall d v6, FakeIPLoadDomain d v6 s = None).

(** The promise: with a representation invariant [storage_ok], storing adds a
    mapping or, on an error, changes nothing; a reset drops all mappings or,
    on an error, none; the metadata operations keep the mappings (loading the
    metadata may drop them all, when the database turns out to be corrupted). *)
Class FakeIPStorageLaws (S : Type) `{FakeIPStorage S} := {
  storage_ok : S -> Prop;
  store_law disk a d s : storage_ok s -> plain a = true ->
    let '(r, s') := FakeIPStore disk a d s in
    storage_ok s' /\ (r = Ok tt /\ mapping_added a d s s' \/ (exists e, r = Err e) /\ same_mappings s s');
  reset_law disk s : storage_ok s ->
    let '(r, s') := FakeIPReset disk s in
    storage_ok s' /\ (r = Ok tt /\ no_mappings s' \/ (exists e, r = Err e) /\ same_mappings s s');
  load_metadata_law disk s : storage_ok s ->
    let s' := snd (LoadMetadata disk s) in storage_ok s' /\ (same_mappings s s' \/ no_mappings s');
  save_metadata_law disk m s : storage_ok s ->
    let '(r, s') := FakeIPSaveMetadata disk m s in storage_ok s' /\ is_panic r = false /\ same_mappings s s';
  save_async_law m s : storage_ok s ->
    storage_ok (FakeIPSaveMetadataAsync m s) /\ same_mappings s (FakeIPSaveMetadataAsync m s);
}.

(** ** [MemoryStorage] *)

Record MemoryStorage := mkMemoryStorage {
  addressCache : gmap Addr string;
  domainCache4 : gmap string Addr;
  domainCache6 : gmap string Addr;
}.

Definition NewMemoryStorage : MemoryStorage := mkMemoryStorage ∅ ∅ ∅.

Definition memory_FakeIPStore (address : Addr) (domain : string) (s : MemoryStorage) : MemoryStorage :=
  let s :=
    match addressCache s !! address with
    | Some oldDomain =>
        if Addr_Is4 address
        then mkMemoryStorage (addressCache s) (delete oldDomain (domainCache4 s)) (domainCache6 s)
        else mkMemoryStorage (addressCache s) (domainCache4 s) (delete oldDomain (domainCache6 s))
    | None => s
    end in
  let addressCache' := <[address := domain]> (addressCache s) in
  if Addr_Is4 address
  then mkMemoryStorage addressCache' (<[domain := address]> (domainCache4 s)) (domainCache6 s)
  else mkMemoryStorage addressCache' (domainCache4 s) (<[domain := address]> (domainCache6 s)).

Definition memory_FakeIPLoad (address : Addr) (s : MemoryStorage) : option string := addressCache s !! address.

Definition memory_FakeIPLoadDomain (domain : string) (isIPv6 : bool) (s : MemoryStorage) : option Addr :=
  if negb isIPv6 then domainCache4 s !! domain else domainCache6 s !! domain.

Definition memory_FakeIPReset (s : MemoryStorage) : MemoryStorage := mkMemoryStorage ∅ ∅ ∅.

#[export] Instance memory_storage : FakeIPStorage MemoryStorage := {|
  LoadMetadata _ s := (None, s);
  FakeIPSaveMetadata _ _ s := (Ok tt, s);
  FakeIPSaveMetadataAsync _ s := s;
  FakeIPStore _ a d s := (Ok tt, memory_FakeIPStore a d s);
  FakeIPLoad := memory_FakeIPLoad;
  FakeIPLoadDomain := memory_FakeIPLoadDomain;
  FakeIPReset _ s := (Ok tt, memory_FakeIPReset s);
|}.

(** ** The database *)

Class Bolt := {
  DB : Type;
  emptyDB : DB;
  tx_Bucket : list byte -> DB -> bool;                               (* tx.Bucket(name) != nil *)
  tx_Get : list byte -> list byte -> DB -> option (list byte);       (* nil: no bucket or no key *)
  tx_CreateBucketIfNotExists : list byte -> DB -> result DB;
  tx_Put : list byte -> list byte -> list byte -> DB -> result DB;   (* in an existing bucket *)
  tx_Delete : list byte -> list byte -> DB -> result DB;
  tx_DeleteBucket : list byte -> DB -> result DB;
}.

(** bbolt's limits on the lengths of keys and values. *)
Definition MaxKeySize : Z := 32768.
Definition MaxValueSize : Z := 2 ^ 31 - 2.

Class BoltLaws `{Bolt} := {
  get_empty b k : tx_Get b k emptyDB = None;
  get_empty_key b db : tx_Get b [] db = None;
  get_no_bucket b k db : tx_Bucket b db = false -> tx_Get b k db = None;
  create_no_panic b db : is_panic (tx_CreateBucketIfNotExists b db) = false;
  create_ok b db : b <> [] -> exists db', tx_CreateBucketIfNotExists b db = Ok db';
  create_spec b db db' : tx_CreateBucketIfNotExists b db = Ok db' ->
    (forall b', tx_Bucket b' db' = tx_Bucket b' db || bool_decide (b' = b)) /\
    (forall b' k, tx_Get b' k db' = tx_Get b' k db);
  put_ok b k v db : tx_Bucket b db = true -> k <> [] -> zlen k <= MaxKeySize -> zlen v <= MaxValueSize ->
    exists db', tx_Put b k v db = Ok db';
  put_empty_key b v db : exists e, tx_Put b [] v db = Err e;
  put_no_panic b k v db : is_panic (tx_Put b k v db) = false;
  put_spec b k v db db' : tx_Put b k v db = Ok db' ->
    (forall b', tx_Bucket b' db' = tx_Bucket b' db) /\
    (forall b' k', tx_Get b' k' db' = if decide (b' = b /\ k' = k) then Some v else tx_Get b' k' db);
  delete_ok b k db : tx_Bucket b db = true -> exists db', tx_Delete b k db = Ok db';
  delete_no_panic b k db : is_panic (tx_Delete b k db) = false;
  delete_spec b k db db' : tx_Delete b k db = Ok db' ->
    (forall b', tx_Bucket b' db' = tx_Bucket b' db) /\
    (forall b' k', tx_Get b' k' db' = if decide (b' = b /\ k' = k) then None else tx_Get b' k' db);
  delete_bucket_missing b db : tx_Bucket b db = false -> exists e, tx_DeleteBucket b db = Err e;
  delete_bucket_spec b db : tx_Bucket b db = true -> exists db', tx_DeleteBucket b db = Ok db' /\
    (forall b', tx_Bucket b' db' = tx_Bucket b' db && negb (bool_decide (b' = b))) /\
    (forall b' k, tx_Get b' k db' = if decide (b' = b) then None else tx_Get b' k db);
}.

(** An instance: a map of maps. *)
#[export] Instance mapBolt : Bolt := {|
  DB := gmap (list byte) (gmap (list byte) (list byte));
  emptyDB := ∅;
  tx_Bucket b db := bool_decide (is_Some (db !! b));
  tx_Get b k db := if bool_decide (k = []) then None else db !! b ≫= fun bucket => bucket !! k;
  tx_CreateBucketIfNotExists b db :=
    match db !! b with
    | Some _ => Ok db
    | None => if bool_decide (b = []) then Err (ENew "bucket name required") else Ok (<[b := ∅]> db)
    end;
  tx_Put b k v db :=
    match db !! b with
    | None => Err (ENew "bucket not found")
    | Some bucket =>
        if bool_decide (k = []) then Err (ENew "key required")
        else if MaxKeySize <? zlen k then Err (ENew "key too large")
        else if MaxValueSize <? zlen v then Err (ENew "value too large")
        else Ok (<[b := <[k := v]> bucket]> db)
    end;
  tx_Delete b k db :=
    match db !! b with None => Err (ENew "bucket not found") | Some bucket => Ok (<[b := delete k bucket]> db) end;
  tx_DeleteBucket b db :=
    match db !! b with None => Err (ENew "bucket not found") | Some _ => Ok (delete b db) end;
|}.

#[export] Instance mapBoltLaws : BoltLaws.
Proof.
  split; cbn.
  - intros b k. rewrite lookup_empty. by case_bool_decide.
  - done.
  - intros b k db H. apply bool_decide_eq_false in H. destruct (db !! b); [exfalso; eauto|]. by case_bool_decide.
  - intros b db. by repeat case_match.
  - intros b db Hb. destruct (db !! b); [by eexists|]. rewrite bool_decide_eq_false_2 by done. by eexists.
  - intros b db db' H. destruct (db !! b) as [bk|] eqn:E.
    + injection H as <-. split; [|done]. intros b'. destruct (decide (b' = b)) as [->|Hne].
      * by rewrite E, bool_decide_eq_true_2 by eauto.
      * by rewrite (bool_decide_eq_false_2 (b' = b)), orb_false_r.
    + destruct (bool_decide (b = [])); [done|]. injection H as <-. split.
      * intros b'. destruct (decide (b' = b)) as [->|Hne].
        -- rewrite lookup_insert_eq, (bool_decide_eq_true_2 (b = b)) by done. by rewrite orb_true_r.
        -- rewrite lookup_insert_ne by done. rewrite (bool_decide_eq_false_2 (b' = b)) by done. by rewrite orb_false_r.
      * intros b' k. destruct (decide (b' = b)) as [->|Hne]; [|by rewrite lookup_insert_ne].
        by rewrite lookup_insert_eq, E.
  - intros b k v db Hb Hk Hz Hv. apply bool_decide_eq_true in Hb as [bk ->].
    rewrite bool_decide_eq_false_2 by done. rewrite (proj2 (Z.ltb_ge _ _)), (proj2 (Z.ltb_ge _ _)) by done. by eexists.
  - intros b v db. case_match; by eexists.
  - intros b k v db. by repeat case_match.
  - intros b k v db db' H. destruct (db !! b) as [bk|] eqn:E; [|done].
    destruct (bool_decide_reflect (k = [])) as [|Hk]; [done|]. repeat case_match; simplify_eq. split.
    + intros b'. destruct (decide (b' = b)) as [->|]; [by rewrite lookup_insert_eq, E|by rewrite lookup_insert_ne].
    + intros b' k'. destruct (decide (b' = b /\ k' = k)) as [[-> ->]|Hne].
      * by rewrite bool_decide_eq_false_2, !lookup_insert_eq by done; cbn; rewrite lookup_insert_eq.
      * destruct (bool_decide (k' = [])); [done|]. destruct (decide (b' = b)) as [->|]; [|by rewrite lookup_insert_ne].
        rewrite lookup_insert_eq, E. cbn. by rewrite lookup_insert_ne by naive_solver.
  - intros b k db H. apply bool_decide_eq_true in H as [bk ->]. by eexists.
  - intros b k db. by case_match.
  - intros b k db db' H. destruct (db !! b) as [bk|] eqn:E; [|done]. injection H as <-. split.
    + intros b'. destruct (decide (b' = b)) as [->|]; [by rewrite lookup_insert_eq, E|by rewrite lookup_insert_ne].
    + intros b' k'. destruct (decide (b' = b /\ k' = k)) as [[-> ->]|Hne].
      * rewrite lookup_insert_eq. cbn. rewrite lookup_delete_eq. by case_bool_decide.
      * destruct (bool_decide (k' = [])); [done|]. destruct (decide (b' = b)) as [->|]; [|by rewrite lookup_insert_ne].
        rewrite lookup_insert_eq, E. cbn. by rewrite lookup_delete_ne by naive_solver.
  - intros b db H. apply bool_decide_eq_false in H. destruct (db !! b); [|by eexists]. exfalso. eauto.
  - intros b db H. apply bool_decide_eq_true in H as [bk ->]. eexists. split_and!; [done|..].
    + intros b'. destruct (decide (b' = b)) as [->|].
      * rewrite lookup_delete_eq, (bool_decide_eq_true_2 (b = b)) by done. by rewrite andb_false_r.
      * rewrite lookup_delete_ne, (bool_decide_eq_false_2 (b' = b)) by done. by rewrite andb_true_r.
    + intros b' k. destruct (decide (b' = b)) as [->|]; [|by rewrite lookup_delete_ne].
      rewrite lookup_delete_eq. by case_bool_decide.
Qed.

(** ** The cache file *)

Definition bucketFakeIP : list byte := bytes_of_string "fakeip_address".
Definition bucketFakeIPDomain4 : list byte := bytes_of_string "fakeip_domain4".
Definition bucketFakeIPDomain6 : list byte := bytes_of_string "fakeip_domain6".
Definition keyMetadata : list byte := bytes_of_string "fakeip_metadata".

Section CacheFile.
Context `{GE : GoEnv} `{B : Bolt}.

(** The fields of [CacheFile] the fake-IP methods use. *)
Record FakeIPCache := mkFakeIPCache {
  fc_closed : bool;
  fc_DB : option DB;
  saveMetadata : option FakeIPMetadata;     (* waiting for the timer *)
  saveDomain : gmap Addr string;            (* asynchronous writes in progress *)
  saveAddress4 : gmap string Addr;
  saveAddress6 : gmap string Addr;
}.

Definition fc_set_DB (db : option DB) (c : FakeIPCache) : FakeIPCache :=
  mkFakeIPCache (fc_closed c) db (saveMetadata c) (saveDomain c) (saveAddress4 c) (saveAddress6 c).

Definition fc_set_saveMetadata (m : option FakeIPMetadata) (c : FakeIPCache) : FakeIPCache :=
  mkFakeIPCache (fc_closed c) (fc_DB c) m (saveDomain c) (saveAddress4 c) (saveAddress6 c).

Definition fc_set_pending (byAddr : gmap Addr string) (by4 by6 : gmap string Addr) (c : FakeIPCache) : FakeIPCache :=
  mkFakeIPCache (fc_closed c) (fc_DB c) (saveMetadata c) byAddr by4 by6.

Definition openDB (c : FakeIPCache) : option DB := if fc_closed c then None else fc_DB c.

(** [CacheFile.batch]: a transaction that fails is rolled back; one that
    panics deletes the database. *)
Definition batch {A} (disk : Disk) (fn : DB -> result (A * DB)) (c : FakeIPCache) : result A * FakeIPCache :=
  match openDB c with
  | None => (Err ErrClosed, c)
  | Some db =>
      match fn db with
      | Ok (a, db') =>
          match disk_commit disk with
          | None => (Ok a, fc_set_DB (Some db') c)
          | Some e => (Err e, c)
          end
      | Err e => (Err e, c)
      | Panic s => (Err (ENew ("database corrupted: " +:+ s)),
                    fc_set_DB (if disk_reopens disk then Some emptyDB else None) c)
      end
  end.

(** The transaction of [FakeIPMetadata]: the metadata is taken out of the file. *)
Definition loadMetadataInTx (db : DB) : result (FakeIPMetadata * DB) :=
  if negb (tx_Bucket bucketFakeIP db) then Err (ENew "file does not exist")
  else match tx_Get bucketFakeIP keyMetadata db with
       | None | Some [] => Err ErrInvalid
       | Some metadataBinary =>
           let* db := tx_Delete bucketFakeIP keyMetadata db in
           let* metadata := FakeIPMetadata_UnmarshalBinary metadataBinary in
           Ok (metadata, db)
       end.

Definition cache_FakeIPMetadata (disk : Disk) (c : FakeIPCache) : option FakeIPMetadata * FakeIPCache :=
  let '(r, c) := batch disk loadMetadataInTx c in
  (match r with Ok metadata => Some metadata | _ => None end, c).

Definition saveFakeIPMetadataInTx (metadata : FakeIPMetadata) (db : DB) : result (unit * DB) :=
  let* db := tx_CreateBucketIfNotExists bucketFakeIP db in
  let* db := tx_Put bucketFakeIP keyMetadata (FakeIPMetadata_MarshalBinary metadata) db in
  Ok (tt, db).

Definition saveFakeIPMetadata (disk : Disk) (metadata : FakeIPMetadata) (c : FakeIPCache) : result unit * FakeIPCache :=
  batch disk (saveFakeIPMetadataInTx metadata) c.

Definition cache_FakeIPSaveMetadata (disk : Disk) (metadata : FakeIPMetadata) (c : FakeIPCache)
    : result unit * FakeIPCache :=
  saveFakeIPMetadata disk metadata (fc_set_saveMetadata None c).

Definition cache_FakeIPSaveMetadataAsync (metadata : FakeIPMetadata) (c : FakeIPCache) : FakeIPCache :=
  if fc_closed c then c else fc_set_saveMetadata (Some metadata) c.

(** The timer: [flushFakeIPMetadata], when it gets a write token and no newer
    metadata arrives meanwhile. *)
Definition flushFakeIPMetadata (disk : Disk) (c : FakeIPCache) : FakeIPCache :=
  match saveMetadata c with
  | None => c
  | Some metadata =>
      if fc_closed c then c
      else fc_set_saveMetadata None (snd (saveFakeIPMetadata disk metadata c))
  end.

Definition domainBucket (isIPv4 : bool) : list byte := if isIPv4 then bucketFakeIPDomain4 else bucketFakeIPDomain6.

(** The transaction of [FakeIPStore]. *)
Definition storeInTx (address : Addr) (domain : string) (db : DB) : result (unit * DB) :=
  let* db := tx_CreateBucketIfNotExists bucketFakeIP db in
  let oldDomain := tx_Get bucketFakeIP (Addr_AsSlice address) db in
  let* db := tx_Put bucketFakeIP (Addr_AsSlice address) (bytes_of_string domain) db in
  let bucket := domainBucket (Addr_Is4 address) in
  let* db := tx_CreateBucketIfNotExists bucket db in
  let* db := match oldDomain with Some old => tx_Delete bucket old db | None => Ok db end in
  let* db := tx_Put bucket (bytes_of_string domain) (Addr_AsSlice address) db in
  Ok (tt, db).

Definition cache_FakeIPStore (disk : Disk) (address : Addr) (domain : string) (c : FakeIPCache)
    : result unit * FakeIPCache :=
  batch disk (storeInTx address domain) c.

(** [FakeIPStoreAsync], its two ends: the mapping is pending, then written. *)
Definition beginFakeIPStoreAsync (address : Addr) (domain : string) (c : FakeIPCache) : FakeIPCache :=
  if fc_closed c then c
  else
    let '(by4, by6) :=
      match saveDomain c !! address with
      | Some oldDomain =>
          if Addr_Is4 address then (delete oldDomain (saveAddress4 c), saveAddress6 c)
          else (saveAddress4 c, delete oldDomain (saveAddress6 c))
      | None => (saveAddress4 c, saveAddress6 c)
      end in
    let byAddr := <[address := domain]> (saveDomain c) in
    if Addr_Is4 address then fc_set_pending byAddr (<[domain := address]> by4) by6 c
    else fc_set_pending byAddr by4 (<[domain := address]> by6) c.

Definition endFakeIPStoreAsync (disk : Disk) (address : Addr) (domain : string) (c : FakeIPCache) : FakeIPCache :=
  let c := snd (cache_FakeIPStore disk address domain c) in
  let byAddr := if decide (saveDomain c !! address = Some domain) then delete address (saveDomain c) else saveDomain c in
  let drop := fun m : gmap string Addr => if decide (m !! domain = Some address) then delete domain m else m in
  if Addr_Is4 address then fc_set_pending byAddr (drop (saveAddress4 c)) (saveAddress6 c) c
  else fc_set_pending byAddr (saveAddress4 c) (drop (saveAddress6 c)) c.

Definition cache_FakeIPLoad (address : Addr) (c : FakeIPCache) : option string :=
  match saveDomain c !! address with
  | Some cachedDomain => Some cachedDomain
  | None =>
      let domain := match openDB c with
        | Some db => string_of_bytes (default [] (tx_Get bucketFakeIP (Addr_AsSlice address) db))
        | None => ""
        end in
      if String.eqb domain "" then None else Some domain
  end.

Definition cache_FakeIPLoadDomain (domain : string) (isIPv6 : bool) (c : FakeIPCache) : option Addr :=
  match (if negb isIPv6 then saveAddress4 c !! domain else saveAddress6 c !! domain) with
  | Some cachedAddress => Some cachedAddress
  | None =>
      let bucket := domainBucket (negb isIPv6) in
      let address := match openDB c with
        | Some db =>
            if tx_Bucket bucket db then AddrFromIP (default [] (tx_Get bucket (bytes_of_string domain) db))
            else AddrInvalid
        | None => AddrInvalid
        end in
      if Addr_IsValid address then Some address else None
  end.

(** The transaction of [FakeIPReset]. *)
Definition resetInTx (db : DB) : result (unit * DB) :=
  let* db := tx_DeleteBucket bucketFakeIP db in
  let* db := tx_DeleteBucket bucketFakeIPDomain4 db in
  let* db := tx_DeleteBucket bucketFakeIPDomain6 db in
  Ok (tt, db).

Definition cache_FakeIPReset (disk : Disk) (c : FakeIPCache) : result unit * FakeIPCache := batch disk resetInTx c.

(** The fake-IP part of [CacheFile.Close], with the database that stays on disk. *)
Definition cache_Close (disk : Disk) (c : FakeIPCache) : FakeIPCache * option DB :=
  if fc_closed c then (c, None)
  else
    let c := match saveMetadata c with
      | Some metadata => snd (saveFakeIPMetadata disk metadata (fc_set_saveMetadata None c))
      | None => c
      end in
    (mkFakeIPCache true None None ∅ ∅ ∅, fc_DB c).

#[export] Instance cache_storage : FakeIPStorage FakeIPCache := {|
  LoadMetadata := cache_FakeIPMetadata;
  FakeIPSaveMetadata := cache_FakeIPSaveMetadata;
  FakeIPSaveMetadataAsync := cache_FakeIPSaveMetadataAsync;
  FakeIPStore := cache_FakeIPStore;
  FakeIPLoad := cache_FakeIPLoad;
  FakeIPLoadDomain := cache_FakeIPLoadDomain;
  FakeIPReset := cache_FakeIPReset;
|}.
End CacheFile.

(** ** The implementations keep the promise *)

Lemma plain_Is4 a : plain a = true -> Addr_Is4 a = negb (Addr_Is6 a).
Proof. by destruct a. Qed.

Lemma memory_mapping_added a d s : plain a = true -> mapping_added a d s (memory_FakeIPStore a d s).
Proof.
  intros Hp. split.
  - intros a' _. cbn. unfold memory_FakeIPLoad, memory_FakeIPStore.
    destruct (Addr_Is4 a), (addressCache s !! a); cbn;
      (destruct (decide (a' = a)) as [->|]; [by rewrite lookup_insert_eq|by rewrite lookup_insert_ne]).
  - intros d' v6. cbn. unfold memory_FakeIPLoadDomain, memory_FakeIPStore, memory_FakeIPLoad.
    rewrite plain_Is4 by done. destruct (Addr_Is6 a), v6, (addressCache s !! a) as [old|]; cbn; try done;
      destruct (decide (d' = d)) as [->|]; rewrite ?lookup_insert_eq; try done; rewrite lookup_insert_ne by done;
      try (rewrite decide_False by done; done);
      (destruct (decide (Some old = Some d')) as [[= ->]|]; [by rewrite lookup_delete_eq|
         rewrite lookup_delete_ne by congruence; done]).
Qed.

#[export] Program Instance memory_laws : FakeIPStorageLaws MemoryStorage := {| storage_ok := fun _ => True |}.
Next Obligation. intros. split; [done|]. left. split; [done|]. by apply memory_mapping_added. Qed.
Next Obligation.
  intros disk s _. split; [done|]. left. split; [done|]. split; [done|]. by intros d [].
Qed.
Next Obligation. intros disk s _. split; [done|]. by left. Qed.
Next Obligation. by intros. Qed.
Next Obligation. by intros. Qed.

(** [M.AddrFromIP] reads back the bytes of an address. *)
Class AddrFromIPLaw `{GoEnv} := {
  AddrFromIP_AsSlice a : plain a = true -> AddrFromIP (Addr_AsSlice a) = a;
  AddrFromIP_nil : AddrFromIP [] = AddrInvalid;
}.

Lemma AsSlice_inj a1 a2 : plain a1 = true -> plain a2 = true -> Addr_AsSlice a1 = Addr_AsSlice a2 -> a1 = a2.
Proof.
  assert (forall n v1 v2, 0 <= v1 < 2 ^ (8 * Z.of_nat n) -> 0 <= v2 < 2 ^ (8 * Z.of_nat n) ->
    be_encode n v1 = be_encode n v2 -> v1 = v2) as Hinj.
  { intros n v1 v2 H1 H2 H. apply (f_equal be_decode) in H.
    by rewrite !be_decode_encode in H. }
  destruct a1 as [|v1|v1 z1], a2 as [|v2|v2 z2]; cbn [plain Addr_AsSlice]; intros H1 H2 H; try done.
  - f_equal. apply (Hinj 4%nat); [lia..|done].
  - rewrite !andb_true_iff, String.eqb_eq in *. destruct H1 as [H1 ->], H2 as [H2 ->]. f_equal.
    apply (Hinj 16%nat); [lia..|done].
Qed.

Lemma AsSlice_nonempty a : plain a = true -> Addr_AsSlice a <> [].
Proof.
  intros Hp H. apply (f_equal length) in H. destruct a; cbn [Addr_AsSlice] in H; [done|..];
    by rewrite length_be_encode in H.
Qed.

Lemma bytes_nonempty d : d <> "" -> bytes_of_string d <> [].
Proof. by destruct d. Qed.

Lemma bytes_inj d1 d2 : bytes_of_string d1 = bytes_of_string d2 -> d1 = d2.
Proof. intros H. by rewrite <- (string_of_bytes_of_string d1), H, string_of_bytes_of_string. Qed.

Section CacheLaws.
Context `{GE : GoEnv} {B : Bolt} {BL : BoltLaws} {AL : AddrFromIPLaw}.

Definition cache_ok (c : FakeIPCache) : Prop := saveDomain c = ∅ /\ saveAddress4 c = ∅ /\ saveAddress6 c = ∅.

(** A transaction whose body does not panic commits, or changes nothing. *)
Lemma batch_cases {A} disk (fn : DB -> result (A * DB)) c :
  (forall db, is_panic (fn db) = false) ->
  (exists a db db', openDB c = Some db /\ fn db = Ok (a, db') /\ batch disk fn c = (Ok a, fc_set_DB (Some db') c)) \/
  (exists e, batch disk fn c = (Err e, c)).
Proof.
  intros Hp. unfold batch. destruct (openDB c) as [db|]; [|by right; eexists].
  specialize (Hp db). destruct (fn db) as [[a db']|e|] eqn:E; [|by right; eexists|done].
  destruct (disk_commit disk); [by right; eexists|]. left. by exists a, db, db'.
Qed.

Lemma bind_no_panic {A C} (m : result A) (k : A -> result C) :
  is_panic m = false -> (forall a, m = Ok a -> is_panic (k a) = false) -> is_panic (bind_result m k) = false.
Proof. destruct m; cbn; auto. Qed.

(** The database after [FakeIPStore]. *)
Lemma store_tx address domain db r :
  storeInTx address domain db = Ok r ->
  let bucket := domainBucket (Addr_Is4 address) in
  domain <> "" /\
  (forall b, tx_Bucket b (snd r) = tx_Bucket b db || bool_decide (b = bucketFakeIP) || bool_decide (b = bucket)) /\
  (forall b k, tx_Get b k (snd r) =
    if decide (b = bucket /\ k = bytes_of_string domain) then Some (Addr_AsSlice address)
    else if decide (b = bucket /\ tx_Get bucketFakeIP (Addr_AsSlice address) db = Some k) then None
    else if decide (b = bucketFakeIP /\ k = Addr_AsSlice address) then Some (bytes_of_string domain)
    else tx_Get b k db).
Proof.
  unfold storeInTx. cbn zeta. intros H. apply bind_is_Ok in H as (db1 & [B1 G1]%create_spec & H).
  apply bind_is_Ok in H as (db2 & [B2 G2]%put_spec & H). apply bind_is_Ok in H as (db3 & [B3 G3]%create_spec & H).
  apply bind_is_Ok in H as (db4 & H4 & H). apply bind_is_Ok in H as (db5 & H5 & [= <-]). cbn [snd].
  split. { intros ->. destruct (put_empty_key (domainBucket (Addr_Is4 address)) (Addr_AsSlice address) db4) as [e E].
    change (bytes_of_string "") with (@nil byte) in H5. by rewrite H5 in E. }
  apply put_spec in H5 as [B5 G5].
  rewrite G1 in H4. set (old := tx_Get bucketFakeIP (Addr_AsSlice address) db) in *.
  set (bk := domainBucket (Addr_Is4 address)) in *.
  assert ((forall b, tx_Bucket b db4 = tx_Bucket b db3) /\
    (forall b k, tx_Get b k db4 = if decide (b = bk /\ old = Some k) then None else tx_Get b k db3)) as [B4 G4].
  { destruct old as [o|].
    - apply delete_spec in H4 as [B4 G4]. split; [done|]. intros b k. rewrite G4.
      destruct (decide (b = bk /\ k = o)) as [[-> ->]|Hn]; [by rewrite decide_True|].
      rewrite decide_False; [done|]. intros [-> [= ->]]. by apply Hn.
    - injection H4 as <-. split; [done|]. intros b k. rewrite decide_False; [done|]. by intros [_ ?]. }
  split; [intros b; by rewrite B5, B4, B3, B2, B1|]. intros b k. by rewrite G5, G4, G3, G2, G1.
Qed.

Lemma store_no_panic address domain db :
  is_panic (storeInTx address domain db) = false.
Proof.
  unfold storeInTx. repeat (apply bind_no_panic; [first [apply create_no_panic|apply put_no_panic|idtac]|intros ? _]); try done.
  case_match; [apply delete_no_panic|done].
Qed.

Lemma cache_load_ok address c : cache_ok c ->
  cache_FakeIPLoad address c =
  (let domain := match openDB c with
     | Some db => string_of_bytes (default [] (tx_Get bucketFakeIP (Addr_AsSlice address) db)) | None => "" end in
   if String.eqb domain "" then None else Some domain).
Proof. intros (H & _). unfold cache_FakeIPLoad. by rewrite H, lookup_empty. Qed.

Lemma cache_load_domain_ok domain v6 c : cache_ok c ->
  cache_FakeIPLoadDomain domain v6 c =
  (let bucket := domainBucket (negb v6) in
   let address := match openDB c with
     | Some db => if tx_Bucket bucket db then AddrFromIP (default [] (tx_Get bucket (bytes_of_string domain) db)) else AddrInvalid
     | None => AddrInvalid end in
   if Addr_IsValid address then Some address else None).
Proof. intros (_ & H4 & H6). unfold cache_FakeIPLoadDomain. rewrite H4, H6. by destruct v6; rewrite lookup_empty. Qed.

Lemma openDB_set db db' c : openDB c = Some db -> openDB (fc_set_DB (Some db') c) = Some db'.
Proof. unfold openDB. by destruct c as [[]]. Qed.

Lemma cache_mapping_added a d c db r :
  cache_ok c -> plain a = true -> d <> "" -> openDB c = Some db ->
  (forall b, tx_Bucket b r = tx_Bucket b db || bool_decide (b = bucketFakeIP)
             || bool_decide (b = domainBucket (Addr_Is4 a))) ->
  (forall b k, tx_Get b k r =
    if decide (b = domainBucket (Addr_Is4 a) /\ k = bytes_of_string d) then Some (Addr_AsSlice a)
    else if decide (b = domainBucket (Addr_Is4 a) /\ tx_Get bucketFakeIP (Addr_AsSlice a) db = Some k) then None
    else if decide (b = bucketFakeIP /\ k = Addr_AsSlice a) then Some (bytes_of_string d)
    else tx_Get b k db) ->
  mapping_added a d c (fc_set_DB (Some r) c).
Proof.
  intros Hok Hp Hd Hdb HB HG. assert (cache_ok (fc_set_DB (Some r) c)) as Hok' by done.
  assert (forall is4, bucketFakeIP <> domainBucket is4) as Hbk by (by intros []).
  split.
  - intros a' Hp'. cbn [FakeIPLoad cache_storage]. rewrite !cache_load_ok by done.
    cbn zeta. rewrite (openDB_set db), Hdb, HG by done.
    rewrite !(decide_False (P := bucketFakeIP = _ /\ _)) by (intros [? _]; by eapply Hbk).
    destruct (decide (a' = a)) as [->|Hne].
    + rewrite decide_True by done. cbn [default from_option]. unfold id. rewrite string_of_bytes_of_string. by destruct d.
    + rewrite decide_False by (intros [_ E]; apply Hne; by apply AsSlice_inj). done.
  - intros d' v6. cbn [FakeIPLoad FakeIPLoadDomain cache_storage].
    rewrite !cache_load_domain_ok, cache_load_ok by done. cbn zeta. rewrite (openDB_set db), Hdb, HG, HB by done.
    rewrite (bool_decide_eq_false_2 (domainBucket (negb v6) = bucketFakeIP)) by (intros E; by eapply (Hbk (negb v6))).
    rewrite orb_false_r, (decide_False (P := _ = bucketFakeIP /\ _)) by (intros [E _]; by eapply (Hbk (negb v6))).
    rewrite plain_Is4 in * by done. destruct (Bool.eqb v6 (Addr_Is6 a)) eqn:Ev.
    + apply eqb_prop in Ev as ->. rewrite (bool_decide_eq_true_2 (domainBucket _ = domainBucket _)), orb_true_r by done.
      destruct (decide (d' = d)) as [->|Hne].
      { rewrite decide_True by done. cbn [default from_option]. unfold id. rewrite AddrFromIP_AsSlice by done. by destruct a. }
      rewrite decide_False by (intros [_ E]; by apply bytes_inj in E). set (bk := domainBucket (negb (Addr_Is6 a))).
      assert ((if tx_Bucket bk db then AddrFromIP (default [] (tx_Get bk (bytes_of_string d') db)) else AddrInvalid) =
        AddrFromIP (default [] (tx_Get bk (bytes_of_string d') db))) as ->.
      { destruct (tx_Bucket bk db) eqn:Eb; [done|]. by rewrite (get_no_bucket _ _ _ Eb), AddrFromIP_nil. }
      destruct (decide (d' = "")) as [->|Hd'].
      { change (bytes_of_string "") with (@nil byte). rewrite get_empty_key. repeat case_decide; cbn; by rewrite ?AddrFromIP_nil. }
      destruct (tx_Get bucketFakeIP (Addr_AsSlice a) db) as [old|].
      2:{ cbn. rewrite !decide_False by naive_solver. done. }
      cbn [default from_option]. unfold id. destruct (decide (old = bytes_of_string d')) as [->|Hold].
      * rewrite decide_True, string_of_bytes_of_string by done. rewrite (proj2 (String.eqb_neq d' "")) by done.
        rewrite decide_True by done. cbn. by rewrite AddrFromIP_nil.
      * rewrite !decide_False; [done| |naive_solver]. case_match; [done|]. intros [= E]. apply Hold.
        by rewrite <- E, bytes_of_string_of_bytes.
    + assert (domainBucket (negb v6) <> domainBucket (negb (Addr_Is6 a))) as Hne.
      { intros E. by destruct v6, (Addr_Is6 a). }
      rewrite !(decide_False (P := domainBucket _ = _ /\ _)) by (by intros [? _]).
      by rewrite (bool_decide_eq_false_2 _ Hne), orb_false_r.
Qed.

Lemma save_metadata_no_panic m db : is_panic (saveFakeIPMetadataInTx m db) = false.
Proof. repeat (apply bind_no_panic; [first [apply create_no_panic|apply put_no_panic]|intros ? _]). done. Qed.

(** The key of the metadata is not an address. *)
Lemma AsSlice_not_metadata a : Addr_AsSlice a <> keyMetadata.
Proof. intros H. apply (f_equal length) in H. by destruct a; cbn [Addr_AsSlice] in H; rewrite ?length_be_encode in H. Qed.

Lemma save_metadata_mappings m db c r u :
  cache_ok c -> openDB c = Some db -> saveFakeIPMetadataInTx m db = Ok (u, r) ->
  same_mappings c (fc_set_DB (Some r) c).
Proof.
  intros Hok Hdb H. apply bind_is_Ok in H as (db1 & [B1 G1]%create_spec & H).
  apply bind_is_Ok in H as (db2 & [B2 G2]%put_spec & [= _ <-]). split.
  - intros a. cbn [FakeIPLoad cache_storage]. rewrite !cache_load_ok by done. cbn zeta.
    rewrite (openDB_set db), Hdb, G2, G1 by done.
    rewrite decide_False; [done|]. intros [_ E]. by apply AsSlice_not_metadata in E.
  - intros d v6. cbn [FakeIPLoadDomain cache_storage]. rewrite !cache_load_domain_ok by done. cbn zeta.
    rewrite (openDB_set db), Hdb, B2, B1, G2, G1 by done.
    assert (domainBucket (negb v6) <> bucketFakeIP) as Hne by (by destruct v6).
    by rewrite decide_False, bool_decide_eq_false_2, orb_false_r by naive_solver.
Qed.

Lemma delete_bucket_no_panic b db : is_panic (tx_DeleteBucket b db) = false.
Proof.
  destruct (tx_Bucket b db) eqn:E.
  - by destruct (delete_bucket_spec b db E) as (db' & -> & _).
  - by destruct (delete_bucket_missing b db E) as (e & ->).
Qed.

Lemma delete_bucket_Ok b db db' : tx_DeleteBucket b db = Ok db' ->
  (forall b', tx_Bucket b' db' = tx_Bucket b' db && negb (bool_decide (b' = b))) /\
  (forall b' k, tx_Get b' k db' = if decide (b' = b) then None else tx_Get b' k db).
Proof.
  intros H. destruct (tx_Bucket b db) eqn:E.
  - destruct (delete_bucket_spec b db E) as (db1 & H1 & ?). rewrite H1 in H. by injection H as <-.
  - destruct (delete_bucket_missing b db E) as (e & H1). by rewrite H1 in H.
Qed.

Lemma reset_no_panic db : is_panic (resetInTx db) = false.
Proof. repeat (apply bind_no_panic; [apply delete_bucket_no_panic|intros ? _]). done. Qed.

Lemma no_mappings_db c db :
  cache_ok c -> openDB c = Some db -> (forall k, tx_Get bucketFakeIP k db = None) ->
  (forall k is4, tx_Get (domainBucket is4) k db = None) -> no_mappings c.
Proof.
  intros Hok Hdb Ha Hd. split.
  - intros a. cbn [FakeIPLoad cache_storage]. rewrite cache_load_ok by done. cbn zeta. by rewrite Hdb, Ha.
  - intros d v6. cbn [FakeIPLoadDomain cache_storage]. rewrite cache_load_domain_ok by done. cbn zeta.
    rewrite Hdb, Hd. cbn. rewrite AddrFromIP_nil. by destruct (tx_Bucket _ _).
Qed.

Lemma reset_no_mappings c db r u :
  cache_ok c -> openDB c = Some db -> resetInTx db = Ok (u, r) -> no_mappings (fc_set_DB (Some r) c).
Proof.
  intros Hok Hdb H. apply bind_is_Ok in H as (db1 & [_ G1]%delete_bucket_Ok & H).
  apply bind_is_Ok in H as (db2 & [_ G2]%delete_bucket_Ok & H).
  apply bind_is_Ok in H as (db3 & [_ G3]%delete_bucket_Ok & [= _ <-]).
  apply (no_mappings_db _ db3); [done|by apply (openDB_set db)|..].
  - intros k. by rewrite G3, G2, G1.
  - intros k []; by rewrite G3, G2, G1.
Qed.

Lemma load_metadata_mappings c db m db' :
  cache_ok c -> openDB c = Some db -> loadMetadataInTx db = Ok (m, db') -> same_mappings c (fc_set_DB (Some db') c).
Proof.
  intros Hok Hdb E. unfold loadMetadataInTx in E. destruct (negb _); [done|]. case_match; [|done]. case_match; [done|].
  apply bind_is_Ok in E as (db1 & [B1 G1]%delete_spec & E). apply bind_is_Ok in E as (m1 & _ & [= _ <-]). split.
  - intros a. cbn [FakeIPLoad cache_storage]. rewrite !cache_load_ok by done. cbn zeta.
    rewrite (openDB_set db), Hdb, G1 by done. rewrite decide_False; [done|]. intros [_ Ek].
    by apply AsSlice_not_metadata in Ek.
  - intros d v6. cbn [FakeIPLoadDomain cache_storage]. rewrite !cache_load_domain_ok by done. cbn zeta.
    rewrite (openDB_set db), Hdb, B1, G1 by done. rewrite decide_False; [done|]. by destruct v6; intros [? _].
Qed.

Lemma load_metadata_batch disk c r c' :
  cache_ok c -> batch disk loadMetadataInTx c = (r, c') -> cache_ok c' /\ (same_mappings c c' \/ no_mappings c').
Proof.
  intros Hok. unfold batch. destruct (openDB c) as [db|] eqn:Hdb; [|intros [= <- <-]; split; [done|by left]].
  destruct (loadMetadataInTx db) as [[m db']|e|s] eqn:E.
  - destruct (disk_commit disk); intros [= <- <-]; (split; [done|left]); [done|]. by eapply load_metadata_mappings.
  - intros [= <- <-]. split; [done|by left].
  - intros [= <- <-]. split; [done|]. destruct (disk_reopens disk).
    + right. apply (no_mappings_db _ emptyDB); [done|by apply (openDB_set db)|..]; intros; apply get_empty.
    + right. assert (openDB (fc_set_DB None c) = None) as En by (unfold openDB; cbn; by destruct (fc_closed c)). split.
      * intros a. cbn [FakeIPLoad cache_storage]. rewrite cache_load_ok by done. cbn zeta. by rewrite En.
      * intros d v6. cbn [FakeIPLoadDomain cache_storage]. rewrite cache_load_domain_ok by done. cbn zeta. by rewrite En.
Qed.

#[export] Program Instance cache_laws : FakeIPStorageLaws FakeIPCache := {| storage_ok := cache_ok |}.
Next Obligation.
  intros disk a d c Hok Hp. cbn [FakeIPStore cache_storage]. unfold cache_FakeIPStore.
  destruct (batch_cases disk _ c (store_no_panic a d)) as [(u & db & r & Hdb & Hfn & ->)|(e & ->)].
  - split; [done|]. left. destruct u. split; [done|]. apply store_tx in Hfn as (Hd & HB & HG).
    by apply (cache_mapping_added a d c db).
  - split; [done|]. right. split; [by eexists|]. by split.
Qed.
Next Obligation.
  intros disk c Hok. cbn [FakeIPReset cache_storage]. unfold cache_FakeIPReset.
  destruct (batch_cases disk _ c reset_no_panic) as [(u & db & r & Hdb & Hfn & ->)|(e & ->)].
  - split; [done|]. left. destruct u. split; [done|]. by apply (reset_no_mappings c db r tt).
  - split; [done|]. right. split; [by eexists|]. by split.
Qed.
Next Obligation.
  intros disk c Hok. cbn [LoadMetadata cache_storage]. unfold cache_FakeIPMetadata.
  destruct (batch disk loadMetadataInTx c) as [r c'] eqn:E. cbn [snd].
  destruct (load_metadata_batch disk c r c' Hok E) as [Hok' H]. by split.
Qed.
Next Obligation.
  intros disk m c Hok. cbn [FakeIPSaveMetadata cache_storage]. unfold cache_FakeIPSaveMetadata, saveFakeIPMetadata.
  destruct (batch_cases disk _ (fc_set_saveMetadata None c) (save_metadata_no_panic m))
    as [(u & db & r & Hdb & Hfn & ->)|(e & ->)]; (split; [done|split; [done|]]); [|done].
  exact (save_metadata_mappings m db (fc_set_saveMetadata None c) r u Hok Hdb Hfn).
Qed.
Next Obligation.
  intros m c Hok. cbn. unfold cache_FakeIPSaveMetadataAsync. destruct (fc_closed c) eqn:E; [done|]. done.
Qed.
End CacheLaws.

(** ** The metadata codec *)

Definition wf_addr (a : Addr) : Prop := a = AddrInvalid \/ plain a = true.

Definition wf_prefix (p : Prefix) : Prop :=
  p = mkPrefix AddrInvalid (-1) \/ plain (prefix_addr p) = true /\ 0 <= prefix_bits p <= Addr_BitLen (prefix_addr p).

Definition wf_metadata (m : FakeIPMetadata) : Prop :=
  wf_prefix (Inet4Range m) /\ wf_prefix (Inet6Range m) /\ wf_addr (Inet4Current m) /\ wf_addr (Inet6Current m).

Lemma Addr_roundtrip a : wf_addr a ->
  Addr_UnmarshalBinary (Addr_MarshalBinary a) = Ok a /\ zlen (Addr_MarshalBinary a) <= 16.
Proof.
  intros [->|Hp]; [done|]. destruct a as [|v|v z]; cbn [plain] in Hp; [done|..]; cbn [Addr_MarshalBinary];
    unfold Addr_UnmarshalBinary.
  - assert (zlen (be_encode 4 v) = 4) as -> by (unfold zlen; by rewrite length_be_encode). cbn [Z.eqb Z.leb].
    rewrite be_decode_encode by lia. split; [done|lia].
  - rewrite !andb_true_iff, String.eqb_eq in Hp. destruct Hp as [Hv ->]. rewrite app_nil_r.
    assert (zlen (be_encode 16 v) = 16) as -> by (unfold zlen; by rewrite length_be_encode). cbn [Z.eqb Z.leb].
    rewrite take_ge, drop_ge, be_decode_encode by (rewrite ?length_be_encode; lia). split; [done|lia].
Qed.

Lemma Prefix_roundtrip p : wf_prefix p ->
  Prefix_UnmarshalBinary (Prefix_MarshalBinary p) = Ok p /\ zlen (Prefix_MarshalBinary p) <= 17.
Proof.
  intros Hp. assert (wf_addr (Addr_withoutZone (prefix_addr p))) as Ha.
  { destruct Hp as [->|[Hp _]]; [by left|]. right. destruct (prefix_addr p); [done..|].
    cbn [plain Addr_withoutZone] in *. rewrite !andb_true_iff in *. by destruct Hp as [Hv _]. }
  assert (PrefixFrom (Addr_withoutZone (prefix_addr p)) (Z_of_byte (byte_of_Z (prefix_bits p))) = p) as Hf.
  { destruct Hp as [->|[Hp Hb]]; [done|]. destruct p as [a bits]. cbn [prefix_addr prefix_bits] in *.
    rewrite Z_of_byte_small by (destruct a; cbn in *; lia). unfold PrefixFrom.
    destruct a as [|v|v z]; cbn [plain] in Hp; [done|..]; cbn [Addr_withoutZone Addr_IsValid Addr_BitLen andb] in *.
    - by rewrite (proj2 (Z.leb_le 0 bits)), (proj2 (Z.leb_le bits 32)) by lia.
    - rewrite !andb_true_iff, String.eqb_eq in Hp. destruct Hp as [_ ->].
      by rewrite (proj2 (Z.leb_le 0 bits)), (proj2 (Z.leb_le bits 128)) by lia. }
  destruct (Addr_roundtrip _ Ha) as [Hr Hl]. unfold Prefix_UnmarshalBinary, Prefix_MarshalBinary.
  rewrite last_snoc, length_app, zlen_app. cbn [length]. rewrite Nat.add_sub, take_app_length, Hr. cbn [bind_result].
  rewrite Hf. split; [done|]. rewrite zlen_cons, zlen_nil. lia.
Qed.

Lemma decodes_frame d : zlen d < 2 ^ 16 -> decodes read_frame (frame d) d.
Proof.
  intros Hd rest. unfold read_frame, frame. rewrite <- app_assoc.
  assert (zlen (be_encode 2 (uint16 (zlen d))) = 2) as Hz by (unfold zlen; by rewrite length_be_encode).
  pose proof (decodes_ReadFull (be_encode 2 (uint16 (zlen d))) (d ++ rest)) as H. rewrite Hz in H. rewrite H.
  pose proof (zlen_nonneg d). unfold uint16. rewrite wrap_small, be_decode_encode by lia. apply decodes_ReadFull.
Qed.

Lemma metadata_roundtrip m : wf_metadata m ->
  FakeIPMetadata_UnmarshalBinary (FakeIPMetadata_MarshalBinary m) = Ok m.
Proof.
  intros (H4 & H6 & H4c & H6c). unfold FakeIPMetadata_UnmarshalBinary, FakeIPMetadata_MarshalBinary.
  destruct (Prefix_roundtrip _ H4) as [R4 L4], (Prefix_roundtrip _ H6) as [R6 L6],
    (Addr_roundtrip _ H4c) as [C4 M4], (Addr_roundtrip _ H6c) as [C6 M6].
  set (r := let! d := read_frame in _).
  assert (decodes r (frame (Prefix_MarshalBinary (Inet4Range m)) ++ frame (Prefix_MarshalBinary (Inet6Range m))
    ++ frame (Addr_MarshalBinary (Inet4Current m)) ++ frame (Addr_MarshalBinary (Inet6Current m))) m) as Hd.
  { subst r. eapply decodes_bind; [apply decodes_frame; lia|]. eapply decodes_lift; [done|].
    eapply decodes_bind; [apply decodes_frame; lia|]. eapply decodes_lift; [done|].
    eapply decodes_bind; [apply decodes_frame; lia|]. eapply decodes_lift; [done|].
    rewrite <- (app_nil_r (frame (Addr_MarshalBinary (Inet6Current m)))).
    eapply decodes_bind; [apply decodes_frame; lia|]. eapply decodes_lift; [done|]. destruct m. apply decodes_ret. }
  specialize (Hd []). rewrite app_nil_r in Hd. by rewrite Hd.
Qed.
