(* ===== verification/FakeIP.v ===== *)
(** * Fake-IP addresses (dns/transport/fakeip/store.go)

    [Store] hands out the addresses of a range in a round: from the second
    address after the network address to the one before the broadcast
    address, then from the start again.  An address that is handed out again
    takes the new domain; the old domain forgets it.

    The critical section of [Create] is [Create_locked]; a call that finds the
    domain before taking the lock changes nothing, so that every interleaving
    of concurrent calls is a sequence of [Create_locked] steps.  The storage
    is any implementation of [FakeIPStorage] that keeps its laws. *)
From Stdlib Require Import ZArith Lia Bool.
From S2P Require Import Prelude GoIO DnsMsg Metadata RuleItem DemoEnv FakeIPStorage.

(** [for i := bits; i < 128; i++ { raw[i/8] |= 1 << (7 - i%8) }] on the 128-bit value of [raw]. *)
Definition set_low_bits (bits raw : Z) : Z :=
  fold_left (fun raw i => Z.setbit raw (127 - i)) (seqZ bits (128 - bits)) raw.

Definition broadcastAddress (prefix : Prefix) : Addr :=
  match prefix_addr prefix with
  | AddrInvalid => AddrInvalid
  | Addr4 v => Addr4 (Z.land (set_low_bits (prefix_bits prefix + 96) (65535 * 2 ^ 32 + v)) (2 ^ 32 - 1))
  | Addr6 v _ => Addr6 (set_low_bits (prefix_bits prefix) v) ""
  end.

Record Store (S : Type) := mkStore {
  inet4Range : Prefix;
  inet6Range : Prefix;
  inet4Last : Addr;
  inet6Last : Addr;
  storage : option S;
  inet4Current : Addr;
  inet6Current : Addr;
}.
Arguments mkStore {S} _ _ _ _ _ _ _.
Arguments inet4Range {S} _.
Arguments inet6Range {S} _.
Arguments inet4Last {S} _.
Arguments inet6Last {S} _.
Arguments storage {S} _.
Arguments inet4Current {S} _.
Arguments inet6Current {S} _.

Section Store.
Context {S : Type} `{FS : FakeIPStorage S}.

Definition NewStore (inet4Range inet6Range : Prefix) : Store S :=
  mkStore inet4Range inet6Range
    (if Prefix_IsValid inet4Range then broadcastAddress inet4Range else AddrInvalid)
    (if Prefix_IsValid inet6Range then broadcastAddress inet6Range else AddrInvalid)
    None AddrInvalid AddrInvalid.

Definition set_current (current4 current6 : Addr) (st : option S) (s : Store S) : Store S :=
  mkStore (inet4Range s) (inet6Range s) (inet4Last s) (inet6Last s) st current4 current6.

(** [Start]; [st] is the cache file when it stores fake-IP addresses, else a new
    [MemoryStorage]. *)
Definition Store_Start (disk : Disk) (st : S) (s : Store S) : Store S :=
  let '(metadata, st) := LoadMetadata disk st in
  let fresh :=
    let current4 := if Prefix_IsValid (inet4Range s) then Addr_Next (prefix_addr (inet4Range s)) else inet4Current s in
    let current6 := if Prefix_IsValid (inet6Range s) then Addr_Next (prefix_addr (inet6Range s)) else inet6Current s in
    let '(_, st) := FakeIPReset disk st in
    set_current current4 current6 (Some st) s in
  match metadata with
  | Some m =>
      if bool_decide (FakeIPStorage.Inet4Range m = inet4Range s) && bool_decide (FakeIPStorage.Inet6Range m = inet6Range s)
      then set_current (Inet4Current m) (Inet6Current m) (Some st) s
      else fresh
  | None => fresh
  end.

Definition Store_Contains (address : Addr) (s : Store S) : bool :=
  Prefix_Contains (inet4Range s) address || Prefix_Contains (inet6Range s) address.

Definition store_metadata (s : Store S) : FakeIPMetadata :=
  mkFakeIPMetadata (inet4Range s) (inet6Range s) (inet4Current s) (inet6Current s).

Definition Store_Close (disk : Disk) (s : Store S) : result unit * Store S :=
  match storage s with
  | None => (Ok tt, s)
  | Some st =>
      let '(r, st) := FakeIPSaveMetadata disk (store_metadata s) st in
      (r, set_current (inet4Current s) (inet6Current s) (Some st) s)
  end.

Definition nextAddress (range : Prefix) (last current : Addr) : Addr :=
  let nextAddress := Addr_Next current in
  if bool_decide (nextAddress = last) || negb (Prefix_Contains range nextAddress)
  then Addr_Next (Addr_Next (prefix_addr range)) else nextAddress.

(** The rest of [Create] once the address is chosen: an error of the storage is
    only logged. *)
Definition record_address (disk : Disk) (address : Addr) (domain : string) (st : S) (s : Store S) : result Addr * Store S :=
  let '(r, st) := FakeIPStore disk address domain st in
  match r with
  | Panic e => (Panic e, set_current (inet4Current s) (inet6Current s) (Some st) s)
  | _ => (Ok address,
          set_current (inet4Current s) (inet6Current s) (Some (FakeIPSaveMetadataAsync (store_metadata s) st)) s)
  end.

Definition Create_locked (disk : Disk) (domain : string) (isIPv6 : bool) (s : Store S) : result Addr * Store S :=
  match storage s with
  | None => (Panic "invalid memory address or nil pointer dereference", s)
  | Some st =>
      match FakeIPLoadDomain domain isIPv6 st with
      | Some address => (Ok address, s)
      | None =>
          if negb isIPv6 then
            if negb (Addr_IsValid (inet4Current s)) then (Err (ENew "missing IPv4 fakeip address range"), s)
            else
              let address := nextAddress (inet4Range s) (inet4Last s) (inet4Current s) in
              record_address disk address domain st (set_current address (inet6Current s) (Some st) s)
          else
            if negb (Addr_IsValid (inet6Current s)) then (Err (ENew "missing IPv6 fakeip address range"), s)
            else
              let address := nextAddress (inet6Range s) (inet6Last s) (inet6Current s) in
              record_address disk address domain st (set_current (inet4Current s) address (Some st) s)
      end
  end.

Definition Store_Create (disk : Disk) (domain : string) (isIPv6 : bool) (s : Store S) : result Addr * Store S :=
  match storage s with
  | None => (Panic "invalid memory address or nil pointer dereference", s)
  | Some st =>
      match FakeIPLoadDomain domain isIPv6 st with
      | Some address => (Ok address, s)
      | None => Create_locked disk domain isIPv6 s
      end
  end.

Definition Store_Lookup (address : Addr) (s : Store S) : result (option string) :=
  match storage s with
  | None => Panic "invalid memory address or nil pointer dereference"
  | Some st => Ok (FakeIPLoad address st)
  end.

Definition Store_Reset (disk : Disk) (s : Store S) : result unit * Store S :=
  match storage s with
  | None => (Panic "invalid memory address or nil pointer dereference", s)
  | Some st =>
      let '(r, st) := FakeIPReset disk st in
      (r, set_current (inet4Current s) (inet6Current s) (Some st) s)
  end.

End Store.

(** ** The arithmetic of a range *)

Definition width (v6 : bool) : Z := if v6 then 128 else 32.
Definition mkAddr (v6 : bool) (v : Z) : Addr := if v6 then Addr6 v "" else Addr4 v.

(** A prefix written with its network address, [base], with [2 ^ host] addresses. *)
Record network (v6 : bool) (p : Prefix) (base host : Z) : Prop := {
  net_addr : prefix_addr p = mkAddr v6 base;
  net_bits : prefix_bits p = width v6 - host;
  net_host : 2 <= host <= width v6;
  net_base : 0 <= base /\ base + 2 ^ host <= 2 ^ width v6;
  net_aligned : base mod 2 ^ host = 0;
}.

Lemma Addr_Next_mkAddr v6 v : v + 1 <> 2 ^ width v6 -> Addr_Next (mkAddr v6 v) = mkAddr v6 (v + 1).
Proof. intros H. by destruct v6; cbn [mkAddr Addr_Next]; rewrite (proj2 (Z.eqb_neq _ _)). Qed.

Lemma mask_mkAddr v6 v bits : 0 <= width v6 - bits ->
  Addr_mask (mkAddr v6 v) bits = mkAddr v6 (v / 2 ^ (width v6 - bits) * 2 ^ (width v6 - bits)).
Proof.
  intros H. destruct v6; cbn [mkAddr Addr_mask width] in *; by rewrite Z.shiftl_mul_pow2, Z.shiftr_div_pow2 by done.
Qed.

Lemma mkAddr_inj v6 v1 v2 : mkAddr v6 v1 = mkAddr v6 v2 <-> v1 = v2.
Proof. split; [|by intros ->]. by destruct v6; intros [= ->]. Qed.

Lemma network_pow v6 p base host : network v6 p base host -> 4 <= 2 ^ host.
Proof. intros N. change 4 with (2 ^ 2). apply Z.pow_le_mono_r; [done|]. by apply N. Qed.

(** An aligned block of size [w] is a class of the division by [w]. *)
Lemma block_div base w v : 0 < w -> base mod w = 0 -> (v / w = base / w <-> base <= v < base + w).
Proof.
  intros Hw Ha. pose proof (Z.div_mod base w ltac:(lia)) as Hb. pose proof (Z.div_mod v w ltac:(lia)) as Hv.
  pose proof (Z.mod_pos_bound v w Hw). split; intros H0; [rewrite H0 in Hv; lia|].
  symmetry. apply (Z.div_unique v w (base / w) (v - base)); lia.
Qed.

Lemma network_contains v6 p base host v :
  network v6 p base host -> Prefix_Contains p (mkAddr v6 v) = (base <=? v) && (v <? base + 2 ^ host).
Proof.
  intros N. pose proof (network_pow _ _ _ _ N) as Hp. destruct N as [Ha Hb Hh Hr Hm]. unfold Prefix_Contains.
  assert (Prefix_IsValid p = true) as -> by (unfold Prefix_IsValid; rewrite Hb; apply Z.leb_le; lia).
  assert (bool_decide (Addr_mask (prefix_addr p) (prefix_bits p) = Addr_mask (mkAddr v6 v) (prefix_bits p)) =
    (base <=? v) && (v <? base + 2 ^ host)) as He.
  { rewrite Ha, !mask_mkAddr by lia. rewrite Hb. replace (width v6 - (width v6 - host)) with host by lia.
    apply eq_bool_prop_intro. rewrite bool_decide_spec, mkAddr_inj, Z.mul_cancel_r by lia.
    rewrite Is_true_true, andb_true_iff, Z.leb_le, Z.ltb_lt, <- block_div by lia. by split. }
  rewrite He. rewrite Ha. by destruct v6; cbn.
Qed.

(** The successor of an address in the round of a network: [base + 2], ...,
    [base + 2 ^ host - 2], [base + 2], ... *)
Definition round (base host v : Z) : Z := base + 2 + (v - base - 1) mod (2 ^ host - 3).

Lemma nextAddress_round v6 p base host v :
  network v6 p base host -> base + 1 <= v <= base + 2 ^ host - 2 ->
  nextAddress p (mkAddr v6 (base + 2 ^ host - 1)) (mkAddr v6 v) = mkAddr v6 (round base host v).
Proof.
  intros N Hv. pose proof (network_pow _ _ _ _ N) as Hp. destruct (net_base _ _ _ _ N) as [H0 Hr].
  unfold nextAddress, round. cbn zeta. rewrite (net_addr _ _ _ _ N), Addr_Next_mkAddr by lia.
  rewrite (network_contains v6 p base host) by done.
  rewrite (Addr_Next_mkAddr v6 base), (Addr_Next_mkAddr v6 (base + 1)) by lia.
  destruct (decide (v = base + 2 ^ host - 2)) as [->|Hne].
  - rewrite bool_decide_eq_true_2 by (f_equal; lia). cbn [orb].
    replace (base + 2 ^ host - 2 - base - 1) with (1 * (2 ^ host - 3)) by lia. rewrite Z.mod_mul by lia. f_equal. lia.
  - rewrite bool_decide_eq_false_2 by (rewrite mkAddr_inj; lia).
    rewrite (proj2 (Z.leb_le base (v + 1))), (proj2 (Z.ltb_lt _ _)) by lia. cbn [orb negb andb].
    rewrite Z.mod_small by lia. f_equal. lia.
Qed.

Lemma round_range base host v : 4 <= 2 ^ host -> base + 2 <= round base host v <= base + 2 ^ host - 2.
Proof. intros Hp. unfold round. pose proof (Z.mod_pos_bound (v - base - 1) (2 ^ host - 3)). lia. Qed.

(** [k] addresses after [v]. *)
Definition rounds (base host v k : Z) : Z := base + 2 + (v - base - 2 + k) mod (2 ^ host - 3).

Lemma round_rounds base host v k : 4 <= 2 ^ host -> round base host (rounds base host v k) = rounds base host v (k + 1).
Proof.
  intros Hp. unfold round, rounds. f_equal.
  replace (base + 2 + (v - base - 2 + k) mod (2 ^ host - 3) - base - 1) with ((v - base - 2 + k) mod (2 ^ host - 3) + 1) by lia.
  rewrite Z.add_mod_idemp_l by lia. f_equal. lia.
Qed.

Lemma rounds_0 base host v : base + 2 <= v <= base + 2 ^ host - 2 -> rounds base host v 0 = v.
Proof. intros Hv. unfold rounds. rewrite Z.mod_small by lia. lia. Qed.

Lemma rounds_return base host v k :
  base + 2 <= v <= base + 2 ^ host - 2 -> 0 <= k -> rounds base host v k = v -> k = 0 \/ 2 ^ host - 3 <= k.
Proof.
  intros Hv Hk H. unfold rounds in H. destruct (decide (k < 2 ^ host - 3)) as [Hl|]; [left|right; lia].
  destruct (decide (v - base - 2 + k < 2 ^ host - 3)) as [Hs|Hs].
  - rewrite Z.mod_small in H by lia. lia.
  - rewrite <- (Z.mod_add _ (-1)) in H by lia. rewrite Z.mod_small in H by lia. lia.
Qed.

Lemma setbits_testbit l raw j : 0 <= j -> Forall (fun i => i <= 127) l ->
  Z.testbit (fold_left (fun raw i => Z.setbit raw (127 - i)) l raw) j =
  Z.testbit raw j || existsb (fun i => 127 - i =? j) l.
Proof.
  intros Hj H. revert raw. induction H as [|i l Hi _ IH]; intros raw; cbn [fold_left existsb]; [by rewrite orb_false_r|].
  rewrite IH, Z.setbit_eqb by lia. rewrite (orb_comm (_ =? _)), <- orb_assoc. done.
Qed.

Lemma set_low_bits_spec bits raw : 0 <= bits <= 128 -> set_low_bits bits raw = Z.lor raw (Z.ones (128 - bits)).
Proof.
  intros Hb. apply Z.bits_inj'. intros j Hj. unfold set_low_bits. rewrite setbits_testbit; [|done|].
  2:{ apply Forall_forall. intros i Hi%elem_of_seqZ. lia. }
  rewrite Z.lor_spec. f_equal. rewrite Z.testbit_ones_nonneg by lia. apply eq_iff_eq_true.
  rewrite existsb_exists, Z.ltb_lt. split.
  - intros (i & Hi & E). apply list_elem_of_In, elem_of_seqZ in Hi. apply Z.eqb_eq in E. lia.
  - intros H. exists (127 - j). rewrite Z.eqb_eq, <- list_elem_of_In, elem_of_seqZ. lia.
Qed.

Lemma lor_ones_aligned v host : 0 <= host -> v mod 2 ^ host = 0 -> Z.lor v (Z.ones host) = v + 2 ^ host - 1.
Proof.
  intros Hh Hm. assert (0 < 2 ^ host) by (apply Z.pow_pos_nonneg; lia).
  rewrite (Z.div_mod v (2 ^ host)) at 1 by lia. rewrite Hm, Z.add_0_r, Z.mul_comm, <- Z.shiftl_mul_pow2 by done.
  rewrite Z.ones_equiv, lor_shiftl_small by lia.
  pose proof (Z.div_mod v (2 ^ host) ltac:(lia)). lia.
Qed.

Lemma broadcastAddress_network v6 p base host :
  network v6 p base host -> broadcastAddress p = mkAddr v6 (base + 2 ^ host - 1).
Proof.
  intros [Ha Hb Hh Hr Hm]. unfold broadcastAddress. rewrite Ha, Hb. destruct v6; cbn [mkAddr width] in *.
  - rewrite set_low_bits_spec by lia. replace (128 - (128 - host)) with host by lia. by rewrite lor_ones_aligned by lia.
  - assert (0 < 2 ^ host) by (apply Z.pow_pos_nonneg; lia).
    rewrite set_low_bits_spec by lia. replace (128 - (32 - host + 96)) with host by lia.
    assert (2 ^ 32 = 2 ^ (32 - host) * 2 ^ host) as Hw by (rewrite <- Z.pow_add_r by lia; f_equal; lia).
    rewrite lor_ones_aligned; [|lia|].
    2:{ rewrite Hw, Z.mul_assoc, Z.add_comm, Z.mod_add by lia. done. }
    replace (2 ^ 32 - 1) with (Z.ones 32) by done. rewrite Z.land_ones by lia. f_equal.
    replace (65535 * 2 ^ 32 + base + 2 ^ host - 1) with (base + 2 ^ host - 1 + 65535 * 2 ^ 32) by lia.
    rewrite Z.mod_add by lia. apply Z.mod_small. lia.
Qed.

(** ** Invariants *)

Section Invariants.
Context {S : Type} {FS : FakeIPStorage S} {FL : FakeIPStorageLaws S}.

(** The maps are inverse of each other, per family. *)
Definition bijective (st : S) : Prop :=
  (forall a d, plain a = true -> FakeIPLoad a st = Some d <-> FakeIPLoadDomain d (Addr_Is6 a) st = Some a) /\
  (forall d v6 a, FakeIPLoadDomain d v6 st = Some a -> plain a = true /\ Addr_Is6 a = v6).

Lemma bijective_same s s' : same_mappings s s' -> bijective s -> bijective s'.
Proof.
  intros [H1 H2] [B1 B2]. split.
  - intros a d Hp. rewrite H1, H2. by apply B1.
  - intros d v6 a. rewrite H2. apply B2.
Qed.

Lemma bijective_none s : no_mappings s -> bijective s.
Proof. intros [H1 H2]. split; [intros a d _; by rewrite H1, H2|]. intros d v6 a. by rewrite H2. Qed.

Lemma bijective_added a d s s' :
  plain a = true -> FakeIPLoadDomain d (Addr_Is6 a) s = None ->
  mapping_added a d s s' -> bijective s -> bijective s'.
Proof.
  intros Hp Hd [H1 H2] [B1 B2]. split.
  - intros a' d' Hp'. rewrite H1, H2 by done. destruct (decide (a' = a)) as [->|Hne].
    + rewrite eqb_reflx. destruct (decide (d' = d)) as [->|Hnd]; [by split|].
      split; [congruence|]. destruct (decide _) as [Hl|Hl]; [done|]. by intros Hl'%B1.
    + destruct (Bool.eqb _ _) eqn:E; [|by apply B1]. apply eqb_prop in E.
      destruct (decide (d' = d)) as [->|Hnd].
      { split; [|congruence]. intros Hl%B1; [|done]. rewrite E in Hl. congruence. }
      destruct (decide (FakeIPLoad a s = Some d')) as [Hl|Hl]; [|by apply B1].
      split; [|done]. intros Hl'%B1; [|done]. apply B1 in Hl; [|done]. rewrite E in Hl'. congruence.
  - intros d' v6 a'. rewrite H2. destruct (Bool.eqb _ _) eqn:E; [|apply B2]. apply eqb_prop in E as ->.
    destruct (decide (d' = d)); [by intros [= <-]|]. destruct (decide _); [done|]. apply B2.
Qed.

Definition rangeOf (v6 : bool) (s : Store S) : Prefix := if v6 then inet6Range s else inet4Range s.
Definition lastOf (v6 : bool) (s : Store S) : Addr := if v6 then inet6Last s else inet4Last s.
Definition currentOf (v6 : bool) (s : Store S) : Addr := if v6 then inet6Current s else inet4Current s.

(** The family hands out addresses of the network [base]/[host]; the last one was [v]. *)
Definition at_address (v6 : bool) (base host v : Z) (s : Store S) : Prop :=
  network v6 (rangeOf v6 s) base host /\ lastOf v6 s = mkAddr v6 (base + 2 ^ host - 1) /\
  currentOf v6 s = mkAddr v6 v /\ base + 1 <= v <= base + 2 ^ host - 2.

Definition family_ok (v6 : bool) (s : Store S) : Prop :=
  currentOf v6 s = AddrInvalid /\ Prefix_IsValid (rangeOf v6 s) = false \/ exists base host v, at_address v6 base host v s.

Definition store_ok (s : Store S) : Prop :=
  (exists st, storage s = Some st /\ storage_ok st /\ bijective st) /\ (forall v6, family_ok v6 s).

Lemma plain_mkAddr v6 v : 0 <= v < 2 ^ width v6 -> plain (mkAddr v6 v) = true.
Proof. destruct v6; cbn [mkAddr plain width]; intros H; rewrite ?andb_true_iff; rewrite ?String.eqb_refl; lia. Qed.

Lemma Is6_mkAddr v6 v : Addr_Is6 (mkAddr v6 v) = v6.
Proof. by destruct v6. Qed.

Lemma valid_mkAddr v6 v : Addr_IsValid (mkAddr v6 v) = true.
Proof. by destruct v6. Qed.

(** What a critical section of [Create] does. *)
Inductive created (domain : string) (v6 : bool) (s : Store S) (r : result Addr) (s' : Store S) : Prop :=
| created_known st a :
    storage s = Some st -> FakeIPLoadDomain domain v6 st = Some a -> r = Ok a -> s' = s ->
    created domain v6 s r s'
| created_disabled st :
    storage s = Some st -> Prefix_IsValid (rangeOf v6 s) = false -> is_ok r = false -> s' = s -> created domain v6 s r s'
| created_new st st' base host v :
    storage s = Some st -> FakeIPLoadDomain domain v6 st = None ->
    at_address v6 base host v s -> at_address v6 base host (round base host v) s' ->
    (forall w6, w6 <> v6 -> rangeOf w6 s' = rangeOf w6 s /\ lastOf w6 s' = lastOf w6 s /\ currentOf w6 s' = currentOf w6 s) ->
    r = Ok (mkAddr v6 (round base host v)) -> storage s' = Some st' -> storage_ok st' ->
    (mapping_added (mkAddr v6 (round base host v)) domain st st' \/ same_mappings st st') ->
    created domain v6 s r s'.

Lemma mapping_then_same a d s s1 s2 : mapping_added a d s s1 -> same_mappings s1 s2 -> mapping_added a d s s2.
Proof. intros [H1 H2] [H3 H4]. split; intros; [rewrite H3; by apply H1|rewrite H4; apply H2]. Qed.

Lemma same_mappings_trans s s1 s2 : same_mappings s s1 -> same_mappings s1 s2 -> same_mappings s s2.
Proof. intros [H1 H2] [H3 H4]. split; intros; [by rewrite H3, H1|by rewrite H4, H2]. Qed.

Lemma record_address_spec disk a d st s :
  storage_ok st -> plain a = true ->
  exists st', record_address disk a d st s = (Ok a, set_current (inet4Current s) (inet6Current s) (Some st') s) /\
    storage_ok st' /\ (mapping_added a d st st' \/ same_mappings st st').
Proof.
  intros Hok Hp. unfold record_address. pose proof (store_law disk a d st Hok Hp) as Hs.
  destruct (FakeIPStore disk a d st) as [r st1]. destruct Hs as [Hok1 Hs].
  destruct (save_async_law (store_metadata s) st1 Hok1) as [Hok2 Hm].
  exists (FakeIPSaveMetadataAsync (store_metadata s) st1). destruct Hs as [[-> Ha]|[[e ->] Ha]]; split_and!; try done.
  - left. by eapply mapping_then_same.
  - right. by eapply same_mappings_trans.
Qed.

Lemma network_next v6 base host v s :
  at_address v6 base host v s ->
  nextAddress (rangeOf v6 s) (lastOf v6 s) (currentOf v6 s) = mkAddr v6 (round base host v) /\
  plain (mkAddr v6 (round base host v)) = true /\ base + 2 <= round base host v <= base + 2 ^ host - 2.
Proof.
  intros (N & -> & -> & Hv). rewrite (nextAddress_round v6 _ base host) by done.
  pose proof (round_range base host v (network_pow _ _ _ _ N)). destruct (net_base _ _ _ _ N). split_and!; try done; try lia.
  apply plain_mkAddr. lia.
Qed.

Lemma Create_locked_spec disk domain v6 s :
  store_ok s -> created domain v6 s (fst (Create_locked disk domain v6 s)) (snd (Create_locked disk domain v6 s)).
Proof.
  intros [(st & Hst & Hok & _) Hf]. unfold Create_locked. rewrite Hst.
  destruct (FakeIPLoadDomain domain v6 st) as [a|] eqn:El; [by apply (created_known _ _ _ _ _ st a)|].
  specialize (Hf v6). destruct Hf as [[Hf Hinv]|(base & host & v & Hat)].
  { apply (created_disabled _ _ _ _ _ st); destruct v6; cbn [negb currentOf] in *; by rewrite ?Hf. }
  destruct (network_next _ _ _ _ _ Hat) as (Hn & Hp & Hr). pose proof Hat as (N & Hl & Hc & Hv).
  assert (Addr_IsValid (currentOf v6 s) = true) as Hval by (by rewrite Hc, valid_mkAddr).
  destruct v6; cbn [negb currentOf rangeOf lastOf] in *; rewrite Hval, Hn; cbn [negb];
    match goal with |- context [record_address disk ?a domain st ?s1] =>
      destruct (record_address_spec disk a domain st s1 Hok Hp) as (st' & -> & Hok' & Hm) end; cbn [fst snd];
    eapply (created_new _ _ _ _ _ st st' base host v); try done;
    try (by intros []); (split; [exact N|split; [exact Hl|split; [done|lia]]]).
Qed.

Lemma created_store_ok domain v6 s r s' : created domain v6 s r s' -> store_ok s -> store_ok s'.
Proof.
  intros H Hs. destruct H as [st a ? ? ? ->|st ? ? ? ->|st st' base host v Hst Hn Hat Hat' Hother -> Hst' Hok' Hm]; [done..|].
  destruct Hs as [(st0 & Hst0 & Hok & Hb) Hf]. simplify_eq. split.
  - exists st'. split_and!; [done..|]. destruct Hm as [Hm|Hm]; [|by apply (bijective_same st)].
    destruct (network_next _ _ _ _ _ Hat) as (_ & Hp & _). eapply bijective_added; try done.
    by rewrite Is6_mkAddr.
  - intros w6. destruct (decide (w6 = v6)) as [->|Hne]; [right; eauto|].
    destruct (Hother w6 Hne) as (E1 & E2 & E3). unfold family_ok, at_address. rewrite E1, E2, E3. apply Hf.
Qed.

(** The steps of a started store: creations, in any interleaving, and resets. *)
Inductive store_step : Store S -> Store S -> Prop :=
| step_create disk domain v6 s : store_step s (snd (Create_locked disk domain v6 s))
| step_reset disk s : store_step s (snd (Store_Reset disk s)).

Lemma Reset_store_ok disk s : store_ok s -> store_ok (snd (Store_Reset disk s)).
Proof.
  intros [(st & Hst & Hok & Hb) Hf]. unfold Store_Reset. rewrite Hst. pose proof (reset_law disk st Hok) as Hr.
  destruct (FakeIPReset disk st) as [r st']. destruct Hr as [Hok' Hr]. split; [|done].
  exists st'. split_and!; [done..|]. destruct Hr as [[_ Hn]|[_ Hm]]; [by apply bijective_none|by eapply bijective_same].
Qed.

Lemma store_step_ok s s' : store_step s s' -> store_ok s -> store_ok s'.
Proof.
  intros [disk domain v6 s0|disk s0] Hs; [|by apply Reset_store_ok].
  eapply created_store_ok; [by apply Create_locked_spec|done].
Qed.

Lemma step_ranges s s' v6 : store_step s s' -> store_ok s -> rangeOf v6 s' = rangeOf v6 s.
Proof.
  intros [disk domain w6 s0|disk s0] Hs.
  - destruct (Create_locked_spec disk domain w6 s0 Hs) as
      [? ? ? ? ? ->|? ? ? ? ->|st st' b h v _ _ (N1 & _) (N2 & _) Hother _ _ _ _]; [done..|].
    destruct (decide (v6 = w6)) as [->|Hne]; [|by destruct (Hother v6 Hne)].
    destruct N1 as [A1 B1 _ _ _], N2 as [A2 B2 _ _ _]. destruct (rangeOf w6 s0), (rangeOf w6 _). cbn in *. congruence.
  - unfold Store_Reset. destruct (storage s0); [|done]. by destruct (FakeIPReset _ _), v6.
Qed.

Lemma store_steps_ok s s' : rtc store_step s s' -> store_ok s -> store_ok s'.
Proof. induction 1 as [|s1 s2 s3 H _ IH]; [done|]. intros Hs. apply IH. by eapply store_step_ok. Qed.

Lemma steps_ranges s s' v6 : rtc store_step s s' -> store_ok s -> rangeOf v6 s' = rangeOf v6 s.
Proof.
  induction 1 as [|s1 s2 s3 H _ IH]; [done|]. intros Hs. rewrite IH by (by eapply store_step_ok). by apply step_ranges.
Qed.

Lemma Start_ranges disk st r4 r6 v6 : rangeOf v6 (Store_Start disk st (NewStore r4 r6)) = if v6 then r6 else r4.
Proof.
  unfold Store_Start. destruct (LoadMetadata disk st) as [m st1], (FakeIPReset disk st1).
  destruct v6, m; cbn; try case_match; done.
Qed.

(** A configured range: none, or a network. *)
Definition good_range (v6 : bool) (p : Prefix) : Prop :=
  Prefix_IsValid p = false \/ exists base host, network v6 p base host.

(** Metadata as a store of these ranges saves it. *)
Definition good_current (v6 : bool) (p : Prefix) (current : Addr) : Prop :=
  current = AddrInvalid /\ Prefix_IsValid p = false \/ exists base host v,
    network v6 p base host /\ current = mkAddr v6 v /\ base + 1 <= v <= base + 2 ^ host - 2.

Definition good_metadata (m : FakeIPMetadata) : Prop :=
  good_current false (FakeIPStorage.Inet4Range m) (Inet4Current m) /\
  good_current true (FakeIPStorage.Inet6Range m) (Inet6Current m).

Lemma network_valid v6 p base host : network v6 p base host -> Prefix_IsValid p = true.
Proof. intros [_ Hb Hh _ _]. unfold Prefix_IsValid. rewrite Hb. lia. Qed.

Lemma fresh_current v6 p :
  good_range v6 p ->
  good_current v6 p (if Prefix_IsValid p then Addr_Next (prefix_addr p) else AddrInvalid).
Proof.
  intros [E|(base & host & N)]; [left; by rewrite E|right]. exists base, host, (base + 1).
  pose proof (network_pow _ _ _ _ N). destruct (net_base _ _ _ _ N).
  rewrite (network_valid _ _ _ _ N), (net_addr _ _ _ _ N), Addr_Next_mkAddr by lia.
  split; [done|]. split; [done|lia].
Qed.

Lemma good_family v6 p current (s : Store S) :
  good_current v6 p current -> rangeOf v6 s = p ->
  lastOf v6 s = (if Prefix_IsValid p then broadcastAddress p else AddrInvalid) ->
  currentOf v6 s = current -> family_ok v6 s.
Proof.
  intros [[-> Hinv]|(base & host & v & N & -> & Hv)] <- Hl Hc; [by left|]. right. exists base, host, v.
  rewrite (network_valid _ _ _ _ N), (broadcastAddress_network _ _ _ _ N) in Hl. unfold at_address. by rewrite Hl, Hc.
Qed.

Lemma Start_store_ok disk st r4 r6 :
  good_range false r4 -> good_range true r6 -> storage_ok st -> bijective st ->
  (forall m, fst (LoadMetadata disk st) = Some m -> good_metadata m) ->
  store_ok (Store_Start disk st (NewStore r4 r6)).
Proof.
  intros H4 H6 Hok Hb Hm. unfold Store_Start. pose proof (load_metadata_law disk st Hok) as Hload.
  destruct (LoadMetadata disk st) as [m st1]. cbn [fst snd] in *. destruct Hload as [Hok1 Hload].
  assert (bijective st1) as Hb1 by (destruct Hload; [by eapply bijective_same|by apply bijective_none]).
  pose proof (reset_law disk st1 Hok1) as Hr. destruct (FakeIPReset disk st1) as [r st2]. destruct Hr as [Hok2 Hr].
  assert (bijective st2) as Hb2 by (destruct Hr as [[_ ?]|[_ ?]]; [by apply bijective_none|by eapply bijective_same]).
  set (fresh := set_current _ _ (Some st2) (NewStore r4 r6)).
  assert (store_ok fresh) as Hfresh.
  { split; [by exists st2|]. intros [].
    - by eapply (good_family true r6); [apply fresh_current|..].
    - by eapply (good_family false r4); [apply fresh_current|..]. }
  destruct m as [m|]; [|done]. destruct (bool_decide_reflect (FakeIPStorage.Inet4Range m = r4)) as [E4|];
    destruct (bool_decide_reflect (FakeIPStorage.Inet6Range m = r6)) as [E6|]; cbn [inet4Range inet6Range NewStore];
    rewrite ?bool_decide_eq_true_2, ?bool_decide_eq_false_2 by done; cbn [andb]; try done.
  destruct (Hm m eq_refl) as [G4 G6]. rewrite E4 in G4. rewrite E6 in G6. split; [by exists st1|]. intros [].
  - by apply (good_family true r6 (Inet6Current m)).
  - by apply (good_family false r4 (Inet4Current m)).
Qed.
End Invariants.

(** ** How long a mapping lives *)

Section Stability.
Context {S : Type} {FS : FakeIPStorage S} {FL : FakeIPStorageLaws S}.

Fixpoint run (calls : list (Disk * string * bool)) (s : Store S) : Store S :=
  match calls with
  | [] => s
  | (disk, domain, v6) :: calls => run calls (snd (Create_locked disk domain v6 s))
  end.

Lemma network_unique v6 p b1 h1 b2 h2 : network v6 p b1 h1 -> network v6 p b2 h2 -> b1 = b2 /\ h1 = h2.
Proof.
  intros N1 N2. split.
  - apply (mkAddr_inj v6). by rewrite <- (net_addr _ _ _ _ N1), <- (net_addr _ _ _ _ N2).
  - pose proof (net_bits _ _ _ _ N1). pose proof (net_bits _ _ _ _ N2). lia.
Qed.

Lemma load_kept a d a' d' st st' :
  plain a = true -> a <> a' -> FakeIPLoad a st = Some d ->
  mapping_added a' d' st st' \/ same_mappings st st' -> FakeIPLoad a st' = Some d.
Proof. intros Hp Hne Hl [[H _]|[H _]]; rewrite H by done; [by rewrite decide_False|done]. Qed.

(** [k] addresses after [va], the mapping of [va] is still there, and survives [n] more calls. *)
Lemma run_keeps v6 base host va d calls : forall k s,
  store_ok s -> base + 2 <= va <= base + 2 ^ host - 2 -> 0 <= k ->
  k + zlen calls < 2 ^ host - 3 -> at_address v6 base host (rounds base host va k) s ->
  Store_Lookup (mkAddr v6 va) s = Ok (Some d) ->
  Store_Lookup (mkAddr v6 va) (run calls s) = Ok (Some d).
Proof.
  induction calls as [|[[disk d'] w6] calls IH]; intros k s Hok Hva Hk Hlen Hat Hl; [done|].
  cbn [run]. rewrite zlen_cons in Hlen. pose proof (zlen_nonneg calls).
  pose proof (Create_locked_spec disk d' w6 s Hok) as Hc. pose proof (created_store_ok _ _ _ _ _ Hc Hok) as Hok'.
  destruct Hc as [st a ? ? ? Es|st ? ? ? Es|st st' b h v Hst Hn Hat1 Hat2 Hother Hr Hst' Hok1 Hm].
  - rewrite Es in *. apply (IH k); try done. lia.
  - rewrite Es in *. apply (IH k); try done. lia.
  - pose proof Hat as (N & _ & Hcur & _). pose proof (network_pow _ _ _ _ N) as Hpow.
    destruct (net_base _ _ _ _ N) as [Hb0 Hb1]. assert (plain (mkAddr v6 va) = true) as Hp by (apply plain_mkAddr; lia).
    assert (mkAddr v6 va <> mkAddr w6 (round b h v)) as Hne.
    { destruct (decide (w6 = v6)) as [->|Hw]; [|intros E; apply Hw; by rewrite <- (Is6_mkAddr w6 (round b h v)), <- E, Is6_mkAddr].
      destruct Hat1 as (N1 & _ & Hcur1 & _). destruct (network_unique _ _ _ _ _ _ N N1) as [<- <-].
      rewrite Hcur in Hcur1. apply mkAddr_inj in Hcur1 as <-. rewrite mkAddr_inj, round_rounds by done. intros E.
      symmetry in E. apply rounds_return in E; lia. }
    assert (Store_Lookup (mkAddr v6 va) (snd (Create_locked disk d' w6 s)) = Ok (Some d)) as Hl'.
    { unfold Store_Lookup in *. rewrite Hst in Hl. rewrite Hst'. injection Hl as Hl. f_equal. by eapply load_kept. }
    destruct (decide (w6 = v6)) as [->|Hw].
    + destruct Hat1 as (N1 & _ & Hcur1 & _). destruct (network_unique _ _ _ _ _ _ N N1) as [<- <-].
      rewrite Hcur in Hcur1. apply mkAddr_inj in Hcur1 as <-. rewrite round_rounds in Hat2 by done.
      apply (IH (k + 1)); try done; lia.
    + apply (IH k); try done; [lia|]. destruct (Hother v6) as (E1 & E2 & E3); [done|].
      unfold at_address. rewrite E1, E2, E3. exact Hat.
Qed.
End Stability.

(** ** Properties *)

(** A storage the store can start from: its mappings are one-to-one and its
    metadata, if any, was saved by a store of the same ranges. *)
Definition startable {S} {FS : FakeIPStorage S} {FL : FakeIPStorageLaws S} (disk : Disk) (st : S) : Prop :=
  storage_ok st /\ bijective st /\ (forall m, fst (LoadMetadata disk st) = Some m -> good_metadata m).

(** C7: the fake addresses and the domains they stand for are in one-to-one
    correspondence, whatever the interleaving of creations and resets and
    whichever writes fail: looking an address up gives a domain exactly when
    that domain resolves to the address. *)
Theorem fakeip_mappings_inverse {S} {FS : FakeIPStorage S} {FL : FakeIPStorageLaws S} (disk : Disk) (st : S)
    (r4 r6 : Prefix) (s : Store S) :
  good_range false r4 -> good_range true r6 -> startable disk st ->
  rtc store_step (Store_Start disk st (NewStore r4 r6)) s ->
  exists st', storage s = Some st' /\
  forall a d, plain a = true -> Store_Lookup a s = Ok (Some d) <-> FakeIPLoadDomain d (Addr_Is6 a) st' = Some a.
Proof.
  intros H4 H6 (Hok & Hb & Hm) Hs. apply store_steps_ok in Hs as [(st' & Hst & _ & Hb' & _) _]; [|by apply Start_store_ok].
  exists st'. split; [done|]. intros a d Hp. unfold Store_Lookup. rewrite Hst, <- Hb' by done. split; [by intros [= ?]|by intros ->].
Qed.

(** C35: a new domain gets an address inside the configured range, neither the
    network address, nor the one after it, nor the broadcast address (ranges
    of at least four addresses, written with their network address). *)
Theorem fakeip_address_in_range {S} {FS : FakeIPStorage S} {FL : FakeIPStorageLaws S} (disk disk' : Disk) (st st' : S)
    (r4 r6 : Prefix) (s : Store S) (domain : string) (v6 : bool) (base host : Z) :
  good_range false r4 -> good_range true r6 -> startable disk st ->
  rtc store_step (Store_Start disk st (NewStore r4 r6)) s ->
  network v6 (if v6 then r6 else r4) base host -> storage s = Some st' -> FakeIPLoadDomain domain v6 st' = None ->
  exists v, fst (Create_locked disk' domain v6 s) = Ok (mkAddr v6 v) /\ base + 2 <= v <= base + 2 ^ host - 2 /\
    Store_Contains (mkAddr v6 v) s = true.
Proof.
  intros H4 H6 (Hok & Hb & Hm) Hs N Hst Hl. pose proof (Start_store_ok disk st r4 r6 H4 H6 Hok Hb Hm) as Hstart.
  pose proof (steps_ranges _ _ v6 Hs Hstart) as Hr. rewrite Start_ranges in Hr. apply store_steps_ok in Hs; [|done].
  destruct (Create_locked_spec disk' domain v6 s Hs) as
    [st0 a E1 E2 _ _|st0 E1 E2 _ _|st0 st1 b h v E1 _ (N1 & _) (N2 & _ & _ & Hv2) _ -> _ _ _].
  - congruence.
  - rewrite Hr, (network_valid _ _ _ _ N) in E2. done.
  - rewrite Hr in N1. destruct (network_unique _ _ _ _ _ _ N N1) as [<- <-].
    pose proof (round_range base host v (network_pow _ _ _ _ N)) as Hrr. exists (round base host v). split_and!; [done|lia|lia|].
    rewrite <- Hr in N. unfold Store_Contains. destruct v6; cbn [rangeOf] in N;
      rewrite (network_contains _ _ _ _ (round base host v) N), (proj2 (Z.leb_le _ _)), (proj2 (Z.ltb_lt _ _)) by lia;
      rewrite ?orb_true_r; done.
Qed.

(** An address stays with its domain until its turn comes again: once handed
    out and stored, it is looked up as that domain after any sequence of fewer
    creations than the range has usable addresses ([2 ^ host - 3]). *)
Theorem fakeip_address_stable {S} {FS : FakeIPStorage S} {FL : FakeIPStorageLaws S} (disk disk' : Disk) (st st' : S)
    (r4 r6 : Prefix) (s : Store S) (domain : string) (v6 : bool) (base host : Z) (a : Addr)
    (calls : list (Disk * string * bool)) :
  good_range false r4 -> good_range true r6 -> startable disk st ->
  rtc store_step (Store_Start disk st (NewStore r4 r6)) s ->
  network v6 (if v6 then r6 else r4) base host -> storage s = Some st' -> FakeIPLoadDomain domain v6 st' = None ->
  fst (Create_locked disk' domain v6 s) = Ok a ->
  Store_Lookup a (snd (Create_locked disk' domain v6 s)) = Ok (Some domain) ->
  zlen calls < 2 ^ host - 3 ->
  Store_Lookup a (run calls (snd (Create_locked disk' domain v6 s))) = Ok (Some domain).
Proof.
  intros H4 H6 (Hok & Hb & Hm) Hs N Hst Hl Ha Hlook Hlen. pose proof (Start_store_ok disk st r4 r6 H4 H6 Hok Hb Hm) as Hstart.
  pose proof (steps_ranges _ _ v6 Hs Hstart) as Hr. rewrite Start_ranges in Hr. apply store_steps_ok in Hs; [|done].
  pose proof (Create_locked_spec disk' domain v6 s Hs) as Hc. pose proof (created_store_ok _ _ _ _ _ Hc Hs) as Hs'.
  destruct Hc as [st0 a0 E1 E2 _ _|st0 E1 E2 _ _|st0 st1 b h v E1 _ (N1 & _) Hat _ Er _ _ _].
  - congruence.
  - rewrite Hr, (network_valid _ _ _ _ N) in E2. done.
  - rewrite Hr in N1. destruct (network_unique _ _ _ _ _ _ N N1) as [<- <-]. rewrite Er in Ha. injection Ha as <-.
    pose proof (round_range base host v (network_pow _ _ _ _ N)) as Hrr.
    apply (run_keeps v6 base host (round base host v) domain calls 0); try done; by rewrite rounds_0.
Qed.

(** *** With the cache file *)

Section CacheFile.
Context `{GE : GoEnv} {B : Bolt} {BL : BoltLaws} {AL : AddrFromIPLaw}.

Definition goodDisk : Disk := mkDisk None true.

(** A cache file opened on a database. *)
Definition openCache (db : DB) : FakeIPCache := mkFakeIPCache false (Some db) None ∅ ∅ ∅.

Lemma zlen_MarshalBinary m : wf_metadata m ->
  zlen (FakeIPMetadata_MarshalBinary m) <= MaxValueSize /\ FakeIPMetadata_MarshalBinary m <> [].
Proof.
  intros (H4 & H6 & H4c & H6c). destruct (Prefix_roundtrip _ H4) as [_ L4], (Prefix_roundtrip _ H6) as [_ L6],
    (Addr_roundtrip _ H4c) as [_ M4], (Addr_roundtrip _ H6c) as [_ M6]. split.
  - unfold FakeIPMetadata_MarshalBinary, frame. rewrite !zlen_app.
    assert (forall v, zlen (be_encode 2 v) = 2) as Hz by (intros v; unfold zlen; by rewrite length_be_encode).
    rewrite !Hz. unfold MaxValueSize. lia.
  - intros E. apply (f_equal length) in E. unfold FakeIPMetadata_MarshalBinary, frame in E.
    rewrite !length_app, length_be_encode in E. cbn [length] in E. lia.
Qed.

(** Metadata saved in the file is found there by the next start. *)
Lemma save_load_metadata m c :
  wf_metadata m -> cache_ok c -> is_Some (openDB c) ->
  exists db, cache_FakeIPSaveMetadata goodDisk m c = (Ok tt, fc_set_DB (Some db) (fc_set_saveMetadata None c)) /\
    exists db', cache_FakeIPMetadata goodDisk (openCache db) = (Some m, openCache db') /\ same_mappings c (openCache db').
Proof.
  intros Hm Hok [db Hdb]. destruct (zlen_MarshalBinary m Hm) as [Hz Hne].
  destruct (create_ok bucketFakeIP db) as [db1 E1]; [done|]. pose proof (create_spec _ _ _ E1) as [B1 G1].
  assert (tx_Bucket bucketFakeIP db1 = true) as Hb1.
  { rewrite B1, (bool_decide_eq_true_2 (bucketFakeIP = _)) by done. by rewrite orb_true_r. }
  destruct (put_ok bucketFakeIP keyMetadata (FakeIPMetadata_MarshalBinary m) db1) as [db2 E2]; [done..|].
  pose proof (put_spec _ _ _ _ _ E2) as [B2 G2]. rewrite <- B2 in Hb1.
  destruct (delete_ok bucketFakeIP keyMetadata db2 Hb1) as [db3 E3].
  assert (saveFakeIPMetadataInTx m db = Ok (tt, db2)) as Hsave.
  { unfold saveFakeIPMetadataInTx. rewrite E1. cbn [bind_result]. rewrite E2. done. }
  assert (loadMetadataInTx db2 = Ok (m, db3)) as Hload.
  { unfold loadMetadataInTx. rewrite Hb1, G2, decide_True by done. cbn [negb].
    destruct (FakeIPMetadata_MarshalBinary m) as [|b l] eqn:Em; [done|].
    rewrite E3. cbn [bind_result]. rewrite <- Em, metadata_roundtrip by done. done. }
  exists db2. split; [|exists db3; split].
  - unfold cache_FakeIPSaveMetadata, saveFakeIPMetadata, batch. change (openDB (fc_set_saveMetadata None c)) with (openDB c).
    by rewrite Hdb, Hsave.
  - unfold cache_FakeIPMetadata, batch. cbn [openDB openCache fc_closed fc_DB]. by rewrite Hload.
  - pose proof (save_metadata_mappings m db c db2 tt Hok Hdb Hsave) as Hsame.
    assert (same_mappings (fc_set_DB (Some db2) c) (openCache db2)) as Hopen.
    { assert (openDB (fc_set_DB (Some db2) c) = Some db2) as Eo by (by apply (openDB_set db)).
      split; intros; cbn [FakeIPLoad FakeIPLoadDomain cache_storage].
      - rewrite !cache_load_ok by done. cbn zeta. by rewrite Eo.
      - rewrite !cache_load_domain_ok by done. cbn zeta. by rewrite Eo. }
    eapply same_mappings_trans; [done|]. eapply same_mappings_trans; [done|].
    by apply (load_metadata_mappings (openCache db2) db2 m).
Qed.

(** [FakeIPReset] deletes the three buckets or, when one of them was never
    created, none of them. *)
Lemma reset_missing_bucket disk c db :
  openDB c = Some db -> tx_Bucket bucketFakeIPDomain6 db = false ->
  exists e, cache_FakeIPReset disk c = (Err e, c).
Proof.
  intros Hdb H6. unfold cache_FakeIPReset, batch. rewrite Hdb. unfold resetInTx.
  assert (forall b (k : DB -> result (unit * DB)), (forall db1, tx_DeleteBucket b db = Ok db1 -> exists e, k db1 = Err e) ->
    exists e, (let* db1 := tx_DeleteBucket b db in k db1) = Err e) as Hbind.
  { intros b k Hk. destruct (tx_DeleteBucket b db) as [db1|e|e] eqn:E; cbn; [by apply Hk|by eexists|].
    pose proof (delete_bucket_no_panic b db) as Hp. by rewrite E in Hp. }
  edestruct Hbind as [e He]; [|by rewrite He; eexists].
  intros db1 [B1 _]%delete_bucket_Ok. assert (tx_Bucket bucketFakeIPDomain6 db1 = false) as H61 by (by rewrite B1, H6).
  destruct (tx_DeleteBucket bucketFakeIPDomain4 db1) as [db2|e|e] eqn:E2; cbn [bind_result]; [|by eexists|].
  - apply delete_bucket_Ok in E2 as [B2 _].
    destruct (delete_bucket_missing bucketFakeIPDomain6 db2) as [e ->]; [by rewrite B2, H61|]. by eexists.
  - pose proof (delete_bucket_no_panic bucketFakeIPDomain4 db1) as Hp. by rewrite E2 in Hp.
Qed.
End CacheFile.

(** A restart keeps the fake addresses: when a store over the cache file is
    closed and a store of the same ranges is started on the file left behind,
    it continues with the same addresses and has the same mappings. *)
Theorem fakeip_restart `{GE : GoEnv} {B : Bolt} {BL : BoltLaws} {AL : AddrFromIPLaw}
    (s : Store FakeIPCache) (c : FakeIPCache) :
  storage s = Some c -> cache_ok c -> is_Some (openDB c) -> wf_metadata (store_metadata s) ->
  exists db c', snd (Store_Close goodDisk s) = set_current (inet4Current s) (inet6Current s) (Some c') s /\
    snd (cache_Close goodDisk c') = Some db /\
    let s' := Store_Start goodDisk (openCache db) (NewStore (inet4Range s) (inet6Range s)) in
    inet4Current s' = inet4Current s /\ inet6Current s' = inet6Current s /\
    exists c'', storage s' = Some c'' /\ same_mappings c c''.
Proof.
  intros Hst Hok Ho Hm. destruct (save_load_metadata _ c Hm Hok Ho) as (db & Hsave & db' & Hload & Hsame).
  eexists db, _. unfold Store_Close. rewrite Hst. cbn [FakeIPSaveMetadata cache_storage]. rewrite Hsave. split; [done|].
  destruct Ho as [db0 Ho]. unfold openDB in Ho. destruct (fc_closed c) eqn:Ec; [done|].
  split; [by unfold cache_Close; cbn; rewrite Ec|]. cbn zeta. unfold Store_Start.
  cbn [LoadMetadata cache_storage]. rewrite Hload. cbn [store_metadata FakeIPStorage.Inet4Range FakeIPStorage.Inet6Range
    inet4Range inet6Range NewStore]. rewrite !bool_decide_eq_true_2 by done. cbn [andb].
  split_and!; [done..|]. by exists (openCache db').
Qed.

(** Changing the IPv4 range does not take effect for the domains the cache
    file knows: if no IPv6 address was ever stored, the reset of the mappings
    that a start with other ranges requests fails as a whole, its error is
    ignored, and the domain keeps the address of the old range. *)
Theorem old_range_survives_restart `{GE : GoEnv} {B : Bolt} {BL : BoltLaws} {AL : AddrFromIPLaw}
    (disk disk' : Disk) (c c' : FakeIPCache) (db : DB) (m : FakeIPMetadata) (r4 r6 : Prefix) (domain : string) (a : Addr) :
  cache_ok c -> openDB c = Some db -> tx_Bucket bucketFakeIPDomain6 db = false ->
  LoadMetadata disk c = (Some m, c') -> FakeIPStorage.Inet4Range m <> r4 ->
  FakeIPLoadDomain domain false c = Some a ->
  fst (Store_Create disk' domain false (Store_Start disk c (NewStore r4 r6))) = Ok a.
Proof.
  intros Hok Hdb H6 Hload Hne Hl. unfold Store_Start. rewrite Hload. cbn [inet4Range NewStore].
  rewrite bool_decide_eq_false_2 by done. cbn [andb].
  cbn [LoadMetadata cache_storage] in Hload. unfold cache_FakeIPMetadata, batch in Hload. rewrite Hdb in Hload.
  destruct (loadMetadataInTx db) as [[m0 db']|e|e] eqn:Etx; [|done..]. destruct (disk_commit disk); [done|].
  injection Hload as -> <-. destruct (load_metadata_mappings c db m db' Hok Hdb Etx) as [_ Hsame].
  destruct (reset_missing_bucket disk (fc_set_DB (Some db') c) db') as [e Hr].
  - by apply (openDB_set db).
  - unfold loadMetadataInTx in Etx. destruct (negb _); [done|]. case_match; [|done]. case_match; [done|].
    apply bind_is_Ok in Etx as (db1 & [B1 _]%delete_spec & E). apply bind_is_Ok in E as (m1 & _ & [= _ <-]). by rewrite B1.
  - cbn [FakeIPReset cache_storage]. rewrite Hr. unfold Store_Create. cbn [storage set_current].
    by rewrite Hsame, Hl.
Qed.

(** ** Instances *)

(** 10.0.0.0/29, and no IPv6 range. *)
Definition demoRange : Prefix := mkPrefix (Addr4 167772160) 29.
Definition noRange : Prefix := mkPrefix AddrInvalid (-1).

Lemma demoRange_network : network false demoRange 167772160 3.
Proof. by split. Qed.

Lemma demoRange_good : good_range false demoRange.
Proof. right. exists 167772160, 3. apply demoRange_network. Qed.

Lemma noRange_good : good_range true noRange.
Proof. by left. Qed.

Lemma memory_startable : startable goodDisk NewMemoryStorage.
Proof. split; [done|]. split; [|done]. apply bijective_none. split; [done|]. by intros d []. Qed.

Definition demoStore : Store MemoryStorage := Store_Start goodDisk NewMemoryStorage (NewStore demoRange noRange).

(** One domain created: 10.0.0.2. *)
Definition demoStore1 : Store MemoryStorage := snd (Create_locked goodDisk "a.test" false demoStore).

Lemma fakeip_mappings_inverse_witness : exists st, storage demoStore1 = Some st /\
  FakeIPLoadDomain "a.test" false st = Some (Addr4 167772162).
Proof.
  destruct (fakeip_mappings_inverse goodDisk NewMemoryStorage demoRange noRange demoStore1 demoRange_good noRange_good
    memory_startable (rtc_once _ _ (step_create goodDisk "a.test" false demoStore))) as (st & Hst & H).
  exists st. split; [done|]. apply (H (Addr4 167772162) "a.test"); by vm_compute.
Defined.

Lemma fakeip_address_in_range_witness :
  exists v, fst (Create_locked goodDisk "a.test" false demoStore) = Ok (mkAddr false v) /\
    167772160 + 2 <= v <= 167772160 + 2 ^ 3 - 2 /\ Store_Contains (mkAddr false v) demoStore = true.
Proof.
  apply (fakeip_address_in_range goodDisk goodDisk NewMemoryStorage NewMemoryStorage demoRange noRange demoStore "a.test" false
    167772160 3 demoRange_good noRange_good memory_startable (rtc_refl _ _) demoRange_network); by vm_compute.
Defined.

(** Four more domains (the range has five usable addresses). *)
Lemma fakeip_address_stable_witness :
  Store_Lookup (Addr4 167772162)
    (run [(goodDisk, "b.test", false); (goodDisk, "c.test", false); (goodDisk, "d.test", false); (goodDisk, "e.test", false)]
       demoStore1) = Ok (Some "a.test").
Proof.
  apply (fakeip_address_stable goodDisk goodDisk NewMemoryStorage NewMemoryStorage demoRange noRange demoStore "a.test" false
    167772160 3 (Addr4 167772162) _ demoRange_good noRange_good memory_startable (rtc_refl _ _) demoRange_network);
    by vm_compute.
Defined.

#[export] Instance demoAddrFromIP : @AddrFromIPLaw demoEnv.
Proof.
  split; [|done]. intros a Hp. destruct a as [|v|v z]; cbn [plain] in Hp; [done|..]; cbn [Addr_AsSlice AddrFromIP demoEnv].
  - assert (zlen (be_encode 4 v) = 4) as -> by (unfold zlen; by rewrite length_be_encode). cbn [Z.eqb Pos.eqb].
    rewrite be_decode_encode by lia. done.
  - rewrite !andb_true_iff, String.eqb_eq in Hp. destruct Hp as [Hv ->].
    assert (zlen (be_encode 16 v) = 16) as -> by (unfold zlen; by rewrite length_be_encode). cbn [Z.eqb Pos.eqb].
    rewrite be_decode_encode by lia. done.
Qed.

#[local] Existing Instance demoEnv.

(** A store over an empty cache file, one domain created, closed. *)
Definition demoCacheStore : Store (@FakeIPCache mapBolt) :=
  snd (Create_locked goodDisk "a.test" false (Store_Start goodDisk (openCache emptyDB) (NewStore demoRange noRange))).

Definition demoCache : @FakeIPCache mapBolt := default (openCache emptyDB) (storage demoCacheStore).

Definition is_some {A} (o : option A) : bool := match o with Some _ => true | None => false end.

Lemma is_some_default {A} (o : option A) (d : A) : is_some o = true -> o = Some (default d o).
Proof. by destruct o. Qed.

Lemma demoCache_stored : storage demoCacheStore = Some demoCache.
Proof. apply is_some_default. by_compute. Qed.

(** Facts on a concrete cache file, checked by evaluation. *)
Definition pending_empty (c : @FakeIPCache mapBolt) : bool :=
  bool_decide (saveDomain c = ∅) && bool_decide (saveAddress4 c = ∅) && bool_decide (saveAddress6 c = ∅).

Lemma pending_empty_ok c : pending_empty c = true -> cache_ok c.
Proof. unfold pending_empty. rewrite !andb_true_iff, !bool_decide_eq_true. unfold cache_ok. tauto. Qed.

Lemma demoCache_ok : cache_ok demoCache.
Proof. apply pending_empty_ok. by_compute. Qed.

Lemma demoCache_open : openDB demoCache = Some (default emptyDB (openDB demoCache)).
Proof. apply is_some_default. by_compute. Qed.

Lemma demoCache_wf : wf_metadata (store_metadata demoCacheStore).
Proof. split_and!; [right; split; [by_compute|split; vm_compute; congruence]|left; by_compute|right; by_compute|left; by_compute]. Qed.

Lemma fakeip_restart_witness : exists db c',
  snd (Store_Close goodDisk demoCacheStore) =
    set_current (inet4Current demoCacheStore) (inet6Current demoCacheStore) (Some c') demoCacheStore /\
  snd (cache_Close goodDisk c') = Some db /\
  inet4Current (Store_Start goodDisk (openCache db) (NewStore (inet4Range demoCacheStore) (inet6Range demoCacheStore)))
    = inet4Current demoCacheStore.
Proof.
  destruct (fakeip_restart demoCacheStore demoCache demoCache_stored demoCache_ok
    (mk_is_Some _ _ demoCache_open) demoCache_wf) as (db & c' & H1 & H2 & H3 & _).
  exists db, c'. exact (conj H1 (conj H2 H3)).
Defined.

(** The file of [demoCacheStore] after the store saved its metadata. *)
Definition demoSaved : @FakeIPCache mapBolt := snd (cache_FakeIPSaveMetadata goodDisk (store_metadata demoCacheStore) demoCache).

Definition demoSavedDB : DB := default emptyDB (openDB demoSaved).

Lemma demoSaved_ok : cache_ok demoSaved.
Proof. apply pending_empty_ok. by_compute. Qed.

Lemma demoSaved_open : openDB demoSaved = Some demoSavedDB.
Proof. apply is_some_default. by_compute. Qed.

Definition demoMetadata : FakeIPMetadata := mkFakeIPMetadata demoRange noRange (Addr4 167772162) AddrInvalid.

Lemma demoSaved_metadata : LoadMetadata goodDisk demoSaved = (Some demoMetadata, snd (LoadMetadata goodDisk demoSaved)).
Proof.
  assert (fst (LoadMetadata goodDisk demoSaved) = Some demoMetadata) as <- by by_compute. apply surjective_pairing.
Qed.

(** The range is changed to 10.1.0.0/29; "a.test" stays at 10.0.0.2. *)
Lemma old_range_survives_restart_witness :
  fst (Store_Create goodDisk "a.test" false
    (Store_Start goodDisk demoSaved (NewStore (mkPrefix (Addr4 167837696) 29) noRange))) = Ok (Addr4 167772162).
Proof.
  apply (old_range_survives_restart goodDisk goodDisk demoSaved _ demoSavedDB demoMetadata _ _ _ _
    demoSaved_ok demoSaved_open ltac:(by_compute) demoSaved_metadata); [by intros [= ?]|by_compute].
Defined.
