(* ===== verification/OutboundManager.v ===== *)
(** * The outbound manager (adapter/outbound/manager.go)

    The registry of outbounds: creation, replacement, removal, dependency
    bookkeeping and dependency-ordered start.  The state is the [Manager]
    struct; every operation takes the state and returns the new one with its
    outcome (operations that start outbounds also return the start order).

    An [Outbound] is a reference: [ob_id] is its identity, which is what the
    code compares.  What starting or closing an outbound does is code of the
    protocol packages: the functions [LegacyStart] and [CloseOutbound] are
    parameters, as are the endpoint manager and the outcome of the registry's
    constructor. *)
From Stdlib Require Import ZArith Lia Bool.
From S2P Require Import Prelude.

Record Outbound := mkOutbound {
  ob_id : nat;
  ob_Type : string;
  ob_Tag : string;
  ob_Dependencies : list string;
}.

#[export] Instance Outbound_eq_dec : EqDecision Outbound.
Proof. solve_decision. Defined.

Inductive StartStage := StartStateInitialize | StartStateStart | StartStatePostStart | StartStateStarted.

#[export] Instance StartStage_eq_dec : EqDecision StartStage.
Proof. solve_decision. Defined.

Definition stage_number (s : StartStage) : Z :=
  match s with StartStateInitialize => 0 | StartStateStart => 1 | StartStatePostStart => 2 | StartStateStarted => 3 end.

Definition ListStartStages : list StartStage :=
  [StartStateInitialize; StartStateStart; StartStatePostStart; StartStateStarted].

Definition stage_String (s : StartStage) : string :=
  match s with
  | StartStateInitialize => "initialize" | StartStateStart => "start"
  | StartStatePostStart => "post-start" | StartStateStarted => "finish-start"
  end.

Record Manager := mkManager {
  defaultTag : string;
  started : bool;
  stage : StartStage;
  outbounds : list Outbound;
  outboundByTag : gmap string Outbound;
  dependByTag : gmap string (list string);
  defaultOutbound : option Outbound;
}.

Definition NewManager (tag : string) : Manager := {|
  defaultTag := tag; started := false; stage := StartStateInitialize; outbounds := [];
  outboundByTag := ∅; dependByTag := ∅; defaultOutbound := None |}.

Definition set_started (b : bool) (s : StartStage) (m : Manager) : Manager := {|
  defaultTag := defaultTag m; started := b; stage := s; outbounds := outbounds m;
  outboundByTag := outboundByTag m; dependByTag := dependByTag m; defaultOutbound := defaultOutbound m |}.

Definition set_outbounds (l : list Outbound) (byTag : gmap string Outbound) (m : Manager) : Manager := {|
  defaultTag := defaultTag m; started := started m; stage := stage m; outbounds := l;
  outboundByTag := byTag; dependByTag := dependByTag m; defaultOutbound := defaultOutbound m |}.

Definition set_dependByTag (d : gmap string (list string)) (m : Manager) : Manager := {|
  defaultTag := defaultTag m; started := started m; stage := stage m; outbounds := outbounds m;
  outboundByTag := outboundByTag m; dependByTag := d; defaultOutbound := defaultOutbound m |}.

Definition set_defaultOutbound (o : option Outbound) (m : Manager) : Manager := {|
  defaultTag := defaultTag m; started := started m; stage := stage m; outbounds := outbounds m;
  outboundByTag := outboundByTag m; dependByTag := dependByTag m; defaultOutbound := o |}.

(** [m.dependByTag[d]]: nil for a missing key. *)
Definition dependents (deps : gmap string (list string)) (d : string) : list string := default [] (deps !! d).

Definition outbound_name (o : Outbound) : string := "outbound/" +:+ ob_Type o +:+ "[" +:+ ob_Tag o +:+ "]".

(** The slice without the element at its first occurrence
    ([append(l[:index], l[index+1:]...)]); None when [common.Index] is -1. *)
Fixpoint remove_first (o : Outbound) (l : list Outbound) : option (list Outbound) :=
  match l with
  | [] => None
  | x :: l' => if decide (x = o) then Some l' else option_map (cons x) (remove_first o l')
  end.

(** One dependency of [removeDependenciesLocked]. *)
Definition removeDependency (tag : string) (deps : gmap string (list string)) (dependency : string)
    : gmap string (list string) :=
  if (length (dependents deps dependency) =? 1)%nat then delete dependency deps
  else <[dependency := List.filter (fun it => negb (String.eqb it tag)) (dependents deps dependency)]> deps.

Definition removeDependenciesLocked (outbound : Outbound) (deps : gmap string (list string)) : gmap string (list string) :=
  fold_left (removeDependency (ob_Tag outbound)) (ob_Dependencies outbound) deps.

(** [for _, dependency := range dependencies { m.dependByTag[dependency] = append(m.dependByTag[dependency], tag) }] *)
Definition addDependencies (tag : string) (dependencies : list string) (deps : gmap string (list string))
    : gmap string (list string) :=
  fold_left (fun deps dependency => <[dependency := dependents deps dependency ++ [tag]]> deps) dependencies deps.

Section WithEnv.
Context (LegacyStart : Outbound -> StartStage -> result unit).
Context (CloseOutbound : Outbound -> result unit).
Context (endpoint_Get : string -> option Outbound) (endpoint_Endpoints : list Outbound).

(** ** Starting in dependency order *)

(** One round of the loop: every outbound whose dependencies are started is
    started.  Returns the outcome, the started tags, whether some outbound
    was started, and the start order so far. *)
Fixpoint start_round (l : list Outbound) (startedTags : gset string) (canContinue : bool) (order : list Outbound)
    : result unit * gset string * bool * list Outbound :=
  match l with
  | [] => (Ok tt, startedTags, canContinue, order)
  | outboundToStart :: rest =>
      if bool_decide (ob_Tag outboundToStart ∈ startedTags) then start_round rest startedTags canContinue order
      else if forallb (fun dependency => bool_decide (dependency ∈ startedTags)) (ob_Dependencies outboundToStart) then
        let startedTags := {[ob_Tag outboundToStart]} ∪ startedTags in
        let order := order ++ [outboundToStart] in
        match LegacyStart outboundToStart StartStateStart with
        | Ok _ => start_round rest startedTags true order
        | Err e => (Err (ECause e ("start " +:+ outbound_name outboundToStart)), startedTags, true, order)
        | Panic s => (Panic s, startedTags, true, order)
        end
      else start_round rest startedTags canContinue order
  end.

(** [lintOutbound]; [fuel] bounds the recursion. *)
Fixpoint lintOutbound (fuel : nat) (byTag : gmap string Outbound) (startedTags : gset string)
    (oTree : list string) (oCurrent : Outbound) : result unit :=
  match fuel with
  | O => Err OutOfFuel
  | S fuel =>
      let problemOutboundTag :=
        default "" (List.find (fun it => negb (bool_decide (it ∈ startedTags))) (ob_Dependencies oCurrent)) in
      if bool_decide (problemOutboundTag ∈ oTree) then
        Err (ENew ("circular outbound dependency: " +:+ String.concat " -> " oTree +:+ " -> " +:+ problemOutboundTag))
      else
        match byTag !! problemOutboundTag with
        | None => Err (ENew ("dependency[" +:+ problemOutboundTag +:+ "] not found for outbound[" +:+ ob_Tag oCurrent +:+ "]"))
        | Some problemOutbound => lintOutbound fuel byTag startedTags (oTree ++ [problemOutboundTag]) problemOutbound
        end
  end.

Fixpoint startOutbounds_loop (fuel : nat) (byTag : gmap string Outbound) (l : list Outbound) (startedTags : gset string)
    (order : list Outbound) : result unit * list Outbound :=
  match fuel with
  | O => (Err OutOfFuel, order)
  | S fuel =>
      match start_round l startedTags false order with
      | (Ok _, startedTags, canContinue, order) =>
          if (size startedTags =? length l)%nat then (Ok tt, order)
          else if canContinue then startOutbounds_loop fuel byTag l startedTags order
          else match List.find (fun it => negb (bool_decide (ob_Tag it ∈ startedTags))) l with
               | None => (Panic "invalid memory address or nil pointer dereference", order)
               | Some currentOutbound =>
                   (lintOutbound (size byTag + 1) byTag startedTags [ob_Tag currentOutbound] currentOutbound, order)
               end
      | (Err e, _, _, order) => (Err e, order)
      | (Panic s, _, _, order) => (Panic s, order)
      end
  end.

Definition startOutbounds (byTag : gmap string Outbound) (l : list Outbound) : result unit * list Outbound :=
  startOutbounds_loop (S (length l)) byTag l ∅ [].

(** The later stages: every outbound, in order. *)
Fixpoint start_all (stage : StartStage) (l : list Outbound) (order : list Outbound) : result unit * list Outbound :=
  match l with
  | [] => (Ok tt, order)
  | outbound :: rest =>
      match LegacyStart outbound stage with
      | Ok _ => start_all stage rest (order ++ [outbound])
      | Err e => (Err (ECause e (stage_String stage +:+ " " +:+ outbound_name outbound)), order ++ [outbound])
      | Panic s => (Panic s, order ++ [outbound])
      end
  end.

(** ** Operations *)

(** [Start]; [fallback] is the outcome of defaultOutboundFallback. *)
Definition Start (newStage : StartStage) (fallback : result Outbound) (m : Manager)
    : Manager * result unit * list Outbound :=
  if started m && (stage_number newStage <=? stage_number (stage m)) then (m, Panic "already started", [])
  else
    let m := set_started true newStage m in
    if decide (newStage = StartStateStart) then
      let found :=
        if negb (String.eqb (defaultTag m) "") && bool_decide (defaultOutbound m = None) then
          match endpoint_Get (defaultTag m) with
          | None => Err (ENew ("default outbound not found: " +:+ defaultTag m))
          | Some defaultEndpoint => Ok (set_defaultOutbound (Some defaultEndpoint) m)
          end
        else Ok m in
      match found with
      | Err e => (m, Err e, [])
      | Panic s => (m, Panic s, [])
      | Ok m =>
          let withDefault :=
            match defaultOutbound m with
            | Some _ => Ok m
            | None =>
                let* directOutbound := with_cause "create direct outbound for fallback" fallback in
                Ok (set_defaultOutbound (Some directOutbound)
                      (set_outbounds (outbounds m ++ [directOutbound])
                         (<[ob_Tag directOutbound := directOutbound]> (outboundByTag m)) m))
            end in
          match withDefault with
          | Err e => (m, Err e, [])
          | Panic s => (m, Panic s, [])
          | Ok m =>
              let '(r, order) := startOutbounds (outboundByTag m) (outbounds m ++ endpoint_Endpoints) in
              (m, r, order)
          end
      end
    else
      let '(r, order) := start_all newStage (outbounds m) [] in
      (m, r, order).

(** [Close] closes every outbound and joins the errors; the tag map is kept. *)
Fixpoint close_all (l : list Outbound) (err : option go_error) : result unit :=
  match l with
  | [] => match err with None => Ok tt | Some e => Err e end
  | outbound :: rest =>
      match CloseOutbound outbound with
      | Ok _ => close_all rest err
      | Err e =>
          let e := ECause e ("close " +:+ outbound_name outbound) in
          close_all rest (Some (match err with None => e | Some e0 => EErrors e0 e end))
      | Panic s => Panic s
      end
  end.

Definition Close (m : Manager) : Manager * result unit :=
  if negb (started m) then (m, Ok tt)
  else
    let l := outbounds m in
    (set_started false (stage m) (set_outbounds [] (outboundByTag m) m), close_all l None).

Definition lookupOutbound (m : Manager) (tag : string) : option Outbound :=
  match outboundByTag m !! tag with
  | Some outbound => Some outbound
  | None => endpoint_Get tag
  end.

Definition Default (m : Manager) : option Outbound := defaultOutbound m.

Definition Remove (tag : string) (m : Manager) : Manager * result unit :=
  match outboundByTag m !! tag with
  | None => (m, Err ErrInvalid)
  | Some outbound =>
      let dependBy := dependents (dependByTag m) tag in
      if (0 <? length dependBy)%nat then
        (m, Err (ENew ("outbound[" +:+ tag +:+ "] is depended by " +:+ String.concat ", " dependBy)))
      else
        match remove_first outbound (outbounds m) with
        | None => (set_outbounds (outbounds m) (delete tag (outboundByTag m)) m, Panic "invalid inbound index")
        | Some l =>
            let m := set_outbounds l (delete tag (outboundByTag m)) m in
            let m :=
              if decide (defaultOutbound m = Some outbound) then set_defaultOutbound (head l) m else m in
            let m := set_dependByTag (removeDependenciesLocked outbound (dependByTag m)) m in
            (m, if started m then CloseOutbound outbound else Ok tt)
        end
  end.

(** The stages of a new outbound in [Create]. *)
Fixpoint start_stages (outbound : Outbound) (stages : list StartStage) : result unit :=
  match stages with
  | [] => Ok tt
  | s :: rest =>
      let* _ := with_cause (stage_String s +:+ " " +:+ outbound_name outbound) (LegacyStart outbound s) in
      start_stages outbound rest
  end.

(** An error [e] after which [outbound] is closed; a failing close is reported too. *)
Definition fail_closing (e : go_error) (outbound : Outbound) : result unit :=
  match CloseOutbound outbound with
  | Ok _ => Err e
  | Err closeErr => Err (EErrors e (ECause closeErr ("close failed " +:+ outbound_name outbound)))
  | Panic s => Panic s
  end.

(** [Create]; [created] is the outcome of registry.CreateOutbound. *)
Definition Create (tag : string) (created : result Outbound) (m : Manager) : Manager * result unit :=
  if String.eqb tag "" then (m, Err ErrInvalid)
  else
    match created with
    | Err e => (m, Err e)
    | Panic s => (m, Panic s)
    | Ok outbound =>
        match (if started m then start_stages outbound ListStartStages else Ok tt) with
        | Err e => (m, fail_closing e outbound)
        | Panic s => (m, Panic s)
        | Ok _ =>
            let removed :=
              match outboundByTag m !! tag with
              | None => Ok m
              | Some existsOutbound =>
                  let* _ :=
                    if started m then
                      match CloseOutbound existsOutbound with
                      | Ok _ => Ok tt
                      | Err e => fail_closing (ECause e ("close " +:+ outbound_name existsOutbound)) outbound
                      | Panic s => Panic s
                      end
                    else Ok tt in
                  match remove_first existsOutbound (outbounds m) with
                  | None => Panic "invalid inbound index"
                  | Some l =>
                      Ok (set_dependByTag (removeDependenciesLocked existsOutbound (dependByTag m))
                            (set_outbounds l (outboundByTag m) m))
                  end
              end in
            match removed with
            | Err e => (m, Err e)
            | Panic s => (m, Panic s)
            | Ok m =>
                let m := set_outbounds (outbounds m ++ [outbound]) (<[tag := outbound]> (outboundByTag m)) m in
                let m := set_dependByTag (addDependencies tag (ob_Dependencies outbound) (dependByTag m)) m in
                let m :=
                  if String.eqb tag (defaultTag m)
                     || (String.eqb (defaultTag m) "" && bool_decide (defaultOutbound m = None))
                  then set_defaultOutbound (Some outbound) m else m in
                (m, Ok tt)
            end
        end
    end.

End WithEnv.
