(* ===== verification/OutboundTheorems.v ===== *)
(** * Theorems about the outbound manager

    [Inv]: the slice, the tag map and the dependency map agree.  Every
    operation but [Close] preserves it, so the "invalid inbound index" panics
    are unreachable before [Close]; removal respects dependents; outbounds are
    started in dependency order, whenever such an order exists. *)
From Stdlib Require Import ZArith Lia Bool.
From S2P Require Import Prelude OutboundManager.

(** The tags of the outbounds that depend on [d]. *)
Definition users (d : string) (l : list Outbound) : list string :=
  concat (map (fun o => if bool_decide (d ∈ ob_Dependencies o) then [ob_Tag o] else []) l).

(** The slice, the tag map and the dependency map agree. *)
Record consistent (l : list Outbound) (byTag : gmap string Outbound) (D : gmap string (list string)) : Prop := {
  inv_tags : forall t o, byTag !! t = Some o <-> o ∈ l /\ ob_Tag o = t;
  inv_nodup : NoDup (map ob_Tag l);
  inv_deps : forall d, dependents D d ≡ₚ users d l;
  inv_nodup_deps : Forall (fun o => NoDup (ob_Dependencies o)) l;
}.

Definition Inv (m : Manager) : Prop := consistent (outbounds m) (outboundByTag m) (dependByTag m).

(** ** Lists of outbounds *)

Lemma remove_first_Some o l l' : remove_first o l = Some l' -> exists l1 l2, l = l1 ++ o :: l2 /\ l' = l1 ++ l2.
Proof.
  revert l'. induction l as [|x l IH]; intros l' H; cbn [remove_first] in H; [done|].
  destruct (decide (x = o)) as [->|].
  - simplify_eq. by exists [], l'.
  - destruct (remove_first o l) as [r|]; [|done]. cbn in H. simplify_eq.
    destruct (IH r eq_refl) as (l1 & l2 & -> & ->). by exists (x :: l1), l2.
Qed.

Lemma remove_first_elem o l : o ∈ l -> exists l', remove_first o l = Some l'.
Proof.
  induction l as [|x l IH]; [by intros ?%not_elem_of_nil|]. cbn [remove_first].
  destruct (decide (x = o)); [eauto|]. intros [->|Hin]%elem_of_cons; [done|].
  destruct (IH Hin) as [l' ->]. by eexists.
Qed.

Lemma users_app d l1 l2 : users d (l1 ++ l2) = users d l1 ++ users d l2.
Proof. unfold users. by rewrite map_app, concat_app. Qed.

Lemma users_cons d o l : users d (o :: l) = (if bool_decide (d ∈ ob_Dependencies o) then [ob_Tag o] else []) ++ users d l.
Proof. done. Qed.

Lemma elem_of_users t d l : t ∈ users d l <-> exists o, o ∈ l /\ ob_Tag o = t /\ d ∈ ob_Dependencies o.
Proof.
  induction l as [|x l IH]; [split; [by intros ?%not_elem_of_nil|by intros (o & ?%not_elem_of_nil & _)]|].
  rewrite users_cons, elem_of_app, IH. setoid_rewrite elem_of_cons. case_bool_decide as Hd.
  - rewrite list_elem_of_singleton. split.
    + intros [->|(o & ? & ? & ?)]; [exists x|exists o]; auto.
    + intros (o & [->|?] & ? & ?); [by left|right; by exists o].
  - split.
    + intros [?%not_elem_of_nil|(o & ? & ? & ?)]; [done|exists o; auto].
    + intros (o & [->|?] & ? & ?); [done|right; by exists o].
Qed.

(** Dropping an outbound's tag from the users is dropping the outbound. *)
Lemma filter_users d t l :
  t ∉ map ob_Tag l -> List.filter (fun it => negb (String.eqb it t)) (users d l) = users d l.
Proof.
  induction l as [|x l IH]; [done|]. cbn [map]. rewrite not_elem_of_cons. intros [Hx Hl].
  rewrite users_cons, List.filter_app, IH by done. f_equal. case_bool_decide; [|done]. cbn.
  destruct (String.eqb_spec (ob_Tag x) t); [congruence|done].
Qed.

Lemma filter_Permutation {A} (p : A -> bool) l l' : l ≡ₚ l' -> List.filter p l ≡ₚ List.filter p l'.
Proof.
  induction 1 as [|x l l' _ IH|x y l|? l ? _ IH1 _ IH2]; [done| | |by etrans].
  - cbn. destruct (p x); by rewrite ?IH.
  - cbn. destruct (p x), (p y); try done. constructor.
Qed.

(** ** Dependency map *)

Lemma dependents_delete D d d' : dependents (delete d' D) d = if decide (d = d') then [] else dependents D d.
Proof.
  unfold dependents. destruct (decide (d = d')) as [->|]; [by rewrite lookup_delete_eq|by rewrite lookup_delete_ne].
Qed.

Lemma dependents_insert D d d' l : dependents (<[d' := l]> D) d = if decide (d = d') then l else dependents D d.
Proof.
  unfold dependents. destruct (decide (d = d')) as [->|]; [by rewrite lookup_insert_eq|by rewrite lookup_insert_ne].
Qed.

Lemma dependents_removeDependency tag D d d' :
  dependents (removeDependency tag D d') d =
  if decide (d = d') then
    (if (length (dependents D d) =? 1)%nat then [] else List.filter (fun it => negb (String.eqb it tag)) (dependents D d))
  else dependents D d.
Proof.
  unfold removeDependency. destruct (length (dependents D d') =? 1)%nat eqn:E.
  - rewrite dependents_delete. destruct (decide (d = d')) as [->|]; [by rewrite E|done].
  - rewrite dependents_insert. destruct (decide (d = d')) as [->|]; [by rewrite E|done].
Qed.

Lemma dependents_fold_remove tag ds d : forall D, NoDup ds ->
  dependents (fold_left (removeDependency tag) ds D) d =
  if bool_decide (d ∈ ds) then
    (if (length (dependents D d) =? 1)%nat then [] else List.filter (fun it => negb (String.eqb it tag)) (dependents D d))
  else dependents D d.
Proof.
  induction ds as [|x ds IH]; intros D Hnd; [done|]. apply NoDup_cons in Hnd as [Hx Hnd]. cbn [fold_left].
  rewrite IH, dependents_removeDependency by done.
  destruct (decide (d = x)) as [->|Hne].
  - by rewrite (bool_decide_eq_false_2 (x ∈ ds)), (bool_decide_eq_true_2 (x ∈ x :: ds)) by (done || left).
  - erewrite (bool_decide_ext (d ∈ x :: ds) (d ∈ ds)); [done|]. rewrite elem_of_cons. tauto.
Qed.

Lemma dependents_add tag ds d : forall D, NoDup ds ->
  dependents (addDependencies tag ds D) d = dependents D d ++ (if bool_decide (d ∈ ds) then [tag] else []).
Proof.
  unfold addDependencies. induction ds as [|x ds IH]; intros D Hnd; [cbn; by rewrite app_nil_r|].
  apply NoDup_cons in Hnd as [Hx Hnd]. cbn [fold_left]. rewrite IH, dependents_insert by done.
  destruct (decide (d = x)) as [->|Hne].
  - rewrite (bool_decide_eq_false_2 (x ∈ ds)), (bool_decide_eq_true_2 (x ∈ x :: ds)) by (done || left).
    by rewrite app_nil_r.
  - erewrite (bool_decide_ext (d ∈ x :: ds) (d ∈ ds)); [done|]. rewrite elem_of_cons. tauto.
Qed.

(** Removing one outbound of a consistent list keeps the map exact. *)
Lemma removeDependencies_users D l1 o l2 :
  NoDup (map ob_Tag (l1 ++ o :: l2)) -> NoDup (ob_Dependencies o) ->
  (forall d, dependents D d ≡ₚ users d (l1 ++ o :: l2)) ->
  forall d, dependents (removeDependenciesLocked o D) d ≡ₚ users d (l1 ++ l2).
Proof.
  intros Hnd Hdep HD d. unfold removeDependenciesLocked. rewrite dependents_fold_remove by done.
  rewrite map_app, NoDup_app in Hnd. cbn [map] in Hnd. destruct Hnd as (_ & H12 & H2).
  apply NoDup_cons in H2 as [H2 _].
  assert (ob_Tag o ∉ map ob_Tag l1) as H1 by (intros H; apply (H12 _ H); left).
  pose proof (HD d) as Hd. rewrite users_app, users_cons in Hd. rewrite users_app.
  case_bool_decide as Hin; [|done].
  destruct (length (dependents D d) =? 1)%nat eqn:E.
  - apply Nat.eqb_eq in E. apply Permutation_length in Hd. rewrite E, !length_app in Hd. cbn in Hd.
    destruct (users d l1), (users d l2); cbn in Hd; try lia. done.
  - apply (filter_Permutation (fun it => negb (String.eqb it (ob_Tag o)))) in Hd. rewrite Hd.
    rewrite !List.filter_app, !filter_users by done. cbn. by rewrite String.eqb_refl.
Qed.

(** ** Consistency of the parts *)

Lemma NoDup_tags_eq l o o' : NoDup (map ob_Tag l) -> o ∈ l -> o' ∈ l -> ob_Tag o = ob_Tag o' -> o = o'.
Proof.
  induction l as [|x l IH]; [by intros _ ?%not_elem_of_nil|]. cbn [map]. intros [Hx Hnd]%NoDup_cons.
  assert (forall y, y ∈ l -> ob_Tag y <> ob_Tag x) as Hne.
  { intros y Hy He. apply Hx. rewrite <- He. by apply (list_elem_of_fmap_2 ob_Tag). }
  intros [->|H1]%elem_of_cons [->|H2]%elem_of_cons He; [done| | |by apply IH].
  - by destruct (Hne o').
  - by destruct (Hne o).
Qed.

Lemma consistent_empty : consistent [] ∅ ∅.
Proof.
  split; [|constructor| |constructor].
  - intros t o. rewrite lookup_empty. split; [done|by intros [?%not_elem_of_nil _]].
  - intros d. unfold dependents. by rewrite lookup_empty.
Qed.

(** The slice and the tag map agree. *)
Definition agree (l : list Outbound) (byTag : gmap string Outbound) : Prop :=
  (forall t o, byTag !! t = Some o <-> o ∈ l /\ ob_Tag o = t) /\ NoDup (map ob_Tag l).

Lemma agree_remove l1 o l2 byTag : agree (l1 ++ o :: l2) byTag -> agree (l1 ++ l2) (delete (ob_Tag o) byTag).
Proof.
  intros [Ht Hn]. assert (NoDup (ob_Tag o :: map ob_Tag (l1 ++ l2))) as Hn'.
  { eapply NoDup_Permutation_proper; [|exact Hn]. rewrite !map_app. cbn [map]. apply Permutation_middle. }
  apply NoDup_cons in Hn' as [Ho Hn']. split; [|done].
  intros t x. rewrite lookup_delete_Some, Ht, !elem_of_app, elem_of_cons. split.
  - intros (Hne & [?|[->|?]] & <-); [auto|done|auto].
  - intros [Hin <-]. split; [|tauto]. intros He. apply Ho. rewrite He.
    apply (list_elem_of_fmap_2 ob_Tag). by apply elem_of_app.
Qed.

Lemma agree_add l byTag o : agree l byTag -> byTag !! ob_Tag o = None -> agree (l ++ [o]) (<[ob_Tag o := o]> byTag).
Proof.
  intros [Ht Hn] Hnew. assert (ob_Tag o ∉ map ob_Tag l) as Hfresh.
  { intros Hin. apply list_elem_of_In, in_map_iff in Hin as (x & Hx & Hin).
    assert (byTag !! ob_Tag o = Some x) by (apply Ht; split; [by apply list_elem_of_In|done]). congruence. }
  split.
  - intros t x. rewrite lookup_insert_Some, Ht, elem_of_app, list_elem_of_singleton. split.
    + intros [[<- <-]|(Hne & Hin & <-)]; auto.
    + intros [[Hin | ->] <-]; [right|by left]. split; [|done]. intros He. apply Hfresh. rewrite He.
      by apply (list_elem_of_fmap_2 ob_Tag).
  - rewrite map_app, NoDup_app. split_and!; [done| |apply NoDup_singleton].
    intros x Hx ->%list_elem_of_singleton. done.
Qed.

Lemma consistent_agree l byTag D : consistent l byTag D -> agree l byTag.
Proof. by intros [Ht Hn _ _]. Qed.

Lemma consistent_remove l1 o l2 byTag D :
  consistent (l1 ++ o :: l2) byTag D ->
  consistent (l1 ++ l2) (delete (ob_Tag o) byTag) (removeDependenciesLocked o D).
Proof.
  intros H. destruct (agree_remove l1 o l2 byTag (consistent_agree _ _ _ H)) as [Ht' Hn'].
  destruct H as [Ht Hn Hd Hdd]. rewrite Forall_app, Forall_cons in Hdd. destruct Hdd as (Hd1 & Hdo & Hd2).
  split; [done|done| |by apply Forall_app]. by apply removeDependencies_users.
Qed.

Lemma consistent_add l byTag D o :
  consistent l byTag D -> byTag !! ob_Tag o = None -> NoDup (ob_Dependencies o) ->
  consistent (l ++ [o]) (<[ob_Tag o := o]> byTag) (addDependencies (ob_Tag o) (ob_Dependencies o) D).
Proof.
  intros H Hnew Hdo. destruct (agree_add l byTag o (consistent_agree _ _ _ H) Hnew) as [Ht' Hn'].
  destruct H as [Ht Hn Hd Hdd]. split; [done|done| |].
  - intros d. rewrite dependents_add, users_app, users_cons, app_nil_r by done. by rewrite Hd.
  - apply Forall_app. split; [done|]. by apply Forall_singleton.
Qed.

Section WithEnv.
Context (LegacyStart : Outbound -> StartStage -> result unit).
Context (CloseOutbound : Outbound -> result unit).
Context (endpoint_Get : string -> option Outbound) (endpoint_Endpoints : list Outbound).

(** ** Remove *)

Lemma Remove_Inv tag m : Inv m -> Inv (fst (Remove CloseOutbound tag m)).
Proof.
  intros HI. unfold Remove. destruct (outboundByTag m !! tag) as [o|] eqn:E; [|done].
  destruct (0 <? _)%nat; [done|]. pose proof E as [Hin <-]%(inv_tags _ _ _ HI).
  destruct (remove_first_elem o _ Hin) as [l Hl]. rewrite Hl. cbn [fst].
  destruct (remove_first_Some _ _ _ Hl) as (l1 & l2 & Hl12 & ->). unfold Inv in *. rewrite Hl12 in HI.
  apply consistent_remove in HI. by destruct (decide _).
Qed.

Lemma Remove_no_panic tag m :
  Inv m -> (forall o, is_panic (CloseOutbound o) = false) -> is_panic (snd (Remove CloseOutbound tag m)) = false.
Proof.
  intros HI Hc. unfold Remove. destruct (outboundByTag m !! tag) as [o|] eqn:E; [|done].
  destruct (0 <? _)%nat; [done|]. apply (inv_tags _ _ _ HI) in E as [Hin <-].
  destruct (remove_first_elem o _ Hin) as [l ->]. cbn [snd]. by destruct (started _).
Qed.

(** ** Create *)

(** What the registry returns: an outbound with the requested tag, whose
    dependencies are listed once. *)
Definition registered (tag : string) (created : result Outbound) : Prop :=
  forall o, created = Ok o -> ob_Tag o = tag /\ NoDup (ob_Dependencies o).

Lemma Create_Inv tag created m :
  Inv m -> registered tag created -> Inv (fst (Create LegacyStart CloseOutbound tag created m)).
Proof.
  intros HI Hreg. unfold Create. destruct (String.eqb tag ""); [done|]. destruct created as [o| |]; [|done..].
  destruct (Hreg o eq_refl) as [<- Hdo]. destruct (if started m then _ else _); [|done..].
  assert (forall l D m', outboundByTag m' = outboundByTag m -> outbounds m' = l -> dependByTag m' = D ->
    consistent l (delete (ob_Tag o) (outboundByTag m)) D ->
    let m1 := set_outbounds (outbounds m' ++ [o]) (<[ob_Tag o := o]> (outboundByTag m')) m' in
    Inv (set_dependByTag (addDependencies (ob_Tag o) (ob_Dependencies o) (dependByTag m1)) m1)) as Hadd.
  { intros l D m' H1 H2 H3 Hc. unfold Inv. cbn [set_dependByTag set_outbounds outbounds outboundByTag dependByTag].
    rewrite H1, H2, H3.
    rewrite <- (insert_delete_eq (outboundByTag m)). apply consistent_add; [done|apply lookup_delete_eq|done]. }
  assert (forall (b : bool) m', Inv m' -> Inv (fst (if b then set_defaultOutbound (Some o) m' else m', Ok tt))) as Hdef
    by (intros [] m' Hm; done).
  destruct (outboundByTag m !! ob_Tag o) as [e|] eqn:E.
  - destruct (if started m then _ else _); cbn [bind_result]; [|done..].
    pose proof E as [Hin He]%(inv_tags _ _ _ HI). destruct (remove_first_elem e _ Hin) as [l Hl]. rewrite Hl.
    destruct (remove_first_Some _ _ _ Hl) as (l1 & l2 & Hl12 & ->). cbn match. apply Hdef.
    eapply Hadd; [done..|]. rewrite <- He. apply consistent_remove. by rewrite <- Hl12.
  - cbn match. apply Hdef. eapply Hadd; [done..|]. rewrite delete_id by done. exact HI.
Qed.

Lemma start_stages_no_panic o stages :
  (forall o s, is_panic (LegacyStart o s) = false) -> is_panic (start_stages LegacyStart o stages) = false.
Proof.
  intros Hs. induction stages as [|s stages IH]; [done|]. cbn [start_stages]. pose proof (Hs o s) as Hp.
  destruct (LegacyStart o s); cbn [with_cause bind_result]; [done|done|by cbn in Hp].
Qed.

Lemma fail_closing_no_panic e o :
  (forall o, is_panic (CloseOutbound o) = false) -> is_panic (fail_closing CloseOutbound e o) = false.
Proof. intros Hc. unfold fail_closing. pose proof (Hc o). by destruct (CloseOutbound o). Qed.

Lemma Create_no_panic tag created m :
  Inv m -> is_panic created = false -> (forall o s, is_panic (LegacyStart o s) = false) ->
  (forall o, is_panic (CloseOutbound o) = false) ->
  is_panic (snd (Create LegacyStart CloseOutbound tag created m)) = false.
Proof.
  intros HI Hcr Hs Hc. unfold Create. destruct (String.eqb tag ""); [done|]. destruct created as [o|e|]; [|done..].
  pose proof (start_stages_no_panic o ListStartStages Hs) as Hp.
  destruct (if started m then _ else _) eqn:E1; [|by apply fail_closing_no_panic|by destruct (started m); [rewrite E1 in Hp|]].
  destruct (outboundByTag m !! tag) as [ex|] eqn:E; [|done].
  apply (inv_tags _ _ _ HI) in E as [Hin _]. destruct (remove_first_elem ex _ Hin) as [l ->].
  destruct (started m); [|done]. pose proof (Hc ex) as Hcx. destruct (CloseOutbound ex); cbn [bind_result]; [done| |done].
  pose proof (fail_closing_no_panic (ECause err ("close " +:+ outbound_name ex)) o Hc) as Hf.
  by destruct (fail_closing _ _ _).
Qed.

(** ** Start *)

(** The fallback outbound has no dependencies and a new tag. *)
Lemma Start_Inv newStage fallback m :
  Inv m -> (forall o, fallback = Ok o -> ob_Dependencies o = [] /\ outboundByTag m !! ob_Tag o = None) ->
  Inv (fst (fst (Start LegacyStart endpoint_Get endpoint_Endpoints newStage fallback m))).
Proof.
  intros HI Hf. unfold Start. destruct (started m && _); [done|]. destruct (decide _); [|by destruct (start_all _ _ _ _)].
  assert (forall m', Inv m' -> outboundByTag m' = outboundByTag m ->
    Inv (fst (fst (match
      match defaultOutbound m' with
      | Some _ => Ok m'
      | None =>
          let* directOutbound := with_cause "create direct outbound for fallback" fallback in
          Ok (set_defaultOutbound (Some directOutbound)
                (set_outbounds (outbounds m' ++ [directOutbound])
                   (<[ob_Tag directOutbound := directOutbound]> (outboundByTag m')) m'))
      end with
      | Err e => (m', Err e, [])
      | Panic s => (m', Panic s, [])
      | Ok m =>
          let '(r, order) := startOutbounds LegacyStart (outboundByTag m) (outbounds m ++ endpoint_Endpoints) in (m, r, order)
      end)))) as Hrest.
  { intros m' HI' Htag. destruct (defaultOutbound m'); [by destruct (startOutbounds _ _ _)|].
    destruct fallback as [o| |]; cbn [with_cause bind_result]; [|done..].
    destruct (Hf o eq_refl) as [Hd Hn]. destruct (startOutbounds _ _ _). cbn [fst]. unfold Inv.
    cbn [set_defaultOutbound set_outbounds outbounds outboundByTag dependByTag].
    pose proof (consistent_add _ _ _ o HI' ltac:(by rewrite Htag) ltac:(rewrite Hd; constructor)) as Ha.
    rewrite Hd in Ha. exact Ha. }
  destruct (negb _ && _); [|by apply Hrest]. destruct (endpoint_Get _); [by apply Hrest|done].
Qed.

End WithEnv.

(** *** Rounds *)

Section Rounds.
Context (LegacyStart : Outbound -> StartStage -> result unit).

(** Every outbound comes after its dependencies. *)
Definition respects (order : list Outbound) : Prop :=
  forall l1 o l2, order = l1 ++ o :: l2 -> forall d, d ∈ ob_Dependencies o -> d ∈ map ob_Tag l1.

Record ordered (S : gset string) (order : list Outbound) : Prop := {
  ord_tags : forall t, t ∈ S <-> t ∈ map ob_Tag order;
  ord_nodup : NoDup (map ob_Tag order);
  ord_respects : respects order;
}.

Lemma ordered_size S order : ordered S order -> size S = length order.
Proof.
  intros [Ht Hn _]. rewrite <- (length_map ob_Tag order), <- (size_list_to_set (C := gset string)) by done.
  f_equal. apply set_eq. intros t. by rewrite elem_of_list_to_set.
Qed.

Lemma respects_snoc order o :
  respects order -> (forall d, d ∈ ob_Dependencies o -> d ∈ map ob_Tag order) -> respects (order ++ [o]).
Proof.
  intros Hr Ho l1 x l2 E. destruct (decide (l2 = [])) as [->|Hne].
  - apply app_inj_tail in E as [-> ->]. done.
  - destruct (exists_last Hne) as (l2' & y & ->). rewrite app_comm_cons, app_assoc in E.
    apply app_inj_tail in E as [-> _]. by apply (Hr l1 x l2').
Qed.

Lemma ordered_add S order o :
  ordered S order -> ob_Tag o ∉ S -> (forall d, d ∈ ob_Dependencies o -> d ∈ S) ->
  ordered ({[ob_Tag o]} ∪ S) (order ++ [o]).
Proof.
  intros [Ht Hn Hr] Hnew Hdeps. split.
  - intros t. rewrite map_app, elem_of_app, elem_of_union, elem_of_singleton, Ht. cbn [map].
    rewrite list_elem_of_singleton. tauto.
  - rewrite map_app, NoDup_app. split_and!; [done| |apply NoDup_singleton].
    intros x Hx ->%list_elem_of_singleton. by apply Hnew, Ht.
  - apply respects_snoc; [done|]. intros d Hd. by apply Ht, Hdeps.
Qed.

(** What a round does: it extends the order by outbounds of the list; if it
    started nothing, every outbound left waits for a dependency. *)
Lemma start_round_spec l : forall S can order, ordered S order ->
  let '(r, S', can', order') := start_round LegacyStart l S can order in
  ordered S' order' /\
  exists new, order' = order ++ new /\ (forall o, o ∈ new -> o ∈ l) /\
    (can = true \/ new <> [] -> can' = true) /\ (can' = true -> can = true \/ new <> []) /\
    (new = [] -> S' = S /\ r = Ok tt /\
       forall o, o ∈ l -> ob_Tag o ∈ S \/ exists d, d ∈ ob_Dependencies o /\ d ∉ S).
Proof.
  induction l as [|o l IH]; intros S can order HS; cbn [start_round].
  - split; [done|]. exists []. rewrite app_nil_r. split_and!; [done|by intros ? ?%not_elem_of_nil|by intros [|]|by left|].
    intros _. split_and!; [done..|by intros ? ?%not_elem_of_nil].
  - case_bool_decide as Hin.
    + specialize (IH S can order HS). destruct (start_round _ l S can order) as [[[r S'] can'] order'].
      destruct IH as (? & new & ? & Hsub & ? & ? & Hno). split; [done|]. exists new. split_and!; [done| |done..|].
      * intros x Hx. right. by apply Hsub.
      * intros Hnew. destruct (Hno Hnew) as (? & ? & Hw). split_and!; [done..|].
        intros x [->|Hx]%elem_of_cons; [by left|by apply Hw].
    + destruct (forallb _ _) eqn:Ef.
      * assert (forall d, d ∈ ob_Dependencies o -> d ∈ S) as Hd.
        { intros d Hd. rewrite forallb_forall in Ef. specialize (Ef d). rewrite bool_decide_eq_true in Ef.
          by apply Ef, list_elem_of_In. }
        pose proof (ordered_add S order o HS Hin Hd) as HS'.
        destruct (LegacyStart o StartStateStart) as [u|e|s].
        -- specialize (IH _ true _ HS'). destruct (start_round _ l _ true _) as [[[r S'] can'] order'].
           destruct IH as (? & new & -> & Hsub & ? & ? & Hno). split; [done|]. exists (o :: new).
           rewrite <- app_assoc. split_and!; [done| |auto|by right|done].
           intros x [->|Hx]%elem_of_cons; [left|right; by apply Hsub].
        -- split; [done|]. exists [o]. split_and!; [done| |done|by right|done].
           intros x ->%list_elem_of_singleton. left.
        -- split; [done|]. exists [o]. split_and!; [done| |done|by right|done].
           intros x ->%list_elem_of_singleton. left.
      * specialize (IH S can order HS). destruct (start_round _ l S can order) as [[[r S'] can'] order'].
        destruct IH as (? & new & ? & Hsub & ? & ? & Hno). split; [done|]. exists new. split_and!; [done| |done..|].
        { intros x Hx. right. by apply Hsub. }
        intros Hnew. destruct (Hno Hnew) as (? & ? & Hw). split_and!; [done..|].
        intros x [->|Hx]%elem_of_cons; [right|by apply Hw].
        apply not_true_iff_false in Ef. rewrite forallb_forall in Ef.
        destruct (decide (Exists (fun d => d ∉ S) (ob_Dependencies o))) as [(d & ? & ?)%Exists_exists|Hne]; [by exists d|].
        exfalso. apply Ef. intros d Hd%list_elem_of_In. apply bool_decide_eq_true.
        destruct (decide (d ∈ S)); [done|]. exfalso. apply Hne, Exists_exists. by exists d.
Qed.


(** A failing starter's error is wrapped. *)
Lemma start_round_err l : forall S can order e S' can' order',
  start_round LegacyStart l S can order = (Err e, S', can', order') -> exists e' msg, e = ECause e' msg.
Proof.
  induction l as [|o l IH]; intros S can order e S' can' order' E; cbn [start_round] in E; [done|].
  case_bool_decide; [eauto|]. destruct (forallb _ _); [|eauto].
  destruct (LegacyStart o StartStateStart); [eauto|simplify_eq; eauto|done].
Qed.

Lemma start_round_ok l : (forall o, LegacyStart o StartStateStart = Ok tt) -> forall S can order,
  fst (fst (fst (start_round LegacyStart l S can order))) = Ok tt.
Proof.
  intros Hok. induction l as [|o l IH]; intros S can order; cbn [start_round]; [done|].
  case_bool_decide; [apply IH|]. destruct (forallb _ _); [|apply IH]. rewrite Hok. apply IH.
Qed.

(** The diagnosis is always an error. *)
Lemma lint_not_ok byTag S : forall fuel tree o, lintOutbound fuel byTag S tree o <> Ok tt.
Proof.
  induction fuel as [|fuel IH]; intros tree o; cbn [lintOutbound]; [done|].
  case_bool_decide; [done|]. destruct (byTag !! _); [apply IH|done].
Qed.

Lemma ordered_empty : ordered ∅ [].
Proof.
  split; [|constructor|by intros [] ? ? ?].
  intros t. rewrite elem_of_empty. split; [done|by intros ?%not_elem_of_nil].
Qed.

Lemma ordered_length S order l :
  ordered S order -> (forall o, o ∈ order -> o ∈ l) -> (length order <= length l)%nat.
Proof.
  intros [_ Hn _] Hsub. rewrite <- (length_map ob_Tag order), <- (length_map ob_Tag l).
  apply submseteq_length, NoDup_submseteq; [done|]. intros t (o & -> & Ho)%list_elem_of_fmap.
  by apply (list_elem_of_fmap_2 ob_Tag), Hsub.
Qed.

Lemma lint_terminates byTag S : forall fuel first rest o,
  NoDup rest -> (forall t, t ∈ rest -> is_Some (byTag !! t)) -> (size byTag < fuel + length rest)%nat ->
  lintOutbound fuel byTag S (first :: rest) o <> Err OutOfFuel.
Proof.
  induction fuel as [|fuel IH]; intros first rest o Hn Hsub Hf.
  - exfalso. assert (length rest <= size byTag)%nat; [|lia].
    rewrite <- size_dom, <- (size_list_to_set (C := gset string) rest) by done. apply subseteq_size.
    intros t Ht%elem_of_list_to_set. by apply elem_of_dom, Hsub.
  - cbn [lintOutbound]. case_bool_decide as Hin; [done|].
    destruct (byTag !! _) as [p|] eqn:E; [|done]. apply IH.
    + apply NoDup_app. split_and!; [done| |apply NoDup_singleton]. intros t Ht ->%list_elem_of_singleton.
      apply Hin. by right.
    + intros t [Ht| ->%list_elem_of_singleton]%elem_of_app; [by apply Hsub|by eexists].
    + rewrite length_app. cbn. lia.
Qed.

Section Loop.
Context (byTag : gmap string Outbound) (l : list Outbound).

Abbreviation loop fuel S order := (startOutbounds_loop LegacyStart fuel byTag l S order).

Lemma loop_terminates fuel : forall S order,
  ordered S order -> (forall o, o ∈ order -> o ∈ l) -> (length l < fuel + length order)%nat ->
  fst (loop fuel S order) <> Err OutOfFuel.
Proof.
  induction fuel as [|fuel IH]; intros S order HS Hsub Hf.
  { pose proof (ordered_length _ _ _ HS Hsub). lia. }
  cbn [startOutbounds_loop]. pose proof (start_round_spec l S false order HS) as Hr.
  destruct (start_round LegacyStart l S false order) as [[[r S'] can'] order'] eqn:E.
  destruct Hr as (HS' & new & -> & Hnew & Hc1 & Hc2 & Hno).
  destruct r as [u|e|s]; [| |done].
  - destruct (size S' =? length l)%nat; [done|]. destruct can'.
    + destruct (Hc2 eq_refl) as [|Hne]; [done|]. apply IH; [done| |].
      * intros o [?|?]%elem_of_app; auto.
      * rewrite length_app. destruct new; [done|]. cbn. lia.
    + destruct (List.find _ l); [|done]. cbn [fst]. apply lint_terminates; [constructor|by intros ? ?%not_elem_of_nil|cbn; lia].
  - cbn. apply start_round_err in E as (e' & msg & ->). done.
Qed.

(** A successful loop has started everything, in a valid order. *)
Lemma loop_sound fuel : forall S order order',
  ordered S order -> (forall o, o ∈ order -> o ∈ l) -> NoDup (map ob_Tag l) ->
  loop fuel S order = (Ok tt, order') -> order' ≡ₚ l /\ respects order'.
Proof.
  induction fuel as [|fuel IH]; intros S order order' HS Hsub Hn H; cbn [startOutbounds_loop] in H; [done|].
  pose proof (start_round_spec l S false order HS) as Hr.
  destruct (start_round LegacyStart l S false order) as [[[r S'] can'] order1].
  destruct Hr as (HS' & new & -> & Hnew & Hc1 & Hc2 & Hno). destruct r as [u|e|s]; [|done..].
  assert (forall o, o ∈ order ++ new -> o ∈ l) as Hsub' by (intros o [?|?]%elem_of_app; auto).
  destruct (Nat.eqb_spec (size S') (length l)) as [Hsz|].
  - simplify_eq. split; [|apply HS']. rewrite (ordered_size _ _ HS') in Hsz.
    apply submseteq_length_Permutation; [|lia]. apply NoDup_submseteq; [|done].
    eapply NoDup_fmap_1, (ord_nodup _ _ HS').
  - destruct can'; [by eapply IH|]. destruct (List.find _ l); [|done].
    injection H as H _. by apply lint_not_ok in H.
Qed.

(** If some order respects the dependencies, the loop never gets stuck. *)
Lemma loop_complete fuel valid : forall S order,
  valid ≡ₚ l -> respects valid -> NoDup (map ob_Tag l) ->
  (forall o, LegacyStart o StartStateStart = Ok tt) ->
  ordered S order -> (forall o, o ∈ order -> o ∈ l) -> (length l < fuel + length order)%nat ->
  fst (loop fuel S order) = Ok tt.
Proof.
  intros S order Hv Hresp Hn Hok. revert S order.
  induction fuel as [|fuel IH]; intros S order HS Hsub Hf.
  { pose proof (ordered_length _ _ _ HS Hsub). lia. }
  cbn [startOutbounds_loop]. pose proof (start_round_spec l S false order HS) as Hr.
  pose proof (start_round_ok l Hok S false order) as Hrok.
  destruct (start_round LegacyStart l S false order) as [[[r S'] can'] order1]. cbn in Hrok. subst r.
  destruct Hr as (HS' & new & -> & Hnew & Hc1 & Hc2 & Hno).
  assert (forall o, o ∈ order ++ new -> o ∈ l) as Hsub' by (intros o [?|?]%elem_of_app; auto).
  destruct (Nat.eqb_spec (size S') (length l)) as [|Hsz]; [done|]. destruct can'.
  - destruct (Hc2 eq_refl) as [|Hne]; [done|]. apply IH; [done..|]. rewrite length_app. destruct new; [done|]. cbn. lia.
  - exfalso. destruct new as [|x new]; [|by discriminate Hc1; right]. destruct (Hno eq_refl) as (-> & _ & Hwait).
    assert (exists v1 o v2, valid = v1 ++ o :: v2 /\ ob_Tag o ∉ S /\ forall x, x ∈ v1 -> ob_Tag x ∈ S) as (v1 & o & v2 & E & Ho & Hv1).
    { destruct (decide (Forall (fun o => ob_Tag o ∈ S) valid)) as [Hall|Hex].
      - exfalso. apply Hsz. rewrite (ordered_size _ _ HS'), app_nil_r.
        apply Nat.le_antisymm; [by eapply ordered_length|].
        rewrite <- (length_map ob_Tag l), <- (length_map ob_Tag order). apply submseteq_length, NoDup_submseteq; [done|].
        intros t (o & -> & Ho)%list_elem_of_fmap. apply (ord_tags _ _ HS). rewrite Forall_forall in Hall. apply Hall.
        by rewrite Hv.
      - clear -Hex. induction valid as [|y valid IHv]; [by destruct Hex|].
        destruct (decide (ob_Tag y ∈ S)) as [Hy|Hy].
        + destruct IHv as (v1 & o & v2 & -> & ? & Hv1).
          { intros Hall. apply Hex. by constructor. }
          exists (y :: v1), o, v2. split_and!; [done..|]. intros x [->|Hx]%elem_of_cons; auto.
        + exists [], y, valid. split_and!; [done..|by intros ? ?%not_elem_of_nil]. }
    destruct (Hwait o) as [|(d & Hd & HdS)]; [rewrite <- Hv, E; set_solver|done|].
    apply HdS. apply (Hresp _ _ _ E) in Hd. apply list_elem_of_fmap in Hd as (x & -> & Hx). by apply Hv1.
Qed.
End Loop.

End Rounds.

(** ** Properties *)

Section Reachable.
Context (LegacyStart : Outbound -> StartStage -> result unit).
Context (CloseOutbound : Outbound -> result unit).
Context (endpoint_Get : string -> option Outbound) (endpoint_Endpoints : list Outbound).

(** The operations on an open manager, in any order, failing or not. *)
Inductive step : Manager -> Manager -> Prop :=
| step_create tag created m :
    registered tag created -> step m (fst (Create LegacyStart CloseOutbound tag created m))
| step_remove tag m : step m (fst (Remove CloseOutbound tag m))
| step_start newStage fallback m :
    (forall o, fallback = Ok o -> ob_Dependencies o = [] /\ outboundByTag m !! ob_Tag o = None) ->
    step m (fst (fst (Start LegacyStart endpoint_Get endpoint_Endpoints newStage fallback m))).

Lemma step_Inv m m' : step m m' -> Inv m -> Inv m'.
Proof. intros [] HI; [by apply Create_Inv|by apply Remove_Inv|by apply Start_Inv]. Qed.

Lemma reachable_Inv tag m : rtc step (NewManager tag) m -> Inv m.
Proof.
  intros H. assert (Inv (NewManager tag)) as H0 by apply consistent_empty. revert H0.
  induction H as [|m1 m2 m3 Hs _ IH]; [done|]. intros H0. by apply IH, (step_Inv m1).
Qed.
End Reachable.

(** Whatever the sequence of creations, removals and starts, the slice, the
    tag map and the dependency map of the manager agree; so neither [Create] nor
    [Remove] reaches its "invalid inbound index" panic. *)
Theorem manager_consistent LegacyStart CloseOutbound endpoint_Get endpoint_Endpoints (defaultTag : string)
    (m : Manager) (tag : string) (created : result Outbound) :
  rtc (step LegacyStart CloseOutbound endpoint_Get endpoint_Endpoints) (NewManager defaultTag) m ->
  (forall o, is_panic (CloseOutbound o) = false) -> (forall o s, is_panic (LegacyStart o s) = false) ->
  is_panic created = false ->
  Inv m /\ is_panic (snd (Remove CloseOutbound tag m)) = false /\
  is_panic (snd (Create LegacyStart CloseOutbound tag created m)) = false.
Proof.
  intros Hm Hc Hs Hcr. apply reachable_Inv in Hm. split_and!; [done|by apply Remove_no_panic|by apply Create_no_panic].
Qed.

(** C34: removal respects dependents.  In a manager that is reached by any
    sequence of creations, removals and starts: an outbound that another one
    depends on stays, with an error and the state unchanged; any other one is
    removed, from the slice and from the tag map.  Provided no outbound was created
    that lists a dependency twice (see [duplicate_dependency_loses_users]), the
    outbound a start falls back to has no dependencies and a tag of its own, and
    the manager is not closed. *)
Theorem remove_respects_dependents LegacyStart CloseOutbound endpoint_Get endpoint_Endpoints (defaultTag : string)
    (tag : string) (m : Manager) (o : Outbound) :
  rtc (step LegacyStart CloseOutbound endpoint_Get endpoint_Endpoints) (NewManager defaultTag) m -> outboundByTag m !! tag = Some o ->
  let '(m', r) := Remove CloseOutbound tag m in
  if bool_decide (users tag (outbounds m) = [])
  then outbounds m ≡ₚ o :: outbounds m' /\ outboundByTag m' = delete tag (outboundByTag m) /\
       r = (if started m then CloseOutbound o else Ok tt)
  else m' = m /\ is_ok r = false /\ is_panic r = false.
Proof.
  intros HI%reachable_Inv E. unfold Remove. rewrite E. pose proof (inv_deps _ _ _ HI tag) as Hd.
  case_bool_decide as Hu.
  - rewrite Hu in Hd. apply Permutation_nil_r in Hd. rewrite Hd. cbn [length Nat.ltb Nat.leb].
    apply (inv_tags _ _ _ HI) in E as [Hin <-]. destruct (remove_first_elem o _ Hin) as [l Hl]. rewrite Hl.
    destruct (remove_first_Some _ _ _ Hl) as (l1 & l2 & -> & ->). cbn [set_dependByTag outbounds outboundByTag started].
    by destruct (decide _); cbn; split_and!; rewrite <- ?Permutation_middle.
  - destruct (Nat.ltb_spec 0 (length (dependents (dependByTag m) tag))) as [|Hl]; [done|].
    exfalso. apply Hu. assert (dependents (dependByTag m) tag = []) as Hn
      by by destruct (dependents (dependByTag m) tag); [|cbn in Hl; lia].
    rewrite Hn in Hd. symmetry in Hd. by apply Permutation_nil_r in Hd.
Qed.

(** When [startOutbounds] succeeds, every outbound was started exactly once, and
    after all its dependencies. *)
Theorem start_order_sound LegacyStart (byTag : gmap string Outbound) (l order : list Outbound) :
  NoDup (map ob_Tag l) -> startOutbounds LegacyStart byTag l = (Ok tt, order) -> order ≡ₚ l /\ respects order.
Proof.
  intros Hn H. eapply loop_sound; [apply ordered_empty| |done|exact H]. by intros ? ?%not_elem_of_nil.
Qed.

(** When the dependencies admit a start order and no outbound fails to start,
    [startOutbounds] succeeds, whatever the order of the configuration. *)
Theorem start_order_complete LegacyStart (byTag : gmap string Outbound) (l valid : list Outbound) :
  NoDup (map ob_Tag l) -> valid ≡ₚ l -> respects valid -> (forall o, LegacyStart o StartStateStart = Ok tt) ->
  fst (startOutbounds LegacyStart byTag l) = Ok tt.
Proof.
  intros Hn Hv Hr Hok. unfold startOutbounds. eapply loop_complete; try done; [apply ordered_empty| |cbn; lia].
  by intros ? ?%not_elem_of_nil.
Qed.

(** [startOutbounds] terminates on every configuration, circular or incomplete
    ones included: neither the start loop nor the search for the culprit
    exhausts its bound. *)
Theorem start_terminates LegacyStart (byTag : gmap string Outbound) (l : list Outbound) :
  fst (startOutbounds LegacyStart byTag l) <> Err OutOfFuel.
Proof. apply loop_terminates; [apply ordered_empty|by intros ? ?%not_elem_of_nil|cbn; lia]. Qed.

(** Without a configured default tag, replacing the default outbound by a new
    one of the same tag leaves the manager's default at the old outbound, which
    is no longer in the list (and is closed when the manager runs). *)
Theorem replaced_default_is_stale LegacyStart CloseOutbound (tag : string) (e o : Outbound) (m : Manager) :
  Inv m -> defaultTag m = "" -> outboundByTag m !! tag = Some e -> defaultOutbound m = Some e ->
  o <> e -> tag <> "" -> snd (Create LegacyStart CloseOutbound tag (Ok o) m) = Ok tt ->
  let m' := fst (Create LegacyStart CloseOutbound tag (Ok o) m) in
  defaultOutbound m' = Some e /\ e ∉ outbounds m' /\ outboundByTag m' !! tag = Some o.
Proof.
  intros HI Hdt He Hdef Hne Ht. unfold Create. destruct (String.eqb_spec tag ""); [done|].
  destruct (if started m then _ else _); [|cbn [snd]; by unfold fail_closing; destruct (CloseOutbound o)|done].
  rewrite He. pose proof He as [Hin <-]%(inv_tags _ _ _ HI). destruct (remove_first_elem e _ Hin) as [l Hl]. rewrite Hl.
  destruct (if started m then _ else _); cbn [bind_result]; [|done..]. intros _. cbn [fst set_outbounds set_dependByTag defaultTag].
  rewrite Hdt. destruct (String.eqb_spec (ob_Tag e) ""); [done|]. cbn [orb andb String.eqb].
  cbn [set_outbounds set_dependByTag defaultOutbound outbounds outboundByTag]. rewrite Hdef.
  rewrite bool_decide_eq_false_2 by done. cbn [set_outbounds set_dependByTag defaultOutbound outbounds outboundByTag].
  rewrite Hdef, lookup_insert_eq. split_and!; [done| |done].
  destruct (remove_first_Some _ _ _ Hl) as (l1 & l2 & Heq & ->). pose proof (inv_nodup _ _ _ HI) as Hn.
  rewrite Heq in Hn. apply NoDup_fmap_1 in Hn. rewrite NoDup_app, NoDup_cons in Hn. set_solver.
Qed.

(** [Close] keeps the tag map but drops the slice: removing any outbound
    nobody depends on from a closed manager panics. *)
Theorem remove_after_close_panics CloseOutbound (tag : string) (o : Outbound) (m : Manager) :
  started m = true -> outboundByTag m !! tag = Some o -> dependents (dependByTag m) tag = [] ->
  is_panic (snd (Remove CloseOutbound tag (fst (Close CloseOutbound m)))) = true.
Proof.
  intros Hs Ho Hd. unfold Close. rewrite Hs. cbn [negb fst]. unfold Remove.
  cbn [set_started set_outbounds outboundByTag dependByTag outbounds]. by rewrite Ho, Hd.
Qed.

(** ** Instances *)

(** Starting and closing always succeed. *)
Definition demoLegacyStart (o : Outbound) (s : StartStage) : result unit := Ok tt.
Definition demoClose (o : Outbound) : result unit := Ok tt.

Definition demoOutbound (id : nat) (tag : string) (deps : list string) : Outbound :=
  {| ob_id := id; ob_Type := "demo"; ob_Tag := tag; ob_Dependencies := deps |}.

Definition demoCreate (o : Outbound) (m : Manager) : Manager :=
  fst (Create demoLegacyStart demoClose (ob_Tag o) (Ok o) m).

Definition demoDirect : Outbound := demoOutbound 0 "direct" [].
Definition demoGroup : Outbound := demoOutbound 1 "group" ["direct"].

(** Two outbounds, the group created before its dependency. *)
Definition demoManager : Manager := demoCreate demoDirect (demoCreate demoGroup (NewManager "")).

Lemma demo_registered o : NoDup (ob_Dependencies o) -> registered (ob_Tag o) (Ok o).
Proof. intros H x [= <-]. done. Qed.

Lemma demoManager_reachable : rtc (step demoLegacyStart demoClose (fun _ => None) []) (NewManager "") demoManager.
Proof.
  eapply rtc_l; [apply (step_create _ _ _ _ (ob_Tag demoGroup) (Ok demoGroup)), demo_registered, NoDup_singleton|].
  eapply rtc_l; [apply (step_create _ _ _ _ (ob_Tag demoDirect) (Ok demoDirect)), demo_registered; constructor|].
  reflexivity.
Qed.

Lemma manager_consistent_witness :
  is_panic (snd (Create demoLegacyStart demoClose "direct" (Ok (demoOutbound 2 "direct" [])) demoManager)) = false.
Proof.
  refine (proj2 (proj2 (manager_consistent demoLegacyStart demoClose (fun _ => None) [] "" demoManager "direct" _ _ _ _ _)));
    [apply demoManager_reachable|done..].
Defined.

Lemma remove_respects_dependents_witness :
  is_ok (snd (Remove demoClose "direct" demoManager)) = false.
Proof.
  pose proof (remove_respects_dependents demoLegacyStart demoClose (fun _ => None) [] "" "direct" demoManager demoDirect
    demoManager_reachable eq_refl) as H.
  destruct (Remove demoClose "direct" demoManager) as [m' r].
  rewrite bool_decide_eq_false_2 in H by (vm_compute; discriminate). apply H.
Defined.

Lemma start_order_sound_witness :
  respects [demoDirect; demoGroup].
Proof.
  refine (proj2 (start_order_sound demoLegacyStart ∅ [demoGroup; demoDirect] _ _ _)); [|reflexivity].
  apply (bool_decide_unpack _). reflexivity.
Defined.

Lemma start_order_complete_witness :
  fst (startOutbounds demoLegacyStart ∅ [demoGroup; demoDirect]) = Ok tt.
Proof.
  apply (start_order_complete demoLegacyStart ∅ [demoGroup; demoDirect] [demoDirect; demoGroup]);
    [apply (bool_decide_unpack _); reflexivity|apply Permutation_swap| |done].
  intros l1 o l2 E d Hd. destruct l1 as [|x [|y l1]]; simplify_eq/=.
  - by apply not_elem_of_nil in Hd.
  - done.
  - by destruct l1.
Defined.

Lemma replaced_default_is_stale_witness :
  defaultOutbound (demoCreate (demoOutbound 3 "group" []) demoManager) = Some demoGroup.
Proof.
  refine (proj1 (replaced_default_is_stale demoLegacyStart demoClose "group" demoGroup (demoOutbound 3 "group" [])
    demoManager _ _ _ _ _ _ _)); [exact (reachable_Inv _ _ _ _ _ _ demoManager_reachable)|reflexivity..|discriminate|discriminate|reflexivity].
Defined.

Lemma remove_after_close_panics_witness :
  is_panic (snd (Remove demoClose "group" (fst (Close demoClose (set_started true StartStateStarted demoManager))))) = true.
Proof. apply (remove_after_close_panics demoClose "group" demoGroup); reflexivity. Defined.

(** Dependencies listed twice (a group may list a member twice) break the
    bookkeeping: after [t], which lists [d] twice, is removed, the manager has
    forgotten that [x] depends on [d], and lets [d] be removed. *)
Lemma duplicate_dependency_loses_users :
  let m := demoCreate (demoOutbound 2 "x" ["d"])
             (demoCreate (demoOutbound 1 "t" ["d"; "d"]) (demoCreate (demoOutbound 0 "d" []) (NewManager ""))) in
  let m' := fst (Remove demoClose "t" m) in
  users "d" (outbounds m') = ["x"] /\ dependents (dependByTag m') "d" = [] /\
  snd (Remove demoClose "d" m') = Ok tt.
Proof. vm_compute. split_and!; reflexivity. Qed.
