(* ===== verification/DnsTransport.v ===== *)
(** * The DNS transport manager (dns/transport_manager.go)

    The registry of DNS servers: creation, replacement, removal, default
    server, fake-IP server, dependency-ordered start.  It is written after
    the outbound manager, and a transport has what an outbound has: an
    identity, a type, a tag and the tags it depends on ([Outbound] of
    OutboundManager).

    As there, starting and closing a transport is the code of the protocol
    packages ([LegacyStart], [CloseTransport]), and the outcomes of the
    registry's constructor and of the fallback are arguments.

    [startTransports] repeats [startOutbounds] with other messages:
    [startTransports_erase] states that the two agree on the order of the
    starts and on success, which transfers the theorems on the order. *)
From Stdlib Require Import ZArith Lia Bool.
From S2P Require Import Prelude OutboundManager OutboundTheorems.

Abbreviation DNSTransport := Outbound (only parsing).

Definition DNSTypeFakeIP : string := "fakeip".

Definition isFakeIP (t : DNSTransport) : bool := String.eqb (ob_Type t) DNSTypeFakeIP.

Record TransportManager := mkTransportManager {
  tm_defaultTag : string;
  tm_started : bool;
  tm_stage : StartStage;
  transports : list DNSTransport;
  transportByTag : gmap string DNSTransport;
  tm_dependByTag : gmap string (list string);
  defaultTransport : option DNSTransport;
  fakeIPTransport : option DNSTransport;
}.

Definition NewTransportManager (tag : string) : TransportManager :=
  mkTransportManager tag false StartStateInitialize [] ∅ ∅ None None.

Definition tm_set_started (b : bool) (s : StartStage) (m : TransportManager) : TransportManager :=
  mkTransportManager (tm_defaultTag m) b s (transports m) (transportByTag m) (tm_dependByTag m)
    (defaultTransport m) (fakeIPTransport m).

Definition tm_set_transports (l : list DNSTransport) (byTag : gmap string DNSTransport) (m : TransportManager)
    : TransportManager :=
  mkTransportManager (tm_defaultTag m) (tm_started m) (tm_stage m) l byTag (tm_dependByTag m)
    (defaultTransport m) (fakeIPTransport m).

Definition tm_set_dependByTag (d : gmap string (list string)) (m : TransportManager) : TransportManager :=
  mkTransportManager (tm_defaultTag m) (tm_started m) (tm_stage m) (transports m) (transportByTag m) d
    (defaultTransport m) (fakeIPTransport m).

Definition tm_set_default (t : option DNSTransport) (m : TransportManager) : TransportManager :=
  mkTransportManager (tm_defaultTag m) (tm_started m) (tm_stage m) (transports m) (transportByTag m)
    (tm_dependByTag m) t (fakeIPTransport m).

Definition tm_set_fakeIP (t : option DNSTransport) (m : TransportManager) : TransportManager :=
  mkTransportManager (tm_defaultTag m) (tm_started m) (tm_stage m) (transports m) (transportByTag m)
    (tm_dependByTag m) (defaultTransport m) t.

Definition dns_name (t : DNSTransport) : string := "dns/" +:+ ob_Type t +:+ "[" +:+ ob_Tag t +:+ "]".

Definition ErrDefaultFakeIP : go_error := ENew "default server cannot be fakeip".

Section WithEnv.
Context (LegacyStart : DNSTransport -> StartStage -> result unit).
Context (CloseTransport : DNSTransport -> result unit).

(** ** Starting in dependency order *)

Fixpoint transport_round (l : list DNSTransport) (startedTags : gset string) (canContinue : bool)
    (order : list DNSTransport) : result unit * gset string * bool * list DNSTransport :=
  match l with
  | [] => (Ok tt, startedTags, canContinue, order)
  | transportToStart :: rest =>
      if bool_decide (ob_Tag transportToStart ∈ startedTags) then transport_round rest startedTags canContinue order
      else if forallb (fun dependency => bool_decide (dependency ∈ startedTags)) (ob_Dependencies transportToStart) then
        let startedTags := {[ob_Tag transportToStart]} ∪ startedTags in
        let order := order ++ [transportToStart] in
        match LegacyStart transportToStart StartStateStart with
        | Ok _ => transport_round rest startedTags true order
        | Err e => (Err (ECause e ("start " +:+ dns_name transportToStart)), startedTags, true, order)
        | Panic s => (Panic s, startedTags, true, order)
        end
      else transport_round rest startedTags canContinue order
  end.

Fixpoint lintTransport (fuel : nat) (byTag : gmap string DNSTransport) (startedTags : gset string)
    (oTree : list string) (oCurrent : DNSTransport) : result unit :=
  match fuel with
  | O => Err OutOfFuel
  | S fuel =>
      let problemTransportTag :=
        default "" (List.find (fun it => negb (bool_decide (it ∈ startedTags))) (ob_Dependencies oCurrent)) in
      if bool_decide (problemTransportTag ∈ oTree) then
        Err (ENew ("circular server dependency: " +:+ String.concat " -> " oTree +:+ " -> " +:+ problemTransportTag))
      else
        match byTag !! problemTransportTag with
        | None => Err (ENew ("dependency[" +:+ problemTransportTag +:+ "] not found for server[" +:+ ob_Tag oCurrent +:+ "]"))
        | Some problemTransport => lintTransport fuel byTag startedTags (oTree ++ [problemTransportTag]) problemTransport
        end
  end.

Fixpoint startTransports_loop (fuel : nat) (byTag : gmap string DNSTransport) (l : list DNSTransport)
    (startedTags : gset string) (order : list DNSTransport) : result unit * list DNSTransport :=
  match fuel with
  | O => (Err OutOfFuel, order)
  | S fuel =>
      match transport_round l startedTags false order with
      | (Ok _, startedTags, canContinue, order) =>
          if (size startedTags =? length l)%nat then (Ok tt, order)
          else if canContinue then startTransports_loop fuel byTag l startedTags order
          else match List.find (fun it => negb (bool_decide (ob_Tag it ∈ startedTags))) l with
               | None => (Panic "invalid memory address or nil pointer dereference", order)
               | Some currentTransport =>
                   (lintTransport (size byTag + 1) byTag startedTags [ob_Tag currentTransport] currentTransport, order)
               end
      | (Err e, _, _, order) => (Err e, order)
      | (Panic s, _, _, order) => (Panic s, order)
      end
  end.

Definition startTransports (byTag : gmap string DNSTransport) (l : list DNSTransport)
    : result unit * list DNSTransport :=
  startTransports_loop (S (length l)) byTag l ∅ [].

Fixpoint transport_start_all (stage : StartStage) (l : list DNSTransport) (order : list DNSTransport)
    : result unit * list DNSTransport :=
  match l with
  | [] => (Ok tt, order)
  | transport :: rest =>
      match LegacyStart transport stage with
      | Ok _ => transport_start_all stage rest (order ++ [transport])
      | Err e => (Err (ECause e (stage_String stage +:+ " " +:+ dns_name transport)), order ++ [transport])
      | Panic s => (Panic s, order ++ [transport])
      end
  end.

(** ** Operations *)

Definition TransportManager_Start (newStage : StartStage) (fallback : result DNSTransport) (m : TransportManager)
    : TransportManager * result unit * list DNSTransport :=
  if tm_started m && (stage_number newStage <=? stage_number (tm_stage m)) then (m, Panic "already started", [])
  else
    let m := tm_set_started true newStage m in
    if decide (newStage = StartStateStart) then
      if negb (String.eqb (tm_defaultTag m) "") && bool_decide (defaultTransport m = None) then
        (m, Err (ENew ("default DNS server not found: " +:+ tm_defaultTag m)), [])
      else
        let withDefault :=
          match defaultTransport m with
          | Some _ => Ok m
          | None =>
              let* transport := with_cause "default DNS server fallback" fallback in
              Ok (tm_set_default (Some transport)
                    (tm_set_transports (transports m ++ [transport])
                       (<[ob_Tag transport := transport]> (transportByTag m)) m))
          end in
        match withDefault with
        | Err e => (m, Err e, [])
        | Panic s => (m, Panic s, [])
        | Ok m =>
            let '(r, order) := startTransports (transportByTag m) (transports m) in
            (m, r, order)
        end
    else
      let '(r, order) := transport_start_all newStage (transports m) [] in
      (m, r, order).

Fixpoint transport_close_all (l : list DNSTransport) (err : option go_error) : result unit :=
  match l with
  | [] => match err with None => Ok tt | Some e => Err e end
  | transport :: rest =>
      match CloseTransport transport with
      | Ok _ => transport_close_all rest err
      | Err e =>
          let e := ECause e ("close server/" +:+ ob_Type transport +:+ "[" +:+ ob_Tag transport +:+ "]") in
          transport_close_all rest (Some (match err with None => e | Some e0 => EErrors e0 e end))
      | Panic s => Panic s
      end
  end.

Definition TransportManager_Close (m : TransportManager) : TransportManager * result unit :=
  if negb (tm_started m) then (m, Ok tt)
  else
    let l := transports m in
    (tm_set_started false (tm_stage m) (tm_set_transports [] (transportByTag m) m), transport_close_all l None).

Definition Transport (m : TransportManager) (tag : string) : option DNSTransport := transportByTag m !! tag.
Definition DefaultTransport (m : TransportManager) : option DNSTransport := defaultTransport m.
Definition FakeIP (m : TransportManager) : option DNSTransport := fakeIPTransport m.

(** [Remove]: the transport is unregistered first; the two error returns
    after that keep it unregistered.  The error of closing it is dropped. *)
Definition TransportManager_Remove (tag : string) (m : TransportManager) : TransportManager * result unit :=
  match transportByTag m !! tag with
  | None => (m, Err ErrInvalid)
  | Some transport =>
      match remove_first transport (transports m) with
      | None => (tm_set_transports (transports m) (delete tag (transportByTag m)) m, Panic "invalid inbound index")
      | Some l =>
          let m := tm_set_transports l (delete tag (transportByTag m)) m in
          let withDefault :=
            if decide (defaultTransport m = Some transport) then
              match l with
              | nextTransport :: _ =>
                  if negb (isFakeIP nextTransport) then Err ErrDefaultFakeIP
                  else Ok (tm_set_default (Some nextTransport) m)
              | [] => Ok (tm_set_default None m)
              end
            else Ok m in
          match withDefault with
          | Err e => (m, Err e)
          | Panic s => (m, Panic s)
          | Ok m =>
              let dependBy := dependents (tm_dependByTag m) tag in
              if (0 <? length dependBy)%nat then
                (m, Err (ENew ("server[" +:+ tag +:+ "] is depended by " +:+ String.concat ", " dependBy)))
              else
                let m := tm_set_dependByTag
                           (fold_left (removeDependency tag) (ob_Dependencies transport) (tm_dependByTag m)) m in
                (m, if tm_started m
                    then match CloseTransport transport with Panic s => Panic s | _ => Ok tt end
                    else Ok tt)
          end
      end
  end.

Fixpoint transport_start_stages (transport : DNSTransport) (stages : list StartStage) : result unit :=
  match stages with
  | [] => Ok tt
  | s :: rest =>
      let* _ := with_cause (stage_String s +:+ " " +:+ dns_name transport) (LegacyStart transport s) in
      transport_start_stages transport rest
  end.

(** [Create]: the new transport is registered before the last checks. *)
Definition TransportManager_Create (tag : string) (created : result DNSTransport) (m : TransportManager)
    : TransportManager * result unit :=
  if String.eqb tag "" then (m, Err ErrInvalid)
  else
    match (let* transport := created in
           let* _ := if tm_started m then transport_start_stages transport ListStartStages else Ok tt in
           let* l :=
             match transportByTag m !! tag with
             | None => Ok (transports m)
             | Some existsTransport =>
                 let* _ := if tm_started m
                           then with_cause ("close " +:+ dns_name existsTransport) (CloseTransport existsTransport)
                           else Ok tt in
                 match remove_first existsTransport (transports m) with
                 | None => Panic "invalid inbound index"
                 | Some l => Ok l
                 end
             end in
           Ok (transport, l)) with
    | Err e => (m, Err e)
    | Panic s => (m, Panic s)
    | Ok (transport, l) =>
        let m := tm_set_transports (l ++ [transport]) (<[tag := transport]> (transportByTag m)) m in
        let m := tm_set_dependByTag (addDependencies tag (ob_Dependencies transport) (tm_dependByTag m)) m in
        let isDefault := String.eqb tag (tm_defaultTag m)
                         || (String.eqb (tm_defaultTag m) "" && bool_decide (defaultTransport m = None)) in
        if isDefault && isFakeIP transport then (m, Err ErrDefaultFakeIP)
        else
          let m := if isDefault then tm_set_default (Some transport) m else m in
          if isFakeIP transport then
            match fakeIPTransport m with
            | Some _ => (m, Err (ENew "multiple fakeip server are not supported"))
            | None => (tm_set_fakeIP (Some transport) m, Ok tt)
            end
          else (m, Ok tt)
    end.

End WithEnv.

(** ** The start order, by comparison with the outbound manager *)

(** Outcomes that differ in their error messages only. *)
Definition same_outcome (r1 r2 : result unit) : Prop :=
  match r1, r2 with
  | Ok _, Ok _ => True
  | Err e1, Err e2 => e1 = OutOfFuel <-> e2 = OutOfFuel
  | Panic s1, Panic s2 => s1 = s2
  | _, _ => False
  end.

Section Erase.
Context (LegacyStart : DNSTransport -> StartStage -> result unit).

Lemma transport_round_erase l : forall S can order,
  let '(r1, S1, can1, order1) := transport_round LegacyStart l S can order in
  let '(r2, S2, can2, order2) := start_round LegacyStart l S can order in
  same_outcome r1 r2 /\ S1 = S2 /\ can1 = can2 /\ order1 = order2.
Proof.
  induction l as [|t l IH]; intros S can order; cbn [transport_round start_round]; [done|].
  case_bool_decide; [apply IH|]. destruct (forallb _ _); [|apply IH].
  destruct (LegacyStart t StartStateStart); [apply IH|done..].
Qed.

Lemma lintTransport_erase byTag S : forall fuel tree t,
  same_outcome (lintTransport fuel byTag S tree t) (lintOutbound fuel byTag S tree t).
Proof.
  induction fuel as [|fuel IH]; intros tree t; cbn [lintTransport lintOutbound]; [done|].
  case_bool_decide; [done|]. destruct (byTag !! _); [apply IH|done].
Qed.

Lemma startTransports_loop_erase byTag l : forall fuel S order,
  same_outcome (fst (startTransports_loop LegacyStart fuel byTag l S order))
               (fst (startOutbounds_loop LegacyStart fuel byTag l S order)) /\
  snd (startTransports_loop LegacyStart fuel byTag l S order) = snd (startOutbounds_loop LegacyStart fuel byTag l S order).
Proof.
  induction fuel as [|fuel IH]; intros S order; cbn [startTransports_loop startOutbounds_loop]; [done|].
  pose proof (transport_round_erase l S false order) as H.
  destruct (transport_round _ _ _ _ _) as [[[r1 S1] can1] order1].
  destruct (start_round _ _ _ _ _) as [[[r2 S2] can2] order2]. destruct H as (Hr & -> & -> & ->).
  destruct r1, r2; try done. destruct (size S2 =? length l)%nat; [done|]. destruct can2; [apply IH|].
  destruct (List.find _ l); [|done]. split; [apply lintTransport_erase|done].
Qed.

Lemma startTransports_erase byTag l :
  same_outcome (fst (startTransports LegacyStart byTag l)) (fst (startOutbounds LegacyStart byTag l)) /\
  snd (startTransports LegacyStart byTag l) = snd (startOutbounds LegacyStart byTag l).
Proof. apply startTransports_loop_erase. Qed.
End Erase.

(** ** The registry *)

Lemma agree_lookup l byTag tag t : agree l byTag -> byTag !! tag = Some t -> ob_Tag t = tag /\ t ∈ l.
Proof. intros [Ht _] H. apply Ht in H. tauto. Qed.

Lemma agree_remove_first l byTag tag t l' :
  agree l byTag -> byTag !! tag = Some t -> remove_first t l = Some l' -> agree l' (delete tag byTag) /\ t ∉ l'.
Proof.
  intros Ha Hl Hr. destruct (agree_lookup _ _ _ _ Ha Hl) as [<- _].
  apply remove_first_Some in Hr as (l1 & l2 & -> & ->). pose proof (agree_remove l1 t l2 byTag Ha) as Ha'.
  split; [done|]. intros Hin. assert (delete (ob_Tag t) byTag !! ob_Tag t = Some t) as Hd by (by apply Ha').
  by rewrite lookup_delete_eq in Hd.
Qed.

Section Registry.
Context (LegacyStart : DNSTransport -> StartStage -> result unit).
Context (CloseTransport : DNSTransport -> result unit).

Definition Registered (m : TransportManager) : Prop := agree (transports m) (transportByTag m).

Lemma Remove_Registered tag m : Registered m -> Registered (fst (TransportManager_Remove CloseTransport tag m)).
Proof.
  intros Ha. unfold TransportManager_Remove. destruct (transportByTag m !! tag) as [t|] eqn:El; [|done].
  destruct (agree_lookup _ _ _ _ Ha El) as [_ Hin]. destruct (remove_first_elem _ _ Hin) as [l Er]. rewrite Er.
  destruct (agree_remove_first _ _ _ _ _ Ha El Er) as [Ha' _]. unfold Registered.
  repeat (case_match; subst; cbn in *; simplify_eq; try done).
Qed.

Lemma Create_Registered tag created m :
  (forall t, created = Ok t -> ob_Tag t = tag) -> Registered m ->
  Registered (fst (TransportManager_Create LegacyStart CloseTransport tag created m)).
Proof.
  intros Htag Ha. unfold TransportManager_Create. destruct (String.eqb tag ""); [done|].
  destruct (let* _ := created in _) as [[t l]| |] eqn:E; [|done..].
  assert (agree (l ++ [t]) (<[tag := t]> (transportByTag m))) as Hnew.
  { apply bind_is_Ok in E as (t' & -> & E). specialize (Htag t' eq_refl).
    apply bind_is_Ok in E as (_ & _ & E). apply bind_is_Ok in E as (l' & El & [= -> ->]).
    destruct (transportByTag m !! tag) as [x|] eqn:Ex.
    - apply bind_is_Ok in El as (_ & _ & El). destruct (remove_first x (transports m)) as [l1|] eqn:Er; [|done].
      injection El as ->. destruct (agree_remove_first _ _ _ _ _ Ha Ex Er) as [Ha' _].
      rewrite <- insert_delete_eq, <- Htag. apply agree_add; [by rewrite Htag|]. by rewrite Htag, lookup_delete_eq.
    - injection El as <-. rewrite <- Htag. apply agree_add; [done|]. by rewrite Htag. }
  unfold Registered. repeat (case_match; subst; cbn in *; simplify_eq; try done).
Qed.

Lemma Start_Registered newStage fallback m :
  (forall t, fallback = Ok t -> transportByTag m !! ob_Tag t = None) -> Registered m ->
  Registered (fst (fst (TransportManager_Start LegacyStart newStage fallback m))).
Proof.
  intros Hf Ha. unfold TransportManager_Start. destruct (_ && _); [done|].
  destruct (decide (newStage = StartStateStart)); [|by destruct (transport_start_all _ _ _ _)].
  cbn [tm_set_started tm_defaultTag defaultTransport transports transportByTag]. destruct (negb _ && _); [done|].
  destruct (defaultTransport m); [by destruct (startTransports _ _ _)|].
  destruct fallback as [t| |]; [|done..]. cbn [with_cause bind_result].
  destruct (startTransports _ _ _). apply agree_add; [done|]. by apply Hf.
Qed.

(** The operations on an open manager, in any order, failing or not. *)
Inductive tstep : TransportManager -> TransportManager -> Prop :=
| tstep_create tag created m :
    (forall t, created = Ok t -> ob_Tag t = tag) ->
    tstep m (fst (TransportManager_Create LegacyStart CloseTransport tag created m))
| tstep_remove tag m : tstep m (fst (TransportManager_Remove CloseTransport tag m))
| tstep_start newStage fallback m :
    (forall t, fallback = Ok t -> transportByTag m !! ob_Tag t = None) ->
    tstep m (fst (fst (TransportManager_Start LegacyStart newStage fallback m))).

Lemma tsteps_Registered m m' : rtc tstep m m' -> Registered m -> Registered m'.
Proof.
  induction 1 as [|m1 m2 m3 H _ IH]; [done|]. intros Ha. apply IH.
  destruct H; [by apply Create_Registered|by apply Remove_Registered|by apply Start_Registered].
Qed.

Lemma Registered_empty tag : Registered (NewTransportManager tag).
Proof. exact (consistent_agree _ _ _ consistent_empty). Qed.
End Registry.

(** ** Theorems *)

(** The DNS server registry stays consistent under every sequence of
    creations, replacements, removals and starts, the failing ones included:
    the list and the tag map hold the same transports, one per tag. *)
Theorem transport_registry_consistent LegacyStart CloseTransport (tag : string) (m : TransportManager) :
  rtc (tstep LegacyStart CloseTransport) (NewTransportManager tag) m ->
  NoDup (map ob_Tag (transports m)) /\
  forall t x, Transport m t = Some x <-> x ∈ transports m /\ ob_Tag x = t.
Proof.
  intros H. destruct (tsteps_Registered _ _ _ _ H (Registered_empty tag)) as [Ht Hn]. by split.
Qed.

(** The DNS servers start like the outbounds: the start always ends; when it
    succeeds every server was started once, after its dependencies; and it
    succeeds whenever the dependencies admit an order and no server fails. *)
Theorem transports_start_in_order LegacyStart (byTag : gmap string DNSTransport) (l : list DNSTransport) :
  NoDup (map ob_Tag l) ->
  let '(r, order) := startTransports LegacyStart byTag l in
  r <> Err OutOfFuel /\ (r = Ok tt -> order ≡ₚ l /\ respects order) /\
  (forall valid, valid ≡ₚ l -> respects valid -> (forall t, LegacyStart t StartStateStart = Ok tt) -> r = Ok tt).
Proof.
  intros Hn. destruct (startTransports_erase LegacyStart byTag l) as [Hr Ho].
  pose proof (fun H => loop_terminates LegacyStart byTag l (S (length l)) ∅ [] ordered_empty H) as Hterm.
  pose proof (fun H o => loop_sound LegacyStart byTag l (S (length l)) ∅ [] o ordered_empty H Hn) as Hsound.
  pose proof (fun v Hv Hr Hl H => loop_complete LegacyStart byTag l (S (length l)) v ∅ [] Hv Hr Hn Hl ordered_empty H) as Hcomp.
  fold (startOutbounds LegacyStart byTag l) in Hterm, Hsound, Hcomp. destruct (startTransports LegacyStart byTag l) as [r order].
  destruct (startOutbounds LegacyStart byTag l) as [r2 order2]. cbn in Hr, Ho, Hterm, Hcomp. subst order2.
  assert (forall o : Outbound, o ∈ [] -> o ∈ l) as Hnil by (by intros ? ?%not_elem_of_nil).
  specialize (Hterm Hnil ltac:(lia)). split_and!.
  - intros ->. destruct r2 as [|e|]; [done| |done]. apply Hterm. f_equal. by apply Hr.
  - intros ->. destruct r2 as [[]| |]; [|done..]. by apply Hsound.
  - intros valid Hv Hres Hl. specialize (Hcomp valid Hv Hres Hl Hnil ltac:(lia)). subst r2. by destruct r as [[]| |].
Qed.

(** Removing the default DNS server picks its successor the wrong way round:
    when the next server is an ordinary one the call fails with "default server
    cannot be fakeip", after the server was unregistered, and the manager's
    default stays the removed server; when the next server is the fake-IP
    server, it becomes the default. *)
Theorem remove_default_transport CloseTransport (tag : string) (t next : DNSTransport) (rest : list DNSTransport)
    (m : TransportManager) :
  Registered m -> transportByTag m !! tag = Some t -> defaultTransport m = Some t ->
  remove_first t (transports m) = Some (next :: rest) ->
  let '(m', r) := TransportManager_Remove CloseTransport tag m in
  Transport m' tag = None /\ t ∉ transports m' /\
  (if isFakeIP next then DefaultTransport m' = Some next
   else r = Err ErrDefaultFakeIP /\ DefaultTransport m' = Some t).
Proof.
  intros Ha Hl Hd Hr. destruct (agree_remove_first _ _ _ _ _ Ha Hl Hr) as [_ Hnot].
  unfold TransportManager_Remove, Transport, DefaultTransport. rewrite Hl, Hr.
  cbn [tm_set_transports defaultTransport]. rewrite decide_True by done.
  destruct (isFakeIP next); cbn [negb].
  - destruct (0 <? _)%nat; cbn; rewrite lookup_delete_eq; by split_and!.
  - cbn. rewrite lookup_delete_eq. by split_and!.
Qed.

(** Removing a DNS server that others depend on reports the dependents but
    unregisters the server all the same, without closing it (the outcome does
    not depend on what closing would do). *)
Theorem remove_depended_transport CloseTransport (tag : string) (t : DNSTransport) (m : TransportManager) :
  Registered m -> transportByTag m !! tag = Some t -> defaultTransport m <> Some t ->
  dependents (tm_dependByTag m) tag <> [] ->
  let '(m', r) := TransportManager_Remove CloseTransport tag m in
  is_ok r = false /\ is_panic r = false /\ Transport m' tag = None /\ t ∉ transports m' /\
  tm_dependByTag m' = tm_dependByTag m /\
  forall CloseTransport', TransportManager_Remove CloseTransport' tag m = (m', r).
Proof.
  intros Ha Hl Hd Hdep. destruct (agree_lookup _ _ _ _ Ha Hl) as [_ Hin].
  destruct (remove_first_elem _ _ Hin) as [l Hr]. destruct (agree_remove_first _ _ _ _ _ Ha Hl Hr) as [_ Hnot].
  unfold TransportManager_Remove, Transport. rewrite Hl, Hr. cbn [tm_set_transports defaultTransport tm_dependByTag].
  rewrite decide_False by done.
  change (tm_dependByTag (tm_set_transports l (delete tag (transportByTag m)) m)) with (tm_dependByTag m).
  destruct (dependents (tm_dependByTag m) tag) as [|u us]; [done|].
  change (0 <? length (u :: us))%nat with true. cbv iota beta. split_and!; try done. apply lookup_delete_eq.
Qed.

(** ** Witnesses *)

Definition demoDNS : TransportManager :=
  fst (TransportManager_Create demoLegacyStart demoClose "doh" (Ok (demoOutbound 1 "doh" ["local"]))
    (fst (TransportManager_Create demoLegacyStart demoClose "local" (Ok (demoOutbound 0 "local" []))
      (NewTransportManager "doh")))).

Lemma demoDNS_reachable : rtc (tstep demoLegacyStart demoClose) (NewTransportManager "doh") demoDNS.
Proof. eapply rtc_l; [|apply rtc_once]; apply tstep_create; by intros t [= <-]. Qed.

Lemma transport_registry_consistent_witness : NoDup (map ob_Tag (transports demoDNS)).
Proof. apply (transport_registry_consistent demoLegacyStart demoClose "doh" demoDNS). apply demoDNS_reachable. Defined.

Lemma transports_start_in_order_witness :
  snd (startTransports demoLegacyStart ∅ [demoGroup; demoDirect]) ≡ₚ [demoGroup; demoDirect].
Proof.
  assert (NoDup (map ob_Tag [demoGroup; demoDirect])) as Hn.
  { apply NoDup_cons. split; [|apply NoDup_singleton]. by intros ?%list_elem_of_singleton. }
  pose proof (transports_start_in_order demoLegacyStart ∅ [demoGroup; demoDirect] Hn) as H.
  destruct (startTransports demoLegacyStart ∅ [demoGroup; demoDirect]) as [r order] eqn:E.
  destruct H as (_ & H & _). apply H. vm_compute in E. by injection E as <- _.
Defined.

Lemma demoDNS_Registered : Registered demoDNS.
Proof. eapply tsteps_Registered; [apply demoDNS_reachable|apply Registered_empty]. Qed.

Lemma remove_default_transport_witness :
  snd (TransportManager_Remove demoClose "doh" demoDNS) = Err ErrDefaultFakeIP.
Proof.
  pose proof (remove_default_transport demoClose "doh" (demoOutbound 1 "doh" ["local"]) (demoOutbound 0 "local" []) []
    demoDNS demoDNS_Registered ltac:(by vm_compute) ltac:(by vm_compute) ltac:(by vm_compute)) as H.
  destruct (TransportManager_Remove demoClose "doh" demoDNS) as [m' r]. cbn in H. by destruct H as (_ & _ & -> & _).
Defined.

Lemma remove_depended_transport_witness :
  Transport (fst (TransportManager_Remove demoClose "local" demoDNS)) "local" = None.
Proof.
  pose proof (remove_depended_transport demoClose "local" (demoOutbound 0 "local" []) demoDNS demoDNS_Registered
    ltac:(by vm_compute) ltac:(by vm_compute) ltac:(by vm_compute)) as H.
  destruct (TransportManager_Remove demoClose "local" demoDNS) as [m' r]. cbn in H. by destruct H as (_ & _ & H & _).
Defined.
