(* ===== verification/RouteMatch.v ===== *)
(** * Selecting the rule of a connection (route/route.go, [Router.matchRule])

    [matchRule] completes the metadata of a connection (process, neighbor,
    fake-IP or reverse-mapped domain, IP version), then walks the route rules:
    a matching rule applies its route options, runs its sniff or resolve
    action, and ends the walk when its action is final.

    The services consulted are arguments: the process searcher and the
    neighbor resolver, the fake-IP store, the reverse DNS mapping, and the two
    actions that do I/O on the connection: [actionResolve] as a function of the
    metadata, [actionSniff] as a function of the metadata and of what has been
    peeked from the connection, a type [peek] that RouteSniff instantiates with
    the connection, the buffers and the sniffing state; [release] drops the
    buffers when the walk fails.  [RouteMetadata] is the [InboundContext]
    of Metadata, which the rules read, with the fields only the route options
    write.

    [Rule.Match] writes the match cache of the metadata it is given
    ([Rule_Match_mut] returns it); the theorem on the first match shows that
    this does not leak into the evaluation of the following rules. *)
From Stdlib Require Import ZArith Lia Bool.
From S2P Require Import Prelude GoIO Metadata RuleItem MatchState RuleEngine RuleTheorems HeadlessRule DemoEnv.

(** [R.RuleActionRouteOptions]; durations in nanoseconds. *)
Record RuleActionRouteOptions := mkRouteOptions {
  OverrideAddress : Socksaddr;
  OverridePort : Z;
  opt_NetworkStrategy : option Z;
  opt_NetworkType : list Z;
  opt_FallbackNetworkType : list Z;
  opt_FallbackDelay : Z;
  opt_UDPDisableDomainUnmapping : bool;
  opt_UDPConnect : bool;
  opt_UDPTimeout : Z;
  opt_TLSFragment : bool;
  opt_TLSFragmentFallbackDelay : Z;
  opt_TLSRecordFragment : bool;
  opt_TLSSpoof : string;
  opt_TLSSpoofMethod : Z;
}.

(** The sniffers of common/sniff, by name. *)
Inductive Sniffer :=
| TLSClientHello | HTTPHost | QUICClientHello | StreamDomainNameQuery | DomainNameQuery | STUNMessage
| BitTorrent | UTP | UDPTracker | DTLSRecord | SSH | RDP | NTP.

(** [R.RuleActionSniff]; OverrideDestination is never set. *)
Record SniffAction := mkSniffAction {
  SnifferNames : list string;
  StreamSniffers : list Sniffer;
  PacketSniffers : list Sniffer;
  sniff_Timeout : Z;
}.

(** [R.RuleActionResolve]. *)
Record ResolveAction := mkResolveAction {
  resolve_Server : string;
  resolve_Timeout : Z;
  resolve_Strategy : Z;
  resolve_DisableCache : bool;
  resolve_DisableOptimisticCache : bool;
  resolve_RewriteTTL : option Z;
  resolve_ClientSubnet : Prefix;
}.

(** The actions of route rules ([adapter.RuleAction]). *)
Inductive RuleAction :=
| RuleActionRoute (outbound : string) (options : RuleActionRouteOptions)
| RuleActionOptions (options : RuleActionRouteOptions)
| RuleActionBypass (outbound : string) (options : RuleActionRouteOptions)
| RuleActionDirect
| RuleActionReject (method : string) (noDrop : bool)
| RuleActionHijackDNS
| RuleActionSniff (action : SniffAction)
| RuleActionResolve (action : ResolveAction).

Definition RuleAction_Type (a : RuleAction) : string :=
  match a with
  | RuleActionRoute _ _ => "route"
  | RuleActionOptions _ => "route-options"
  | RuleActionBypass _ _ => "bypass"
  | RuleActionDirect => "direct"
  | RuleActionReject _ _ => "reject"
  | RuleActionHijackDNS => "hijack-dns"
  | RuleActionSniff _ => "sniff"
  | RuleActionResolve _ => "resolve"
  end.

Definition NetworkICMP : string := "icmp".

Definition noSocksaddr : Socksaddr := mkSocksaddr AddrInvalid 0 "".

Record RouteMetadata := mkRouteMetadata {
  rm_context : InboundContext;
  OriginDestination : Socksaddr;
  RouteOriginalDestination : Socksaddr;
  rm_FakeIP : bool;
  NetworkStrategy : option Z;
  rm_NetworkType : list Z;
  FallbackNetworkType : list Z;
  FallbackDelay : Z;
  UDPDisableDomainUnmapping : bool;
  UDPConnect : bool;
  UDPTimeout : Z;
  TLSFragment : bool;
  TLSFragmentFallbackDelay : Z;
  TLSRecordFragment : bool;
  TLSSpoof : string;
  TLSSpoofMethod : Z;
}.

(** A record update of the metadata the rules read. *)
Definition set_context (c : InboundContext) (m : RouteMetadata) : RouteMetadata :=
  mkRouteMetadata c (OriginDestination m) (RouteOriginalDestination m) (rm_FakeIP m) (NetworkStrategy m)
    (rm_NetworkType m) (FallbackNetworkType m) (FallbackDelay m) (UDPDisableDomainUnmapping m) (UDPConnect m)
    (UDPTimeout m) (TLSFragment m) (TLSFragmentFallbackDelay m) (TLSRecordFragment m) (TLSSpoof m) (TLSSpoofMethod m).

(** The fields of [InboundContext] that [matchRule] writes. *)
Definition update (processInfo : option ConnectionOwner) (mac : option (list byte)) (hostname domain : string)
    (ipVersion : Z) (destination : Socksaddr) (addresses : list Addr) (c : InboundContext) : InboundContext :=
  {| Inbound := Inbound c; IPVersion := ipVersion; Network := Network c; Source := Source c;
     Destination := destination; User := User c; Outbound := Outbound c; Protocol := Protocol c;
     Domain := domain; Client := Client c; DestinationAddresses := addresses;
     DNSResponse := DNSResponse c;
     DestinationAddressMatchFromResponse := DestinationAddressMatchFromResponse c;
     ProcessInfo := processInfo; SourceMACAddress := mac;
     SourceHostname := hostname; QueryType := QueryType c;
     IPCIDRMatchSource := IPCIDRMatchSource c; IPCIDRAcceptEmpty := IPCIDRAcceptEmpty c;
     SourceAddressMatch := SourceAddressMatch c; SourcePortMatch := SourcePortMatch c;
     DestinationAddressMatch := DestinationAddressMatch c; DestinationPortMatch := DestinationPortMatch c;
     DidMatch := DidMatch c; IgnoreDestinationIPCIDRMatch := IgnoreDestinationIPCIDRMatch c |}.

Definition set_Destination (destination : Socksaddr) (addresses : list Addr) (c : InboundContext) : InboundContext :=
  update (ProcessInfo c) (SourceMACAddress c) (SourceHostname c) (Domain c) (IPVersion c) destination addresses c.

Definition set_Domain (domain : string) (c : InboundContext) : InboundContext :=
  update (ProcessInfo c) (SourceMACAddress c) (SourceHostname c) domain (IPVersion c) (Destination c)
    (DestinationAddresses c) c.

Definition set_IPVersion (version : Z) (c : InboundContext) : InboundContext :=
  update (ProcessInfo c) (SourceMACAddress c) (SourceHostname c) (Domain c) version (Destination c)
    (DestinationAddresses c) c.

Definition set_Source (processInfo : option ConnectionOwner) (mac : option (list byte)) (hostname : string)
    (c : InboundContext) : InboundContext :=
  update processInfo mac hostname (Domain c) (IPVersion c) (Destination c) (DestinationAddresses c) c.

(** The services of the router. *)
Record Services := mkServices {
  searchProcess : InboundContext -> option ConnectionOwner;
  neighborResolver : option ((Addr -> option (list byte)) * (Addr -> option string));
  fakeIPStore : option ((Addr -> bool) * (Addr -> option string));
  LookupReverseMapping : Addr -> option string;
  Socksaddr_IsValid : Socksaddr -> bool;
  Socksaddr_IsIPv4 : Socksaddr -> bool;
}.

Section WithEnv.
Context `{GE : GoEnv} (rt : RuntimeState) (services : Services).
Context {peek : Type} (actionSniff : SniffAction -> RouteMetadata -> peek -> RouteMetadata * peek * result unit).
Context (actionResolve : ResolveAction -> RouteMetadata -> RouteMetadata * result unit) (release : peek -> peek).

(** A route rule: the rule tree and the action, nil when none was configured. *)
Record RouteRule := mkRouteRule { rr_rule : Rule; rr_action : option RuleAction }.

(** ** Completing the metadata *)

Definition searchProcessInfo (c : InboundContext) : InboundContext :=
  match ProcessInfo c with
  | Some _ => c
  | None =>
      match searchProcess services c with
      | None => c
      | Some info => set_Source (Some info) (SourceMACAddress c) (SourceHostname c) c
      end
  end.

Definition resolveNeighbor (c : InboundContext) : InboundContext :=
  match neighborResolver services, SourceMACAddress c with
  | Some (lookupMAC, lookupHostname), None =>
      let source := Socksaddr_Addr (Source c) in
      if Addr_IsValid source then
        let mac := match lookupMAC source with Some mac => Some mac | None => SourceMACAddress c end in
        let hostname := match lookupHostname source with Some hostname => hostname | None => SourceHostname c end in
        set_Source (ProcessInfo c) mac hostname c
      else c
  | _, _ => c
  end.

Definition set_FakeIP (domain : string) (m : RouteMetadata) : RouteMetadata :=
  let c := rm_context m in
  mkRouteMetadata
    (set_Destination (mkSocksaddr AddrInvalid (Socksaddr_Port (Destination c)) domain) (DestinationAddresses c) c)
    (Destination c) (RouteOriginalDestination m) true (NetworkStrategy m) (rm_NetworkType m) (FallbackNetworkType m)
    (FallbackDelay m) (UDPDisableDomainUnmapping m) (UDPConnect m) (UDPTimeout m) (TLSFragment m)
    (TLSFragmentFallbackDelay m) (TLSRecordFragment m) (TLSSpoof m) (TLSSpoofMethod m).

(** The fake-IP or reverse-mapped domain; the error is fatal. *)
Definition lookupDomain (m : RouteMetadata) : RouteMetadata * result unit :=
  let c := rm_context m in
  let address := Socksaddr_Addr (Destination c) in
  let reverse :=
    if String.eqb (Domain c) "" then
      match LookupReverseMapping services address with
      | Some domain => set_context (set_Domain domain c) m
      | None => m
      end
    else m in
  match fakeIPStore services with
  | Some (contains, lookup) =>
      if Addr_IsValid address && contains address then
        match lookup address with
        | None => (m, Err (ENew "missing fakeip record, try enable `experimental.cache_file`"))
        | Some domain => if String.eqb domain "" then (m, Ok tt) else (set_FakeIP domain m, Ok tt)
        end
      else (reverse, Ok tt)
  | None => (reverse, Ok tt)
  end.

Definition setIPVersion (c : InboundContext) : InboundContext :=
  if Socksaddr_IsIPv4 services (Destination c) then set_IPVersion 4 c
  else if Socksaddr_IsIPv6 (Destination c) then set_IPVersion 6 c
  else c.

Definition prepareMatch (m : RouteMetadata) : RouteMetadata * result unit :=
  let m := set_context (resolveNeighbor (searchProcessInfo (rm_context m))) m in
  let '(m, r) := lookupDomain m in
  (if is_ok r then set_context (setIPVersion (rm_context m)) m else m, r).

(** ** Route options *)

Definition override (o : RuleActionRouteOptions) (m : RouteMetadata) : RouteMetadata :=
  let c := rm_context m in
  let validAddress := Socksaddr_IsValid services (OverrideAddress o) in
  let original :=
    if (validAddress || (0 <? OverridePort o)) && negb (Socksaddr_IsValid services (RouteOriginalDestination m))
    then Destination c else RouteOriginalDestination m in
  let c :=
    if validAddress then
      set_Destination (mkSocksaddr (Socksaddr_Addr (OverrideAddress o)) (Socksaddr_Port (Destination c))
                         (Socksaddr_Fqdn (OverrideAddress o))) [] c
    else c in
  let c :=
    if 0 <? OverridePort o then
      set_Destination (mkSocksaddr (Socksaddr_Addr (Destination c)) (OverridePort o) (Socksaddr_Fqdn (Destination c)))
        (DestinationAddresses c) c
    else c in
  mkRouteMetadata c (OriginDestination m) original (rm_FakeIP m) (NetworkStrategy m) (rm_NetworkType m)
    (FallbackNetworkType m) (FallbackDelay m) (UDPDisableDomainUnmapping m) (UDPConnect m) (UDPTimeout m)
    (TLSFragment m) (TLSFragmentFallbackDelay m) (TLSRecordFragment m) (TLSSpoof m) (TLSSpoofMethod m).

Definition applyRouteOptions (o : RuleActionRouteOptions) (m : RouteMetadata) : RouteMetadata :=
  let m := override o m in
  mkRouteMetadata (rm_context m) (OriginDestination m) (RouteOriginalDestination m) (rm_FakeIP m)
    (match opt_NetworkStrategy o with Some strategy => Some strategy | None => NetworkStrategy m end)
    (if nonempty (opt_NetworkType o) then opt_NetworkType o else rm_NetworkType m)
    (if nonempty (opt_FallbackNetworkType o) then opt_FallbackNetworkType o else FallbackNetworkType m)
    (if opt_FallbackDelay o =? 0 then FallbackDelay m else opt_FallbackDelay o)
    (opt_UDPDisableDomainUnmapping o || UDPDisableDomainUnmapping m)
    (opt_UDPConnect o || UDPConnect m)
    (if 0 <? opt_UDPTimeout o then opt_UDPTimeout o else UDPTimeout m)
    (opt_TLSFragment o || TLSFragment m)
    (if opt_TLSFragment o then opt_TLSFragmentFallbackDelay o else TLSFragmentFallbackDelay m)
    (opt_TLSRecordFragment o || TLSRecordFragment m)
    (if String.eqb (opt_TLSSpoof o) "" then TLSSpoof m else opt_TLSSpoof o)
    (if String.eqb (opt_TLSSpoof o) "" then TLSSpoofMethod m else opt_TLSSpoofMethod o).

(** The options an action carries; those of a bypass without outbound are not used. *)
Definition action_options (a : RuleAction) : option RuleActionRouteOptions :=
  match a with
  | RuleActionRoute _ options => Some options
  | RuleActionOptions options => Some options
  | RuleActionBypass outbound options => if String.eqb outbound "" then None else Some options
  | _ => None
  end.

(** ** The walk *)

(** [Rule.Match] with the metadata it leaves behind. *)
Definition Rule_Match_mut (rule : Rule) (c : InboundContext) : bool * InboundContext :=
  match rule with
  | DefaultRule r ruleSetItem =>
      let '(stateSet, c) := default_matchStatesWithBase rt r (evalItem rt ruleSetItem) c 0 in
      (negb (isEmpty stateSet), c)
  | LogicalRule _ _ _ => (Rule_Match rt rule c, c)
  end.

(** What an action does after its route options were applied: go on, or stop
    with this rule selected. *)
Inductive verdict := V_Continue | V_Select.

Definition runAction (preMatch supportBypass : bool) (a : RuleAction) (m : RouteMetadata) (buffers : peek)
    : RouteMetadata * peek * result verdict :=
  match a with
  | RuleActionSniff action =>
      if negb preMatch then
        let '(m, buffers, r) := actionSniff action m buffers in
        (m, buffers, let* _ := r in Ok V_Continue)
      else if negb (String.eqb (Network (rm_context m)) NetworkICMP) then (m, buffers, Ok V_Select)
      else (m, buffers, Ok V_Continue)
  | RuleActionResolve action =>
      let '(m, r) := actionResolve action m in
      (m, buffers, let* _ := r in Ok V_Continue)
  | RuleActionRoute _ _ | RuleActionReject _ _ | RuleActionHijackDNS => (m, buffers, Ok V_Select)
  | RuleActionBypass outbound _ =>
      (m, buffers, Ok (if negb supportBypass && String.eqb outbound "" then V_Continue else V_Select))
  | RuleActionDirect | RuleActionOptions _ => (m, buffers, Ok V_Continue)
  end.

Fixpoint matchRule_loop (preMatch supportBypass : bool) (index : nat) (rules : list RouteRule) (m : RouteMetadata)
    (buffers : peek) : RouteMetadata * peek * result (option (nat * RouteRule)) :=
  match rules with
  | [] => (m, buffers, Ok None)
  | currentRule :: rest =>
      let '(matched, c) := Rule_Match_mut (rr_rule currentRule) (ResetRuleCache (rm_context m)) in
      let m := set_context c m in
      if negb matched then matchRule_loop preMatch supportBypass (S index) rest m buffers
      else
        match rr_action currentRule with
        | None => (m, buffers, Panic "invalid memory address or nil pointer dereference")
        | Some action =>
            let m := match action_options action with Some o => applyRouteOptions o m | None => m end in
            match runAction preMatch supportBypass action m buffers with
            | (m, buffers, Ok V_Continue) => matchRule_loop preMatch supportBypass (S index) rest m buffers
            | (m, buffers, Ok V_Select) => (m, buffers, Ok (Some (index, currentRule)))
            | (m, buffers, Err e) => (m, release buffers, Err e)
            | (m, buffers, Panic s) => (m, buffers, Panic s)
            end
        end
  end.

Definition matchRule (preMatch supportBypass : bool) (rules : list RouteRule) (m : RouteMetadata) (buffers : peek)
    : RouteMetadata * peek * result (option (nat * RouteRule)) :=
  match prepareMatch m with
  | (m, Err e) => (m, release buffers, Err e)
  | (m, Panic s) => (m, buffers, Panic s)
  | (m, Ok _) => matchRule_loop preMatch supportBypass 0 rules m buffers
  end.

End WithEnv.

(** ** What a rule leaves in the metadata *)

Section Lemmas.
Context `{GE : GoEnv} (rt : RuntimeState).

Lemma Rule_Match_mut_spec rule c : exists d, Rule_Match_mut rt rule c = (Rule_Match rt rule c, set_DidMatch d c).
Proof.
  destruct rule as [r o|mode rules inverted]; cbn [Rule_Match_mut].
  - destruct (default_leaves_DidMatch rt r (evalItem rt o) c 0) as [d Hd]. exists d.
    unfold Rule_Match, matchStates. rewrite eval_DefaultRule.
    destruct (default_matchStatesWithBase _ _ _ _ _). cbn in *. by subst.
  - exists (DidMatch c). by rewrite set_DidMatch_id.
Qed.

Lemma ResetRuleCache_left d c : ResetRuleCache (set_DidMatch d (ResetRuleCache c)) = ResetRuleCache c.
Proof. reflexivity. Qed.
End Lemmas.

(** ** Selection *)

(** Actions that end the walk whatever the caller supports. *)
Definition terminal (a : option RuleAction) : bool :=
  match a with
  | Some (RuleActionRoute _ _) | Some (RuleActionReject _ _) | Some RuleActionHijackDNS => true
  | Some (RuleActionBypass outbound _) => negb (String.eqb outbound "")
  | _ => false
  end.

(** Actions a rule can be selected for. *)
Definition selectable (preMatch supportBypass : bool) (a : option RuleAction) : bool :=
  match a with
  | Some (RuleActionBypass outbound _) => supportBypass || negb (String.eqb outbound "")
  | Some (RuleActionSniff _) => preMatch
  | a => terminal a
  end.

Section Selection.
Context `{GE : GoEnv} (rt : RuntimeState) (services : Services).
Context {peek : Type} (actionSniff : SniffAction -> RouteMetadata -> peek -> RouteMetadata * peek * result unit).
Context (actionResolve : ResolveAction -> RouteMetadata -> RouteMetadata * result unit) (release : peek -> peek).
Context (preMatch supportBypass : bool).

Abbreviation loop := (matchRule_loop rt services actionSniff actionResolve release preMatch supportBypass).

(** The first rule, from [index] on, that matches the connection. *)
Fixpoint firstMatch (index : nat) (rules : list RouteRule) (c : InboundContext) : option (nat * RouteRule) :=
  match rules with
  | [] => None
  | rule :: rest =>
      if Rule_Match rt (rr_rule rule) (ResetRuleCache c) then Some (index, rule) else firstMatch (S index) rest c
  end.

Lemma runAction_terminal a m buffers :
  terminal (Some a) = true -> runAction actionSniff actionResolve preMatch supportBypass a m buffers = (m, buffers, Ok V_Select).
Proof.
  destruct a as [| |outbound options| | | | |]; cbn [terminal runAction]; try done. destruct (String.eqb outbound ""); [done|].
  by rewrite andb_false_r.
Qed.

Lemma loop_firstMatch rules : forall index m c buffers,
  forallb (fun r => terminal (rr_action r)) rules = true ->
  ResetRuleCache (rm_context m) = ResetRuleCache c ->
  snd (loop index rules m buffers) = Ok (firstMatch index rules c) /\ snd (fst (loop index rules m buffers)) = buffers.
Proof.
  induction rules as [|rule rules IH]; intros index m c buffers Ht Hc; [done|].
  cbn [forallb] in Ht. apply andb_true_iff in Ht as [Ht Hts]. cbn [matchRule_loop firstMatch].
  destruct (Rule_Match_mut_spec rt (rr_rule rule) (ResetRuleCache (rm_context m))) as [d ->].
  rewrite Hc. destruct (Rule_Match rt (rr_rule rule) (ResetRuleCache c)); cbn [negb]; [|by apply IH].
  destruct (rr_action rule) as [a|]; [|done]. by rewrite runAction_terminal.
Qed.

Lemma runAction_selects a m buffers m' buffers' :
  runAction actionSniff actionResolve preMatch supportBypass a m buffers = (m', buffers', Ok V_Select) ->
  selectable preMatch supportBypass (Some a) = true.
Proof.
  destruct a as [| |outbound options| | | |names|server]; cbn [runAction selectable]; try done.
  - intros [= _ _ H]. destruct supportBypass, (String.eqb outbound ""); done.
  - destruct preMatch; [done|]. cbn [negb]. destruct (actionSniff names m buffers) as [[m1 b1] []]; by intros [=].
  - destruct (actionResolve server m) as [m1 []]; by intros [=].
Qed.

Lemma loop_selected rules : forall index m buffers k rule,
  snd (loop index rules m buffers) = Ok (Some (k, rule)) ->
  selectable preMatch supportBypass (rr_action rule) = true /\ (index <= k)%nat /\ rules !! (k - index)%nat = Some rule.
Proof.
  induction rules as [|rule rules IH]; intros index m buffers k sel H; [done|]. cbn [matchRule_loop] in H.
  assert (forall m buffers, snd (loop (S index) rules m buffers) = Ok (Some (k, sel)) ->
    selectable preMatch supportBypass (rr_action sel) = true /\ (index <= k)%nat /\ (rule :: rules) !! (k - index)%nat = Some sel) as Hgo.
  { intros m1 b1 (Hs & Hk & Hl)%IH. split_and!; [done|lia|]. replace (k - index)%nat with (S (k - S index)) by lia. done. }
  destruct (Rule_Match_mut rt (rr_rule rule) _) as [[] c]; cbn [negb] in H; [|by eapply Hgo].
  destruct (rr_action rule) as [a|] eqn:Ea; [|done].
  destruct (runAction _ _ _ _ a _ _) as [[m1 b1] [[]| |]] eqn:Er; [by eapply Hgo| |done|done].
  injection H as <- <-. rewrite Ea. split_and!; [by eapply runAction_selects|lia|]. by rewrite Nat.sub_diag.
Qed.

End Selection.

(** ** Theorems *)

(** C33: with final actions only, the rule selected for a connection is the first
    one, in the order of the configuration, that matches the connection as it
    was completed (process, neighbor, domain, IP version); what the evaluation
    of the earlier rules left in the metadata plays no part. *)
Theorem route_first_match_wins `{GE : GoEnv} (rt : RuntimeState) (services : Services) {peek : Type} (actionSniff : SniffAction -> RouteMetadata -> peek -> _) actionResolve release
    (preMatch supportBypass : bool) (rules : list RouteRule) (m : RouteMetadata) (buffers : peek) :
  forallb (fun r => terminal (rr_action r)) rules = true ->
  let '(_, _, r) := matchRule rt services actionSniff actionResolve release preMatch supportBypass rules m buffers in
  match prepareMatch services m with
  | (prepared, Ok _) => r = Ok (firstMatch rt 0 rules (rm_context prepared))
  | (_, Err e) => r = Err e
  | (_, Panic s) => r = Panic s
  end.
Proof.
  intros Ht. unfold matchRule. destruct (prepareMatch services m) as [prepared [|e|s]]; [|done..].
  destruct (loop_firstMatch rt services actionSniff actionResolve release preMatch supportBypass rules 0 prepared
              (rm_context prepared) buffers Ht eq_refl) as [H _].
  destruct (matchRule_loop _ _ _ _ _ _ _ _ _ _ _) as [[m' b] r]. exact H.
Qed.

(** A rule is selected only for a route, reject or hijack-dns action, for a
    bypass the caller supports or that names an outbound, or for a sniff action
    in the pre-match; it is the rule at the returned index.  In particular a
    rule with the action "direct", which the configuration accepts, is never
    selected. *)
Theorem selected_action_is_final `{GE : GoEnv} (rt : RuntimeState) (services : Services) {peek : Type} (actionSniff : SniffAction -> RouteMetadata -> peek -> _) actionResolve release
    (preMatch supportBypass : bool) (rules : list RouteRule) (m : RouteMetadata) (buffers : peek) (k : nat) (rule : RouteRule) :
  snd (matchRule rt services actionSniff actionResolve release preMatch supportBypass rules m buffers) = Ok (Some (k, rule)) ->
  rules !! k = Some rule /\ selectable preMatch supportBypass (rr_action rule) = true
  /\ rr_action rule <> Some RuleActionDirect.
Proof.
  unfold matchRule. destruct (prepareMatch services m) as [prepared [|e|s]]; [|done..].
  intros (Hs & _ & Hl)%loop_selected. rewrite Nat.sub_0_r in Hl. split_and!; [done..|]. by intros Hd; rewrite Hd in Hs.
Qed.

(** ** Witnesses *)

Definition noOptions : RuleActionRouteOptions :=
  mkRouteOptions noSocksaddr 0 None [] [] 0 false false 0 false 0 false "" 0.

Definition demoRoute (c : InboundContext) : RouteMetadata :=
  mkRouteMetadata c noSocksaddr noSocksaddr false None [] [] 0 false false 0 false 0 false "" 0.

Definition demoServices : Services :=
  mkServices (fun _ => None) None None (fun _ => None) (fun a => Addr_IsValid (Socksaddr_Addr a))
    (fun a => Addr_Is4 (Socksaddr_Addr a)).

Definition demoRules : list RouteRule := [
  mkRouteRule (DefaultRule (demoPortRule 80) None) (Some RuleActionHijackDNS);
  mkRouteRule (DefaultRule (demoRule false) None) (Some (RuleActionRoute "proxy" noOptions));
  mkRouteRule (LogicalRule LogicalTypeOr [DefaultRule (demoPortRule 443) None] false) (Some (RuleActionReject "" false))
].

Definition demoSelected : result (option (nat * RouteRule)) :=
  snd (matchRule demoRuntime demoServices (fun _ m p => (m, p, Ok tt)) (fun _ m => (m, Ok tt)) id false true demoRules
         (demoRoute (demoConnection "www.example.org")) tt).

Definition selected_index (r : result (option (nat * RouteRule))) : option nat :=
  match r with Ok (Some (k, _)) => Some k | _ => None end.

Definition demoPrepared : RouteMetadata :=
  fst (prepareMatch demoServices (demoRoute (demoConnection "www.example.org"))).

Lemma demo_prepared :
  prepareMatch demoServices (demoRoute (demoConnection "www.example.org")) = (demoPrepared, Ok tt).
Proof. reflexivity. Qed.

Lemma demo_first : selected_index (Ok (firstMatch demoRuntime 0 demoRules (rm_context demoPrepared))) = Some 1%nat.
Proof. by_compute. Qed.

Lemma route_first_match_wins_witness : selected_index demoSelected = Some 1%nat.
Proof.
  pose proof (route_first_match_wins demoRuntime demoServices (fun _ m p => (m, p, Ok tt)) (fun _ m => (m, Ok tt)) id false true
    demoRules (demoRoute (demoConnection "www.example.org")) tt eq_refl) as H.
  rewrite demo_prepared in H. unfold demoSelected.
  destruct (matchRule _ _ _ _ _ _ _ _ _ _) as [[m' b] r]. cbn [snd]. rewrite H. apply demo_first.
Defined.

Lemma demo_selected :
  selected_index
    (snd (matchRule demoRuntime demoServices (fun _ m p => (m, p, Ok tt)) (fun _ m => (m, Ok tt)) id false true demoRules
            (demoRoute (demoConnection "www.example.org")) tt)) = Some 1%nat.
Proof. by_compute. Qed.

Lemma selected_action_is_final_witness :
  exists rule, demoRules !! 1%nat = Some rule /\ selectable false true (rr_action rule) = true.
Proof.
  pose proof demo_selected as Hi.
  pose proof (selected_action_is_final demoRuntime demoServices (fun _ m p => (m, p, Ok tt)) (fun _ m => (m, Ok tt)) id false true
    demoRules (demoRoute (demoConnection "www.example.org")) tt 1%nat) as H.
  destruct (matchRule _ _ _ _ _ _ _ _ _ _) as [[m' b] [[[k rule]|]| |]]; [|discriminate Hi..].
  cbn [snd selected_index] in Hi. injection Hi as ->.
  destruct (H rule eq_refl) as (H1 & H2 & _). exists rule. exact (conj H1 H2).
Defined.
