(* ===== verification/RouteSniff.v ===== *)
(** * Sniffing and resolving in the router (route/route.go)

    [actionSniff] and [actionResolve], the two rule actions that do I/O, and
    [matchRule] with them.  A connection is the list of what it does when it is
    read ([ReadEvent] of Sniff for streams, [PacketEvent] for packets); [Peek]
    is what a walk over the rules keeps beside the metadata the rules read: the
    connection, the buffers peeked so far, and the fields [SnifferNames],
    [SniffError] and [SniffContext] of the metadata.

    Name resolution is a parameter: the registry of DNS servers and the lookup
    of the DNS router (modelled in DnsTransport and DnsRouter). *)
From Stdlib Require Import ZArith Lia Bool.
From S2P Require Import Prelude GoIO DnsMsg Ja3 Quic QuicTheorems Sniff SniffTheorems Metadata RuleItem MatchState RuleEngine RuleTheorems HeadlessRule DemoEnv RouteMatch.

Record Packet := mkPacket { pb_Buffer : list byte; pb_Destination : Socksaddr }.

(** What reading a packet ends with; a connection without further events is at its end. *)
Inductive PacketEvent :=
| PacketArrives (packet : Packet)
| PacketTimeout (e : go_error)
| PacketFails (e : go_error)
| ContextDone (e : go_error).

Inductive InputConn := StreamConn (events : list ReadEvent) | PacketConn (events : list PacketEvent) | NoConn.

Record Peek := mkPeek {
  pk_names : list string;                          (* metadata.SnifferNames *)
  pk_error : option go_error;                      (* metadata.SniffError *)
  pk_context : option (list qCryptoFragment);      (* metadata.SniffContext *)
  pk_conn : InputConn;
  pk_buffers : list (list byte);
  pk_packets : list Packet;
}.

Definition newPeek (conn : InputConn) : Peek := mkPeek [] None None conn [] [].

(** The fields of the metadata that the sniffers write. *)
Definition set_Sniffed (protocol domain client : string) (c : InboundContext) : InboundContext :=
  {| Inbound := Inbound c; IPVersion := IPVersion c; Network := Network c; Source := Source c;
     Destination := Destination c; User := User c; Outbound := Outbound c; Protocol := protocol;
     Domain := domain; Client := client; DestinationAddresses := DestinationAddresses c;
     DNSResponse := DNSResponse c;
     DestinationAddressMatchFromResponse := DestinationAddressMatchFromResponse c;
     ProcessInfo := ProcessInfo c; SourceMACAddress := SourceMACAddress c;
     SourceHostname := SourceHostname c; QueryType := QueryType c;
     IPCIDRMatchSource := IPCIDRMatchSource c; IPCIDRAcceptEmpty := IPCIDRAcceptEmpty c;
     SourceAddressMatch := SourceAddressMatch c; SourcePortMatch := SourcePortMatch c;
     DestinationAddressMatch := DestinationAddressMatch c; DestinationPortMatch := DestinationPortMatch c;
     DidMatch := DidMatch c; IgnoreDestinationIPCIDRMatch := IgnoreDestinationIPCIDRMatch c |}.

Definition sniffData (m : RouteMetadata) (p : Peek) : SniffData :=
  mkSniffData (Protocol (rm_context m)) (Domain (rm_context m)) (Client (rm_context m)) (pk_context p).

Definition storeSniffed (d : SniffData) (m : RouteMetadata) : RouteMetadata :=
  set_context (set_Sniffed (s_Protocol d) (s_Domain d) (s_Client d) (rm_context m)) m.

(** [buf.ReleaseMulti(buffers)] and the same for the packets. *)
Definition release (p : Peek) : Peek := mkPeek (pk_names p) (pk_error p) (pk_context p) (pk_conn p) [] [].

Section Sniffing.
Context `{SE : SniffEnv} `{QC : QuicCrypto}.

Definition streamSniffer (s : Sniffer) : option StreamSniffer :=
  match s with
  | TLSClientHello => Some Sniff.TLSClientHello
  | HTTPHost => Some Sniff.HTTPHost
  | StreamDomainNameQuery => Some Sniff.StreamDomainNameQuery
  | BitTorrent => Some Sniff.BitTorrent
  | SSH => Some Sniff.SSH
  | RDP => Some Sniff.RDP
  | _ => None
  end.

Definition packetSniffer (s : Sniffer) : option PacketSniffer :=
  match s with
  | DomainNameQuery => Some Sniff.DomainNameQuery
  | QUICClientHello => Some Quic.QUICClientHello
  | STUNMessage => Some Sniff.STUNMessage
  | UTP => Some Sniff.UTP
  | UDPTracker => Some Sniff.UDPTracker
  | DTLSRecord => Some Sniff.DTLSRecord
  | NTP => Some Sniff.NTP
  | _ => None
  end.

(** The sniffers of an action that names none. *)
Definition defaultStreamSniffers : list Sniffer := [TLSClientHello; HTTPHost; StreamDomainNameQuery; BitTorrent; SSH; RDP].
Definition defaultPacketSniffers : list Sniffer := [DomainNameQuery; QUICClientHello; STUNMessage; UTP; UDPTracker; DTLSRecord; NTP].

Definition streamSniffers (action : SniffAction) : list StreamSniffer :=
  omap streamSniffer (if nonempty (StreamSniffers action) then StreamSniffers action else defaultStreamSniffers).

Definition packetSniffers (action : SniffAction) : list PacketSniffer :=
  omap packetSniffer (if nonempty (PacketSniffers action) then PacketSniffers action else defaultPacketSniffers).

(** The same sniffers already failed for good. *)
Definition failedBefore (action : SniffAction) (p : Peek) : bool :=
  bool_decide (pk_names p = SnifferNames action)
  && match pk_error p with Some e => negb (needs_more_data e) | None => false end.

(** ** Streams *)

Definition sniffStream (action : SniffAction) (m : RouteMetadata) (p : Peek) (events : list ReadEvent)
    : RouteMetadata * Peek * option (list byte) * result unit :=
  match PeekStream (streamSniffers action) (pk_buffers p) events (sniffData m p) with
  | (d, buffer, rest, Panic s) => (m, p, None, Panic s)
  | (d, buffer, rest, r) =>
      (storeSniffed d m,
       mkPeek (SnifferNames action) (match r with Err e => Some e | _ => None end) (s_Context d) (StreamConn rest) (pk_buffers p) (pk_packets p),
       if nonempty buffer then Some buffer else None, Ok tt)
  end.

(** ** Packets *)

(** The part of the metadata that the packet loops write. *)
Record PacketState := mkPacketState { ps_data : SniffData; ps_names : list string; ps_error : option go_error }.

(** A fragmented QUIC hello is being collected. *)
Definition quicMoreData (action : SniffAction) (st : PacketState) : bool :=
  bool_decide (ps_names st = SnifferNames action)
  && match ps_error st with Some e => needs_more_data e | None => false end.

Definition sniffPacket (action : SniffAction) (packet : list byte) (st : PacketState) : PacketState * result unit :=
  let sniffers := if quicMoreData action st then [Quic.QUICClientHello] else packetSniffers action in
  let '(d, r) := PeekPacket packet (ps_data st) sniffers in
  (mkPacketState d (SnifferNames action) (match r with Err e => Some e | _ => None end), r).

Definition wants_more (r : result unit) : bool := match r with Err e => needs_more_data e | _ => false end.

(** The loop over the packets of earlier actions; [true]: the loop was left with "goto finally". *)
Fixpoint sniffBuffered (action : SniffAction) (packets : list Packet) (st : PacketState) : PacketState * result bool :=
  match packets with
  | [] => (st, Ok false)
  | packet :: rest =>
      let '(st, r) := sniffPacket action (pb_Buffer packet) st in
      match r with
      | Panic s => (st, Panic s)
      | _ => if wants_more r then sniffBuffered action rest st else (st, Ok true)
      end
  end.

(** The loop that reads packets. *)
Fixpoint sniffArriving (action : SniffAction) (events : list PacketEvent) (st : PacketState) (packetBuffers : list Packet)
    : PacketState * list PacketEvent * list Packet * result unit :=
  match events with
  | [] => (st, [], packetBuffers, Err EOF)
  | ContextDone e :: rest => (st, rest, packetBuffers, Err e)
  | PacketFails e :: rest => (st, rest, packetBuffers, Err e)
  | PacketTimeout _ :: rest => (st, rest, packetBuffers, Ok tt)
  | PacketArrives packet :: rest =>
      let '(st, r) := sniffPacket action (pb_Buffer packet) st in
      let packetBuffers := packetBuffers ++ [packet] in
      match r with
      | Panic s => (st, rest, packetBuffers, Panic s)
      | _ => if wants_more r then sniffArriving action rest st packetBuffers else (st, rest, packetBuffers, Ok tt)
      end
  end.

Definition sniffPacketConn (action : SniffAction) (m : RouteMetadata) (p : Peek) (events : list PacketEvent)
    : RouteMetadata * Peek * list Packet * result unit :=
  let store st events := (storeSniffed (ps_data st) m,
    mkPeek (ps_names st) (ps_error st) (s_Context (ps_data st)) (PacketConn events) (pk_buffers p) (pk_packets p)) in
  match sniffBuffered action (pk_packets p) (mkPacketState (sniffData m p) (pk_names p) (pk_error p)) with
  | (st, Panic s) => (store st events, [], Panic s)
  | (st, Err e) => (store st events, [], Err e)
  | (st, Ok true) => (store st events, [], Ok tt)
  | (st, Ok false) =>
      let '(st, rest, packetBuffers, r) := sniffArriving action events st (pk_packets p) in
      (store st rest, packetBuffers, r)
  end.

(** The new buffer, the new packets, and the fatal error. *)
Definition actionSniff (action : SniffAction) (m : RouteMetadata) (p : Peek)
    : RouteMetadata * Peek * option (list byte) * list Packet * result unit :=
  if Skip (Socksaddr_Port (Destination (rm_context m))) then (m, p, None, [], Ok tt)
  else if negb (String.eqb (Protocol (rm_context m)) "") then (m, p, None, [], Ok tt)
  else match pk_conn p with
  | StreamConn events =>
      if (negb (nonempty (StreamSniffers action)) && nonempty (PacketSniffers action)) || failedBefore action p then (m, p, None, [], Ok tt)
      else let '(m, p, newBuffer, r) := sniffStream action m p events in (m, p, newBuffer, [], r)
  | PacketConn events =>
      if (negb (nonempty (PacketSniffers action)) && nonempty (StreamSniffers action)) || failedBefore action p then (m, p, None, [], Ok tt)
      else let '(m, p, newPackets, r) := sniffPacketConn action m p events in (m, p, None, newPackets, r)
  | NoConn => (m, p, None, [], Ok tt)
  end.

Definition add_buffer (buffer : list byte) (p : Peek) : Peek :=
  mkPeek (pk_names p) (pk_error p) (pk_context p) (pk_conn p) (pk_buffers p ++ [buffer]) (pk_packets p).
Definition add_packets (packets : list Packet) (p : Peek) : Peek :=
  mkPeek (pk_names p) (pk_error p) (pk_context p) (pk_conn p) (pk_buffers p) (pk_packets p ++ packets).

(** The case of [matchRule] for a sniff action. *)
Definition sniffStep (action : SniffAction) (m : RouteMetadata) (p : Peek) : RouteMetadata * Peek * result unit :=
  let '(m, p, newBuffer, newPacketBuffers, r) := actionSniff action m p in
  (m, match newBuffer with
      | Some buffer => add_buffer buffer p
      | None => if nonempty newPacketBuffers then add_packets newPacketBuffers p else p
      end, r).

End Sniffing.

(** ** Resolving *)

Section Resolving.
Context (Socksaddr_IsDomain : Socksaddr -> bool) (dnsTransport_loaded : string -> bool).
Context (dns_Lookup : InboundContext -> string -> option string -> ResolveAction -> result (list Addr)).

Definition actionResolve (action : ResolveAction) (m : RouteMetadata) : RouteMetadata * result unit :=
  let c := rm_context m in
  if negb (Socksaddr_IsDomain (Destination c)) then (m, Ok tt)
  else
    let server := resolve_Server action in
    if negb (String.eqb server "") && negb (dnsTransport_loaded server) then (m, Err (ENew ("DNS server not found: " +:+ server)))
    else
      match dns_Lookup c (Socksaddr_Fqdn (Destination c)) (if String.eqb server "" then None else Some server) action with
      | Ok addresses => (set_context (set_Destination (Destination c) addresses c) m, Ok tt)
      | Err e => (m, Err e)
      | Panic s => (m, Panic s)
      end.

End Resolving.
