(* ===== verification/RouteDispatch.v ===== *)
(** * Routing a connection (route/route.go)

    [routeConnection], [routePacketConnection] and [PreMatch]: what becomes of
    a connection once a rule was selected.  The outcome of routing is a value
    ([Routed]): handed to another inbound, to the DNS server, or to an outbound
    with the connection as it was wrapped.

    Parameters: the registries of inbounds and outbounds (as the maps they are
    read as), the trackers (each accepts or refuses), the reserved names of
    sing-mux, sing-vmess and UoT, the clock.  [bufio.NewCachedConn] and the
    wrappers of the trackers are constructors of [RoutedConn]; what reading them
    delivers is stated where a theorem needs it. *)
From Stdlib Require Import ZArith Lia Bool.
From S2P Require Import Prelude GoIO DnsMsg DnsClient DnsOptions DnsRuleBuild Ja3 Quic QuicTheorems Sniff SniffTheorems Metadata RuleItem MatchState RuleEngine RuleTheorems HeadlessRule DemoEnv RouteMatch RouteSniff.

Definition NetworkTCP : string := "tcp".
Definition NetworkUDP : string := "udp".
Definition TypeTun : string := "tun".

(** The fields of the metadata that only routing reads. *)
Record ConnInfo := mkConnInfo { InboundType : string; InboundDetour : string; LastInbound : string }.

(** What routing asks an outbound. *)
Record OutboundInfo := mkOutboundInfo {
  ob_Tag : string;
  ob_Network : list string;
  ob_ConnectionHandler : bool;
  ob_PacketConnectionHandler : bool;
  ob_DirectRoute : bool;
}.

(** What routing asks an inbound. *)
Record InboundInfo := mkInboundInfo { ib_TCPInjectable : bool; ib_UDPInjectable : bool }.

(** [bufio.NewCachedConn], [bufio.NewCachedPacketConn], the wrapper of a
    tracker and [bufio.NewNATPacketConn] around the connection. *)
Inductive RoutedConn :=
| RawConn (conn : InputConn)
| CachedConn (conn : RoutedConn) (buffer : list byte)
| CachedPacketConn (conn : RoutedConn) (packet : Packet)
| TrackedConn (conn : RoutedConn) (tracker : nat)
| NATPacketConn (conn : RoutedConn) (origin destination : Socksaddr).

Inductive Routed :=
| ToInbound (tag : string) (info : ConnInfo) (m : RouteMetadata)
| ToDNS (conn : RoutedConn) (packets : list Packet) (m : RouteMetadata)
| ToOutbound (outbound : option OutboundInfo) (handler : bool) (conn : RoutedConn) (m : RouteMetadata)
| Returned.   (* without an error and without handing the connection on *)

Definition set_Inbound (inbound network : string) (c : InboundContext) : InboundContext :=
  {| Inbound := inbound; IPVersion := IPVersion c; Network := network; Source := Source c;
     Destination := Destination c; User := User c; Outbound := Outbound c; Protocol := Protocol c;
     Domain := Domain c; Client := Client c; DestinationAddresses := DestinationAddresses c;
     DNSResponse := DNSResponse c;
     DestinationAddressMatchFromResponse := DestinationAddressMatchFromResponse c;
     ProcessInfo := ProcessInfo c; SourceMACAddress := SourceMACAddress c;
     SourceHostname := SourceHostname c; QueryType := QueryType c;
     IPCIDRMatchSource := IPCIDRMatchSource c; IPCIDRAcceptEmpty := IPCIDRAcceptEmpty c;
     SourceAddressMatch := SourceAddressMatch c; SourcePortMatch := SourcePortMatch c;
     DestinationAddressMatch := DestinationAddressMatch c; DestinationPortMatch := DestinationPortMatch c;
     DidMatch := DidMatch c; IgnoreDestinationIPCIDRMatch := IgnoreDestinationIPCIDRMatch c |}.

Section View.
Context `{GE : GoEnv}.

(** The router as routing sees it. *)
Record RouterView := mkRouterView {
  rv_rules : list RouteRule;
  rv_inbound : string -> option InboundInfo;
  rv_outbound : string -> option OutboundInfo;
  rv_default : OutboundInfo;
  (* the trackers: does it accept this connection? *)
  rv_trackers : list (RouteMetadata -> option RouteRule -> option OutboundInfo -> bool);
}.

End View.

(** [mux.Destination], [vmess.MuxDestination], [uot.MagicAddress], [uot.LegacyMagicAddress]. *)
Record ReservedNames := mkReservedNames { mux_Fqdn : string; vmess_Fqdn : string; uot_Fqdn : string; uot_legacy_Fqdn : string }.

Section Routing.
Context `{GE : GoEnv} `{SE : SniffEnv} `{QC : QuicCrypto} (rt : RuntimeState) (services : Services) (reserved : ReservedNames).
Context (resolve : ResolveAction -> RouteMetadata -> RouteMetadata * result unit).
(** The time, and the rejections counted so far, of the reject action selected. *)
Context (now : Z) (drops : list Z).

Definition matchConn (preMatch supportBypass : bool) : list RouteRule -> RouteMetadata -> Peek -> RouteMetadata * Peek * result (option (nat * RouteRule)) :=
  matchRule rt services sniffStep resolve release preMatch supportBypass.

(** An outbound chosen by tag. *)
Definition chosenOutbound (rv : RouterView) (tag network label : string) : result OutboundInfo :=
  match rv_outbound rv tag with
  | None => Err (ENew ("outbound not found: " +:+ tag))
  | Some outbound =>
      if negb (bool_decide (network ∈ ob_Network outbound)) then Err (ENew (label +:+ " is not supported by outbound: " +:+ ob_Tag outbound))
      else Ok outbound
  end.

(** The trackers in turn; each one wraps the connection. *)
Fixpoint runTrackers (trackers : list (RouteMetadata -> option RouteRule -> option OutboundInfo -> bool)) (i : nat)
    (m : RouteMetadata) (rule : option RouteRule) (outbound : option OutboundInfo) (conn : RoutedConn) : result RoutedConn :=
  match trackers with
  | [] => Ok conn
  | tracker :: rest =>
      if tracker m rule outbound then runTrackers rest (S i) m rule outbound (TrackedConn conn i)
      else Err (RejectedError ErrDrop)
  end.

Definition cacheBuffers (buffers : list (list byte)) (conn : RoutedConn) : RoutedConn := fold_left CachedConn buffers conn.
Definition cachePackets (packets : list Packet) (conn : RoutedConn) : RoutedConn := fold_left CachedPacketConn packets conn.

(** The outcome of choosing an outbound: nil for a bypass without outbound and
    for actions that choose none; [None]: the function returned. *)
Definition rejected (method : string) (noDrop : bool) : result (option (option OutboundInfo)) :=
  match fst (Reject_Error now method noDrop drops) with
  | Ok (Some e) => Err e
  | Ok None => Ok None
  | Err e => Err e
  | Panic s => Panic s
  end.

Definition selectOutbound (rv : RouterView) (network label defaultLabel : string) (selected : option RouteRule)
    : result (option (option OutboundInfo)) :=
  match selected with
  | None =>
      if negb (bool_decide (network ∈ ob_Network (rv_default rv)))
      then Err (ENew (label +:+ " is not supported by " +:+ defaultLabel +:+ ob_Tag (rv_default rv)))
      else Ok (Some (Some (rv_default rv)))
  | Some rule =>
      match rr_action rule with
      | Some (RuleActionRoute outbound _) => let* o := chosenOutbound rv outbound network label in Ok (Some (Some o))
      | Some (RuleActionBypass outbound _) =>
          if String.eqb outbound "" then Ok (Some None)
          else let* o := chosenOutbound rv outbound network label in Ok (Some (Some o))
      | Some (RuleActionReject method noDrop) =>
          if String.eqb method RuleActionRejectMethodReply
          then Err (ENew ("reject method `reply` is not supported for " +:+ label +:+ " connections"))
          else rejected method noDrop
      | _ => Ok (Some None)
      end
  end.

Definition handles (flag : OutboundInfo -> bool) (outbound : option OutboundInfo) : bool :=
  match outbound with Some o => flag o | None => false end.

Definition isHijackDNS (selected : option RouteRule) : bool :=
  match selected with Some rule => match rr_action rule with Some RuleActionHijackDNS => true | _ => false end | None => false end.

(** The hand-over to another inbound. *)
Definition detour (rv : RouterView) (injectable : InboundInfo -> bool) (label : string) (info : ConnInfo) (m : RouteMetadata) : result Routed :=
  let tag := InboundDetour info in
  if String.eqb (LastInbound info) tag then Err (ENew ("routing loop on detour: " +:+ tag))
  else match rv_inbound rv tag with
  | None => Err (ENew ("inbound detour not found: " +:+ tag))
  | Some inbound =>
      if negb (injectable inbound) then Err (ENew ("inbound detour is not " +:+ label +:+ " injectable: " +:+ tag))
      else
        let c := rm_context m in
        Ok (ToInbound tag (mkConnInfo (InboundType info) "" (Inbound c)) (set_context (set_Inbound tag (Network c) c) m))
  end.

(** The names that must not be dialed. *)
Definition reservedName (fqdn : string) : option string :=
  if String.eqb fqdn (mux_Fqdn reserved) then Some "global multiplex is deprecated since sing-box v1.7.0, enable multiplex in Inbound fields instead."
  else if String.eqb fqdn (vmess_Fqdn reserved) then Some "global multiplex (v2ray legacy) not supported since sing-box v1.7.0."
  else if String.eqb fqdn (uot_Fqdn reserved) then Some "global UoT not supported since sing-box v1.7.0."
  else if String.eqb fqdn (uot_legacy_Fqdn reserved) then Some "global UoT (legacy) not supported since sing-box v1.7.0."
  else None.

Definition routeConnection (rv : RouterView) (info : ConnInfo) (m : RouteMetadata) (events : list ReadEvent) : result Routed :=
  if negb (String.eqb (InboundDetour info) "") then detour rv ib_TCPInjectable "TCP" info m
  else
    let m := set_context (set_Inbound (Inbound (rm_context m)) NetworkTCP (rm_context m)) m in
    match reservedName (Socksaddr_Fqdn (Destination (rm_context m))) with
    | Some message => Err (ENew message)
    | None =>
        if String.eqb (InboundType info) TypeTun && String.eqb (Protocol (rm_context m)) ProtocolDNS
        then Ok (ToDNS (RawConn (StreamConn events)) [] m)
        else match matchConn false false (rv_rules rv) m (newPeek (StreamConn events)) with
        | (_, _, Err e) => Err e
        | (_, _, Panic s) => Panic s
        | (m, p, Ok selected) =>
            let rule := option_map snd selected in
            let conn := cacheBuffers (pk_buffers p) (RawConn (pk_conn p)) in
            if isHijackDNS rule then Ok (ToDNS conn [] m)
            else
              let* choice := selectOutbound rv NetworkTCP "TCP" "default outbound: " rule in
              match choice with
              | None => Ok Returned
              | Some outbound =>
                  let* conn := runTrackers (rv_trackers rv) 0 m rule outbound conn in
                  Ok (ToOutbound outbound (handles ob_ConnectionHandler outbound) conn m)
              end
        end
    end.

Definition routePacketConnection (rv : RouterView) (info : ConnInfo) (m : RouteMetadata) (events : list PacketEvent) : result Routed :=
  if negb (String.eqb (InboundDetour info) "") then detour rv ib_UDPInjectable "UDP" info m
  else
    let m := set_context (set_Inbound (Inbound (rm_context m)) NetworkUDP (rm_context m)) m in
    if String.eqb (InboundType info) TypeTun && String.eqb (Protocol (rm_context m)) ProtocolDNS
    then Ok (ToDNS (RawConn (PacketConn events)) [] m)
    else match matchConn false false (rv_rules rv) m (newPeek (PacketConn events)) with
    | (_, _, Err e) => Err e
    | (_, _, Panic s) => Panic s
    | (m, p, Ok selected) =>
        let rule := option_map snd selected in
        if isHijackDNS rule then Ok (ToDNS (RawConn (pk_conn p)) (pk_packets p) m)
        else
          let* choice := selectOutbound rv NetworkUDP "UDP" "outbound: " rule in
          match choice with
          | None => Ok Returned
          | Some outbound =>
              let* conn := runTrackers (rv_trackers rv) 0 m rule outbound (cachePackets (pk_packets p) (RawConn (pk_conn p))) in
              let conn := if rm_FakeIP m then NATPacketConn conn (OriginDestination m) (Destination (rm_context m)) else conn in
              Ok (ToOutbound outbound (handles ob_PacketConnectionHandler outbound) conn m)
          end
    end.

(** ** PreMatch *)

Definition ErrBypass : go_error := ENew "bypass".      (* tun.ErrBypass *)

(** No direct route, or the outbound that carries it with the metadata and,
    for a domain, the address the replies are rewritten to. *)
Inductive PreMatched := NoDirectRoute | DirectRoute (outbound : OutboundInfo) (m : RouteMetadata) (rewrite : option Addr).

(** [outbound.(adapter.DirectRouteOutbound)]. *)
Definition asDirectRoute (outbound : OutboundInfo) : result OutboundInfo :=
  if ob_DirectRoute outbound then Ok outbound else Panic "interface conversion: missing method NewDirectRouteConnection".

Definition directOutbound (rv : RouterView) (tag network : string) : result OutboundInfo :=
  match rv_outbound rv tag with
  | None => Err (ENew ("outbound not found: " +:+ tag))
  | Some outbound =>
      if negb (bool_decide (network ∈ ob_Network outbound)) then Err (ENew (network +:+ " is not supported by outbound: " +:+ tag))
      else asDirectRoute outbound
  end.

(** The switch on the action and the default: [None] returns without a direct route. *)
Definition preMatchOutbound (rv : RouterView) (hasContext supportBypass : bool) (network : string) (selected : option RouteRule)
    : result (option OutboundInfo) :=
  match selected with
  | None =>
      if negb (String.eqb network NetworkICMP) then Ok None
      else if negb (bool_decide (network ∈ ob_Network (rv_default rv)))
      then Err (ENew (network +:+ " is not supported by default outbound: " +:+ ob_Tag (rv_default rv)))
      else let* o := asDirectRoute (rv_default rv) in Ok (Some o)
  | Some rule =>
      match rr_action rule with
      | Some (RuleActionReject method noDrop) =>
          if String.eqb network NetworkTCP && String.eqb method RuleActionRejectMethodReply
          then Err (ENew "reject method `reply` is not supported for TCP connections")
          else if String.eqb network NetworkUDP && String.eqb method RuleActionRejectMethodReply
          then Err (ENew "reject method `reply` is not supported for UDP connections")
          else let* _ := rejected method noDrop in Ok None
      | Some (RuleActionBypass outbound _) =>
          if supportBypass then Err (ECause ErrBypass "bypassed")
          else if negb hasContext then Ok None
          else let* o := directOutbound rv outbound network in Ok (Some o)
      | Some (RuleActionRoute outbound _) =>
          if negb hasContext then Ok None else let* o := directOutbound rv outbound network in Ok (Some o)
      | _ => Ok None
      end
  end.

Definition resolveStrategy (strategy : Z) : ResolveAction := mkResolveAction "" 0 strategy false false None (prefix_or_zero None).

Context (Socksaddr_IsDomain : Socksaddr -> bool) (NewDirectRouteConnection : OutboundInfo -> RouteMetadata -> result unit).

Definition PreMatch (rv : RouterView) (m : RouteMetadata) (hasContext supportBypass : bool) : result PreMatched :=
  match matchConn true supportBypass (rv_rules rv) m (newPeek NoConn) with
  | (_, _, Err e) => Err e
  | (_, _, Panic s) => Panic s
  | (m, _, Ok selected) =>
      let* choice := preMatchOutbound rv hasContext supportBypass (Network (rm_context m)) (option_map snd selected) in
      match choice with
      | None => Ok NoDirectRoute
      | Some outbound =>
          let c := rm_context m in
          if negb (Socksaddr_IsDomain (Destination c)) then
            let* _ := NewDirectRouteConnection outbound m in Ok (DirectRoute outbound m None)
          else
            let v4 := Socksaddr_IsIPv4 services (Source c) in
            let '(m, r) :=
              if zlen (DestinationAddresses c) =? 0
              then resolve (resolveStrategy (if v4 then DomainStrategyIPv4Only else DomainStrategyIPv6Only)) m
              else (m, Ok tt) in
            let* _ := r in
            let c := rm_context m in
            match List.find (if v4 then Addr_Is4 else Addr_Is6) (DestinationAddresses c) with
            | None =>
                Err (ENew ((if v4 then "no IPv4 address found for domain: " else "no IPv6 address found for domain: ")
                           +:+ Socksaddr_Fqdn (Destination c)))
            | Some address =>
                let m := set_context (set_Destination (mkSocksaddr address 0 "") (DestinationAddresses c) c) m in
                let* _ := NewDirectRouteConnection outbound m in Ok (DirectRoute outbound m (Some address))
            end
      end
  end.
End Routing.
