(* ===== verification/RouteOptions.v ===== *)
(** * Route rule options (option/rule.go, option/rule_action.go,
      route/rule/rule_nested_action.go, route/rule_conds.go)

    The options of a route rule (Module [RouteOpt]), their validity, the check
    that only top-level rules have an action, and the predicates by which the
    router finds out what it has to look up about a connection. *)
From Stdlib Require Import ZArith Lia Bool.
From S2P Require Import Prelude GoIO DnsMsg Metadata RuleItem MatchState RuleEngine HeadlessRule DnsClient DnsOptions.

(** ** Options *)

Module RouteOpt.

Record RawRouteOptionsActionOptions := mkRawRouteOptions {
  OverrideAddress : string;
  OverridePort : Z;
  NetworkStrategy : option Z;
  FallbackDelay : Z;
  UDPDisableDomainUnmapping : bool;
  UDPConnect : bool;
  UDPTimeout : Z;
  TLSFragment : bool;
  TLSFragmentFallbackDelay : Z;
  TLSRecordFragment : bool;
  TLSSpoof : string;
  TLSSpoofMethod : string;
}.

Record RouteActionOptions := mkRouteActionOptions {
  Outbound : string;
  raw : RawRouteOptionsActionOptions;
}.

Record DomainResolveOptions := mkDomainResolve {
  dr_Server : string;
  dr_Timeout : Z;
  dr_Strategy : Z;
  dr_DisableCache : bool;
  dr_DisableOptimisticCache : bool;
  dr_RewriteTTL : option Z;
  dr_ClientSubnet : option Prefix;
}.

(** [DialerOptions], which [DirectActionOptions] is a name for. *)
Record DialerOptions := mkDialerOptions {
  Detour : string;
  BindInterface : string;
  Inet4BindAddress : option Addr;
  Inet6BindAddress : option Addr;
  BindAddressNoPort : bool;
  ProtectPath : string;
  RoutingMark : Z;
  ReuseAddr : bool;
  NetNs : string;
  ConnectTimeout : Z;
  TCPFastOpen : bool;
  TCPMultiPath : bool;
  DisableTCPKeepAlive : bool;
  TCPKeepAlive : Z;
  TCPKeepAliveInterval : Z;
  UDPFragment : option bool;
  UDPFragmentDefault : bool;
  DomainResolver : option DomainResolveOptions;
  d_NetworkStrategy : option Z;
  d_NetworkType : Listable Z;
  d_FallbackNetworkType : Listable Z;
  d_FallbackDelay : Z;
  DomainStrategy : Z;
}.

Record RouteActionSniff := mkSniffOptions { Sniffer : Listable string; SniffTimeout : Z }.

Record RouteActionResolve := mkResolveOptions {
  Server : string;
  Timeout : Z;
  Strategy : Z;
  DisableCache : bool;
  DisableOptimisticCache : bool;
  RewriteTTL : option Z;
  ClientSubnet : option Prefix;
}.

Record RuleAction := mkRuleAction {
  Action : string;
  RouteOptions : RouteActionOptions;
  RouteOptionsOptions : RawRouteOptionsActionOptions;
  DirectOptions : DialerOptions;
  BypassOptions : RouteActionOptions;
  RejectOptions : DnsOpt.RejectActionOptions;
  SniffOptions : RouteActionSniff;
  ResolveOptions : RouteActionResolve;
}.

Definition zeroRaw : RawRouteOptionsActionOptions :=
  mkRawRouteOptions "" 0 None 0 false false 0 false 0 false "" "".
Definition zeroDialer : DialerOptions :=
  mkDialerOptions "" "" None None false "" 0 false "" 0 false false false 0 0 None false None None None None 0 0.

(** [RuleAction{}] *)
Definition zeroAction : RuleAction :=
  mkRuleAction "" (mkRouteActionOptions "" zeroRaw) zeroRaw zeroDialer (mkRouteActionOptions "" zeroRaw)
    (DnsOpt.mkRejectOptions "" false) (mkSniffOptions None 0) (mkResolveOptions "" 0 0 false false None None).

#[global] Instance Raw_eq_dec : EqDecision RawRouteOptionsActionOptions.
Proof. solve_decision. Defined.
#[global] Instance RouteActionOptions_eq_dec : EqDecision RouteActionOptions.
Proof. solve_decision. Defined.
#[global] Instance DomainResolveOptions_eq_dec : EqDecision DomainResolveOptions.
Proof. solve_decision. Defined.
#[global] Instance DialerOptions_eq_dec : EqDecision DialerOptions.
Proof. unfold EqDecision, Decision, Listable in *. solve_decision. Defined.
#[global] Instance RouteActionSniff_eq_dec : EqDecision RouteActionSniff.
Proof. unfold EqDecision, Decision, Listable in *. solve_decision. Defined.
#[global] Instance RouteActionResolve_eq_dec : EqDecision RouteActionResolve.
Proof. solve_decision. Defined.
#[global] Instance RuleAction_eq_dec : EqDecision RuleAction.
Proof. solve_decision. Defined.

(** [RawDefaultRule], with the action of [DefaultRule]. *)
Record DefaultRule := mkDefaultRule {
  Inbound : Listable string;
  IPVersion : Z;
  Network : Listable string;
  AuthUser : Listable string;
  Protocol : Listable string;
  Client : Listable string;
  Domain : Listable string;
  DomainSuffix : Listable string;
  DomainKeyword : Listable string;
  DomainRegex : Listable string;
  Geosite : Listable string;
  SourceGeoIP : Listable string;
  GeoIP : Listable string;
  SourceIPCIDR : Listable string;
  SourceIPIsPrivate : bool;
  IPCIDR : Listable string;
  IPIsPrivate : bool;
  SourcePort : Listable Z;
  SourcePortRange : Listable string;
  Port : Listable Z;
  PortRange : Listable string;
  ProcessName : Listable string;
  ProcessPath : Listable string;
  ProcessPathRegex : Listable string;
  User : Listable string;
  UserID : Listable Z;
  ClashMode : string;
  NetworkType : Listable Z;
  NetworkIsExpensive : bool;
  NetworkIsConstrained : bool;
  WIFISSID : Listable string;
  WIFIBSSID : Listable string;
  InterfaceAddress : option (list (string * list Prefix));
  NetworkInterfaceAddress : option (list (Z * list Prefix));
  DefaultInterfaceAddress : Listable Prefix;
  SourceMACAddress : Listable string;
  SourceHostname : Listable string;
  PreferredBy : Listable string;
  RuleSet : Listable string;
  RuleSetIPCIDRMatchSource : bool;
  Invert : bool;
  Deprecated_RulesetIPCIDRMatchSource : bool;
  ruleAction : RuleAction;
}.

(** Every field but Invert and the action has its zero value. *)
Definition noConditions (r : DefaultRule) : bool :=
  is_nil (Inbound r) && (IPVersion r =? 0) && is_nil (Network r) && is_nil (AuthUser r) && is_nil (Protocol r)
  && is_nil (Client r) && is_nil (Domain r) && is_nil (DomainSuffix r) && is_nil (DomainKeyword r)
  && is_nil (DomainRegex r) && is_nil (Geosite r) && is_nil (SourceGeoIP r) && is_nil (GeoIP r)
  && is_nil (SourceIPCIDR r) && negb (SourceIPIsPrivate r) && is_nil (IPCIDR r) && negb (IPIsPrivate r)
  && is_nil (SourcePort r) && is_nil (SourcePortRange r) && is_nil (Port r) && is_nil (PortRange r)
  && is_nil (ProcessName r) && is_nil (ProcessPath r) && is_nil (ProcessPathRegex r) && is_nil (User r)
  && is_nil (UserID r) && String.eqb (ClashMode r) "" && is_nil (NetworkType r) && negb (NetworkIsExpensive r)
  && negb (NetworkIsConstrained r) && is_nil (WIFISSID r) && is_nil (WIFIBSSID r) && is_nil (InterfaceAddress r)
  && is_nil (NetworkInterfaceAddress r) && is_nil (DefaultInterfaceAddress r) && is_nil (SourceMACAddress r)
  && is_nil (SourceHostname r) && is_nil (PreferredBy r) && is_nil (RuleSet r) && negb (RuleSetIPCIDRMatchSource r)
  && negb (Deprecated_RulesetIPCIDRMatchSource r).

(** [DefaultRule.IsValid]: not [DeepEqual] to the zero rule with the same Invert. *)
Definition Default_IsValid (r : DefaultRule) : bool :=
  negb (noConditions r && bool_decide (ruleAction r = zeroAction)).

Record LogicalRule (R : Type) := mkLogicalRule {
  Mode : string;
  Rules : list R;
  LogicalInvert : bool;
  logicalAction : RuleAction;
}.
Arguments mkLogicalRule {R} _ _ _ _.
Arguments Mode {R} _.
Arguments Rules {R} _.
Arguments LogicalInvert {R} _.
Arguments logicalAction {R} _.

Inductive Rule :=
| mkRule (Type_ : string) (DefaultOptions : DefaultRule) (LogicalOptions : LogicalRule Rule).

(** [Rule.IsValid] panics on the type "". *)
Fixpoint IsValid (r : Rule) : result bool :=
  match r with
  | mkRule t defaultOptions logicalOptions =>
      if String.eqb t Opt.RuleTypeDefault then Ok (Default_IsValid defaultOptions)
      else if String.eqb t Opt.RuleTypeLogical then
        if nonempty (Rules logicalOptions) then Opt.all_result IsValid (Rules logicalOptions) else Ok false
      else Panic ("unknown rule type: " +:+ t)
  end.

Definition Logical_IsValid (r : LogicalRule Rule) : result bool :=
  if nonempty (Rules r) then Opt.all_result IsValid (Rules r) else Ok false.

Section Induction.
Variable P : Rule -> Prop.
Hypothesis P_rule : forall t d l, Forall P (Rules l) -> P (mkRule t d l).

Fixpoint Rule_tree_ind (r : Rule) : P r :=
  match r with
  | mkRule t d (mkLogicalRule mode rules inverted action) =>
      P_rule t d (mkLogicalRule mode rules inverted action)
        ((fix all (rules : list Rule) : Forall P rules :=
           match rules with
           | [] => Forall_nil_2 P
           | r :: rest => Forall_cons_2 P r rest (Rule_tree_ind r) (all rest)
           end) rules)
  end.
End Induction.

End RouteOpt.

Definition RuleActionTypeBypass : string := "bypass".
Definition RuleActionTypeDirect : string := "direct".
Definition RuleActionTypeHijackDNS : string := "hijack-dns".
Definition RuleActionTypeSniff : string := "sniff".
Definition RuleActionTypeResolve : string := "resolve".

(** ** Actions of nested rules *)

Definition RouteRuleActionNestedUnsupportedMessage : string := "rule action is not supported in nested rules".

Definition ruleHasConfiguredAction (rule : RouteOpt.Rule) : bool :=
  match rule with
  | RouteOpt.mkRule t d l =>
      if Opt.isDefaultType t then negb (bool_decide (RouteOpt.ruleAction d = RouteOpt.zeroAction))
      else if String.eqb t Opt.RuleTypeLogical then negb (bool_decide (RouteOpt.logicalAction l = RouteOpt.zeroAction))
      else false
  end.

Fixpoint validateNoNestedRuleActions (nested : bool) (rule : RouteOpt.Rule) : result unit :=
  if nested && ruleHasConfiguredAction rule then Err (ENew RouteRuleActionNestedUnsupportedMessage)
  else match rule with
  | RouteOpt.mkRule t _ l =>
      if negb (String.eqb t Opt.RuleTypeLogical) then Ok tt
      else eachi_result subRuleMsg (validateNoNestedRuleActions true) 0 (RouteOpt.Rules l)
  end.

Definition ValidateNoNestedRuleActions (rule : RouteOpt.Rule) : result unit := validateNoNestedRuleActions false rule.

(** ** What the rules ask about a connection (route/rule_conds.go)

    Only the type "default" is inspected, not ""; the decoder never leaves "". *)
Section Conditions.
Context (cond : RouteOpt.DefaultRule -> bool).

Fixpoint ruleHas (rule : RouteOpt.Rule) : bool :=
  match rule with
  | RouteOpt.mkRule t d l =>
      if String.eqb t Opt.RuleTypeDefault then cond d
      else if String.eqb t Opt.RuleTypeLogical then existsb ruleHas (RouteOpt.Rules l)
      else false
  end.

Definition routeHasRule (rules : list RouteOpt.Rule) : bool := existsb ruleHas rules.
End Conditions.

Section DNSConditions.
Context (cond : DnsOpt.DefaultDNSRule -> bool).

Fixpoint dnsRuleHas (rule : DnsOpt.DNSRule) : bool :=
  match rule with
  | DnsOpt.mkDNSRule t d l =>
      if String.eqb t Opt.RuleTypeDefault then cond d
      else if String.eqb t Opt.RuleTypeLogical then existsb dnsRuleHas (DnsOpt.Rules l)
      else false
  end.

Definition hasDNSRule (rules : list DnsOpt.DNSRule) : bool := existsb dnsRuleHas rules.
End DNSConditions.

Definition isProcessRule (rule : RouteOpt.DefaultRule) : bool :=
  given (RouteOpt.ProcessName rule) || given (RouteOpt.ProcessPath rule) || given (RouteOpt.ProcessPathRegex rule)
  || given (RouteOpt.User rule) || given (RouteOpt.UserID rule).

Definition isProcessDNSRule (rule : DnsOpt.DefaultDNSRule) : bool :=
  given (DnsOpt.ProcessName rule) || given (DnsOpt.ProcessPath rule) || given (DnsOpt.ProcessPathRegex rule)
  || given (DnsOpt.User rule) || given (DnsOpt.UserID rule).

Definition isNeighborRule (rule : RouteOpt.DefaultRule) : bool :=
  given (RouteOpt.SourceMACAddress rule) || given (RouteOpt.SourceHostname rule).

Definition isNeighborDNSRule (rule : DnsOpt.DefaultDNSRule) : bool :=
  given (DnsOpt.SourceMACAddress rule) || given (DnsOpt.SourceHostname rule).

Definition isWIFIRule (rule : RouteOpt.DefaultRule) : bool :=
  given (RouteOpt.WIFISSID rule) || given (RouteOpt.WIFIBSSID rule).

Definition isWIFIDNSRule (rule : DnsOpt.DefaultDNSRule) : bool :=
  given (DnsOpt.WIFISSID rule) || given (DnsOpt.WIFIBSSID rule).
