(* ===== verification/RouteRule.v ===== *)
(** * Building route rules (route/rule/rule_default.go, rule_action.go,
      common/tlsspoof/spoof.go)

    From the options of a route rule to the rule object the router holds, and
    to the [RouteRule] that [matchRule] walks ([route_view]: the rule tree with
    the rules its rule-sets have at the moment).

    Arguments that stand for other code: [ParseSocksaddrHostPort] (sing),
    [PlatformSupported] (a build constant of common/tlsspoof), [dialer_New] (the
    dialer of the action "direct", which opens no connection yet but looks at
    the system), and the outbound manager as [preferred_by] reads it. *)
From Stdlib Require Import ZArith Lia Bool.
From S2P Require Import Prelude GoIO DnsMsg Metadata RuleItem MatchState RuleEngine RuleTheorems HeadlessRule Srs SavedBinary RuleSet RuleSetTheorems RuleObject DnsClient DnsOptions DnsRule DnsRuleBuild RouteMatch RouteOptions.

(** ** Actions *)

(** [tlsspoof.Method]. *)
Definition MethodWrongSequence : Z := 0.
Definition MethodWrongChecksum : Z := 1.
Definition MethodWrongAcknowledgment : Z := 2.
Definition MethodWrongMD5Sig : Z := 3.
Definition MethodWrongTimestamp : Z := 4.

Definition ParseMethod (s : string) : result Z :=
  if String.eqb s "" || String.eqb s "wrong-sequence" then Ok MethodWrongSequence
  else if String.eqb s "wrong-checksum" then Ok MethodWrongChecksum
  else if String.eqb s "wrong-ack" then Ok MethodWrongAcknowledgment
  else if String.eqb s "wrong-md5" then Ok MethodWrongMD5Sig
  else if String.eqb s "wrong-timestamp" then Ok MethodWrongTimestamp
  else Err (ENew ("tls_spoof: unknown method: " +:+ s)).

Definition ParseOptions (PlatformSupported : bool) (spoof method : string) : result (string * Z) :=
  if String.eqb spoof "" then
    if negb (String.eqb method "") then Err (ENew "spoof_method requires spoof") else Ok ("", 0)
  else if negb PlatformSupported then Err (ENew "tls_spoof is not supported on this platform")
  else let* parsedMethod := ParseMethod method in Ok (spoof, parsedMethod).

(** [RuleActionSniff.build]. *)
Fixpoint sniff_build (names : list string) (stream packet : list Sniffer) : result (list Sniffer * list Sniffer) :=
  match names with
  | [] => Ok (stream, packet)
  | name :: rest =>
      if String.eqb name "tls" then sniff_build rest (stream ++ [TLSClientHello]) packet
      else if String.eqb name "http" then sniff_build rest (stream ++ [HTTPHost]) packet
      else if String.eqb name "quic" then sniff_build rest stream (packet ++ [QUICClientHello])
      else if String.eqb name "dns" then sniff_build rest (stream ++ [StreamDomainNameQuery]) (packet ++ [DomainNameQuery])
      else if String.eqb name "stun" then sniff_build rest stream (packet ++ [STUNMessage])
      else if String.eqb name "bittorrent" then sniff_build rest (stream ++ [BitTorrent]) (packet ++ [UTP; UDPTracker])
      else if String.eqb name "dtls" then sniff_build rest stream (packet ++ [DTLSRecord])
      else if String.eqb name "ssh" then sniff_build rest (stream ++ [SSH]) packet
      else if String.eqb name "rdp" then sniff_build rest (stream ++ [RDP]) packet
      else if String.eqb name "ntp" then sniff_build rest stream (packet ++ [NTP])
      else Err (ENew ("unknown sniffer: " +:+ name))
  end.

(** A route rule adds nothing to an abstractDefaultRule. *)
Abbreviation RouteRuleObject := (RuleObject unit RuleAction).

Section WithEnv.
Context `{GE : GoEnv}.
Context (ParseSocksaddrHostPort : string -> Z -> Socksaddr) (PlatformSupported : bool).
Context (dialer_New : RouteOpt.DialerOptions -> result unit).

Definition newRuleActionRouteOptions (options : RouteOpt.RawRouteOptionsActionOptions) : result RuleActionRouteOptions :=
  let* spoof := ParseOptions PlatformSupported (RouteOpt.TLSSpoof options) (RouteOpt.TLSSpoofMethod options) in
  Ok (mkRouteOptions (ParseSocksaddrHostPort (RouteOpt.OverrideAddress options) 0) (RouteOpt.OverridePort options)
        (RouteOpt.NetworkStrategy options) [] [] (RouteOpt.FallbackDelay options)
        (RouteOpt.UDPDisableDomainUnmapping options) (RouteOpt.UDPConnect options) (RouteOpt.UDPTimeout options)
        (RouteOpt.TLSFragment options) (RouteOpt.TLSFragmentFallbackDelay options) (RouteOpt.TLSRecordFragment options)
        (fst spoof) (snd spoof)).

(** The outer option is the nil action. *)
Definition NewRuleAction (action : RouteOpt.RuleAction) : result (option RuleAction) :=
  let t := RouteOpt.Action action in
  if String.eqb t "" then Ok None
  else if String.eqb t RuleActionTypeRoute then
    let* routeOptions := newRuleActionRouteOptions (RouteOpt.raw (RouteOpt.RouteOptions action)) in
    Ok (Some (RuleActionRoute (RouteOpt.Outbound (RouteOpt.RouteOptions action)) routeOptions))
  else if String.eqb t RuleActionTypeRouteOptions then
    let* routeOptions := newRuleActionRouteOptions (RouteOpt.RouteOptionsOptions action) in
    Ok (Some (RuleActionOptions routeOptions))
  else if String.eqb t RuleActionTypeBypass then
    let* routeOptions := newRuleActionRouteOptions (RouteOpt.raw (RouteOpt.BypassOptions action)) in
    Ok (Some (RuleActionBypass (RouteOpt.Outbound (RouteOpt.BypassOptions action)) routeOptions))
  else if String.eqb t RuleActionTypeDirect then
    let* _ := dialer_New (RouteOpt.DirectOptions action) in Ok (Some RuleActionDirect)
  else if String.eqb t RuleActionTypeReject then
    Ok (Some (RuleActionReject (DnsOpt.Method (RouteOpt.RejectOptions action)) (DnsOpt.NoDrop (RouteOpt.RejectOptions action))))
  else if String.eqb t RuleActionTypeHijackDNS then Ok (Some RuleActionHijackDNS)
  else if String.eqb t RuleActionTypeSniff then
    let names := elems (RouteOpt.Sniffer (RouteOpt.SniffOptions action)) in
    let* sniffers := sniff_build names [] [] in
    Ok (Some (RuleActionSniff (mkSniffAction names (fst sniffers) (snd sniffers) (RouteOpt.SniffTimeout (RouteOpt.SniffOptions action)))))
  else if String.eqb t RuleActionTypeResolve then
    let o := RouteOpt.ResolveOptions action in
    Ok (Some (RuleActionResolve (mkResolveAction (RouteOpt.Server o) (RouteOpt.Timeout o) (RouteOpt.Strategy o)
                (RouteOpt.DisableCache o) (RouteOpt.DisableOptimisticCache o) (RouteOpt.RewriteTTL o)
                (prefix_or_zero (RouteOpt.ClientSubnet o)))))
  else Panic ("unknown rule action: " +:+ t).

(** ** Rules *)

(** The items of a rule; the rule-set item is separate. *)
Definition routeItems (options : RouteOpt.DefaultRule) : result abstractDefaultRule :=
  let rule := emptyRule (RouteOpt.Invert options) in
  let* rule := add append_items (when (given (RouteOpt.Inbound options)) (Ok (NewInboundRule (elems (RouteOpt.Inbound options))))) rule in
  let* rule := add append_items
    (when (0 <? RouteOpt.IPVersion options)
       (if (RouteOpt.IPVersion options =? 4) || (RouteOpt.IPVersion options =? 6)
        then Ok (NewIPVersionItem (RouteOpt.IPVersion options =? 6))
        else Err (ENew ("invalid ip version: " +:+ pretty (RouteOpt.IPVersion options))))) rule in
  let* rule := add append_items (when (given (RouteOpt.Network options)) (Ok (NewNetworkItem (elems (RouteOpt.Network options))))) rule in
  let* rule := add append_items (when (given (RouteOpt.AuthUser options)) (Ok (NewAuthUserItem (elems (RouteOpt.AuthUser options))))) rule in
  let* rule := add append_items (when (given (RouteOpt.Protocol options)) (Ok (NewProtocolItem (elems (RouteOpt.Protocol options))))) rule in
  let* rule := add append_items (when (given (RouteOpt.Client options)) (Ok (NewClientItem (elems (RouteOpt.Client options))))) rule in
  let* rule := add append_destinationAddress
    (when (given (RouteOpt.Domain options) || given (RouteOpt.DomainSuffix options))
       (NewDomainItem (elems (RouteOpt.Domain options)) (elems (RouteOpt.DomainSuffix options)))) rule in
  let* rule := add append_destinationAddress
    (when (given (RouteOpt.DomainKeyword options)) (Ok (NewDomainKeywordItem (elems (RouteOpt.DomainKeyword options))))) rule in
  let* rule := add append_destinationAddress
    (when (given (RouteOpt.DomainRegex options)) (NewDomainRegexItem (elems (RouteOpt.DomainRegex options)))) rule in
  let* _ := guard (given (RouteOpt.Geosite options)) ErrGeositeRemoved in
  let* _ := guard (given (RouteOpt.SourceGeoIP options)) ErrGeoIPRemoved in
  let* _ := guard (given (RouteOpt.GeoIP options)) ErrGeoIPRemoved in
  let* rule := add append_sourceAddress
    (when (given (RouteOpt.SourceIPCIDR options))
       (with_cause "source_ip_cidr" (NewIPCIDRItem true (elems (RouteOpt.SourceIPCIDR options))))) rule in
  let* rule := add append_sourceAddress (when (RouteOpt.SourceIPIsPrivate options) (Ok (NewIPIsPrivateItem true))) rule in
  let* rule := add append_destinationIPCIDR
    (when (given (RouteOpt.IPCIDR options)) (with_cause "ipcidr" (NewIPCIDRItem false (elems (RouteOpt.IPCIDR options))))) rule in
  let* rule := add append_destinationIPCIDR (when (RouteOpt.IPIsPrivate options) (Ok (NewIPIsPrivateItem false))) rule in
  let* rule := add append_sourcePort
    (when (given (RouteOpt.SourcePort options)) (Ok (NewPortItem true (elems (RouteOpt.SourcePort options))))) rule in
  let* rule := add append_sourcePort
    (when (given (RouteOpt.SourcePortRange options))
       (with_cause "source_port_range" (NewPortRangeItem true (elems (RouteOpt.SourcePortRange options))))) rule in
  let* rule := add append_destinationPort (when (given (RouteOpt.Port options)) (Ok (NewPortItem false (elems (RouteOpt.Port options))))) rule in
  let* rule := add append_destinationPort
    (when (given (RouteOpt.PortRange options))
       (with_cause "port_range" (NewPortRangeItem false (elems (RouteOpt.PortRange options))))) rule in
  let* rule := add append_items (when (given (RouteOpt.ProcessName options)) (Ok (NewProcessItem (elems (RouteOpt.ProcessName options))))) rule in
  let* rule := add append_items (when (given (RouteOpt.ProcessPath options)) (Ok (NewProcessPathItem (elems (RouteOpt.ProcessPath options))))) rule in
  let* rule := add append_items
    (when (given (RouteOpt.ProcessPathRegex options))
       (with_cause "process_path_regex" (NewProcessPathRegexItem (elems (RouteOpt.ProcessPathRegex options))))) rule in
  let* rule := add append_items (when (given (RouteOpt.User options)) (Ok (NewUserItem (elems (RouteOpt.User options))))) rule in
  let* rule := add append_items (when (given (RouteOpt.UserID options)) (Ok (NewUserIDItem (elems (RouteOpt.UserID options))))) rule in
  let* rule := add append_items
    (when (negb (String.eqb (RouteOpt.ClashMode options) "")) (Ok (NewClashModeItem (RouteOpt.ClashMode options)))) rule in
  let* rule := add append_items (when (given (RouteOpt.NetworkType options)) (Ok (NewNetworkTypeItem (elems (RouteOpt.NetworkType options))))) rule in
  let* rule := add append_items (when (RouteOpt.NetworkIsExpensive options) (Ok NetworkIsExpensiveItem)) rule in
  let* rule := add append_items (when (RouteOpt.NetworkIsConstrained options) (Ok NetworkIsConstrainedItem)) rule in
  let* rule := add append_items (when (given (RouteOpt.WIFISSID options)) (Ok (NewWIFISSIDItem (elems (RouteOpt.WIFISSID options))))) rule in
  let* rule := add append_items (when (given (RouteOpt.WIFIBSSID options)) (Ok (NewWIFIBSSIDItem (elems (RouteOpt.WIFIBSSID options))))) rule in
  let* rule := add append_items
    (when (given (RouteOpt.InterfaceAddress options)) (Ok (NewInterfaceAddressItem (elems (RouteOpt.InterfaceAddress options))))) rule in
  let* rule := add append_items
    (when (given (RouteOpt.NetworkInterfaceAddress options))
       (Ok (NewNetworkInterfaceAddressItem (elems (RouteOpt.NetworkInterfaceAddress options))))) rule in
  let* rule := add append_items
    (when (given (RouteOpt.DefaultInterfaceAddress options))
       (Ok (NewDefaultInterfaceAddressItem (elems (RouteOpt.DefaultInterfaceAddress options))))) rule in
  let* rule := add append_items
    (when (given (RouteOpt.SourceMACAddress options)) (Ok (NewSourceMACAddressItem (elems (RouteOpt.SourceMACAddress options))))) rule in
  let* rule := add append_items
    (when (given (RouteOpt.SourceHostname options)) (Ok (NewSourceHostnameItem (elems (RouteOpt.SourceHostname options))))) rule in
  add append_items (when (given (RouteOpt.PreferredBy options)) (Ok (NewPreferredByItem (elems (RouteOpt.PreferredBy options))))) rule.

Definition NewDefaultRule (options : RouteOpt.DefaultRule) : result RouteRuleObject :=
  let* action := with_cause "action" (NewRuleAction (RouteOpt.ruleAction options)) in
  let* rule := routeItems options in
  let* ruleSet :=
    if given (RouteOpt.RuleSet options) then
      let* _ := guard (RouteOpt.Deprecated_RulesetIPCIDRMatchSource options)
        (ENew "rule_set_ipcidr_match_source is deprecated in sing-box 1.10.0 and removed in sing-box 1.11.0") in
      Ok (Some (mkRuleSetRef (elems (RouteOpt.RuleSet options)) [] (RouteOpt.RuleSetIPCIDRMatchSource options) false))
    else Ok None in
  Ok (DefaultObject rule ruleSet tt action).

(** [NewLogicalRule], over [NewRule] for the sub-rules. *)
Definition NewLogicalRule (NewSubRule : RouteOpt.Rule -> result RouteRuleObject) (options : RouteOpt.LogicalRule RouteOpt.Rule)
    : result RouteRuleObject :=
  let* action := with_cause "action" (NewRuleAction (RouteOpt.logicalAction options)) in
  let* mode :=
    if String.eqb (RouteOpt.Mode options) "and" then Ok LogicalTypeAnd
    else if String.eqb (RouteOpt.Mode options) "or" then Ok LogicalTypeOr
    else Err (ENew ("unknown logical mode: " +:+ RouteOpt.Mode options)) in
  let* rules := mapi_result subRuleMsg
    (fun subOptions => let* _ := validateNoNestedRuleActions true subOptions in NewSubRule subOptions) 0 (RouteOpt.Rules options) in
  Ok (LogicalObject mode rules (RouteOpt.LogicalInvert options) action).

(** [case "", C.RuleActionTypeRoute: if Outbound == "" && checkOutbound]. *)
Definition checkRouteOutbound (checkOutbound : bool) (action : RouteOpt.RuleAction) : result unit :=
  guard ((String.eqb (RouteOpt.Action action) "" || String.eqb (RouteOpt.Action action) RuleActionTypeRoute)
         && (String.eqb (RouteOpt.Outbound (RouteOpt.RouteOptions action)) "" && checkOutbound))
    (ENew "missing outbound field").

Fixpoint NewRule (checkOutbound : bool) (options : RouteOpt.Rule) : result RouteRuleObject :=
  match options with
  | RouteOpt.mkRule t d l =>
      if Opt.isDefaultType t then
        let* _ := guard (negb (RouteOpt.Default_IsValid d)) ErrMissingConditions in
        let* _ := checkRouteOutbound checkOutbound (RouteOpt.ruleAction d) in
        NewDefaultRule d
      else if String.eqb t Opt.RuleTypeLogical then
        let* valid := RouteOpt.Logical_IsValid l in
        let* _ := guard (negb valid) ErrMissingConditions in
        let* _ := checkRouteOutbound checkOutbound (RouteOpt.logicalAction l) in
        NewLogicalRule (NewRule false) l
      else Err (ENew ("unknown rule type: " +:+ t))
  end.

(** ** Starting *)

(** The outbound manager as [preferred_by] reads it: an outbound's type, and
    its preferred routes when it has them. *)
Context (preferred : string -> option (string * option PreferredOutbound)).

Fixpoint preferred_outbounds (outboundTags : list string) (outbounds : list PreferredOutbound) : result (list PreferredOutbound) :=
  match outboundTags with
  | [] => Ok outbounds
  | outboundTag :: rest =>
      match preferred outboundTag with
      | None => Err (ENew ("outbound not found: " +:+ outboundTag))
      | Some (type_, None) => Err (ENew ("outbound type does not support preferred routes: " +:+ type_))
      | Some (_, Some outbound) => preferred_outbounds rest (outbounds ++ [outbound])
      end
  end.

(** [PreferredByItem.Start]; a ClashModeItem finds its server, which is part of
    the state its Match reads. *)
Definition route_item_started (item : RuleItem) : result RuleItem :=
  match item with
  | PreferredByItem outboundTags outbounds =>
      let* outbounds := preferred_outbounds outboundTags outbounds in Ok (PreferredByItem outboundTags outbounds)
  | _ => Ok item
  end.

(** ** What matchRule walks *)

Context (ruleSets : string -> option (list Rule * RuleSetMetadata)).

Fixpoint tree_view (rule : RouteRuleObject) : Rule :=
  match rule with
  | DefaultObject r ruleSet _ _ =>
      DefaultRule r (option_map (fun ref => mkRuleSetItem (map (ruleSet_rules ruleSets) (heldTags ref)) (ref_matchSource ref)
                                              (ref_acceptEmpty ref)) ruleSet)
  | LogicalObject mode rules inverted _ => LogicalRule mode (map tree_view rules) inverted
  end.

Definition route_view (rule : RouteRuleObject) : RouteRule := mkRouteRule (tree_view rule) (Action rule).
End WithEnv.
