(* ===== verification/RouteRuleTheorems.v ===== *)
(** * What route rules mean (route/rule/rule_default.go)

    [route_spec] reads the meaning of a route rule off its options, without
    items, groups or match states; the theorem of the file is that a rule that
    was built and started matches exactly so.  It uses the lemmas on
    constructor steps of HeadlessRule. *)
From Stdlib Require Import ZArith Lia Bool.
From S2P Require Import Prelude GoIO DnsMsg Metadata RuleItem MatchState RuleEngine RuleTheorems DemoEnv HeadlessRule RuleBlind Srs SavedBinary RuleSet RuleSetTheorems RuleObject DnsClient DnsOptions DnsRule DnsRuleBuild RouteMatch RouteOptions RouteRule.

(** ** Specification *)

Section Spec.
Context `{GE : GoEnv} (rt : RuntimeState).
Context (preferred : string -> option (string * option PreferredOutbound)).

(** The outbounds of a list of tags that have preferred routes. *)
Definition preferredRoutes (tags : list string) : list PreferredOutbound :=
  omap (fun tag => match preferred tag with Some (_, routes) => routes | None => None end) tags.

Definition source_spec (o : RouteOpt.DefaultRule) (md : InboundContext) : bool :=
  wanted (RouteOpt.Inbound o) (bool_decide (Inbound md ∈ elems (RouteOpt.Inbound o)))
  && (negb (0 <? RouteOpt.IPVersion o) || IPVersionItem_Match (RouteOpt.IPVersion o =? 6) md)
  && wanted (RouteOpt.Network o) (bool_decide (Network md ∈ elems (RouteOpt.Network o)))
  && wanted (RouteOpt.AuthUser o) (bool_decide (User md ∈ elems (RouteOpt.AuthUser o)))
  && wanted (RouteOpt.Protocol o) (bool_decide (Protocol md ∈ elems (RouteOpt.Protocol o)))
  && wanted (RouteOpt.Client o) (bool_decide (Metadata.Client md ∈ elems (RouteOpt.Client o))).

(** The process that opened the connection. *)
Definition owner_spec (o : RouteOpt.DefaultRule) (md : InboundContext) : bool :=
  let when_known (p : ConnectionOwner -> bool) := match ProcessInfo md with Some info => p info | None => false end in
  let when_path (p : string -> bool) :=
    when_known (fun info => negb (String.eqb (ProcessPath info) "") && p (ProcessPath info)) in
  wanted (RouteOpt.ProcessName o) (when_path (fun path => bool_decide (filepath_Base path ∈ elems (RouteOpt.ProcessName o))))
  && wanted (RouteOpt.ProcessPath o) (when_path (fun path => bool_decide (path ∈ elems (RouteOpt.ProcessPath o))))
  && wanted (RouteOpt.ProcessPathRegex o) (when_path (regexes_match (elems (RouteOpt.ProcessPathRegex o))))
  && wanted (RouteOpt.User o)
       (when_known (fun info => negb (String.eqb (UserName info) "") && bool_decide (UserName info ∈ elems (RouteOpt.User o))))
  && wanted (RouteOpt.UserID o)
       (when_known (fun info => negb (UserId info =? -1) && bool_decide (UserId info ∈ elems (RouteOpt.UserID o)))).

(** The state of the program and of the network. *)
Definition state_spec (o : RouteOpt.DefaultRule) (md : InboundContext) : bool :=
  let when_interface (p : NetworkInterface -> bool) := match DefaultNetworkInterface rt with Some ni => p ni | None => false end in
  (String.eqb (RouteOpt.ClashMode o) ""
   || match ClashServer_Mode rt with Some mode => strings_EqualFold mode (RouteOpt.ClashMode o) | None => false end)
  && wanted (RouteOpt.NetworkType o) (when_interface (fun ni => bool_decide (ni_Type ni ∈ elems (RouteOpt.NetworkType o))))
  && (negb (RouteOpt.NetworkIsExpensive o) || when_interface ni_Expensive)
  && (negb (RouteOpt.NetworkIsConstrained o) || when_interface ni_Constrained)
  && wanted (RouteOpt.WIFISSID o) (bool_decide (WIFIState_SSID rt ∈ elems (RouteOpt.WIFISSID o)))
  && wanted (RouteOpt.WIFIBSSID o) (bool_decide (WIFIState_BSSID rt ∈ map NormalizeWIFIBSSID (elems (RouteOpt.WIFIBSSID o))))
  && wanted (RouteOpt.InterfaceAddress o)
       (InterfaceAddressItem_Match rt (fold_left (fun m '(k, prefixes) => <[k := prefixes]> m) (elems (RouteOpt.InterfaceAddress o)) ∅))
  && wanted (RouteOpt.NetworkInterfaceAddress o)
       (NetworkInterfaceAddressItem_Match rt
          (fold_left (fun m '(k, prefixes) => <[k := prefixes]> m) (elems (RouteOpt.NetworkInterfaceAddress o)) ∅))
  && wanted (RouteOpt.DefaultInterfaceAddress o) (DefaultInterfaceAddressItem_Match rt (elems (RouteOpt.DefaultInterfaceAddress o))).

(** The host the connection comes from. *)
Definition neighbor_spec (o : RouteOpt.DefaultRule) (md : InboundContext) : bool :=
  wanted (RouteOpt.SourceMACAddress o)
    (match SourceMACAddress md with
     | Some mac => bool_decide (HardwareAddr_String mac ∈ map (fun address =>
         match ParseMAC address with Ok parsed => HardwareAddr_String parsed | _ => address end) (elems (RouteOpt.SourceMACAddress o)))
     | None => false end)
  && wanted (RouteOpt.SourceHostname o)
       (negb (String.eqb (SourceHostname md) "") && bool_decide (SourceHostname md ∈ elems (RouteOpt.SourceHostname o))).

Definition has_route_domain (o : RouteOpt.DefaultRule) : bool :=
  given (RouteOpt.Domain o) || given (RouteOpt.DomainSuffix o) || given (RouteOpt.DomainKeyword o) || given (RouteOpt.DomainRegex o).

Definition route_domain_spec (o : RouteOpt.DefaultRule) (md : InboundContext) : bool :=
  let host := strings_ToLower (domainHost md) in
  negb (String.eqb (domainHost md) "") &&
  (((given (RouteOpt.Domain o) || given (RouteOpt.DomainSuffix o))
    && Matcher_Match (NewMatcher (elems (RouteOpt.Domain o)) (elems (RouteOpt.DomainSuffix o)) false) host)
   || existsb (strings_Contains host) (elems (RouteOpt.DomainKeyword o))
   || regexes_match (elems (RouteOpt.DomainRegex o)) host).

(** Does the rule impose any condition? *)
Definition has_route_conditions (o : RouteOpt.DefaultRule) : bool :=
  given (RouteOpt.Inbound o) || (0 <? RouteOpt.IPVersion o) || given (RouteOpt.Network o) || given (RouteOpt.AuthUser o)
  || given (RouteOpt.Protocol o) || given (RouteOpt.Client o) || has_route_domain o || given (RouteOpt.SourceIPCIDR o)
  || RouteOpt.SourceIPIsPrivate o || given (RouteOpt.IPCIDR o) || RouteOpt.IPIsPrivate o || given (RouteOpt.SourcePort o)
  || given (RouteOpt.SourcePortRange o) || given (RouteOpt.Port o) || given (RouteOpt.PortRange o) || isProcessRule o
  || negb (String.eqb (RouteOpt.ClashMode o) "") || given (RouteOpt.NetworkType o) || RouteOpt.NetworkIsExpensive o
  || RouteOpt.NetworkIsConstrained o || isWIFIRule o || given (RouteOpt.InterfaceAddress o)
  || given (RouteOpt.NetworkInterfaceAddress o) || given (RouteOpt.DefaultInterfaceAddress o) || isNeighborRule o
  || given (RouteOpt.PreferredBy o).

Definition route_default_spec (o : RouteOpt.DefaultRule) (md : InboundContext) : bool :=
  source_spec o md && owner_spec o md && state_spec o md && neighbor_spec o md
  && wanted (RouteOpt.PreferredBy o) (PreferredByItem_Match (preferredRoutes (elems (RouteOpt.PreferredBy o))) md)
  (* source address *)
  && (negb (given (RouteOpt.SourceIPCIDR o) || RouteOpt.SourceIPIsPrivate o)
      || cidr_match true (RouteOpt.SourceIPCIDR o) None md
      || (RouteOpt.SourceIPIsPrivate o && IPIsPrivateItem_Match true md))
  (* source port *)
  && (negb (given (RouteOpt.SourcePort o) || given (RouteOpt.SourcePortRange o))
      || bool_decide (Socksaddr_Port (Source md) ∈ elems (RouteOpt.SourcePort o))
      || port_in_ranges (elems (RouteOpt.SourcePortRange o)) (Socksaddr_Port (Source md)))
  (* destination address: domain or address *)
  && (negb (has_route_domain o || given (RouteOpt.IPCIDR o) || RouteOpt.IPIsPrivate o)
      || route_domain_spec o md || cidr_match false (RouteOpt.IPCIDR o) None md
      || (RouteOpt.IPIsPrivate o && IPIsPrivateItem_Match false md))
  (* destination port *)
  && (negb (given (RouteOpt.Port o) || given (RouteOpt.PortRange o))
      || bool_decide (Socksaddr_Port (Destination md) ∈ elems (RouteOpt.Port o))
      || port_in_ranges (elems (RouteOpt.PortRange o)) (Socksaddr_Port (Destination md))).

Fixpoint route_spec (r : RouteOpt.Rule) (md : InboundContext) : bool :=
  match r with
  | RouteOpt.mkRule t o l =>
      if Opt.isDefaultType t then
        if has_route_conditions o then xorb (RouteOpt.Invert o) (route_default_spec o md) else true
      else xorb (RouteOpt.LogicalInvert l)
             (if String.eqb (RouteOpt.Mode l) "and" then forallb (fun r => route_spec r md) (RouteOpt.Rules l)
              else existsb (fun r => route_spec r md) (RouteOpt.Rules l))
  end.

(** No rule of the tree refers to a rule-set. *)
Fixpoint without_rule_sets (r : RouteOpt.Rule) : bool :=
  match r with
  | RouteOpt.mkRule t o l =>
      if Opt.isDefaultType t then negb (given (RouteOpt.RuleSet o)) else forallb without_rule_sets (RouteOpt.Rules l)
  end.
End Spec.

(** ** The constructed rule *)

Section Steps.
Context `{GE : GoEnv}.

Lemma bind_guard_inv {B} cond err (k : unit -> result B) x : bind_result (guard cond err) k = Ok x -> k tt = Ok x.
Proof. by destruct cond. Qed.

Lemma step_ok_with_cause b c (m : result RuleItem) : step_ok (when b (with_cause c m)) = step_ok (when b m).
Proof. destruct b; [|done]. by destruct m. Qed.

Context (rt : RuntimeState).

Lemma any_built_domains d s md :
  let step := when (given d || given s) (NewDomainItem (elems d) (elems s)) in
  step_ok step = true ->
  matchAnyItem rt (built step) md =
    negb (String.eqb (domainHost md) "")
    && ((given d || given s) && Matcher_Match (NewMatcher (elems d) (elems s) false) (strings_ToLower (domainHost md))).
Proof.
  intros step. subst step. destruct (given d || given s); [|by rewrite andb_false_r]. cbn [when]. unfold NewDomainItem.
  do 2 (case_bool_decide; [done|]). intros _. cbn. rewrite orb_false_r. unfold DomainItem_Match. by destruct (String.eqb _ _).
Qed.

Lemma any_built_regex l md :
  step_ok (when (given l) (NewDomainRegexItem (elems l))) = true ->
  matchAnyItem rt (built (when (given l) (NewDomainRegexItem (elems l)))) md =
  negb (String.eqb (domainHost md) "") && regexes_match (elems l) (strings_ToLower (domainHost md)).
Proof. rewrite <- (step_ok_with_cause _ ""), <- (built_with_cause _ ""). apply any_built_domain_regex. Qed.

Lemma any_built_cidrs isSource l c md :
  step_ok (when (given l) (with_cause c (NewIPCIDRItem isSource (elems l)))) = true ->
  matchAnyItem rt (built (when (given l) (with_cause c (NewIPCIDRItem isSource (elems l))))) md = cidr_match isSource l None md.
Proof. exact (any_built_cidr rt isSource l c None md). Qed.
End Steps.

(** Run the steps of [routeItems] in hypothesis [H]. *)
Ltac run_route_steps H :=
  repeat (first [apply bind_guard_inv in H | apply bind_add_inv in H as (? & ? & ? & H)]; simpl_rule H);
  apply add_inv in H as [? H];
  match type of H with context [built ?step] =>
    let l := fresh "l" in let E := fresh "E" in remember (built step) as l eqn:E; symmetry in E end;
  simpl_rule H; subst.

Ltac route_case H :=
  unfold routeItems in H; run_route_steps H;
  cbn [items sourceAddressItems sourcePortItems destinationAddressItems destinationIPCIDRItems destinationPortItems allItems app];
  rewrite ?nonempty_app, ?matchAnyItem_app.

Section Groups.
Context `{GE : GoEnv} (rt : RuntimeState).
Context (preferred : string -> option (string * option PreferredOutbound)).
Abbreviation start_item := (route_item_started preferred).

Lemma invert_routeItems o r : routeItems o = Ok r -> invert r = RouteOpt.Invert o.
Proof. intros H. by route_case H. Qed.

Lemma sourceAddress_routeItems o r md :
  routeItems o = Ok r ->
  nonempty (sourceAddressItems r) = given (RouteOpt.SourceIPCIDR o) || RouteOpt.SourceIPIsPrivate o /\
  matchAnyItem rt (sourceAddressItems r) md =
    cidr_match true (RouteOpt.SourceIPCIDR o) None md || (RouteOpt.SourceIPIsPrivate o && IPIsPrivateItem_Match true md).
Proof.
  intros H. route_case H. rewrite !nonempty_built, !is_nil_when, !negb_involutive by done. split; [done|].
  by rewrite any_built_cidrs, matchAny_built_when.
Qed.

Lemma destinationIPCIDR_routeItems o r md :
  routeItems o = Ok r ->
  nonempty (destinationIPCIDRItems r) = given (RouteOpt.IPCIDR o) || RouteOpt.IPIsPrivate o /\
  matchAnyItem rt (destinationIPCIDRItems r) md =
    cidr_match false (RouteOpt.IPCIDR o) None md || (RouteOpt.IPIsPrivate o && IPIsPrivateItem_Match false md).
Proof.
  intros H. route_case H. rewrite !nonempty_built, !is_nil_when, !negb_involutive by done. split; [done|].
  by rewrite any_built_cidrs, matchAny_built_when.
Qed.

Lemma sourcePort_routeItems o r md :
  routeItems o = Ok r ->
  nonempty (sourcePortItems r) = given (RouteOpt.SourcePort o) || given (RouteOpt.SourcePortRange o) /\
  matchAnyItem rt (sourcePortItems r) md =
    bool_decide (Socksaddr_Port (Source md) ∈ elems (RouteOpt.SourcePort o))
    || port_in_ranges (elems (RouteOpt.SourcePortRange o)) (Socksaddr_Port (Source md)).
Proof.
  intros H. route_case H. rewrite !nonempty_built, !is_nil_when, !negb_involutive by done. split; [done|].
  rewrite matchAny_built_when, any_built_port_range by done. cbn [NewPortItem Match PortItem_Match].
  by rewrite map_get_map_of, given_elem.
Qed.

Lemma destinationPort_routeItems o r md :
  routeItems o = Ok r ->
  nonempty (destinationPortItems r) = given (RouteOpt.Port o) || given (RouteOpt.PortRange o) /\
  matchAnyItem rt (destinationPortItems r) md =
    bool_decide (Socksaddr_Port (Destination md) ∈ elems (RouteOpt.Port o))
    || port_in_ranges (elems (RouteOpt.PortRange o)) (Socksaddr_Port (Destination md)).
Proof.
  intros H. route_case H. rewrite !nonempty_built, !is_nil_when, !negb_involutive by done. split; [done|].
  rewrite matchAny_built_when, any_built_port_range by done. cbn [NewPortItem Match PortItem_Match].
  by rewrite map_get_map_of, given_elem.
Qed.

Lemma destinationAddress_routeItems o r md :
  routeItems o = Ok r ->
  nonempty (destinationAddressItems r) = has_route_domain o /\
  matchAnyItem rt (destinationAddressItems r) md = route_domain_spec o md.
Proof.
  intros H. route_case H. rewrite any_built_domains, any_built_keyword, any_built_regex by done.
  rewrite !nonempty_built, !is_nil_when, !negb_involutive by done. split.
  - unfold has_route_domain. by rewrite <- !orb_assoc.
  - unfold route_domain_spec. cbn zeta. by rewrite <- !andb_orb_distrib_r, <- !orb_assoc.
Qed.

Lemma allItems_routeItems o r : routeItems o = Ok r -> nonempty (allItems r) = has_route_conditions o.
Proof.
  intros H. route_case H. rewrite !nonempty_built, !is_nil_when, !negb_involutive by done.
  unfold has_route_conditions, has_route_domain, isProcessRule, isWIFIRule, isNeighborRule. by rewrite <- !orb_assoc.
Qed.

(** *** Starting the items *)

Definition plain_item (it : RuleItem) : bool := match it with PreferredByItem _ _ => false | _ => true end.

Lemma map_result_plain l : forallb plain_item l = true -> map_result start_item l = Ok l.
Proof.
  induction l as [|it l IH]; [done|]. cbn [forallb map_result]. intros [Hi Hl]%andb_true_iff.
  rewrite IH by done. by destruct it.
Qed.

Lemma map_result_app {A B} (f : A -> result B) l1 l2 :
  map_result f (l1 ++ l2) = let* x := map_result f l1 in let* y := map_result f l2 in Ok (x ++ y).
Proof.
  induction l1 as [|a l1 IH]; cbn [app map_result].
  - cbn. by destruct (map_result f l2).
  - destruct (f a); cbn [bind_result]; [|done..]. rewrite IH. destruct (map_result f l1); cbn [bind_result]; [|done..].
    by destruct (map_result f l2).
Qed.

Lemma preferred_outbounds_spec tags : forall acc outs,
  preferred_outbounds preferred tags acc = Ok outs -> outs = acc ++ preferredRoutes preferred tags.
Proof.
  induction tags as [|tag tags IH]; intros acc outs H; cbn in H; [injection H as <-; by rewrite app_nil_r|].
  unfold preferredRoutes. cbn. destruct (preferred tag) as [[type_ [routes|]]|]; [|done..].
  apply IH in H as ->. by rewrite <- app_assoc.
Qed.

Lemma plain_version v it :
  (if (v =? 4) || (v =? 6) then Ok (NewIPVersionItem (v =? 6)) else Err (ENew ("invalid ip version: " +:+ pretty v))) = Ok it ->
  plain_item it = true.
Proof. destruct (_ || _); [by intros [= <-]|done..]. Qed.

Ltac plain_steps :=
  rewrite ?forallb_app, !andb_true_iff; split_and!; first [item_step | apply forallb_when_built; apply plain_version].

(** *** The items of one option *)

Lemma UserItem_map_of l md :
  UserItem_Match (map_of l) md =
  match ProcessInfo md with Some info => negb (String.eqb (UserName info) "") && bool_decide (UserName info ∈ l) | None => false end.
Proof. unfold UserItem_Match. destruct (ProcessInfo md); [|done]. rewrite map_get_map_of. by destruct (String.eqb _ _). Qed.

Lemma UserIdItem_map_of l md :
  UserIdItem_Match (map_of l) md =
  match ProcessInfo md with Some info => negb (UserId info =? -1) && bool_decide (UserId info ∈ l) | None => false end.
Proof. unfold UserIdItem_Match. destruct (ProcessInfo md); [|done]. rewrite map_get_map_of. by destruct (_ =? _). Qed.

Lemma SourceMACAddressItem_map_of l md :
  SourceMACAddressItem_Match (map_of l) md =
  match SourceMACAddress md with Some mac => bool_decide (HardwareAddr_String mac ∈ l) | None => false end.
Proof. unfold SourceMACAddressItem_Match. destruct (SourceMACAddress md); [|done]. by rewrite map_get_map_of. Qed.

Lemma SourceHostnameItem_map_of l md :
  SourceHostnameItem_Match (map_of l) md = negb (String.eqb (SourceHostname md) "") && bool_decide (SourceHostname md ∈ l).
Proof. unfold SourceHostnameItem_Match. rewrite map_get_map_of. by destruct (String.eqb _ _). Qed.

Lemma all_built_version v md :
  let step := when (0 <? v) (if (v =? 4) || (v =? 6) then Ok (NewIPVersionItem (v =? 6))
                             else Err (ENew ("invalid ip version: " +:+ pretty v))) in
  step_ok step = true ->
  forallb (fun it => Match rt it md) (built step) = negb (0 <? v) || IPVersionItem_Match (v =? 6) md.
Proof.
  intros step. subst step. destruct (0 <? v); [|done]. cbn [when]. destruct (_ || _); [|done]. intros _. apply andb_true_r.
Qed.

(** The rule without its preferred_by item, and that item. *)
Lemma routeItems_split o r :
  routeItems o = Ok r -> exists its all,
    let last := built (when (given (RouteOpt.PreferredBy o)) (Ok (NewPreferredByItem (elems (RouteOpt.PreferredBy o))))) in
    items r = its ++ last /\ allItems r = all ++ last /\ forallb plain_item its = true /\ forallb plain_item all = true /\
    forall md, forallb (fun it => Match rt it md) its = source_spec o md && owner_spec o md && state_spec rt o md && neighbor_spec o md.
Proof.
  intros H. route_case H. eexists _, _. split; [reflexivity|]. split; [reflexivity|]. do 2 (split; [plain_steps|]). intros md.
  rewrite !forallb_app, !all_built_when, all_built_process_regex, all_built_version by done.
  unfold NewInboundRule, NewNetworkItem, NewAuthUserItem, NewProtocolItem, NewClientItem, NewProcessItem, NewProcessPathItem,
    NewUserItem, NewUserIDItem, NewClashModeItem, NewNetworkTypeItem, NewWIFISSIDItem, NewWIFIBSSIDItem, NewInterfaceAddressItem,
    NewNetworkInterfaceAddressItem, NewDefaultInterfaceAddressItem, NewSourceMACAddressItem, NewSourceHostnameItem. cbn [Match].
  rewrite !map_get_map_of, ProcessItem_map_of, ProcessPathItem_map_of, UserItem_map_of, UserIdItem_map_of,
    SourceMACAddressItem_map_of, SourceHostnameItem_map_of.
  unfold source_spec, owner_spec, state_spec, neighbor_spec, wanted. cbn zeta.
  by rewrite ?andb_true_r, ?negb_involutive, <- !andb_assoc.
Qed.

(** A rule that was built and started. *)
Lemma routeItems_started o r r' md :
  routeItems o = Ok r -> items_started start_item r = Ok r' ->
  nonempty (allItems r') = nonempty (allItems r) /\ invert r' = invert r /\
  sourceAddressItems r' = sourceAddressItems r /\ sourcePortItems r' = sourcePortItems r /\
  destinationAddressItems r' = destinationAddressItems r /\ destinationIPCIDRItems r' = destinationIPCIDRItems r /\
  destinationPortItems r' = destinationPortItems r /\
  forallb (fun it => Match rt it md) (items r') =
    source_spec o md && owner_spec o md && state_spec rt o md && neighbor_spec o md
    && wanted (RouteOpt.PreferredBy o) (PreferredByItem_Match (preferredRoutes preferred (elems (RouteOpt.PreferredBy o))) md).
Proof.
  intros H Hs. destruct (routeItems_split o r H) as (its & all & Hi & Ha & Hpi & Hpa & Hm). cbn zeta in *.
  unfold items_started in Hs. rewrite Hi, Ha, !map_result_app, !map_result_plain in Hs by done. cbn [bind_result] in Hs.
  rewrite Ha, nonempty_app. unfold wanted. destruct (given (RouteOpt.PreferredBy o)); cbn in Hs |- *.
  - destruct (preferred_outbounds _ _ _) as [outs| |] eqn:Ep; cbn in Hs; [|done..]. rewrite map_result_plain in Hs by done.
    cbn in Hs. injection Hs as <-. cbn.
    apply preferred_outbounds_spec in Ep as ->. rewrite nonempty_app, forallb_app, Hm. cbn. by rewrite andb_true_r.
  - rewrite map_result_plain in Hs by done. cbn in Hs. injection Hs as <-. cbn. rewrite ?nonempty_app, forallb_app, Hm. done.
Qed.

Lemma route_default_positive o r r' md :
  routeItems o = Ok r -> items_started start_item r = Ok r' -> IPCIDRMatchSource md = false ->
  IgnoreDestinationIPCIDRMatch md = false -> default_positive rt r' md = route_default_spec rt preferred o md.
Proof.
  intros H Hs Hsrc Hi. destruct (routeItems_started o r r' md H Hs) as (_ & _ & Esa & Esp & Eda & Edc & Edp & Em).
  unfold default_positive, route_default_spec, requiresSourceAddressMatch, requiresDestinationAddressMatch,
    sourceGroup, destinationGroup, destinationIPCIDRMatchesSource, destinationIPCIDRMatchesDestination.
  rewrite Hsrc, Hi, Em, Esa, Esp, Eda, Edc, Edp. cbn [negb andb].
  destruct (sourceAddress_routeItems _ _ md H) as [-> ->]. destruct (sourcePort_routeItems _ _ md H) as [-> ->].
  destruct (destinationAddress_routeItems _ _ md H) as [-> ->]. destruct (destinationPort_routeItems _ _ md H) as [-> ->].
  destruct (destinationIPCIDR_routeItems _ _ md H) as [Hc Hm].
  rewrite (matchAnyItem_nonempty rt (destinationIPCIDRItems r)), Hm, Hc. by rewrite !orb_false_r, !orb_assoc.
Qed.
End Groups.

(** ** Rule trees *)

Section Tree.
Context `{GE : GoEnv}.
Context (ParseSocksaddrHostPort : string -> Z -> Socksaddr) (PlatformSupported : bool).
Context (dialer_New : RouteOpt.DialerOptions -> result unit).
Abbreviation newRule := (NewRule ParseSocksaddrHostPort PlatformSupported dialer_New).

(** The shape of a rule that was built. *)
Lemma NewRule_inv checkOutbound r obj :
  newRule checkOutbound r = Ok obj ->
  match r with
  | RouteOpt.mkRule t o l =>
      (Opt.isDefaultType t = true /\ exists d action,
         routeItems o = Ok d /\ NewRuleAction ParseSocksaddrHostPort PlatformSupported dialer_New (RouteOpt.ruleAction o) = Ok action /\
         obj = DefaultObject d (if given (RouteOpt.RuleSet o)
                                then Some (mkRuleSetRef (elems (RouteOpt.RuleSet o)) [] (RouteOpt.RuleSetIPCIDRMatchSource o) false)
                                else None) tt action) \/
      (Opt.isDefaultType t = false /\ t = Opt.RuleTypeLogical /\ exists mode rules action,
         ((mode = LogicalTypeAnd /\ RouteOpt.Mode l = "and") \/ (mode = LogicalTypeOr /\ RouteOpt.Mode l = "or")) /\
         Forall2 (fun r obj => newRule false r = Ok obj) (RouteOpt.Rules l) rules /\
         NewRuleAction ParseSocksaddrHostPort PlatformSupported dialer_New (RouteOpt.logicalAction l) = Ok action /\
         obj = LogicalObject mode rules (RouteOpt.LogicalInvert l) action)
  end.
Proof.
  destruct r as [t o l]. cbn [NewRule]. intros H. destruct (Opt.isDefaultType t).
  - left. split; [done|]. apply bind_guard_inv, bind_guard_inv in H. unfold NewDefaultRule in H.
    destruct (NewRuleAction _ _ _ _) as [action| |] eqn:Ea; cbn [with_cause bind_result] in H; [|done..].
    destruct (routeItems o) as [d| |]; cbn [bind_result] in H; [|done..]. exists d, action. split_and!; [done..|].
    destruct (given (RouteOpt.RuleSet o)); cbn [bind_result] in H; [|by injection H as <-].
    destruct (RouteOpt.Deprecated_RulesetIPCIDRMatchSource o); cbn in H; [done|]. by injection H as <-.
  - right. destruct (String.eqb_spec t Opt.RuleTypeLogical) as [->|]; [|done]. split_and!; [done..|].
    destruct (RouteOpt.Logical_IsValid l); cbn [bind_result] in H; [|done..]. apply bind_guard_inv, bind_guard_inv in H.
    unfold NewLogicalRule in H. destruct (NewRuleAction _ _ _ _) as [action| |] eqn:Ea; cbn [with_cause bind_result] in H; [|done..].
    assert (forall rules, mapi_result subRuleMsg (fun subOptions => let* _ := validateNoNestedRuleActions true subOptions in newRule false subOptions)
      0 (RouteOpt.Rules l) = Ok rules -> Forall2 (fun r obj => newRule false r = Ok obj) (RouteOpt.Rules l) rules) as Hm.
    { intros rules Hr. apply mapi_result_Forall2 in Hr. eapply Forall2_impl; [exact Hr|]. intros x y. cbn beta.
      by destruct (validateNoNestedRuleActions true x). }
    destruct (String.eqb_spec (RouteOpt.Mode l) "and"); [|destruct (String.eqb_spec (RouteOpt.Mode l) "or"); [|done]];
      cbn [bind_result] in H; (destruct (mapi_result _ _ _ _) as [rules| |] eqn:Er; cbn [bind_result] in H; [|done..]); injection H as <-;
      (eexists _, _, _; split_and!; [|by apply Hm|done..]); auto.
Qed.

Context (rt : RuntimeState) (preferred : string -> option (string * option PreferredOutbound)).
Context (ruleSets : string -> option (list Rule * RuleSetMetadata)).

Lemma route_default_spec_reset o md :
  clean md -> route_default_spec rt preferred o (ResetRuleCache md) = route_default_spec rt preferred o md.
Proof. intros Hc. unfold route_default_spec. by rewrite !cidr_match_reset. Qed.

Lemma route_spec_reset r md : clean md -> route_spec rt preferred r (ResetRuleCache md) = route_spec rt preferred r md.
Proof.
  intros Hc. induction r as [t o l IH] using RouteOpt.Rule_tree_ind. cbn [route_spec].
  rewrite route_default_spec_reset by done. destruct (Opt.isDefaultType t); [done|]. f_equal.
  destruct (String.eqb _ _); [apply Forall2_forallb|apply Forall2_existsb]; by apply Forall_Forall2_diag.
Qed.

(** The rules of a logical rule start one by one. *)
Lemma start_all_Forall2 {A S} (start : A -> S -> result (option go_error * A * S)) rules : forall s rules' s',
  RuleObject.start_all start rules s = Ok (None, rules', s') ->
  Forall2 (fun rule rule' => exists s1 s2, start rule s1 = Ok (None, rule', s2)) rules rules'.
Proof.
  induction rules as [|rule rules IH]; intros s rules' s' H; cbn [RuleObject.start_all] in H; [injection H as <- <-; constructor|].
  destruct (start rule s) as [[[[e|] r1] s1]| |] eqn:E; cbn [bind_result] in H; [done| |done..].
  destruct (RuleObject.start_all start rules s1) as [[[e2 rs2] s2]| |] eqn:E2; cbn [bind_result] in H; [|done..].
  injection H as -> <- <-. constructor; [eauto|]. by eapply IH.
Qed.

Lemma route_Match_spec r : forall checkOutbound obj refs obj' refs' md,
  newRule checkOutbound r = Ok obj -> without_rule_sets r = true ->
  object_Start (route_item_started preferred) obj refs = Ok (None, obj', refs') -> clean md ->
  Rule_Match rt (tree_view ruleSets obj') md = route_spec rt preferred r md.
Proof.
  induction r as [t o l IH] using RouteOpt.Rule_tree_ind. intros checkOutbound obj refs obj' refs' md H Hw Hs Hc.
  cbn [without_rule_sets route_spec] in *.
  apply NewRule_inv in H as [(Ht & d & action & Hd & _ & ->)|(Ht & -> & mode & rules & action & Hm & Hr & _ & ->)]; rewrite Ht in Hw |- *.
  - apply negb_true_iff in Hw. rewrite Hw in Hs. cbn [object_Start] in Hs.
    destruct (items_started _ d) as [d'| |] eqn:Ed; [|done..]. injection Hs as <- _. cbn [tree_view option_map].
    destruct Hc as (Hsrc & He & Hi). rewrite Rule_Match_default by done.
    destruct (routeItems_started rt preferred o d d' md Hd Ed) as (Ea & Einv & _).
    rewrite (route_default_positive rt preferred o d d' md), Einv, (invert_routeItems o d Hd) by done.
    unfold no_items. rewrite andb_true_r, Ea, (allItems_routeItems o d Hd). by destruct (has_route_conditions o).
  - cbn [object_Start] in Hs. destruct (RuleObject.start_all _ rules refs) as [[[err rules'] refs1]| |] eqn:Es; cbn [bind_result] in Hs; [|done..].
    injection Hs as -> <- _. cbn [tree_view]. rewrite Rule_Match_logical. f_equal. apply start_all_Forall2 in Es.
    assert (Forall2 (fun rule r => Rule_Match rt rule (ResetRuleCache md) = route_spec rt preferred r md)
      (map (tree_view ruleSets) rules') (RouteOpt.Rules l)) as Hall.
    { apply Forall2_flip. revert rules' Es IH. clear - Hr Hw Hc. revert Hw.
      induction Hr as [|r obj rs objs E Hr IH']; intros Hw rules' Es Hf; inversion Es as [|? obj' ? objs' (s1 & s2 & E1) Es']; subst; [constructor|].
      inversion Hf; subst. cbn in Hw. apply andb_true_iff in Hw as [Hw1 Hw2]. cbn. constructor; [|by apply IH'].
      cbn. rewrite <- route_spec_reset by done. eauto using clean_reset. }
    destruct Hm as [[-> ->]|[-> ->]]; [by apply Forall2_forallb|by apply Forall2_existsb].
Qed.
End Tree.
