(* ===== verification/RouteRouter.v ===== *)
(** * The route router (route/router.go)

    What the router keeps: the rules, the tags of its rule-sets (the rule-sets
    themselves are those of RuleSet; the counts [refs] of the references on
    them are threaded through), and what it has to find out about a connection
    before the rules can be matched.

    The outcomes of the calls that do I/O are collected in [StartEnv]: the
    neighbor resolver, the group of rule-set starts, the process searcher; so
    are, for [Close], the errors of closing them. *)
From Stdlib Require Import ZArith Lia Bool.
From S2P Require Import Prelude GoIO DnsMsg Metadata RuleItem MatchState RuleEngine RuleTheorems HeadlessRule Srs SavedBinary RuleSet RuleSetTheorems RuleObject DnsClient DnsOptions OutboundManager DnsRule DnsRuleBuild RouteMatch RouteOptions RouteRule.

Module Route.

(** [option.DNSServerOptions]: the type, and NeighborDomain when the options are
    those of a local server. *)
Record DNSServerOptions := mkDNSServerOptions { srv_Type : string; srv_NeighborDomain : option (Listable string) }.

Definition hasLocalNeighborDNSServer (servers : list DNSServerOptions) : bool :=
  existsb (fun server => String.eqb (srv_Type server) "local"
                         && match srv_NeighborDomain server with Some domains => given domains | None => false end) servers.

Section WithEnv.
Context `{GE : GoEnv}.
Context (ParseSocksaddrHostPort : string -> Z -> Socksaddr) (PlatformSupported : bool).
Context (dialer_New : RouteOpt.DialerOptions -> result unit).

(** Trackers are compared by identity. *)
Record Router := mkRouter {
  rules : list RouteRuleObject;
  needFindProcess : bool;
  needFindNeighbor : bool;
  ruleSetTags : list string;
  hasUpdater : bool;
  hasProcessSearcher : bool;
  hasNeighborResolver : bool;
  trackers : list nat;
  started : bool;
}.

Definition NewRouter (optionRules : list RouteOpt.Rule) (findProcess findNeighbor : bool)
    (dnsRules : list DnsOpt.DNSRule) (servers : list DNSServerOptions) : Router :=
  mkRouter []
    (routeHasRule isProcessRule optionRules || hasDNSRule isProcessDNSRule dnsRules || findProcess)
    (routeHasRule isNeighborRule optionRules || hasDNSRule isNeighborDNSRule dnsRules
     || hasLocalNeighborDNSServer servers || findNeighbor)
    [] false false false [] false.

Definition set_rules (l : list RouteRuleObject) (r : Router) : Router :=
  mkRouter l (needFindProcess r) (needFindNeighbor r) (ruleSetTags r) (hasUpdater r) (hasProcessSearcher r)
    (hasNeighborResolver r) (trackers r) (started r).

Definition set_trackers (l : list nat) (r : Router) : Router :=
  mkRouter (rules r) (needFindProcess r) (needFindNeighbor r) (ruleSetTags r) (hasUpdater r) (hasProcessSearcher r)
    (hasNeighborResolver r) l (started r).

(** The loop over the rule-sets: the tag of an option, and the outcome of [R.NewRuleSet]. *)
Fixpoint newRuleSets (i : Z) (ruleSets : list (string * result unit)) (tags : list string) : result (list string) :=
  match ruleSets with
  | [] => Ok tags
  | (tag, new) :: rest =>
      if bool_decide (tag ∈ tags) then Err (ENew ("duplicate rule-set tag: " +:+ tag))
      else
        let* _ := with_cause ("parse rule-set[" +:+ pretty i +:+ "]") new in
        newRuleSets (i + 1) rest (tags ++ [tag])
  end.

(** [Initialize]; when it fails the program does not start. *)
Definition Initialize (optionRules : list RouteOpt.Rule) (ruleSets : list (string * result unit)) (r : Router) : result Router :=
  let* objects := mapi_result (fun i => "parse rule[" +:+ pretty i +:+ "]")
    (fun options =>
       let* _ := ValidateNoNestedRuleActions options in
       NewRule ParseSocksaddrHostPort PlatformSupported dialer_New false options) 0 optionRules in
  let* tags := newRuleSets 0 ruleSets (ruleSetTags r) in
  Ok (mkRouter (rules r ++ objects) (needFindProcess r) (needFindNeighbor r) tags (hasUpdater r) (hasProcessSearcher r)
        (hasNeighborResolver r) (trackers r) (started r)).

(** ** Start and Close *)

Record StartEnv := mkStartEnv {
  neighborResolverStart : result unit;               (* newNeighborResolver and its Start *)
  ruleSetGroup : result unit;                        (* StartContext of every rule-set *)
  ruleSetMetadata : string -> RuleSetMetadata;       (* Metadata of the started rule-sets *)
  isRemote : string -> bool;                         (* the rule-set of a tag is a *RemoteRuleSet *)
  newSearcher : result unit;                         (* process.NewSearcher, or the platform's *)
  preferredOutbound : string -> option (string * option PreferredOutbound);
}.

(** [Start]: the outcome, the router, the reference counts, and the rule-sets
    that are cleaned up. *)
Definition Start (env : StartEnv) (stage : StartStage) (r : Router) (refs : gmap string Z)
    : result (result unit * Router * gmap string Z * list string) :=
  match stage with
  | StartStateInitialize =>
      Ok (Ok tt,
          mkRouter (rules r) (needFindProcess r) (needFindNeighbor r) (ruleSetTags r) (hasUpdater r) (hasProcessSearcher r)
            (needFindNeighbor r && is_ok (neighborResolverStart env) || hasNeighborResolver r) (trackers r) (started r),
          refs, [])
  | StartStateStart =>
      match (if nonempty (ruleSetTags r) then ruleSetGroup env else Ok tt) with
      | Ok _ =>
          let needFindProcess := needFindProcess r || existsb (fun tag => ContainsProcessRule (ruleSetMetadata env tag)) (ruleSetTags r) in
          Ok (Ok tt,
              mkRouter (rules r) needFindProcess (needFindNeighbor r) (ruleSetTags r) (existsb (isRemote env) (ruleSetTags r))
                (needFindProcess && is_ok (newSearcher env) || hasProcessSearcher r)
                (hasNeighborResolver r) (trackers r) (started r),
              refs, [])
      | Err e => Ok (Err e, r, refs, [])
      | Panic s => Panic s
      end
  | StartStatePostStart =>
      let* x := startIndexed (route_item_started (preferredOutbound env)) (fun i => "initialize rule[" +:+ pretty i +:+ "]")
        (rules r) refs in
      let '(err, objects, refs) := x in
      match err with
      | Some e => Ok (Err e, set_rules objects r, refs, [])
      | None =>
          Ok (Ok tt,
              mkRouter objects (needFindProcess r) (needFindNeighbor r) (ruleSetTags r) (hasUpdater r) (hasProcessSearcher r)
                (hasNeighborResolver r) (trackers r) true,
              refs, [])
      end
  | StartStateStarted => Ok (Ok tt, r, refs, ruleSetTags r)
  end.

(** [E.Append] over the errors that occurred. *)
Definition append_errors (l : list (option go_error)) : option go_error :=
  fold_left (fun err e => match e, err with
    | None, _ => err
    | Some e, None => Some e
    | Some e, Some e0 => Some (EErrors e0 e)
    end) l None.

(** [Close]; [others] are the errors, in order, of the resolver, the updater, the
    rule-sets and the searcher.  Closing a rule returns no error. *)
Definition Close (others : list (option go_error)) (r : Router) (refs : gmap string Z)
    : result (option go_error * Router * gmap string Z) :=
  let* closed := RuleObject.close_all object_Close (rules r) refs in
  let '(objects, refs) := closed in
  Ok (append_errors others, set_rules objects r, refs).

(** ** Trackers *)

Definition AppendTracker (tracker : nat) (r : Router) : Router := set_trackers (trackers r ++ [tracker]) r.

Fixpoint remove_tracker (tracker : nat) (l : list nat) : list nat :=
  match l with
  | [] => []
  | existing :: rest => if (existing =? tracker)%nat then rest else existing :: remove_tracker tracker rest
  end.

Definition RemoveTracker (tracker : nat) (r : Router) : Router := set_trackers (remove_tracker tracker (trackers r)) r.

(** [RuleSet]: the tag is known to the router. *)
Definition RuleSet (tag : string) (r : Router) : bool := bool_decide (tag ∈ ruleSetTags r).
End WithEnv.
End Route.
