(* ===== verification/RouteRouterTheorems.v ===== *)
(** * Theorems on the route router

    - The router looks for the process of a connection only when a rule needs
      it: when [Start] leaves needFindProcess unset, no searcher would change
      the rule that is selected.
    - The references the rules take on the rule-sets are given back.
    - A rule built from its options and started means what the options say. *)
From Stdlib Require Import ZArith Lia Bool.
From stdpp Require Import relations.
From S2P Require Import Prelude GoIO DnsMsg Metadata RuleItem MatchState RuleEngine RuleTheorems DemoEnv HeadlessRule RuleBlind Srs SavedBinary RuleSet RuleSetTheorems RuleObject DnsClient DnsOptions OutboundManager DnsRule DnsRuleBuild RouteMatch RouteOptions RouteRule RouteRuleTheorems RouteRouter.

(** ** Connections that differ in their process only *)

(** The process, and the flag the rule engine resets before each rule. *)
Definition with_process (info : option ConnectionOwner) (d : bool) (m : RouteMetadata) : RouteMetadata :=
  set_context (set_DidMatch d (set_ProcessInfo info (rm_context m))) m.

Definition similar (m1 m2 : RouteMetadata) : Prop := exists info d, m1 = with_process info d m2.

#[export] Instance similar_equivalence : Equivalence similar.
Proof.
  split.
  - intros [[] ]. by eexists _, _.
  - intros ? [[] ] (info & d & ->). by eexists _, _.
  - intros ? ? [[] ] (info & d & ->) (info' & d' & ->). by eexists info, d.
Qed.

(** Outcomes that agree up to the process. *)
Definition same_outcome {B R} : relation (RouteMetadata * B * R) := prod_relation (prod_relation similar (=)) (=).

(** A searcher put into the services, or taken out of them. *)
Definition with_searcher (search : InboundContext -> option ConnectionOwner) (s : Services) : Services :=
  mkServices search (neighborResolver s) (fakeIPStore s) (LookupReverseMapping s) (Socksaddr_IsValid s) (Socksaddr_IsIPv4 s).

Section Walk.
Context `{GE : GoEnv} (rt : RuntimeState) (services : Services).
Context {peek : Type} (actionSniff : SniffAction -> RouteMetadata -> peek -> RouteMetadata * peek * result unit).
Context (actionResolve : ResolveAction -> RouteMetadata -> RouteMetadata * result unit) (release : peek -> peek).
Context (preMatch supportBypass : bool).

(** The two actions do not look at the process. *)
Context `{Hsniff : !Proper ((=) ==> similar ==> (=) ==> same_outcome) actionSniff}.
Context `{Hresolve : !Proper ((=) ==> similar ==> prod_relation similar (=)) actionResolve}.

#[local] Instance applyRouteOptions_similar o : Proper (similar ==> similar) (applyRouteOptions services o).
Proof.
  intros ? [[] ] (info & d & ->). exists info, d. unfold applyRouteOptions, override, with_process. cbn.
  by destruct (Socksaddr_IsValid _ _), (0 <? OverridePort o).
Qed.

#[local] Instance runAction_similar a :
  Proper (similar ==> (=) ==> same_outcome) (runAction actionSniff actionResolve preMatch supportBypass a).
Proof.
  intros m1 m2 Hm b ? <-. destruct a as [| |outbound options| | | |action|action]; cbn [runAction]; try done.
  - destruct Hm as (info & d & ->). destruct preMatch; cbn [negb].
    + cbn. destruct (String.eqb _ _); cbn; (split; [split; [by eexists _, _|done]|done]).
    + pose proof (Hsniff action action eq_refl _ m2 (ex_intro _ info (ex_intro _ d eq_refl)) b b eq_refl) as [[Hs Hb] Hr].
      destruct (actionSniff action (with_process info d m2) b) as [[m1' b1] r1], (actionSniff action m2 b) as [[m2' b2] r2].
      cbn in *. subst. done.
  - pose proof (Hresolve action action eq_refl _ _ Hm) as [Hs Hr].
    destruct (actionResolve action m1) as [m1' r1], (actionResolve action m2) as [m2' r2]. cbn in *. by subst.
Qed.

Lemma Rule_Match_mut_similar rule m1 m2 :
  all_items no_process rule = true -> similar m1 m2 ->
  fst (Rule_Match_mut rt rule (ResetRuleCache (rm_context m1))) = fst (Rule_Match_mut rt rule (ResetRuleCache (rm_context m2))) /\
  similar (set_context (snd (Rule_Match_mut rt rule (ResetRuleCache (rm_context m1)))) m1)
    (set_context (snd (Rule_Match_mut rt rule (ResetRuleCache (rm_context m2)))) m2).
Proof.
  intros Hp (info & d & ->).
  destruct (Rule_Match_mut_spec rt rule (ResetRuleCache (rm_context (with_process info d m2)))) as [d1 ->].
  destruct (Rule_Match_mut_spec rt rule (ResetRuleCache (rm_context m2))) as [d2 ->]. cbn [fst snd]. split.
  - by apply (blind_Match rt (set_ProcessInfo info) no_process (blind_process rt info) rule (ResetRuleCache (rm_context m2))).
  - by exists info, d1.
Qed.

Lemma matchRule_loop_similar rules : forallb (fun r => all_items no_process (rr_rule r)) rules = true ->
  forall index m1 m2 buffers, similar m1 m2 ->
  same_outcome (matchRule_loop rt services actionSniff actionResolve release preMatch supportBypass index rules m1 buffers)
    (matchRule_loop rt services actionSniff actionResolve release preMatch supportBypass index rules m2 buffers).
Proof.
  induction rules as [|rule rules IH]; intros Hp index m1 m2 buffers Hm; [done|].
  cbn [forallb] in Hp. apply andb_true_iff in Hp as [Hp Hps]. cbn [matchRule_loop].
  destruct (Rule_Match_mut_similar (rr_rule rule) m1 m2 Hp Hm) as [Hf Hs].
  destruct (Rule_Match_mut rt (rr_rule rule) (ResetRuleCache (rm_context m1))) as [b1 c1].
  destruct (Rule_Match_mut rt (rr_rule rule) (ResetRuleCache (rm_context m2))) as [b2 c2]. cbn [fst snd] in *. subst b2.
  destruct b1; cbn [negb]; [|by apply IH]. destruct (rr_action rule) as [a|]; [|done].
  set (m1' := match action_options a with Some o => _ | None => _ end).
  set (m2' := match action_options a with Some o => _ | None => _ end).
  assert (similar m1' m2') as Hs' by (subst m1' m2'; destruct (action_options a); [by apply applyRouteOptions_similar|done]).
  pose proof (runAction_similar a m1' m2' Hs' buffers buffers eq_refl) as [[Ha Hb] Hr].
  destruct (runAction _ _ _ _ a m1' buffers) as [[m1'' b1] r1], (runAction _ _ _ _ a m2' buffers) as [[m2'' b2] r2].
  cbn [fst snd] in *. subst. destruct r2 as [[]| |]; [by apply IH|done..].
Qed.
End Walk.

Section Prepare.
Context `{GE : GoEnv} (services : Services).

Lemma searchProcessInfo_shape search c : exists info, searchProcessInfo (with_searcher search services) c = set_ProcessInfo info c.
Proof.
  unfold searchProcessInfo. destruct c as [? ? ? ? ? ? ? ? ? ? ? ? ? process]. cbn. destruct process; [by eexists|].
  destruct (search _); by eexists.
Qed.

Lemma resolveNeighbor_process search info c :
  resolveNeighbor (with_searcher search services) (set_ProcessInfo info c) = set_ProcessInfo info (resolveNeighbor services c).
Proof.
  unfold resolveNeighbor. cbn. destruct (neighborResolver services) as [[mac hostname]|]; [|done].
  destruct (SourceMACAddress c); [done|]. by destruct (Addr_IsValid _).
Qed.

Lemma lookupDomain_similar search m1 m2 : similar m1 m2 ->
  prod_relation similar (=) (lookupDomain (with_searcher search services) m1) (lookupDomain services m2).
Proof.
  intros (info & d & ->). unfold lookupDomain. cbn.
  assert (forall x y, similar x y -> similar (with_process info d x) y) as Hw.
  { intros x y H. transitivity x; [by exists info, d|done]. }
  set (rev1 := if String.eqb (Domain (rm_context m2)) "" then _ else with_process info d m2).
  assert (similar rev1 (if String.eqb (Domain (rm_context m2)) "" then
      match LookupReverseMapping services (Socksaddr_Addr (Destination (rm_context m2))) with
      | Some domain => set_context (set_Domain domain (rm_context m2)) m2 | None => m2 end else m2)) as Hrev.
  { subst rev1. destruct (String.eqb _ _); [destruct (LookupReverseMapping _ _)|]; by exists info, d. }
  destruct (fakeIPStore services) as [[contains lookup]|]; [|done]. destruct (_ && _); [|done].
  destruct (lookup _) as [domain|]; [|split; [by exists info, d|done]].
  destruct (String.eqb domain ""); (split; [by exists info, d|done]).
Qed.

Lemma setIPVersion_similar search m1 m2 : similar m1 m2 ->
  similar (set_context (setIPVersion (with_searcher search services) (rm_context m1)) m1)
    (set_context (setIPVersion services (rm_context m2)) m2).
Proof.
  intros (info & d & ->). exists info, d. unfold setIPVersion. cbn.
  destruct (Socksaddr_IsIPv4 _ _); [done|]. by destruct (Socksaddr_IsIPv6 _).
Qed.

Lemma prepareMatch_similar search m :
  prod_relation similar (=) (prepareMatch (with_searcher search services) m)
    (let '(m, r) := lookupDomain services (set_context (resolveNeighbor services (rm_context m)) m) in
     (if is_ok r then set_context (setIPVersion services (rm_context m)) m else m, r)).
Proof.
  unfold prepareMatch. destruct (searchProcessInfo_shape search (rm_context m)) as [info ->]. rewrite resolveNeighbor_process.
  destruct (lookupDomain_similar search (set_context (set_ProcessInfo info (resolveNeighbor services (rm_context m))) m)
    (set_context (resolveNeighbor services (rm_context m)) m)) as [Hs Hr].
  { exists info, (DidMatch (resolveNeighbor services (rm_context m))). unfold with_process. cbn.
    by destruct (resolveNeighbor services (rm_context m)). }
  destruct (lookupDomain _ _) as [m1 r1], (lookupDomain services _) as [m2 r2]. cbn [fst snd] in *. subst r1.
  destruct (is_ok r2); (split; [|done]); [by apply setIPVersion_similar|done].
Qed.

Lemma prepareMatch_any search search' m :
  prod_relation similar (=) (prepareMatch (with_searcher search services) m) (prepareMatch (with_searcher search' services) m).
Proof.
  destruct (prepareMatch_similar search m) as [Hs Hr], (prepareMatch_similar search' m) as [Hs' Hr'].
  split; [by rewrite Hs, Hs'|by rewrite Hr, Hr'].
Qed.
End Prepare.

(** With rules that have no process item, every searcher leads to the same selection. *)
Lemma matchRule_any_searcher `{GE : GoEnv} (rt : RuntimeState) (services : Services) {peek : Type} (actionSniff : SniffAction -> RouteMetadata -> peek -> _) actionResolve release
    preMatch supportBypass rules search search' m buffers :
  Proper ((=) ==> similar ==> (=) ==> same_outcome) actionSniff ->
  Proper ((=) ==> similar ==> prod_relation similar (=)) actionResolve ->
  forallb (fun r => all_items no_process (rr_rule r)) rules = true ->
  same_outcome (matchRule rt (with_searcher search services) actionSniff actionResolve release preMatch supportBypass rules m buffers)
    (matchRule rt (with_searcher search' services) actionSniff actionResolve release preMatch supportBypass rules m buffers).
Proof.
  intros Hsniff Hresolve Hp. unfold matchRule. destruct (prepareMatch_any services search search' m) as [Hs Hr].
  destruct (prepareMatch _ m) as [m1 r1], (prepareMatch (with_searcher search' services) m) as [m2 r2]. cbn [fst snd] in *. subst r1.
  destruct r2; [|done..].
  by apply (matchRule_loop_similar rt (with_searcher search services) actionSniff actionResolve release preMatch supportBypass).
Qed.

(** ** Rules without process items *)

Section Rules.
Context `{GE : GoEnv}.
Context (ParseSocksaddrHostPort : string -> Z -> Socksaddr) (PlatformSupported : bool).
Context (dialer_New : RouteOpt.DialerOptions -> result unit).
Context (preferred : string -> option (string * option PreferredOutbound)).
Context (ruleSets : string -> option (list Rule * RuleSetMetadata)).
Abbreviation newRule := (NewRule ParseSocksaddrHostPort PlatformSupported dialer_New).
Abbreviation start_item := (route_item_started preferred).

Fixpoint route_normalized (r : RouteOpt.Rule) : bool :=
  match r with
  | RouteOpt.mkRule t _ l =>
      String.eqb t Opt.RuleTypeDefault || (String.eqb t Opt.RuleTypeLogical && forallb route_normalized (RouteOpt.Rules l))
  end.

Lemma routeItems_no_process o r :
  routeItems o = Ok r -> isProcessRule o = false -> forallb no_process (group_items r) = true.
Proof.
  intros H Hp. unfold isProcessRule in Hp. rewrite !orb_false_iff in Hp. destruct Hp as [[[[Hn Hpp] Hr] Hu] Hi].
  route_case H. unfold group_items.
  cbn [items sourceAddressItems sourcePortItems destinationAddressItems destinationIPCIDRItems destinationPortItems app].
  rewrite Hn, Hpp, Hr, Hu, Hi. rewrite ?forallb_app, !andb_true_iff. split_and!; try item_step.
  apply forallb_when_built. intros it. destruct (_ || _); [by intros [= <-]|done].
Qed.

Lemma started_no_process l l' : forallb no_process l = true -> map_result start_item l = Ok l' -> forallb no_process l' = true.
Proof.
  revert l'. induction l as [|it l IH]; intros l' Hp H; cbn [map_result] in H; [by injection H as <-|].
  cbn [forallb] in Hp. apply andb_true_iff in Hp as [Hi Hl].
  destruct (start_item it) as [it'| |] eqn:E; cbn [bind_result] in H; [|done..].
  destruct (map_result start_item l) as [l1| |]; cbn [bind_result] in H; [|done..]. injection H as <-. cbn [forallb].
  rewrite IH by done. rewrite andb_true_r. destruct it; cbn in E; try (by injection E as <-).
  destruct (preferred_outbounds _ _ _); cbn in E; [|done..]. by injection E as <-.
Qed.

Lemma items_started_no_process r r' :
  forallb no_process (group_items r) = true -> items_started start_item r = Ok r' -> forallb no_process (group_items r') = true.
Proof.
  unfold items_started. destruct (map_result start_item (allItems r)); cbn [bind_result]; [|done..].
  destruct (map_result start_item (items r)) as [its| |] eqn:E; cbn [bind_result]; [|done..]. unfold group_items.
  rewrite !forallb_app, !andb_true_iff. intros [Hi Hr] [= <-].
  cbn [items sourceAddressItems sourcePortItems destinationAddressItems destinationIPCIDRItems destinationPortItems].
  split; [by eapply started_no_process|done].
Qed.

Hypothesis sets_no_process : forall tag, forallb (all_items no_process) (ruleSet_rules ruleSets tag) = true.

Lemma object_no_process r : forall checkOutbound obj refs obj' refs',
  newRule checkOutbound r = Ok obj -> route_normalized r = true -> ruleHas isProcessRule r = false ->
  object_Start start_item obj refs = Ok (None, obj', refs') -> all_items no_process (tree_view ruleSets obj') = true.
Proof.
  induction r as [t o l IH] using RouteOpt.Rule_tree_ind. intros checkOutbound obj refs obj' refs' H Hn Hh Hs.
  cbn [route_normalized ruleHas] in Hn, Hh.
  apply NewRule_inv in H as [(Ht & d & action & Hd & _ & ->)|(Ht & -> & mode & rules & action & Hm & Hr & _ & ->)].
  - assert (t = Opt.RuleTypeDefault) as ->.
    { unfold Opt.isDefaultType in Ht. destruct (String.eqb_spec t Opt.RuleTypeDefault); [done|]. cbn [orb] in Hn.
      apply andb_true_iff in Hn as [->%String.eqb_eq _]. done. }
    rewrite String.eqb_refl in Hh. cbn [object_Start] in Hs.
    destruct (items_started start_item d) as [d'| |] eqn:Ed; [|done..].
    pose proof (items_started_no_process _ _ (routeItems_no_process _ _ Hd Hh) Ed) as Hp.
    destruct (given (RouteOpt.RuleSet o)).
    + destruct (item_Start _ _ refs) as [[[err held] refs1]| |]; cbn [bind_result] in Hs; [|done..]. injection Hs as -> <- _.
      cbn. rewrite Hp. apply forallb_forall. intros set (tag & <- & _)%in_map_iff. apply sets_no_process.
    + injection Hs as <- _. cbn. by rewrite Hp.
  - change (String.eqb Opt.RuleTypeLogical Opt.RuleTypeDefault) with false in *.
    change (String.eqb Opt.RuleTypeLogical Opt.RuleTypeLogical) with true in *. cbn [orb andb] in Hn, Hh.
    cbn [object_Start] in Hs. destruct (RuleObject.start_all _ rules refs) as [[[err rules'] refs1]| |] eqn:Es; cbn [bind_result] in Hs; [|done..].
    injection Hs as -> <- _. cbn [tree_view all_items]. apply start_all_Forall2 in Es.
    apply forallb_Forall' in Hn. apply existsb_false_Forall in Hh. revert rules' Es IH Hn Hh. clear -Hr.
    induction Hr as [|r obj rs objs E Hr IH']; intros rules' Es Hf Hn Hh; inversion Es as [|? obj' ? objs' (s1 & s2 & E1) Es']; subst; [done|].
    decompose_Forall_hyps. cbn [map forallb]. apply andb_true_iff. eauto.
Qed.
End Rules.

(** ** The router *)

Section Router.
Context `{GE : GoEnv}.
Context (ParseSocksaddrHostPort : string -> Z -> Socksaddr) (PlatformSupported : bool).
Context (dialer_New : RouteOpt.DialerOptions -> result unit).
Abbreviation newRule := (NewRule ParseSocksaddrHostPort PlatformSupported dialer_New).

Lemma startIndexed_Forall2 {X A} (start_item : RuleItem -> result RuleItem) msg (rules rules' : list (RuleObject X A)) refs refs' :
  startIndexed start_item msg rules refs = Ok (None, rules', refs') ->
  Forall2 (fun rule rule' => exists s1 s2, object_Start start_item rule s1 = Ok (None, rule', s2)) rules rules'.
Proof.
  unfold startIndexed. destruct (RuleObject.start_all _ _ _) as [[[err rs1] s1]| |] eqn:E; cbn [bind_result]; [|done..].
  intros [= -> <- _]. apply start_all_Forall2 in E.
  rewrite <- (snd_zip (seq 0 (length rules)) rules) by (by rewrite length_seq). rewrite Forall2_fmap.
  eapply Forall2_impl; [exact E|]. intros [i rule] [j rule'] (s2 & s3 & Hs). cbn beta iota in Hs.
  destruct (object_Start start_item rule s2) as [[[[e|] r0] s0]| |] eqn:Eo; cbn [bind_result option_map] in Hs; [done| |done..].
  injection Hs as <- <- <-. eauto.
Qed.

Lemma Initialize_rules optionRules ruleSets r r' :
  Route.Initialize ParseSocksaddrHostPort PlatformSupported dialer_New optionRules ruleSets r = Ok r' ->
  exists objects, Route.rules r' = Route.rules r ++ objects /\ Forall2 (fun o obj => newRule false o = Ok obj) optionRules objects /\
    Route.needFindProcess r' = Route.needFindProcess r /\ Route.hasProcessSearcher r' = Route.hasProcessSearcher r.
Proof.
  unfold Route.Initialize. destruct (mapi_result _ _ _ _) as [objects| |] eqn:E; cbn [bind_result]; [|done..].
  destruct (Route.newRuleSets _ _ _); cbn [bind_result]; [|done..]. intros [= <-]. exists objects. cbn. split_and!; [done| |done..].
  apply mapi_result_Forall2 in E. eapply Forall2_impl; [exact E|]. intros o obj. cbn beta. by destruct (ValidateNoNestedRuleActions o).
Qed.

(** The rule-sets of a started router: their rules are those of options the
    metadata was computed from. *)
Definition described (env : Route.StartEnv) (r : Route.Router) (ruleSets : string -> option (list Rule * RuleSetMetadata)) : Prop :=
  forall tag rules metadata, ruleSets tag = Some (rules, metadata) ->
    tag ∈ Route.ruleSetTags r /\ metadata = Route.ruleSetMetadata env tag /\
    exists nm hs, Forall2 (fun h rule => NewHeadlessRule nm h = Ok rule) hs rules /\ forallb normalized hs = true /\
      metadata = buildRuleSetMetadata hs.

Lemma described_no_process env r ruleSets :
  described env r ruleSets -> existsb (fun tag => ContainsProcessRule (Route.ruleSetMetadata env tag)) (Route.ruleSetTags r) = false ->
  forall tag, forallb (all_items no_process) (ruleSet_rules ruleSets tag) = true.
Proof.
  intros Hd He tag. unfold ruleSet_rules. destruct (ruleSets tag) as [[rules metadata]|] eqn:E; [|done].
  destruct (Hd tag rules metadata E) as (Hin & Hm & nm & hs & Hf & Hn & Hb). eapply rule_set_no_process; [exact Hf|exact Hn|].
  apply existsb_false_Forall in He. rewrite Forall_forall in He. rewrite <- Hb, Hm. by apply He.
Qed.

Lemma started_rules_no_process preferred ruleSets msg optionRules objects refs rules' refs' :
  Forall2 (fun o obj => newRule false o = Ok obj) optionRules objects -> forallb route_normalized optionRules = true ->
  routeHasRule isProcessRule optionRules = false ->
  (forall tag, forallb (all_items no_process) (ruleSet_rules ruleSets tag) = true) ->
  startIndexed (route_item_started preferred) msg objects refs = Ok (None, rules', refs') ->
  forallb (fun r => all_items no_process (rr_rule r)) (map (route_view ruleSets) rules') = true.
Proof.
  intros Hf Hn Hh Hsets Hs. apply startIndexed_Forall2 in Hs. revert rules' Hs Hn Hh. unfold routeHasRule.
  induction Hf as [|o obj os objs E Hf IH]; intros rules' Hs Hn Hh; inversion Hs as [|? obj' ? objs' (s1 & s2 & E1) Hs']; subst; [done|].
  cbn [forallb existsb map route_view rr_rule] in *. apply andb_true_iff in Hn as [Hn1 Hn2]. apply orb_false_iff in Hh as [Hh1 Hh2].
  apply andb_true_iff. split; [by eapply object_no_process|auto].
Qed.
End Router.

(** When the router decides at its start that no rule needs the process of a
    connection, it keeps no process searcher, and the decision is right: with any
    searcher the same rule is selected for every connection, with the same
    buffers and the same metadata up to the process.  This holds for the rules
    given in the configuration, their logical sub-rules and the rules of their
    rule-sets, as long as the metadata of these is that at the start (an update
    that adds a process rule is not seen, router.go), and for sniffing and
    resolving that do not look at the process. *)
Theorem process_search_unneeded `{GE : GoEnv} ParseSocksaddrHostPort PlatformSupported dialer_New
    (rt : RuntimeState) (services : Services) {peek : Type} (actionSniff : SniffAction -> RouteMetadata -> peek -> _) actionResolve release
    optionRules findProcess findNeighbor dnsRules servers ruleSetOptions env r1 refs r2 refs1 cleaned1 r3 refs2 cleaned2 ruleSets :
  forallb route_normalized optionRules = true ->
  Route.Initialize ParseSocksaddrHostPort PlatformSupported dialer_New optionRules ruleSetOptions
    (Route.NewRouter optionRules findProcess findNeighbor dnsRules servers) = Ok r1 ->
  Route.Start env StartStateStart r1 refs = Ok (Ok tt, r2, refs1, cleaned1) ->
  Route.needFindProcess r2 = false ->
  Route.Start env StartStatePostStart r2 refs1 = Ok (Ok tt, r3, refs2, cleaned2) ->
  described env r2 ruleSets ->
  Proper ((=) ==> similar ==> (=) ==> same_outcome) actionSniff ->
  Proper ((=) ==> similar ==> prod_relation similar (=)) actionResolve ->
  Route.hasProcessSearcher r3 = false /\
  forall search preMatch supportBypass m buffers,
    same_outcome
      (matchRule rt (with_searcher search services) actionSniff actionResolve release preMatch supportBypass
         (map (route_view ruleSets) (Route.rules r3)) m buffers)
      (matchRule rt (with_searcher (fun _ => None) services) actionSniff actionResolve release preMatch supportBypass
         (map (route_view ruleSets) (Route.rules r3)) m buffers).
Proof.
  intros Hn Hi Hs1 Hneed Hs2 Hd Hsniff Hresolve.
  apply Initialize_rules in Hi as (objects & Hrules & Hf & Hp & Hh). cbn in Hrules, Hh.
  cbn [Route.Start] in Hs1. destruct (if nonempty _ then _ else _) as [|e|]; [|done..]. injection Hs1 as <- <- <-.
  cbn [Route.needFindProcess] in Hneed. rewrite Hneed, Hh in Hs2. apply orb_false_iff in Hneed as [Hneed Hsets].
  rewrite Hp in Hneed. cbn in Hneed. rewrite !orb_false_iff in Hneed. destruct Hneed as [[Hhas _] _].
  cbn [Route.Start Route.rules] in Hs2. rewrite Hrules in Hs2.
  destruct (startIndexed _ _ objects refs) as [[[[e|] rules'] refs']| |] eqn:Es; cbn [bind_result] in Hs2; [done| |done..].
  injection Hs2 as <- _ _. cbn [Route.hasProcessSearcher Route.rules]. split; [done|].
  intros search preMatch supportBypass m buffers. apply matchRule_any_searcher; [done..|].
  eapply started_rules_no_process; [done..| |exact Es]. by eapply described_no_process.
Qed.

(** ** References *)

Lemma route_item_no_panic `{GE : GoEnv} preferred it : is_panic (route_item_started preferred it) = false.
Proof.
  destruct it; try done. cbn. assert (forall l acc, is_panic (preferred_outbounds preferred l acc) = false) as H.
  { induction l as [|tag l IH]; intros acc; [done|]. cbn. by destruct (preferred tag) as [[? [|]]|]. }
  specialize (H outboundTags outbounds). by destruct (preferred_outbounds _ _ _).
Qed.

Lemma NewRule_held `{GE : GoEnv} ParseSocksaddrHostPort PlatformSupported dialer_New r : forall checkOutbound obj,
  NewRule ParseSocksaddrHostPort PlatformSupported dialer_New checkOutbound r = Ok obj -> held_of obj = [].
Proof.
  induction r as [t o l IH] using RouteOpt.Rule_tree_ind. intros checkOutbound obj H.
  apply NewRule_inv in H as [(Ht & d & action & Hd & _ & ->)|(Ht & -> & mode & rules & action & Hm & Hr & _ & ->)]; cbn [held_of].
  - by destruct (given _).
  - clear -Hr IH. induction Hr as [|r obj rs objs E Hr IH']; [done|]. decompose_Forall_hyps. cbn [map concat].
    erewrite IH' by done. rewrite app_nil_r. eauto.
Qed.

(** The references of the route rules on rule-sets are balanced (counts far
    from the int32 limit): starting the rules of a configuration never panics and
    adds exactly the references the rules then hold; and closing the router,
    after a start that succeeded or one that failed at any rule, restores every
    count. *)
Theorem route_rules_refs_balanced `{GE : GoEnv} ParseSocksaddrHostPort PlatformSupported dialer_New
    optionRules findProcess findNeighbor dnsRules servers ruleSetOptions env r1 refs others :
  Route.Initialize ParseSocksaddrHostPort PlatformSupported dialer_New optionRules ruleSetOptions
    (Route.NewRouter optionRules findProcess findNeighbor dnsRules servers) = Ok r1 ->
  room (zlen (concat (map tags_of (Route.rules r1)))) refs ->
  exists outcome r2 refs2 err r3,
    Route.Start env StartStatePostStart r1 refs = Ok (outcome, r2, refs2, []) /\
    (forall tag, refs2 !! tag = option_map (fun n => n + count tag (concat (map held_of (Route.rules r2)))) (refs !! tag)) /\
    Route.Close others r2 refs2 = Ok (err, r3, refs).
Proof.
  intros Hi Hr. apply Initialize_rules in Hi as (objects & Hrules & Hf & _ & _). cbn in Hrules. rewrite Hrules in Hr.
  assert (Forall (fun r => held_of r = []) objects) as Hh.
  { apply Forall_forall. intros obj Hin. apply list_elem_of_lookup in Hin as [i Hl].
    destruct (Forall2_lookup_r _ _ _ _ _ Hf Hl) as (o & _ & Ho). by eapply NewRule_held. }
  destruct (startIndexed_holding (route_item_started (Route.preferredOutbound env)) (route_item_no_panic _)
    (fun i => "initialize rule[" +:+ pretty i +:+ "]") objects refs Hh Hr) as (err & rules' & refs' & Es & Hhold & Hl).
  destruct (close_all_holding rules' refs refs') as [closed Hc]; [by eapply room_weaken|done|].
  cbn [Route.Start]. rewrite Hrules, Es. cbn [bind_result].
  destruct err as [e|]; eexists _, _, refs', _, _; (split; [done|]); cbn [Route.rules Route.set_rules];
    (split; [exact (proj1 Hhold)|]); unfold Route.Close; cbn [Route.rules Route.set_rules]; rewrite Hc; done.
Qed.

(** ** What a route rule means *)

(** C10: a route rule built from its options and started matches a connection
    exactly when the options say so: a default rule when its address group, its
    port groups and each of its other conditions hold, a logical rule when all
    or one of its sub-rules match, either one negated by invert; [route_spec]
    reads this off the options, without items, groups and match states.  For
    rules without rule-sets. *)
Theorem route_rule_semantics `{GE : GoEnv} ParseSocksaddrHostPort PlatformSupported dialer_New
    (rt : RuntimeState) preferred ruleSets checkOutbound r obj refs obj' refs' md :
  NewRule ParseSocksaddrHostPort PlatformSupported dialer_New checkOutbound r = Ok obj -> without_rule_sets r = true ->
  object_Start (route_item_started preferred) obj refs = Ok (None, obj', refs') -> clean md ->
  Rule_Match rt (tree_view ruleSets obj') md = route_spec rt preferred r md.
Proof. apply route_Match_spec. Qed.

(** ** Witnesses *)

Module RouteDemo.
Import RouteOpt.

Definition action (t outbound : string) : RouteOpt.RuleAction :=
  mkRuleAction t (mkRouteActionOptions outbound zeroRaw) zeroRaw zeroDialer (mkRouteActionOptions "" zeroRaw)
    (DnsOpt.mkRejectOptions "" false) (mkSniffOptions None 0) (mkResolveOptions "" 0 0 false false None None).

(** A rule on domain suffixes, ports, preferred routes and rule-sets. *)
Definition options (suffixes : Listable string) (ports : Listable Z) (preferredBy ruleSet : Listable string) (a : RouteOpt.RuleAction)
    : RouteOpt.DefaultRule := {|
  Inbound := None; IPVersion := 0; Network := None; AuthUser := None; Protocol := None; Client := None; Domain := None;
  DomainSuffix := suffixes; DomainKeyword := None; DomainRegex := None; Geosite := None; SourceGeoIP := None; GeoIP := None;
  SourceIPCIDR := None; SourceIPIsPrivate := false; IPCIDR := None; IPIsPrivate := false; SourcePort := None;
  SourcePortRange := None; Port := ports; PortRange := None; ProcessName := None; ProcessPath := None; ProcessPathRegex := None;
  User := None; UserID := None; ClashMode := ""; NetworkType := None; NetworkIsExpensive := false; NetworkIsConstrained := false;
  WIFISSID := None; WIFIBSSID := None; InterfaceAddress := None; NetworkInterfaceAddress := None; DefaultInterfaceAddress := None;
  SourceMACAddress := None; SourceHostname := None; PreferredBy := preferredBy; RuleSet := ruleSet;
  RuleSetIPCIDRMatchSource := false; Invert := false; Deprecated_RulesetIPCIDRMatchSource := false; ruleAction := a |}.

Definition rule (d : RouteOpt.DefaultRule) : RouteOpt.Rule := mkRule "default" d (mkLogicalRule "" [] false zeroAction).

(** Port 443 of ".org", or the routes an endpoint prefers; and a rule-set. *)
Definition logical : RouteOpt.Rule :=
  mkRule "logical" (options None None None None zeroAction)
    (mkLogicalRule "or" [rule (options (Some [".org"]) (Some [443]) None None zeroAction);
                         rule (options None None (Some ["wg"]) None zeroAction)] false (action "route" "proxy")).

Definition rules : list RouteOpt.Rule := [rule (options None None None (Some ["a"; "a"]) (action "route" "direct")); logical].

Definition preferredBy (tag : string) : option (string * option PreferredOutbound) :=
  if String.eqb tag "wg" then Some ("wireguard", Some (mkPreferredOutbound (String.eqb "wg.net") (fun _ => false))) else None.

Definition headless : Opt.HeadlessRule := demoHeadless (demoOptions "example.org").

Definition ruleSets (tag : string) : option (list RuleEngine.Rule * RuleSetMetadata) :=
  if String.eqb tag "a" then Some ([demoBuilt headless], buildRuleSetMetadata [headless]) else None.

Definition env : Route.StartEnv :=
  Route.mkStartEnv (Ok tt) (Ok tt) (fun _ => buildRuleSetMetadata [headless]) (fun _ => false) (Ok tt) preferredBy.

Definition address (host : string) (port : Z) : Socksaddr := mkSocksaddr AddrInvalid port host.
Definition dialer (o : DialerOptions) : result unit := Ok tt.
Definition refs : gmap string Z := {[ "a" := 1 ]}.
End RouteDemo.

Section Witnesses.
#[local] Existing Instance demoEnv.
Abbreviation initialize := (Route.Initialize RouteDemo.address true RouteDemo.dialer RouteDemo.rules [("a", Ok tt)]).
Abbreviation router0 := (Route.NewRouter RouteDemo.rules false false [] []).

Definition router1 : Route.Router := match initialize router0 with Ok r => r | _ => router0 end.
Definition router2 : Route.Router :=
  match Route.Start RouteDemo.env StartStateStart router1 RouteDemo.refs with Ok (_, r, _, _) => r | _ => router0 end.
Definition router3 : Route.Router :=
  match Route.Start RouteDemo.env StartStatePostStart router2 RouteDemo.refs with Ok (_, r, _, _) => r | _ => router0 end.
Definition refs3 : gmap string Z :=
  match Route.Start RouteDemo.env StartStatePostStart router2 RouteDemo.refs with Ok (_, _, refs, _) => refs | _ => ∅ end.

Lemma demo_initializes : is_ok (initialize router0) = true.
Proof. by_compute. Qed.

Lemma demo_starts :
  match Route.Start RouteDemo.env StartStateStart router1 RouteDemo.refs with
  | Ok (Ok tt, _, refs, []) => bool_decide (refs = RouteDemo.refs) | _ => false end = true.
Proof. by_compute. Qed.

Lemma demo_post_starts :
  match Route.Start RouteDemo.env StartStatePostStart router2 RouteDemo.refs with Ok (Ok tt, _, _, []) => true | _ => false end = true.
Proof. by_compute. Qed.

Lemma router1_ok : initialize router0 = Ok router1.
Proof. pose proof demo_initializes as H. unfold router1. by destruct (initialize router0). Qed.

Lemma router2_ok : Route.Start RouteDemo.env StartStateStart router1 RouteDemo.refs = Ok (Ok tt, router2, RouteDemo.refs, []).
Proof.
  pose proof demo_starts as H. unfold router2.
  destruct (Route.Start _ _ _ _) as [[[[[[]| |] r] refs] [|]]| |]; [|done..]. by apply bool_decide_eq_true in H as ->.
Qed.

Lemma router3_ok : Route.Start RouteDemo.env StartStatePostStart router2 RouteDemo.refs = Ok (Ok tt, router3, refs3, []).
Proof.
  pose proof demo_post_starts as H. unfold router3, refs3.
  by destruct (Route.Start _ _ _ _) as [[[[[[]| |] r] refs] [|]]| |].
Qed.

Lemma router2_described : described RouteDemo.env router2 RouteDemo.ruleSets.
Proof.
  intros tag rules metadata. unfold RouteDemo.ruleSets. destruct (String.eqb_spec tag "a") as [->|]; [|done]. intros [= <- <-].
  split; [|split; [done|]]. { assert (Route.ruleSetTags router2 = ["a"]) as -> by by_compute. left. }
  exists true, [RouteDemo.headless]. split; [|by split]. constructor; [|constructor]. by_compute.
Qed.

Lemma demo_normalized : forallb route_normalized RouteDemo.rules = true.
Proof. by_compute. Qed.

Lemma router2_unneeded : Route.needFindProcess router2 = false.
Proof. by_compute. Qed.

Lemma demo_sniff_similar :
  Proper ((=) ==> similar ==> (=) ==> same_outcome)
    (fun (_ : SniffAction) (m : RouteMetadata) (p : unit) => (m, p, Ok tt)).
Proof. intros ? ? _ m1 m2 Hm ? ? ->. done. Qed.

Lemma demo_resolve_similar :
  Proper ((=) ==> similar ==> prod_relation similar (=)) (fun (_ : ResolveAction) (m : RouteMetadata) => (m, Ok tt)).
Proof. intros ? ? _ m1 m2 Hm. done. Qed.

Lemma process_search_unneeded_witness :
  snd (matchRule demoRuntime (with_searcher (fun _ => Some {| UserId := 0; UserName := "root"; ProcessPath := "/bin/sh" |}) demoServices)
         (fun _ m p => (m, p, Ok tt)) (fun _ m => (m, Ok tt)) id false true (map (route_view RouteDemo.ruleSets) (Route.rules router3))
         (demoRoute (demoConnection "www.example.org")) tt) =
  snd (matchRule demoRuntime (with_searcher (fun _ => None) demoServices)
         (fun _ m p => (m, p, Ok tt)) (fun _ m => (m, Ok tt)) id false true (map (route_view RouteDemo.ruleSets) (Route.rules router3))
         (demoRoute (demoConnection "www.example.org")) tt).
Proof.
  destruct (process_search_unneeded RouteDemo.address true RouteDemo.dialer demoRuntime demoServices
    (fun _ m p => (m, p, Ok tt)) (fun _ m => (m, Ok tt)) id RouteDemo.rules false false [] [] [("a", Ok tt)] RouteDemo.env router1
    RouteDemo.refs router2 RouteDemo.refs [] router3 refs3 [] RouteDemo.ruleSets demo_normalized router1_ok router2_ok router2_unneeded
    router3_ok router2_described demo_sniff_similar demo_resolve_similar) as [_ H].
  destruct (H (fun _ => Some {| UserId := 0; UserName := "root"; ProcessPath := "/bin/sh" |}) false true
    (demoRoute (demoConnection "www.example.org")) tt) as [_ Hr].
  exact Hr.
Defined.

Lemma demo_route_room : room (zlen (concat (map tags_of (Route.rules router1)))) RouteDemo.refs.
Proof.
  assert (zlen (concat (map tags_of (Route.rules router1))) = 2) as -> by by_compute.
  intros tag n Hn. unfold RouteDemo.refs in Hn. rewrite lookup_singleton_Some in Hn. lia.
Qed.

Lemma route_rules_refs_balanced_witness : exists outcome r2 refs2 err r3,
  Route.Start RouteDemo.env StartStatePostStart router1 RouteDemo.refs = Ok (outcome, r2, refs2, []) /\
  Route.Close [] r2 refs2 = Ok (err, r3, RouteDemo.refs).
Proof.
  destruct (route_rules_refs_balanced RouteDemo.address true RouteDemo.dialer RouteDemo.rules false false [] [] [("a", Ok tt)]
    RouteDemo.env router1 RouteDemo.refs [] router1_ok demo_route_room) as (outcome & r2 & refs2 & err & r3 & H1 & _ & H2).
  exact (ex_intro _ outcome (ex_intro _ r2 (ex_intro _ refs2 (ex_intro _ err (ex_intro _ r3 (conj H1 H2)))))).
Defined.

Definition demoObject : RouteRuleObject :=
  match NewRule RouteDemo.address true RouteDemo.dialer false RouteDemo.logical with
  | Ok obj => obj | _ => LogicalObject LogicalTypeAnd [] false None end.
Definition demoStarted : RouteRuleObject :=
  match object_Start (route_item_started RouteDemo.preferredBy) demoObject RouteDemo.refs with Ok (_, obj, _) => obj | _ => demoObject end.

Lemma demo_object_built : is_ok (NewRule RouteDemo.address true RouteDemo.dialer false RouteDemo.logical) = true.
Proof. by_compute. Qed.

Lemma demo_object_starts :
  match object_Start (route_item_started RouteDemo.preferredBy) demoObject RouteDemo.refs with
  | Ok (None, _, refs) => bool_decide (refs = RouteDemo.refs) | _ => false end = true.
Proof. by_compute. Qed.

Lemma demoObject_ok : NewRule RouteDemo.address true RouteDemo.dialer false RouteDemo.logical = Ok demoObject.
Proof. pose proof demo_object_built as H. unfold demoObject. by destruct (NewRule _ _ _ _ _). Qed.

Lemma demoStarted_ok :
  object_Start (route_item_started RouteDemo.preferredBy) demoObject RouteDemo.refs = Ok (None, demoStarted, RouteDemo.refs).
Proof.
  pose proof demo_object_starts as H. unfold demoStarted.
  destruct (object_Start _ _ _) as [[[[] obj] refs]| |]; [done| |done..]. by apply bool_decide_eq_true in H as ->.
Qed.

Lemma route_rule_semantics_witness :
  Rule_Match demoRuntime (tree_view RouteDemo.ruleSets demoStarted) (demoConnection "www.example.org") =
  route_spec demoRuntime RouteDemo.preferredBy RouteDemo.logical (demoConnection "www.example.org").
Proof.
  exact (route_rule_semantics RouteDemo.address true RouteDemo.dialer demoRuntime RouteDemo.preferredBy RouteDemo.ruleSets false
    RouteDemo.logical demoObject RouteDemo.refs demoStarted RouteDemo.refs (demoConnection "www.example.org") demoObject_ok eq_refl
    demoStarted_ok (conj eq_refl (conj eq_refl eq_refl))).
Defined.

(** The logical rule matches through its first sub-rule, and through the preferred routes of the second. *)
Example demo_route_spec :
  map (fun host => route_spec demoRuntime RouteDemo.preferredBy RouteDemo.logical (demoConnection host)) ["www.example.org"; "wg.net"; "a.com"]
  = [true; true; false].
Proof. by_compute. Qed.
End Witnesses.
