(* ===== verification/RouteDispatchTheorems.v ===== *)
(** * What routing does to a connection

    - The bytes of a stream reach the outbound unchanged when at most one rule
      sniffs ([routed_stream_intact]); the packets of a packet connection reach
      it, each one once ([routed_packets_kept]).  With two sniffing rules
      neither holds ([two_sniffs_reorder_stream], [two_sniffs_duplicate_packet]).
    - A connection is never handed to a missing outbound, nor to one that does
      not support its network (same theorems).
    - No input makes the routing of a connection panic ([routing_safe]). *)
From Stdlib Require Import ZArith Lia Bool.
From S2P Require Import Prelude GoIO DnsMsg DnsClient DnsOptions DnsRuleBuild Ja3 Quic QuicTheorems Sniff SniffTheorems Metadata RuleItem MatchState RuleEngine RuleTheorems HeadlessRule DemoEnv RouteMatch RouteSniff RouteDispatch.

(** ** Invariants of the walk over the rules *)

Definition is_sniff (a : option RuleAction) : bool := match a with Some (RuleActionSniff _) => true | _ => false end.

Section Walk.
Context `{GE : GoEnv} (rt : RuntimeState) (services : Services).
Context {peek : Type} (actionSniff : SniffAction -> RouteMetadata -> peek -> RouteMetadata * peek * result unit).
Context (actionResolve : ResolveAction -> RouteMetadata -> RouteMetadata * result unit) (release : peek -> peek).

Definition sniff_rules (rules : list RouteRule) : nat := length (List.filter (fun r => is_sniff (rr_action r)) rules).

Lemma runAction_peek a m p m' p' v :
  runAction actionSniff actionResolve false false a m p = (m', p', Ok v) ->
  match a with RuleActionSniff action => actionSniff action m p = (m', p', Ok tt) | _ => p' = p end.
Proof.
  destruct a as [| |outbound options| | | |action|action]; cbn [runAction negb]; try (by intros [= _ -> _]).
  - destruct (actionSniff action m p) as [[m1 p1] [[]| |]]; [|done..]. by intros [= -> -> _].
  - destruct (actionResolve action m) as [m1 [[]| |]]; [|done..]. by intros [= _ -> _].
Qed.

(** [P n] holds with [n] sniff actions left to run. *)
Lemma walk_invariant (P : nat -> peek -> Prop) rules :
  (forall n p, P (S n) p -> P n p) ->
  (forall n action m p m' p', P (S n) p -> actionSniff action m p = (m', p', Ok tt) -> P n p') ->
  forall k index m p m' p' sel, P (k + sniff_rules rules)%nat p ->
  matchRule_loop rt services actionSniff actionResolve release false false index rules m p = (m', p', Ok sel) -> P k p'.
Proof.
  intros Hweak Hsniff. assert (forall j n p, P (j + n)%nat p -> P n p) as Hw by (induction j; intros n p; [done|]; intros H; apply IHj, Hweak, H).
  induction rules as [|rule rules IH]; intros k index m p m' p' sel HP; cbn [matchRule_loop].
  - intros [= _ <- _]. unfold sniff_rules in HP. cbn in HP. by rewrite Nat.add_0_r in HP.
  - assert (P (k + sniff_rules rules)%nat p) as HP'.
    { unfold sniff_rules in *. cbn [List.filter] in HP. destruct (is_sniff (rr_action rule)); [|done]. cbn [length] in HP.
      rewrite Nat.add_succ_r in HP. by apply Hweak. }
    destruct (Rule_Match_mut rt (rr_rule rule) _) as [[] c]; cbn [negb]; [|intros H; by eapply IH].
    destruct (rr_action rule) as [a|] eqn:Ea; [|done].
    destruct (runAction _ _ _ _ a _ p) as [[m1 p1] [v| |]] eqn:Er; [|done..]. apply runAction_peek in Er.
    assert (P (k + sniff_rules rules)%nat p1) as HP1.
    { destruct a; try by subst. eapply Hsniff; [|exact Er]. unfold sniff_rules in HP. cbn [List.filter] in HP. rewrite Ea in HP. cbn in HP.
      by rewrite Nat.add_succ_r in HP. }
    destruct v; [intros H; by eapply IH|]. intros [= _ <- _]. rewrite Nat.add_comm in HP1. by eapply Hw.
Qed.

Lemma matchRule_invariant (P : nat -> peek -> Prop) rules :
  (forall n p, P (S n) p -> P n p) ->
  (forall n action m p m' p', P (S n) p -> actionSniff action m p = (m', p', Ok tt) -> P n p') ->
  forall m p m' p' sel, P (sniff_rules rules) p ->
  matchRule rt services actionSniff actionResolve release false false rules m p = (m', p', Ok sel) -> P O p'.
Proof.
  intros Hweak Hsniff m p m' p' sel HP. unfold matchRule. destruct (prepareMatch services m) as [m1 [|e|s]]; [|done..].
  by apply (walk_invariant P rules Hweak Hsniff 0%nat 0%nat).
Qed.

End Walk.

(** ** Streams *)

Section Streams.
Context `{SE : SniffEnv} `{QC : QuicCrypto}.

Lemma PeekStream_loop_bytes sniffers buffers : forall events i buffer err md md' buffer' rest r,
  PeekStream_loop sniffers buffers i events buffer err md = (md', buffer', rest, r) -> buffer ++ payload events = buffer' ++ payload rest.
Proof.
  induction events as [|ev events IH]; intros i buffer err md md' buffer' rest r; cbn [PeekStream_loop]; [by intros [= _ <- <- _]|].
  destruct ev as [data|e|e]; [|by intros [= _ <- <- _]..].
  change (payload (Data data :: events)) with (data ++ payload events). rewrite app_assoc.
  destruct (trySniffers _ _ _ _) as [md1 [|err1|m]]; [by intros [= _ <- <- _]| |by intros [= _ <- <- _]].
  destruct (match err1 with Some _ => _ | None => _ end); [apply IH|by intros [= _ <- <- _]].
Qed.

(** The bytes peeked and those still to come make up [bytes], in at most [1 - n] buffers. *)
Definition stream_held (bytes : list byte) (n : nat) (p : Peek) : Prop :=
  (n + length (pk_buffers p) <= 1)%nat /\ pk_packets p = [] /\
  exists events, pk_conn p = StreamConn events /\ bytes = concat (pk_buffers p) ++ payload events.

Lemma sniffStep_stream bytes n action m p m' p' :
  stream_held bytes (S n) p -> sniffStep action m p = (m', p', Ok tt) -> stream_held bytes n p'.
Proof.
  intros (Hn & Hpk & events & Hc & ->). unfold sniffStep, actionSniff. rewrite Hc.
  assert (stream_held (concat (pk_buffers p) ++ payload events) n p) as Hsame by (split; [lia|split; [done|by eexists]]).
  destruct (Skip _); [by intros [= _ <-]|]. destruct (negb (String.eqb _ _)); [by intros [= _ <-]|].
  destruct ((_ && _) || _); [by intros [= _ <-]|]. unfold sniffStream.
  destruct (PeekStream _ _ _ _) as [[[d buffer] rest] r] eqn:Ep. apply PeekStream_loop_bytes in Ep. cbn [app] in Ep.
  assert (stream_held (concat (pk_buffers p) ++ payload events) n
    (match (if nonempty buffer then Some buffer else None) with
     | Some buffer => add_buffer buffer (mkPeek (SnifferNames action) (match r with Err e => Some e | _ => None end) (s_Context d) (StreamConn rest) (pk_buffers p) (pk_packets p))
     | None => mkPeek (SnifferNames action) (match r with Err e => Some e | _ => None end) (s_Context d) (StreamConn rest) (pk_buffers p) (pk_packets p)
     end)) as Hnew.
  { rewrite Ep. destruct buffer as [|b buffer]; cbn [nonempty]; unfold stream_held, add_buffer; cbn [pk_buffers pk_packets pk_conn].
    - split; [lia|]. split; [done|]. by eexists.
    - rewrite length_app. cbn [length]. split; [lia|]. split; [done|]. exists rest. split; [done|].
      rewrite concat_app. cbn [concat]. by rewrite app_nil_r, app_assoc. }
  destruct r as [u|e|s]; [intros [= _ <-]|intros [= _ <-]|done]; by destruct buffer.
Qed.

End Streams.

(** ** Packets *)

Definition arrived (ev : PacketEvent) : option Packet := match ev with PacketArrives packet => Some packet | _ => None end.

(** The packets a connection delivers, in order. *)
Definition packets_of (events : list PacketEvent) : list Packet := omap arrived events.

Section Packets.
Context `{SE : SniffEnv} `{QC : QuicCrypto}.

Lemma sniffArriving_packets action : forall events st held st' rest held' r,
  sniffArriving action events st held = (st', rest, held', r) -> held ++ packets_of events = held' ++ packets_of rest.
Proof.
  induction events as [|ev events IH]; intros st held st' rest held' r; cbn [sniffArriving]; [by intros [= _ <- <- _]|].
  destruct ev as [packet|e|e|e]; [|by intros [= _ <- <- _]..].
  change (packets_of (PacketArrives packet :: events)) with ([packet] ++ packets_of events). rewrite app_assoc.
  destruct (sniffPacket _ _ _) as [st1 r1]. destruct r1 as [u|e|s]; [| |by intros [= _ <- <- _]];
    (destruct (wants_more _); [apply IH|by intros [= _ <- <- _]]).
Qed.

(** The packets peeked and those still to come make up [packets]; with an action left to run none was peeked. *)
Definition packets_held (packets : list Packet) (n : nat) (p : Peek) : Prop :=
  ((0 < n)%nat -> n = 1%nat /\ pk_packets p = []) /\ pk_buffers p = [] /\
  exists events, pk_conn p = PacketConn events /\ packets = pk_packets p ++ packets_of events.

Lemma packets_held_weaken packets n p : packets_held packets (S n) p -> packets_held packets n p.
Proof. intros (H1 & H2). split; [|done]. intros Hn. destruct (H1 ltac:(lia)). lia. Qed.

Lemma sniffStep_packets packets n action m p m' p' :
  packets_held packets (S n) p -> sniffStep action m p = (m', p', Ok tt) -> packets_held packets n p'.
Proof.
  intros HP. pose proof (packets_held_weaken _ _ _ HP) as Hsame. destruct HP as (Hn & Hb & events & Hc & ->).
  destruct (Hn ltac:(lia)) as [[= ->] Hpk]. unfold sniffStep, actionSniff. rewrite Hc.
  destruct (Skip _); [by intros [= _ <-]|]. destruct (negb (String.eqb _ _)); [by intros [= _ <-]|].
  destruct ((_ && _) || _); [by intros [= _ <-]|]. unfold sniffPacketConn. rewrite Hpk. cbn [sniffBuffered].
  destruct (sniffArriving _ _ _ _) as [[[st rest] held] r] eqn:Es. apply sniffArriving_packets in Es. cbn [app] in Es |- *.
  intros [= _ <- _]. rewrite Es. destruct held; (split; [lia|split; [done|by eexists]]).
Qed.

End Packets.

(** ** Panics *)

Definition panic_free {A} (r : result A) : Prop := match r with Panic _ => False | _ => True end.

Lemma panic_free_bind {A B} (r : result A) (k : A -> result B) : panic_free r -> (forall a, panic_free (k a)) -> panic_free (bind_result r k).
Proof. by destruct r as [a| |]; [intros _ Hk; apply Hk|..]. Qed.

Lemma returns_panic_free {A} (r : result A) : returns r -> panic_free r.
Proof. by destruct r. Qed.

(** What the construction of the rules establishes: an action, and a known method of rejection. *)
Definition sound_action (a : option RuleAction) : Prop :=
  match a with
  | None => False
  | Some (RuleActionReject method _) => method ∈ [RuleActionRejectMethodDefault; RuleActionRejectMethodDrop; RuleActionRejectMethodReply]
  | Some _ => True
  end.

Section SafeWalk.
Context `{GE : GoEnv} (rt : RuntimeState) (services : Services).
Context {peek : Type} (actionSniff : SniffAction -> RouteMetadata -> peek -> RouteMetadata * peek * result unit).
Context (actionResolve : ResolveAction -> RouteMetadata -> RouteMetadata * result unit) (release : peek -> peek).
Context (P : peek -> Prop).
Hypothesis sniff_safe : forall action m p, P p -> panic_free (snd (actionSniff action m p)) /\ P (snd (fst (actionSniff action m p))).
Hypothesis resolve_safe : forall action m, panic_free (snd (actionResolve action m)).

Lemma runAction_safe preMatch supportBypass a m p : P p ->
  panic_free (snd (runAction actionSniff actionResolve preMatch supportBypass a m p)) /\ P (snd (fst (runAction actionSniff actionResolve preMatch supportBypass a m p))).
Proof.
  intros HP. destruct a as [| | | | | |action|action]; cbn [runAction]; try done.
  - destruct preMatch; cbn [negb]; [by destruct (negb _)|]. destruct (sniff_safe action m p HP) as [H1 H2].
    destruct (actionSniff action m p) as [[m1 p1] r]. split; [by apply panic_free_bind|done].
  - pose proof (resolve_safe action m). destruct (actionResolve action m) as [m1 r]. split; [by apply panic_free_bind|done].
Qed.

Lemma matchRule_safe preMatch supportBypass rules m p : Forall (fun r => sound_action (rr_action r)) rules -> P p ->
  panic_free (snd (matchRule rt services actionSniff actionResolve release preMatch supportBypass rules m p)).
Proof.
  intros Hrules HP. unfold matchRule.
  assert (panic_free (snd (prepareMatch services m))) as Hprep.
  { unfold prepareMatch, lookupDomain. destruct (fakeIPStore services) as [[contains lookup]|]; [|done].
    destruct (_ && _); [|done]. destruct (lookup _) as [d|]; [by destruct (String.eqb d "")|done]. }
  destruct (prepareMatch services m) as [m1 [|e|s]]; [|done..]. clear Hprep. generalize 0%nat as index. revert m1 p HP.
  induction Hrules as [|rule rules Ha _ IH]; intros m1 p HP index; cbn [matchRule_loop]; [done|].
  destruct (Rule_Match_mut rt (rr_rule rule) _) as [[] c]; cbn [negb]; [|by apply IH].
  destruct (rr_action rule) as [a|]; [|done].
  match goal with |- context [runAction ?s ?r ?pm ?sb a ?m ?q] => destruct (runAction_safe pm sb a m q HP) as [H1 H2]; destruct (runAction s r pm sb a m q) as [[m2 p2] [[]| |]] end;
    [by apply IH|done..].
Qed.

End SafeWalk.

Section Safety.
Context `{SE : SniffEnv} `{QC : QuicCrypto} `{!SniffEnvLaws} `{!QuicCryptoLaws}.

Lemma streamSniffers_return action : Forall (fun s : StreamSniffer => forall readers md, returns (snd (s readers md))) (streamSniffers action).
Proof.
  apply Forall_forall. intros s Hs readers md. unfold streamSniffers in Hs. apply list_elem_of_omap in Hs as (name & _ & Hs).
  destruct name; cbn [streamSniffer] in Hs; try done; injection Hs as <-; apply sniffer_returns.
Qed.

Lemma packetSniffers_ok action : Forall PacketSnifferOk (packetSniffers action).
Proof.
  apply Forall_forall. intros s Hs. unfold packetSniffers in Hs. apply list_elem_of_omap in Hs as (name & _ & Hs).
  destruct name; cbn [packetSniffer] in Hs; try done; injection Hs as <-; apply _.
Qed.

Lemma trySniffers_safe {I} (sniffers : list (I -> SniffData -> SniffData * result unit)) input :
  Forall (fun s => forall i md, returns (snd (s i md))) sniffers -> forall md err,
  match snd (trySniffers sniffers input md err) with Crashed _ => False | _ => True end.
Proof.
  induction 1 as [|s sniffers Hs _ IH]; intros md err; cbn [trySniffers]; [done|]. specialize (Hs input md).
  destruct (s input md) as [md1 [|e|]]; [done|apply IH|done].
Qed.

Lemma PeekStream_safe action buffers events md : panic_free (snd (PeekStream (streamSniffers action) buffers events md)).
Proof.
  unfold PeekStream. generalize (@nil byte), 0%nat, (@None go_error), md. clear md.
  induction events as [|ev events IH]; intros buffer i err md; cbn [PeekStream_loop].
  { destruct (0 <? i)%nat; [by destruct err|done]. }
  destruct ev as [data|e|e]; [|destruct (0 <? i)%nat; [by destruct err|done]|done].
  pose proof (trySniffers_safe _ (buffers ++ [buffer ++ data]) (streamSniffers_return action) md None) as Hs.
  destruct (trySniffers _ _ _ _) as [md1 [|err1|m]]; [done| |done].
  destruct (match err1 with Some _ => _ | None => _ end); [apply IH|by destruct err1].
Qed.

Lemma sniffPacket_safe action packet st : context_ok (ps_data st) ->
  panic_free (snd (sniffPacket action packet st)) /\ context_ok (ps_data (fst (sniffPacket action packet st))).
Proof.
  intros Hc. unfold sniffPacket.
  assert (Forall PacketSnifferOk (if quicMoreData action st then [Quic.QUICClientHello] else packetSniffers action)) as Hs.
  { destruct (quicMoreData _ _); [repeat constructor; apply QUICClientHello_ok; done|apply packetSniffers_ok]. }
  destruct (PeekPacket_returns _ packet (ps_data st) Hs Hc) as [H1 H2].
  destruct (PeekPacket _ _ _) as [d r]. split; [by apply returns_panic_free|done].
Qed.

Lemma sniffBuffered_safe action packets : forall st, context_ok (ps_data st) ->
  panic_free (snd (sniffBuffered action packets st)) /\ context_ok (ps_data (fst (sniffBuffered action packets st))).
Proof.
  induction packets as [|packet packets IH]; intros st Hc; cbn [sniffBuffered]; [done|].
  destruct (sniffPacket_safe action (pb_Buffer packet) st Hc) as [H1 H2]. destruct (sniffPacket _ _ _) as [st1 [u|e|s]]; [| |done];
    (destruct (wants_more _); [by apply IH|done]).
Qed.

Lemma sniffArriving_safe action events : forall st held, context_ok (ps_data st) ->
  panic_free (snd (sniffArriving action events st held)) /\ context_ok (ps_data (fst (fst (fst (sniffArriving action events st held))))).
Proof.
  induction events as [|ev events IH]; intros st held Hc; cbn [sniffArriving]; [done|]. destruct ev as [packet|e|e|e]; [|done..].
  destruct (sniffPacket_safe action (pb_Buffer packet) st Hc) as [H1 H2]. destruct (sniffPacket _ _ _) as [st1 [u|e|s]]; [| |done];
    (destruct (wants_more _); [by apply IH|done]).
Qed.

(** The fragments kept between packets come from the QUIC sniffer. *)
Definition peek_ok (p : Peek) : Prop :=
  match pk_conn p with PacketConn _ => forall protocol domain client, context_ok (mkSniffData protocol domain client (pk_context p)) | _ => True end.

Lemma context_ok_only d protocol domain client : context_ok d -> context_ok (mkSniffData protocol domain client (s_Context d)).
Proof. done. Qed.

Lemma sniffStep_safe action m p : peek_ok p -> panic_free (snd (sniffStep action m p)) /\ peek_ok (snd (fst (sniffStep action m p))).
Proof.
  intros Hp. unfold sniffStep, actionSniff. destruct (Skip _); [done|]. destruct (negb (String.eqb _ _)); [done|].
  destruct (pk_conn p) as [events|events|] eqn:Ec; [| |done]; (destruct ((_ && _) || _); [done|]).
  - unfold sniffStream. pose proof (PeekStream_safe action (pk_buffers p) events (sniffData m p)) as Hs.
    destruct (PeekStream _ _ _ _) as [[[d buffer] rest] [u|e|s]]; [| |done]; by destruct buffer.
  - unfold sniffPacketConn. unfold peek_ok in Hp. rewrite Ec in Hp.
    destruct (sniffBuffered_safe action (pk_packets p) (mkPacketState (sniffData m p) (pk_names p) (pk_error p)) (Hp _ _ _)) as [H1 H2].
    destruct (sniffBuffered _ _ _) as [st [[]|e|s]]; cbn [fst snd] in *; [split; [done|by intros ???; apply context_ok_only]| |split; [done|by intros ???; apply context_ok_only]|done].
    destruct (sniffArriving_safe action events st (pk_packets p) H2) as [H3 H4].
    destruct (sniffArriving _ _ _ _) as [[[st1 rest] held] r]. cbn [fst snd] in *. split; [done|].
    destruct held; by intros ???; apply context_ok_only.
Qed.

End Safety.

(** ** The outbound *)

(** An outbound of the registry, or the default one, that supports the network. *)
Definition fit_outbound `{GoEnv} (rv : RouterView) (network : string) (o : OutboundInfo) : Prop :=
  network ∈ ob_Network o /\ (o = rv_default rv \/ exists tag, rv_outbound rv tag = Some o).

Section Outbounds.
Context `{GE : GoEnv} (rv : RouterView) (network label defaultLabel : string) (now : Z) (drops : list Z).

Lemma chosenOutbound_fit tag o : chosenOutbound rv tag network label = Ok o -> fit_outbound rv network o.
Proof.
  unfold chosenOutbound. destruct (rv_outbound rv tag) as [o'|] eqn:E; [|done]. case_bool_decide; cbn [negb]; [|done].
  intros [= <-]. split; [done|]. right. by exists tag.
Qed.

(** For a rule that the walk can select, a chosen outbound is never nil. *)
Lemma selectOutbound_fit selected choice :
  (forall rule, selected = Some rule -> selectable false false (rr_action rule) = true /\ isHijackDNS selected = false) ->
  selectOutbound now drops rv network label defaultLabel selected = Ok (Some choice) -> exists o, choice = Some o /\ fit_outbound rv network o.
Proof.
  intros Hsel. destruct selected as [rule|]; cbn [selectOutbound].
  - destruct (Hsel rule eq_refl) as [Hs Hh]. cbn in Hh. destruct (rr_action rule) as [[tag options| |tag options| |method noDrop| | |]|]; cbn [selectable terminal] in Hs; try done.
    + destruct (chosenOutbound rv tag network label) as [o| |] eqn:E; [|done..]. intros [= <-]. exists o. split; [done|]. by eapply chosenOutbound_fit.
    + cbn in Hs. destruct (String.eqb tag ""); [done|].
      destruct (chosenOutbound rv tag network label) as [o| |] eqn:E; [|done..]. intros [= <-]. exists o. split; [done|]. by eapply chosenOutbound_fit.
    + destruct (String.eqb method _); [done|]. unfold rejected. destruct (fst (Reject_Error _ _ _ _)) as [[e|]| |]; done.
  - case_bool_decide; cbn [negb]; [|done]. intros [= <-]. eexists. split; [done|]. split; [done|]. by left.
Qed.

End Outbounds.

(** What reading a routed connection delivers, as the documentation of the
    wrappers has it: the cached bytes first, then the connection below. *)
Record delivers_stream (delivers : RoutedConn -> list byte) : Prop := {
  delivers_raw events : delivers (RawConn (StreamConn events)) = payload events;
  delivers_cached conn buffer : delivers (CachedConn conn buffer) = buffer ++ delivers conn;
  delivers_tracked conn i : delivers (TrackedConn conn i) = delivers conn;
}.

Lemma runTrackers_delivers `{GE : GoEnv} delivers trackers : delivers_stream delivers -> forall i m rule outbound conn conn',
  runTrackers trackers i m rule outbound conn = Ok conn' -> delivers conn' = delivers conn.
Proof.
  intros Hd. induction trackers as [|t trackers IH]; intros i m rule outbound conn conn'; cbn [runTrackers]; [by intros [= <-]|].
  destruct (t m rule outbound); [|done]. intros H. apply IH in H. by rewrite H, (delivers_tracked _ Hd).
Qed.

Lemma cacheBuffers_delivers delivers buffers conn : delivers_stream delivers ->
  delivers (cacheBuffers buffers conn) = concat (reverse buffers) ++ delivers conn.
Proof.
  intros Hd. unfold cacheBuffers. revert conn. induction buffers as [|b buffers IH]; intros conn; cbn [fold_left]; [done|].
  rewrite IH, (delivers_cached _ Hd), reverse_cons, concat_app. cbn [concat]. by rewrite app_nil_r, app_assoc.
Qed.

(** What reading a routed packet connection delivers: the cached packet first;
    address translation rewrites addresses only. *)
Record delivers_packets (delivers : RoutedConn -> list Packet) : Prop := {
  packets_raw events : delivers (RawConn (PacketConn events)) = packets_of events;
  packets_cached conn packet : delivers (CachedPacketConn conn packet) = packet :: delivers conn;
  packets_tracked conn i : delivers (TrackedConn conn i) = delivers conn;
  packets_nat conn origin destination : map pb_Buffer (delivers (NATPacketConn conn origin destination)) = map pb_Buffer (delivers conn);
}.

Lemma runTrackers_packets `{GE : GoEnv} delivers trackers : delivers_packets delivers -> forall i m rule outbound conn conn',
  runTrackers trackers i m rule outbound conn = Ok conn' -> delivers conn' = delivers conn.
Proof.
  intros Hd. induction trackers as [|t trackers IH]; intros i m rule outbound conn conn'; cbn [runTrackers]; [by intros [= <-]|].
  destruct (t m rule outbound); [|done]. intros H. apply IH in H. by rewrite H, (packets_tracked _ Hd).
Qed.

Lemma cachePackets_delivers delivers packets conn : delivers_packets delivers ->
  delivers (cachePackets packets conn) ≡ₚ packets ++ delivers conn.
Proof.
  intros Hd. unfold cachePackets. revert conn. induction packets as [|p packets IH]; intros conn; cbn [fold_left]; [done|].
  rewrite IH, (packets_cached _ Hd). symmetry. apply Permutation_middle.
Qed.

Section Routed.
Context `{GE : GoEnv} `{SE : SniffEnv} `{QC : QuicCrypto} (rt : RuntimeState) (services : Services) (reserved : ReservedNames).
Context (resolve : ResolveAction -> RouteMetadata -> RouteMetadata * result unit) (now : Z) (drops : list Z).

Lemma matchConn_selectable rules m p m' p' selected :
  matchConn rt services resolve false false rules m p = (m', p', Ok selected) ->
  forall rule, option_map snd selected = Some rule -> selectable false false (rr_action rule) = true.
Proof.
  unfold matchConn, matchRule. destruct (prepareMatch services m) as [m1 [|e|s]]; [|done..]. intros H rule Hr.
  destruct selected as [[k rule']|]; [|done]. injection Hr as ->.
  destruct (loop_selected rt services sniffStep resolve release false false rules 0%nat m1 p k rule) as [Hs _]; [by rewrite H|done].
Qed.

(** C17: a stream that is routed to an outbound reaches it unchanged: what was
    read for sniffing comes first, then the rest, byte for byte.  The outbound
    is one of the registry or the default one, never missing, and it supports
    TCP.  For configurations in which at most one rule sniffs. *)
Theorem routed_stream_intact (delivers : RoutedConn -> list byte) (rv : RouterView) (info : ConnInfo) (m : RouteMetadata)
    (events : list ReadEvent) outbound handler conn m' :
  delivers_stream delivers -> (sniff_rules (rv_rules rv) <= 1)%nat ->
  routeConnection rt services reserved resolve now drops rv info m events = Ok (ToOutbound outbound handler conn m') ->
  delivers conn = payload events /\ exists o, outbound = Some o /\ fit_outbound rv NetworkTCP o.
Proof.
  intros Hd Hone. unfold routeConnection, detour. destruct (negb (String.eqb (InboundDetour info) "")).
  { destruct (String.eqb (LastInbound info) _); [done|]. destruct (rv_inbound rv _) as [ib|]; [|done]. by destruct (negb _). }
  destruct (reservedName _ _); [done|]. destruct (_ && _); [done|].
  destruct (matchConn _ _ _ _ _ _ _ _) as [[m1 p] [selected|e|s]] eqn:Em; [|done..].
  pose proof (matchConn_selectable _ _ _ _ _ _ Em) as Hsel. unfold matchConn in Em.
  apply (matchRule_invariant rt services sniffStep resolve release (stream_held (payload events)) (rv_rules rv)) in Em as (Hn & _ & rest & Hc & Hb).
  - destruct (isHijackDNS (option_map snd selected)) eqn:Eh; [done|]. intros H.
    destruct (selectOutbound _ _ _ _ _ _ _) as [[choice|]| |] eqn:Es; [|done..]. cbn [bind_result] in H.
    destruct (runTrackers _ _ _ _ _ _) as [conn'| |] eqn:Et; [|done..]. injection H as <- _ <- _. split.
    + rewrite (runTrackers_delivers delivers _ Hd _ _ _ _ _ _ Et), (cacheBuffers_delivers delivers _ _ Hd), Hc, (delivers_raw _ Hd), Hb.
      f_equal. destruct (pk_buffers p) as [|b [|]]; [done|done|cbn in Hn; lia].
    + eapply selectOutbound_fit; [|exact Es]. intros rule Hr. split; [by apply Hsel|done].
  - intros n p' (H1 & H2 & H3). split; [lia|]. by split.
  - intros n action m0 p0 m0' p0'. apply sniffStep_stream.
  - unfold stream_held, newPeek; cbn [pk_buffers pk_packets pk_conn length]. split; [lia|]. split; [done|]. by eexists.
Qed.

(** C18: the packets of a packet connection that is routed to an outbound reach
    it, each exactly once (in an order of their own: UDP promises none), with
    the payload unchanged, and with the address unchanged too unless the
    connection is to a fake address.  The outbound is never missing and it
    supports UDP.  For configurations in which at most one rule sniffs. *)
Theorem routed_packets_kept (delivers : RoutedConn -> list Packet) (rv : RouterView) (info : ConnInfo) (m : RouteMetadata)
    (events : list PacketEvent) outbound handler conn m' :
  delivers_packets delivers -> (sniff_rules (rv_rules rv) <= 1)%nat ->
  routePacketConnection rt services resolve now drops rv info m events = Ok (ToOutbound outbound handler conn m') ->
  map pb_Buffer (delivers conn) ≡ₚ map pb_Buffer (packets_of events)
  /\ (rm_FakeIP m' = false -> delivers conn ≡ₚ packets_of events)
  /\ exists o, outbound = Some o /\ fit_outbound rv NetworkUDP o.
Proof.
  intros Hd Hone. unfold routePacketConnection, detour. destruct (negb (String.eqb (InboundDetour info) "")).
  { destruct (String.eqb (LastInbound info) _); [done|]. destruct (rv_inbound rv _) as [ib|]; [|done]. by destruct (negb _). }
  destruct (_ && _); [done|].
  destruct (matchConn _ _ _ _ _ _ _ _) as [[m1 p] [selected|e|s]] eqn:Em; [|done..].
  pose proof (matchConn_selectable _ _ _ _ _ _ Em) as Hsel. unfold matchConn in Em.
  apply (matchRule_invariant rt services sniffStep resolve release (packets_held (packets_of events)) (rv_rules rv)) in Em as (_ & _ & rest & Hc & Hb).
  - destruct (isHijackDNS (option_map snd selected)) eqn:Eh; [done|]. intros H.
    destruct (selectOutbound _ _ _ _ _ _ _) as [[choice|]| |] eqn:Es; [|done..]. cbn [bind_result] in H.
    destruct (runTrackers _ _ _ _ _ _) as [conn'| |] eqn:Et; [|done..]. cbn [bind_result] in H.
    assert (delivers conn' ≡ₚ packets_of events) as Hall.
    { rewrite (runTrackers_packets delivers _ Hd _ _ _ _ _ _ Et), (cachePackets_delivers delivers _ _ Hd), Hc, (packets_raw _ Hd). by rewrite Hb. }
    assert (exists o, choice = Some o /\ fit_outbound rv NetworkUDP o) as Hfit
      by (eapply selectOutbound_fit; [|exact Es]; intros rule Hr; split; [by apply Hsel|done]).
    injection H as <- _ <- <-. destruct (rm_FakeIP m1).
    + split; [by rewrite (packets_nat _ Hd), Hall|]. by split.
    + split; [by rewrite Hall|]. by split.
  - intros n p' H. by apply packets_held_weaken.
  - intros n action m0 p0 m0' p0'. apply sniffStep_packets.
  - unfold packets_held, newPeek; cbn [pk_buffers pk_packets pk_conn]. split; [intros Hp; split; [lia|done]|]. split; [done|]. by eexists.
Qed.

End Routed.

(** ** Routing does not panic *)

Section RoutingSafe.
Context `{GE : GoEnv} `{SE : SniffEnv} `{QC : QuicCrypto} `{!SniffEnvLaws} `{!QuicCryptoLaws}.
Context (rt : RuntimeState) (services : Services) (reserved : ReservedNames).
Context (resolve : ResolveAction -> RouteMetadata -> RouteMetadata * result unit) (now : Z) (drops : list Z).
Hypothesis resolve_safe : forall action m, panic_free (snd (resolve action m)).

Lemma detour_safe rv injectable label info m : panic_free (detour rv injectable label info m).
Proof. unfold detour. destruct (String.eqb _ _); [done|]. destruct (rv_inbound rv _) as [ib|]; [|done]. by destruct (negb _). Qed.

Lemma runTrackers_safe trackers : forall i m rule outbound conn, panic_free (runTrackers trackers i m rule outbound conn).
Proof. induction trackers as [|t trackers IH]; intros; cbn [runTrackers]; [done|]. by destruct (t _ _ _). Qed.

Lemma chosenOutbound_safe rv tag network label : panic_free (chosenOutbound rv tag network label).
Proof. unfold chosenOutbound. destruct (rv_outbound rv tag); [|done]. by destruct (negb _). Qed.

Lemma selectOutbound_safe rv network label defaultLabel selected :
  (forall rule, selected = Some rule -> sound_action (rr_action rule)) -> panic_free (selectOutbound now drops rv network label defaultLabel selected).
Proof.
  intros Hs. destruct selected as [rule|]; cbn [selectOutbound]; [|by destruct (negb _)]. specialize (Hs rule eq_refl).
  destruct (rr_action rule) as [[tag options| |tag options| |method noDrop| | |]|]; try done.
  - apply panic_free_bind; [apply chosenOutbound_safe|done].
  - destruct (String.eqb tag ""); [done|]. apply panic_free_bind; [apply chosenOutbound_safe|done].
  - destruct (String.eqb method RuleActionRejectMethodReply) eqn:E; [done|]. unfold rejected, Reject_Error. cbn [sound_action] in Hs.
    rewrite !elem_of_cons in Hs. destruct Hs as [->|[->|[->|[]%elem_of_nil]]]; [|done..]. by destruct noDrop.
Qed.

Lemma selected_sound rules m p m' p' selected : Forall (fun r => sound_action (rr_action r)) rules ->
  matchConn rt services resolve false false rules m p = (m', p', Ok selected) ->
  forall rule, option_map snd selected = Some rule -> sound_action (rr_action rule).
Proof.
  intros Hall. unfold matchConn, matchRule. destruct (prepareMatch services m) as [m1 [|e|s]]; [|done..]. intros Hmatch rule Hr.
  destruct selected as [[k rule']|]; [|done]. injection Hr as ->.
  destruct (loop_selected rt services sniffStep resolve release false false rules 0%nat m1 p k rule) as (_ & _ & Hl); [by rewrite Hmatch|].
  by eapply (Forall_lookup_1 _ _ _ _ Hall).
Qed.

(** C19: no connection makes the router panic: whatever bytes or packets a peer
    sends, whatever the reads return, routing a stream or a packet connection
    ends with a hand-over or an error, when every rule has an action and a known
    method of rejection, and the lookup of the DNS router does not panic. *)
Theorem routing_safe (rv : RouterView) (info : ConnInfo) (m : RouteMetadata) (stream : list ReadEvent) (packets : list PacketEvent) :
  Forall (fun r => sound_action (rr_action r)) (rv_rules rv) ->
  panic_free (routeConnection rt services reserved resolve now drops rv info m stream)
  /\ panic_free (routePacketConnection rt services resolve now drops rv info m packets).
Proof.
  intros Hrules. assert (forall m p, peek_ok p -> panic_free (snd (matchConn rt services resolve false false (rv_rules rv) m p))) as Hm
    by (intros; by apply (matchRule_safe rt services sniffStep resolve release peek_ok sniffStep_safe resolve_safe)).
  split; [unfold routeConnection|unfold routePacketConnection]; (destruct (negb _); [apply detour_safe|]).
  - destruct (reservedName _ _); [done|]. destruct (_ && _); [done|].
    match goal with |- context [matchConn ?a ?b ?c ?d ?e ?f ?g ?h] => specialize (Hm g h I); destruct (matchConn a b c d e f g h) as [[m1 p] [selected|e'|s]] eqn:Em end; [|done..].
    destruct (isHijackDNS _); [done|]. apply panic_free_bind; [apply selectOutbound_safe; by eapply selected_sound|].
    intros [outbound|]; [|done]. apply panic_free_bind; [apply runTrackers_safe|done].
  - destruct (_ && _); [done|].
    match goal with |- context [matchConn ?a ?b ?c ?d ?e ?f ?g ?h] => specialize (Hm g h ltac:(done)); destruct (matchConn a b c d e f g h) as [[m1 p] [selected|e'|s]] eqn:Em end; [|done..].
    destruct (isHijackDNS _); [done|]. apply panic_free_bind; [apply selectOutbound_safe; by eapply selected_sound|].
    intros [outbound|]; [|done]. apply panic_free_bind; [apply runTrackers_safe|done].
Qed.

End RoutingSafe.

(** ** Witnesses *)

Module DispatchDemo.
#[local] Existing Instances SniffDemo.env SniffDemo.env_laws QuicDemo.crypto QuicDemo.crypto_laws.

(** A rule that matches every connection to port 443. *)
Definition always (a : RuleAction) : RouteRule := mkRouteRule (DefaultRule (demoPortRule 443) None) (Some a).
Definition sniffWith (name : string) (streams packets : list Sniffer) : RouteRule := always (RuleActionSniff (mkSniffAction [name] streams packets 0)).
Definition toProxy : RouteRule := always (RuleActionRoute "proxy" noOptions).

Definition proxy : OutboundInfo := mkOutboundInfo "proxy" [NetworkTCP; NetworkUDP] false false false.
Definition direct : OutboundInfo := mkOutboundInfo "direct" [NetworkTCP] true false true.

Definition view (rules : list RouteRule) : RouterView :=
  mkRouterView rules (fun _ => None) (fun tag => if String.eqb tag "proxy" then Some proxy else None) direct [fun _ _ _ => true].

Definition info : ConnInfo := mkConnInfo "mixed" "" "".
Definition reserved : ReservedNames := mkReservedNames "mux" "v1.mux.cool" "uot.2" "uot.1".
Definition resolve (action : ResolveAction) (m : RouteMetadata) : RouteMetadata * result unit := (m, Ok tt).
(** Nothing has been sniffed yet. *)
Definition conn0 : RouteMetadata := demoRoute (set_Sniffed "" "" "" (demoConnection "www.example.org")).

Fixpoint read (conn : RoutedConn) : list byte :=
  match conn with
  | RawConn (StreamConn events) => payload events
  | RawConn _ => []
  | CachedConn conn buffer => buffer ++ read conn
  | CachedPacketConn conn _ | TrackedConn conn _ | NATPacketConn conn _ _ => read conn
  end.

Fixpoint readPackets (conn : RoutedConn) : list Packet :=
  match conn with
  | RawConn (PacketConn events) => packets_of events
  | RawConn _ => []
  | CachedPacketConn conn packet => packet :: readPackets conn
  | CachedConn conn _ | TrackedConn conn _ | NATPacketConn conn _ _ => readPackets conn
  end.

Lemma read_delivers : delivers_stream read.
Proof. by constructor. Qed.
Lemma readPackets_delivers : delivers_packets readPackets.
Proof. by constructor. Qed.

Definition banner : list ReadEvent := [Data (bytes_of_string "SSH-"); Data (bytes_of_string "2.0-Go" ++ [x0d; x0a]); Data (bytes_of_string "x")].

Abbreviation routeStream rules events := (routeConnection demoRuntime demoServices reserved resolve 0 [] (view rules) info conn0 events).
Abbreviation routePackets rules events := (routePacketConnection demoRuntime demoServices resolve 0 [] (view rules) info conn0 events).

Definition delivered (r : result Routed) : option (list byte) := match r with Ok (ToOutbound _ _ conn _) => Some (read conn) | _ => None end.
Definition deliveredPackets (r : result Routed) : option (list (list byte)) :=
  match r with Ok (ToOutbound _ _ conn _) => Some (map pb_Buffer (readPackets conn)) | _ => None end.

Definition sniffSSH : list RouteRule := [sniffWith "ssh" [SSH] []; toProxy].
Definition sniffQUIC : list RouteRule := [sniffWith "quic" [] [QUICClientHello]; toProxy].

Definition packet (bs : list byte) : Packet := mkPacket bs (mkSocksaddr AddrInvalid 443 "www.example.org").
Definition hello1 : Packet := packet (QuicDemo.packet QuicDemo.payload1).
Definition hello2 : Packet := packet (QuicDemo.packet QuicDemo.payload2).

(** How a stream is routed. *)
Definition routed_to (r : result Routed) : bool := match r with Ok (ToOutbound _ _ _ _) => true | _ => false end.

Lemma routed_to_outbound r : routed_to r = true -> exists outbound handler conn m, r = Ok (ToOutbound outbound handler conn m).
Proof. destruct r as [[| |outbound handler conn m|]| |]; [done|done| |done..]. intros _. by eexists _, _, _, _. Qed.

Lemma banner_routed : routed_to (routeStream sniffSSH banner) = true.
Proof. by_compute. Qed.

Definition helloEvents : list PacketEvent := [PacketArrives hello1; PacketArrives hello2; PacketArrives (packet [x01])].

Lemma hello_routed : routed_to (routePackets sniffQUIC helloEvents) = true.
Proof. by_compute. Qed.

Lemma routed_stream_intact_witness : exists outbound handler conn m,
  routeStream sniffSSH banner = Ok (ToOutbound outbound handler conn m) /\ read conn = payload banner.
Proof.
  destruct (routed_to_outbound _ banner_routed) as (outbound & handler & conn & m & E). exists outbound, handler, conn, m. split; [exact E|].
  assert (sniff_rules (rv_rules (view sniffSSH)) <= 1)%nat as Hone by (vm_compute; constructor).
  exact (proj1 (routed_stream_intact demoRuntime demoServices reserved resolve 0 [] read (view sniffSSH) info conn0 banner
    outbound handler conn m read_delivers Hone E)).
Defined.

Lemma routed_packets_kept_witness : exists outbound handler conn m,
  routePackets sniffQUIC helloEvents = Ok (ToOutbound outbound handler conn m)
  /\ map pb_Buffer (readPackets conn) ≡ₚ map pb_Buffer (packets_of helloEvents).
Proof.
  destruct (routed_to_outbound _ hello_routed) as (outbound & handler & conn & m & E). exists outbound, handler, conn, m. split; [exact E|].
  assert (sniff_rules (rv_rules (view sniffQUIC)) <= 1)%nat as Hone by (vm_compute; constructor).
  exact (proj1 (routed_packets_kept demoRuntime demoServices resolve 0 [] readPackets (view sniffQUIC) info conn0 helloEvents
    outbound handler conn m readPackets_delivers Hone E)).
Defined.

Lemma routing_safe_witness :
  panic_free (routeStream sniffSSH [Data [x00]; ReadFails EOF]) /\ panic_free (routePackets sniffSSH [PacketArrives (packet [])]).
Proof.
  apply (routing_safe demoRuntime demoServices reserved resolve 0 [] (fun _ _ => I) (view sniffSSH) info conn0 [Data [x00]; ReadFails EOF] [PacketArrives (packet [])]).
  repeat constructor.
Defined.

(** With two rules that sniff, the bytes of a stream reach the outbound in
    another order: the buffers are wrapped first to last, so that the last one
    peeked is delivered first. *)
Example two_sniffs_reorder_stream :
  delivered (routeStream [sniffWith "rdp" [RDP] []; sniffWith "ssh" [SSH] []; toProxy] banner)
  = Some (bytes_of_string "2.0-Go" ++ [x0d; x0a] ++ bytes_of_string "SSH-" ++ bytes_of_string "x").
Proof. by_compute. Qed.

(** With two rules that sniff, a packet is delivered twice: the second action
    returns the packets it was given, and they are appended again. *)
Example two_sniffs_duplicate_packet :
  deliveredPackets (routePackets [sniffWith "stun" [] [STUNMessage]; sniffWith "quic" [] [QUICClientHello]; toProxy]
                      [PacketArrives hello1; PacketArrives hello2])
  = Some [pb_Buffer hello2; pb_Buffer hello1; pb_Buffer hello1].
Proof. by_compute. Qed.

End DispatchDemo.
