(* ===== verification/InboundManager.v ===== *)
(** * The inbound manager (adapter/inbound/manager.go)

    The registry of inbounds, as [OutboundManager] without dependencies.  An
    [Inbound] is a reference: [ib_id] is its identity, which is what the code
    compares.  [running] are the inbounds that went through all start stages
    and were not closed: what is listening.

    What the constructors of the registry and starting or closing an inbound
    do is code of the protocol packages; each call is given the outcomes as an
    [InboundIO]. *)
From Stdlib Require Import ZArith Lia Bool.
From S2P Require Import Prelude OutboundManager.

Section Inbounds.
Context {Options : Type}.

Record Inbound := mkInbound { ib_id : nat; ib_Type : string; ib_Tag : string; ib_Options : Options }.

Record InboundManager := mkInboundManager {
  im_started : bool;
  im_stage : StartStage;
  inbounds : list Inbound;
  inboundByTag : gmap string Inbound;
  running : gset nat;
  nextInbound : nat;
}.

Record InboundIO := mkInboundIO {
  io_create : option go_error;                             (* registry.Create *)
  io_start : Inbound -> StartStage -> option go_error;     (* adapter.LegacyStart *)
  io_close : Inbound -> option go_error;                   (* inbound.Close *)
}.

Definition NewInboundManager : InboundManager := mkInboundManager false StartStateInitialize [] ∅ ∅ 0.

Definition set_inbounds (l : list Inbound) (byTag : gmap string Inbound) (m : InboundManager) : InboundManager :=
  mkInboundManager (im_started m) (im_stage m) l byTag (running m) (nextInbound m).
Definition set_running (s : gset nat) (m : InboundManager) : InboundManager :=
  mkInboundManager (im_started m) (im_stage m) (inbounds m) (inboundByTag m) s (nextInbound m).

Definition inbound_name (i : Inbound) : string := "inbound/" +:+ ib_Type i +:+ "[" +:+ ib_Tag i +:+ "]".

Fixpoint remove_inbound (i : Inbound) (l : list Inbound) : option (list Inbound) :=
  match l with
  | [] => None
  | x :: l' => if (ib_id x =? ib_id i)%nat then Some l' else option_map (cons x) (remove_inbound i l')
  end.

Definition or_error (err : option go_error) : result unit := match err with None => Ok tt | Some e => Err e end.

(** The start stages, in order; an error names the stage. *)
Fixpoint start_inbound (io : InboundIO) (i : Inbound) (stages : list StartStage) : option go_error :=
  match stages with
  | [] => None
  | s :: rest =>
      match io_start io i s with
      | None => start_inbound io i rest
      | Some e => Some (ECause e (stage_String s +:+ " " +:+ inbound_name i))
      end
  end.

Fixpoint start_inbounds (io : InboundIO) (s : StartStage) (l : list Inbound) : option go_error :=
  match l with
  | [] => None
  | i :: rest =>
      match io_start io i s with
      | None => start_inbounds io s rest
      | Some e => Some (ECause e (stage_String s +:+ " " +:+ inbound_name i))
      end
  end.

(** [Start]: after the last stage without an error the inbounds listen. *)
Definition InboundManager_Start (io : InboundIO) (s : StartStage) (m : InboundManager) : result unit * InboundManager :=
  if im_started m && (stage_number s <=? stage_number (im_stage m)) then (Panic "already started", m)
  else
    let m := mkInboundManager true s (inbounds m) (inboundByTag m) (running m) (nextInbound m) in
    let r := start_inbounds io s (inbounds m) in
    (or_error r, match r with
       | None => if decide (s = StartStateStarted) then set_running (running m ∪ list_to_set (map ib_id (inbounds m))) m else m
       | Some _ => m
       end).

Fixpoint close_inbounds (io : InboundIO) (l : list Inbound) (err : option go_error) : option go_error :=
  match l with
  | [] => err
  | i :: rest =>
      close_inbounds io rest
        match io_close io i with
        | Some e => let e := ECause e ("close " +:+ inbound_name i) in
                    Some (match err with None => e | Some e0 => EErrors e0 e end)
        | None => err
        end
  end.

Definition InboundManager_Close (io : InboundIO) (m : InboundManager) : option go_error * InboundManager :=
  if negb (im_started m) then (None, m)
  else (close_inbounds io (inbounds m) None,
        mkInboundManager false (im_stage m) [] (inboundByTag m) (running m ∖ list_to_set (map ib_id (inbounds m))) (nextInbound m)).

(** [Get]; [endpoint_Get] is that of the endpoint manager. *)
Definition InboundManager_Get (endpoint_Get : string -> option Inbound) (tag : string) (m : InboundManager) : option Inbound :=
  match inboundByTag m !! tag with Some i => Some i | None => endpoint_Get tag end.

Definition InboundManager_Remove (io : InboundIO) (tag : string) (m : InboundManager) : result unit * InboundManager :=
  match inboundByTag m !! tag with
  | None => (Err ErrInvalid, m)
  | Some inbound =>
      match remove_inbound inbound (inbounds m) with
      | None => (Panic "invalid inbound index", set_inbounds (inbounds m) (delete tag (inboundByTag m)) m)
      | Some l =>
          let m := set_inbounds l (delete tag (inboundByTag m)) m in
          if im_started m then (or_error (io_close io inbound), set_running (running m ∖ {[ib_id inbound]}) m) else (Ok tt, m)
      end
  end.

(** The last part of [Create]: the inbound takes the place of the one with its tag. *)
Definition register (tag : string) (inbound : Inbound) (m : InboundManager) : result unit * InboundManager :=
  let l :=
    match inboundByTag m !! tag with
    | Some existsInbound => remove_inbound existsInbound (inbounds m)
    | None => Some (inbounds m)
    end in
  match l with
  | None => (Panic "invalid inbound index", m)
  | Some l => (Ok tt, set_inbounds (l ++ [inbound]) (<[tag := inbound]> (inboundByTag m)) m)
  end.

(** An inbound that is given up: closed, with the error of closing it added. *)
Definition abandon (io : InboundIO) (inbound : Inbound) (err : go_error) : go_error :=
  match io_close io inbound with
  | Some e => EErrors err (ECause e ("close failed " +:+ inbound_name inbound))
  | None => err
  end.

Definition InboundManager_Create (io : InboundIO) (tag type_ : string) (options : Options) (m : InboundManager)
    : result unit * InboundManager :=
  match io_create io with
  | Some e => (Err e, m)
  | None =>
      let inbound := mkInbound (nextInbound m) type_ tag options in
      let m := mkInboundManager (im_started m) (im_stage m) (inbounds m) (inboundByTag m) (running m) (S (nextInbound m)) in
      if im_started m then
        match start_inbound io inbound ListStartStages with
        | Some e => (Err (abandon io inbound e), m)
        | None =>
            match inboundByTag m !! tag with
            | None => register tag inbound (set_running ({[ib_id inbound]} ∪ running m) m)
            | Some existsInbound =>
                let m := set_running (running m ∖ {[ib_id existsInbound]}) m in
                match io_close io existsInbound with
                | Some e => (Err (abandon io inbound (ECause e ("close " +:+ inbound_name existsInbound))), m)
                | None => register tag inbound (set_running ({[ib_id inbound]} ∪ running m) m)
                end
            end
        end
      else register tag inbound m
  end.

(** ** Consistency *)

Record im_ok (m : InboundManager) : Prop := {
  im_nodup : NoDup (map ib_id (inbounds m));
  im_tags : forall tag i, inboundByTag m !! tag = Some i <-> i ∈ inbounds m /\ ib_Tag i = tag;
  im_fresh : forall i, i ∈ inbounds m -> (ib_id i < nextInbound m)%nat;
}.

(** What is registered is what listens. *)
Definition listening (m : InboundManager) : Prop := im_started m = true -> running m = list_to_set (map ib_id (inbounds m)).

Lemma remove_inbound_spec i l : i ∈ l -> NoDup (map ib_id l) ->
  exists l', remove_inbound i l = Some l' /\ NoDup (map ib_id l') /\ (forall x, x ∈ l' <-> x ∈ l /\ ib_id x <> ib_id i).
Proof.
  induction l as [|y l IH]; intros Hi Hn; [by apply not_elem_of_nil in Hi|]. cbn in *. apply NoDup_cons in Hn as [Hy Hn].
  destruct (Nat.eqb_spec (ib_id y) (ib_id i)) as [E|E].
  - exists l. split; [done|]. split; [done|]. intros x. rewrite elem_of_cons. split.
    + intros Hx. split; [by right|]. intros Ex. apply Hy. rewrite E, <- Ex. apply list_elem_of_fmap. by exists x.
    + intros [[->|Hx] Hne]; [done|done].
  - apply elem_of_cons in Hi as [->|Hi]; [done|]. destruct (IH Hi Hn) as (l' & -> & Hn' & Hl'). exists (y :: l'). cbn. split; [done|]. split.
    + apply NoDup_cons. split; [|done]. intros (x & Ex & Hx)%list_elem_of_fmap. apply Hy, list_elem_of_fmap. exists x. split; [done|]. by apply Hl'.
    + intros x. rewrite !elem_of_cons, Hl'. split; [intros [->|[]]; auto|intros [[->|] ?]; auto].
Qed.

Lemma ids_inj l x y : NoDup (map ib_id l) -> x ∈ l -> y ∈ l -> ib_id x = ib_id y -> x = y.
Proof.
  induction l as [|z l IH]; intros Hn Hx Hy E; [by apply not_elem_of_nil in Hx|]. cbn in Hn. apply NoDup_cons in Hn as [Hz Hn].
  apply elem_of_cons in Hx as [->|Hx]; apply elem_of_cons in Hy as [->|Hy]; [done|..|by apply IH].
  - destruct Hz. apply list_elem_of_fmap. by exists y.
  - destruct Hz. apply list_elem_of_fmap. by exists x.
Qed.

Lemma Remove_spec io tag m r m' : im_ok m -> InboundManager_Remove io tag m = (r, m') ->
  im_ok m' /\ inboundByTag m' = delete tag (inboundByTag m) /\ im_started m' = im_started m /\ (listening m -> listening m') /\
  match inboundByTag m !! tag with None => r = Err ErrInvalid | Some i => r = if im_started m then or_error (io_close io i) else Ok tt end.
Proof.
  intros [Hn Ht Hf] H. unfold InboundManager_Remove in H. destruct (inboundByTag m !! tag) as [i|] eqn:E.
  2: { injection H as <- <-. rewrite delete_id by done. done. }
  apply Ht in E as [Hi Etag]. destruct (remove_inbound_spec i (inbounds m) Hi Hn) as (l & El & Hn' & Hl). rewrite El in H.
  assert (Hok : im_ok (set_inbounds l (delete tag (inboundByTag m)) m)).
  { split; cbn; [done| |intros x [Hx _]%Hl; by apply Hf]. intros tag' x. rewrite lookup_delete_Some, Ht, Hl. split.
    - intros (Hne & Hx & Ex). split_and!; [done| |done]. intros E'. apply Hne. rewrite <- Etag, <- Ex. f_equal. symmetry. by apply (ids_inj (inbounds m)).
    - intros ((Hx & Hne) & Ex). split_and!; [|done|done]. intros ->. apply Hne. f_equal.
      assert (H1 : inboundByTag m !! tag' = Some x) by (by apply Ht). assert (H2 : inboundByTag m !! tag' = Some i) by (by apply Ht). congruence. }
  assert (Hset : list_to_set (map ib_id l) = (list_to_set (map ib_id (inbounds m)) : gset nat) ∖ {[ib_id i]}).
  { apply set_eq. intros x. rewrite elem_of_difference, !elem_of_list_to_set, elem_of_singleton, !list_elem_of_fmap. split.
    - intros (y & -> & [Hy Hne]%Hl). split; [by exists y|done].
    - intros [(y & -> & Hy) Hne]. exists y. split; [done|]. by apply Hl. }
  cbn [set_inbounds im_started] in H. destruct (im_started m) eqn:Es; injection H as <- <-; split_and!; try done.
  - destruct Hok. by split.
  - intros Hlis _. cbn. by rewrite Hlis, Hset.
  - intros _ Hs. cbn in Hs. congruence.
Qed.

Definition idset (l : list Inbound) : gset nat := list_to_set (map ib_id l).

Lemma register_spec tag i m r m' : im_ok m -> ib_Tag i = tag -> (ib_id i < nextInbound m)%nat -> ib_id i ∉ map ib_id (inbounds m) ->
  register tag i m = (r, m') ->
  r = Ok tt /\ im_ok m' /\ inboundByTag m' = <[tag := i]> (inboundByTag m) /\ im_started m' = im_started m /\ running m' = running m /\
  idset (inbounds m') = {[ib_id i]} ∪ (idset (inbounds m) ∖ match inboundByTag m !! tag with Some e => {[ib_id e]} | None => ∅ end).
Proof.
  intros [Hn Ht Hf] Etag Hlt Hni H. unfold register in H. unfold idset.
  assert (Hl : exists l, match inboundByTag m !! tag with Some e => remove_inbound e (inbounds m) | None => Some (inbounds m) end = Some l /\
    NoDup (map ib_id l) /\ (forall x, x ∈ l <-> x ∈ inbounds m /\ ib_Tag x <> tag) /\
    (list_to_set (map ib_id l) : gset nat) = list_to_set (map ib_id (inbounds m)) ∖ match inboundByTag m !! tag with Some e => {[ib_id e]} | None => ∅ end).
  { destruct (inboundByTag m !! tag) as [e|] eqn:Ee.
    - apply Ht in Ee as [He Etage]. destruct (remove_inbound_spec e (inbounds m) He Hn) as (l & El & Hn' & Hl). exists l. split; [done|]. split; [done|]. split.
      + intros x. rewrite Hl. split; intros [Hx Hne]; (split; [done|]); intros E; apply Hne.
        * assert (H1 : inboundByTag m !! tag = Some x) by (by apply Ht). assert (H2 : inboundByTag m !! tag = Some e) by (by apply Ht). congruence.
        * f_equal. rewrite <- Etage. by rewrite (ids_inj (inbounds m) x e).
      + apply set_eq. intros k. rewrite elem_of_difference, !elem_of_list_to_set, elem_of_singleton, !list_elem_of_fmap. split.
        * intros (y & -> & [Hy Hne]%Hl). split; [by exists y|done].
        * intros [(y & -> & Hy) Hne]. exists y. split; [done|]. by apply Hl.
    - exists (inbounds m). split; [done|]. split; [done|]. split; [|set_solver].
      intros x. split; [|by intros []]. intros Hx. split; [done|]. intros E. assert (H1 : inboundByTag m !! tag = Some x) by (by apply Ht). congruence. }
  destruct Hl as (l & El & Hnl & Hl & Hset). rewrite El in H. injection H as <- <-. cbn.
  split; [done|]. split; [|split; [done|split; [done|split; [done|]]]].
  - split; cbn.
    + rewrite map_app. apply NoDup_app. split; [done|]. split; [|apply NoDup_singleton].
      intros k (x & -> & [Hx _]%Hl)%list_elem_of_fmap Hk%list_elem_of_singleton. apply Hni. rewrite <- Hk. apply list_elem_of_fmap. by exists x.
    + intros tag' x. rewrite elem_of_app, list_elem_of_singleton, Hl. destruct (decide (tag' = tag)) as [->|Hne].
      * rewrite lookup_insert_eq. split; [intros [= <-]; auto|]. intros [[[_ ?]| ->] ?]; done.
      * rewrite lookup_insert_ne, Ht by done. split; [intros [Hx <-]; auto|]. intros [[[? ?]| ->] ?]; [done|congruence].
    + intros x [[Hx _]%Hl| ->%list_elem_of_singleton]%elem_of_app; [by apply Hf|done].
  - rewrite map_app, list_to_set_app_L, Hset. cbn. set_solver.
Qed.

Lemma Create_spec io tag type_ options m r m' : im_ok m -> InboundManager_Create io tag type_ options m = (r, m') ->
  im_ok m' /\ im_started m' = im_started m /\
  match r with
  | Ok _ => (exists i, inboundByTag m' = <[tag := i]> (inboundByTag m) /\ ib_Type i = type_ /\ ib_Options i = options) /\ (listening m -> listening m')
  | Err _ => inboundByTag m' = inboundByTag m /\ ((forall i, io_close io i = None) -> listening m -> listening m')
  | Panic _ => False
  end.
Proof.
  intros Hok H. unfold InboundManager_Create in H. destruct (io_create io) as [e|]; [by injection H as <- <-|].
  set (i := mkInbound (nextInbound m) type_ tag options) in *.
  set (m1 := mkInboundManager (im_started m) (im_stage m) (inbounds m) (inboundByTag m) (running m) (S (nextInbound m))) in *.
  assert (Hok1 : im_ok m1) by (destruct Hok as [Hn Ht Hf]; split; cbn; [done|done|]; intros x Hx%Hf; lia).
  assert (Hni : ib_id i ∉ map ib_id (inbounds m)).
  { intros (x & Ex & Hx)%list_elem_of_fmap. apply (im_fresh _ Hok) in Hx. cbn in Ex. lia. }
  assert (Hreg : forall run r m', register tag i (set_running run m1) = (r, m') ->
    run = ({[ib_id i]} ∪ (running m ∖ match inboundByTag m !! tag with Some e => {[ib_id e]} | None => ∅ end)) \/ im_started m = false ->
    im_ok m' /\ im_started m' = im_started m /\ r = Ok tt /\
    (exists i, inboundByTag m' = <[tag := i]> (inboundByTag m) /\ ib_Type i = type_ /\ ib_Options i = options) /\ (listening m -> listening m')).
  { intros run r0 m0 Hr Hrun. apply register_spec in Hr as (-> & Hok0 & Hb & Hs & Hrn & Hid); [|by destruct Hok1|done|cbn; lia|done].
    split; [done|]. split; [done|]. split; [done|]. split; [by exists i|]. intros Hlis Hs0. fold (idset (inbounds m0)). rewrite Hrn, Hid. cbn.
    destruct Hrun as [->|Hf]; [|rewrite Hs in Hs0; cbn in Hs0; congruence]. rewrite (Hlis ltac:(by rewrite <- Hs0, Hs)). done. }
  cbn [im_started m1] in H. destruct (im_started m) eqn:Es.
  - destruct (start_inbound io i ListStartStages) as [e|] eqn:Est.
    { injection H as <- <-. split; [done|]. split; [done|]. split; [done|]. intros _ Hl _. cbn. by apply Hl. }
    cbn [inboundByTag m1] in H. destruct (inboundByTag m !! tag) as [e|] eqn:Ee.
    + destruct (io_close io e) as [err|] eqn:Ec.
      * injection H as <- <-. split; [by destruct Hok1|]. split; [done|]. split; [done|]. intros Hc. by rewrite Hc in Ec.
      * apply Hreg in H as (? & ? & -> & ?); [done|]. left. cbn. set_solver.
    + apply Hreg in H as (? & ? & -> & ?); [done|]. left. cbn. set_solver.
  - apply (Hreg (running m1)) in H as (? & ? & -> & ?); [done|]. by right.
Qed.
End Inbounds.
Arguments Inbound : clear implicits.
Arguments InboundManager : clear implicits.
Arguments InboundIO : clear implicits.
