(* ===== verification/PanelRules.v ===== *)
(** * Block rules of a panel node (service/v2board/tracker.go)

    A V2Board panel sends, with the configuration of a node, routes that block
    connections: by domain, address, port or protocol.  [buildNodeRules]
    compiles them into [nodeRules], which [blocks] evaluates for a connection.

    [route_blocks] is the specification: what one item of one route means,
    read off its text. *)
From Stdlib Require Import ZArith Lia Bool Ascii Btauto.
From S2P Require Import Prelude GoIO DnsMsg Metadata RuleItem DemoEnv RuleTheorems DnsRuleBuild.

(** ** Strings *)

(** [strings.CutPrefix] *)
Fixpoint CutPrefix (s prefix : string) : option string :=
  match prefix, s with
  | EmptyString, _ => Some s
  | String p prefix', String c s' => if Ascii.eqb p c then CutPrefix s' prefix' else None
  | String _ _, EmptyString => None
  end.

(** [strings.Trim(s, ".")] *)
Fixpoint trim_left_dots (s : string) : string :=
  match s with String c s' => if Ascii.eqb c "."%char then trim_left_dots s' else s | EmptyString => EmptyString end.
Fixpoint trim_right_dots (s : string) : string :=
  match s with
  | EmptyString => EmptyString
  | String c s' =>
      match trim_right_dots s' with
      | EmptyString => if Ascii.eqb c "."%char then EmptyString else String c EmptyString
      | t => String c t
      end
  end.
Definition Trim_dots (s : string) : string := trim_right_dots (trim_left_dots s).

(** [strings.IndexAny(s, "-:")] as the parts around the first such character. *)
Fixpoint cut_range (s : string) : option (string * string) :=
  match s with
  | EmptyString => None
  | String c s' =>
      if Ascii.eqb c "-"%char || Ascii.eqb c ":"%char then Some (EmptyString, s')
      else option_map (fun '(l, r) => (String c l, r)) (cut_range s')
  end.

(** [%q], for printable text. *)
Definition quote_char : Ascii.ascii := Ascii.ascii_of_nat 34.
Fixpoint quote_body (s : string) : string :=
  match s with
  | EmptyString => EmptyString
  | String c s' =>
      if Ascii.eqb c quote_char || Ascii.eqb c "\"%char then String "\"%char (String c (quote_body s'))
      else String c (quote_body s')
  end.
Definition Quote (s : string) : string := String quote_char (quote_body s +:+ String quote_char EmptyString).

(** [netip.Addr.IsPrivate] *)
Definition Addr_IsPrivate (a : Addr) : bool :=
  match Addr_Unmap a with
  | Addr4 v => (Z.shiftr v 24 =? 10) || (Z.shiftr v 20 =? 2753) || (Z.shiftr v 16 =? 49320)
  | Addr6 v _ => Z.shiftr v 121 =? 126
  | AddrInvalid => false
  end.

(** ** Rules *)

Record ServerRoute := mkServerRoute { route_ID : Z; route_Match : list string; route_Action : string }.

Record portRange := mkPortRange { port_start : Z; port_end : Z }.

Section WithEnv.
Context `{GE : GoEnv}.

(** sing's [Socksaddr.Unwrap] and [Socksaddr.AddrString]. *)
Context (Unwrap : Socksaddr -> Socksaddr) (AddrString : Socksaddr -> string).

Record nodeRules := mkNodeRules {
  domainRegex : list Regexp;
  domainSuffix : list string;
  domainFull : list string;
  domainKeyword : list string;
  ipPrefixes : list Prefix;
  ipPrivate : bool;
  ports : list portRange;
  protocol : list string;
}.

Definition noRules : nodeRules := mkNodeRules [] [] [] [] [] false [] [].

Definition add_regex (x : Regexp) (r : nodeRules) : nodeRules :=
  mkNodeRules (domainRegex r ++ [x]) (domainSuffix r) (domainFull r) (domainKeyword r) (ipPrefixes r) (ipPrivate r) (ports r) (protocol r).
Definition add_suffix (x : string) (r : nodeRules) : nodeRules :=
  mkNodeRules (domainRegex r) (domainSuffix r ++ [x]) (domainFull r) (domainKeyword r) (ipPrefixes r) (ipPrivate r) (ports r) (protocol r).
Definition add_full (x : string) (r : nodeRules) : nodeRules :=
  mkNodeRules (domainRegex r) (domainSuffix r) (domainFull r ++ [x]) (domainKeyword r) (ipPrefixes r) (ipPrivate r) (ports r) (protocol r).
Definition add_keyword (x : string) (r : nodeRules) : nodeRules :=
  mkNodeRules (domainRegex r) (domainSuffix r) (domainFull r) (domainKeyword r ++ [x]) (ipPrefixes r) (ipPrivate r) (ports r) (protocol r).
Definition add_prefix (x : Prefix) (r : nodeRules) : nodeRules :=
  mkNodeRules (domainRegex r) (domainSuffix r) (domainFull r) (domainKeyword r) (ipPrefixes r ++ [x]) (ipPrivate r) (ports r) (protocol r).
Definition set_private (r : nodeRules) : nodeRules :=
  mkNodeRules (domainRegex r) (domainSuffix r) (domainFull r) (domainKeyword r) (ipPrefixes r) true (ports r) (protocol r).
Definition add_port (x : portRange) (r : nodeRules) : nodeRules :=
  mkNodeRules (domainRegex r) (domainSuffix r) (domainFull r) (domainKeyword r) (ipPrefixes r) (ipPrivate r) (ports r ++ [x]) (protocol r).
Definition add_protocol (x : string) (r : nodeRules) : nodeRules :=
  mkNodeRules (domainRegex r) (domainSuffix r) (domainFull r) (domainKeyword r) (ipPrefixes r) (ipPrivate r) (ports r) (protocol r ++ [x]).

Definition normalizeDomainRuleValue (value : string) : string := Trim_dots (strings_ToLower (strings_TrimSpace value)).

(** [if x != "" { r.field = append(r.field, x) }] *)
Definition add_nonempty (add : string -> nodeRules -> nodeRules) (x : string) (r : nodeRules) : nodeRules :=
  if String.eqb x "" then r else add x r.

Definition addProtocolRule (item : string) (r : nodeRules) : nodeRules := add_nonempty add_protocol (strings_TrimSpace item) r.

Definition routeMsg (routeID : Z) (what item : string) : string :=
  "v2board route " +:+ pretty routeID +:+ ": " +:+ what +:+ " " +:+ Quote item.

Definition addDomainBlockRule (routeID : Z) (item : string) (r : nodeRules) : result nodeRules :=
  let item := strings_TrimSpace item in
  if String.eqb item "" then Ok r
  else match CutPrefix item "protocol:" with Some protocol => Ok (addProtocolRule protocol r) | None =>
  match CutPrefix item "regexp:" with
  | Some pattern =>
      let pattern := strings_TrimSpace pattern in
      if String.eqb pattern "" then Ok r
      else let* matcher := with_cause (routeMsg routeID "compile regexp" pattern) (regexp_Compile pattern) in Ok (add_regex matcher r)
  | None =>
  match CutPrefix item "domain:" with Some domain => Ok (add_nonempty add_suffix (normalizeDomainRuleValue domain) r) | None =>
  match CutPrefix item "full:" with Some domain => Ok (add_nonempty add_full (normalizeDomainRuleValue domain) r) | None =>
  match CutPrefix item "keyword:" with Some keyword => Ok (add_nonempty add_keyword (normalizeDomainRuleValue keyword) r) | None =>
  match CutPrefix item "geosite:" with Some _ => Ok r | None =>
  Ok (add_nonempty add_keyword (normalizeDomainRuleValue item) r)
  end end end end end end.

Definition addIPBlockRule (routeID : Z) (item : string) (r : nodeRules) : result nodeRules :=
  let item := strings_TrimSpace item in
  if String.eqb item "" then Ok r
  else match CutPrefix (strings_ToLower item) "geoip:" with
  | Some code => Ok (if String.eqb code "private" then set_private r else r)
  | None =>
      match ParsePrefix item with
      | Ok prefix => Ok (add_prefix prefix r)
      | _ =>
          let* addr := with_cause (routeMsg routeID "parse ip/cidr" item) (ParseAddr item) in
          Ok (add_prefix (PrefixFrom addr (Addr_BitLen addr)) r)
      end
  end.

Definition parseRulePort (value : string) : result Z :=
  if String.eqb value "" then Err (ENew "empty port")
  else
    let* port := ParseUint value 16 in
    if port =? 0 then Err (ENew "port must be greater than zero") else Ok (uint16 port).

(** The two ends of a range; a single port is both. *)
Definition port_texts (item : string) : string * string :=
  match cut_range item with
  | Some (before, after) => (strings_TrimSpace before, strings_TrimSpace after)
  | None => (item, item)
  end.

Definition addPortBlockRule (routeID : Z) (item : string) (r : nodeRules) : result nodeRules :=
  let item := strings_TrimSpace item in
  if String.eqb item "" then Ok r
  else
    let '(startText, endText) := port_texts item in
    let* start := with_cause (routeMsg routeID "parse port" item) (parseRulePort startText) in
    let* end_ := with_cause (routeMsg routeID "parse port" item) (parseRulePort endText) in
    if end_ <? start then Err (ENew (routeMsg routeID "invalid port range" item))
    else Ok (add_port (mkPortRange start end_) r).

(** [for _, item := range items { if err := add(item); err != nil { return err } }] *)
Fixpoint add_all (add : string -> nodeRules -> result nodeRules) (items : list string) (r : nodeRules) : result nodeRules :=
  match items with
  | [] => Ok r
  | item :: rest => let* r := add item r in add_all add rest r
  end.

Definition addRoute (route : ServerRoute) (r : nodeRules) : result nodeRules :=
  let action := strings_ToLower (strings_TrimSpace (route_Action route)) in
  if String.eqb action "block" then add_all (addDomainBlockRule (route_ID route)) (route_Match route) r
  else if String.eqb action "block_ip" then add_all (addIPBlockRule (route_ID route)) (route_Match route) r
  else if String.eqb action "block_port" then add_all (addPortBlockRule (route_ID route)) (route_Match route) r
  else if String.eqb action "protocol" then add_all (fun item r => Ok (addProtocolRule item r)) (route_Match route) r
  else Ok r.

Fixpoint addRoutes (routes : list ServerRoute) (r : nodeRules) : result nodeRules :=
  match routes with
  | [] => Ok r
  | route :: rest => let* r := addRoute route r in addRoutes rest r
  end.

Definition buildNodeRules (routes : list ServerRoute) : result nodeRules := addRoutes routes noRules.

Definition suffix_matches (domain suffix : string) : bool :=
  String.eqb domain suffix || strings_HasSuffix domain ("." +:+ suffix).

Definition port_matches (port : Z) (range : portRange) : bool := (port_start range <=? port) && (port <=? port_end range).

Definition blocks (r : nodeRules) (destination : Socksaddr) (proto : string) : bool :=
  let destination := Unwrap destination in
  let domain := normalizeDomainRuleValue (AddrString destination) in
  if existsb (fun matcher => MatchString matcher domain) (domainRegex r) then true
  else if bool_decide (domain ∈ domainFull r) then true
  else if existsb (suffix_matches domain) (domainSuffix r) then true
  else if existsb (strings_Contains domain) (domainKeyword r) then true
  else if Socksaddr_IsIP destination
          && (existsb (fun prefix => Prefix_Contains prefix (Socksaddr_Addr destination)) (ipPrefixes r)
              || (ipPrivate r && Addr_IsPrivate (Socksaddr_Addr destination))) then true
  else if existsb (port_matches (Socksaddr_Port destination)) (ports r) then true
  else if String.eqb proto "" then false
  else bool_decide (strings_TrimSpace proto ∈ protocol r).
End WithEnv.

(** ** Specification *)

Section Spec.
Context `{GE : GoEnv}.
Context (Unwrap : Socksaddr -> Socksaddr) (AddrString : Socksaddr -> string).

(** The value that follows a prefix, when there is one. *)
Definition nonblank (value : string) (p : string -> bool) : bool := negb (String.eqb value "") && p value.

Definition protocol_item_blocks (proto item : string) : bool :=
  nonblank (strings_TrimSpace item) (fun item => negb (String.eqb proto "") && String.eqb (strings_TrimSpace proto) item).

Definition domain_item_blocks (domain proto item : string) : bool :=
  let item := strings_TrimSpace item in
  let normalized (value : string) (p : string -> bool) := nonblank (normalizeDomainRuleValue value) p in
  negb (String.eqb item "") &&
  match CutPrefix item "protocol:", CutPrefix item "regexp:", CutPrefix item "domain:", CutPrefix item "full:",
        CutPrefix item "keyword:", CutPrefix item "geosite:" with
  | Some value, _, _, _, _, _ => protocol_item_blocks proto value
  | _, Some value, _, _, _, _ =>
      nonblank (strings_TrimSpace value)
        (fun pattern => match regexp_Compile pattern with Ok matcher => MatchString matcher domain | _ => false end)
  | _, _, Some value, _, _, _ => normalized value (suffix_matches domain)
  | _, _, _, Some value, _, _ => normalized value (String.eqb domain)
  | _, _, _, _, Some value, _ => normalized value (strings_Contains domain)
  | _, _, _, _, _, Some _ => false
  | _, _, _, _, _, _ => normalized item (strings_Contains domain)
  end.

Definition ip_item_blocks (destination : Socksaddr) (item : string) : bool :=
  let item := strings_TrimSpace item in
  let address := Socksaddr_Addr destination in
  negb (String.eqb item "") && Socksaddr_IsIP destination &&
  match CutPrefix (strings_ToLower item) "geoip:" with
  | Some code => String.eqb code "private" && Addr_IsPrivate address
  | None =>
      match ParsePrefix item, ParseAddr item with
      | Ok prefix, _ => Prefix_Contains prefix address
      | _, Ok addr => Prefix_Contains (PrefixFrom addr (Addr_BitLen addr)) address
      | _, _ => false
      end
  end.

Definition port_item_blocks (port : Z) (item : string) : bool :=
  let item := strings_TrimSpace item in
  let '(startText, endText) := port_texts item in
  negb (String.eqb item "") &&
  match parseRulePort startText, parseRulePort endText with
  | Ok start, Ok end_ => (start <=? port) && (port <=? end_)
  | _, _ => false
  end.

(** Does one route block the connection? *)
Definition route_blocks (destination : Socksaddr) (proto : string) (route : ServerRoute) : bool :=
  let destination := Unwrap destination in
  let domain := normalizeDomainRuleValue (AddrString destination) in
  let action := strings_ToLower (strings_TrimSpace (route_Action route)) in
  if String.eqb action "block" then existsb (domain_item_blocks domain proto) (route_Match route)
  else if String.eqb action "block_ip" then existsb (ip_item_blocks destination) (route_Match route)
  else if String.eqb action "block_port" then existsb (port_item_blocks (Socksaddr_Port destination)) (route_Match route)
  else if String.eqb action "protocol" then existsb (protocol_item_blocks proto) (route_Match route)
  else false.

(** *** The rules that are built *)

Context (destination : Socksaddr) (proto : string).
Abbreviation target := (Unwrap destination).
Abbreviation domain := (normalizeDomainRuleValue (AddrString target)).
Definition blocked (r : nodeRules) : bool := blocks Unwrap AddrString r destination proto.

Lemma blocks_or r :
  blocked r =
    existsb (fun matcher => MatchString matcher domain) (domainRegex r) || bool_decide (domain ∈ domainFull r)
    || existsb (suffix_matches domain) (domainSuffix r) || existsb (strings_Contains domain) (domainKeyword r)
    || (Socksaddr_IsIP target
        && (existsb (fun prefix => Prefix_Contains prefix (Socksaddr_Addr target)) (ipPrefixes r)
            || (ipPrivate r && Addr_IsPrivate (Socksaddr_Addr target))))
    || existsb (port_matches (Socksaddr_Port target)) (ports r)
    || (negb (String.eqb proto "") && bool_decide (strings_TrimSpace proto ∈ protocol r)).
Proof.
  unfold blocked, blocks. cbn zeta. destruct (existsb _ (domainRegex r)); [done|]. destruct (bool_decide (domain ∈ _)); [done|].
  destruct (existsb _ (domainSuffix r)); [done|]. destruct (existsb _ (domainKeyword r)); [done|].
  destruct (Socksaddr_IsIP _ && _); [done|]. destruct (existsb _ (ports r)); [done|]. by destruct (String.eqb proto "").
Qed.

Lemma elem_snoc_bool (x y : string) l : bool_decide (x ∈ l ++ [y]) = bool_decide (x ∈ l) || String.eqb x y.
Proof.
  apply Bool.eq_iff_eq_true. rewrite orb_true_iff, !bool_decide_eq_true, String.eqb_eq, elem_of_app, list_elem_of_singleton. done.
Qed.

Ltac blocks_snoc :=
  rewrite !blocks_or; unfold add_regex, add_suffix, add_full, add_keyword, add_prefix, set_private, add_port, add_protocol;
  cbn [domainRegex domainSuffix domainFull domainKeyword ipPrefixes ipPrivate ports protocol];
  rewrite ?existsb_app, ?elem_snoc_bool; cbn [existsb]; rewrite ?orb_false_r; btauto.

Lemma blocks_add_regex x r : blocked (add_regex x r) = blocked r || MatchString x domain.
Proof. blocks_snoc. Qed.
Lemma blocks_add_suffix x r : blocked (add_suffix x r) = blocked r || suffix_matches domain x.
Proof. blocks_snoc. Qed.
Lemma blocks_add_full x r : blocked (add_full x r) = blocked r || String.eqb domain x.
Proof. blocks_snoc. Qed.
Lemma blocks_add_keyword x r : blocked (add_keyword x r) = blocked r || strings_Contains domain x.
Proof. blocks_snoc. Qed.
Lemma blocks_add_prefix x r : blocked (add_prefix x r) = blocked r || (Socksaddr_IsIP target && Prefix_Contains x (Socksaddr_Addr target)).
Proof. blocks_snoc. Qed.
Lemma blocks_set_private r : blocked (set_private r) = blocked r || (Socksaddr_IsIP target && Addr_IsPrivate (Socksaddr_Addr target)).
Proof. blocks_snoc. Qed.
Lemma blocks_add_port x r : blocked (add_port x r) = blocked r || port_matches (Socksaddr_Port target) x.
Proof. blocks_snoc. Qed.
Lemma blocks_add_protocol x r :
  blocked (add_protocol x r) = blocked r || (negb (String.eqb proto "") && String.eqb (strings_TrimSpace proto) x).
Proof. blocks_snoc. Qed.

Lemma blocks_nonempty add p x r :
  (forall x, blocked (add x r) = blocked r || p x) -> blocked (add_nonempty add x r) = blocked r || nonblank x p.
Proof. intros H. unfold add_nonempty, nonblank. destruct (String.eqb x ""); cbn; [by rewrite orb_false_r|apply H]. Qed.

Lemma addProtocolRule_blocks item r : blocked (addProtocolRule item r) = blocked r || protocol_item_blocks proto item.
Proof. apply blocks_nonempty. intros x. apply blocks_add_protocol. Qed.

Lemma addDomainBlockRule_blocks id item r r' :
  addDomainBlockRule id item r = Ok r' -> blocked r' = blocked r || domain_item_blocks domain proto item.
Proof.
  unfold addDomainBlockRule, domain_item_blocks. cbn zeta. destruct (String.eqb (strings_TrimSpace item) ""); cbn [negb andb].
  { intros [= <-]. by rewrite orb_false_r. }
  destruct (CutPrefix _ "protocol:"); [intros [= <-]; apply addProtocolRule_blocks|].
  destruct (CutPrefix _ "regexp:") as [pattern|].
  { unfold nonblank. destruct (String.eqb (strings_TrimSpace pattern) ""); [intros [= <-]; by rewrite orb_false_r|].
    destruct (regexp_Compile _); cbn; [|done..]. intros [= <-]. apply blocks_add_regex. }
  destruct (CutPrefix _ "domain:"); [intros [= <-]; apply blocks_nonempty; intros; apply blocks_add_suffix|].
  destruct (CutPrefix _ "full:"); [intros [= <-]; apply blocks_nonempty; intros; apply blocks_add_full|].
  destruct (CutPrefix _ "keyword:"); [intros [= <-]; apply blocks_nonempty; intros; apply blocks_add_keyword|].
  destruct (CutPrefix _ "geosite:"); intros [= <-]; [by rewrite orb_false_r|].
  apply blocks_nonempty. intros; apply blocks_add_keyword.
Qed.

Lemma addIPBlockRule_blocks id item r r' : addIPBlockRule id item r = Ok r' -> blocked r' = blocked r || ip_item_blocks target item.
Proof.
  unfold addIPBlockRule, ip_item_blocks. cbn zeta. destruct (String.eqb (strings_TrimSpace item) ""); cbn [negb andb].
  { intros [= <-]. by rewrite orb_false_r. }
  destruct (CutPrefix _ "geoip:") as [code|].
  { intros [= <-]. destruct (String.eqb code "private"); cbn [andb]; [apply blocks_set_private|by rewrite andb_false_r, orb_false_r]. }
  destruct (ParsePrefix _); [intros [= <-]; apply blocks_add_prefix|..];
    (destruct (ParseAddr _); cbn; [|done..]; intros [= <-]; apply blocks_add_prefix).
Qed.

Lemma addPortBlockRule_blocks id item r r' :
  addPortBlockRule id item r = Ok r' -> blocked r' = blocked r || port_item_blocks (Socksaddr_Port target) item.
Proof.
  unfold addPortBlockRule, port_item_blocks. cbn zeta. destruct (port_texts _) as [startText endText].
  destruct (String.eqb (strings_TrimSpace item) ""); cbn [negb andb]; [intros [= <-]; by rewrite orb_false_r|].
  destruct (parseRulePort startText); cbn [with_cause bind_result]; [|done..].
  destruct (parseRulePort endText); cbn [with_cause bind_result]; [|done..].
  destruct (_ <? _); [done|]. intros [= <-]. apply blocks_add_port.
Qed.

Lemma add_all_blocks add item_blocks items : forall r r',
  (forall item r r', add item r = Ok r' -> blocked r' = blocked r || item_blocks item) ->
  add_all add items r = Ok r' -> blocked r' = blocked r || existsb item_blocks items.
Proof.
  induction items as [|item items IH]; intros r r' Ha H; cbn [add_all] in H; [injection H as <-; by rewrite orb_false_r|].
  destruct (add item r) as [r1| |] eqn:E; cbn [bind_result] in H; [|done..]. rewrite (IH _ _ Ha H), (Ha _ _ _ E). cbn.
  by rewrite orb_assoc.
Qed.

Lemma addRoute_blocks route r r' : addRoute route r = Ok r' -> blocked r' = blocked r || route_blocks destination proto route.
Proof.
  unfold addRoute, route_blocks. cbn zeta.
  destruct (String.eqb _ "block"); [apply add_all_blocks; intros; by eapply addDomainBlockRule_blocks|].
  destruct (String.eqb _ "block_ip"); [apply add_all_blocks; intros; by eapply addIPBlockRule_blocks|].
  destruct (String.eqb _ "block_port"); [apply add_all_blocks; intros; by eapply addPortBlockRule_blocks|].
  destruct (String.eqb _ "protocol"); [apply add_all_blocks; intros ? ? ? [= <-]; apply addProtocolRule_blocks|].
  intros [= <-]. by rewrite orb_false_r.
Qed.

Lemma addRoutes_blocks routes : forall r r',
  addRoutes routes r = Ok r' -> blocked r' = blocked r || existsb (route_blocks destination proto) routes.
Proof.
  induction routes as [|route routes IH]; intros r r' H; cbn [addRoutes] in H; [injection H as <-; by rewrite orb_false_r|].
  destruct (addRoute route r) as [r1| |] eqn:E; cbn [bind_result] in H; [|done..].
  rewrite (IH _ _ H), (addRoute_blocks _ _ _ E). cbn. by rewrite orb_assoc.
Qed.
End Spec.

(** C15: the rules compiled from the routes of the panel block a connection exactly
    when an item of one of the routes does, each read on its own: the order of
    the routes, and how the items are grouped by kind, play no part. *)
Theorem panel_routes_semantics `{GE : GoEnv} Unwrap AddrString routes rules destination proto :
  buildNodeRules routes = Ok rules ->
  blocks Unwrap AddrString rules destination proto = existsb (route_blocks Unwrap AddrString destination proto) routes.
Proof.
  intros H. etransitivity; [exact (addRoutes_blocks Unwrap AddrString destination proto routes noRules rules H)|].
  unfold blocked, blocks, noRules. cbn.
  destruct (Socksaddr_IsIP _); cbn; by destruct (String.eqb proto "").
Qed.

Module PanelRulesDemo.
#[local] Existing Instance demoEnv.

Definition routes : list ServerRoute :=
  [mkServerRoute 1 ["domain:example.org"; "protocol:bittorrent"] "block"; mkServerRoute 2 ["25"; "6881-6889"] "block_port"].
Definition host (a : Socksaddr) : string := Socksaddr_Fqdn a.
Definition target (name : string) (port : Z) : Socksaddr := mkSocksaddr AddrInvalid port name.
Definition rules : nodeRules := match buildNodeRules routes with Ok rules => rules | _ => noRules end.

Lemma panel_routes_semantics_witness :
  blocks id host rules (target "www.example.org" 443) "tls" = existsb (route_blocks id host (target "www.example.org" 443) "tls") routes /\
  blocks id host rules (target "www.example.org" 443) "tls" = true /\
  blocks id host rules (target "example.com" 6885) "" = true /\ blocks id host rules (target "example.com" 443) "tls" = false.
Proof.
  split; [apply (panel_routes_semantics id host routes rules); vm_compute; reflexivity|].
  split; [vm_compute; reflexivity|]. split; vm_compute; reflexivity.
Defined.
End PanelRulesDemo.
