(* ===== verification/PanelUsers.v ===== *)
(** * Users of a panel node (service/v2board: types.go, models.go, controller.go, tracker.go)

    The users the panel sends for a node: which of them are active, under
    which key their traffic is tracked, and the digest by which the
    controller notices that the list changed.

    [time.Parse] and SHA-256 are parameters. *)
From Stdlib Require Import ZArith Lia Bool.
From stdpp Require Import sorting lexico.
From S2P Require Import Prelude GoIO DnsMsg Metadata RuleItem DemoEnv RuleTheorems SavedBinary.

(** ** [PanelUserInfo] *)

Record UserInfo := mkUserInfo {
  u_ID : Z;
  u_UUID : string;
  u_Username : string;
  u_Password : string;
  u_SpeedLimit : Z;
  u_DeviceLimit : Z;
  u_Label : string;
  u_Secret : string;
  u_LinkSecret : string;
  u_Port : Z;
  u_Cipher : string;
  u_Enabled : bool;
  u_EnabledSet : bool;
  u_MaxConnections : Z;
  u_MaxIPs : Z;
  u_QuotaBytes : Z;
  u_ExpiresAt : Z;
  u_ExpiresOn : string;
}.

Definition TypeShadowsocks : string := "shadowsocks".
Definition TypeVMess : string := "vmess".
Definition TypeTrojan : string := "trojan".
Definition TypeNaive : string := "naive".
Definition TypeMieru : string := "mieru".

Section WithEnv.
Context `{GE : GoEnv}.

Definition normalizeNodeType (nodeType : string) : string :=
  let t := strings_ToLower (strings_TrimSpace nodeType) in
  if String.eqb t "v2ray" then "vmess"
  else if String.eqb t "ss" then TypeShadowsocks
  else if String.eqb t "naiveproxy" || String.eqb t "naive_proxy" || String.eqb t "naive-proxy" then TypeNaive
  else if String.eqb t "deepbwork" then TypeVMess
  else if String.eqb t "trojan_tidalab" then TypeTrojan
  else if String.eqb t "shadowsocks_tidalab" then TypeShadowsocks
  else t.

Definition userTrackerKey (nodeType : string) (user : UserInfo) : string :=
  let t := normalizeNodeType nodeType in
  if (String.eqb t TypeMieru || String.eqb t TypeNaive) && negb (String.eqb (u_Username user) "") then u_Username user
  else if negb (String.eqb (u_UUID user) "") then u_UUID user
  else if negb (String.eqb (u_Label user) "") then u_Label user
  else if 0 <? u_ID user then "user-" +:+ pretty (u_ID user)
  else "".

(** ** Active users *)

(** [time.Parse(layout, value)] *)
Context (time_Parse : string -> string -> option Time).

Definition Time_Before (a b : Time) : bool :=
  (time_Unix a <? time_Unix b) || ((time_Unix a =? time_Unix b) && (time_Nanosecond a <? time_Nanosecond b)).

(** [t.AddDate(0, 0, 1)] of a time in UTC. *)
Definition Time_AddDay (t : Time) : Time := mkTime (time_Unix t + 86400) (time_Nanosecond t).

Definition RFC3339 : string := "2006-01-02T15:04:05Z07:00".

Fixpoint first_parsed (layouts : list string) (value : string) : option Time :=
  match layouts with
  | [] => None
  | layout :: rest => match time_Parse layout value with Some t => Some t | None => first_parsed rest value end
  end.

Definition expiresOnExpired (value : string) (now : Time) : bool :=
  let value := strings_TrimSpace value in
  if String.eqb value "" then false
  else match first_parsed [RFC3339; "2006-01-02 15:04:05"; "2006-01-02T15:04:05"] value with
  | Some expiresAt => negb (Time_Before now expiresAt)
  | None =>
      match time_Parse "2006-01-02" value with
      | None => false
      | Some expiresOn => negb (Time_Before now (Time_AddDay expiresOn))
      end
  end.

Definition panelUserActive (user : UserInfo) (now : Time) : bool :=
  if u_EnabledSet user && negb (u_Enabled user) then false
  else if (0 <? u_ExpiresAt user) && (u_ExpiresAt user <=? time_Unix now) then false
  else if expiresOnExpired (u_ExpiresOn user) now then false
  else true.

Definition activePanelUsers (users : list UserInfo) (now : Time) : list UserInfo :=
  List.filter (fun user => panelUserActive user now) users.
End WithEnv.

(** ** The digest *)

(** [a < b] on strings. *)
Fixpoint bytes_less (a b : list byte) : bool :=
  match a, b with
  | _, [] => false
  | [], _ :: _ => true
  | x :: a', y :: b' => (Z_of_byte x <? Z_of_byte y) || ((Z_of_byte x =? Z_of_byte y) && bytes_less a' b')
  end.
Definition string_less (a b : string) : bool := bytes_less (bytes_of_string a) (bytes_of_string b).

(** The function given to [sort.Slice]. *)
Definition user_less (left right : UserInfo) : bool :=
  if negb (u_ID left =? u_ID right) then u_ID left <? u_ID right
  else if negb (String.eqb (u_UUID left) (u_UUID right)) then string_less (u_UUID left) (u_UUID right)
  else if negb (String.eqb (u_Username left) (u_Username right)) then string_less (u_Username left) (u_Username right)
  else if negb (String.eqb (u_Password left) (u_Password right)) then string_less (u_Password left) (u_Password right)
  else if negb (String.eqb (u_Label left) (u_Label right)) then string_less (u_Label left) (u_Label right)
  else if negb (String.eqb (u_Secret left) (u_Secret right)) then string_less (u_Secret left) (u_Secret right)
  else if negb (String.eqb (u_LinkSecret left) (u_LinkSecret right)) then string_less (u_LinkSecret left) (u_LinkSecret right)
  else if negb (u_SpeedLimit left =? u_SpeedLimit right) then u_SpeedLimit left <? u_SpeedLimit right
  else if negb (u_DeviceLimit left =? u_DeviceLimit right) then u_DeviceLimit left <? u_DeviceLimit right
  else if negb (u_Port left =? u_Port right) then u_Port left <? u_Port right
  else if negb (String.eqb (u_Cipher left) (u_Cipher right)) then string_less (u_Cipher left) (u_Cipher right)
  else if negb (Bool.eqb (u_Enabled left) (u_Enabled right)) then negb (u_Enabled left) && u_Enabled right
  else if negb (u_MaxConnections left =? u_MaxConnections right) then u_MaxConnections left <? u_MaxConnections right
  else if negb (u_MaxIPs left =? u_MaxIPs right) then u_MaxIPs left <? u_MaxIPs right
  else if negb (u_QuotaBytes left =? u_QuotaBytes right) then u_QuotaBytes left <? u_QuotaBytes right
  else if negb (u_ExpiresAt left =? u_ExpiresAt right) then u_ExpiresAt left <? u_ExpiresAt right
  else string_less (u_ExpiresOn left) (u_ExpiresOn right).

(** [binary.LittleEndian.PutUint64]; the conversion to uint64 keeps the bits. *)
Definition le64 (v : Z) : list byte := rev (be_encode 8 (uint64 v)).

Definition writeInt64 (value : Z) : list byte := le64 value.
Definition writeString (value : string) : list byte := le64 (zlen (bytes_of_string value)) ++ bytes_of_string value.
Definition writeBool (value : bool) : list byte := [if value then x01 else x00].

Definition writeUser (user : UserInfo) : list byte :=
  writeInt64 (u_ID user) ++ writeString (u_UUID user) ++ writeString (u_Username user) ++ writeString (u_Password user)
  ++ writeInt64 (u_SpeedLimit user) ++ writeInt64 (u_DeviceLimit user) ++ writeString (u_Label user)
  ++ writeString (u_Secret user) ++ writeString (u_LinkSecret user) ++ writeInt64 (u_Port user) ++ writeString (u_Cipher user)
  ++ writeBool (u_Enabled user) ++ writeInt64 (u_MaxConnections user) ++ writeInt64 (u_MaxIPs user)
  ++ writeInt64 (u_QuotaBytes user) ++ writeInt64 (u_ExpiresAt user) ++ writeString (u_ExpiresOn user).

(** Not after: the order [sort.Slice] establishes between neighbours. *)
Definition user_le (left right : UserInfo) : Prop := user_less right left = false.
#[export] Instance user_le_dec : RelDecision user_le.
Proof. intros l r. unfold user_le. apply _. Defined.

(** What is hashed.  [sort.Slice] may order users that compare equal in any
    way; they are written alike. *)
Definition digestInput (users : list UserInfo) : list byte := concat (map writeUser (merge_sort user_le users)).

Definition digestUsers (sha256 : list byte -> list byte) (users : list UserInfo) : list byte := sha256 (digestInput users).

(** ** The order of the users *)

(** The fields compared, in the order of the comparison. *)
Definition string_key (s : string) : list Z := map Z_of_byte (bytes_of_string s).
Definition order_key (u : UserInfo) : list (list Z) := [
  [u_ID u]; string_key (u_UUID u); string_key (u_Username u); string_key (u_Password u); string_key (u_Label u);
  string_key (u_Secret u); string_key (u_LinkSecret u); [u_SpeedLimit u]; [u_DeviceLimit u]; [u_Port u]; string_key (u_Cipher u);
  [if u_Enabled u then 1 else 0]; [u_MaxConnections u]; [u_MaxIPs u]; [u_QuotaBytes u]; [u_ExpiresAt u]; string_key (u_ExpiresOn u) ].

(** The lexicographic order as a boolean. *)
Section Lex.
Context {A : Type} `{EqDecision A} (less : A -> A -> bool).

Fixpoint lex_less (a b : list A) : bool :=
  match a, b with
  | _, [] => false
  | [], _ :: _ => true
  | x :: a', y :: b' => if bool_decide (x = y) then lex_less a' b' else less x y
  end.

Context `{Lexico A, !StrictOrder (@lexico A _)}.
Hypothesis less_lexico : forall x y, less x y = true <-> lexico x y.

Lemma lex_less_lexico a : forall b, lex_less a b = true <-> lexico a b.
Proof.
  induction a as [|x a IH]; intros [|y b]; try done. cbn [lex_less].
  change (lexico (x :: a) (y :: b)) with (lexico x y \/ x = y /\ lexico a b). case_bool_decide as Hxy.
  - subst y. rewrite IH. split; [by right|]. intros [Hl|[_ Hl]]; [|done]. by destruct (irreflexivity lexico x).
  - rewrite less_lexico. split; [by left|]. by intros [Hl|[He _]].
Qed.
End Lex.

Definition key_less : list (list Z) -> list (list Z) -> bool := lex_less (lex_less Z.ltb).

Lemma key_less_lexico a b : key_less a b = true <-> lexico a b.
Proof. apply lex_less_lexico; [apply _|]. intros x y. apply lex_less_lexico; [apply _|]. intros u v. apply Z.ltb_lt. Qed.

Lemma string_key_inj s t : string_key s = string_key t -> s = t.
Proof.
  intros H. rewrite <- (String.string_of_list_byte_of_string s), <- (String.string_of_list_byte_of_string t). f_equal.
  revert H. unfold string_key, bytes_of_string. generalize (String.list_byte_of_string t).
  induction (String.list_byte_of_string s) as [|x l IH]; intros [|y l']; try done. cbn. intros [= Hx Hl].
  apply Z_of_byte_inj in Hx as ->. by rewrite (IH l').
Qed.

Lemma string_less_key s t : string_less s t = lex_less Z.ltb (string_key s) (string_key t).
Proof.
  unfold string_less, string_key. generalize (bytes_of_string t). induction (bytes_of_string s) as [|x l IH]; intros [|y l']; try done.
  cbn [bytes_less map lex_less]. rewrite IH. case_bool_decide as E.
  - rewrite E, Z.ltb_irrefl, Z.eqb_refl. done.
  - apply Z.eqb_neq in E. rewrite E. by rewrite orb_false_r.
Qed.

(** One step of the comparison. *)
Lemma key_less_cons x a y b : key_less (x :: a) (y :: b) = if bool_decide (x = y) then key_less a b else lex_less Z.ltb x y.
Proof. done. Qed.

Lemma key_step_int (a b : Z) ks ls : key_less ([a] :: ks) ([b] :: ls) = if negb (a =? b) then a <? b else key_less ks ls.
Proof.
  rewrite key_less_cons. destruct (Z.eqb_spec a b) as [->|Hn]; [by rewrite bool_decide_true by done|].
  rewrite bool_decide_false by congruence. cbn. by rewrite bool_decide_false by done.
Qed.

Lemma key_step_string s t ks ls :
  key_less (string_key s :: ks) (string_key t :: ls) = if negb (String.eqb s t) then string_less s t else key_less ks ls.
Proof.
  rewrite key_less_cons, <- string_less_key. destruct (String.eqb_spec s t) as [->|Hn]; [by rewrite bool_decide_true by done|].
  rewrite bool_decide_false; [done|]. by intros H%string_key_inj.
Qed.

Lemma key_step_bool (a b : bool) ks ls :
  key_less ([if a then 1 else 0] :: ks) ([if b then 1 else 0] :: ls) = if negb (Bool.eqb a b) then negb a && b else key_less ks ls.
Proof. rewrite key_step_int. by destruct a, b. Qed.

Lemma key_last_string s t : key_less [string_key s] [string_key t] = string_less s t.
Proof.
  rewrite key_step_string. destruct (String.eqb_spec s t) as [->|]; [|done]. symmetry. rewrite string_less_key.
  apply not_true_iff_false. rewrite lex_less_lexico; [apply (irreflexivity lexico)|apply _|intros; apply Z.ltb_lt].
Qed.

Lemma user_less_key l r : user_less l r = key_less (order_key l) (order_key r).
Proof.
  unfold order_key. repeat first [rewrite key_last_string | rewrite key_step_bool | rewrite key_step_int | rewrite key_step_string].
  reflexivity.
Qed.

(** [user_le] on the keys. *)
Definition key_le (a b : list (list Z)) : Prop := key_less b a = false.

Lemma key_le_lexico a b : key_le a b <-> ~ lexico b a.
Proof. unfold key_le. by rewrite <- key_less_lexico, not_true_iff_false. Qed.

#[local] Instance key_le_trans : Transitive key_le.
Proof.
  intros a b c. rewrite !key_le_lexico. intros Hab Hbc Hca.
  destruct (trichotomyT lexico b c) as [[Hl| ->]|Hl]; [|done..]. apply Hab. by transitivity c.
Qed.

#[local] Instance key_le_antisymm : AntiSymm (=) key_le.
Proof. intros a b. rewrite !key_le_lexico. intros Hab Hba. by destruct (trichotomyT lexico a b) as [[Hl| ->]|Hl]. Qed.

#[local] Instance user_le_total : Total user_le.
Proof.
  intros a b. unfold user_le. rewrite !user_less_key. change (key_le (order_key a) (order_key b) \/ key_le (order_key b) (order_key a)).
  rewrite !key_le_lexico. destruct (trichotomyT lexico (order_key a) (order_key b)) as [[Hl|E]|Hl].
  - left. intros Hr. apply (irreflexivity lexico (order_key a)). by transitivity (order_key b).
  - rewrite E. left. apply (irreflexivity lexico).
  - right. intros Hr. apply (irreflexivity lexico (order_key a)). by transitivity (order_key b).
Qed.

Lemma sorted_keys l : Sorted user_le l -> Sorted key_le (map order_key l).
Proof.
  induction 1 as [|u l Hs IH Hr]; [constructor|]. cbn. constructor; [done|]. destruct Hr as [|v l Hv]; constructor.
  unfold key_le. by rewrite <- user_less_key.
Qed.

(** However the users are listed, they are sorted into the same keys. *)
Lemma sorted_keys_unique users users' :
  map order_key users ≡ₚ map order_key users' ->
  map order_key (merge_sort user_le users) = map order_key (merge_sort user_le users').
Proof.
  intros Hp. apply (Sorted_unique key_le); [apply sorted_keys, Sorted_merge_sort; apply _..|]. by rewrite !merge_sort_Permutation.
Qed.

(** ** The bytes that are hashed *)

Definition user_in_range (u : UserInfo) : Prop :=
  Forall (is_sint 64) [u_ID u; u_SpeedLimit u; u_DeviceLimit u; u_Port u; u_MaxConnections u; u_MaxIPs u; u_QuotaBytes u; u_ExpiresAt u] /\
  Forall (fun s => zlen (bytes_of_string s) < 2 ^ 64)
    [u_UUID u; u_Username u; u_Password u; u_Label u; u_Secret u; u_LinkSecret u; u_Cipher u; u_ExpiresOn u].

Lemma length_le64 v : length (le64 v) = 8%nat.
Proof. unfold le64. by rewrite length_rev, length_be_encode. Qed.

Lemma le64_cancel a b x y : le64 a ++ x = le64 b ++ y -> uint64 a = uint64 b /\ x = y.
Proof.
  intros [H ->]%app_inj_1; [|by rewrite !length_le64]. split; [|done]. unfold le64 in H.
  apply (f_equal (fun l => be_decode (rev l))) in H. rewrite !rev_involutive in H.
  rewrite !be_decode_encode in H; [done|..]; unfold uint64, wrap; apply Z.mod_pos_bound; lia.
Qed.

Lemma uint64_inj a b : is_sint 64 a -> is_sint 64 b -> uint64 a = uint64 b -> a = b.
Proof.
  unfold is_sint, uint64, wrap. intros Ha Hb H. pose proof (Z.div_mod a (2 ^ 64)). pose proof (Z.div_mod b (2 ^ 64)). nia.
Qed.

Lemma writeInt64_cancel a b x y : is_sint 64 a -> is_sint 64 b -> writeInt64 a ++ x = writeInt64 b ++ y -> a = b /\ x = y.
Proof. intros Ha Hb [H ->]%le64_cancel. split; [by apply uint64_inj|done]. Qed.

Lemma writeString_cancel s t x y :
  zlen (bytes_of_string s) < 2 ^ 64 -> zlen (bytes_of_string t) < 2 ^ 64 -> writeString s ++ x = writeString t ++ y -> s = t /\ x = y.
Proof.
  unfold writeString. rewrite <- !app_assoc. intros Hs Ht [Hl H]%le64_cancel. unfold uint64, wrap in Hl.
  pose proof (zlen_nonneg (bytes_of_string s)). pose proof (zlen_nonneg (bytes_of_string t)). rewrite !Z.mod_small in Hl by lia.
  apply app_inj_1 in H as [H ->]; [|unfold zlen in Hl; lia]. split; [|done].
  rewrite <- (string_of_bytes_of_string s), <- (string_of_bytes_of_string t). by rewrite H.
Qed.

Lemma writeBool_cancel a b x y : writeBool a ++ x = writeBool b ++ y -> a = b /\ x = y.
Proof. unfold writeBool. by destruct a, b; intros [= ->]. Qed.

(** The bytes of a user determine its fields, whatever follows. *)
Lemma writeUser_cancel u v x y :
  user_in_range u -> user_in_range v -> writeUser u ++ x = writeUser v ++ y -> order_key u = order_key v /\ x = y.
Proof.
  intros [Hi Hs] [Hi' Hs']. unfold writeUser. rewrite <- !app_assoc. intros Hw.
  rewrite !Forall_cons in Hi. rewrite !Forall_cons in Hs. rewrite !Forall_cons in Hi'. rewrite !Forall_cons in Hs'. destruct_and!.
  repeat match type of Hw with
  | writeInt64 _ ++ _ = _ => apply writeInt64_cancel in Hw as [? Hw]; [|assumption..]
  | writeString _ ++ _ = _ => apply writeString_cancel in Hw as [? Hw]; [|assumption..]
  | writeBool _ ++ _ = _ => apply writeBool_cancel in Hw as [? Hw]
  end.
  split; [|done]. destruct u, v. cbn in *. by subst.
Qed.

Lemma writeUser_key u v : order_key u = order_key v -> writeUser u = writeUser v.
Proof.
  unfold order_key. intros [= ? E1 E2 E3 E4 E5 E6 ? ? ? E7 Eb ? ? ? ? E8].
  apply string_key_inj in E1, E2, E3, E4, E5, E6, E7, E8.
  assert (u_Enabled u = u_Enabled v) by (by destruct (u_Enabled u), (u_Enabled v)).
  destruct u, v. cbn in *. by subst.
Qed.

(** What is a function of the keys agrees when the keys do. *)
Lemma map_factor {A B C} (f : A -> B) (g : A -> C) l : forall l',
  (forall x y, f x = f y -> g x = g y) -> map f l = map f l' -> map g l = map g l'.
Proof.
  induction l as [|x l IH]; intros [|y l'] Hfg H; try done. cbn in *. injection H as Hx Hl. by rewrite (Hfg x y Hx), (IH l').
Qed.

Lemma concat_users_inj l : forall l', Forall user_in_range l -> Forall user_in_range l' ->
  concat (map writeUser l) = concat (map writeUser l') -> map order_key l = map order_key l'.
Proof.
  assert (forall u x, writeUser u ++ x <> []) as Hne by (intros u x H; apply app_nil in H as [H _]; apply app_nil in H as [H _]; by apply (f_equal length) in H).
  induction l as [|u l IH]; intros [|v l'] Hl Hl' H; cbn [map concat] in H |- *; [done|by destruct (Hne v (concat (map writeUser l')))|by destruct (Hne u (concat (map writeUser l)))|].
  inversion Hl; inversion Hl'; subst. apply writeUser_cancel in H as [Hk H]; [|done..]. by rewrite Hk, (IH l').
Qed.

(** The fields that are compared and hashed: all but EnabledSet. *)
Definition without_EnabledSet (u : UserInfo) : UserInfo :=
  mkUserInfo (u_ID u) (u_UUID u) (u_Username u) (u_Password u) (u_SpeedLimit u) (u_DeviceLimit u) (u_Label u) (u_Secret u)
    (u_LinkSecret u) (u_Port u) (u_Cipher u) (u_Enabled u) false (u_MaxConnections u) (u_MaxIPs u) (u_QuotaBytes u)
    (u_ExpiresAt u) (u_ExpiresOn u).

Lemma order_key_inj u v : order_key u = order_key v -> without_EnabledSet u = without_EnabledSet v.
Proof.
  unfold order_key. intros [= ? E1 E2 E3 E4 E5 E6 ? ? ? E7 Eb ? ? ? ? E8].
  apply string_key_inj in E1, E2, E3, E4, E5, E6, E7, E8.
  assert (u_Enabled u = u_Enabled v) by (by destruct (u_Enabled u), (u_Enabled v)).
  destruct u, v. cbn in *. by subst.
Qed.

Lemma keys_Permutation l l' :
  map order_key l ≡ₚ map order_key l' <-> map without_EnabledSet l ≡ₚ map without_EnabledSet l'.
Proof.
  split; intros H.
  - apply Permutation_map_inv in H as (l2 & E & Hp). rewrite Hp. apply Permutation_refl'.
    by apply (map_factor order_key); [apply order_key_inj|].
  - assert (forall l, map order_key l = map order_key (map without_EnabledSet l)) as E by (intros l0; rewrite map_map; done).
    rewrite (E l), (E l'). by apply Permutation_map.
Qed.

(** C23: the digest of the user list tells exactly when the users changed.  It does
    not depend on the order in which the panel lists them; and when SHA-256 has
    no collision between the two inputs at hand, equal digests mean the same
    users, field by field (EnabledSet apart, which only tells a disabled user
    from one without the field). *)
Theorem users_digest_exact (sha256 : list byte -> list byte) users users' :
  Forall user_in_range users -> Forall user_in_range users' ->
  (sha256 (digestInput users) = sha256 (digestInput users') -> digestInput users = digestInput users') ->
  digestUsers sha256 users = digestUsers sha256 users' <-> map without_EnabledSet users ≡ₚ map without_EnabledSet users'.
Proof.
  intros Hr Hr' Hc. rewrite <- keys_Permutation. split.
  - intros H%Hc. unfold digestInput in H. apply concat_users_inj in H; [|by rewrite merge_sort_Permutation..].
    rewrite <- (merge_sort_Permutation user_le users), <- (merge_sort_Permutation user_le users'). by rewrite H.
  - intros Hp. unfold digestUsers, digestInput. do 2 f_equal. apply (map_factor order_key); [apply writeUser_key|by apply sorted_keys_unique].
Qed.

Module PanelUsersDemo.
Definition user (id : Z) (uuid : string) : UserInfo := mkUserInfo id uuid "" "" 0 0 "" "" "" 0 "" true true 0 0 0 0 "".

Lemma user_ok id uuid : is_sint 64 id -> zlen (bytes_of_string uuid) < 2 ^ 64 -> user_in_range (user id uuid).
Proof. intros Hi Hu. unfold is_sint in Hi. split; repeat constructor; cbn; try done; unfold is_sint; lia. Qed.

(** Two users listed in the two orders; the digest is taken to be the input itself. *)
Lemma users_digest_exact_witness :
  digestUsers id [user 1 "a"; user 2 "b"] = digestUsers id [user 2 "b"; user 1 "a"] <->
  map without_EnabledSet [user 1 "a"; user 2 "b"] ≡ₚ map without_EnabledSet [user 2 "b"; user 1 "a"].
Proof.
  assert (H1 : user_in_range (user 1 "a")) by (apply user_ok; [unfold is_sint; lia|vm_compute; reflexivity]).
  assert (H2 : user_in_range (user 2 "b")) by (apply user_ok; [unfold is_sint; lia|vm_compute; reflexivity]).
  apply (users_digest_exact id [user 1 "a"; user 2 "b"] [user 2 "b"; user 1 "a"]).
  - by repeat constructor.
  - by repeat constructor.
  - done.
Defined.
End PanelUsersDemo.
