(* ===== verification/PanelTracker.v ===== *)
(** * Traffic of the users of a panel (service/v2board/tracker.go, rate_limit.go)

    The tracker counts the bytes of each user of the nodes that a panel
    manages, limits the number of devices and the speed of a user, and blocks
    destinations.  A connection holds a pointer to the counter of its user and
    adds to it while it runs; a counter can outlive its user, and is then kept
    as pending until it is reported.  So counters live in a [Heap], and the
    maps of a node hold pointers.

    The order of a [range] over a Go map is unspecified: it is the argument
    [GoRange], of which only [GoRangeLaws] is known. *)
From Stdlib Require Import ZArith Lia Bool Ascii.
From S2P Require Import Prelude GoIO DnsMsg Metadata RuleItem DemoEnv RuleTheorems SavedBinary PanelRules PanelUsers.
From S2P Require Import RuleEngine RouteMatch RouteOptions RouteRule RouteRouter.

(** [for k, v := range m]: the entries, in some order. *)
Class GoRange := {
  range_string : forall {A}, gmap string A -> list (string * A);
  range_int : forall {A}, gmap Z A -> list (Z * A);
}.

Class GoRangeLaws `{GR : GoRange} : Prop := {
  range_string_perm : forall {A} (m : gmap string A), range_string m ≡ₚ map_to_list m;
  range_int_perm : forall {A} (m : gmap Z A), range_int m ≡ₚ map_to_list m;
}.

(** ** Data *)

Record userCounter := mkCounter { upload : Z; download : Z; active : Z }.

(** Allocated counters (and limiters, which take their identity from it too). *)
Record Heap := mkHeap { cells : gmap nat userCounter; next : nat }.

Definition emptyHeap : Heap := mkHeap ∅ 0.
Definition newCounter (h : Heap) : nat * Heap := (next h, mkHeap (<[next h := mkCounter 0 0 0]> (cells h)) (S (next h))).
Definition load (h : Heap) (p : nat) : userCounter := default (mkCounter 0 0 0) (cells h !! p).
Definition store (h : Heap) (p : nat) (c : userCounter) : Heap := mkHeap (<[p := c]> (cells h)) (next h).

(** A [*rate.Limiter]: its identity and its rate in bytes per second. *)
Definition rateLimiter : Type := nat * Z.

Record userLimit := mkUserLimit { speed : Z; device : Z; limiter : option rateLimiter }.

(** [map[string]struct{}] *)
Abbreviation stringSet := (gmap string unit).

(** [map[int]trafficTotal] *)
Abbreviation totals := (gmap Z (Z * Z)).

Record UserTraffic := mkUserTraffic { UID : Z; Upload : Z; Download : Z }.

(** ** Rate limits *)

Definition speedLimitBytesPerSecond (speedLimitMbps : Z) : Z :=
  if speedLimitMbps <=? 0 then 0
  else
    let bytesPerSecond := Z.quot (int64 (int64 (speedLimitMbps * 1000) * 1000)) 8 in
    let maxInt := 2 ^ 63 - 1 in
    if maxInt <? bytesPerSecond then maxInt else bytesPerSecond.

Definition newRateLimiter (speedLimitMbps : Z) (h : Heap) : option rateLimiter * Heap :=
  let bytesPerSecond := speedLimitBytesPerSecond speedLimitMbps in
  if bytesPerSecond <=? 0 then (None, h) else (Some (next h, bytesPerSecond), mkHeap (cells h) (S (next h))).

(** [waitRate]: the amounts asked from the limiter, in order, until it fails.
    [burst] is that of [newRateLimiter], the rate.  The fuel is the number of
    bytes. *)
Section WaitRate.
Context (WaitN : Z -> result unit).

Fixpoint waitRate_loop (fuel : nat) (burst bytes : Z) : result (list Z) :=
  match fuel with
  | O => Err OutOfFuel
  | S fuel =>
      if 0 <? bytes then
        let chunk := Z.min bytes burst in
        let* _ := WaitN chunk in
        let* chunks := waitRate_loop fuel burst (bytes - chunk) in
        Ok (chunk :: chunks)
      else Ok []
  end.

Definition waitRate (limit : option rateLimiter) (bytes : Z) : result (list Z) :=
  match limit with
  | None => Ok []
  | Some (_, burst) =>
      if bytes <=? 0 then Ok [] else if burst <=? 0 then Ok [] else waitRate_loop (S (Z.to_nat bytes)) burst bytes
  end.
End WaitRate.

Definition mergeRateError (ioErr rateErr : option go_error) : option go_error :=
  match ioErr with Some e => Some e | None => rateErr end.

(** ** A node *)

Definition maxRestoredAliveIPsPerUser : Z := 256.
Definition defaultAliveListTTL : Z := 60 * 10 ^ 9.

Definition normalizeAliveListTTL (ttl : Z) : Z := if ttl <=? 0 then defaultAliveListTTL else ttl.

(** [a.Sub(b)], in nanoseconds; it saturates. *)
Definition Time_Sub (a b : Time) : Z :=
  Z.max (- 2 ^ 63) (Z.min (2 ^ 63 - 1) ((time_Unix a - time_Unix b) * 10 ^ 9 + (time_Nanosecond a - time_Nanosecond b))).

Section WithEnv.
Context `{GE : GoEnv} `{GR : GoRange}.

Record nodeTraffic := mkNodeTraffic {
  nodeID : Z;
  users : gmap string Z;
  limits : gmap string userLimit;
  counters : gmap string nat;
  pending : gmap Z (list nat);
  online : gmap string stringSet;
  previous : gmap string stringSet;
  alive : gmap Z Z;
  aliveAt : Time;
  aliveTTL : Z;
  rules : nodeRules;
}.

(** [&nodeTraffic{}] *)
Definition zeroNode : nodeTraffic := mkNodeTraffic 0 ∅ ∅ ∅ ∅ ∅ ∅ ∅ zeroTime 0 noRules.

Definition set_alive (alive : gmap Z Z) (aliveAt : Time) (aliveTTL : Z) (n : nodeTraffic) : nodeTraffic :=
  mkNodeTraffic (nodeID n) (users n) (limits n) (counters n) (pending n) (online n) (previous n) alive aliveAt aliveTTL (rules n).
Definition set_online (online : gmap string stringSet) (n : nodeTraffic) : nodeTraffic :=
  mkNodeTraffic (nodeID n) (users n) (limits n) (counters n) (pending n) online (previous n) (alive n) (aliveAt n) (aliveTTL n) (rules n).
Definition set_pending (pending : gmap Z (list nat)) (n : nodeTraffic) : nodeTraffic :=
  mkNodeTraffic (nodeID n) (users n) (limits n) (counters n) pending (online n) (previous n) (alive n) (aliveAt n) (aliveTTL n) (rules n).

Definition set_of (m : gmap string stringSet) (key : string) : stringSet := default ∅ (m !! key).

Definition appendPendingCounter (uid : Z) (counter : nat) (values : gmap Z (list nat)) : gmap Z (list nat) :=
  if uid <=? 0 then values else <[uid := default [] (values !! uid) ++ [counter]]> values.

Definition clonePendingCounters (values : gmap Z (list nat)) : gmap Z (list nat) :=
  filter (fun '(_, counters) => counters <> []) values.

Definition updatedUserLimit (n : nodeTraffic) (key : string) (user : UserInfo) (h : Heap) : userLimit * Heap :=
  if u_SpeedLimit user <=? 0 then (mkUserLimit (u_SpeedLimit user) (u_DeviceLimit user) None, h)
  else
    let '(limiter, h) :=
      match limits n !! key with
      | Some (mkUserLimit speed _ (Some existing)) =>
          if speed =? u_SpeedLimit user then (Some existing, h) else newRateLimiter (u_SpeedLimit user) h
      | _ => newRateLimiter (u_SpeedLimit user) h
      end in
    (mkUserLimit (u_SpeedLimit user) (u_DeviceLimit user) limiter, h).

(** The maps [updateUsers] builds. *)
Record nextMaps := mkNext {
  nextUsers : gmap string Z;
  nextLimits : gmap string userLimit;
  nextCounters : gmap string nat;
  nextPending : gmap Z (list nat);
  nextOnline : gmap string stringSet;
  nextPrevious : gmap string stringSet;
}.

(** The counter of a user of the new list: the existing one when the key still
    means the same user, otherwise a new one, the old one becoming pending. *)
Definition carryCounter (n : nodeTraffic) (key : string) (uid : Z) (pending : gmap Z (list nat)) (h : Heap)
    : nat * gmap Z (list nat) * Heap :=
  let owner := default 0 (users n !! key) in
  match counters n !! key with
  | Some existing =>
      if owner =? uid then (existing, pending, h)
      else let '(counter, h) := newCounter h in (counter, appendPendingCounter owner existing pending, h)
  | None => let '(counter, h) := newCounter h in (counter, pending, h)
  end.

(** An entry of the old map is kept when the key still means the same user. *)
Definition carrySet (same : bool) (old : gmap string stringSet) (key : string) (next : gmap string stringSet) : gmap string stringSet :=
  match old !! key with Some existing => if same then <[key := existing]> next else next | None => next end.

Definition updateUser (nodeType : string) (n : nodeTraffic) (user : UserInfo) (s : nextMaps * Heap) : nextMaps * Heap :=
  let '(m, h) := s in
  let key := userTrackerKey nodeType user in
  if String.eqb key "" then (m, h)
  else
    let sameUser := default 0 (users n !! key) =? u_ID user in
    let '(counter, pending, h) := carryCounter n key (u_ID user) (nextPending m) h in
    let '(limit, h) := updatedUserLimit n key user h in
    (mkNext (<[key := u_ID user]> (nextUsers m)) (<[key := limit]> (nextLimits m)) (<[key := counter]> (nextCounters m)) pending
       (carrySet sameUser (online n) key (nextOnline m)) (carrySet sameUser (previous n) key (nextPrevious m)), h).

(** The counters of the users that are gone become pending. *)
Definition retireCounters (n : nodeTraffic) (carried : gmap string nat) (pending : gmap Z (list nat)) : gmap Z (list nat) :=
  fold_left (fun pending '(key, counter) =>
    match carried !! key with Some _ => pending | None => appendPendingCounter (default 0 (users n !! key)) counter pending end)
    (range_string (counters n)) pending.

Definition updateUsers (nodeType : string) (nodeID : Z) (list_ : list UserInfo) (alive : gmap Z Z) (aliveAt : Time) (aliveTTL : Z)
    (rules : nodeRules) (n : nodeTraffic) (h : Heap) : nodeTraffic * Heap :=
  let '(m, h) := fold_left (fun s user => updateUser nodeType n user s) list_
    (mkNext ∅ ∅ ∅ (clonePendingCounters (pending n)) ∅ ∅, h) in
  (mkNodeTraffic nodeID (nextUsers m) (nextLimits m) (nextCounters m)
     (retireCounters n (nextCounters m) (nextPending m)) (nextOnline m) (nextPrevious m) alive aliveAt
     (normalizeAliveListTTL aliveTTL) rules, h).

Definition updateAliveListWithState (alive : gmap Z Z) (aliveAt : Time) (aliveTTL : Z) (n : nodeTraffic) : nodeTraffic :=
  set_alive alive aliveAt (normalizeAliveListTTL aliveTTL) n.

(** [counter]: nil unless the user is known. *)
Definition counterOf (n : nodeTraffic) (user : string) : option nat :=
  match users n !! user with Some _ => counters n !! user | None => None end.

Definition speedLimiter (n : nodeTraffic) (user : string) : option rateLimiter :=
  match limits n !! user with Some limit => limiter limit | None => None end.

(** ** Devices *)

Definition addOnlineIPWithLimit (ip : string) (limit : Z) (online : stringSet) : stringSet :=
  if limit <=? 0 then <[ip := tt]> online
  else
    let online :=
      match online !! ip with
      | Some _ => online
      | None =>
          if limit <=? Z.of_nat (size online)
          then match range_string online with (existing, _) :: _ => delete existing online | [] => online end
          else online
      end in
    <[ip := tt]> online.

Definition aliveListFresh (n : nodeTraffic) (now : Time) : bool :=
  if Time_IsZero (aliveAt n) then false else Time_Sub now (aliveAt n) <=? normalizeAliveListTTL (aliveTTL n).

(** The addresses seen since the last report and not in the one before. *)
Definition newAddresses (n : nodeTraffic) (user : string) : stringSet := set_of (online n) user ∖ set_of (previous n) user.

Definition exceedsDeviceLimit (n : nodeTraffic) (user : string) (uid : Z) (ip : string) (now : Time) : bool :=
  let limit := match limits n !! user with Some limit => device limit | None => 0 end in
  if limit <=? 0 then false
  else match set_of (online n) user !! ip with Some _ => false | None =>
  match set_of (previous n) user !! ip with Some _ => false | None =>
    let localNew := Z.of_nat (size (newAddresses n user)) in
    let remoteAlive := if aliveListFresh n now then default 0 (alive n !! uid) else 0 in
    limit <=? remoteAlive + localNew
  end end.

Definition markOnline (user ip : string) (now : Time) (n : nodeTraffic) : bool * nodeTraffic :=
  if String.eqb ip "" || String.eqb ip "<invalid IP>" then (true, n)
  else match users n !! user with
  | None => (false, n)
  | Some uid =>
      if exceedsDeviceLimit n user uid ip now then (false, n)
      else (true, set_online (<[user := addOnlineIPWithLimit ip maxRestoredAliveIPsPerUser (set_of (online n) user)]> (online n)) n)
  end.

(** ** Reports *)

(** Take what a counter holds. *)
Definition addCounterSnapshot (uid : Z) (counter : nat) (t : totals) (h : Heap) : Z * Z * totals * Heap :=
  if uid <=? 0 then (0, 0, t, h)
  else
    let c := load h counter in
    let '(u, d) := default (0, 0) (t !! uid) in
    (upload c, download c, <[uid := (int64 (u + upload c), int64 (d + download c))]> t, store h counter (mkCounter 0 0 (active c))).

(** One list of pending counters: those with open connections remain. *)
Fixpoint snapshotPending (uid : Z) (counters : list nat) (t : totals) (h : Heap) : list nat * totals * Heap :=
  match counters with
  | [] => ([], t, h)
  | counter :: rest =>
      let '(_, _, t, h) := addCounterSnapshot uid counter t h in
      let keep := 0 <? active (load h counter) in
      let '(remaining, t, h) := snapshotPending uid rest t h in
      (if keep then counter :: remaining else remaining, t, h)
  end.

Fixpoint snapshotAllPending (entries : list (Z * list nat)) (pending : gmap Z (list nat)) (t : totals) (h : Heap)
    : gmap Z (list nat) * totals * Heap :=
  match entries with
  | [] => (pending, t, h)
  | (uid, counters) :: rest =>
      let '(remaining, t, h) := snapshotPending uid counters t h in
      snapshotAllPending rest (if nonempty remaining then <[uid := remaining]> pending else delete uid pending) t h
  end.

Definition aliveEntry (nodeID : Z) (ip : string) : string := ip +:+ "_" +:+ pretty nodeID.

(** The counters of the users: totals, the addresses online, and what is kept
    of the addresses. *)
Fixpoint snapshotUsers (n : nodeTraffic) (onlineMin : Z) (entries : list (string * nat)) (t : totals) (alive : gmap Z (list string))
    (online previous : gmap string stringSet) (h : Heap)
    : totals * gmap Z (list string) * gmap string stringSet * gmap string stringSet * Heap :=
  match entries with
  | [] => (t, alive, online, previous, h)
  | (user, counter) :: rest =>
      match users n !! user with
      | None => snapshotUsers n onlineMin rest t alive online previous h
      | Some uid =>
          let '(u, d, t, h) := addCounterSnapshot uid counter t h in
          let ips := set_of online user in
          let alive :=
            if onlineMin <=? int64 (u + d)
            then fold_left (fun alive '(ip, _) => <[uid := default [] (alive !! uid) ++ [aliveEntry (nodeID n) ip]]> alive)
                   (range_string ips) alive
            else alive in
          let previous := if (0 <? size ips)%nat then <[user := ips]> previous else previous in
          snapshotUsers n onlineMin rest t alive (delete user online) previous h
      end
  end.

Definition reportable (trafficMin : Z) (total : Z * Z) : bool :=
  let amount := int64 (fst total + snd total) in (trafficMin <=? amount) && (0 <? amount).

Definition trafficOf (trafficMin : Z) (t : totals) : list UserTraffic :=
  map (fun '(uid, (u, d)) => mkUserTraffic uid u d) (List.filter (fun e => reportable trafficMin (snd e)) (range_int t)).

Definition snapshot (trafficMin onlineMin : Z) (n : nodeTraffic) (h : Heap)
    : list UserTraffic * gmap Z (list string) * nodeTraffic * Heap :=
  let '(pending, t, h) := snapshotAllPending (range_int (pending n)) (pending n) ∅ h in
  let '(t, alive_, online, previous, h) := snapshotUsers n onlineMin (range_string (counters n)) t ∅ (online n) ∅ h in
  (trafficOf trafficMin t, alive_,
   mkNodeTraffic (nodeID n) (users n) (limits n) (counters n) pending online previous (alive n) (aliveAt n) (aliveTTL n) (rules n), h).

(** [counterForUIDLocked]: the counter that takes back what was not reported. *)
Definition counterForUID (uid : Z) (n : nodeTraffic) (h : Heap) : option nat * nodeTraffic * Heap :=
  if uid <=? 0 then (None, n, h)
  else
    match omap (fun '(user, userID) => if userID =? uid then counters n !! user else None) (range_string (users n)) with
    | counter :: _ => (Some counter, n, h)
    | [] =>
        match default [] (pending n !! uid) with
        | counter :: _ => (Some counter, n, h)
        | [] => let '(counter, h) := newCounter h in (Some counter, set_pending (appendPendingCounter uid counter (pending n)) n, h)
        end
    end.

Definition count (up down : Z) (counter : nat) (h : Heap) : Heap :=
  let c := load h counter in store h counter (mkCounter (int64 (upload c + up)) (int64 (download c + down)) (active c)).

Fixpoint restoreTraffic (traffic : list UserTraffic) (n : nodeTraffic) (h : Heap) : nodeTraffic * Heap :=
  match traffic with
  | [] => (n, h)
  | entry :: rest =>
      let '(counter, n, h) := counterForUID (UID entry) n h in
      restoreTraffic rest n (match counter with Some counter => count (Upload entry) (Download entry) counter h | None => h end)
  end.

(** [if index := strings.LastIndex(value, "_"); index > 0 { ip = value[:index] }] *)
Fixpoint before_last_underscore (s : string) : option string :=
  match s with
  | EmptyString => None
  | String c s' =>
      match before_last_underscore s' with
      | Some t => Some (String c t)
      | None => if Ascii.eqb c "_"%char then Some EmptyString else None
      end
  end.

Definition aliveIP (value : string) : string :=
  match before_last_underscore value with Some EmptyString | None => value | Some ip => ip end.

Fixpoint restoreAlive (entries : list (Z * list string)) (n : nodeTraffic) : nodeTraffic :=
  match entries with
  | [] => n
  | (uid, values) :: rest =>
      restoreAlive rest
        match List.filter (fun '(_, userID) => userID =? uid) (range_string (users n)) with
        | [] => n
        | (user, _) :: _ =>
            let online_ := fold_left (fun online value =>
                let ip := aliveIP value in
                if String.eqb ip "" then online else addOnlineIPWithLimit ip maxRestoredAliveIPsPerUser online)
              values (set_of (online n) user) in
            set_online (<[user := online_]> (online n)) n
        end
  end.
End WithEnv.

(** ** The tracker *)

Section Tracker.
Context `{GE : GoEnv} `{GR : GoRange}.

(** sing's [Socksaddr.Unwrap], [AddrString] and [Network], and [netip.Addr.String]. *)
Context (Unwrap : Socksaddr -> Socksaddr) (AddrString Socksaddr_Network : Socksaddr -> string) (Addr_String : Addr -> string).

Record TrafficTracker := mkTracker { nodes : gmap string nodeTraffic; heap : Heap }.

Definition newTracker : TrafficTracker := mkTracker ∅ emptyHeap.

Definition set_node (tag : string) (s : nodeTraffic * Heap) (t : TrafficTracker) : TrafficTracker :=
  mkTracker (<[tag := fst s]> (nodes t)) (snd s).

Definition updateNode (tag nodeType : string) (nodeID : Z) (list_ : list UserInfo) (alive : gmap Z Z) (aliveAt : Time) (aliveTTL : Z)
    (rules : nodeRules) (t : TrafficTracker) : TrafficTracker :=
  set_node tag (updateUsers nodeType nodeID list_ alive aliveAt aliveTTL rules (default zeroNode (nodes t !! tag)) (heap t)) t.

Definition updateAliveList (tag : string) (alive : gmap Z Z) (aliveAt : Time) (aliveTTL : Z) (t : TrafficTracker) : TrafficTracker :=
  match nodes t !! tag with
  | None => t
  | Some n => set_node tag (updateAliveListWithState alive aliveAt aliveTTL n, heap t) t
  end.

Definition DeleteNode (tag : string) (t : TrafficTracker) : TrafficTracker := mkTracker (delete tag (nodes t)) (heap t).

Definition Snapshot (tag : string) (trafficMin onlineMin : Z) (t : TrafficTracker)
    : list UserTraffic * gmap Z (list string) * TrafficTracker :=
  match nodes t !! tag with
  | None => ([], ∅, t)
  | Some n =>
      let '(traffic, alive, n, h) := snapshot trafficMin onlineMin n (heap t) in (traffic, alive, set_node tag (n, h) t)
  end.

Definition RestoreTraffic (tag : string) (traffic : list UserTraffic) (t : TrafficTracker) : TrafficTracker :=
  match nodes t !! tag with
  | None => t
  | Some n => if nonempty traffic then set_node tag (restoreTraffic traffic n (heap t)) t else t
  end.

Definition RestoreAlive (tag : string) (alive : gmap Z (list string)) (t : TrafficTracker) : TrafficTracker :=
  match nodes t !! tag with
  | None => t
  | Some n => if (0 <? size alive)%nat then set_node tag (restoreAlive (range_int alive) n, heap t) t else t
  end.

(** [match]: the node and the counter of a connection's user. *)
Definition match_ (metadata : InboundContext) (t : TrafficTracker) : option (nodeTraffic * nat) :=
  if String.eqb (Inbound metadata) "" || String.eqb (User metadata) "" then None
  else match nodes t !! Inbound metadata with
  | None => None
  | Some n => option_map (fun counter => (n, counter)) (counterOf n (User metadata))
  end.

(** [trackConn] and the first [Close] of a tracked connection. *)
Definition addActive (delta : Z) (counter : nat) (h : Heap) : Heap :=
  let c := load h counter in store h counter (mkCounter (upload c) (download c) (int32 (active c + delta))).

Definition trackConn (counter : nat) (t : TrafficTracker) : TrafficTracker := mkTracker (nodes t) (addActive 1 counter (heap t)).
Definition closeConn (counter : nat) (t : TrafficTracker) : TrafficTracker := mkTracker (nodes t) (addActive (-1) counter (heap t)).

(** Bytes read and written by a tracked connection. *)
Definition countConn (up down : Z) (counter : nat) (t : TrafficTracker) : TrafficTracker :=
  mkTracker (nodes t) (count up down counter (heap t)).

(** What becomes of a connection. *)
Inductive routed :=
| Untracked                                             (* returned as it is *)
| Rejected                                              (* closed, nil is returned *)
| Tracked (counter : nat) (limit : option rateLimiter). (* counted, limited when there is a limiter *)

Definition routeTracked (protocol : string) (metadata : InboundContext) (now : Time) (t : TrafficTracker) : routed * TrafficTracker :=
  match match_ metadata t with
  | None => (Untracked, t)
  | Some (n, counter) =>
      if blocks Unwrap AddrString (rules n) (Destination metadata) protocol then (Rejected, t)
      else
        let '(accepted, n) := markOnline (User metadata) (Addr_String (Socksaddr_Addr (Source metadata))) now n in
        let t := mkTracker (<[Inbound metadata := n]> (nodes t)) (heap t) in
        if negb accepted then (Rejected, t)
        else (Tracked counter (speedLimiter n (User metadata)), trackConn counter t)
  end.

Definition RoutedConnection (metadata : InboundContext) (now : Time) (t : TrafficTracker) : routed * TrafficTracker :=
  routeTracked (Protocol metadata) metadata now t.

Definition RoutedPacketConnection (metadata : InboundContext) (now : Time) (t : TrafficTracker) : routed * TrafficTracker :=
  routeTracked (if String.eqb (Protocol metadata) "" then Socksaddr_Network (Destination metadata) else Protocol metadata) metadata now t.
End Tracker.

(** ** The registry of trackers

    One tracker per router, shared by the services that use it.  Routers are
    known by their key, trackers by an identity the registry hands out. *)

Record trackerRegistry := mkRegistry { trackers : gmap Z (nat * Z); nextTracker : nat }.

Section Registry.
Context `{GE : GoEnv}.

Definition retainTrafficTracker (key : Z) (reg : trackerRegistry) (router : Route.Router) : nat * trackerRegistry * Route.Router :=
  match trackers reg !! key with
  | Some (tracker, refs) => (tracker, mkRegistry (<[key := (tracker, refs + 1)]> (trackers reg)) (nextTracker reg), router)
  | None =>
      let tracker := nextTracker reg in
      (tracker, mkRegistry (<[key := (tracker, 1)]> (trackers reg)) (S tracker), Route.AppendTracker tracker router)
  end.

Definition releaseTrafficTracker (key : Z) (tracker : nat) (reg : trackerRegistry) (router : Route.Router) : trackerRegistry * Route.Router :=
  match trackers reg !! key with
  | Some (tracker', refs) =>
      if negb (tracker' =? tracker)%nat then (reg, router)
      else if 0 <? refs - 1 then (mkRegistry (<[key := (tracker, refs - 1)]> (trackers reg)) (nextTracker reg), router)
      else (mkRegistry (delete key (trackers reg)) (nextTracker reg), Route.RemoveTracker tracker router)
  | None => (reg, router)
  end.
End Registry.
