(* ===== verification/PanelTrackerTheorems.v ===== *)
(** * Theorems on the traffic of panel users

    What the operations of the tracker do to the counters that live in its
    heap: lemmas for the accounting of PanelAccounting and the limits of
    PanelLimits. *)
From Stdlib Require Import ZArith Lia Bool.
From stdpp Require Import relations.
From S2P Require Import Prelude GoIO DnsMsg Metadata RuleItem DemoEnv RuleEngine RuleTheorems SavedBinary PanelRules PanelUsers.
From S2P Require Import RouteMatch RouteOptions RouteRule RouteRouter PanelTracker.

(** ** Sums over the heap *)

Fixpoint sumf (f : nat -> Z) (k : nat) : Z := match k with O => 0 | S k => sumf f k + f k end.

Lemma sumf_ext f g k : (forall p, (p < k)%nat -> f p = g p) -> sumf f k = sumf g k.
Proof. induction k as [|k IH]; intros H; [done|]. cbn. rewrite H, IH by auto with lia. done. Qed.

Lemma sumf_update f g k p : (p < k)%nat -> (forall q, q <> p -> f q = g q) -> sumf g k = sumf f k + (g p - f p).
Proof.
  induction k as [|k IH]; intros Hp H; [lia|]. cbn. destruct (decide (p = k)) as [->|Hn].
  - rewrite (sumf_ext f g k) by (intros q Hq; apply H; lia). lia.
  - rewrite IH by (done || lia). rewrite (H k) by done. lia.
Qed.

Lemma sumf_extend f k k' : (k <= k')%nat -> (forall p, (k <= p)%nat -> f p = 0) -> sumf f k' = sumf f k.
Proof. intros Hk Hf. induction Hk as [|k' Hk IH]; [done|]. cbn. rewrite IH, Hf by lia. lia. Qed.

Lemma sumf_nonneg f k : (forall p, (p < k)%nat -> 0 <= f p) -> 0 <= sumf f k.
Proof. induction k as [|k IH]; intros H; cbn; [lia|]. pose proof (H k ltac:(lia)). pose proof (IH ltac:(auto with lia)). lia. Qed.

Lemma sumf_ge f k p : (p < k)%nat -> (forall q, (q < k)%nat -> 0 <= f q) -> f p <= sumf f k.
Proof.
  induction k as [|k IH]; intros Hp H; cbn; [lia|]. destruct (decide (p = k)) as [->|Hn].
  - pose proof (sumf_nonneg f k ltac:(auto with lia)). lia.
  - pose proof (H k ltac:(lia)). pose proof (IH ltac:(lia) ltac:(auto with lia)). lia.
Qed.

(** ** Counters and their owners *)

(** The two directions of a connection. *)
Definition amount (b : bool) (c : userCounter) : Z := if b then upload c else download c.

(** Every counter belongs to a user of a node: the tag of the node and the
    number of the user.  [owner] is known to the proofs only. *)
Abbreviation Owner := (nat -> string * Z).

Definition held (owner : Owner) (h : Heap) (id : string * Z) (b : bool) : Z :=
  sumf (fun p => if decide (owner p = id) then amount b (load h p) else 0) (next h).

Definition quiet (h : Heap) (p : nat) : Prop := load h p = mkCounter 0 0 0.

Definition wf_heap (h : Heap) : Prop := forall p, is_Some (cells h !! p) -> (p < next h)%nat.

Section Cells.
Context (owner : Owner).

Lemma load_beyond h p : wf_heap h -> (next h <= p)%nat -> quiet h p.
Proof. intros Hw Hp. unfold quiet, load. destruct (cells h !! p) eqn:E; [|done]. assert (p < next h)%nat by (apply Hw; eauto). lia. Qed.

Lemma load_store h p c q : load (store h p c) q = if decide (q = p) then c else load h q.
Proof. unfold load, store. cbn. case_decide as E; [subst; by rewrite lookup_insert_eq|by rewrite lookup_insert_ne]. Qed.

Lemma wf_store h p c : wf_heap h -> (p < next h)%nat -> wf_heap (store h p c).
Proof. intros Hw Hp q. cbn. destruct (decide (p = q)) as [->|Hn]; [done|]. rewrite lookup_insert_ne by done. apply Hw. Qed.

Lemma held_store h p c id b : (p < next h)%nat ->
  held owner (store h p c) id b = held owner h id b + (if decide (owner p = id) then amount b c - amount b (load h p) else 0).
Proof.
  intros Hp. unfold held. cbn [next store]. rewrite (sumf_update (fun p => if decide (owner p = id) then amount b (load h p) else 0) _ _ p Hp).
  - cbn beta. rewrite load_store, (decide_True (P := p = p)) by done. destruct (decide (owner p = id)); lia.
  - intros q Hq. cbn beta. by rewrite load_store, (decide_False (P := q = p)) by done.
Qed.

(** Amounts of users with a positive number are not negative. *)
Definition nonneg (h : Heap) : Prop := forall p b, 0 < snd (owner p) -> 0 <= amount b (load h p).

Lemma held_nonneg h id b : nonneg h -> 0 < snd id -> 0 <= held owner h id b.
Proof. intros Hn Hid. apply sumf_nonneg. intros p _. case_decide as E; [|lia]. apply Hn. by rewrite E. Qed.

Lemma amount_le_held h p b : nonneg h -> 0 < snd (owner p) -> (p < next h)%nat -> amount b (load h p) <= held owner h (owner p) b.
Proof.
  intros Hn Hid Hp. pose proof (sumf_ge (fun q => if decide (owner q = owner p) then amount b (load h q) else 0) (next h) p Hp) as H.
  cbn beta in H. rewrite decide_True in H by done. apply H. intros q _. case_decide as E; [|lia]. apply Hn. by rewrite E.
Qed.

Lemma held_le_amount_pos h id b p : nonneg h -> 0 < snd id -> (p < next h)%nat -> owner p = id -> amount b (load h p) <= held owner h id b.
Proof. intros Hn Hid Hp <-. by apply amount_le_held. Qed.
End Cells.

(** The heap after allocations only: the same contents. *)
Definition grows (h h' : Heap) : Prop := (next h <= next h')%nat /\ (forall p, load h' p = load h p) /\ wf_heap h'.

#[export] Instance grows_preorder_trans : Transitive grows.
Proof. intros h1 h2 h3 (H1 & L1 & W1) (H2 & L2 & W2). unfold grows. split_and!; [lia| |done]. intros p. by rewrite L2. Qed.

Lemma grows_refl h : wf_heap h -> grows h h.
Proof. intros Hw. unfold grows. by split_and!. Qed.

Lemma newCounter_grows h : wf_heap h -> grows h (snd (newCounter h)).
Proof.
  intros Hw. unfold grows. split_and!; cbn; [lia| |].
  - intros p. unfold load at 1. cbn. destruct (decide (next h = p)) as [<-|Hn]; [|by rewrite lookup_insert_ne].
    rewrite lookup_insert_eq. symmetry. by apply load_beyond.
  - intros p. cbn. destruct (decide (next h = p)) as [<-|Hn]; [lia|]. rewrite lookup_insert_ne by done. intros Hs%Hw. lia.
Qed.

Lemma newRateLimiter_grows speed h : wf_heap h -> grows h (snd (newRateLimiter speed h)).
Proof. intros Hw. unfold newRateLimiter. destruct (_ <=? 0); [by apply grows_refl|]. unfold grows. split_and!; cbn; [lia|done|]. intros p Hs%Hw. cbn. lia. Qed.

Lemma held_grows owner owner' h h' id b :
  grows h h' -> wf_heap h -> (forall p, (p < next h)%nat -> owner' p = owner p) -> held owner' h' id b = held owner h id b.
Proof.
  intros (Hn & Hl & _) Hw Ho. unfold held. rewrite (sumf_extend _ (next h) (next h') Hn).
  - apply sumf_ext. intros p Hp. by rewrite Ho, Hl.
  - intros p Hp. rewrite Hl, (load_beyond h p Hw Hp). by case_decide; destruct b.
Qed.

(** ** Taking counters into totals *)

Definition tot (t : totals) (uid : Z) (b : bool) : Z := let '(u, d) := default (0, 0) (t !! uid) in if b then u else d.

(** Totals and heap before and after some counters of the node [tag] were
    read: an amount moves from the heap to the totals, nothing else changes. *)
Record taken (owner : Owner) (tag : string) (s s' : totals * Heap) : Prop := {
  taken_next : next (snd s') = next (snd s);
  taken_wf : wf_heap (snd s) -> wf_heap (snd s');
  taken_active : forall p, active (load (snd s') p) = active (load (snd s) p);
  taken_amount : forall p b, amount b (load (snd s') p) = amount b (load (snd s) p) \/ amount b (load (snd s') p) = 0;
  taken_sum : forall uid b, tot (fst s') uid b + held owner (snd s') (tag, uid) b = tot (fst s) uid b + held owner (snd s) (tag, uid) b;
  taken_other : forall id b, fst id <> tag -> held owner (snd s') id b = held owner (snd s) id b;
  taken_dom : forall uid, is_Some (fst s' !! uid) -> is_Some (fst s !! uid) \/ 0 < uid;
  taken_total : forall uid b, 0 <= tot (fst s) uid b -> 0 <= tot (fst s') uid b;
}.

(** What makes the additions exact. *)
Record takeable (owner : Owner) (tag : string) (s : totals * Heap) : Prop := {
  takeable_nonneg : nonneg owner (snd s);
  takeable_total : forall uid b, 0 <= tot (fst s) uid b;
  takeable_active : forall p, 0 <= active (load (snd s) p);
  takeable_bound : forall uid b, 0 < uid -> tot (fst s) uid b + held owner (snd s) (tag, uid) b < 2 ^ 63;
}.

Section Taken.
Context (owner : Owner) (tag : string).
Local Abbreviation taken := (taken owner tag).
Local Abbreviation takeable := (takeable owner tag).

#[export] Instance taken_refl : Reflexive taken.
Proof. intros s. split; auto. Qed.

#[export] Instance taken_trans : Transitive taken.
Proof.
  intros s1 s2 s3 A B. split.
  - by rewrite (taken_next _ _ _ _ B), (taken_next _ _ _ _ A).
  - intros Hw. by apply (taken_wf _ _ _ _ B), (taken_wf _ _ _ _ A).
  - intros p. by rewrite (taken_active _ _ _ _ B), (taken_active _ _ _ _ A).
  - intros p b. destruct (taken_amount _ _ _ _ B p b) as [->|]; [apply (taken_amount _ _ _ _ A)|by right].
  - intros uid b. by rewrite (taken_sum _ _ _ _ B), (taken_sum _ _ _ _ A).
  - intros id b Hid. by rewrite (taken_other _ _ _ _ B), (taken_other _ _ _ _ A).
  - intros uid [H|]%(taken_dom _ _ _ _ B); [by apply (taken_dom _ _ _ _ A)|by right].
  - intros uid b H. by apply (taken_total _ _ _ _ B), (taken_total _ _ _ _ A).
Qed.

Lemma taken_takeable s s' : taken s s' -> takeable s -> takeable s'.
Proof.
  intros T [Hn Ht Ha Hb]. split.
  - intros p b Hp. destruct (taken_amount _ _ _ _ T p b) as [->| ->]; [by apply Hn|lia].
  - intros uid b. apply (taken_total _ _ _ _ T), Ht.
  - intros p. rewrite (taken_active _ _ _ _ T). apply Ha.
  - intros uid b Hu. rewrite (taken_sum _ _ _ _ T). by apply Hb.
Qed.

(** A counter that was read holds nothing. *)
Definition drained (h : Heap) (p : nat) : Prop := forall b, amount b (load h p) = 0.

Lemma taken_drained s s' p : taken s s' -> drained (snd s) p -> drained (snd s') p.
Proof. intros T Hd b. destruct (taken_amount _ _ _ _ T p b) as [->|]; [apply Hd|done]. Qed.

Lemma drained_quiet h p : drained h p -> active (load h p) = 0 -> quiet h p.
Proof.
  intros Hd Ha. unfold quiet. pose proof (Hd true) as Hu. pose proof (Hd false) as Hd'. cbn in Hu, Hd'.
  destruct (load h p); cbn in *. by subst.
Qed.

Lemma tot_insert t uid u d uid' b : tot (<[uid := (u, d)]> t) uid' b = if decide (uid' = uid) then (if b then u else d) else tot t uid' b.
Proof. unfold tot. case_decide as E; [subst; by rewrite lookup_insert_eq|by rewrite lookup_insert_ne]. Qed.

Lemma tot_bound s p uid b : takeable s -> wf_heap (snd s) -> (p < next (snd s))%nat -> owner p = (tag, uid) -> 0 < uid ->
  0 <= tot (fst s) uid b /\ 0 <= amount b (load (snd s) p) /\ tot (fst s) uid b + amount b (load (snd s) p) < 2 ^ 63.
Proof.
  intros [Hn Ht _ Hb] Hw Hp Ho Hu. pose proof (held_le_amount_pos owner (snd s) (tag, uid) b p Hn Hu Hp Ho).
  pose proof (Hb uid b Hu). pose proof (Ht uid b). pose proof (Hn p b ltac:(by rewrite Ho)). lia.
Qed.

Lemma addCounterSnapshot_spec uid p t h u d t' h' :
  takeable (t, h) -> wf_heap h -> (p < next h)%nat -> owner p = (tag, uid) ->
  addCounterSnapshot uid p t h = (u, d, t', h') ->
  taken (t, h) (t', h') /\ (0 < uid -> drained h' p).
Proof.
  intros Hk Hw Hp Ho. unfold addCounterSnapshot. destruct (uid <=? 0) eqn:E.
  { intros [= <- <- <- <-]. split; [reflexivity|]. lia. }
  apply Z.leb_gt in E.
  pose proof (fun b => tot_bound (t, h) p uid b Hk Hw Hp Ho E) as Hb. cbn [fst snd] in Hb.
  pose proof (Hb true) as B1. pose proof (Hb false) as B2. unfold tot in B1, B2.
  destruct (default (0, 0) (t !! uid)) as [u0 d0] eqn:Et. cbn [amount] in B1, B2.
  rewrite !int64_id by lia. intros [= <- <- <- <-]. split.
  2: { intros _ b. rewrite load_store, decide_True by done. by destruct b. }
  split; cbn [fst snd].
  - done.
  - intros _. by apply wf_store.
  - intros q. rewrite load_store. by case_decide; subst.
  - intros q b. rewrite load_store. case_decide; subst; [right; by destruct b|by left].
  - intros uid' b. rewrite held_store, tot_insert, Ho by done. destruct (decide (uid' = uid)) as [->|Hne].
    + rewrite (decide_True (P := (tag, uid) = (tag, uid))) by done. unfold tot. rewrite Et. destruct b; cbn [amount upload download]; lia.
    + rewrite decide_False by congruence. lia.
  - intros id b Hid. rewrite held_store, Ho by done. rewrite decide_False; [lia|]. by intros <-.
  - intros uid' [x Hx]. destruct (decide (uid' = uid)) as [->|Hne]; [by right|left]. rewrite lookup_insert_ne in Hx by done. eauto.
  - intros uid' b H. rewrite tot_insert. case_decide; [|done]. destruct b; lia.
Qed.
End Taken.

(** ** A report *)

Section Report.
Context `{GE : GoEnv} `{GR : GoRange} `{GRL : !GoRangeLaws}.
Context (owner : Owner) (tag : string).

(** The counter belongs to the user [uid] of the node. *)
Definition owned (h : Heap) (uid : Z) (p : nat) : Prop := owner p = (tag, uid) /\ (p < next h)%nat.

Lemma owned_taken s s' uid p : taken owner tag s s' -> owned (snd s) uid p -> owned (snd s') uid p.
Proof. intros T [Ho Hp]. split; [done|]. by rewrite (taken_next _ _ _ _ T). Qed.

Lemma snapshotPending_spec uid ps : forall t h remaining t' h',
  takeable owner tag (t, h) -> wf_heap h -> 0 < uid -> Forall (owned h uid) ps ->
  snapshotPending uid ps t h = (remaining, t', h') ->
  taken owner tag (t, h) (t', h') /\ remaining ⊆ ps /\ (forall p, p ∈ ps -> drained h' p /\ (p ∈ remaining \/ quiet h' p)).
Proof.
  induction ps as [|p ps IH]; intros t h remaining t' h' Hk Hw Hu Ho H; cbn in H.
  { injection H as <- <- <-. split; [reflexivity|]. split; [done|]. intros p Hp. by apply not_elem_of_nil in Hp. }
  inversion Ho as [|p_ ps_ [Hp Hlt] Hps]; subst.
  destruct (addCounterSnapshot uid p t h) as [[[u d] t1] h1] eqn:E1.
  apply (addCounterSnapshot_spec owner tag) in E1 as [T1 D1]; [|done..].
  destruct (snapshotPending uid ps t1 h1) as [[rem t2] h2] eqn:E2. injection H as <- <- <-.
  apply IH in E2 as (T2 & Hsub & Hd).
  - split; [by transitivity (t1, h1)|]. split; [destruct (0 <? _); set_solver|].
    intros q [->|Hq]%elem_of_cons.
    + assert (D2 : drained h2 p) by (apply (taken_drained owner tag (t1, h1) (t2, h2) p T2), D1, Hu).
      split; [done|]. destruct (0 <? active (load h1 p)) eqn:Ea; [left; set_solver|].
      right. apply drained_quiet; [done|]. apply Z.ltb_ge in Ea.
      pose proof (takeable_active _ _ _ Hk p). pose proof (taken_active _ _ _ _ T1 p). pose proof (taken_active _ _ _ _ T2 p). cbn in *. lia.
    + destruct (Hd q Hq) as [Dq [Hr|Hr]]; split; try done; [left|by right]. destruct (0 <? _); set_solver.
  - by eapply taken_takeable.
  - by apply (taken_wf _ _ _ _ T1).
  - done.
  - eapply Forall_impl; [exact Hps|]. intros q. apply (owned_taken (t, h) (t1, h1) uid q T1).
Qed.

(** What the loop over the pending counters leaves. *)
Lemma snapshotAllPending_spec entries : forall pending t h pending' t' h',
  takeable owner tag (t, h) -> wf_heap h -> NoDup (map fst entries) ->
  (forall uid ps, (uid, ps) ∈ entries -> 0 < uid /\ Forall (owned h uid) ps) ->
  snapshotAllPending entries pending t h = (pending', t', h') ->
  taken owner tag (t, h) (t', h') /\
  (forall uid, uid ∉ map fst entries -> pending' !! uid = pending !! uid) /\
  (forall uid ps, (uid, ps) ∈ entries ->
     default [] (pending' !! uid) ⊆ ps /\ (forall p, p ∈ ps -> drained h' p /\ (p ∈ default [] (pending' !! uid) \/ quiet h' p))).
Proof.
  induction entries as [|[uid ps] entries IH]; intros pending t h pending' t' h' Hk Hw Hnd Ho H; cbn in H.
  { injection H as <- <- <-. split; [reflexivity|]. split; [done|]. intros uid ps Hp. by apply not_elem_of_nil in Hp. }
  destruct (Ho uid ps ltac:(left)) as [Hu Hps].
  destruct (snapshotPending uid ps t h) as [[rem t1] h1] eqn:E1.
  apply snapshotPending_spec in E1 as (T1 & Hsub & Hd); [|done..].
  cbn [map fst] in Hnd. apply NoDup_cons in Hnd as [Hni Hnd].
  assert (Hk1 : takeable owner tag (t1, h1)) by (by eapply taken_takeable).
  eapply IH in H as (T2 & Hout & Hin); [|done|by apply (taken_wf _ _ _ _ T1)|done|].
  2: { intros uid' ps' He. destruct (Ho uid' ps' ltac:(by right)) as [Hu' Hps']. split; [done|].
       eapply Forall_impl; [exact Hps'|]. intros q. apply (owned_taken (t, h) (t1, h1) uid' q T1). }
  split; [by transitivity (t1, h1)|]. cbn [map fst]. split.
  - intros uid' [Hne Hni']%not_elem_of_cons. rewrite Hout by done.
    destruct (nonempty rem); [by rewrite lookup_insert_ne by congruence|by rewrite lookup_delete_ne by congruence].
  - intros uid' ps' [[= -> ->]|He]%elem_of_cons; [|by apply Hin].
    assert (Hr : default [] (pending' !! uid) = rem).
    { rewrite Hout by done. destruct rem; cbn; [by rewrite lookup_delete_eq|by rewrite lookup_insert_eq]. }
    rewrite Hr. split; [done|]. intros p Hp. destruct (Hd p Hp) as [Dp Hq].
    assert (Dp' := taken_drained owner tag (t1, h1) (t', h') p T2 Dp). cbn in Dp'. split; [done|].
    destruct Hq as [Hq|Hq]; [by left|right]. apply drained_quiet; [done|].
    pose proof (taken_active _ _ _ _ T2 p) as Ha. cbn in Ha. by rewrite Ha, Hq.
Qed.

Lemma snapshotUsers_spec n onlineMin entries : forall t alive online previous h t' alive' online' previous' h',
  takeable owner tag (t, h) -> wf_heap h ->
  (forall user p, (user, p) ∈ entries -> exists uid, users n !! user = Some uid /\ owned h uid p) ->
  snapshotUsers n onlineMin entries t alive online previous h = (t', alive', online', previous', h') ->
  taken owner tag (t, h) (t', h') /\ (forall user p, (user, p) ∈ entries -> 0 < snd (owner p) -> drained h' p).
Proof.
  induction entries as [|[user p] entries IH]; intros t alive online previous h t' alive' online' previous' h' Hk Hw Ho H; cbn in H.
  { injection H as <- _ _ _ <-. split; [reflexivity|]. intros user p Hp. by apply not_elem_of_nil in Hp. }
  destruct (Ho user p ltac:(left)) as (uid & Eu & Hp). rewrite Eu in H.
  destruct (addCounterSnapshot uid p t h) as [[[u d] t1] h1] eqn:E1.
  apply (addCounterSnapshot_spec owner tag) in E1 as [T1 D1]; [|try done; apply Hp..].
  apply IH in H as [T2 Hd].
  - split; [by transitivity (t1, h1)|]. intros user' p' [[= -> ->]|He]%elem_of_cons Hpos; [|by eapply Hd].
    apply (taken_drained owner tag (t1, h1) (t', h') p T2), D1. destruct Hp as [Hp _]. by rewrite Hp in Hpos.
  - by eapply taken_takeable.
  - by apply (taken_wf _ _ _ _ T1).
  - intros user' p' He. destruct (Ho user' p' ltac:(by right)) as (uid' & ? & ?). exists uid'. split; [done|].
    by apply (owned_taken (t, h) (t1, h1) uid' p' T1).
Qed.

(** What a list of entries says of a user. *)
Definition entryAmount (b : bool) (e : UserTraffic) : Z := if b then Upload e else Download e.
Definition listed (uid : Z) (b : bool) (l : list UserTraffic) : Z :=
  foldr (fun e z => (if UID e =? uid then entryAmount b e else 0) + z) 0 l.

Lemma sum_keyed {A} (f : A -> Z) (k : Z) (l : list (Z * A)) (z : option A) : NoDup (map fst l) ->
  (forall x, z = Some x <-> (k, x) ∈ l) ->
  foldr (fun e s => (if fst e =? k then f (snd e) else 0) + s) 0 l = match z with Some x => f x | None => 0 end.
Proof.
  revert z. induction l as [|[k' x] l IH]; intros z Hnd Hz; cbn [foldr fst snd].
  { destruct z as [x|]; [|done]. pose proof (proj1 (Hz x) eq_refl) as H. by apply not_elem_of_nil in H. }
  cbn in Hnd. apply NoDup_cons in Hnd as [Hni Hnd]. destruct (Z.eqb_spec k' k) as [->|Hne].
  - rewrite (IH None), (proj2 (Hz x) ltac:(left)); [lia|done|].
    intros y. split; [done|]. intros Hy. destruct Hni. apply list_elem_of_fmap. by exists (k, y).
  - rewrite (IH z); [lia|done|]. intros y. rewrite Hz, elem_of_cons. split; [|by right]. by intros [[= -> ->]|].
Qed.

Lemma range_int_NoDup {A} (m : gmap Z A) : NoDup (map fst (range_int m)).
Proof. rewrite range_int_perm. apply NoDup_fst_map_to_list. Qed.

Lemma elem_of_range_int {A} (m : gmap Z A) k x : (k, x) ∈ range_int m <-> m !! k = Some x.
Proof. rewrite range_int_perm. apply elem_of_map_to_list. Qed.

Lemma elem_of_range_string {A} (m : gmap string A) k x : (k, x) ∈ range_string m <-> m !! k = Some x.
Proof. rewrite range_string_perm. apply elem_of_map_to_list. Qed.

(** Nothing is withheld when the threshold is at most one byte. *)
Lemma trafficOf_listed trafficMin t uid b : trafficMin <= 1 ->
  (forall uid b, 0 <= tot t uid b) -> (forall uid, tot t uid true + tot t uid false < 2 ^ 63) ->
  listed uid b (trafficOf trafficMin t) = tot t uid b.
Proof.
  intros Hm Ht Hb. unfold trafficOf.
  transitivity (foldr (fun e s => (if fst e =? uid then (if b then fst (snd e) else snd (snd e)) else 0) + s) 0 (range_int t)).
  - assert (Hall : forall e, e ∈ range_int t -> t !! fst e = Some (snd e)) by (intros [] He; by apply elem_of_range_int).
    induction (range_int t) as [|[uid' [u d]] l IH]; [done|]. cbn [List.filter].
    assert (IH' := IH ltac:(intros; apply Hall; by right)). clear IH.
    destruct (reportable trafficMin _) eqn:E; cbn [map listed foldr fst snd UID entryAmount].
    + unfold listed in IH'. rewrite IH'. by destruct b.
    + rewrite IH'. enough (u = 0 /\ d = 0) as [-> ->] by (destruct (uid' =? uid), b; lia).
      assert (Hl : t !! uid' = Some (u, d)) by (apply (Hall (uid', (u, d))); left).
      pose proof (Ht uid' true). pose proof (Ht uid' false). pose proof (Hb uid'). unfold tot in *. rewrite Hl in *. cbn in *.
      unfold reportable in E. cbn [fst snd] in E. rewrite int64_id in E by lia.
      apply andb_false_iff in E as [E%Z.leb_gt|E%Z.ltb_ge]; lia.
  - rewrite (sum_keyed (fun x => if b then fst x else snd x) uid (range_int t) (t !! uid)).
    + unfold tot. destruct (t !! uid) as [[u d]|]; cbn; by destruct b.
    + apply range_int_NoDup.
    + intros x. by rewrite elem_of_range_int.
Qed.

(** Entries of a report: of known users, and not negative. *)
Definition entry_ok (e : UserTraffic) : Prop := 0 < UID e /\ forall b, 0 <= entryAmount b e.

Lemma trafficOf_ok trafficMin t : (forall uid b, 0 <= tot t uid b) -> (forall uid, is_Some (t !! uid) -> 0 < uid) ->
  Forall entry_ok (trafficOf trafficMin t).
Proof.
  intros Ht Hd. apply Forall_forall. intros e He. unfold trafficOf in He.
  apply list_elem_of_In, in_map_iff in He as ([uid [u d]] & <- & He). apply filter_In in He as [He _].
  apply list_elem_of_In, elem_of_range_int in He. split; [apply (Hd uid); rewrite He; eauto|].
  intros b. pose proof (Ht uid b) as H. unfold tot in H. rewrite He in H. cbn in H. by destruct b.
Qed.

(** A node whose counters belong to its users. *)
Record node_ok (h : Heap) (n : nodeTraffic) : Prop := {
  node_counters : forall key p, counters n !! key = Some p -> exists uid, users n !! key = Some uid /\ owned h uid p;
  node_pending : forall uid ps, pending n !! uid = Some ps -> 0 < uid /\ Forall (owned h uid) ps;
}.

Definition reachable (n : nodeTraffic) (uid : Z) (p : nat) : Prop :=
  (exists key, counters n !! key = Some p) \/ p ∈ default [] (pending n !! uid).

(** The heap before a report, for the users of the node. *)
Record countable (h : Heap) : Prop := {
  countable_wf : wf_heap h;
  countable_nonneg : nonneg owner h;
  countable_active : forall p, 0 <= active (load h p);
  countable_bound : forall id, 0 < snd id -> held owner h id true + held owner h id false < 2 ^ 63;
}.

Lemma held_bound h id b : countable h -> 0 < snd id -> 0 <= held owner h id b < 2 ^ 63.
Proof.
  intros [_ Hn _ Hb] Hid. pose proof (Hb id Hid).
  pose proof (held_nonneg owner h id true Hn Hid). pose proof (held_nonneg owner h id false Hn Hid). destruct b; lia.
Qed.

Lemma countable_takeable h : countable h -> takeable owner tag (∅, h).
Proof.
  intros Hc. split; cbn [fst snd]; [apply Hc|..|apply Hc|].
  - intros uid b. unfold tot. rewrite lookup_empty. by destruct b.
  - intros uid b Hu. unfold tot. rewrite lookup_empty. pose proof (held_bound h (tag, uid) b Hc Hu). destruct b; cbn; lia.
Qed.

Lemma taken_dom_pos h t' h' uid : taken owner tag (∅, h) (t', h') -> is_Some (t' !! uid) -> 0 < uid.
Proof. intros T [[x Hx]|]%(taken_dom _ _ _ _ T); [cbn in Hx; by rewrite lookup_empty in Hx|done]. Qed.

Lemma taken_total_bound h t' h' uid : countable h -> taken owner tag (∅, h) (t', h') -> tot t' uid true + tot t' uid false < 2 ^ 63.
Proof.
  intros Hc T. assert (Hk : takeable owner tag (t', h')) by (by eapply taken_takeable; [|apply countable_takeable]).
  destruct (t' !! uid) as [x|] eqn:E; [|unfold tot; rewrite E; cbn; lia].
  assert (Hdom : 0 < uid) by (eapply taken_dom_pos; eauto).
  pose proof (countable_bound h Hc (tag, uid) Hdom).
  pose proof (fun b => taken_sum _ _ _ _ T uid b) as Hs. pose proof (Hs true) as S1. pose proof (Hs false) as S2. cbn [fst snd] in S1, S2.
  pose proof (held_nonneg owner h' (tag, uid) true (takeable_nonneg _ _ _ Hk) Hdom).
  pose proof (held_nonneg owner h' (tag, uid) false (takeable_nonneg _ _ _ Hk) Hdom).
  unfold tot at 2 in S1. unfold tot at 2 in S2. rewrite lookup_empty in S1, S2. cbn in S1, S2. lia.
Qed.

(** What a report does to a node. *)
Record snapped (n n' : nodeTraffic) (h h' : Heap) (traffic : list UserTraffic) : Prop := {
  snapped_next : next h' = next h;
  snapped_wf : wf_heap h';
  snapped_active : forall p, active (load h' p) = active (load h p);
  snapped_amount : forall p b, amount b (load h' p) = amount b (load h p) \/ amount b (load h' p) = 0;
  snapped_sum : forall uid b, 0 < uid -> listed uid b traffic + held owner h' (tag, uid) b = held owner h (tag, uid) b;
  snapped_other : forall id b, fst id <> tag -> held owner h' id b = held owner h id b;
  snapped_entries : Forall entry_ok traffic;
  snapped_ok : node_ok h' n';
  snapped_keep : forall uid p, owner p = (tag, uid) -> 0 < uid -> reachable n uid p -> drained h' p /\ (reachable n' uid p \/ quiet h' p);
}.

Lemma snapshot_spec trafficMin onlineMin n h traffic alive n' h' :
  trafficMin <= 1 -> countable h -> node_ok h n -> snapshot trafficMin onlineMin n h = (traffic, alive, n', h') ->
  snapped n n' h h' traffic.
Proof.
  intros Hm Hc [Hcs Hps] H. unfold snapshot in H.
  destruct (snapshotAllPending _ _ _ _) as [[pending1 t1] h1] eqn:E1.
  destruct (snapshotUsers _ _ _ _ _ _ _ _) as [[[[t2 alive2] online2] previous2] h2] eqn:E2. injection H as <- <- <- <-.
  apply snapshotAllPending_spec in E1 as (T1 & Hout & Hin); [|by apply countable_takeable|apply Hc|apply range_int_NoDup|].
  2: { intros uid ps He%elem_of_range_int. by apply Hps. }
  apply snapshotUsers_spec in E2 as [T2 Hd].
  2: { by eapply taken_takeable; [|apply countable_takeable]. }
  2: { apply (taken_wf _ _ _ _ T1), Hc. }
  2: { intros user p He%elem_of_range_string. destruct (Hcs user p He) as (uid & ? & Ho). exists uid. split; [done|].
       by apply (owned_taken (∅, h) (t1, h1) uid p T1). }
  assert (T : taken owner tag (∅, h) (t2, h2)) by (by transitivity (t1, h1)).
  assert (Hk : takeable owner tag (t2, h2)) by (by eapply taken_takeable; [|apply countable_takeable]).
  assert (Hpend : forall uid ps, pending1 !! uid = Some ps -> exists ps0, pending n !! uid = Some ps0 /\ ps ⊆ ps0).
  { intros uid ps Hl. destruct (pending n !! uid) as [ps0|] eqn:E0.
    - exists ps0. split; [done|]. destruct (Hin uid ps0) as [Hsub _]; [by apply elem_of_range_int|]. by rewrite Hl in Hsub.
    - rewrite Hout, E0 in Hl; [done|]. intros Hi%list_elem_of_fmap. destruct Hi as ([u x] & -> & Hi%elem_of_range_int). cbn in E0. congruence. }
  split; cbn [users counters pending].
  - apply (taken_next _ _ _ _ T).
  - apply (taken_wf _ _ _ _ T), Hc.
  - apply (taken_active _ _ _ _ T).
  - apply (taken_amount _ _ _ _ T).
  - intros uid b Hu. rewrite trafficOf_listed; [|done|apply Hk|].
    + pose proof (taken_sum _ _ _ _ T uid b) as Hs. cbn [fst snd] in Hs. rewrite Hs. unfold tot. rewrite lookup_empty. cbn. by destruct b.
    + intros uid'. by apply (taken_total_bound h t2 h2 uid').
  - apply (taken_other _ _ _ _ T).
  - apply trafficOf_ok; [apply Hk|]. intros uid. by eapply taken_dom_pos.
  - split; cbn [users counters pending].
    + intros key p Hl. destruct (Hcs key p Hl) as (uid & ? & Ho). exists uid. split; [done|]. by apply (owned_taken (∅, h) (t2, h2) uid p T).
    + intros uid ps (ps0 & Hl & Hsub)%Hpend. destruct (Hps uid ps0 Hl) as [Hu Hall]. split; [done|].
      apply Forall_forall. intros p Hp. apply (owned_taken (∅, h) (t2, h2) uid p T). cbn. by apply (proj1 (Forall_forall _ _) Hall p), Hsub.
  - intros uid p Ho Hu [[key Hl]|Hp].
    + split; [eapply (Hd key); [by apply elem_of_range_string|by rewrite Ho]|]. left. left. by exists key.
    + destruct (pending n !! uid) as [ps0|] eqn:E0; [|by apply not_elem_of_nil in Hp]. cbn in Hp.
      destruct (Hin uid ps0) as [_ Hq]; [by apply elem_of_range_int|]. destruct (Hq p Hp) as [Dp Hr].
      assert (Dp' : drained h2 p) by apply (taken_drained owner tag (t1, h1) (t2, h2) p T2 Dp). split; [done|].
      destruct Hr as [Hr|Hr]; [left; by right|right]. apply drained_quiet; [done|].
      pose proof (taken_active _ _ _ _ T2 p) as Ha. cbn in Ha. by rewrite Ha, Hr.
Qed.
End Report.

(** ** A new user list *)

(** New counters get an owner, old ones keep theirs. *)
Definition extends (h : Heap) (owner owner' : Owner) : Prop := forall p, (p < next h)%nat -> owner' p = owner p.

Definition own (owner : Owner) (p : nat) (id : string * Z) : Owner := fun q => if decide (q = p) then id else owner q.

Section Update.
Context `{GE : GoEnv} `{GR : GoRange} `{GRL : !GoRangeLaws}.
Context (tag : string).

Lemma own_extends h owner id : extends h owner (own owner (next h) id).
Proof. intros p Hp. unfold own. case_decide; [lia|done]. Qed.

Lemma owned_extends h h' owner owner' uid p : extends h owner owner' -> (next h <= next h')%nat ->
  owned owner tag h uid p -> owned owner' tag h' uid p.
Proof. intros He Hn [Ho Hp]. split; [by rewrite He|lia]. Qed.

Lemma owned_all_extends h h' owner owner' uid ps : extends h owner owner' -> (next h <= next h')%nat ->
  Forall (owned owner tag h uid) ps -> Forall (owned owner' tag h' uid) ps.
Proof. intros He Hn Hps. eapply Forall_impl; [exact Hps|]. intros p. by apply owned_extends. Qed.

Lemma appendPending_in uid p uid' q values : q ∈ default [] (appendPendingCounter uid p values !! uid') <->
  q ∈ default [] (values !! uid') \/ (q = p /\ uid' = uid /\ 0 < uid).
Proof.
  unfold appendPendingCounter. destruct (Z.leb_spec uid 0) as [Hu|Hu]; [split; [by left|intros [|(_ & _ & ?)]; [done|lia]]|].
  destruct (decide (uid' = uid)) as [->|Hne].
  - rewrite lookup_insert_eq. cbn. set_solver.
  - rewrite lookup_insert_ne by done. naive_solver.
Qed.

(** The lists of pending counters belong to the users they are kept for. *)
Definition pending_ok (owner : Owner) (h : Heap) (values : gmap Z (list nat)) : Prop :=
  forall uid ps, values !! uid = Some ps -> 0 < uid /\ Forall (owned owner tag h uid) ps.

Lemma appendPending_ok owner h uid p values : owned owner tag h uid p -> pending_ok owner h values ->
  pending_ok owner h (appendPendingCounter uid p values).
Proof.
  intros Hp Hv uid' ps. unfold appendPendingCounter. destruct (Z.leb_spec uid 0) as [Hu|Hu]; [apply Hv|].
  destruct (decide (uid' = uid)) as [->|Hne]; [|rewrite lookup_insert_ne by done; apply Hv].
  rewrite lookup_insert_eq. intros [= <-]. split; [done|]. apply Forall_app. split; [|by apply Forall_singleton].
  destruct (values !! uid) as [ps|] eqn:E; [by apply Hv|by constructor].
Qed.

Lemma pending_ok_extends h h' owner owner' values : extends h owner owner' -> (next h <= next h')%nat ->
  pending_ok owner h values -> pending_ok owner' h' values.
Proof. intros He Hn Hv uid ps Hl. destruct (Hv uid ps Hl). split; [done|]. by eapply owned_all_extends. Qed.

Lemma clonePending_in uid p values : p ∈ default [] (clonePendingCounters values !! uid) <-> p ∈ default [] (values !! uid).
Proof.
  unfold clonePendingCounters. rewrite map_lookup_filter. destruct (values !! uid) as [ps|]; cbn; [|done].
  destruct (decide (ps = [])) as [->|Hn]; [by case_guard|]. by case_guard.
Qed.

Lemma clonePending_ok owner h values : pending_ok owner h values -> pending_ok owner h (clonePendingCounters values).
Proof. intros Hv uid ps [Hl _]%map_lookup_filter_Some. by apply Hv. Qed.

(** While the new maps are built: [carried n h0 owner0] to [m], [h] and [owner]. *)
Record carried (n : nodeTraffic) (h0 : Heap) (owner0 : Owner) (m : nextMaps) (h : Heap) (owner : Owner) : Prop := {
  carried_extends : extends h0 owner0 owner;
  carried_grows : grows h0 h;
  carried_counters : forall key p, nextCounters m !! key = Some p -> exists uid, nextUsers m !! key = Some uid /\ owned owner tag h uid p;
  carried_pending_ok : pending_ok owner h (nextPending m);
  carried_pending : forall uid p, p ∈ default [] (pending n !! uid) -> p ∈ default [] (nextPending m !! uid);
  carried_reach : forall key p uid, counters n !! key = Some p -> users n !! key = Some uid -> 0 < uid ->
    p ∈ default [] (nextPending m !! uid) \/ nextCounters m !! key = None \/ nextCounters m !! key = Some p;
}.

Lemma extends_trans h1 h2 o1 o2 o3 : (next h1 <= next h2)%nat -> extends h1 o1 o2 -> extends h2 o2 o3 -> extends h1 o1 o3.
Proof. intros Hn H1 H2 p Hp. rewrite H2 by lia. by apply H1. Qed.

Lemma updatedUserLimit_grows n key user h : wf_heap h -> grows h (snd (updatedUserLimit n key user h)).
Proof.
  intros Hw. unfold updatedUserLimit. destruct (u_SpeedLimit user <=? 0); [by apply grows_refl|].
  destruct (limits n !! key) as [[speed dev [existing|]]|]; [destruct (speed =? _)|..]; cbn; try by apply grows_refl.
  all: destruct (newRateLimiter _ _) eqn:E; cbn; pose proof (newRateLimiter_grows (u_SpeedLimit user) h Hw) as H; by rewrite E in H.
Qed.

(** The counter of a user of the new list. *)
Lemma carryCounter_spec n key uid pend owner h counter pend' h' :
  wf_heap h -> pending_ok owner h pend ->
  (forall key p, counters n !! key = Some p -> exists uid, users n !! key = Some uid /\ owned owner tag h uid p) ->
  carryCounter n key uid pend h = (counter, pend', h') ->
  exists owner', extends h owner owner' /\ grows h h' /\ owned owner' tag h' uid counter /\ pending_ok owner' h' pend' /\
    (forall uid p, p ∈ default [] (pend !! uid) -> p ∈ default [] (pend' !! uid)) /\
    (forall p uid, counters n !! key = Some p -> users n !! key = Some uid -> 0 < uid -> counter = p \/ p ∈ default [] (pend' !! uid)).
Proof.
  intros Hw Hp Hc. unfold carryCounter.
  assert (Hnew : owned (own owner (next h) (tag, uid)) tag (snd (newCounter h)) uid (next h)).
  { split; [unfold own; by rewrite decide_True|cbn; lia]. }
  pose proof (own_extends h owner (tag, uid)) as He. pose proof (newCounter_grows h Hw) as Hg.
  destruct (counters n !! key) as [existing|] eqn:E.
  - destruct (Hc key existing E) as (uid0 & Eu & Ho). rewrite Eu. cbn [default from_option id]. unfold id; destruct (Z.eqb_spec uid0 uid) as [->|Hne].
    + intros [= <- <- <-]. exists owner. split_and!; [by intros ?|by apply grows_refl|done..|]. intros p uid1 [= <-] _ _. by left.
    + intros [= <- <- <-]. exists (own owner (next h) (tag, uid)). split_and!; [done..| | |].
      * apply appendPending_ok; [|]. { eapply owned_extends; [done| |done]. cbn. lia. }
        eapply pending_ok_extends; [done| |done]. cbn. lia.
      * intros uid1 p Hin. apply appendPending_in. by left.
      * intros p uid1 [= <-] [= <-] Hpos. right. apply appendPending_in. by right.
  - intros [= <- <- <-]. exists (own owner (next h) (tag, uid)). split_and!; [done..| |done|done].
    eapply pending_ok_extends; [done| |done]. cbn. lia.
Qed.

Lemma updateUser_spec nodeType n user h0 owner0 m h owner m' h' :
  wf_heap h0 -> node_ok owner0 tag h0 n -> carried n h0 owner0 m h owner -> updateUser nodeType n user (m, h) = (m', h') ->
  exists owner', carried n h0 owner0 m' h' owner'.
Proof.
  intros Hw0 [Hn _] C H. unfold updateUser in H. destruct (String.eqb _ _); [injection H as <- <-; by exists owner|].
  set (key := userTrackerKey nodeType user) in *. destruct (carried_grows _ _ _ _ _ _ C) as (Hnx & Hl & Hw).
  destruct (carryCounter n key (u_ID user) (nextPending m) h) as [[counter pend] h1] eqn:E1.
  destruct (updatedUserLimit n key user h1) as [limit h2] eqn:E2. injection H as <- <-.
  apply (carryCounter_spec _ _ _ _ owner) in E1 as (owner' & He & Hg1 & Ho & Hp & Hkeep & Hreach); [|done|apply C|].
  2: { intros key' p Hc. destruct (Hn key' p Hc) as (uid & ? & Hown). exists uid. split; [done|]. eapply owned_extends; [apply C|done|done]. }
  assert (Hg2 : grows h1 h2) by (pose proof (updatedUserLimit_grows n key user h1 (proj2 (proj2 Hg1))) as G; by rewrite E2 in G).
  destruct Hg1 as (Hn1 & Hl1 & Hw1). destruct Hg2 as (Hn2 & Hl2 & Hw2).
  assert (Hext : extends h2 owner' owner') by (by intros ?).
  exists owner'. split; cbn [nextCounters nextUsers nextPending].
  - eapply extends_trans; [exact Hnx|apply C|done].
  - transitivity h; [apply C|]. unfold grows. split_and!; [lia| |done]. intros p. by rewrite Hl2, Hl1.
  - intros key' p Hc. destruct (decide (key' = key)) as [->|Hne].
    + rewrite lookup_insert_eq in Hc. rewrite lookup_insert_eq. injection Hc as <-. exists (u_ID user). split; [done|]. destruct Ho. split; [done|lia].
    + rewrite lookup_insert_ne in Hc by congruence. rewrite lookup_insert_ne by congruence. destruct (carried_counters _ _ _ _ _ _ C key' p Hc) as (uid & ? & Hown).
      exists uid. split; [done|]. eapply (owned_extends h); [done| |done]. lia.
  - intros uid ps Hps. destruct (Hp uid ps Hps) as [? Hall]. split; [done|]. eapply Forall_impl; [exact Hall|]. intros p [? ?]. split; [done|lia].
  - intros uid p Hin. apply Hkeep, C, Hin.
  - intros key' p uid Hc Hu Hpos. destruct (decide (key' = key)) as [->|Hne].
    + rewrite lookup_insert_eq. destruct (Hreach p uid Hc Hu Hpos) as [<-|Hin]; [by right; right|by left].
    + rewrite lookup_insert_ne by congruence. destruct (carried_reach _ _ _ _ _ _ C key' p uid Hc Hu Hpos) as [Hin|Hin]; [left; by apply Hkeep|by right].
Qed.

Lemma updateUser_fold nodeType n h0 owner0 list_ : wf_heap h0 -> node_ok owner0 tag h0 n -> forall m h owner m' h',
  carried n h0 owner0 m h owner -> fold_left (fun s user => updateUser nodeType n user s) list_ (m, h) = (m', h') ->
  exists owner', carried n h0 owner0 m' h' owner'.
Proof.
  intros Hw Hn. induction list_ as [|user list_ IH]; intros m h owner m' h' C H; cbn [fold_left] in H; [injection H as <- <-; by exists owner|].
  destruct (updateUser nodeType n user (m, h)) as [m1 h1] eqn:E. eapply updateUser_spec in E as [owner1 C1]; [|done..].
  by eapply IH.
Qed.

(** The retired counters. *)
Lemma retireCounters_spec n owner h carried_ pend : pending_ok owner h pend ->
  (forall key p, counters n !! key = Some p -> exists uid, users n !! key = Some uid /\ owned owner tag h uid p) ->
  let pend' := retireCounters n carried_ pend in
  pending_ok owner h pend' /\
  (forall uid p, p ∈ default [] (pend !! uid) -> p ∈ default [] (pend' !! uid)) /\
  (forall key p uid, counters n !! key = Some p -> users n !! key = Some uid -> 0 < uid -> carried_ !! key = None -> p ∈ default [] (pend' !! uid)).
Proof.
  intros Hp Hc. unfold retireCounters.
  assert (Hall : forall key p, (key, p) ∈ range_string (counters n) -> counters n !! key = Some p) by (intros key p; apply elem_of_range_string).
  assert (Hall' : forall key p, counters n !! key = Some p -> (key, p) ∈ range_string (counters n)) by (intros key p; apply elem_of_range_string).
  cut (forall l pend, pending_ok owner h pend -> (forall key p, (key, p) ∈ l -> counters n !! key = Some p) ->
    let pend' := fold_left (fun pending '(key, counter) =>
      match carried_ !! key with Some _ => pending | None => appendPendingCounter (default 0 (users n !! key)) counter pending end) l pend in
    pending_ok owner h pend' /\ (forall uid p, p ∈ default [] (pend !! uid) -> p ∈ default [] (pend' !! uid)) /\
    (forall key p uid, (key, p) ∈ l -> users n !! key = Some uid -> 0 < uid -> carried_ !! key = None -> p ∈ default [] (pend' !! uid))).
  { intros Hl. destruct (Hl (range_string (counters n)) pend Hp Hall) as (H1 & H2 & H3). split_and!; [done..|]. eauto. }
  clear Hall Hall' pend Hp. intros l. induction l as [|[key p] l IH]; intros pend Hp Hl; cbn [fold_left].
  { split_and!; [done..|]. intros key p uid Hin. by apply not_elem_of_nil in Hin. }
  destruct (Hc key p (Hl key p ltac:(left))) as (uid & Eu & Ho). rewrite Eu. cbn [default from_option id]. unfold id.
  set (pend1 := match carried_ !! key with Some _ => pend | None => appendPendingCounter uid p pend end).
  assert (Hp1 : pending_ok owner h pend1) by (unfold pend1; destruct (carried_ !! key); [done|by apply appendPending_ok]).
  assert (Hk1 : forall uid p, p ∈ default [] (pend !! uid) -> p ∈ default [] (pend1 !! uid)).
  { intros uid' p' Hin. unfold pend1. destruct (carried_ !! key); [done|]. apply appendPending_in. by left. }
  destruct (IH pend1 Hp1) as (H1 & H2 & H3); [intros; apply Hl; by right|]. split_and!; [done|auto|].
  intros key' p' uid' [[= -> ->]|Hin]%elem_of_cons Hu Hpos Hcar; [|by eauto].
  apply H2. unfold pend1. rewrite Hcar. apply appendPending_in. right. split_and!; [done|congruence|congruence].
Qed.

(** Every counter of a user that could be reached before an update can be
    reached after it. *)
Lemma updateUsers_spec nodeType nid list_ alive aliveAt aliveTTL rules n owner h n' h' :
  wf_heap h -> node_ok owner tag h n -> updateUsers nodeType nid list_ alive aliveAt aliveTTL rules n h = (n', h') ->
  exists owner', extends h owner owner' /\ grows h h' /\ node_ok owner' tag h' n' /\
    (forall uid p, owner p = (tag, uid) -> 0 < uid -> reachable n uid p -> reachable n' uid p).
Proof.
  intros Hw Hn H. unfold updateUsers in H.
  destruct (fold_left _ list_ _) as [m h1] eqn:E. injection H as <- <-. destruct Hn as [Hc Hp].
  eapply updateUser_fold in E as [owner' C]; [|done|by split|].
  2: { split; cbn; [by intros ?|by apply grows_refl|by intros ?|by apply clonePending_ok|by intros; apply clonePending_in|].
       intros key p uid _ _ _. right. by left. }
  destruct C as [He Hg Hcs Hpo Hpk Hr].
  destruct (retireCounters_spec n owner' h1 (nextCounters m) (nextPending m)) as (R1 & R2 & R3); [done| |].
  { intros key p Hk. destruct (Hc key p Hk) as (uid & ? & ?). exists uid. split; [done|]. eapply owned_extends; [done|apply Hg|done]. }
  exists owner'. split_and!; [done|done|by split|]. intros uid p Ho Hpos [[key Hk]|Hin].
  - destruct (Hc key p Hk) as (uid' & Eu & [Ho' _]). assert (uid' = uid) as -> by congruence.
    destruct (Hr key p uid Hk Eu Hpos) as [Hin|[Hnone|Hsome]]; [right; by apply R2|right; by eapply R3|left; by exists key].
  - right. cbn. by apply R2, Hpk.
Qed.
End Update.

(** ** Counting *)

Lemma count_held owner up down p h id b : (p < next h)%nat ->
  - 2 ^ 63 <= upload (load h p) + up < 2 ^ 63 -> - 2 ^ 63 <= download (load h p) + down < 2 ^ 63 ->
  held owner (count up down p h) id b = held owner h id b + (if decide (owner p = id) then if b then up else down else 0).
Proof.
  intros Hp Hu Hd. unfold count. rewrite held_store by done. case_decide; [|lia].
  rewrite !int64_id by lia. destruct b; cbn; lia.
Qed.

Lemma count_load up down p h q : q <> p -> load (count up down p h) q = load h q.
Proof. intros Hq. unfold count. by rewrite load_store, decide_False. Qed.

Lemma count_active up down p h q : active (load (count up down p h) q) = active (load h q).
Proof. unfold count. rewrite load_store. by case_decide; subst. Qed.

Lemma counted_nonneg owner up down p h : nonneg owner h -> 0 <= up -> 0 <= down ->
  (0 < snd (owner p) -> upload (load h p) + up < 2 ^ 63 /\ download (load h p) + down < 2 ^ 63) -> nonneg owner (count up down p h).
Proof.
  intros Hn Hu Hd Hb q b Hq. unfold count. rewrite load_store. case_decide as E; [subst q|by apply Hn].
  destruct (Hb Hq). pose proof (Hn p true Hq). pose proof (Hn p false Hq). cbn in *. rewrite !int64_id by lia. destruct b; cbn; lia.
Qed.

(** Both amounts of a counter are bounded by what its user holds. *)
Lemma amounts_bound owner h p : nonneg owner h -> 0 < snd (owner p) -> (p < next h)%nat ->
  0 <= upload (load h p) <= held owner h (owner p) true /\ 0 <= download (load h p) <= held owner h (owner p) false.
Proof.
  intros Hn Hpos Hp. pose proof (amount_le_held owner h p true Hn Hpos Hp). pose proof (amount_le_held owner h p false Hn Hpos Hp).
  pose proof (Hn p true Hpos). pose proof (Hn p false Hpos). cbn in *. lia.
Qed.

(** ** A report that failed *)

Section Restore.
Context `{GE : GoEnv} `{GR : GoRange} `{GRL : !GoRangeLaws}.
Context (tag : string).

Lemma counterForUID_spec uid n owner h c n' h' :
  wf_heap h -> node_ok owner tag h n -> 0 < uid -> counterForUID uid n h = (c, n', h') ->
  exists owner' p, c = Some p /\ extends h owner owner' /\ grows h h' /\ node_ok owner' tag h' n' /\ owned owner' tag h' uid p /\
    reachable n' uid p /\ (forall uid q, reachable n uid q -> reachable n' uid q).
Proof.
  intros Hw [Hc Hp] Hpos. unfold counterForUID. rewrite (proj2 (Z.leb_gt uid 0)) by done.
  destruct (omap _ (range_string (users n))) as [|p l] eqn:E.
  - destruct (default [] (pending n !! uid)) as [|p ps] eqn:Ep.
    + intros [= <- <- <-]. exists (own owner (next h) (tag, uid)), (next h).
      pose proof (own_extends h owner (tag, uid)) as He. pose proof (newCounter_grows h Hw) as Hg.
      assert (Ho : owned (own owner (next h) (tag, uid)) tag (snd (newCounter h)) uid (next h)).
      { split; [unfold own; by rewrite decide_True|cbn; lia]. }
      split; [done|]. split; [done|]. split; [done|]. split; [|split; [done|split]].
      * split; cbn [counters users pending set_pending].
        -- intros key q Hk. destruct (Hc key q Hk) as (u & ? & ?). exists u. split; [done|]. eapply owned_extends; [done| |done]. cbn. lia.
        -- apply appendPending_ok; [done|]. eapply pending_ok_extends; [done| |exact Hp]. cbn. lia.
      * right. cbn. apply appendPending_in. by right.
      * intros u q [?|?]; [by left|right]. cbn. apply appendPending_in. by left.
    + intros [= <- <- <-]. assert (Ho : owned owner tag h uid p).
      { destruct (pending n !! uid) as [ps'|] eqn:Ep'; [|done]. cbn in Ep. subst ps'. destruct (Hp uid _ Ep') as [_ Hall]. by inversion Hall. }
      exists owner, p. split; [done|]. split; [by intros ?|]. split; [by apply grows_refl|]. split; [done|]. split; [done|].
      split; [right; rewrite Ep; left|done].
  - intros [= <- <- <-]. assert (Hin : p ∈ p :: l) by left. rewrite <- E in Hin. apply list_elem_of_omap in Hin as ([user userID] & Hr & Hi).
    destruct (Z.eqb_spec userID uid) as [->|]; [|done]. apply elem_of_range_string in Hr. destruct (Hc user p Hi) as (u & Eu & Ho).
    assert (u = uid) as -> by congruence.
    exists owner, p. split; [done|]. split; [by intros ?|]. split; [by apply grows_refl|]. split; [done|]. split; [done|].
    split; [left; by exists user|done].
Qed.

(** What is restored goes back to counters of the node that the next report reads. *)
Record restored (traffic : list UserTraffic) (n : nodeTraffic) (owner : Owner) (h : Heap) (n' : nodeTraffic) (owner' : Owner) (h' : Heap) : Prop := {
  restored_extends : extends h owner owner';
  restored_next : (next h <= next h')%nat;
  restored_wf : wf_heap h';
  restored_nonneg : nonneg owner h -> nonneg owner' h';
  restored_active : forall p, active (load h' p) = active (load h p);
  restored_ok : node_ok owner' tag h' n';
  restored_reach : forall uid p, reachable n uid p -> reachable n' uid p;
  restored_where : forall p, load h' p = load h p \/ exists uid, owned owner' tag h' uid p /\ reachable n' uid p;
  restored_held : forall id b, 0 < snd id ->
    held owner' h' id b = held owner h id b + (if decide (fst id = tag) then listed (snd id) b traffic else 0);
}.

Lemma listed_nonneg uid b l : Forall entry_ok l -> 0 <= listed uid b l.
Proof. induction 1 as [|e l [_ He] _ IH]; cbn; [lia|]. unfold listed in IH. pose proof (He b). destruct (UID e =? uid); lia. Qed.

(** Owners of fresh counters do not matter. *)
Lemma nonneg_extends owner owner' h : wf_heap h -> extends h owner owner' -> nonneg owner h -> nonneg owner' h.
Proof.
  intros Hw He Hn p b Hp. destruct (decide (p < next h)%nat) as [Hlt|Hge]; [rewrite He in Hp by done; by apply Hn|].
  rewrite (load_beyond h p Hw) by lia. by destruct b.
Qed.

Lemma nonneg_grows owner h h' : grows h h' -> nonneg owner h -> nonneg owner h'.
Proof. intros (_ & Hl & _) Hn p b Hp. rewrite Hl. by apply Hn. Qed.

Lemma listed_app uid b l1 l2 : listed uid b (l1 ++ l2) = listed uid b l1 + listed uid b l2.
Proof. induction l1 as [|e l1 IH]; cbn; [done|]. unfold listed in IH. rewrite IH. unfold listed. lia. Qed.

Lemma restored_app l1 l2 n owner h n1 owner1 h1 n2 owner2 h2 :
  restored l1 n owner h n1 owner1 h1 -> restored l2 n1 owner1 h1 n2 owner2 h2 -> restored (l1 ++ l2) n owner h n2 owner2 h2.
Proof.
  intros [X1 N1 W1 NN1 A1 O1 R1 Wh1 H1] [X2 N2 W2 NN2 A2 O2 R2 Wh2 H2]. split; [|lia|done|auto| |done|auto| |].
  - by eapply extends_trans.
  - intros p. by rewrite A2, A1.
  - intros p. destruct (Wh2 p) as [->|]; [|by right]. destruct (Wh1 p) as [->|(uid & Ho & Hr)]; [by left|right].
    exists uid. split; [by eapply owned_extends|by apply R2].
  - intros id b Hid. rewrite H2, H1 by done. case_decide; [|lia]. rewrite listed_app. lia.
Qed.

(** One entry. *)
Lemma restored_entry e n owner h n' h' :
  entry_ok e -> wf_heap h -> nonneg owner h -> node_ok owner tag h n ->
  (forall b, held owner h (tag, UID e) b + entryAmount b e < 2 ^ 63) ->
  restoreTraffic [e] n h = (n', h') -> exists owner', restored [e] n owner h n' owner' h'.
Proof.
  intros [Hpos He] Hw Hn Ho Hb H. cbn [restoreTraffic] in H.
  destruct (counterForUID (UID e) n h) as [[c n1] h1] eqn:E1.
  apply (counterForUID_spec _ _ owner) in E1 as (owner1 & p & -> & X1 & G1 & O1 & P1 & R1 & K1); [|done..]. injection H as <- <-.
  assert (Hn1 : nonneg owner1 h1) by (eapply nonneg_grows, nonneg_extends; done).
  assert (Hheld1 : forall id b, held owner1 h1 id b = held owner h id b) by (intros; by apply held_grows).
  destruct (amounts_bound owner1 h1 p) as [A1 A2]; [done|by rewrite (proj1 P1)|apply P1|].
  rewrite (proj1 P1), !Hheld1 in A1, A2.
  pose proof (Hb true) as B1. pose proof (Hb false) as B2. pose proof (He true) as E1. pose proof (He false) as E2. cbn [entryAmount] in *.
  exists owner1. split; [done|apply G1| | | | |done| |].
  - apply wf_store; [apply G1|apply P1].
  - intros _. apply counted_nonneg; [done..|]. intros _. lia.
  - intros q. rewrite count_active. by rewrite (proj1 (proj2 G1)).
  - split; apply O1.
  - intros q. destruct (decide (q = p)) as [->|Hq]; [right; by exists (UID e)|left]. rewrite count_load by done. apply G1.
  - intros [tag' uid] b _. rewrite count_held, Hheld1, (proj1 P1) by (apply P1 || lia). cbn [listed foldr fst snd].
    destruct (Z.eqb_spec (UID e) uid) as [<-|Hne]; repeat case_decide; try congruence; destruct b; cbn [entryAmount]; lia.
Qed.

Lemma restoreTraffic_app l1 l2 n h : restoreTraffic (l1 ++ l2) n h = let '(n, h) := restoreTraffic l1 n h in restoreTraffic l2 n h.
Proof.
  revert n h. induction l1 as [|e l1 IH]; intros n h; [done|]. cbn [app restoreTraffic].
  destruct (counterForUID (UID e) n h) as [[c n1] h1]. apply IH.
Qed.

Lemma restoreTraffic_spec traffic : Forall entry_ok traffic -> forall n owner h n' h',
  wf_heap h -> nonneg owner h -> node_ok owner tag h n ->
  (forall uid b, 0 < uid -> held owner h (tag, uid) b + listed uid b traffic < 2 ^ 63) ->
  restoreTraffic traffic n h = (n', h') -> exists owner', restored traffic n owner h n' owner' h'.
Proof.
  induction 1 as [|e traffic He Hall IH]; intros n owner h n' h' Hw Hn Ho Hb H.
  { injection H as <- <-. exists owner. split; try done; [by left|]. intros id b _. cbn. case_decide; lia. }
  change (e :: traffic) with ([e] ++ traffic) in *. rewrite restoreTraffic_app in H.
  destruct (restoreTraffic [e] n h) as [n1 h1] eqn:E1. pose proof (listed_nonneg (UID e)) as Hl.
  apply (restored_entry _ _ owner) in E1 as [owner1 R1]; [|done..|].
  2: { intros b. pose proof (Hb (UID e) b (proj1 He)) as B. rewrite listed_app in B. cbn [listed foldr] in B. rewrite Z.eqb_refl in B.
       pose proof (Hl b traffic Hall). unfold listed in *. cbn [foldr] in *. lia. }
  apply (IH _ owner1) in H as [owner2 R2]; [|by apply R1|by apply R1|by apply R1|].
  - exists owner2. by eapply restored_app.
  - intros uid b Hu. rewrite (restored_held _ _ _ _ _ _ _ R1) by done. cbn [fst snd]. rewrite decide_True by done.
    pose proof (Hb uid b Hu) as B. rewrite listed_app in B. lia.
Qed.
End Restore.
