(* ===== verification/PanelAccounting.v ===== *)
(** * The accounting of traffic

    The tracker, the connections it tracks and the reports sent to the panel as
    one transition system.  [sent] is a ledger of what the connections of a
    user carried, [reported] of what the panel accepted, and [inflight] are the
    reports that were taken from the tracker and are neither accepted nor put
    back yet; [dropped] is what reports left out because of their threshold.  The
    invariant is that every byte is in one of these, or in the counters. *)
From Stdlib Require Import ZArith Lia Bool.
From stdpp Require Import relations.
From S2P Require Import Prelude GoIO DnsMsg Metadata RuleItem DemoEnv RuleEngine RuleTheorems SavedBinary PanelRules PanelUsers.
From S2P Require Import RouteMatch RouteOptions RouteRule RouteRouter PanelTracker PanelTrackerTheorems.

(** The user of a node: the tag of the node and the number of the user. *)
Abbreviation Id := (string * Z)%type.
Abbreviation Ledger := (Id -> bool -> Z).

Section System.
Context `{GE : GoEnv} `{GR : GoRange} `{GRL : !GoRangeLaws}.
Context (Unwrap : Socksaddr -> Socksaddr) (AddrString : Socksaddr -> string) (Addr_String : Addr -> string).

Record Accounts := mkAccounts {
  tracker : TrafficTracker;
  conns : list (nat * Id);                        (* open connections, with the user they were accepted for *)
  sent : Ledger;
  reported : Ledger;
  inflight : list (string * list UserTraffic);
  dropped : list (string * Z * list UserTraffic); (* per report, its threshold and the users it left out *)
}.

Definition start : Accounts := mkAccounts newTracker [] (fun _ _ => 0) (fun _ _ => 0) [] [].

Definition credit (l : Ledger) (id : Id) (up down : Z) : Ledger :=
  fun id' b => l id' b + (if decide (id' = id) then if b then up else down else 0).

Definition listedFor (tag : string) (traffic : list UserTraffic) (id : Id) (b : bool) : Z :=
  if decide (fst id = tag) then listed (snd id) b traffic else 0.

Definition creditAll (l : Ledger) (tag : string) (traffic : list UserTraffic) : Ledger := fun id b => l id b + listedFor tag traffic id b.

Definition flying (l : list (string * list UserTraffic)) (id : Id) (b : bool) : Z :=
  foldr (fun '(tag, traffic) z => listedFor tag traffic id b + z) 0 l.

(** The user a connection is accepted for. *)
Definition connUser (metadata : InboundContext) (t : TrafficTracker) : Id :=
  (Inbound metadata, default 0 (n ← nodes t !! Inbound metadata; users n !! User metadata)).

Definition opened (r : routed) (id : Id) (l : list (nat * Id)) : list (nat * Id) :=
  match r with Tracked counter _ => (counter, id) :: l | _ => l end.

(** What the reports left out for a user. *)
Definition withheld (l : list (string * Z * list UserTraffic)) (id : Id) (b : bool) : Z :=
  foldr (fun '(tag, _, traffic) z => listedFor tag traffic id b + z) 0 l.

(** The users of a report that its threshold keeps, and those it leaves out. *)
Definition aboveThreshold (trafficMin : Z) (l : list UserTraffic) : list UserTraffic :=
  List.filter (fun e => trafficMin <=? int64 (Upload e + Download e)) l.
Definition belowThreshold (trafficMin : Z) (l : list UserTraffic) : list UserTraffic :=
  List.filter (fun e => negb (trafficMin <=? int64 (Upload e + Download e))) l.

(** One event.  A report forgets the users below its threshold (see
    [snapshot_threshold_loses]); they are noted in [dropped].  Bytes of a user add
    up to less than 2^63, and connections are fewer than 2^31.  A new connection
    looks up its counter and is tracked in one step (see [late_track_loses]). *)
Inductive event : Accounts -> Accounts -> Prop :=
| EvRoute protocol metadata now r t s :
    routeTracked Unwrap AddrString Addr_String protocol metadata now (tracker s) = (r, t) -> Z.of_nat (length (conns s)) < 2 ^ 31 - 1 ->
    event s (mkAccounts t (opened r (connUser metadata (tracker s)) (conns s)) (sent s) (reported s) (inflight s) (dropped s))
| EvBytes counter id up down s :
    (counter, id) ∈ conns s -> 0 <= up -> 0 <= down -> sent s id true + sent s id false + up + down < 2 ^ 63 ->
    event s (mkAccounts (countConn up down counter (tracker s)) (conns s) (credit (sent s) id up down) (reported s) (inflight s) (dropped s))
| EvClose counter id l1 l2 s :
    conns s = l1 ++ (counter, id) :: l2 ->
    event s (mkAccounts (closeConn counter (tracker s)) (l1 ++ l2) (sent s) (reported s) (inflight s) (dropped s))
| EvUsers tag nodeType nodeID list_ alive aliveAt aliveTTL rules s :
    event s (mkAccounts (updateNode tag nodeType nodeID list_ alive aliveAt aliveTTL rules (tracker s)) (conns s) (sent s) (reported s) (inflight s) (dropped s))
| EvAliveList tag alive aliveAt aliveTTL s :
    event s (mkAccounts (updateAliveList tag alive aliveAt aliveTTL (tracker s)) (conns s) (sent s) (reported s) (inflight s) (dropped s))
| EvSnapshot tag trafficMin onlineMin traffic alive t s :
    Snapshot tag trafficMin onlineMin (tracker s) = (traffic, alive, t) ->
    event s (mkAccounts t (conns s) (sent s) (reported s) ((tag, traffic) :: inflight s)
      ((tag, trafficMin, belowThreshold trafficMin (fst (fst (Snapshot tag 0 onlineMin (tracker s))))) :: dropped s))
| EvAccepted tag traffic l1 l2 s :
    inflight s = l1 ++ (tag, traffic) :: l2 ->
    event s (mkAccounts (tracker s) (conns s) (sent s) (creditAll (reported s) tag traffic) (l1 ++ l2) (dropped s))
| EvRestored tag traffic l1 l2 s :
    inflight s = l1 ++ (tag, traffic) :: l2 ->
    event s (mkAccounts (RestoreTraffic tag traffic (tracker s)) (conns s) (sent s) (reported s) (l1 ++ l2) (dropped s))
| EvRestoreAlive tag alive s :
    event s (mkAccounts (RestoreAlive tag alive (tracker s)) (conns s) (sent s) (reported s) (inflight s) (dropped s)).

(** ** The invariant *)

Definition connections (p : nat) (l : list (nat * Id)) : Z := Z.of_nat (length (filter (fun c => fst c = p) l)).

Record invariant (owner : Owner) (s : Accounts) : Prop := {
  inv_wf : wf_heap (heap (tracker s));
  inv_nonneg : nonneg owner (heap (tracker s));
  inv_active : forall p, active (load (heap (tracker s)) p) = connections p (conns s);
  inv_conns : forall p id, (p, id) ∈ conns s -> owner p = id /\ (p < next (heap (tracker s)))%nat;
  inv_few : Z.of_nat (length (conns s)) < 2 ^ 31;
  inv_nodes : forall tag n, nodes (tracker s) !! tag = Some n -> node_ok owner tag (heap (tracker s)) n;
  inv_reach : forall tag uid p, (p < next (heap (tracker s)))%nat -> owner p = (tag, uid) -> 0 < uid ->
    quiet (heap (tracker s)) p \/ exists n, nodes (tracker s) !! tag = Some n /\ reachable n uid p;
  inv_sum : forall id b, 0 < snd id -> sent s id b = reported s id b + flying (inflight s) id b + withheld (dropped s) id b + held owner (heap (tracker s)) id b;
  inv_sent : forall id, 0 < snd id -> sent s id true + sent s id false < 2 ^ 63;
  inv_reported : forall id b, 0 <= reported s id b;
  inv_inflight : Forall (fun '(tag, traffic) => Forall entry_ok traffic /\ (traffic = [] \/ is_Some (nodes (tracker s) !! tag))) (inflight s);
  inv_dropped : Forall (fun '(_, trafficMin, traffic) => Forall (fun e => entry_ok e /\ 0 < Upload e + Download e < trafficMin) traffic) (dropped s);
}.

Lemma listedFor_nonneg tag traffic id b : Forall entry_ok traffic -> 0 <= listedFor tag traffic id b.
Proof. intros H. unfold listedFor. case_decide; [by apply listed_nonneg|lia]. Qed.

Lemma flying_nonneg l id b : Forall (fun '(_, traffic) => Forall entry_ok traffic) l -> 0 <= flying l id b.
Proof. induction 1 as [|[tag traffic] l H _ IH]; cbn; [lia|]. pose proof (listedFor_nonneg tag traffic id b H). unfold flying in IH. lia. Qed.

Lemma flying_cons tag traffic l id b : flying ((tag, traffic) :: l) id b = listedFor tag traffic id b + flying l id b.
Proof. done. Qed.

Lemma flying_app l1 l2 id b : flying (l1 ++ l2) id b = flying l1 id b + flying l2 id b.
Proof. induction l1 as [|[tag traffic] l1 IH]; cbn; [done|]. unfold flying in *. rewrite IH. lia. Qed.

Lemma inv_flying owner s id b : invariant owner s -> 0 <= flying (inflight s) id b.
Proof. intros I. apply flying_nonneg. eapply Forall_impl; [apply I|]. intros [tag traffic] [H _]. done. Qed.

Lemma withheld_nonneg l id b : Forall (fun '(_, m, traffic) => Forall (fun e => entry_ok e /\ 0 < Upload e + Download e < m) traffic) l ->
  0 <= withheld l id b.
Proof.
  induction 1 as [|[[tag m] traffic] l H _ IH]; cbn; [lia|]. unfold withheld in IH.
  assert (Forall entry_ok traffic) as Hok by (eapply Forall_impl; [exact H|]; by intros e []).
  pose proof (listedFor_nonneg tag traffic id b Hok). lia.
Qed.

Lemma inv_withheld owner s id b : invariant owner s -> 0 <= withheld (dropped s) id b.
Proof. intros I. apply withheld_nonneg, I. Qed.

Lemma inv_countable owner s : invariant owner s -> countable owner (heap (tracker s)).
Proof.
  intros I. split; [apply I..| |].
  - intros p. rewrite (inv_active _ _ I). unfold connections. lia.
  - intros id Hid. pose proof (inv_sent _ _ I id Hid). pose proof (inv_sum _ _ I id true Hid). pose proof (inv_sum _ _ I id false Hid).
    pose proof (inv_reported _ _ I id true). pose proof (inv_reported _ _ I id false).
    pose proof (inv_flying _ _ id true I). pose proof (inv_flying _ _ id false I).
    pose proof (inv_withheld _ _ id true I). pose proof (inv_withheld _ _ id false I). lia.
Qed.

(** What is in flight fits in the counters again. *)
Lemma inv_room owner s id b x : invariant owner s -> 0 < snd id -> x <= flying (inflight s) id b -> held owner (heap (tracker s)) id b + x < 2 ^ 63.
Proof.
  intros I Hid Hx. pose proof (inv_sent _ _ I id Hid). pose proof (inv_sum _ _ I id true Hid). pose proof (inv_sum _ _ I id false Hid).
  pose proof (inv_reported _ _ I id true). pose proof (inv_reported _ _ I id false).
  pose proof (inv_flying _ _ id true I). pose proof (inv_flying _ _ id false I).
    pose proof (inv_withheld _ _ id true I). pose proof (inv_withheld _ _ id false I).
  pose proof (held_nonneg owner (heap (tracker s)) id true (inv_nonneg _ _ I) Hid).
  pose proof (held_nonneg owner (heap (tracker s)) id false (inv_nonneg _ _ I) Hid). destruct b; lia.
Qed.

Lemma start_invariant : invariant (fun _ => (""%string, 0)) start.
Proof.
  split; cbn; try done.
  - intros p [x Hx]. cbn in Hx. by rewrite lookup_empty in Hx.
  - intros p id Hp. by apply not_elem_of_nil in Hp.
  - intros tag uid p Hp. lia.
Qed.

(** ** Steps that leave users and counters *)

Definition same_maps (n n' : nodeTraffic) : Prop := users n' = users n /\ counters n' = counters n /\ pending n' = pending n.

Definition same_nodes (t t' : TrafficTracker) : Prop :=
  heap t' = heap t /\ forall tag, option_Forall2 same_maps (nodes t !! tag) (nodes t' !! tag).

#[export] Instance same_maps_refl : Reflexive same_maps.
Proof. by intros n. Qed.

Lemma same_maps_ok owner tag h n n' : same_maps n n' -> node_ok owner tag h n -> node_ok owner tag h n'.
Proof. intros (Hu & Hc & Hp) [H1 H2]. split; [by rewrite Hc, Hu|by rewrite Hp]. Qed.

Lemma same_maps_reachable n n' uid p : same_maps n n' -> reachable n uid p -> reachable n' uid p.
Proof. intros (_ & Hc & Hp). unfold reachable. by rewrite Hc, Hp. Qed.

Lemma same_nodes_set tag n n' t : nodes t !! tag = Some n -> same_maps n n' -> same_nodes t (set_node tag (n', heap t) t).
Proof.
  intros Hn Hs. split; [done|]. intros tag'. cbn. destruct (decide (tag' = tag)) as [->|Hne].
  - rewrite lookup_insert_eq, Hn. by constructor.
  - rewrite lookup_insert_ne by done. destruct (nodes t !! tag'); by constructor.
Qed.

Lemma markOnline_same user ip now n ok n' : markOnline user ip now n = (ok, n') -> same_maps n n'.
Proof.
  unfold markOnline. destruct (_ || _); [by intros [= _ <-]|]. destruct (users n !! user); [|by intros [= _ <-]].
  destruct (exceedsDeviceLimit _ _ _ _ _); by intros [= _ <-].
Qed.

Lemma restoreAlive_same entries : forall n, same_maps n (restoreAlive entries n).
Proof.
  induction entries as [|[uid values] entries IH]; intros n; [done|]. cbn [restoreAlive].
  destruct (List.filter _ _) as [|[user ?] ?]; [apply IH|]. apply (IH (set_online _ n)).
Qed.

Lemma invariant_same_nodes owner s t : invariant owner s -> same_nodes (tracker s) t ->
  invariant owner (mkAccounts t (conns s) (sent s) (reported s) (inflight s) (dropped s)).
Proof.
  intros I [Hh Hn]. destruct I. split; cbn [tracker conns sent reported inflight dropped]; rewrite ?Hh; try done.
  - intros tag n' Hl. specialize (Hn tag). rewrite Hl in Hn. inversion Hn as [n ? Hs E|]; subst.
    eapply same_maps_ok; [done|]. by apply inv_nodes0.
  - intros tag uid p Hp Ho Hu. destruct (inv_reach0 tag uid p Hp Ho Hu) as [|(n & Hl & Hr)]; [by left|right].
    specialize (Hn tag). rewrite Hl in Hn. inversion Hn as [? n' Hs|]; subst. exists n'. split; [done|]. by eapply same_maps_reachable.
  - eapply Forall_impl; [done|]. intros [tag traffic] [? [->|[n Hl]]]; split; auto. right.
    specialize (Hn tag). rewrite Hl in Hn. inversion Hn; eauto.
Qed.

(** ** Steps on one counter *)

Lemma inv_conn_reachable owner s p id : invariant owner s -> (p, id) ∈ conns s -> 0 < snd id ->
  exists n, nodes (tracker s) !! fst id = Some n /\ reachable n (snd id) p.
Proof.
  intros I Hin Hid. destruct (inv_conns _ _ I p id Hin) as [Ho Hp]. destruct id as [tag uid].
  destruct (inv_reach _ _ I tag uid p Hp Ho Hid) as [Hq|]; [|done].
  pose proof (inv_active _ _ I p) as Ha. rewrite Hq in Ha. cbn in Ha. unfold connections in Ha.
  assert (Hf : (p, (tag, uid)) ∈ filter (fun c => fst c = p) (conns s)) by (by apply list_elem_of_filter).
  destruct (filter _ _); [by apply not_elem_of_nil in Hf|cbn in Ha; lia].
Qed.

Lemma invariant_store owner s p c conns' sent' :
  invariant owner s -> (p < next (heap (tracker s)))%nat ->
  (0 < snd (owner p) -> exists n, nodes (tracker s) !! fst (owner p) = Some n /\ reachable n (snd (owner p)) p) ->
  (forall b, 0 < snd (owner p) -> 0 <= amount b c) ->
  (forall q, active (if decide (q = p) then c else load (heap (tracker s)) q) = connections q conns') ->
  (forall q id, (q, id) ∈ conns' -> owner q = id /\ (q < next (heap (tracker s)))%nat) -> Z.of_nat (length conns') < 2 ^ 31 ->
  (forall id b, 0 < snd id -> sent' id b = sent s id b + (if decide (owner p = id) then amount b c - amount b (load (heap (tracker s)) p) else 0)) ->
  (forall id, 0 < snd id -> sent' id true + sent' id false < 2 ^ 63) ->
  invariant owner (mkAccounts (mkTracker (nodes (tracker s)) (store (heap (tracker s)) p c)) conns' sent' (reported s) (inflight s) (dropped s)).
Proof.
  intros I Hp Hr Hc Ha Ho Hf Hs Hb. split; cbn [tracker conns sent reported inflight dropped nodes heap]; try done; try apply I.
  - apply wf_store; [apply I|done].
  - intros q b Hq. rewrite load_store. case_decide; [subst; by apply Hc|by apply I].
  - intros q. rewrite load_store. apply Ha.
  - intros tag n Hl. destruct (inv_nodes _ _ I tag n Hl). by split.
  - intros tag uid q Hq Hoq Hu. unfold quiet. rewrite load_store. case_decide as E; [subst q|by apply (inv_reach _ _ I)].
    right. rewrite Hoq in Hr. by apply Hr.
  - intros id b Hid. rewrite held_store, Hs, (inv_sum _ _ I) by done. lia.
Qed.

Lemma connections_cons q p id l : connections q ((p, id) :: l) = (if decide (q = p) then 1 else 0) + connections q l.
Proof. unfold connections. rewrite filter_cons. cbn [fst]. repeat case_decide; subst; try congruence; cbn [length]; lia. Qed.

Lemma connections_middle q p id l1 l2 : connections q (l1 ++ (p, id) :: l2) = (if decide (q = p) then 1 else 0) + connections q (l1 ++ l2).
Proof. unfold connections. rewrite !filter_app, filter_cons. cbn [fst]. rewrite !length_app. repeat case_decide; subst; try congruence; cbn [length]; lia. Qed.

Lemma connections_bound q l : 0 <= connections q l <= Z.of_nat (length l).
Proof. unfold connections. pose proof (length_filter (fun c : nat * Id => fst c = q) l). lia. Qed.

(** A connection that is tracked counts for its user. *)
Lemma routeTracked_spec protocol metadata now t r t' :
  routeTracked Unwrap AddrString Addr_String protocol metadata now t = (r, t') ->
  match r with
  | Tracked counter _ => exists n t1, nodes t !! Inbound metadata = Some n /\ same_nodes t t1 /\ t' = trackConn counter t1 /\
      users n !! User metadata <> None /\ counters n !! User metadata = Some counter
  | _ => same_nodes t t'
  end.
Proof.
  assert (Hrefl : same_nodes t t) by (split; [done|]; intros tag; destruct (nodes t !! tag); by constructor).
  unfold routeTracked. destruct (match_ metadata t) as [[n counter]|] eqn:Em; [|by intros [= <- <-]].
  assert (Hm : nodes t !! Inbound metadata = Some n /\ counterOf n (User metadata) = Some counter).
  { unfold match_ in Em. destruct (_ || _); [done|]. destruct (nodes t !! Inbound metadata) as [n'|]; [|done].
    destruct (counterOf n' _) eqn:E; [|done]. by injection Em as -> ->. }
  destruct Hm as [Hn Hc]. unfold counterOf in Hc. destruct (users n !! User metadata) eqn:Eu; [|done].
  destruct (blocks _ _ _ _ _); [by intros [= <- <-]|].
  destruct (markOnline _ _ _ _) as [ok n'] eqn:Eo. pose proof (same_nodes_set _ _ _ _ Hn (markOnline_same _ _ _ _ _ _ Eo)) as Hs.
  destruct ok; cbn [negb]; intros [= <- <-]; [|done].
  exists n, (set_node (Inbound metadata) (n', heap t) t). rewrite Eu. by split_and!.
Qed.

Lemma route_invariant owner s protocol metadata now r t : invariant owner s -> Z.of_nat (length (conns s)) < 2 ^ 31 - 1 ->
  routeTracked Unwrap AddrString Addr_String protocol metadata now (tracker s) = (r, t) ->
  invariant owner (mkAccounts t (opened r (connUser metadata (tracker s)) (conns s)) (sent s) (reported s) (inflight s) (dropped s)).
Proof.
  intros I Hlen H%routeTracked_spec. destruct r as [| |p limit]; [by apply invariant_same_nodes..|].
  destruct H as (n & t1 & Hn & Hs & -> & Hu & Hc). pose proof (invariant_same_nodes owner s t1 I Hs) as I1.
  destruct (node_counters _ _ _ _ (inv_nodes _ _ I _ _ Hn) _ _ Hc) as (uid & Eu & Ho & Hp).
  assert (Hid : connUser metadata (tracker s) = (Inbound metadata, uid)) by (unfold connUser; rewrite Hn; cbn; by rewrite Eu).
  destruct Hs as [Hh Hs]. pose proof (connections_bound p (conns s)) as Hcb.
  pose proof (inv_active _ _ I1 p) as Ha. cbn [tracker conns] in Ha.
  apply (invariant_store owner (mkAccounts t1 (conns s) (sent s) (reported s) (inflight s) (dropped s)) p _ _ (sent s) I1); cbn [tracker conns sent opened].
  - by rewrite Hh.
  - rewrite Ho. cbn [fst snd]. intros _. specialize (Hs (Inbound metadata)). rewrite Hn in Hs. inversion Hs as [? n1 Hsm|]; subst.
    exists n1. split; [done|]. eapply same_maps_reachable; [done|]. left. eauto.
  - intros b Hpos. pose proof (inv_nonneg _ _ I1 p b Hpos) as Hnn. by destruct b.
  - intros q. rewrite Hid, connections_cons. pose proof (inv_active _ _ I1 q) as Hq. cbn [tracker conns] in Hq. case_decide; [subst q|lia].
    cbn [active]. rewrite Ha, int32_id by lia. lia.
  - intros q id [[= -> ->]|Hin]%elem_of_cons; [rewrite Hid, Hh; done|]. apply (inv_conns _ _ I1 q id Hin).
  - cbn. lia.
  - intros id b _. case_decide; [|lia]. destruct b; cbn [amount upload download]; lia.
  - apply I.
Qed.

Lemma bytes_invariant owner s p id up down : invariant owner s -> (p, id) ∈ conns s -> 0 <= up -> 0 <= down ->
  sent s id true + sent s id false + up + down < 2 ^ 63 ->
  invariant owner (mkAccounts (countConn up down p (tracker s)) (conns s) (credit (sent s) id up down) (reported s) (inflight s) (dropped s)).
Proof.
  intros I Hin Hu Hd Hb. destruct (inv_conns _ _ I p id Hin) as [Ho Hp].
  assert (Hbound : 0 < snd id -> 0 <= upload (load (heap (tracker s)) p) /\ upload (load (heap (tracker s)) p) + up < 2 ^ 63 /\
    0 <= download (load (heap (tracker s)) p) /\ download (load (heap (tracker s)) p) + down < 2 ^ 63).
  { intros Hid. destruct (amounts_bound owner (heap (tracker s)) p) as [A1 A2]; [apply I|by rewrite Ho|done|]. rewrite Ho in A1, A2.
    pose proof (inv_sum _ _ I id true Hid). pose proof (inv_sum _ _ I id false Hid).
    pose proof (inv_reported _ _ I id true). pose proof (inv_reported _ _ I id false).
    pose proof (inv_flying _ _ id true I). pose proof (inv_flying _ _ id false I).
    pose proof (inv_withheld _ _ id true I). pose proof (inv_withheld _ _ id false I). lia. }
  apply invariant_store; [done|done| | | |apply I|apply I| |].
  - rewrite Ho. intros Hid. by eapply inv_conn_reachable.
  - intros b Hid. rewrite Ho in Hid. destruct (Hbound Hid) as (? & ? & ? & ?). rewrite !int64_id by lia. destruct b; cbn; lia.
  - intros q. case_decide; [subst q; cbn|]; apply I.
  - intros id' b Hid. unfold credit. rewrite Ho. destruct (decide (id' = id)) as [->|Hne]; [|rewrite decide_False by congruence; lia].
    destruct (Hbound Hid) as (? & ? & ? & ?). rewrite decide_True, !int64_id by (done || lia). destruct b; cbn; lia.
  - intros id' Hid. unfold credit. pose proof (inv_sent _ _ I id' Hid). repeat case_decide; subst; lia.
Qed.

Lemma close_invariant owner s p id l1 l2 : invariant owner s -> conns s = l1 ++ (p, id) :: l2 ->
  invariant owner (mkAccounts (closeConn p (tracker s)) (l1 ++ l2) (sent s) (reported s) (inflight s) (dropped s)).
Proof.
  intros I E. assert (Hin : (p, id) ∈ conns s) by (rewrite E; set_solver). destruct (inv_conns _ _ I p id Hin) as [Ho Hp].
  pose proof (inv_active _ _ I p) as Ha. pose proof (inv_few _ _ I) as Hfew.
  rewrite E in Ha, Hfew. rewrite connections_middle, decide_True in Ha by done. pose proof (connections_bound p (l1 ++ l2)) as Hcb.
  rewrite !length_app in Hfew. cbn [length] in Hfew. rewrite length_app in Hcb.
  apply invariant_store; [done|done| | | | | | |apply I].
  - rewrite Ho. intros Hid. by eapply inv_conn_reachable.
  - intros b Hpos. pose proof (inv_nonneg _ _ I p b Hpos). by destruct b.
  - intros q. case_decide as Eq; [subst q|].
    + cbn [active]. rewrite Ha, int32_id by lia. lia.
    + rewrite (inv_active _ _ I), E, connections_middle, decide_False by done. lia.
  - intros q id' Hq. apply (inv_conns _ _ I). rewrite E. set_solver.
  - rewrite length_app. lia.
  - intros id' b _. case_decide; [|lia]. destruct b; cbn; lia.
Qed.

(** ** Steps on a node *)

Lemma node_ok_extends tag h h' owner owner' n : extends h owner owner' -> (next h <= next h')%nat -> node_ok owner tag h n -> node_ok owner' tag h' n.
Proof.
  intros He Hn [Hc Hp]. split.
  - intros key p Hk. destruct (Hc key p Hk) as (uid & ? & ?). exists uid. split; [done|]. by eapply owned_extends.
  - by eapply pending_ok_extends.
Qed.

(** A node is replaced and counters are allocated. *)
Lemma invariant_set_node owner owner' s tag n' h' :
  invariant owner s -> extends (heap (tracker s)) owner owner' -> (next (heap (tracker s)) <= next h')%nat -> wf_heap h' -> nonneg owner' h' ->
  (forall p, active (load h' p) = active (load (heap (tracker s)) p)) -> node_ok owner' tag h' n' ->
  (forall p, (next (heap (tracker s)) <= p)%nat -> quiet h' p \/ exists uid, owner' p = (tag, uid) /\ reachable n' uid p) ->
  (forall uid p, owner p = (tag, uid) -> 0 < uid -> (p < next (heap (tracker s)))%nat ->
    quiet (heap (tracker s)) p \/ (exists n, nodes (tracker s) !! tag = Some n /\ reachable n uid p) -> quiet h' p \/ reachable n' uid p) ->
  (forall tag' uid p, owner p = (tag', uid) -> tag' <> tag -> (p < next (heap (tracker s)))%nat -> quiet (heap (tracker s)) p -> quiet h' p) ->
  forall reported' inflight',
  (forall id b, 0 < snd id -> sent s id b = reported' id b + flying inflight' id b + withheld (dropped s) id b + held owner' h' id b) -> (forall id b, 0 <= reported' id b) ->
  Forall (fun '(tag', traffic) => Forall entry_ok traffic /\ (traffic = [] \/ tag' = tag \/ is_Some (nodes (tracker s) !! tag'))) inflight' ->
  invariant owner' (mkAccounts (set_node tag (n', h') (tracker s)) (conns s) (sent s) reported' inflight' (dropped s)).
Proof.
  intros I He Hn Hw Hnn Ha Hok Hnew Hreach Hother rep infl Hs Hr Hi.
  split; cbn [tracker conns sent reported inflight dropped set_node nodes heap fst snd]; try done.
  - intros p. rewrite Ha. apply I.
  - intros p id Hin. destruct (inv_conns _ _ I p id Hin) as [Ho Hp]. split; [by rewrite He|lia].
  - apply I.
  - intros tag' n Hl. destruct (decide (tag' = tag)) as [->|Hne]; [rewrite lookup_insert_eq in Hl; by injection Hl as <-|].
    rewrite lookup_insert_ne in Hl by done. eapply node_ok_extends; [done|done|]. by apply I.
  - intros tag' uid p Hp Ho Hu. destruct (decide (p < next (heap (tracker s)))%nat) as [Hlt|Hge].
    + rewrite He in Ho by done. pose proof (inv_reach _ _ I tag' uid p Hlt Ho Hu) as Hq. destruct (decide (tag' = tag)) as [->|Hne].
      * destruct (Hreach uid p Ho Hu Hlt Hq) as [|]; [by left|right]. exists n'. by rewrite lookup_insert_eq.
      * destruct Hq as [Hq|(n & Hl & Hq)]; [left; by eapply Hother|right]. exists n. by rewrite lookup_insert_ne.
    + destruct (Hnew p ltac:(lia)) as [|(uid' & Ho' & Hq)]; [by left|right]. rewrite Ho in Ho'. injection Ho' as -> ->.
      exists n'. by rewrite lookup_insert_eq.
  - apply I.
  - eapply Forall_impl; [exact Hi|]. intros [tag' traffic] [? [->|[->|Hsome]]]; (split; [done|]); [by left|right..].
    + rewrite lookup_insert_eq. eauto.
    + destruct (decide (tag' = tag)) as [->|Hne]; [rewrite lookup_insert_eq; eauto|by rewrite lookup_insert_ne].
  - apply I.
Qed.

Lemma inv_node_or_zero owner s tag : invariant owner s -> node_ok owner tag (heap (tracker s)) (default zeroNode (nodes (tracker s) !! tag)).
Proof.
  intros I. destruct (nodes (tracker s) !! tag) as [n|] eqn:E; cbn; [by apply I|].
  split; intros ? ?; cbn; rewrite lookup_empty; done.
Qed.

Lemma inv_inflight_set owner s (tag : string) : invariant owner s ->
  Forall (fun '(tag', traffic) => Forall entry_ok traffic /\ (traffic = [] \/ tag' = tag \/ is_Some (nodes (tracker s) !! tag'))) (inflight s).
Proof. intros I. eapply Forall_impl; [apply I|]. intros [tag' traffic] [? [|]]; auto. Qed.

Lemma users_invariant owner s tag nodeType nid list_ alive aliveAt aliveTTL rules : invariant owner s ->
  exists owner', invariant owner'
    (mkAccounts (updateNode tag nodeType nid list_ alive aliveAt aliveTTL rules (tracker s)) (conns s) (sent s) (reported s) (inflight s) (dropped s)).
Proof.
  intros I. unfold updateNode. set (n := default zeroNode (nodes (tracker s) !! tag)).
  destruct (updateUsers _ _ _ _ _ _ _ n _) as [n' h'] eqn:E.
  apply (updateUsers_spec tag _ _ _ _ _ _ _ _ owner) in E as (owner' & He & Hg & Hok & Hr); [|apply I|by apply inv_node_or_zero].
  exists owner'. destruct Hg as (Hn & Hl & Hw). apply (invariant_set_node owner); try done.
  - intros p b Hp. rewrite Hl. eapply nonneg_extends; [apply I|done|apply I|done].
  - intros p. by rewrite Hl.
  - intros p Hp. left. unfold quiet. rewrite Hl. by apply load_beyond; [apply I|].
  - intros uid p Ho Hu _ [Hq|(n0 & Hl0 & Hq)]; [left; unfold quiet; by rewrite Hl|right].
    apply Hr; [done..|]. unfold n. by rewrite Hl0.
  - intros tag' uid p _ _ _ Hq. unfold quiet. by rewrite Hl.
  - intros id b Hid. rewrite (held_grows owner owner' (heap (tracker s))); [by apply I|done|apply I|done].
  - apply I.
  - by eapply inv_inflight_set.
Qed.

Lemma full_snapshot_invariant owner s tag onlineMin traffic alive t : invariant owner s ->
  Snapshot tag 0 onlineMin (tracker s) = (traffic, alive, t) ->
  invariant owner (mkAccounts t (conns s) (sent s) (reported s) ((tag, traffic) :: inflight s) (dropped s)).
Proof.
  intros I. unfold Snapshot. destruct (nodes (tracker s) !! tag) as [n|] eqn:En.
  - destruct (snapshot _ _ n _) as [[[traffic' alive'] n'] h'] eqn:E. intros [= <- <- <-].
    apply (snapshot_spec owner tag) in E; [|done|by apply inv_countable|by apply I]. destruct E as [Hn Hw Ha Ham Hs Hot Hen Hok Hk].
    assert (Hquiet : forall p, quiet (heap (tracker s)) p -> quiet h' p).
    { intros p Hq. apply drained_quiet; [|rewrite Ha, Hq; done]. intros b. destruct (Ham p b) as [->|]; [rewrite Hq; by destruct b|done]. }
    apply (invariant_set_node owner); try done.
    + by rewrite Hn.
    + intros p b Hp. destruct (Ham p b) as [->| ->]; [by apply I|done].
    + intros p Hp. left. apply Hquiet, load_beyond; [apply I|done].
    + intros uid p Ho Hu _ [Hq|(n0 & Hl0 & Hq)]; [left; by apply Hquiet|]. rewrite En in Hl0. injection Hl0 as <-.
      destruct (Hk uid p Ho Hu Hq) as [_ [|]]; [by right|by left].
    + intros tag' uid p _ _ _. apply Hquiet.
    + intros [tag' uid] b Hid. rewrite (inv_sum _ _ I), flying_cons by done. unfold listedFor. cbn [fst snd] in *.
      case_decide as E; [subst tag'|rewrite Hot by done; lia]. rewrite <- (Hs uid b Hid). lia.
    + apply I.
    + constructor; [by auto|by eapply inv_inflight_set].
  - intros [= <- <- <-]. destruct I. split; cbn [tracker conns sent reported inflight dropped]; try done.
    + intros id b Hid. rewrite inv_sum0, flying_cons by done. unfold listedFor. case_decide; cbn [listed foldr]; lia.
    + constructor; [|done]. split; [done|by left].
Qed.

(** A threshold takes users out of the full report and changes nothing else. *)
Lemma Snapshot_threshold tag trafficMin onlineMin t :
  let '(full, alive, t') := Snapshot tag 0 onlineMin t in
  Snapshot tag trafficMin onlineMin t = (aboveThreshold trafficMin full, alive, t') /\ Forall (fun e => 0 < int64 (Upload e + Download e)) full.
Proof.
  assert (Hof : forall totals, trafficOf trafficMin totals = aboveThreshold trafficMin (trafficOf 0 totals)).
  { intros totals. unfold trafficOf, aboveThreshold. induction (range_int totals) as [|[uid [u d]] l IH]; [done|].
    unfold reportable in *. cbn [List.filter fst snd] in *.
    destruct (0 <? int64 (u + d)) eqn:E0; [|by rewrite !andb_false_r]. replace (0 <=? int64 (u + d)) with true by lia.
    cbn [andb map List.filter Upload Download]. rewrite andb_true_r. destruct (trafficMin <=? _); cbn [map]; by rewrite IH. }
  unfold Snapshot. destruct (nodes t !! tag) as [n|]; [|done]. unfold snapshot.
  destruct (snapshotAllPending _ _ _ _) as [[pending1 t1] h1]. destruct (snapshotUsers _ _ _ _ _ _ _ _) as [[[[t2 alive2] online2] previous2] h2].
  split; [by rewrite Hof|]. apply Forall_forall. intros e He. unfold trafficOf in He.
  apply list_elem_of_In, in_map_iff in He as ([uid [u d]] & <- & He). apply filter_In in He as [_ He].
  unfold reportable in He. cbn [fst snd Upload Download] in *. lia.
Qed.

Lemma threshold_listed trafficMin uid b l :
  listed uid b l = listed uid b (aboveThreshold trafficMin l) + listed uid b (belowThreshold trafficMin l).
Proof.
  unfold aboveThreshold, belowThreshold. induction l as [|e l IH]; [done|]. cbn [List.filter].
  destruct (trafficMin <=? _); cbn [negb]; unfold listed in *; cbn [foldr]; rewrite IH; lia.
Qed.

Lemma threshold_listedFor trafficMin tag id b l :
  listedFor tag l id b = listedFor tag (aboveThreshold trafficMin l) id b + listedFor tag (belowThreshold trafficMin l) id b.
Proof. unfold listedFor. case_decide; [apply threshold_listed|done]. Qed.

Lemma Forall_List_filter {A} (Q : A -> Prop) f l : Forall Q l -> Forall Q (List.filter f l).
Proof. induction 1; cbn; [done|]. destruct (f _); auto. Qed.

Lemma listed_entry uid b l e : Forall entry_ok l -> e ∈ l -> UID e = uid -> entryAmount b e <= listed uid b l.
Proof.
  intros Hl He Hu. induction Hl as [|e' l Hok Hl IH]; [by apply not_elem_of_nil in He|].
  pose proof (listed_nonneg uid b l Hl). destruct Hok as [_ Hok]. pose proof (Hok b). unfold listed in *. cbn [foldr].
  apply elem_of_cons in He as [->|He]; [rewrite Hu, Z.eqb_refl; lia|]. specialize (IH He). destruct (UID e' =? uid); lia.
Qed.

(** An entry of a report under way holds less than 2^63 bytes. *)
Lemma inflight_entry_bound owner s tag traffic l e : invariant owner s -> inflight s = (tag, traffic) :: l -> e ∈ traffic ->
  0 <= Upload e + Download e < 2 ^ 63.
Proof.
  intros I Ei He. pose proof (inv_inflight _ _ I) as Hi. rewrite Ei in Hi. apply Forall_cons in Hi as [[Hok _] Hl].
  assert (Hfl : forall id b, 0 <= flying l id b) by (intros; apply flying_nonneg; eapply Forall_impl; [exact Hl|]; by intros [] []).
  destruct (proj1 (Forall_forall _ _) Hok e He) as [Hu Hb]. set (id := (tag, UID e)).
  pose proof (fun b => listed_entry (UID e) b traffic e Hok He eq_refl) as Hle.
  assert (Hsum : forall b, entryAmount b e <= sent s id b).
  { intros b. rewrite (inv_sum _ _ I) by done. rewrite Ei, flying_cons. unfold listedFor. cbn [fst snd id]. rewrite decide_True by done.
    pose proof (inv_reported _ _ I id b). pose proof (Hfl id b). pose proof (inv_withheld _ _ id b I).
    pose proof (held_nonneg owner (heap (tracker s)) id b (inv_nonneg _ _ I) Hu). pose proof (Hle b). subst id. lia. }
  pose proof (Hsum true) as H1. pose proof (Hsum false) as H2. pose proof (Hb true) as H3. pose proof (Hb false) as H4.
  pose proof (inv_sent _ _ I id Hu). cbn [entryAmount] in *. lia.
Qed.

Lemma snapshot_invariant owner s tag trafficMin onlineMin traffic alive t : invariant owner s ->
  Snapshot tag trafficMin onlineMin (tracker s) = (traffic, alive, t) ->
  invariant owner (mkAccounts t (conns s) (sent s) (reported s) ((tag, traffic) :: inflight s)
    ((tag, trafficMin, belowThreshold trafficMin (fst (fst (Snapshot tag 0 onlineMin (tracker s))))) :: dropped s)).
Proof.
  intros I H. pose proof (Snapshot_threshold tag trafficMin onlineMin (tracker s)) as Ht.
  destruct (Snapshot tag 0 onlineMin (tracker s)) as [[full alive'] t'] eqn:E. cbn [fst]. destruct Ht as [Ht Hpos].
  rewrite Ht in H. injection H as <- <- <-. apply (full_snapshot_invariant owner) in E; [|done].
  pose proof (fun e => inflight_entry_bound _ _ tag full (inflight s) e E eq_refl) as Hb. destruct E.
  cbn [tracker conns sent reported inflight dropped] in *. split; cbn [tracker conns sent reported inflight dropped]; try done.
  - intros id b Hid. rewrite inv_sum0, !flying_cons, (threshold_listedFor trafficMin) by done. unfold withheld. cbn [foldr]. lia.
  - apply Forall_cons in inv_inflight0 as [[Hok Hn] Hl]. constructor; [|done]. split; [by apply Forall_List_filter|].
    destruct Hn as [->|?]; [by left|by right].
  - constructor; [|done]. apply Forall_forall. intros e He%list_elem_of_In. apply filter_In in He as [He Hm].
    apply list_elem_of_In in He. apply Forall_cons in inv_inflight0 as [[Hok _] _].
    pose proof (proj1 (Forall_forall _ _) Hpos e He) as Hp. specialize (Hb e He). cbn beta in Hp.
    split; [by apply (proj1 (Forall_forall _ _) Hok)|]. rewrite int64_id in * by lia. lia.
Qed.

Lemma inv_inflight_middle owner s l1 l2 x : invariant owner s -> inflight s = l1 ++ x :: l2 ->
  (forall id b, flying (inflight s) id b = listedFor (fst x) (snd x) id b + flying (l1 ++ l2) id b) /\
  Forall entry_ok (snd x) /\ (snd x = [] \/ is_Some (nodes (tracker s) !! fst x)) /\
  Forall (fun '(tag, traffic) => Forall entry_ok traffic /\ (traffic = [] \/ is_Some (nodes (tracker s) !! tag))) (l1 ++ l2).
Proof.
  intros I E. pose proof (inv_inflight _ _ I) as Hi. rewrite E in *. destruct x as [tag traffic].
  apply Forall_app in Hi as [H1 [[Hx Hx'] H2]%Forall_cons]. split_and!; [|done|done|by apply Forall_app].
  intros id b. rewrite !flying_app, flying_cons. cbn [fst snd]. lia.
Qed.

Lemma accepted_invariant owner s tag traffic l1 l2 : invariant owner s -> inflight s = l1 ++ (tag, traffic) :: l2 ->
  invariant owner (mkAccounts (tracker s) (conns s) (sent s) (creditAll (reported s) tag traffic) (l1 ++ l2) (dropped s)).
Proof.
  intros I E. destruct (inv_inflight_middle owner s l1 l2 _ I E) as (Hf & Hok & _ & Hall). destruct I.
  split; cbn [tracker conns sent reported inflight dropped]; try done; unfold creditAll.
  - intros id b Hid. rewrite inv_sum0, Hf by done. cbn. lia.
  - intros id b. pose proof (inv_reported0 id b). pose proof (listedFor_nonneg tag traffic id b Hok). lia.
Qed.

Lemma restored_invariant owner s tag traffic l1 l2 : invariant owner s -> inflight s = l1 ++ (tag, traffic) :: l2 ->
  exists owner', invariant owner' (mkAccounts (RestoreTraffic tag traffic (tracker s)) (conns s) (sent s) (reported s) (l1 ++ l2) (dropped s)).
Proof.
  intros I E. destruct (inv_inflight_middle owner s l1 l2 _ I E) as (Hf & Hok & Hnode & Hall). cbn [fst snd] in *.
  assert (Hempty : traffic = [] -> invariant owner (mkAccounts (tracker s) (conns s) (sent s) (reported s) (l1 ++ l2) (dropped s))).
  { intros ->. destruct I. split; cbn [tracker conns sent reported inflight dropped]; try done.
    intros id b Hid. rewrite inv_sum0, Hf by done. unfold listedFor. case_decide; cbn; lia. }
  unfold RestoreTraffic. destruct (nodes (tracker s) !! tag) as [n|] eqn:En.
  2: { destruct Hnode as [->|[? ?]]; [|done]. exists owner. auto. }
  destruct (nonempty traffic) eqn:Ene; [|exists owner; apply Hempty; by destruct traffic].
  destruct (restoreTraffic traffic n _) as [n' h'] eqn:Er.
  apply (restoreTraffic_spec tag traffic Hok n owner) in Er as [owner' R]; [|apply I|apply I|by apply I|].
  2: { intros uid b Hu. apply (inv_room owner s (tag, uid) b (listed uid b traffic) I Hu).
       rewrite Hf. unfold listedFor. cbn [fst snd]. rewrite decide_True by done.
       assert (0 <= flying (l1 ++ l2) (tag, uid) b); [|lia]. apply flying_nonneg. eapply Forall_impl; [exact Hall|]. by intros [] []. }
  exists owner'. destruct R as [He Hn Hw Hnn Ha Hok' Hr Hwh Hh]. apply (invariant_set_node owner); try done.
  - apply Hnn, I.
  - intros p Hp. destruct (Hwh p) as [Hl|(uid & [Ho _] & Hq)]; [left|right; eauto]. unfold quiet. rewrite Hl. apply load_beyond; [apply I|done].
  - intros uid p Ho Hu Hp [Hq|(n0 & Hl0 & Hq)].
    + destruct (Hwh p) as [Hl|(uid' & [Ho' _] & Hq')]; [left; unfold quiet; by rewrite Hl|right].
      rewrite He, Ho in Ho' by done. by injection Ho' as ->.
    + right. apply Hr. congruence.
  - intros tag' uid p Ho Hne Hp Hq. destruct (Hwh p) as [Hl|(uid' & [Ho' _] & Hq')]; [unfold quiet; by rewrite Hl|].
    rewrite He, Ho in Ho' by done. congruence.
  - intros id b Hid. rewrite (inv_sum _ _ I), Hf, Hh by done. unfold listedFor. lia.
  - apply I.
  - eapply Forall_impl; [exact Hall|]. intros [tag' traffic'] [? [|]]; auto.
Qed.

Theorem event_invariant owner s s' : invariant owner s -> event s s' -> exists owner', invariant owner' s'.
Proof.
  intros I H. destruct H; [..|eexists; by eapply accepted_invariant|by eapply restored_invariant|].
  - eexists. by eapply route_invariant.
  - eexists. by eapply bytes_invariant.
  - eexists. by eapply close_invariant.
  - by apply (users_invariant owner).
  - exists owner. apply invariant_same_nodes; [done|]. unfold updateAliveList. destruct (nodes (tracker s) !! tag) eqn:E; [by eapply same_nodes_set|].
    split; [done|]. intros tag'. destruct (nodes (tracker s) !! tag'); by constructor.
  - eexists. by eapply snapshot_invariant.
  - exists owner. apply invariant_same_nodes; [done|]. unfold RestoreAlive.
    assert (Hrefl : same_nodes (tracker s) (tracker s)) by (split; [done|]; intros tag'; destruct (nodes (tracker s) !! tag'); by constructor).
    destruct (nodes (tracker s) !! tag) eqn:E; [|done]. destruct (0 <? size alive)%nat; [|done]. eapply same_nodes_set; [done|]. apply restoreAlive_same.
Qed.

Lemma reachable_invariant s : rtc event start s -> exists owner, invariant owner s.
Proof.
  intros H. remember start as s0 eqn:E0. assert (I0 : exists owner, invariant owner s0) by (subst; eexists; apply start_invariant).
  clear E0. induction H as [|s0 s1 s H _ IH]; [done|]. apply IH. destruct I0 as [owner I]. by eapply event_invariant.
Qed.

Lemma held_drained owner h id b : (forall p, (p < next h)%nat -> owner p = id -> drained h p) -> held owner h id b = 0.
Proof.
  intros H. unfold held. rewrite (sumf_ext _ (fun _ => 0)); [|intros p Hp; case_decide; [by apply H|done]].
  induction (next h) as [|k IH]; [done|]. cbn. rewrite IH; [done|]. intros p Hp. apply H. lia.
Qed.

(** A report that withholds nothing lists all that is held. *)
Lemma snapshot_lists_held owner s tag uid b onlineMin : invariant owner s -> 0 < uid ->
  listed uid b (fst (fst (Snapshot tag 0 onlineMin (tracker s)))) = held owner (heap (tracker s)) (tag, uid) b.
Proof.
  intros I Hu. unfold Snapshot. destruct (nodes (tracker s) !! tag) as [n|] eqn:En.
  - destruct (snapshot 0 onlineMin n _) as [[[traffic alive] n'] h'] eqn:E. cbn [fst].
    apply (snapshot_spec owner tag) in E; [|done|by apply inv_countable|by apply I].
    rewrite <- (snapped_sum _ _ _ _ _ _ _ E uid b Hu), (held_drained owner h'); [lia|].
    intros p Hp Ho. rewrite (snapped_next _ _ _ _ _ _ _ E) in Hp.
    destruct (inv_reach _ _ I tag uid p Hp Ho Hu) as [Hq|(n0 & Hl & Hr)].
    + intros b'. destruct (snapped_amount _ _ _ _ _ _ _ E p b') as [->|]; [rewrite Hq; by destruct b'|done].
    + rewrite En in Hl. injection Hl as <-. by apply (snapped_keep _ _ _ _ _ _ _ E uid p Ho Hu Hr).
  - cbn. rewrite held_drained; [done|]. intros p Hp Ho.
    destruct (inv_reach _ _ I tag uid p Hp Ho Hu) as [Hq|(n & Hl & _)]; [|congruence]. intros b'. rewrite Hq. by destruct b'.
Qed.

End System.

(** ** A run *)

#[export] Instance demoRange : GoRange := {| range_string A m := map_to_list m; range_int A m := map_to_list m |}.
#[export] Instance demoRangeLaws : GoRangeLaws.
Proof. by split. Qed.

Module AccountingDemo.
#[local] Existing Instance demoEnv.

Definition user (id : Z) (uuid : string) : UserInfo :=
  mkUserInfo id uuid "" "" 0 2 "" "" "" 0 "" true true 0 0 0 0 "".

(** A connection of the user with the key [k]. *)
Definition conn (k : string) : InboundContext := {|
  Inbound := "node"; IPVersion := 0; Network := "tcp";
  Source := mkSocksaddr (Addr4 167772161) 4000 "";
  Destination := mkSocksaddr AddrInvalid 443 "example.org";
  User := k; Outbound := ""; Protocol := "tls"; Domain := ""; Client := "";
  DestinationAddresses := []; DNSResponse := None; DestinationAddressMatchFromResponse := false;
  ProcessInfo := None; SourceMACAddress := None; SourceHostname := ""; QueryType := 0;
  IPCIDRMatchSource := false; IPCIDRAcceptEmpty := false;
  SourceAddressMatch := false; SourcePortMatch := false; DestinationAddressMatch := false;
  DestinationPortMatch := false; DidMatch := false; IgnoreDestinationIPCIDRMatch := false;
|}.

Definition now : Time := mkTime 1000 0.
Definition addr (_ : Addr) : string := "10.0.0.1".
Definition host (a : Socksaddr) : string := Socksaddr_Fqdn a.

Definition setUsers (users : list UserInfo) (t : TrafficTracker) : TrafficTracker :=
  updateNode "node" "vmess" 1 users ∅ zeroTime 0 noRules t.
Definition route (k : string) (t : TrafficTracker) : routed * TrafficTracker :=
  routeTracked id host addr "tls" (conn k) now t.
Definition snap (trafficMin : Z) (t : TrafficTracker) := Snapshot "node" trafficMin 0 t.

(** One user with a connection; the key then goes to another user; a report;
    more bytes on the connection; a report with a threshold they do not reach;
    and more bytes. *)
Definition t1 := setUsers [user 7 "a"] newTracker.
Definition t2 := snd (route "a" t1).
Definition t3 := setUsers [user 8 "a"] (countConn 100 20 0 t2).
Definition report := fst (fst (snap 1 t3)).
Definition t4 := countConn 5 6 0 (snd (snap 1 t3)).
Definition t5 := countConn 2 1 0 (snd (snap 50 t4)).

Definition final : Accounts :=
  mkAccounts t5 [(0%nat, ("node", 7))]
    (credit (credit (credit (fun _ _ => 0) ("node", 7) 100 20) ("node", 7) 5 6) ("node", 7) 2 1) (fun _ _ => 0)
    [("node", fst (fst (snap 50 t4))); ("node", report)]
    [("node", 50, belowThreshold 50 (fst (fst (snap 0 t4)))); ("node", 1, belowThreshold 1 (fst (fst (snap 0 t3))))].

Lemma snap_split trafficMin t : snap trafficMin t =
  (fst (fst (snap trafficMin t)), snd (fst (snap trafficMin t)), snd (snap trafficMin t)).
Proof. by destruct (snap trafficMin t) as [[? ?] ?]. Qed.

Lemma final_reached : rtc (event id host addr) start final.
Proof.
  eapply rtc_l; [apply (EvUsers _ _ _ "node" "vmess" 1 [user 7 "a"] ∅ zeroTime 0 noRules)|].
  eapply rtc_l; [eapply (EvRoute _ _ _ "tls" (conn "a") now); [apply surjective_pairing|cbn; lia]|].
  cbn [conns sent reported inflight dropped tracker start].
  replace (opened _ _ _) with [(0%nat, ("node"%string, 7))] by (vm_compute; reflexivity).
  eapply rtc_l; [apply (EvBytes _ _ _ 0 ("node", 7) 100 20); [left|lia|lia|vm_compute; reflexivity]|].
  eapply rtc_l; [apply (EvUsers _ _ _ "node" "vmess" 1 [user 8 "a"] ∅ zeroTime 0 noRules)|].
  cbn [conns sent reported inflight dropped tracker].
  eapply rtc_l; [eapply (EvSnapshot _ _ _ "node" 1 0 report (snd (fst (snap 1 t3))) (snd (snap 1 t3))), (snap_split 1 t3)|].
  eapply rtc_l; [apply (EvBytes _ _ _ 0 ("node", 7) 5 6); [left|lia|lia|vm_compute; reflexivity]|].
  eapply rtc_l; [eapply (EvSnapshot _ _ _ "node" 50 0 _ (snd (fst (snap 50 t4))) (snd (snap 50 t4))), (snap_split 50 t4)|].
  eapply rtc_l; [apply (EvBytes _ _ _ 0 ("node", 7) 2 1); [left|lia|lia|vm_compute; reflexivity]|].
  apply rtc_refl.
Qed.


(** Bytes below the threshold of a report are neither in it nor in the next. *)
Definition below := countConn 3 2 0 t2.

Lemma snapshot_threshold_loses :
  fst (fst (snap 10 below)) = [] /\ fst (fst (snap 0 (snd (snap 10 below)))) = [] /\
  fst (fst (snap 0 below)) = [mkUserTraffic 7 3 2].
Proof. split; [vm_compute; reflexivity|split; vm_compute; reflexivity]. Qed.

(** A connection looks its counter up, and is tracked afterwards.  When the user
    is dropped and reported in between, the counter is forgotten and the bytes
    of the connection are never reported. *)
Lemma late_track_loses :
  option_map snd (match_ (conn "a") t1) = Some 0%nat /\
  (let t := snd (snap 0 (setUsers [] t1)) in fst (fst (snap 0 (countConn 3 2 0 (trackConn 0 t)))) = []).
Proof. split; vm_compute; reflexivity. Qed.
End AccountingDemo.
