(* ===== verification/PanelLimits.v ===== *)
(** * Device and speed limits of panel users

    - Devices: between two reports a user gets no more new addresses than its
      limit allows, and the addresses kept for it stay below a fixed number.
    - Speed: [waitRate] asks the limiter for all bytes, in pieces it can serve. *)
From Stdlib Require Import ZArith Lia Bool Ascii.
From S2P Require Import Prelude GoIO DnsMsg Metadata RuleItem DemoEnv RuleEngine RuleTheorems SavedBinary PanelRules PanelUsers.
From S2P Require Import RouteMatch RouteOptions RouteRule RouteRouter PanelTracker PanelTrackerTheorems PanelAccounting.

(** ** Devices *)

Section Devices.
Context `{GE : GoEnv} `{GR : GoRange} `{GRL : !GoRangeLaws}.

(** What changes the addresses of the users of a node between two user lists:
    a connection, a report, and putting back the addresses of the last report,
    which failed. *)
Inductive DeviceEvent :=
| Arrives (user ip : string) (now : Time)
| Reports (trafficMin onlineMin : Z) (h : Heap)
| Restores.

(** A node, and the addresses listed in its last report. *)
Definition DeviceState : Type := nodeTraffic * gmap Z (list string).

Definition deviceEvent (st : DeviceState) (e : DeviceEvent) : DeviceState :=
  let '(n, listed) := st in
  match e with
  | Arrives user ip now => (snd (markOnline user ip now n), listed)
  | Reports trafficMin onlineMin h => let '(_, alive, n', _) := snapshot trafficMin onlineMin n h in (n', alive)
  | Restores => (restoreAlive (range_int listed) n, listed)
  end.

Definition addressCount (s : stringSet) : Z := Z.of_nat (size s).

Lemma addOnlineIP_subset ip limit online : addOnlineIPWithLimit ip limit online ⊆ <[ip := tt]> online.
Proof.
  unfold addOnlineIPWithLimit. destruct (limit <=? 0); [done|]. apply insert_mono.
  destruct (online !! ip); [done|]. destruct (limit <=? _); [|done]. destruct (range_string online) as [|[existing []] ?]; [done|]. apply delete_subseteq.
Qed.

(** The bound of the set of addresses, by evicting one of them. *)
Lemma addOnlineIP_size ip limit online : 0 < limit -> addressCount online <= limit -> addressCount (addOnlineIPWithLimit ip limit online) <= limit.
Proof.
  unfold addressCount, addOnlineIPWithLimit. intros Hl Hs. rewrite (proj2 (Z.leb_gt limit 0)) by lia.
  destruct (online !! ip) as [[]|] eqn:E; [by rewrite insert_id|].
  destruct (Z.leb_spec limit (Z.of_nat (size online))) as [Hge|Hlt]; [|rewrite map_size_insert_None by done; lia].
  pose proof (range_string_perm online) as Hp. destruct (range_string online) as [|[existing []] rest] eqn:Er.
  - apply Permutation_nil_l in Hp. symmetry in Hp. apply map_to_list_empty_iff in Hp as ->. rewrite map_size_empty in Hge. cbn in Hge. lia.
  - assert (He : online !! existing = Some tt) by (apply elem_of_map_to_list; rewrite <- Hp; left).
    assert (Hd : S (size (delete existing online)) = size online).
    { rewrite <- (insert_delete_id online existing tt He) at 2. by rewrite map_size_insert_None by apply lookup_delete_eq. }
    rewrite map_size_insert_None; [lia|]. rewrite lookup_delete_None. by right.
Qed.

Lemma new_subset_size (a b c : stringSet) ip : a ⊆ <[ip := tt]> b -> addressCount (a ∖ c) <= addressCount (b ∖ c) + 1.
Proof.
  intros Hsub. unfold addressCount. assert (H : a ∖ c ⊆ <[ip := tt]> (b ∖ c)).
  { apply map_subseteq_spec. intros k [] [Hk Hc]%lookup_difference_Some. pose proof (proj1 (map_subseteq_spec _ _) Hsub k tt Hk) as Hb.
    destruct (decide (k = ip)) as [->|Hne]; [by rewrite lookup_insert_eq|]. rewrite lookup_insert_ne in Hb |- * by done.
    by apply lookup_difference_Some. }
  apply map_subseteq_size in H. rewrite map_size_insert in H. destruct ((b ∖ c) !! ip); unfold id in H; lia.
Qed.

(** An address that is known already is not a new one. *)
Lemma known_subset_size (a b c : stringSet) ip : a ⊆ <[ip := tt]> b -> b !! ip = Some tt \/ c !! ip = Some tt ->
  addressCount (a ∖ c) <= addressCount (b ∖ c).
Proof.
  intros Hsub Hk. unfold addressCount. apply inj_le, map_subseteq_size, map_subseteq_spec.
  intros k [] [Ha Hc]%lookup_difference_Some. pose proof (proj1 (map_subseteq_spec _ _) Hsub k tt Ha) as Hb.
  apply lookup_difference_Some. split; [|done]. destruct (decide (k = ip)) as [->|Hne]; [|by rewrite lookup_insert_ne in Hb].
  destruct Hk as [|Hk]; [done|congruence].
Qed.

Definition deviceLimit (n : nodeTraffic) (user : string) : Z := match limits n !! user with Some limit => device limit | None => 0 end.

(** The addresses of a user are within bounds. *)
Definition within (n : nodeTraffic) (user : string) : Prop :=
  addressCount (newAddresses n user) <= deviceLimit n user /\ addressCount (set_of (online n) user) <= maxRestoredAliveIPsPerUser.

(** The users, their counters and limits, and the list of the panel. *)
Definition same_config (n n' : nodeTraffic) : Prop :=
  users n' = users n /\ counters n' = counters n /\ limits n' = limits n /\ alive n' = alive n.

Lemma markOnline_other user ip now n ok n' user' : markOnline user ip now n = (ok, n') -> user' <> user ->
  set_of (online n') user' = set_of (online n) user' /\ previous n' = previous n.
Proof.
  unfold markOnline. destruct (_ || _); [by intros [= _ <-]|]. destruct (users n !! user); [|by intros [= _ <-]].
  destruct (exceedsDeviceLimit _ _ _ _ _); intros [= _ <-] Hne; [done|]. unfold set_of. cbn. by rewrite lookup_insert_ne.
Qed.

Lemma markOnline_within user ip now n ok n' : markOnline user ip now n = (ok, n') ->
  (forall uid, users n !! user = Some uid -> 0 <= default 0 (alive n !! uid)) -> 0 < deviceLimit n user -> within n user -> within n' user.
Proof.
  unfold markOnline. destruct (_ || _); [by intros [= _ <-]|]. destruct (users n !! user) as [uid|] eqn:Eu; [|by intros [= _ <-]].
  destruct (exceedsDeviceLimit _ _ _ _ _) eqn:Ex; intros [= _ <-] Ha Hl [Hn Ho]; [done|]. specialize (Ha uid eq_refl).
  unfold within, newAddresses, deviceLimit, set_of in *. cbn [online previous limits set_online]. rewrite lookup_insert_eq.
  change (from_option id ∅ (Some ?x)) with x. split; [|by apply addOnlineIP_size]. unfold exceedsDeviceLimit, newAddresses, set_of in Ex.
  rewrite (proj2 (Z.leb_gt _ 0)) in Ex by done.
  set (on := default ∅ (online n !! user)) in *. set (pre := default ∅ (previous n !! user)) in *.
  pose proof (addOnlineIP_subset ip maxRestoredAliveIPsPerUser on) as Hsub.
  destruct (on !! ip) as [[]|] eqn:Eo; [|destruct (pre !! ip) as [[]|] eqn:Ep].
  - etransitivity; [|exact Hn]. apply (known_subset_size _ _ _ ip Hsub). by left.
  - etransitivity; [|exact Hn]. apply (known_subset_size _ _ _ ip Hsub). by right.
  - apply Z.leb_gt in Ex. pose proof (new_subset_size _ _ pre _ Hsub). destruct (aliveListFresh _ _); unfold addressCount in *; lia.
Qed.

(** A report starts the count of new addresses again. *)
Lemma snapshotUsers_online n onlineMin user entries : forall t alive online previous h t' alive' online' previous' h',
  snapshotUsers n onlineMin entries t alive online previous h = (t', alive', online', previous', h') -> is_Some (users n !! user) ->
  user ∈ map fst entries \/ online !! user = None -> online' !! user = None.
Proof.
  induction entries as [|[user1 p] entries IH]; intros t alive online previous h t' alive' online' previous' h' H Hu Hin; cbn in H.
  { injection H as _ _ <- _ _. destruct Hin as [Hin|]; [by apply not_elem_of_nil in Hin|done]. }
  destruct (users n !! user1) as [uid|] eqn:E1.
  - destruct (addCounterSnapshot _ _ _ _) as [[[u d] t1] h1]. eapply IH; [exact H|done|]. cbn [map fst] in Hin.
    destruct (decide (user = user1)) as [->|Hne]; [right; apply lookup_delete_eq|].
    rewrite lookup_delete_ne by done. destruct Hin as [[?|?]%elem_of_cons|]; [done|by left|by right].
  - eapply IH; [exact H|done|]. destruct Hin as [[->|?]%elem_of_cons|]; [|by left|by right]. cbn in Hu. rewrite E1 in Hu. by destruct Hu.
Qed.

Lemma snapshot_within trafficMin onlineMin n h user : is_Some (users n !! user) -> is_Some (counters n !! user) -> 0 < deviceLimit n user ->
  within (snd (fst (snapshot trafficMin onlineMin n h))) user.
Proof.
  intros Hu [p Hc] Hl. unfold snapshot. destruct (snapshotAllPending _ _ _ _) as [[pending1 t1] h1].
  destruct (snapshotUsers _ _ _ _ _ _ _ _) as [[[[t2 alive2] online2] previous2] h2] eqn:E. cbn [fst snd].
  apply (snapshotUsers_online n onlineMin user) in E; [|done|].
  2: { left. apply list_elem_of_fmap. exists (user, p). split; [done|]. by apply elem_of_range_string. }
  unfold within, newAddresses, set_of, deviceLimit, addressCount in *. cbn [online previous limits]. rewrite E. cbn [default from_option].
  unfold maxRestoredAliveIPsPerUser. split; [|rewrite map_size_empty; lia].
  assert (H : (∅ : stringSet) ∖ default ∅ (previous2 !! user) = ∅); [|rewrite H, map_size_empty; lia].
  apply map_eq. intros k. apply eq_None_not_Some. intros [x [Hx _]%lookup_difference_Some]. by rewrite lookup_empty in Hx.
Qed.

(** *** Putting addresses back *)

Lemma before_last_app a s : before_last_underscore s = None -> before_last_underscore (a +:+ String "_"%char s) = Some a.
Proof.
  intros H. induction a as [|c a IH].
  - change (before_last_underscore (String "_"%char s) = Some ""). cbn. by rewrite H.
  - change (before_last_underscore (String c (a +:+ String "_"%char s)) = Some (String c a)). cbn [before_last_underscore]. by rewrite IH.
Qed.

Lemma pretty_go_no_underscore x : forall s, before_last_underscore s = None -> before_last_underscore (pretty_N_go x s) = None.
Proof.
  induction (N.lt_wf_0 x) as [x _ IH]. intros s Hs. destruct (decide (0 < x)%N); [|by replace x with 0%N by lia].
  rewrite pretty_N_go_step by done. apply IH; [apply N.div_lt; lia|]. cbn. rewrite Hs. unfold pretty_N_char. by repeat case_match.
Qed.

Lemma pretty_no_underscore (z : Z) : before_last_underscore (pretty z) = None.
Proof.
  assert (forall n : N, before_last_underscore (pretty n) = None) as HN.
  { intros n. unfold pretty, pretty_N. case_decide; [done|]. by apply pretty_go_no_underscore. }
  destruct z as [|q|q]; [done|apply HN|]. change (before_last_underscore (String "-"%char (pretty (N.pos q))) = None).
  cbn [before_last_underscore]. by rewrite HN.
Qed.

Lemma aliveIP_entry nid ip : ip <> "" -> aliveIP (aliveEntry nid ip) = ip.
Proof.
  intros Hne. unfold aliveIP, aliveEntry. change ("_" +:+ pretty nid) with (String "_"%char (pretty nid)).
  rewrite before_last_app by apply pretty_no_underscore. by destruct ip.
Qed.

(** The listed addresses of the number [uid] are among [previous]. *)
Definition listed_known (uid : Z) (listed : gmap Z (list string)) (previous : stringSet) : Prop :=
  forall value, value ∈ default [] (listed !! uid) -> previous !! aliveIP value = Some tt.

Lemma listed_range nid uid (ips : list (string * unit)) : forall (alive : gmap Z (list string)) v,
  v ∈ default [] (fold_left (fun alive '(ip, _) => <[uid := default [] (alive !! uid) ++ [aliveEntry nid ip]]> alive) ips alive !! uid) ->
  v ∈ default [] (alive !! uid) \/ exists ip, (ip, tt) ∈ ips /\ v = aliveEntry nid ip.
Proof.
  induction ips as [|[ip []] ips IH]; intros alive v Hv; [by left|]. cbn [fold_left] in Hv. apply IH in Hv as [Hv|(ip' & Hin & ->)].
  - rewrite lookup_insert_eq in Hv. cbn in Hv. apply elem_of_app in Hv as [Hv|Hv%list_elem_of_singleton]; [by left|].
    right. exists ip. split; [left|done].
  - right. exists ip'. split; [by right|done].
Qed.

Lemma listed_other nid uid uid' (ips : list (string * unit)) : uid <> uid' -> forall alive : gmap Z (list string),
  fold_left (fun alive '(ip, _) => <[uid' := default [] (alive !! uid') ++ [aliveEntry nid ip]]> alive) ips alive !! uid = alive !! uid.
Proof. intros Hne. induction ips as [|[ip []] ips IH]; intros alive; [done|]. cbn [fold_left]. rewrite IH. by apply lookup_insert_ne. Qed.

(** A report lists only addresses that it keeps as previous ones. *)
Lemma snapshotUsers_listed n onlineMin user uid entries : users n !! user = Some uid ->
  (forall user', users n !! user' = Some uid -> user' = user) -> forall t alive online previous h t' alive' online' previous' h',
  snapshotUsers n onlineMin entries t alive online previous h = (t', alive', online', previous', h') ->
  set_of online user !! "" = None ->
  default [] (alive !! uid) = [] \/ set_of online user = ∅ /\ listed_known uid alive (set_of previous user) ->
  default [] (alive' !! uid) = [] \/ listed_known uid alive' (set_of previous' user).
Proof.
  intros Hu Huniq. induction entries as [|[user1 p] entries IH]; intros t alive online previous h t' alive' online' previous' h' H He Hl; cbn [snapshotUsers] in H.
  { injection H as _ <- _ <- _. destruct Hl as [|[_ ?]]; [by left|by right]. }
  destruct (users n !! user1) as [uid1|] eqn:E1; [|by eapply IH].
  destruct (addCounterSnapshot _ _ _ _) as [[[u d] t1] h1]. set (ips := set_of online user1) in *.
  destruct (decide (user1 = user)) as [->|Hne].
  - rewrite Hu in E1. injection E1 as <-. eapply IH; [exact H| |].
    { unfold set_of. by rewrite lookup_delete_eq. }
    right. split; [unfold set_of; by rewrite lookup_delete_eq|]. intros v Hv.
    assert (v ∈ default [] (alive !! uid) \/ exists ip, ips !! ip = Some tt /\ v = aliveEntry (nodeID n) ip) as [Hv'|(ip & Hip & ->)].
    { destruct (_ <=? _); [|by left]. apply listed_range in Hv as [?|(ip & Hip%elem_of_range_string & ->)]; eauto. }
    + destruct Hl as [Hl|[Hempty Hl]]; [rewrite Hl in Hv'; by apply elem_of_nil in Hv'|]. subst ips. rewrite Hempty, map_size_empty. by apply Hl.
    + assert (ip <> "") as Hne by (intros ->; subst ips; congruence). rewrite aliveIP_entry by done.
      destruct (Nat.ltb_spec 0 (size ips)) as [Hs|Hs]; [unfold set_of; by rewrite lookup_insert_eq|].
      apply Nat.le_0_r, map_size_empty_iff in Hs. rewrite Hs, lookup_empty in Hip. done.
  - assert (uid1 <> uid) as Hneu by (intros ->; by apply Hne, Huniq). eapply IH; [exact H| |].
    { unfold set_of in *. by rewrite lookup_delete_ne. }
    assert (forall prev, set_of (if (0 <? size ips)%nat then <[user1 := ips]> prev else prev) user = set_of prev user) as Hp.
    { intros prev. unfold set_of. destruct (0 <? size ips)%nat; [by rewrite lookup_insert_ne|done]. }
    assert ((if onlineMin <=? int64 (u + d)
             then fold_left (fun alive '(ip, _) => <[uid1 := default [] (alive !! uid1) ++ [aliveEntry (nodeID n) ip]]> alive) (range_string ips) alive
             else alive) !! uid = alive !! uid) as Ha by (destruct (_ <=? _); [by apply listed_other|done]).
    unfold listed_known in *. rewrite Hp, Ha. unfold set_of. rewrite lookup_delete_ne by done. done.
Qed.

(** The addresses of a user, seen by the limit: within the bounds, none empty,
    and those of the last report known. *)
Record bounded (user : string) (uid : Z) (st : DeviceState) : Prop := {
  bounded_within : within (fst st) user;
  bounded_nonempty : set_of (online (fst st)) user !! "" = None;
  bounded_listed : listed_known uid (snd st) (set_of (previous (fst st)) user);
}.

Lemma within_add n user ip : 0 < deviceLimit n user -> set_of (previous n) user !! ip = Some tt -> ip <> "" ->
  within n user /\ set_of (online n) user !! "" = None ->
  let n' := set_online (<[user := addOnlineIPWithLimit ip maxRestoredAliveIPsPerUser (set_of (online n) user)]> (online n)) n in
  within n' user /\ set_of (online n') user !! "" = None.
Proof.
  intros Hl Hp Hne [[Hn Ho] He] n'. unfold within, newAddresses, deviceLimit, set_of in *. cbn [online previous limits set_online n'].
  rewrite lookup_insert_eq. change (from_option id ∅ (Some ?x)) with x.
  pose proof (addOnlineIP_subset ip maxRestoredAliveIPsPerUser (default ∅ (online n !! user))) as Hsub. split; [split|].
  - etransitivity; [|exact Hn]. apply (known_subset_size _ _ _ ip Hsub). by right.
  - by apply addOnlineIP_size.
  - apply eq_None_not_Some. intros [[] Hx]. apply (proj1 (map_subseteq_spec _ _) Hsub) in Hx. rewrite lookup_insert_ne in Hx by done. congruence.
Qed.

(** Putting the addresses of one number back, for its user. *)
Lemma restore_values user values : forall n, 0 < deviceLimit n user ->
  (forall value, value ∈ values -> set_of (previous n) user !! aliveIP value = Some tt) -> within n user -> set_of (online n) user !! "" = None ->
  let online_ := fold_left (fun online value =>
      let ip := aliveIP value in if String.eqb ip "" then online else addOnlineIPWithLimit ip maxRestoredAliveIPsPerUser online)
    values (set_of (online n) user) in
  let n' := set_online (<[user := online_]> (online n)) n in within n' user /\ set_of (online n') user !! "" = None.
Proof.
  induction values as [|value values IH]; intros n Hl Hv Hw He.
  { cbn. unfold within, newAddresses, deviceLimit, set_of in *. cbn. by rewrite lookup_insert_eq. }
  cbn [fold_left]. destruct (String.eqb_spec (aliveIP value) "") as [Hz|Hz].
  { apply IH; try done. intros v Hin. apply Hv. by right. }
  destruct (within_add n user (aliveIP value)) as [Hw' He']; [done|apply Hv; left|done|done|].
  set (n1 := set_online _ n) in *.
  assert (set_of (online n1) user = addOnlineIPWithLimit (aliveIP value) maxRestoredAliveIPsPerUser (set_of (online n) user)) as Hon.
  { unfold set_of at 1, n1. cbn. by rewrite lookup_insert_eq. }
  specialize (IH n1 Hl). rewrite Hon in IH. destruct IH as [Hw2 He2]; [intros v Hin; apply (Hv v); by right|done|by rewrite <- Hon|].
  revert Hw2 He2. unfold within, newAddresses, deviceLimit, set_of, n1. cbn [online previous limits set_online]. by rewrite !lookup_insert_eq.
Qed.

(** Nothing else depends on the addresses of other users. *)
Lemma within_same n n' user : limits n' = limits n -> previous n' = previous n -> set_of (online n') user = set_of (online n) user ->
  within n user /\ set_of (online n) user !! "" = None -> within n' user /\ set_of (online n') user !! "" = None.
Proof. intros El Ep Eo. unfold within, newAddresses, deviceLimit. by rewrite El, Ep, Eo. Qed.

Lemma restoreAlive_bounded user uid entries : forall n, users n !! user = Some uid ->
  (forall user', users n !! user' = Some uid -> user' = user) -> 0 < deviceLimit n user ->
  (forall values value, (uid, values) ∈ entries -> value ∈ values -> set_of (previous n) user !! aliveIP value = Some tt) ->
  within n user /\ set_of (online n) user !! "" = None ->
  let n' := restoreAlive entries n in
  (within n' user /\ set_of (online n') user !! "" = None) /\ same_config n n' /\ previous n' = previous n.
Proof.
  induction entries as [|[uid1 values] entries IH]; intros n Hu Huniq Hl Hv Hw; [done|]. cbn [restoreAlive].
  assert (forall v' v0, (uid, v') ∈ entries -> v0 ∈ v' -> set_of (previous n) user !! aliveIP v0 = Some tt) as Hv'.
  { intros v' v0 Hin. apply Hv. by right. }
  destruct (List.filter _ _) as [|[user1 id1] rest] eqn:Ef; [by apply IH|].
  assert (Hin : (user1, id1) ∈ List.filter (fun '(_, userID) => userID =? uid1) (range_string (users n))) by (rewrite Ef; left).
  apply list_elem_of_In, filter_In in Hin as [Hin%list_elem_of_In%elem_of_range_string ->%Z.eqb_eq].
  match goal with |- context [restoreAlive entries ?m] => set (n1 := m) end.
  assert (within n1 user /\ set_of (online n1) user !! "" = None) as Hw1.
  { destruct (decide (user1 = user)) as [->|Hne].
    - replace uid1 with uid in * by congruence. apply restore_values; [done| |apply Hw..]. intros v Hvin. apply (Hv values); [left|done].
    - apply (within_same n n1); [done..| |exact Hw]. unfold set_of, n1. cbn. by rewrite lookup_insert_ne. }
  destruct (IH n1) as (? & ? & ?); done.
Qed.

Lemma deviceEvent_config n listed e : same_config n (fst (deviceEvent (n, listed) e)).
Proof.
  destruct e as [user ip now|trafficMin onlineMin h|]; cbn [deviceEvent fst].
  - unfold markOnline. destruct (_ || _); [done|]. destruct (users n !! user); [|done]. by destruct (exceedsDeviceLimit _ _ _ _ _).
  - unfold snapshot. destruct (snapshotAllPending _ _ _ _) as [[? ?] ?]. by destruct (snapshotUsers _ _ _ _ _ _ _ _) as [[[[? ?] ?] ?] ?].
  - revert n. induction (range_int listed) as [|[uid values] entries IH]; intros n; [done|]. cbn [restoreAlive].
    destruct (List.filter _ _) as [|[user1 id1] rest]; [apply IH|]. match goal with |- same_config n (restoreAlive entries ?m) => apply (IH m) end.
Qed.

Lemma deviceEvent_bounded user uid n listed e :
  users n !! user = Some uid -> (forall user', users n !! user' = Some uid -> user' = user) -> is_Some (counters n !! user) ->
  0 < deviceLimit n user -> 0 <= default 0 (alive n !! uid) ->
  bounded user uid (n, listed) -> bounded user uid (deviceEvent (n, listed) e).
Proof.
  intros Hu Huniq Hc Hl Ha [Hw He Hli]. cbn [fst snd] in *. destruct e as [user' ip now|trafficMin onlineMin h|]; cbn [deviceEvent].
  - destruct (markOnline user' ip now n) as [ok n'] eqn:E. cbn [snd]. destruct (decide (user = user')) as [<-|Hne].
    + split; cbn [fst snd].
      * eapply markOnline_within; [exact E| |done|done]. intros uid' Hu'. by replace uid' with uid by congruence.
      * revert E. unfold markOnline. destruct (String.eqb_spec ip ""); [by intros [= _ <-]|]. destruct (_ || _); [by intros [= _ <-]|].
        rewrite Hu. destruct (exceedsDeviceLimit _ _ _ _ _); intros [= _ <-]; [done|]. unfold set_of at 1. cbn. rewrite lookup_insert_eq. cbn.
        pose proof (addOnlineIP_subset ip maxRestoredAliveIPsPerUser (set_of (online n) user)) as Hsub.
        apply eq_None_not_Some. intros [[] Hx]. apply (proj1 (map_subseteq_spec _ _) Hsub) in Hx. rewrite lookup_insert_ne in Hx by done. congruence.
      * replace (previous n') with (previous n); [done|]. revert E. unfold markOnline. destruct (_ || _); [by intros [= _ <-]|].
        destruct (users n !! user); [|by intros [= _ <-]]. destruct (exceedsDeviceLimit _ _ _ _ _); by intros [= _ <-].
    + destruct (markOnline_other _ _ _ _ _ _ user E Hne) as [Ho Hp]. destruct (deviceEvent_config n listed (Arrives user' ip now)) as (_ & _ & El & _).
      cbn [deviceEvent fst] in El. rewrite E in El. cbn [snd] in El. split; cbn [fst snd]; unfold within, newAddresses, deviceLimit in *; by rewrite ?Ho, ?Hp, ?El.
  - pose proof (snapshot_within trafficMin onlineMin n h user ltac:(eauto) Hc Hl) as Hsw. unfold snapshot in *.
    destruct (snapshotAllPending _ _ _ _) as [[pending1 t1] h1].
    destruct (snapshotUsers _ _ _ _ _ _ _ _) as [[[[t2 alive2] online2] previous2] h2] eqn:E. cbn [fst snd] in Hsw. split; cbn [fst snd online previous]; [done| |].
    + assert (online2 !! user = None) as Hon; [|unfold set_of; by rewrite Hon]. eapply snapshotUsers_online; [exact E|eauto|]. left. destruct Hc as [p Hc].
      apply list_elem_of_fmap. exists (user, p). split; [done|]. by apply elem_of_range_string.
    + eapply snapshotUsers_listed in E as [Hnil|Hk]; [| |done|done|done|by left]; [|done]. intros v Hv. rewrite Hnil in Hv. by apply elem_of_nil in Hv.
  - destruct (restoreAlive_bounded user uid (range_int listed) n) as ([Hw' He'] & _ & Hp); try done.
    { intros values value Hin%elem_of_range_int Hv. apply Hli. by rewrite Hin. }
    split; cbn [fst snd]; [done..|]. by rewrite Hp.
Qed.

(** C24: the device limit holds.  Take a user with a device limit at a moment at
    which it has no address and no report is under way.  Whatever
    addresses the users of the node connect from, whenever reports are taken, and
    whenever the addresses of a report that failed are put back: the user never has
    more addresses than its limit that were not online at the last report (the
    addresses of the previous period are let in again without being counted), and
    never more than 256 addresses are kept.  The user's number belongs to one key
    of the list, which has a counter, as every key has; the panel's count of its
    devices elsewhere is not negative, and the user list does not change meanwhile. *)
Theorem device_limit_enforced events n user uid :
  users n !! user = Some uid -> (forall user', users n !! user' = Some uid -> user' = user) -> is_Some (counters n !! user) ->
  0 < deviceLimit n user -> 0 <= default 0 (alive n !! uid) -> set_of (online n) user = ∅ ->
  let n' := fst (fold_left deviceEvent events (n, ∅)) in
  addressCount (set_of (online n') user ∖ set_of (previous n') user) <= deviceLimit n user /\ addressCount (set_of (online n') user) <= 256.
Proof.
  intros Hu Huniq Hc Hl Ha Ho.
  assert (forall st, users (fst st) = users n -> counters (fst st) = counters n -> limits (fst st) = limits n -> alive (fst st) = alive n ->
    bounded user uid st -> let st' := fold_left deviceEvent events st in bounded user uid st' /\ limits (fst st') = limits n) as Hrun.
  { induction events as [|e events IH]; intros [n0 listed] Eu Ec El Ea Hb; [done|]. cbn [fold_left fst] in *.
    destruct (deviceEvent_config n0 listed e) as (Eu' & Ec' & El' & Ea'). apply IH; [congruence..|].
    apply deviceEvent_bounded; rewrite ?Eu, ?Ec, ?Ea; try done. unfold deviceLimit in *. by rewrite El. }
  destruct (Hrun (n, ∅)) as [[[Hw Hs] _ _] El]; try done.
  - split; cbn [fst snd]; [|by rewrite Ho|by intros v Hv; rewrite lookup_empty in Hv; apply elem_of_nil in Hv].
    unfold within, newAddresses, addressCount. rewrite Ho. unfold maxRestoredAliveIPsPerUser. split; [|rewrite map_size_empty; lia].
    assert ((∅ : stringSet) ∖ set_of (previous n) user = ∅) as ->; [|rewrite map_size_empty; lia].
    apply map_eq. intros k. apply eq_None_not_Some. intros [x [Hx _]%lookup_difference_Some]. by rewrite lookup_empty in Hx.
  - unfold within, newAddresses, deviceLimit in *. rewrite El in Hw. done.
Qed.

End Devices.

(** ** Speed *)

Lemma waitRate_loop_total WaitN burst fuel : forall bytes, 0 < burst -> (Z.to_nat bytes < fuel)%nat ->
  (forall n, 0 < n <= burst -> is_ok (WaitN n) = true) ->
  exists chunks, waitRate_loop WaitN fuel burst bytes = Ok chunks /\ foldr Z.add 0 chunks = Z.max 0 bytes /\ Forall (fun c => 0 < c <= burst) chunks.
Proof.
  induction fuel as [|fuel IH]; intros bytes Hb Hf Hok; [lia|]. cbn. destruct (Z.ltb_spec 0 bytes) as [Hpos|Hneg].
  - specialize (Hok (Z.min bytes burst) ltac:(lia)) as Hw. destruct (WaitN _) as [[]| |]; [|done..]. cbn.
    destruct (IH (bytes - Z.min bytes burst)) as (chunks & -> & Hs & Hall); [done|lia|done|].
    exists (Z.min bytes burst :: chunks). cbn. split; [done|]. split; [lia|]. constructor; [lia|done].
  - exists []. cbn. split; [done|]. split; [lia|constructor].
Qed.

(** A limited transfer always gets through.  When the limiter serves every
    request that is not above its burst, [waitRate] terminates, having asked
    for exactly the bytes of the transfer, in pieces that are never empty and
    never above the burst (above it the limiter would refuse). *)
Theorem waitRate_total WaitN limit bytes :
  (forall n, 0 < n <= snd limit -> is_ok (WaitN n) = true) -> 0 < snd limit ->
  exists chunks, waitRate WaitN (Some limit) bytes = Ok chunks /\ foldr Z.add 0 chunks = Z.max 0 bytes /\ Forall (fun c => 0 < c <= snd limit) chunks.
Proof.
  intros Hok Hb. destruct limit as [id burst]. cbn [snd] in *. unfold waitRate. destruct (Z.leb_spec bytes 0) as [Hneg|Hpos].
  - exists []. cbn. split; [done|]. split; [lia|constructor].
  - rewrite (proj2 (Z.leb_gt burst 0)) by done. apply waitRate_loop_total; [done|lia|done].
Qed.

Lemma waitRate_total_witness : exists chunks, waitRate (fun n => if n <=? 1000 then Ok tt else Err (ENew "burst")) (Some (0%nat, 1000)) 2500 = Ok chunks
  /\ foldr Z.add 0 chunks = 2500 /\ Forall (fun c => 0 < c <= 1000) chunks.
Proof.
  apply (waitRate_total (fun n => if n <=? 1000 then Ok tt else Err (ENew "burst")) (0%nat, 1000) 2500); cbn [snd].
  - intros n [_ Hn]. by rewrite (proj2 (Z.leb_le n 1000) Hn).
  - lia.
Defined.

(** The limit is exact for any speed a panel would set. *)
Lemma speedLimit_exact mbps : 0 < mbps <= 2 ^ 43 -> speedLimitBytesPerSecond mbps = 125000 * mbps.
Proof.
  intros [H1 H2]. unfold speedLimitBytesPerSecond. rewrite (proj2 (Z.leb_gt mbps 0)) by lia.
  rewrite (int64_id (mbps * 1000)) by lia. rewrite int64_id by lia.
  replace (mbps * 1000 * 1000) with (125000 * mbps * 8) by lia. rewrite Z.quot_mul by lia.
  by rewrite (proj2 (Z.ltb_ge _ _)) by lia.
Qed.

(** The product overflows for a speed above 2^63 / 10^6: no limit at all. *)
Lemma speedLimit_overflow : speedLimitBytesPerSecond (10 ^ 13) < 0 /\ fst (newRateLimiter (10 ^ 13) emptyHeap) = None.
Proof. split; vm_compute; reflexivity. Qed.

(** ** A node with a device limit *)

Module LimitsDemo.
#[local] Existing Instance demoEnv.
Import AccountingDemo.

Definition node : nodeTraffic := default zeroNode (nodes t1 !! "node").
Definition arrivals : list DeviceEvent :=
  [Arrives "a" "10.0.0.1" now; Arrives "a" "10.0.0.2" now; Arrives "a" "10.0.0.3" now; Reports 1 0 (heap t1); Restores; Arrives "a" "10.0.0.3" now].

Lemma node_users user : users node !! user = Some 7 -> user = "a".
Proof.
  intros H. assert (E : users node = {["a" := 7]}) by (vm_compute; reflexivity). rewrite E in H. by apply lookup_singleton_Some in H as [-> _].
Qed.

(** Two devices: the third address is refused, until a report is taken; the
    report fails, and the addresses it listed are online again. *)
Lemma device_limit_enforced_witness :
  let n' := fst (fold_left deviceEvent arrivals (node, ∅)) in
  (addressCount (set_of (online n') "a" ∖ set_of (previous n') "a") <= 2 /\ addressCount (set_of (online n') "a") <= 256) /\
  fst (markOnline "a" "10.0.0.3" now (fst (fold_left deviceEvent (firstn 2 arrivals) (node, ∅)))) = false /\
  size (set_of (online n') "a") = 3%nat.
Proof.
  split; [|split; vm_compute; reflexivity].
  apply (device_limit_enforced arrivals node "a" 7); [vm_compute; reflexivity|exact node_users|vm_compute; eauto|vm_compute; reflexivity|vm_compute; congruence|].
  vm_compute. reflexivity.
Defined.
End LimitsDemo.
