(* ===== verification/PanelController.v ===== *)
(** * The controller of a panel node (service/v2board/controller.go)

    A controller fetches the configuration and the users of a node from the
    panel, has the inbound manager serve them, has the tracker count them, and
    reports to the panel.  The world of a controller is its own state, the
    inbound manager and the tracker, with the reports of its status so far.

    Parameters: what the panel answers and what starting, stopping and creating
    inbounds does (given to each call), SHA-256 and the JSON encoding that are
    hashed, [time.Parse], the text of an error, and [BuildInbound], the field by
    field translation of a node to an inbound (service/v2board/mapper.go). *)
From Stdlib Require Import ZArith Lia Bool.
From S2P Require Import Prelude GoIO DnsMsg Metadata RuleItem DemoEnv RuleEngine RuleTheorems SavedBinary OutboundManager InboundManager DnsRouter PanelRules PanelUsers.
From S2P Require Import RouteMatch RouteOptions RouteRule RouteRouter PanelTracker.

(** ** Data *)

(** What the controller reads of a [ServerConfig]; [Rest] is the rest of it. *)
Record ServerConfig {Rest : Type} := mkServerConfig {
  sc_Protocol : string;
  sc_ConfigRevision : string;
  sc_Routes : list ServerRoute;
  sc_hasBaseConfig : bool;
  sc_rest : Rest;
}.
Arguments ServerConfig : clear implicits.

Record NodeInfo {Rest : Type} := mkNodeInfo {
  ni_Type : string;
  ni_Security : Z;
  ni_PushInterval : Z;
  ni_PullInterval : Z;
  ni_NodeReportMinTraffic : Z;
  ni_DeviceOnlineMinTraffic : Z;
  ni_Common : option (ServerConfig Rest);
}.
Arguments NodeInfo : clear implicits.

Record NodeStatus := mkNodeStatus { Ready : bool; AppliedRevision : string; AppliedFeatures : list string }.

(** The options of a node that change, or that the tracker is given. *)
Record effectiveNodeOptions := mkNodeOptions {
  no_Tag : string;
  no_NodeID : Z;
  no_PullInterval : Z;
  no_PushInterval : Z;
  no_NodeReportMinTraffic : Z;
  no_DeviceOnlineMinTraffic : Z;
}.

Definition ErrNotModified : go_error := ENew "v2board: not modified".
Definition ErrEmptyUserList : go_error := ENew "v2board: empty user list".
Definition Canceled : go_error := ENew "context canceled".

Definition second : Z := 10 ^ 9.
Definition minimumInterval : Z := 5 * second.
Definition maxControllerBackoff : Z := 300 * second.
Definition shadowsocksAppliedFeatures : list string := ["shadowsocks-uot-v1"; "shadowsocks-uot-v2"; "shadowsocks-sing-mux-v1"].

Definition firstNonEmpty (a b : string) : string := if String.eqb a "" then b else a.

Definition normalizeInterval (interval : Z) : Z :=
  if (0 <? interval) && (interval <? minimumInterval) then minimumInterval else interval.

(** ** Delays *)

Record controllerBackoff := mkBackoff { bo_attempt : Z; bo_delay : Z }.

Definition runtimeInterval (duration : Z) : Z := if duration <=? 0 then 60 * second else duration.

(** [seed] is the first two bytes of the hash, as a number. *)
Definition jitterInterval (seed : Z) (duration : Z) : Z :=
  if duration <=? 0 then duration
  else
    let offset := seed mod 41 - 20 in
    let jittered := int64 (duration + Z.quot (int64 (duration * offset)) 100) in
    if jittered <? minimumInterval then minimumInterval else if maxControllerBackoff <? jittered then maxControllerBackoff else jittered.

Definition Backoff_Next (seed : Z -> Z -> Z) (base : Z) (failed : bool) (b : controllerBackoff) : Z * controllerBackoff :=
  let base := runtimeInterval base in
  if negb failed then (base, mkBackoff 0 0)
  else
    let delay :=
      if bo_delay b <? base then base
      else let doubled := int64 (bo_delay b * 2) in if maxControllerBackoff <? doubled then maxControllerBackoff else doubled in
    let attempt := bo_attempt b + 1 in
    (jitterInterval (seed attempt delay) delay, mkBackoff attempt delay).

Section Controller.
Context `{GE : GoEnv} `{GR : GoRange} {Rest Opts : Type}.
Context (sha256 : list byte -> list byte) (json_Marshal : string -> Z -> option (ServerConfig Rest) -> list byte).
Context (time_Parse : string -> string -> option Time) (Error_ : go_error -> string).

(** [option.Inbound]: the type and the options; the zero value has the type "". *)
Abbreviation InboundSpec := (string * option Opts)%type.
Context (BuildInbound : string -> NodeInfo Rest -> list UserInfo -> result InboundSpec).
Context (endpoint_Get : string -> option (Inbound (option Opts))).

Record Controller := mkController {
  options : effectiveNodeOptions;
  node : option (NodeInfo Rest);
  c_users : list UserInfo;
  activeUsers : list UserInfo;
  aliveList : gmap Z Z;
  aliveUpdated : Time;
  nodeHash : list byte;
  userHash : list byte;
  current : InboundSpec;
  inboundReady : bool;
  pendingBuild : bool;
  statusSupported : bool;
  statusReady : bool;
  appliedRevision : string;
  appliedFeatures : list string;
  statusRunning : bool;
  closed : bool;
}.

Record World := mkWorld {
  ctl : Controller;
  mgr : InboundManager (option Opts);
  trk : TrafficTracker;
  statusWake : bool;                (* the channels hold one element at most *)
  statusReset : bool;
  statuses : list NodeStatus;       (* statuses sent to the panel *)
}.

Definition NewController (o : effectiveNodeOptions) : Controller :=
  mkController o None [] [] ∅ zeroTime (repeat x00 32) (repeat x00 32) ("", None) false false false false "" [] false false.

(** The digest of a node leaves BaseConfig out. *)
Definition digestNode (n : NodeInfo Rest) : list byte :=
  sha256 (json_Marshal (ni_Type n) (ni_Security n)
    (option_map (fun c => mkServerConfig _ (sc_Protocol c) (sc_ConfigRevision c) (sc_Routes c) false (sc_rest c)) (ni_Common n))).

Definition shadowsocksStatusRevision (n : option (NodeInfo Rest)) : string * bool :=
  match n with
  | Some n =>
      match ni_Common n with
      | Some common =>
          if String.eqb (normalizeNodeType (firstNonEmpty (ni_Type n) (sc_Protocol common))) TypeShadowsocks
          then let revision := strings_TrimSpace (sc_ConfigRevision common) in (revision, negb (String.eqb revision ""))
          else ("", false)
      | None => ("", false)
      end
  | None => ("", false)
  end.

(** ** Updates of the record *)

Definition set_ctl (f : Controller -> Controller) (w : World) : World :=
  mkWorld (f (ctl w)) (mgr w) (trk w) (statusWake w) (statusReset w) (statuses w).
Definition set_mgr (m : InboundManager (option Opts)) (w : World) : World :=
  mkWorld (ctl w) m (trk w) (statusWake w) (statusReset w) (statuses w).
Definition set_trk (t : TrafficTracker) (w : World) : World :=
  mkWorld (ctl w) (mgr w) t (statusWake w) (statusReset w) (statuses w).

Definition with_node (n : option (NodeInfo Rest)) (supported : bool) (c : Controller) : Controller :=
  mkController (options c) n (c_users c) (activeUsers c) (aliveList c) (aliveUpdated c) (nodeHash c) (userHash c) (current c)
    (inboundReady c) (pendingBuild c) supported (statusReady c) (appliedRevision c) (appliedFeatures c) (statusRunning c) (closed c).
Definition with_options (o : effectiveNodeOptions) (c : Controller) : Controller :=
  mkController o (node c) (c_users c) (activeUsers c) (aliveList c) (aliveUpdated c) (nodeHash c) (userHash c) (current c)
    (inboundReady c) (pendingBuild c) (statusSupported c) (statusReady c) (appliedRevision c) (appliedFeatures c) (statusRunning c) (closed c).
Definition with_nodeHash (h : list byte) (c : Controller) : Controller :=
  mkController (options c) (node c) (c_users c) (activeUsers c) (aliveList c) (aliveUpdated c) h (userHash c) (current c)
    (inboundReady c) (pendingBuild c) (statusSupported c) (statusReady c) (appliedRevision c) (appliedFeatures c) (statusRunning c) (closed c).
Definition with_users (u active : list UserInfo) (h : list byte) (c : Controller) : Controller :=
  mkController (options c) (node c) u active (aliveList c) (aliveUpdated c) (nodeHash c) h (current c)
    (inboundReady c) (pendingBuild c) (statusSupported c) (statusReady c) (appliedRevision c) (appliedFeatures c) (statusRunning c) (closed c).
Definition with_alive (a : gmap Z Z) (t : Time) (c : Controller) : Controller :=
  mkController (options c) (node c) (c_users c) (activeUsers c) a t (nodeHash c) (userHash c) (current c)
    (inboundReady c) (pendingBuild c) (statusSupported c) (statusReady c) (appliedRevision c) (appliedFeatures c) (statusRunning c) (closed c).
Definition with_current (i : InboundSpec) (c : Controller) : Controller :=
  mkController (options c) (node c) (c_users c) (activeUsers c) (aliveList c) (aliveUpdated c) (nodeHash c) (userHash c) i
    (inboundReady c) (pendingBuild c) (statusSupported c) (statusReady c) (appliedRevision c) (appliedFeatures c) (statusRunning c) (closed c).
Definition with_ready (b : bool) (c : Controller) : Controller :=
  mkController (options c) (node c) (c_users c) (activeUsers c) (aliveList c) (aliveUpdated c) (nodeHash c) (userHash c) (current c)
    b (pendingBuild c) (statusSupported c) (statusReady c) (appliedRevision c) (appliedFeatures c) (statusRunning c) (closed c).
Definition with_pending (b : bool) (c : Controller) : Controller :=
  mkController (options c) (node c) (c_users c) (activeUsers c) (aliveList c) (aliveUpdated c) (nodeHash c) (userHash c) (current c)
    (inboundReady c) b (statusSupported c) (statusReady c) (appliedRevision c) (appliedFeatures c) (statusRunning c) (closed c).
Definition with_closed (c : Controller) : Controller :=
  mkController (options c) (node c) (c_users c) (activeUsers c) (aliveList c) (aliveUpdated c) (nodeHash c) (userHash c) (current c)
    (inboundReady c) (pendingBuild c) (statusSupported c) (statusReady c) (appliedRevision c) (appliedFeatures c) (statusRunning c) true.

(** ** Status *)

Definition updateAppliedStatus (ready : bool) (c : Controller) : Controller :=
  let '(revision, supported) := shadowsocksStatusRevision (node c) in
  let statusReady := supported && ready in
  mkController (options c) (node c) (c_users c) (activeUsers c) (aliveList c) (aliveUpdated c) (nodeHash c) (userHash c) (current c)
    (inboundReady c) (pendingBuild c) supported statusReady (if statusReady then revision else "")
    (if statusReady then shadowsocksAppliedFeatures else []) (statusRunning c) (closed c).

(** [reportStatus]; [failed] is the outcome of the request. *)
Definition reportStatus (failed : option go_error) (w : World) : option go_error * World :=
  let c := ctl w in
  let supported := statusSupported c || snd (shadowsocksStatusRevision (node c)) in
  if negb supported || closed c then (None, w)
  else (failed, mkWorld c (mgr w) (trk w) (statusWake w) (statusReset w)
                  (statuses w ++ [mkNodeStatus (statusReady c) (appliedRevision c) (appliedFeatures c)])).

Definition reportStatusBestEffort (failed : option go_error) (w : World) : World :=
  if statusRunning (ctl w) && negb (closed (ctl w))
  then mkWorld (ctl w) (mgr w) (trk w) true (statusReset w) (statuses w)
  else match reportStatus failed w with
       | (Some _, w) => w
       | (None, w) => mkWorld (ctl w) (mgr w) (trk w) (statusWake w) true (statuses w)
       end.

Definition reportUnavailableStatusBestEffort (failed : option go_error) (w : World) : World :=
  let c := ctl w in
  if closed c || (inboundReady c && negb (String.eqb (fst (current c)) "")) then w
  else reportStatusBestEffort failed (set_ctl (fun c => updateAppliedStatus false (with_ready false c)) w).

(** ** The inbound *)

(** What the calls of one synchronisation meet, in the order of the code. *)
Record ApplyIO := mkApplyIO {
  create1 : InboundIO (option Opts);
  remove1 : InboundIO (option Opts);
  create2 : InboundIO (option Opts);
  restore : InboundIO (option Opts);
  statusError : option go_error;
  closeMeanwhile : option (InboundIO (option Opts));   (* Close runs while no lock is held *)
}.

Definition strings_Contains_conflict (message : string) : bool :=
  strings_Contains message "address already in use" || strings_Contains message "only one usage of each socket address".
Definition isLikelyListenConflict (err : go_error) : bool := strings_Contains_conflict (strings_ToLower (Error_ err)).

Definition tag_of (w : World) : string := no_Tag (options (ctl w)).

Definition createInbound (io : InboundIO (option Opts)) (i : InboundSpec) (w : World) : result unit * World :=
  let '(r, m) := InboundManager_Create io (tag_of w) (fst i) (snd i) (mgr w) in (r, set_mgr m w).
Definition removeInbound (io : InboundIO (option Opts)) (w : World) : result unit * World :=
  let '(r, m) := InboundManager_Remove io (tag_of w) (mgr w) in (r, set_mgr m w).

Definition restoreCurrentInbound (io : InboundIO (option Opts)) (w : World) : result unit * World :=
  if String.eqb (fst (current (ctl w))) "" then (Ok tt, w) else createInbound io (current (ctl w)) w.

Definition not_ready (c : Controller) : Controller := updateAppliedStatus false (with_ready false c).
Definition gave_up (c : Controller) : Controller := updateAppliedStatus false (with_ready false (with_current ("", None) c)).

(** An error of [Remove] other than os.ErrInvalid. *)
Definition remove_failed (r : result unit) : option go_error :=
  match r with Err e => if errors_Is e ErrInvalid then None else Some e | _ => None end.

(** The body of [applyInbound] under the lock, and whether the status is reported after it. *)
Definition applyInbound_locked (io : ApplyIO) (i : InboundSpec) (w : World) : result unit * bool * World :=
  if closed (ctl w) then (Err Canceled, false, w)
  else
    match createInbound (create1 io) i w with
    | (Ok _, w) => (Ok tt, false, set_ctl (with_current i) w)
    | (Panic p, w) => (Panic p, false, w)
    | (Err err, w) =>
        let idle := negb (inboundReady (ctl w)) || String.eqb (fst (current (ctl w))) "" in
        if idle || negb (isLikelyListenConflict err)
        then (Err err, idle, if idle then set_ctl not_ready w else w)
        else
          match removeInbound (remove1 io) w with
          | (Panic p, w) => (Panic p, false, w)
          | (r, w) =>
              match remove_failed r with
              | Some removeErr =>
                  let failed := EErrors err (ECause removeErr "remove previous inbound") in
                  match InboundManager_Get endpoint_Get (tag_of w) (mgr w) with
                  | Some _ => (Err failed, false, w)
                  | None =>
                      match restoreCurrentInbound (restore io) w with
                      | (Ok _, w) => (Err failed, false, w)
                      | (Panic p, w) => (Panic p, false, w)
                      | (Err restoreErr, w) =>
                          (Err (EErrors failed (ECause restoreErr "restore previous inbound after failed removal")), true, set_ctl gave_up w)
                      end
                  end
              | None =>
                  match createInbound (create2 io) i w with
                  | (Ok _, w) => (Ok tt, false, set_ctl (with_current i) w)
                  | (Panic p, w) => (Panic p, false, w)
                  | (Err replaceErr, w) =>
                      match restoreCurrentInbound (restore io) w with
                      | (Ok _, w) => (Err replaceErr, false, w)
                      | (Panic p, w) => (Panic p, false, w)
                      | (Err restoreErr, w) =>
                          (Err (EErrors replaceErr (ECause restoreErr "restore previous inbound after failed replacement")), true, set_ctl gave_up w)
                      end
                  end
              end
          end
    end.

Definition applyInbound (io : ApplyIO) (i : InboundSpec) (w : World) : result unit * World :=
  let '(r, reportNotReady, w) := applyInbound_locked io i w in
  (r, if reportNotReady then reportStatusBestEffort (statusError io) w else w).

(** The tracker follows the users and the rules that are served. *)
Definition trackUsers (nodeType : string) (users : list UserInfo) (rules : nodeRules) (w : World) : World :=
  let c := ctl w in
  set_trk (updateNode (no_Tag (options c)) nodeType (no_NodeID (options c)) users (aliveList c) (aliveUpdated c) (no_PullInterval (options c)) rules (trk w)) w.

Definition clearInbound (io : ApplyIO) (rules : nodeRules) (w : World) : result unit * World :=
  if closed (ctl w) then (Err Canceled, w)
  else
    match removeInbound (remove1 io) w with
    | (Panic p, w) => (Panic p, w)
    | (r, w) =>
        let cleared (ready : bool) :=
          set_ctl (fun c => updateAppliedStatus false (with_ready ready c))
            (trackUsers (fst (current (ctl w))) [] rules (set_ctl (with_current ("", None)) w)) in
        match remove_failed r with
        | Some err =>
            match InboundManager_Get endpoint_Get (tag_of w) (mgr w) with
            | Some _ => (Err err, w)
            | None => (Err err, reportStatusBestEffort (statusError io) (cleared false))
            end
        | None => (Ok tt, reportStatusBestEffort (statusError io) (cleared true))
        end
    end.

(** [Close]; [clientClose] is the outcome of closing the client. *)
Definition Controller_Close (io : InboundIO (option Opts)) (clientClose : option go_error) (w : World) : result unit * World :=
  if closed (ctl w) then (Ok tt, w)
  else
    let w := set_ctl (fun c => updateAppliedStatus false (with_closed c)) w in
    match removeInbound io w with
    | (Panic p, w) => (Panic p, w)
    | (r, w) =>
        let w := set_trk (DeleteNode (tag_of w) (trk w)) w in
        let final := if snd (shadowsocksStatusRevision (node (ctl w))) then [mkNodeStatus false "" []] else [] in
        (match remove_failed r, clientClose with
         | Some e, Some e' => Err (EErrors e e')
         | Some e, None | None, Some e => Err e
         | None, None => Ok tt
         end,
         mkWorld (ctl w) (mgr w) (trk w) (statusWake w) (statusReset w) (statuses w ++ final))
    end.

Definition rebuildInbound (io : ApplyIO) (w : World) : result unit * World :=
  match node (ctl w) with
  | None => (Panic "nil pointer dereference", w)
  | Some n =>
      match ni_Common n with
      | None => (Panic "nil pointer dereference", w)
      | Some common =>
          match buildNodeRules (sc_Routes common) with
          | Err e => (Err e, reportUnavailableStatusBestEffort (statusError io) w)
          | Panic p => (Panic p, w)
          | Ok rules =>
              if negb (nonempty (activeUsers (ctl w))) then clearInbound io rules w
              else
                match BuildInbound (tag_of w) n (activeUsers (ctl w)) with
                | Err e => (Err e, reportUnavailableStatusBestEffort (statusError io) w)
                | Panic p => (Panic p, w)
                | Ok inbound =>
                    match applyInbound io inbound w with
                    | (Ok _, w) =>
                        let w := match closeMeanwhile io with Some close => snd (Controller_Close close None w) | None => w end in
                        if closed (ctl w) then (Err Canceled, w)
                        else
                          let w := trackUsers (fst inbound) (activeUsers (ctl w)) rules w in
                          let w := set_ctl (fun c => updateAppliedStatus true (with_ready true c)) w in
                          (Ok tt, reportStatusBestEffort (statusError io) w)
                    | failed => failed
                    end
                end
          end
      end
  end.

(** ** Synchronisation *)

(** What the panel answers; [None] for a nil slice of users. *)
Record Panel := mkPanel {
  now : Time;
  getNodeInfo : option (NodeInfo Rest) * option go_error;
  getUserList : option (list UserInfo) * option go_error;
  getAliveList : gmap Z Z * option go_error;
  aliveNow : Time;
}.

Definition applyPanelIntervals (n : NodeInfo Rest) (w : World) : World :=
  let o := options (ctl w) in
  let pull := if 0 <? ni_PullInterval n then normalizeInterval (ni_PullInterval n) else no_PullInterval o in
  let push := if 0 <? ni_PushInterval n then normalizeInterval (ni_PushInterval n) else no_PushInterval o in
  let base := match ni_Common n with Some common => sc_hasBaseConfig common | None => false end in
  let o' := mkNodeOptions (no_Tag o) (no_NodeID o) pull push
    (if base then ni_NodeReportMinTraffic n else no_NodeReportMinTraffic o)
    (if base then ni_DeviceOnlineMinTraffic n else no_DeviceOnlineMinTraffic o) in
  mkWorld (with_options o' (ctl w)) (mgr w) (trk w) (statusWake w) (statusReset w || negb (push =? no_PushInterval o)) (statuses w).

(** A node that was fetched; the digest tells whether it changed. *)
Definition storeNode (n : NodeInfo Rest) (w : World) : bool * World :=
  let w := applyPanelIntervals n (set_ctl (with_node (Some n) (snd (shadowsocksStatusRevision (Some n)))) w) in
  if decide (digestNode n = nodeHash (ctl w)) then (false, w) else (true, set_ctl (with_nodeHash (digestNode n)) w).

Definition storeUsers (now : Time) (users : option (list UserInfo)) (w : World) : bool * World :=
  let all := default (c_users (ctl w)) users in
  let active := activePanelUsers time_Parse all now in
  let hash := digestUsers sha256 active in
  (negb (bool_decide (hash = userHash (ctl w))), set_ctl (with_users all active hash) w).

Definition storeAlive (p : Panel) (w : World) : World :=
  let w := set_ctl (with_alive (fst (getAliveList p)) (aliveNow p)) w in
  if inboundReady (ctl w)
  then set_trk (updateAliveList (tag_of w) (fst (getAliveList p)) (aliveNow p) (no_PullInterval (options (ctl w))) (trk w)) w
  else w.

(** [sync], once node and users are known. *)
Definition sync_apply (io : ApplyIO) (users : option (list UserInfo)) (changed : bool) (w : World) : result unit * World :=
  match node (ctl w) with
  | None =>
      if (match users with Some _ => true | None => false end) && negb (nonempty (activeUsers (ctl w))) then clearInbound io noRules w
      else (Err (ENew "node config not loaded"), w)
  | Some _ =>
      if negb changed && inboundReady (ctl w) && negb (pendingBuild (ctl w)) then (Ok tt, w)
      else
        match rebuildInbound io (set_ctl (with_pending true) w) with
        | (Ok _, w) => (Ok tt, set_ctl (with_pending false) w)
        | failed => failed
        end
  end.

Definition sync_users (p : Panel) (io : ApplyIO) (users : option (list UserInfo)) (nodeChanged : bool) (w : World) : result unit * World :=
  let '(usersChanged, w) := storeUsers (now p) users w in
  match snd (getAliveList p) with
  | Some err => if errors_Is err Canceled then (Err err, w) else sync_apply io users (nodeChanged || usersChanged) w
  | None => sync_apply io users (nodeChanged || usersChanged) (storeAlive p w)
  end.

Definition sync (p : Panel) (io : ApplyIO) (w : World) : result unit * World :=
  let fetched :=
    match getNodeInfo p with
    | (n, None) => Ok (n, None)
    | (n, Some err) =>
        if errors_Is err ErrNotModified then Ok (None, None)
        else if errors_Is err ErrEmptyUserList then Ok (n, Some []) else Err err
    end in
  match fetched with
  | Panic s => (Panic s, w)
  | Err err => (Err err, w)
  | Ok (n, users) =>
      let '(nodeChanged, w) := match n with Some n => storeNode n w | None => (false, w) end in
      match users with
      | Some users => sync_users p io (Some users) nodeChanged w
      | None =>
          match getUserList p with
          | (users, None) => sync_users p io users nodeChanged w
          | (_, Some err) =>
              if errors_Is err ErrNotModified then sync_users p io None nodeChanged w
              else (Err err, reportUnavailableStatusBestEffort (statusError io) w)
          end
      end
  end.

(** ** Reports *)

(** [reportTraffic] and [reportOnline] are the outcomes of the two requests. *)
Definition push (reportTraffic : list UserTraffic -> option go_error) (reportOnline : gmap Z (list string) -> option go_error) (w : World)
    : result unit * World :=
  if negb (inboundReady (ctl w)) then (Ok tt, w)
  else
    let o := options (ctl w) in
    let '(traffic, alive, t) := Snapshot (no_Tag o) (no_NodeReportMinTraffic o) (no_DeviceOnlineMinTraffic o) (trk w) in
    match reportTraffic traffic with
    | Some err =>
        let t := if nonempty traffic then RestoreTraffic (no_Tag o) traffic t else t in
        let t := if (0 <? size alive)%nat then RestoreAlive (no_Tag o) alive t else t in
        (Err err, set_trk t w)
    | None =>
        match reportOnline alive with
        | Some err => (Err err, set_trk (if (0 <? size alive)%nat then RestoreAlive (no_Tag o) alive t else t) w)
        | None => (Ok tt, set_trk t w)
        end
    end.
End Controller.
