(* ===== verification/PanelControllerTheorems.v ===== *)
(** * Theorems on the controller of a panel node

    - What is served is what is tracked: the users the inbound was built from
      are those the tracker counts and limits, the rules in force are those of
      the same node, and the status reported names its revision.
    - A closed controller serves nothing.
    - Reports follow the accounting of [PanelAccounting]. *)
From Stdlib Require Import ZArith Lia Bool.
From stdpp Require Import relations.
From S2P Require Import Prelude GoIO DnsMsg Metadata RuleItem DemoEnv RuleEngine RuleTheorems SavedBinary OutboundManager InboundManager DnsRouter PanelRules PanelUsers.
From S2P Require Import RouteMatch RouteOptions RouteRule RouteRouter PanelTracker PanelTrackerTheorems PanelAccounting PanelController.

(** ** The users of a node *)

Section Users.
Context `{GE : GoEnv} `{GR : GoRange}.

(** The users of a list, by key. *)
Definition keyed (nodeType : string) (list_ : list UserInfo) : gmap string Z :=
  fold_left (fun m user => let key := userTrackerKey nodeType user in if String.eqb key "" then m else <[key := u_ID user]> m) list_ ∅.

Lemma updateUsers_users nodeType nid list_ alive aliveAt aliveTTL rs n h :
  users (fst (updateUsers nodeType nid list_ alive aliveAt aliveTTL rs n h)) = keyed nodeType list_ /\
  rules (fst (updateUsers nodeType nid list_ alive aliveAt aliveTTL rs n h)) = rs.
Proof.
  unfold updateUsers, keyed. set (m0 := mkNext _ _ _ _ _ _).
  assert (H : forall l m h, nextUsers (fst (fold_left (fun s user => updateUser nodeType n user s) l (m, h)))
    = fold_left (fun m user => let key := userTrackerKey nodeType user in if String.eqb key "" then m else <[key := u_ID user]> m) l (nextUsers m)).
  { clear. intros l. induction l as [|u l IH]; intros m h; [done|]. cbn [fold_left].
    destruct (updateUser nodeType n u (m, h)) as [m1 h1] eqn:E. rewrite IH. f_equal. unfold updateUser in E.
    destruct (String.eqb _ ""); [by injection E as <- _|]. destruct (carryCounter _ _ _ _ _) as [[? ?] ?].
    destruct (updatedUserLimit _ _ _ _). by injection E as <- _. }
  specialize (H list_ m0 h). destruct (fold_left _ list_ (m0, h)) as [m h'] eqn:E. cbn in *. done.
Qed.

Lemma updateNode_users tag nodeType nid list_ alive aliveAt aliveTTL rs t :
  exists n, nodes (updateNode tag nodeType nid list_ alive aliveAt aliveTTL rs t) !! tag = Some n /\ users n = keyed nodeType list_ /\ rules n = rs.
Proof.
  unfold updateNode, set_node. cbn. eexists. rewrite lookup_insert_eq. split; [done|]. apply updateUsers_users.
Qed.
End Users.

(** ** What is served *)

Section Serving.
Context `{GE : GoEnv} `{GR : GoRange} {Rest Opts : Type}.
Context (sha256 : list byte -> list byte) (json_Marshal : string -> Z -> option (ServerConfig Rest) -> list byte).
Context (time_Parse : string -> string -> option Time) (Error_ : go_error -> string).
Context (BuildInbound : string -> NodeInfo Rest -> list UserInfo -> result (string * option Opts)).
Context (endpoint_Get : string -> option (Inbound (option Opts))).
Context (tag : string).
Local Abbreviation World := (@World _ Rest Opts).
Local Abbreviation Controller := (@Controller Rest Opts).
Local Abbreviation IO := (InboundIO (option Opts)).

(** The inbounds are closed without an error, when [calm]. *)
Context (calm : Prop).
Definition io_ok (io : IO) : Prop := calm -> forall i, io_close io i = None.
Definition apply_ok (io : ApplyIO) : Prop :=
  io_ok (create1 io) /\ io_ok (remove1 io) /\ io_ok (create2 io) /\ io_ok (restore io) /\ (forall close, closeMeanwhile io = Some close -> io_ok close).

Definition mgr_ok (m : InboundManager (option Opts)) : Prop := im_ok m /\ im_started m = true /\ (calm -> listening m).

(** The inbound with the tag is the one the controller believes to be there. *)
Definition registered (m : InboundManager (option Opts)) (spec : string * option Opts) : Prop :=
  match inboundByTag m !! tag with
  | Some i => fst spec <> ""%string /\ ib_Type i = fst spec /\ ib_Options i = snd spec
  | None => fst spec = ""%string
  end.

(** The tracker follows what the inbound was built from, and the status names it. *)
Definition tracked (c : Controller) (t : TrafficTracker) : Prop :=
  exists n, nodes t !! tag = Some n /\
    ((fst (current c) = ""%string /\ users n = ∅ /\ statusReady c = false) \/
     (exists nd common active, ni_Common nd = Some common /\ BuildInbound tag nd active = Ok (current c) /\
        buildNodeRules (sc_Routes common) = Ok (rules n) /\ users n = keyed (fst (current c)) active /\
        (statusReady c = true -> appliedRevision c = fst (shadowsocksStatusRevision (Some nd))))).

Record serving (w : World) : Prop := {
  serving_tag : no_Tag (options (ctl w)) = tag;
  serving_mgr : mgr_ok (mgr w);
  serving_closed : closed (ctl w) = true -> inboundByTag (mgr w) !! tag = None /\ nodes (trk w) !! tag = None /\ statusReady (ctl w) = false;
  serving_registered : closed (ctl w) = false -> registered (mgr w) (current (ctl w));
  serving_tracked : closed (ctl w) = false -> inboundReady (ctl w) = true -> tracked (ctl w) (trk w);
  serving_unready : inboundReady (ctl w) = false -> statusReady (ctl w) = false;
}.

Lemma createInbound_spec io i (w : World) r w' : mgr_ok (mgr w) -> no_Tag (options (ctl w)) = tag -> io_ok io -> createInbound io i w = (r, w') ->
  ctl w' = ctl w /\ trk w' = trk w /\ mgr_ok (mgr w') /\
  match r with
  | Ok _ => exists ib, inboundByTag (mgr w') !! tag = Some ib /\ ib_Type ib = fst i /\ ib_Options ib = snd i
  | Err _ => inboundByTag (mgr w') = inboundByTag (mgr w)
  | Panic _ => False
  end.
Proof.
  intros (Hok & Hs & Hl) Ht Hio H. unfold createInbound, tag_of in H. rewrite Ht in H.
  destruct (InboundManager_Create _ _ _ _ _) as [r0 m'] eqn:E. injection H as <- <-. cbn.
  apply Create_spec in E as (Hok' & Hs' & Hr); [|done]. split; [done|]. split; [done|].
  destruct r0 as [u|e|p]; [|destruct Hr as [Hb Hl']|done].
  - destruct Hr as [(ib & -> & ? & ?) Hl']. split; [split_and!; [done|by rewrite Hs'|auto]|]. exists ib. by rewrite lookup_insert_eq.
  - split; [|done]. split_and!; [done|by rewrite Hs'|]. intros Hc. apply Hl'; auto.
Qed.

Lemma removeInbound_spec io (w : World) r w' : mgr_ok (mgr w) -> no_Tag (options (ctl w)) = tag -> removeInbound io w = (r, w') ->
  ctl w' = ctl w /\ trk w' = trk w /\ mgr_ok (mgr w') /\ inboundByTag (mgr w') !! tag = None /\ (forall p, r <> Panic p).
Proof.
  intros (Hok & Hs & Hl) Ht H. unfold removeInbound, tag_of in H. rewrite Ht in H.
  destruct (InboundManager_Remove _ _ _) as [r0 m'] eqn:E. injection H as <- <-. cbn.
  apply Remove_spec in E as (Hok' & Hb & Hs' & Hl' & Hr); [|done]. split; [done|]. split; [done|].
  split; [split_and!; [done|by rewrite Hs'|auto]|]. rewrite Hb. split; [apply lookup_delete_eq|]. intros p ->.
  destruct (inboundByTag (mgr w) !! tag); [|done]. rewrite Hs in Hr. by destruct (io_close io _).
Qed.

Lemma report_same failed (w : World) :
  ctl (reportStatusBestEffort failed w) = ctl w /\ mgr (reportStatusBestEffort failed w) = mgr w /\ trk (reportStatusBestEffort failed w) = trk w.
Proof.
  unfold reportStatusBestEffort, reportStatus. destruct (_ && _); [done|]. destruct (_ || _); [done|]. by destruct failed.
Qed.

Lemma serving_same (w w' : World) : serving w -> ctl w' = ctl w -> mgr w' = mgr w -> trk w' = trk w -> serving w'.
Proof. intros [H1 H2 H3 H4 H5 H6] Hc Hm Ht. split; rewrite ?Hc, ?Hm, ?Ht; done. Qed.

Lemma serving_report failed (w : World) : serving w -> serving (reportStatusBestEffort failed w).
Proof. intros H. destruct (report_same failed w) as (Hc & Hm & Ht). by apply (serving_same w). Qed.

Lemma status_false (c : Controller) : statusReady (updateAppliedStatus false c) = false.
Proof. unfold updateAppliedStatus. destruct (shadowsocksStatusRevision _) as [revision supported]. cbn. apply andb_false_r. Qed.

(** The fields [updateAppliedStatus] leaves. *)
Lemma status_same ready (c : Controller) :
  let c' := updateAppliedStatus ready c in
  options c' = options c /\ node c' = node c /\ activeUsers c' = activeUsers c /\ current c' = current c /\ inboundReady c' = inboundReady c /\ closed c' = closed c.
Proof. unfold updateAppliedStatus. by destruct (shadowsocksStatusRevision _). Qed.

(** A controller that is not ready. *)
Lemma serving_not_ready (w : World) c' : no_Tag (options c') = tag -> mgr_ok (mgr w) ->
  closed c' = false -> registered (mgr w) (current c') -> inboundReady c' = false -> statusReady c' = false -> serving (set_ctl (fun _ => c') w).
Proof. intros Ht Hm Hcl Hr Hrd Hst. split; cbn; try done; congruence. Qed.

Lemma serving_unavailable failed (w : World) : serving w -> serving (reportUnavailableStatusBestEffort failed w).
Proof.
  intros S. unfold reportUnavailableStatusBestEffort. destruct (closed (ctl w) || _) eqn:E; [done|].
  apply orb_false_iff in E as [Ec _]. apply serving_report.
  destruct (status_same false (with_ready false (ctl w))) as (Eo & _ & _ & Ecur & Er & Ecl).
  apply (serving_not_ready w); [rewrite Eo|..|rewrite Ecl|rewrite Ecur|rewrite Er|apply status_false]; try apply S; done.
Qed.

(** The outcome of [applyInbound]. *)
Definition applied (i : string * option Opts) (w w' : World) : Prop :=
  ctl w' = with_current i (ctl w) /\ trk w' = trk w /\ mgr_ok (mgr w') /\ registered (mgr w') i.

Context (BuildInbound_type : forall tag nd active i, BuildInbound tag nd active = Ok i -> fst i <> ""%string).
Context (no_endpoint : endpoint_Get tag = None).

Lemma registered_created (w' : World) i : fst i <> ""%string ->
  (exists ib, inboundByTag (mgr w') !! tag = Some ib /\ ib_Type ib = fst i /\ ib_Options ib = snd i) -> registered (mgr w') i.
Proof. intros Hne (ib & E & ? & ?). unfold registered. by rewrite E. Qed.

Lemma serving_managed (w w' : World) : serving w -> ctl w' = ctl w -> trk w' = trk w -> mgr_ok (mgr w') -> closed (ctl w) = false ->
  registered (mgr w') (current (ctl w)) -> serving w'.
Proof. intros [H1 H2 H3 H4 H5 H6] Hc Ht Hm Hcl Hr. split; rewrite ?Hc, ?Ht; try done. intros H. congruence. Qed.

Lemma serving_gave_up (w w' : World) : serving w -> ctl w' = ctl w -> mgr_ok (mgr w') -> closed (ctl w) = false ->
  inboundByTag (mgr w') !! tag = None -> serving (set_ctl gave_up w').
Proof.
  intros S Hc Hm Hcl Hn. apply (serving_not_ready w').
  1: unfold gave_up. all: destruct (status_same false (with_ready false (with_current ("", None) (ctl w')))) as (Eo & _ & _ & Ecur & Er & Ecl).
  - rewrite Eo. cbn. rewrite Hc. apply S.
  - done.
  - unfold gave_up. rewrite Ecl. cbn. by rewrite Hc.
  - unfold gave_up. rewrite Ecur. unfold registered. by rewrite Hn.
  - unfold gave_up. by rewrite Er.
  - apply status_false.
Qed.

(** Putting the previous inbound back. *)
Lemma restore_spec io (w w1 : World) r w2 : serving w -> closed (ctl w) = false -> ctl w1 = ctl w -> trk w1 = trk w -> mgr_ok (mgr w1) -> io_ok io ->
  fst (current (ctl w)) <> ""%string -> inboundByTag (mgr w1) !! tag = None -> restoreCurrentInbound io w1 = (r, w2) ->
  match r with Ok _ => serving w2 | Err _ => serving (set_ctl gave_up w2) | Panic _ => False end.
Proof.
  intros S Hcl Hc Ht Hm Hio Hcur Hn H. unfold restoreCurrentInbound in H. rewrite Hc in H.
  destruct (String.eqb_spec (fst (current (ctl w))) ""); [done|].
  apply createInbound_spec in H as (Hc2 & Ht2 & Hm2 & Hr); [|done|rewrite Hc; apply S|done]. rewrite Hc in Hc2. rewrite Ht in Ht2.
  destruct r as [u|e|p]; [|rewrite <- Hr in Hn|done].
  - apply (serving_managed w); try done. by apply registered_created.
  - by apply (serving_gave_up w).
Qed.

Lemma applyInbound_locked_spec io i (w : World) r report w' : serving w -> apply_ok io -> fst i <> ""%string ->
  applyInbound_locked Error_ endpoint_Get io i w = (r, report, w') ->
  match r with Ok _ => closed (ctl w) = false /\ applied i w w' | Err _ => serving w' | Panic _ => False end.
Proof.
  intros S (Io1 & Io2 & Io3 & Io4 & _) Hi H. unfold applyInbound_locked in H. destruct (closed (ctl w)) eqn:Hcl; [by injection H as <- <- <-|].
  destruct (createInbound (create1 io) i w) as [r1 w1] eqn:E1.
  apply createInbound_spec in E1 as (Hc1 & Ht1 & Hm1 & Hr1); [|apply S|apply S|done]. destruct r1 as [u|err|p]; [| |done].
  { injection H as <- <- <-. split; [done|]. unfold applied. cbn. rewrite Hc1. split; [done|]. split; [done|]. split; [done|].
    by apply (registered_created w1). }
  assert (S1 : serving w1).
  { apply (serving_managed w); try done. unfold registered. rewrite Hr1. by apply S. }
  rewrite Hc1 in H. destruct (negb (inboundReady (ctl w)) || String.eqb (fst (current (ctl w))) "") eqn:Eidle; cbn [orb] in H.
  { injection H as <- _ <-. destruct (status_same false (with_ready false (ctl w1))) as (Eo & _ & _ & Ecur & Er & Ecl).
    apply (serving_not_ready w1); unfold not_ready; rewrite ?Eo, ?Ecl, ?Ecur, ?Er; [apply S1|done|by cbn; rewrite Hc1| |done|apply status_false].
    cbn. apply S1. by rewrite Hc1. }
  apply orb_false_iff in Eidle as [_ Ecur%String.eqb_neq]. destruct (negb (isLikelyListenConflict _ err)); [by injection H as <- _ <-|].
  destruct (removeInbound (remove1 io) w1) as [r2 w2] eqn:E2.
  apply removeInbound_spec in E2 as (Hc2 & Ht2 & Hm2 & Hn2 & Hp2); [|done|rewrite Hc1; apply S]. rewrite Hc1 in Hc2. rewrite Ht1 in Ht2.
  assert (H' : match remove_failed r2 with
    | Some removeErr => exists failed failed', match restoreCurrentInbound (restore io) w2 with
        | (Ok _, w) => (Err failed, false, w) | (Panic p, w) => (Panic p, false, w) | (Err restoreErr, w) => (Err (failed' restoreErr), true, set_ctl gave_up w) end = (r, report, w')
    | None => match createInbound (create2 io) i w2 with
        | (Ok _, w) => (Ok tt, false, set_ctl (with_current i) w)
        | (Panic p, w) => (Panic p, false, w)
        | (Err replaceErr, w) => match restoreCurrentInbound (restore io) w with
            | (Ok _, w) => (Err replaceErr, false, w) | (Panic p, w) => (Panic p, false, w)
            | (Err restoreErr, w) => (Err (EErrors replaceErr (ECause restoreErr "restore previous inbound after failed replacement")), true, set_ctl gave_up w) end
        end = (r, report, w')
    end).
  { assert (Hget : InboundManager_Get endpoint_Get (tag_of w2) (mgr w2) = None).
    { unfold InboundManager_Get, tag_of. rewrite Hc2, (serving_tag _ S), Hn2. done. }
    rewrite Hget in H. destruct r2 as [u|e|p]; [done| |by destruct (Hp2 p)]. destruct (remove_failed (Err e)) as [removeErr|]; [|done].
    eexists (EErrors err (ECause removeErr "remove previous inbound")), _. exact H. }
  clear H. destruct (remove_failed r2) as [removeErr|].
  - destruct H' as (failed & failed' & H'). destruct (restoreCurrentInbound (restore io) w2) as [r3 w3] eqn:E3.
    eapply (restore_spec _ w) in E3; try done. destruct r3 as [u|e|p]; [| |done]; by injection H' as <- _ <-.
  - destruct (createInbound (create2 io) i w2) as [r3 w3] eqn:E3.
    apply createInbound_spec in E3 as (Hc3 & Ht3 & Hm3 & Hr3); [|done|rewrite Hc2; apply S|done]. rewrite Hc2 in Hc3. rewrite Ht2 in Ht3.
    destruct r3 as [u|e|p]; [| |done].
    + injection H' as <- _ <-. split; [done|]. unfold applied. cbn. rewrite Hc3. split; [done|]. split; [done|]. split; [done|]. by apply (registered_created w3).
    + rewrite <- Hr3 in Hn2. destruct (restoreCurrentInbound (restore io) w3) as [r4 w4] eqn:E4.
      eapply (restore_spec _ w) in E4; try done. destruct r4 as [u|e'|p]; [| |done]; by injection H' as <- _ <-.
Qed.

Lemma keyed_nil nodeType : keyed nodeType [] = ∅.
Proof. done. Qed.

Lemma clearInbound_spec io rs (w : World) r w' : serving w -> clearInbound endpoint_Get io rs w = (r, w') -> serving w' /\ (forall p, r <> Panic p).
Proof.
  intros S H. unfold clearInbound in H. destruct (closed (ctl w)) eqn:Hcl; [by injection H as <- <-|].
  destruct (removeInbound (remove1 io) w) as [r1 w1] eqn:E1.
  apply removeInbound_spec in E1 as (Hc1 & Ht1 & Hm1 & Hn1 & Hp1); [|apply S|apply S].
  assert (Hget : InboundManager_Get endpoint_Get (tag_of w1) (mgr w1) = None).
  { unfold InboundManager_Get, tag_of. by rewrite Hc1, (serving_tag _ S), Hn1. }
  set (cleared := fun ready => set_ctl (fun c => updateAppliedStatus false (with_ready ready c))
            (trackUsers (fst (current (ctl w1))) [] rs (set_ctl (with_current ("", None)) w1))) in *.
  assert (Hcleared : forall ready, serving (cleared ready)).
  { intros ready. unfold cleared, trackUsers. cbn.
    destruct (updateNode_users tag (fst (current (ctl w1))) (no_NodeID (options (ctl w1))) [] (aliveList (ctl w1)) (aliveUpdated (ctl w1))
      (no_PullInterval (options (ctl w1))) rs (trk w1)) as (n & Hn & Hu & _).
    destruct (status_same false (with_ready ready (with_current ("", None) (ctl w1)))) as (Eo & _ & _ & Ecur & Er & Ecl).
    split; cbn [set_ctl set_trk ctl mgr trk]; rewrite ?Eo, ?Ecur, ?Er, ?Ecl; cbn [options with_ready with_current closed current]; rewrite ?Hc1; [apply S|done| | | |].
    - congruence.
    - intros _. unfold registered. by rewrite Hn1.
    - intros _ _. exists n. rewrite (serving_tag _ S). rewrite Hc1 in Hn. split; [done|]. left. rewrite <- Hc1, Ecur, status_false. by rewrite Hu.
    - intros _. rewrite <- Hc1. apply status_false. }
  assert (H' : (r, w') = match remove_failed r1 with
    | Some err => (Err err, reportStatusBestEffort (statusError io) (cleared false))
    | None => (Ok tt, reportStatusBestEffort (statusError io) (cleared true)) end).
  { rewrite Hget in H. destruct r1 as [u|e|p]; [done| |by destruct (Hp1 p)]. by destruct (remove_failed (Err e)). }
  destruct (remove_failed r1); injection H' as -> ->; (split; [|done]); apply serving_report, Hcleared.
Qed.

Lemma serving_closed_intro (w : World) : no_Tag (options (ctl w)) = tag -> mgr_ok (mgr w) -> closed (ctl w) = true ->
  inboundByTag (mgr w) !! tag = None -> nodes (trk w) !! tag = None -> statusReady (ctl w) = false -> serving w.
Proof. intros Ht Hm Hc Hb Hn Hs. split; try done; congruence. Qed.

(** Close, whatever state the controller is in. *)
Lemma Close_spec io clientClose (w : World) r w' : no_Tag (options (ctl w)) = tag -> mgr_ok (mgr w) -> closed (ctl w) = false ->
  Controller_Close io clientClose w = (r, w') -> serving w' /\ closed (ctl w') = true.
Proof.
  intros Ht Hm Hcl H. unfold Controller_Close in H. rewrite Hcl in H.
  set (w0 := set_ctl _ w) in H. destruct (status_same false (with_closed (ctl w))) as (Eo & _ & _ & _ & _ & Ecl).
  assert (Ht0 : no_Tag (options (ctl w0)) = tag) by (cbn; by rewrite Eo).
  destruct (removeInbound io w0) as [r1 w1] eqn:E1.
  apply removeInbound_spec in E1 as (Hc1 & Ht1 & Hm1 & Hn1 & Hp1); [|done|done].
  assert (Hw : ctl w' = ctl w0 /\ mgr w' = mgr w1 /\ trk w' = DeleteNode tag (trk w1)).
  { destruct r1 as [u|e|p]; [| |by destruct (Hp1 p)]; injection H as _ <-; cbn; unfold tag_of; by rewrite Hc1, Ht0. }
  destruct Hw as (Hc' & Hm' & Ht').
  assert (Hcl' : closed (ctl w') = true) by (rewrite Hc'; cbn; by rewrite Ecl).
  split; [|done]. apply serving_closed_intro; rewrite ?Hc', ?Hm', ?Ht'; try done; [apply lookup_delete_eq|apply status_false].
Qed.

Lemma rebuildInbound_spec io (w : World) r w' : serving w -> apply_ok io ->
  rebuildInbound Error_ BuildInbound endpoint_Get io w = (r, w') -> serving w'.
Proof.
  intros S Hio H. unfold rebuildInbound in H. destruct (node (ctl w)) as [nd|] eqn:End; [|by injection H as _ <-].
  destruct (ni_Common nd) as [common|] eqn:Ec; [|by injection H as _ <-].
  destruct (buildNodeRules (sc_Routes common)) as [rs|e|p] eqn:Er; [|injection H as _ <-; by apply serving_unavailable|by injection H as _ <-].
  destruct (negb (nonempty (activeUsers (ctl w)))); [by eapply clearInbound_spec|].
  destruct (BuildInbound (tag_of w) nd (activeUsers (ctl w))) as [i|e|p] eqn:Eb; [|injection H as _ <-; by apply serving_unavailable|by injection H as _ <-].
  unfold applyInbound in H. destruct (applyInbound_locked Error_ endpoint_Get io i w) as [[r1 report] w1] eqn:E1.
  apply applyInbound_locked_spec in E1; [|done|done|by eapply BuildInbound_type].
  destruct r1 as [u|e|p]; [|injection H as _ <-; destruct report; [by apply serving_report|done]|done].
  destruct E1 as (Hcl & Hc1 & Ht1 & Hm1 & Hr1).
  assert (Hw : forall w2, w2 = (if report then reportStatusBestEffort (statusError io) w1 else w1) -> ctl w2 = ctl w1 /\ mgr w2 = mgr w1 /\ trk w2 = trk w1).
  { intros w2 ->. destruct report; [apply report_same|done]. }
  set (w2 := if report then _ else w1) in *. destruct (Hw w2 eq_refl) as (Hc2 & Hm2 & Ht2). rewrite Hc1 in Hc2.
  assert (Hcl2 : closed (ctl w2) = false) by (by rewrite Hc2).
  destruct (closeMeanwhile io) as [close|].
  { destruct (Controller_Close close None w2) as [r3 w3] eqn:E3. cbn [snd] in H.
    apply Close_spec in E3 as [S3 Hcl3]; [|rewrite Hc2; apply S|by rewrite Hm2|done]. rewrite Hcl3 in H. by injection H as _ <-. }
  rewrite Hcl2 in H. injection H as _ <-. apply serving_report.
  set (w3 := trackUsers _ _ _ w2). assert (Hc3 : ctl w3 = with_current i (ctl w)) by done.
  destruct (updateNode_users tag (fst i) (no_NodeID (options (ctl w2))) (activeUsers (ctl w2)) (aliveList (ctl w2)) (aliveUpdated (ctl w2))
      (no_PullInterval (options (ctl w2))) rs (trk w2)) as (n & Hn & Hu & Hrs).
  destruct (status_same true (with_ready true (ctl w3))) as (Eo & _ & _ & Ecur & Er' & Ecl).
  split; cbn [set_ctl ctl mgr trk]; rewrite ?Eo, ?Ecur, ?Er', ?Ecl, ?Hc3; cbn [with_ready with_current options closed current inboundReady].
  - apply S.
  - cbn. by rewrite Hm2.
  - congruence.
  - intros _. cbn. by rewrite Hm2.
  - intros _ _. exists n. split.
    { cbn. rewrite Hc2. cbn [with_current options]. rewrite (serving_tag _ S). rewrite Hc2 in Hn. cbn in Hn. done. }
    right. exists nd, common, (activeUsers (ctl w)). rewrite <- Hc3, Ecur, Hc3. cbn [with_ready with_current current fst].
    split; [done|]. split; [unfold tag_of in Eb; by rewrite (serving_tag _ S) in Eb|]. split; [by rewrite Hrs|]. split; [by rewrite Hu, Hc2|].
    unfold updateAppliedStatus. cbn [with_ready with_current node]. rewrite End.
    destruct (shadowsocksStatusRevision (Some nd)) as [rev supported]. cbn. destruct supported; cbn; done.
  - done.
Qed.

(** Changes that do not concern what is served. *)
Lemma serving_ctl (w : World) c' : serving w -> no_Tag (options c') = tag -> current c' = current (ctl w) -> inboundReady c' = inboundReady (ctl w) ->
  closed c' = closed (ctl w) -> statusReady c' = statusReady (ctl w) -> appliedRevision c' = appliedRevision (ctl w) -> serving (set_ctl (fun _ => c') w).
Proof.
  intros [H1 H2 H3 H4 H5 H6] Ht Hcur Hr Hcl Hs Ha. split; cbn; rewrite ?Hcur, ?Hr, ?Hcl, ?Hs, ?Ha; try done.
  unfold tracked. by rewrite Hcur, Hs, Ha.
Qed.

Definition users_kept (t t' : TrafficTracker) : Prop :=
  match nodes t !! tag, nodes t' !! tag with
  | Some n, Some n' => users n' = users n /\ rules n' = rules n
  | None, None => True
  | _, _ => False
  end.

Lemma users_kept_refl t : users_kept t t.
Proof. unfold users_kept. by destruct (nodes t !! tag). Qed.

Lemma users_kept_trans t1 t2 t3 : users_kept t1 t2 -> users_kept t2 t3 -> users_kept t1 t3.
Proof.
  unfold users_kept. destruct (nodes t1 !! tag), (nodes t2 !! tag), (nodes t3 !! tag); try done. intros [-> ->] [-> ->]. done.
Qed.

Lemma users_kept_set t tag' n n' h : nodes t !! tag' = Some n -> users n' = users n -> rules n' = rules n -> users_kept t (set_node tag' (n', h) t).
Proof.
  intros Hn Hu Hr. unfold users_kept, set_node. cbn. destruct (decide (tag' = tag)) as [->|Hne].
  - by rewrite Hn, lookup_insert_eq.
  - rewrite lookup_insert_ne by done. by destruct (nodes t !! tag).
Qed.

Lemma serving_trk (w : World) t : serving w -> users_kept (trk w) t -> serving (set_trk t w).
Proof.
  intros [H1 H2 H3 H4 H5 H6] Hk. unfold users_kept in Hk. split; cbn; try done.
  - intros Hc. destruct (H3 Hc) as (? & Hn & ?). rewrite Hn in Hk. destruct (nodes t !! tag); done.
  - intros Hc Hr. destruct (H5 Hc Hr) as (n & Hn & Hcase). rewrite Hn in Hk. destruct (nodes t !! tag) as [n'|] eqn:En; [|done].
    destruct Hk as [Hu Hrs]. exists n'. split; [done|]. by rewrite Hu, Hrs.
Qed.

Lemma updateAliveList_kept tag' alive aliveAt ttl t : users_kept t (updateAliveList tag' alive aliveAt ttl t).
Proof. unfold updateAliveList. destruct (nodes t !! tag') eqn:E; [by eapply users_kept_set|apply users_kept_refl]. Qed.

Lemma restoreTraffic_kept traffic : forall n h, users (fst (restoreTraffic traffic n h)) = users n /\ rules (fst (restoreTraffic traffic n h)) = rules n.
Proof.
  induction traffic as [|e traffic IH]; intros n h; [done|]. cbn [restoreTraffic].
  destruct (counterForUID (UID e) n h) as [[c n1] h1] eqn:E. destruct (IH n1 (match c with Some counter => count (Upload e) (Download e) counter h1 | None => h1 end)) as [-> ->].
  unfold counterForUID in E. destruct (_ <=? 0); [by injection E as _ <- _|]. destruct (omap _ _); [|by injection E as _ <- _].
  destruct (default [] _); [|by injection E as _ <- _]. destruct (newCounter h). by injection E as _ <- _.
Qed.

Lemma RestoreTraffic_kept tag' traffic t : users_kept t (RestoreTraffic tag' traffic t).
Proof.
  unfold RestoreTraffic. destruct (nodes t !! tag') as [n|] eqn:E; [|apply users_kept_refl]. destruct (nonempty traffic); [|apply users_kept_refl].
  destruct (restoreTraffic_kept traffic n (heap t)) as [Hu Hr]. destruct (restoreTraffic traffic n (heap t)) as [n' h]. by eapply users_kept_set.
Qed.

Lemma restoreAlive_kept entries : forall n, users (restoreAlive entries n) = users n /\ rules (restoreAlive entries n) = rules n.
Proof.
  induction entries as [|[uid values] entries IH]; intros n; [done|]. cbn [restoreAlive].
  destruct (List.filter _ _) as [|[user ?] ?]; [apply IH|]. apply (IH (set_online _ n)).
Qed.

Lemma RestoreAlive_kept tag' alive t : users_kept t (RestoreAlive tag' alive t).
Proof.
  unfold RestoreAlive. destruct (nodes t !! tag') as [n|] eqn:E; [|apply users_kept_refl]. destruct (0 <? _)%nat; [|apply users_kept_refl].
  destruct (restoreAlive_kept (range_int alive) n). by eapply users_kept_set.
Qed.

Lemma Snapshot_kept tag' trafficMin onlineMin t : users_kept t (snd (Snapshot tag' trafficMin onlineMin t)).
Proof.
  unfold Snapshot. destruct (nodes t !! tag') as [n|] eqn:E; [|apply users_kept_refl].
  destruct (snapshot trafficMin onlineMin n (heap t)) as [[[traffic alive] n'] h] eqn:Es. cbn [snd]. unfold snapshot in Es.
  destruct (snapshotAllPending _ _ _ _) as [[? ?] ?]. destruct (snapshotUsers _ _ _ _ _ _ _ _) as [[[[? ?] ?] ?] ?].
  injection Es as _ _ <- <-. by eapply users_kept_set.
Qed.

Lemma routeTracked_kept Unwrap AddrString Addr_String protocol md now t :
  users_kept t (snd (routeTracked Unwrap AddrString Addr_String protocol md now t)).
Proof.
  unfold routeTracked. destruct (match_ md t) as [[n counter]|] eqn:Em; [|apply users_kept_refl].
  assert (Hn : nodes t !! Metadata.Inbound md = Some n).
  { unfold match_ in Em. destruct (_ || _); [done|]. destruct (nodes t !! Metadata.Inbound md) as [n0|]; [|done]. destruct (counterOf n0 _); [|done]. by injection Em as -> _. }
  destruct (blocks _ _ _ _ _); [apply users_kept_refl|]. destruct (markOnline _ _ _ n) as [ok n'] eqn:Eo.
  assert (Hk : users_kept t (set_node (Metadata.Inbound md) (n', heap t) t)).
  { unfold markOnline in Eo. destruct (_ || _); [injection Eo as _ <-; by eapply users_kept_set|]. destruct (users n !! _); [|injection Eo as _ <-; by eapply users_kept_set].
    destruct (exceedsDeviceLimit _ _ _ _ _); injection Eo as _ <-; by eapply users_kept_set. }
  by destruct ok.
Qed.

(** ** Steps *)

Lemma storeNode_serving nd (w : World) : serving w -> serving (snd (storeNode sha256 json_Marshal nd w)).
Proof.
  intros S. assert (H : forall f wake reset sts, serving (set_ctl (fun _ => f) w) -> serving (mkWorld f (mgr w) (trk w) wake reset sts)).
  { intros f wake reset sts H. by eapply serving_same. }
  unfold storeNode, applyPanelIntervals. cbn [ctl set_ctl]. destruct (decide _); cbn [snd set_ctl]; apply H, serving_ctl; try done; apply S.
Qed.

Lemma storeUsers_serving at_ us (w : World) : serving w -> serving (snd (storeUsers sha256 time_Parse at_ us w)).
Proof. intros S. unfold storeUsers. cbn [snd]. apply serving_ctl; try done. apply S. Qed.

Lemma storeAlive_serving p (w : World) : serving w -> serving (storeAlive p w).
Proof.
  intros S. unfold storeAlive. assert (S1 : serving (set_ctl (with_alive (fst (getAliveList p)) (aliveNow p)) w)).
  { apply serving_ctl; try done. apply S. }
  destruct (inboundReady _); [|done]. apply serving_trk; [done|]. apply updateAliveList_kept.
Qed.

Lemma sync_apply_serving io us changed (w : World) r w' : serving w -> apply_ok io ->
  sync_apply Error_ BuildInbound endpoint_Get io us changed w = (r, w') -> serving w'.
Proof.
  intros S Hio H. unfold sync_apply in H. destruct (node (ctl w)).
  - destruct (_ && _ && _); [by injection H as _ <-|].
    destruct (rebuildInbound _ _ _ _ _) as [r1 w1] eqn:E. apply rebuildInbound_spec in E; [|apply serving_ctl; try done; apply S|done].
    destruct r1; injection H as _ <-; try done. apply serving_ctl; try done. apply E.
  - destruct (_ && _); [by eapply clearInbound_spec|by injection H as _ <-].
Qed.

Lemma sync_users_serving p io us changed (w : World) r w' : serving w -> apply_ok io ->
  sync_users sha256 time_Parse Error_ BuildInbound endpoint_Get p io us changed w = (r, w') -> serving w'.
Proof.
  intros S Hio H. unfold sync_users in H. pose proof (storeUsers_serving (now p) us w S) as S1.
  destruct (storeUsers _ _ _ _ w) as [usersChanged w1]. cbn [snd] in S1. destruct (snd (getAliveList p)) as [err|].
  - destruct (errors_Is err Canceled); [by injection H as _ <-|]. by eapply sync_apply_serving.
  - eapply sync_apply_serving; [by apply storeAlive_serving|done|exact H].
Qed.

Lemma sync_serving p io (w : World) r w' : serving w -> apply_ok io ->
  sync sha256 json_Marshal time_Parse Error_ BuildInbound endpoint_Get p io w = (r, w') -> serving w'.
Proof.
  intros S Hio H. unfold sync in H. destruct (match getNodeInfo p with (n, None) => _ | _ => _ end) as [[nd us]|e|s]; [|by injection H as _ <-..].
  assert (S1 : serving (snd (match nd with Some nd => storeNode sha256 json_Marshal nd w | None => (false, w) end))).
  { destruct nd; [by apply storeNode_serving|done]. }
  destruct (match nd with Some nd => _ | None => _ end) as [changed w1]. cbn [snd] in S1.
  destruct us as [us|]; [by eapply sync_users_serving|]. destruct (getUserList p) as [us [err|]]; [|by eapply sync_users_serving].
  destruct (errors_Is err ErrNotModified); [by eapply sync_users_serving|]. injection H as _ <-. by apply serving_unavailable.
Qed.

Lemma push_serving rt ro (w : World) r w' : serving w -> push rt ro w = (r, w') -> serving w'.
Proof.
  intros S H. unfold push in H. destruct (negb _); [by injection H as _ <-|].
  pose proof (Snapshot_kept (no_Tag (options (ctl w))) (no_NodeReportMinTraffic (options (ctl w))) (no_DeviceOnlineMinTraffic (options (ctl w))) (trk w)) as Hk.
  destruct (Snapshot _ _ _ _) as [[traffic alive] t]. cbn [snd] in Hk.
  assert (Hal : forall t', users_kept (trk w) t' -> users_kept (trk w) (if (0 <? size alive)%nat then RestoreAlive (no_Tag (options (ctl w))) alive t' else t')).
  { intros t' Ht'. destruct (0 <? _)%nat; [|done]. eapply users_kept_trans; [exact Ht'|apply RestoreAlive_kept]. }
  destruct (rt traffic); [|destruct (ro alive)]; injection H as _ <-; apply serving_trk; try done; [|by apply Hal].
  apply Hal. destruct (nonempty traffic); [|done]. eapply users_kept_trans; [exact Hk|apply RestoreTraffic_kept].
Qed.

Lemma Close_serving io clientClose (w : World) r w' : serving w -> Controller_Close io clientClose w = (r, w') -> serving w' /\ closed (ctl w') = true.
Proof.
  intros S H. destruct (closed (ctl w)) eqn:E; [|by eapply Close_spec; [apply S|apply S|exact E|exact H]].
  unfold Controller_Close in H. rewrite E in H. by injection H as _ <-.
Qed.

Context (Unwrap : Socksaddr -> Socksaddr) (AddrString : Socksaddr -> string) (Addr_String : Addr -> string).

(** What happens to a controller: synchronisations, reports and Close, with
    any answers of the panel and outcomes of the inbounds, between the
    connections of the users. *)
Inductive controllerStep : World -> World -> Prop :=
| StepSync p io r w w' : apply_ok io -> sync sha256 json_Marshal time_Parse Error_ BuildInbound endpoint_Get p io w = (r, w') -> controllerStep w w'
| StepPush rt ro r w w' : push rt ro w = (r, w') -> controllerStep w w'
| StepClose io clientClose r w w' : Controller_Close io clientClose w = (r, w') -> controllerStep w w'
| StepRoute protocol md at_ w :
    controllerStep w (set_trk (snd (routeTracked Unwrap AddrString Addr_String protocol md at_ (trk w))) w)
| StepBytes up down p w : controllerStep w (set_trk (countConn up down p (trk w)) w)
| StepConnClose p w : controllerStep w (set_trk (closeConn p (trk w)) w)
| StepRun w : controllerStep w (set_ctl (fun c => mkController (options c) (node c) (c_users c) (activeUsers c) (aliveList c) (aliveUpdated c)
    (nodeHash c) (userHash c) (current c) (inboundReady c) (pendingBuild c) (statusSupported c) (statusReady c) (appliedRevision c) (appliedFeatures c) true (closed c)) w).

(** A new controller, before anything is served with its tag. *)
Definition fresh (w : World) : Prop :=
  (exists o, ctl w = NewController o /\ no_Tag o = tag) /\ mgr_ok (mgr w) /\ inboundByTag (mgr w) !! tag = None.

Lemma fresh_serving (w : World) : fresh w -> serving w.
Proof.
  intros ((o & Hc & Ht) & Hm & Hn). split; rewrite ?Hc; cbn; try done. unfold registered. by rewrite Hn.
Qed.

Lemma step_serving (w w' : World) : serving w -> controllerStep w w' -> serving w'.
Proof.
  intros S H. destruct H.
  - by eapply sync_serving.
  - by eapply push_serving.
  - by eapply Close_serving.
  - apply serving_trk; [done|apply routeTracked_kept].
  - apply serving_trk; [done|]. unfold users_kept. cbn. by destruct (nodes (trk w) !! tag).
  - apply serving_trk; [done|]. unfold users_kept. cbn. by destruct (nodes (trk w) !! tag).
  - apply serving_ctl; try done. apply S.
Qed.

Lemma run_serving (w0 w : World) : fresh w0 -> rtc controllerStep w0 w -> serving w.
Proof. intros H0 H. apply fresh_serving in H0. induction H as [|w0 w1 w H _ IH]; [done|]. apply IH. by eapply step_serving. Qed.

(** C6: what is served is what is tracked.  In every state a controller can get
    into, whatever the panel answers and however creating, starting and closing
    inbounds fails: while it is ready, either nothing is served and no user
    is tracked, or the inbound that is registered was built from a list of users
    which are exactly those the tracker counts and limits, the rules in force
    are those of the same node, and the revision reported as applied is that of
    this node; the inbound listens (when closing inbounds never fails).  Once the
    controller is closed, also in the middle of a synchronisation, nothing is
    registered or tracked any more. *)
Theorem served_users_tracked (w0 w : World) : fresh w0 -> rtc controllerStep w0 w ->
  if closed (ctl w) then inboundByTag (mgr w) !! tag = None /\ nodes (trk w) !! tag = None /\ statusReady (ctl w) = false
  else inboundReady (ctl w) = true ->
    exists n, nodes (trk w) !! tag = Some n /\
    match inboundByTag (mgr w) !! tag with
    | None => users n = ∅ /\ statusReady (ctl w) = false
    | Some i => exists nd common active, ni_Common nd = Some common /\ BuildInbound tag nd active = Ok (ib_Type i, ib_Options i) /\
        users n = keyed (ib_Type i) active /\ buildNodeRules (sc_Routes common) = Ok (rules n) /\
        (statusReady (ctl w) = true -> appliedRevision (ctl w) = fst (shadowsocksStatusRevision (Some nd))) /\
        (calm -> ib_id i ∈ running (mgr w))
    end.
Proof.
  intros H0 H. pose proof (run_serving w0 w H0 H) as [Ht (Hok & Hs & Hl) Hc Hr Htr Hu].
  destruct (closed (ctl w)) eqn:Ec; [by apply Hc|]. intros Hrd. destruct (Htr eq_refl Hrd) as (n & Hn & Hcase). exists n. split; [done|].
  specialize (Hr eq_refl). unfold registered in Hr. destruct (inboundByTag (mgr w) !! tag) as [i|] eqn:Ei.
  - destruct Hr as (Hne & Et & Eo). destruct Hcase as [[? _]|(nd & common & active & Hnd & Hb & Hrs & Husers & Hst)]; [done|].
    exists nd, common, active. rewrite Et, Eo. split_and!; try done; [by destruct (current (ctl w))|]. intros Hcalm. rewrite (Hl Hcalm Hs).
    apply elem_of_list_to_set, list_elem_of_fmap. exists i. split; [done|]. by apply (im_tags _ Hok) in Ei as [? _].
  - destruct Hcase as [(_ & ? & ?)|(nd & common & active & _ & Hb & _)]; [done|]. by apply BuildInbound_type in Hb.
Qed.

(** Creating an inbound meets no error. *)
Definition cooperative (io : IO) : Prop := io_create io = None /\ (forall i s, io_start io i s = None) /\ (forall i, io_close io i = None).

Lemma createInbound_cooperative io i (w : World) : mgr_ok (mgr w) -> cooperative io -> fst (createInbound io i w) = Ok tt.
Proof.
  intros (Hok & Hs & _) (Hc & Hst & Hcl). unfold createInbound. destruct (InboundManager_Create _ _ _ _ _) as [r m] eqn:E. cbn.
  pose proof (Create_spec _ _ _ _ _ _ _ Hok E) as (_ & _ & Hr). unfold InboundManager_Create in E. rewrite Hc in E. cbn [im_started] in E. rewrite Hs in E.
  assert (Hss : forall i l, start_inbound io i l = None) by (intros i0 l; induction l; cbn; [done|by rewrite Hst]). rewrite Hss in E.
  assert (Hreg : forall i0 m0, register (tag_of w) i0 m0 = (r, m) -> r = Ok tt).
  { intros i0 m0 Hreg. unfold register in Hreg. destruct (inboundByTag m0 !! tag_of w) as [e|]; [destruct (remove_inbound e (inbounds m0))|]; injection Hreg as <- _; done. }
  destruct (inboundByTag _ !! _) as [e|]; [rewrite Hcl in E|]; by eapply Hreg.
Qed.

Lemma rebuild_converges (w : World) io nd common rs i : serving w -> apply_ok io -> closed (ctl w) = false ->
  node (ctl w) = Some nd -> ni_Common nd = Some common -> buildNodeRules (sc_Routes common) = Ok rs ->
  activeUsers (ctl w) <> [] -> BuildInbound tag nd (activeUsers (ctl w)) = Ok i -> cooperative (create1 io) -> closeMeanwhile io = None ->
  exists w' n, rebuildInbound Error_ BuildInbound endpoint_Get io w = (Ok tt, w') /\ inboundReady (ctl w') = true /\ registered (mgr w') i /\
    nodes (trk w') !! tag = Some n /\ users n = keyed (fst i) (activeUsers (ctl w)) /\ rules n = rs.
Proof.
  intros S Hio Hcl Hnode Hcommon Hrs Hact Hb Hcoop Hclose. unfold rebuildInbound. rewrite Hnode, Hcommon, Hrs. cbn [ni_Common].
  assert (Hne : nonempty (activeUsers (ctl w)) = true) by (by destruct (activeUsers (ctl w))). rewrite Hne. cbn [negb].
  replace (tag_of w) with tag by (unfold tag_of; by rewrite (serving_tag _ S)). rewrite Hb.
  unfold applyInbound, applyInbound_locked. rewrite Hcl. pose proof (createInbound_cooperative (create1 io) i w (serving_mgr _ S) Hcoop) as Hcr.
  destruct (createInbound (create1 io) i w) as [r1 w1] eqn:E1. cbn [fst] in Hcr. subst r1.
  apply createInbound_spec in E1 as (Hc1 & Ht1 & Hm1 & Hr1); [|apply S|apply S|exact (proj1 Hio)]. rewrite Hclose. cbn [set_ctl ctl with_current closed]. rewrite Hc1, Hcl.
  set (w2 := set_ctl (with_current i) w1). set (w3 := trackUsers _ _ _ w2).
  destruct (report_same (statusError io) (set_ctl (fun c => updateAppliedStatus true (with_ready true c)) w3)) as (Rc & Rm & Rt).
  destruct (updateNode_users tag (fst i) (no_NodeID (options (ctl w))) (activeUsers (ctl w)) (aliveList (ctl w)) (aliveUpdated (ctl w))
      (no_PullInterval (options (ctl w))) rs (trk w)) as (n & Hn & Hu & Hrs').
  destruct (status_same true (with_ready true (ctl w3))) as (_ & _ & _ & _ & Er & _).
  exists (reportStatusBestEffort (statusError io) (set_ctl (fun c => updateAppliedStatus true (with_ready true c)) w3)), n.
  split; [done|]. rewrite Rc, Rm, Rt. split; [exact Er|]. split; [apply registered_created; [by eapply BuildInbound_type|exact Hr1]|].
  split; [|done]. cbn. rewrite Hc1. cbn. by rewrite (serving_tag _ S), Ht1.
Qed.

(** C22: a change gets through.  When the panel answers and the inbound can be
    created, a synchronisation that sees a change of the node or of the active
    users, or that follows one that failed to build, serves and tracks them. *)
Theorem sync_converges (w : World) p io nd common us rs i :
  serving w -> apply_ok io -> closed (ctl w) = false ->
  getNodeInfo p = (Some nd, None) -> getUserList p = (Some us, None) -> snd (getAliveList p) = None ->
  ni_Common nd = Some common -> buildNodeRules (sc_Routes common) = Ok rs ->
  let active := activePanelUsers time_Parse us (now p) in
  active <> [] -> BuildInbound tag nd active = Ok i -> cooperative (create1 io) -> closeMeanwhile io = None ->
  digestNode sha256 json_Marshal nd <> nodeHash (ctl w) \/ digestUsers sha256 active <> userHash (ctl w) \/
  inboundReady (ctl w) = false \/ pendingBuild (ctl w) = true ->
  exists w' n, sync sha256 json_Marshal time_Parse Error_ BuildInbound endpoint_Get p io w = (Ok tt, w') /\
    inboundReady (ctl w') = true /\ pendingBuild (ctl w') = false /\ registered (mgr w') i /\
    nodes (trk w') !! tag = Some n /\ users n = keyed (fst i) active /\ rules n = rs.
Proof.
  intros S Hio Hcl Hnode Husers Halive Hcommon Hrs active Hact Hb Hcoop Hclose Hchange.
  unfold sync. rewrite Hnode. cbn [fst snd].
  pose proof (storeNode_serving nd w S) as S1. destruct (storeNode sha256 json_Marshal nd w) as [nodeChanged w1] eqn:E1. cbn [snd] in S1.
  assert (F1 : node (ctl w1) = Some nd /\ inboundReady (ctl w1) = inboundReady (ctl w) /\ pendingBuild (ctl w1) = pendingBuild (ctl w) /\
    closed (ctl w1) = false /\ userHash (ctl w1) = userHash (ctl w) /\ (digestNode sha256 json_Marshal nd <> nodeHash (ctl w) -> nodeChanged = true)).
  { unfold storeNode, applyPanelIntervals in E1. cbn [ctl set_ctl nodeHash with_options with_node] in E1.
    destruct (decide _) as [E|E]; injection E1 as <- <-; cbn; split_and!; done. }
  destruct F1 as (Fn & Fr & Fp & Fc & Fu & Fch). rewrite Husers. cbn [fst snd]. unfold sync_users.
  pose proof (storeUsers_serving (now p) (Some us) w1 S1) as S2. unfold storeUsers in *. cbn [default from_option id] in *. fold active in S2 |- *.
  cbn [snd] in S2. rewrite Halive. set (w2 := set_ctl _ w1) in *.
  pose proof (storeAlive_serving p w2 S2) as S3. set (w3 := storeAlive p w2) in *.
  assert (F3 : node (ctl w3) = Some nd /\ inboundReady (ctl w3) = inboundReady (ctl w) /\ pendingBuild (ctl w3) = pendingBuild (ctl w) /\
    closed (ctl w3) = false /\ activeUsers (ctl w3) = active).
  { unfold w3, storeAlive. cbn. destruct (inboundReady (ctl w1)) eqn:E; cbn; split_and!; congruence. }
  destruct F3 as (Gn & Gr & Gp & Gc & Ga). unfold sync_apply. rewrite Gn, Gr, Gp.
  assert (Hgo : negb (nodeChanged || negb (bool_decide (digestUsers sha256 active = userHash (ctl w1)))) && inboundReady (ctl w) && negb (pendingBuild (ctl w)) = false).
  { destruct Hchange as [H|[H|[->| ->]]].
    - by rewrite (Fch H).
    - rewrite Fu, bool_decide_eq_false_2 by done. cbn. by rewrite orb_true_r.
    - by rewrite andb_false_r.
    - by rewrite andb_false_r. }
  rewrite Hgo. set (w4 := set_ctl (with_pending true) w3).
  assert (S4 : serving w4) by (apply serving_ctl; try done; apply S3).
  destruct (rebuild_converges w4 io nd common rs i) as (w5 & n & E5 & H5 & R5 & N5 & U5 & Ru5); try done; [cbn; by rewrite Ga..|].
  rewrite E5. exists (set_ctl (with_pending false) w5), n. split; [done|]. cbn in U5. rewrite Ga in U5. done.
Qed.
End Serving.

(** ** Reports and the accounting *)

Section Reports.
Context `{GE : GoEnv} `{GR : GoRange} {Rest Opts : Type}.
Context (Unwrap : Socksaddr -> Socksaddr) (AddrString : Socksaddr -> string) (Addr_String : Addr -> string).
Local Abbreviation World := (@World _ Rest Opts).
Local Abbreviation event := (event Unwrap AddrString Addr_String).

(** C16: a report that fails loses nothing of what it listed.  The tracker goes
    through events of the accounting: a report is taken, with the threshold the
    panel configured, and then either accepted, as it is, or put back.  Nothing
    stays under way, what the panel is credited with is exactly the traffic of the
    request it accepted, and what is dropped, whether the request succeeds or
    not, are the users below the threshold. *)
Theorem push_accounts (w : World) (s : Accounts) reportTraffic reportOnline r w' :
  tracker s = trk w -> push reportTraffic reportOnline w = (r, w') ->
  let o := options (ctl w) in
  let report min := fst (fst (Snapshot (no_Tag o) min (no_DeviceOnlineMinTraffic o) (trk w))) in
  let traffic := report (no_NodeReportMinTraffic o) in
  exists s', rtc event s s' /\ tracker s' = trk w' /\ conns s' = conns s /\ sent s' = sent s /\ inflight s' = inflight s /\
    reported s' = (if inboundReady (ctl w) && bool_decide (reportTraffic traffic = None) then creditAll (reported s) (no_Tag o) traffic else reported s) /\
    dropped s' = (if inboundReady (ctl w)
      then (no_Tag o, no_NodeReportMinTraffic o, belowThreshold (no_NodeReportMinTraffic o) (report 0)) :: dropped s else dropped s).
Proof.
  intros Ht H o report traffic0. unfold push in H. fold o in H. subst traffic0 report. cbn beta. destruct (inboundReady (ctl w)); cbn [negb andb] in *.
  2: { injection H as _ <-. exists s. split; [apply rtc_refl|]. done. }
  rewrite <- Ht in *. set (out := _ :: dropped s).
  destruct (Snapshot _ (no_NodeReportMinTraffic o) _ (tracker s)) as [[traffic alive] t] eqn:E. cbn [fst].
  assert (Halive : forall t0, (if (0 <? size alive)%nat then RestoreAlive (no_Tag o) alive t0 else t0) = RestoreAlive (no_Tag o) alive t0).
  { intros t0. unfold RestoreAlive. destruct (nodes t0 !! no_Tag o), (0 <? size alive)%nat; done. }
  assert (Htraffic : (if nonempty traffic then RestoreTraffic (no_Tag o) traffic t else t) = RestoreTraffic (no_Tag o) traffic t).
  { unfold RestoreTraffic. destruct (nodes t !! no_Tag o), (nonempty traffic); done. }
  assert (Hsnap : event s (mkAccounts t (conns s) (sent s) (reported s) ((no_Tag o, traffic) :: inflight s) out)) by (by eapply EvSnapshot).
  rewrite Htraffic in H. rewrite !Halive in H. destruct (reportTraffic traffic) as [err|] eqn:Er.
  - rewrite bool_decide_eq_false_2 by done. injection H as _ <-.
    exists (mkAccounts (RestoreAlive (no_Tag o) alive (RestoreTraffic (no_Tag o) traffic t)) (conns s) (sent s) (reported s) (inflight s) out). split; [|done].
    eapply rtc_l; [exact Hsnap|]. eapply rtc_l; [by eapply (EvRestored _ _ _ _ _ [])|]. eapply rtc_l; [by eapply EvRestoreAlive|]. apply rtc_refl.
  - rewrite bool_decide_eq_true_2 by done.
    assert (Hacc : rtc event s (mkAccounts t (conns s) (sent s) (creditAll (reported s) (no_Tag o) traffic) (inflight s) out)).
    { eapply rtc_l; [exact Hsnap|]. eapply rtc_l; [by eapply (EvAccepted _ _ _ _ _ [])|]. apply rtc_refl. }
    destruct (reportOnline alive); injection H as _ <-.
    + exists (mkAccounts (RestoreAlive (no_Tag o) alive t) (conns s) (sent s) (creditAll (reported s) (no_Tag o) traffic) (inflight s) out).
      split; [|done]. eapply rtc_r; [exact Hacc|].
      exact (EvRestoreAlive _ _ _ (no_Tag o) alive (mkAccounts t (conns s) (sent s) (creditAll (reported s) (no_Tag o) traffic) (inflight s) out)).
    + exists (mkAccounts t (conns s) (sent s) (creditAll (reported s) (no_Tag o) traffic) (inflight s) out). split; [exact Hacc|]. done.
Qed.
End Reports.

(** ** Delays *)

(** After a failure the controller waits between five seconds and five minutes,
    whatever the interval, the jitter and the number of failures. *)
Lemma backoff_bounds seed base b : bo_delay b < 2 ^ 62 ->
  minimumInterval <= fst (Backoff_Next seed base true b) <= maxControllerBackoff.
Proof.
  intros Hb. unfold Backoff_Next. cbn [negb]. cbv zeta. cbn [fst]. set (delay := if bo_delay b <? _ then _ else _).
  assert (Hd : 0 < delay).
  { unfold delay. assert (0 < runtimeInterval base) by (unfold runtimeInterval, second; destruct (Z.leb_spec base 0); lia).
    destruct (Z.ltb_spec (bo_delay b) (runtimeInterval base)); [done|]. rewrite int64_id by lia.
    destruct (maxControllerBackoff <? bo_delay b * 2); [vm_compute; reflexivity|lia]. }
  unfold jitterInterval. rewrite (proj2 (Z.leb_gt delay 0)) by done. cbv zeta. set (j := int64 _).
  destruct (Z.ltb_spec j minimumInterval); [split; vm_compute; congruence|].
  destruct (Z.ltb_spec maxControllerBackoff j); [split; vm_compute; congruence|]; unfold minimumInterval, maxControllerBackoff, second in *; lia.
Qed.

(** ** A node *)

Module ControllerDemo.
#[local] Existing Instance demoEnv.

Definition marshal (type_ : string) (security : Z) (c : option (ServerConfig unit)) : list byte :=
  bytes_of_string type_ ++ match c with Some c => bytes_of_string (sc_ConfigRevision c) | None => [] end.
Definition build (tag : string) (nd : NodeInfo unit) (active : list UserInfo) : result (string * option unit) :=
  if String.eqb (ni_Type nd) "" then Err (ENew "unsupported") else Ok (ni_Type nd, Some tt).
Definition parse (layout value : string) : option Time := None.
Definition text (e : go_error) : string := match e with ENew s => s | _ => "" end.
Definition noEndpoint (tag : string) : option (Inbound (option unit)) := None.

Lemma build_type tag nd active i : build tag nd active = Ok i -> fst i <> ""%string.
Proof. unfold build. destruct (String.eqb_spec (ni_Type nd) ""); [done|]. by intros [= <-]. Qed.

Definition fine : InboundIO (option unit) := mkInboundIO None (fun _ _ => None) (fun _ => None).
Definition io : ApplyIO := mkApplyIO fine fine fine fine None None.
Definition at_ : Time := mkTime 1000 0.

Definition theNode (type_ revision : string) : NodeInfo unit :=
  mkNodeInfo _ type_ 0 0 0 0 0 (Some (mkServerConfig _ type_ revision [] false tt)).
Definition user (id : Z) (uuid : string) : UserInfo := mkUserInfo id uuid "" "" 0 0 "" "" "" 0 "" true true 0 0 0 0 "".

Definition answers (n : option (NodeInfo unit) * option go_error) (u : option (list UserInfo) * option go_error) : Panel :=
  mkPanel at_ n u (∅, None) at_.
Definition unchanged {A} : option A * option go_error := (None, Some ErrNotModified).

Definition manager : InboundManager (option unit) := mkInboundManager true StartStateStarted [] ∅ ∅ 0.
Abbreviation W := (@World demoEnv unit unit).
Definition w0 : W := mkWorld (NewController (mkNodeOptions "node" 1 60000000000 60000000000 0 0)) manager newTracker false false [].

Definition sync_ (p : Panel) (w : W) := sync id marshal parse text build noEndpoint p io w.

(** A shadowsocks node with one user. *)
Definition first := answers (Some (theNode "shadowsocks" "r1"), None) (Some [user 7 "a"], None).
Definition w1 := snd (sync_ first w0).

Lemma manager_ok calm : mgr_ok calm manager.
Proof.
  split; [|split; [done|by intros _ _]]. split; cbn; [constructor| |].
  - intros tag i. rewrite lookup_empty. split; [done|]. intros [H _]. by apply not_elem_of_nil in H.
  - intros i H. by apply not_elem_of_nil in H.
Qed.

Lemma fine_ok calm : apply_ok calm io.
Proof. unfold apply_ok, io_ok. cbn. by split_and!. Qed.

Lemma w0_fresh : fresh "node" True w0.
Proof. split; [by eexists|]. split; [apply manager_ok|done]. Qed.

Lemma first_step : sync id marshal parse text build noEndpoint first io w0 = (fst (sync_ first w0), w1).
Proof. unfold w1, sync_. apply surjective_pairing. Qed.

Lemma served_users_tracked_witness :
  inboundReady (ctl w1) = true /\ statusReady (ctl w1) = true /\ closed (ctl w1) = false /\
  (if closed (ctl w1) then inboundByTag (mgr w1) !! "node" = None /\ nodes (trk w1) !! "node" = None /\ statusReady (ctl w1) = false
   else inboundReady (ctl w1) = true ->
    exists n, nodes (trk w1) !! "node" = Some n /\
    match inboundByTag (mgr w1) !! "node" with
    | None => users n = ∅ /\ statusReady (ctl w1) = false
    | Some i => exists nd common active, ni_Common nd = Some common /\ build "node" nd active = Ok (ib_Type i, ib_Options i) /\
        users n = keyed (ib_Type i) active /\ buildNodeRules (sc_Routes common) = Ok (rules n) /\
        (statusReady (ctl w1) = true -> appliedRevision (ctl w1) = fst (shadowsocksStatusRevision (Some nd))) /\
        (True -> ib_id i ∈ running (mgr w1))
    end).
Proof.
  split; [vm_compute; reflexivity|]. split; [vm_compute; reflexivity|]. split; [vm_compute; reflexivity|].
  apply (served_users_tracked id marshal parse text build noEndpoint "node" True build_type eq_refl id (fun _ => ""%string) (fun _ => ""%string) w0 w1 w0_fresh).
  apply rtc_once. apply (StepSync _ _ _ _ _ _ _ _ _ _ first io (fst (sync_ first w0)) w0 w1 (fine_ok True) first_step).
Defined.

Lemma w1_serving : serving build "node" True w1.
Proof.
  exact (sync_serving id marshal parse text build noEndpoint "node" True build_type eq_refl first io w0 _ w1 (fresh_serving build "node" True w0 w0_fresh) (fine_ok True) first_step).
Qed.

(** The node moves to trojan. *)
Definition second_ := answers (Some (theNode "trojan" "r2"), None) (Some [user 7 "a"], None).

#[local] Opaque w1 sync.

Lemma sync_converges_witness : exists w2 n, sync id marshal parse text build noEndpoint second_ io w1 = (Ok tt, w2) /\
  inboundReady (ctl w2) = true /\ pendingBuild (ctl w2) = false /\ registered "node" (mgr w2) ("trojan"%string, Some tt) /\
  nodes (trk w2) !! "node" = Some n /\ users n = keyed "trojan" (activePanelUsers parse [user 7 "a"] (now second_)) /\ rules n = noRules.
Proof.
  apply (sync_converges id marshal parse text build noEndpoint "node" True build_type w1 second_ io (theNode "trojan" "r2")
    (mkServerConfig _ "trojan" "r2" [] false tt) [user 7 "a"] noRules ("trojan"%string, Some tt) w1_serving (fine_ok True)).
  - vm_compute; reflexivity.
  - reflexivity.
  - reflexivity.
  - reflexivity.
  - reflexivity.
  - reflexivity.
  - vm_compute. congruence.
  - reflexivity.
  - by split_and!.
  - reflexivity.
  - left. vm_compute. congruence.
Defined.

(** The new configuration of a node is lost when fetching the users fails: it is
    remembered as known, but not as pending, and the next synchronisation
    succeeds without building it. *)
Definition failing := answers (Some (theNode "trojan" "r2"), None) (None, Some (ENew "timeout")).
Definition w2 := snd (sync_ failing w1).
Definition w3 := snd (sync_ (answers unchanged unchanged) w2).

Lemma node_change_lost :
  is_ok (fst (sync_ failing w1)) = false /\ is_ok (fst (sync_ (answers unchanged unchanged) w2)) = true /\
  option_map ni_Type (node (ctl w3)) = Some "trojan"%string /\ fst (current (ctl w3)) = "shadowsocks"%string /\ pendingBuild (ctl w3) = false.
Proof. split; [vm_compute; reflexivity|]. split; [vm_compute; reflexivity|]. split; [vm_compute; reflexivity|]. split; vm_compute; reflexivity. Qed.

(** A report that fails. *)
Definition accounts : Accounts := mkAccounts (trk w1) [] (fun _ _ => 0) (fun _ _ => 0) [] [].
Definition refused (_ : list UserTraffic) : option go_error := Some (ENew "timeout").

Lemma push_accounts_witness :
  let o := options (ctl w1) in
  let report min := fst (fst (Snapshot (no_Tag o) min (no_DeviceOnlineMinTraffic o) (trk w1))) in
  let traffic := report (no_NodeReportMinTraffic o) in
  exists s', rtc (event id (fun _ => ""%string) (fun _ => ""%string)) accounts s' /\ tracker s' = trk (snd (push refused (fun _ => None) w1)) /\
    conns s' = [] /\ sent s' = sent accounts /\ inflight s' = [] /\
    reported s' = (if inboundReady (ctl w1) && bool_decide (refused traffic = None) then creditAll (reported accounts) (no_Tag o) traffic else reported accounts) /\
    dropped s' = (if inboundReady (ctl w1)
      then (no_Tag o, no_NodeReportMinTraffic o, belowThreshold (no_NodeReportMinTraffic o) (report 0)) :: [] else []).
Proof.
  apply (push_accounts id (fun _ => ""%string) (fun _ => ""%string) w1 accounts refused (fun _ => None) (fst (push refused (fun _ => None) w1))).
  - reflexivity.
  - apply (surjective_pairing (push refused (fun _ => None) w1)).
Defined.
End ControllerDemo.
