(* ===== verification/PanelMsgpack.v ===== *)
(** * The user list in MessagePack (service/v2board/msgpack.go)

    The panel sends the users as MessagePack.  The decoder is a [Reader].  The
    specification is the format itself: messages ([Format.message]), the encodings
    of a message in all formats of the MessagePack specification
    ([Format.encodes]), the messages that the decoder supports
    ([Format.supported]) and the Go value of a message ([Format.value]).  The
    theorem is that the decoder accepts exactly the encodings of supported
    messages and returns their value.  The relation [enc] is an intermediate one
    between bytes and Go values.

    A Go map is an association list here, without repeated keys; a later entry
    replaces an earlier one. *)
From Stdlib Require Import ZArith Lia Bool Ascii.
From S2P Require Import Prelude GoIO DnsMsg Metadata RuleItem SavedBinary PanelUsers.

Inductive Any :=
| ANil
| ABool (b : bool)
| AInt (z : Z)                         (* int64 *)
| ANumber (text : string)              (* json.Number, from the JSON form of the list *)
| AString (s : string)
| AArray (values : list Any)
| AMap (entries : list (string * Any)).

Definition maxMsgpackDepth : Z := 64.
Definition maxMsgpackContainerLength : Z := 2 ^ 20.

(** [values[key] = value] *)
Definition map_set {A} (key : string) (value : A) (entries : list (string * A)) : list (string * A) :=
  List.filter (fun e => negb (String.eqb (fst e) key)) entries ++ [(key, value)].
Fixpoint map_get {A} (key : string) (entries : list (string * A)) : option A :=
  match entries with [] => None | (k, v) :: rest => if String.eqb k key then Some v else map_get key rest end.

(** ** The decoder *)

Definition readByte : Reader Z :=
  fun i => match i with [] => Err ErrUnexpectedEOF | b :: i' => Ok (Z_of_byte b, i') end.

Definition readBytes (length : Z) : Reader (list byte) :=
  fun i => if (length <? 0) || (zlen i <? length) then Err ErrUnexpectedEOF else Ok (take (Z.to_nat length) i, drop (Z.to_nat length) i).

Definition readString (length : Z) : Reader string := let! value := readBytes length in rret (string_of_bytes value).

(** [readUint16], [readUint32], [readUint64] *)
Definition readUint (width : Z) : Reader Z := let! value := readBytes width in rret (be_decode value).

Definition uint32_maxInt : Z := uint32 (2 ^ 63 - 1).

Definition tooLarge (what : string) (length : Z) : go_error := ENew ("msgpack " +:+ what +:+ " too large: " +:+ pretty length).

(** [rv] reads a value at the depth of the elements. *)
Definition readArray (rv : Reader Any) (length : Z) : Reader (list Any) := fun i =>
  if maxMsgpackContainerLength <? length then Err (tooLarge "array" length)
  else if zlen i <? length then Err ErrUnexpectedEOF
  else read_n (Z.to_nat length) rv i.

Fixpoint readMap_loop (rv : Reader Any) (n : nat) (values : list (string * Any)) : Reader (list (string * Any)) :=
  match n with
  | O => rret values
  | S n =>
      let! key := rv in
      match key with
      | AString key => let! value := rv in readMap_loop rv n (map_set key value values)
      | _ => rlift (Err (ENew "unsupported msgpack map key"))
      end
  end.

Definition readMap (rv : Reader Any) (length : Z) : Reader (list (string * Any)) := fun i =>
  if maxMsgpackContainerLength <? length then Err (tooLarge "map" length)
  else if zlen i / 2 <? length then Err ErrUnexpectedEOF
  else readMap_loop rv (Z.to_nat length) [] i.

Definition asInt (conv : Z -> Z) (r : Reader Z) : Reader Any := let! value := r in rret (AInt (conv value)).
Definition asString (r : Reader string) : Reader Any := let! value := r in rret (AString value).
Definition asArray (r : Reader (list Any)) : Reader Any := let! value := r in rret (AArray value).
Definition asMap (r : Reader (list (string * Any))) : Reader Any := let! value := r in rret (AMap value).

(** The value after its first byte; [rv] reads the values inside. *)
Definition readCode (rv : Reader Any) (code : Z) : Reader Any :=
  if code <=? 0x7f then rret (AInt code)
  else if 0xe0 <=? code then rret (AInt (int8 code))
  else if (0xa0 <=? code) && (code <=? 0xbf) then asString (readString (Z.land code 0x1f))
  else if (0x90 <=? code) && (code <=? 0x9f) then asArray (readArray rv (Z.land code 0x0f))
  else if (0x80 <=? code) && (code <=? 0x8f) then asMap (readMap rv (Z.land code 0x0f))
  else if code =? 0xc0 then rret ANil
  else if code =? 0xc2 then rret (ABool false)
  else if code =? 0xc3 then rret (ABool true)
  else if code =? 0xcc then asInt id readByte
  else if code =? 0xcd then asInt id (readUint 2)
  else if code =? 0xce then asInt id (readUint 4)
  else if code =? 0xcf then asInt int64 (readUint 8)
  else if code =? 0xd0 then asInt int8 readByte
  else if code =? 0xd1 then asInt int16 (readUint 2)
  else if code =? 0xd2 then asInt int32 (readUint 4)
  else if code =? 0xd3 then asInt int64 (readUint 8)
  else if code =? 0xd9 then let! length := readByte in asString (readString length)
  else if code =? 0xda then let! length := readUint 2 in asString (readString length)
  else if code =? 0xdb then let! length := readUint 4 in asString (readString length)
  else if code =? 0xdc then let! length := readUint 2 in asArray (readArray rv length)
  else if code =? 0xdd then
    let! length := readUint 4 in
    if uint32_maxInt <? length then rlift (Err (tooLarge "array" length)) else asArray (readArray rv length)
  else if code =? 0xde then let! length := readUint 2 in asMap (readMap rv length)
  else if code =? 0xdf then
    let! length := readUint 4 in
    if uint32_maxInt <? length then rlift (Err (tooLarge "map" length)) else asMap (readMap rv length)
  else rlift (Err (ENew "unsupported msgpack code")).

(** The fuel is the depth that is left, and one more: it does not run out. *)
Fixpoint readValue (fuel : nat) (depth : Z) : Reader Any :=
  match fuel with
  | O => fun _ => Err OutOfFuel
  | S fuel =>
      if maxMsgpackDepth <? depth then fun _ => Err (ENew "msgpack nesting too deep")
      else let! code := readByte in readCode (readValue fuel (depth + 1)) code
  end.

Definition decodeMsgpack (data : list byte) : result Any :=
  match readValue 66 0 data with
  | Ok (value, []) => Ok value
  | Ok (_, rest) => Err (ENew ("trailing msgpack data at byte " +:+ pretty (zlen data - zlen rest)))
  | Err e => Err e
  | Panic s => Panic s
  end.

(** ** The users *)

(** [strconv.ParseInt(s, 10, 64)], its value: 0 for a syntax error, the nearest
    value when out of range. *)
Fixpoint parse_digits (acc : Z) (s : string) : option Z :=
  match s with
  | EmptyString => Some acc
  | String c s' =>
      let d := Z.of_nat (Ascii.nat_of_ascii c) - 48 in
      if (0 <=? d) && (d <=? 9) then parse_digits (acc * 10 + d) s' else None
  end.
Definition parse_unsigned (s : string) : option Z := if String.eqb s "" then None else parse_digits 0 s.
Definition ParseInt (s : string) : Z :=
  let parsed :=
    match s with
    | String "-"%char s' => option_map Z.opp (parse_unsigned s')
    | String "+"%char s' => parse_unsigned s'
    | _ => parse_unsigned s
    end in
  match parsed with Some z => Z.max (- 2 ^ 63) (Z.min (2 ^ 63 - 1) z) | None => 0 end.

Definition intValue (value : Any) : Z := match value with AInt z => z | ANumber text => ParseInt text | _ => 0 end.
Definition stringValue (value : option Any) : string := match value with Some (AString s) => s | _ => "" end.
Definition boolValue (value : option Any) : bool :=
  match value with Some (ABool b) => b | Some v => negb (intValue v =? 0) | None => false end.

Fixpoint firstInt (values : list (string * Any)) (keys : list string) : Z :=
  match keys with
  | [] => 0
  | key :: rest => match map_get key values with Some value => intValue value | None => firstInt values rest end
  end.

Definition mapValue (value : option Any) : list (string * Any) := match value with Some (AMap m) => m | _ => [] end.

Definition userUUID (values : list (string * Any)) : string :=
  let uuid := stringValue (map_get "uuid" values) in
  let secret := stringValue (map_get "secret" values) in
  let v2ray := stringValue (map_get "uuid" (mapValue (map_get "v2ray_user" values))) in
  let trojan := stringValue (map_get "password" (mapValue (map_get "trojan_user" values))) in
  if negb (String.eqb uuid "") then uuid
  else if negb (String.eqb secret "") then secret
  else if negb (String.eqb v2ray "") then v2ray
  else trojan.

Definition userFromMap (m : list (string * Any)) : UserInfo :=
  mkUserInfo (firstInt m ["id"; "uid"]) (userUUID m) (stringValue (map_get "username" m)) (stringValue (map_get "password" m))
    (firstInt m ["speed_limit"]) (firstInt m ["device_limit"]) (stringValue (map_get "label" m)) (stringValue (map_get "secret" m))
    (stringValue (map_get "link_secret" m)) (firstInt m ["port"]) (stringValue (map_get "cipher" m)) (boolValue (map_get "enabled" m))
    (match map_get "enabled" m with Some _ => true | None => false end) (firstInt m ["max_connections"]) (firstInt m ["max_ips"])
    (firstInt m ["quota_bytes"]) (firstInt m ["expires_at"]) (stringValue (map_get "expires_on" m)).

Definition unwrapUserList (value : Any) : Any :=
  match value with
  | AMap values =>
      match map_get "users" values with
      | Some users => users
      | None => match map_get "data" values with Some data => data | None => value end
      end
  | _ => value
  end.

Definition userListFromAny (value : Any) : result (list UserInfo) :=
  match unwrapUserList value with
  | AArray rawUsers =>
      map_result (fun rawUser => match rawUser with AMap m => Ok (userFromMap m) | _ => Err (ENew "v2board: unexpected user payload") end) rawUsers
  | _ => Err (ENew "v2board: unexpected user list payload")
  end.

(** ** The grammar *)

(** The integers after a byte: width and conversion. *)
Definition int_format (code : Z) : option (Z * (Z -> Z)) :=
  match code with
  | 0xcc => Some (1, id) | 0xcd => Some (2, id) | 0xce => Some (4, id) | 0xcf => Some (8, int64)
  | 0xd0 => Some (1, int8) | 0xd1 => Some (2, int16) | 0xd2 => Some (4, int32) | 0xd3 => Some (8, int64)
  | _ => None
  end.

(** A length: in the low bits of a first byte between [low] and [high], or in
    the bytes after one of the [codes]. *)
Inductive header (low high : Z) (codes : list (Z * Z)) : Z -> list byte -> Prop :=
| header_fix c : low <= Z_of_byte c <= high -> header low high codes (Z_of_byte c - low) [c]
| header_len c width bs : (Z_of_byte c, width) ∈ codes -> zlen bs = width -> header low high codes (be_decode bs) (c :: bs).

Definition string_header : Z -> list byte -> Prop := header 0xa0 0xbf [(0xd9, 1); (0xda, 2); (0xdb, 4)].
Definition array_header : Z -> list byte -> Prop := header 0x90 0x9f [(0xdc, 2); (0xdd, 4)].
Definition map_header : Z -> list byte -> Prop := header 0x80 0x8f [(0xde, 2); (0xdf, 4)].

(** The map that a list of entries stands for. *)
Definition entries_map (es : list (string * Any)) : list (string * Any) := fold_left (fun m e => map_set (fst e) (snd e) m) es [].

Inductive enc : Z -> Any -> list byte -> Prop :=
| enc_nil d c : d <= maxMsgpackDepth -> Z_of_byte c = 0xc0 -> enc d ANil [c]
| enc_bool d c b : d <= maxMsgpackDepth -> Z_of_byte c = (if b : bool then 0xc3 else 0xc2) -> enc d (ABool b) [c]
| enc_small d c : d <= maxMsgpackDepth -> Z_of_byte c <= 0x7f -> enc d (AInt (Z_of_byte c)) [c]
| enc_negative d c : d <= maxMsgpackDepth -> 0xe0 <= Z_of_byte c -> enc d (AInt (int8 (Z_of_byte c))) [c]
| enc_int d c bs width conv : d <= maxMsgpackDepth -> int_format (Z_of_byte c) = Some (width, conv) -> zlen bs = width ->
    enc d (AInt (conv (be_decode bs))) (c :: bs)
| enc_string d hd bs : d <= maxMsgpackDepth -> string_header (zlen bs) hd -> enc d (AString (string_of_bytes bs)) (hd ++ bs)
| enc_array d l hd bs : d <= maxMsgpackDepth -> array_header (zlen l) hd -> zlen l <= maxMsgpackContainerLength ->
    enc_list (d + 1) l bs -> enc d (AArray l) (hd ++ bs)
| enc_map d es hd bs : d <= maxMsgpackDepth -> map_header (zlen es) hd -> zlen es <= maxMsgpackContainerLength ->
    enc_entries (d + 1) es bs -> enc d (AMap (entries_map es)) (hd ++ bs)
with enc_list : Z -> list Any -> list byte -> Prop :=
| enc_list_nil d : enc_list d [] []
| enc_list_cons d v l b bs : enc d v b -> enc_list d l bs -> enc_list d (v :: l) (b ++ bs)
with enc_entries : Z -> list (string * Any) -> list byte -> Prop :=
| enc_entries_nil d : enc_entries d [] []
| enc_entries_cons d k v es kb vb bs : enc d (AString k) kb -> enc d v vb -> enc_entries d es bs ->
    enc_entries d ((k, v) :: es) (kb ++ vb ++ bs).

(** ** Readers of a language

    [exact r P]: [r] reads the words of [P], and only these, and returns what
    they stand for. *)
Definition exact {A} (r : Reader A) (P : A -> list byte -> Prop) : Prop :=
  (forall a w, P a w -> decodes r w a) /\ (forall i a o, r i = Ok (a, o) -> exists w, i = w ++ o /\ P a w).

Lemma exact_iff {A} (r : Reader A) (P Q : A -> list byte -> Prop) : exact r P -> (forall a w, P a w <-> Q a w) -> exact r Q.
Proof. intros [H1 H2] H. split; [intros a w Hq; apply H1, H, Hq|]. intros i a o (w & -> & Hp)%H2. exists w. split; [done|]. by apply H. Qed.

Lemma exact_ret {A} (a : A) : exact (rret a) (fun a' w => a' = a /\ w = []).
Proof. split; [intros a' w [-> ->]; apply decodes_ret|]. intros i a' o [= <- <-]. by exists []. Qed.

Lemma exact_bind {A B} (r : Reader A) (k : A -> Reader B) P Q : exact r P -> (forall a, exact (k a) (Q a)) ->
  exact (rbind r k) (fun b w => exists a w1 w2, w = w1 ++ w2 /\ P a w1 /\ Q a b w2).
Proof.
  intros [H1 H2] Hk. split.
  - intros b w (a & w1 & w2 & -> & Hp & Hq). eapply decodes_bind; [by apply H1|]. by apply (Hk a).
  - intros i b o H. unfold rbind in H. destruct (r i) as [[a i']| |] eqn:E; [|done..]. apply H2 in E as (w1 & -> & Hp).
    apply (Hk a) in H as (w2 & -> & Hq). exists (w1 ++ w2). split; [by rewrite app_assoc|]. eauto 10.
Qed.

Lemma exact_map {A B} (r : Reader A) (f : A -> B) P : exact r P -> exact (rbind r (fun a => rret (f a))) (fun b w => exists a, b = f a /\ P a w).
Proof.
  intros H. eapply exact_iff; [eapply exact_bind; [exact H|intros a; apply (exact_ret (f a))]|].
  intros b w. split; [intros (a & w1 & w2 & -> & Hp & -> & ->); exists a; by rewrite app_nil_r|].
  intros (a & -> & Hp). exists a, w, []. by rewrite app_nil_r.
Qed.

Lemma exact_error {A} (e : go_error) (P : A -> list byte -> Prop) : (forall a w, ~ P a w) -> exact (rlift (Err e)) P.
Proof. intros H. split; [intros a w Hp; by destruct (H a w)|]. by intros i a o. Qed.

Lemma exact_readByte : exact readByte (fun z w => exists c, z = Z_of_byte c /\ w = [c]).
Proof.
  split; [intros z w (c & -> & ->) rest; done|]. intros [|c i] z o; [done|]. cbn. intros [= <- <-]. exists [c]. eauto.
Qed.

Lemma exact_readBytes n : 0 <= n -> exact (readBytes n) (fun bs w => w = bs /\ zlen bs = n).
Proof.
  intros Hn. split.
  - intros bs w [-> Hl] rest. unfold readBytes. rewrite zlen_app. pose proof (zlen_nonneg rest).
    rewrite (proj2 (Z.ltb_ge n 0)), (proj2 (Z.ltb_ge _ n)) by lia. cbn [orb]. rewrite <- Hl, to_nat_zlen. by rewrite take_app_length, drop_app_length.
  - intros i bs o H. unfold readBytes in H. rewrite (proj2 (Z.ltb_ge n 0)) in H by lia. cbn [orb] in H.
    destruct (Z.ltb_spec (zlen i) n); [done|]. injection H as <- <-. exists (take (Z.to_nat n) i). split; [by rewrite take_drop|].
    split; [done|]. unfold zlen in *. rewrite length_take. lia.
Qed.

Lemma exact_readUint n : 0 <= n -> exact (readUint n) (fun z w => z = be_decode w /\ zlen w = n).
Proof.
  intros Hn. eapply exact_iff; [apply exact_map, (exact_readBytes n Hn)|]. intros z w. split.
  - by intros (bs & -> & -> & ?).
  - intros [-> ?]. by exists w.
Qed.

Lemma decodes_readUint n w : zlen w = n -> decodes (readUint n) w (be_decode w).
Proof. intros <-. by apply (exact_readUint (zlen w) (zlen_nonneg w)). Qed.

Lemma be_decode_byte c : be_decode [c] = Z_of_byte c.
Proof. unfold be_decode. cbn. done. Qed.

Lemma exact_byte : exact readByte (fun z w => z = be_decode w /\ zlen w = 1).
Proof.
  eapply exact_iff; [apply exact_readByte|]. intros z w. split.
  - intros (c & -> & ->). by rewrite be_decode_byte.
  - intros [-> Hl]. unfold zlen in Hl. destruct w as [|c [|c' w]]; cbn [length] in Hl; [lia| |lia]. exists c. by rewrite be_decode_byte.
Qed.

Lemma exact_readString n : 0 <= n -> exact (asString (readString n)) (fun v w => v = AString (string_of_bytes w) /\ zlen w = n).
Proof.
  intros Hn. unfold asString, readString. eapply exact_iff; [apply exact_map, exact_map, (exact_readBytes n Hn)|]. intros v w. split.
  - by intros (s & -> & bs & -> & -> & ?).
  - intros [-> ?]. exists (string_of_bytes w). split; [done|]. by exists w.
Qed.

Lemma exact_asInt conv r n : exact r (fun z w => z = be_decode w /\ zlen w = n) -> exact (asInt conv r) (fun v w => v = AInt (conv (be_decode w)) /\ zlen w = n).
Proof.
  intros H. eapply exact_iff; [apply exact_map, H|]. intros v w. split; [by intros (z & -> & -> & ?)|]. intros [-> ?]. by exists (be_decode w).
Qed.

(** A length in [width] bytes, then what it measures. *)
Lemma exact_sized {A} (len : Reader Z) width (k : Z -> Reader A) (Q : Z -> A -> list byte -> Prop) :
  exact len (fun z w => z = be_decode w /\ zlen w = width) -> (forall n, exact (k n) (Q n)) ->
  exact (rbind len k) (fun a w => exists w1 w2, w = w1 ++ w2 /\ zlen w1 = width /\ Q (be_decode w1) a w2).
Proof.
  intros Hl Hk. eapply exact_iff; [eapply exact_bind; [exact Hl|exact Hk]|]. intros a w. split.
  - intros (z & w1 & w2 & -> & [-> ?] & Hq). eauto.
  - intros (w1 & w2 & -> & ? & Hq). exists (be_decode w1), w1, w2. done.
Qed.

Lemma be_decode_nonneg bs : 0 <= be_decode bs.
Proof.
  unfold be_decode. assert (H : forall acc, 0 <= acc -> 0 <= be_decode_acc acc bs); [|by apply H].
  induction bs as [|b bs IH]; intros acc Ha; cbn; [done|]. apply IH. apply Z.lor_nonneg. split; [by apply Z.shiftl_nonneg|apply Z_of_byte_range].
Qed.

(** ** The decoder accepts the grammar *)

Scheme enc_ind' := Induction for enc Sort Prop
  with enc_list_ind' := Induction for enc_list Sort Prop
  with enc_entries_ind' := Induction for enc_entries Sort Prop.
Combined Scheme enc_mutual from enc_ind', enc_list_ind', enc_entries_ind'.

(** Decide the tests on the first byte from what is known of it. *)
Ltac decide_code :=
  unfold readCode;
  repeat match goal with
  | |- context [?a <=? ?b] => first [rewrite (proj2 (Z.leb_le a b)) by lia | rewrite (proj2 (Z.leb_gt a b)) by lia]; cbn [andb]
  | |- context [?a =? ?b] => first [rewrite (proj2 (Z.eqb_eq a b)) by lia | rewrite (proj2 (Z.eqb_neq a b)) by lia]
  end.

Lemma land_low_bits z low k : 0 <= k -> low mod 2 ^ k = 0 -> low <= z < low + 2 ^ k -> Z.land z (Z.ones k) = z - low.
Proof.
  intros Hk Hm Hz. rewrite Z.land_ones by done. replace z with (low + (z - low)) at 1 by lia.
  rewrite Zplus_mod, Hm, Z.add_0_l, Zmod_mod. apply Z.mod_small. lia.
Qed.

Lemma decodes_first fuel d c w v : d <= maxMsgpackDepth -> decodes (readCode (readValue fuel (d + 1)) (Z_of_byte c)) w v ->
  decodes (readValue (S fuel) d) (c :: w) v.
Proof. intros Hd H rest. cbn [readValue]. rewrite (proj2 (Z.ltb_ge maxMsgpackDepth d)) by done. unfold rbind. cbn. apply H. Qed.

Lemma header_string fuel d n hd bs : d <= maxMsgpackDepth -> string_header n hd -> zlen bs = n ->
  decodes (readValue (S fuel) d) (hd ++ bs) (AString (string_of_bytes bs)).
Proof.
  intros Hd H Hl. destruct H as [c Hc|c width lb Hc Hw]; cbn [app]; apply decodes_first; try done.
  - decide_code. change 0x1f with (Z.ones 5). rewrite (land_low_bits _ 0xa0) by (try done; cbn; lia).
    apply (exact_readString (Z_of_byte c - 0xa0)); [lia|done].
  - assert (Hk : forall len, exact len (fun z w => z = be_decode w /\ zlen w = width) ->
      decodes (rbind len (fun length => asString (readString length))) (lb ++ bs) (AString (string_of_bytes bs))).
    { intros len Hlen. eapply decodes_bind; [apply (proj1 Hlen (be_decode lb)); done|]. apply (exact_readString (be_decode lb)); [apply be_decode_nonneg|done]. }
    apply elem_of_cons in Hc as [[= Ec ->]|Hc]; [|apply elem_of_cons in Hc as [[= Ec ->]|Hc]; [|apply list_elem_of_singleton in Hc as [= Ec ->]]];
      decide_code; apply Hk; [apply exact_byte|by apply exact_readUint..].
Qed.

(** Arrays and maps, given how the elements are read. *)
Lemma header_container {A} (low : Z) (codes : list (Z * Z)) fuel d n hd bs (r : Z -> Reader A) (mk : A -> Any) (a : A) :
  d <= maxMsgpackDepth -> header low (low + 15) codes n hd -> decodes (r n) bs a -> 0 <= n ->
  (forall c, low <= Z_of_byte c <= low + 15 -> readCode (readValue fuel (d + 1)) (Z_of_byte c) = rbind (r (Z_of_byte c - low)) (fun x => rret (mk x))) ->
  (forall c width lb, (Z_of_byte c, width) ∈ codes -> zlen lb = width -> decodes (r (be_decode lb)) bs a ->
     decodes (readCode (readValue fuel (d + 1)) (Z_of_byte c)) (lb ++ bs) (mk a)) ->
  decodes (readValue (S fuel) d) (hd ++ bs) (mk a).
Proof.
  intros Hd H Hr Hn Hfix Hlen. destruct H as [c Hc|c width lb Hc Hw]; cbn [app]; apply decodes_first; try done.
  - rewrite Hfix by done. by apply decodes_map.
  - by apply (Hlen c width).
Qed.

Lemma uint32_maxInt_value : uint32_maxInt = 2 ^ 32 - 1.
Proof. reflexivity. Qed.

Lemma be_decode_upper bs : be_decode bs < 2 ^ (8 * zlen bs).
Proof.
  unfold be_decode. assert (H : forall acc k, 0 <= k -> 0 <= acc < 2 ^ k -> be_decode_acc acc bs < 2 ^ (k + 8 * zlen bs)).
  { induction bs as [|b bs IH]; intros acc k Hk Ha; cbn [be_decode_acc].
    - change (zlen []) with 0. rewrite Z.mul_0_r, Z.add_0_r. lia.
    - rewrite zlen_cons. replace (k + 8 * (1 + zlen bs)) with ((k + 8) + 8 * zlen bs) by lia. pose proof (Z_of_byte_range b) as Hb.
      apply IH; [lia|]. rewrite lor_shiftl_small by lia. rewrite Z.pow_add_r by lia. change (2 ^ 8) with 256 in *. lia. }
  specialize (H 0 0). rewrite Z.add_0_l in H. apply H; cbn; lia.
Qed.

Lemma decodes_readArray rv n l bs : zlen l = n -> n <= maxMsgpackContainerLength -> n <= zlen bs -> decodes (read_n (length l) rv) bs l ->
  decodes (readArray rv n) bs l.
Proof.
  intros Hl Hm Hb H rest. unfold readArray. rewrite (proj2 (Z.ltb_ge _ _)) by lia. rewrite zlen_app. pose proof (zlen_nonneg rest).
  rewrite (proj2 (Z.ltb_ge _ _)) by lia. rewrite <- Hl, to_nat_zlen. apply H.
Qed.

Lemma decodes_readMap rv n (es : list (string * Any)) bs m : zlen es = n -> n <= maxMsgpackContainerLength -> 2 * n <= zlen bs ->
  decodes (readMap_loop rv (length es) []) bs m -> decodes (readMap rv n) bs m.
Proof.
  intros Hl Hm Hb H rest. unfold readMap. rewrite (proj2 (Z.ltb_ge _ _)) by lia. rewrite zlen_app. pose proof (zlen_nonneg rest).
  rewrite (proj2 (Z.ltb_ge _ _)) by (apply Z.div_le_lower_bound; lia). rewrite <- Hl, to_nat_zlen. apply H.
Qed.

Lemma array_decodes fuel d l hd bs : d <= maxMsgpackDepth -> array_header (zlen l) hd ->
  decodes (readArray (readValue fuel (d + 1)) (zlen l)) bs l -> decodes (readValue (S fuel) d) (hd ++ bs) (AArray l).
Proof.
  intros Hd H Hr. apply (header_container 0x90 [(0xdc, 2); (0xdd, 4)] fuel d (zlen l) hd bs (readArray (readValue fuel (d + 1))) AArray l Hd H Hr (zlen_nonneg l)).
  - intros c Hc. decide_code. change 0x0f with (Z.ones 4). by rewrite (land_low_bits _ 0x90) by (try done; cbn; lia).
  - intros c width lb Hc Hw Hr'. pose proof (be_decode_upper lb) as Hu. apply elem_of_cons in Hc as [[= Ec ->]|[= Ec ->]%list_elem_of_singleton]; decide_code;
      (eapply decodes_bind; [by apply decodes_readUint|]); [by apply decodes_map|].
    rewrite uint32_maxInt_value, Hw in *. change (8 * 4) with 32 in Hu. rewrite (proj2 (Z.ltb_ge _ _)) by lia. by apply decodes_map.
Qed.

Lemma map_decodes fuel d n m hd bs : d <= maxMsgpackDepth -> map_header n hd -> 0 <= n ->
  decodes (readMap (readValue fuel (d + 1)) n) bs m -> decodes (readValue (S fuel) d) (hd ++ bs) (AMap m).
Proof.
  intros Hd H Hn Hr. apply (header_container 0x80 [(0xde, 2); (0xdf, 4)] fuel d n hd bs (readMap (readValue fuel (d + 1))) AMap m Hd H Hr Hn).
  - intros c Hc. decide_code. change 0x0f with (Z.ones 4). by rewrite (land_low_bits _ 0x80) by (try done; cbn; lia).
  - intros c width lb Hc Hw Hr'. pose proof (be_decode_upper lb) as Hu. apply elem_of_cons in Hc as [[= Ec ->]|[= Ec ->]%list_elem_of_singleton]; decide_code;
      (eapply decodes_bind; [by apply decodes_readUint|]); [by apply decodes_map|].
    rewrite uint32_maxInt_value, Hw in *. change (8 * 4) with 32 in Hu. rewrite (proj2 (Z.ltb_ge _ _)) by lia. by apply decodes_map.
Qed.

Lemma int_decodes fuel d c bs width conv : d <= maxMsgpackDepth -> int_format (Z_of_byte c) = Some (width, conv) -> zlen bs = width ->
  decodes (readValue (S fuel) d) (c :: bs) (AInt (conv (be_decode bs))).
Proof.
  intros Hd Hf Hl. apply decodes_first; [done|].
  assert (H : forall r, exact r (fun z w => z = be_decode w /\ zlen w = width) -> decodes (asInt conv r) bs (AInt (conv (be_decode bs)))).
  { intros r Hr. by apply (exact_asInt conv r width Hr). }
  assert (Hw : forall n, 0 <= n -> n = width -> decodes (asInt conv (readUint n)) bs (AInt (conv (be_decode bs)))) by (intros n Hn ->; apply H; by apply exact_readUint).
  assert (Hb : 1 = width -> decodes (asInt conv readByte) bs (AInt (conv (be_decode bs)))) by (intros <-; apply H, exact_byte).
  generalize dependent (Z_of_byte c). intros z Hf.
  unfold int_format in Hf. repeat case_match; try done; injection Hf as <- <-; cbn -[asInt readUint readByte]; first [by apply Hb|by apply Hw].
Qed.

Lemma enc_decodes :
  (forall d v w, enc d v w -> (forall fuel, 65 - d <= Z.of_nat fuel -> decodes (readValue fuel d) w v) /\ 1 <= zlen w) /\
  (forall d l w, enc_list d l w -> (forall fuel, 65 - d <= Z.of_nat fuel -> decodes (read_n (length l) (readValue fuel d)) w l) /\ zlen l <= zlen w) /\
  (forall d es w, enc_entries d es w -> (forall fuel acc, 65 - d <= Z.of_nat fuel ->
     decodes (readMap_loop (readValue fuel d) (length es) acc) w (fold_left (fun m e => map_set (fst e) (snd e) m) es acc)) /\ 2 * zlen es <= zlen w).
Proof.
  assert (Hfuel : forall d fuel, d <= maxMsgpackDepth -> 65 - d <= Z.of_nat fuel -> exists fuel', fuel = S fuel' /\ 65 - (d + 1) <= Z.of_nat fuel').
  { intros d fuel Hd Hf. unfold maxMsgpackDepth in Hd. destruct fuel as [|fuel]; [lia|]. exists fuel. split; [done|lia]. }
  assert (Hhd : forall low high codes n hd (bs : list byte), header low high codes n hd -> 1 <= zlen (hd ++ bs)).
  { intros low high codes n hd bs [c|c width lb]; cbn [app]; rewrite zlen_cons; pose proof (zlen_nonneg bs); [lia|rewrite zlen_app; pose proof (zlen_nonneg lb); lia]. }
  apply enc_mutual.
  - intros d c Hd Hc. split; [|done]. intros fuel (fuel' & -> & _)%Hfuel; [|done]. apply decodes_first; [done|]. rewrite Hc. apply decodes_ret.
  - intros d c b Hd Hc. split; [|done]. intros fuel (fuel' & -> & _)%Hfuel; [|done]. apply decodes_first; [done|]. rewrite Hc. destruct b; apply decodes_ret.
  - intros d c Hd Hc. split; [|done]. intros fuel (fuel' & -> & _)%Hfuel; [|done]. apply decodes_first; [done|]. decide_code. apply decodes_ret.
  - intros d c Hd Hc. split; [|done]. intros fuel (fuel' & -> & _)%Hfuel; [|done]. apply decodes_first; [done|]. decide_code. apply decodes_ret.
  - intros d c bs width conv Hd Hf Hl. split; [|rewrite zlen_cons; pose proof (zlen_nonneg bs); lia].
    intros fuel (fuel' & -> & _)%Hfuel; [|done]. by eapply int_decodes.
  - intros d hd bs Hd Hh. split; [|by eapply Hhd]. intros fuel (fuel' & -> & _)%Hfuel; [|done]. by apply (header_string _ _ (zlen bs)).
  - intros d l hd bs Hd Hh Hm _ [IH Hlen]. split; [|by eapply Hhd]. intros fuel (fuel' & -> & Hf)%Hfuel; [|done].
    apply array_decodes; [done..|]. apply decodes_readArray; auto.
  - intros d es hd bs Hd Hh Hm _ [IH Hlen]. split; [|by eapply Hhd]. intros fuel (fuel' & -> & Hf)%Hfuel; [|done].
    apply (map_decodes _ _ (zlen es)); [done|done|apply zlen_nonneg|]. apply (decodes_readMap _ _ es); auto.
  - intros d. split; [|done]. intros fuel _. apply decodes_ret.
  - intros d v l b bs _ [IHv Hv] _ [IHl Hl]. split; [|rewrite zlen_cons, zlen_app; lia]. intros fuel Hf. cbn [length read_n].
    eapply decodes_bind; [by apply IHv|]. apply (decodes_map _ (cons v)). by apply IHl.
  - intros d. split; [|done]. intros fuel acc _. apply decodes_ret.
  - intros d k v es kb vb bs _ [IHk Hk] _ [IHv Hv] _ [IHe He]. split; [|rewrite zlen_cons, !zlen_app; lia]. intros fuel acc Hf. cbn [length readMap_loop].
    eapply decodes_bind; [by apply IHk|]. cbn beta iota. eapply decodes_bind; [by apply IHv|]. by apply IHe.
Qed.

(** ** The decoder accepts nothing else *)

Definition reads {A} (r : Reader A) (P : A -> list byte -> Prop) : Prop := forall i a o, r i = Ok (a, o) -> exists w, i = w ++ o /\ P a w.

Lemma reads_read_n rv d n : reads rv (enc d) -> reads (read_n n rv) (fun l w => length l = n /\ enc_list d l w).
Proof.
  intros Hrv. induction n as [|n IH]; intros i l o H; cbn in H.
  { injection H as <- <-. exists []. split; [done|]. split; [done|constructor]. }
  unfold rbind in H. destruct (rv i) as [[v i1]| |] eqn:E1; [|done..]. apply Hrv in E1 as (w1 & -> & H1).
  destruct (read_n n rv i1) as [[l' i2]| |] eqn:E2; [|done..]. apply IH in E2 as (w2 & -> & <- & H2). injection H as <- <-.
  exists (w1 ++ w2). split; [by rewrite app_assoc|]. split; [done|]. by constructor.
Qed.

Lemma reads_readMap_loop rv d n : reads rv (enc d) -> forall acc,
  reads (readMap_loop rv n acc) (fun m w => exists es, length es = n /\ enc_entries d es w /\ m = fold_left (fun m e => map_set (fst e) (snd e) m) es acc).
Proof.
  intros Hrv. induction n as [|n IH]; intros acc i m o H; cbn in H.
  { injection H as <- <-. exists []. split; [done|]. exists []. split; [done|]. split; [constructor|done]. }
  unfold rbind in H. destruct (rv i) as [[key i1]| |] eqn:E1; [|done..]. apply Hrv in E1 as (w1 & -> & H1).
  destruct key as [| | | |k| |]; try done. destruct (rv i1) as [[v i2]| |] eqn:E2; [|done..]. apply Hrv in E2 as (w2 & -> & H2).
  apply IH in H as (w3 & -> & es & <- & H3 & ->). exists (w1 ++ w2 ++ w3). split; [by rewrite !app_assoc|].
  exists ((k, v) :: es). split; [done|]. split; [by constructor|done].
Qed.

Lemma reads_map {A B} (r : Reader A) (f : A -> B) P : reads r P -> reads (rbind r (fun a => rret (f a))) (fun b w => exists a, b = f a /\ P a w).
Proof.
  intros H i b o E. unfold rbind in E. destruct (r i) as [[a i1]| |] eqn:E1; [|done..]. injection E as <- <-.
  apply H in E1 as (w & -> & Hp). exists w. split; [done|]. eauto.
Qed.

Lemma reads_sized {A} (len : Reader Z) width (k : Z -> Reader A) (Q : Z -> A -> list byte -> Prop) :
  exact len (fun z w => z = be_decode w /\ zlen w = width) -> (forall n, 0 <= n -> reads (k n) (Q n)) ->
  reads (rbind len k) (fun a w => exists w1 w2, w = w1 ++ w2 /\ zlen w1 = width /\ Q (be_decode w1) a w2).
Proof.
  intros [_ Hl] Hk i a o H. unfold rbind in H. destruct (len i) as [[n i1]| |] eqn:E; [|done..]. apply Hl in E as (w1 & -> & -> & Hw).
  apply Hk in H as (w2 & -> & Hq); [|apply be_decode_nonneg]. exists (w1 ++ w2). split; [by rewrite app_assoc|]. eauto.
Qed.

Lemma reads_weaken {A} (r : Reader A) (P Q : A -> list byte -> Prop) : reads r P -> (forall a w, P a w -> Q a w) -> reads r Q.
Proof. intros H Hpq i a o (w & -> & Hp)%H. eauto. Qed.

Definition arrayOf (d n : Z) (v : Any) (w : list byte) : Prop :=
  exists l, v = AArray l /\ zlen l = n /\ n <= maxMsgpackContainerLength /\ enc_list d l w.
Definition mapOf (d n : Z) (v : Any) (w : list byte) : Prop :=
  exists es, v = AMap (entries_map es) /\ zlen es = n /\ n <= maxMsgpackContainerLength /\ enc_entries d es w.

Lemma reads_array rv d n : reads rv (enc d) -> 0 <= n -> reads (asArray (readArray rv n)) (arrayOf d n).
Proof.
  intros Hrv Hn. apply (reads_map (readArray rv n) AArray (fun l w => zlen l = n /\ n <= maxMsgpackContainerLength /\ enc_list d l w)). intros i l o H. unfold readArray in H. destruct (Z.ltb_spec maxMsgpackContainerLength n); [done|].
  destruct (zlen i <? n); [done|]. apply (reads_read_n rv d _ Hrv) in H as (w & -> & Hl & He). exists w. split; [done|].
  split; [unfold zlen; lia|]. done.
Qed.

Lemma reads_mapValue rv d n : reads rv (enc d) -> 0 <= n -> reads (asMap (readMap rv n)) (mapOf d n).
Proof.
  intros Hrv Hn. eapply reads_weaken.
  - apply (reads_map (readMap rv n) AMap (fun m w => exists es, m = entries_map es /\ zlen es = n /\ n <= maxMsgpackContainerLength /\ enc_entries d es w)).
    intros i m o H. unfold readMap in H. destruct (Z.ltb_spec maxMsgpackContainerLength n); [done|].
    destruct (zlen i / 2 <? n); [done|]. apply (reads_readMap_loop rv d _ Hrv []) in H as (w & -> & es & Hl & He & ->). exists w. split; [done|].
    exists es. split; [done|]. split; [unfold zlen; lia|]. done.
  - cbn beta. intros v w (m & -> & es & -> & ?). by exists es.
Qed.

Lemma exact_reads {A} (r : Reader A) P : exact r P -> reads r P.
Proof. by intros [_ H]. Qed.

Lemma low_header low high codes c n : low <= Z_of_byte c <= high -> n = Z_of_byte c - low -> header low high codes n [c].
Proof. intros Hc ->. by constructor. Qed.

(** The value after the first byte [c]. *)
Lemma readCode_reads rv d c : d <= maxMsgpackDepth -> reads rv (enc (d + 1)) -> reads (readCode rv (Z_of_byte c)) (fun v w => enc d v (c :: w)).
Proof.
  intros Hd Hrv. pose proof (Z_of_byte_range c) as Hc. unfold readCode.
  assert (Hret : forall v, enc d v [c] -> reads (rret v) (fun v w => enc d v (c :: w))).
  { intros v Hv i v' o [= <- <-]. exists []. done. }
  assert (Hint : forall conv r width, int_format (Z_of_byte c) = Some (width, conv) -> exact r (fun z w => z = be_decode w /\ zlen w = width) ->
    reads (asInt conv r) (fun v w => enc d v (c :: w))).
  { intros conv r width Hf Hr. eapply reads_weaken; [apply exact_reads, exact_asInt, Hr|]. intros v w [-> Hw]. by eapply enc_int. }
  assert (Hstr : forall len width, (Z_of_byte c, width) ∈ [(0xd9, 1); (0xda, 2); (0xdb, 4)] -> exact len (fun z w => z = be_decode w /\ zlen w = width) ->
    reads (rbind len (fun length => asString (readString length))) (fun v w => enc d v (c :: w))).
  { intros len width Hin Hlen. eapply reads_weaken; [eapply (reads_sized len width _ _ Hlen); intros n Hn; apply exact_reads, exact_readString, Hn|].
    intros v w (w1 & w2 & -> & Hw & -> & Hl). apply (enc_string d (c :: w1) w2 Hd). rewrite Hl. by eapply header_len. }
  assert (Harr : forall len width (k : Z -> Reader Any), (Z_of_byte c, width) ∈ [(0xdc, 2); (0xdd, 4)] -> exact len (fun z w => z = be_decode w /\ zlen w = width) ->
    (forall n i x, k n i = Ok x -> asArray (readArray rv n) i = Ok x) -> reads (rbind len k) (fun v w => enc d v (c :: w))).
  { intros len width k Hin Hlen Hk. eapply reads_weaken; [apply (reads_sized len width k (arrayOf (d + 1)) Hlen); intros n Hn i v o H%Hk; by apply (reads_array rv (d + 1) n Hrv Hn)|].
    cbn beta. intros v w (w1 & w2 & -> & Hw & l & -> & Hl & Hm & He). apply (enc_array d l (c :: w1) w2 Hd); rewrite ?Hl; [by eapply header_len|done|done]. }
  assert (Hmap : forall len width (k : Z -> Reader Any), (Z_of_byte c, width) ∈ [(0xde, 2); (0xdf, 4)] -> exact len (fun z w => z = be_decode w /\ zlen w = width) ->
    (forall n i x, k n i = Ok x -> asMap (readMap rv n) i = Ok x) -> reads (rbind len k) (fun v w => enc d v (c :: w))).
  { intros len width k Hin Hlen Hk. eapply reads_weaken; [apply (reads_sized len width k (mapOf (d + 1)) Hlen); intros n Hn i v o H%Hk; by apply (reads_mapValue rv (d + 1) n Hrv Hn)|].
    cbn beta. intros v w (w1 & w2 & -> & Hw & es & -> & Hl & Hm & He). apply (enc_map d es (c :: w1) w2 Hd); rewrite ?Hl; [by eapply header_len|done|done]. }
  destruct (Z.leb_spec (Z_of_byte c) 0x7f); [apply Hret; by apply enc_small|].
  destruct (Z.leb_spec 0xe0 (Z_of_byte c)); [apply Hret; by apply enc_negative|].
  destruct (Z.leb_spec 0xa0 (Z_of_byte c)); [destruct (Z.leb_spec (Z_of_byte c) 0xbf)|]; cbn [andb].
  { change 0x1f with (Z.ones 5). rewrite (land_low_bits _ 0xa0) by (try done; cbn; lia).
    eapply reads_weaken; [apply exact_reads, exact_readString; lia|]. intros v w [-> Hw]. apply (enc_string d [c] w Hd). apply low_header; lia. }
  1: destruct (Z.leb_spec 0x90 (Z_of_byte c)); [|lia]; rewrite (proj2 (Z.leb_gt (Z_of_byte c) 0x9f)) by lia.
  2: destruct (Z.leb_spec 0x90 (Z_of_byte c)); [rewrite (proj2 (Z.leb_le (Z_of_byte c) 0x9f)) by lia|]; cbn [andb].
  2: { change 0x0f with (Z.ones 4). rewrite (land_low_bits _ 0x90) by (try done; cbn; lia).
       eapply reads_weaken; [apply (reads_array rv (d + 1)); [done|lia]|]. intros v w (l & -> & Hl & Hm & He).
       apply (enc_array d l [c] w Hd); rewrite ?Hl; [apply low_header; lia|done|done]. }
  2: { destruct (Z.leb_spec 0x80 (Z_of_byte c)); [rewrite (proj2 (Z.leb_le (Z_of_byte c) 0x8f)) by lia|lia]. cbn [andb].
       change 0x0f with (Z.ones 4). rewrite (land_low_bits _ 0x80) by (try done; cbn; lia).
       eapply reads_weaken; [apply (reads_mapValue rv (d + 1)); [done|lia]|]. intros v w (es & -> & Hl & Hm & He).
       apply (enc_map d es [c] w Hd); rewrite ?Hl; [apply low_header; lia|done|done]. }
  cbn [andb]. rewrite (proj2 (Z.leb_gt (Z_of_byte c) 0x8f)), andb_false_r by lia.
  repeat match goal with |- reads (if ?z =? ?k then _ else _) _ => destruct (Z.eqb_spec z k) as [E|?] end.
  all: try (apply Hret; first [by apply enc_nil|by apply (enc_bool d c false)|by apply (enc_bool d c true)]).
  all: try (eapply Hint; [rewrite E; reflexivity|first [apply exact_byte|by apply exact_readUint]]).
  all: try (eapply Hstr; cycle 1; [first [apply exact_byte|by apply exact_readUint]|rewrite E, !elem_of_cons; tauto]).
  all: try (eapply Harr; cycle 1; [by apply exact_readUint|intros len0 i x; first [done|by destruct (uint32_maxInt <? len0)]|rewrite E, !elem_of_cons; tauto]).
  all: try (eapply Hmap; cycle 1; [by apply exact_readUint|intros len0 i x; first [done|by destruct (uint32_maxInt <? len0)]|rewrite E, !elem_of_cons; tauto]).
  by intros i v o.
Qed.

Lemma readValue_reads fuel : forall d, reads (readValue fuel d) (enc d).
Proof.
  induction fuel as [|fuel IH]; intros d i v o H; [done|]. cbn [readValue] in H. destruct (Z.ltb_spec maxMsgpackDepth d); [done|].
  unfold rbind in H. destruct i as [|c i]; [done|]. cbn [readByte] in H. apply (readCode_reads _ d c) in H as (w & -> & Hw); [|done|apply IH].
  exists (c :: w). done.
Qed.

(** ** The recursion bound *)

Definition safe {A} (r : Reader A) : Prop := forall i, r i <> Err OutOfFuel /\ forall s, r i <> Panic s.

Lemma safe_ret {A} (a : A) : safe (rret a).
Proof. by intros i. Qed.
Lemma safe_error {A} e : e <> OutOfFuel -> safe (rlift (@Err A e)).
Proof. intros He i. split; [|done]. intros [= ->]. done. Qed.
Lemma safe_bind {A B} (r : Reader A) (k : A -> Reader B) : safe r -> (forall a, safe (k a)) -> safe (rbind r k).
Proof. intros Hr Hk i. unfold rbind. destruct (Hr i) as [H1 H2]. destruct (r i) as [[a i']|e|s]; [apply Hk|split; [congruence|done]|by destruct (H2 s)]. Qed.
Lemma safe_readByte : safe readByte.
Proof. by intros [|c i]. Qed.
Lemma safe_readBytes n : safe (readBytes n).
Proof. intros i. unfold readBytes. by destruct (_ || _). Qed.
Lemma safe_read_n {A} n (r : Reader A) : safe r -> safe (read_n n r).
Proof. intros Hr. induction n; [apply safe_ret|]. apply safe_bind; [done|]. intros x. apply safe_bind; [done|]. intros xs. apply safe_ret. Qed.
Lemma safe_readMap_loop rv n : safe rv -> forall acc, safe (readMap_loop rv n acc).
Proof.
  intros Hr. induction n as [|n IH]; intros acc; [apply safe_ret|]. apply safe_bind; [done|].
  intros [| | | |k| |]; try (by apply safe_error). apply safe_bind; [done|]. intros v. apply IH.
Qed.
Lemma safe_readArray rv n : safe rv -> safe (readArray rv n).
Proof. intros Hr i. unfold readArray. destruct (_ <? n); [done|]. destruct (_ <? n); [done|]. by apply safe_read_n. Qed.
Lemma safe_readMap rv n : safe rv -> safe (readMap rv n).
Proof. intros Hr i. unfold readMap. destruct (_ <? n); [done|]. destruct (_ <? n); [done|]. by apply safe_readMap_loop. Qed.

Create HintDb msgpack.
#[export] Hint Resolve safe_ret safe_bind safe_readByte safe_readBytes safe_readArray safe_readMap : msgpack.

Lemma safe_readCode rv code : safe rv -> safe (readCode rv code).
Proof.
  intros Hr. unfold readCode, asInt, asString, asArray, asMap, readString, readUint.
  repeat match goal with |- context [if ?b then _ else _] => destruct b end; auto 8 with msgpack.
  all: first [by apply safe_error|idtac].
  all: apply safe_bind; [auto with msgpack|]; intros n; destruct (_ <? n); [by apply safe_error|auto 8 with msgpack].
Qed.

Lemma safe_readValue fuel : forall d, 66 - d <= Z.of_nat fuel -> d <= 65 -> safe (readValue fuel d).
Proof.
  induction fuel as [|fuel IH]; intros d Hf Hd; [lia|]. cbn [readValue]. destruct (Z.ltb_spec maxMsgpackDepth d) as [|Hd']; [by intros i|].
  unfold maxMsgpackDepth in Hd'. apply safe_bind; [apply safe_readByte|]. intros code. apply safe_readCode, IH; lia.
Qed.

(** ** The MessagePack format *)

Module Format.
Inductive message :=
| MNil
| MBool (b : bool)
| MInt (z : Z)
| MFloat (bits : list byte)
| MStr (bs : list byte)
| MBin (bs : list byte)
| MArray (l : list message)
| MMap (es : list (message * message))
| MExt (type : Z) (bs : list byte).

(** Two's complement of [width] bytes. *)
Definition signed (width z : Z) : Z := if z <? 2 ^ (8 * width - 1) then z else z - 2 ^ (8 * width).

Definition uint_codes : list (Z * Z) := [(0xcc, 1); (0xcd, 2); (0xce, 4); (0xcf, 8)].
Definition int_codes : list (Z * Z) := [(0xd0, 1); (0xd1, 2); (0xd2, 4); (0xd3, 8)].
Definition float_codes : list (Z * Z) := [(0xca, 4); (0xcb, 8)].
Definition bin_codes : list (Z * Z) := [(0xc4, 1); (0xc5, 2); (0xc6, 4)].
Definition fixext_codes : list (Z * Z) := [(0xd4, 1); (0xd5, 2); (0xd6, 4); (0xd7, 8); (0xd8, 16)].
Definition ext_codes : list (Z * Z) := [(0xc7, 1); (0xc8, 2); (0xc9, 4)].

(** The encodings of a message. *)
Inductive encodes : message -> list byte -> Prop :=
| encodes_nil c : Z_of_byte c = 0xc0 -> encodes MNil [c]
| encodes_bool c b : Z_of_byte c = (if b : bool then 0xc3 else 0xc2) -> encodes (MBool b) [c]
| encodes_fixint c : Z_of_byte c <= 0x7f -> encodes (MInt (Z_of_byte c)) [c]
| encodes_negative c : 0xe0 <= Z_of_byte c -> encodes (MInt (Z_of_byte c - 256)) [c]
| encodes_uint c width bs : (Z_of_byte c, width) ∈ uint_codes -> zlen bs = width -> encodes (MInt (be_decode bs)) (c :: bs)
| encodes_int c width bs : (Z_of_byte c, width) ∈ int_codes -> zlen bs = width ->
    encodes (MInt (signed width (be_decode bs))) (c :: bs)
| encodes_float c width bs : (Z_of_byte c, width) ∈ float_codes -> zlen bs = width -> encodes (MFloat bs) (c :: bs)
| encodes_str hd bs : string_header (zlen bs) hd -> encodes (MStr bs) (hd ++ bs)
| encodes_bin c width lb bs : (Z_of_byte c, width) ∈ bin_codes -> zlen lb = width -> zlen bs = be_decode lb ->
    encodes (MBin bs) (c :: lb ++ bs)
| encodes_array l hd bs : array_header (zlen l) hd -> encodes_list l bs -> encodes (MArray l) (hd ++ bs)
| encodes_map es hd bs : map_header (zlen es) hd -> encodes_pairs es bs -> encodes (MMap es) (hd ++ bs)
| encodes_fixext c width t bs : (Z_of_byte c, width) ∈ fixext_codes -> zlen bs = width ->
    encodes (MExt (signed 1 (Z_of_byte t)) bs) (c :: t :: bs)
| encodes_ext c width lb t bs : (Z_of_byte c, width) ∈ ext_codes -> zlen lb = width -> zlen bs = be_decode lb ->
    encodes (MExt (signed 1 (Z_of_byte t)) bs) (c :: lb ++ t :: bs)
with encodes_list : list message -> list byte -> Prop :=
| encodes_list_nil : encodes_list [] []
| encodes_list_cons m l b bs : encodes m b -> encodes_list l bs -> encodes_list (m :: l) (b ++ bs)
with encodes_pairs : list (message * message) -> list byte -> Prop :=
| encodes_pairs_nil : encodes_pairs [] []
| encodes_pairs_cons k v es kb vb bs : encodes k kb -> encodes v vb -> encodes_pairs es bs ->
    encodes_pairs ((k, v) :: es) (kb ++ vb ++ bs).

(** What the decoder supports at a depth: no floats, binary data or
    extensions, string keys, bounded depth and containers. *)
Definition is_string (m : message) : bool := match m with MStr _ => true | _ => false end.

Fixpoint supported (depth : Z) (m : message) : bool :=
  (depth <=? maxMsgpackDepth) &&
  match m with
  | MNil | MBool _ | MInt _ | MStr _ => true
  | MFloat _ | MBin _ | MExt _ _ => false
  | MArray l => (zlen l <=? maxMsgpackContainerLength) && forallb (supported (depth + 1)) l
  | MMap es => (zlen es <=? maxMsgpackContainerLength)
      && forallb (fun e => is_string (fst e) && supported (depth + 1) (fst e) && supported (depth + 1) (snd e)) es
  end.

(** The Go value of a supported message: an int64, which holds the unsigned
    numbers from 2^63 only modulo 2^64; of entries with one key, the last. *)
Definition key_text (m : message) : string := match m with MStr bs => string_of_bytes bs | _ => "" end.

Fixpoint value (m : message) : Any :=
  match m with
  | MNil => ANil
  | MBool b => ABool b
  | MInt z => AInt (int64 z)
  | MStr bs => AString (string_of_bytes bs)
  | MArray l => AArray (map value l)
  | MMap es => AMap (entries_map (map (fun e => (key_text (fst e), value (snd e))) es))
  | MFloat _ | MBin _ | MExt _ _ => ANil
  end.

Definition entry_value (e : message * message) : string * Any := (key_text (fst e), value (snd e)).
Definition entry_supported (depth : Z) (e : message * message) : bool :=
  is_string (fst e) && supported depth (fst e) && supported depth (snd e).

Scheme encodes_ind' := Induction for encodes Sort Prop
  with encodes_list_ind' := Induction for encodes_list Sort Prop
  with encodes_pairs_ind' := Induction for encodes_pairs Sort Prop.
Combined Scheme encodes_mutual from encodes_ind', encodes_list_ind', encodes_pairs_ind'.

(** *** Integers *)

Lemma swrap_signed width z : 0 < width -> 0 <= z < 2 ^ (8 * width) -> swrap (8 * width) z = signed width z.
Proof.
  intros Hw Hz. unfold swrap, signed. assert (2 ^ (8 * width) = 2 * 2 ^ (8 * width - 1)) as E by (rewrite <- Z.pow_succ_r by lia; f_equal; lia).
  destruct (Z.ltb_spec z (2 ^ (8 * width - 1))); [rewrite Z.mod_small by lia; lia|].
  replace (z + _) with (z - 2 ^ (8 * width - 1) + 1 * 2 ^ (8 * width)) by lia. rewrite Z_mod_plus_full, Z.mod_small by lia. lia.
Qed.

Lemma signed_int64 width z : 0 < width <= 8 -> 0 <= z < 2 ^ (8 * width) -> int64 (signed width z) = signed width z.
Proof.
  intros Hw Hz. apply int64_id. unfold signed. assert (2 ^ (8 * width) = 2 * 2 ^ (8 * width - 1)) as E by (rewrite <- Z.pow_succ_r by lia; f_equal; lia).
  assert (2 ^ (8 * width - 1) <= 2 ^ 63) by (apply Z.pow_le_mono_r; lia). destruct (Z.ltb_spec z (2 ^ (8 * width - 1))); lia.
Qed.

Lemma int8_high c : 0xe0 <= Z_of_byte c -> int8 (Z_of_byte c) = Z_of_byte c - 256.
Proof.
  intros H. pose proof (Z_of_byte_range c). unfold int8. rewrite (swrap_signed 1) by lia. unfold signed. change (2 ^ (8 * 1 - 1)) with 128.
  by rewrite (proj2 (Z.ltb_ge _ 128)) by lia.
Qed.

Lemma uint_codes_format c width : (c, width) ∈ uint_codes ->
  exists conv, int_format c = Some (width, conv) /\ forall z, 0 <= z < 2 ^ (8 * width) -> conv z = int64 z.
Proof.
  intros H. unfold uint_codes in H. repeat (apply elem_of_cons in H as [[= -> ->]|H]); [..|by apply not_elem_of_nil in H];
    (eexists; split; [reflexivity|]); intros z Hz; try done; symmetry; apply int64_id; cbn in *; lia.
Qed.

Lemma int_codes_format c width : (c, width) ∈ int_codes ->
  exists conv, int_format c = Some (width, conv) /\ 0 < width <= 8 /\ forall z, conv z = swrap (8 * width) z.
Proof.
  intros H. unfold int_codes in H. repeat (apply elem_of_cons in H as [[= -> ->]|H]); [..|by apply not_elem_of_nil in H];
    (eexists; split; [reflexivity|]); (split; [lia|done]).
Qed.

Lemma int_format_codes c width conv : int_format c = Some (width, conv) ->
  ((c, width) ∈ uint_codes /\ forall z, 0 <= z < 2 ^ (8 * width) -> conv z = int64 z) \/
  ((c, width) ∈ int_codes /\ forall z, 0 <= z < 2 ^ (8 * width) -> conv z = int64 (signed width z)).
Proof.
  intros H. assert ((c, width) ∈ uint_codes \/ (c, width) ∈ int_codes) as [Hu|Hi].
  { unfold int_format in H. repeat case_match; try done; injection H as <- <-; unfold uint_codes, int_codes; set_solver. }
  - left. split; [done|]. destruct (uint_codes_format c width Hu) as (conv' & E & Hc). rewrite H in E. by injection E as ->.
  - right. split; [done|]. destruct (int_codes_format c width Hi) as (conv' & E & Hw & Hc). rewrite H in E. injection E as ->.
    intros z Hz. by rewrite Hc, swrap_signed, signed_int64 by (done || lia).
Qed.

Lemma be_decode_range bs width : zlen bs = width -> 0 <= be_decode bs < 2 ^ (8 * width).
Proof. intros <-. split; [apply be_decode_nonneg|apply be_decode_upper]. Qed.

(** *** Encodings of supported messages are what the decoder reads *)

Lemma encodes_enc :
  (forall m w, encodes m w -> forall d, supported d m = true -> enc d (value m) w) /\
  (forall l w, encodes_list l w -> forall d, forallb (supported d) l = true -> enc_list d (map value l) w) /\
  (forall es w, encodes_pairs es w -> forall d, forallb (entry_supported d) es = true -> enc_entries d (map entry_value es) w).
Proof.
  apply encodes_mutual; intros; cbn [supported value map forallb] in *; rewrite ?andb_true_iff, ?andb_false_r in *; destruct_and?; try done.
  - apply enc_nil; [lia|done].
  - apply enc_bool; [lia|done].
  - rewrite int64_id by (pose proof (Z_of_byte_range c); lia). apply enc_small; [lia|done].
  - pose proof (Z_of_byte_range c) as Hr. replace (int64 (Z_of_byte c - 256)) with (int8 (Z_of_byte c)); [apply enc_negative; [lia|done]|].
    rewrite (int64_id (_ - 256)) by lia. by apply int8_high.
  - destruct (uint_codes_format _ _ ltac:(eassumption)) as (conv & Hf & Hc). rewrite <- Hc by (by apply be_decode_range).
    eapply enc_int; [lia|done..].
  - destruct (int_codes_format _ _ ltac:(eassumption)) as (conv & Hf & Hw & Hc). rewrite signed_int64, <- swrap_signed, <- Hc by (lia || by apply be_decode_range).
    eapply enc_int; [lia|done..].
  - apply enc_string; [lia|done].
  - apply enc_array; rewrite ?zlen_map; [lia|done|lia|auto].
  - apply enc_map; rewrite ?zlen_map; [lia|done|lia|auto].
  - constructor.
  - constructor; auto.
  - constructor.
  - match goal with H : entry_supported _ _ = true |- _ => unfold entry_supported in H; cbn [fst snd] in H end. rewrite !andb_true_iff in *. destruct_and!.
    destruct k; try done. constructor; auto.
Qed.

Lemma value_string m s : value m = AString s -> exists bs, m = MStr bs /\ s = string_of_bytes bs.
Proof. destruct m; try done. intros [= <-]. by eexists. Qed.

Lemma enc_encodes :
  (forall d v w, enc d v w -> exists m, encodes m w /\ supported d m = true /\ v = value m) /\
  (forall d l w, enc_list d l w -> exists l', encodes_list l' w /\ forallb (supported d) l' = true /\ l = map value l') /\
  (forall d es w, enc_entries d es w ->
     exists es', encodes_pairs es' w /\ forallb (entry_supported d) es' = true /\ es = map entry_value es').
Proof.
  apply enc_mutual.
  - intros d c Hd Hc. exists MNil. split_and!; [by constructor|cbn; lia|done].
  - intros d c b Hd Hc. exists (MBool b). split_and!; [by constructor|cbn; lia|done].
  - intros d c Hd Hc. exists (MInt (Z_of_byte c)). pose proof (Z_of_byte_range c). split_and!; [by constructor|cbn; lia|].
    cbn. by rewrite int64_id by lia.
  - intros d c Hd Hc. exists (MInt (Z_of_byte c - 256)). pose proof (Z_of_byte_range c) as Hr. split_and!; [by constructor|cbn; lia|].
    cbn [value]. f_equal. rewrite (int64_id (_ - 256)) by lia. by apply int8_high.
  - intros d c bs width conv Hd Hf Hl. pose proof (be_decode_range bs width Hl) as Hr.
    destruct (int_format_codes _ _ _ Hf) as [[Hc Hconv]|[Hc Hconv]].
    + exists (MInt (be_decode bs)). split_and!; [by econstructor|cbn; lia|]. cbn. by rewrite Hconv.
    + exists (MInt (signed width (be_decode bs))). split_and!; [by econstructor|cbn; lia|]. cbn. by rewrite Hconv.
  - intros d hd bs Hd Hh. exists (MStr bs). split_and!; [by constructor|cbn; lia|done].
  - intros d l hd bs Hd Hh Hm _ (l' & Hl & Hs & ->). rewrite zlen_map in *. exists (MArray l'). cbn [supported value].
    split_and!; [by constructor| |done]. rewrite Hs. lia.
  - intros d es hd bs Hd Hh Hm _ (es' & Hl & Hs & ->). rewrite zlen_map in *. exists (MMap es'). cbn [supported value].
    split_and!; [by constructor| |done]. fold (entry_supported (d + 1)). rewrite Hs. lia.
  - intros d. exists []. split_and!; [constructor|done..].
  - intros d v l b bs _ (m & Hm & Hs & ->) _ (l' & Hl & Hs' & ->). exists (m :: l'). split_and!; [by constructor|cbn; by rewrite Hs|done].
  - intros d. exists []. split_and!; [constructor|done..].
  - intros d k v es kb vb bs _ (mk & Hk & Hks & Hkv) _ (mv & Hv & Hvs & ->) _ (es' & He & Hes & ->).
    symmetry in Hkv. apply value_string in Hkv as (ks & -> & ->). exists ((MStr ks, mv) :: es'). split_and!; [by constructor| |done].
    cbn [forallb]. unfold entry_supported at 1. cbn [fst snd is_string]. by rewrite Hks, Hvs, Hes.
Qed.
End Format.

(** C12: the decoder reads MessagePack.  It returns a value exactly for the
    encodings, in any of the formats of MessagePack, of the messages made of nil,
    booleans, integers, strings, arrays and maps with string keys that are nested
    at most 64 deep and whose containers have at most 2^20 elements (floats, binary
    data, extensions and other keys are refused); the value is that of the message,
    an unsigned integer from 2^63 modulo 2^64 as an int64, and of entries with the
    same key the last.  Whatever the bytes, the decoder does not run out of its
    recursion bound and does not panic. *)
Theorem msgpack_decode_exact data :
  (forall value, decodeMsgpack data = Ok value <->
     exists m, Format.encodes m data /\ Format.supported 0 m = true /\ value = Format.value m) /\
  decodeMsgpack data <> Err OutOfFuel /\ (forall s, decodeMsgpack data <> Panic s).
Proof.
  split.
  - intros value. unfold decodeMsgpack. split.
    + intros H. destruct (readValue 66 0 data) as [[v [|b rest]]| |] eqn:E; try done. injection H as <-.
      apply readValue_reads in E as (w & -> & Hw). rewrite app_nil_r. by apply Format.enc_encodes.
    + intros (m & Hm & Hs & ->). apply (proj1 Format.encodes_enc _ _ Hm) in Hs.
      destruct (proj1 enc_decodes _ _ _ Hs) as [Hd _]. specialize (Hd 66%nat ltac:(lia) []). rewrite app_nil_r in Hd. by rewrite Hd.
  - destruct (safe_readValue 66 0 ltac:(lia) ltac:(lia) data) as [H1 H2]. unfold decodeMsgpack.
    destruct (readValue 66 0 data) as [[v [|b rest]]|e|s]; (split; [congruence|]); try done. intros s' [= ->]. by destruct (H2 s').
Qed.

(** A list with one user, as a map with the key "users". *)
Lemma one_user_decoded :
  (let* value := decodeMsgpack [x81; xa5; x75; x73; x65; x72; x73; x91; x82; xa2; x69; x64; xcd; x01; x00; xa4; x75; x75; x69; x64; xa1; x61] in
   userListFromAny value)
  = Ok [mkUserInfo 256 "a" "" "" 0 0 "" "" "" 0 "" false false 0 0 0 0 ""].
Proof. vm_compute. reflexivity. Qed.
