(* ===== verification/TlsFragment.v ===== *)
(** * Fragmenting a TLS client hello (common/tlsfragment)

    [Conn.Write] finds the server name in the first write of a connection
    ([IndexTLSServerName]), chooses positions inside it, and sends the hello in
    pieces: as separate packets, as separate TLS records, or both.

    The random numbers, the list of public suffixes and the outcomes of the
    socket calls are parameters.  [write_ends] is the outcome of the n-th write;
    the model records the payloads of the writes, in order.

    - The position found holds the server name, and the name found is the one of
      the hello ([IndexTLSServerName_sound], [server_name_agrees]).
    - What is sent carries the bytes of the hello, whatever the random positions
      ([fragments_carry_hello]). *)
From Stdlib Require Import ZArith Lia Bool.
From S2P Require Import Prelude GoIO Ja3.

(** The constants of index.go are those of the ja3 parser. *)

Record MyServerName := mkServerName { sn_Index : Z; sn_Length : Z; sn_ServerName : list byte; sn_ExtensionsListLengthIndex : Z }.

(** ** Finding the server name (index.go) *)

(** The body of the case of the server name extension. *)
Definition indexServerName (currentIndex : Z) (sex : list byte) : result (option MyServerName) :=
  if zlen sex <? sniExtensionHeaderLen then Ok None
  else
    let* sniType := index sex 2 in
    if negb (sniType =? sniNameDNSHostnameType) then Ok None
    else
      let* sniLen := be16 sex 3 in
      let* sex := slice_from sex sniExtensionHeaderLen in
      if (sniLen =? 0) || negb (zlen sex =? sniLen) then Ok None
      else Ok (Some (mkServerName (currentIndex + extensionHeaderLen + sniExtensionHeaderLen) sniLen sex 0)).

(** The loop; the slice at its end adds in uint16, the index in int. *)
Fixpoint indexExtensions_loop (fuel : nat) (currentIndex : Z) (exs : list byte) : result (option MyServerName) :=
  if zlen exs =? 0 then Ok None
  else match fuel with
  | O => Err OutOfFuel
  | S fuel' =>
      if zlen exs <? extensionHeaderLen then Ok None
      else
        let* exType := be16 exs 0 in
        let* exLen := be16 exs 2 in
        if zlen exs <? extensionHeaderLen + exLen then Ok None
        else
          let* sex := slice exs extensionHeaderLen (extensionHeaderLen + exLen) in
          if exType =? sniExtensionType then indexServerName currentIndex sex
          else
            let* exs := slice_from exs (uint16 (4 + exLen)) in
            indexExtensions_loop fuel' (currentIndex + (4 + exLen)) exs
  end.

Definition indexTLSServerNameFromExtensions (exs : list byte) : result (option MyServerName) :=
  if zlen exs =? 0 then Ok None
  else if zlen exs <? extensionsHeaderLen then Ok None
  else
    let* exsLen := be16 exs 0 in
    let* exs := slice_from exs extensionsHeaderLen in
    if zlen exs <? exsLen then Ok None
    else indexExtensions_loop (length exs) extensionsHeaderLen exs.

Definition indexTLSServerNameFromHandshake (handshake : list byte) : result (option MyServerName) :=
  if zlen handshake <? handshakeHeaderLen + randomDataLen + sessionIDHeaderLen then Ok None
  else
    let* type := index handshake 0 in
    if negb (type =? handshakeType) then Ok None
    else
      let* b1 := index handshake 1 in let* b2 := index handshake 2 in let* b3 := index handshake 3 in
      let handshakeLen := Z.lor (Z.lor (Z.shiftl b1 16) (Z.shiftl b2 8)) b3 in
      let* body := slice_from handshake 4 in
      if negb (zlen body =? handshakeLen) then Ok None
      else
        let* tlsVersion := be16 handshake 4 in
        if negb (supportedVersion tlsVersion) then Ok None
        else
          let* sessionIDLen := index handshake 38 in
          let currentIndex := handshakeHeaderLen + randomDataLen + sessionIDHeaderLen + sessionIDLen in
          if zlen handshake <? currentIndex then Ok None
          else
            let* cipherSuites := slice_from handshake currentIndex in
            if zlen cipherSuites <? cipherSuiteHeaderLen then Ok None
            else
              let* csLen := be16 cipherSuites 0 in
              if zlen cipherSuites <? cipherSuiteHeaderLen + csLen + compressMethodHeaderLen then Ok None
              else
                let* compressMethodLen := index cipherSuites (cipherSuiteHeaderLen + csLen) in
                let currentIndex := currentIndex + (cipherSuiteHeaderLen + csLen + compressMethodHeaderLen + compressMethodLen) in
                if zlen handshake <? currentIndex then Ok None
                else
                  let* exs := slice_from handshake currentIndex in
                  let* found := indexTLSServerNameFromExtensions exs in
                  Ok (match found with
                      | None => None
                      | Some sn => Some (mkServerName (sn_Index sn + currentIndex) (sn_Length sn) (sn_ServerName sn) currentIndex)
                      end).

Definition IndexTLSServerName (payload : list byte) : result (option MyServerName) :=
  if zlen payload <? recordLayerHeaderLen then Ok None
  else
    let* type := index payload 0 in
    if negb (type =? contentType) then Ok None
    else
      let* segmentLen := be16 payload 3 in
      if zlen payload <? recordLayerHeaderLen + segmentLen then Ok None
      else
        let* handshake := slice_from payload recordLayerHeaderLen in
        let* found := indexTLSServerNameFromHandshake handshake in
        Ok (match found with
            | None => None
            | Some sn => Some (mkServerName (sn_Index sn + recordLayerHeaderLen) (sn_Length sn) (sn_ServerName sn)
                                 (sn_ExtensionsListLengthIndex sn + recordLayerHeaderLen))
            end).

(** ** Splitting (conn.go) *)

Definition dot : byte := x2e.

(** [strings.Split(s, ".")]. *)
Fixpoint Split_dots (s : list byte) : list (list byte) :=
  match s with
  | [] => [[]]
  | c :: rest =>
      if Byte.eqb c dot then [] :: Split_dots rest
      else match Split_dots rest with [] => [[c]] | label :: labels => (c :: label) :: labels end
  end.

(** [strings.Count(s, ".")]. *)
Definition Count_dots (s : list byte) : nat := length (List.filter (fun c => Byte.eqb c dot) s).

(** The outcomes of the calls to the connection. *)
Record SocketIO := mkSocketIO {
  setNoDelay : bool -> option go_error;
  write_ends : nat -> option go_error;
}.

Record FragmentConn := mkFragmentConn {
  hasTCPConn : bool;
  firstPacketWritten : bool;
  splitPacket : bool;
  splitRecord : bool;
}.

(** The payloads handed to the connection so far. *)
Definition Sent : Type := list (list byte).

Section Fragment.
Context (PublicSuffix : list byte -> list byte) (Intn : nat -> Z -> Z) (io : SocketIO).

(** One write to the connection below. *)
Definition sendOne (payload : list byte) (sent : Sent) : Sent * result unit :=
  (sent ++ [payload], match write_ends io (length sent) with None => Ok tt | Some e => Err e end).

(** The labels among which the name is cut. *)
Definition splitLabels (name : list byte) : list (list byte) :=
  let splits := Split_dots name in
  if bool_decide (PublicSuffix name = []) then splits else take (length splits - Count_dots name) splits.

(** The loop over the labels; [calls] counts the calls to [rand.Intn]. *)
Fixpoint splitIndexes_loop (calls : nat) (splits : list (list byte)) (currentIndex : Z) : list Z :=
  match splits with
  | [] => []
  | split :: rest =>
      let last := match rest with [] => true | _ => false end in
      match split with
      | [] => splitIndexes_loop calls rest (if last then currentIndex else currentIndex + 1)
      | _ =>
          let splitAt := Intn calls (zlen split) in
          (currentIndex + splitAt) ::
            splitIndexes_loop (S calls) rest (currentIndex + zlen split + (if last then 0 else 1))
      end
  end.

Definition threeDots : list byte := [dot; dot; dot].

Definition splitIndexes (sn : MyServerName) : list Z :=
  match splitLabels (sn_ServerName sn) with
  | (first :: _ :: _) as splits =>
      if bool_decide (first = threeDots) then splitIndexes_loop 0 (List.tl splits) (sn_Index sn + zlen first + 1)
      else splitIndexes_loop 0 splits (sn_Index sn)
  | splits => splitIndexes_loop 0 splits (sn_Index sn)
  end.

(** [indexes[i]]. *)
Definition at_index (indexes : list Z) (i : nat) : result Z :=
  match indexes !! i with Some v => Ok v | None => Panic "runtime error: index out of range" end.

(** The [i]-th piece of the hello. *)
Definition piece (c : FragmentConn) (b : list byte) (indexes : list Z) (i : nat) : result (list byte) :=
  if (i =? 0)%nat then
    let* hi := at_index indexes 0 in
    let* payload := slice b 0 hi in
    if splitRecord c then slice_from payload recordLayerHeaderLen else Ok payload
  else if (i =? length indexes)%nat then let* lo := at_index indexes (i - 1) in slice_from b lo
  else let* lo := at_index indexes (i - 1) in let* hi := at_index indexes i in slice b lo hi.

(** A record with the type and the version of the hello's. *)
Definition writeRecord (b payload : list byte) : result (list byte) :=
  let* header := slice b 0 3 in Ok (header ++ be_encode 2 (uint16 (zlen payload)) ++ payload).

(** The loop over the pieces [i], [i + 1], ...; [buffer] collects the records. *)
Fixpoint writePieces (c : FragmentConn) (b : list byte) (indexes : list Z) (n i : nat) (buffer : list byte) (sent : Sent)
    : Sent * result (list byte) :=
  match n with
  | O => (sent, Ok buffer)
  | S n' =>
      match piece c b indexes i with
      | Panic s => (sent, Panic s)
      | Err e => (sent, Err e)
      | Ok payload =>
          match (if splitRecord c then
                   let* record := writeRecord b payload in
                   let buffer := (if splitPacket c then [] else buffer) ++ record in
                   Ok (buffer, if splitPacket c then buffer else payload)
                 else Ok (buffer, payload)) with
          | Panic s => (sent, Panic s)
          | Err e => (sent, Err e)
          | Ok (buffer, payload) =>
              if splitPacket c then
                match sendOne payload sent with
                | (sent, Ok _) => writePieces c b indexes n' (S i) buffer sent
                | (sent, Err e) => (sent, Err e)
                | (sent, Panic s) => (sent, Panic s)
                end
              else writePieces c b indexes n' (S i) buffer sent
          end
      end
  end.

(** A write that is passed on: its length, or the error of the connection. *)
Definition passOn (b : list byte) (sent : Sent) : Sent * result Z :=
  let '(sent, r) := sendOne b sent in (sent, let* _ := r in Ok (zlen b)).

Definition noDelay (c : FragmentConn) (on : bool) : result unit :=
  if hasTCPConn c then match setNoDelay io on with Some e => Err e | None => Ok tt end else Ok tt.

Definition writeFragments (c : FragmentConn) (b : list byte) (sn : MyServerName) (sent : Sent) : Sent * result Z :=
  match (if splitPacket c then noDelay c true else Ok tt) with
  | Panic s => (sent, Panic s)
  | Err e => (sent, Err e)
  | Ok _ =>
      let indexes := splitIndexes sn in
      match indexes with
      | [] => passOn b sent
      | _ =>
          match writePieces c b indexes (S (length indexes)) 0 [] sent with
          | (sent, Panic s) => (sent, Panic s)
          | (sent, Err e) => (sent, Err e)
          | (sent, Ok buffer) =>
              let '(sent, r) := if splitRecord c && negb (splitPacket c) then sendOne buffer sent else (sent, Ok tt) in
              (sent, let* _ := r in let* _ := noDelay c false in Ok (zlen b))
          end
      end
  end.

(** [Conn.Write]: the connection afterwards, what was handed down, and what it returns. *)
Definition FragmentConn_Write (c : FragmentConn) (b : list byte) (sent : Sent) : FragmentConn * (Sent * result Z) :=
  if firstPacketWritten c then (c, passOn b sent)
  else
    (mkFragmentConn (hasTCPConn c) true (splitPacket c) (splitRecord c),
     match IndexTLSServerName b with
     | Ok (Some sn) => writeFragments c b sn sent
     | Ok None => passOn b sent
     | Err e => (sent, Err e)
     | Panic s => (sent, Panic s)
     end).

End Fragment.

(** ** The position of the name *)

Lemma slice_split bs lo hi s : slice bs lo hi = Ok s -> exists p r, bs = p ++ s ++ r /\ zlen p = lo /\ zlen s = hi - lo.
Proof.
  unfold slice. destruct (0 <=? lo) eqn:E1, (lo <=? hi) eqn:E2, (hi <=? zlen bs) eqn:E3; cbn [andb]; try done. intros [= <-].
  apply Z.leb_le in E1, E2, E3. exists (take (Z.to_nat lo) bs), (drop (Z.to_nat (hi - lo)) (drop (Z.to_nat lo) bs)).
  rewrite take_drop, take_drop. unfold zlen in *. rewrite !length_take, length_drop. split; [done|]. lia.
Qed.

Lemma slice_from_split bs lo s : slice_from bs lo = Ok s -> exists p, bs = p ++ s /\ zlen p = lo.
Proof.
  intros (p & r & -> & Hp & Hs)%slice_split. exists p. rewrite !zlen_app in Hs. assert (r = []) as ->; [|by rewrite app_nil_r].
  destruct r; [done|]. rewrite zlen_cons in Hs. pose proof (zlen_nonneg r). lia.
Qed.

(** The outcome is a value with [P], or an error other than the bound of the model. *)
Definition yields {A} (P : A -> Prop) (r : result A) : Prop :=
  match r with Ok a => P a | Err e => e <> OutOfFuel | Panic _ => False end.

Lemma yields_bind {A B} (P : A -> Prop) (Q : B -> Prop) r (k : A -> result B) : yields P r -> (forall a, P a -> yields Q (k a)) -> yields Q (bind_result r k).
Proof. intros H Hk. destruct r; [by apply Hk|done..]. Qed.

(** One step through a parser, as [returns_step]; slices are remembered as parts of what they were cut from. *)
Ltac yields_step :=
  match goal with
  | |- yields _ (if ?a <? ?b then _ else _) => destruct (Z.ltb_spec a b)
  | |- yields _ (if ?a =? ?b then _ else _) => destruct (Z.eqb_spec a b)
  | |- yields _ (if negb (?a =? ?b) then _ else _) => destruct (Z.eqb_spec a b); cbn [negb]
  | |- yields _ (if negb ?b then _ else _) => destruct b; cbn [negb]
  | |- yields _ (bind_result (index ?bs ?i) _) =>
      let v := fresh "v" in let H := fresh "Hv" in destruct (index_ok bs i ltac:(lia)) as (v & -> & H); cbn [bind_result]
  | |- yields _ (bind_result (be16 ?bs ?i) _) =>
      let v := fresh "v" in let H := fresh "Hv" in destruct (be16_ok bs i ltac:(lia) ltac:(lia)) as (v & -> & H); cbn [bind_result]
  | |- yields _ (bind_result (slice_from ?bs ?i) _) =>
      let v := fresh "s" in let H := fresh "Hs" in let E := fresh "E" in
      destruct (slice_from_ok bs i ltac:(lia)) as (v & E & H); rewrite E; apply slice_from_split in E; cbn [bind_result]
  | |- yields _ (bind_result (slice ?bs ?i ?j) _) =>
      let v := fresh "s" in let H := fresh "Hs" in let E := fresh "E" in
      destruct (slice_ok bs i j ltac:(lia) ltac:(lia)) as (v & E & H); rewrite E; apply slice_split in E; cbn [bind_result]
  | |- yields _ (Ok None) => done
  end.

(** The name lies at its index, counted from [base], in [bs]. *)
Definition located (base : Z) (bs : list byte) (found : option MyServerName) : Prop :=
  match found with
  | None => True
  | Some sn => exists p r, bs = p ++ sn_ServerName sn ++ r /\ base + zlen p = sn_Index sn
                           /\ sn_Length sn = zlen (sn_ServerName sn) /\ 0 < sn_Length sn
  end.

Lemma located_prefix base n p bs found : zlen p = n -> located (base + n) bs found -> located base (p ++ bs) found.
Proof.
  intros <-. destruct found as [sn|]; [|done]. intros (q & r & -> & Hi & Hl). exists (p ++ q), r.
  rewrite <- app_assoc, zlen_app. split; [done|]. split; [lia|done].
Qed.

Ltac unfold_sizes := unfold recordLayerHeaderLen, handshakeHeaderLen, randomDataLen, sessionIDHeaderLen, cipherSuiteHeaderLen,
  compressMethodHeaderLen, extensionsHeaderLen, extensionHeaderLen, sniExtensionHeaderLen in *.

Lemma indexServerName_located cur exs : yields (located (cur + 4) exs) (indexServerName cur exs).
Proof.
  unfold indexServerName. unfold_sizes. repeat yields_step.
  destruct ((v0 =? 0) || negb (zlen s =? v0)) eqn:Eb; [exact I|]. apply orb_false_iff in Eb as [E1 E2].
  apply Z.eqb_neq in E1. apply negb_false_iff, Z.eqb_eq in E2. destruct E as (p & -> & Hp).
  exists p, []. cbn [sn_ServerName sn_Index sn_Length]. rewrite app_nil_r. split; [done|]. lia.
Qed.

Lemma indexExtensions_located fuel : forall cur exs, zlen exs < 65536 -> (length exs <= fuel)%nat ->
  yields (located cur exs) (indexExtensions_loop fuel cur exs).
Proof.
  induction fuel as [|fuel IH]; intros cur exs Hl Hf; cbn [indexExtensions_loop].
  { destruct exs; [exact I|cbn in Hf; lia]. }
  yields_step; [exact I|]. unfold_sizes. repeat yields_step.
  - destruct E as (p & r & -> & Hp & _). pose proof (indexServerName_located cur s) as Hn.
    destruct (indexServerName cur s) as [found| |]; [|done..]. cbn in Hn. apply (located_prefix cur 4); [done|].
    destruct found as [sn|]; [|done]. destruct Hn as (q & r' & -> & Hi & Hlen). exists q, (r' ++ r). rewrite <- !app_assoc. split; [done|]. by split.
  - unfold uint16. rewrite wrap_small by (unfold is_uint; lia). yields_step. destruct E0 as (p & Epre & Hp).
    assert (length s0 <= fuel)%nat as Hf' by (rewrite Epre, length_app in Hf; unfold zlen in Hp; lia).
    specialize (IH (cur + (4 + v0)) s0 ltac:(lia) Hf'). destruct (indexExtensions_loop _ _ _) as [found| |]; [|done..].
    cbn [yields] in *. rewrite Epre. by apply (located_prefix cur (4 + v0)).
Qed.

Lemma indexTLSExtensions_located exs : zlen exs < 65536 -> yields (located 0 exs) (indexTLSServerNameFromExtensions exs).
Proof.
  intros Hl. unfold indexTLSServerNameFromExtensions. unfold_sizes. repeat yields_step. destruct E as (p & -> & Hp).
  pose proof (indexExtensions_located (length s) 2 s ltac:(lia) ltac:(done)) as Hn.
  destruct (indexExtensions_loop _ _ _); [|done..]. by apply (located_prefix 0 2).
Qed.

(** [located] with the base 0, for a name that starts after [n] bytes. *)
Definition located_after (n : Z) (bs : list byte) (found : option MyServerName) : Prop :=
  located 0 bs found /\ match found with Some sn => n <= sn_Index sn | None => True end.

Lemma located_shift n m p bs found (other : Z) : zlen p = n -> 0 <= m -> located_after m bs found ->
  located_after (n + m) (p ++ bs)
    (match found with None => None | Some sn => Some (mkServerName (sn_Index sn + n) (sn_Length sn) (sn_ServerName sn) other) end).
Proof.
  intros Hp Hm [Hf Hi]. destruct found as [sn|]; [|done]. destruct Hf as (q & r & -> & H1 & H2). split; [|cbn; lia].
  exists (p ++ q), r. cbn [sn_ServerName sn_Index sn_Length]. rewrite <- app_assoc, zlen_app. split; [done|]. split; [lia|done].
Qed.

Lemma located_after_0 bs found : located 0 bs found -> located_after 0 bs found.
Proof. intros H. split; [done|]. destruct found as [sn|]; [|done]. destruct H as (q & r & _ & <- & _). pose proof (zlen_nonneg q). lia. Qed.

Lemma located_after_weaken n m bs found : n <= m -> located_after m bs found -> located_after n bs found.
Proof. intros Hn [H1 H2]. split; [done|]. destruct found; [lia|done]. Qed.

Lemma indexHandshake_located handshake : zlen handshake < 65536 -> yields (located_after 39 handshake) (indexTLSServerNameFromHandshake handshake).
Proof.
  intros Hl. unfold indexTLSServerNameFromHandshake. unfold_sizes. repeat yields_step.
  eapply yields_bind; [apply indexTLSExtensions_located; lia|]. intros found Hf. cbn beta.
  match goal with E : exists p, handshake = p ++ ?x /\ zlen p = ?n |- context [match found with None => None | Some sn => Some (mkServerName _ _ _ ?o) end] =>
    destruct E as (p & -> & Hp); apply (located_after_weaken 39 (n + 0)); [lia|]; apply (located_shift n 0 p x found o); [done|lia|] end.
  by apply located_after_0.
Qed.

(** The name found lies at the index given, whatever was written. *)
Theorem IndexTLSServerName_sound payload : zlen payload < 65541 -> yields (located_after 44 payload) (IndexTLSServerName payload).
Proof.
  intros Hl. unfold IndexTLSServerName. unfold_sizes. repeat yields_step.
  eapply yields_bind; [apply indexHandshake_located; lia|]. intros found Hf. destruct E as (p & -> & Hp).
  destruct found as [sn|]; [|done]. exact (located_shift 5 39 p s (Some sn) _ Hp ltac:(lia) Hf).
Qed.

(** ** The positions chosen *)

(** [lo], the positions, and [hi] increase strictly. *)
Fixpoint increasing (lo : Z) (l : list Z) (hi : Z) : Prop :=
  match l with [] => lo < hi | i :: rest => lo < i /\ increasing i rest hi end.

Lemma increasing_weaken l : forall lo hi hi', hi <= hi' -> increasing lo l hi -> increasing lo l hi'.
Proof. induction l as [|i l IH]; cbn; intros lo hi hi' H Hi; [lia|]. destruct Hi. split; [done|]. by eapply IH. Qed.

(** The length of the labels with the dots between them. *)
Fixpoint joined (labels : list (list byte)) : Z :=
  match labels with [] => 0 | [label] => zlen label | label :: rest => zlen label + 1 + joined rest end.

Lemma joined_cons label rest : joined (label :: rest) = zlen label + (match rest with [] => 0 | _ => 1 end) + joined rest.
Proof. destruct rest; cbn [joined]; lia. Qed.

Lemma joined_nonneg labels : 0 <= joined labels.
Proof. induction labels as [|l labels IH]; [done|]. rewrite joined_cons. pose proof (zlen_nonneg l). destruct labels; lia. Qed.

Lemma joined_take k labels : joined (take k labels) <= joined labels.
Proof.
  revert k. induction labels as [|l labels IH]; intros [|k]; cbn [take]; [done..| |].
  - rewrite joined_cons. pose proof (zlen_nonneg l). pose proof (joined_nonneg labels). change (joined []) with 0. destruct labels; lia.
  - rewrite !joined_cons. specialize (IH k). destruct labels, k; cbn [take] in *; cbn [joined] in *; try lia.
    all: pose proof (joined_nonneg labels); destruct labels; pose proof (zlen_nonneg l0); lia.
Qed.

Lemma Split_dots_nonempty s : Split_dots s <> [].
Proof. destruct s as [|c s]; cbn; [done|]. destruct (Byte.eqb c dot); [done|]. by destruct (Split_dots s). Qed.

Lemma joined_Split_dots s : joined (Split_dots s) = zlen s.
Proof.
  induction s as [|c s IH]; [done|]. cbn [Split_dots]. rewrite zlen_cons, <- IH. pose proof (Split_dots_nonempty s).
  destruct (Byte.eqb c dot); destruct (Split_dots s) as [|l ls]; try done; rewrite !joined_cons; rewrite ?zlen_cons; change (zlen []) with 0; lia.
Qed.

Lemma length_Split_dots s : length (Split_dots s) = S (Count_dots s).
Proof.
  induction s as [|c s IH]; [done|]. cbn [Split_dots]. unfold Count_dots in *. cbn [List.filter].
  destruct (Byte.eqb c dot); cbn [length]; [by rewrite IH|]. by destruct (Split_dots s).
Qed.

Lemma Split_dots_no_dot s : Forall (fun label => dot ∉ label) (Split_dots s).
Proof.
  induction s as [|c s IH]; cbn [Split_dots]; [repeat constructor; set_solver|].
  destruct (Byte.eqb c dot) eqn:E; [constructor; [set_solver|done]|].
  assert (c <> dot) by (by intros ->; vm_compute in E).
  destruct (Split_dots s) as [|l ls]; [repeat constructor; set_solver|]. apply Forall_cons in IH as [Hl Hls]. constructor; [set_solver|done].
Qed.

Section Positions.
Context (PublicSuffix : list byte -> list byte) (Intn : nat -> Z -> Z).
Hypothesis Intn_range : forall calls n, 0 < n -> 0 <= Intn calls n < n.

Lemma splitIndexes_loop_increasing splits : forall calls cur lo, lo < cur ->
  increasing lo (splitIndexes_loop Intn calls splits cur) (cur + joined splits).
Proof.
  induction splits as [|label rest IH]; intros calls cur lo Hlo; [cbn; lia|]. rewrite joined_cons. cbn [splitIndexes_loop].
  pose proof (joined_nonneg rest). destruct label as [|b label].
  - change (zlen []) with 0. destruct rest as [|l rest]; [cbn; lia|].
    eapply increasing_weaken; [|apply (IH calls (cur + 1) lo); lia]. lia.
  - pose proof (Intn_range calls (zlen (b :: label)) ltac:(rewrite zlen_cons; pose proof (zlen_nonneg label); lia)) as Hr.
    cbn [increasing]. split; [lia|]. eapply increasing_weaken; [|apply IH].
    + destruct rest; lia.
    + destruct rest; lia.
Qed.

(** The special case of a label of three dots does not arise. *)
Lemma splitIndexes_labels sn : splitIndexes PublicSuffix Intn sn = splitIndexes_loop Intn 0 (splitLabels PublicSuffix (sn_ServerName sn)) (sn_Index sn).
Proof.
  unfold splitIndexes. assert (Forall (fun label => dot ∉ label) (splitLabels PublicSuffix (sn_ServerName sn))) as Hd.
  { unfold splitLabels. pose proof (Split_dots_no_dot (sn_ServerName sn)). case_bool_decide; [done|]. by apply Forall_take. }
  destruct (splitLabels _ _) as [|first [|l rest]]; [done..|]. rewrite bool_decide_false; [done|].
  intros ->. apply Forall_cons in Hd as [Hd _]. unfold threeDots in Hd. set_solver.
Qed.

Lemma splitIndexes_increasing lo sn : lo < sn_Index sn -> 
  increasing lo (splitIndexes PublicSuffix Intn sn) (sn_Index sn + zlen (sn_ServerName sn)).
Proof.
  intros Hlo. rewrite splitIndexes_labels. eapply increasing_weaken; [|by apply splitIndexes_loop_increasing].
  rewrite <- (joined_Split_dots (sn_ServerName sn)). unfold splitLabels. case_bool_decide; [lia|].
  pose proof (joined_take (length (Split_dots (sn_ServerName sn)) - Count_dots (sn_ServerName sn)) (Split_dots (sn_ServerName sn))). lia.
Qed.

(** With a public suffix only the first label is cut, however many labels precede the suffix. *)
Lemma splitLabels_first name : PublicSuffix name <> [] -> splitLabels PublicSuffix name = take 1 (Split_dots name).
Proof. intros H. unfold splitLabels. rewrite bool_decide_false by done. by rewrite length_Split_dots, Nat.sub_succ_l, Nat.sub_diag. Qed.

End Positions.

(** ** The pieces *)

(** [b] from [lo] on, cut at the positions. *)
Fixpoint cuts (b : list byte) (lo : Z) (indexes : list Z) : list (list byte) :=
  match indexes with
  | [] => [drop (Z.to_nat lo) b]
  | i :: rest => take (Z.to_nat (i - lo)) (drop (Z.to_nat lo) b) :: cuts b i rest
  end.

Lemma concat_cuts b indexes : forall lo, 0 <= lo -> increasing lo indexes (zlen b) -> concat (cuts b lo indexes) = drop (Z.to_nat lo) b.
Proof.
  induction indexes as [|i indexes IH]; intros lo H0 H; cbn [cuts concat]; [apply app_nil_r|]. destruct H as [Hi H].
  rewrite IH by (done || lia). replace (Z.to_nat i) with (Z.to_nat lo + Z.to_nat (i - lo))%nat by lia. rewrite <- drop_drop. apply take_drop.
Qed.

Lemma increasing_last l : forall lo hi, increasing lo l hi -> lo < hi.
Proof. induction l as [|i l IH]; cbn; intros lo hi H; [done|]. destruct H as [H1 H2]. specialize (IH _ _ H2). lia. Qed.

Lemma cuts_sizes b indexes : forall lo, 0 <= lo -> increasing lo indexes (zlen b) -> Forall (fun p => 0 < zlen p <= zlen b) (cuts b lo indexes).
Proof.
  induction indexes as [|i indexes IH]; intros lo H0 H; cbn [cuts].
  - cbn in H. repeat constructor; unfold zlen in *; rewrite length_drop; lia.
  - destruct H as [Hi H]. pose proof (increasing_last _ _ _ H). constructor; [|apply IH; [lia|done]].
    unfold zlen in *. rewrite length_take, length_drop. lia.
Qed.

Lemma slice_take_drop b lo hi : 0 <= lo -> lo <= hi <= zlen b -> slice b lo hi = Ok (take (Z.to_nat (hi - lo)) (drop (Z.to_nat lo) b)).
Proof. intros H1 [H2 H3]. unfold slice. by rewrite !(proj2 (Z.leb_le _ _)) by lia. Qed.

(** A sequence of TLS records with this type and version: none is empty, their contents make up [content]. *)
Inductive record_stream (header : list byte) : list byte -> list byte -> Prop :=
| records_nil : record_stream header [] []
| records_cons payload wire content :
    0 < zlen payload < 65536 -> record_stream header wire content ->
    record_stream header ((header ++ be_encode 2 (zlen payload) ++ payload) ++ wire) (payload ++ content).

Definition record_of (b payload : list byte) : list byte := take 3 b ++ be_encode 2 (zlen payload) ++ payload.

Lemma records_of_cuts b pieces : Forall (fun p => 0 < zlen p < 65536) pieces -> record_stream (take 3 b) (concat (map (record_of b) pieces)) (concat pieces).
Proof. induction 1 as [|p pieces Hp _ IH]; cbn [map concat]; [constructor|]. by apply records_cons. Qed.

Section Writes.
Context (PublicSuffix : list byte -> list byte) (Intn : nat -> Z -> Z) (io : SocketIO) (c : FragmentConn) (b : list byte).
Hypothesis Intn_range : forall calls n, 0 < n -> 0 <= Intn calls n < n.
Hypothesis writes_end : forall n, write_ends io n = None.
Hypothesis nodelay_ends : forall on, setNoDelay io on = None.

(** Where the first piece starts. *)
Definition start : Z := if splitRecord c then 5 else 0.

Definition lower (done : list Z) : Z := List.last done start.

Lemma piece_cuts indexes done todo : indexes = done ++ todo -> indexes <> [] ->
  start <= lower done -> increasing (lower done) todo (zlen b) ->
  piece c b indexes (length done) = Ok (default [] (head (cuts b (lower done) todo))).
Proof.
  intros -> Hne Hs Hi. unfold piece, start, recordLayerHeaderLen in *. pose proof (increasing_last _ _ _ Hi) as Hlt.
  destruct done as [|d done _] using rev_ind.
  - cbn [length Nat.eqb app] in *. destruct todo as [|i todo]; [done|]. destruct Hi as [H1 H2]. apply increasing_last in H2.
    cbn [at_index lookup list_lookup bind_result cuts head default]. unfold lower, start in *. cbn [List.last] in *.
    rewrite slice_take_drop by (destruct (splitRecord c); lia). cbn [bind_result].
    destruct (splitRecord c); [|by rewrite drop_0].
    unfold slice_from. rewrite slice_take_drop; unfold zlen in *; rewrite ?length_take, ?length_drop; [|lia..]. f_equal.
    rewrite Z.sub_0_r, drop_0. cbn [id]. rewrite skipn_firstn_comm. rewrite take_take. f_equal. lia.
  - unfold lower in *. rewrite last_last in *. rewrite length_app, Nat.add_comm. cbn [length Nat.add]. rewrite (proj2 (Nat.eqb_neq (S (length done)) 0)) by lia. change (S (length done) - 1)%nat with (length done - 0)%nat. rewrite Nat.sub_0_r.
    assert (at_index ((done ++ [d]) ++ todo) (length done) = Ok d) as Ed by (unfold at_index; rewrite <- app_assoc; cbn [app]; by rewrite list_lookup_middle).
    rewrite Ed. cbn [bind_result]. assert (0 <= d) by (destruct (splitRecord c); lia). destruct todo as [|i todo].
    + rewrite app_nil_r, length_app, Nat.add_comm. cbn [length Nat.add]. rewrite Nat.eqb_refl. unfold slice_from. rewrite slice_take_drop by lia.
      cbn [cuts head default]. f_equal. unfold id. apply take_ge. rewrite length_drop. unfold zlen. lia.
    + rewrite (proj2 (Nat.eqb_neq _ _)) by (rewrite !length_app; cbn [length]; lia).
      assert (at_index ((done ++ [d]) ++ i :: todo) (S (length done)) = Ok i) as Ei
        by (unfold at_index; rewrite list_lookup_middle; [done|rewrite length_app; cbn [length]; lia]).
      rewrite Ei. cbn [bind_result]. destruct Hi as [H1 H2]. apply increasing_last in H2. by rewrite slice_take_drop by lia.
Qed.

(** What becomes of the pieces [ps]: the payloads written, and the buffer. *)
Definition framed (p : list byte) : list byte := if splitRecord c then record_of b p else p.

Lemma writeRecord_of p : 3 <= zlen b -> zlen p < 65536 -> writeRecord b p = Ok (record_of b p).
Proof.
  intros H3 Hp. unfold writeRecord, record_of. rewrite slice_take_drop by lia. pose proof (zlen_nonneg p).
  cbn [bind_result]. unfold uint16. by rewrite wrap_small by (unfold is_uint; lia).
Qed.

Lemma writePieces_spec indexes : indexes <> [] -> 3 <= zlen b < 65536 -> forall todo done buffer sent, indexes = done ++ todo ->
  start <= lower done -> increasing (lower done) todo (zlen b) ->
  exists buffer', writePieces io c b indexes (S (length todo)) (length done) buffer sent
    = (if splitPacket c then sent ++ map framed (cuts b (lower done) todo) else sent, Ok buffer')
    /\ (splitRecord c = true -> splitPacket c = false -> buffer' = buffer ++ concat (map (record_of b) (cuts b (lower done) todo))).
Proof.
  intros Hne Hb. induction todo as [|i todo IH]; intros done buffer sent Hd Hs Hi.
  all: assert (0 <= lower done) as H0 by (unfold start in Hs; destruct (splitRecord c); lia).
  all: pose proof (cuts_sizes _ _ _ H0 Hi) as Hsz; cbn [cuts] in Hsz; apply Forall_cons in Hsz as [Hp _].
  all: cbn [length]; set (n := S (length todo)) || set (n := O); cbn [writePieces]; rewrite (piece_cuts indexes done _ Hd Hne Hs Hi); cbn [cuts head default]; unfold id.
  all: unfold framed, sendOne; rewrite ?writes_end.
  - rewrite writeRecord_of by lia. destruct (splitRecord c), (splitPacket c); cbn [bind_result map concat app];
      eexists; (split; [done|]); rewrite ?app_nil_r; done.
  - rewrite writeRecord_of by lia.
    assert (lower (done ++ [i]) = i) as Hlow by apply last_last.
    assert (S (length done) = length (done ++ [i])) as Hlen by (rewrite length_app; cbn; lia).
    destruct Hi as [Hi1 Hi2].
    assert (forall buffer sent, exists buffer', writePieces io c b indexes n (S (length done)) buffer sent
      = (if splitPacket c then sent ++ map framed (cuts b i todo) else sent, Ok buffer')
      /\ (splitRecord c = true -> splitPacket c = false -> buffer' = buffer ++ concat (map (record_of b) (cuts b i todo)))) as IH'.
    { intros buffer' sent'. specialize (IH (done ++ [i]) buffer' sent'). rewrite Hlow, <- Hlen in IH.
      apply IH; [by rewrite <- app_assoc|lia|done]. }
    unfold framed in IH'.
    destruct (splitRecord c) eqn:Er, (splitPacket c) eqn:Ep; cbn [bind_result app map concat];
      match goal with |- context [writePieces _ _ _ _ _ _ ?bf ?st] => destruct (IH' bf st) as (buf & -> & Hbuf) end;
      exists buf; (split; [rewrite ?app_nil_r, <- ?app_assoc; done|]); try done.
    intros _ _. rewrite (Hbuf eq_refl eq_refl), <- !app_assoc. done.
Qed.

(** C27: the hello reaches the server whole, whatever positions are drawn: with
    packet splitting the writes concatenate to it; with record splitting they
    are TLS records of its type and version, none of them empty, whose contents
    concatenate to the handshake it carries.  The write reports its full length,
    and later writes are passed on. *)
Theorem fragments_carry_hello (sn : MyServerName) :
  firstPacketWritten c = false -> splitPacket c || splitRecord c = true -> zlen b < 65536 -> IndexTLSServerName b = Ok (Some sn) ->
  exists sent, FragmentConn_Write PublicSuffix Intn io c b [] = (mkFragmentConn (hasTCPConn c) true (splitPacket c) (splitRecord c), (sent, Ok (zlen b)))
    /\ (sent = [b] \/ if splitRecord c then record_stream (take 3 b) (concat sent) (drop 5 b) else concat sent = b).
Proof.
  intros Hfirst Hsplit Hl Hsn. pose proof (IndexTLSServerName_sound b ltac:(lia)) as Hloc. rewrite Hsn in Hloc. destruct Hloc as [(p & r & Eb & Hi & Hlen & Hpos) Hlow].
  unfold FragmentConn_Write. rewrite Hfirst, Hsn. unfold writeFragments, noDelay, passOn, sendOne. rewrite !nodelay_ends, !writes_end.
  assert ((if splitPacket c then if hasTCPConn c then Ok tt else Ok tt else Ok tt) = (Ok tt : result unit)) as -> by (by destruct (splitPacket c), (hasTCPConn c)).
  assert (start < sn_Index sn) as Hstart by (unfold start; destruct (splitRecord c); lia).
  pose proof (splitIndexes_increasing PublicSuffix Intn Intn_range start sn Hstart) as Hinc.
  assert (sn_Index sn + zlen (sn_ServerName sn) <= zlen b) as Hend by (rewrite Eb, !zlen_app; pose proof (zlen_nonneg r); lia).
  apply (increasing_weaken _ _ _ _ Hend) in Hinc. destruct (splitIndexes PublicSuffix Intn sn) as [|i0 rest] eqn:Ex; [by eexists; split; [done|left]|].
  destruct (writePieces_spec (i0 :: rest) ltac:(done) ltac:(lia) (i0 :: rest) [] [] [] eq_refl) as (buf & Hw & Hbuf); [done|done|].
  change (length (@nil Z)) with 0%nat in Hw. rewrite Hw.
  cbn [lower List.last app] in *.
  assert (0 <= start) as H0 by (unfold start; destruct (splitRecord c); lia).
  pose proof (cuts_sizes _ _ _ H0 Hinc) as Hsz. pose proof (concat_cuts _ _ _ H0 Hinc) as Hcat.
  assert (record_stream (take 3 b) (concat (map (record_of b) (cuts b start (i0 :: rest)))) (drop (Z.to_nat start) b)) as Hrec.
  { rewrite <- Hcat. apply records_of_cuts. eapply Forall_impl; [exact Hsz|]. cbn. lia. }
  assert ((let* _ := (if hasTCPConn c then Ok tt else Ok tt) in Ok (zlen b)) = Ok (zlen b)) as Hnd by (by destruct (hasTCPConn c)).
  unfold start, framed in *. destruct (splitRecord c), (splitPacket c); try discriminate Hsplit; cbn [andb negb bind_result].
  - rewrite Hnd. eexists. split; [done|]. by right.
  - rewrite (Hbuf eq_refl eq_refl), writes_end. cbn [bind_result app concat]. rewrite Hnd. eexists. split; [done|]. right. cbn [concat]. by rewrite app_nil_r.
  - rewrite Hnd. eexists. split; [done|]. right. rewrite map_id. by rewrite Hcat.
Qed.

End Writes.

(** ** The two parsers of client hellos agree *)

Definition name_of (found : option MyServerName) : list byte := match found with Some sn => sn_ServerName sn | None => [] end.

(** One step of the ja3 parser, hypothesis [H], with the same step of the search for the name. *)
Ltac agree_step H :=
  match type of H with
  | (if ?a <? ?b then Err _ else _) = Ok _ => destruct (Z.ltb_spec a b); [discriminate H|]; try rewrite (proj2 (Z.ltb_ge a b)) by lia
  | (if negb (?a =? ?b) then Err _ else _) = Ok _ =>
      destruct (Z.eqb_spec a b) as [?E|]; cbn [negb] in H; [|discriminate H]; try rewrite (proj2 (Z.eqb_eq a b) E); cbn [negb]
  | (if negb ?b then Err _ else _) = Ok _ => let E := fresh "E" in destruct b eqn:E; cbn [negb] in H |- *; [|discriminate H]
  | bind_result (index ?bs ?i) _ = Ok _ =>
      let v := fresh "v" in let E := fresh "E" in let Hv := fresh "Hv" in
      destruct (index_ok bs i ltac:(lia)) as (v & E & Hv); rewrite E in H; rewrite ?E; cbn [bind_result] in H |- *
  | bind_result (be16 ?bs ?i) _ = Ok _ =>
      let v := fresh "v" in let E := fresh "E" in let Hv := fresh "Hv" in
      destruct (be16_ok bs i ltac:(lia) ltac:(lia)) as (v & E & Hv); rewrite E in H; rewrite ?E; cbn [bind_result] in H |- *
  | bind_result (slice_from ?bs ?i) _ = Ok _ =>
      let s := fresh "s" in let E := fresh "E" in let Hs := fresh "Hs" in
      destruct (slice_from_ok bs i ltac:(lia)) as (s & E & Hs); rewrite E in H; rewrite ?E; cbn [bind_result] in H |- *
  | bind_result (slice ?bs ?i ?j) _ = Ok _ =>
      let s := fresh "s" in let E := fresh "E" in let Hs := fresh "Hs" in
      destruct (slice_ok bs i j ltac:(lia) ltac:(lia)) as (s & E & Hs); rewrite E in H; rewrite ?E; cbn [bind_result] in H |- *
  end.

Lemma parseExtension_other type sex v v' : type <> 0 -> parseExtension type sex v = Ok v' -> v_sni v' = v_sni v /\ v_extensions v' = v_extensions v.
Proof.
  intros Ht. destruct v as [sni exts ecs ecpfs versions ssas]. unfold parseExtension, sniExtensionType. rewrite (proj2 (Z.eqb_neq type 0)) by done.
  unfold bind_result. repeat case_match; intros; simplify_eq; done.
Qed.

Lemma parseExtension_name sex v v' cur : parseExtension 0 sex v = Ok v' ->
  v_extensions v' = v_extensions v /\ exists found, indexServerName cur sex = Ok found /\ name_of found = v_sni v'.
Proof.
  destruct v as [sni exts ecs ecpfs versions ssas]. unfold parseExtension, indexServerName. change (0 =? sniExtensionType) with true. cbv iota.
  unfold_sizes. intros H. repeat agree_step H. destruct (v =? sniNameDNSHostnameType); [|discriminate H]. injection H as <-. cbn [negb].
  split; [done|]. rewrite ?E0, ?E1. cbn [bind_result]. destruct (v0 =? 0) eqn:E0'; cbn [orb].
  - eexists. split; [done|]. cbn. apply Z.eqb_eq in E0'. destruct s; [done|]. rewrite zlen_cons in *. pose proof (zlen_nonneg s). lia.
  - by eexists.
Qed.

Definition zeros (types : list Z) : nat := length (List.filter (fun t => t =? 0) types).

Lemma extensions_agree fuel : forall exs v v' cur, zlen exs < 65536 -> parseExtensions_loop fuel exs v = Ok v' ->
  exists types found, v_extensions v' = v_extensions v ++ types /\ indexExtensions_loop fuel cur exs = Ok found
    /\ (zeros types = 0%nat -> v_sni v' = v_sni v /\ found = None) /\ (zeros types = 1%nat -> name_of found = v_sni v').
Proof.
  induction fuel as [|fuel IH]; intros exs v v' cur Hl H; cbn [parseExtensions_loop indexExtensions_loop] in *.
  { destruct (zlen exs =? 0); [|done]. injection H as <-. exists [], None. by rewrite app_nil_r. }
  destruct (zlen exs =? 0). { injection H as <-. exists [], None. by rewrite app_nil_r. }
  unfold_sizes. repeat agree_step H. unfold sniExtensionType.
  destruct (parseExtension v0 s (append_extension v0 v)) as [v2| |] eqn:Ep; [|done..]. cbn [bind_result] in H.
  unfold uint16 in *. rewrite wrap_small in H |- * by lia. agree_step H.
  destruct (IH s0 v2 v' (cur + (4 + v1)) ltac:(lia) H) as (types & found & Ht & Hf & Hnone & Hone). destruct (Z.eqb_spec v0 0) as [->|Hne].
  - apply (parseExtension_name _ _ _ cur) in Ep as [Hx (found' & Hf' & Hn)]. exists (0 :: types), found'. rewrite Ht, Hx. cbn [append_extension v_extensions].
    rewrite <- app_assoc. split; [done|]. split; [done|]. unfold zeros in *. cbn [List.filter length]. change (0 =? 0) with true. cbn [length].
    split; [done|]. intros [= Hz]. destruct (Hnone Hz) as [-> _]. done.
  - apply parseExtension_other in Ep as [Hy Hx]; [|done]. exists (v0 :: types), found. rewrite Ht, Hx. cbn [append_extension v_extensions].
    rewrite <- app_assoc. split; [done|]. split; [done|]. unfold zeros in *. cbn [List.filter length]. rewrite (proj2 (Z.eqb_neq v0 0)) by done.
    split; [|done]. intros Hz. destruct (Hnone Hz) as [-> ->]. by rewrite Hy.
Qed.

(** What the search for the name needs to know of the parsed hello [j']. *)
Definition agrees (j' : ClientHello) (r : result (option MyServerName)) : Prop :=
  (zeros (Extensions j') <= 1)%nat -> exists found, r = Ok found /\ name_of found = ServerName j'.

Lemma agrees_extensions exs j j' : zlen exs < 65536 -> Extensions j = [] -> ServerName j = [] -> parseExtensions exs j = Ok j' ->
  agrees j' (indexTLSServerNameFromExtensions exs).
Proof.
  intros Hl He Hn H Hz. unfold parseExtensions, indexTLSServerNameFromExtensions in *. unfold_sizes.
  destruct (zlen exs =? 0). { injection H as <-. exists None. by rewrite Hn. }
  repeat agree_step H. destruct (parseExtensions_loop _ _ _) as [v'| |] eqn:Ep; [|done..]. injection H as <-.
  assert (zlen s < 65536) as Hs65 by lia.
  destruct (extensions_agree _ _ _ _ 2 Hs65 Ep) as (types & found & Ht & Hf & H0' & H1'). exists found. split; [done|].
  cbn [set_extensions Extensions ServerName noExtVars v_extensions app] in *. rewrite Ht in Hz.
  destruct (zeros types) as [|[|]]; [|by apply H1'|lia]. by destruct (H0' eq_refl) as [-> ->].
Qed.

Lemma slice_from_twice bs a b s t : slice_from bs a = Ok s -> slice_from s b = Ok t -> slice_from bs (a + b) = Ok t.
Proof.
  intros (p & -> & <-)%slice_from_split (q & -> & <-)%slice_from_split. rewrite app_assoc. apply slice_from_app. by rewrite zlen_app.
Qed.

Lemma agrees_moved j' r (k : Z -> Z) (o : MyServerName -> Z) : agrees j' r ->
  agrees j' (let* found := r in Ok (match found with
    | None => None | Some sn => Some (mkServerName (k (sn_Index sn)) (sn_Length sn) (sn_ServerName sn) (o sn)) end)).
Proof. intros H Hz. destruct (H Hz) as ([sn|] & -> & Hn); cbn [bind_result]; by eexists. Qed.

Lemma agrees_handshake hs j j' : zlen hs < 65536 -> Extensions j = [] -> ServerName j = [] -> parseHandshake hs j = Ok j' ->
  agrees j' (indexTLSServerNameFromHandshake hs).
Proof.
  intros Hl He Hn H. unfold parseHandshake, indexTLSServerNameFromHandshake in *. unfold_sizes. do 16 agree_step H.
  destruct (read_16s _ _ _) as [suites| |]; [|done..]. cbn [bind_result] in H. do 3 agree_step H.
  rewrite (proj2 (Z.ltb_ge (zlen hs) _)) by lia.
  match goal with E : slice_from hs ?a = Ok ?cs, E' : slice_from ?cs ?b = Ok ?exs |- _ => rewrite (slice_from_twice hs a b cs exs E E') end.
  cbn [bind_result]. apply (agrees_moved j' _ (fun i => i + _) (fun _ => _)). eapply agrees_extensions; [| | |exact H]; [lia|done|done].
Qed.

(** The two parsers of client hellos of the program agree: for a payload of
    one record that the fingerprint parser (common/ja3) accepts, with at most
    one server name extension, the search used for fragmenting finds exactly the
    server name of the fingerprint, and finds none when it has none. *)
Theorem server_name_agrees (payload : list byte) (j : ClientHello) (segmentLen : Z) :
  Compute payload = Ok j -> be16 payload 3 = Ok segmentLen -> zlen payload = 5 + segmentLen -> (zeros (Extensions j) <= 1)%nat ->
  exists found, IndexTLSServerName payload = Ok found /\ name_of found = ServerName j /\ located_after 44 payload found.
Proof.
  intros H Hseg Hlen Hz.
  assert (5 <= zlen payload) as H5 by (unfold Compute, parseSegment in H; unfold_sizes; by agree_step H).
  assert (0 <= segmentLen < 65536) as Hr by (destruct (be16_ok payload 3 ltac:(lia) ltac:(lia)) as (v & Hv & Hr); congruence).
  pose proof (IndexTLSServerName_sound payload ltac:(lia)) as Hloc.
  assert (agrees j (IndexTLSServerName payload)) as Ha.
  { unfold Compute, parseSegment, IndexTLSServerName in *. unfold_sizes. do 3 agree_step H. agree_step H. agree_step H.
    rewrite Hseg in H |- *. cbn [bind_result] in H |- *. rewrite (proj2 (Z.ltb_ge (zlen payload) _)) by lia. do 2 agree_step H.
    rewrite <- Hlen in H. change (slice payload 5 (zlen payload)) with (slice_from payload 5) in H. rewrite E3 in H. cbn [bind_result] in H.
    apply (agrees_moved j _ (fun i => i + 5) (fun sn => sn_ExtensionsListLengthIndex sn + 5)).
    eapply agrees_handshake; [| | |exact H]; [lia|done|done]. }
  destruct (Ha Hz) as (found & Hf & Hn). rewrite Hf in Hloc |- *. by exists found.
Qed.

(** ** Where the code departs from its purpose *)

(** With an extension of 65532 bytes the end of the extension is computed as 0:
    the loop stands still, whatever its bound. *)
Lemma long_extension_loops type data rest fuel cur : is_uint 16 type -> type <> 0 -> zlen data = 65532 ->
  indexExtensions_loop fuel cur (be_encode 2 type ++ be_encode 2 65532 ++ data ++ rest) = Err OutOfFuel.
Proof.
  intros Ht Hne Hd. pose proof (zlen_nonneg rest). remember (be_encode 2 type ++ be_encode 2 65532 ++ data ++ rest) as exs eqn:Ee.
  assert (zlen exs = 65536 + zlen rest) as Hl by (rewrite Ee; wire_lengths; lia).
  assert (be16 exs 0 = Ok type) as E0 by (rewrite Ee; by apply be16_head).
  assert (be16 exs 2 = Ok 65532) as E2 by (rewrite Ee; apply (be16_app (be_encode 2 type)); [by rewrite zlen_be_encode|unfold is_uint; lia]).
  destruct (slice_ok exs 4 65536 ltac:(lia) ltac:(lia)) as (sex & Es & _). clear Ee.
  revert cur. induction fuel as [|fuel IH]; intros cur; cbn [indexExtensions_loop]; rewrite (proj2 (Z.eqb_neq (zlen exs) 0)) by lia; [done|].
  unfold_sizes. rewrite (proj2 (Z.ltb_ge (zlen exs) 4)) by lia. rewrite E0, E2. cbn [bind_result]. change (4 + 65532) with 65536. rewrite Es.
  rewrite (proj2 (Z.ltb_ge (zlen exs) _)) by lia. cbn [bind_result]. unfold sniExtensionType. rewrite (proj2 (Z.eqb_neq type 0)) by done.
  change (uint16 65536) with 0. rewrite (slice_from_app [] exs) by done. cbn [bind_result]. apply IH.
Qed.

(** ** Witnesses *)

Module FragmentDemo.

Definition hello : Hello :=
  mkHello 0x0303 (replicate 32 x07) [] [0x1301] [x00] [E_Groups [29]; E_ServerName (bytes_of_string "www.example.org"); E_Versions [0x0304]].
Definition wire : list byte := encode_record (encode_handshake hello).

Definition conn (splitPacket splitRecord : bool) : FragmentConn := mkFragmentConn true false splitPacket splitRecord.
Definition sockets : SocketIO := mkSocketIO (fun _ => None) (fun _ => None).
Definition suffix (name : list byte) : list byte := bytes_of_string "org".
Definition noSuffix (name : list byte) : list byte := [].
(** Draws the middle, or the start. *)
Definition middle (calls : nat) (n : Z) : Z := n / 2.
Definition first (calls : nat) (n : Z) : Z := 0.

Lemma middle_range calls n : 0 < n -> 0 <= middle calls n < n.
Proof. intros H. unfold middle. split; [apply Z.div_pos; lia|]. apply Z.div_lt; lia. Qed.

Definition sn : MyServerName := mkServerName 69 15 (bytes_of_string "www.example.org") 50.

Lemma wire_name : IndexTLSServerName wire = Ok (Some sn).
Proof. by_compute. Qed.

Lemma fragments_carry_hello_witness : exists sent,
  FragmentConn_Write noSuffix middle sockets (conn true true) wire [] = (mkFragmentConn true true true true, (sent, Ok (zlen wire)))
  /\ (sent = [wire] \/ record_stream (take 3 wire) (concat sent) (drop 5 wire)).
Proof.
  exact (fragments_carry_hello noSuffix middle sockets (conn true true) wire middle_range (fun _ => eq_refl) (fun _ => eq_refl) sn
    eq_refl eq_refl ltac:(vm_compute; reflexivity) wire_name).
Defined.

Lemma server_name_agrees_witness : exists found, IndexTLSServerName wire = Ok found
  /\ name_of found = bytes_of_string "www.example.org" /\ located_after 44 wire found.
Proof.
  assert (Compute wire = Ok (hello_of hello)) as Hc by by_compute.
  assert (be16 wire 3 = Ok (zlen wire - 5)) as Hs by by_compute.
  exact (server_name_agrees wire (hello_of hello) (zlen wire - 5) Hc Hs ltac:(lia) ltac:(vm_compute; constructor)).
Defined.

Definition sent_by (PublicSuffix : list byte -> list byte) (Intn : nat -> Z -> Z) : list (list byte) :=
  fst (snd (FragmentConn_Write PublicSuffix Intn sockets (conn true false) wire [])).

(** With a public suffix one label is cut; without, all of them. *)
Example only_first_label_cut : length (sent_by suffix middle) = 2%nat /\ length (sent_by noSuffix middle) = 4%nat.
Proof. split; by_compute. Qed.

(** When the start of the label is drawn, the name stays in one piece. *)
Example name_not_cut : sent_by suffix first = [take 69 wire; drop 69 wire] /\ take 15 (drop 69 wire) = bytes_of_string "www.example.org".
Proof. split; by_compute. Qed.

End FragmentDemo.
