(* ===== verification/OutboundGroup.v ===== *)
(** * Groups of outbounds (protocol/group, common/interrupt, common/urltest)

    A [Selector] sends connections through the member the user chose, an
    [URLTest] through the fastest one, measured from time to time.  Both register
    the connections they dial in an interrupt group, so that a change of the
    member can close them.

    Parameters: the outbound manager (as the map it is read as), what members
    that are groups themselves currently select ([now_of]), the outcomes of
    dialing and of measuring, the clock.  The tests of one round run
    concurrently; they concern different tags, and their order is shown not to
    matter ([tests_any_order]).  Of the checking loop the model has its ticker. *)
From Stdlib Require Import ZArith Lia Bool.
From S2P Require Import Prelude GoIO.

Record GroupOutbound := mkGroupOutbound { go_Tag : string; go_Network : list string }.

#[export] Instance GroupOutbound_eq : EqDecision GroupOutbound.
Proof. solve_decision. Defined.

Definition tcp : string := "tcp".
Definition udp : string := "udp".

(** ** Interrupt groups (common/interrupt) *)

(** A registered connection with its flag isExternal; the connections closed so far. *)
Record InterruptGroup := mkInterrupt { ig_items : list (nat * bool); ig_next : nat; ig_closed : gset nat }.

Definition NewGroup : InterruptGroup := mkInterrupt [] 0 ∅.

(** [NewConn] and [NewPacketConn]. *)
Definition Group_NewConn (isExternal : bool) (g : InterruptGroup) : nat * InterruptGroup :=
  (ig_next g, mkInterrupt (ig_items g ++ [(ig_next g, isExternal)]) (S (ig_next g)) (ig_closed g)).

Definition interrupted (interruptExternalConnections : bool) (item : nat * bool) : bool :=
  negb (snd item) || interruptExternalConnections.

Definition Interrupt (interruptExternalConnections : bool) (g : InterruptGroup) : InterruptGroup :=
  let toDelete := List.filter (interrupted interruptExternalConnections) (ig_items g) in
  mkInterrupt (List.filter (fun item => negb (interrupted interruptExternalConnections item)) (ig_items g)) (ig_next g)
    (list_to_set (map fst toDelete) ∪ ig_closed g).

(** [Conn.Close] and [PacketConn.Close]. *)
Definition Group_Conn_Close (conn : nat) (g : InterruptGroup) : InterruptGroup :=
  mkInterrupt (List.filter (fun item => negb (fst item =? conn)%nat) (ig_items g)) (ig_next g) ({[conn]} ∪ ig_closed g).

(** ** Selector (selector.go) *)

Record Selector := mkSelector {
  s_Tag : string;
  s_tags : list string;
  s_defaultTag : string;
  s_outbounds : gmap string GroupOutbound;
  s_selected : option GroupOutbound;
  s_interruptGroup : InterruptGroup;
  s_interruptExternalConnections : bool;
}.

Definition NewSelector (tag : string) (tags : list string) (defaultTag : string) (interruptExternalConnections : bool) : result Selector :=
  match tags with
  | [] => Err (ENew "missing tags")
  | _ => Ok (mkSelector tag tags defaultTag ∅ None NewGroup interruptExternalConnections)
  end.

Definition s_set_outbounds (outbounds : gmap string GroupOutbound) (s : Selector) : Selector :=
  mkSelector (s_Tag s) (s_tags s) (s_defaultTag s) outbounds (s_selected s) (s_interruptGroup s) (s_interruptExternalConnections s).
Definition s_set_selected (selected : option GroupOutbound) (s : Selector) : Selector :=
  mkSelector (s_Tag s) (s_tags s) (s_defaultTag s) (s_outbounds s) selected (s_interruptGroup s) (s_interruptExternalConnections s).
Definition s_set_interrupt (g : InterruptGroup) (s : Selector) : Selector :=
  mkSelector (s_Tag s) (s_tags s) (s_defaultTag s) (s_outbounds s) (s_selected s) g (s_interruptExternalConnections s).

Definition Selector_Network (s : Selector) : list string :=
  match s_selected s with None => [tcp; udp] | Some o => go_Network o end.

(** The loop that looks the members up; [i] is the index of the first tag left. *)
Fixpoint collect_outbounds (manager : string -> option GroupOutbound) (i : nat) (tags : list string) (outbounds : gmap string GroupOutbound)
    : gmap string GroupOutbound * result unit :=
  match tags with
  | [] => (outbounds, Ok tt)
  | tag :: rest =>
      match manager tag with
      | None => (outbounds, Err (ENew ("outbound " +:+ pretty (N.of_nat i) +:+ " not found: " +:+ tag)))
      | Some detour => collect_outbounds manager (S i) rest (<[tag := detour]> outbounds)
      end
  end.

(** The cache file: the selected member of each group; [None]: no cache file. *)
Definition CacheFile : Type := option (gmap string string).

(** What [LoadSelected] gives: empty when nothing is stored. *)
Definition LoadSelected (cache : CacheFile) (group : string) : string :=
  match cache with Some m => default "" (m !! group) | None => "" end.

(** The member a cache file of an earlier run names. *)
Definition cachedOutbound (cache : CacheFile) (s : Selector) : option GroupOutbound :=
  if String.eqb (s_Tag s) "" then None
  else let selected := LoadSelected cache (s_Tag s) in
       if String.eqb selected "" then None else s_outbounds s !! selected.

Definition Selector_Start (manager : string -> option GroupOutbound) (cache : CacheFile) (s : Selector) : Selector * result unit :=
  let '(outbounds, r) := collect_outbounds manager 0 (s_tags s) (s_outbounds s) in
  let s := s_set_outbounds outbounds s in
  match r with
  | Ok _ =>
      match cachedOutbound cache s with
      | Some detour => (s_set_selected (Some detour) s, Ok tt)
      | None =>
          if negb (String.eqb (s_defaultTag s) "") then
            match outbounds !! s_defaultTag s with
            | None => (s, Err (ENew ("default outbound not found: " +:+ s_defaultTag s)))
            | Some detour => (s_set_selected (Some detour) s, Ok tt)
            end
          else match s_tags s with
          | [] => (s, Panic "runtime error: index out of range")
          | tag :: _ => (s_set_selected (outbounds !! tag) s, Ok tt)
          end
      end
  | _ => (s, r)
  end.

Definition Selector_Now (s : Selector) : result string :=
  match s_selected s with
  | Some o => Ok (go_Tag o)
  | None => match s_tags s with tag :: _ => Ok tag | [] => Panic "runtime error: index out of range" end
  end.

(** [store]: does writing to the cache file succeed? *)
Definition SelectOutbound (store : bool) (tag : string) (s : Selector) (cache : CacheFile) : bool * Selector * CacheFile :=
  match s_outbounds s !! tag with
  | None => (false, s, cache)
  | Some detour =>
      if bool_decide (s_selected s = Some detour) then (true, s, cache)
      else
        let s := s_set_selected (Some detour) s in
        let cache :=
          if String.eqb (s_Tag s) "" then cache
          else match cache with
               | Some m => Some (if store then <[s_Tag s := tag]> m else m)
               | None => None
               end in
        (true, s_set_interrupt (Interrupt (s_interruptExternalConnections s) (s_interruptGroup s)) s, cache)
  end.

(** [DialContext] and [ListenPacket]; [dial] is the outcome at the member. *)
Definition Selector_Dial (dial : GroupOutbound -> option go_error) (isExternal : bool) (s : Selector) : Selector * result nat :=
  match s_selected s with
  | None => (s, Panic "invalid memory address or nil pointer dereference")
  | Some o =>
      match dial o with
      | Some e => (s, Err e)
      | None => let '(conn, g) := Group_NewConn isExternal (s_interruptGroup s) in (s_set_interrupt g s, Ok conn)
      end
  end.

(** ** The history of tests (common/urltest) *)

Record URLTestHistory := mkHistory { h_Time : Z; h_Delay : Z }.
Definition HistoryStorage : Type := gmap string URLTestHistory.

Definition LoadURLTestHistory (history : HistoryStorage) (tag : string) : option URLTestHistory := history !! tag.
Definition DeleteURLTestHistory (tag : string) (history : HistoryStorage) : HistoryStorage := delete tag history.
Definition StoreURLTestHistory (tag : string) (h : URLTestHistory) (history : HistoryStorage) : HistoryStorage := <[tag := h]> history.

(** ** URLTest (urltest.go) *)

Definition Minute : Z := 60 * 1000000000.
Definition DefaultURLTestInterval : Z := 3 * Minute.
Definition DefaultURLTestIdleTimeout : Z := 30 * Minute.

Record URLTestGroup := mkURLTestGroup {
  ug_outbounds : list GroupOutbound;
  ug_interval : Z;
  ug_tolerance : Z;
  ug_idleTimeout : Z;
  ug_interruptExternalConnections : bool;
  ug_selectedTCP : option GroupOutbound;
  ug_selectedUDP : option GroupOutbound;
  ug_interruptGroup : InterruptGroup;
  ug_started : bool;
  ug_ticker : bool;
  ug_closed : bool;
  ug_lastActive : Z;
}.

Definition NewURLTestGroup (outbounds : list GroupOutbound) (interval tolerance idleTimeout : Z) (interruptExternal : bool) : result URLTestGroup :=
  let interval := if interval =? 0 then DefaultURLTestInterval else interval in
  let tolerance := if tolerance =? 0 then 50 else tolerance in
  let idleTimeout := if idleTimeout =? 0 then DefaultURLTestIdleTimeout else idleTimeout in
  if idleTimeout <? interval then Err (ENew "interval must be less or equal than idle_timeout")
  else Ok (mkURLTestGroup outbounds interval tolerance idleTimeout interruptExternal None None NewGroup false false false 0).

Definition ug_select (selectedTCP selectedUDP : option GroupOutbound) (g : URLTestGroup) : URLTestGroup :=
  mkURLTestGroup (ug_outbounds g) (ug_interval g) (ug_tolerance g) (ug_idleTimeout g) (ug_interruptExternalConnections g)
    selectedTCP selectedUDP (ug_interruptGroup g) (ug_started g) (ug_ticker g) (ug_closed g) (ug_lastActive g).
Definition ug_set_interrupt (group : InterruptGroup) (g : URLTestGroup) : URLTestGroup :=
  mkURLTestGroup (ug_outbounds g) (ug_interval g) (ug_tolerance g) (ug_idleTimeout g) (ug_interruptExternalConnections g)
    (ug_selectedTCP g) (ug_selectedUDP g) group (ug_started g) (ug_ticker g) (ug_closed g) (ug_lastActive g).
Definition ug_set_loop (started ticker closed : bool) (lastActive : Z) (g : URLTestGroup) : URLTestGroup :=
  mkURLTestGroup (ug_outbounds g) (ug_interval g) (ug_tolerance g) (ug_idleTimeout g) (ug_interruptExternalConnections g)
    (ug_selectedTCP g) (ug_selectedUDP g) (ug_interruptGroup g) started ticker closed lastActive.

Definition selected_for (network : string) (g : URLTestGroup) : option GroupOutbound :=
  if String.eqb network tcp then ug_selectedTCP g else if String.eqb network udp then ug_selectedUDP g else None.

Definition supports (network : string) (o : GroupOutbound) : bool := bool_decide (network ∈ go_Network o).

Section URLTest.
Context (now_of : string -> option string).

Definition RealTag (detour : GroupOutbound) : string := default (go_Tag detour) (now_of (go_Tag detour)).

(** The delay measured for a member. *)
Definition delay_of (history : HistoryStorage) (o : GroupOutbound) : option Z := option_map h_Delay (LoadURLTestHistory history (RealTag o)).

(** One round of the loop over the members; delays are uint16. *)
Definition select_step (tolerance : Z) (history : HistoryStorage) (network : string) (best : Z * option GroupOutbound) (detour : GroupOutbound)
    : Z * option GroupOutbound :=
  if negb (supports network detour) then best
  else match delay_of history detour with
  | None => best
  | Some delay => if (fst best =? 0) || (uint16 (delay + tolerance) <? fst best) then (delay, Some detour) else best
  end.

Definition Select (history : HistoryStorage) (network : string) (g : URLTestGroup) : option GroupOutbound * bool :=
  let best :=
    match selected_for network g with
    | Some o => match delay_of history o with Some delay => (delay, Some o) | None => (0, None) end
    | None => (0, None)
    end in
  match snd (fold_left (select_step (ug_tolerance g) history network) (ug_outbounds g) best) with
  | Some o => (Some o, true)
  | None => (List.find (supports network) (ug_outbounds g), false)
  end.

(** The new selection for a network, and whether it replaces another one. *)
Definition updated_selection (history : HistoryStorage) (network : string) (current : option GroupOutbound) (g : URLTestGroup)
    : option GroupOutbound * bool :=
  match Select history network g with
  | (Some o, exists_) =>
      match current with
      | None => (Some o, false)
      | Some c => if exists_ && negb (bool_decide (o = c)) then (Some o, true) else (current, false)
      end
  | (None, _) => (current, false)
  end.

Definition performUpdateCheck (history : HistoryStorage) (g : URLTestGroup) : URLTestGroup :=
  let '(selectedTCP, updated1) := updated_selection history tcp (ug_selectedTCP g) g in
  let g := ug_select selectedTCP (ug_selectedUDP g) g in
  let '(selectedUDP, updated2) := updated_selection history udp (ug_selectedUDP g) g in
  let g := ug_select (ug_selectedTCP g) selectedUDP g in
  if updated1 || updated2 then ug_set_interrupt (Interrupt (ug_interruptExternalConnections g) (ug_interruptGroup g)) g else g.

(** The members to test: the tag of the member and the tag that is tested. *)
Fixpoint tests_due (force : bool) (now interval : Z) (registered : string -> bool) (history : HistoryStorage)
    (checked : gset string) (outbounds : list GroupOutbound) : list (string * string) :=
  match outbounds with
  | [] => []
  | detour :: rest =>
      let realTag := RealTag detour in
      if bool_decide (realTag ∈ checked) then tests_due force now interval registered history checked rest
      else if negb force && match LoadURLTestHistory history realTag with Some h => now - h_Time h <? interval | None => false end
      then tests_due force now interval registered history checked rest
      else
        let tests := tests_due force now interval registered history ({[realTag]} ∪ checked) rest in
        if registered realTag then (go_Tag detour, realTag) :: tests else tests
  end.

(** One test: the delay, or an error; with the time it ends at. *)
Definition run_test (outcome : string -> result Z * Z) (history : HistoryStorage) (test : string * string) : HistoryStorage :=
  match outcome (snd test) with
  | (Ok delay, time) => StoreURLTestHistory (snd test) (mkHistory time delay) history
  | _ => DeleteURLTestHistory (snd test) history
  end.

(** [urlTest], when no other round is running. *)
Definition urlTest (force : bool) (now : Z) (registered : string -> bool) (outcome : string -> result Z * Z)
    (history : HistoryStorage) (g : URLTestGroup) : HistoryStorage * URLTestGroup :=
  let tests := tests_due force now (ug_interval g) registered history ∅ (ug_outbounds g) in
  let history := fold_left (run_test outcome) tests history in
  (history, performUpdateCheck history g).

(** ** The loop and its ticker *)

Definition PostStart (now : Z) (g : URLTestGroup) : URLTestGroup := ug_set_loop true (ug_ticker g) (ug_closed g) now g.

Definition Touch (now : Z) (g : URLTestGroup) : URLTestGroup :=
  if negb (ug_started g) then g
  else if ug_ticker g then ug_set_loop (ug_started g) (ug_ticker g) (ug_closed g) now g
  else ug_set_loop (ug_started g) true (ug_closed g) (ug_lastActive g) g.

Definition URLTestGroup_Close (g : URLTestGroup) : result URLTestGroup :=
  if negb (ug_ticker g) then Ok g
  else if ug_closed g then Panic "close of closed channel"
  else Ok (ug_set_loop (ug_started g) false true (ug_lastActive g) g).

(** [DialContext] and [ListenPacket] of a group, for a network it knows. *)
Definition URLTest_Dial (dial : GroupOutbound -> option go_error) (isExternal : bool) (network : string) (now : Z)
    (history : HistoryStorage) (g : URLTestGroup) : HistoryStorage * URLTestGroup * result nat :=
  let g := Touch now g in
  match (match selected_for network g with Some o => Some o | None => fst (Select history network g) end) with
  | None => (history, g, Err (ENew "missing supported outbound"))
  | Some o =>
      match dial o with
      | Some e => (DeleteURLTestHistory (go_Tag o) history, g, Err e)
      | None => let '(conn, group) := Group_NewConn isExternal (ug_interruptGroup g) in (history, ug_set_interrupt group g, Ok conn)
      end
  end.

Definition URLTest_Now (g : URLTestGroup) : string :=
  match ug_selectedTCP g, ug_selectedUDP g with
  | Some o, _ => go_Tag o
  | None, Some o => go_Tag o
  | None, None => ""
  end.

End URLTest.

(** ** The choice of the fastest member *)

Section Fastest.
Context (now_of : string -> option string) (history : HistoryStorage) (network : string) (g : URLTestGroup).
Abbreviation tol := (ug_tolerance g).
Abbreviation delay := (delay_of now_of history).
Abbreviation step := (select_step now_of tol history network).

(** A member that was measured, for this network. *)
Definition tested (o : GroupOutbound) (d : Z) : Prop := supports network o = true /\ delay o = Some d.

Hypothesis tolerance_nonneg : 0 <= tol.
Hypothesis delays_small : forall o d, o ∈ ug_outbounds g \/ selected_for network g = Some o -> delay o = Some d -> 0 < d /\ d + tol < 65536.

(** What the loop has found after the members [seen], from the start [init]. *)
Record found (init : option (GroupOutbound * Z)) (seen : list GroupOutbound) (best : Z * option GroupOutbound) : Prop := {
  found_none : snd best = None -> fst best = 0 /\ init = None /\ forall o d, o ∈ seen -> ~ tested o d;
  found_some o : snd best = Some o -> 0 < fst best /\ delay o = Some (fst best) /\ (option_map fst init = Some o \/ o ∈ seen /\ supports network o = true)
                   /\ forall o' d', o' ∈ seen -> tested o' d' -> fst best <= d' + tol;
  found_stable c dc : init = Some (c, dc) -> (forall o' d', o' ∈ seen -> tested o' d' -> dc <= d' + tol) -> snd best = Some c /\ fst best = dc;
}.

Lemma found_skipped init seen best o : (forall d, ~ tested o d) -> found init seen best -> found init (seen ++ [o]) best.
Proof.
  intros Hno [Hn Hs Hst]. split.
  - intros H. destruct (Hn H) as (? & ? & Hall). split; [done|]. split; [done|]. intros o' d'. rewrite elem_of_app, list_elem_of_singleton.
    intros [?| ->]; [by apply Hall|apply Hno].
  - intros o1 H. destruct (Hs o1 H) as (? & ? & ? & Hall). split; [done|]. split; [done|]. split; [set_solver|].
    intros o' d'. rewrite elem_of_app, list_elem_of_singleton. intros [?| ->]; [by apply Hall|]. by intros Ht%Hno.
  - intros c dc Hi Hall. apply Hst; [done|]. intros o' d' H. apply Hall. set_solver.
Qed.

Lemma found_step init seen best o : o ∈ ug_outbounds g -> found init seen best -> found init (seen ++ [o]) (step best o).
Proof.
  intros Hin Hf. unfold select_step. destruct (supports network o) eqn:Esup; cbn [negb]; [|apply found_skipped; [intros d [? _]; congruence|done]].
  destruct (delay o) as [d|] eqn:Ed; [|apply found_skipped; [intros d [_ ?]; congruence|done]]. destruct Hf as [Hn Hs Hst].
  destruct (delays_small o d (or_introl Hin) Ed) as [Hd0 Hd1]. unfold uint16. rewrite wrap_small by lia.
  destruct ((fst best =? 0) || (d + tol <? fst best)) eqn:Ec.
  - split; cbn [fst snd]; [done| |].
    + intros o1 [= <-]. split; [done|]. split; [done|]. split; [right; set_solver|].
      intros o' d'. rewrite elem_of_app, list_elem_of_singleton. intros [Ho'| ->] Ht; [|destruct Ht; simplify_eq; lia].
      destruct (snd best) as [b|] eqn:Eb.
      * destruct (Hs b eq_refl) as (Hpos & _ & _ & Hall). specialize (Hall o' d' Ho' Ht). apply orb_true_iff in Ec.
        rewrite Z.eqb_eq, Z.ltb_lt in Ec. lia.
      * destruct (Hn eq_refl) as (_ & _ & Hno). by destruct (Hno o' d' Ho').
    + intros c dc Hi Hall. destruct (Hst c dc Hi) as [Hb Hdc]. { intros o' d' H. apply Hall. set_solver. }
      destruct (Hs c Hb) as (Hpos & _). specialize (Hall o d ltac:(set_solver) (conj Esup Ed)).
      apply orb_true_iff in Ec. rewrite Z.eqb_eq, Z.ltb_lt in Ec. lia.
  - apply orb_false_iff in Ec as [Ez El]. apply Z.eqb_neq in Ez. apply Z.ltb_ge in El. split.
    + intros H. by destruct (Hn H) as (?&_).
    + intros o1 H. destruct (Hs o1 H) as (?&?&Hor&Hall). split; [done|]. split; [done|]. split; [set_solver|].
      intros o' d'. rewrite elem_of_app, list_elem_of_singleton. intros [?| ->]; [by apply Hall|]. intros [_ Hx]. simplify_eq. lia.
    + intros c dc Hi Hall. apply Hst; [done|]. intros o' d' H. apply Hall. set_solver.
Qed.

Lemma found_fold init l : forall seen best, (forall o, o ∈ l -> o ∈ ug_outbounds g) -> found init seen best -> found init (seen ++ l) (fold_left step l best).
Proof.
  induction l as [|o l IH]; intros seen best Hin Hf; cbn [fold_left]; [by rewrite app_nil_r|].
  rewrite (app_assoc seen [o] l : seen ++ o :: l = (seen ++ [o]) ++ l). apply IH; [set_solver|]. apply found_step; [set_solver|done].
Qed.

End Fastest.

(** The first element that satisfies [f]. *)
Lemma find_first {A} (f : A -> bool) l x : List.find f l = Some x ->
  exists before after, l = before ++ x :: after /\ Forall (fun y => f y = false) before /\ f x = true.
Proof.
  induction l as [|y l IH]; cbn; [done|]. destruct (f y) eqn:E; [intros [= ->]; by exists [], l|].
  intros (before & after & -> & Hb & Hx)%IH. exists (y :: before), after. by split; [|split; [constructor|]].
Qed.

(** C25: the member an URL test group uses.  A measured member is chosen when
    there is one: no measured member that supports the network is faster by more
    than the tolerance, and the member in use is kept when it is within the
    tolerance of all others.  Without measurements the first member of the list
    that supports the network is chosen, and none is when none supports it.
    Provided no measured delay is 0 (a delay of 0 ms counts as no measurement in
    the comparison), and delays and the tolerance add up within 16 bits. *)
Theorem urltest_choice (now_of : string -> option string) (history : HistoryStorage) (network : string) (g : URLTestGroup) :
  0 <= ug_tolerance g ->
  (forall o d, o ∈ ug_outbounds g \/ selected_for network g = Some o -> delay_of now_of history o = Some d -> 0 < d /\ d + ug_tolerance g < 65536) ->
  match Select now_of history network g with
  | (Some o, true) => exists d, delay_of now_of history o = Some d
      /\ (selected_for network g = Some o \/ o ∈ ug_outbounds g /\ supports network o = true)
      /\ (forall o' d', o' ∈ ug_outbounds g -> tested now_of history network o' d' -> d <= d' + ug_tolerance g)
      /\ (forall c dc, selected_for network g = Some c -> delay_of now_of history c = Some dc ->
            (forall o' d', o' ∈ ug_outbounds g -> tested now_of history network o' d' -> dc <= d' + ug_tolerance g) -> o = c)
  | (Some o, false) =>
      (exists before after, ug_outbounds g = before ++ o :: after /\ Forall (fun o' => supports network o' = false) before /\
         supports network o = true) /\
      forall o' d', o' ∈ ug_outbounds g -> ~ tested now_of history network o' d'
  | (None, true) => False
  | (None, false) => forall o, o ∈ ug_outbounds g -> supports network o = false
  end.
Proof.
  intros Htol Hsmall. unfold Select.
  set (init := match selected_for network g with Some o => match delay_of now_of history o with Some d => Some (o, d) | None => None end | None => None end).
  set (best := match selected_for network g with Some o => match delay_of now_of history o with Some d => (d, Some o) | None => (0, None) end | None => (0, None) end).
  assert (found now_of history network g init [] best) as Hf.
  { unfold init, best. destruct (selected_for network g) as [c|] eqn:Ec; [destruct (delay_of now_of history c) as [dc|] eqn:Ed|].
    - destruct (Hsmall c dc (or_intror eq_refl) Ed). split; cbn; [done| |by intros ?? [= <- <-]].
      intros o [= <-]. split; [done|]. split; [done|]. split; [by left|]. set_solver.
    - split; cbn; [|done|done]. intros _. split; [done|]. split; [done|]. set_solver.
    - split; cbn; [|done|done]. intros _. split; [done|]. split; [done|]. set_solver. }
  apply (found_fold now_of history network g Htol Hsmall init (ug_outbounds g)) in Hf; [|done]. cbn [app] in Hf.
  destruct (fold_left _ _ _) as [m [o|]]; cbn [snd] in *.
  - destruct Hf as [_ Hs Hst]. destruct (Hs o eq_refl) as (_ & Hd & Hor & Hall). exists m. split; [done|]. split; [|split; [exact Hall|]].
    + destruct Hor as [H|H]; [left|by right]. unfold init in H. destruct (selected_for network g) as [c|]; [|done].
      destruct (delay_of now_of history c); [|done]. by injection H as ->.
    + intros c dc Hc Hdc Hle. destruct (Hst c dc) as [[= ->] _]; [|done|done]. unfold init. by rewrite Hc, Hdc.
  - destruct Hf as [Hn _ _]. destruct (Hn eq_refl) as (_ & _ & Hno). destruct (List.find _ _) as [o|] eqn:Ef.
    + split; [|done]. by apply find_first.
    + intros o Ho. apply (find_none _ _ Ef). by apply list_elem_of_In.
Qed.

(** The outcomes of the tests of one round, applied in any order, leave the same history. *)
Lemma run_test_comm outcome history t1 t2 : snd t1 <> snd t2 ->
  run_test outcome (run_test outcome history t1) t2 = run_test outcome (run_test outcome history t2) t1.
Proof.
  intros Hne. unfold run_test, StoreURLTestHistory, DeleteURLTestHistory.
  destruct (outcome (snd t1)) as [[| |] time1], (outcome (snd t2)) as [[| |] time2];
    first [by apply insert_insert_ne | by apply delete_insert_ne | by apply insert_delete_ne | by apply delete_delete].
Qed.

Lemma tests_due_fresh now_of force now interval registered history outbounds : forall checked,
  Forall (fun t => snd t ∉ checked) (tests_due now_of force now interval registered history checked outbounds)
  /\ NoDup (map snd (tests_due now_of force now interval registered history checked outbounds)).
Proof.
  induction outbounds as [|o outbounds IH]; intros checked; cbn [tests_due]; [split; constructor|].
  case_bool_decide as Hc; [apply IH|]. destruct (negb force && _); [apply IH|].
  destruct (IH ({[RealTag now_of o]} ∪ checked)) as [H1 H2].
  assert (Forall (fun t => snd t ∉ checked) (tests_due now_of force now interval registered history ({[RealTag now_of o]} ∪ checked) outbounds)) as H1'
    by (eapply Forall_impl; [exact H1|]; set_solver).
  destruct (registered _); [|done]. split; [by constructor|]. cbn [map snd]. constructor; [|done]. rewrite list_elem_of_fmap.
  intros (t & Ht & Hin). rewrite Forall_forall in H1. specialize (H1 t Hin). set_solver.
Qed.

Lemma tests_any_order outcome tests tests' : Permutation tests tests' -> NoDup (map snd tests) -> forall history,
  fold_left (run_test outcome) tests history = fold_left (run_test outcome) tests' history.
Proof.
  induction 1 as [|t l l' _ IH|t1 t2 l|l1 l2 l3 Hp1 IH1 _ IH2]; intros Hnd history; cbn [fold_left map] in *; [done| | |].
  - apply NoDup_cons in Hnd as [_ Hnd]. by apply IH.
  - rewrite run_test_comm; [done|]. apply NoDup_cons in Hnd as [Hnot _]. set_solver.
  - rewrite IH1 by done. apply IH2. by rewrite <- Hp1.
Qed.

(** ** Interrupted connections *)

(** Every connection dialed is registered or closed, and none both. *)
Record interrupt_ok (g : InterruptGroup) : Prop := {
  registered_once : NoDup (map fst (ig_items g));
  accounted conn : (conn < ig_next g)%nat <-> conn ∈ ig_closed g \/ conn ∈ map fst (ig_items g);
  registered_open conn : conn ∈ map fst (ig_items g) -> conn ∉ ig_closed g;
}.

Lemma elem_of_filter_bool {A} (f : A -> bool) l x : x ∈ List.filter f l <-> x ∈ l /\ f x = true.
Proof. rewrite !list_elem_of_In. apply filter_In. Qed.

Lemma filter_ids (f : nat * bool -> bool) l : NoDup (map fst l) ->
  NoDup (map fst (List.filter f l)) /\ forall conn, conn ∈ map fst l <-> conn ∈ map fst (List.filter f l) \/ conn ∈ map fst (List.filter (fun x => negb (f x)) l).
Proof.
  induction l as [|x l IH]; cbn [map List.filter]; intros Hnd; [split; [constructor|set_solver]|].
  apply NoDup_cons in Hnd as [Hx Hnd]. destruct (IH Hnd) as [H1 H2]. destruct (f x); cbn [negb map]; (split; [|set_solver]).
  - constructor; [|done]. intros H. apply Hx, H2. by left.
  - done.
Qed.

Lemma filter_ids_disjoint (f : nat * bool -> bool) l conn : NoDup (map fst l) ->
  conn ∈ map fst (List.filter f l) -> conn ∈ map fst (List.filter (fun x => negb (f x)) l) -> False.
Proof.
  induction l as [|x l IH]; cbn [map List.filter]; [set_solver|]. intros [Hx Hnd]%NoDup_cons. destruct (filter_ids f l Hnd) as [_ H2].
  destruct (f x); cbn [negb map]; rewrite elem_of_cons; [intros [->|H] H'|intros H [->|H']]; try (by apply IH); apply Hx, H2; auto.
Qed.

Lemma NewGroup_ok : interrupt_ok NewGroup.
Proof. split; cbn; [constructor|intros conn; split; [lia|set_solver]|set_solver]. Qed.

Lemma NewConn_ok external g : interrupt_ok g -> interrupt_ok (snd (Group_NewConn external g)).
Proof.
  intros [H1 H2 H3]. assert (ig_next g ∉ map fst (ig_items g) /\ ig_next g ∉ ig_closed g) as [Hi Hc].
  { split; intros H; assert (ig_next g < ig_next g)%nat by (apply H2; auto); lia. }
  split; cbn [Group_NewConn snd ig_items ig_next ig_closed]; rewrite map_app; cbn [map fst].
  - apply NoDup_app. split; [done|]. split; [set_solver|]. repeat constructor. set_solver.
  - intros conn. specialize (H2 conn). rewrite elem_of_app, list_elem_of_singleton.
    assert (conn < S (ig_next g) <-> conn < ig_next g \/ conn = ig_next g)%nat as -> by lia. tauto.
  - intros conn. rewrite elem_of_app, list_elem_of_singleton. intros [H| ->]; [by apply H3|done].
Qed.

(** Closing the registered connections that [f] picks. *)
Lemma close_ok (f : nat * bool -> bool) g : interrupt_ok g ->
  interrupt_ok (mkInterrupt (List.filter (fun x => negb (f x)) (ig_items g)) (ig_next g) (list_to_set (map fst (List.filter f (ig_items g))) ∪ ig_closed g)).
Proof.
  intros [H1 H2 H3]. destruct (filter_ids f _ H1) as [_ Hids]. destruct (filter_ids (fun x => negb (f x)) _ H1) as [Hnd _].
  split; cbn [ig_items ig_next ig_closed]; [done| |].
  - intros conn. rewrite H2, Hids, elem_of_union, elem_of_list_to_set. tauto.
  - intros conn Hin. rewrite elem_of_union, elem_of_list_to_set. intros [H|H].
    + by apply (filter_ids_disjoint f _ conn H1).
    + apply (H3 conn); [|done]. apply Hids. by right.
Qed.

Lemma Interrupt_ok external g : interrupt_ok g -> interrupt_ok (Interrupt external g).
Proof. apply close_ok. Qed.

Lemma Conn_Close_ok conn g : (conn < ig_next g)%nat -> interrupt_ok g -> interrupt_ok (Group_Conn_Close conn g).
Proof.
  intros Hlt Hok. pose proof (close_ok (fun item => (fst item =? conn)%nat) g Hok) as [H1 H2 H3]. cbn [ig_items ig_next ig_closed] in *.
  assert (forall c, c ∈ map fst (List.filter (fun item : nat * bool => (fst item =? conn)%nat) (ig_items g)) -> c = conn) as Hone.
  { intros c. rewrite list_elem_of_fmap. intros (x & -> & Hx). apply elem_of_filter_bool in Hx as [_ Hx]. by apply Nat.eqb_eq. }
  split; cbn [Group_Conn_Close ig_items ig_next ig_closed]; [done| |].
  - intros c. rewrite H2, !elem_of_union, elem_of_list_to_set, elem_of_singleton. split; [|].
    + intros [[H|H]|H]; [left; left; by apply Hone|tauto|tauto].
    + intros [[->|H]|H]; [|tauto|tauto]. specialize (H2 conn). rewrite !elem_of_union, elem_of_list_to_set in H2. tauto.
  - intros c Hc. specialize (H3 c Hc). rewrite not_elem_of_union in *. split; [|tauto]. rewrite not_elem_of_singleton. intros ->.
    apply list_elem_of_fmap in Hc as (x & Hx & Hin). apply elem_of_filter_bool in Hin as [_ Hin]. by rewrite Hx, Nat.eqb_refl in Hin.
Qed.

(** ** Runs of an URL test group *)

(** What happens to a group after its start. *)
Inductive group_event :=
| EvTest (force : bool) (now : Z) (registered : string -> bool) (outcome : string -> result Z * Z)
| EvDial (dial : GroupOutbound -> option go_error) (isExternal : bool) (network : string) (now : Z)
| EvConnClose (conn : nat).

Definition group_state : Type := HistoryStorage * URLTestGroup.

Section Runs.
Context (now_of : string -> option string).

(** A connection is closed by whoever dialed it. *)
Definition group_step (st : group_state) (ev : group_event) : group_state :=
  let '(history, g) := st in
  match ev with
  | EvTest force now registered outcome => urlTest now_of force now registered outcome history g
  | EvDial dial isExternal network now => let '(history, g, _) := URLTest_Dial now_of dial isExternal network now history g in (history, g)
  | EvConnClose conn =>
      if (conn <? ig_next (ug_interruptGroup g))%nat then (history, ug_set_interrupt (Group_Conn_Close conn (ug_interruptGroup g)) g) else st
  end.

Definition group_run (st : group_state) (evs : list group_event) : group_state := fold_left group_step evs st.

(** The members in use belong to the group and support their network. *)
Record group_ok (g : URLTestGroup) : Prop := {
  selectedTCP_ok o : ug_selectedTCP g = Some o -> o ∈ ug_outbounds g /\ supports tcp o = true;
  selectedUDP_ok o : ug_selectedUDP g = Some o -> o ∈ ug_outbounds g /\ supports udp o = true;
  group_interrupt_ok : interrupt_ok (ug_interruptGroup g);
}.

Lemma select_step_member tolerance history network l : forall best,
  match snd (fold_left (select_step now_of tolerance history network) l best) with
  | Some o => snd best = Some o \/ o ∈ l /\ supports network o = true
  | None => True
  end.
Proof.
  induction l as [|o l IH]; intros best; cbn [fold_left]; [by destruct (snd best); [left|]|].
  specialize (IH (select_step now_of tolerance history network best o)). destruct (snd (fold_left _ _ _)) as [r|]; [|done].
  destruct IH as [IH|[? ?]]; [|right; set_solver]. unfold select_step in IH. destruct (supports network o) eqn:Es; cbn [negb] in IH; [|by left].
  destruct (delay_of now_of history o); [|by left]. destruct (_ || _); [|by left]. injection IH as <-. right. set_solver.
Qed.

Lemma Select_member history network g o r : Select now_of history network g = (Some o, r) ->
  selected_for network g = Some o \/ o ∈ ug_outbounds g /\ supports network o = true.
Proof.
  unfold Select. set (best := match selected_for network g with Some _ => _ | None => _ end).
  pose proof (select_step_member (ug_tolerance g) history network (ug_outbounds g) best) as H. destruct (snd (fold_left _ _ _)) as [o'|].
  - intros [= -> _]. destruct H as [H|H]; [left|by right]. subst best. destruct (selected_for network g) as [c|]; [|done].
    by destruct (delay_of now_of history c); [injection H as ->|].
  - intros [= Hf _]. apply find_some in Hf as [Hin Hs]. right. split; [by apply list_elem_of_In|done].
Qed.

Lemma updated_selection_ok history network current g o b :
  selected_for network g = current -> (forall c, current = Some c -> c ∈ ug_outbounds g /\ supports network c = true) ->
  updated_selection now_of history network current g = (Some o, b) -> o ∈ ug_outbounds g /\ supports network o = true.
Proof.
  intros Hcur Hok. unfold updated_selection. destruct (Select now_of history network g) as [[o'|] r] eqn:E.
  - apply Select_member in E. rewrite Hcur in E. assert (o' ∈ ug_outbounds g /\ supports network o' = true) as Ho' by (destruct E; auto).
    destruct current as [c|]; [destruct (r && _)|]; intros [= <- _]; auto.
  - destruct current as [c|]; intros [= <- _]; auto.
Qed.

(** A selection that changed is reported, and never dropped. *)
Lemma updated_selection_changed history network c g o b :
  updated_selection now_of history network (Some c) g = (o, b) -> exists o', o = Some o' /\ (b = false -> o' = c).
Proof.
  unfold updated_selection. destruct (Select now_of history network g) as [[o'|] r]; [|intros [= <- <-]; eauto].
  destruct (r && _); intros [= <- <-]; eauto. eexists. split; [done|]. done.
Qed.

Lemma performUpdateCheck_ok history g : group_ok g -> group_ok (performUpdateCheck now_of history g).
Proof.
  intros [H1 H2 H3]. unfold performUpdateCheck.
  destruct (updated_selection now_of history tcp (ug_selectedTCP g) g) as [tcp' b1] eqn:E1.
  set (g1 := ug_select tcp' (ug_selectedUDP g) g). cbn [ug_selectedUDP ug_select]. fold g1. change (ug_selectedUDP g1) with (ug_selectedUDP g).
  destruct (updated_selection now_of history udp (ug_selectedUDP g) g1) as [udp' b2] eqn:E2.
  assert (forall group, interrupt_ok group -> group_ok (ug_set_interrupt group (ug_select (ug_selectedTCP g1) udp' g1))) as Hgo.
  { intros group Hg. split; cbn [ug_set_interrupt ug_select ug_selectedTCP ug_selectedUDP ug_outbounds ug_interruptGroup g1]; [| |done].
    - intros o ->. by eapply (updated_selection_ok history tcp (ug_selectedTCP g) g).
    - intros o ->. by eapply (updated_selection_ok history udp (ug_selectedUDP g) g1). }
  destruct (b1 || b2).
  - apply (Hgo (Interrupt _ _)). by apply Interrupt_ok.
  - exact (Hgo (ug_interruptGroup g) H3).
Qed.

Lemma group_step_ok st ev : group_ok (snd st) -> group_ok (snd (group_step st ev)).
Proof.
  destruct st as [history g]. intros Hok. cbn [snd] in Hok. destruct ev as [force now registered outcome|dial external network now|conn]; cbn [group_step].
  - by apply performUpdateCheck_ok.
  - unfold URLTest_Dial. assert (group_ok (Touch now g)) as Ht.
    { destruct Hok. unfold Touch. by destruct (ug_started g), (ug_ticker g); cbn [negb]; split. }
    destruct (match selected_for network (Touch now g) with Some o => Some o | None => _ end) as [o|]; [|done]. destruct (dial o); [done|].
    destruct Ht as [H1 H2 H3]. apply (NewConn_ok external) in H3. by destruct (Group_NewConn external _); split.
  - destruct (Nat.ltb_spec conn (ig_next (ug_interruptGroup g))) as [Hlt|]; [|done]. destruct Hok as [H1 H2 H3]. split; [done..|].
    by apply Conn_Close_ok.
Qed.

End Runs.

(** C26: changing the member in use closes the connections made before.  In any
    run of an URL test group the members in use belong to the group and support
    their network; a round of tests never drops the selection, and when it
    replaces a member in use, every connection dialed so far is closed, except
    those of clients when the option to interrupt them is off. *)
Theorem urltest_switch_interrupts (now_of : string -> option string) (history0 : HistoryStorage) (g0 : URLTestGroup)
    outbounds interval tolerance idleTimeout external (evs : list group_event) force now registered outcome :
  NewURLTestGroup outbounds interval tolerance idleTimeout external = Ok g0 ->
  let '(history, g) := group_run now_of (history0, g0) evs in
  let '(_, g') := urlTest now_of force now registered outcome history g in
  group_ok g' /\
  (is_Some (ug_selectedTCP g) -> is_Some (ug_selectedTCP g')) /\ (is_Some (ug_selectedUDP g) -> is_Some (ug_selectedUDP g')) /\
  ((is_Some (ug_selectedTCP g) /\ ug_selectedTCP g' <> ug_selectedTCP g) \/ (is_Some (ug_selectedUDP g) /\ ug_selectedUDP g' <> ug_selectedUDP g) ->
   forall conn, (conn < ig_next (ug_interruptGroup g))%nat ->
     conn ∈ ig_closed (ug_interruptGroup g') \/ (ug_interruptExternalConnections g = false /\ (conn, true) ∈ ig_items (ug_interruptGroup g'))).
Proof.
  intros H0. assert (group_ok (snd (group_run now_of (history0, g0) evs))) as Hok.
  { unfold group_run. assert (group_ok (snd (history0, g0))) as Hg0.
    { unfold NewURLTestGroup in H0. destruct (_ <? _); [done|]. injection H0 as <-. split; [done..|apply NewGroup_ok]. }
    revert Hg0. generalize (history0, g0). induction evs as [|ev evs IH]; intros st Hst; cbn [fold_left]; [done|]. apply IH. by apply group_step_ok. }
  destruct (group_run now_of (history0, g0) evs) as [history g]. cbn [snd] in Hok. unfold urlTest.
  set (h := fold_left _ _ _). split; [by apply performUpdateCheck_ok|]. unfold performUpdateCheck.
  destruct (updated_selection now_of h tcp (ug_selectedTCP g) g) as [tcp' b1] eqn:E1.
  set (g1 := ug_select tcp' (ug_selectedUDP g) g). change (ug_selectedUDP g1) with (ug_selectedUDP g).
  destruct (updated_selection now_of h udp (ug_selectedUDP g) g1) as [udp' b2] eqn:E2.
  assert (forall group, ug_selectedTCP (ug_set_interrupt group (ug_select (ug_selectedTCP g1) udp' g1)) = tcp'
    /\ ug_selectedUDP (ug_set_interrupt group (ug_select (ug_selectedTCP g1) udp' g1)) = udp') as Hsel by done.
  assert (is_Some (ug_selectedTCP g) -> is_Some tcp' /\ (b1 = false -> tcp' = ug_selectedTCP g)) as H1.
  { intros [c Hc]. rewrite Hc in *. apply updated_selection_changed in E1 as (o' & -> & Hb). split; [done|]. intros Hf. by rewrite Hb. }
  assert (is_Some (ug_selectedUDP g) -> is_Some udp' /\ (b2 = false -> udp' = ug_selectedUDP g)) as H2.
  { intros [c Hc]. rewrite Hc in *. apply updated_selection_changed in E2 as (o' & -> & Hb). split; [done|]. intros Hf. by rewrite Hb. }
  destruct (b1 || b2) eqn:Eb.
  - split; [intros H; by apply H1|]. split; [intros H; by apply H2|]. intros _ conn Hlt.
    destruct Hok as [_ _ Hi]. apply (Interrupt_ok (ug_interruptExternalConnections g)) in Hi. destruct (accounted _ Hi conn) as [Ha _].
    destruct (Ha Hlt) as [Hc|Hin]; [by left|]. right. apply list_elem_of_fmap in Hin as ([c e] & -> & Hin). cbn [Interrupt ig_items] in Hin.
    apply elem_of_filter_bool in Hin as Hf. destruct Hf as [_ Hf]. unfold interrupted in Hf. cbn [snd] in Hf. apply negb_true_iff, orb_false_iff in Hf as [He Hx].
    apply negb_false_iff in He. subst e. by split.
  - apply orb_false_iff in Eb as [-> ->]. split; [intros H; by apply H1|]. split; [intros H; by apply H2|].
    intros [[H Hne]|[H Hne]]; [destruct Hne; by apply H1|destruct Hne; by apply H2].
Qed.

(** ** Selections and restarts *)

(** A selector as it is configured, the choices of a run, and the cache file. *)
Fixpoint choose (tags : list string) (s : Selector) (cache : CacheFile) : Selector * CacheFile :=
  match tags with
  | [] => (s, cache)
  | tag :: rest => let '(_, s, cache) := SelectOutbound true tag s cache in choose rest s cache
  end.

(** The selection of [s] is what a start would choose. *)
Definition remembered (cache : CacheFile) (s : Selector) (initial : option GroupOutbound) : Prop :=
  match cachedOutbound cache s with Some o => s_selected s = Some o | None => s_selected s = initial end.

Lemma cachedOutbound_stored m t s : s_Tag s <> "" -> t <> "" -> cachedOutbound (Some (<[s_Tag s := t]> m)) s = s_outbounds s !! t.
Proof.
  intros Hs Ht. unfold cachedOutbound, LoadSelected. rewrite (proj2 (String.eqb_neq _ _) Hs), lookup_insert_eq. change (default "" (Some t)) with t.
  by rewrite (proj2 (String.eqb_neq _ _) Ht).
Qed.

Lemma SelectOutbound_remembered tag s cache initial b s' cache' : s_Tag s <> "" -> is_Some cache -> s_outbounds s !! "" = None ->
  remembered cache s initial -> SelectOutbound true tag s cache = (b, s', cache') ->
  remembered cache' s' initial /\ is_Some cache' /\ s_Tag s' = s_Tag s /\ s_outbounds s' = s_outbounds s
  /\ (is_Some (cachedOutbound cache s) -> is_Some (cachedOutbound cache' s')).
Proof.
  intros Ht [m Hm] He Hr. unfold SelectOutbound. destruct (s_outbounds s !! tag) as [o|] eqn:Eo; [|intros [= _ <- <-]; subst; by split_and!].
  case_bool_decide; [intros [= _ <- <-]; subst; by split_and!|]. cbn [s_Tag s_set_selected]. rewrite (proj2 (String.eqb_neq _ _) Ht), Hm.
  intros [= _ <- <-]. assert (tag <> "") as Htag by (intros ->; congruence).
  set (s' := s_set_interrupt _ _). assert (cachedOutbound (Some (<[s_Tag s := tag]> m)) s' = Some o) as Hs'
    by (rewrite <- Eo; by apply (cachedOutbound_stored m tag s')).
  split_and!; [unfold remembered; by rewrite Hs'|done|done|done|]. by rewrite Hs'.
Qed.

Lemma choose_remembered tags : forall s cache initial s' cache', s_Tag s <> "" -> is_Some cache -> s_outbounds s !! "" = None ->
  remembered cache s initial -> choose tags s cache = (s', cache') ->
  remembered cache' s' initial /\ s_Tag s' = s_Tag s /\ s_outbounds s' = s_outbounds s
  /\ (is_Some (cachedOutbound cache s) -> is_Some (cachedOutbound cache' s')).
Proof.
  induction tags as [|tag tags IH]; intros s cache initial s' cache' Ht Hc He Hr; cbn [choose]; [by intros [= <- <-]|].
  destruct (SelectOutbound true tag s cache) as [[b s1] c1] eqn:Es. apply (SelectOutbound_remembered _ _ _ initial) in Es as (Hr1 & Hc1 & Ht1 & Ho1 & Hs1); [|done..].
  intros H. destruct (IH s1 c1 initial s' cache') as (H1 & H2 & H3 & H4); [by rewrite Ht1|done|by rewrite Ho1|done|done|].
  rewrite <- Ht1, <- Ho1. split_and!; [done..|]. intros Hx. by apply H4, Hs1.
Qed.

Lemma collect_outbounds_tags manager tags : forall i outbounds outbounds' r, collect_outbounds manager i tags outbounds = (outbounds', r) ->
  forall tag, is_Some (outbounds' !! tag) -> is_Some (outbounds !! tag) \/ tag ∈ tags.
Proof.
  induction tags as [|t tags IH]; intros i outbounds outbounds' r; cbn [collect_outbounds]; [intros [= <- _]; auto|].
  destruct (manager t) as [o|]; [|intros [= <- _]; auto]. intros H tag Htag. destruct (IH _ _ _ _ H tag Htag) as [Hin|Hin]; [|right; set_solver].
  destruct (decide (tag = t)) as [->|Hne]; [right; set_solver|]. rewrite lookup_insert_ne in Hin by done. by left.
Qed.

(** The choice of the user survives a restart: whatever members are chosen
    in a run, a selector of the same configuration that starts with the cache
    file of the run selects the member that was selected last. *)
Theorem selection_survives_restart (manager : string -> option GroupOutbound) (m : gmap string string) (tag : string) (tags : list string)
    (defaultTag : string) (external : bool) (s0 s1 s2 : Selector) (choices : list string) (cache : CacheFile) :
  tag <> "" -> "" ∉ tags ->
  NewSelector tag tags defaultTag external = Ok s0 -> Selector_Start manager (Some m) s0 = (s1, Ok tt) -> choose choices s1 (Some m) = (s2, cache) ->
  exists s3, Selector_Start manager cache s0 = (s3, Ok tt) /\ s_selected s3 = s_selected s2.
Proof.
  intros Htag Hne Hnew Hstart Hrun. unfold NewSelector in Hnew. destruct tags as [|t0 rest]; [done|]. injection Hnew as <-.
  unfold Selector_Start in *. cbn [s_tags s_outbounds] in *.
  destruct (collect_outbounds manager 0 (t0 :: rest) ∅) as [outbounds r] eqn:Ec. destruct r as [[]|e|]; [|done..].
  assert (outbounds !! "" = None) as He.
  { destruct (outbounds !! "") eqn:E; [|done]. destruct (collect_outbounds_tags _ _ _ _ _ _ Ec "" ltac:(by rewrite E)) as [[? Hx]|]; [|done]. by rewrite lookup_empty in Hx. }
  set (base := s_set_outbounds outbounds (mkSelector tag (t0 :: rest) defaultTag ∅ None NewGroup external)) in *.
  set (initial := if negb (String.eqb defaultTag "") then outbounds !! defaultTag else outbounds !! t0).
  assert (remembered (Some m) s1 initial /\ s_Tag s1 = tag /\ s_outbounds s1 = outbounds) as (Hr & Ht1 & Ho1).
  { unfold remembered. destruct (cachedOutbound (Some m) base) as [o|] eqn:Eo.
    - injection Hstart as <-. unfold cachedOutbound in *. cbn in *. by rewrite Eo.
    - unfold initial. change (s_defaultTag base) with defaultTag in Hstart. destruct (negb (String.eqb defaultTag "")).
      + destruct (outbounds !! defaultTag) as [o|] eqn:Ed; [|done]. injection Hstart as <-. unfold cachedOutbound in *. cbn in *. by rewrite Eo.
      + injection Hstart as <-. unfold cachedOutbound in *. cbn in *. by rewrite Eo. }
  destruct (choose_remembered choices s1 (Some m) initial s2 cache) as (Hr2 & Ht2 & Ho2 & Hs2); [by rewrite Ht1|done|by rewrite Ho1|done|done|].
  assert (cachedOutbound cache base = cachedOutbound cache s2) as Heq by (unfold cachedOutbound; cbn; by rewrite Ht2, Ho2, Ht1, Ho1).
  assert (cachedOutbound (Some m) base = cachedOutbound (Some m) s1) as Heq1 by (unfold cachedOutbound; cbn; by rewrite Ht1, Ho1).
  rewrite Heq. unfold remembered in Hr2. destruct (cachedOutbound cache s2) as [o|]; [eexists; split; [done|by rewrite Hr2]|].
  change (s_defaultTag base) with defaultTag in *. unfold initial in Hr2. destruct (negb (String.eqb defaultTag "")) eqn:Ed; [|by eexists].
  destruct (outbounds !! defaultTag) as [o|] eqn:Eo; [by eexists|]. destruct (cachedOutbound (Some m) base) as [o|] eqn:Ecm; [|done].
  rewrite <- Heq1 in Hs2. by destruct (Hs2 ltac:(done)).
Qed.

(** ** Witnesses *)

Module GroupDemo.

Definition a : GroupOutbound := mkGroupOutbound "a" [tcp; udp].
Definition b : GroupOutbound := mkGroupOutbound "b" [tcp].
Definition c : GroupOutbound := mkGroupOutbound "c" [udp].
Definition plain (tag : string) : option string := None.

Definition group (tolerance : Z) : result URLTestGroup := NewURLTestGroup [a; b; c] 0 tolerance 0 false.
Definition group0 (tolerance : Z) : URLTestGroup :=
  mkURLTestGroup [a; b; c] DefaultURLTestInterval tolerance DefaultURLTestIdleTimeout false None None NewGroup false false false 0.

Definition delays (l : list (string * Z)) : HistoryStorage := list_to_map (map (fun x => (fst x, mkHistory 0 (snd x))) l).
Definition outcome (l : list (string * Z)) (tag : string) : result Z * Z :=
  match delays l !! tag with Some h => (Ok (h_Delay h), 10) | None => (Err (ENew "timeout"), 10) end.

Definition measured : HistoryStorage := delays [("a", 120); ("b", 80); ("c", 200)].
Definition using_a : URLTestGroup := ug_select (Some a) None (group0 50).

Lemma urltest_choice_witness : Select plain measured tcp using_a = (Some a, true)
  /\ exists d, delay_of plain measured a = Some d /\ forall o' d', o' ∈ ug_outbounds using_a -> tested plain measured tcp o' d' -> d <= d' + 50.
Proof.
  assert (Select plain measured tcp using_a = (Some a, true)) as E by by_compute. split; [exact E|].
  pose proof (urltest_choice plain measured tcp using_a ltac:(discriminate)) as H. rewrite E in H.
  destruct H as (d & Hd & _ & Hall & _); [|exists d; exact (conj Hd Hall)].
  intros o d Ho Hd. assert (o ∈ [a; b; c]) as Hin by (destruct Ho as [Ho|[= <-]]; [exact Ho|left]).
  rewrite !elem_of_cons, elem_of_nil in Hin. destruct Hin as [-> |[-> |[-> |[]]]]; vm_compute in Hd; injection Hd as <-; split; reflexivity.
Defined.

(** A first round, a connection of the program's own and one of a client, then [a] fails. *)
Definition events : list group_event :=
  [EvTest false 10 (fun _ => true) (outcome [("a", 20); ("b", 80)]); EvDial (fun _ => None) false tcp 11; EvDial (fun _ => None) true tcp 12].

Lemma urltest_switch_interrupts_witness :
  let '(history, g) := group_run plain (∅, group0 50) events in
  let '(_, g') := urlTest plain true 20 (fun _ => true) (outcome [("b", 80)]) history g in
  ug_selectedTCP g = Some a /\ ug_selectedTCP g' = Some b /\ 0%nat ∈ ig_closed (ug_interruptGroup g') /\ (1%nat, true) ∈ ig_items (ug_interruptGroup g').
Proof.
  pose proof (urltest_switch_interrupts plain ∅ (group0 50) [a; b; c] 0 50 0 false events true 20 (fun _ => true) (outcome [("b", 80)]) eq_refl) as H.
  assert (let '(history, g) := group_run plain (∅, group0 50) events in
    let '(_, g') := urlTest plain true 20 (fun _ => true) (outcome [("b", 80)]) history g in
    ug_selectedTCP g = Some a /\ ug_selectedTCP g' = Some b /\ ig_next (ug_interruptGroup g) = 2%nat
    /\ ig_items (ug_interruptGroup g') = [(1%nat, true)]) as Hc by (vm_compute; split_and!; reflexivity).
  destruct (group_run _ _ _) as [history g]. destruct (urlTest _ _ _ _ _ _ _) as [h' g']. destruct Hc as (H1 & H2 & H3 & H4).
  split; [exact H1|]. split; [exact H2|]. split; [|rewrite H4; left].
  destruct H as (_ & _ & _ & Hcl). assert (is_Some (ug_selectedTCP g)) as Hs by (rewrite H1; eexists; reflexivity).
  assert (ug_selectedTCP g' <> ug_selectedTCP g) as Hd by (rewrite H1, H2; discriminate). assert (0 < ig_next (ug_interruptGroup g))%nat as Hlt by (rewrite H3; lia).
  destruct (Hcl (or_introl (conj Hs Hd)) 0%nat Hlt) as [Hx|[_ Hx]]; [exact Hx|].
  rewrite H4 in Hx. apply list_elem_of_singleton in Hx. discriminate Hx.
Defined.

Definition manager (tag : string) : option GroupOutbound := List.find (fun o => String.eqb (go_Tag o) tag) [a; b; c].
Definition selector : Selector := mkSelector "proxy" ["a"; "b"; "c"] "b" ∅ None NewGroup false.

Lemma selection_survives_restart_witness : exists s3 cache,
  choose ["c"; "nowhere"; "a"] (fst (Selector_Start manager (Some ∅) selector)) (Some ∅) = (fst (choose ["c"; "nowhere"; "a"] (fst (Selector_Start manager (Some ∅) selector)) (Some ∅)), cache)
  /\ Selector_Start manager cache selector = (s3, Ok tt) /\ s_selected s3 = Some a.
Proof.
  destruct (choose ["c"; "nowhere"; "a"] (fst (Selector_Start manager (Some ∅) selector)) (Some ∅)) as [s2 cache] eqn:E.
  destruct (selection_survives_restart manager ∅ "proxy" ["a"; "b"; "c"] "b" false selector (fst (Selector_Start manager (Some ∅) selector)) s2
    ["c"; "nowhere"; "a"] cache ltac:(discriminate) ltac:(apply (bool_decide_unpack _); vm_compute; exact I) eq_refl ltac:(by_compute) E) as (s3 & H3 & Hs).
  exists s3, cache. split; [reflexivity|]. split; [exact H3|]. rewrite Hs.
  assert (s_selected (fst (choose ["c"; "nowhere"; "a"] (fst (Selector_Start manager (Some ∅) selector)) (Some ∅))) = Some a) as Ha by by_compute.
  rewrite E in Ha. exact Ha.
Defined.

(** With a large tolerance the sum of delay and tolerance wraps around: a member
    that is slower replaces the one in use. *)
Example tolerance_wraps :
  fst (Select plain (delays [("a", 100); ("b", 600)]) tcp (ug_select (Some a) None (group0 65000))) = Some b.
Proof. by_compute. Qed.

(** A delay of less than a millisecond counts as "not measured". *)
Example zero_delay_replaced : fst (Select plain (delays [("a", 0); ("b", 600)]) tcp (ug_select (Some a) None (group0 50))) = Some b.
Proof. by_compute. Qed.

(** A connection dialed after Close starts the ticker again; the next Close panics. *)
Example second_close_panics :
  (let* g := URLTestGroup_Close (Touch 1 (PostStart 0 (group0 50))) in URLTestGroup_Close (Touch 2 g)) = Panic "close of closed channel".
Proof. by_compute. Qed.

(** A failed dial through a member that is a group leaves the measurement of the outbound behind it. *)
Example nested_history_kept :
  let now_of tag := if String.eqb tag "a" then Some "x" else None in
  let '(history, _, _) := URLTest_Dial now_of (fun _ => Some EOF) false tcp 0 (delays [("x", 20)]) (group0 50) in
  delay_of now_of history a = Some 20.
Proof. by_compute. Qed.

End GroupDemo.
