(* ===== verification/Geosite.v ===== *)
(** * The geosite database (common/geosite)

    A file of lists of domains by code: a version, a directory (code, position,
    number of items) and the items.  [Write] (writer.go), [NewReader] and
    [Reader.Read] (reader.go), [Compile] and [Merge] (rule.go).

    A [map[string][]Item] is a [gmap]; the reader keeps the file as a list of
    bytes, and [Seek] with what follows is [drop].  [varbin.WriteUvarint] is the
    [UvarintWriter] of GoIO.

    - Every list written is read back, and no other code is ([geosite_roundtrip]).
    - Compiling the lists and merging the rules is compiling the concatenation
      ([Merge_Compile]). *)
From stdpp Require Import sorting.
From Stdlib Require Import ZArith Lia Bool.
From S2P Require Import Prelude GoIO.

Definition RuleTypeDomain : Z := 0.
Definition RuleTypeDomainSuffix : Z := 1.
Definition RuleTypeDomainKeyword : Z := 2.
Definition RuleTypeDomainRegex : Z := 3.

Record Item := mkItem { i_Type : Z; i_Value : string }.

(** ** Rules (rule.go) *)

(** The fields of [option.DefaultRule] that are set. *)
Record DomainRule := mkDomainRule { dr_Domain : list string; dr_DomainSuffix : list string; dr_DomainKeyword : list string; dr_DomainRegex : list string }.

Definition noRule : DomainRule := mkDomainRule [] [] [] [].

Definition append_item (rule : DomainRule) (item : Item) : DomainRule :=
  let '(mkDomainRule domain suffix keyword regex) := rule in
  if i_Type item =? RuleTypeDomain then mkDomainRule (domain ++ [i_Value item]) suffix keyword regex
  else if i_Type item =? RuleTypeDomainSuffix then mkDomainRule domain (suffix ++ [i_Value item]) keyword regex
  else if i_Type item =? RuleTypeDomainKeyword then mkDomainRule domain suffix (keyword ++ [i_Value item]) regex
  else if i_Type item =? RuleTypeDomainRegex then mkDomainRule domain suffix keyword (regex ++ [i_Value item])
  else rule.

Definition Compile (code : list Item) : DomainRule := fold_left append_item code noRule.

Definition append_rule (rule sub : DomainRule) : DomainRule :=
  mkDomainRule (dr_Domain rule ++ dr_Domain sub) (dr_DomainSuffix rule ++ dr_DomainSuffix sub)
    (dr_DomainKeyword rule ++ dr_DomainKeyword sub) (dr_DomainRegex rule ++ dr_DomainRegex sub).

Definition Merge (rules : list DomainRule) : DomainRule := fold_left append_rule rules noRule.

(** ** The file *)

Definition sizeof_string : Z := 16.
Definition sizeof_Item : Z := 24.

(** The order of [sort.Strings]. *)
Definition string_order (a b : string) : Prop := String.leb a b = true.
#[export] Instance string_order_dec a b : Decision (string_order a b).
Proof. unfold string_order. apply _. Defined.

(** [make] of a length computed as int. *)
Definition make_int (sizeof n : Z) : result unit :=
  if n <? 0 then Panic "runtime error: makeslice: len out of range" else make_slice sizeof n.

Section File.
Context {UW : UvarintWriter}.

Definition writeString (value : string) : list byte := WriteUvarint (zlen (bytes_of_string value)) ++ bytes_of_string value.

Definition encode_item (item : Item) : list byte := byte_of_Z (i_Type item) :: writeString (i_Value item).
Definition encode_items (items : list Item) : list byte := concat (map encode_item items).

Definition sorted_keys (domains : gmap string (list Item)) : list string := merge_sort string_order (map fst (map_to_list domains)).
Definition items_of (domains : gmap string (list Item)) (code : string) : list Item := default [] (domains !! code).

(** The directory: each code with the position of its items, from [start] on. *)
Fixpoint directory (domains : gmap string (list Item)) (start : Z) (keys : list string) : list (string * Z * Z) :=
  match keys with
  | [] => []
  | code :: rest =>
      (code, start, zlen (items_of domains code)) :: directory domains (start + zlen (encode_items (items_of domains code))) rest
  end.

Definition encode_entry (entry : string * Z * Z) : list byte :=
  let '(code, index, length) := entry in writeString code ++ WriteUvarint index ++ WriteUvarint length.

Definition Write (domains : gmap string (list Item)) : list byte :=
  let keys := sorted_keys domains in
  (x00 :: WriteUvarint (zlen keys) ++ concat (map encode_entry (directory domains 0 keys)))
  ++ concat (map (fun code => encode_items (items_of domains code)) keys).

(** The reader reads byte by byte, up to the length. *)
Definition readString : Reader string :=
  let! length := ReadUvarint in
  let! _ := rlift (make_slice 1 length) in
  let! bytes := read_n (Z.to_nat length) ReadByte in
  rret (string_of_bytes bytes).

Definition readEntry : Reader (string * Z * Z) :=
  let! code := readString in
  let! codeIndex := ReadUvarint in
  let! codeLength := ReadUvarint in
  rret (code, int64 codeIndex, int64 codeLength).

Definition readMetadata : Reader (list (string * Z * Z)) :=
  let! version := ReadByte in
  if negb (Z_of_byte version =? 0) then rlift (Err (ENew "unknown version"))
  else
    let! entryLength := ReadUvarint in
    let! _ := rlift (make_slice sizeof_string entryLength) in
    read_n (Z.to_nat (int64 entryLength)) readEntry.

Record GeositeReader := mkGeositeReader {
  gr_file : list byte;
  gr_metadataIndex : Z;
  gr_domainIndex : gmap string Z;
  gr_domainLength : gmap string Z;
}.

Definition insert_entry (maps : gmap string Z * gmap string Z) (entry : string * Z * Z) : gmap string Z * gmap string Z :=
  let '(code, index, length) := entry in (<[code := index]> (fst maps), <[code := length]> (snd maps)).

(** The reader and the codes; their order is that of a Go map, here of the [gmap]. *)
Definition NewReader (file : list byte) : result (GeositeReader * list string) :=
  match readMetadata file with
  | Ok (entries, rest) =>
      let '(domainIndex, domainLength) := fold_left insert_entry entries (∅, ∅) in
      Ok (mkGeositeReader file (zlen file - zlen rest) domainIndex domainLength, map fst (map_to_list domainIndex))
  | Err e => Err e
  | Panic s => Panic s
  end.

Definition readItem : Reader Item :=
  let! typeByte := ReadByte in
  let! value := readString in
  rret (mkItem (Z_of_byte typeByte) value).

Definition GeositeReader_Read (r : GeositeReader) (code : string) : result (list Item) :=
  match gr_domainIndex r !! code with
  | None => Err (ENew ("code " +:+ code +:+ " not exists!"))
  | Some index =>
      let position := int64 (gr_metadataIndex r + index) in
      if position <? 0 then Err (ENew "seek: negative position")
      else
        let length := default 0 (gr_domainLength r !! code) in
        let* _ := make_int sizeof_Item length in
        match read_n (Z.to_nat length) readItem (drop (Z.to_nat position) (gr_file r)) with
        | Ok (items, _) => Ok items
        | Err e => Err e
        | Panic s => Panic s
        end
  end.

End File.

(** ** Rules: compiling and merging *)

Lemma append_rule_assoc a b c : append_rule (append_rule a b) c = append_rule a (append_rule b c).
Proof. unfold append_rule. cbn. by rewrite !app_assoc. Qed.

Lemma append_rule_nil a : append_rule a noRule = a.
Proof. destruct a. unfold append_rule, noRule. cbn. by rewrite !app_nil_r. Qed.

Lemma append_item_rule rule item : append_item rule item = append_rule rule (append_item noRule item).
Proof.
  destruct rule as [d s k r]. unfold append_item, append_rule, noRule. repeat case_match; cbn; by rewrite ?app_nil_r.
Qed.

Lemma Compile_from code : forall rule, fold_left append_item code rule = append_rule rule (Compile code).
Proof.
  unfold Compile. induction code as [|item code IH]; intros rule; cbn [fold_left]; [by rewrite append_rule_nil|].
  rewrite IH, (IH (append_item noRule item)), append_item_rule. apply append_rule_assoc.
Qed.

(** Merging the compiled lists is compiling their concatenation. *)
Theorem Merge_Compile codes : Merge (map Compile codes) = Compile (concat codes).
Proof.
  assert (forall rule, fold_left append_rule (map Compile codes) rule = append_rule rule (Compile (concat codes))) as H.
  { induction codes as [|code codes IH]; intros rule; cbn [map fold_left concat]; [by rewrite append_rule_nil|].
    rewrite IH, append_rule_assoc. f_equal. unfold Compile at 3. rewrite fold_left_app. by rewrite Compile_from. }
  unfold Merge. rewrite H. by destruct (Compile (concat codes)).
Qed.

(** ** Round trip *)

(** Sizes that fit: what the runtime can allocate. *)
Record sizes_ok `{UvarintWriter} (domains : gmap string (list Item)) : Prop := {
  codes_fit : sizeof_string * zlen (sorted_keys domains) <= maxAlloc;
  code_fits code items : domains !! code = Some items -> zlen (bytes_of_string code) <= maxAlloc;
  items_fit code items : domains !! code = Some items -> sizeof_Item * zlen items <= maxAlloc;
  item_fits code items item : domains !! code = Some items -> item ∈ items -> is_uint 8 (i_Type item) /\ zlen (bytes_of_string (i_Value item)) <= maxAlloc;
  file_fits : zlen (Write domains) < 2 ^ 63;
}.

Section Roundtrip.
Context {UW : UvarintWriter}.

Lemma make_slice_ok sizeof n : sizeof * n <= maxAlloc -> make_slice sizeof n = Ok tt.
Proof. intros H. unfold make_slice. by rewrite (proj2 (Z.ltb_ge _ _)). Qed.

Lemma decodes_bytes bs : decodes (read_n (length bs) ReadByte) bs bs.
Proof.
  induction bs as [|b bs IH]; cbn [length read_n]; [apply decodes_ret|].
  apply (decodes_bind ReadByte _ [b] bs b); [apply decodes_ReadByte|]. by apply (decodes_map (read_n (length bs) ReadByte) (cons b)).
Qed.

Lemma maxAlloc_uint64 n : 0 <= n <= maxAlloc -> is_uint 64 n /\ int64 n = n.
Proof. unfold maxAlloc, is_uint. intros H. split; [lia|]. apply int64_id. lia. Qed.

Lemma decodes_readString s : zlen (bytes_of_string s) <= maxAlloc -> decodes readString (writeString s) s.
Proof.
  intros Hs. pose proof (zlen_nonneg (bytes_of_string s)). eapply decodes_bind; [apply WriteUvarint_decodes; by apply maxAlloc_uint64|].
  cbv beta. eapply decodes_lift; [apply make_slice_ok; lia|]. rewrite to_nat_zlen.
  rewrite <- (string_of_bytes_of_string s) at 3. apply (decodes_map (read_n _ ReadByte) string_of_bytes). apply decodes_bytes.
Qed.

Lemma decodes_readItem item : is_uint 8 (i_Type item) -> zlen (bytes_of_string (i_Value item)) <= maxAlloc -> decodes readItem (encode_item item) item.
Proof.
  intros Ht Hv. unfold encode_item, readItem. apply (decodes_bind ReadByte _ [byte_of_Z (i_Type item)]  _ (byte_of_Z (i_Type item))); [apply decodes_ReadByte|].
  cbv beta. rewrite Z_of_byte_small by (unfold is_uint in Ht; lia). destruct item as [t v]. cbn [i_Type i_Value] in *.
  apply (decodes_map readString (mkItem t)). by apply decodes_readString.
Qed.

Lemma decodes_readEntry code index length : zlen (bytes_of_string code) <= maxAlloc -> 0 <= index < 2 ^ 63 -> 0 <= length < 2 ^ 63 ->
  decodes readEntry (encode_entry (code, index, length)) (code, index, length).
Proof.
  intros Hc Hi Hl. unfold encode_entry, readEntry. eapply decodes_bind; [by apply decodes_readString|]. cbv beta.
  eapply decodes_bind; [apply WriteUvarint_decodes; unfold is_uint; lia|]. cbv beta.
  assert ((code, index, length) = (code, int64 index, int64 length)) as -> by (by rewrite !int64_id by lia).
  apply (decodes_map ReadUvarint (fun l => (code, int64 index, int64 l))). apply WriteUvarint_decodes. unfold is_uint. lia.
Qed.

Context (domains : gmap string (list Item)).
Abbreviation keys := (sorted_keys domains).
Abbreviation content := (concat (map (fun code => encode_items (items_of domains code)) keys)).

Lemma sorted_keys_perm : keys ≡ₚ map fst (map_to_list domains).
Proof. apply merge_sort_Permutation. Qed.

Lemma sorted_keys_NoDup : NoDup keys.
Proof. rewrite sorted_keys_perm. apply NoDup_fst_map_to_list. Qed.

Lemma elem_of_keys {A} (m : gmap string A) code : code ∈ map fst (map_to_list m) <-> is_Some (m !! code).
Proof.
  rewrite list_elem_of_fmap. split.
  - intros ([c items] & -> & H). apply elem_of_map_to_list in H. by eexists.
  - intros [items H]. exists (code, items). split; [done|]. by apply elem_of_map_to_list.
Qed.

Lemma elem_of_sorted_keys code : code ∈ keys <-> is_Some (domains !! code).
Proof. rewrite sorted_keys_perm. apply elem_of_keys. Qed.

(** Each entry of the directory points at its items. *)
Lemma directory_points ks : forall start code index length, (code, index, length) ∈ directory domains start ks ->
  code ∈ ks /\ length = zlen (items_of domains code) /\
  exists pre post, concat (map (fun code => encode_items (items_of domains code)) ks) = pre ++ encode_items (items_of domains code) ++ post
    /\ start + zlen pre = index.
Proof.
  induction ks as [|k ks IH]; intros start code index length; cbn [directory map concat]; [set_solver|]. rewrite elem_of_cons.
  intros [[= -> -> ->]|H].
  - split; [set_solver|]. split; [done|]. eexists [], _. split; [done|]. change (zlen []) with 0. lia.
  - destruct (IH _ _ _ _ H) as (Hin & Hl & pre & post & -> & Hi). split; [set_solver|]. split; [done|].
    exists (encode_items (items_of domains k) ++ pre), post. rewrite <- app_assoc, zlen_app. split; [done|]. lia.
Qed.

Lemma directory_codes ks : forall start, map (fun e => fst (fst e)) (directory domains start ks) = ks.
Proof. induction ks as [|k ks IH]; intros start; cbn [directory map]; [done|]. by rewrite IH. Qed.

Lemma directory_entry ks code : forall start, code ∈ ks -> exists index length, (code, index, length) ∈ directory domains start ks.
Proof.
  induction ks as [|k ks IH]; intros start Hin; cbn [directory]; [set_solver|]. apply elem_of_cons in Hin as [->|Hin]; [eexists _, _; left|].
  destruct (IH (start + zlen (encode_items (items_of domains k))) Hin) as (i & l & H). exists i, l. by right.
Qed.

Lemma insert_entries entries : NoDup (map (fun e => fst (fst e)) entries) -> forall maps,
  (forall code index length, (code, index, length) ∈ entries ->
     fst (fold_left insert_entry entries maps) !! code = Some index /\ snd (fold_left insert_entry entries maps) !! code = Some length)
  /\ (forall code, code ∉ map (fun e => fst (fst e)) entries -> fst (fold_left insert_entry entries maps) !! code = fst maps !! code
        /\ snd (fold_left insert_entry entries maps) !! code = snd maps !! code).
Proof.
  induction entries as [|[[c i] l] entries IH]; cbn [map fold_left fst]; intros Hnd maps; [split; [set_solver|done]|].
  apply NoDup_cons in Hnd as [Hc Hnd]. destruct (IH Hnd (insert_entry maps (c, i, l))) as [H1 H2]. split.
  - intros code index length. rewrite elem_of_cons. intros [[= -> -> ->]|H]; [|by apply H1].
    destruct (H2 c Hc) as [-> ->]. cbn [insert_entry fst snd]. by rewrite !lookup_insert_eq.
  - intros code Hn. destruct (H2 code) as [-> ->]; [set_solver|]. cbn [insert_entry fst snd]. rewrite !lookup_insert_ne by set_solver. done.
Qed.

End Roundtrip.

(** C38: what is written to a geosite database is read back: opening the file
    succeeds and lists exactly the codes written; reading a code gives its items
    in order, and reading any other code is an error. *)
Theorem geosite_roundtrip `{UW : UvarintWriter} (domains : gmap string (list Item)) :
  sizes_ok domains ->
  exists r codes, NewReader (Write domains) = Ok (r, codes)
    /\ codes ≡ₚ map fst (map_to_list domains)
    /\ forall code, match domains !! code with
                    | Some items => GeositeReader_Read r code = Ok items
                    | None => is_ok (GeositeReader_Read r code) = false
                    end.
Proof.
  intros Hok. pose proof (file_fits _ Hok) as Hfile. set (keys := sorted_keys domains).
  set (meta := x00 :: WriteUvarint (zlen keys) ++ concat (map encode_entry (directory domains 0 keys))).
  set (content := concat (map (fun code => encode_items (items_of domains code)) keys)).
  assert (Write domains = meta ++ content) as Hw by done. rewrite Hw, zlen_app in Hfile. pose proof (zlen_nonneg meta). pose proof (zlen_nonneg content).
  assert (decodes readMetadata meta (directory domains 0 keys)) as Hmeta.
  { unfold readMetadata, meta. apply (decodes_bind ReadByte _ [x00] _ x00); [apply decodes_ReadByte|]. cbn [negb Z_of_byte Z.eqb].
    pose proof (zlen_nonneg keys). pose proof (codes_fit _ Hok) as Hc. unfold sizeof_string in Hc. fold keys in Hc.
    destruct (maxAlloc_uint64 (zlen keys) ltac:(lia)) as [Hu Hi]. change (negb (Z_of_byte x00 =? 0)) with false. cbv iota.
    eapply decodes_bind; [by apply WriteUvarint_decodes|]. cbv beta. eapply decodes_lift; [by apply make_slice_ok|]. rewrite Hi, to_nat_zlen.
    rewrite <- (directory_codes domains keys 0) at 1. rewrite length_map. rewrite <- (map_id (directory domains 0 keys)) at 3.
    apply decodes_read_n. intros [[code index] length] Hin. destruct (directory_points domains keys 0 _ _ _ Hin) as (Hk & Hl & pre & post & Hcont & Hidx).
    fold content in Hcont. destruct (proj1 (elem_of_sorted_keys domains code) Hk) as [items Hit]. unfold items_of in Hl. rewrite Hit in Hl. cbn in Hl.
    pose proof (items_fit _ Hok _ _ Hit) as Hf. unfold sizeof_Item, maxAlloc in Hf. pose proof (zlen_nonneg items).
    apply decodes_readEntry; [by eapply code_fits| |lia]. rewrite Hcont, !zlen_app in Hfile.
    pose proof (zlen_nonneg pre). pose proof (zlen_nonneg post). pose proof (zlen_nonneg (encode_items (items_of domains code))). lia. }
  unfold NewReader. rewrite Hw, (Hmeta content).
  assert (NoDup (map (fun e : string * Z * Z => fst (fst e)) (directory domains 0 keys))) as Hnd by (rewrite directory_codes; apply sorted_keys_NoDup).
  destruct (insert_entries _ Hnd (∅, ∅)) as [Hin Hout]. destruct (fold_left insert_entry (directory domains 0 keys) (∅, ∅)) as [idx len].
  cbn [fst snd] in *. rewrite directory_codes in Hout. eexists _, _. split; [reflexivity|]. split.
  - assert (forall code, is_Some (idx !! code) <-> is_Some (domains !! code)) as Heq.
    { intros code. rewrite <- elem_of_sorted_keys. fold keys. destruct (decide (code ∈ keys)) as [Hk|Hk].
      - destruct (directory_entry domains keys code 0 Hk) as (i & l & He). destruct (Hin _ _ _ He) as [-> _]. split; [done|]. by eexists.
      - destruct (Hout code Hk) as [-> _]. rewrite lookup_empty. split; [by intros [? ?]|done]. }
    apply NoDup_Permutation; [apply NoDup_fst_map_to_list..|]. intros code. by rewrite !elem_of_keys, Heq.
  - intros code. unfold GeositeReader_Read. cbn [gr_domainIndex gr_metadataIndex gr_domainLength gr_file].
    destruct (domains !! code) as [items|] eqn:Hit.
    + assert (code ∈ keys) as Hk by (apply elem_of_sorted_keys; by eexists).
      destruct (directory_entry domains keys code 0 Hk) as (i & l & He). destruct (Hin _ _ _ He) as [-> ->].
      destruct (directory_points domains keys 0 _ _ _ He) as (_ & -> & pre & post & Hcont & Hidx). fold content in Hcont.
      assert (items_of domains code = items) as Hitems by (unfold items_of; by rewrite Hit). rewrite Hitems in *.
      rewrite Hcont, !zlen_app in *. pose proof (zlen_nonneg pre). pose proof (zlen_nonneg post). pose proof (zlen_nonneg (encode_items items)).
      pose proof (zlen_nonneg items). pose proof (items_fit _ Hok _ _ Hit) as Hf.
      rewrite int64_id by lia. rewrite (proj2 (Z.ltb_ge _ 0)) by lia. cbn [default]. unfold id, make_int. rewrite (proj2 (Z.ltb_ge (zlen items) 0)) by lia.
      rewrite make_slice_ok by done. cbn [bind_result]. rewrite to_nat_zlen.
      replace (Z.to_nat _) with (length (meta ++ pre)) by (rewrite length_app; unfold zlen in *; lia).
      rewrite app_assoc, drop_app_length.
      assert (decodes (read_n (length items) readItem) (encode_items items) items) as Hd.
      { rewrite <- (map_id items) at 3. apply decodes_read_n. intros item Hi. destruct (item_fits _ Hok _ _ _ Hit Hi). by apply decodes_readItem. }
      by rewrite Hd.
    + destruct (Hout code) as [-> _]; [|done]. intros Hk%elem_of_sorted_keys. rewrite Hit in Hk. by destruct Hk.
Qed.

(** ** Witness *)

Module GeositeDemo.

Definition domains : gmap string (list Item) :=
  {[ "google" := [mkItem RuleTypeDomainSuffix "google.com"; mkItem RuleTypeDomain "www.google.org"]; "ads" := [mkItem RuleTypeDomainKeyword "ads"]; "empty" := [] ]}.

Lemma geosite_roundtrip_witness : exists r codes, NewReader (Write domains) = Ok (r, codes)
  /\ GeositeReader_Read r "google" = Ok [mkItem RuleTypeDomainSuffix "google.com"; mkItem RuleTypeDomain "www.google.org"]
  /\ GeositeReader_Read r "empty" = Ok [] /\ is_ok (GeositeReader_Read r "none") = false.
Proof.
  assert (sizes_ok domains) as Hok.
  { assert (forall code items, domains !! code = Some items -> (code, items) ∈ map_to_list domains) as Hl by (intros; by apply elem_of_map_to_list).
    assert (forallb (fun x => (zlen (bytes_of_string (fst x)) <=? maxAlloc) && (sizeof_Item * zlen (snd x) <=? maxAlloc)
      && forallb (fun i => bool_decide (is_uint 8 (i_Type i)) && (zlen (bytes_of_string (i_Value i)) <=? maxAlloc)) (snd x)) (map_to_list domains) = true) as Hall by by_compute.
    rewrite forallb_forall in Hall.
    assert (forall code items, domains !! code = Some items -> zlen (bytes_of_string code) <= maxAlloc /\ sizeof_Item * zlen items <= maxAlloc
      /\ forall i, i ∈ items -> is_uint 8 (i_Type i) /\ zlen (bytes_of_string (i_Value i)) <= maxAlloc) as Hk.
    { intros code items Hi. apply Hl in Hi. apply list_elem_of_In, Hall in Hi. cbn [fst snd] in Hi. apply andb_true_iff in Hi as [Hi H3].
      apply andb_true_iff in Hi as [H1 H2]. apply Z.leb_le in H1, H2. split; [exact H1|]. split; [exact H2|]. intros i Hin.
      rewrite forallb_forall in H3. apply list_elem_of_In, H3 in Hin. apply andb_true_iff in Hin as [H4 H5]. apply bool_decide_eq_true in H4. apply Z.leb_le in H5. exact (conj H4 H5). }
    split.
    - vm_compute. discriminate.
    - intros code items Hi. apply (Hk code items Hi).
    - intros code items Hi. apply (Hk code items Hi).
    - intros code items item Hi. apply (Hk code items Hi).
    - by_compute. }
  destruct (geosite_roundtrip domains Hok) as (r & codes & Hr & _ & Hall). exists r, codes. split; [exact Hr|].
  split; [exact (Hall "google")|]. split; [exact (Hall "empty")|exact (Hall "none")].
Defined.

(** A directory with a large count makes the reader panic instead of returning an error. *)
Example geosite_panics_on_count : NewReader (x00 :: AppendUvarint (2 ^ 50)) = Panic "runtime error: makeslice: len out of range".
Proof. by_compute. Qed.

End GeositeDemo.
