(* ===== verification/GoStrings.v ===== *)
(** * Strings of the Go standard library

    What the text formats of this program (common/badversion,
    common/convertor/adguard) use of [strings] and [bufio]: prefixes and
    suffixes, [Split] and [Cut] at a character, and the lines of a
    [bufio.Scanner]; with the laws of splitting. *)
From Stdlib Require Import ZArith Lia Bool Ascii.
From S2P Require Import Prelude.

(** [strings.Split(s, sep)] for a separator of one character. *)
Fixpoint strings_Split (sep : Ascii.ascii) (s : string) : list string :=
  match s with
  | EmptyString => [""]
  | String c rest =>
      if Ascii.eqb c sep then "" :: strings_Split sep rest
      else match strings_Split sep rest with [] => [String c ""] | part :: parts => String c part :: parts end
  end.

(** [strings.Contains(s, sep)]. *)
Fixpoint contains_char (sep : Ascii.ascii) (s : string) : bool :=
  match s with EmptyString => false | String c rest => Ascii.eqb c sep || contains_char sep rest end.

(** [s[n:]], for [n] at most the length. *)
Definition string_drop (n : nat) (s : string) : string := String.substring n (String.length s - n) s.

(** [s[:n]], for [n] at most the length. *)
Definition string_take (n : nat) (s : string) : string := String.substring 0 n s.

(** [strings.HasPrefix(s, prefix)]. *)
Definition HasPrefix (s prefix : string) : bool := String.prefix prefix s.

(** [strings.HasSuffix(s, suffix)]. *)
Definition HasSuffix (s suffix : string) : bool :=
  (String.length suffix <=? String.length s)%nat && String.eqb (string_drop (String.length s - String.length suffix) s) suffix.

(** [strings.TrimSuffix(s, suffix)]. *)
Definition TrimSuffix (s suffix : string) : string :=
  if HasSuffix s suffix then string_take (String.length s - String.length suffix) s else s.

(** [strings.Cut(s, sep)] for a separator of one character. *)
Fixpoint strings_Cut (sep : Ascii.ascii) (s : string) : option (string * string) :=
  match s with
  | EmptyString => None
  | String c rest =>
      if Ascii.eqb c sep then Some ("", rest)
      else match strings_Cut sep rest with Some (before, after) => Some (String c before, after) | None => None end
  end.

(** [strings.ReplaceAll(s, old, new)] for single characters. *)
Fixpoint replace_char (old new : Ascii.ascii) (s : string) : string :=
  match s with EmptyString => EmptyString | String c rest => String (if Ascii.eqb c old then new else c) (replace_char old new rest) end.

Definition newline : Ascii.ascii := "010"%char.
Definition carriage_return : Ascii.ascii := "013"%char.

(** The lines [bufio.Scanner] with [ScanLines] returns: without the line end,
    without a carriage return before it, and none for the text after the last
    line end when it is empty.  A line that does not fit into the buffer of
    [MaxScanTokenSize] bytes together with its end stops the scanner. *)
Definition MaxScanTokenSize : Z := 65536.
Definition drop_cr (line : string) : string := TrimSuffix line (String carriage_return "").
Fixpoint drop_last_empty (lines : list string) : list string :=
  match lines with
  | [] => []
  | [last] => if String.eqb last "" then [] else [last]
  | line :: rest => line :: drop_last_empty rest
  end.
Fixpoint until_too_long (lines : list string) : list string :=
  match lines with
  | [] => []
  | line :: rest => if Z.of_nat (String.length line) <? MaxScanTokenSize then line :: until_too_long rest else []
  end.
Definition Scanner_lines (text : string) : list string :=
  map drop_cr (until_too_long (drop_last_empty (strings_Split newline text))).

(** ** Splitting *)

(** Appending, one character at a time. *)
Lemma append_nil s : "" +:+ s = s. Proof. done. Qed.
Lemma append_cons c s t : String c s +:+ t = String c (s +:+ t). Proof. done. Qed.
Lemma append_nil_r s : s +:+ "" = s.
Proof. induction s as [|c s IH]; [done|]. by rewrite append_cons, IH. Qed.

(** A part without the separator comes first. *)
Lemma split_first sep s rest : contains_char sep s = false -> strings_Split sep (s +:+ String sep rest) = s :: strings_Split sep rest.
Proof.
  induction s as [|c s IH]; rewrite ?append_nil, ?append_cons; cbn [contains_char strings_Split]; [by rewrite Ascii.eqb_refl|].
  intros [-> H]%orb_false_iff. by rewrite IH.
Qed.

Lemma split_last sep s : contains_char sep s = false -> strings_Split sep s = [s].
Proof. induction s as [|c s IH]; cbn [contains_char strings_Split]; [done|]. intros [-> H]%orb_false_iff. by rewrite IH. Qed.

Lemma contains_app sep a b : contains_char sep (a +:+ b) = contains_char sep a || contains_char sep b.
Proof. induction a as [|c a IH]; rewrite ?append_nil, ?append_cons; cbn [contains_char]; [done|]. by rewrite IH, orb_assoc. Qed.
