(* ===== verification/BadVersion.v ===== *)
(** * Version numbers (common/badversion)

    [Parse], the printers and the comparisons of versions.

    - Printing and parsing a version without commit is the identity
      ([version_roundtrip]).
    - Among versions without commit and with known pre-release names the
      comparisons are those of one total order ([version_order]).
    - With a commit they are not: two versions that differ in the commit only are
      each less than the other ([commit_breaks_order]); the release of a Linux
      kernel is parsed to such a version, and is not recognised as a version of
      its own series ([kernel_release_too_old]). *)
From Stdlib Require Import ZArith Lia Bool Ascii.
From S2P Require Import Prelude GoIO GoStrings PanelMsgpack.

Record Version := mkVersion {
  Major : Z;
  Minor : Z;
  Patch : Z;
  Commit : string;
  PreReleaseIdentifier : string;
  PreReleaseVersion : Z;
}.

#[export] Instance Version_eq : EqDecision Version.
Proof. solve_decision. Defined.

(** ** Comparison *)

Definition parsePreReleaseIdentifier (identifier : string) : Z :=
  if String.prefix "rc" identifier then 1
  else if String.prefix "beta" identifier then 2
  else if String.prefix "alpha" identifier then 3
  else 0.

Definition GreaterThan (v another : Version) : bool :=
  if Major another <? Major v then true else if Major v <? Major another then false
  else if Minor another <? Minor v then true else if Minor v <? Minor another then false
  else if Patch another <? Patch v then true else if Patch v <? Patch another then false
  else
    let here := PreReleaseIdentifier v in let there := PreReleaseIdentifier another in
    if String.eqb here "" && negb (String.eqb there "") then true
    else if negb (String.eqb here "") && String.eqb there "" then false
    else if negb (String.eqb here "") && negb (String.eqb there "") then
      if String.eqb here there && (PreReleaseVersion another <? PreReleaseVersion v) then true
      else if String.eqb here there && (PreReleaseVersion v <? PreReleaseVersion another) then false
      else if parsePreReleaseIdentifier here <? parsePreReleaseIdentifier there then true
      else false
    else false.

Definition GreaterThanOrEqual (v another : Version) : bool := bool_decide (v = another) || GreaterThan v another.
Definition LessThan (v another : Version) : bool := negb (GreaterThanOrEqual v another).
Definition LessThanOrEqual (v another : Version) : bool := bool_decide (v = another) || GreaterThan another v.

(** ** Printing *)

Definition VersionString (v : Version) : string := pretty (Major v) +:+ "." +:+ pretty (Minor v) +:+ "." +:+ pretty (Patch v).

Definition Version_String (v : Version) : string :=
  if String.eqb (PreReleaseIdentifier v) "" then VersionString v
  else VersionString v +:+ "-" +:+ PreReleaseIdentifier v +:+ "." +:+ pretty (PreReleaseVersion v).

Definition BadString (v : Version) : string :=
  let version := pretty (Major v) +:+ "." +:+ pretty (Minor v) in
  let version := if 0 <? Patch v then version +:+ "." +:+ pretty (Patch v) else version in
  if String.eqb (PreReleaseIdentifier v) "" then version
  else
    let version := version +:+ "-" +:+ PreReleaseIdentifier v in
    if 0 <? PreReleaseVersion v then version +:+ pretty (PreReleaseVersion v) else version.

(** ** Parsing *)

(** [strings.TrimPrefix(s, "v")]. *)
Definition TrimPrefix_v (s : string) : string := match s with String "v"%char rest => rest | _ => s end.

(** The part after the first hyphen: commit, identifier, version. *)
Definition parseIdentifier (identifier : string) : string * string * Z :=
  if contains_char "."%char identifier then
    match strings_Split "."%char identifier with
    | name :: version :: _ => ("", name, ParseInt version)
    | name :: [] => ("", name, 0)
    | [] => ("", "", 0)
    end
  else if String.prefix "alpha" identifier then ("", "alpha", ParseInt (string_drop 5 identifier))
  else if String.prefix "beta" identifier then ("", "beta", ParseInt (string_drop 4 identifier))
  else (identifier, "", 0).

Definition element (elements : list string) (i : nat) : Z := match elements !! i with Some e => ParseInt e | None => 0 end.

Definition Version_Parse (versionName : string) : Version :=
  let versionName := TrimPrefix_v versionName in
  let '(versionName, (commit, identifier, version)) :=
    if contains_char "-"%char versionName then
      match strings_Split "-"%char versionName with
      | name :: identifier :: _ => (name, parseIdentifier identifier)
      | _ => (versionName, ("", "", 0))
      end
    else (versionName, ("", "", 0)) in
  let versionElements := strings_Split "."%char versionName in
  mkVersion (element versionElements 0) (element versionElements 1) (element versionElements 2) commit identifier version.

(** ** The order *)

(** The rank of a pre-release: releases last. *)
Definition known (v : Version) : Prop :=
  Commit v = "" /\ (PreReleaseIdentifier v ∈ ["rc"; "beta"; "alpha"] \/ PreReleaseIdentifier v = "" /\ PreReleaseVersion v = 0).

Definition stage (v : Version) : Z := if String.eqb (PreReleaseIdentifier v) "" then 0 else parsePreReleaseIdentifier (PreReleaseIdentifier v).

(** The lexicographic order on numbers, then stages (a smaller one is later), then the number of the pre-release. *)
Definition later (v w : Version) : Prop :=
  Major w < Major v \/ Major w = Major v /\ (Minor w < Minor v \/ Minor w = Minor v /\ (Patch w < Patch v \/ Patch w = Patch v /\
    (stage v < stage w \/ stage v = stage w /\ PreReleaseVersion w < PreReleaseVersion v))).

Lemma GreaterThan_later v w : known v -> known w -> GreaterThan v w = true <-> later v w.
Proof.
  intros [_ Hv] [_ Hw]. unfold GreaterThan, later, stage.
  destruct (Z.ltb_spec (Major w) (Major v)), (Z.ltb_spec (Major v) (Major w)), (Z.ltb_spec (Minor w) (Minor v)), (Z.ltb_spec (Minor v) (Minor w)),
    (Z.ltb_spec (Patch w) (Patch v)), (Z.ltb_spec (Patch v) (Patch w)); try (split; [intros; first [lia|done]|intros; first [done|lia]]).
  rewrite !elem_of_cons, elem_of_nil in Hv, Hw.
  destruct Hv as [[-> |[-> |[-> |[]]]]|[-> Hpv]], Hw as [[-> |[-> |[-> |[]]]]|[-> Hpw]]; cbn [String.eqb Ascii.eqb Bool.eqb andb negb].
  all: destruct (Z.ltb_spec (PreReleaseVersion w) (PreReleaseVersion v)), (Z.ltb_spec (PreReleaseVersion v) (PreReleaseVersion w)).
  all: vm_compute parsePreReleaseIdentifier; cbv -[later Z.lt Z.le Major Minor Patch PreReleaseVersion].
  all: try (split; [intros; first [lia|done]|intros; first [done|lia]]).
Qed.

Lemma stage_inj v w : known v -> known w -> stage v = stage w -> PreReleaseIdentifier v = PreReleaseIdentifier w.
Proof.
  intros [_ Hv] [_ Hw]. unfold stage. rewrite !elem_of_cons, elem_of_nil in Hv, Hw.
  destruct Hv as [[-> |[-> |[-> |[]]]]|[-> _]], Hw as [[-> |[-> |[-> |[]]]]|[-> _]]; vm_compute; done.
Qed.

(** Among versions without commit and with known pre-release names the
    comparisons are those of a total order. *)
Theorem version_order v w : known v -> known w ->
  (v = w \/ GreaterThan v w = true \/ GreaterThan w v = true)
  /\ (GreaterThan v w = true -> GreaterThan w v = false)
  /\ LessThan v w = GreaterThan w v /\ GreaterThanOrEqual v w = negb (GreaterThan w v) /\ LessThanOrEqual v w = negb (GreaterThan v w)
  /\ forall u, known u -> GreaterThan u v = true -> GreaterThan v w = true -> GreaterThan u w = true.
Proof.
  intros Hv Hw. pose proof (GreaterThan_later v w Hv Hw) as H1. pose proof (GreaterThan_later w v Hw Hv) as H2.
  assert (v = w \/ later v w \/ later w v) as Htri.
  { destruct (Z.eq_dec (stage v) (stage w)) as [Hs|Hs]; [|unfold later; lia].
    destruct (Z.eq_dec (Major v) (Major w)); [|unfold later; lia]. destruct (Z.eq_dec (Minor v) (Minor w)); [|unfold later; lia].
    destruct (Z.eq_dec (Patch v) (Patch w)); [|unfold later; lia]. destruct (Z.eq_dec (PreReleaseVersion v) (PreReleaseVersion w)); [|unfold later; lia].
    left. pose proof (stage_inj v w Hv Hw Hs). destruct v, w, Hv as [Hcv _], Hw as [Hcw _]. cbn in *. by subst. }
  assert (later v w -> ~ later w v) as Hasym by (unfold later; lia).
  assert (later v v -> False) as Hirr by (unfold later; lia).
  assert (GreaterThan v w = true -> GreaterThan w v = false) as Ha by (rewrite H1; intros Hl; apply not_true_iff_false; rewrite H2; by apply Hasym).
  split; [by rewrite H1, H2|]. split; [done|].
  assert (GreaterThanOrEqual v w = negb (GreaterThan w v) /\ LessThanOrEqual v w = negb (GreaterThan v w)) as [Hge Hle].
  { unfold GreaterThanOrEqual, LessThanOrEqual. case_bool_decide as He.
    - subst w. assert (GreaterThan v v = false) as -> by (apply not_true_iff_false; rewrite H1; done). done.
    - destruct Htri as [|[Hl|Hl]]; [done| |].
      + rewrite (proj2 H1 Hl), (Ha (proj2 H1 Hl)). done.
      + rewrite (proj2 H2 Hl). assert (GreaterThan v w = false) as -> by (apply not_true_iff_false; rewrite H1; unfold later in *; lia). done. }
  split; [unfold LessThan; rewrite Hge; by apply negb_involutive|]. split; [done|]. split; [done|].
  intros u Hu. rewrite (GreaterThan_later u v Hu Hv), H1, (GreaterThan_later u w Hu Hw). unfold later. lia.
Qed.

(** ** Printing and parsing *)

Fixpoint all_digits (s : string) : bool :=
  match s with EmptyString => true | String c s' => (48 <=? Z.of_nat (nat_of_ascii c)) && (Z.of_nat (nat_of_ascii c) <=? 57) && all_digits s' end.

Lemma pretty_char_value x : (x < 10)%N -> Z.of_nat (nat_of_ascii (pretty_N_char x)) = 48 + Z.of_N x.
Proof. intros H. assert (x = 0 \/ x = 1 \/ x = 2 \/ x = 3 \/ x = 4 \/ x = 5 \/ x = 6 \/ x = 7 \/ x = 8 \/ x = 9)%N as Hx by lia. by destruct_or! Hx; subst. Qed.

Lemma parse_pretty_go x : forall s, parse_digits 0 (pretty_N_go x s) = parse_digits (Z.of_N x) s /\ all_digits (pretty_N_go x s) = all_digits s.
Proof.
  induction x as [x IH] using (well_founded_induction N.lt_wf_0). intros s. destruct (decide (x = 0)%N) as [->|Hx]; [by rewrite pretty_N_go_0|].
  rewrite pretty_N_go_step by lia. pose proof (N.mod_lt x 10 ltac:(done)) as Hm. pose proof (N.div_mod x 10 ltac:(done)) as Hd.
  destruct (IH (x `div` 10)%N) with (s := String (pretty_N_char (x `mod` 10)) s) as [-> ->]; [apply N.div_lt; lia|].
  cbn [parse_digits all_digits]. rewrite (pretty_char_value _ Hm). revert Hm Hd. generalize (x `mod` 10)%N, (x `div` 10)%N. intros m d Hm Hd.
  replace (48 + Z.of_N m - 48) with (Z.of_N m) by lia. assert ((0 <=? Z.of_N m) = true) as -> by lia. assert ((Z.of_N m <=? 9) = true) as -> by lia.
  assert ((48 <=? 48 + Z.of_N m) = true) as -> by lia. assert ((48 + Z.of_N m <=? 57) = true) as -> by lia. cbn [andb]. split; [|done]. f_equal. lia.
Qed.

Lemma pretty_Z_nonneg z : 0 <= z -> pretty z = pretty (Z.to_N z).
Proof. intros H. by destruct z as [|p|p]. Qed.

Lemma pretty_number z : 0 <= z -> all_digits (pretty z) = true /\ parse_unsigned (pretty z) = Some z.
Proof.
  intros H. rewrite pretty_Z_nonneg by done. unfold pretty, pretty_N. case_decide as Hz; [replace z with 0 by lia; done|].
  destruct (parse_pretty_go (Z.to_N z) "") as [Hp Hd]. split; [by rewrite Hd|]. unfold parse_unsigned. rewrite Hp. cbn [parse_digits].
  destruct (String.eqb_spec (pretty_N_go (Z.to_N z) "") "") as [He|]; [|f_equal; lia]. rewrite He in Hp. cbn in Hp. injection Hp as Hp. lia.
Qed.

Lemma digits_head s : all_digits s = true -> match s with String "-"%char _ | String "+"%char _ | String "v"%char _ => False | _ => True end.
Proof. destruct s as [|c s]; [done|]. cbn [all_digits]. destruct c as [[] [] [] [] [] [] [] []]; cbn; done. Qed.

Lemma ParseInt_pretty z : 0 <= z < 2 ^ 63 -> ParseInt (pretty z) = z.
Proof.
  intros H. destruct (pretty_number z ltac:(lia)) as [Hd Hp]. pose proof (digits_head _ Hd) as Hh.
  assert (ParseInt (pretty z) = match parse_unsigned (pretty z) with Some z => Z.max (- 2 ^ 63) (Z.min (2 ^ 63 - 1) z) | None => 0 end) as ->.
  { unfold ParseInt. destruct (pretty z) as [|c s]; [done|]. by destruct c as [[] [] [] [] [] [] [] []]. }
  rewrite Hp. lia.
Qed.

Lemma digits_contain s : all_digits s = true -> contains_char "."%char s = false /\ contains_char "-"%char s = false.
Proof.
  induction s as [|c s IH]; cbn [all_digits contains_char]; [done|]. intros [Hc Hs]%andb_true_iff. destruct (IH Hs) as [-> ->].
  destruct c as [[] [] [] [] [] [] [] []]; cbn in *; done.
Qed.

(** Versions that are printed: no commit, numbers an int holds, and a name that the separators are not part of. *)
Definition printable (v : Version) : Prop :=
  Commit v = "" /\ 0 <= Major v < 2 ^ 63 /\ 0 <= Minor v < 2 ^ 63 /\ 0 <= Patch v < 2 ^ 63 /\ 0 <= PreReleaseVersion v < 2 ^ 63
  /\ contains_char "."%char (PreReleaseIdentifier v) = false /\ contains_char "-"%char (PreReleaseIdentifier v) = false
  /\ (PreReleaseIdentifier v = "" -> PreReleaseVersion v = 0).

(** A version is what its text says. *)
Theorem version_roundtrip v : printable v -> Version_Parse (Version_String v) = v.
Proof.
  intros (Hc & H1 & H2 & H3 & H4 & Hdot & Hdash & Hz). destruct v as [major minor patch commit identifier version]. cbn [Major Minor Patch Commit PreReleaseIdentifier PreReleaseVersion] in *. subst commit.
  destruct (pretty_number major ltac:(lia)) as [D1 _], (pretty_number minor ltac:(lia)) as [D2 _], (pretty_number patch ltac:(lia)) as [D3 _], (pretty_number version ltac:(lia)) as [D4 _].
  destruct (digits_contain _ D1) as [E1 F1], (digits_contain _ D2) as [E2 F2], (digits_contain _ D3) as [E3 F3], (digits_contain _ D4) as [E4 F4].
  set (numbers := pretty major +:+ "." +:+ pretty minor +:+ "." +:+ pretty patch).
  assert (contains_char "-"%char numbers = false) as Hn by (unfold numbers; rewrite !contains_app, F1, F2, F3; done).
  assert (strings_Split "."%char numbers = [pretty major; pretty minor; pretty patch]) as Hs.
  { unfold numbers. rewrite !append_cons, !append_nil. rewrite (split_first "."%char (pretty major) (pretty minor +:+ String "."%char (pretty patch))) by done.
    rewrite split_first by done. by rewrite split_last. }
  assert (forall rest, TrimPrefix_v (numbers +:+ rest) = numbers +:+ rest) as Ht.
  { intros rest. pose proof (digits_head _ D1) as Hh. unfold numbers. destruct (pretty major) as [|c s]; [done|]. by destruct c as [[] [] [] [] [] [] [] []]. }
  unfold Version_Parse, Version_String, VersionString. cbn [Major Minor Patch PreReleaseIdentifier PreReleaseVersion]. fold numbers.
  destruct (String.eqb_spec identifier "") as [->|Hne].
  - rewrite <- (append_nil_r numbers), Ht, append_nil_r, Hn, Hs. unfold element. cbn [lookup list_lookup]. rewrite !ParseInt_pretty by done. by rewrite Hz.
  - rewrite Ht, contains_app, append_cons, append_nil. cbn [contains_char]. rewrite Ascii.eqb_refl, orb_true_r.
    rewrite (split_first "-"%char numbers), append_cons, append_nil by done.
    rewrite (split_last "-"%char) by (rewrite contains_app, Hdash; cbn [contains_char]; rewrite F4; done).
    unfold parseIdentifier. rewrite contains_app, Hdot. cbn [contains_char orb]. rewrite Ascii.eqb_refl.
    rewrite split_first, split_last by done. rewrite Hs. unfold element. cbn [lookup list_lookup]. by rewrite !ParseInt_pretty by done.
Qed.

(** ** Where the comparisons go wrong *)

(** Two versions that differ in the commit only are each less than the other. *)
Example commit_breaks_order :
  LessThan (Version_Parse "1.0.0-abc") (Version_Parse "1.0.0-def") = true /\ LessThan (Version_Parse "1.0.0-def") (Version_Parse "1.0.0-abc") = true.
Proof. split; by_compute. Qed.

(** The release of a kernel of the series 6.14 is not "at least 6.14". *)
Example kernel_release_too_old : GreaterThanOrEqual (Version_Parse "6.14.0-27-generic") (mkVersion 6 14 0 "" "" 0) = false.
Proof. by_compute. Qed.

(** A release candidate without a dot counts as a release. *)
Example rc_without_dot : LessThan (Version_Parse "1.12.0-rc1") (Version_Parse "1.12.0") = true /\ GreaterThan (Version_Parse "1.12.0-rc1") (Version_Parse "1.12.0-rc.2") = true.
Proof. split; by_compute. Qed.
