(* ===== verification/ConnPool.v ===== *)
(** * The pool of DNS connections (dns/transport/conn_pool.go)

    The transports of DNS servers keep their connections in a [ConnPool]: in
    the ordered mode (TLS) a connection has one user at a time and idle ones
    are reused first in, first out; in the single mode (UDP, QUIC) one
    connection is shared.  Any number of goroutines call it at the same time.

    The pool is modelled as a transition system.  A goroutine is a value of
    [thread], its position in the code between two critical sections with its
    local variables; a step runs one critical section (from [p.access.Lock] to
    [p.access.Unlock]), one call of [options.Close], one wait for the
    semaphore, or one dial.  What the step observes of the world outside (does
    [IsAlive] hold, how did the dial end, was the context of the caller
    cancelled) is the [choice] of the step.  Old [connPoolState]s stay in the
    heap [p_states]: goroutines keep pointers to them over a [Reset].
    Connections are numbered in the order they are dialed; [p_closedConns] are
    those [options.Close] was called for.

    ConnPoolTheorems.v proves of every run: dialed connections are not lost
    ([pool_connections_accounted]); a connection has one user at a time in the
    ordered mode, and dials stay within [MaxInflight] ([pool_exclusive]);
    goroutines that wait for a dial of another one are woken
    ([pool_waiters_woken]); a connection is reported as created once
    ([pool_created_once]). *)
From Stdlib Require Import ZArith Lia Bool.
From stdpp Require Import gmap list functions.
From S2P Require Import Prelude.

(** [net.ErrClosed]. *)
Definition net_ErrClosed : go_error := ENew "use of closed network connection".

(** ** The data *)

Inductive ConnPoolMode := ConnPoolSingle | ConnPoolOrdered.
#[export] Instance ConnPoolMode_eq_dec : EqDecision ConnPoolMode.
Proof. solve_decision. Defined.

(** [shared] with [hasShared]; [st_cancelled]: is [ctx] done? *)
Record connPoolState := mkPoolState {
  st_cancelled : bool;
  st_all : gset nat;
  st_idle : list nat;
  st_idleElements : gset nat;
  st_shared : option nat;
  st_sharedClaimed : bool;
  st_connecting : option nat
}.

Record connPoolConnect := mkConnect { co_done : bool; co_err : option go_error }.

Definition newConnPoolState : connPoolState := mkPoolState false ∅ [] ∅ None false None.

Record ConnPool := mkPool {
  p_mode : ConnPoolMode;
  p_maxInflight : Z;
  p_inflight : Z;                     (* what [sem] has given out *)
  p_state : option nat;               (* nil exactly when [closed] is set *)
  p_states : nat -> connPoolState;    (* the heap *)
  p_nextState : nat;
  p_connects : nat -> connPoolConnect;
  p_nextConnect : nat;
  p_dialed : nat;
  p_closedConns : gset nat;
  p_ctxDone : gset nat                (* connections whose [sharedCtx] was cancelled *)
}.

Definition NewConnPool (mode : ConnPoolMode) (maxInflight : Z) : ConnPool :=
  mkPool mode maxInflight 0 (Some 0%nat) (fun _ => newConnPoolState) 1 (fun _ => mkConnect false None) 0 0 ∅ ∅.

Definition p_closed (p : ConnPool) : bool := bool_decide (p_state p = None).

Definition set_cancelled (b : bool) (s : connPoolState) : connPoolState :=
  mkPoolState b (st_all s) (st_idle s) (st_idleElements s) (st_shared s) (st_sharedClaimed s) (st_connecting s).
Definition set_all (all : gset nat) (s : connPoolState) : connPoolState :=
  mkPoolState (st_cancelled s) all (st_idle s) (st_idleElements s) (st_shared s) (st_sharedClaimed s) (st_connecting s).
Definition set_idle (idle : list nat) (elements : gset nat) (s : connPoolState) : connPoolState :=
  mkPoolState (st_cancelled s) (st_all s) idle elements (st_shared s) (st_sharedClaimed s) (st_connecting s).
Definition set_shared (shared : option nat) (claimed : bool) (s : connPoolState) : connPoolState :=
  mkPoolState (st_cancelled s) (st_all s) (st_idle s) (st_idleElements s) shared claimed (st_connecting s).
Definition set_connecting (connecting : option nat) (s : connPoolState) : connPoolState :=
  mkPoolState (st_cancelled s) (st_all s) (st_idle s) (st_idleElements s) (st_shared s) (st_sharedClaimed s) connecting.

Definition update_state (i : nat) (f : connPoolState -> connPoolState) (p : ConnPool) : ConnPool :=
  mkPool (p_mode p) (p_maxInflight p) (p_inflight p) (p_state p) (<[i := f (p_states p i)]> (p_states p)) (p_nextState p)
    (p_connects p) (p_nextConnect p) (p_dialed p) (p_closedConns p) (p_ctxDone p).
Definition set_inflight (n : Z) (p : ConnPool) : ConnPool :=
  mkPool (p_mode p) (p_maxInflight p) n (p_state p) (p_states p) (p_nextState p)
    (p_connects p) (p_nextConnect p) (p_dialed p) (p_closedConns p) (p_ctxDone p).
Definition set_connect (k : nat) (c : connPoolConnect) (next : nat) (p : ConnPool) : ConnPool :=
  mkPool (p_mode p) (p_maxInflight p) (p_inflight p) (p_state p) (p_states p) (p_nextState p)
    (<[k := c]> (p_connects p)) next (p_dialed p) (p_closedConns p) (p_ctxDone p).
Definition set_current (state : option nat) (next : nat) (p : ConnPool) : ConnPool :=
  mkPool (p_mode p) (p_maxInflight p) (p_inflight p) state (p_states p) next
    (p_connects p) (p_nextConnect p) (p_dialed p) (p_closedConns p) (p_ctxDone p).

(** A dial that succeeds. *)
Definition dialed (p : ConnPool) : ConnPool :=
  mkPool (p_mode p) (p_maxInflight p) (p_inflight p) (p_state p) (p_states p) (p_nextState p)
    (p_connects p) (p_nextConnect p) (S (p_dialed p)) (p_closedConns p) (p_ctxDone p).

(** [p.options.Close(conn, cause)]. *)
Definition closeConn (conn : nat) (p : ConnPool) : ConnPool :=
  mkPool (p_mode p) (p_maxInflight p) (p_inflight p) (p_state p) (p_states p) (p_nextState p)
    (p_connects p) (p_nextConnect p) (p_dialed p) ({[conn]} ∪ p_closedConns p) (p_ctxDone p).
Definition closeOption (conn : option nat) (p : ConnPool) : ConnPool := match conn with Some c => closeConn c p | None => p end.

(** [sharedCancel(cause)]. *)
Definition cancelShared (conn : nat) (p : ConnPool) : ConnPool :=
  mkPool (p_mode p) (p_maxInflight p) (p_inflight p) (p_state p) (p_states p) (p_nextState p)
    (p_connects p) (p_nextConnect p) (p_dialed p) (p_closedConns p) ({[conn]} ∪ p_ctxDone p).

(** ** Goroutines *)

(** The positions, named after the function: [O] [acquireOrdered] and
    [dialAndInstall], [S] [acquireShared], [C] [connectSingle]. *)
Inductive thread :=
| OStart
| OClose (conn : nat)
| OSlot (current : nat)
| ODial (current : nat)
| OInstall (current conn : nat)
| OReturn (toClose : option nat) (r : result (nat * bool))
| SStart
| SClose (conn : nat)
| SWait (current connect : nat) (startDial : bool)
| CDial (current connect : nat)
| CInstall (current connect : nat) (r : result nat)
| CFinish (connect : nat) (toClose : option nat)
| Acquired (r : result (nat * bool))       (* the caller, with what Acquire returned *)
| Closing (conn : nat)                     (* Release, Invalidate: after the critical section *)
| CloseState (state : nat)                 (* closeState *)
| CloseConns (todo : gset nat)             (* its loop *)
| Finished.

(** What a step finds outside the pool. *)
Inductive choice :=
| Continue (alive : bool)                                  (* the answer of IsAlive *)
| SlotTaken
| Dialed (err callerErr : option go_error)                 (* the error of dial, the cause of the caller's context *)
| CallerDone (err : go_error)                              (* the caller's context is done *)
| StateDone                                                (* the state's context is done *)
| ReleaseConn (reuse alive : bool)
| InvalidateConn
| ShareConn
| NextConn (conn : nat).                                   (* which connection the range over all gives *)

(** A goroutine at the end of a step: the pool, its position, those it starts. *)
Definition outcome : Type := option (ConnPool * thread * list thread).
Definition goes (p : ConnPool) (t : thread) : outcome := Some (p, t, []).

(** ** Critical sections *)

Definition removeConn (i conn : nat) (p : ConnPool) : ConnPool :=
  let p := update_state i (fun s => set_all (st_all s ∖ {[conn]}) s) p in
  match p_mode p with
  | ConnPoolSingle =>
      if bool_decide (st_shared (p_states p i) = Some conn)
      then cancelShared conn (update_state i (set_shared None false) p)
      else p
  | ConnPoolOrdered =>
      if bool_decide (conn ∈ st_idleElements (p_states p i))
      then update_state i (fun s => set_idle (List.filter (fun c => negb (Nat.eqb c conn)) (st_idle s)) (st_idleElements s ∖ {[conn]}) s) p
      else p
  end.

Definition Release (conn : nat) (reuse alive : bool) (p : ConnPool) : outcome :=
  match p_state p with
  | Some i =>
      if bool_decide (conn ∉ st_all (p_states p i)) then goes p (Closing conn)
      else if negb reuse || negb alive then goes (removeConn i conn p) (Closing conn)
      else match p_mode p with
           | ConnPoolOrdered =>
               if bool_decide (conn ∉ st_idleElements (p_states p i))
               then goes (update_state i (fun s => set_idle (st_idle s ++ [conn]) ({[conn]} ∪ st_idleElements s) s) p) Finished
               else goes p Finished
           | ConnPoolSingle => goes p Finished
           end
  | None => goes p (Closing conn)
  end.

Definition Invalidate (conn : nat) (p : ConnPool) : outcome :=
  match p_state p with
  | Some i =>
      if bool_decide (conn ∉ st_all (p_states p i)) then goes p Finished
      else goes (removeConn i conn p) (Closing conn)
  | None => goes p (Closing conn)
  end.

Definition hasSem (p : ConnPool) : bool := bool_decide (p_mode p = ConnPoolOrdered) && (0 <? p_maxInflight p).
Definition releaseSlot (p : ConnPool) : ConnPool := if hasSem p then set_inflight (p_inflight p - 1) p else p.

Definition acquireOrdered (alive : bool) (p : ConnPool) : outcome :=
  match p_state p with
  | None => goes p (Acquired (Err net_ErrClosed))
  | Some current =>
      match st_idle (p_states p current) with
      | idleConn :: rest =>
          let p := update_state current (fun s => set_idle rest (st_idleElements s ∖ {[idleConn]}) s) p in
          if alive then goes p (Acquired (Ok (idleConn, false)))
          else goes (update_state current (fun s => set_all (st_all s ∖ {[idleConn]}) s) p) (OClose idleConn)
      | [] => goes p (OSlot current)
      end
  end.

(** The cause the dial is cancelled with, if it is. *)
Definition dialErr (current : nat) (callerErr : option go_error) (p : ConnPool) : option go_error :=
  match callerErr with
  | Some e => Some e
  | None => if st_cancelled (p_states p current) then Some net_ErrClosed else None
  end.

Definition installOrdered (current conn : nat) (p : ConnPool) : outcome :=
  if bool_decide (p_state p = Some current)
  then goes (update_state current (fun s => set_all ({[conn]} ∪ st_all s) s) p) (OReturn None (Ok (conn, true)))
  else goes p (OReturn (Some conn) (Err net_ErrClosed)).

Definition claim (current conn : nat) (p : ConnPool) : outcome :=
  let created := negb (st_sharedClaimed (p_states p current)) in
  goes (update_state current (set_shared (Some conn) true) p) (Acquired (Ok (conn, created))).

Definition acquireShared (alive : bool) (p : ConnPool) : outcome :=
  match p_state p with
  | None => goes p (Acquired (Err net_ErrClosed))
  | Some current =>
      match st_shared (p_states p current) with
      | Some conn =>
          if alive then claim current conn p
          else goes (removeConn current conn p) (SClose conn)
      | None =>
          match st_connecting (p_states p current) with
          | Some k => goes p (SWait current k false)
          | None =>
              let k := p_nextConnect p in
              let p := set_connect k (mkConnect false None) (S k) (update_state current (set_connecting (Some k)) p) in
              Some (p, SWait current k true, [CDial current k])
          end
      end
  end.

Definition installShared (current k : nat) (r : result nat) (p : ConnPool) : outcome :=
  let p := update_state current (set_connecting None) p in
  match r with
  | Ok conn =>
      if bool_decide (p_state p = Some current)
      then goes (update_state current (fun s => set_all ({[conn]} ∪ st_all s) (set_shared (Some conn) (st_sharedClaimed s) s)) p) (CFinish k None)
      else goes (set_connect k (mkConnect (co_done (p_connects p k)) (Some net_ErrClosed)) (p_nextConnect p) p) (CFinish k (Some conn))
  | Err e => goes (set_connect k (mkConnect (co_done (p_connects p k)) (Some e)) (p_nextConnect p) p) (CFinish k None)
  | Panic _ => None
  end.

Definition collectShared (current k : nat) (startDial alive : bool) (p : ConnPool) : outcome :=
  match co_err (p_connects p k) with
  | Some e => if startDial then goes p (Acquired (Err e)) else goes p SStart
  | None =>
      if bool_decide (p_state p = Some current) then
        match st_shared (p_states p current) with
        | None => goes p SStart
        | Some conn => if alive then claim current conn p else goes (removeConn current conn p) (SClose conn)
        end
      else goes p (Acquired (Err net_ErrClosed))
  end.

(** [acquireSlot]: with no semaphore it returns at once. *)
Definition acquireSlot (current : nat) (c : choice) (p : ConnPool) : outcome :=
  match c with
  | SlotTaken =>
      if negb (hasSem p) then goes p (ODial current)
      else if p_inflight p <? p_maxInflight p then goes (set_inflight (p_inflight p + 1) p) (ODial current) else None
  | CallerDone e => if hasSem p then goes p (Acquired (Err e)) else None
  | StateDone => if hasSem p && st_cancelled (p_states p current) then goes p (Acquired (Err net_ErrClosed)) else None
  | _ => None
  end.

(** The end of the dial in [dialAndInstall]. *)
Definition dialOrdered (current : nat) (err callerErr : option go_error) (p : ConnPool) : outcome :=
  match err with
  | Some e => goes p (OReturn None (Err (default e (dialErr current callerErr p))))
  | None =>
      match dialErr current callerErr p with
      | Some e => goes (dialed p) (OReturn (Some (p_dialed p)) (Err e))
      | None => goes (dialed p) (OInstall current (p_dialed p))
      end
  end.

(** The [select] of [acquireShared]. *)
Definition waitShared (current k : nat) (startDial : bool) (c : choice) (p : ConnPool) : outcome :=
  match c with
  | Continue alive => if co_done (p_connects p k) then collectShared current k startDial alive p else None
  | CallerDone e => goes p (Acquired (Err e))
  | StateDone => if st_cancelled (p_states p current) then goes p (if p_closed p then Acquired (Err net_ErrClosed) else SStart) else None
  | _ => None
  end.

(** The end of the dial in [connectSingle]. *)
Definition dialShared (current k : nat) (err callerErr : option go_error) (p : ConnPool) : outcome :=
  match err, dialErr current callerErr p with
  | None, None => goes (dialed p) (CInstall current k (Ok (p_dialed p)))
  | None, Some e => goes (closeConn (p_dialed p) (dialed p)) (CInstall current k (Err e))
  | Some e, cause => goes p (CInstall current k (Err (default e cause)))
  end.

(** The end of [connectSingle]: [close(state.done)]. *)
Definition finishShared (k : nat) (toClose : option nat) (p : ConnPool) : outcome :=
  let p := closeOption toClose p in
  goes (set_connect k (mkConnect true (co_err (p_connects p k))) (p_nextConnect p) p) Finished.

(** [closeState]: cancel the context, then close the connections one by one. *)
Definition closeState (i : nat) (p : ConnPool) : outcome :=
  goes (update_state i (set_cancelled true) p) (CloseConns (st_all (p_states p i))).
Definition closeNext (todo : gset nat) (c : choice) (p : ConnPool) : outcome :=
  match c with
  | NextConn conn => if bool_decide (conn ∈ todo) then goes (closeConn conn p) (CloseConns (todo ∖ {[conn]})) else None
  | Continue _ => if bool_decide (todo = ∅) then goes p Finished else None
  | _ => None
  end.

(** What a caller does with the connection it got; in the single mode it may
    hand it to another goroutine (the receiver of a UDP transport). *)
Definition callerStep (conn : nat) (created : bool) (c : choice) (p : ConnPool) : outcome :=
  match c with
  | ReleaseConn reuse alive => Release conn reuse alive p
  | InvalidateConn => Invalidate conn p
  | ShareConn =>
      match p_mode p with
      | ConnPoolSingle => Some (p, Acquired (Ok (conn, created)), [Acquired (Ok (conn, false))])
      | ConnPoolOrdered => None
      end
  | _ => None
  end.

(** One step of a goroutine. *)
Definition thread_step (c : choice) (t : thread) (p : ConnPool) : outcome :=
  match t, c with
  | OStart, Continue alive => acquireOrdered alive p
  | OClose conn, Continue _ => goes (closeConn conn p) OStart
  | OSlot current, c => acquireSlot current c p
  | ODial current, Dialed err callerErr => dialOrdered current err callerErr p
  | OInstall current conn, Continue _ => installOrdered current conn p
  | OReturn toClose r, Continue _ => goes (releaseSlot (closeOption toClose p)) (Acquired r)
  | SStart, Continue alive => acquireShared alive p
  | SClose conn, Continue _ => goes (closeConn conn p) SStart
  | SWait current k startDial, c => waitShared current k startDial c p
  | CDial current k, Dialed err callerErr => dialShared current k err callerErr p
  | CInstall current k r, Continue _ => installShared current k r p
  | CFinish k toClose, Continue _ => finishShared k toClose p
  | Acquired (Ok (conn, created)), c => callerStep conn created c p
  | Closing conn, Continue _ => goes (closeConn conn p) Finished
  | CloseState i, Continue _ => closeState i p
  | CloseConns todo, c => closeNext todo c p
  | _, _ => None
  end.

(** ** The system *)

(** [s_created]: the connections reported as created, in order. *)
Record system := mkSystem { s_pool : ConnPool; s_threads : list thread; s_created : list nat }.

Inductive event :=
| CallAcquire
| CallReset
| CallClose
| Step (n : nat) (c : choice).

Definition Acquire (p : ConnPool) : thread := match p_mode p with ConnPoolSingle => SStart | ConnPoolOrdered => OStart end.

Definition Reset (p : ConnPool) : ConnPool * list thread :=
  match p_state p with
  | None => (p, [])
  | Some oldState =>
      let new := p_nextState p in
      (set_current (Some new) (S new) (update_state new (fun _ => newConnPoolState) p), [CloseState oldState])
  end.

Definition Close (p : ConnPool) : ConnPool * list thread :=
  match p_state p with
  | None => (p, [])
  | Some oldState => (set_current None (p_nextState p) p, [CloseState oldState])
  end.

(** The connection a call reports as created when it returns. *)
Definition reported (before after : thread) : list nat :=
  match before, after with
  | Acquired _, _ => []
  | _, Acquired (Ok (conn, true)) => [conn]
  | _, _ => []
  end.

Definition sys_step (e : event) (s : system) : option system :=
  let p := s_pool s in
  match e with
  | CallAcquire => Some (mkSystem p (s_threads s ++ [Acquire p]) (s_created s))
  | CallReset => let '(p, ts) := Reset p in Some (mkSystem p (s_threads s ++ ts) (s_created s))
  | CallClose => let '(p, ts) := Close p in Some (mkSystem p (s_threads s ++ ts) (s_created s))
  | Step n c =>
      match s_threads s !! n with
      | Some t =>
          match thread_step c t p with
          | Some (p, t', spawned) => Some (mkSystem p (<[n := t']> (s_threads s) ++ spawned) (s_created s ++ reported t t'))
          | None => None
          end
      | None => None
      end
  end.

Fixpoint run (evs : list event) (s : system) : option system :=
  match evs with
  | [] => Some s
  | e :: rest => match sys_step e s with Some s' => run rest s' | None => None end
  end.

Definition initial (mode : ConnPoolMode) (maxInflight : Z) : system := mkSystem (NewConnPool mode maxInflight) [] [].
