(* ===== verification/ConnPoolTheorems.v ===== *)
(** * Theorems on the pool of DNS connections (dns/transport/conn_pool.go)

    Invariants of the transition system of [ConnPool]: what one step of a
    goroutine does to the connections ([step_facts], [wake_facts]), and that
    every run keeps the connections accounted for, exclusive in the ordered
    mode, reported once, and the waiting goroutines able to go on. *)
From Stdlib Require Import ZArith Lia Bool.
From stdpp Require Import gmap list functions.
From S2P Require Import Prelude ConnPool.

(** ** The pool between critical sections *)

Definition cur_state (p : ConnPool) : connPoolState := match p_state p with Some i => p_states p i | None => newConnPoolState end.

(** The connections the pool tracks. *)
Definition cur (p : ConnPool) : gset nat := st_all (cur_state p).

Record state_ok (mode : ConnPoolMode) (s : connPoolState) : Prop := {
  idle_nodup : NoDup (st_idle s);
  idle_elements : st_idleElements s = list_to_set (st_idle s);
  idle_tracked : forall c, c ∈ st_idle s -> c ∈ st_all s;
  shared_tracked : forall c, st_shared s = Some c -> c ∈ st_all s;
  mode_state : match mode with ConnPoolSingle => st_idle s = [] | ConnPoolOrdered => st_shared s = None end
}.

(** Where a goroutine can be in each mode. *)
Definition thread_ok (mode : ConnPoolMode) (t : thread) : Prop :=
  match t with
  | OReturn (Some _) (Ok _) => False
  | OStart | OClose _ | OSlot _ | ODial _ | OInstall _ _ | OReturn _ _ => mode = ConnPoolOrdered
  | SStart | SClose _ | SWait _ _ _ | CDial _ _ | CInstall _ _ _ | CFinish _ _ => mode = ConnPoolSingle
  | _ => True
  end.

Lemma newConnPoolState_ok mode : state_ok mode newConnPoolState.
Proof. split; cbn; [constructor|done|intros c Hc; by apply elem_of_nil in Hc|done|by destruct mode]. Qed.

Lemma update_state_eq i f p : p_states (update_state i f p) i = f (p_states p i).
Proof. cbn. by rewrite fn_lookup_insert. Qed.
Lemma update_state_ne i j f p : i <> j -> p_states (update_state i f p) j = p_states p j.
Proof. intros H. cbn. by rewrite fn_lookup_insert_ne. Qed.

Lemma filter_out c l : c ∉ List.filter (fun c' => negb (Nat.eqb c' c)) l.
Proof. rewrite list_elem_of_In, filter_In. intros [_ H]. by rewrite Nat.eqb_refl in H. Qed.
Lemma filter_in c d l : d ∈ List.filter (fun c' => negb (Nat.eqb c' c)) l <-> d ∈ l /\ d <> c.
Proof. rewrite !list_elem_of_In, filter_In. rewrite negb_true_iff, Nat.eqb_neq. done. Qed.
Lemma filter_sublist' c l : List.filter (fun c' => negb (Nat.eqb c' c)) l ⊆+ l.
Proof. induction l as [|x l IH]; cbn; [done|]. destruct (negb _); [by apply submseteq_skip|]. by apply submseteq_cons. Qed.

(** What [removeConn] leaves as it is. *)
Record same_outside (i : nat) (p p' : ConnPool) : Prop := {
  so_mode : p_mode p' = p_mode p;
  so_max : p_maxInflight p' = p_maxInflight p;
  so_inflight : p_inflight p' = p_inflight p;
  so_state : p_state p' = p_state p;
  so_next : p_nextState p' = p_nextState p;
  so_connects : p_connects p' = p_connects p;
  so_nextConnect : p_nextConnect p' = p_nextConnect p;
  so_dialed : p_dialed p' = p_dialed p;
  so_closed : p_closedConns p' = p_closedConns p;
  so_states : forall j, j <> i -> p_states p' j = p_states p j
}.

Lemma removeConn_same i c p : same_outside i p (removeConn i c p).
Proof.
  unfold removeConn. cbn [p_mode update_state]. destruct (p_mode p); case_bool_decide; split; try done; intros j Hj;
    unfold cancelShared; cbn [p_states update_state]; by rewrite ?fn_lookup_insert_ne by congruence.
Qed.

Record removed (mode : ConnPoolMode) (c : nat) (s s' : connPoolState) : Prop := {
  re_ok : state_ok mode s';
  re_all : st_all s' = st_all s ∖ {[c]};
  re_idle : st_idle s' ⊆+ st_idle s;
  re_shared : st_shared s' = None /\ st_sharedClaimed s' = false \/ st_shared s' = st_shared s /\ st_sharedClaimed s' = st_sharedClaimed s;
  re_connecting : st_connecting s' = st_connecting s;
  re_cancelled : st_cancelled s' = st_cancelled s
}.

Lemma removeConn_removed i c p : state_ok (p_mode p) (p_states p i) -> removed (p_mode p) c (p_states p i) (p_states (removeConn i c p) i).
Proof.
  intros [Hnd Hel Hidle Hsh Hm]. unfold removeConn. cbn [p_mode update_state p_states]. rewrite fn_lookup_insert.
  destruct (p_mode p) eqn:Em; case_bool_decide as Hc; unfold cancelShared; cbn [p_states update_state]; rewrite ?fn_lookup_insert.
  all: cbn [st_shared set_all st_idleElements] in Hc.
  - split; [split|..]; cbn; auto; [intros d Hd; rewrite Hm in Hd; by apply elem_of_nil in Hd|done].
  - split; [split|..]; cbn; auto; [intros d Hd; rewrite Hm in Hd; by apply elem_of_nil in Hd|]. intros d Hd. specialize (Hsh d Hd).
    assert (d <> c) by congruence. set_solver.
  - split; [split|..]; cbn; auto.
    + by apply NoDup_ListNoDup, List.NoDup_filter, NoDup_ListNoDup.
    + apply set_eq. intros d. rewrite Hel, elem_of_difference, !elem_of_list_to_set, filter_in. set_solver.
    + intros d [Hd Hne]%filter_in. specialize (Hidle d Hd). set_solver.
    + congruence.
    + apply filter_sublist'.
  - rewrite Hel, elem_of_list_to_set in Hc. split; [split|..]; cbn; auto; [|congruence]. intros d Hd. specialize (Hidle d Hd). assert (d <> c) by congruence. set_solver.
Qed.

(** ** What a step does *)

(** A connection dialed but not yet in the pool; a connection the goroutine is
    going to close; one it has obtained. *)
Definition pending (t : thread) : list nat :=
  match t with OInstall _ c | CInstall _ _ (Ok c) => [c] | _ => [] end.
Definition toclose (p : ConnPool) (t : thread) : gset nat :=
  match t with
  | OClose c | SClose c | Closing c | OReturn (Some c) _ | CFinish _ (Some c) => {[c]}
  | CloseConns todo => todo
  | CloseState i => st_all (p_states p i)
  | _ => ∅
  end.
Definition held (t : thread) : list nat :=
  match t with Acquired (Ok (c, _)) | OReturn None (Ok (c, _)) => [c] | _ => [] end.

(** The states a goroutine points to. *)
Definition closing_state (t : thread) : option nat := match t with CloseState i => Some i | _ => None end.

(** Dialed by the step. *)
Definition new (p p' : ConnPool) (c : nat) : Prop := (p_dialed p <= c < p_dialed p')%nat.

Definition pool_ok (p : ConnPool) : Prop := forall i, state_ok (p_mode p) (p_states p i).

Record step_facts (p : ConnPool) (t : thread) (p' : ConnPool) (t' : thread) (sp : list thread) : Prop := {
  f_ok : pool_ok p';
  f_thread : thread_ok (p_mode p) t' /\ Forall (thread_ok (p_mode p)) sp;
  f_mode : p_mode p' = p_mode p /\ p_maxInflight p' = p_maxInflight p;
  f_state : p_state p' = p_state p /\ p_nextState p' = p_nextState p;
  f_old : forall j, p_state p <> Some j -> st_all (p_states p' j) = st_all (p_states p j);
  f_dialed : (p_dialed p' = p_dialed p \/ p_dialed p' = S (p_dialed p))%nat;
  f_closed_up : p_closedConns p ⊆ p_closedConns p';
  f_closed : forall c, c ∈ p_closedConns p' -> c ∈ p_closedConns p \/ c ∈ toclose p t \/ new p p' c;
  f_cur : forall c, c ∈ cur p' -> c ∈ cur p \/ c ∈ pending t;
  f_toclose : forall c, c ∈ toclose p' t' -> c ∈ toclose p t \/ ((c ∈ cur p \/ c ∈ held t \/ c ∈ pending t) /\ c ∉ cur p') \/ new p p' c;
  f_pending : forall c, c ∈ pending t' -> new p p' c /\ p_closedConns p' = p_closedConns p;
  f_held : forall c, c ∈ held t' -> c ∈ held t \/ c ∈ cur p';
  f_spawn : forall u, u ∈ sp -> pending u = [] /\ toclose p' u = ∅ /\ closing_state u = None /\ forall c, c ∈ held u -> c ∈ held t \/ c ∈ cur p';
  f_closing : closing_state t' = None;
  f_leak : forall c, c ∈ cur p \/ c ∈ toclose p t \/ c ∈ pending t \/ new p p' c ->
             c ∈ cur p' \/ c ∈ p_closedConns p' \/ c ∈ toclose p' t' \/ c ∈ pending t'
}.

(** A critical section: it neither dials nor closes, and leaves the tracked
    connections of old states. *)
Record quiet (p p' : ConnPool) : Prop := {
  q_mode : p_mode p' = p_mode p /\ p_maxInflight p' = p_maxInflight p;
  q_state : p_state p' = p_state p /\ p_nextState p' = p_nextState p;
  q_dialed : p_dialed p' = p_dialed p;
  q_closed : p_closedConns p' = p_closedConns p;
  q_old : forall j, p_state p <> Some j -> st_all (p_states p' j) = st_all (p_states p j)
}.

Lemma quiet_refl p : quiet p p.
Proof. by split. Qed.
Lemma quiet_trans p1 p2 p3 : quiet p1 p2 -> quiet p2 p3 -> quiet p1 p3.
Proof.
  intros [[H1 H1'] [H2 H2'] H3 H4 H5] [[K1 K1'] [K2 K2'] K3 K4 K5]. split; [split; congruence..|congruence|congruence|].
  intros j Hj. rewrite K5 by congruence. by apply H5.
Qed.
Lemma quiet_update i f p : p_state p = Some i \/ (forall s, st_all (f s) = st_all s) -> quiet p (update_state i f p).
Proof.
  intros Hi. split; try done. intros j Hj. destruct (decide (i = j)) as [->|Hne]; [|by rewrite update_state_ne].
  rewrite update_state_eq. destruct Hi as [Hi|Hi]; [done|apply Hi].
Qed.
Lemma quiet_removeConn i c p : p_state p = Some i -> quiet p (removeConn i c p).
Proof.
  intros Hi. destruct (removeConn_same i c p). split; try done. intros j Hj. rewrite so_states0; [done|congruence].
Qed.
Lemma quiet_set_connect k co n p : quiet p (set_connect k co n p).
Proof. by split. Qed.
#[local] Hint Resolve quiet_refl quiet_removeConn quiet_set_connect : core.

Lemma pool_update i f p : pool_ok p -> state_ok (p_mode p) (f (p_states p i)) -> pool_ok (update_state i f p).
Proof.
  intros H Hf j. cbn. destruct (decide (j = i)) as [->|Hne]; [by rewrite fn_lookup_insert|]. rewrite fn_lookup_insert_ne by done. apply H.
Qed.
Lemma pool_remove i c p : pool_ok p -> pool_ok (removeConn i c p).
Proof.
  intros H j. destruct (removeConn_same i c p). destruct (decide (j = i)) as [->|Hne].
  - rewrite so_mode0. apply removeConn_removed, H.
  - rewrite so_states0, so_mode0 by done. apply H.
Qed.

Lemma cur_update i f p : p_state p = Some i -> cur (update_state i f p) = st_all (f (p_states p i)).
Proof. intros H. unfold cur, cur_state. cbn [p_state update_state]. rewrite H. by rewrite update_state_eq. Qed.
Lemma cur_some i p : p_state p = Some i -> cur p = st_all (p_states p i).
Proof. intros H. unfold cur, cur_state. by rewrite H. Qed.
Lemma cur_removeConn i c p : pool_ok p -> p_state p = Some i -> cur (removeConn i c p) = cur p ∖ {[c]}.
Proof.
  intros Hok H. rewrite (cur_some i p H), (cur_some i). 2: by rewrite (so_state _ _ _ (removeConn_same i c p)). apply re_all with (p_mode p), removeConn_removed, Hok.
Qed.
Lemma cur_quiet_old p p' : quiet p p' -> p_state p = None -> cur p' = cur p.
Proof. intros [_ [H _] _ _ _] Hn. unfold cur, cur_state. by rewrite H, Hn. Qed.

(** The facts of a critical section. *)
Lemma facts_quiet p t p' t' sp :
  quiet p p' -> pool_ok p' -> thread_ok (p_mode p) t' -> Forall (thread_ok (p_mode p)) sp -> closing_state t' = None -> pending t' = [] ->
  (forall u, u ∈ sp -> pending u = [] /\ toclose p' u = ∅ /\ closing_state u = None /\ forall c, c ∈ held u -> c ∈ held t \/ c ∈ cur p') ->
  (forall c, c ∈ cur p' -> c ∈ cur p \/ c ∈ pending t) ->
  (forall c, c ∈ toclose p' t' -> c ∈ toclose p t \/ ((c ∈ cur p \/ c ∈ held t \/ c ∈ pending t) /\ c ∉ cur p')) ->
  (forall c, c ∈ held t' -> c ∈ held t \/ c ∈ cur p') ->
  (forall c, c ∈ cur p \/ c ∈ toclose p t \/ c ∈ pending t -> c ∈ cur p' \/ c ∈ toclose p' t') ->
  step_facts p t p' t' sp.
Proof.
  intros [Hm Hs Hd Hc Ho] Hok Ht Hsp Hcs Hp Hu Hcur Htc Hh Hl. split; auto.
  - rewrite Hc. done.
  - rewrite Hc. auto.
  - intros c H. destruct (Htc c H); auto.
  - rewrite Hp. intros c H. by apply elem_of_nil in H.
  - intros c H. unfold new in H. rewrite Hd in H. assert (c ∈ cur p \/ c ∈ toclose p t \/ c ∈ pending t) as H' by (destruct H as [?|[?|[?|?]]]; auto; lia).
    destruct (Hl c H'); auto.
Qed.

(** Sets of connections, by their elements. *)
Ltac conn_sets :=
  intros; set_unfold;
  try match goal with |- context [?c <> ?d] => destruct (decide (c = d)) end; naive_solver.
Ltac conn_sets_only :=
  repeat match goal with
         | H : ?T |- _ => lazymatch T with _ ∈ _ => fail | _ ∉ _ => fail | _ => clear H end
         end; conn_sets.
(** The facts of a critical section, up to the pool and its sets. *)
Ltac section_facts := apply facts_quiet; [| |try done|try apply List.Forall_nil|done|done|try (intros u Hu; by apply elem_of_nil in Hu)| | | |].

Lemma facts_same p t t' :
  pool_ok p -> thread_ok (p_mode p) t' -> closing_state t' = None -> pending t' = [] -> pending t = [] -> toclose p t = ∅ ->
  (forall c, c ∈ toclose p t' -> c ∈ held t /\ c ∉ cur p) -> (forall c, c ∈ held t' -> c ∈ held t \/ c ∈ cur p) ->
  step_facts p t p t' [].
Proof.
  intros Hok Ht Hcs Hp Hpt Htt Htc Hh. section_facts; auto; rewrite ?Hpt, ?Htt; try conn_sets.
Qed.

Lemma Release_facts conn b reuse alive p p' t' sp : pool_ok p ->
  Release conn reuse alive p = Some (p', t', sp) -> step_facts p (Acquired (Ok (conn, b))) p' t' sp.
Proof.
  intros Hok H. unfold Release, goes in H. destruct (p_state p) as [i|] eqn:Hi.
  2:{ injection H as <- <- <-. apply facts_same; auto; unfold cur, cur_state; rewrite ?Hi; conn_sets_only. }
  case_bool_decide as Ht. { injection H as <- <- <-. apply facts_same; auto; rewrite ?(cur_some i p Hi); conn_sets_only. }
  destruct (negb reuse || negb alive).
  { injection H as <- <- <-. section_facts; auto using pool_remove; rewrite ?cur_removeConn by done; conn_sets_only. }
  destruct (p_mode p) eqn:Em; [injection H as <- <- <-; apply facts_same; auto; conn_sets_only|].
  case_bool_decide as He; injection H as <- <- <-; [|by apply facts_same; auto; conn_sets_only].
  destruct (Hok i) as [Hnd Hel Hid Hsh Hm]. section_facts; rewrite ?(cur_update i), ?(cur_some i p) by done; try conn_sets_only.
  - apply quiet_update; auto.
  - apply pool_update; [done|]. split; cbn; auto.
    + apply NoDup_app. split; [done|]. split; [|apply NoDup_singleton]. intros c Hc ->%list_elem_of_singleton. rewrite Hel, elem_of_list_to_set in He. done.
    + rewrite Hel, list_to_set_app_L. set_solver.
    + intros c. rewrite elem_of_app, list_elem_of_singleton. intros [Hc| ->]; auto.
    + by rewrite Em in Hm |- *.
Qed.

Lemma Invalidate_facts conn b p p' t' sp : pool_ok p ->
  Invalidate conn p = Some (p', t', sp) -> step_facts p (Acquired (Ok (conn, b))) p' t' sp.
Proof.
  intros Hok H. unfold Invalidate, goes in H. destruct (p_state p) as [i|] eqn:Hi.
  2:{ injection H as <- <- <-. apply facts_same; auto; unfold cur, cur_state; rewrite ?Hi; conn_sets_only. }
  case_bool_decide as Ht; injection H as <- <- <-; [apply facts_same; auto; conn_sets_only|].
  section_facts; auto using pool_remove; rewrite ?cur_removeConn by done; conn_sets_only.
Qed.

Lemma acquireOrdered_facts alive p p' t' sp : pool_ok p -> p_mode p = ConnPoolOrdered ->
  acquireOrdered alive p = Some (p', t', sp) -> step_facts p OStart p' t' sp.
Proof.
  intros Hok Em H. unfold acquireOrdered, goes in H. destruct (p_state p) as [i|] eqn:Hi; [|injection H as <- <- <-; apply facts_same; auto; conn_sets_only].
  destruct (st_idle (p_states p i)) as [|c rest] eqn:Hidle; [injection H as <- <- <-; apply facts_same; auto; conn_sets_only|].
  destruct (Hok i) as [Hnd Hel Hid Hsh Hm]. rewrite Hidle in *. apply NoDup_cons in Hnd as [Hnc Hnd].
  assert (st_idleElements (p_states p i) ∖ {[c]} = list_to_set rest) as Hel' by (rewrite Hel; cbn; set_solver).
  assert (c ∈ st_all (p_states p i)) as Hc by (apply Hid; by left).
  assert (forall d, d ∈ rest -> d ∈ st_all (p_states p i) /\ d <> c) as Hr by (intros d Hd; split; [apply Hid; by right|congruence]).
  set (q := update_state i (fun s => set_idle rest (st_idleElements s ∖ {[c]}) s) p) in *.
  assert (pool_ok q) as Hq. { apply pool_update; [done|]. split; cbn; auto; [intros d Hd; by apply Hr|]. by rewrite Em in Hm |- *. }
  assert (quiet p q) as Hpq by (apply quiet_update; auto).
  assert (cur q = cur p) as Hcq by (unfold q; rewrite (cur_update i) by done; by rewrite (cur_some i p)).
  destruct alive; injection H as <- <- <-.
  - section_facts; auto; rewrite ?Hcq; try conn_sets_only. intros d ->%list_elem_of_singleton. right. by rewrite (cur_some i p).
  - assert (p_state q = Some i) as Hqi by done.
    assert (p_states q i = set_idle rest (st_idleElements (p_states p i) ∖ {[c]}) (p_states p i)) as Eq by (unfold q; by rewrite update_state_eq).
    section_facts; rewrite ?(cur_update i _ q Hqi), ?(cur_some i p Hi), ?Eq; cbn; try conn_sets_only.
    + eapply quiet_trans; [exact Hpq|]. apply quiet_update; auto.
    + apply pool_update; [done|]. rewrite Eq. split; cbn; auto; [|intros d Hd; specialize (Hsh d Hd); by rewrite Em in Hm; congruence|by rewrite Em in Hm |- *].
      intros d [Hd Hne]%Hr. set_solver.
Qed.

Lemma installOrdered_facts i conn p p' t' sp : pool_ok p -> p_mode p = ConnPoolOrdered -> conn ∉ cur p ->
  installOrdered i conn p = Some (p', t', sp) -> step_facts p (OInstall i conn) p' t' sp.
Proof.
  intros Hok Em Hn H. unfold installOrdered, goes in H. case_bool_decide as Hi; injection H as <- <- <-.
  - destruct (Hok i) as [Hnd Hel Hid Hsh Hm]. section_facts; rewrite ?(cur_update i), ?(cur_some i p) by done; cbn; try conn_sets_only.
    + apply quiet_update; auto.
    + apply pool_update; [done|]. split; cbn; auto; intros d Hd; apply elem_of_union; right; auto.
  - section_facts; auto; try conn_sets_only.
Qed.

Lemma claim_facts i conn t p p' t' sp : pool_ok p -> p_mode p = ConnPoolSingle -> p_state p = Some i -> st_shared (p_states p i) = Some conn ->
  pending t = [] -> toclose p t = ∅ -> claim i conn p = Some (p', t', sp) -> step_facts p t p' t' sp.
Proof.
  intros Hok Em Hi Hs Hp Hc H. unfold claim, goes in H. injection H as <- <- <-. destruct (Hok i) as [Hnd Hel Hid Hsh Hm].
  section_facts; rewrite ?(cur_update i), ?(cur_some i p), ?Hp, ?Hc by done; cbn; try conn_sets_only.
  - apply quiet_update; auto.
  - apply pool_update; [done|]. split; cbn; auto; [naive_solver|by rewrite Em in Hm |- *].
  - intros d ->%list_elem_of_singleton. auto.
Qed.

Lemma remove_shared_facts i conn t p : pool_ok p -> p_mode p = ConnPoolSingle -> p_state p = Some i -> st_shared (p_states p i) = Some conn ->
  pending t = [] -> toclose p t = ∅ -> step_facts p t (removeConn i conn p) (SClose conn) [].
Proof.
  intros Hok Em Hi Hs Hp Hc. assert (conn ∈ cur p) as Hin by (rewrite (cur_some i p Hi); by apply (shared_tracked _ _ (Hok i))).
  section_facts; auto using pool_remove; rewrite ?cur_removeConn, ?Hp, ?Hc by done; conn_sets_only.
Qed.

Lemma acquireShared_facts alive p p' t' sp : pool_ok p -> p_mode p = ConnPoolSingle ->
  acquireShared alive p = Some (p', t', sp) -> step_facts p SStart p' t' sp.
Proof.
  intros Hok Em H. unfold acquireShared in H. destruct (p_state p) as [i|] eqn:Hi; [|injection H as <- <- <-; apply facts_same; auto; conn_sets_only].
  destruct (st_shared (p_states p i)) as [c|] eqn:Hs.
  { destruct alive; [by apply (claim_facts i c)|]. injection H as <- <- <-. by apply remove_shared_facts. }
  destruct (st_connecting (p_states p i)) as [k|]; [injection H as <- <- <-; apply facts_same; auto; conn_sets_only|].
  injection H as <- <- <-. set (q := update_state i _ p).
  assert (quiet p q) as Hq by (apply quiet_update; by left). assert (pool_ok q) as Hqo by (apply pool_update; [done|]; destruct (Hok i); by split).
  assert (cur (set_connect (p_nextConnect p) (mkConnect false None) (S (p_nextConnect p)) q) = cur p) as Hc.
  { change (cur q = cur p). unfold q. rewrite (cur_update i), (cur_some i p) by done. done. }
  section_facts; rewrite ?Hc; try conn_sets_only.
  - eapply quiet_trans; [exact Hq|]. auto.
  - exact Hqo.
  - by apply Forall_singleton.
  - intros u ->%list_elem_of_singleton. split_and!; try done. conn_sets_only.
Qed.

Lemma collectShared_facts i k b alive p p' t' sp : pool_ok p -> p_mode p = ConnPoolSingle ->
  collectShared i k b alive p = Some (p', t', sp) -> step_facts p (SWait i k b) p' t' sp.
Proof.
  intros Hok Em H. unfold collectShared, goes in H. destruct (co_err _) as [e|].
  { destruct b; injection H as <- <- <-; apply facts_same; auto; conn_sets_only. }
  case_bool_decide as Hi; [|injection H as <- <- <-; apply facts_same; auto; conn_sets_only].
  destruct (st_shared (p_states p i)) as [c|] eqn:Hs; [|injection H as <- <- <-; apply facts_same; auto; conn_sets_only].
  destruct alive; [by apply (claim_facts i c)|]. injection H as <- <- <-. by apply remove_shared_facts.
Qed.

Lemma installShared_facts i k r p p' t' sp : pool_ok p -> p_mode p = ConnPoolSingle -> (forall c, r = Ok c -> c ∉ cur p) ->
  installShared i k r p = Some (p', t', sp) -> step_facts p (CInstall i k r) p' t' sp.
Proof.
  intros Hok Em Hn H. unfold installShared, goes in H. set (q := update_state i (set_connecting None) p) in *.
  assert (quiet p q) as Hq by (apply quiet_update; by right). assert (pool_ok q) as Hqo by (apply pool_update; [done|]; destruct (Hok i); by split).
  assert (cur q = cur p) as Hcq.
  { destruct (p_state p) as [j|] eqn:Hj; [|by apply cur_quiet_old]. rewrite (cur_some j q), (cur_some j p) by done. unfold q.
    destruct (decide (i = j)) as [->|Hne]; [by rewrite update_state_eq|by rewrite update_state_ne]. }
  destruct r as [c|e|]; [|injection H as <- <- <-; change (cur q = cur p) in Hcq; section_facts; try (change (cur (set_connect _ _ _ q)) with (cur q); rewrite ?Hcq); try conn_sets_only; [eapply quiet_trans; [exact Hq|auto]|done]|done].
  specialize (Hn c eq_refl). case_bool_decide as Hi; injection H as <- <- <-.
  - assert (p_states q i = set_connecting None (p_states p i)) as Eq by (unfold q; by rewrite update_state_eq).
    destruct (Hqo i) as [Hnd Hel Hid Hsh Hm]. section_facts; rewrite ?(cur_update i _ q Hi), <- ?Hcq, ?(cur_some i q Hi); cbn; try conn_sets_only.
    + eapply quiet_trans; [exact Hq|]. apply quiet_update; auto.
    + apply pool_update; [done|]. split; cbn; auto; [intros d Hd; apply elem_of_union; right; auto| |].
      * intros d [= ->]. set_solver.
      * change (p_mode q) with (p_mode p) in *. by rewrite Em in Hm |- *.
  - section_facts; try (change (cur (set_connect _ _ _ q)) with (cur q); rewrite ?Hcq); try conn_sets_only; [eapply quiet_trans; [exact Hq|auto]|done].
Qed.

(** A step that closes connections. *)
Lemma facts_closing p t p' t' :
  pool_ok p' -> thread_ok (p_mode p) t' -> p_mode p' = p_mode p /\ p_maxInflight p' = p_maxInflight p ->
  p_state p' = p_state p /\ p_nextState p' = p_nextState p -> (forall j, st_all (p_states p' j) = st_all (p_states p j)) -> p_dialed p' = p_dialed p ->
  (exists C, p_closedConns p' = C ∪ p_closedConns p /\ C ∪ toclose p' t' = toclose p t) ->
  pending t = [] -> pending t' = [] -> closing_state t' = None -> (forall c, c ∈ held t' -> c ∈ held t \/ c ∈ cur p) ->
  step_facts p t p' t' [].
Proof.
  intros Hok Ht Hm [Hs Hns] Hall Hd (C & HC & Htc) Hp Hp' Hcs Hh.
  assert (cur p' = cur p) as Hcur by (unfold cur, cur_state; rewrite Hs; destruct (p_state p); [apply Hall|done]).
  split; auto; rewrite ?Hp, ?Hp', ?Hcur, ?HC, <- ?Htc; unfold new; rewrite ?Hd; try exact Hh; clear; try conn_sets. intros c H.
  assert (~ (p_dialed p <= c < p_dialed p)%nat) by lia. set_solver.
Qed.

Lemma facts_dialed p t p' t' :
  pool_ok p -> thread_ok (p_mode p) t' -> (p' = dialed p \/ p' = closeConn (p_dialed p) (dialed p)) -> toclose p t = ∅ -> held t' = [] ->
  pending t = [] -> closing_state t' = None ->
  (p' = dialed p /\ toclose p' t' = ∅ /\ pending t' = [p_dialed p] \/ pending t' = [] /\ (toclose p' t' = {[p_dialed p]} \/ toclose p' t' = ∅ /\ p_dialed p ∈ p_closedConns p')) ->
  step_facts p t p' t' [].
Proof.
  intros Hok Ht Hp' Htc Hh Hp Hcs Hcase.
  assert (p_mode p' = p_mode p /\ p_maxInflight p' = p_maxInflight p /\ p_state p' = p_state p /\ p_nextState p' = p_nextState p /\ p_states p' = p_states p /\ p_dialed p' = S (p_dialed p))
    as (H1 & H2 & H3 & H4 & H5 & H6) by (destruct Hp' as [-> | ->]; done).
  assert (cur p' = cur p) as Hcur by (unfold cur, cur_state; by rewrite H3, H5).
  assert (forall c, new p p' c <-> c = p_dialed p) as Hnew by (intros c; unfold new; rewrite H6; lia).
  split; auto; rewrite ?Hcur; rewrite ?Htc, ?Hp, ?Hh.
  - intros i. rewrite H1, H5. apply Hok.
  - intros j Hj. by rewrite H5.
  - destruct Hp' as [-> | ->]; cbn; [done|]. set_solver.
  - intros c. rewrite Hnew. destruct Hp' as [-> | ->]; cbn; set_solver.
  - set_solver.
  - intros c. rewrite Hnew. destruct Hcase as [(_ & -> & _)|(_ & [-> |[-> _]])]; set_solver.
  - intros c. rewrite Hnew. destruct Hcase as [(-> & _ & ->)|(-> & _)]; [|set_solver]. intros ->%list_elem_of_singleton. done.
  - set_solver.
  - set_solver.
  - intros c. rewrite Hnew. destruct Hcase as [(_ & -> & ->)|(-> & [-> |[-> Hne]])]; [set_solver..|]. intros [?|[?|[?| ->]]]; set_solver.
Qed.

Lemma closeConn_toclose c p t t' : toclose p t = {[c]} -> pending t = [] -> pool_ok p -> thread_ok (p_mode p) t' -> pending t' = [] -> held t' = [] -> toclose p t' = ∅ ->
  closing_state t' = None -> step_facts p t (closeConn c p) t' [].
Proof.
  intros Hc Hp Hok Ht Hp' Hh Hc' Hcs. apply facts_closing; auto; [|rewrite Hh; conn_sets_only]. exists {[c]}. split; [done|]. rewrite Hc.
  assert (toclose (closeConn c p) t' = toclose p t') as -> by (by destruct t'). rewrite Hc'. set_solver.
Qed.

Lemma pool_releaseSlot p : pool_ok p -> pool_ok (releaseSlot p).
Proof. intros H. unfold releaseSlot. by destruct (hasSem p). Qed.

Lemma thread_step_facts c t p p' t' sp :
  pool_ok p -> thread_ok (p_mode p) t -> (forall d, d ∈ pending t -> d ∉ cur p) -> thread_step c t p = Some (p', t', sp) -> step_facts p t p' t' sp.
Proof.
  intros Hok Ht Hpend H. destruct t, c; cbn [thread_step] in H; unfold acquireSlot, dialOrdered, waitShared, dialShared, finishShared, closeState, closeNext, callerStep in H; try done; try (by destruct r as [[]| |]); cbn [thread_ok] in Ht; unfold goes in H.
  - by eapply acquireOrdered_facts.
  - injection H as <- <- <-. by apply closeConn_toclose.
  - destruct (negb (hasSem p)); [injection H as <- <- <-; apply facts_same; auto; conn_sets_only|].
    destruct (_ <? _); [|done]. injection H as <- <- <-. section_facts; try done; conn_sets_only.
  - destruct (hasSem p); [|done]. injection H as <- <- <-; apply facts_same; auto; conn_sets_only.
  - destruct (_ && _); [|done]. injection H as <- <- <-; apply facts_same; auto; conn_sets_only.
  - destruct err as [e|]; [injection H as <- <- <-; apply facts_same; auto; conn_sets_only|].
    destruct (dialErr _ _ _); injection H as <- <- <-; apply facts_dialed; auto; cbn; auto 10.
  - apply installOrdered_facts; auto. apply Hpend. by left.
  - injection H as <- <- <-. apply facts_closing; try done.
    all: try (unfold releaseSlot; destruct (hasSem _); by destruct toClose).
    + unfold releaseSlot. destruct (hasSem _), toClose as [c|]; cbn; [exists {[c]}|exists ∅|exists {[c]}|exists ∅]; set_solver.
    + destruct toClose, r as [[]| |]; [done|..]; conn_sets_only.
  - by eapply acquireShared_facts.
  - injection H as <- <- <-. by apply closeConn_toclose.
  - destruct (co_done _); [|done]. by eapply collectShared_facts.
  - injection H as <- <- <-; apply facts_same; auto; conn_sets_only.
  - destruct (st_cancelled _); [|done]. injection H as <- <- <-; destruct (p_closed p); apply facts_same; auto; conn_sets_only.
  - destruct err as [e|]; [injection H as <- <- <-; apply facts_same; auto; conn_sets_only|].
    destruct (dialErr _ _ _); injection H as <- <- <-; apply facts_dialed; auto; cbn; auto 10. right. split; [done|]. right. split; [done|]. set_solver.
  - apply installShared_facts; auto. intros d ->. apply Hpend. by left.
  - injection H as <- <- <-. apply facts_closing; try done.
    all: try (by destruct toClose).
    + destruct toClose as [c|]; cbn; [exists {[c]}|exists ∅]; set_solver.
    + destruct toClose; cbn; conn_sets_only.
  - destruct r as [[c b]| |]; [|done..]. by eapply Release_facts.
  - destruct r as [[c b]| |]; [|done..]. by eapply Invalidate_facts.
  - destruct r as [[c b]| |]; [|done..]. destruct (p_mode p) eqn:Em; [|done]. injection H as <- <- <-.
    section_facts; try done; try conn_sets_only; rewrite ?Em; [by apply Forall_singleton|]. intros u ->%list_elem_of_singleton. split_and!; try done. conn_sets_only.
  - injection H as <- <- <-. by apply closeConn_toclose.
  - injection H as <- <- <-. assert (forall j, st_all (p_states (update_state state (set_cancelled true) p) j) = st_all (p_states p j)) as Hall.
    { intros j. destruct (decide (state = j)) as [->|Hne]; [by rewrite update_state_eq|by rewrite update_state_ne]. }
    apply facts_closing; try done.
    + apply pool_update; [done|]. destruct (Hok state); by split.
    + exists ∅. cbn. set_solver.
    + conn_sets_only.
  - case_bool_decide as Hc; [|done]. injection H as <- <- <-. apply facts_closing; try done; [|conn_sets_only].
    subst todo. exists ∅. cbn. set_solver.
  - case_bool_decide as Hc; [|done]. injection H as <- <- <-. apply facts_closing; try done; [|conn_sets_only].
    exists {[conn]}. split; [done|]. cbn. apply set_eq. intros d. destruct (decide (d = conn)); set_solver.
Qed.

(** ** No connection is lost *)

Definition involves (p : ConnPool) (t : thread) (c : nat) : Prop := c ∈ held t \/ c ∈ toclose p t \/ c ∈ pending t.

Record accounted (s : system) : Prop := {
  a_pool : pool_ok (s_pool s);
  a_threads : forall n t, s_threads s !! n = Some t -> thread_ok (p_mode (s_pool s)) t;
  a_current : forall i, p_state (s_pool s) = Some i -> (i < p_nextState (s_pool s))%nat;
  a_closing : forall n t i, s_threads s !! n = Some t -> closing_state t = Some i -> (i < p_nextState (s_pool s))%nat /\ p_state (s_pool s) <> Some i;
  a_bound : forall n t c, s_threads s !! n = Some t -> involves (s_pool s) t c -> (c < p_dialed (s_pool s))%nat;
  a_bound_pool : forall c, c ∈ cur (s_pool s) \/ c ∈ p_closedConns (s_pool s) -> (c < p_dialed (s_pool s))%nat;
  a_cur_open : forall c, c ∈ cur (s_pool s) -> c ∉ p_closedConns (s_pool s);
  a_cur : forall n t c, s_threads s !! n = Some t -> c ∈ cur (s_pool s) -> c ∉ toclose (s_pool s) t /\ c ∉ pending t;
  a_pending_open : forall n t c, s_threads s !! n = Some t -> c ∈ pending t -> c ∉ p_closedConns (s_pool s);
  a_pending : forall n t c m u, s_threads s !! n = Some t -> c ∈ pending t -> s_threads s !! m = Some u -> involves (s_pool s) u c -> m = n;
  a_leak : forall c, (c < p_dialed (s_pool s))%nat -> c ∈ p_closedConns (s_pool s) \/ c ∈ cur (s_pool s) \/
             exists n t, s_threads s !! n = Some t /\ (c ∈ toclose (s_pool s) t \/ c ∈ pending t)
}.

Lemma initial_accounted mode maxInflight : accounted (initial mode maxInflight).
Proof. split; cbn; try done; try lia; try set_solver; try (intros i; apply newConnPoolState_ok); naive_solver lia. Qed.

(** The goroutines after a step of the [n]-th one. *)
Lemma threads_after (ts sp : list thread) n t t' m u : ts !! n = Some t -> (<[n := t']> ts ++ sp) !! m = Some u ->
  m = n /\ u = t' \/ m <> n /\ ts !! m = Some u \/ (length ts <= m)%nat /\ u ∈ sp.
Proof.
  intros Hn. rewrite lookup_app_Some, length_insert. intros [H|[Hl H]].
  - destruct (decide (m = n)) as [->|Hne]; [|rewrite list_lookup_insert_ne in H by done; auto].
    rewrite list_lookup_insert_eq in H by (by eapply lookup_lt_Some). left. naive_solver.
  - right. right. split; [done|]. by eapply list_elem_of_lookup_2.
Qed.
Lemma threads_self (ts sp : list thread) n t t' : ts !! n = Some t -> (<[n := t']> ts ++ sp) !! n = Some t'.
Proof. intros Hn. rewrite lookup_app_l by (rewrite length_insert; by eapply lookup_lt_Some). apply list_lookup_insert_eq. by eapply lookup_lt_Some. Qed.
Lemma threads_other (ts sp : list thread) n t' m u : ts !! m = Some u -> m <> n -> (<[n := t']> ts ++ sp) !! m = Some u.
Proof. intros Hm Hne. rewrite lookup_app_l by (rewrite length_insert; by eapply lookup_lt_Some). by rewrite list_lookup_insert_ne. Qed.
Lemma threads_spawned (ts sp : list thread) n t' u : u ∈ sp -> exists m, (<[n := t']> ts ++ sp) !! m = Some u.
Proof. intros [k Hk]%list_elem_of_lookup_1. exists (length ts + k)%nat. rewrite lookup_app_r, length_insert by (rewrite length_insert; lia). by replace (length ts + k - length ts)%nat with k by lia. Qed.

(** Other goroutines mean to close what they meant to. *)
Lemma toclose_other p t p' t' sp u : step_facts p t p' t' sp -> (forall i, closing_state u = Some i -> p_state p <> Some i) -> toclose p' u = toclose p u.
Proof. intros F H. destruct u as [| | | | |[]| | | | | |? []| | |i| |]; try done. cbn. apply (f_old _ _ _ _ _ F). by apply H. Qed.

Lemma spawned_closing p t p' t' sp u i : step_facts p t p' t' sp -> u = t' \/ u ∈ sp -> closing_state u <> Some i.
Proof. intros F [-> |Hu]; [by rewrite (f_closing _ _ _ _ _ F)|]. destruct (f_spawn _ _ _ _ _ F u Hu) as (_ & _ & -> & _). done. Qed.

Section Step.
Context (s : system) (A : accounted s) (n : nat) (t : thread) (Hn : s_threads s !! n = Some t).
Context (p' : ConnPool) (t' : thread) (sp : list thread) (F : step_facts (s_pool s) t p' t' sp).
Notation p := (s_pool s).

(** Who is involved with a connection after the step: for another goroutine
    nothing changes, and the goroutines it starts only hold connections. *)
Lemma other_involves m u c : s_threads s !! m = Some u -> involves p' u c -> involves p u c.
Proof. intros Hm. unfold involves. rewrite (toclose_other _ _ _ _ _ _ F); [done|]. intros i Hi. by eapply (a_closing s A). Qed.

Lemma spawned_involves u c : u ∈ sp -> involves p' u c -> c ∈ held t \/ c ∈ cur p'.
Proof. intros Hu. destruct (f_spawn _ _ _ _ _ F u Hu) as (Hp & Hc & _ & Hh). unfold involves. rewrite Hp, Hc. set_solver. Qed.

Lemma self_involves c : involves p' t' c -> involves p t c \/ c ∈ cur p \/ new p p' c.
Proof.
  intros [H|[H|H]].
  - destruct (f_held _ _ _ _ _ F c H) as [?|Hc]; [left; by left|]. destruct (f_cur _ _ _ _ _ F c Hc); unfold involves; auto.
  - destruct (f_toclose _ _ _ _ _ F c H) as [?|[[[?|[?|?]] _]|?]]; unfold involves; auto.
  - destruct (f_pending _ _ _ _ _ F c H); auto.
Qed.

Lemma dialed_grows : (p_dialed p <= p_dialed p')%nat.
Proof. destruct (f_dialed _ _ _ _ _ F); lia. Qed.

Lemma self_bound c : involves p t c \/ c ∈ cur p \/ new p p' c -> (c < p_dialed p')%nat.
Proof.
  pose proof dialed_grows. intros [H1|[H1|H1]]; [|..|unfold new in H1; lia].
  - pose proof (a_bound s A n t c Hn H1). lia.
  - pose proof (a_bound_pool s A c (or_introl H1)). lia.
Qed.

(** A connection in the pool after the step is not being closed. *)
Lemma cur_after c : c ∈ cur p' -> c ∉ p_closedConns p' /\ c ∉ toclose p' t' /\ c ∉ pending t' /\ (c < p_dialed p)%nat
  /\ forall m u, m <> n -> s_threads s !! m = Some u -> c ∉ toclose p u /\ c ∉ pending u.
Proof.
  intros Hc.
  assert ((c < p_dialed p)%nat /\ c ∉ p_closedConns p /\ c ∉ toclose p t /\ forall m u, m <> n -> s_threads s !! m = Some u -> c ∉ toclose p u /\ c ∉ pending u)
    as (Hb & Ho & Ht & Hu).
  { destruct (f_cur _ _ _ _ _ F c Hc) as [H|H].
    - split; [apply (a_bound_pool s A); auto|]. split; [by apply (a_cur_open s A)|]. split; [by apply (a_cur s A n t c)|]. intros m u _ Hm. by apply (a_cur s A m u c).
    - split; [apply (a_bound s A n t c Hn); by right; right|]. split; [by apply (a_pending_open s A n t c)|]. split.
      + destruct t as [| | | | |[]| | | | |? ? []| | | | | |]; try (by apply elem_of_nil in H); set_solver.
      + intros m u Hne Hm. split; intros Hin; apply Hne, (a_pending s A n t c m u); unfold involves; auto. }
  split_and!; [| | |done|done].
  - intros H. destruct (f_closed _ _ _ _ _ F c H) as [?|[?|H']]; try done. unfold new in H'. lia.
  - intros H. destruct (f_toclose _ _ _ _ _ F c H) as [?|[[_ ?]|H']]; try done. unfold new in H'. lia.
  - intros H. destruct (f_pending _ _ _ _ _ F c H) as [H' _]. unfold new in H'. lia.
Qed.

Lemma pending_after m u c k w : (<[n := t']> (s_threads s) ++ sp) !! m = Some u -> c ∈ pending u ->
  (<[n := t']> (s_threads s) ++ sp) !! k = Some w -> involves p' w c -> k = m.
Proof.
  intros Hm Hc Hk Hw. destruct (threads_after _ _ _ _ _ _ _ Hn Hm) as [[-> ->]|[[Hne Hu]|[_ Hu]]].
  + destruct (f_pending _ _ _ _ _ F c Hc) as [H1 H2]. destruct (threads_after _ _ _ _ _ _ _ Hn Hk) as [[-> _]|[[_ Hw']|[_ Hw']]]; [done| |].
    * pose proof (a_bound s A k w c Hw' (other_involves k w c Hw' Hw)). unfold new in H1. lia.
    * destruct (spawned_involves w c Hw' Hw) as [Hh|Hh]; unfold new in H1.
      -- pose proof (a_bound s A n t c Hn (or_introl Hh)). lia.
      -- destruct (cur_after c Hh) as (_ & _ & _ & ? & _). lia.
  + assert (c ∉ cur p) as Hnc by (intros Hcur; by apply (a_cur s A m u c)).
    assert (~ involves p t c) as Hni by (intros Hi; apply Hne; symmetry; by apply (a_pending s A m u c n t)).
    assert (~ new p p' c) as Hnn. { intros H. pose proof (a_bound s A m u c Hu (or_intror (or_intror Hc))). unfold new in H. lia. }
    destruct (threads_after _ _ _ _ _ _ _ Hn Hk) as [[-> ->]|[[_ Hw']|[_ Hw']]].
    * by destruct (self_involves c Hw) as [?|[?|?]].
    * apply (a_pending s A m u c k w); auto. by eapply other_involves.
    * destruct (spawned_involves w c Hw' Hw) as [Hh|Hh]; [destruct Hni; by left|]. destruct (f_cur _ _ _ _ _ F c Hh); [done|]. destruct Hni. by right; right.
  + destruct (f_spawn _ _ _ _ _ F u Hu) as (Hp & _). rewrite Hp in Hc. by apply elem_of_nil in Hc.
Qed.

Lemma leak_after c : (c < p_dialed p')%nat -> c ∈ p_closedConns p' \/ c ∈ cur p' \/
  exists m u, (<[n := t']> (s_threads s) ++ sp) !! m = Some u /\ (c ∈ toclose p' u \/ c ∈ pending u).
Proof.
  intros Hc.
  assert (c ∈ cur p \/ c ∈ toclose p t \/ c ∈ pending t \/ new p p' c -> c ∈ p_closedConns p' \/ c ∈ cur p' \/
           exists m u, (<[n := t']> (s_threads s) ++ sp) !! m = Some u /\ (c ∈ toclose p' u \/ c ∈ pending u)) as Hself.
  { intros H. destruct (f_leak _ _ _ _ _ F c H) as [?|[?|H']]; auto. right. right. exists n, t'. split; [by eapply threads_self|]. done. }
  destruct (decide (p_dialed p <= c)%nat) as [Hge|Hlt]; [apply Hself; right; right; right; by split|].
  destruct (a_leak s A c ltac:(lia)) as [H|[H|(m & u & Hm & Hu)]]; [left; by apply (f_closed_up _ _ _ _ _ F)|apply Hself; by left|].
  destruct (decide (m = n)) as [->|Hne]; [rewrite Hn in Hm; injection Hm as <-; apply Hself; tauto|].
  right. right. exists m, u. split; [by apply threads_other|]. rewrite (toclose_other _ _ _ _ _ u F); [done|]. intros i Hi. by eapply (a_closing s A).
Qed.

Lemma accounted_step created : accounted (mkSystem p' (<[n := t']> (s_threads s) ++ sp) created).
Proof.
  pose proof dialed_grows as Hg. destruct (f_state _ _ _ _ _ F) as [Hst Hns]. destruct (f_mode _ _ _ _ _ F) as [Hmode _]. destruct (f_thread _ _ _ _ _ F) as [Ht' Hsp].
  split; cbn [s_pool s_threads s_created].
  - apply (f_ok _ _ _ _ _ F).
  - intros m u Hm. rewrite Hmode. destruct (threads_after _ _ _ _ _ _ _ Hn Hm) as [[_ ->]|[[_ Hu]|[_ Hu]]]; [done|by eapply (a_threads s A)|]. by eapply Forall_forall.
  - intros i. rewrite Hst, Hns. apply (a_current s A).
  - intros m u i Hm Hi. rewrite Hst, Hns. destruct (threads_after _ _ _ _ _ _ _ Hn Hm) as [[_ ->]|[[_ Hu]|[_ Hu]]];
      [by destruct (spawned_closing _ _ _ _ _ t' i F (or_introl eq_refl))|by eapply (a_closing s A)|by destruct (spawned_closing _ _ _ _ _ u i F (or_intror Hu))].
  - intros m u c Hm Hi. destruct (threads_after _ _ _ _ _ _ _ Hn Hm) as [[_ ->]|[[_ Hu]|[_ Hu]]].
    + by apply self_bound, self_involves.
    + pose proof (a_bound s A m u c Hu (other_involves m u c Hu Hi)). lia.
    + destruct (spawned_involves u c Hu Hi) as [Hh|Hc]; [apply self_bound; left; by left|]. destruct (cur_after c Hc) as (_ & _ & _ & ? & _). lia.
  - intros c [Hc|Hc]; [destruct (cur_after c Hc) as (_ & _ & _ & ? & _); lia|].
    destruct (f_closed _ _ _ _ _ F c Hc) as [H|[H|H]]; [pose proof (a_bound_pool s A c (or_intror H)); lia| |unfold new in H; lia]. apply self_bound. left. by right; left.
  - intros c Hc. by apply cur_after.
  - intros m u c Hm Hc. destruct (cur_after c Hc) as (_ & H1 & H2 & _ & H3). destruct (threads_after _ _ _ _ _ _ _ Hn Hm) as [[_ ->]|[[Hne Hu]|[_ Hu]]]; [done| |].
    + rewrite (toclose_other _ _ _ _ _ u F); [by eapply H3|]. intros i Hi. by eapply (a_closing s A).
    + destruct (f_spawn _ _ _ _ _ F u Hu) as (-> & -> & _). set_solver.
  - intros m u c Hm Hc Hcl. destruct (threads_after _ _ _ _ _ _ _ Hn Hm) as [[_ ->]|[[Hne Hu]|[_ Hu]]].
    + destruct (f_pending _ _ _ _ _ F c Hc) as [H1 H2]. rewrite H2 in Hcl. pose proof (a_bound_pool s A c (or_intror Hcl)). unfold new in H1. lia.
    + destruct (f_closed _ _ _ _ _ F c Hcl) as [H|[H|H]].
      * by apply (a_pending_open s A m u c).
      * apply Hne. symmetry. apply (a_pending s A m u c n t); unfold involves; auto.
      * pose proof (a_bound s A m u c Hu (or_intror (or_intror Hc))). unfold new in H. lia.
    + destruct (f_spawn _ _ _ _ _ F u Hu) as (Hp & _). rewrite Hp in Hc. by apply elem_of_nil in Hc.
  - apply pending_after.
  - apply leak_after.
Qed.
End Step.

(** A call that starts a goroutine which is involved with no connection. *)
Lemma accounted_call s t : accounted s -> thread_ok (p_mode (s_pool s)) t -> closing_state t = None -> (forall c, ~ involves (s_pool s) t c) ->
  accounted (mkSystem (s_pool s) (s_threads s ++ [t]) (s_created s)).
Proof.
  intros A Hok Hcl Hni.
  assert (forall m u, (s_threads s ++ [t]) !! m = Some u -> s_threads s !! m = Some u \/ u = t) as Hl.
  { intros m u. rewrite lookup_app_Some. intros [?|[_ Hk]]; [by left|]. apply list_elem_of_lookup_2, list_elem_of_singleton in Hk. auto. }
  destruct A as [A1 A2 A3 A4 A5 A6 A7 A8 A9 A10 A11]. split; cbn [s_pool s_threads]; try done.
  - intros m u [H| ->]%Hl; eauto.
  - intros m u i [H| ->]%Hl; [eauto|]. rewrite Hcl. done.
  - intros m u c [H| ->]%Hl Hi; [eauto|]. by destruct (Hni c).
  - intros m u c [H| ->]%Hl Hc; [eauto|]. specialize (Hni c). unfold involves in Hni. tauto.
  - intros m u c [H| ->]%Hl Hc; [eauto|]. specialize (Hni c). unfold involves in Hni. tauto.
  - intros m u c k w [H| ->]%Hl Hc [H'| ->]%Hl Hi; [eauto|by destruct (Hni c)|specialize (Hni c); unfold involves in Hni; tauto..].
  - intros c [H|[H|(m & u & Hm & Hu)]]%A11; auto. right. right. exists m, u. split; [|done]. by apply lookup_app_l_Some.
Qed.

(** [Reset] and [Close]: the state that was current is left to be closed. *)
Lemma accounted_detach s i p' : accounted s -> p_state (s_pool s) = Some i -> pool_ok p' -> p_mode p' = p_mode (s_pool s) ->
  p_dialed p' = p_dialed (s_pool s) -> p_closedConns p' = p_closedConns (s_pool s) -> (p_nextState (s_pool s) <= p_nextState p')%nat ->
  (forall j, (j < p_nextState (s_pool s))%nat -> p_states p' j = p_states (s_pool s) j) -> cur p' = ∅ ->
  (forall j, p_state p' = Some j -> p_nextState (s_pool s) <= j < p_nextState p')%nat ->
  accounted (mkSystem p' (s_threads s ++ [CloseState i]) (s_created s)).
Proof.
  intros A Hi Hok Hm Hd Hc Hns Hst Hcur Hnew. set (p := s_pool s) in *. pose proof (a_current s A i Hi) as Hii. fold p in Hii.
  assert (forall m u, (s_threads s ++ [CloseState i]) !! m = Some u -> s_threads s !! m = Some u /\ toclose p' u = toclose p u \/ u = CloseState i) as Hl.
  { intros m u. rewrite lookup_app_Some. intros [Hu|[_ Hk]]; [|apply list_elem_of_lookup_2, list_elem_of_singleton in Hk; auto].
    left. split; [done|]. destruct u as [| | | | |[]| | | | | |? []| | |j| |]; try done. cbn. rewrite Hst; [done|]. by apply (a_closing s A m (CloseState j) j). }
  assert (toclose p' (CloseState i) = cur p) as Hcl by (cbn; rewrite Hst by done; by rewrite (cur_some i p Hi)).
  assert (forall c, involves p' (CloseState i) c -> c ∈ cur p) as Hin by (intros c [H|[H|H]]; [by apply elem_of_nil in H|by rewrite Hcl in H|by apply elem_of_nil in H]).
  destruct A as [A1 A2 A3 A4 A5 A6 A7 A8 A9 A10 A11]. fold p in A1, A2, A3, A4, A5, A6, A7, A8, A9, A10, A11.
  split; cbn [s_pool s_threads]; rewrite ?Hm, ?Hd, ?Hc, ?Hcur; try done; try (clear; set_solver).
  - intros m u [[H _]| ->]%Hl; [eauto|done].
  - intros j Hj. by apply Hnew.
  - intros m u j [[H _]| ->]%Hl Hj.
    + destruct (A4 m u j H Hj). split; [lia|]. intros Hx. specialize (Hnew j Hx). lia.
    + injection Hj as <-. split; [lia|]. intros Hx. specialize (Hnew i Hx). lia.
  - intros m u c [[H Ht]| ->]%Hl Hx; [unfold involves in Hx; rewrite Ht in Hx; eauto|]. apply A6. left. by apply Hin.
  - intros c [H|H]; [by apply not_elem_of_empty in H|auto].
  - intros m u c [[H Ht]| ->]%Hl Hx; [eauto|by apply elem_of_nil in Hx].
  - intros m u c k w [[H Ht]| ->]%Hl Hx Hk Hw; [|by apply elem_of_nil in Hx]. destruct (Hl _ _ Hk) as [[Hk' Htk]| ->].
    + unfold involves in Hw. rewrite Htk in Hw. eauto.
    + apply Hin in Hw. by destruct (A8 m u c H Hw).
  - intros c [H|[H|(m & u & Hu & Hx)]]%A11; auto; right; right.
    + exists (length (s_threads s)), (CloseState i). split; [by apply list_lookup_middle|]. left. by rewrite Hcl.
    + exists m, u. assert ((s_threads s ++ [CloseState i]) !! m = Some u) as Hm' by (by apply lookup_app_l_Some). split; [done|].
      destruct (Hl _ _ Hm') as [[_ ->]| ->]; [done|]. destruct (A4 m (CloseState i) i Hu eq_refl). done.
Qed.

Lemma accounted_sys_step e s s' : accounted s -> sys_step e s = Some s' -> accounted s'.
Proof.
  intros A H. destruct e as [| | |n c]; cbn [sys_step] in H.
  - injection H as <-. unfold Acquire. destruct (p_mode (s_pool s)) eqn:Em; apply accounted_call; try done; try (by rewrite Em); intros c [H|[H|H]]; set_solver.
  - unfold Reset in H. destruct (p_state (s_pool s)) as [i|] eqn:Hi; injection H as <-; [|rewrite app_nil_r; by destruct s].
    apply accounted_detach; try done; cbn; try lia.
    + apply pool_update; [apply (a_pool s A)|apply newConnPoolState_ok].
    + intros j Hj. by rewrite fn_lookup_insert_ne by lia.
    + unfold cur, cur_state. cbn. by rewrite fn_lookup_insert.
    + intros j [= <-]. lia.
  - unfold Close in H. destruct (p_state (s_pool s)) as [i|] eqn:Hi; injection H as <-; [|rewrite app_nil_r; by destruct s].
    apply accounted_detach; try done; apply (a_pool s A).
  - destruct (s_threads s !! n) as [t|] eqn:Hn; [|done]. destruct (thread_step c t (s_pool s)) as [[[p' t'] sp]|] eqn:Hs; [|done]. injection H as <-.
    eapply accounted_step; [done|done|]. eapply thread_step_facts; [apply (a_pool s A)|by eapply (a_threads s A)| |done].
    intros d Hd Hc. by destruct (a_cur s A n t d Hn Hc).
Qed.

Lemma run_ind (P : system -> Prop) : (forall e s s', P s -> sys_step e s = Some s' -> P s') -> forall evs s s', P s -> run evs s = Some s' -> P s'.
Proof.
  intros Hstep. induction evs as [|e evs IH]; intros s s' Hs Hr; cbn in Hr; [by injection Hr as <-|].
  destruct (sys_step e s) as [s1|] eqn:E; [|done]. by eapply IH; [eapply Hstep|].
Qed.
Lemma accounted_run evs s s' : accounted s -> run evs s = Some s' -> accounted s'.
Proof. apply run_ind. intros e s1 s2. apply accounted_sys_step. Qed.

(** A goroutine outside the pool. *)
Definition outside (t : thread) : bool := match t with Acquired _ | Finished => true | _ => false end.

(** C28: no connection is lost, whatever calls run at the same time.  In every
    run each connection dialed so far was closed, is tracked by the pool, or is
    in the hands of a goroutine that is about to put it into the pool or to
    close it; the connections the pool tracks, and so those it hands out, are
    not closed.  After [Close], as soon as no goroutine is inside the pool,
    every connection ever dialed was closed, also those callers still use. *)
Theorem pool_connections_accounted (mode : ConnPoolMode) (maxInflight : Z) (evs : list event) (s : system) :
  run evs (initial mode maxInflight) = Some s ->
  (forall conn, (conn < p_dialed (s_pool s))%nat ->
     conn ∈ p_closedConns (s_pool s) \/ conn ∈ cur (s_pool s) \/ exists t, t ∈ s_threads s /\ (conn ∈ toclose (s_pool s) t \/ conn ∈ pending t)) /\
  (forall conn, conn ∈ cur (s_pool s) -> conn ∉ p_closedConns (s_pool s)) /\
  (forall conn, conn ∈ st_idle (cur_state (s_pool s)) \/ st_shared (cur_state (s_pool s)) = Some conn -> conn ∈ cur (s_pool s)) /\
  (p_closed (s_pool s) = true -> forallb outside (s_threads s) = true ->
     forall conn, (conn < p_dialed (s_pool s))%nat -> conn ∈ p_closedConns (s_pool s)).
Proof.
  intros Hr. pose proof (accounted_run _ _ _ (initial_accounted mode maxInflight) Hr) as A.
  assert (state_ok (p_mode (s_pool s)) (cur_state (s_pool s))) as Hok.
  { unfold cur_state. destruct (p_state (s_pool s)); [apply (a_pool s A)|apply newConnPoolState_ok]. }
  split_and!.
  - intros c Hc. destruct (a_leak s A c Hc) as [?|[?|(n & t & Hn & Ht)]]; auto. right. right. exists t. split; [by eapply list_elem_of_lookup_2|done].
  - apply (a_cur_open s A).
  - intros c [Hc|Hc]; [by apply (idle_tracked _ _ Hok)|by apply (shared_tracked _ _ Hok)].
  - intros Hcl Hout c Hc. apply bool_decide_eq_true in Hcl. destruct (a_leak s A c Hc) as [?|[H|(n & t & Hn & Ht)]]; [done| |].
    + unfold cur, cur_state in H. rewrite Hcl in H. by apply not_elem_of_empty in H.
    + rewrite forallb_forall in Hout. specialize (Hout t). apply list_elem_of_lookup_2, list_elem_of_In, Hout in Hn. destruct t; try done; set_solver.
Qed.

(** ** One user at a time *)

(** The connections a goroutine has for itself, in the ordered mode. *)
Definition owned (t : thread) : list nat :=
  match t with
  | OClose c | Closing c | OInstall _ c | OReturn (Some c) _ | OReturn None (Ok (c, _)) | Acquired (Ok (c, _)) => [c]
  | _ => []
  end.
Definition dialed_by (p p' : ConnPool) : list nat := if (p_dialed p <? p_dialed p')%nat then [p_dialed p] else [].
Definition cur_idle (p : ConnPool) : list nat := st_idle (cur_state p).


Lemma NoDup_included (l k : list nat) : l ⊆+ k -> NoDup k -> NoDup l.
Proof. intros [k' Hk]%submseteq_Permutation Hn. rewrite Hk in Hn. by apply NoDup_app in Hn as [? _]. Qed.

Lemma app_middle (b x F1 F2 : list nat) : b ++ F1 ++ x ++ F2 ≡ₚ (b ++ x) ++ F1 ++ F2.
Proof. rewrite <- app_assoc. apply Permutation_app_head. rewrite (app_assoc F1), (app_assoc x). apply Permutation_app_tail, Permutation_app_comm. Qed.

(** Connections that occur once, in the pool and in the goroutines together,
    occur once after a step that only moves them and adds those it dials. *)
Lemma nodup_step (f : thread -> list nat) (base base' news : list nat) (ts sp : list thread) n t t' b b' :
  ts !! n = Some t -> NoDup (base ++ flat_map f ts) -> (forall x, x ∈ base ++ flat_map f ts -> x < b)%nat ->
  base' ++ f t' ⊆+ (base ++ f t) ++ news -> flat_map f sp = [] -> NoDup news -> (forall x, x ∈ news -> b <= x < b')%nat -> (b <= b')%nat ->
  NoDup (base' ++ flat_map f (<[n := t']> ts ++ sp)) /\ (forall x, x ∈ base' ++ flat_map f (<[n := t']> ts ++ sp) -> x < b')%nat.
Proof.
  intros Hn Hnd Hb Hsub Hsp Hnn Hnb Hbb. pose proof (lookup_lt_Some _ _ _ Hn) as Hlt.
  assert (base' ++ flat_map f (<[n := t']> ts ++ sp) ⊆+ (base ++ flat_map f ts) ++ news) as Hall.
  { rewrite flat_map_app, Hsp, app_nil_r, insert_take_drop by done. rewrite <- (take_drop_middle ts n t Hn) at 3.
    rewrite !flat_map_app. cbn [flat_map]. set (F1 := flat_map f (take n ts)). set (F2 := flat_map f (drop (S n) ts)).
    transitivity ((base' ++ f t') ++ F1 ++ F2); [apply Permutation_submseteq, app_middle|].
    transitivity (((base ++ f t) ++ news) ++ F1 ++ F2); [by apply submseteq_app|]. apply Permutation_submseteq.
    rewrite (app_middle base). rewrite <- (app_assoc (base ++ f t)). rewrite <- (app_assoc (base ++ f t) (F1 ++ F2)). apply Permutation_app_head, Permutation_app_comm. }
  assert (forall x, x ∈ (base ++ flat_map f ts) ++ news -> x < b')%nat as Hlt'.
  { intros x [Hx|Hx]%elem_of_app; [specialize (Hb x Hx); lia|]. specialize (Hnb x Hx). lia. }
  split.
  - eapply NoDup_included; [exact Hall|]. apply NoDup_app. split; [done|]. split; [|done]. intros x Hx Hx'. specialize (Hb x Hx). specialize (Hnb x Hx'). lia.
  - intros x Hx. apply Hlt'. by eapply elem_of_submseteq.
Qed.

Lemma dialed_by_same p p' : p_dialed p' = p_dialed p -> dialed_by p p' = [].
Proof. intros H. unfold dialed_by. by rewrite H, Nat.ltb_irrefl. Qed.
Lemma dialed_by_one p p' : p_dialed p' = S (p_dialed p) -> dialed_by p p' = [p_dialed p].
Proof. intros H. unfold dialed_by. rewrite H. by rewrite (proj2 (Nat.ltb_lt _ _)) by lia. Qed.
Lemma dialed_by_spec p p' : (p_dialed p' = p_dialed p \/ p_dialed p' = S (p_dialed p))%nat ->
  NoDup (dialed_by p p') /\ (forall x, x ∈ dialed_by p p' -> p_dialed p <= x < p_dialed p')%nat.
Proof.
  intros [H|H]; [rewrite dialed_by_same by done; split; [constructor|intros x Hx; by apply elem_of_nil in Hx]|].
  rewrite dialed_by_one by done. split; [apply NoDup_singleton|]. intros x ->%list_elem_of_singleton. lia.
Qed.

(** The idle connections are those of the states. *)
Lemma cur_idle_same p p' : p_state p' = p_state p -> (forall i, p_state p = Some i -> st_idle (p_states p' i) = st_idle (p_states p i)) -> cur_idle p' = cur_idle p.
Proof. intros E1 E2. unfold cur_idle, cur_state. rewrite E1. destruct (p_state p); [by apply E2|done]. Qed.
Lemma cur_idle_update i f p : (forall s, st_idle (f s) = st_idle s) -> cur_idle (update_state i f p) = cur_idle p.
Proof.
  intros Hf. apply cur_idle_same; [done|]. intros j _. destruct (decide (i = j)) as [->|Hne]; [by rewrite update_state_eq, Hf|by rewrite update_state_ne].
Qed.
Lemma cur_idle_remove i c p : pool_ok p -> p_state p = Some i -> cur_idle (removeConn i c p) ⊆+ cur_idle p.
Proof.
  intros Hok Hi. unfold cur_idle, cur_state. rewrite (so_state _ _ _ (removeConn_same i c p)), Hi. apply (re_idle _ _ _ _ (removeConn_removed i c p (Hok i))).
Qed.
Lemma dialed_by_remove i c p : dialed_by p (removeConn i c p) = [].
Proof. apply dialed_by_same, (so_dialed _ _ _ (removeConn_same i c p)). Qed.

(** Without a dial; with the same idle connections. *)
Ltac no_dial := rewrite ?dialed_by_remove, ?dialed_by_same by done; rewrite ?app_nil_r; split; [|done].

Lemma release_owned conn reuse alive p p' t' sp : pool_ok p -> Release conn reuse alive p = Some (p', t', sp) ->
  cur_idle p' ++ owned t' ⊆+ (cur_idle p ++ [conn]) ++ dialed_by p p' /\ flat_map owned sp = [].
Proof.
  intros Hok H. unfold Release, goes in H. destruct (p_state p) as [i|] eqn:Hi; [|injection H as <- <- <-; by no_dial].
  case_bool_decide as Ht; [injection H as <- <- <-; by no_dial|].
  destruct (negb reuse || negb alive).
  { injection H as <- <- <-. no_dial. apply submseteq_app; [by apply cur_idle_remove|done]. }
  destruct (p_mode p); [injection H as <- <- <-; no_dial; by apply submseteq_inserts_r|].
  case_bool_decide as He; injection H as <- <- <-; no_dial; [|by apply submseteq_inserts_r].
  unfold cur_idle, cur_state. cbn. by rewrite Hi, fn_lookup_insert.
Qed.

Lemma invalidate_owned conn p p' t' sp : pool_ok p -> Invalidate conn p = Some (p', t', sp) ->
  cur_idle p' ++ owned t' ⊆+ (cur_idle p ++ [conn]) ++ dialed_by p p' /\ flat_map owned sp = [].
Proof.
  intros Hok H. unfold Invalidate, goes in H. destruct (p_state p) as [i|] eqn:Hi; [|injection H as <- <- <-; by no_dial].
  case_bool_decide as Ht; injection H as <- <- <-; no_dial; [by apply submseteq_inserts_r|].
  apply submseteq_app; [by apply cur_idle_remove|done].
Qed.

Lemma acquireOrdered_owned alive p p' t' sp : acquireOrdered alive p = Some (p', t', sp) ->
  cur_idle p' ++ owned t' ⊆+ (cur_idle p ++ []) ++ dialed_by p p' /\ flat_map owned sp = [].
Proof.
  intros H. unfold acquireOrdered, goes in H. destruct (p_state p) as [i|] eqn:Hi; [|injection H as <- <- <-; by no_dial].
  destruct (st_idle (p_states p i)) as [|d rest] eqn:Hd; [injection H as <- <- <-; by no_dial|].
  assert (cur_idle p = d :: rest) as Hp by (unfold cur_idle, cur_state; by rewrite Hi).
  assert (forall q, p_state q = Some i -> st_idle (p_states q i) = rest -> cur_idle q ++ [d] ⊆+ cur_idle p) as Hq.
  { intros q E1 E2. unfold cur_idle at 1, cur_state. rewrite E1, E2, Hp. apply Permutation_submseteq. by rewrite Permutation_app_comm. }
  destruct alive; injection H as <- <- <-; no_dial; apply Hq; cbn; by rewrite ?fn_lookup_insert.
Qed.

Lemma step_owned c t p p' t' sp : pool_ok p -> p_mode p = ConnPoolOrdered -> thread_ok (p_mode p) t -> thread_step c t p = Some (p', t', sp) ->
  cur_idle p' ++ owned t' ⊆+ (cur_idle p ++ owned t) ++ dialed_by p p' /\ flat_map owned sp = [].
Proof.
  intros Hok Hm Ht H. rewrite Hm in Ht. destruct t, c; cbn [thread_step] in H; unfold acquireSlot, dialOrdered, waitShared, dialShared, finishShared, closeState, closeNext, callerStep in H; try done; try (by destruct r as [[]| |]); try discriminate Ht; unfold goes in H.
  - by eapply acquireOrdered_owned.
  - injection H as <- <- <-. no_dial. by apply submseteq_inserts_r.
  - destruct (negb (hasSem p)); [by injection H as <- <- <-; no_dial|]. destruct (_ <? _); [|done]. injection H as <- <- <-. by no_dial.
  - destruct (hasSem p); [|done]. injection H as <- <- <-. by no_dial.
  - destruct (_ && _); [|done]. injection H as <- <- <-. by no_dial.
  - destruct err as [e|]; [by injection H as <- <- <-; no_dial|].
    destruct (dialErr _ _ _); injection H as <- <- <-; rewrite dialed_by_one by done; cbn [owned]; by rewrite app_nil_r.
  - unfold installOrdered, goes in H. case_bool_decide; injection H as <- <- <-; no_dial; by rewrite ?cur_idle_update.
  - injection H as <- <- <-. assert (cur_idle (releaseSlot (closeOption toClose p)) = cur_idle p) as ->.
    { unfold releaseSlot. by destruct (hasSem _), toClose. }
    assert (p_dialed (releaseSlot (closeOption toClose p)) = p_dialed p) as Hd by (unfold releaseSlot; by destruct (hasSem _), toClose).
    rewrite dialed_by_same, app_nil_r by done. split; [|done]. apply submseteq_app; [done|]. destruct toClose, r as [[? ?]| |]; done || apply submseteq_nil_l.
  - destruct r as [[d b]| |]; [|done..]. by eapply release_owned.
  - destruct r as [[d b]| |]; [|done..]. by eapply invalidate_owned.
  - destruct r as [[d b]| |]; [|done..]. by rewrite Hm in H.
  - injection H as <- <- <-. no_dial. by apply submseteq_inserts_r.
  - injection H as <- <- <-. no_dial. by rewrite cur_idle_update.
  - case_bool_decide; [|done]. injection H as <- <- <-. by no_dial.
  - case_bool_decide; [|done]. injection H as <- <- <-. by no_dial.
Qed.

(** Goroutines between [acquireSlot] and [releaseSlot]. *)
Definition slotted (t : thread) : bool := match t with ODial _ | OInstall _ _ | OReturn _ _ => true | _ => false end.
Definition slots (ts : list thread) : Z := Z.of_nat (length (List.filter slotted ts)).

Lemma slots_app ts us : slots (ts ++ us) = slots ts + slots us.
Proof. unfold slots. rewrite List.filter_app, length_app. lia. Qed.
Lemma slots_cons t ts : slots (t :: ts) = (if slotted t then 1 else 0) + slots ts.
Proof. unfold slots. cbn. destruct (slotted t); cbn [length]; lia. Qed.
Lemma slots_insert ts n t t' : ts !! n = Some t -> slots (<[n := t']> ts) = slots ts + (if slotted t' then 1 else 0) - (if slotted t then 1 else 0).
Proof.
  intros Hn. rewrite insert_take_drop by (by eapply lookup_lt_Some). rewrite <- (take_drop_middle ts n t Hn) at 3. rewrite !slots_app, !slots_cons. lia.
Qed.

Definition same_slots (p : ConnPool) (t : thread) (p' : ConnPool) (t' : thread) (sp : list thread) : Prop :=
  p_inflight p' = p_inflight p /\ slotted t' = slotted t /\ slots sp = 0.

(** Nothing but waiting for a slot and returning changes the semaphore. *)
Lemma step_slots c t p p' t' sp : hasSem p = true -> thread_step c t p = Some (p', t', sp) ->
  same_slots p t p' t' sp \/ slots sp = 0 /\
  (p_inflight p' = p_inflight p + 1 /\ p_inflight p < p_maxInflight p /\ slotted t = false /\ slotted t' = true
   \/ p_inflight p' = p_inflight p - 1 /\ slotted t = true /\ slotted t' = false).
Proof.
  intros Hs H. assert (p_mode p = ConnPoolOrdered) as Hm by (unfold hasSem in Hs; apply andb_true_iff in Hs as [Hm _]; by apply bool_decide_eq_true in Hm).
  destruct t, c; cbn [thread_step] in H; unfold acquireSlot, dialOrdered, waitShared, dialShared, finishShared, closeState, closeNext, callerStep in H; try done; try (by destruct r as [[]| |]); unfold goes in H.
  all: try rewrite Hs in H; cbn [negb andb] in H.
  all: unfold acquireOrdered, installOrdered, acquireShared, collectShared, installShared, claim, Release, Invalidate, goes in H.
  all: repeat match type of H with
       | context [match ?x with _ => _ end] => destruct x eqn:?
       end; try done; injection H as <- <- <-.
  all: try (left; unfold same_slots; rewrite ?(so_inflight _ _ _ (removeConn_same _ _ _)); done).
  - right. split; [done|]. left. split_and!; try done. by apply Z.ltb_lt.
  - right. split; [done|]. right. unfold releaseSlot. assert (hasSem (closeOption toClose p) = true) as -> by (by destruct toClose). by destruct toClose.
  - left. by destruct toClose.
Qed.

(** In the ordered mode. *)
Record exclusive (maxInflight : Z) (s : system) : Prop := {
  e_acc : accounted s;
  e_mode : p_mode (s_pool s) = ConnPoolOrdered;
  e_max : p_maxInflight (s_pool s) = maxInflight;
  e_nodup : NoDup (cur_idle (s_pool s) ++ flat_map owned (s_threads s));
  e_bound : forall c, c ∈ cur_idle (s_pool s) ++ flat_map owned (s_threads s) -> (c < p_dialed (s_pool s))%nat;
  e_slots : hasSem (s_pool s) = true -> p_inflight (s_pool s) = slots (s_threads s) /\ p_inflight (s_pool s) <= p_maxInflight (s_pool s)
}.

Lemma exclusive_sys_step maxInflight e s s' : exclusive maxInflight s -> sys_step e s = Some s' -> exclusive maxInflight s'.
Proof.
  intros E H. pose proof (accounted_sys_step e s s' (e_acc _ s E) H) as A'. destruct E as [A Hm Hx Hnd Hb Hsl]. destruct e as [| | |n c]; cbn [sys_step] in H.
  - injection H as <-. split; cbn [s_pool s_threads]; try done; unfold Acquire; rewrite ?Hm, ?flat_map_app, ?app_nil_r; try done.
    intros Hs. destruct (Hsl Hs). rewrite slots_app. change (slots [OStart]) with 0. lia.
  - unfold Reset in H. destruct (p_state (s_pool s)) as [i|] eqn:Hi; injection H as <-; [|rewrite app_nil_r; by destruct s].
    split; cbn [s_pool s_threads]; try done; rewrite ?flat_map_app; cbn [flat_map owned app]; rewrite ?app_nil_r.
    + unfold cur_idle, cur_state. cbn. rewrite fn_lookup_insert. cbn. by apply NoDup_app in Hnd as (_ & _ & ?).
    + unfold cur_idle, cur_state. cbn. rewrite fn_lookup_insert. cbn. intros c Hc. apply Hb. apply elem_of_app. by right.
    + intros Hs. destruct (Hsl Hs). rewrite slots_app. change (slots [CloseState i]) with 0. cbn. lia.
  - unfold Close in H. destruct (p_state (s_pool s)) as [i|] eqn:Hi; injection H as <-; [|rewrite app_nil_r; by destruct s].
    split; cbn [s_pool s_threads]; try done; rewrite ?flat_map_app; cbn [flat_map owned app cur_idle cur_state p_state set_current st_idle newConnPoolState]; rewrite ?app_nil_r.
    + by apply NoDup_app in Hnd as (_ & _ & ?).
    + intros c Hc. apply Hb. apply elem_of_app. by right.
    + intros Hs. destruct (Hsl Hs). rewrite slots_app. change (slots [CloseState i]) with 0. cbn. lia.
  - destruct (s_threads s !! n) as [t|] eqn:Hn; [|done]. destruct (thread_step c t (s_pool s)) as [[[p' t'] sp]|] eqn:Hs; [|done]. injection H as <-.
    assert (thread_ok (p_mode (s_pool s)) t) as Ht by (by eapply (a_threads s A)).
    assert (step_facts (s_pool s) t p' t' sp) as F.
    { eapply thread_step_facts; [apply (a_pool s A)|done| |done]. intros d Hd Hc. by destruct (a_cur s A n t d Hn Hc). }
    destruct (f_mode _ _ _ _ _ F) as [Hm' Hmax]. destruct (step_owned c t _ _ _ _ (a_pool s A) Hm Ht Hs) as [Ho Hsp].
    destruct (dialed_by_spec _ _ (f_dialed _ _ _ _ _ F)) as [Hd1 Hd2].
    destruct (nodup_step owned _ _ _ _ sp n t t' _ (p_dialed p') Hn Hnd Hb Ho Hsp Hd1 Hd2) as [Hnd' Hb']; [destruct (f_dialed _ _ _ _ _ F); lia|].
    split; cbn [s_pool s_threads]; try done; [congruence..|]. intros Hsem.
    assert (hasSem (s_pool s) = true) as Hsem' by (unfold hasSem in *; by rewrite Hm', Hmax in Hsem). destruct (Hsl Hsem') as [Hin Hle].
    rewrite slots_app, (slots_insert _ _ _ _ Hn), Hmax.
    destruct (step_slots c t _ _ _ _ Hsem' Hs) as [(H1 & H2 & H3)|(H3 & [(H1 & H2 & H4 & H5)|(H1 & H4 & H5)])]; rewrite ?H1, ?H2, ?H3, ?H4, ?H5, ?Hin; lia.
Qed.

Lemma exclusive_run maxInflight evs s : 0 <= maxInflight -> run evs (initial ConnPoolOrdered maxInflight) = Some s -> exclusive maxInflight s.
Proof.
  intros H0. apply run_ind; [intros e s1 s2; apply exclusive_sys_step|]. split; cbn; try done; [apply initial_accounted|constructor|set_solver].
Qed.

(** An element of two lists of a duplicate-free concatenation. *)
Lemma owned_once ts n m t u c : NoDup (flat_map owned ts) -> ts !! n = Some t -> ts !! m = Some u -> c ∈ owned t -> c ∈ owned u -> n = m.
Proof.
  revert n m. induction ts as [|w ts IH]; intros n m Hnd Hn Hm Ht Hu; [done|]. cbn [flat_map] in Hnd. apply NoDup_app in Hnd as (_ & Hd & Hnd).
  assert (forall k v, ts !! k = Some v -> c ∈ owned v -> c ∈ owned w -> False) as Hno.
  { intros k v Hk Hv Hw. apply (Hd c Hw). apply list_elem_of_In, in_flat_map. exists v. split; apply list_elem_of_In; [by eapply list_elem_of_lookup_2|done]. }
  destruct n as [|n], m as [|m]; cbn in Hn, Hm; [done| | |f_equal; by eapply IH].
  - injection Hn as ->. by destruct (Hno m u Hm Hu Ht).
  - injection Hm as ->. by destruct (Hno n t Hn Ht Hu).
Qed.

Definition dialing (t : thread) : bool := match t with ODial _ => true | _ => false end.

Lemma dialing_slots ts : Z.of_nat (length (List.filter dialing ts)) <= slots ts.
Proof. unfold slots. induction ts as [|t ts IH]; cbn; [done|]. destruct t; cbn [dialing slotted length]; lia. Qed.

(** C29: in the ordered mode a connection has one user at a time.  In every run
    two callers that hold a connection hold different ones, and a connection a
    caller holds is not idle, so no later call gets it before it is released.
    With a limit, no more than [MaxInflight] dials are in progress. *)
Theorem pool_exclusive (maxInflight : Z) (evs : list event) (s : system) :
  0 <= maxInflight -> run evs (initial ConnPoolOrdered maxInflight) = Some s ->
  (forall n m conn b b', s_threads s !! n = Some (Acquired (Ok (conn, b))) -> s_threads s !! m = Some (Acquired (Ok (conn, b'))) -> n = m) /\
  (forall n conn b, s_threads s !! n = Some (Acquired (Ok (conn, b))) -> conn ∉ st_idle (cur_state (s_pool s))) /\
  (0 < maxInflight -> Z.of_nat (length (List.filter dialing (s_threads s))) <= maxInflight).
Proof.
  intros H0 Hr. pose proof (exclusive_run _ _ _ H0 Hr) as E. pose proof (e_nodup _ s E) as Hnd. apply NoDup_app in Hnd as (_ & Hd & Hnd). split_and!.
  - intros n m c b b' Hn Hm. by eapply (owned_once _ _ _ _ _ c Hnd Hn Hm); left.
  - intros n c b Hn Hc. apply (Hd c Hc). apply list_elem_of_In, in_flat_map. exists (Acquired (Ok (c, b))). split; [|by left]. by eapply list_elem_of_In, list_elem_of_lookup_2.
  - intros Hpos. assert (hasSem (s_pool s) = true) as Hs.
    { unfold hasSem. rewrite (e_mode _ s E), (e_max _ s E), bool_decide_eq_true_2 by done. by apply Z.ltb_lt. }
    destruct (e_slots _ s E Hs) as [H1 H2]. rewrite (e_max _ s E) in H2. pose proof (dialing_slots (s_threads s)). lia.
Qed.

(** ** Waiting goroutines are woken *)

(** The goroutine that dials for the waiting ones and closes [done]. *)
Definition connector (t : thread) : option nat := match t with CDial _ k | CInstall _ k _ | CFinish k _ => Some k | _ => None end.
Definition installs (i k : nat) (t : thread) : bool :=
  match t with CDial j l | CInstall j l (Ok _ | Err _) => Nat.eqb i j && Nat.eqb k l | _ => false end.
Definition isDone (p : ConnPool) (k : nat) : bool := co_done (p_connects p k).

Record wake_facts (p : ConnPool) (t : thread) (p' : ConnPool) (t' : thread) (sp : list thread) : Prop := {
  k_next : (p_nextConnect p <= p_nextConnect p')%nat;
  k_done : forall k, (k < p_nextConnect p)%nat -> isDone p k = true -> isDone p' k = true;
  k_connector : forall k, connector t = Some k -> connector t' = Some k \/ isDone p' k = true;
  k_connector' : forall k, connector t' = Some k -> connector t = Some k;
  k_spawned : forall u, u ∈ sp -> (exists i, u = CDial i (p_nextConnect p) /\ (p_nextConnect p < p_nextConnect p')%nat) \/ exists r, u = Acquired r;
  k_wait : forall i k b, t' = SWait i k b -> st_connecting (p_states p i) = Some k \/ k = p_nextConnect p /\ (k < p_nextConnect p')%nat /\ CDial i k ∈ sp;
  k_connecting : forall i k, st_connecting (p_states p' i) = Some k ->
    st_connecting (p_states p i) = Some k /\ (installs i k t = true -> installs i k t' = true)
    \/ k = p_nextConnect p /\ (k < p_nextConnect p')%nat /\ CDial i k ∈ sp;
  k_result : (forall i k msg, t <> CInstall i k (Panic msg)) -> forall i k msg, t' <> CInstall i k (Panic msg)
}.

Lemma update_connecting i f p j : (forall s, st_connecting (f s) = st_connecting s) -> st_connecting (p_states (update_state i f p) j) = st_connecting (p_states p j).
Proof. intros Hf. destruct (decide (i = j)) as [->|Hne]; [by rewrite update_state_eq, Hf|by rewrite update_state_ne]. Qed.
Lemma remove_connecting i c p j : st_connecting (p_states (removeConn i c p) j) = st_connecting (p_states p j).
Proof.
  unfold removeConn. destruct (p_mode _); case_bool_decide; unfold cancelShared; cbn [p_states]; by rewrite ?update_connecting.
Qed.

(** A step of a goroutine that neither waits nor connects. *)
Lemma wake_idle p t p' t' : p_nextConnect p' = p_nextConnect p -> p_connects p' = p_connects p ->
  (forall i, st_connecting (p_states p' i) = st_connecting (p_states p i)) -> connector t = None -> connector t' = None ->
  (forall i k b, t' <> SWait i k b) -> wake_facts p t p' t' [].
Proof.
  intros Hn Hc Hs Ht Ht' Hw. assert (forall i k, installs i k t = false) as Hi by (intros i k; by destruct t).
  split; rewrite ?Hn, ?Ht, ?Ht'; try done; unfold isDone; rewrite ?Hc; try done; [set_solver|naive_solver| |].
  - intros i k H. rewrite Hs in H. rewrite Hi. left. by split.
  - intros _ i k msg ->. done.
Qed.

Lemma wake_dial p p' i k r : p_nextConnect p' = p_nextConnect p -> p_connects p' = p_connects p -> p_states p' = p_states p ->
  (forall msg, r <> Panic msg) -> wake_facts p (CDial i k) p' (CInstall i k r) [].
Proof.
  intros Hn Hc Hs Hr. split; rewrite ?Hn, ?Hs; try done; unfold isDone; rewrite ?Hc; try done; [naive_solver|set_solver| |].
  - intros j l Hj. left. split; [done|]. destruct r as [| |msg]; [done..|]. by destruct (Hr msg).
  - intros _ j l msg [= -> -> ->]. by destruct (Hr msg).
Qed.

Lemma wake_install p p' i k r t' sp : installShared i k r p = Some (p', t', sp) -> wake_facts p (CInstall i k r) p' t' sp.
Proof.
  intros H. assert (sp = [] /\ (exists c, t' = CFinish k c) /\ p_nextConnect p' = p_nextConnect p /\ (forall l, isDone p' l = isDone p l)
    /\ forall j, st_connecting (p_states p' j) = if decide (i = j) then None else st_connecting (p_states p j)) as (-> & [c ->] & Hn & Hd & Hs).
  { assert (forall q, q = update_state i (set_connecting None) p -> forall j, st_connecting (p_states q j) = if decide (i = j) then None else st_connecting (p_states p j)) as Hq.
    { intros q -> j. destruct (decide (i = j)) as [->|Hne]; [by rewrite update_state_eq|by rewrite update_state_ne]. }
    unfold installShared, goes in H. destruct r as [d|e|]; [case_bool_decide|..]; try done; injection H as <- <- <-; split_and!; try done; eauto; intros j.
    all: try (rewrite update_connecting by done; by apply Hq); try exact (Hq _ eq_refl j); unfold isDone; cbn.
    all: destruct (decide (k = j)) as [->|Hne]; [by rewrite fn_lookup_insert|by rewrite fn_lookup_insert_ne]. }
  split; rewrite ?Hn; try done; [by intros l; rewrite Hd|by left|set_solver|]. intros j l Hj. rewrite Hs in Hj. destruct (decide (i = j)) as [->|Hne]; [done|].
  left. split; [done|]. cbn. destruct r; rewrite ?(proj2 (Nat.eqb_neq j i)) by congruence; done.
Qed.

Lemma step_wake c t p p' t' sp : thread_step c t p = Some (p', t', sp) -> wake_facts p t p' t' sp.
Proof.
  intros H. destruct t, c; cbn [thread_step] in H; unfold acquireSlot, dialOrdered, waitShared, dialShared, finishShared, closeState, closeNext, callerStep in H; try done; try (by destruct r as [[]| |]); unfold goes in H.
  all: unfold acquireOrdered, installOrdered, acquireShared, collectShared, claim, Release, Invalidate, goes in H.
  all: repeat match type of H with
       | context [match ?x with _ => _ end] => destruct x eqn:?
       end; try done; try (injection H as <- <- <-).
  all: try (apply wake_idle; try done; intros;
    rewrite ?(so_nextConnect _ _ _ (removeConn_same _ _ _)), ?(so_connects _ _ _ (removeConn_same _ _ _)), ?remove_connecting, ?update_connecting; done).
  - apply wake_idle; try done; unfold releaseSlot; destruct (hasSem _), toClose; done.
  - split; try done; try naive_solver; set_solver.
  - split; cbn; try done; try lia; try naive_solver.
    + intros k Hk Hd. unfold isDone in *. cbn. rewrite fn_lookup_insert_ne by lia. done.
    + intros u ->%list_elem_of_singleton. left. exists n. split; [done|lia].
    + intros i k b [= <- <- <-]. right. split; [done|]. split; [lia|by left].
    + intros i k Hk. destruct (decide (n = i)) as [->|Hne]; [|rewrite fn_lookup_insert_ne in Hk by done; by left].
      rewrite fn_lookup_insert in Hk. injection Hk as <-. right. split; [done|]. split; [lia|by left].
  - by apply wake_dial.
  - by apply wake_dial.
  - by apply wake_dial.
  - by eapply wake_install.
  - assert (p_states (closeOption toClose p) = p_states p /\ p_connects (closeOption toClose p) = p_connects p /\ p_nextConnect (closeOption toClose p) = p_nextConnect p) as (E1 & E2 & E3) by (by destruct toClose).
    split; cbn; rewrite ?E1, ?E3; try done; try set_solver.
    + intros k _. unfold isDone. cbn. rewrite E2. destruct (decide (connect = k)) as [->|Hne]; [by rewrite fn_lookup_insert|by rewrite fn_lookup_insert_ne].
    + intros k [= ->]. right. unfold isDone. cbn. by rewrite fn_lookup_insert.
  - split; try done; try naive_solver. intros u ->%list_elem_of_singleton. right. eauto.
Qed.

Record woken (s : system) : Prop := {
  w_wait : forall n i k b, s_threads s !! n = Some (SWait i k b) -> (k < p_nextConnect (s_pool s))%nat /\
    (isDone (s_pool s) k = true \/ exists m t, s_threads s !! m = Some t /\ connector t = Some k);
  w_connecting : forall i k, st_connecting (p_states (s_pool s) i) = Some k -> (k < p_nextConnect (s_pool s))%nat /\
    exists m t, s_threads s !! m = Some t /\ installs i k t = true;
  w_connector : forall n t k, s_threads s !! n = Some t -> connector t = Some k -> (k < p_nextConnect (s_pool s))%nat;
  w_result : forall n i k msg, s_threads s !! n <> Some (CInstall i k (Panic msg))
}.

Lemma installs_connector i k t : installs i k t = true -> connector t = Some k.
Proof. destruct t; try done; cbn; [|destruct r; try done]; by intros [_ ->%Nat.eqb_eq]%andb_true_iff. Qed.

Lemma woken_step s n c t p' t' sp created : woken s -> s_threads s !! n = Some t -> thread_step c t (s_pool s) = Some (p', t', sp) ->
  woken (mkSystem p' (<[n := t']> (s_threads s) ++ sp) created).
Proof.
  intros W Hn H. destruct (step_wake _ _ _ _ _ _ H) as [K1 K2 K3 K4 K5 K6 K7 K8]. set (ts' := <[n := t']> (s_threads s) ++ sp).
  assert (forall k m u, s_threads s !! m = Some u -> connector u = Some k -> isDone p' k = true \/ exists m u, ts' !! m = Some u /\ connector u = Some k) as Hkeep.
  { intros k m u Hm Hu. destruct (decide (m = n)) as [->|Hne]; [|right; exists m, u; split; [by apply threads_other|done]].
    rewrite Hn in Hm. injection Hm as <-. destruct (K3 k Hu); [|by left]. right. exists n, t'. split; [by eapply threads_self|done]. }
  assert (forall i k, CDial i k ∈ sp -> exists m, ts' !! m = Some (CDial i k)) as Hspawn by (intros i k; apply threads_spawned).
  split; cbn [s_pool s_threads]; fold ts'.
  - intros m i k b Hm. destruct (threads_after _ _ _ _ _ _ _ Hn Hm) as [[-> Ht]|[[Hne Hu]|[_ Hu]]].
    + destruct (K6 i k b (eq_sym Ht)) as [Hc|(-> & Hlt & Hin)].
      * destruct (w_connecting s W i k Hc) as [Hlt (m0 & u & Hm0 & Hi)]. split; [lia|]. by eapply Hkeep; [|eapply installs_connector].
      * split; [done|]. right. destruct (Hspawn _ _ Hin) as [m' Hm']. by eexists _, _.
    + destruct (w_wait s W m i k b Hu) as [Hlt [Hd|(m0 & u & Hm0 & Hc)]]; (split; [lia|]); [left; by apply K2|by eapply Hkeep].
    + destruct (K5 _ Hu) as [(j & Hj & _)|[r Hr]]; done.
  - intros i k Hk. destruct (K7 i k Hk) as [[Hc Hi]|(-> & Hlt & Hin)].
    + destruct (w_connecting s W i k Hc) as [Hlt (m0 & u & Hm0 & Hu)]. split; [lia|].
      destruct (decide (m0 = n)) as [->|Hne]; [|exists m0, u; split; [by apply threads_other|done]].
      rewrite Hn in Hm0. injection Hm0 as <-. exists n, t'. split; [by eapply threads_self|auto].
    + split; [done|]. destruct (Hspawn _ _ Hin) as [m' Hm']. exists m', (CDial i (p_nextConnect (s_pool s))). split; [done|]. cbn. by rewrite !Nat.eqb_refl.
  - intros m u k Hm Hu. destruct (threads_after _ _ _ _ _ _ _ Hn Hm) as [[-> ->]|[[Hne Hu']|[_ Hu']]].
    + pose proof (w_connector s W n t k Hn (K4 k Hu)). lia.
    + pose proof (w_connector s W m u k Hu' Hu). lia.
    + destruct (K5 _ Hu') as [(j & -> & Hj)|[r ->]]; [|done]. injection Hu as <-. lia.
  - intros m i k msg Hm. destruct (threads_after _ _ _ _ _ _ _ Hn Hm) as [[-> Ht]|[[Hne Hu']|[_ Hu']]].
    + eapply (K8 ltac:(intros i' k' msg' ->; by apply (w_result s W n i' k' msg'))). by symmetry.
    + by apply (w_result s W m i k msg).
    + destruct (K5 _ Hu') as [(j & Hj & _)|[r Hr]]; done.
Qed.

(** Calls that change no dial in progress. *)
Lemma woken_call s p' us created : woken s -> p_nextConnect p' = p_nextConnect (s_pool s) -> p_connects p' = p_connects (s_pool s) ->
  (forall i k, st_connecting (p_states p' i) = Some k -> st_connecting (p_states (s_pool s) i) = Some k) ->
  (forall u, u ∈ us -> connector u = None /\ forall i k b, u <> SWait i k b) -> woken (mkSystem p' (s_threads s ++ us) created).
Proof.
  intros [W1 W2 W3 W4] Hn Hc Hs Hus.
  assert (forall m u, (s_threads s ++ us) !! m = Some u -> s_threads s !! m = Some u \/ connector u = None /\ forall i k b, u <> SWait i k b) as Hl.
  { intros m u. rewrite lookup_app_Some. intros [?|[_ Hk]]; [by left|]. apply list_elem_of_lookup_2 in Hk. auto. }
  assert (forall m u, s_threads s !! m = Some u -> (s_threads s ++ us) !! m = Some u) as Hk by (intros m u; apply lookup_app_l_Some).
  split; cbn [s_pool s_threads]; unfold isDone; rewrite ?Hn, ?Hc.
  - intros m i k b [H|[_ H]]%Hl; [|by destruct (H i k b)]. destruct (W1 m i k b H) as [? [?|(m0 & u & ? & ?)]]; (split; [done|]); [by left|]. right. eauto.
  - intros i k H. destruct (W2 i k (Hs i k H)) as [? (m0 & u & ? & ?)]. split; [done|]. eauto.
  - intros m u k [H|[H _]]%Hl Hu; [eauto|]. by rewrite H in Hu.
  - intros m i k msg [H|[H _]]%Hl; [by apply (W4 m i k msg)|done].
Qed.

Lemma woken_run mode maxInflight evs s : run evs (initial mode maxInflight) = Some s -> woken s.
Proof.
  apply run_ind; [|split; done]. intros e s1 s2 W H. destruct e as [| | |n c]; cbn [sys_step] in H.
  - injection H as <-. apply woken_call; try done. intros u ->%list_elem_of_singleton. unfold Acquire. by destruct (p_mode _).
  - unfold Reset in H. destruct (p_state (s_pool s1)) as [i|]; injection H as <-; [|by rewrite app_nil_r; destruct s1].
    apply woken_call; try done; [|by intros u ->%list_elem_of_singleton]. cbn. intros j k. destruct (decide (p_nextState (s_pool s1) = j)) as [->|Hne].
    + by rewrite fn_lookup_insert.
    + by rewrite fn_lookup_insert_ne.
  - unfold Close in H. destruct (p_state (s_pool s1)) as [i|]; injection H as <-; [|by rewrite app_nil_r; destruct s1].
    apply woken_call; try done; by intros u ->%list_elem_of_singleton.
  - destruct (s_threads s1 !! n) as [t|] eqn:Hn; [|done]. destruct (thread_step c t (s_pool s1)) as [[[p' t'] sp]|] eqn:Hs; [|done]. injection H as <-. by eapply woken_step.
Qed.

(** The steps that are left to the goroutine that dials. *)
Definition finishes (m k : nat) (fuel : nat) (s : system) : Prop :=
  exists cs s', (length cs <= fuel)%nat /\ run (map (Step m) cs) s = Some s' /\ isDone (s_pool s') k = true /\
    forall n u, n <> m -> s_threads s !! n = Some u -> s_threads s' !! n = Some u.

Lemma finishes_step m k fuel s c t p' t' : s_threads s !! m = Some t -> thread_step c t (s_pool s) = Some (p', t', []) ->
  (forall s', s_pool s' = p' -> s_threads s' !! m = Some t' -> finishes m k fuel s') -> finishes m k (S fuel) s.
Proof.
  intros Hm Hs Hnext. assert (sys_step (Step m c) s = Some (mkSystem p' (<[m := t']> (s_threads s) ++ []) (s_created s ++ reported t t'))) as Hstep by (cbn; by rewrite Hm, Hs).
  set (s1 := mkSystem p' (<[m := t']> (s_threads s) ++ []) (s_created s ++ reported t t')) in *.
  destruct (Hnext s1 eq_refl (threads_self _ _ _ _ _ Hm)) as (cs & s' & Hl & Hr & Hd & Ho).
  exists (c :: cs), s'. split; [cbn; lia|]. split; [cbn [map run]; by rewrite Hstep|]. split; [done|]. intros n u Hne Hn. apply Ho; [done|]. by apply threads_other.
Qed.

Lemma finish_done m k c s : s_threads s !! m = Some (CFinish k c) -> finishes m k 1 s.
Proof.
  intros Hm. eapply (finishes_step m k 0 s (Continue true)); [done|by cbn|]. intros s' Hp _. exists [], s'. split; [done|]. split; [done|]. split; [|done].
  rewrite Hp. unfold isDone. cbn. by rewrite fn_lookup_insert.
Qed.

Lemma install_done m i k r s : s_threads s !! m = Some (CInstall i k r) -> (forall msg, r <> Panic msg) -> finishes m k 2 s.
Proof.
  intros Hm Hr. destruct (installShared i k r (s_pool s)) as [[[p' t'] sp]|] eqn:E.
  - assert (sp = [] /\ exists c, t' = CFinish k c) as [-> [c ->]].
    { unfold installShared, goes in E. destruct r as [d|e|]; [case_bool_decide|..]; try done; injection E as <- <- <-; eauto. }
    eapply (finishes_step m k 1 s (Continue true)); [done|cbn; exact E|]. intros s' _ Hs'. by eapply finish_done.
  - unfold installShared, goes in E. destruct r as [d|e|msg]; [by case_bool_decide|done|by destruct (Hr msg)].
Qed.

Lemma dial_done m i k s (err callerErr : option go_error) : s_threads s !! m = Some (CDial i k) -> finishes m k 3 s.
Proof.
  intros Hm. destruct (thread_step (Dialed err callerErr) (CDial i k) (s_pool s)) as [[[p' t'] sp]|] eqn:E.
  - assert (sp = [] /\ exists r, t' = CInstall i k r /\ forall msg, r <> Panic msg) as [-> (r & -> & Hr)].
    { cbn in E. unfold dialShared, goes in E. destruct err, (dialErr _ _ _); injection E as <- <- <-; eauto. }
    eapply finishes_step; [exact Hm|exact E|]. intros s' _ Hs'. by eapply install_done.
  - cbn in E. unfold dialShared in E. by destruct err, (dialErr _ _ _).
Qed.

(** C30: a goroutine that waits for the dial of another one is woken.  In every
    run, whenever a call of [AcquireShared] waits, the dial it waits for is over
    already, or another goroutine has at most three steps left (the end of its
    dial, its critical section, closing the channel) after which the channel is
    closed; then the waiting call goes on. *)
Theorem pool_waiters_woken (mode : ConnPoolMode) (maxInflight : Z) (evs : list event) (s : system) (n i k : nat) (startDial : bool) :
  run evs (initial mode maxInflight) = Some s -> s_threads s !! n = Some (SWait i k startDial) ->
  exists m s', (s' = s \/ m <> n /\ exists cs, (length cs <= 3)%nat /\ run (map (Step m) cs) s = Some s') /\
    s_threads s' !! n = Some (SWait i k startDial) /\ forall alive, is_Some (sys_step (Step n (Continue alive)) s').
Proof.
  intros Hr Hn. pose proof (woken_run _ _ _ _ Hr) as W.
  assert (forall s', s_threads s' !! n = Some (SWait i k startDial) -> isDone (s_pool s') k = true -> forall alive, is_Some (sys_step (Step n (Continue alive)) s')) as Hgo.
  { intros s' Hn' Hd alive. cbn. rewrite Hn'. cbn. unfold isDone in Hd. rewrite Hd. unfold collectShared, claim, goes.
    destruct (co_err _), startDial; cbn; try done; case_bool_decide; try done; destruct (st_shared _); try done; by destruct alive. }
  destruct (w_wait s W n i k startDial Hn) as [_ [Hd|(m & t & Hm & Ht)]]; [exists n, s; split; [by left|]; split; [done|by apply Hgo]|].
  assert (m <> n) as Hne by (intros ->; rewrite Hn in Hm; by injection Hm as <-).
  assert (finishes m k 3 s) as (cs & s' & Hl & Hrun & Hd & Ho).
  { destruct t; try done; injection Ht as ->.
    - by apply (dial_done m current k s None None).
    - destruct (install_done m current k r s Hm) as (cs & s' & ? & ?); [intros msg ->; by apply (w_result s W m current k msg)|]. exists cs, s'. split; [lia|done].
    - destruct (finish_done m k toClose s Hm) as (cs & s' & ? & ?). exists cs, s'. split; [lia|done]. }
  exists m, s'. split; [right; split; [done|]; by exists cs|]. split; [apply Ho; congruence|]. apply Hgo; [apply Ho; congruence|done].
Qed.

(** ** A connection is reported as created once *)

Definition unclaimed (p : ConnPool) : list nat :=
  match st_shared (cur_state p) with Some c => if st_sharedClaimed (cur_state p) then [] else [c] | None => [] end.
Definition unreported (t : thread) : list nat :=
  pending t ++ match t with OReturn None (Ok (c, true)) => [c] | _ => [] end.

Lemma unclaimed_same p p' : p_state p' = p_state p ->
  (forall i, p_state p = Some i -> st_shared (p_states p' i) = st_shared (p_states p i) /\ st_sharedClaimed (p_states p' i) = st_sharedClaimed (p_states p i)) ->
  unclaimed p' = unclaimed p.
Proof. intros E1 E2. unfold unclaimed, cur_state. rewrite E1. destruct (p_state p) as [i|]; [|done]. by destruct (E2 i eq_refl) as [-> ->]. Qed.
Lemma unclaimed_update i f p : (forall s, st_shared (f s) = st_shared s /\ st_sharedClaimed (f s) = st_sharedClaimed s) -> unclaimed (update_state i f p) = unclaimed p.
Proof.
  intros Hf. apply unclaimed_same; [done|]. intros j _. destruct (decide (i = j)) as [->|Hne]; [rewrite update_state_eq; apply Hf|by rewrite update_state_ne].
Qed.
Lemma unclaimed_remove i c p : pool_ok p -> p_state p = Some i -> unclaimed (removeConn i c p) ⊆+ unclaimed p.
Proof.
  intros Hok Hi. unfold unclaimed, cur_state. rewrite (so_state _ _ _ (removeConn_same i c p)), Hi.
  destruct (re_shared _ _ _ _ (removeConn_removed i c p (Hok i))) as [[-> _]|[-> ->]]; [apply submseteq_nil_l|done].
Qed.

Lemma claim_created i conn p p' t' sp t : p_state p = Some i -> st_shared (p_states p i) = Some conn -> claim i conn p = Some (p', t', sp) ->
  (forall r, t <> Acquired r) -> unreported t = [] ->
  reported t t' ++ unclaimed p' ++ unreported t' ⊆+ (unclaimed p ++ unreported t) ++ dialed_by p p' /\ flat_map unreported sp = [].
Proof.
  intros Hi Hs H Ht Hu. unfold claim, goes in H. injection H as <- <- <-. rewrite Hu, dialed_by_same, !app_nil_r by done. split; [|done].
  unfold unclaimed, cur_state. cbn. rewrite Hi, fn_lookup_insert. cbn. rewrite Hs, app_nil_r. destruct t; try (by destruct (st_sharedClaimed _)). by destruct (Ht r).
Qed.

Ltac no_new := rewrite ?dialed_by_remove, ?dialed_by_same by done; cbn [unreported pending reported app]; rewrite ?app_nil_r; split; [|done].

Lemma install_created i k r p p' t' sp : installShared i k r p = Some (p', t', sp) ->
  reported (CInstall i k r) t' ++ unclaimed p' ++ unreported t' ⊆+ (unclaimed p ++ unreported (CInstall i k r)) ++ dialed_by p p' /\ flat_map unreported sp = [].
Proof.
  intros H. unfold installShared, goes in H. set (q := update_state i (set_connecting None) p) in *.
  assert (unclaimed q = unclaimed p) as Hq by (unfold q; by rewrite unclaimed_update).
  destruct r as [conn|e|]; [case_bool_decide as Hi|..]; try done; injection H as <- <- <-; no_new.
  - unfold unclaimed at 1, cur_state. change (p_state (update_state i _ q)) with (p_state q). rewrite Hi, update_state_eq. cbn.
    destruct (st_sharedClaimed _); [apply submseteq_nil_l|]. by apply submseteq_inserts_l.
  - change (unclaimed q ⊆+ unclaimed p ++ [conn]). rewrite Hq. by apply submseteq_inserts_r.
  - change (unclaimed q ⊆+ unclaimed p). by rewrite Hq.
Qed.

Lemma step_created c t p p' t' sp : pool_ok p -> thread_ok (p_mode p) t -> thread_step c t p = Some (p', t', sp) ->
  reported t t' ++ unclaimed p' ++ unreported t' ⊆+ (unclaimed p ++ unreported t) ++ dialed_by p p' /\ flat_map unreported sp = [].
Proof.
  intros Hok Ht H. destruct t, c; cbn [thread_step] in H; unfold acquireSlot, dialOrdered, waitShared, dialShared, finishShared, closeState, closeNext, callerStep in H; try done; try (by destruct r as [[]| |]); unfold goes in H.
  all: unfold acquireOrdered, installOrdered, acquireShared, collectShared, Release, Invalidate, goes in H.
  all: repeat match type of H with
       | context [match ?x with _ => _ end] => destruct x eqn:?
       end; try done.
  all: repeat match goal with E : bool_decide _ = true |- _ => apply bool_decide_eq_true in E end.
  all: try (by eapply claim_created); try (injection H as <- <- <-).
  all: try (no_new; first [done|by rewrite unclaimed_update|by apply unclaimed_remove|rewrite !unclaimed_update; done]).
  - rewrite dialed_by_one by done. split; [|done]. cbn [reported unreported pending app]. rewrite !app_nil_r. by apply submseteq_inserts_r.
  - rewrite dialed_by_one by done. split; [|done]. cbn [reported unreported pending app]. rewrite !app_nil_r. done.
  - no_new. by apply submseteq_inserts_r.
  - assert (unclaimed (releaseSlot (closeOption toClose p)) = unclaimed p) as -> by (unfold releaseSlot; by destruct (hasSem _), toClose).
    assert (p_dialed (releaseSlot (closeOption toClose p)) = p_dialed p) as Hd by (unfold releaseSlot; by destruct (hasSem _), toClose).
    rewrite dialed_by_same by done. cbn [unreported pending]. rewrite !app_nil_r. split; [|done].
    destruct toClose, r as [[d []]| |]; cbn [reported app]; rewrite ?app_nil_r; try done. apply Permutation_submseteq. apply (Permutation_app_comm [d]).
  - no_new. change (unclaimed (update_state n (set_connecting (Some (p_nextConnect p))) p) ⊆+ unclaimed p). by rewrite unclaimed_update.
  - rewrite dialed_by_one by done. split; [|done]. cbn [reported unreported pending app]. rewrite !app_nil_r. by apply submseteq_inserts_r.
  - rewrite dialed_by_one by done. split; [|done]. cbn [reported unreported pending app]. rewrite !app_nil_r. done.
  - by eapply install_created.
  - split; [|done]. assert (p_dialed (closeOption toClose p) = p_dialed p) as Hd by (by destruct toClose).
    rewrite dialed_by_same by done. cbn [reported unreported pending app]. rewrite !app_nil_r. by destruct toClose.
Qed.

Record created_once (s : system) : Prop := {
  c_acc : accounted s;
  c_nodup : NoDup ((s_created s ++ unclaimed (s_pool s)) ++ flat_map unreported (s_threads s));
  c_bound : forall c, c ∈ (s_created s ++ unclaimed (s_pool s)) ++ flat_map unreported (s_threads s) -> (c < p_dialed (s_pool s))%nat
}.

Lemma created_sublist (l u u' ts : list nat) b : u' ⊆+ u -> NoDup ((l ++ u) ++ ts) -> (forall c, c ∈ (l ++ u) ++ ts -> c < b)%nat ->
  NoDup ((l ++ u') ++ ts) /\ (forall c, c ∈ (l ++ u') ++ ts -> c < b)%nat.
Proof.
  intros Hu Hnd Hb. assert ((l ++ u') ++ ts ⊆+ (l ++ u) ++ ts) as Hs by (by repeat apply submseteq_app).
  split; [by eapply NoDup_included|]. intros c Hc. apply Hb. by eapply elem_of_submseteq.
Qed.

Lemma created_sys_step e s s' : created_once s -> sys_step e s = Some s' -> created_once s'.
Proof.
  intros E H. pose proof (accounted_sys_step e s s' (c_acc s E) H) as A'. destruct E as [A Hnd Hb]. destruct e as [| | |n c]; cbn [sys_step] in H.
  - injection H as <-. split; cbn [s_pool s_threads s_created]; try done; unfold Acquire; rewrite ?flat_map_app; destruct (p_mode _); cbn [flat_map unreported pending app]; by rewrite ?app_nil_r.
  - unfold Reset in H. destruct (p_state (s_pool s)) as [i|] eqn:Hi; injection H as <-; [|rewrite app_nil_r; by destruct s].
    assert (unclaimed (set_current (Some (p_nextState (s_pool s))) (S (p_nextState (s_pool s))) (update_state (p_nextState (s_pool s)) (fun _ => newConnPoolState) (s_pool s))) = []) as Hu
      by (unfold unclaimed, cur_state; cbn; by rewrite fn_lookup_insert).
    destruct (created_sublist _ _ [] _ _ (submseteq_nil_l _) Hnd Hb). split; cbn [s_pool s_threads s_created]; try done; rewrite Hu, flat_map_app; cbn [flat_map unreported pending app]; by rewrite !app_nil_r in *.
  - unfold Close in H. destruct (p_state (s_pool s)) as [i|] eqn:Hi; injection H as <-; [|rewrite app_nil_r; by destruct s].
    assert (unclaimed (set_current None (p_nextState (s_pool s)) (s_pool s)) = []) as Hu by done.
    destruct (created_sublist _ _ [] _ _ (submseteq_nil_l _) Hnd Hb). split; cbn [s_pool s_threads s_created]; try done; rewrite Hu, flat_map_app; cbn [flat_map unreported pending app]; by rewrite !app_nil_r in *.
  - destruct (s_threads s !! n) as [t|] eqn:Hn; [|done]. destruct (thread_step c t (s_pool s)) as [[[p' t'] sp]|] eqn:Hs; [|done]. injection H as <-.
    assert (thread_ok (p_mode (s_pool s)) t) as Ht by (by eapply (a_threads s A)).
    assert (step_facts (s_pool s) t p' t' sp) as F.
    { eapply thread_step_facts; [apply (a_pool s A)|done| |done]. intros d Hd Hc. by destruct (a_cur s A n t d Hn Hc). }
    destruct (step_created c t _ _ _ _ (a_pool s A) Ht Hs) as [Ho Hsp]. destruct (dialed_by_spec _ _ (f_dialed _ _ _ _ _ F)) as [Hd1 Hd2].
    assert (((s_created s ++ reported t t') ++ unclaimed p') ++ unreported t' ⊆+ ((s_created s ++ unclaimed (s_pool s)) ++ unreported t) ++ dialed_by (s_pool s) p') as Hsub.
    { rewrite <- !app_assoc. rewrite <- !app_assoc in Ho. by apply submseteq_app. }
    destruct (nodup_step unreported _ _ _ _ sp n t t' _ (p_dialed p') Hn Hnd Hb Hsub Hsp Hd1 Hd2) as [Hnd' Hb']; [destruct (f_dialed _ _ _ _ _ F); lia|by split].
Qed.

(** A connection is reported as created to one caller only, the one that
    starts its receiver: in every run no connection is reported twice, however
    many calls share it or find it idle later. *)
Theorem pool_created_once (mode : ConnPoolMode) (maxInflight : Z) (evs : list event) (s : system) :
  run evs (initial mode maxInflight) = Some s -> NoDup (s_created s).
Proof.
  intros Hr. assert (created_once s) as C.
  { revert Hr. apply run_ind; [intros e s1 s2; apply created_sys_step|]. split; cbn; [apply initial_accounted|constructor|set_solver]. }
  pose proof (c_nodup s C) as H. apply NoDup_app in H as [H _]. by apply NoDup_app in H as [H _].
Qed.

(** ** Runs *)
Module PoolDemo.

(** Two callers of a shared connection: the first dials, both get the
    connection, one of them as created. *)
Definition shared_run : list event :=
  [CallAcquire; CallAcquire; Step 0 (Continue true); Step 1 (Continue true);
   Step 2 (Dialed None None); Step 2 (Continue true); Step 2 (Continue true);
   Step 0 (Continue true); Step 1 (Continue true)].

(** The second caller while the first one dials. *)
Definition waiting_run : list event := [CallAcquire; CallAcquire; Step 0 (Continue true); Step 1 (Continue true)].

(** Ordered: a connection is dialed, released, taken again; meanwhile a second
    one is dialed; the pool is closed while both are in use. *)
Definition ordered_run : list event :=
  [CallAcquire; Step 0 (Continue true); Step 0 SlotTaken; Step 0 (Dialed None None); Step 0 (Continue true); Step 0 (Continue true);
   Step 0 (ReleaseConn true true);
   CallAcquire; CallAcquire; Step 1 (Continue true); Step 2 (Continue true); Step 2 SlotTaken; Step 2 (Dialed None None); Step 2 (Continue true); Step 2 (Continue true)].
Definition closing_run : list event :=
  ordered_run ++ [CallClose; Step 3 (Continue true); Step 3 (NextConn 1); Step 3 (NextConn 0); Step 3 (Continue true)].

Lemma pool_connections_accounted_witness :
  exists s, run closing_run (initial ConnPoolOrdered 1) = Some s /\ p_dialed (s_pool s) = 2%nat /\
    s_threads s = [Finished; Acquired (Ok (0%nat, false)); Acquired (Ok (1%nat, true)); Finished] /\
    (forall conn, (conn < p_dialed (s_pool s))%nat -> conn ∈ p_closedConns (s_pool s)).
Proof.
  eexists. split; [vm_compute; reflexivity|]. split; [reflexivity|]. split; [reflexivity|].
  apply (pool_connections_accounted ConnPoolOrdered 1 closing_run); vm_compute; reflexivity.
Defined.

Lemma pool_exclusive_witness :
  exists s, run ordered_run (initial ConnPoolOrdered 1) = Some s /\ s_threads s = [Finished; Acquired (Ok (0%nat, false)); Acquired (Ok (1%nat, true))] /\
    (forall n m conn b b', s_threads s !! n = Some (Acquired (Ok (conn, b))) -> s_threads s !! m = Some (Acquired (Ok (conn, b'))) -> n = m).
Proof.
  eexists. split; [vm_compute; reflexivity|]. split; [reflexivity|].
  apply (pool_exclusive 1 ordered_run); [lia|vm_compute; reflexivity].
Defined.

Lemma pool_waiters_woken_witness :
  exists s, run waiting_run (initial ConnPoolSingle 0) = Some s /\ s_threads s = [SWait 0 0 true; SWait 0 0 false; CDial 0 0] /\
    exists m s', (s' = s \/ m <> 1%nat /\ exists cs, (length cs <= 3)%nat /\ run (map (Step m) cs) s = Some s') /\
      s_threads s' !! 1%nat = Some (SWait 0 0 false) /\ forall alive, is_Some (sys_step (Step 1 (Continue alive)) s').
Proof.
  eexists. split; [vm_compute; reflexivity|]. split; [reflexivity|].
  apply (pool_waiters_woken ConnPoolSingle 0 waiting_run); vm_compute; reflexivity.
Defined.

Lemma pool_created_once_witness :
  exists s, run shared_run (initial ConnPoolSingle 0) = Some s /\ s_created s = [0%nat] /\
    s_threads s = [Acquired (Ok (0%nat, true)); Acquired (Ok (0%nat, false)); Finished] /\ NoDup (s_created s).
Proof.
  eexists. split; [vm_compute; reflexivity|]. split; [reflexivity|]. split; [reflexivity|].
  apply (pool_created_once ConnPoolSingle 0 shared_run); vm_compute; reflexivity.
Defined.

(** A [Reset] during a dial: the connection is closed and the call fails. *)
Example reset_during_dial :
  option_map (fun s => (s_threads s, elements (p_closedConns (s_pool s))))
    (run [CallAcquire; Step 0 (Continue true); Step 0 SlotTaken; CallReset; Step 0 (Dialed None None); Step 0 (Continue true); Step 0 (Continue true)]
       (initial ConnPoolOrdered 2))
  = Some ([Acquired (Err net_ErrClosed); CloseState 0], [0%nat]).
Proof. vm_compute. reflexivity. Qed.

(** A caller that waits for the dial of one whose context is cancelled dials again itself. *)
Example cancelled_dial_retried :
  option_map s_threads
    (run [CallAcquire; CallAcquire; Step 0 (Continue true); Step 1 (Continue true); Step 2 (Dialed None (Some (ENew "context canceled"))); Step 2 (Continue true); Step 2 (Continue true);
          Step 0 (CallerDone (ENew "context canceled")); Step 1 (Continue true); Step 1 (Continue true)] (initial ConnPoolSingle 0))
  = Some [Acquired (Err (ENew "context canceled")); SWait 0 1 true; Finished; CDial 0 1].
Proof. vm_compute. reflexivity. Qed.

End PoolDemo.
