(* ===== verification/AdGuard.v ===== *)
(** * Conversion of AdGuard filters (common/convertor/adguard)

    [ToOptions] translates the lines of an AdGuard filter to one headless rule,
    [FromOptions] prints such a rule as a filter.  The rule is built of up to
    four parts: the lines to block, the exceptions ([@@]), the important lines
    and the important exceptions ([$important]).

    - The rule means what the filter says ([adguard_semantics], on top of the
      semantics of headless rules): important exceptions come before important
      lines, these before exceptions, and these before the other lines.
    - [FromOptions] prints the lines a rule was built of ([adguard_printed]),
      unless it has exceptions but no important ones: these become important
      ([exceptions_become_important]).

    [M.IsDomainName], [M.ParseAddr], [M.ParseSocksaddr], [common.SubstringAfter]
    and [common.SubstringBefore] are third-party functions, and so is
    [common.Map], of which only matters here whether it returns nil for an
    empty slice: the class [AdGuardEnv].  Log output is the reason a line is
    ignored for. *)
From Stdlib Require Import ZArith Lia Bool Ascii.
From S2P Require Import Prelude GoStrings Metadata RuleItem RuleEngine HeadlessRule DemoEnv.

Class AdGuardEnv := {
  IsDomainName : string -> bool;
  M_ParseAddr : string -> Addr;
  Socksaddr_port : string -> Z;                     (* M.ParseSocksaddr(s).Port *)
  SubstringAfter : string -> string -> string;
  SubstringBefore : string -> string -> string;
  Map_empty_is_nil : bool;
}.

Section Convert.
Context `{GE : GoEnv} `{AE : AdGuardEnv}.

(** [netip.Addr.IsUnspecified]. *)
Definition IsUnspecified (a : Addr) : bool :=
  match a with AddrInvalid => false | Addr4 v => v =? 0 | Addr6 v zone => (v =? 0) && String.eqb zone "" end.

Record agdguardRuleLine := mkLine {
  ruleLine : string;
  isRawDomain : bool;
  isExclude : bool;
  isSuffix : bool;
  hasStart : bool;
  hasEnd : bool;
  isRegexp : bool;
  isImportant : bool;
}.

(** ** One line *)

(** What becomes of a line. *)
Inductive line_outcome :=
| Skipped
| Ignored (reason : string)
| Rule_ (line : agdguardRuleLine).

Definition parseAdGuardHostLine (line : string) : result string :=
  match strings_Cut " "%char line with
  | None => Err ErrInvalid
  | Some (before, after) =>
      let* address := ParseAddr before in
      if negb (IsUnspecified address) then Ok ""
      else if negb (IsDomainName after) then Err (ENew ("invalid domain name: " +:+ after))
      else Ok after
  end.

Fixpoint parse_parts (parts : list string) : result (list Z) :=
  match parts with
  | [] => Ok []
  | part :: rest => let* v := ParseUint part 8 in let* vs := parse_parts rest in Ok (v :: vs)
  end.

(** The address of four bytes. *)
Definition AddrFrom4 (bytes : list Z) : Addr := Addr4 (fold_left (fun acc b => acc * 256 + b) bytes 0).

Definition parseADGuardIPCIDRLine (line : string) : result Prefix :=
  let isPrefix := HasSuffix line "." in
  let line := if isPrefix then string_take (String.length line - 1) line else line in
  let parts := strings_Split "."%char line in
  if (4 <? length parts)%nat || ((length parts <? 4)%nat && negb isPrefix) then Err ErrInvalid
  else
    let* ruleParts := parse_parts parts in
    Ok (PrefixFrom (AddrFrom4 (take 4 (ruleParts ++ [0; 0; 0; 0]))) (8 * zlen ruleParts)).

Definition ignoreIPCIDRRegexp (line : string) : bool :=
  let line :=
    if HasPrefix line "(http?:\/\/)" then string_drop 12 line
    else if HasPrefix line "(https?:\/\/)" then string_drop 13 line
    else if HasPrefix line "^" then string_drop 1 line
    else line in
  is_ok (ParseUint (SubstringBefore line "\.") 8) || is_ok (ParseUint (SubstringBefore line ".") 8).

(** The modifiers after [$]: is one of them [important], or the name of one
    that is not supported? *)
Fixpoint modifiers (params : list string) (important : bool) : bool + string :=
  match params with
  | [] => inl important
  | param :: rest =>
      match strings_Split "="%char param with
      | [name] =>
          if String.eqb name "important" then modifiers rest true else inr name
      | [name; value] =>
          if String.eqb name "important" then modifiers rest true
          else if String.eqb name "dnsrewrite" && IsUnspecified (M_ParseAddr value) then modifiers rest important
          else inr name
      | parts => inr (default "" (head parts))
      end
  end.

Definition specials : list string := ["["; "]"; "("; ")"; "!"; "#"].

(** A line that is no regular expression: ignored, or kept with [isSuffix]. *)
Definition checkDomain (line : string) (isSuffix : bool) : string + (string * bool) :=
  let '(line, isSuffix) := if strings_Contains line "://" then (SubstringAfter line "://", true) else (line, isSuffix) in
  if strings_Contains line "/" then inl "rule with path"
  else if strings_Contains line "?" || strings_Contains line "&" then inl "rule with query"
  else if existsb (strings_Contains line) specials then inl "cosmetic filter"
  else if strings_Contains line "~" then inl "rule modifier"
  else
    let domainCheck := if HasPrefix line "." || HasPrefix line "-" then "r" +:+ line else line in
    if String.eqb line "" then inl "rule with empty domain"
    else
      let domainCheck := replace_char "*"%char "x"%char domainCheck in
      if negb (IsDomainName domainCheck) then
        inl (if is_ok (parseADGuardIPCIDRLine line) then "rule with IPCIDR"
             else if negb (Socksaddr_port domainCheck =? 0) then "rule with port" else "rule with invalid domain")
      else inr (line, isSuffix).

(** [line[1:len(line)-1]]. *)
Definition inner (line : string) : result string :=
  if (String.length line <? 2)%nat then Panic "runtime error: slice bounds out of range [1:0]"
  else Ok (String.substring 1 (String.length line - 2) line).

(** From the modifiers on. *)
Definition parsePattern (line : string) (isImportant : bool) : result line_outcome :=
  let '(line, isExclude) := if HasPrefix line "@@" then (string_drop 2 line, true) else (line, false) in
  let line := TrimSuffix line "|" in
  let '(line, isSuffix, hasStart) :=
    if HasPrefix line "||" then (string_drop 2 line, true, false)
    else if HasPrefix line "|" then (string_drop 1 line, false, true)
    else (line, false, false) in
  let '(line, hasEnd) := if HasSuffix line "^" then (string_take (String.length line - 1) line, true) else (line, false) in
  if HasPrefix line "/" && HasSuffix line "/" then
    let* line := inner line in
    if ignoreIPCIDRRegexp line then Ok (Ignored "rule with IPCIDR regexp")
    else Ok (Rule_ (mkLine line false isExclude isSuffix hasStart hasEnd true isImportant))
  else
    match checkDomain line isSuffix with
    | inl reason => Ok (Ignored reason)
    | inr (line, isSuffix) => Ok (Rule_ (mkLine line false isExclude isSuffix hasStart hasEnd false isImportant))
    end.

Definition parseLine (line : string) : result line_outcome :=
  if String.eqb line "" then Ok Skipped
  else if HasPrefix line "!" || HasPrefix line "#" then Ok Skipped
  else if IsDomainName line then Ok (Rule_ (mkLine line true false false false false false false))
  else match parseAdGuardHostLine line with
  | Ok hostLine =>
      if String.eqb hostLine "" then Ok Skipped
      else Ok (Rule_ (mkLine hostLine true false false true true false false))
  | _ =>
      let line := TrimSuffix line "|" in
      if negb (HasPrefix line "/") && strings_Contains line "$" then
        match modifiers (strings_Split ","%char (SubstringAfter line "$")) false with
        | inl isImportant => parsePattern (SubstringBefore line "$") isImportant
        | inr name => Ok (Ignored ("rule with modifier: " +:+ name))
        end
      else parsePattern line false
  end.

Fixpoint parseLines (lines : list string) : result (list agdguardRuleLine) :=
  match lines with
  | [] => Ok []
  | line :: rest =>
      let* outcome := parseLine line in
      let* ruleLines := parseLines rest in
      Ok (match outcome with Rule_ l => l :: ruleLines | _ => ruleLines end)
  end.

(** ** The rule *)

(** [common.Map]. *)
Definition Map {A} (f : A -> string) (l : list A) : Listable string :=
  match l with [] => if Map_empty_is_nil then None else Some [] | _ => Some (map f l) end.

Definition mapDomain (it : agdguardRuleLine) : string :=
  let line :=
    if isSuffix it then "||" +:+ ruleLine it
    else if hasStart it then "|" +:+ ruleLine it
    else ruleLine it in
  if hasEnd it then line +:+ "^" else line.

(** The lines of a kind. *)
Definition kind (important regexp exclude : bool) (l : agdguardRuleLine) : bool :=
  Bool.eqb (isImportant l) important && Bool.eqb (isRegexp l) regexp && Bool.eqb (isExclude l) exclude.
Definition lines_of (important regexp exclude : bool) (ruleLines : list agdguardRuleLine) : Listable string :=
  Map mapDomain (List.filter (kind important regexp exclude) ruleLines).

Definition adguardRule (domain domainRegex : Listable string) (invert : bool) : Opt.DefaultHeadlessRule := {|
  Opt.QueryType := None; Opt.Network := None; Opt.Domain := None; Opt.DomainSuffix := None; Opt.DomainKeyword := None;
  Opt.DomainRegex := domainRegex; Opt.SourceIPCIDR := None; Opt.IPCIDR := None; Opt.SourcePort := None; Opt.SourcePortRange := None;
  Opt.Port := None; Opt.PortRange := None; Opt.ProcessName := None; Opt.ProcessPath := None; Opt.ProcessPathRegex := None;
  Opt.NetworkType := None; Opt.NetworkIsExpensive := false; Opt.NetworkIsConstrained := false; Opt.WIFISSID := None;
  Opt.WIFIBSSID := None; Opt.NetworkInterfaceAddress := None; Opt.DefaultInterfaceAddress := None; Opt.Invert := invert;
  Opt.DomainMatcher := None; Opt.SourceIPSet := None; Opt.IPSet := None; Opt.AdGuardDomain := domain;
  Opt.AdGuardDomainMatcher := None |}.
Definition domainRule (domain : Listable string) : Opt.DefaultHeadlessRule := {|
  Opt.QueryType := None; Opt.Network := None; Opt.Domain := domain; Opt.DomainSuffix := None; Opt.DomainKeyword := None;
  Opt.DomainRegex := None; Opt.SourceIPCIDR := None; Opt.IPCIDR := None; Opt.SourcePort := None; Opt.SourcePortRange := None;
  Opt.Port := None; Opt.PortRange := None; Opt.ProcessName := None; Opt.ProcessPath := None; Opt.ProcessPathRegex := None;
  Opt.NetworkType := None; Opt.NetworkIsExpensive := false; Opt.NetworkIsConstrained := false; Opt.WIFISSID := None;
  Opt.WIFIBSSID := None; Opt.NetworkInterfaceAddress := None; Opt.DefaultInterfaceAddress := None; Opt.Invert := false;
  Opt.DomainMatcher := None; Opt.SourceIPSet := None; Opt.IPSet := None; Opt.AdGuardDomain := None;
  Opt.AdGuardDomainMatcher := None |}.

Definition noLogical : Opt.LogicalHeadlessRule Opt.HeadlessRule := Opt.mkLogicalHeadlessRule "" [] false.
Definition defaultRule (o : Opt.DefaultHeadlessRule) : Opt.HeadlessRule := Opt.mkHeadlessRule Opt.RuleTypeDefault o noLogical.
Definition logicalRule (mode : string) (rules : list Opt.HeadlessRule) : Opt.HeadlessRule :=
  Opt.mkHeadlessRule Opt.RuleTypeLogical (Opt.zero false) (Opt.mkLogicalHeadlessRule mode rules false).

(** One more layer around the rule, when there are lines for it. *)
Definition layer (mode : string) (invert : bool) (domain domainRegex : Listable string) (currentRule : Opt.HeadlessRule) : Opt.HeadlessRule :=
  if given domain || given domainRegex
  then logicalRule mode [defaultRule (adguardRule domain domainRegex invert); currentRule]
  else currentRule.

Definition buildRule (ruleLines : list agdguardRuleLine) : Opt.HeadlessRule :=
  let lines important regexp exclude := lines_of important regexp exclude ruleLines in
  let currentRule := defaultRule (adguardRule (lines false false false) (lines false true false) false) in
  let currentRule := layer "and" true (lines false false true) (lines false true true) currentRule in
  let currentRule := layer "or" false (lines true false false) (lines true true false) currentRule in
  layer "and" true (lines true false true) (lines true true true) currentRule.

Definition ToOptions (text : string) : result (list Opt.HeadlessRule) :=
  let* ruleLines := parseLines (Scanner_lines text) in
  match ruleLines with
  | [] => Err (ENew "AdGuard rule-set is empty or all rules are unsupported")
  | _ =>
      if forallb isRawDomain ruleLines
      then Ok [defaultRule (domainRule (Map ruleLine ruleLines))]
      else Ok [buildRule ruleLines]
  end.

(** ** Back to text *)

(** [adguard.ErrInvalid]. *)
Definition ErrInvalidRuleSet : go_error := ENew "invalid binary AdGuard rule-set".

(** The lists [FromOptions] collects. *)
Record groups := mkGroups {
  g_important : list string;
  g_importantRegex : list string;
  g_importantExclude : list string;
  g_importantExcludeRegex : list string;
  g_domain : list string;
  g_domainRegex : list string;
  g_exclude : list string;
  g_excludeRegex : list string;
}.
Definition noGroups : groups := mkGroups [] [] [] [] [] [] [] [].
Definition set_important (a b : list string) (g : groups) : groups :=
  mkGroups a b (g_importantExclude g) (g_importantExcludeRegex g) (g_domain g) (g_domainRegex g) (g_exclude g) (g_excludeRegex g).
Definition set_importantExclude (a b : list string) (g : groups) : groups :=
  mkGroups (g_important g) (g_importantRegex g) a b (g_domain g) (g_domainRegex g) (g_exclude g) (g_excludeRegex g).
Definition set_domain (a b : list string) (g : groups) : groups :=
  mkGroups (g_important g) (g_importantRegex g) (g_importantExclude g) (g_importantExcludeRegex g) a b (g_exclude g) (g_excludeRegex g).
Definition set_exclude (a b : list string) (g : groups) : groups :=
  mkGroups (g_important g) (g_importantRegex g) (g_importantExclude g) (g_importantExcludeRegex g) (g_domain g) (g_domainRegex g) a b.

Definition both_empty (a b : list string) : bool := negb (nonempty a) && negb (nonempty b).

(** The loop over the layers; [None]: a rule of another type than these two is
    looked at again and again. *)
Fixpoint collect (rule : Opt.HeadlessRule) (g : groups) : option (result groups) :=
  match rule with
  | Opt.mkHeadlessRule t o l =>
      if String.eqb t Opt.RuleTypeLogical then
        match l with
        | Opt.mkLogicalHeadlessRule mode [Opt.mkHeadlessRule t0 o0 _; next] _ =>
            let a := elems (Opt.AdGuardDomain o0) in
            let b := elems (Opt.DomainRegex o0) in
            if negb (String.eqb t0 Opt.RuleTypeDefault) then Some (Err ErrInvalidRuleSet)
            else if String.eqb mode "and" && Opt.Invert o0 then
              if both_empty a b then Some (Err ErrInvalidRuleSet)
              else collect next (if both_empty (g_importantExclude g) (g_importantExcludeRegex g) then set_importantExclude a b g else set_exclude a b g)
            else if String.eqb mode "or" && negb (Opt.Invert o0) then
              if both_empty a b then Some (Err ErrInvalidRuleSet) else collect next (set_important a b g)
            else Some (Err ErrInvalidRuleSet)
        | _ => Some (Err ErrInvalidRuleSet)
        end
      else if String.eqb t Opt.RuleTypeDefault then
        let a := elems (Opt.AdGuardDomain o) in
        let b := elems (Opt.DomainRegex o) in
        Some (if both_empty a b then Err ErrInvalidRuleSet else Ok (set_domain a b g))
      else None
  end.

(** Lines with what is written before and after each. *)
Definition print_lines (before after : string) (lines : list string) : string :=
  String.concat "" (map (fun line => before +:+ line +:+ after +:+ String newline "") lines).
Definition print (g : groups) : string :=
  print_lines "" "$important" (g_important g) +:+ print_lines "/" "/$important" (g_importantRegex g)
  +:+ print_lines "@@" "$important" (g_importantExclude g) +:+ print_lines "@@/" "/$important" (g_importantExcludeRegex g)
  +:+ print_lines "" "" (g_domain g) +:+ print_lines "/" "/" (g_domainRegex g)
  +:+ print_lines "@@" "" (g_exclude g) +:+ print_lines "@@/" "/" (g_excludeRegex g).

Definition FromOptions (rules : list Opt.HeadlessRule) : option (result string) :=
  match rules with
  | [rule] => option_map (fun r => let* g := r in Ok (print g)) (collect rule noGroups)
  | _ => Some (Err ErrInvalidRuleSet)
  end.
End Convert.

(** ** What the rule means *)

Section Meaning.
Context `{GE : GoEnv} `{AE : AdGuardEnv} (rt : RuntimeState).

(** A matcher of several lines matches when one of them does. *)
Class AdGuardLaws := {
  adguard_any : forall lines host,
    AdGuardMatcher_Match (NewAdGuardMatcher lines) host = existsb (fun line => AdGuardMatcher_Match (NewAdGuardMatcher [line]) host) lines
}.
Context `{AL : AdGuardLaws}.

Definition line_matches (host : string) (l : agdguardRuleLine) : bool :=
  if isRegexp l then regexes_match [mapDomain l] host else AdGuardMatcher_Match (NewAdGuardMatcher [mapDomain l]) host.

(** Does a line that is (not) important and (not) an exception match? *)
Definition any_line (important exclude : bool) (ruleLines : list agdguardRuleLine) (host : string) : bool :=
  existsb (fun l => Bool.eqb (isImportant l) important && Bool.eqb (isExclude l) exclude && line_matches host l) ruleLines.

Definition adguard_spec (ruleLines : list agdguardRuleLine) (host : string) : bool :=
  negb (any_line true true ruleLines host)
  && (any_line true false ruleLines host
      || negb (any_line false true ruleLines host) && any_line false false ruleLines host).

(** The lines of one kind of a list, and whether there are any. *)
Definition some_line (important exclude : bool) (ruleLines : list agdguardRuleLine) : bool :=
  existsb (fun l => Bool.eqb (isImportant l) important && Bool.eqb (isExclude l) exclude) ruleLines.

Lemma elems_lines important regexp exclude ls : elems (lines_of important regexp exclude ls) = map mapDomain (List.filter (kind important regexp exclude) ls).
Proof. unfold lines_of, Map. destruct (List.filter _ ls); [by destruct Map_empty_is_nil|done]. Qed.
Lemma given_lines important regexp exclude ls : given (lines_of important regexp exclude ls) = existsb (kind important regexp exclude) ls.
Proof.
  unfold lines_of, Map. induction ls as [|l ls IH]; cbn; [by destruct Map_empty_is_nil|]. destruct (kind _ _ _ l); [done|apply IH].
Qed.

Lemma given_both important exclude ls :
  given (lines_of important false exclude ls) || given (lines_of important true exclude ls) = some_line important exclude ls.
Proof.
  rewrite !given_lines. unfold some_line. induction ls as [|l ls IH]; [done|]. cbn [existsb]. rewrite <- IH. unfold kind.
  destruct (Bool.eqb (isImportant l) important), (Bool.eqb (isExclude l) exclude), (isRegexp l); cbn; rewrite ?orb_true_r; try done.
Qed.

(** The lines of a layer match when one of them does. *)
Definition layer_matches (domain domainRegex : Listable string) (host : string) : bool :=
  regexes_match (elems domainRegex) host || (given domain && AdGuardMatcher_Match (NewAdGuardMatcher (elems domain)) host).

Lemma default_layer nm domain domainRegex invert md : given domain || given domainRegex = true -> domainHost md <> "" ->
  headless_spec rt nm (defaultRule (adguardRule domain domainRegex invert)) md = xorb invert (layer_matches domain domainRegex (strings_ToLower (domainHost md))).
Proof.
  intros Hg Hh. unfold defaultRule. cbn [headless_spec]. change (Opt.isDefaultType Opt.RuleTypeDefault) with true. cbv iota.
  assert (has_domain (adguardRule domain domainRegex invert) = true) as Hd by (unfold has_domain; cbn; by rewrite orb_false_r, orb_comm).
  assert (has_conditions nm (adguardRule domain domainRegex invert) = true) as -> by (unfold has_conditions, conditions_given; rewrite Hd; cbn; by rewrite ?orb_true_r).
  cbn [Opt.Invert adguardRule]. f_equal. unfold default_spec, conditions_hold. rewrite Hd. cbn.
  rewrite !andb_true_r, orb_true_r, orb_false_r. unfold domain_spec, layer_matches. cbn. apply String.eqb_neq in Hh. rewrite Hh. cbn.
  by destruct (given domain).
Qed.

Lemma regexes_any lines host : regexes_match lines host = existsb (fun line => regexes_match [line] host) lines.
Proof. unfold regexes_match. induction lines as [|l ls IH]; [done|]. cbn [existsb]. by rewrite IH, orb_false_r. Qed.

Lemma existsb_map_filter {A B} (f : A -> B) (p : A -> bool) (q : B -> bool) l : existsb q (map f (List.filter p l)) = existsb (fun x => p x && q (f x)) l.
Proof. induction l as [|x l IH]; [done|]. cbn. destruct (p x); cbn; by rewrite IH. Qed.

Lemma existsb_orb {A} (p q : A -> bool) l : existsb p l || existsb q l = existsb (fun x => p x || q x) l.
Proof. induction l as [|x l IH]; [done|]. cbn. rewrite <- IH. by destruct (p x), (q x), (existsb p l). Qed.

Lemma existsb_ext' {A} (p q : A -> bool) l : (forall x, p x = q x) -> existsb p l = existsb q l.
Proof. intros H. induction l as [|x l IH]; [done|]. cbn. by rewrite H, IH. Qed.

Lemma layer_any important exclude ls host :
  layer_matches (lines_of important false exclude ls) (lines_of important true exclude ls) host = any_line important exclude ls host.
Proof.
  unfold layer_matches. rewrite regexes_any, adguard_any, !elems_lines, !existsb_map_filter, given_lines.
  assert (forall p q : agdguardRuleLine -> bool, existsb p ls && existsb (fun x => p x && q x) ls = existsb (fun x => p x && q x) ls) as Hp.
  { intros p q. induction ls as [|l ls' IH]; [done|]. cbn. rewrite <- IH. by destruct (p l), (q l), (existsb p ls'). }
  rewrite Hp, existsb_orb. apply existsb_ext'. intros l. unfold kind, line_matches.
  destruct (Bool.eqb (isImportant l) important), (Bool.eqb (isExclude l) exclude), (isRegexp l); cbn; by rewrite ?orb_false_r.
Qed.

(** No line of a kind, no match. *)
Lemma no_line important exclude ls host : some_line important exclude ls = false -> any_line important exclude ls host = false.
Proof.
  unfold some_line, any_line. induction ls as [|l ls IH]; [done|]. cbn. intros [Hl H]%orb_false_iff. by rewrite Hl, IH.
Qed.

Lemma default_lines nm important exclude invert ls md : some_line important exclude ls = true -> domainHost md <> "" ->
  headless_spec rt nm (defaultRule (adguardRule (lines_of important false exclude ls) (lines_of important true exclude ls) invert)) md
  = xorb invert (any_line important exclude ls (strings_ToLower (domainHost md))).
Proof. intros Hs Hh. rewrite default_layer by (try done; by rewrite given_both). by rewrite layer_any. Qed.

Lemma layer_spec nm mode important exclude invert ls current md : domainHost md <> "" ->
  headless_spec rt nm (layer mode invert (lines_of important false exclude ls) (lines_of important true exclude ls) current) md =
  if some_line important exclude ls then
    let here := xorb invert (any_line important exclude ls (strings_ToLower (domainHost md))) in
    if String.eqb mode "and" then here && headless_spec rt nm current md else here || headless_spec rt nm current md
  else headless_spec rt nm current md.
Proof.
  intros Hh. unfold layer. rewrite given_both. destruct (some_line important exclude ls) eqn:Hs; [|done].
  unfold logicalRule. cbn [headless_spec]. change (Opt.isDefaultType Opt.RuleTypeLogical) with false. cbn [Opt.LogicalInvert Opt.Mode Opt.Rules xorb].
  rewrite ?xorb_false_l. cbn [forallb existsb]. rewrite default_lines by done. rewrite andb_true_r, orb_false_r. done.
Qed.

Lemma buildRule_spec nm ls md : some_line false false ls = true -> domainHost md <> "" ->
  headless_spec rt nm (buildRule ls) md = adguard_spec ls (strings_ToLower (domainHost md)).
Proof.
  intros Hp Hh. unfold buildRule, adguard_spec. rewrite !layer_spec by done. rewrite default_lines by done. set (host := strings_ToLower (domainHost md)).
  pose proof (no_line true true ls host) as N1. pose proof (no_line true false ls host) as N2. pose proof (no_line false true ls host) as N3.
  destruct (some_line true true ls), (some_line true false ls), (some_line false true ls); cbn; rewrite ?(N1 eq_refl), ?(N2 eq_refl), ?(N3 eq_refl); cbn;
    by rewrite ?xorb_false_l, ?xorb_true_l.
Qed.
End Meaning.

(** C32: a converted AdGuard filter means what its lines say.  The rule that
    [ToOptions] builds of a filter with at least one plain line, one that is
    neither an exception nor $important, matches a connection to a host if and only
    if no important exception matches the host, and an important line matches it,
    or no exception and some plain line does.  (Without a plain line this fails: see
    [only_important_rejected] and [only_important_matches_all].)  A filter that is a
    list of domains matches exactly these.  The connection has a host, and is
    matched without the options of a referring rule and outside the legacy
    pre-match, which change what address conditions apply to. *)
Theorem adguard_semantics `{GE : GoEnv} `{AE : AdGuardEnv} `{AL : !AdGuardLaws} (rt : RuntimeState) (hasNetworkManager : bool)
    (text : string) (ls : list agdguardRuleLine) (r : Opt.HeadlessRule) (rule : Rule) (md : InboundContext) :
  parseLines (Scanner_lines text) = Ok ls -> ToOptions text = Ok [r] -> NewHeadlessRule hasNetworkManager r = Ok rule ->
  domainHost md <> "" -> IPCIDRMatchSource md = false -> IPCIDRAcceptEmpty md = false -> IgnoreDestinationIPCIDRMatch md = false ->
  let host := strings_ToLower (domainHost md) in
  (forallb isRawDomain ls = true -> Rule_Match rt rule md = Matcher_Match (NewMatcher (map ruleLine ls) [] false) host) /\
  (forallb isRawDomain ls = false -> some_line false false ls = true -> Rule_Match rt rule md = adguard_spec ls host).
Proof.
  intros Hls Hto Hrule Hh ? ? ?. rewrite (Rule_Match_spec rt hasNetworkManager r rule md) by done. unfold ToOptions in Hto. rewrite Hls in Hto. cbn [bind_result] in Hto.
  destruct ls as [|l ls']; [done|]. destruct (forallb isRawDomain (l :: ls')); (split; [intros Hraw|intros Hraw]); try done.
  - assert (r = defaultRule (domainRule (Map ruleLine (l :: ls')))) as -> by congruence. apply String.eqb_neq in Hh. assert (headless_spec rt hasNetworkManager (defaultRule (domainRule (Map ruleLine (l :: ls')))) md = domain_spec (domainRule (Map ruleLine (l :: ls'))) md) as ->
      by (cbn; unfold default_spec, conditions_hold; cbn; by rewrite ?orb_true_r, ?orb_false_r, ?andb_true_r).
    unfold domain_spec. rewrite Hh. cbn. by rewrite !orb_false_r.
  - assert (r = buildRule (l :: ls')) as -> by congruence. intros Hp. by apply buildRule_spec.
Qed.

(** ** Printing *)

Section Printing.
Context `{GE : GoEnv} `{AE : AdGuardEnv}.

Definition texts (important regexp exclude : bool) (ls : list agdguardRuleLine) : list string := map mapDomain (List.filter (kind important regexp exclude) ls).

(** The lines of a filter, by kind. *)
Definition groups_of (ls : list agdguardRuleLine) : groups :=
  mkGroups (texts true false false ls) (texts true true false ls) (texts true false true ls) (texts true true true ls)
    (texts false false false ls) (texts false true false ls) (texts false false true ls) (texts false true true ls).

Lemma both_empty_lines important exclude ls :
  both_empty (texts important false exclude ls) (texts important true exclude ls) = negb (some_line important exclude ls).
Proof.
  rewrite <- given_both, !given_lines. unfold both_empty, texts. assert (forall p, nonempty (map mapDomain (List.filter p ls)) = existsb p ls) as H.
  { intros p. induction ls as [|l ls' IH]; [done|]. cbn. by destruct (p l). }
  by rewrite !H, negb_orb.
Qed.

Lemma collect_layer mode invert important exclude ls current g : collect (layer mode invert (lines_of important false exclude ls) (lines_of important true exclude ls) current) g =
  if some_line important exclude ls then
    if String.eqb mode "and" && invert then
      collect current (if both_empty (g_importantExclude g) (g_importantExcludeRegex g) then set_importantExclude (texts important false exclude ls) (texts important true exclude ls) g
                       else set_exclude (texts important false exclude ls) (texts important true exclude ls) g)
    else if String.eqb mode "or" && negb invert then collect current (set_important (texts important false exclude ls) (texts important true exclude ls) g)
    else Some (Err ErrInvalidRuleSet)
  else collect current g.
Proof.
  unfold layer. rewrite given_both. destruct (some_line important exclude ls) eqn:Hs; [|done]. unfold logicalRule, defaultRule.
  cbn [collect]. change (String.eqb Opt.RuleTypeLogical Opt.RuleTypeLogical) with true. change (String.eqb Opt.RuleTypeDefault Opt.RuleTypeDefault) with true.
  cbn [negb adguardRule Opt.AdGuardDomain Opt.DomainRegex Opt.Invert]. rewrite !elems_lines. fold (texts important false exclude ls) (texts important true exclude ls).
  rewrite both_empty_lines, Hs. done.
Qed.
End Printing.

(** [FromOptions] prints the lines a rule was built of.  For a filter with
    lines to block that is not a plain list of domains, and which has no
    exceptions or also important ones, the printed filter has exactly the lines
    that were kept, each with its marks, the important ones first. *)
Theorem adguard_printed `{GE : GoEnv} `{AE : AdGuardEnv} (text : string) (ls : list agdguardRuleLine) (r : Opt.HeadlessRule) :
  parseLines (Scanner_lines text) = Ok ls -> ToOptions text = Ok [r] -> forallb isRawDomain ls = false -> some_line false false ls = true ->
  some_line true true ls = true \/ some_line false true ls = false ->
  FromOptions [r] = Some (Ok (print (groups_of ls))).
Proof.
  intros Hls Hto Hraw Hp Hex. unfold ToOptions in Hto. rewrite Hls in Hto. cbn [bind_result] in Hto. destruct ls as [|l ls']; [done|]. rewrite Hraw in Hto. injection Hto as <-.
  set (ls := l :: ls') in *. unfold FromOptions, buildRule.
  assert (forall i e, some_line i e ls = false -> texts i false e ls = [] /\ texts i true e ls = []) as Hno.
  { intros i e H. pose proof (both_empty_lines i e ls) as Hb. rewrite H in Hb. unfold both_empty in Hb. apply andb_true_iff in Hb as [H1 H2]. by destruct (texts i false e ls), (texts i true e ls). }
  assert (forall g, collect (defaultRule (adguardRule (lines_of false false false ls) (lines_of false true false ls) false)) g
    = Some (Ok (set_domain (texts false false false ls) (texts false true false ls) g))) as Hd.
  { intros g. unfold defaultRule. cbn [collect]. change (String.eqb Opt.RuleTypeDefault Opt.RuleTypeLogical) with false. change (String.eqb Opt.RuleTypeDefault Opt.RuleTypeDefault) with true.
    cbn [adguardRule Opt.AdGuardDomain Opt.DomainRegex]. rewrite !elems_lines. fold (texts false false false ls) (texts false true false ls). by rewrite both_empty_lines, Hp. }
  rewrite !collect_layer, !Hd. change (String.eqb "and" "and") with true. change (String.eqb "or" "and") with false. change (String.eqb "or" "or") with true. cbn [andb negb].
  pose proof (both_empty_lines true true ls) as Hb. unfold groups_of.
  destruct (some_line true true ls) eqn:E1, (some_line true false ls) eqn:E2, (some_line false true ls) eqn:E3;
    try (destruct Hex; discriminate); rewrite ?(proj1 (Hno _ _ E1)), ?(proj2 (Hno _ _ E1)), ?(proj1 (Hno _ _ E2)), ?(proj2 (Hno _ _ E2)), ?(proj1 (Hno _ _ E3)), ?(proj2 (Hno _ _ E3)).
  all: cbn [option_map bind_result both_empty nonempty negb andb noGroups g_importantExclude g_importantExcludeRegex set_importantExclude set_important set_exclude set_domain] in *.
  all: rewrite ?Hb; done.
Qed.

(** ** Where the conversion departs from its purpose *)

(** A line that does not fit into the buffer of the scanner ends the filter:
    the error of the scanner is not looked at. *)
Lemma long_line_ends_filter line rest : contains_char newline line = false -> 65536 <= Z.of_nat (String.length line) ->
  Scanner_lines (line +:+ String newline rest) = [].
Proof.
  intros Hn Hl. unfold Scanner_lines. rewrite split_first by done.
  assert (exists more, drop_last_empty (line :: strings_Split newline rest) = line :: more) as [more ->].
  { cbn. destruct (strings_Split newline rest); [|by eexists]. destruct (String.eqb_spec line "") as [->|]; [cbn in Hl; lia|by eexists]. }
  cbn [until_too_long]. unfold MaxScanTokenSize. by rewrite (proj2 (Z.ltb_ge _ _)) by lia.
Qed.

Module AdGuardDemo.
#[local] Existing Instance demoEnv.

(** Letters, digits, dots and hyphens. *)
Definition domain_char (c : ascii) : bool :=
  let n := nat_of_ascii c in
  ((48 <=? n)%nat && (n <=? 57)%nat) || ((97 <=? n)%nat && (n <=? 122)%nat) || Ascii.eqb c "."%char || Ascii.eqb c "-"%char.
Fixpoint all_chars (s : string) : bool := match s with EmptyString => true | String c rest => domain_char c && all_chars rest end.
Fixpoint after (sep s : string) : option string :=
  if String.prefix sep s then Some (string_drop (String.length sep) s) else match s with EmptyString => None | String _ rest => after sep rest end.
Fixpoint before (sep s : string) : string :=
  if String.prefix sep s then "" else match s with EmptyString => "" | String c rest => String c (before sep rest) end.

Definition demoAdGuard (nil : bool) : AdGuardEnv := {|
  IsDomainName s := negb (String.eqb s "") && all_chars s && negb (HasPrefix s ".") && negb (HasPrefix s "-");
  M_ParseAddr s := if String.eqb s "0.0.0.0" then Addr4 0 else AddrInvalid;
  Socksaddr_port s := 0;
  SubstringAfter s sep := default s (after sep s);
  SubstringBefore s sep := before sep s;
  Map_empty_is_nil := nil;
|}.
#[local] Instance demoAdGuardEnv : AdGuardEnv := demoAdGuard true.

#[local] Instance demoLaws : AdGuardLaws.
Proof. constructor. intros lines host. cbn. induction lines as [|l ls IH]; [done|]. cbn [existsb]. by rewrite IH, orb_false_r. Qed.

Definition nl : string := String newline "".
Definition text_of (lines : list string) : string := String.concat "" (map (fun l => l +:+ nl) lines).

(** The filter of the tests of the converter. *)
Definition filter : list string :=
  ["||sagernet.org^$important"; "@@|sing-box.sagernet.org^$important"; "||example.org^"; "|example.com^"; "example.net^"; "||example.edu";
   "||example.edu.tw^"; "|example.gov"; "example.arpa"; "@@|sagernet.example.org^"].
Definition parsed (lines : list string) : list agdguardRuleLine := match parseLines lines with Ok ls => ls | _ => [] end.
Definition converted (lines : list string) : Opt.HeadlessRule := match ToOptions (text_of lines) with Ok [r] => r | _ => defaultRule (domainRule None) end.
Definition converts (lines : list string) : bool := match ToOptions (text_of lines) with Ok [_] => true | _ => false end.
Lemma converted_ok lines : converts lines = true -> ToOptions (text_of lines) = Ok [converted lines].
Proof. unfold converts, converted. by destruct (ToOptions (text_of lines)) as [[|r [|? ?]]| |]. Qed.
Definition matches (r : Opt.HeadlessRule) (host : string) : bool := Rule_Match demoRuntime (demoBuilt r) (demoConnection host).

Lemma adguard_semantics_witness :
  matches (converted filter) "www.example.org" = true /\ matches (converted filter) "sagernet.example.org" = false.
Proof.
  assert (forall host, host <> "" -> matches (converted filter) host = adguard_spec (parsed filter) (string_lower host)) as H.
  { intros host Hh. unfold matches.
    destruct (adguard_semantics demoRuntime true (text_of filter) (parsed filter) (converted filter) (demoBuilt (converted filter)) (demoConnection host)) as [_ H];
      [by_compute|apply converted_ok; by_compute|apply demoBuilt_ok; by_compute|exact Hh|by_compute|by_compute|by_compute|].
    apply H; by_compute. }
  split; (rewrite H; [by_compute|discriminate]).
Defined.

Lemma adguard_printed_witness : FromOptions [converted filter] = Some (Ok (text_of filter)).
Proof.
  rewrite (adguard_printed (text_of filter) (parsed filter)); [by_compute|by_compute|apply converted_ok; by_compute|by_compute|by_compute|left; by_compute].
Defined.

(** What the tests expect of it. *)
Example filter_matches : forallb (matches (converted filter))
  ["example.org"; "www.example.org"; "example.com"; "example.net"; "isexample.net"; "www.example.net"; "example.edu"; "example.edu.cn"; "example.edu.tw"; "www.example.edu";
   "www.example.edu.cn"; "example.gov"; "example.gov.cn"; "example.arpa"; "www.example.arpa"; "isexample.arpa"; "example.arpa.cn"; "www.example.arpa.cn"; "isexample.arpa.cn";
   "sagernet.org"; "www.sagernet.org"] = true.
Proof. by_compute. Qed.
Example filter_rejects : existsb (matches (converted filter))
  ["example.org.cn"; "notexample.org"; "example.com.cn"; "www.example.com.cn"; "example.net.cn"; "notexample.edu"; "notexample.edu.cn"; "www.example.gov"; "notexample.gov";
   "sagernet.example.org"; "sing-box.sagernet.org"] = false.
Proof. by_compute. Qed.

(** A filter with an exception and no important one: printed and converted
    again the exception is important, and a host is no longer blocked. *)
Definition with_exception : list string := ["||ads.example^$important"; "||example.org^"; "@@|ads.example^"].
Definition reprinted : list string := match FromOptions [converted with_exception] with Some (Ok text) => Scanner_lines text | _ => [] end.
Example exceptions_become_important :
  reprinted = ["||ads.example^$important"; "@@|ads.example^$important"; "||example.org^"]
  /\ matches (converted with_exception) "ads.example" = true /\ matches (converted reprinted) "ads.example" = false.
Proof. split; [by_compute|]. split; by_compute. Qed.

(** A slash alone. *)
Example single_slash_panics : ToOptions (text_of ["||example.org^"; "/"]) = Panic "runtime error: slice bounds out of range [1:0]".
Proof. by_compute. Qed.

(** The form [FromOptions] prints an important regular expression in is not read back. *)
Example important_regexp_ignored : parseLine "/ads[0-9]+/$important" = Ok (Ignored "rule with path").
Proof. by_compute. Qed.

(** Only important lines: the innermost rule has no condition. *)
Definition only_important : list string := ["||example.org^$important"].
Example only_important_rejected : is_ok (NewHeadlessRule true (converted only_important)) = false.
Proof. by_compute. Qed.
Example only_important_matches_all :
  match @ToOptions _ (demoAdGuard false) (text_of only_important) with Ok [r] => matches r "unrelated.net" | _ => false end = true.
Proof. by_compute. Qed.

End AdGuardDemo.
