(* ===== verification/SingBuf.v ===== *)
(** * Buffers of the sing library

    The protocols write their headers into a [buf.Buffer] of
    github.com/sagernet/sing: to a buffer of a given capacity ([buf.NewSize] and
    [Write]) or into the room before the data of a buffer ([ExtendHeader]).  The
    library is a parameter, the class [BufEnv]; [BufLaws] states what the
    protocols rely on: a write that fits is appended, room that is there can be
    used, and a read that fits reads exactly the bytes asked for. *)
From Stdlib Require Import ZArith Lia Bool.
From S2P Require Import Prelude GoIO.

(** [buf.Buffer]: the number of bytes before the data, and the data. *)
Record Buffer := mkBuffer { b_start : Z; b_data : list byte }.

Class BufEnv := {
  buf_Write : Z -> list byte -> list byte -> result (list byte); (* capacity, content, data *)
  ExtendHeader : Buffer -> Z -> result (list byte);          (* the bytes before the data, to be overwritten *)
  ReadFullFrom : Z -> Z -> Reader (list byte);               (* free room of the buffer, bytes to read *)
  SkipN : Z -> Reader unit;                                  (* rw.SkipN *)
}.

Class BufLaws `{BufEnv} := {
  buf_Write_room : forall cap content data, zlen content + zlen data <= cap -> buf_Write cap content data = Ok (content ++ data);
  ExtendHeader_room : forall b n, 0 <= n <= b_start b -> exists room, ExtendHeader b n = Ok room /\ zlen room = n;
  ReadFullFrom_room : forall bs free, zlen bs <= free -> decodes (ReadFullFrom free (zlen bs)) bs bs;
  SkipN_decodes : forall bs, decodes (SkipN (zlen bs)) bs tt;
  SkipN_shrinks : forall n, shrinks (SkipN n);
  SkipN_returns : forall n i, is_panic (SkipN n i) = false;
}.

(** [common.Must]. *)
Definition must {A} (m : result A) : result A := match m with Err _ => Panic "must" | _ => m end.

(** The bytes of a buffer after [header] was written to the room before its data. *)
Definition overwritten (room header : list byte) (payload : Buffer) : list byte := (header ++ drop (length header) room) ++ b_data payload.

Lemma overwritten_exact room header payload : zlen room = zlen header -> overwritten room header payload = header ++ b_data payload.
Proof. intros Hl. unfold overwritten. rewrite drop_ge by (unfold zlen in Hl; lia). by rewrite app_nil_r. Qed.

(** [binary.Read] of a uint16. *)
Definition ReadUint16 : Reader Z := let! bs := ReadFull 2 in rret (be_decode bs).

Lemma decodes_ReadUint16 v : is_uint 16 v -> decodes ReadUint16 (be_encode 2 v) v.
Proof.
  intros Hv. unfold ReadUint16. rewrite <- (be_decode_encode 2 v) at 2 by apply Hv.
  apply (decodes_map (ReadFull 2) be_decode), decodes_ReadFull_n. unfold zlen. by rewrite length_be_encode.
Qed.

(** ** Readers that do not panic *)

Lemma ReadFull_returns n i : is_panic (ReadFull n i) = false.
Proof. unfold ReadFull. destruct (n <=? zlen i); [done|]. by destruct i. Qed.

Lemma rbind_returns {A B} (r : Reader A) (k : A -> Reader B) : (forall i, is_panic (r i) = false) -> (forall a i, is_panic (k a i) = false) ->
  forall i, is_panic (rbind r k i) = false.
Proof. intros Hr Hk i. unfold rbind. specialize (Hr i). destruct (r i) as [[a o]| |]; [apply Hk|done|done]. Qed.

Lemma rcause_returns {A} msg (r : Reader A) : (forall i, is_panic (r i) = false) -> forall i, is_panic (rcause msg r i) = false.
Proof. intros Hr i. unfold rcause. specialize (Hr i). by destruct (r i). Qed.

(** ** An instance *)

Module BufDemo.

#[export] Instance demoBuf : BufEnv := {|
  buf_Write cap content data := if cap <? zlen content + zlen data then Err (ENew "short buffer") else Ok (content ++ data);
  ExtendHeader b n := if (0 <=? n) && (n <=? b_start b) then Ok (repeat x00 (Z.to_nat n)) else Panic "buffer overflow";
  ReadFullFrom free n := if free <? n then rlift (Err (ENew "short buffer")) else ReadFull n;
  SkipN n := let! _ := ReadFull n in rret tt;
|}.

#[export] Instance demoBufLaws : BufLaws.
Proof.
  split.
  - intros cap content data Hr. cbn. by rewrite (proj2 (Z.ltb_ge _ _)) by lia.
  - intros b n Hn. cbn. rewrite (proj2 (Z.leb_le 0 n)), (proj2 (Z.leb_le n _)) by lia. eexists. split; [done|]. unfold zlen. rewrite List.repeat_length. lia.
  - intros bs free Hf. cbn. rewrite (proj2 (Z.ltb_ge _ _)) by lia. apply decodes_ReadFull.
  - intros bs. cbn. apply (decodes_map (ReadFull (zlen bs)) (fun _ => tt) _ bs), decodes_ReadFull.
  - intros n. cbn. apply shrinks_bind; [apply shrinks_ReadFull|intros ?; apply shrinks_ret].
  - intros n. cbn. apply rbind_returns; [apply ReadFull_returns|done].
Qed.

End BufDemo.
