(* ===== verification/Trojan.v ===== *)
(** * The trojan protocol (transport/trojan, protocol/trojan)

    A client proves that it knows a password by sending the hexadecimal SHA-224
    of it, followed by a command, the destination and the payload; packets are
    framed by their destination and length.  Client: [ClientConn] and
    [ClientPacketConn] with the three ways to write the request (protocol.go).
    Server: [Service] with its users, the request it reads, the fallback for
    everybody else (service.go), the streams of a multiplexed connection
    (mux.go), and the inbound that names the user and picks the address of the
    fallback (protocol/trojan/inbound.go).

    A connection being written is the list of the payloads handed to it, with
    [write_ends] for the outcome of each write.  A connection being read is the
    list of the pieces in which its bytes arrive: the key is read with one
    [Read], which returns at most one piece; all later reads go on until they
    have what they need, so that only the bytes left matter.

    Parameters: SHA-224 and the address serializer ([TrojanEnv], [TrojanLaws]),
    the buffers of the library below (SingBuf).

    - A request is understood: user, destination and payload arrive
      ([trojan_request_understood]), and packets arrive one by one
      ([trojan_packets_arrive]).
    - Who does not send a key of a user is given to the fallback with every byte
      of the connection ([trojan_fallback_intact]).
    - Users and keys stay inverse to each other ([trojan_users_inverse]). *)
From stdpp Require Import gmap.
From Stdlib Require Import ZArith Lia Bool.
From S2P Require Import Prelude GoIO Metadata SingBuf.

Definition KeyLength : Z := 56.
Definition CommandTCP : Z := 1.
Definition CommandUDP : Z := 3.
Definition CommandMux : Z := 127.
Definition CRLF : list byte := [x0d; x0a].

Class TrojanEnv := {
  sha224 : list byte -> list byte;
  AddrPortLen : Socksaddr -> Z;                              (* M.SocksaddrSerializer *)
  WriteAddrPort : Socksaddr -> result (list byte);
  ReadAddrPort : Reader Socksaddr;
  wireAddr : Socksaddr -> Socksaddr;                         (* the form in which an address is read back *)
  MaxSocksaddrLength : Z;
  Socksaddr_IsValid : Socksaddr -> bool;
}.

Section Client.
Context `{BE : BufEnv} `{TE : TrojanEnv} (write_ends : nat -> option go_error).

Definition hex_digit (n : Z) : byte := byte_of_Z (if n <? 10 then 48 + n else 87 + n).
Definition hex_Encode (bs : list byte) : list byte :=
  concat (map (fun b => [hex_digit (Z_of_byte b / 16); hex_digit (Z_of_byte b mod 16)]) bs).

Definition Key (password : string) : list byte := hex_Encode (sha224 (bytes_of_string password)).

(** ** The connection below *)

Definition Sent := list (list byte).
Definition conn_Write (payload : list byte) (sent : Sent) : Sent * result unit :=
  (sent ++ [payload], match write_ends (length sent) with None => Ok tt | Some e => Err e end).

(** A step that may fail before anything is written. *)
Definition prepared (m : result (list byte)) (k : list byte -> Sent -> Sent * result unit) (sent : Sent) : Sent * result unit :=
  match m with Ok bytes => k bytes sent | Err e => (sent, Err e) | Panic s => (sent, Panic s) end.
Definition andThen (m : Sent * result unit) (k : Sent -> Sent * result unit) : Sent * result unit :=
  match m with (sent, Ok _) => k sent | (sent, Err e) => (sent, Err e) | (sent, Panic s) => (sent, Panic s) end.
Definition caused (msg : string) (m : Sent * result unit) : Sent * result unit := (m.1, with_cause msg m.2).

(** ** Requests *)

Definition ClientHandshakeRaw (key : list byte) (command : Z) (destination : Socksaddr) (payload : list byte) (sent : Sent) : Sent * result unit :=
  andThen (conn_Write key sent) (fun sent =>
  andThen (conn_Write CRLF sent) (fun sent =>
  andThen (conn_Write [byte_of_Z command] sent) (fun sent =>
  andThen (prepared (WriteAddrPort destination) conn_Write sent) (fun sent =>
  andThen (conn_Write CRLF sent) (fun sent =>
  if bool_decide (payload = []) then (sent, Ok tt) else conn_Write payload sent))))).

(** The request as it is written to a buffer of a capacity. *)
Definition requestHeader (cap : Z) (key : list byte) (command : Z) (destination : Socksaddr) : result (list byte) :=
  let* header := must (buf_Write cap [] key) in
  let* header := must (buf_Write cap header CRLF) in
  let* header := must (buf_Write cap header [byte_of_Z command]) in
  let* address := WriteAddrPort destination in
  let* header := buf_Write cap header address in
  must (buf_Write cap header CRLF).

Definition ClientHandshake (key : list byte) (destination : Socksaddr) (payload : list byte) : Sent -> Sent * result unit :=
  let cap := KeyLength + AddrPortLen destination + 5 + zlen payload in
  prepared (let* header := requestHeader cap key CommandTCP destination in must (buf_Write cap header payload))
    (fun bytes sent => caused "write request" (conn_Write bytes sent)).

Definition socksaddrLen (destination : Socksaddr) : result Z :=
  let destinationLen := AddrPortLen destination in
  if MaxSocksaddrLength <? destinationLen then Err (ENew "destination address too long") else Ok destinationLen.

Definition ClientHandshakeBuffer (key : list byte) (destination : Socksaddr) (payload : Buffer) : Sent -> Sent * result unit :=
  prepared (let* destinationLen := socksaddrLen destination in
            let* room := ExtendHeader payload (KeyLength + destinationLen + 5) in
            let* header := requestHeader (zlen room) key CommandTCP destination in
            Ok (overwritten room header payload))
    (fun bytes sent => caused "write request" (conn_Write bytes sent)).

(** The frame of a packet, appended to what is in the header. *)
Definition packetHeader (cap : Z) (header : list byte) (destination : Socksaddr) (length : Z) : result (list byte) :=
  let* address := WriteAddrPort destination in
  let* header := buf_Write cap header address in
  let* header := must (buf_Write cap header (be_encode 2 (uint16 length))) in
  must (buf_Write cap header CRLF).

Definition handshakePacketHeader (cap : Z) (key : list byte) (destination : Socksaddr) (length : Z) : result (list byte) :=
  let* header := requestHeader cap key CommandUDP destination in
  let* address := must (WriteAddrPort destination) in
  let* header := must (buf_Write cap header address) in
  let* header := must (buf_Write cap header (be_encode 2 (uint16 length))) in
  must (buf_Write cap header CRLF).

Definition ClientHandshakePacket (key : list byte) (destination : Socksaddr) (payload : Buffer) (sent : Sent) : Sent * result unit :=
  match socksaddrLen destination with
  | Ok destinationLen =>
      let headerLen := KeyLength + 2 * destinationLen + 9 in
      if headerLen <=? b_start payload then
        prepared (let* room := ExtendHeader payload headerLen in
                  let* header := handshakePacketHeader (zlen room) key destination (zlen (b_data payload)) in
                  Ok (overwritten room header payload))
          (fun bytes sent => caused "write payload" (conn_Write bytes sent)) sent
      else
        andThen (prepared (handshakePacketHeader headerLen key destination (zlen (b_data payload)))
          (fun bytes sent => caused "write request" (conn_Write bytes sent)) sent)
          (fun sent => caused "write payload" (conn_Write (b_data payload) sent))
  | Err e => (sent, Err e)
  | Panic s => (sent, Panic s)
  end.

Definition WritePacket (buffer : Buffer) (destination : Socksaddr) : Sent -> Sent * result unit :=
  prepared (let* destinationLen := socksaddrLen destination in
            let* room := ExtendHeader buffer (destinationLen + 4) in
            let* header := packetHeader (zlen room) [] destination (zlen (b_data buffer)) in
            Ok (overwritten room header buffer))
    (fun bytes sent => caused "write packet" (conn_Write bytes sent)).

(** [ReadPacket] into a buffer with [free] bytes of room. *)
Definition ReadPacket (free : Z) : Reader (Socksaddr * list byte) :=
  let! destination := rcause "read destination" ReadAddrPort in
  let! length := rcause "read chunk length" ReadUint16 in
  let! _ := rcause "skip crlf" (SkipN 2) in
  let! data := ReadFullFrom free length in
  rret (destination, data).

(** ** The connections of a client *)

Record ClientConn := mkClientConn { c_key : list byte; c_destination : Socksaddr; c_headerWritten : bool }.
Definition NewClientConn (key : list byte) (destination : Socksaddr) : ClientConn := mkClientConn key destination false.

Definition written (c : ClientConn) (r : result unit) : ClientConn :=
  mkClientConn (c_key c) (c_destination c) (c_headerWritten c || is_ok r).

Definition ClientConn_Write (c : ClientConn) (p : list byte) (sent : Sent) : ClientConn * (Sent * result Z) :=
  let '(sent, r) := if c_headerWritten c then conn_Write p sent else ClientHandshake (c_key c) (c_destination c) p sent in
  (written c r, (sent, let* _ := r in Ok (zlen p))).

Definition ClientConn_WriteBuffer (c : ClientConn) (buffer : Buffer) (sent : Sent) : ClientConn * (Sent * result unit) :=
  let '(sent, r) := if c_headerWritten c then conn_Write (b_data buffer) sent else ClientHandshakeBuffer (c_key c) (c_destination c) buffer sent in
  (written c r, (sent, r)).

Definition ClientConn_FrontHeadroom (c : ClientConn) : Z := if c_headerWritten c then 0 else KeyLength + 5 + MaxSocksaddrLength.

Record ClientPacketConn := mkClientPacketConn { pc_key : list byte; pc_headerWritten : bool }.
Definition NewClientPacketConn (key : list byte) : ClientPacketConn := mkClientPacketConn key false.

Definition ClientPacketConn_WritePacket (c : ClientPacketConn) (buffer : Buffer) (destination : Socksaddr) (sent : Sent)
    : ClientPacketConn * (Sent * result unit) :=
  if pc_headerWritten c then (c, WritePacket buffer destination sent)
  else (mkClientPacketConn (pc_key c) true, ClientHandshakePacket (pc_key c) destination buffer sent).

Definition ClientPacketConn_FrontHeadroom (c : ClientPacketConn) : Z :=
  if pc_headerWritten c then MaxSocksaddrLength + 4 else KeyLength + 2 * MaxSocksaddrLength + 9.

End Client.

(** ** The server *)

Section Server.
Context `{BE : BufEnv} `{TE : TrojanEnv} `{Countable K}.

Record Service := mkService { s_users : gmap K (list byte); s_keys : gmap (list byte) K; s_fallbackHandler : bool }.
Definition NewService (fallbackHandler : bool) : Service := mkService ∅ ∅ fallbackHandler.

Definition ErrUserExists : go_error := ENew "user already exists".

(** The loop over the users; [i] is the index. *)
Fixpoint addUsers (i : nat) (userList : list K) (passwordList : list string) (users : gmap K (list byte)) (keys : gmap (list byte) K)
    : result (gmap K (list byte) * gmap (list byte) K) :=
  match userList with
  | [] => Ok (users, keys)
  | user :: rest =>
      if bool_decide (is_Some (users !! user)) then Err ErrUserExists
      else match passwordList !! i with
           | None => Panic "runtime error: index out of range"
           | Some password =>
               let key := Key password in
               if bool_decide (is_Some (keys !! key)) then Err (ECause ErrUserExists "password used by")
               else addUsers (S i) rest passwordList (<[user := key]> users) (<[key := user]> keys)
           end
  end.

Definition UpdateUsers (userList : list K) (passwordList : list string) (s : Service) : result Service :=
  let* maps := addUsers 0 userList passwordList ∅ ∅ in
  Ok (mkService maps.1 maps.2 (s_fallbackHandler s)).

(** One [Read] of at most [n] bytes. *)
Definition conn_Read (n : nat) (pieces : list (list byte)) : result (list byte * list (list byte)) :=
  match pieces with
  | [] => Err EOF
  | piece :: rest => Ok (take n piece, if bool_decide (drop n piece = []) then rest else drop n piece :: rest)
  end.

(** What a connection is given to, with the bytes that can still be read. *)
Inductive Handled :=
| NewConnectionEx (user : K) (destination : Socksaddr) (rest : list byte)
| NewPacketConnectionEx (user : K) (destination : Socksaddr) (rest : list byte)
| MuxConnection (user : K) (rest : list byte)
| FallbackConnection (all : list byte).

Definition fallback (s : Service) (header : list byte) (pieces : list (list byte)) (err : go_error) : result Handled :=
  if s_fallbackHandler s then Ok (FallbackConnection (header ++ concat pieces)) else Err (ECause err "fallback disabled").

Definition known_command (command : Z) : bool := (command =? CommandTCP) || (command =? CommandUDP) || (command =? CommandMux).

(** What follows the key. *)
Definition readRequest : Reader (Z * Socksaddr) :=
  let! _ := rcause "skip crlf" (SkipN 2) in
  let! command := rcause "read command" ReadUint8 in
  let! _ := rlift (if known_command command then Ok tt else Err (ENew "unknown command")) in
  let! destination := rcause "read destination" ReadAddrPort in
  let! _ := rcause "skip crlf" (SkipN 2) in
  rret (command, destination).

Definition NewConnection (s : Service) (pieces : list (list byte)) : result Handled :=
  let* (key, pieces) := conn_Read (Z.to_nat KeyLength) pieces in
  if negb (zlen key =? KeyLength) then fallback s key pieces (ENew "bad request size")
  else match s_keys s !! key with
       | None => fallback s key pieces (ENew "bad request")
       | Some user =>
           let* (command, destination, rest) := readRequest (concat pieces) in
           Ok (if command =? CommandTCP then NewConnectionEx user destination rest
               else if command =? CommandUDP then NewPacketConnectionEx user destination rest
               else MuxConnection user rest)
       end.

(** A stream of a multiplexed connection.  The buffered reader has taken the
    first [taken] bytes of what follows the destination from the stream. *)
Definition newMuxConnection0 (user : K) (taken : nat) (stream : list byte) : result Handled :=
  let* (command, rest) := with_cause "read command" (ReadUint8 stream) in
  let* (destination, rest) := with_cause "read destination" (ReadAddrPort rest) in
  let buffered := take taken rest in
  let conn := drop taken rest in
  let conn := if bool_decide (buffered = []) then conn else buffered ++ conn in
  if command =? CommandTCP then Ok (NewConnectionEx user destination conn)
  else if command =? CommandUDP then Ok (NewPacketConnectionEx user destination conn)
  else Err (ENew "unknown command").

End Server.
Arguments Service K {_ _}.

(** ** The inbound (protocol/trojan/inbound.go) *)

Section Inbound.
Context `{TE : TrojanEnv}.

Record TrojanUser := mkTrojanUser { tu_Name : string; tu_Password : string }.

(** [option.ServerOptions] with the address it is built to. *)
Record ServerOptions := mkServerOptions { so_Server : string; so_Build : Socksaddr }.

Record TrojanInboundOptions := mkTrojanInboundOptions {
  to_Users : list TrojanUser;
  to_TLS : bool;
  to_Fallback : option ServerOptions;
  to_FallbackForALPN : gmap string Socksaddr;
}.

Record Inbound := mkInbound {
  in_users : list TrojanUser;
  in_service : Service nat;
  in_fallbackAddr : Socksaddr;
  in_fallbackAddrTLSNextProto : gmap string Socksaddr;
}.

Definition zeroSocksaddr : Socksaddr := mkSocksaddr AddrInvalid 0 "".

(** The part of [NewInbound] that does not set up TLS and transports. *)
Definition NewInbound (options : TrojanInboundOptions) : result Inbound :=
  let server := match to_Fallback options with Some f => if String.eqb (so_Server f) "" then None else Some (so_Build f) | None => None end in
  let byALPN := negb (bool_decide (to_FallbackForALPN options = ∅)) in
  let* fallbackAddr :=
    match server with
    | Some addr => if Socksaddr_IsValid addr then Ok addr else Err (ENew "invalid fallback address")
    | None => Ok zeroSocksaddr
    end in
  let* _ :=
    if byALPN then
      if negb (to_TLS options) then Err (ENew "fallback for ALPN is not supported without TLS")
      else if forallb (fun a => Socksaddr_IsValid a.2) (map_to_list (to_FallbackForALPN options)) then Ok tt else Err (ENew "invalid fallback address for ALPN")
    else Ok tt in
  let fallbackHandler := bool_decide (is_Some server) || byALPN in
  let* service := UpdateUsers (seq 0 (length (to_Users options))) (map tu_Password (to_Users options)) (NewService fallbackHandler) in
  Ok (mkInbound (to_Users options) service fallbackAddr (to_FallbackForALPN options)).

(** [newConnection] and [newPacketConnection]: the user of the metadata that is
    routed; [loaded] is what the context of the service carries. *)
Definition routedUser (h : Inbound) (loaded : option nat) : result string :=
  match loaded with
  | None => Err ErrInvalid
  | Some userIndex =>
      match in_users h !! userIndex with
      | None => Panic "runtime error: index out of range"
      | Some user => Ok (tu_Name user)
      end
  end.

(** The destination [fallbackConnection] sets; [negotiated] is the protocol of a TLS connection. *)
Definition fallbackConnection (h : Inbound) (negotiated : option string) : result Socksaddr :=
  let* fallbackAddr :=
    if bool_decide (in_fallbackAddrTLSNextProto h = ∅) then Ok zeroSocksaddr
    else match negotiated with
         | Some proto =>
             if String.eqb proto "" then Ok zeroSocksaddr
             else match in_fallbackAddrTLSNextProto h !! proto with Some addr => Ok addr | None => Err ErrInvalid end
         | None => Ok zeroSocksaddr
         end in
  if negb (Socksaddr_IsValid fallbackAddr)
  then if negb (Socksaddr_IsValid (in_fallbackAddr h)) then Err ErrInvalid else Ok (in_fallbackAddr h)
  else Ok fallbackAddr.

End Inbound.

(** ** What is relied on *)

Class TrojanLaws `{TrojanEnv} := {
  sha224_length : forall bs, zlen (sha224 bs) = 28;
  WriteAddrPort_length : forall d w, WriteAddrPort d = Ok w -> zlen w = AddrPortLen d;
  ReadAddrPort_decodes : forall d w, WriteAddrPort d = Ok w -> decodes ReadAddrPort w (wireAddr d);
  ReadAddrPort_shrinks : shrinks ReadAddrPort;
  ReadAddrPort_returns : forall i, is_panic (ReadAddrPort i) = false;
}.

Section Proofs.
Context `{BL : BufLaws} `{TL : TrojanLaws}.

Lemma length_Key password : zlen (Key password) = KeyLength.
Proof.
  unfold Key, KeyLength. pose proof (sha224_length (bytes_of_string password)) as H28. revert H28.
  generalize (sha224 (bytes_of_string password)) as bs. intros bs H28.
  assert (zlen (hex_Encode bs) = 2 * zlen bs) as ->; [|lia]. clear H28.
  unfold hex_Encode. induction bs as [|b bs IH]; [done|]. cbn [map concat app]. rewrite !zlen_cons, IH. lia.
Qed.

(** ** Requests *)

Definition request (key : list byte) (command : Z) (address : list byte) : list byte := key ++ CRLF ++ [byte_of_Z command] ++ address ++ CRLF.
Definition frame (address : list byte) (data : list byte) : list byte := address ++ be_encode 2 (uint16 (zlen data)) ++ CRLF.

Lemma requestHeader_ok cap key command d w : zlen key = KeyLength -> WriteAddrPort d = Ok w -> KeyLength + zlen w + 5 <= cap ->
  requestHeader cap key command d = Ok (request key command w).
Proof.
  intros Hk Hw Hcap. unfold requestHeader, KeyLength, request in *. pose proof (zlen_nonneg w).
  rewrite buf_Write_room by (rewrite zlen_nil; lia). cbn [must bind_result app].
  rewrite buf_Write_room by (unfold CRLF; rewrite !zlen_cons, zlen_nil; lia). cbn [must bind_result].
  rewrite buf_Write_room by (unfold CRLF; rewrite zlen_app, !zlen_cons, zlen_nil; lia). cbn [must bind_result].
  rewrite Hw. cbn [bind_result].
  rewrite buf_Write_room by (unfold CRLF; rewrite !zlen_app, !zlen_cons, zlen_nil; lia). cbn [bind_result].
  rewrite buf_Write_room by (unfold CRLF; rewrite !zlen_app, !zlen_cons, zlen_nil; lia). cbn [must].
  by rewrite <- !app_assoc.
Qed.

Lemma request_length key command w : zlen key = KeyLength -> zlen (request key command w) = KeyLength + zlen w + 5.
Proof. intros Hk. unfold request, CRLF. rewrite !zlen_app, !zlen_cons, zlen_nil, Hk. lia. Qed.
Lemma frame_length w data : zlen (frame w data) = zlen w + 4.
Proof.
  unfold frame, CRLF. rewrite !zlen_app, !zlen_cons, zlen_nil.
  assert (forall v, zlen (be_encode 2 v) = 2) as -> by (intros v; unfold zlen; by rewrite length_be_encode). lia.
Qed.

Lemma frame_ok cap header d w data : WriteAddrPort d = Ok w -> zlen header + zlen w + 4 <= cap ->
  packetHeader cap header d (zlen data) = Ok (header ++ frame w data).
Proof.
  intros Hw Hcap. unfold packetHeader, frame. rewrite Hw. cbn [bind_result]. pose proof (zlen_nonneg w).
  assert (zlen (be_encode 2 (uint16 (zlen data))) = 2) as H2 by (unfold zlen; by rewrite length_be_encode).
  rewrite buf_Write_room by lia. cbn [bind_result].
  rewrite buf_Write_room by (rewrite zlen_app; lia). cbn [must bind_result].
  rewrite buf_Write_room by (unfold CRLF; rewrite !zlen_app, !zlen_cons, zlen_nil; lia). cbn [must]. by rewrite <- !app_assoc.
Qed.

Lemma handshakePacketHeader_ok cap key d w data : zlen key = KeyLength -> WriteAddrPort d = Ok w -> KeyLength + 2 * zlen w + 9 <= cap ->
  handshakePacketHeader cap key d (zlen data) = Ok (request key CommandUDP w ++ frame w data).
Proof.
  intros Hk Hw Hcap. unfold handshakePacketHeader. pose proof (zlen_nonneg w).
  rewrite (requestHeader_ok _ _ _ _ w) by (done || lia). cbn [bind_result].
  pose proof (request_length key CommandUDP w Hk) as Hr.
  pose proof (frame_ok cap (request key CommandUDP w) d w data Hw ltac:(lia)) as Hf. unfold packetHeader in Hf. rewrite Hw in *. cbn [must bind_result] in *.
  rewrite buf_Write_room in Hf |- * by lia. exact Hf.
Qed.

(** ** The connections of a client, when no write fails *)

Section Writing.
Context (write_ends : nat -> option go_error) (Hok : forall n, write_ends n = None).

Lemma conn_Write_ok p sent : conn_Write write_ends p sent = (sent ++ [p], Ok tt).
Proof. unfold conn_Write. by rewrite Hok. Qed.

Lemma ClientHandshake_ok key d w p sent : zlen key = KeyLength -> WriteAddrPort d = Ok w ->
  ClientHandshake write_ends key d p sent = (sent ++ [request key CommandTCP w ++ p], Ok tt).
Proof.
  intros Hk Hw. unfold ClientHandshake. rewrite <- (WriteAddrPort_length _ _ Hw). pose proof (zlen_nonneg p).
  rewrite (requestHeader_ok _ _ _ _ w) by (done || lia). cbn [bind_result].
  rewrite buf_Write_room by (rewrite request_length by done; lia).
  cbn [must prepared]. by rewrite conn_Write_ok.
Qed.

Lemma socksaddrLen_ok d w : WriteAddrPort d = Ok w -> AddrPortLen d <= MaxSocksaddrLength -> socksaddrLen d = Ok (zlen w).
Proof. intros Hw Hl. unfold socksaddrLen. rewrite (WriteAddrPort_length _ _ Hw). by rewrite (proj2 (Z.ltb_ge _ _)) by lia. Qed.

Lemma ClientHandshakeBuffer_ok key d w b sent : zlen key = KeyLength -> WriteAddrPort d = Ok w -> AddrPortLen d <= MaxSocksaddrLength ->
  KeyLength + 5 + MaxSocksaddrLength <= b_start b ->
  ClientHandshakeBuffer write_ends key d b sent = (sent ++ [request key CommandTCP w ++ b_data b], Ok tt).
Proof.
  intros Hk Hw Hl Hs. unfold ClientHandshakeBuffer. rewrite (socksaddrLen_ok d w) by done. cbn [bind_result]. pose proof (WriteAddrPort_length _ _ Hw). pose proof (zlen_nonneg w).
  destruct (ExtendHeader_room b (KeyLength + zlen w + 5)) as (room & -> & Hroom); [unfold KeyLength in *; lia|]. cbn [bind_result].
  rewrite (requestHeader_ok _ _ _ _ w) by (done || lia). cbn [bind_result].
  rewrite overwritten_exact by (rewrite request_length by done; lia).
  cbn [prepared]. by rewrite conn_Write_ok.
Qed.

Lemma WritePacket_ok d w b sent : WriteAddrPort d = Ok w -> AddrPortLen d <= MaxSocksaddrLength -> MaxSocksaddrLength + 4 <= b_start b ->
  WritePacket write_ends b d sent = (sent ++ [frame w (b_data b) ++ b_data b], Ok tt).
Proof.
  intros Hw Hl Hs. unfold WritePacket. rewrite (socksaddrLen_ok d w) by done. cbn [bind_result]. pose proof (WriteAddrPort_length _ _ Hw). pose proof (zlen_nonneg w).
  destruct (ExtendHeader_room b (zlen w + 4)) as (room & -> & Hroom); [lia|]. cbn [bind_result].
  rewrite (frame_ok _ _ _ w) by (done || (rewrite zlen_nil; lia)). cbn [bind_result app].
  rewrite overwritten_exact; [cbn [prepared]; by rewrite conn_Write_ok|].
  rewrite frame_length. lia.
Qed.

Lemma ClientHandshakePacket_ok key d w b sent : zlen key = KeyLength -> WriteAddrPort d = Ok w -> AddrPortLen d <= MaxSocksaddrLength ->
  exists sent', ClientHandshakePacket write_ends key d b sent = (sent', Ok tt) /\ concat sent' = concat sent ++ (request key CommandUDP w ++ frame w (b_data b)) ++ b_data b.
Proof.
  intros Hk Hw Hl. unfold ClientHandshakePacket. rewrite (socksaddrLen_ok d w) by done. pose proof (zlen_nonneg w).
  destruct (Z.leb_spec (KeyLength + 2 * zlen w + 9) (b_start b)) as [Hs|Hs].
  - destruct (ExtendHeader_room b (KeyLength + 2 * zlen w + 9)) as (room & -> & Hroom); [unfold KeyLength in *; lia|]. cbn [bind_result].
    rewrite (handshakePacketHeader_ok _ _ _ w) by (done || lia). cbn [bind_result].
    rewrite overwritten_exact; [cbn [prepared]; rewrite conn_Write_ok; cbn [caused fst snd with_cause]; eexists; split; [done|]; cbn [fst]; rewrite concat_app; cbn; by rewrite app_nil_r|].
    rewrite zlen_app, request_length, frame_length by done. lia.
  - rewrite (handshakePacketHeader_ok _ _ _ w) by (done || lia). cbn [prepared]. rewrite conn_Write_ok. cbn [andThen caused fst snd with_cause]. rewrite conn_Write_ok. cbn [caused fst snd with_cause].
    eexists. split; [done|]. cbn [fst]. rewrite !concat_app. cbn. by rewrite !app_nil_r, <- !app_assoc.
Qed.

Lemma ClientHandshakeRaw_ok key command d w p sent : WriteAddrPort d = Ok w ->
  exists sent', ClientHandshakeRaw write_ends key command d p sent = (sent', Ok tt) /\ concat sent' = concat sent ++ request key command w ++ p.
Proof.
  intros Hw. unfold ClientHandshakeRaw. rewrite Hw. unfold prepared, andThen, caused. repeat (rewrite conn_Write_ok; cbn [fst snd]).
  case_bool_decide as Hp; [subst p|]; (eexists; split; [done|]); unfold request; rewrite ?concat_app; cbn [concat fst]; rewrite ?app_nil_r, <- ?app_assoc; done.
Qed.

(** Writes of bytes or of buffers with room before them. *)
Fixpoint client_writes (c : ClientConn) (ps : list (list byte + Buffer)) (sent : Sent) : Sent * bool :=
  match ps with
  | [] => (sent, true)
  | inl p :: rest => let '(c, (sent, r)) := ClientConn_Write write_ends c p sent in if is_ok r then client_writes c rest sent else (sent, false)
  | inr b :: rest => let '(c, (sent, r)) := ClientConn_WriteBuffer write_ends c b sent in if is_ok r then client_writes c rest sent else (sent, false)
  end.
Definition payload_of (p : list byte + Buffer) : list byte := match p with inl p => p | inr b => b_data b end.

Lemma client_writes_established c ps sent : c_headerWritten c = true -> exists sent', client_writes c ps sent = (sent', true) /\ concat sent' = concat sent ++ concat (map payload_of ps).
Proof.
  revert c sent. induction ps as [|x ps IH]; intros c sent Hc; [exists sent; cbn; by rewrite app_nil_r|].
  assert (client_writes c (x :: ps) sent = client_writes (written c (Ok tt)) ps (sent ++ [payload_of x])) as ->.
  { destruct x; cbn [client_writes payload_of]; unfold ClientConn_Write, ClientConn_WriteBuffer; by rewrite Hc, conn_Write_ok. }
  destruct (IH (written c (Ok tt)) (sent ++ [payload_of x])) as (sent' & -> & Hs); [cbn; by rewrite Hc|].
  eexists. split; [done|]. rewrite Hs, concat_app. cbn [map concat]. by rewrite app_nil_r, <- app_assoc.
Qed.

Lemma client_writes_ok key d w ps : zlen key = KeyLength -> WriteAddrPort d = Ok w -> AddrPortLen d <= MaxSocksaddrLength -> ps <> [] ->
  (forall b, inr b ∈ ps -> KeyLength + 5 + MaxSocksaddrLength <= b_start b) ->
  exists sent, client_writes (NewClientConn key d) ps [] = (sent, true) /\ concat sent = request key CommandTCP w ++ concat (map payload_of ps).
Proof.
  intros Hk Hw Hl Hps Hb. destruct ps as [|[p|b] ps]; [done|..]; cbn [client_writes map concat payload_of]; unfold ClientConn_Write, ClientConn_WriteBuffer; cbn [NewClientConn c_headerWritten c_key c_destination].
  - rewrite (ClientHandshake_ok _ _ w) by done. cbn [bind_result is_ok].
    destruct (client_writes_established (written (NewClientConn key d) (Ok tt)) ps ([] ++ [request key CommandTCP w ++ p])) as (sent & -> & Hs); [done|]. exists sent. split; [done|]. rewrite Hs. cbn. by rewrite app_nil_r, <- app_assoc.
  - rewrite (ClientHandshakeBuffer_ok _ _ w) by (try done; apply Hb; left). cbn [bind_result is_ok].
    destruct (client_writes_established (written (NewClientConn key d) (Ok tt)) ps ([] ++ [request key CommandTCP w ++ b_data b])) as (sent & -> & Hs); [done|]. exists sent. split; [done|]. rewrite Hs. cbn. by rewrite app_nil_r, <- app_assoc.
Qed.

Fixpoint packet_writes (c : ClientPacketConn) (ps : list (Buffer * Socksaddr)) (sent : Sent) : Sent * bool :=
  match ps with
  | [] => (sent, true)
  | (b, d) :: rest => let '(c, (sent, r)) := ClientPacketConn_WritePacket write_ends c b d sent in if is_ok r then packet_writes c rest sent else (sent, false)
  end.

(** A packet that can be written: its address can be, and there is room before it. *)
Definition packet_ok (headroom : Z) (p : Buffer * Socksaddr) : Prop :=
  is_ok (WriteAddrPort p.2) = true /\ AddrPortLen p.2 <= MaxSocksaddrLength /\ headroom <= b_start p.1 /\ zlen (b_data p.1) < 65536.
Definition address_of (d : Socksaddr) : list byte := match WriteAddrPort d with Ok w => w | _ => [] end.
Definition framed (p : Buffer * Socksaddr) : list byte := frame (address_of p.2) (b_data p.1) ++ b_data p.1.

Lemma packet_address h p : packet_ok h p -> WriteAddrPort p.2 = Ok (address_of p.2).
Proof. intros [Ha _]. unfold address_of. by destruct (WriteAddrPort p.2). Qed.

Lemma packet_writes_established key ps sent : Forall (packet_ok (MaxSocksaddrLength + 4)) ps ->
  exists sent', packet_writes (mkClientPacketConn key true) ps sent = (sent', true) /\ concat sent' = concat sent ++ concat (map framed ps).
Proof.
  revert sent. induction ps as [|[b d] ps IH]; intros sent Hall; cbn [packet_writes map concat]; [exists sent; by rewrite app_nil_r|].
  apply Forall_cons in Hall as [Hp Hall]. pose proof (packet_address _ _ Hp) as Hw. destruct Hp as (_ & Hl & Hs & _). unfold ClientPacketConn_WritePacket. cbn [pc_headerWritten].
  cbn [fst snd] in *. rewrite (WritePacket_ok d _ b sent Hw Hl Hs). cbn [is_ok].
  destruct (IH (sent ++ [frame (address_of d) (b_data b) ++ b_data b]) Hall) as (sent' & -> & Hs'). eexists. split; [done|].
  rewrite Hs', concat_app. cbn. by rewrite app_nil_r, <- app_assoc.
Qed.

Lemma packet_writes_ok key b d ps : zlen key = KeyLength -> packet_ok (b_start b) (b, d) -> Forall (packet_ok (MaxSocksaddrLength + 4)) ps ->
  exists sent, packet_writes (NewClientPacketConn key) ((b, d) :: ps) [] = (sent, true) /\
    concat sent = request key CommandUDP (address_of d) ++ concat (map framed ((b, d) :: ps)).
Proof.
  intros Hk Hp Hall. pose proof (packet_address _ _ Hp) as Hw. destruct Hp as (_ & Hl & _). cbn [packet_writes]. unfold ClientPacketConn_WritePacket. cbn [NewClientPacketConn pc_headerWritten pc_key].
  destruct (ClientHandshakePacket_ok key d _ b [] Hk Hw Hl) as (sent & -> & Hs). cbn [is_ok].
  destruct (packet_writes_established key ps sent Hall) as (sent' & -> & Hs'). eexists. split; [done|]. rewrite Hs', Hs. cbn. unfold framed. cbn. by rewrite <- !app_assoc.
Qed.

End Writing.

(** ** The server reads requests *)

Lemma decodes_readRequest command d w : known_command command = true -> WriteAddrPort d = Ok w ->
  decodes readRequest (CRLF ++ [byte_of_Z command] ++ w ++ CRLF) (command, wireAddr d).
Proof.
  intros Hc Hw. unfold readRequest.
  assert (is_uint 8 command) as Hu by (unfold known_command, CommandTCP, CommandUDP, CommandMux, is_uint in *; apply orb_true_iff in Hc as [Hc|Hc]; [apply orb_true_iff in Hc as [Hc|Hc]|]; apply Z.eqb_eq in Hc; lia).
  eapply decodes_bind; [apply decodes_cause, (SkipN_decodes CRLF)|]. eapply decodes_bind; [apply decodes_cause, (decodes_ReadUint8 command Hu)|].
  rewrite Hc. apply (decodes_lift (Ok tt) _ _ tt); [done|]. eapply decodes_bind; [apply decodes_cause, (ReadAddrPort_decodes _ _ Hw)|].
  rewrite <- (app_nil_r CRLF). eapply decodes_bind; [apply decodes_cause, (SkipN_decodes CRLF)|]. apply decodes_ret.
Qed.

Lemma decodes_ReadPacket h free p : packet_ok h p -> zlen (b_data p.1) <= free -> decodes (ReadPacket free) (framed p) (wireAddr p.2, b_data p.1).
Proof.
  intros Hp Hfree. pose proof (packet_address _ _ Hp) as Hw. destruct Hp as (_ & _ & _ & Hl). unfold framed, frame, ReadPacket. rewrite <- !app_assoc. pose proof (zlen_nonneg (b_data p.1)).
  assert (is_uint 16 (zlen (b_data p.1))) as Hu by (unfold is_uint; lia).
  assert (uint16 (zlen (b_data p.1)) = zlen (b_data p.1)) as -> by (unfold uint16, wrap; apply Z.mod_small; exact Hu).
  eapply decodes_bind; [apply decodes_cause, (ReadAddrPort_decodes _ _ Hw)|].
  eapply decodes_bind; [apply decodes_cause, decodes_ReadUint16, Hu|]. eapply decodes_bind; [apply decodes_cause, (SkipN_decodes CRLF)|].
  rewrite <- (app_nil_r (b_data p.1)) at 2. eapply decodes_bind; [by apply ReadFullFrom_room|]. apply decodes_ret.
Qed.

Lemma shrinks_readRequest : shrinks readRequest.
Proof.
  unfold readRequest. apply shrinks_bind; [apply shrinks_cause, SkipN_shrinks|intros ?]. apply shrinks_bind; [apply shrinks_cause, shrinks_ReadUint8|intros ?].
  apply shrinks_bind; [apply shrinks_lift|intros ?]. apply shrinks_bind; [apply shrinks_cause, ReadAddrPort_shrinks|intros ?].
  apply shrinks_bind; [apply shrinks_cause, SkipN_shrinks|intros ?]. apply shrinks_ret.
Qed.

Lemma readRequest_returns : forall i, is_panic (readRequest i) = false.
Proof.
  apply rbind_returns; [apply rcause_returns, SkipN_returns|intros _]. apply rbind_returns.
  { apply rcause_returns, rbind_returns; [apply ReadFull_returns|done]. }
  intros command. apply rbind_returns; [by destruct (known_command command)|intros _].
  apply rbind_returns; [apply rcause_returns, ReadAddrPort_returns|intros d]. apply rbind_returns; [apply rcause_returns, SkipN_returns|done].
Qed.

Section Service.
Context `{Countable K}.
Implicit Types (s : Service K) (users : gmap K (list byte)) (keys : gmap (list byte) K).

(** Users and keys are inverse to each other. *)
Definition inverse users keys : Prop := forall key user, keys !! key = Some user <-> users !! user = Some key.

Lemma addUsers_ok i l ps users keys users' keys' : addUsers i l ps users keys = Ok (users', keys') -> inverse users keys ->
  inverse users' keys' /\ (forall user key, users !! user = Some key -> users' !! user = Some key) /\
  (forall j user, l !! j = Some user -> exists password, ps !! (i + j)%nat = Some password /\ users' !! user = Some (Key password)) /\
  dom users' = dom users ∪ list_to_set l.
Proof.
  revert i users keys. induction l as [|user l IH]; intros i users keys Hadd Hinv; cbn [addUsers] in Hadd.
  - injection Hadd as <- <-. split; [done|]. split; [done|]. split; [done|]. set_solver.
  - case_bool_decide as Hu; [done|]. destruct (ps !! i) as [password|] eqn:Hp; [|done]. case_bool_decide as Hk; [done|].
    apply eq_None_not_Some in Hu, Hk.
    apply IH in Hadd as (Hinv' & Hsub & Hall & Hdom).
    + split; [done|]. split; [intros u k Huk; apply Hsub; rewrite lookup_insert_ne; [done|]; congruence|]. split.
      * intros [|j] u Hj; cbn in Hj; [injection Hj as <-; exists password; rewrite Nat.add_0_r; split; [done|]; apply Hsub; by rewrite lookup_insert_eq|].
        destruct (Hall j u Hj) as (pw & Hpw & Hpu). exists pw. split; [|done]. by rewrite <- Nat.add_succ_comm.
      * rewrite Hdom, dom_insert_L. set_solver.
    + intros k u. destruct (decide (k = Key password)) as [->|Hne], (decide (u = user)) as [->|Hne'].
      * by rewrite !lookup_insert_eq.
      * rewrite lookup_insert_eq, lookup_insert_ne by done. pose proof (Hinv (Key password) u) as Hi. rewrite Hk in Hi. split; [congruence|intros Hx; by apply Hi in Hx].
      * rewrite lookup_insert_eq, lookup_insert_ne by done. pose proof (Hinv k user) as Hi. rewrite Hu in Hi. split; [intros Hx; by apply Hi in Hx|congruence].
      * rewrite !lookup_insert_ne by done. apply Hinv.
Qed.

Lemma UpdateUsers_ok l ps s s' : UpdateUsers l ps s = Ok s' ->
  inverse (s_users s') (s_keys s') /\ s_fallbackHandler s' = s_fallbackHandler s /\ dom (s_users s') = list_to_set l /\
  (forall i user, l !! i = Some user -> exists password, ps !! i = Some password /\ s_users s' !! user = Some (Key password)).
Proof.
  unfold UpdateUsers. intros E. bind_case E; [|done|done]. destruct value as [us ks]. injection E as <-. cbn.
  apply addUsers_ok in E0 as (Hinv & _ & Hall & Hdom); [|intros k u; by rewrite !lookup_empty]. split; [done|]. split; [done|]. split; [set_solver|done].
Qed.

(** The first read of a connection, and what is left. *)
Lemma Read_key piece rest : exists pieces,
  conn_Read (Z.to_nat KeyLength) (piece :: rest) = Ok (take (Z.to_nat KeyLength) piece, pieces) /\
  take (Z.to_nat KeyLength) piece ++ concat pieces = concat (piece :: rest).
Proof.
  unfold conn_Read. case_bool_decide as Hd; eexists; (split; [done|]); cbn [concat].
  - rewrite <- (take_drop (Z.to_nat KeyLength) piece) at 2. by rewrite Hd, app_nil_r.
  - by rewrite app_assoc, take_drop.
Qed.

Lemma NewConnection_request s user key command d w piece rest payload :
  s_keys s !! key = Some user -> zlen key = KeyLength -> known_command command = true -> WriteAddrPort d = Ok w ->
  KeyLength <= zlen piece -> concat (piece :: rest) = request key command w ++ payload ->
  NewConnection s (piece :: rest) = Ok (if command =? CommandTCP then NewConnectionEx user (wireAddr d) payload
    else if command =? CommandUDP then NewPacketConnectionEx user (wireAddr d) payload else MuxConnection user payload).
Proof.
  intros Hs Hk Hc Hw Hp Hcat. destruct (Read_key piece rest) as (pieces & E & Hsplit). unfold NewConnection. rewrite E. cbn [bind_result].
  rewrite Hcat in Hsplit. unfold request in Hsplit. rewrite <- app_assoc in Hsplit.
  assert (length (take (Z.to_nat KeyLength) piece) = length key) as Hlen by (rewrite length_take; unfold zlen in *; lia).
  apply app_inj_1 in Hsplit as [Hkey Hrest]; [|done]. rewrite Hkey, Hk, Z.eqb_refl. cbn [negb]. rewrite Hs, Hrest.
  by rewrite (decodes_readRequest command d w Hc Hw payload).
Qed.

End Service.

(** ** The inbound *)

Lemma NewInbound_ok options h : NewInbound options = Ok h ->
  in_users h = to_Users options /\ inverse (s_users (in_service h)) (s_keys (in_service h)) /\
  (forall user, is_Some (s_users (in_service h) !! user) <-> (user < length (to_Users options))%nat) /\
  (forall i u, to_Users options !! i = Some u -> s_keys (in_service h) !! Key (tu_Password u) = Some i).
Proof.
  unfold NewInbound. intros E. do 3 (bind_case E; [|done|done]). injection E as <-. cbn [in_users in_service].
  apply UpdateUsers_ok in E2 as (Hinv & _ & Hdom & Hall). split; [done|]. split; [done|]. split.
  - intros user. rewrite <- elem_of_dom, Hdom, elem_of_list_to_set, elem_of_seq. lia.
  - intros i u Hi. apply Hinv. destruct (Hall i i) as (password & Hp & Hu).
    + apply lookup_lt_Some in Hi. by apply lookup_seq_lt.
    + rewrite list_lookup_fmap, Hi in Hp. cbn in Hp. by injection Hp as ->.
Qed.

End Proofs.

(** A request of a client is understood.  When a client that knows the
    password of a user of an inbound writes to a connection to a destination that
    has an encoding, in whatever mixture of bytes and buffers (with the advertised
    headroom), the writes to the connection succeed, and the bytes arrive in pieces
    of which the first has the whole key (see [key_in_two_pieces]): then the
    inbound serves that user, with the name it is configured with, the destination
    and exactly the bytes that were written. *)
Theorem trojan_request_understood `{BL : BufLaws} `{TL : TrojanLaws} (options : TrojanInboundOptions) (h : Inbound) (i : nat) (u : TrojanUser)
    (write_ends : nat -> option go_error) (destination : Socksaddr) (writes : list (list byte + Buffer)) (piece : list byte) (rest : list (list byte)) :
  NewInbound options = Ok h -> to_Users options !! i = Some u -> (forall n, write_ends n = None) ->
  is_ok (WriteAddrPort destination) = true -> AddrPortLen destination <= MaxSocksaddrLength ->
  writes <> [] -> (forall b, inr b ∈ writes -> KeyLength + 5 + MaxSocksaddrLength <= b_start b) ->
  let '(sent, ok) := client_writes write_ends (NewClientConn (Key (tu_Password u)) destination) writes [] in
  ok = true /\
  (concat (piece :: rest) = concat sent -> KeyLength <= zlen piece ->
   NewConnection (in_service h) (piece :: rest) = Ok (NewConnectionEx i (wireAddr destination) (concat (map payload_of writes))) /\
   routedUser h (Some i) = Ok (tu_Name u)).
Proof.
  intros Hh Hi Hok Hw Hl Hne Hb. destruct (WriteAddrPort destination) as [w| |] eqn:Ew; try done.
  destruct (client_writes_ok write_ends Hok (Key (tu_Password u)) destination w writes) as (sent & -> & Hsent); [apply length_Key|done..|].
  split; [done|]. intros Hcat Hp. destruct (NewInbound_ok options h Hh) as (Hus & _ & _ & Hkey). split.
  - rewrite Hsent in Hcat. apply (NewConnection_request _ i (Key (tu_Password u)) CommandTCP destination w); try done; [by apply Hkey|apply length_Key].
  - unfold routedUser. by rewrite Hus, Hi.
Qed.

(** Packets arrive one by one.  A client that sends packets over a
    connection (of less than 64 KiB, to destinations that have an encoding, in
    buffers with the advertised headroom), the first with the request in front of
    it, is served, when the whole key arrives at once, as a packet connection of its user, and reading packets gives the packets that were sent,
    each with its destination and its data, in order, and nothing else. *)
Theorem trojan_packets_arrive `{BL : BufLaws} `{TL : TrojanLaws} (options : TrojanInboundOptions) (h : Inbound) (i : nat) (u : TrojanUser)
    (write_ends : nat -> option go_error) (b : Buffer) (d : Socksaddr) (packets : list (Buffer * Socksaddr)) (free : Z) (piece : list byte) (rest : list (list byte)) :
  NewInbound options = Ok h -> to_Users options !! i = Some u -> (forall n, write_ends n = None) ->
  packet_ok (b_start b) (b, d) -> Forall (packet_ok (MaxSocksaddrLength + 4)) packets -> 65535 <= free ->
  let '(sent, ok) := packet_writes write_ends (NewClientPacketConn (Key (tu_Password u))) ((b, d) :: packets) [] in
  ok = true /\
  (concat (piece :: rest) = concat sent -> KeyLength <= zlen piece ->
   exists bytes, NewConnection (in_service h) (piece :: rest) = Ok (NewPacketConnectionEx i (wireAddr d) bytes) /\
     read_n (S (length packets)) (ReadPacket free) bytes = Ok (map (fun p => (wireAddr p.2, b_data p.1)) ((b, d) :: packets), [])).
Proof.
  intros Hh Hi Hok Hp Hall Hfree.
  destruct (packet_writes_ok write_ends Hok (Key (tu_Password u)) b d packets) as (sent & -> & Hsent); [apply length_Key|done..|].
  split; [done|]. intros Hcat Hpiece. destruct (NewInbound_ok options h Hh) as (Hus & _ & _ & Hkey).
  exists (concat (map framed ((b, d) :: packets))). split.
  - rewrite Hsent in Hcat.
    apply (NewConnection_request _ i (Key (tu_Password u)) CommandUDP d (address_of d)); try done; [by apply Hkey|apply length_Key|exact (packet_address _ _ Hp)].
  - rewrite <- (app_nil_r (concat _)).
    apply (decodes_read_n (ReadPacket free) framed (fun p => (wireAddr p.2, b_data p.1)) ((b, d) :: packets)).
    intros p Hin. assert (exists headroom, packet_ok headroom p) as [headroom Hpk].
    { apply elem_of_cons in Hin as [->|Hin]; [by eexists|]. rewrite List.Forall_forall in Hall. eexists. apply Hall. by apply list_elem_of_In. }
    apply (decodes_ReadPacket headroom); [done|]. destruct Hpk as (_ & _ & _ & Hlt). lia.
Qed.

(** C31: nobody is served who does not send the key of a user, and nothing is
    taken from the others.  For an inbound built from its options and whatever
    bytes arrive, in whatever pieces, the service does not panic; a connection is
    handed on, for TCP, UDP or multiplexing, only as a configured user, and then
    its bytes are the key of that user's password, a header and the bytes that
    are handed on; otherwise it ends with an error, or is given to the fallback,
    which then is configured, with every byte that arrived, and then the first
    read did not return the key of any user.  Reading an address and skipping
    bytes, which are library code, are assumed to return and to consume input. *)
Theorem trojan_fallback_intact `{BL : BufLaws} `{TL : TrojanLaws} (options : TrojanInboundOptions) (h : Inbound) (pieces : list (list byte)) :
  NewInbound options = Ok h ->
  let authenticated (user : nat) (rest : list byte) :=
    exists u header, to_Users options !! user = Some u /\ concat pieces = Key (tu_Password u) ++ header ++ rest in
  match NewConnection (in_service h) pieces with
  | Ok (NewConnectionEx user _ rest) | Ok (NewPacketConnectionEx user _ rest) | Ok (MuxConnection user rest) => authenticated user rest
  | Ok (FallbackConnection all) => all = concat pieces /\ s_fallbackHandler (in_service h) = true /\
      forall user u piece rest, to_Users options !! user = Some u -> pieces = piece :: rest ->
        take (Z.to_nat KeyLength) piece <> Key (tu_Password u)
  | Err _ => True
  | Panic _ => False
  end.
Proof.
  intros Hh authenticated. destruct (NewInbound_ok options h Hh) as (Hus & Hinv & Hdom & Hkey). unfold NewConnection.
  destruct pieces as [|piece more]; [done|].
  destruct (Read_key piece more) as (pieces' & E & Hcat). rewrite E. cbn [bind_result]. set (key := take (Z.to_nat KeyLength) piece) in *.
  assert (forall err, (forall user u, to_Users options !! user = Some u -> key <> Key (tu_Password u)) ->
    match fallback (in_service h) key pieces' err with
    | Ok (FallbackConnection all) => all = concat (piece :: more) /\ s_fallbackHandler (in_service h) = true /\
      forall user u piece' rest, to_Users options !! user = Some u -> piece :: more = piece' :: rest ->
        take (Z.to_nat KeyLength) piece' <> Key (tu_Password u)
    | Ok _ => False | Err _ => True | Panic _ => False end) as Hfall.
  { intros err Hno. unfold fallback. destruct (s_fallbackHandler (in_service h)) eqn:Ef; [|done]. split; [exact Hcat|]. split; [done|].
    intros user u p r Hu [= <- <-]. by apply (Hno user). }
  destruct (Z.eqb_spec (zlen key) KeyLength) as [Hlen|Hlen]; cbn [negb].
  - destruct (s_keys (in_service h) !! key) as [user|] eqn:Ek.
    + pose proof (readRequest_returns (concat pieces')) as Hret. destruct (readRequest (concat pieces')) as [[[command d] rest]|e|msg] eqn:Er; [|done|done].
      cbn [bind_result]. assert (authenticated user rest) as Ha.
      { pose proof (proj1 (Hinv key user) Ek) as Hu. destruct (shrinks_readRequest _ _ _ Er) as [w Hw].
        assert (is_Some (to_Users options !! user)) as [u Hu'] by (apply lookup_lt_is_Some, Hdom; by eexists).
        exists u, w. split; [done|]. pose proof (proj1 (Hinv _ _) (Hkey user u Hu')) as Hk. rewrite Hu in Hk. injection Hk as <-.
        by rewrite <- Hcat, Hw. }
      by destruct (command =? CommandTCP), (command =? CommandUDP).
    + assert (forall user u, to_Users options !! user = Some u -> key <> Key (tu_Password u)) as Hno
        by (intros user u Hu ->; rewrite (Hkey user u Hu) in Ek; done).
      specialize (Hfall (ENew "bad request") Hno). by destruct (fallback _ _ _ _) as [[]| |].
  - assert (forall user u, to_Users options !! user = Some u -> key <> Key (tu_Password u)) as Hno by (intros user u _ ->; by apply Hlen, length_Key).
    specialize (Hfall (ENew "bad request size") Hno). by destruct (fallback _ _ _ _) as [[]| |].
Qed.

Module TrojanDemo.
Import BufDemo.

(** Names of at most 255 bytes with their port. *)
Definition demoAddress (d : Socksaddr) : list byte :=
  byte_of_Z (zlen (bytes_of_string (Socksaddr_Fqdn d))) :: bytes_of_string (Socksaddr_Fqdn d) ++ be_encode 2 (uint16 (Socksaddr_Port d)).

#[local] Instance demoTrojan : TrojanEnv := {|
  sha224 bs := take 28 (bs ++ repeat x00 28);
  AddrPortLen d := 3 + zlen (bytes_of_string (Socksaddr_Fqdn d));
  WriteAddrPort d := if 255 <? zlen (bytes_of_string (Socksaddr_Fqdn d)) then Err (ENew "fqdn too long") else Ok (demoAddress d);
  ReadAddrPort := let! n := ReadUint8 in let! name := ReadFull n in let! port := ReadUint16 in rret (mkSocksaddr AddrInvalid port (string_of_bytes name));
  wireAddr d := mkSocksaddr AddrInvalid (uint16 (Socksaddr_Port d)) (Socksaddr_Fqdn d);
  MaxSocksaddrLength := 258;
  Socksaddr_IsValid d := negb (String.eqb (Socksaddr_Fqdn d) "");
|}.

#[local] Instance demoLaws : TrojanLaws.
Proof.
  split.
  - intros bs. change (zlen (take 28 (bs ++ repeat x00 28)) = 28). unfold zlen. rewrite length_take, length_app. change (length (repeat x00 28)) with 28%nat. lia.
  - intros d w. cbn. destruct (_ <? _); [done|]. intros [= <-]. unfold demoAddress. rewrite zlen_cons, zlen_app. unfold zlen at 2. rewrite length_be_encode. lia.
  - intros d w. cbn. destruct (Z.ltb_spec 255 (zlen (bytes_of_string (Socksaddr_Fqdn d)))) as [|Hl]; [done|]. intros [= <-]. unfold demoAddress.
    pose proof (zlen_nonneg (bytes_of_string (Socksaddr_Fqdn d))). assert (is_uint 16 (uint16 (Socksaddr_Port d))) as Hu by (unfold uint16, wrap, is_uint; apply Z.mod_pos_bound; lia).
    eapply (decodes_bind ReadUint8 _ [_] _ (zlen (bytes_of_string (Socksaddr_Fqdn d)))); [apply decodes_ReadUint8; unfold is_uint; lia|].
    eapply decodes_bind; [apply decodes_ReadFull|]. rewrite <- (app_nil_r (be_encode 2 _)). eapply decodes_bind; [apply decodes_ReadUint16, Hu|]. rewrite string_of_bytes_of_string. apply decodes_ret.
  - cbn. apply shrinks_bind; [apply shrinks_ReadUint8|intros ?]. apply shrinks_bind; [apply shrinks_ReadFull|intros ?].
    apply shrinks_bind; [unfold ReadUint16; apply shrinks_bind; [apply shrinks_ReadFull|intros ?; apply shrinks_ret]|intros ?; apply shrinks_ret].
  - cbn. unfold ReadUint8, ReadUint16.
    repeat (apply rbind_returns; [first [apply ReadFull_returns|apply rbind_returns; [apply ReadFull_returns|done]]|intros ?]). done.
Qed.

Definition web : Socksaddr := mkSocksaddr AddrInvalid 443 "www.example.org".
Definition dns : Socksaddr := mkSocksaddr AddrInvalid 53 "dns.example.org".
Definition options : TrojanInboundOptions := mkTrojanInboundOptions [mkTrojanUser "alice" "secret"; mkTrojanUser "" "hunter2"] false (Some (mkServerOptions "web" web)) ∅.
Definition zeroInbound : Inbound := mkInbound [] (NewService false) zeroSocksaddr ∅.
Definition inbound : Inbound := match NewInbound options with Ok h => h | _ => zeroInbound end.
Definition never : nat -> option go_error := fun _ => None.
Definition hello : list (list byte + Buffer) := [inl (bytes_of_string "GET "); inr (mkBuffer 400 (bytes_of_string "/"))].
Definition alice : TrojanUser := mkTrojanUser "alice" "secret".
Definition sent_of (ws : list (list byte + Buffer)) : list byte := concat (client_writes never (NewClientConn (Key "secret") web) ws []).1.

Lemma trojan_request_understood_witness :
  NewConnection (in_service inbound) [take 60 (sent_of hello); drop 60 (sent_of hello)]
  = Ok (NewConnectionEx 0%nat web (bytes_of_string "GET /")) /\ routedUser inbound (Some 0%nat) = Ok "alice".
Proof.
  pose proof (trojan_request_understood options inbound 0 alice never web hello (take 60 (sent_of hello)) [drop 60 (sent_of hello)]) as H.
  cbn beta in H. destruct (client_writes never _ hello []) as [sent ok] eqn:E.
  destruct H as [_ H]; [by_compute|by_compute|done|by_compute|by vm_compute|done| |].
  { intros b Hb. apply elem_of_cons in Hb as [Hb|Hb]; [done|]. apply elem_of_cons in Hb as [Hb|Hb]; [injection Hb as ->; by vm_compute|by apply elem_of_nil in Hb]. }
  apply H; [|by vm_compute]. cbn [concat]. rewrite app_nil_r, take_drop. unfold sent_of. change (Key "secret") with (Key (tu_Password alice)). by rewrite E.
Defined.

Definition query : Buffer := mkBuffer 0 (bytes_of_string "query").
Definition second : Buffer := mkBuffer 300 (bytes_of_string "second").
Definition packets_sent (ps : list (Buffer * Socksaddr)) : list byte := concat (packet_writes never (NewClientPacketConn (Key "hunter2")) ps []).1.

Lemma trojan_packets_arrive_witness : exists bytes,
  NewConnection (in_service inbound) [packets_sent [(query, dns); (second, web)]] = Ok (NewPacketConnectionEx 1%nat dns bytes) /\
  read_n 2 (ReadPacket 65535) bytes = Ok ([(dns, bytes_of_string "query"); (web, bytes_of_string "second")], []).
Proof.
  pose proof (trojan_packets_arrive options inbound 1 (mkTrojanUser "" "hunter2") never query dns [(second, web)] 65535 (packets_sent [(query, dns); (second, web)]) []) as H.
  cbn beta in H. destruct (packet_writes never _ ((query, dns) :: _) []) as [sent ok] eqn:E.
  destruct H as [_ H]; [by_compute|by_compute|done| | |lia|].
  { repeat split; by vm_compute. }
  { constructor; [|constructor]. repeat split; by vm_compute. }
  apply H; [|by vm_compute]. cbn [concat]. rewrite app_nil_r. unfold packets_sent. change (Key "hunter2") with (Key (tu_Password (mkTrojanUser "" "hunter2"))). by rewrite E.
Defined.

Lemma trojan_fallback_intact_witness :
  NewConnection (in_service inbound) [bytes_of_string "GET / HTTP/1.1"] = Ok (FallbackConnection (bytes_of_string "GET / HTTP/1.1")).
Proof.
  assert (exists all, NewConnection (in_service inbound) [bytes_of_string "GET / HTTP/1.1"] = Ok (FallbackConnection all)) as [all Hall] by (eexists; vm_compute; reflexivity).
  pose proof (trojan_fallback_intact options inbound [bytes_of_string "GET / HTTP/1.1"]) as H.
  rewrite Hall in H |- *. destruct H as [-> _]; [by_compute|]. by_compute.
Defined.

(** The key is read with one read: a request that arrives in smaller pieces is not recognised. *)
Example key_in_two_pieces :
  NewConnection (in_service inbound) [take 40 (sent_of hello); drop 40 (sent_of hello)] = Ok (FallbackConnection (sent_of hello)).
Proof. by_compute. Qed.

(** A first packet that cannot be sent marks the request as sent: the packets
    after it go out without a request, and the server refuses them. *)
Definition too_long : Socksaddr := mkSocksaddr AddrInvalid 53 (string_of_bytes (repeat x61 300)).
Example failed_request_not_repeated :
  let '(c, (sent, r)) := ClientPacketConn_WritePacket never (NewClientPacketConn (Key "hunter2")) query too_long [] in
  r = Err (ENew "destination address too long") /\ sent = [] /\
  let '(_, (sent, r)) := ClientPacketConn_WritePacket never c second web sent in
  r = Ok tt /\ match NewConnection (in_service inbound) sent with Ok (FallbackConnection _) => true | _ => false end = true.
Proof. vm_compute. repeat split. Qed.

(** The length of a packet is cut to 16 bits. *)
Example length_wraps : be_encode 2 (uint16 65536) = [x00; x00].
Proof. by_compute. Qed.

End TrojanDemo.
