(* ===== verification/Framing.v ===== *)
(** * Framed streams (transport/v2raygrpclite/conn.go, transport/simple-obfs)

    Two transports carry a stream of bytes in frames: [GunConn] (the gRPC framing
    of v2raygrpclite) and [TLSObfs] (records that look like TLS).  Their readers
    keep the number of bytes of the current frame that were not read yet, so that
    callers can read in portions of any size.

    [FramedReader] is what both promise: from a stream of frames, one read
    returns the next bytes of the payload and leaves the rest of it readable.
    [framed_stream] is proved from that promise alone; [Gun_framed] and
    [TLSObfs_framed] discharge it.

    A connection being read is the list of the bytes that arrive on it; a read
    returns at most as many bytes as are [ready], and at least one.  The caller's
    slice is its length ([room]).

    - Bytes written to a [GunConn] are read from the [GunConn] at the other end,
      whatever the sizes of the writes and reads ([gun_stream_intact]).
    - Every write to a [TLSObfs] is sent in full: the first piece inside a TLS
      client hello for the configured server name, which the program's own
      parser finds there, the others in records ([obfs_writes_carried]).
    - Responses are read in full ([obfs_responses_intact]).
    - So are those that look like HTTP ([HTTPObfs], http.go), when the header
      arrives with the first read ([http_responses_intact]). *)
From Stdlib Require Import ZArith Lia Bool.
From S2P Require Import Prelude GoIO SingBuf Ja3 TlsFragment.

(** ** Reading from a connection *)

(** One [Read] into a slice of [room] bytes. *)
Definition conn_take (room : Z) (ready : nat) (stream : list byte) : result (list byte) * list byte :=
  if room =? 0 then (Ok [], stream)
  else match stream with
       | [] => (Err EOF, [])
       | _ => let n := Nat.min (Z.to_nat room) (Nat.max 1 ready) in (Ok (take n stream), drop n stream)
       end.

(** ** What a framed reader promises *)

Section Framed.
Context {C : Type} (read : C -> Z -> nat -> list byte -> C * (result (list byte) * list byte))
  (remaining : C -> Z) (isFirst : C -> bool) (frame : bool -> list byte -> list byte -> Prop).

(** The bytes of the frames of some payloads; the first frame of a connection may differ. *)
Inductive frames_of : bool -> list (list byte) -> list byte -> Prop :=
| frames_nil first : frames_of first [] []
| frames_cons first p w ps ws : frame first p w -> frames_of false ps ws -> frames_of first (p :: ps) (w ++ ws).

(** A connection in the middle of a frame: [left] is still to be read, in the
    current frame and [n] more. *)
Definition carries (c : C) (stream left : list byte) (n : nat) : Prop :=
  exists chunk ps rest, stream = chunk ++ rest /\ remaining c = zlen chunk /\ frames_of (isFirst c) ps rest /\
    left = chunk ++ concat ps /\ n = length ps.

Class FramedReader := framed_step : forall c stream left n room ready, carries c stream left n -> 0 < room ->
  match read c room ready stream with
  | (c', (Ok out, stream')) => exists left' n', left = out ++ left' /\ carries c' stream' left' n' /\ (length left' + n' < length left + n)%nat
  | (_, (Err e, _)) => e = EOF /\ left = [] /\ n = O
  | (_, (Panic _, _)) => False
  end.

(** Reads with slices and portions of some sizes, until one fails. *)
Fixpoint reads (plan : list (Z * nat)) (c : C) (stream : list byte) : list byte * option go_error :=
  match plan with
  | [] => ([], None)
  | (room, ready) :: more =>
      match read c room ready stream with
      | (c', (Ok out, stream')) => let '(outs, e) := reads more c' stream' in (out ++ outs, e)
      | (_, (Err e, _)) => ([], Some e)
      | (_, (Panic s, _)) => ([], Some (ENew s))
      end
  end.

Lemma framed_stream `{FR : FramedReader} plan : forall c stream left n, carries c stream left n -> Forall (fun r => 0 < fst r) plan ->
  let '(outs, e) := reads plan c stream in
  (exists rest, left = outs ++ rest) /\ (e = None \/ e = Some EOF /\ outs = left) /\ ((length left + n <= length plan)%nat -> outs = left).
Proof.
  induction plan as [|[room ready] plan IH]; intros c stream left n Hc Hplan; cbn [reads].
  - split; [by exists left|]. split; [by left|]. cbn [length]. intros Hl. destruct left; [done|cbn in Hl; lia].
  - apply Forall_cons in Hplan as [Hroom Hplan]. pose proof (framed_step c stream left n room ready Hc Hroom) as Hstep.
    destruct (read c room ready stream) as [c' [[out|e|] stream']].
    + destruct Hstep as (left' & n' & -> & Hc' & Hm). pose proof (IH c' stream' left' n' Hc' Hplan) as H. destruct (reads plan c' stream') as [outs e].
      destruct H as ([rest ->] & He & Hall). split; [exists rest; by rewrite app_assoc|]. split; [destruct He as [He|[He Ho]]; [by left|right; split; [done|by rewrite <- Ho]]|].
      cbn [length]. intros Hl. rewrite <- Hall by lia. done.
    + destruct Hstep as (-> & -> & ->). split; [by exists []|]. split; [by right|]. done.
    + done.
Qed.

End Framed.

(** ** gRPC frames (v2raygrpclite/conn.go) *)

Section Gun.
Context `{BE : BufEnv} (UvarintLen : Z -> Z).

Record GunConn := mkGunConn { readRemaining : Z }.
Definition newGunConn : GunConn := mkGunConn 0.

(** [reader.Discard(6)]. *)
Definition Discard6 : Reader unit := fun i => if zlen i <? 6 then Err EOF else Ok (tt, drop 6 i).

Definition maxInt : Z := 2 ^ 63 - 1.

(** A read inside a frame. *)
Definition Gun_rest (c : GunConn) (room : Z) (ready : nat) (stream : list byte) : GunConn * (result (list byte) * list byte) :=
  let room := if readRemaining c <? room then readRemaining c else room in
  match conn_take room ready stream with
  | (Ok out, stream) => (mkGunConn (readRemaining c - zlen out), (Ok out, stream))
  | (r, stream) => (c, (r, stream))
  end.

Definition Gun_read (c : GunConn) (room : Z) (ready : nat) (stream : list byte) : GunConn * (result (list byte) * list byte) :=
  if 0 <? readRemaining c then Gun_rest c room ready stream
  else match (let! _ := Discard6 in ReadUvarint) stream with
       | Ok (dataLen, stream) =>
           if maxInt <? dataLen then (c, (Err (ENew "v2ray-grpc-lite: message length overflow"), stream))
           else Gun_rest (mkGunConn dataLen) room ready stream
       | Err e => (c, (Err e, []))
       | Panic s => (c, (Panic s, []))
       end.

(** The header written to [room], the 6 + varLen bytes before the data. *)
Definition Gun_header (room : list byte) (dataLen varLen : Z) : result (list byte) :=
  let number := AppendUvarint dataLen in
  if varLen <? zlen number then Panic "runtime error: index out of range"
  else Ok ([x00] ++ be_encode 4 (uint32 (1 + varLen + dataLen)) ++ [x0a] ++ number ++ drop (6 + length number) room).

Definition Gun_Write (stale : list byte) (b : list byte) : result (list byte) :=
  let varLen := UvarintLen (zlen b) in
  let* header := Gun_header stale (zlen b) varLen in
  must (buf_Write (6 + varLen + zlen b) header b).

Definition Gun_WriteBuffer (buffer : Buffer) : result (list byte) :=
  let varLen := UvarintLen (zlen (b_data buffer)) in
  let* room := ExtendHeader buffer (6 + varLen) in
  let* header := Gun_header room (zlen (b_data buffer)) varLen in
  Ok (header ++ b_data buffer).

Definition Gun_FrontHeadroom : Z := 6 + 10.

End Gun.

(** ** Records that look like TLS (simple-obfs/tls.go) *)

Section Obfs.

Definition chunkSize : Z := 16384.

Record TLSObfs := mkTLSObfs { to_server : list byte; to_remain : Z; to_firstRequest : bool; to_firstResponse : bool }.
Definition NewTLSObfs (server : list byte) : TLSObfs := mkTLSObfs server 0 true true.
Definition set_remain (n : Z) (c : TLSObfs) : TLSObfs := mkTLSObfs (to_server c) n (to_firstRequest c) (to_firstResponse c).

(** [io.ReadFull]: on an error everything that arrived is gone. *)
Definition read_all (n : Z) (stream : list byte) : result (list byte) * list byte :=
  match ReadFull n stream with Ok (out, stream) => (Ok out, stream) | Err e => (Err e, []) | Panic s => (Panic s, []) end.

Definition TLSObfs_read (c : TLSObfs) (room : Z) (ready : nat) (discardN : Z) (stream : list byte) : TLSObfs * (result (list byte) * list byte) :=
  match read_all discardN stream with
  | (Ok _, stream) =>
      match read_all 2 stream with
      | (Ok sizeBuf, stream) =>
          let length := be_decode sizeBuf in
          if room <? length then
            match conn_take room ready stream with
            | (Ok out, stream) => (set_remain (length - zlen out) c, (Ok out, stream))
            | (r, stream) => (c, (r, stream))
            end
          else (c, read_all length stream)
      | (Err _, stream) => (c, (Ok [], stream))
      | (Panic s, stream) => (c, (Panic s, stream))
      end
  | (r, stream) => (c, (r, stream))
  end.

Definition TLSObfs_Read (c : TLSObfs) (room : Z) (ready : nat) (stream : list byte) : TLSObfs * (result (list byte) * list byte) :=
  if 0 <? to_remain c then
    let length := if room <? to_remain c then room else to_remain c in
    match read_all length stream with
    | (Ok out, rest) => (set_remain (to_remain c - zlen out) c, (Ok out, rest))
    | (r, rest) => (set_remain (to_remain c - zlen stream) c, (r, rest))
    end
  else if to_firstResponse c
  then TLSObfs_read (mkTLSObfs (to_server c) (to_remain c) (to_firstRequest c) false) room ready 105 stream
  else TLSObfs_read c room ready 3 stream.

Definition cipherSuites : list byte :=
  [xc0; x2c; xc0; x30; x00; x9f; xcc; xa9; xcc; xa8; xcc; xaa; xc0; x2b; xc0; x2f;
   x00; x9e; xc0; x24; xc0; x28; x00; x6b; xc0; x23; xc0; x27; x00; x67; xc0; x0a;
   xc0; x14; x00; x39; xc0; x09; xc0; x13; x00; x33; x00; x9d; x00; x9c; x00; x3d;
   x00; x3c; x00; x35; x00; x2f; x00; xff].
Definition ec_point : list byte := [x00; x0b; x00; x04; x03; x01; x00; x02].
Definition supported_groups : list byte := [x00; x0a; x00; x0a; x00; x08; x00; x1d; x00; x17; x00; x19; x00; x18].
Definition signature : list byte :=
  [x00; x0d; x00; x20; x00; x1e; x06; x01; x06; x02; x06; x03; x05;
   x01; x05; x02; x05; x03; x04; x01; x04; x02; x04; x03; x03; x01;
   x03; x02; x03; x03; x02; x01; x02; x02; x02; x03].

(** The extensions: session ticket, server name and the constant ones. *)
Definition helloExtensions (data server : list byte) : list byte :=
  [x00; x23] ++ be_encode 2 (uint16 (zlen data)) ++ data
  ++ [x00; x00] ++ be_encode 2 (uint16 (zlen server + 5)) ++ be_encode 2 (uint16 (zlen server + 3)) ++ [x00]
  ++ be_encode 2 (uint16 (zlen server)) ++ server
  ++ ec_point ++ supported_groups ++ signature ++ [x00; x16; x00; x00] ++ [x00; x17; x00; x00].

(** [now] is [time.Now().Unix()], [random] and [sessionID] the random bytes. *)
Definition makeClientHelloMsg (now : Z) (random sessionID : list byte) (data server : list byte) : list byte :=
  let length := uint16 (212 + zlen data + zlen server) in
  [x16] ++ [x03; x01] ++ [byte_of_Z (Z.shiftr length 8)] ++ [byte_of_Z (Z.land length 255)]
  ++ [x01] ++ [x00] ++ be_encode 2 (uint16 (208 + zlen data + zlen server)) ++ [x03; x03]
  ++ be_encode 4 (uint32 now) ++ random ++ [x20] ++ sessionID
  ++ [x00; x38] ++ cipherSuites ++ [x01; x00]
  ++ be_encode 2 (uint16 (79 + zlen data + zlen server)) ++ helloExtensions data server.

(** The random bytes and the time of the hello, and the outcomes of the writes. *)
Context (now : Z) (random sessionID : list byte) (write_ends : nat -> option go_error).

Definition sendTo (payload : list byte) (sent : list (list byte)) : list (list byte) * result unit :=
  (sent ++ [payload], match write_ends (length sent) with None => Ok tt | Some e => Err e end).

Definition TLSObfs_write (c : TLSObfs) (b : list byte) (sent : list (list byte)) : TLSObfs * (list (list byte) * result unit) :=
  if to_firstRequest c
  then (mkTLSObfs (to_server c) (to_remain c) false (to_firstResponse c), sendTo (makeClientHelloMsg now random sessionID b (to_server c)) sent)
  else (c, sendTo ([x17; x03; x03] ++ be_encode 2 (uint16 (zlen b)) ++ b) sent).

(** The loop over the pieces of [b]; [fuel] bounds their number. *)
Fixpoint TLSObfs_write_loop (fuel : nat) (c : TLSObfs) (b : list byte) (sent : list (list byte)) : TLSObfs * (list (list byte) * result unit) :=
  match b with
  | [] => (c, (sent, Ok tt))
  | _ =>
      match fuel with
      | O => (c, (sent, Err OutOfFuel))
      | S fuel' =>
          match TLSObfs_write c (take (Z.to_nat chunkSize) b) sent with
          | (c, (sent, Ok _)) => TLSObfs_write_loop fuel' c (drop (Z.to_nat chunkSize) b) sent
          | (c, (sent, r)) => (c, (sent, r))
          end
      end
  end.
Definition TLSObfs_Write (c : TLSObfs) (b : list byte) (sent : list (list byte)) : TLSObfs * (list (list byte) * result Z) :=
  let '(c, (sent, r)) := TLSObfs_write_loop (length b) c b sent in (c, (sent, let* _ := r in Ok (zlen b))).

End Obfs.

(** ** The gRPC frames keep the promise *)

Definition gun_frame (first : bool) (p w : list byte) : Prop :=
  exists header, length header = 6%nat /\ zlen p < 2 ^ 63 /\ w = header ++ AppendUvarint (zlen p) ++ p.

Lemma conn_take_ok room ready stream : 0 < room -> stream <> [] ->
  exists n, (0 < n)%nat /\ Z.of_nat n <= room /\ conn_take room ready stream = (Ok (take n stream), drop n stream).
Proof.
  intros Hr Hs. unfold conn_take. rewrite (proj2 (Z.eqb_neq _ _)) by lia. destruct stream as [|b stream]; [done|].
  exists (Nat.min (Z.to_nat room) (Nat.max 1 ready)). split; [lia|]. split; [lia|done].
Qed.

(** A read inside a frame of which [chunk] is left. *)
Lemma Gun_rest_step c room ready chunk rest ps : readRemaining c = zlen chunk -> 0 < room -> frames_of gun_frame false ps rest ->
  exists c' out chunk', Gun_rest c room ready (chunk ++ rest) = (c', (Ok out, chunk' ++ rest)) /\ chunk = out ++ chunk' /\
    (chunk <> [] -> out <> []) /\ readRemaining c' = zlen chunk'.
Proof.
  intros Hc Hroom Hf. unfold Gun_rest. destruct chunk as [|b chunk].
  - rewrite Hc, zlen_nil, (proj2 (Z.ltb_lt _ _)) by lia. exists (mkGunConn (0 - zlen (@nil byte))), [], []. by repeat split.
  - set (bs := b :: chunk) in *. assert (0 < zlen bs) as Hpos by (unfold bs; rewrite zlen_cons; pose proof (zlen_nonneg chunk); lia).
    set (room' := if readRemaining c <? room then readRemaining c else room).
    assert (0 < room' <= zlen bs) as Hr' by (unfold room'; rewrite Hc; destruct (Z.ltb_spec (zlen bs) room); lia).
    destruct (conn_take_ok room' ready (bs ++ rest)) as (n & Hn & Hle & ->); [lia|done|].
    exists (mkGunConn (readRemaining c - zlen (take n (bs ++ rest)))), (take n bs), (drop n bs).
    assert (n <= length bs)%nat as Hnl by (unfold zlen in Hr'; lia). rewrite take_app_le, drop_app_le by done.
    split; [done|]. split; [by rewrite take_drop|]. split; [intros _; destruct n; [lia|done]|].
    cbn [readRemaining]. rewrite Hc. rewrite <- (take_drop n bs) at 1. rewrite zlen_app. lia.
Qed.

#[export] Instance Gun_framed : FramedReader Gun_read readRemaining (fun _ => false) gun_frame.
Proof.
  intros c stream left n room ready (chunk & ps & rest & -> & Hc & Hf & -> & ->) Hroom. unfold Gun_read. rewrite Hc.
  destruct (Z.ltb_spec 0 (zlen chunk)) as [Hpos|Hzero].
  - destruct (Gun_rest_step c room ready chunk rest ps Hc Hroom Hf) as (c' & out & chunk' & -> & -> & Hne & Hc').
    exists (chunk' ++ concat ps), (length ps). rewrite <- app_assoc. split; [done|]. split; [by exists chunk', ps, rest|].
    destruct out; [|rewrite !length_app; cbn [length]; lia]. destruct Hne; [|done]. cbn [app] in *. intros ->. unfold zlen in Hpos. cbn in Hpos. lia.
  - assert (chunk = []) as -> by (destruct chunk; [done|rewrite zlen_cons in Hzero; pose proof (zlen_nonneg chunk); lia]). cbn [app].
    inversion Hf as [first E1 E2 E3|first p w ps' ws (header & Hh & Hl & ->) Hf' E1 E2 E3]; subst.
    + by cbn.
    + assert ((let! _ := Discard6 in ReadUvarint) (((header ++ AppendUvarint (zlen p) ++ p)) ++ ws) = Ok (zlen p, p ++ ws)) as ->.
      { unfold rbind, Discard6. rewrite <- !app_assoc, (proj2 (Z.ltb_ge _ _)) by (rewrite zlen_app; unfold zlen at 1; rewrite Hh; pose proof (zlen_nonneg (AppendUvarint (zlen p) ++ p ++ ws)); lia).
        rewrite drop_app_length' by done. apply AppendUvarint_decodes. pose proof (zlen_nonneg p). unfold is_uint. lia. }
      rewrite (proj2 (Z.ltb_ge maxInt _)) by (unfold maxInt; lia).
      destruct (Gun_rest_step (mkGunConn (zlen p)) room ready p ws ps' eq_refl Hroom Hf') as (c' & out & chunk' & -> & -> & Hne & Hc').
      exists (chunk' ++ concat ps'), (length ps'). cbn [concat]. rewrite <- app_assoc. split; [done|]. split; [by exists chunk', ps', ws|].
      cbn [length app]. rewrite !length_app. lia.
Qed.

(** ** What is written to a gRPC connection *)

Section GunWrites.
Context `{BL : BufLaws} (UvarintLen : Z -> Z) (stale : list byte -> list byte).

(** The bytes handed to the writer for writes of bytes or of buffers. *)
Definition gun_sent (p : list byte + Buffer) : result (list byte) :=
  match p with inl b => Gun_Write UvarintLen (stale b) b | inr buffer => Gun_WriteBuffer UvarintLen buffer end.
Definition gun_payload (p : list byte + Buffer) : list byte := match p with inl b => b | inr buffer => b_data buffer end.

Context (UvarintLen_exact : forall v, is_uint 64 v -> UvarintLen v = zlen (AppendUvarint v))
  (stale_length : forall b, zlen (stale b) = 6 + UvarintLen (zlen b)).

Definition gun_writable (p : list byte + Buffer) : Prop :=
  zlen (gun_payload p) < 2 ^ 63 /\ match p with inl _ => True | inr buffer => Gun_FrontHeadroom <= b_start buffer end.

Lemma AppendUvarint_max v : zlen (AppendUvarint v) <= 10.
Proof.
  unfold AppendUvarint. assert (forall n v, zlen (AppendUvarint_loop n v) <= Z.of_nat n) as Hmax; [|apply (Hmax 10%nat)].
  clear v. induction n as [|n IH]; intros v; cbn [AppendUvarint_loop]; [by rewrite zlen_nil|].
  destruct (_ <? _); rewrite zlen_cons; [rewrite zlen_nil; lia|]. pose proof (IH (Z.shiftr v 7)). lia.
Qed.

Lemma Gun_header_ok room n : is_uint 64 n -> zlen room = 6 + UvarintLen n ->
  exists header, length header = 6%nat /\ Gun_header room n (UvarintLen n) = Ok (header ++ AppendUvarint n).
Proof.
  intros Hn Hroom. unfold Gun_header. rewrite UvarintLen_exact in * by done. rewrite Z.ltb_irrefl.
  exists ([x00] ++ be_encode 4 (uint32 (1 + zlen (AppendUvarint n) + n)) ++ [x0a]). split; [rewrite !length_app, length_be_encode; done|].
  rewrite drop_ge by (unfold zlen in Hroom; lia). by rewrite app_nil_r, <- !app_assoc.
Qed.

Lemma gun_sent_frame p : gun_writable p -> exists w, gun_sent p = Ok w /\ gun_frame false (gun_payload p) w.
Proof.
  intros [Hl Hroom]. assert (is_uint 64 (zlen (gun_payload p))) as Hn by (pose proof (zlen_nonneg (gun_payload p)); unfold is_uint; lia).
  destruct p as [b|buffer]; cbn [gun_sent gun_payload] in *; unfold Gun_Write, Gun_WriteBuffer.
  - destruct (Gun_header_ok (stale b) (zlen b) Hn (stale_length b)) as (header & Hh & ->). cbn [bind_result].
    rewrite buf_Write_room by (rewrite zlen_app, UvarintLen_exact by done; unfold zlen at 1; rewrite Hh; lia). cbn [must]. eexists. split; [done|].
    exists header. by rewrite <- app_assoc.
  - destruct (ExtendHeader_room buffer (6 + UvarintLen (zlen (b_data buffer)))) as (room & -> & Hr).
    { rewrite UvarintLen_exact by done. pose proof (AppendUvarint_max (zlen (b_data buffer))). pose proof (zlen_nonneg (AppendUvarint (zlen (b_data buffer)))). unfold Gun_FrontHeadroom in Hroom. lia. }
    cbn [bind_result]. destruct (Gun_header_ok room (zlen (b_data buffer)) Hn Hr) as (header & Hh & ->). cbn [bind_result]. eexists. split; [done|].
    exists header. by rewrite <- app_assoc.
Qed.

Lemma gun_sent_frames ps ws : Forall gun_writable ps -> map_result gun_sent ps = Ok ws -> frames_of gun_frame false (map gun_payload ps) (concat ws).
Proof.
  intros Hall. revert ws. induction Hall as [|p ps Hp _ IH]; intros ws Hr; cbn [map_result] in Hr; [injection Hr as <-; constructor|].
  destruct (gun_sent_frame p Hp) as (w & E & Hw). rewrite E in Hr. cbn [bind_result] in Hr. bind_case Hr; try done. injection Hr as <-. cbn [map concat]. constructor; [done|by apply IH].
Qed.

Lemma gun_sent_all ps : Forall gun_writable ps -> exists ws, map_result gun_sent ps = Ok ws.
Proof.
  induction 1 as [|p ps Hp _ [ws IH]]; [by eexists|]. cbn [map_result]. destruct (gun_sent_frame p Hp) as (w & -> & _). cbn [bind_result]. rewrite IH. by eexists.
Qed.

End GunWrites.

(** C37: what is written to a gRPC connection is read at the other end.  For any
    writes of bytes, or of buffers with the advertised room in front, that the
    underlying connection takes, and any sizes of the reads (of at least one
    byte): each write produces one frame and does not panic, the reads return
    the bytes in order, none missing or added; a read fails only at the end; and
    as many reads as there are bytes and writes return everything.  The length
    [varbin.UvarintLen] computes is assumed to be that of the encoding, and data
    to be shorter than 2^63 bytes. *)
Theorem gun_stream_intact `{BL : BufLaws} (UvarintLen : Z -> Z) (stale : list byte -> list byte) (ps : list (list byte + Buffer)) (plan : list (Z * nat)) :
  (forall v, is_uint 64 v -> UvarintLen v = zlen (AppendUvarint v)) -> (forall b, zlen (stale b) = 6 + UvarintLen (zlen b)) ->
  Forall gun_writable ps -> Forall (fun r => 0 < fst r) plan ->
  exists ws, map_result (gun_sent UvarintLen stale) ps = Ok ws /\
    let payload := concat (map gun_payload ps) in
    let '(outs, e) := reads Gun_read plan newGunConn (concat ws) in
    (exists rest, payload = outs ++ rest) /\ (e = None \/ e = Some EOF /\ outs = payload) /\
    ((length payload + length ps <= length plan)%nat -> outs = payload).
Proof.
  intros Hlen Hstale Hps Hplan. destruct (gun_sent_all UvarintLen stale Hlen Hstale ps Hps) as [ws Hws]. exists ws. split; [done|]. cbn zeta.
  rewrite <- (length_map gun_payload ps). apply (framed_stream Gun_read readRemaining (fun _ => false) gun_frame); [|done].
  exists [], (map gun_payload ps), (concat ws). repeat split. by apply (gun_sent_frames UvarintLen stale Hlen Hstale).
Qed.

(** ** The records keep the promise *)

Definition obfs_frame (first : bool) (p w : list byte) : Prop :=
  exists junk, zlen junk = (if first then 105 else 3) /\ zlen p < 65536 /\ w = junk ++ be_encode 2 (zlen p) ++ p.

Lemma read_all_app n bs rest : n = zlen bs -> read_all n (bs ++ rest) = (Ok bs, rest).
Proof. intros ->. unfold read_all. by rewrite (decodes_ReadFull bs rest). Qed.

Lemma TLSObfs_read_frame c room ready first p w ws : to_remain c = 0 -> 0 < room -> obfs_frame first p w ->
  exists out chunk, TLSObfs_read c room ready (if first then 105 else 3) (w ++ ws) = (set_remain (zlen chunk) c, (Ok out, chunk ++ ws)) /\ p = out ++ chunk.
Proof.
  intros Hc Hroom (junk & Hj & Hp & ->). unfold TLSObfs_read. rewrite <- !app_assoc, read_all_app by done.
  pose proof (zlen_nonneg p). assert (is_uint 16 (zlen p)) as Hu by (unfold is_uint; lia).
  rewrite read_all_app by (unfold zlen; by rewrite length_be_encode). rewrite be_decode_encode by apply Hu.
  destruct (Z.ltb_spec room (zlen p)) as [Hlt|Hge].
  - destruct (conn_take_ok room ready (p ++ ws)) as (n & Hn & Hle & ->); [done|destruct p; [rewrite zlen_nil in Hlt; lia|done]|].
    assert (n <= length p)%nat as Hnl by (unfold zlen in Hlt; lia). rewrite take_app_le, drop_app_le by done.
    exists (take n p), (drop n p). split; [|by rewrite take_drop]. do 2 f_equal. rewrite <- (take_drop n p) at 1. rewrite zlen_app. lia.
  - exists p, []. rewrite read_all_app by done. rewrite app_nil_r. split; [|done]. cbn. unfold set_remain. destruct c; cbn in *. by subst.
Qed.

#[export] Instance TLSObfs_framed : FramedReader TLSObfs_Read to_remain to_firstResponse obfs_frame.
Proof.
  intros c stream left n room ready (chunk & ps & rest & -> & Hc & Hf & -> & ->) Hroom. unfold TLSObfs_Read. rewrite Hc.
  destruct (Z.ltb_spec 0 (zlen chunk)) as [Hpos|Hzero].
  - set (len := if room <? zlen chunk then room else zlen chunk).
    assert (0 < len <= zlen chunk) as Hlen by (unfold len; destruct (Z.ltb_spec room (zlen chunk)); lia).
    assert (len = zlen (take (Z.to_nat len) chunk)) as Ht by (unfold zlen in *; rewrite length_take; lia).
    assert (read_all len (chunk ++ rest) = (Ok (take (Z.to_nat len) chunk), drop (Z.to_nat len) chunk ++ rest)) as ->
      by (rewrite <- (read_all_app len) by done; by rewrite app_assoc, take_drop).
    exists (drop (Z.to_nat len) chunk ++ concat ps), (length ps). split; [by rewrite app_assoc, take_drop|]. split.
    + exists (drop (Z.to_nat len) chunk), ps, rest. split; [done|]. split; [|done]. cbn [set_remain to_remain]. rewrite <- (take_drop (Z.to_nat len) chunk) at 1. rewrite zlen_app. lia.
    + rewrite !length_app, length_drop. unfold zlen in *. lia.
  - assert (chunk = []) as -> by (destruct chunk; [done|rewrite zlen_cons in Hzero; pose proof (zlen_nonneg chunk); lia]). cbn [app]. rewrite zlen_nil in Hc.
    assert (forall first c0, to_firstResponse c0 = false -> to_remain c0 = 0 -> frames_of obfs_frame first ps rest ->
      match TLSObfs_read c0 room ready (if first then 105 else 3) rest with
      | (c', (Ok out, stream')) => exists left' n', concat ps = out ++ left' /\ carries to_remain to_firstResponse obfs_frame c' stream' left' n' /\ (length left' + n' < length (concat ps) + length ps)%nat
      | (_, (Err e, _)) => e = EOF /\ concat ps = [] /\ length ps = O
      | (_, (Panic _, _)) => False
      end) as Hframe.
    { intros first c0 Hf0 Hr0 Hfr. inversion Hfr as [f E1 E2 E3|f p w ps' ws Hw Hf' E1 E2 E3]; subst.
      - by destruct first.
      - destruct (TLSObfs_read_frame c0 room ready first p w ws Hr0 Hroom Hw) as (out & chunk & -> & ->).
        exists (chunk ++ concat ps'), (length ps'). cbn [concat]. rewrite <- app_assoc. split; [done|]. split; [|cbn [length]; rewrite !length_app; lia].
        exists chunk, ps', ws. split; [done|]. split; [done|]. split; [|done]. cbn. by rewrite Hf0. }
    destruct (to_firstResponse c) eqn:Ef; [by apply (Hframe true)|by apply (Hframe false)].
Qed.

(** Responses that look like TLS are read in full.  When the peer sends its
    payload in the frames of the protocol (the first one behind the 105 bytes of
    its hello), reads of any sizes return the payload in order, none missing or
    added; a read fails only at the end; and enough reads return everything. *)
Theorem obfs_responses_intact (server : list byte) (ps : list (list byte)) (stream : list byte) (plan : list (Z * nat)) :
  frames_of obfs_frame true ps stream -> Forall (fun r => 0 < fst r) plan ->
  let '(outs, e) := reads TLSObfs_Read plan (NewTLSObfs server) stream in
  (exists rest, concat ps = outs ++ rest) /\ (e = None \/ e = Some EOF /\ outs = concat ps) /\
  ((length (concat ps) + length ps <= length plan)%nat -> outs = concat ps).
Proof.
  intros Hf Hplan. apply (framed_stream TLSObfs_Read to_remain to_firstResponse obfs_frame); [|done]. by exists [], ps, stream.
Qed.

(** ** The hello that is sent *)

Section Hello.
Context (now : Z) (random sessionID data server : list byte).
Context (Hrandom : zlen random = 28) (Hsession : zlen sessionID = 32) (Hsize : 212 + zlen data + zlen server < 65536).

(** The fields of the hello. *)
Definition hello_fields : Hello := mkHello 0x0303 (be_encode 4 (uint32 now) ++ random) sessionID
  [0xc02c; 0xc030; 0x009f; 0xcca9; 0xcca8; 0xccaa; 0xc02b; 0xc02f; 0x009e; 0xc024; 0xc028; 0x006b; 0xc023; 0xc027; 0x0067; 0xc00a;
   0xc014; 0x0039; 0xc009; 0xc013; 0x0033; 0x009d; 0x009c; 0x003d; 0x003c; 0x0035; 0x002f; 0x00ff] [x00]
  [E_Other 35 data; E_ServerName server; E_PointFormats [x01; x00; x02]; E_Groups [29; 23; 25; 24];
   E_SignatureAlgorithms [0x0601; 0x0602; 0x0603; 0x0501; 0x0502; 0x0503; 0x0401; 0x0402; 0x0403; 0x0301; 0x0302; 0x0303; 0x0201; 0x0202; 0x0203];
   E_Other 22 []; E_Other 23 []].

Lemma uint16_small n : 0 <= n < 65536 -> uint16 n = n.
Proof. intros Hn. unfold uint16, wrap. apply Z.mod_small. lia. Qed.

Lemma hello_extensions : encode_exts (h_exts hello_fields) = helloExtensions data server.
Proof.
  pose proof (zlen_nonneg data). pose proof (zlen_nonneg server). unfold encode_exts, helloExtensions. cbn [h_exts hello_fields map concat]. unfold encode_ext. cbn [ext_body ext_type].
  assert (zlen (be_encode 2 (zlen server + 3) ++ x00 :: be_encode 2 (zlen server) ++ server) = zlen server + 5) as -> by (wire_lengths; lia).
  rewrite !uint16_small by lia. rewrite <- !app_assoc. reflexivity.
Qed.
Lemma zlen_helloExtensions : zlen (helloExtensions data server) = 79 + zlen data + zlen server.
Proof. unfold helloExtensions, ec_point, supported_groups, signature. wire_lengths. lia. Qed.

Lemma zlen_hello_body : zlen (encode_body hello_fields) = 208 + zlen data + zlen server.
Proof.
  unfold encode_body, encode_suites. rewrite hello_extensions. wire_lengths. rewrite zlen_helloExtensions.
  cbn [h_random h_session h_suites h_compression hello_fields]. wire_lengths. rewrite Hrandom, Hsession. rewrite (@zlen_nil byte). lia.
Qed.

Lemma hello_encoded : makeClientHelloMsg now random sessionID data server = x16 :: x03 :: x01 :: be_encode 2 (zlen (encode_handshake hello_fields)) ++ encode_handshake hello_fields.
Proof.
  pose proof (zlen_nonneg data). pose proof (zlen_nonneg server).
  assert (zlen (encode_handshake hello_fields) = 212 + zlen data + zlen server) as -> by (unfold encode_handshake; wire_lengths; rewrite zlen_hello_body; lia).
  unfold encode_handshake. rewrite zlen_hello_body. unfold encode_body, encode_suites. rewrite hello_extensions, zlen_helloExtensions.
  unfold makeClientHelloMsg. rewrite !uint16_small by lia. set (n := 212 + zlen data + zlen server).
  assert (be_encode 2 n = [byte_of_Z (Z.shiftr n 8)] ++ [byte_of_Z (Z.land n 255)]) as ->.
  { cbn. do 2 f_equal. unfold byte_of_Z. change 255 with (Z.ones 8). rewrite Z.land_ones by lia. change (2 ^ 8) with 256. by rewrite Zmod_mod. }
  assert (be_encode 3 (208 + zlen data + zlen server) = x00 :: be_encode 2 (208 + zlen data + zlen server)) as ->.
  { cbn [be_encode]. f_equal. rewrite Z.shiftr_div_pow2, Z.div_small by lia. done. }
  cbn [h_version h_random h_session h_suites h_compression hello_fields]. rewrite Hsession. rewrite <- !app_assoc. reflexivity.
Qed.

Lemma hello_fields_ok : hello_ok hello_fields.
Proof.
  pose proof (zlen_nonneg data). pose proof (zlen_nonneg server). split; cbn [h_version h_random h_session h_suites h_compression h_exts hello_fields].
  - by split.
  - wire_lengths. lia.
  - lia.
  - repeat constructor; by vm_compute.
  - done.
  - repeat constructor; cbn; try (by vm_compute); try (intros Hin; set_solver).
  - unfold encode_handshake. wire_lengths. rewrite zlen_hello_body. lia.
Qed.

Lemma Compute_minor l : Compute (x16 :: x03 :: x01 :: l) = Compute (x16 :: x03 :: x03 :: l).
Proof. reflexivity. Qed.

(** The search for a server name finds the configured one in the hello. *)
Lemma hello_names_server : server <> [] -> exists sn, IndexTLSServerName (makeClientHelloMsg now random sessionID data server) = Ok (Some sn) /\ sn_ServerName sn = server.
Proof.
  intros Hs. pose proof hello_fields_ok as Hok. pose proof (ok_length _ Hok) as Hl. pose proof (zlen_nonneg (encode_handshake hello_fields)).
  destruct (server_name_agrees (makeClientHelloMsg now random sessionID data server) (hello_of hello_fields) (zlen (encode_handshake hello_fields))) as (found & Hf & Hn & _).
  - rewrite hello_encoded, Compute_minor. by apply (Compute_encode hello_fields).
  - rewrite hello_encoded. apply (be16_app [x16; x03; x01]); [done|]. unfold is_uint. lia.
  - rewrite hello_encoded. wire_lengths. lia.
  - by vm_compute.
  - change (ServerName (hello_of hello_fields)) with server in Hn. destruct found as [sn|]; [by exists sn|]. by destruct Hs.
Qed.

End Hello.

(** ** What is written *)

Section ObfsWrites.
Context (now : Z) (random sessionID : list byte) (write_ends : nat -> option go_error).

Definition record (p : list byte) : list byte := [x17; x03; x03] ++ be_encode 2 (zlen p) ++ p.

(** Pieces of the size of a chunk at most. *)
Definition piece_ok (p : list byte) : Prop := 0 < zlen p <= chunkSize.

(** What is sent for some pieces: the first one of the connection in a hello. *)
Definition sent_pieces (c : TLSObfs) (pieces : list (list byte)) : list (list byte) :=
  match to_firstRequest c, pieces with
  | true, p :: ps => makeClientHelloMsg now random sessionID p (to_server c) :: map record ps
  | _, _ => map record pieces
  end.

Definition after_pieces (c : TLSObfs) (pieces : list (list byte)) : TLSObfs :=
  match pieces with [] => c | _ => mkTLSObfs (to_server c) (to_remain c) false (to_firstResponse c) end.

Context (Hok : forall n, write_ends n = None).

Lemma TLSObfs_write_ok c p sent : piece_ok p ->
  TLSObfs_write now random sessionID write_ends c p sent = (after_pieces c [p], (sent ++ sent_pieces c [p], Ok tt)).
Proof.
  intros Hp. unfold TLSObfs_write, sent_pieces, after_pieces, sendTo, record. rewrite Hok. destruct c as [server remain [] resp]; cbn [to_server to_remain to_firstRequest to_firstResponse map]; [done|].
  unfold piece_ok, chunkSize in Hp. by rewrite uint16_small by lia.
Qed.

Lemma sent_pieces_cons c p ps : sent_pieces c (p :: ps) = sent_pieces c [p] ++ sent_pieces (after_pieces c [p]) ps.
Proof. unfold sent_pieces, after_pieces. cbn [to_firstRequest]. by destruct (to_firstRequest c). Qed.
Lemma after_pieces_cons c p ps : after_pieces c (p :: ps) = after_pieces (after_pieces c [p]) ps.
Proof. by destruct ps. Qed.

Lemma TLSObfs_write_loop_ok fuel : forall c b sent, (length b <= fuel)%nat -> exists pieces, concat pieces = b /\ Forall piece_ok pieces /\
  TLSObfs_write_loop now random sessionID write_ends fuel c b sent = (after_pieces c pieces, (sent ++ sent_pieces c pieces, Ok tt)).
Proof.
  induction fuel as [|fuel IH]; intros c b sent Hb.
  - destruct b; [|cbn in Hb; lia]. exists []. split; [done|]. split; [constructor|]. cbn. unfold sent_pieces. destruct (to_firstRequest c); by rewrite app_nil_r.
  - destruct b as [|x b]; [exists []; split; [done|]; split; [constructor|]; cbn; unfold sent_pieces; destruct (to_firstRequest c); by rewrite app_nil_r|].
    cbn [TLSObfs_write_loop]. set (bs := x :: b) in *. set (k := Z.to_nat chunkSize). assert (0 < k)%nat as Hk by (unfold k, chunkSize; lia).
    assert (piece_ok (take k bs)) as Hp by (unfold piece_ok, zlen; rewrite length_take; unfold k, bs; cbn [length]; unfold chunkSize; lia).
    rewrite TLSObfs_write_ok by done. destruct (IH (after_pieces c [take k bs]) (drop k bs) (sent ++ sent_pieces c [take k bs])) as (pieces & Hcat & Hall & ->).
    { rewrite length_drop. unfold bs in *. cbn [length] in *. lia. }
    exists (take k bs :: pieces). cbn [concat]. rewrite Hcat, take_drop. split; [done|]. split; [by constructor|].
    by rewrite (sent_pieces_cons c (take k bs) pieces), (after_pieces_cons c (take k bs) pieces), app_assoc.
Qed.

Fixpoint obfs_writes (c : TLSObfs) (bs : list (list byte)) (sent : list (list byte)) : list (list byte) * bool :=
  match bs with
  | [] => (sent, true)
  | b :: rest => let '(c, (sent, r)) := TLSObfs_Write now random sessionID write_ends c b sent in if is_ok r then obfs_writes c rest sent else (sent, false)
  end.

Lemma sent_pieces_app c ps qs : sent_pieces c (ps ++ qs) = sent_pieces c ps ++ sent_pieces (after_pieces c ps) qs.
Proof.
  revert c. induction ps as [|p ps IH]; intros c; cbn [app]; [unfold sent_pieces at 2; by destruct (to_firstRequest c)|].
  rewrite sent_pieces_cons, IH, (sent_pieces_cons c p ps), <- app_assoc. by rewrite <- after_pieces_cons.
Qed.

Lemma obfs_writes_ok bs : forall c sent, exists pieces, concat pieces = concat bs /\ Forall piece_ok pieces /\ obfs_writes c bs sent = (sent ++ sent_pieces c pieces, true).
Proof.
  induction bs as [|b bs IH]; intros c sent; [exists []; split; [done|]; split; [constructor|]; cbn; unfold sent_pieces; destruct (to_firstRequest c); by rewrite app_nil_r|].
  cbn [obfs_writes]. unfold TLSObfs_Write. destruct (TLSObfs_write_loop_ok (length b) c b sent) as (ps & Hps & Hall & ->); [done|]. cbn [bind_result is_ok].
  destruct (IH (after_pieces c ps) (sent ++ sent_pieces c ps)) as (qs & Hqs & Hall' & ->). exists (ps ++ qs). rewrite concat_app, Hps, Hqs.
  split; [done|]. split; [by apply Forall_app|]. by rewrite sent_pieces_app, app_assoc.
Qed.

End ObfsWrites.

(** Everything written to a connection that looks like TLS is sent.  The
    bytes of the writes go out cut into pieces of at most 16 KiB: the first
    piece in the session ticket of a TLS client hello, the others each in a
    record of their own; and the hello is one in which the program's own parsers
    find the server name the connection was configured with. *)
Theorem obfs_writes_carried (now : Z) (random sessionID server : list byte) (write_ends : nat -> option go_error) (bs : list (list byte)) :
  (forall n, write_ends n = None) -> zlen random = 28 -> zlen sessionID = 32 -> 0 < zlen server < 48940 -> concat bs <> [] ->
  exists p ps, concat bs = p ++ concat ps /\ piece_ok p /\ Forall piece_ok ps /\
    let hello := makeClientHelloMsg now random sessionID p server in
    obfs_writes now random sessionID write_ends (NewTLSObfs server) bs [] = (hello :: map record ps, true) /\
    exists sn, IndexTLSServerName hello = Ok (Some sn) /\ sn_ServerName sn = server.
Proof.
  intros Hok Hr Hs Hserver Hne. destruct (obfs_writes_ok now random sessionID write_ends Hok bs (NewTLSObfs server) []) as (pieces & Hcat & Hall & ->).
  destruct pieces as [|p ps]; [by rewrite <- Hcat in Hne|]. apply Forall_cons in Hall as [Hp Hall]. exists p, ps. split; [done|]. split; [done|]. split; [done|].
  cbn zeta. split; [done|]. apply hello_names_server; [done|done| |intros ->; rewrite (@zlen_nil byte) in Hserver; lia]. unfold piece_ok, chunkSize in Hp. lia.
Qed.


(** ** Streams that look like HTTP (simple-obfs/http.go) *)

(** [bytes.Index]. *)
Fixpoint bytes_Index (s sep : list byte) : option nat :=
  if bool_decide (take (length sep) s = sep) then Some O
  else match s with [] => None | _ :: rest => S <$> bytes_Index rest sep end.

Definition headerEnd : list byte := [x0d; x0a; x0d; x0a].

Lemma conn_take_split room ready stream buf rest : conn_take room ready stream = (Ok buf, rest) -> stream = buf ++ drop (length buf) stream.
Proof.
  unfold conn_take. destruct (room =? 0); [intros [= <- _]; by rewrite drop_0|]. destruct stream as [|b stream]; [done|]. intros [= <- _]. set (n := Nat.min _ _).
  rewrite length_take. destruct (Nat.le_gt_cases n (length (b :: stream))) as [Hle|Hgt].
  - rewrite Nat.min_l by done. by rewrite take_drop.
  - rewrite Nat.min_r by lia. rewrite take_ge, drop_ge by lia. by rewrite app_nil_r.
Qed.

Lemma bytes_Index_bound buf : forall idx, bytes_Index buf headerEnd = Some idx -> (idx + 4 <= length buf)%nat.
Proof.
  induction buf as [|b buf IH]; intros idx Hidx; cbn [bytes_Index] in Hidx; case_bool_decide as E; try done.
  - injection Hidx as <-. apply (f_equal length) in E. rewrite length_take in E. change (length headerEnd) with 4%nat in E. lia.
  - destruct (bytes_Index buf headerEnd) as [k|]; [|done]. injection Hidx as <-. pose proof (IH k eq_refl). cbn [length]. lia.
Qed.

Section HTTPObfs.
Context (BufferSize : Z).

Record HTTPObfs := mkHTTPObfs { ho_buf : option (list byte); ho_offset : nat; ho_firstResponse : bool }.
Definition NewHTTPObfs : HTTPObfs := mkHTTPObfs None 0 true.

Definition HTTPObfs_Read (c : HTTPObfs) (room : Z) (ready : nat) (stream : list byte) : HTTPObfs * (result (list byte) * list byte) :=
  match ho_buf c with
  | Some buf =>
      let out := take (Z.to_nat room) (drop (ho_offset c) buf) in
      let offset := (ho_offset c + length out)%nat in
      (mkHTTPObfs (if Nat.eqb offset (length buf) then None else Some buf) offset (ho_firstResponse c), (Ok out, stream))
  | None =>
      if ho_firstResponse c then
        match conn_take BufferSize ready stream with
        | (Ok buf, stream) =>
            match bytes_Index buf headerEnd with
            | None => (c, (Err EOF, stream))
            | Some idx =>
                let body := drop (idx + 4) buf in
                let out := take (Z.to_nat room) body in
                (if (length out <? length body)%nat then mkHTTPObfs (Some buf) (idx + 4 + length out) false
                 else mkHTTPObfs None (ho_offset c) false, (Ok out, stream))
            end
        | (r, stream) => (c, (r, stream))
        end
      else (c, conn_take room ready stream)
  end.

(** What is still to be read: the rest of the buffer, then the connection. *)
Definition http_left (c : HTTPObfs) (stream left : list byte) : Prop :=
  ho_firstResponse c = false /\
  match ho_buf c with
  | Some buf => (ho_offset c < length buf)%nat /\ left = drop (ho_offset c) buf ++ stream
  | None => left = stream
  end.

Lemma http_step c room ready stream left : http_left c stream left -> 0 < room ->
  match HTTPObfs_Read c room ready stream with
  | (c', (Ok out, stream')) => exists left', left = out ++ left' /\ http_left c' stream' left' /\ out <> []
  | (_, (Err e, _)) => e = EOF /\ left = []
  | (_, (Panic _, _)) => False
  end.
Proof.
  intros [Hf Hl] Hroom. unfold HTTPObfs_Read. destruct (ho_buf c) as [buf|] eqn:Eb.
  - destruct Hl as [Ho ->]. set (rest := drop (ho_offset c) buf). assert (0 < length rest)%nat as Hr by (unfold rest; rewrite length_drop; lia).
    exists (drop (Z.to_nat room) rest ++ stream). split; [by rewrite app_assoc, take_drop|].
    assert (take (Z.to_nat room) rest <> []) as Hne by (destruct rest; [cbn in Hr; lia|]; destruct (Z.to_nat room) eqn:E; [lia|done]).
    split; [|done]. split; [done|]. cbn [ho_buf ho_offset]. rewrite length_take. unfold rest. rewrite length_drop.
    destruct (Nat.eqb_spec (ho_offset c + Nat.min (Z.to_nat room) (length buf - ho_offset c)) (length buf)) as [He|He]; cbn [ho_buf ho_offset].
    + rewrite (drop_ge (drop _ _)) by (rewrite length_drop; lia). done.
    + split; [lia|]. rewrite drop_drop. f_equal. f_equal. lia.
  - rewrite Hf, Hl. destruct stream as [|b stream].
    + unfold conn_take. rewrite (proj2 (Z.eqb_neq _ _)) by lia. done.
    + destruct (conn_take_ok room ready (b :: stream)) as (n & Hn & Hle & ->); [done|done|]. exists (drop n (b :: stream)). split; [by rewrite take_drop|].
      split; [split; [done|by rewrite Eb]|]. destruct n; [lia|done].
Qed.

Lemma http_reads plan : forall c stream left, http_left c stream left -> Forall (fun r => 0 < fst r) plan ->
  let '(outs, e) := reads HTTPObfs_Read plan c stream in
  (exists rest, left = outs ++ rest) /\ (e = None \/ e = Some EOF /\ outs = left) /\ ((length left <= length plan)%nat -> outs = left).
Proof.
  induction plan as [|[room ready] plan IH]; intros c stream left Hc Hplan; cbn [reads].
  - split; [by exists left|]. split; [by left|]. intros Hl. destruct left; [done|cbn in Hl; lia].
  - apply Forall_cons in Hplan as [Hroom Hplan]. pose proof (http_step c room ready stream left Hc Hroom) as Hstep.
    destruct (HTTPObfs_Read c room ready stream) as [c' [[out|e|] stream']]; [|destruct Hstep as [-> ->]; split; [by exists []|]; split; [by right|done]|done].
    destruct Hstep as (left' & -> & Hc' & Hne). pose proof (IH c' stream' left' Hc' Hplan) as H. destruct (reads HTTPObfs_Read plan c' stream') as [outs e].
    destruct H as ([rest ->] & He & Hall). split; [exists rest; by rewrite app_assoc|]. split; [destruct He as [He|[He Ho]]; [by left|right; split; [done|by rewrite <- Ho]]|].
    rewrite length_app. cbn [length]. intros Hl. rewrite <- Hall; [done|]. destruct out; [done|]. cbn [length] in Hl. lia.
Qed.

(** When the header of the response arrives with the first read, everything
    behind it is read, in order. *)
Theorem http_responses_intact (stream buf : list byte) (idx : nat) (room : Z) (ready : nat) (plan : list (Z * nat)) :
  conn_take BufferSize ready stream = (Ok buf, drop (length buf) stream) -> bytes_Index buf headerEnd = Some idx -> 0 < room -> Forall (fun r => 0 < fst r) plan ->
  let left := drop (idx + 4) stream in
  let '(outs, e) := reads HTTPObfs_Read ((room, ready) :: plan) NewHTTPObfs stream in
  (exists rest, left = outs ++ rest) /\ (e = None \/ e = Some EOF /\ outs = left) /\ ((length left <= length plan)%nat -> outs = left).
Proof.
  intros Htake Hidx Hroom Hplan. cbn zeta. cbn [reads]. unfold HTTPObfs_Read at 1. cbn [NewHTTPObfs ho_buf ho_firstResponse]. rewrite Htake, Hidx.
  pose proof (conn_take_split _ _ _ _ _ Htake) as Hs. pose proof (bytes_Index_bound _ _ Hidx) as Hle.
  set (body := drop (idx + 4) buf). assert (drop (idx + 4) stream = body ++ drop (length buf) stream) as ->
    by (rewrite Hs at 1; by rewrite drop_app_le).
  set (c' := if (length (take (Z.to_nat room) body) <? length body)%nat then _ else _).
  assert (http_left c' (drop (length buf) stream) (drop (Z.to_nat room) body ++ drop (length buf) stream)) as Hl.
  { unfold c', http_left. rewrite length_take. destruct (Nat.ltb_spec (Nat.min (Z.to_nat room) (length body)) (length body)) as [Hlt|Hge]; cbn [ho_buf ho_offset ho_firstResponse]; (split; [done|]).
    - assert (length body = length buf - (idx + 4))%nat as Hb by (unfold body; by rewrite length_drop). split; [lia|]. rewrite Nat.min_l by lia. unfold body. by rewrite drop_drop.
    - by rewrite drop_ge by lia. }
  pose proof (http_reads plan c' _ _ Hl Hplan) as H. destruct (reads HTTPObfs_Read plan c' (drop (length buf) stream)) as [outs e].
  destruct H as ([rest Hr] & He & Hall). set (out := take (Z.to_nat room) body) in *.
  assert (body ++ drop (length buf) stream = out ++ drop (Z.to_nat room) body ++ drop (length buf) stream) as -> by (unfold out; by rewrite app_assoc, take_drop).
  rewrite Hr in *. split; [exists rest; by rewrite app_assoc|]. split; [destruct He as [He|[He Ho]]; [by left|right; split; [done|by rewrite <- Ho]]|].
  rewrite length_app. intros Hl'. rewrite <- Hall; [done|lia].
Qed.

End HTTPObfs.
Module FramingDemo.
Import BufDemo.

Definition exactLen (v : Z) : Z := zlen (AppendUvarint v).
Definition zeros_for (b : list byte) : list byte := repeat x00 (Z.to_nat (6 + exactLen (zlen b))).
Definition written : list (list byte + Buffer) := [inl (bytes_of_string "hello "); inr (mkBuffer 20 (bytes_of_string "world")); inl []].
Definition small_reads : list (Z * nat) := repeat (4, 3%nat) 16.

Lemma gun_stream_intact_witness : exists ws, map_result (gun_sent exactLen zeros_for) written = Ok ws /\
  reads Gun_read small_reads newGunConn (concat ws) = (bytes_of_string "hello world", Some EOF).
Proof.
  destruct (gun_stream_intact exactLen zeros_for written small_reads) as (ws & Hws & H).
  - done.
  - intros b. unfold zeros_for, zlen at 1. rewrite List.repeat_length. pose proof (zlen_nonneg (AppendUvarint (zlen b))). unfold exactLen. lia.
  - repeat constructor; by vm_compute.
  - repeat constructor; by vm_compute.
  - exists ws. split; [done|]. vm_compute in Hws. injection Hws as <-. by_compute.
Defined.

(** A server that answers with two records. *)
Definition answer : list byte := repeat x00 105 ++ be_encode 2 6 ++ bytes_of_string "answer" ++ [x17; x03; x03] ++ be_encode 2 5 ++ bytes_of_string " more".
Lemma obfs_responses_intact_witness : (reads TLSObfs_Read small_reads (NewTLSObfs (bytes_of_string "example.org")) answer).1 = bytes_of_string "answer more".
Proof.
  pose proof (obfs_responses_intact (bytes_of_string "example.org") [bytes_of_string "answer"; bytes_of_string " more"] answer small_reads) as H.
  destruct (reads TLSObfs_Read small_reads _ answer) as [outs e]. destruct H as (_ & _ & H); [|repeat constructor; by vm_compute|apply H; vm_compute; lia].
  change answer with ((repeat x00 105 ++ be_encode 2 6 ++ bytes_of_string "answer") ++ ([x17; x03; x03] ++ be_encode 2 5 ++ bytes_of_string " more") ++ []).
  constructor; [by exists (repeat x00 105)|]. constructor; [by exists [x17; x03; x03]|constructor].
Defined.

Definition never : nat -> option go_error := fun _ => None.
Lemma obfs_writes_carried_witness : exists p ps,
  bytes_of_string "request" = p ++ concat ps /\
  obfs_writes 1700000000 (repeat x2a 28) (repeat x2b 32) never (NewTLSObfs (bytes_of_string "example.org")) [bytes_of_string "req"; bytes_of_string "uest"] []
  = (makeClientHelloMsg 1700000000 (repeat x2a 28) (repeat x2b 32) p (bytes_of_string "example.org") :: map record ps, true).
Proof.
  destruct (obfs_writes_carried 1700000000 (repeat x2a 28) (repeat x2b 32) (bytes_of_string "example.org") never [bytes_of_string "req"; bytes_of_string "uest"])
    as (p & ps & Hcat & _ & _ & Hsent & _); [done|done|done|by vm_compute|done|]. exists p, ps. by split.
Defined.

(** A connection that ends inside the length of a frame: the error is dropped, and the caller is told that nothing was read. *)
Example truncated_length_no_error : (TLSObfs_Read (mkTLSObfs [] 0 false false) 16 16 [x17; x03; x03; x00]).2 = (Ok [], []).
Proof. by_compute. Qed.

(** The header of a response is looked for in the first read only. *)
Definition response : list byte := bytes_of_string "HTTP/1.1 101 Switching" ++ headerEnd ++ bytes_of_string "data".
Example header_in_pieces_fails : reads (HTTPObfs_Read 32768) small_reads NewHTTPObfs response = ([], Some EOF).
Proof. by_compute. Qed.
Example header_at_once : reads (HTTPObfs_Read 32768) ((16, 1000%nat) :: small_reads) NewHTTPObfs response = (bytes_of_string "data", Some EOF).
Proof. by_compute. Qed.

End FramingDemo.
