(* ===== verification/Sip003.v ===== *)
(** * Plugin options (transport/sip003)

    The options of a shadowsocks plugin are one string of the form
    [key=value;key;...] with backslash escapes.  [indexUnescaped],
    [ParsePluginOptions] and [Args] (args.go), and what the two plugins make of
    them: [newObfsLocal] (obfs.go) and [newV2RayPlugin] (v2ray.go), up to the
    construction of the transports.  [CreatePlugin] is plugin.go.

    A string is the list of its bytes; a position in it is the rest of it.

    - Options that are escaped as the documentation asks are read back
      ([plugin_options_read_back]), and the parser always ends
      ([ParsePluginOptions_ends]). *)
From stdpp Require Import gmap.
From Stdlib Require Import ZArith Lia Bool.
From S2P Require Import Prelude.

Definition backslash : byte := x5c.
Definition semicolon : byte := x3b.
Definition equals_sign : byte := x3d.

(** [Args]; a key that is present has at least one value unless it was set by hand. *)
Definition Args := gmap (list byte) (list (list byte)).

Definition Args_Get (args : Args) (key : list byte) : option (list byte) :=
  match args !! key with Some (value :: _) => Some value | _ => None end.
Definition Args_Add (key value : list byte) (args : Args) : Args := <[key := default [] (args !! key) ++ [value]]> args.

(** The number of bytes up to the terminator, and these bytes unescaped. *)
Fixpoint indexUnescaped (s term : list byte) : result (nat * list byte) :=
  match s with
  | [] => Ok (O, [])
  | b :: rest =>
      if bool_decide (b ∈ term) then Ok (O, [])
      else if bool_decide (b = backslash) then
        match rest with
        | [] => Err (ENew "nothing following final escape")
        | c :: rest => let* (i, unesc) := indexUnescaped rest term in Ok (S (S i), c :: unesc)
        end
      else let* (i, unesc) := indexUnescaped rest term in Ok (S i, b :: unesc)
  end.

(** The loop; every round takes at least one byte of the rest [s]. *)
Fixpoint parse_loop (fuel : nat) (s : list byte) (opts : Args) : result Args :=
  match s with
  | [] => Ok opts
  | _ =>
      match fuel with
      | O => Err OutOfFuel
      | S fuel' =>
          let* (offset, key) := indexUnescaped s [equals_sign; semicolon] in
          if bool_decide (key = []) then Err (ENew "empty key")
          else match drop offset s with
               | b :: s =>
                   if bool_decide (b = equals_sign) then
                     let* (offset, value) := indexUnescaped s [semicolon] in
                     parse_loop fuel' (drop (S offset) s) (Args_Add key value opts)
                   else parse_loop fuel' s (Args_Add key [x31] opts)
               | [] => parse_loop fuel' [] (Args_Add key [x31] opts)
               end
      end
  end.

Definition ParsePluginOptions (s : list byte) : result Args := parse_loop (length s) s ∅.

(** ** The plugins *)

Definition text (s : string) : list byte := bytes_of_string s.
Definition get (args : Args) (key : string) : option (list byte) := Args_Get args (text key).

(** [newObfsLocal]: whether TLS is used, and the host. *)
Record ObfsLocal := mkObfsLocal { ol_tls : bool; ol_host : list byte }.
Definition newObfsLocal (pluginOpts : Args) : result ObfsLocal :=
  let mode := default (text "http") (get pluginOpts "obfs") in
  let host := default [] (get pluginOpts "obfs-host") in
  if bool_decide (mode = text "http") then Ok (mkObfsLocal false host)
  else if bool_decide (mode = text "tls") then Ok (mkObfsLocal true host)
  else Err (ENew "unknown obfs mode").

Inductive V2RayTransport :=
| Websocket (host path : list byte)
| QUIC.

Record V2RayPlugin := mkV2RayPlugin {
  v2_tls : bool;
  v2_certificatePath : list byte;
  v2_certificate : option (list byte);
  v2_serverName : list byte;
  v2_transport : V2RayTransport;
  v2_muxWrapper : bool;
}.

Section Plugins.
(** [strconv.Atoi]. *)
Context (Atoi : list byte -> result Z).

Definition fixedCert (certRaw : list byte) : list byte :=
  text "-----BEGIN CERTIFICATE-----" ++ [x0a] ++ certRaw ++ [x0a] ++ text "-----END CERTIFICATE-----".

(** [newV2RayPlugin] up to the client transport and its TLS configuration. *)
Definition newV2RayPlugin (pluginOpts : Args) : result V2RayPlugin :=
  let mode := default (text "websocket") (get pluginOpts "mode") in
  let host := default (text "cloudfront.com") (get pluginOpts "host") in
  let path := default (text "/") (get pluginOpts "path") in
  let* (transport, mux) :=
    if bool_decide (mode = text "websocket") then
      let* mux := match get pluginOpts "mux" with
                  | Some muxOpt => with_cause "parse mux value" (Atoi muxOpt)
                  | None => Ok 1
                  end in
      Ok (Websocket host path, mux)
    else if bool_decide (mode = text "quic") then Ok (QUIC, 0)
    else Err (ENew "v2ray-plugin: unknown mode") in
  Ok (mkV2RayPlugin (bool_decide (is_Some (get pluginOpts "tls"))) (default [] (get pluginOpts "cert")) (fixedCert <$> get pluginOpts "certRaw")
        (default [] (get pluginOpts "host")) transport (0 <? mux)).

Inductive Plugin := PObfsLocal (p : ObfsLocal) | PV2Ray (p : V2RayPlugin).

Definition CreatePlugin (name : string) (pluginArgs : list byte) : result Plugin :=
  let* pluginOptions := with_cause "parse plugin_opts" (ParsePluginOptions pluginArgs) in
  if String.eqb name "obfs-local" then let* p := newObfsLocal pluginOptions in Ok (PObfsLocal p)
  else if String.eqb name "v2ray-plugin" then let* p := newV2RayPlugin pluginOptions in Ok (PV2Ray p)
  else Err (ENew ("plugin not found: " +:+ name)).

End Plugins.

(** ** Reading back *)

(** Semicolons, equal signs and backslashes are escaped with a backslash. *)
Definition escape_byte (b : byte) : list byte := if bool_decide (b ∈ [semicolon; equals_sign; backslash]) then [backslash; b] else [b].
Definition escape (s : list byte) : list byte := concat (map escape_byte s).

(** An option with a value, or without. *)
Definition print_option (o : list byte * option (list byte)) : list byte :=
  escape o.1 ++ match o.2 with Some value => equals_sign :: escape value | None => [] end.
Fixpoint print_options (os : list (list byte * option (list byte))) : list byte :=
  match os with
  | [] => []
  | [o] => print_option o
  | o :: rest => print_option o ++ semicolon :: print_options rest
  end.
Definition add_option (args : Args) (o : list byte * option (list byte)) : Args := Args_Add o.1 (default [x31] o.2) args.

Lemma indexUnescaped_escape s term rest : (forall b, b ∈ term -> b ∈ [semicolon; equals_sign]) ->
  match rest with [] => True | b :: _ => b ∈ term end ->
  indexUnescaped (escape s ++ rest) term = Ok (length (escape s), s).
Proof.
  intros Hterm Hrest. induction s as [|b s IH].
  - cbn. destruct rest as [|b rest]; [done|]. cbn. by rewrite bool_decide_eq_true_2.
  - assert (backslash ∉ term) as Hb by (intros Hin; apply Hterm in Hin; set_solver).
    unfold escape. cbn [map concat]. fold (escape s). unfold escape_byte. case_bool_decide as Hs; cbn [app indexUnescaped].
    + rewrite bool_decide_eq_false_2 by done. rewrite bool_decide_eq_true_2 by done. rewrite IH. by cbn.
    + rewrite bool_decide_eq_false_2 by (intros Hin; apply Hterm in Hin; set_solver). rewrite bool_decide_eq_false_2 by set_solver. rewrite IH. by cbn.
Qed.

Lemma escape_nonempty s : s <> [] -> escape s <> [].
Proof. destruct s as [|b s]; [done|]. intros _. unfold escape. cbn. unfold escape_byte. by case_bool_decide. Qed.

(** One round of the loop. *)
Lemma parse_option fuel o rest opts : o.1 <> [] -> match rest with [] => True | b :: _ => b = semicolon end ->
  parse_loop (S fuel) (print_option o ++ rest) opts = parse_loop fuel (tail rest) (add_option opts o).
Proof.
  destruct o as [key value]. cbn [fst]. intros Hk Hrest. unfold print_option, add_option. cbn [fst snd]. pose proof (escape_nonempty key Hk) as Hne.
  set (after := match value with Some value => equals_sign :: escape value | None => [] end).
  assert (indexUnescaped (escape key ++ after ++ rest) [equals_sign; semicolon] = Ok (length (escape key), key)) as Ei.
  { apply indexUnescaped_escape; [set_solver|]. unfold after. destruct value; cbn; [set_solver|]. destruct rest; [done|]. subst. set_solver. }
  assert (parse_loop (S fuel) ((escape key ++ after) ++ rest) opts = match after ++ rest with
    | b :: s => if bool_decide (b = equals_sign) then let* (offset, value) := indexUnescaped s [semicolon] in parse_loop fuel (drop (S offset) s) (Args_Add key value opts)
                else parse_loop fuel s (Args_Add key [x31] opts)
    | [] => parse_loop fuel [] (Args_Add key [x31] opts) end) as ->.
  { rewrite <- app_assoc. destruct (escape key ++ after ++ rest) as [|b0 s0] eqn:E; [by apply app_eq_nil in E as [? _]|].
    cbn [parse_loop]. rewrite Ei. cbn [bind_result]. rewrite bool_decide_eq_false_2 by done. by rewrite <- E, drop_app_length. }
  unfold after. destruct value as [value|]; cbn [app].
  - rewrite bool_decide_eq_true_2 by done. rewrite indexUnescaped_escape; [|set_solver|destruct rest; [done|subst; set_solver]]. cbn [bind_result default].
    rewrite <- Nat.add_1_r, <- drop_drop, drop_app_length. by destruct rest.
  - destruct rest as [|b rest]; [done|]. subst b. by rewrite bool_decide_eq_false_2.
Qed.

Lemma print_option_nonempty o : o.1 <> [] -> (0 < length (print_option o))%nat.
Proof. intros Hk. unfold print_option. rewrite length_app. pose proof (escape_nonempty o.1 Hk). destruct (escape o.1); [done|cbn; lia]. Qed.

Lemma parse_loop_print os : forall fuel opts, Forall (fun o => fst o <> []) os -> (length (print_options os) <= fuel)%nat ->
  parse_loop fuel (print_options os) opts = Ok (fold_left add_option os opts).
Proof.
  induction os as [|o os IH]; intros fuel opts Hall Hfuel; [by destruct fuel|]. apply Forall_cons in Hall as [Hk Hall]. pose proof (print_option_nonempty o Hk) as Hpos.
  cbn [fold_left]. destruct os as [|o' os].
  - cbn [print_options] in *. destruct fuel as [|fuel]; [lia|]. rewrite <- (app_nil_r (print_option o)). rewrite parse_option by done. by destruct fuel.
  - set (os' := o' :: os) in *. change (print_options (o :: os')) with (print_option o ++ semicolon :: print_options os') in *.
    rewrite length_app in Hfuel. cbn [length] in Hfuel. destruct fuel as [|fuel]; [lia|]. rewrite parse_option by done. cbn [tail]. apply IH; [done|lia].
Qed.

(** Plugin options are read back.  For any list of options, with or without
    values, whose keys are not empty, written with semicolons, equal signs and
    backslashes escaped: the parser returns exactly the values given to each key,
    in order, and the value 1 for an option without one. *)
Theorem plugin_options_read_back (os : list (list byte * option (list byte))) :
  Forall (fun o => fst o <> []) os -> ParsePluginOptions (print_options os) = Ok (fold_left add_option os ∅).
Proof. intros Hall. by apply parse_loop_print. Qed.

Lemma indexUnescaped_bound s term : forall n i u, (length s <= n)%nat -> indexUnescaped s term = Ok (i, u) -> (i <= length s)%nat /\ (u <> [] -> (0 < i)%nat).
Proof.
  intros n. revert s. induction n as [|n IH]; intros [|b s] i u Hn Hi; cbn in Hn; try lia; cbn [indexUnescaped] in Hi; try (injection Hi as <- <-; by split).
  case_bool_decide; [injection Hi as <- <-; split; [lia|done]|]. case_bool_decide.
  - destruct s as [|c s]; [done|]. destruct (indexUnescaped s term) as [[j v]| |] eqn:E; try done. cbn in Hi. injection Hi as <- <-. apply IH in E as [E _]; [|cbn in Hn; lia]. cbn [length]. split; [lia|lia].
  - destruct (indexUnescaped s term) as [[j v]| |] eqn:E; try done. cbn in Hi. injection Hi as <- <-. apply IH in E as [E _]; [|lia]. cbn [length]. split; [lia|lia].
Qed.
Lemma indexUnescaped_returns s term : forall n, (length s <= n)%nat -> match indexUnescaped s term with Ok _ => True | Err e => e <> OutOfFuel | Panic _ => False end.
Proof.
  intros n. revert s. induction n as [|n IH]; intros [|b s] Hn; cbn in Hn; try lia; cbn [indexUnescaped]; try done.
  case_bool_decide; [done|]. case_bool_decide.
  - destruct s as [|c s]; [done|]. cbn in Hn. pose proof (IH s ltac:(lia)) as Hs. by destruct (indexUnescaped s term) as [[]| |].
  - pose proof (IH s ltac:(lia)) as Hs. by destruct (indexUnescaped s term) as [[]| |].
Qed.

Lemma parse_loop_ends fuel : forall s opts, (length s <= fuel)%nat -> match parse_loop fuel s opts with Ok _ => True | Err e => e <> OutOfFuel | Panic _ => False end.
Proof.
  induction fuel as [|fuel IH]; intros s opts Hs; [by destruct s; [|cbn in Hs; lia]|]. destruct s as [|b s]; [done|]. cbn [parse_loop]. set (bs := b :: s) in *.
  pose proof (indexUnescaped_returns bs [equals_sign; semicolon] (length bs) ltac:(done)) as Hr. destruct (indexUnescaped bs [equals_sign; semicolon]) as [[offset key]| |] eqn:E; try done. cbn [bind_result].
  apply (indexUnescaped_bound _ _ (length bs)) in E as [Ho Hk]; [|done]. case_bool_decide as Hkey; [done|]. pose proof (Hk Hkey) as Hpos.
  assert (length (drop offset bs) < S fuel)%nat as Hd by (rewrite length_drop; lia). destruct (drop offset bs) as [|c rest] eqn:Ed; [apply IH; cbn; lia|]. cbn [length] in Hd.
  case_bool_decide; [|apply IH; lia]. pose proof (indexUnescaped_returns rest [semicolon] (length rest) ltac:(done)) as Hr'.
  destruct (indexUnescaped rest [semicolon]) as [[offset' value]| |]; try done. cbn [bind_result]. apply IH. rewrite length_drop. lia.
Qed.

(** The parser ends on every input: the number of bytes bounds its rounds. *)
Theorem ParsePluginOptions_ends (s : list byte) : match ParsePluginOptions s with Ok _ => True | Err e => e <> OutOfFuel | Panic _ => False end.
Proof. by apply parse_loop_ends. Qed.

Module Sip003Demo.

Definition demo : list (list byte * option (list byte)) :=
  [(text "secret", Some (text "nou")); (text "cache", Some (text "a;b=c\")); (text "tls", None); (text "secret", Some (text "yes"))].
Lemma plugin_options_read_back_witness :
  match ParsePluginOptions (print_options demo) with
  | Ok args => args !! text "secret" = Some [text "nou"; text "yes"] /\ get args "cache" = Some (text "a;b=c\") /\ get args "tls" = Some [x31]
  | _ => False
  end.
Proof. rewrite (plugin_options_read_back demo); [by vm_compute|]. repeat constructor; discriminate. Defined.

Definition noAtoi (s : list byte) : result Z := Err (ENew "invalid syntax").
Example v2ray_defaults : CreatePlugin noAtoi "v2ray-plugin" (text "tls;host=example.org") =
  Ok (PV2Ray (mkV2RayPlugin true [] None (text "example.org") (Websocket (text "example.org") (text "/")) true)).
Proof. by_compute. Qed.
Example obfs_mode : CreatePlugin noAtoi "obfs-local" (text "obfs=tls;obfs-host=example.org") = Ok (PObfsLocal (mkObfsLocal true (text "example.org"))).
Proof. by_compute. Qed.
Example obfs_unknown_mode : CreatePlugin noAtoi "obfs-local" (text "obfs=udp") = Err (ENew "unknown obfs mode").
Proof. by_compute. Qed.

End Sip003Demo.
